(* ===== verification/_CoqProject ===== *)
-Q . S2P
Prelude.v
GoStrings.v
Sha256.v
Encoding.v
Errors.v
Prog.v
Threads.v
Docker.v
Kube.v
Cluster.v
Filters.v
Identity.v
PullStore.v
PullScope.v
Validation.v
PodMeta.v
Lock.v
Discipline.v
Workload.v
Net.v
Ports.v
Services.v
Resources.v
Volumes.v
Lifecycle.v
Networks.v
Isolation.v
Inspect.v
InspectProps.v
ImageConfig.v
Secrets.v
Create.v
CreateProps.v
Swarm.v
SwarmSpec.v
SwarmService.v
SwarmProps.v
SwarmTask.v
TaskProps.v
Plugins.v
PluginProps.v
Authz.v
AuthzProps.v
Oci.v
Images.v
Transfer.v
ImageInspect.v
ImageProps.v
ImageInspectProps.v
RegistryApi.v
RegistryApiProps.v
RegistryCreds.v
ImageUse.v
ImageUseProps.v
TransferProps.v
PullProps.v
PushProps.v
Copier.v
Config.v
Daemon.v
Events.v
EventProps.v
Gateway.v
GatewayProps.v
Exec.v
ExecProps.v
Attach.v
AttachProps.v
System.v
SystemProps.v
Builder.v
BuilderProps.v
Logs.v
LogsProps.v
