(* ===== verification/Prelude.v ===== *)
(** * Dink: a verification library of its translation core (root file)

    Dink serves the Docker API on a Kubernetes cluster: [core/translator] answers a
    Docker request with requests to the Kubernetes API, [core/identity] confines a
    client to the namespace of its certificate's organization, [core/registry]
    stores images and guards them with per-namespace credentials, and [core/secrets]
    resolves secret references in environments.  The library models these parts as
    executable Rocq definitions and proves what makes them correct.

    ** How the code is modelled

    Pure functions are functions; Go's (value, error) pairs are [result] (this file),
    and errors are the trees that [errors.As] walks ([Errors]).  A method that talks
    to the API server, a mutex, a clock, a plugin or the registry is a program of
    [Prog]: a tree of the commands of [Kube.cmd], whose answers come from an
    environment that is not restricted: other clients of the cluster and other
    goroutines act between any two requests.  A theorem about a method speaks of all
    its executions ([exec]): of the commands it issues, each with the history before
    it, and of what it returns.  What the API server documents and a theorem needs is
    a hypothesis on the answers ([Kube.api_rely]).  [Cluster] is an in-memory server
    to evaluate methods on.  [Discipline] is the locking discipline of the methods.
    Strings are byte strings ([GoStrings]); sizes and counts are integers with the
    wrap-around of their width written out; Go maps are [gmap]s, and where a range
    over one could matter the order is a parameter.

    ** Parts, and where they are

    - shared: [Prelude] (results, lists, options, integers, hints), [GoStrings],
      [Sha256], [Encoding] (base64 and CSV), [Errors] (core/translator/errors.go),
      [Prog], [Docker] and [Kube] (the API types and commands), [Cluster],
      [Validation] (name rules), [Discipline];
    - requests: [Filters] (pkg/filters, prune.go), [Identity] (core/identity),
      [PodMeta] (pod_metadata.go);
    - registry credentials: [PullStore] (pullauth/store.go, build.go), [PullScope]
      (pullauth/scope.go, middleware.go);
    - containers: [Lock] (container_lock.go, as a transition system over any number of
      goroutines), [Workload] (container_workload.go and the optimistic updates),
      [Ports], [Services] (container_name.go, container_aliases.go), [Resources],
      [Volumes] (volume.go, volume_plugin.go, container_volumes.go), [Lifecycle]
      (container_lifecycle.go, container_prune.go), [ImageConfig], [Secrets]
      (core/secrets, container_env.go), [Create] and [CreateProps]
      (container_create.go, which composes all of these);
    - sessions: [Threads] (interleavings of programs over shared state), [Exec]
      (container_exec.go) with [ExecProps], [Attach] (container_attach.go) with
      [AttachProps], [Logs] (container_logs.go, swarm_logs.go, and what the handlers
      of core/server/router write) with [LogsProps];
    - networks: [Networks] (network*.go) and [Isolation] (what its policies admit);
    - Swarm: [Swarm] (swarm.go, and swarm_secret.go and swarm_config.go once over the
      kind), [SwarmSpec] and [SwarmService] (swarm_service.go: the pure translation of
      a spec, and the methods) with [SwarmProps], [SwarmTask] (swarm_task.go,
      swarm_node.go, the cluster view of swarm.go) with [TaskProps];
    - plugins: [Plugins] (core/plugins: registry.go, plugins.go, spec.go) with
      [PluginProps]; [Authz] (core/auth) with [AuthzProps];
    - images: [Oci] (ref.go, and the manifests, indexes and repositories of the
      package), [Images] (images.go, resolve.go, image_list.go) with [ImageProps],
      [Transfer] (manifest.go, pull.go, push.go) with [TransferProps], [PullProps] and
      [PushProps], and [Copier] (copyBlobs of pull.go, as a transition system);
      [ImageInspect] (inspect.go, distribution.go) with [ImageInspectProps];
      [ImageUse] (the translator's image*.go) with [ImageUseProps];
    - the registry's own API: [RegistryApi] (registry/api: client, handlers and
      conversions) with [RegistryApiProps], [RegistryCreds] (the credentials it
      issues);
    - inspection: [Inspect] (container_inspect.go, container_list.go) with
      [InspectProps]; [System] (system.go) with [SystemProps]; [Events] (events.go:
      subscribing, and the forwarding loop as a function of what its select receives)
      with [EventProps];
    - builds: [Gateway] (core/buildkit: the sessions, Solve, Status and the build
      history, which the gateway guards before it forwards them to BuildKit) with
      [GatewayProps]; [Builder] (build.go: the build cache) with [BuilderProps];
    - the daemon: [Net] (the standard library's number and address syntax), [Config]
      (core/config/config.go), [Daemon] (cmd/dink/command/cli.go, options.go).

    A definition has the name of the function it models; a part of a long function
    that is a definition of its own has a name in lower case with underscores.

    ** What is proved

    - tenants are isolated: [Identity], [PullScope], [Workload.findContainer],
      [Secrets.Resolve] and the policies of [Isolation] confine a request to its
      namespace;
    - creation is complete or undone ([CreateProps]); nothing is deleted or replaced
      that is not the container's, the volume's or the network's own ([Services],
      [Secrets], [Volumes], [Networks]), and updates are retried read-modify-writes
      ([Workload]);
    - locks exclude, are released in order, never deadlock and leave nothing behind
      ([Lock], [Lifecycle], [Discipline]); waiting ends ([Lifecycle]);
    - a command runs once at a time and in the Pod it was created for ([ExecProps]);
      resizing never blocks ([AttachProps]); the log of a service arrives complete and
      in order, and its goroutines end ([LogsProps]);
    - the credential store refines two abstract tables, and what verifies was issued
      ([PullStore]);
    - a Swarm service is confined, complete or undone, and reads back; its update is one
      guarded write, its Services converge, its constraints mean on the cluster what
      they mean in Swarm ([SwarmProps], [SwarmSpec]); listings are exact ([TaskProps]);
    - requests are authorized or refused: a handler runs only after every plugin of the
      namespace allowed it, its response is withheld from the client if a plugin denies
      it and the handler has sent nothing by itself, and plugins that cannot be asked
      refuse ([AuthzProps], [PluginProps]); the plugin tables are those of the existing
      resources;
    - images: listings are exact, removal touches one repository and nothing that is
      retained ([ImageProps]); a manifest is pushed only after what it names
      ([PullProps], [PushProps]); the copying goroutines are bounded, complete and
      always return ([Copier]); history and attestations are exact ([ImageInspectProps]);
      pruning spares what a listed container uses ([ImageUseProps]);
    - the client of the registry's API behaves as the service behind it, but for what
      its messages do not carry, and a build credential covers what was asked for and
      nothing else ([RegistryApiProps], [RegistryCreds]);
    - what clients see is true: states, resources, ports and listings ([InspectProps]),
      and the event stream ([EventProps]), which misses nothing between its lists and
      its watches; counts and disk usage ([SystemProps], [BuilderProps]);
    - builds stay in their client's hands: what BuildKit is asked is about the client's
      own builds and publishes under a credential issued for it, the history a client
      sees is its own and complete, and the names of its builds read back
      ([GatewayProps]);
    - the daemon starts with a valid configuration and listens as it says, though a
      failure leaves the listener open that was opened before it ([Daemon]);
    - translations are exact or refused: ports, resources, mounts, labels, aliases,
      image configuration, health probes, filters; encodings round-trip.

    ** Bounds

    [Lifecycle.waitContainerStopped] polls [stop_ticks] = 1200 times, the two minutes
    of the code in ticks of 100 ms, and is proved to end; [Lifecycle.wait_loop] runs
    for as many ticks as its caller waits, an argument all theorems quantify over, and
    so is the one of [Gateway.getBridge], the rounds that fit before its deadline.  Time
    that passes inside a request is not counted; a deadline that cuts one short is an
    error of that request.  [Attach] waits through commands whose environment says when
    to go on.  The outputs of [Logs] are finite texts: one that is followed ends with
    the request.
    Fuel is used for splitting strings, where it is the length of the string, and for
    the pages of the image index ([Images.tag_pages], [Images.repository_pages]), where
    [ImageProps.pages_suffice] says how much is enough.  Manifests are walked as deep
    as the code walks them ([Transfer.max_depth]).

    ** Parameters

    Classes stand for code outside the repository: JSON codecs, Kubernetes quantities,
    name validation, Unicode tables, regular expressions, time parsing, the retry
    helper, Docker's port syntax, detach keys, layouts of times, error texts, digests, image references, manifest JSON,
    platforms, HTTP and URL syntax, the TLS library, and the iteration orders of Go
    maps.  Their
    laws are separate classes, and a concrete instance is given for each.

    ** Not modelled

    Statistics, and the bytes that attach and exec copy; of the BuildKit gateway its
    construction, the upgrade of connections and the relay of bytes; the HTTP server
    and routers but for the handlers of logs, the RPC transport, registry search, the
    GraphQL queries of attestation data, the commands but for the start of the daemon,
    and the generated SDK, which are transport and glue. *)

From Stdlib Require Export Ascii String ZArith.
From stdpp Require Export base gmap strings list sorting pretty.

Declare Scope dink_scope.
Delimit Scope dink_scope with dink.

(** ** Results: the (value, error) pairs of Go *)

Inductive result (E A : Type) : Type :=
| Ok (a : A)
| Err (e : E).
Arguments Ok {E A} a.
Arguments Err {E A} e.

Definition result_bind {E A B} (r : result E A) (f : A → result E B) : result E B :=
  match r with
  | Ok a => f a
  | Err e => Err e
  end.

Definition result_map {E A B} (f : A → B) (r : result E A) : result E B :=
  match r with
  | Ok a => Ok (f a)
  | Err e => Err e
  end.

Definition is_ok {E A} (r : result E A) : bool :=
  match r with Ok _ => true | Err _ => false end.

Notation "'let?' x := r 'in' k" := (result_bind r (λ x, k))
  (at level 10, x name, k at level 200) : dink_scope.
Notation "'let?' ' p := r 'in' k" := (result_bind r (λ x, match x with p => k end))
  (at level 10, p strict pattern, k at level 200) : dink_scope.

#[global] Open Scope dink_scope.

Lemma result_bind_ok {E A B} (r : result E A) (f : A → result E B) b :
  result_bind r f = Ok b ↔ ∃ a, r = Ok a ∧ f a = Ok b.
Proof. destruct r; naive_solver. Qed.

Lemma result_bind_err {E A B} (r : result E A) (f : A → result E B) e :
  result_bind r f = Err e ↔ r = Err e ∨ ∃ a, r = Ok a ∧ f a = Err e.
Proof. destruct r; naive_solver. Qed.

Lemma result_bind_assoc {E A B C} (r : result E A) (f : A → result E B) (g : B → result E C) :
  result_bind (result_bind r f) g = result_bind r (λ a, result_bind (f a) g).
Proof. by destruct r. Qed.

(** Maps a fallible function over a list, stopping at the first error: the
    [for ... { if err := f(x); err != nil { return err } }] loops of Go. *)
Fixpoint result_mapM {E A B} (f : A → result E B) (l : list A) : result E (list B) :=
  match l with
  | [] => Ok []
  | x :: l => let? y := f x in let? ys := result_mapM f l in Ok (y :: ys)
  end.

Lemma result_mapM_ok {E A B} (f : A → result E B) l ys :
  result_mapM f l = Ok ys ↔ Forall2 (λ x y, f x = Ok y) l ys.
Proof.
  revert ys. induction l as [|x l IH]; intros ys; simpl.
  { split; [intros [= <-]; constructor | by inversion 1]. }
  rewrite result_bind_ok. setoid_rewrite result_bind_ok. setoid_rewrite IH. split.
  - intros (y & Hy & zs & Hzs & [= <-]). by constructor.
  - inversion 1; naive_solver.
Qed.

Lemma result_mapM_elem {E A B} (f : A → result E B) l ys :
  result_mapM f l = Ok ys →
  (∀ x, x ∈ l → ∃ y, y ∈ ys ∧ f x = Ok y) ∧ (∀ y, y ∈ ys → ∃ x, x ∈ l ∧ f x = Ok y).
Proof.
  intros Hf%result_mapM_ok. induction Hf as [|x y l ys Hxy Hf [IH1 IH2]]; [set_solver|].
  split.
  - intros z [->|Hz]%elem_of_cons; [exists y; set_solver|].
    destruct (IH1 z Hz) as (z' & ? & ?). exists z'. set_solver.
  - intros z [->|Hz]%elem_of_cons; [exists x; set_solver|].
    destruct (IH2 z Hz) as (z' & ? & ?). exists z'. set_solver.
Qed.

(** Mapping over a permuted list gives the permuted results. *)
Lemma result_mapM_perm {E A B} (f : A → result E B) l l' ys :
  l ≡ₚ l' → result_mapM f l = Ok ys → ∃ ys', result_mapM f l' = Ok ys' ∧ ys ≡ₚ ys'.
Proof.
  intros Hp. revert ys. induction Hp as [|x l l' Hp IH|x y l|l l1 l' Hp1 IH1 Hp2 IH2];
    intros ys; simpl.
  - intros [= <-]. eauto.
  - destruct (f x) as [y|]; simpl; [|done]. destruct (result_mapM f l) as [zs|]; simpl; [|done].
    intros [= <-]. destruct (IH zs eq_refl) as (zs' & -> & Hzs). simpl. eauto.
  - destruct (f x) as [a|], (f y) as [b|]; simpl; try done;
      destruct (result_mapM f l) as [zs|]; simpl; try done.
    intros [= <-]. eexists. split; [done|]. constructor.
  - intros (ys1 & H1 & Hy1)%IH1. destruct (IH2 _ H1) as (ys2 & H2 & Hy2). exists ys2.
    split; [done|]. by etrans.
Qed.

(** A loop over a list that updates an accumulator and stops at the first error. *)
Fixpoint result_foldM {E A B} (f : B → A → result E B) (acc : B) (l : list A) : result E B :=
  match l with
  | [] => Ok acc
  | x :: l => let? acc := f acc x in result_foldM f acc l
  end.

Lemma result_foldM_app {E A B} (f : B → A → result E B) acc l l' :
  result_foldM f acc (l ++ l') = result_bind (result_foldM f acc l) (λ acc, result_foldM f acc l').
Proof.
  revert acc. induction l as [|x l IH]; intros acc; simpl; [done|].
  rewrite result_bind_assoc. destruct (f acc x); simpl; [apply IH|done].
Qed.

(** ** Tactics *)

(** Splits the hypotheses produced by the [let?] notation. *)
Ltac inv_result :=
  repeat match goal with
  | H : result_bind _ _ = Ok _ |- _ =>
      apply result_bind_ok in H; destruct H as (? & ? & H)
  | H : Ok _ = Ok _ |- _ => injection H as H; try subst
  | H : Err _ = Err _ |- _ => injection H as H; try subst
  | H : Ok _ = Err _ |- _ => discriminate H
  | H : Err _ = Ok _ |- _ => discriminate H
  end.

(** Case analysis on every conditional that blocks a hypothesis or the goal. *)
Ltac case_if :=
  match goal with
  | |- context [if ?b then _ else _] => let E := fresh "E" in destruct b eqn:E
  | H : context [if ?b then _ else _] |- _ => let E := fresh "E" in destruct b eqn:E
  end.

Create HintDb dink.
Create Rewrite HintDb dink.

(** ** Bool reflection *)

Lemma bool_decide_iff {P Q : Prop} `{Decision P, Decision Q} :
  (P ↔ Q) → bool_decide P = bool_decide Q.
Proof. apply bool_decide_ext. Qed.

Lemma existsb_true {A} (f : A → bool) l : existsb f l = true ↔ ∃ x, x ∈ l ∧ f x = true.
Proof.
  rewrite existsb_exists. by setoid_rewrite <- list_elem_of_In.
Qed.

Lemma forallb_true {A} (f : A → bool) l : forallb f l = true ↔ ∀ x, x ∈ l → f x = true.
Proof. rewrite forallb_forall. by setoid_rewrite <- list_elem_of_In. Qed.

Lemma forallb_false {A} (f : A → bool) l : forallb f l = false ↔ ∃ x, x ∈ l ∧ f x = false.
Proof.
  induction l as [|x l IH]; simpl; [set_solver|]. rewrite andb_false_iff, IH. split.
  - intros [Hx|(y & ? & ?)]; [exists x|exists y]; set_solver.
  - intros (y & [->|Hy]%elem_of_cons & Hf); eauto.
Qed.

Lemma existsb_false {A} (f : A → bool) l : existsb f l = false ↔ ∀ x, x ∈ l → f x = false.
Proof.
  rewrite <- not_true_iff_false, existsb_true. split.
  - intros H x Hx. apply not_true_iff_false. naive_solver.
  - intros H (x & Hx & Hf). by rewrite H in Hf.
Qed.

Lemma filter_none {A} (P : A → Prop) `{∀ x, Decision (P x)} (l : list A) :
  (∀ x, x ∈ l → ¬ P x) → filter P l = [].
Proof.
  induction l as [|x l IH]; intros HP; [done|].
  rewrite filter_cons, decide_False by set_solver. apply IH. set_solver.
Qed.

Lemma filter_agree {A} (P Q : A → Prop) `{∀ x, Decision (P x), ∀ x, Decision (Q x)} (l : list A) :
  (∀ x, x ∈ l → P x ↔ Q x) → filter P l = filter Q l.
Proof.
  induction l as [|x l IH]; intros HPQ; [done|]. rewrite !filter_cons.
  rewrite IH by set_solver. specialize (HPQ x ltac:(set_solver)).
  repeat case_decide; tauto.
Qed.

Lemma StronglySorted_filter {A} (R : relation A) (P : A → Prop) `{∀ x, Decision (P x)}
    (l : list A) :
  StronglySorted R l → StronglySorted R (filter P l).
Proof.
  induction 1 as [|x l Hl IH Hx]; [constructor|]. rewrite filter_cons.
  case_decide; [|done]. constructor; [done|].
  apply Forall_forall. intros y [_ Hy]%list_elem_of_filter. rewrite Forall_forall in Hx. auto.
Qed.

(** ** Sorted lists and [slices.Sort] / [slices.Compact] *)

(** [slices.Sort] on strings: Go compares strings bytewise, as [String.le]. *)
Definition slices_Sort (l : list string) : list string := merge_sort String.le l.

(** [slices.Compact] removes consecutive duplicates. *)
Fixpoint slices_Compact {A} `{EqDecision A} (l : list A) : list A :=
  match l with
  | [] => []
  | x :: l =>
      match slices_Compact l with
      | [] => [x]
      | y :: l' => if decide (x = y) then y :: l' else x :: y :: l'
      end
  end.

Definition slices_Contains {A} `{EqDecision A} (l : list A) (x : A) : bool :=
  bool_decide (x ∈ l).

Lemma slices_Sort_Permutation l : slices_Sort l ≡ₚ l.
Proof. apply merge_sort_Permutation. Qed.

Lemma slices_Sort_Sorted l : StronglySorted String.le (slices_Sort l).
Proof. apply (StronglySorted_merge_sort String.le). Qed.

(** Sorting does not depend on the order in which the input was collected, so
    [slices.Sorted(maps.Keys(m))] is a function of the map alone. *)
Lemma slices_Sort_perm l l' : l ≡ₚ l' → slices_Sort l = slices_Sort l'.
Proof.
  intros Hp. apply (StronglySorted_unique String.le); try apply slices_Sort_Sorted.
  by rewrite !slices_Sort_Permutation.
Qed.

Lemma elem_of_slices_Sort x l : x ∈ slices_Sort l ↔ x ∈ l.
Proof. by rewrite slices_Sort_Permutation. Qed.

Section Compact.
Context {A : Type} `{EqDecision A}.
Implicit Types l : list A.

Lemma elem_of_slices_Compact x l : x ∈ slices_Compact l ↔ x ∈ l.
Proof.
  induction l as [|y l IH]; simpl; [done|].
  destruct (slices_Compact l) as [|z l'] eqn:E.
  - rewrite !elem_of_cons, <- IH. set_solver.
  - case_decide; subst; rewrite !elem_of_cons, <- IH, ?elem_of_cons; naive_solver.
Qed.

Lemma slices_Compact_head x l :
  head (slices_Compact (x :: l)) = Some x.
Proof. simpl. destruct (slices_Compact l); [done|]. case_decide; by subst. Qed.

Lemma slices_Compact_StronglySorted (R : relation A) l :
  StronglySorted R l → StronglySorted R (slices_Compact l).
Proof.
  induction 1 as [|x l Hl IH Hx]; simpl; [constructor|].
  pose proof (λ y, elem_of_slices_Compact y l) as Hel.
  destruct (slices_Compact l) as [|z l'] eqn:E; [repeat constructor|].
  case_decide; [done|]. constructor; [done|].
  apply Forall_forall. intros y Hy. rewrite Forall_forall in Hx. apply Hx, Hel, Hy.
Qed.

(** On a sorted list, compacting removes every duplicate. *)
Lemma slices_Compact_NoDup (R : relation A) `{!AntiSymm (=) R} l :
  StronglySorted R l → NoDup (slices_Compact l).
Proof.
  induction 1 as [|x l Hl IH Hx]; simpl; [constructor|].
  pose proof (λ y, elem_of_slices_Compact y l) as Hel.
  pose proof (slices_Compact_StronglySorted R l Hl) as Hs.
  destruct (slices_Compact l) as [|z l'] eqn:E; [repeat constructor; set_solver|].
  case_decide as Hxz; [done|]. constructor; [|done]. intros Hin. apply Hxz.
  apply elem_of_cons in Hin as [->|Hin]; [done|].
  apply StronglySorted_cons in Hs as [Hz _]. rewrite Forall_forall in Hz.
  rewrite Forall_forall in Hx. apply (anti_symm R); [apply Hx, Hel; set_solver|by apply Hz].
Qed.
End Compact.

#[export] Hint Rewrite @elem_of_slices_Compact elem_of_slices_Sort : dink.
#[export] Hint Resolve slices_Sort_Sorted slices_Sort_Permutation : dink.

(** The elements of a map, enumerated in the order of its keys. *)
Definition sorted_keys {V} (m : gmap string V) : list string := slices_Sort (map_to_list m).*1.

Lemma elem_of_sorted_keys {V} (m : gmap string V) k : k ∈ sorted_keys m ↔ is_Some (m !! k).
Proof.
  unfold sorted_keys. rewrite elem_of_slices_Sort, list_elem_of_fmap. split.
  - intros ([k' v] & -> & Hin). apply elem_of_map_to_list in Hin. eauto.
  - intros [v Hv]. exists (k, v). split; [done|]. by apply elem_of_map_to_list.
Qed.

Lemma NoDup_sorted_keys {V} (m : gmap string V) : NoDup (sorted_keys m).
Proof. unfold sorted_keys. rewrite slices_Sort_Permutation. apply NoDup_fst_map_to_list. Qed.

(** [sort.Slice] by a text: the order of elements with equal texts is unspecified in
    Go, and here they keep the order they had. *)
Definition le_by {A} (f : A → string) : relation A := λ a b, String.le (f a) (f b).

#[export] Instance le_by_dec {A} (f : A → string) : RelDecision (le_by f).
Proof. intros a b. unfold le_by. apply _. Defined.
#[export] Instance le_by_total {A} (f : A → string) : Total (le_by f).
Proof. intros a b. apply (total String.le). Qed.
#[export] Instance le_by_trans {A} (f : A → string) : Transitive (le_by f).
Proof. intros a b c. unfold le_by. apply transitivity. Qed.

Definition sort_by {A} (f : A → string) (l : list A) : list A := merge_sort (le_by f) l.

Lemma elem_of_sort_by {A} (f : A → string) l x : x ∈ sort_by f l ↔ x ∈ l.
Proof. unfold sort_by. by rewrite merge_sort_Permutation. Qed.

Lemma sort_by_sorted {A} (f : A → string) l : StronglySorted (le_by f) (sort_by f l).
Proof. apply (StronglySorted_merge_sort (le_by f)). Qed.

(** ** Fixed-width integers *)

Definition int32_max : Z := 2 ^ 31 - 1.
Definition int64_max : Z := 2 ^ 63 - 1.
Definition int64_min : Z := - 2 ^ 63.
Definition int32_min : Z := - 2 ^ 31.
Definition uint16_max : Z := 2 ^ 16 - 1.

Definition in_int32 (z : Z) : Prop := (int32_min ≤ z ≤ int32_max)%Z.
Definition in_int64 (z : Z) : Prop := (int64_min ≤ z ≤ int64_max)%Z.

(** Two's complement wrap-around to [w] bits. *)
Definition wrap_signed (w : Z) (z : Z) : Z := ((z + 2 ^ (w - 1)) mod 2 ^ w - 2 ^ (w - 1))%Z.
Definition wrap_unsigned (w : Z) (z : Z) : Z := (z mod 2 ^ w)%Z.

Lemma wrap_signed_id w z : (0 < w → - 2 ^ (w - 1) ≤ z < 2 ^ (w - 1) → wrap_signed w z = z)%Z.
Proof.
  intros Hw Hz. unfold wrap_signed.
  assert (2 ^ w = 2 * 2 ^ (w - 1))%Z as Hp.
  { rewrite <- Z.pow_succ_r by lia. f_equal. lia. }
  rewrite Z.mod_small; lia.
Qed.

Lemma wrap_unsigned_id w z : (0 ≤ z < 2 ^ w → wrap_unsigned w z = z)%Z.
Proof. intros. unfold wrap_unsigned. by rewrite Z.mod_small. Qed.
