(* ===== verification/GoStrings.v ===== *)
(** * GoStrings: the functions of Go's [strings] package the program uses

    A Go string is a byte sequence, as is a Rocq [string].  The functions that
    consult Unicode tables ([ToLower], [ToUpper], [TrimSpace]) are exact on ASCII
    input; on input with a byte above 127 they use the fields of the class
    [Unicode], so a theorem about them holds for whatever those tables say. *)

From S2P Require Import Prelude.

Local Open Scope string_scope.

(** ** Characters *)

Definition code (c : ascii) : N := N_of_ascii c.

Definition in_range (lo hi c : ascii) : bool := ((code lo <=? code c) && (code c <=? code hi))%N.

Definition is_lower (c : ascii) : bool := in_range "a" "z" c.
Definition is_upper (c : ascii) : bool := in_range "A" "Z" c.
Definition is_digit (c : ascii) : bool := in_range "0" "9" c.
Definition is_alnum (c : ascii) : bool := is_lower c || is_upper c || is_digit c.
Definition is_hex (c : ascii) : bool := is_digit c || in_range "a" "f" c.
Definition is_ascii (c : ascii) : bool := (code c <? 128)%N.

(** A predicate on every character of a string. *)
Fixpoint all_chars (f : ascii → bool) (s : string) : bool :=
  match s with
  | EmptyString => true
  | String c s => f c && all_chars f s
  end.

Fixpoint has_char (c : ascii) (s : string) : bool :=
  match s with
  | EmptyString => false
  | String d s => Ascii.eqb c d || has_char c s
  end.

Fixpoint map_chars (f : ascii → ascii) (s : string) : string :=
  match s with
  | EmptyString => EmptyString
  | String c s => String (f c) (map_chars f s)
  end.

Definition len (s : string) : nat := String.length s.

(** ** Prefixes, suffixes and cuts *)

(** [CutPrefix s p] is the rest of [s] after the prefix [p], if it is one. *)
Fixpoint CutPrefix (s p : string) {struct p} : option string :=
  match p, s with
  | EmptyString, _ => Some s
  | String c p, String d s => if Ascii.eqb c d then CutPrefix s p else None
  | String _ _, EmptyString => None
  end.

Definition HasPrefix (s p : string) : bool :=
  match CutPrefix s p with Some _ => true | None => false end.

Definition TrimPrefix (s p : string) : string :=
  match CutPrefix s p with Some r => r | None => s end.

Definition HasSuffix (s p : string) : bool := HasPrefix (String.rev s) (String.rev p).

(** [Cut s sep] slices [s] around the first instance of [sep]. *)
Fixpoint Cut (s sep : string) : string * string * bool :=
  match CutPrefix s sep with
  | Some r => (EmptyString, r, true)
  | None =>
      match s with
      | EmptyString => (EmptyString, EmptyString, false)
      | String c s =>
          let '(b, a, found) := Cut s sep in
          if found then (String c b, a, true) else (String c b, EmptyString, false)
      end
  end.

Definition Contains (s sub : string) : bool := (Cut s sub).2.

(** [Split s sep] for a separator that is not empty: cut until none is left. *)
Fixpoint split_fuel (n : nat) (s sep : string) : list string :=
  match n with
  | O => [s]
  | S n => match Cut s sep with
           | (b, a, true) => b :: split_fuel n a sep
           | (_, _, false) => [s]
           end
  end.
Definition Split (s sep : string) : list string := split_fuel (len s) s sep.

Fixpoint Join (l : list string) (sep : string) : string :=
  match l with
  | [] => ""
  | [x] => x
  | x :: l => x +:+ sep +:+ Join l sep
  end.

(** [ReplaceAll] of one character by another. *)
Definition replace_char (old new : ascii) (s : string) : string :=
  map_chars (λ c, if Ascii.eqb c old then new else c) s.

(** [ReplaceAll] of one character by nothing. *)
Fixpoint remove_char (old : ascii) (s : string) : string :=
  match s with
  | EmptyString => EmptyString
  | String c s => if Ascii.eqb c old then remove_char old s else String c (remove_char old s)
  end.

(** ** Trimming *)

Fixpoint trim_left (f : ascii → bool) (s : string) : string :=
  match s with
  | EmptyString => EmptyString
  | String c s' => if f c then trim_left f s' else s
  end.
Definition trim_right (f : ascii → bool) (s : string) : string :=
  String.rev (trim_left f (String.rev s)).

(** [Trim s cutset] and [TrimRight s cutset], for a cutset of ASCII characters. *)
Definition Trim (s cutset : string) : string :=
  trim_right (λ c, has_char c cutset) (trim_left (λ c, has_char c cutset) s).
Definition TrimRight (s cutset : string) : string := trim_right (λ c, has_char c cutset) s.

(** [TrimSuffix s p] *)
Definition TrimSuffix (s p : string) : string :=
  match CutPrefix (String.rev s) (String.rev p) with
  | Some r => String.rev r
  | None => s
  end.

(** [s[:n]] and [s[n:]], which panic when [n] exceeds the length. *)
Definition slice_to (s : string) (n : nat) : option string :=
  if decide (n ≤ len s)%nat then Some (String.substring 0 n s) else None.

(** [s[lo:hi]] and [s[lo:]] where the bounds are within the string. *)
Definition slice (s : string) (lo hi : nat) : string := String.substring lo (hi - lo) s.
Definition slice_from (s : string) (lo : nat) : string := slice s lo (len s).

(** [s[:n]], or the whole of [s] when it is shorter. *)
Fixpoint take_chars (n : nat) (s : string) : string :=
  match n, s with
  | S n, String c s => String c (take_chars n s)
  | _, _ => EmptyString
  end.

(** ** Unicode-aware functions *)

Class Unicode := {
  unicode_ToLower : string → string;
  unicode_ToUpper : string → string;
  unicode_TrimSpace : string → string;
  unicode_Fields : string → list string
}.

Definition lower_char (c : ascii) : ascii :=
  if is_upper c then ascii_of_N (code c + 32) else c.
Definition upper_char (c : ascii) : ascii :=
  if is_lower c then ascii_of_N (code c - 32) else c.

(** [strings.EqualFold] against ASCII text: besides the two cases of a letter, the long s
    (bytes 197 191) folds to s and the Kelvin sign (226 132 170) to k. *)
Fixpoint fold_ascii (s : string) : string :=
  match s with
  | EmptyString => EmptyString
  | String "197" (String "191" s) => String "s" (fold_ascii s)
  | String "226" (String "132" (String "170" s)) => String "k" (fold_ascii s)
  | String c s => String (lower_char c) (fold_ascii s)
  end.

Definition EqualFold (s ascii : string) : bool := bool_decide (fold_ascii s = fold_ascii ascii).

Definition ToLower `{Unicode} (s : string) : string :=
  if all_chars is_ascii s then map_chars lower_char s else unicode_ToLower s.
Definition ToUpper `{Unicode} (s : string) : string :=
  if all_chars is_ascii s then map_chars upper_char s else unicode_ToUpper s.
Definition TrimSpace `{Unicode} (s : string) : string :=
  if all_chars is_ascii s
  then trim_right Ascii.is_space (trim_left Ascii.is_space s)
  else unicode_TrimSpace s.

Definition flush (word : string) (words : list string) : list string :=
  if decide (word = "") then words else word :: words.

(** The words of a text, [word] being the beginning of the current one. *)
Fixpoint ascii_fields (word s : string) : list string :=
  match s with
  | EmptyString => flush word []
  | String c s => if Ascii.is_space c then flush word (ascii_fields "" s)
                  else ascii_fields (word +:+ String c "") s
  end.

Definition Fields `{Unicode} (s : string) : list string :=
  if all_chars is_ascii s then ascii_fields "" s else unicode_Fields s.

(** ** Paths ([path.IsAbs], [path.Base], [path.Clean] of a rooted path) *)

Definition IsAbs (p : string) : bool := HasPrefix p "/".

(** The elements of a rooted path, with [.] and [..] resolved: at the root, [..] stays. *)
Definition clean_step (stack : list string) (element : string) : list string :=
  if decide (element = "" ∨ element = ".") then stack
  else if decide (element = "..") then tl stack
  else element :: stack.

Definition Clean_rooted (p : string) : string :=
  "/" +:+ Join (rev (fold_left clean_step (Split p "/") [])) "/".

Definition Base (p : string) : string :=
  if decide (p = "") then "."
  else match last (Split (trim_right (λ c, Ascii.eqb c "/") p) "/") with
       | Some base => if decide (base = "") then "/" else base
       | None => "/"
       end.

(** ** Hexadecimal, as [%x] prints bytes *)

Definition hex_digit (n : N) : ascii :=
  if (n <? 10)%N then ascii_of_N (48 + n) else ascii_of_N (87 + n).

Fixpoint hex (s : string) : string :=
  match s with
  | EmptyString => EmptyString
  | String c s => String (hex_digit (code c / 16)) (String (hex_digit (code c mod 16)) (hex s))
  end.

(** ** Lemmas *)

Lemma sapp_nil_l s : "" +:+ s = s.
Proof. done. Qed.
Lemma sapp_cons c s t : String c s +:+ t = String c (s +:+ t).
Proof. done. Qed.
Lemma sapp_nil_r s : s +:+ "" = s.
Proof. induction s as [|c s IH]; [done|]. by rewrite sapp_cons, IH. Qed.
Lemma sapp_assoc s t u : s +:+ (t +:+ u) = (s +:+ t) +:+ u.
Proof. induction s as [|c s IH]; [done|]. by rewrite !sapp_cons, IH. Qed.
Lemma len_app s t : len (s +:+ t) = len s + len t.
Proof. unfold len. induction s as [|c s IH]; [done|]. rewrite sapp_cons. simpl. by rewrite IH. Qed.

Create Rewrite HintDb gostr.
#[export] Hint Rewrite sapp_nil_l sapp_cons sapp_nil_r len_app : gostr.

Lemma CutPrefix_Some s p r : CutPrefix s p = Some r ↔ s = p +:+ r.
Proof.
  revert s. induction p as [|c p IH]; intros s; simpl.
  { rewrite sapp_nil_l. naive_solver. }
  rewrite sapp_cons. destruct s as [|d s]; [naive_solver|].
  destruct (Ascii.eqb_spec c d) as [->|Hne]; [|naive_solver].
  rewrite IH. naive_solver.
Qed.

Lemma CutPrefix_app p r : CutPrefix (p +:+ r) p = Some r.
Proof. by apply CutPrefix_Some. Qed.

Lemma HasPrefix_spec s p : HasPrefix s p = true ↔ ∃ r, s = p +:+ r.
Proof.
  unfold HasPrefix. destruct (CutPrefix s p) as [r|] eqn:E.
  - apply CutPrefix_Some in E. naive_solver.
  - split; [done|]. intros [r Hr]. apply CutPrefix_Some in Hr. congruence.
Qed.

Lemma HasPrefix_app p r : HasPrefix (p +:+ r) p = true.
Proof. apply HasPrefix_spec. eauto. Qed.

Lemma TrimPrefix_app p r : TrimPrefix (p +:+ r) p = r.
Proof. unfold TrimPrefix. by rewrite CutPrefix_app. Qed.

Lemma TrimPrefix_no s p : HasPrefix s p = false → TrimPrefix s p = s.
Proof. unfold HasPrefix, TrimPrefix. by destruct (CutPrefix s p). Qed.

(** A prefix of a fixed length is determined: two prefixes of one string are
    comparable, and equal when they end in the same character that neither
    contains. *)
Lemma sapp_inv_length p q r r' : p +:+ r = q +:+ r' → len p = len q → p = q ∧ r = r'.
Proof.
  revert q. induction p as [|c p IH]; intros [|d q] Heq Hl; simpl in *; try done.
  rewrite !sapp_cons in Heq. injection Heq as -> Heq.
  destruct (IH q Heq) as [-> ->]; [lia|done].
Qed.

Lemma len_rev_app s t : len (String.rev_app s t) = len s + len t.
Proof.
  revert t. induction s as [|c s IH]; intros t; [done|].
  simpl. unfold len in *. rewrite IH. simpl. lia.
Qed.

Lemma srev_app_app s t u : String.rev_app (s +:+ t) u = String.rev_app t (String.rev_app s u).
Proof.
  revert u. induction s as [|c s IH]; intros u; [done|]. rewrite sapp_cons. simpl. apply IH.
Qed.

Lemma srev_app_spec s t : String.rev_app s t = String.rev s +:+ t.
Proof.
  unfold String.rev. revert t. induction s as [|c s IH]; intros t; [done|].
  simpl. rewrite (IH (String c t)), (IH (String c "")), <- sapp_assoc. done.
Qed.

Lemma srev_app s t : String.rev (s +:+ t) = String.rev t +:+ String.rev s.
Proof. unfold String.rev at 1. rewrite srev_app_app. apply srev_app_spec. Qed.

Lemma srev_cons c s : String.rev (String c s) = String.rev s +:+ String c "".
Proof. unfold String.rev at 1. simpl. apply srev_app_spec. Qed.

Lemma srev_involutive s : String.rev (String.rev s) = s.
Proof.
  induction s as [|c s IH]; [done|]. rewrite srev_cons, srev_app, IH. done.
Qed.

Lemma len_rev s : len (String.rev s) = len s.
Proof. unfold String.rev. rewrite len_rev_app. unfold len. simpl. lia. Qed.

Lemma HasSuffix_spec s p : HasSuffix s p = true ↔ ∃ r, s = r +:+ p.
Proof.
  unfold HasSuffix. rewrite HasPrefix_spec. split; intros [r Hr].
  - exists (String.rev r). apply (f_equal String.rev) in Hr.
    by rewrite srev_app, !srev_involutive in Hr.
  - exists (String.rev r). by rewrite Hr, srev_app.
Qed.

(** *** Character predicates *)

Lemma all_chars_app f s t : all_chars f (s +:+ t) = all_chars f s && all_chars f t.
Proof.
  induction s as [|c s IH]; [done|]. rewrite sapp_cons. simpl. by rewrite IH, andb_assoc.
Qed.

Lemma all_chars_rev f s : all_chars f (String.rev s) = all_chars f s.
Proof.
  induction s as [|c s IH]; [done|].
  rewrite srev_cons, all_chars_app, IH. simpl. rewrite andb_true_r. apply andb_comm.
Qed.

Lemma all_chars_impl (f g : ascii → bool) s :
  (∀ c, f c = true → g c = true) → all_chars f s = true → all_chars g s = true.
Proof.
  intros Hfg. induction s as [|c s IH]; [done|]. simpl. rewrite !andb_true_iff. naive_solver.
Qed.

Lemma all_chars_trim_left f g s : all_chars f s = true → all_chars f (trim_left g s) = true.
Proof.
  induction s as [|c s IH]; [done|]. intros Hs. simpl. case_if; [|done].
  apply IH. simpl in Hs. by apply andb_true_iff in Hs as [_ ?].
Qed.

Lemma all_chars_trim_right f g s : all_chars f s = true → all_chars f (trim_right g s) = true.
Proof.
  intros Hs. unfold trim_right. rewrite all_chars_rev. apply all_chars_trim_left.
  by rewrite all_chars_rev.
Qed.

Lemma has_char_app c s t : has_char c (s +:+ t) = has_char c s || has_char c t.
Proof.
  induction s as [|d s IH]; [done|]. rewrite sapp_cons. simpl. by rewrite IH, orb_assoc.
Qed.

Lemma all_chars_has_char f c s : all_chars f s = true → f c = false → has_char c s = false.
Proof.
  induction s as [|d s IH]; [done|]. simpl. rewrite andb_true_iff. intros [Hd Hs] Hc.
  rewrite IH by done. rewrite orb_false_r. destruct (Ascii.eqb_spec c d); [congruence|done].
Qed.

(** Numbers are printed with digits. *)
Lemma pretty_N_digits n : all_chars is_digit (pretty (n : N)) = true.
Proof.
  assert (∀ x s, all_chars is_digit s = true → all_chars is_digit (pretty_N_go x s) = true) as Hgo.
  { intros x. induction (N.lt_wf_0 x) as [x _ IH]. intros s Hs.
    destruct (decide (0 < x)%N) as [Hx|Hx].
    - rewrite pretty_N_go_step by done. apply IH; [by apply N.div_lt|].
      cbn [all_chars]. rewrite Hs, andb_true_r. unfold pretty_N_char. by repeat case_match.
    - by replace x with 0%N by lia. }
  unfold pretty, pretty_N. destruct (decide _); [done|]. by apply Hgo.
Qed.

Lemma pretty_Z_digits z : (0 ≤ z)%Z → all_chars is_digit (pretty (z : Z)) = true.
Proof.
  intros Hz. destruct z as [|p|p]; [done| |lia]. apply (pretty_N_digits (N.pos p)).
Qed.

(** *** Trimming and slicing *)

Definition first_char (s : string) : option ascii :=
  match s with EmptyString => None | String c _ => Some c end.
Definition last_char (s : string) : option ascii := first_char (String.rev s).

Lemma trim_left_first f s c : first_char (trim_left f s) = Some c → f c = false.
Proof.
  induction s as [|d s IH]; simpl; [done|]. destruct (f d) eqn:E; [done|]. naive_solver.
Qed.

Lemma trim_left_app_stop f s c :
  f c = false → trim_left f (s +:+ String c "") = trim_left f s +:+ String c "".
Proof.
  intros Hc. induction s as [|d s IH].
  { rewrite sapp_nil_l. simpl. by rewrite Hc. }
  rewrite sapp_cons. simpl. by destruct (f d).
Qed.

Lemma trim_right_cons f c s :
  f c = false → trim_right f (String c s) = String c (trim_right f s).
Proof.
  intros Hc. unfold trim_right. rewrite srev_cons, trim_left_app_stop by done.
  by rewrite srev_app.
Qed.

Lemma trim_right_last f s c : last_char (trim_right f s) = Some c → f c = false.
Proof. unfold last_char, trim_right. rewrite srev_involutive. apply trim_left_first. Qed.

(** What [Trim] leaves starts and ends with characters outside the cutset. *)
Lemma Trim_ends s cutset c :
  first_char (Trim s cutset) = Some c ∨ last_char (Trim s cutset) = Some c →
  has_char c cutset = false.
Proof.
  unfold Trim. intros [Hc|Hc%trim_right_last]; [|done]. revert Hc.
  destruct (trim_left _ s) as [|d t] eqn:E; [done|].
  assert (has_char d cutset = false) as Hd.
  { apply (trim_left_first (λ c, has_char c cutset) s). by rewrite E. }
  rewrite trim_right_cons by done. simpl. congruence.
Qed.

Lemma all_chars_Trim f s cutset : all_chars f s = true → all_chars f (Trim s cutset) = true.
Proof. intros. by apply all_chars_trim_right, all_chars_trim_left. Qed.

Lemma last_char_is_Some s : s ≠ "" → is_Some (last_char s).
Proof.
  intros Hs. unfold last_char. destruct (String.rev s) as [|c r] eqn:E; [|by eexists].
  destruct Hs. rewrite <- (srev_involutive s), E. done.
Qed.

Lemma all_chars_first f s c : all_chars f s = true → first_char s = Some c → f c = true.
Proof. destruct s; simpl; [done|]. rewrite andb_true_iff. naive_solver. Qed.

Lemma all_chars_last f s c : all_chars f s = true → last_char s = Some c → f c = true.
Proof. rewrite <- all_chars_rev. apply all_chars_first. Qed.

Lemma len_take_chars n s : len (take_chars n s) = n `min` len s.
Proof.
  revert s. induction n as [|n IH]; intros [|c s]; try done. simpl.
  unfold len in *. simpl. by rewrite IH.
Qed.

Lemma take_chars_prefix n s : ∃ r, s = take_chars n s +:+ r.
Proof.
  revert s. induction n as [|n IH]; intros [|c s]; try (by eexists).
  destruct (IH s) as [r Hr]. exists r. simpl. by rewrite sapp_cons, <- Hr.
Qed.

Lemma take_chars_all n s : (len s ≤ n)%nat → take_chars n s = s.
Proof.
  revert s. induction n as [|n IH]; intros [|c s]; unfold len; simpl; try done.
  - lia.
  - intros. rewrite IH; [done|]. unfold len. lia.
Qed.

Lemma take_chars_app s t : take_chars (len s) (s +:+ t) = s.
Proof. induction s as [|c s IH]; [by destruct t|]. rewrite sapp_cons. simpl. by f_equal. Qed.

Lemma substring_0 n s : String.substring 0 n s = take_chars n s.
Proof.
  revert s. induction n as [|n IH]; intros [|c s]; try done. simpl. by rewrite IH.
Qed.

Lemma substring_app s t n : String.substring (len s) n (s +:+ t) = take_chars n t.
Proof.
  induction s as [|c s IH]; [apply substring_0|]. rewrite sapp_cons. apply IH.
Qed.

(** The middle part of a concatenation. *)
Lemma slice_app s t u lo hi :
  lo = len s → hi = len s + len t → slice (s +:+ t +:+ u) lo hi = t.
Proof.
  intros -> ->. unfold slice. rewrite substring_app.
  replace (len s + len t - len s) with (len t) by lia. apply take_chars_app.
Qed.

(** *** Cut *)

Lemma Cut_true s sep b a : Cut s sep = (b, a, true) → s = b +:+ sep +:+ a.
Proof.
  revert b. induction s as [|c s IH]; intros b; simpl.
  - destruct (CutPrefix "" sep) eqn:E; [|done].
    apply CutPrefix_Some in E. intros [= <- <-]. exact E.
  - destruct (CutPrefix (String c s) sep) eqn:E.
    { apply CutPrefix_Some in E. intros [= <- <-]. exact E. }
    destruct (Cut s sep) as [[b' a'] []]; [|done].
    intros [= <- <-]. rewrite sapp_cons. f_equal. by apply IH.
Qed.

Lemma Cut_false s sep b a : Cut s sep = (b, a, false) → b = s ∧ a = "".
Proof.
  revert b a. induction s as [|c s IH]; intros b a; simpl.
  - destruct (CutPrefix "" sep); naive_solver.
  - destruct (CutPrefix (String c s) sep); [done|].
    destruct (Cut s sep) as [[b' a'] []] eqn:E; [done|].
    intros [= <- <-]. destruct (IH b' a' eq_refl) as [-> _]. done.
Qed.

(** Cutting at a single character that the first part does not contain. *)
Lemma Cut_char c b a :
  has_char c b = false → Cut (b +:+ String c a) (String c "") = (b, a, true).
Proof.
  induction b as [|d b IH]; intros Hb.
  { rewrite sapp_nil_l. simpl. by rewrite (Ascii.eqb_refl c). }
  simpl in Hb. apply orb_false_iff in Hb as [Hd Hb].
  rewrite sapp_cons. simpl. rewrite Hd. by rewrite IH.
Qed.

(** A separator whose first character does not occur before it. *)
Lemma Cut_head c sep b a :
  has_char c b = false → Cut (b +:+ String c sep +:+ a) (String c sep) = (b, a, true).
Proof.
  induction b as [|d b IH]; intros Hb.
  { rewrite sapp_nil_l. pose proof (CutPrefix_app (String c sep) a) as Hc.
    destruct (String c sep +:+ a) eqn:E; cbn [Cut]; by rewrite Hc. }
  simpl in Hb. apply orb_false_iff in Hb as [Hd Hb].
  rewrite sapp_cons. cbn [Cut CutPrefix]. by rewrite Hd, IH.
Qed.

Lemma Cut_char_none c s : has_char c s = false → Cut s (String c "") = (s, "", false).
Proof.
  induction s as [|d s IH]; intros Hs; [done|].
  simpl in Hs. apply orb_false_iff in Hs as [Hd Hs]. simpl. rewrite Hd. by rewrite IH.
Qed.

Lemma Cut_char_before c s b a : Cut s (String c "") = (b, a, true) → has_char c b = false.
Proof.
  revert b a. induction s as [|d s IH]; intros b a; simpl; [naive_solver|].
  destruct (Ascii.eqb_spec c d) as [->|Hne]; [naive_solver|].
  destruct (Cut s (String c "")) as [[b' a'] []] eqn:E; [|done].
  intros [= <- <-]. simpl. rewrite (IH b' a' eq_refl), orb_false_r.
  by apply Ascii.eqb_neq.
Qed.

(** ** The order of strings: bytewise, as Go compares them *)

Lemma compare_app p s t : String.compare (p +:+ s) (p +:+ t) = String.compare s t.
Proof.
  induction p as [|c p IH]; [done|]. rewrite !sapp_cons. simpl.
  unfold Ascii.compare. by rewrite N.compare_refl.
Qed.

Lemma compare_refl s : String.compare s s = Eq.
Proof. rewrite <- (sapp_nil_r s), compare_app. done. Qed.

Lemma ltb_compare s t : String.ltb s t = true ↔ String.compare s t = Lt.
Proof. unfold String.ltb. by destruct (String.compare s t). Qed.

Lemma ltb_irrefl s : String.ltb s s = false.
Proof.
  unfold String.ltb. by rewrite compare_refl.
Qed.

Lemma ltb_trans s t u :
  String.ltb s t = true → String.ltb t u = true → String.ltb s u = true.
Proof.
  rewrite !ltb_compare. revert t u. induction s as [|a s IH]; intros [|b t] [|c u]; simpl; try done.
  unfold Ascii.compare.
  destruct (N.compare_spec (N_of_ascii a) (N_of_ascii b)) as [Hab|Hab|Hab]; [|..|done];
    destruct (N.compare_spec (N_of_ascii b) (N_of_ascii c)) as [Hbc|Hbc|Hbc]; try done;
    destruct (N.compare_spec (N_of_ascii a) (N_of_ascii c)) as [Hac|Hac|Hac]; try lia; try done.
  apply IH.
Qed.

Lemma ltb_trichotomy s t : String.ltb s t = true ∨ s = t ∨ String.ltb t s = true.
Proof.
  rewrite !ltb_compare, (String.compare_antisym t s).
  destruct (String.compare s t) eqn:E; simpl; auto. apply String.compare_eq_iff in E. auto.
Qed.

(** ** A text codec for any countable type

    It gives concrete instances of the JSON codecs the program is verified
    against: the text is the binary notation of the value's number. *)

Fixpoint positive_bits (p : positive) : string :=
  match p with
  | xH => "1"
  | xO p => String "0" (positive_bits p)
  | xI p => String "2" (positive_bits p)
  end.

Fixpoint bits_positive (s : string) : option positive :=
  match s with
  | "1" => Some xH
  | String "0" s => xO <$> bits_positive s
  | String "2" s => xI <$> bits_positive s
  | _ => None
  end.

Lemma bits_positive_bits p : bits_positive (positive_bits p) = Some p.
Proof. induction p as [p IH|p IH|]; simpl; [by rewrite IH|by rewrite IH|done]. Qed.

Definition to_text {A} `{Countable A} (a : A) : string := positive_bits (encode a).
Definition of_text {A} `{Countable A} (s : string) : option A := p ← bits_positive s; decode p.

Lemma of_text_to_text {A} `{Countable A} (a : A) : of_text (to_text a) = Some a.
Proof. unfold of_text, to_text. rewrite bits_positive_bits. simpl. apply decode_encode. Qed.

Lemma to_text_nonempty {A} `{Countable A} (a : A) : to_text a ≠ "".
Proof. unfold to_text. by destruct (encode a). Qed.

(** ** Maps of strings *)

Abbreviation smap := (gmap string string).

(** [m[key]] on a Go map: the zero value when absent. *)
Definition mget (m : smap) (key : string) : string := default "" (m !! key).
