(* ===== verification/Sha256.v ===== *)
(** * Sha256: Go's [crypto/sha256], executable

    The program derives Kubernetes object names from SHA-256 digests
    ([networkObjectName], [containerServiceName], [publishedPortsServiceName])
    and hashes credentials with it.  The digest is computed here on byte strings,
    following FIPS 180-4, so that the names can be evaluated. *)

From S2P Require Import Prelude GoStrings.

Local Open Scope N_scope.

Definition mask32 (x : N) : N := N.land x (N.ones 32).
Definition add32 (x y : N) : N := mask32 (x + y).
Definition rotr (x : N) (n : N) : N :=
  N.lor (N.shiftr x n) (mask32 (N.shiftl x (32 - n))).

Definition Sigma0 (x : N) : N := N.lxor (rotr x 2) (N.lxor (rotr x 13) (rotr x 22)).
Definition Sigma1 (x : N) : N := N.lxor (rotr x 6) (N.lxor (rotr x 11) (rotr x 25)).
Definition sigma0 (x : N) : N := N.lxor (rotr x 7) (N.lxor (rotr x 18) (N.shiftr x 3)).
Definition sigma1 (x : N) : N := N.lxor (rotr x 17) (N.lxor (rotr x 19) (N.shiftr x 10)).
Definition Ch (x y z : N) : N := N.lxor (N.land x y) (N.land (N.lxor x (N.ones 32)) z).
Definition Maj (x y z : N) : N := N.lxor (N.land x y) (N.lxor (N.land x z) (N.land y z)).

Definition round_constants : list N :=
  [1116352408; 1899447441; 3049323471; 3921009573; 961987163; 1508970993;
   2453635748; 2870763221; 3624381080; 310598401; 607225278; 1426881987;
   1925078388; 2162078206; 2614888103; 3248222580; 3835390401; 4022224774;
   264347078; 604807628; 770255983; 1249150122; 1555081692; 1996064986;
   2554220882; 2821834349; 2952996808; 3210313671; 3336571891; 3584528711;
   113926993; 338241895; 666307205; 773529912; 1294757372; 1396182291;
   1695183700; 1986661051; 2177026350; 2456956037; 2730485921; 2820302411;
   3259730800; 3345764771; 3516065817; 3600352804; 4094571909; 275423344;
   430227734; 506948616; 659060556; 883997877; 958139571; 1322822218;
   1537002063; 1747873779; 1955562222; 2024104815; 2227730452; 2361852424;
   2428436474; 2756734187; 3204031479; 3329325298].

Definition initial_hash : list N :=
  [1779033703; 3144134277; 1013904242; 2773480762; 1359893119; 2600822924;
   528734635; 1541459225].

(** The message schedule, kept as the last sixteen words, most recent first. *)
Definition next_word (w : list N) : N :=
  match w with
  | [_; w2; _; _; _; _; w7; _; _; _; _; _; _; _; w15; w16] =>
      add32 (add32 (sigma1 w2) w7) (add32 (sigma0 w15) w16)
  | _ => 0
  end.

Fixpoint rounds (ks : list N) (pending window : list N) (h : list N) : list N :=
  match ks with
  | [] => h
  | k :: ks =>
      let '(w, pending) :=
        match pending with
        | w :: pending => (w, pending)
        | [] => (next_word window, [])
        end in
      let h :=
        match h with
        | [a; b; c; d; e; f; g; hh] =>
            let t1 := add32 (add32 hh (Sigma1 e)) (add32 (Ch e f g) (add32 k w)) in
            let t2 := add32 (Sigma0 a) (Maj a b c) in
            [add32 t1 t2; a; b; c; add32 d t1; e; f; g]
        | _ => h
        end in
      rounds ks pending (take 16 (w :: window)) h
  end.

Definition compress (h : list N) (block : list N) : list N :=
  zip_with add32 h (rounds round_constants block [] h).

(** Bytes to big-endian words and back. *)
Fixpoint words_of (l : list N) : list N :=
  match l with
  | a :: b :: c :: d :: l => (a * 2 ^ 24 + b * 2 ^ 16 + c * 2 ^ 8 + d) :: words_of l
  | _ => []
  end.

Definition bytes_of (w : N) : list N :=
  [N.shiftr w 24; N.land (N.shiftr w 16) 255; N.land (N.shiftr w 8) 255; N.land w 255].

Fixpoint compress_blocks (n : nat) (h : list N) (ws : list N) : list N :=
  match n with
  | O => h
  | S n => compress_blocks n (compress h (take 16 ws)) (drop 16 ws)
  end.

Definition pad (bytes : list N) : list N :=
  let n := length bytes in
  let zeros := (Nat.modulo (119 - Nat.modulo n 64) 64)%nat in
  let bits := N.of_nat n * 8 in
  bytes ++ [128] ++ replicate zeros 0 ++
    concat (map bytes_of [N.shiftr bits 32; N.land bits (N.ones 32)]).

Definition string_bytes (s : string) : list N := map code (list_ascii_of_string s).
Definition bytes_string (l : list N) : string := string_of_list_ascii (map ascii_of_N l).

(** [sha256.Sum256] *)
Definition Sum256 (s : string) : string :=
  let bytes := pad (string_bytes s) in
  let n := Nat.div (length bytes) 64 in
  bytes_string (concat (map bytes_of (compress_blocks n initial_hash (words_of bytes)))).

Local Close Scope N_scope.

(** ** The digest has 32 bytes *)

Lemma rounds_length ks p w h : length (rounds ks p w h) = length h.
Proof.
  revert p w h. induction ks as [|k ks IH]; intros p w h; [done|].
  simpl. destruct p as [|w' p]; rewrite IH; clear IH; repeat case_match; done.
Qed.

Lemma compress_length h b : length (compress h b) = length h.
Proof. unfold compress. rewrite length_zip_with, rounds_length. lia. Qed.

Lemma compress_blocks_length n h ws : length (compress_blocks n h ws) = length h.
Proof.
  revert h ws. induction n as [|n IH]; intros h ws; [done|].
  simpl. by rewrite IH, compress_length.
Qed.

Lemma concat_bytes_length l : length (concat (map bytes_of l)) = 4 * length l.
Proof. induction l as [|w l IH]; [done|]. simpl. rewrite IH. lia. Qed.

Lemma len_string_of_list l : len (string_of_list_ascii l) = length l.
Proof. unfold len. induction l as [|c l IH]; [done|]. simpl. by rewrite IH. Qed.

Lemma len_Sum256 s : len (Sum256 s) = 32.
Proof.
  unfold Sum256, bytes_string. rewrite len_string_of_list, length_map, concat_bytes_length.
  by rewrite compress_blocks_length.
Qed.

(** The test vector of FIPS 180-4 for a one-block message. *)
Lemma Sum256_abc :
  hex (Sum256 "abc") = "ba7816bf8f01cfea414140de5dae2223b00361a396177a9cb410ff61f20015ad"%string.
Proof. vm_compute. reflexivity. Qed.

(** A two-block message. *)
Lemma Sum256_two_blocks :
  hex (Sum256 "abcdbcdecdefdefgefghfghighijhijkijkljklmklmnlmnomnopnopq")
  = "248d6a61d20638b8e5c026930c3e6039a33ce45964ff2167f6ecedd419db06c1"%string.
Proof. vm_compute. reflexivity. Qed.

(** ** Hexadecimal printing *)

Lemma len_hex s : len (hex s) = 2 * len s.
Proof. unfold len. induction s as [|c s IH]; [done|]. simpl. rewrite IH. lia. Qed.

Lemma code_lt c : (code c < 256)%N.
Proof. apply N_ascii_bounded. Qed.

Lemma hex_digit_is_hex n : (n < 16)%N → is_hex (hex_digit n) = true.
Proof.
  intros Hn. assert (∃ k, k < 16 ∧ n = N.of_nat k) as (k & Hk & ->).
  { exists (N.to_nat n). lia. }
  do 16 (destruct k as [|k]; [reflexivity|]). lia.
Qed.

Lemma hex_is_hex s : all_chars is_hex (hex s) = true.
Proof.
  induction s as [|c s IH]; [done|]. simpl. pose proof (code_lt c) as Hc.
  rewrite !hex_digit_is_hex, IH; [done| |].
  - apply N.mod_lt. lia.
  - apply N.Div0.div_lt_upper_bound. lia.
Qed.

Lemma code_hex_digit n : (n < 16)%N → code (hex_digit n) = (if n <? 10 then 48 + n else 87 + n)%N.
Proof. intros Hn. unfold hex_digit, code. destruct (n <? 10)%N; rewrite N_ascii_embedding; lia. Qed.

Lemma hex_digit_inj m n : (m < 16)%N → (n < 16)%N → hex_digit m = hex_digit n → m = n.
Proof.
  intros Hm Hn Heq%(f_equal code). rewrite !code_hex_digit in Heq by done.
  destruct (N.ltb_spec m 10), (N.ltb_spec n 10); lia.
Qed.

Lemma hex_inj s t : hex s = hex t → s = t.
Proof.
  revert t. induction s as [|c s IH]; intros [|d t]; simpl; try done.
  intros Heq. injection Heq as H1 H2 H3. pose proof (code_lt c). pose proof (code_lt d).
  apply hex_digit_inj in H1; [|apply N.Div0.div_lt_upper_bound; lia..].
  apply hex_digit_inj in H2; [|apply N.mod_lt; lia..].
  assert (code c = code d) as Hcd.
  { rewrite (N.div_mod (code c) 16), (N.div_mod (code d) 16) by lia. congruence. }
  apply (f_equal ascii_of_N) in Hcd. unfold code in Hcd. rewrite !ascii_N_embedding in Hcd.
  f_equal; auto.
Qed.
