(* ===== verification/Encoding.v ===== *)
(** * Encoding: Go's [base64.RawURLEncoding] and [csv.Reader], executable

    The build gateway names builds with the one and reads history filters with the
    other (core/buildkit/history.go).  Decoding skips line ends and ignores the bits
    that are left over, as Go's decoder does when it is not strict. *)

From S2P Require Import Prelude GoStrings.

Local Open Scope string_scope.
Local Open Scope N_scope.

(** ** Base 64 *)

(** The digit of a number below 64, and back. *)
Definition digit64 (n : N) : ascii :=
  ascii_of_N (if n <? 26 then 65 + n else if n <? 52 then 71 + n else if n <? 62 then n - 4
              else if n =? 62 then 45 else 95).

Definition undigit64 (c : ascii) : option N :=
  if is_upper c then Some (code c - 65)
  else if is_lower c then Some (code c - 71)
  else if is_digit c then Some (code c + 4)
  else if Ascii.eqb c "-" then Some 62
  else if Ascii.eqb c "_" then Some 63
  else None.

(** Three bytes are four digits. *)
Fixpoint sextets (bytes : list N) : list N :=
  match bytes with
  | a :: b :: c :: l => a / 4 :: a mod 4 * 16 + b / 16 :: b mod 16 * 4 + c / 64 :: c mod 64 :: sextets l
  | [a; b] => [a / 4; a mod 4 * 16 + b / 16; b mod 16 * 4]
  | [a] => [a / 4; a mod 4 * 16]
  | [] => []
  end.

Fixpoint octets (digits : list N) : option (list N) :=
  match digits with
  | w :: x :: y :: z :: l =>
      l ← octets l; Some (w * 4 + x / 16 :: x mod 16 * 16 + y / 4 :: y mod 4 * 64 + z :: l)
  | [w; x; y] => Some [w * 4 + x / 16; x mod 16 * 16 + y / 4]
  | [w; x] => Some [w * 4 + x / 16]
  | [_] => None
  | [] => Some []
  end.

Definition is_line_end (c : ascii) : bool := (code c =? 10) || (code c =? 13).

Definition RawURL_Encode (s : string) : string :=
  string_of_list_ascii (digit64 <$> sextets (code <$> list_ascii_of_string s)).

Definition RawURL_Decode (s : string) : option string :=
  digits ← mapM undigit64 (List.filter (λ c, negb (is_line_end c)) (list_ascii_of_string s));
  bytes ← octets digits;
  Some (string_of_list_ascii (ascii_of_N <$> bytes)).

(** ** Decoding what was encoded *)

Lemma digit64_code n : n < 64 → code (digit64 n) =
  if n <? 26 then 65 + n else if n <? 52 then 71 + n else if n <? 62 then n - 4 else if n =? 62 then 45 else 95.
Proof.
  intros Hn. unfold code, digit64. apply N_ascii_embedding.
  repeat case_match; repeat match goal with H : (_ <? _) = _ |- _ => rewrite ?N.ltb_lt, ?N.ltb_ge in H end; lia.
Qed.

Lemma below_64 (P : N → Prop) :
  (∀ k, (k < 64)%nat → P (N.of_nat k)) → ∀ n, n < 64 → P n.
Proof. intros HP n Hn. rewrite <- (N2Nat.id n). apply HP. lia. Qed.

Lemma undigit64_digit64 n : n < 64 → undigit64 (digit64 n) = Some n ∧ is_line_end (digit64 n) = false.
Proof.
  revert n. apply below_64. intros k Hk.
  do 64 (destruct k as [|k]; [by vm_compute|]). lia.
Qed.

Ltac euclid := zify; Z.to_euclidean_division_equations; lia.

Lemma octets_sextets l : Forall (λ b, b < 256) l → octets (sextets l) = Some l ∧ Forall (λ d, d < 64) (sextets l).
Proof.
  remember (length l) as n eqn:Hn. revert l Hn.
  induction n as [n IH] using lt_wf_ind. intros l Hn Hl.
  destruct l as [|a [|b [|c l]]]; [done|..].
  all: repeat match goal with H : Forall _ (_ :: _) |- _ => apply Forall_cons in H as [??] end.
  - split; [simpl; do 2 f_equal; euclid|repeat constructor; euclid].
  - split; [simpl; do 2 f_equal; [euclid|f_equal; euclid]|repeat constructor; euclid].
  - destruct (IH (length l)) with l as [Ho Hf]; [simpl in *; lia|done|done|].
    cbn [sextets octets]. rewrite Ho. split; [|repeat constructor; [euclid..|done]].
    simpl. do 2 f_equal; [euclid|f_equal; [euclid|f_equal; euclid]].
Qed.

Lemma mapM_undigit64 l :
  Forall (λ d, d < 64) l →
  mapM undigit64 (List.filter (λ c, negb (is_line_end c)) (digit64 <$> l)) = Some l.
Proof.
  induction 1 as [|d l Hd Hl IH]; [done|]. destruct (undigit64_digit64 d Hd) as [Hu He].
  cbn [fmap list_fmap List.filter]. rewrite He. cbn [negb]. simpl. by rewrite Hu, IH.
Qed.

Lemma ascii_of_code (l : list ascii) : ascii_of_N <$> (code <$> l) = l.
Proof. induction l as [|c l IH]; [done|]. rewrite !fmap_cons, IH. f_equal. apply ascii_N_embedding. Qed.

Lemma RawURL_roundtrip s : RawURL_Decode (RawURL_Encode s) = Some s.
Proof.
  unfold RawURL_Decode, RawURL_Encode. rewrite list_ascii_of_string_of_list_ascii.
  destruct (octets_sextets (code <$> list_ascii_of_string s)) as [Ho Hf].
  { apply Forall_fmap, Forall_forall. intros c _. apply N_ascii_bounded. }
  rewrite mapM_undigit64 by done. simpl. rewrite Ho. simpl.
  by rewrite ascii_of_code, string_of_list_ascii_of_string.
Qed.

Example RawURL_examples :
  RawURL_Encode "build-1?" = "YnVpbGQtMT8" ∧ RawURL_Encode ">>>" = "Pj4-" ∧ RawURL_Decode "YQ=" = None ∧
  RawURL_Decode "YR" = Some "a".
Proof. by vm_compute. Qed.

(** ** Comma-separated values *)

Local Close Scope N_scope.

(** What [readLine] does to line ends: [\r\n] is [\n], and a last [\r] is dropped. *)
Fixpoint normal_lines (s : string) : string :=
  match s with
  | EmptyString => EmptyString
  | String "013" EmptyString => EmptyString
  | String "013" (String "010" s) => String "010" (normal_lines s)
  | String c s => String c (normal_lines s)
  end.

(** Where the reader is: at the start of a field, in a bare field, between quotes, or
    after a quote in a quoted field; with the field so far, backwards. *)
Inductive csv_mode := FieldStart | Bare | Quoted | QuoteSeen.

(** [readRecord] after the empty lines: the fields, and what remains to be read. *)
Fixpoint csv_record (mode : csv_mode) (field s : string) : option (list string * string) :=
  let field_end := String.rev field in
  match s with
  | EmptyString => match mode with Quoted => None | _ => Some ([field_end], "") end
  | String c s' =>
      match mode, bool_decide (c = "034"%char), bool_decide (c = ","%char), bool_decide (c = "010"%char) with
      | FieldStart, true, _, _ => csv_record Quoted "" s'
      | Bare, true, _, _ => None
      | Quoted, true, _, _ => csv_record QuoteSeen field s'
      | QuoteSeen, true, _, _ => csv_record Quoted (String c field) s'
      | Quoted, _, _, _ => csv_record Quoted (String c field) s'
      | _, _, true, _ => '(fields, rest) ← csv_record FieldStart "" s'; Some (field_end :: fields, rest)
      | _, _, _, true => Some ([field_end], s')
      | QuoteSeen, _, _, _ => None
      | _, _, _, _ => csv_record Bare (String c field) s'
      end
  end.

Definition skip_empty_lines (s : string) : string := trim_left (λ c, bool_decide (c = "010"%char)) s.

(** [csv.NewReader(strings.NewReader(s)).Read()], with what remains. *)
Definition csv_Read (s : string) : option (list string * string) :=
  match skip_empty_lines (normal_lines s) with
  | EmptyString => None
  | s => csv_record FieldStart "" s
  end.

(** Whether the next [Read] reports the end of the file. *)
Definition csv_at_end (rest : string) : bool := bool_decide (skip_empty_lines rest = "").

Example csv_examples :
  csv_Read "status==completed,ref=x" = Some (["status==completed"; "ref=x"], "") ∧
  csv_Read (String "034" ("a,b" +:+ String "034" ",c")) = Some (["a,b"; "c"], "") ∧
  csv_Read (String "010" ("a," +:+ String "013" (String "010" "b"))) = Some (["a"; ""], "b") ∧
  csv_Read (String "034" "open") = None ∧ csv_Read ("b" +:+ String "034" "") = None ∧ csv_Read "" = None.
Proof. by vm_compute. Qed.

(** Neither a line feed nor a carriage return. *)
Definition one_line (s : string) : bool :=
  all_chars (λ c, negb (bool_decide (c = "010"%char)) && negb (bool_decide (c = "013"%char))) s.

(** What is a field as it stands. *)
Definition plain_field (s : string) : bool :=
  all_chars (λ c, negb (bool_decide (c = "034"%char)) && negb (bool_decide (c = ","%char))) s && one_line s.

Lemma one_line_cons c s :
  one_line (String c s) = true ↔ c ≠ "010"%char ∧ c ≠ "013"%char ∧ one_line s = true.
Proof.
  unfold one_line. cbn [all_chars]. rewrite !andb_true_iff, !negb_true_iff, !bool_decide_eq_false. tauto.
Qed.

Lemma one_line_app s t : one_line (s +:+ t) = one_line s && one_line t.
Proof. apply all_chars_app. Qed.

Lemma csv_bare field s :
  plain_field s = true → csv_record Bare field s = Some ([String.rev field +:+ s], "").
Proof.
  unfold plain_field. rewrite andb_true_iff. revert field. induction s as [|c s IH]; intros field.
  - intros _. cbn [csv_record]. by rewrite sapp_nil_r.
  - cbn [all_chars]. rewrite !andb_true_iff, !negb_true_iff, !bool_decide_eq_false, one_line_cons.
    intros [[[Hq Hc] Hs] (Hn & _ & Hl)]. cbn [csv_record].
    rewrite !bool_decide_eq_false_2 by done. rewrite IH by done. by rewrite srev_cons, <- sapp_assoc.
Qed.

Lemma csv_plain c s :
  plain_field (String c s) = true → csv_record FieldStart "" (String c s) = Some ([String c s], "").
Proof.
  intros Hp. pose proof (csv_bare "" (String c s) Hp) as Hbare. revert Hp. unfold plain_field. cbn [all_chars].
  rewrite !andb_true_iff, !negb_true_iff, !bool_decide_eq_false, one_line_cons.
  intros [[[Hq Hc] _] (Hn & _)]. revert Hbare. cbn [csv_record]. by rewrite !bool_decide_eq_false_2 by done.
Qed.

Lemma csv_comma mode field t :
  mode ≠ Quoted → csv_record FieldStart "" t = Some ([t], "") →
  csv_record mode field (String "," t) = Some ([String.rev field; t], "").
Proof.
  intros Hmode Ht. transitivity ('(fields, rest) ← csv_record FieldStart "" t; Some (String.rev field :: fields, rest)).
  - by destruct mode.
  - by rewrite Ht.
Qed.

(** A field added to a record of one line. *)
Lemma csv_record_snoc mode field s fields rest t :
  one_line s = true → csv_record FieldStart "" t = Some ([t], "") →
  csv_record mode field s = Some (fields, rest) →
  csv_record mode field (s +:+ "," +:+ t) = Some (fields ++ [t], "")%list.
Proof.
  intros Hl Ht. revert mode field fields rest.
  induction s as [|c s IH]; intros mode field fields rest.
  - destruct mode; [| |done|]; intros [= <- <-]; by apply csv_comma.
  - apply one_line_cons in Hl as (Hn & _ & Hl).
    change (String c s +:+ "," +:+ t) with (String c (s +:+ "," +:+ t)). cbn [csv_record].
    rewrite !(bool_decide_eq_false_2 (c = "010"%char)) by done. specialize (IH Hl).
    destruct mode, (bool_decide (c = "034"%char)), (bool_decide (c = ","%char)); try done; try apply IH.
    all: destruct (csv_record FieldStart "" s) as [[fields' rest']|] eqn:E; simpl; [|done]; intros [= <- <-];
      by erewrite IH.
Qed.

Lemma csv_Read_one_line s : one_line s = true → s ≠ "" → csv_Read s = csv_record FieldStart "" s.
Proof.
  intros Hl Hne. unfold csv_Read. assert (normal_lines s = s) as ->.
  { clear Hne. induction s as [|c s IH]; [done|]. apply one_line_cons in Hl as (_ & Hr & Hl).
    destruct c as [[] [] [] [] [] [] [] []]; try done; cbn [normal_lines]; by rewrite IH. }
  destruct s as [|c s]; [done|]. apply one_line_cons in Hl as (Hn & _).
  unfold skip_empty_lines. cbn [trim_left]. by rewrite bool_decide_eq_false_2.
Qed.

Lemma csv_Read_snoc s fields rest t :
  one_line s = true → plain_field t = true → t ≠ "" → csv_Read s = Some (fields, rest) →
  csv_Read (s +:+ "," +:+ t) = Some (fields ++ [t], "")%list.
Proof.
  intros Hs Ht Hne Hread. assert (s ≠ "") as Hs' by (by intros ->).
  rewrite csv_Read_one_line in Hread by done. rewrite csv_Read_one_line; [|..].
  - eapply csv_record_snoc; [done| |done]. destruct t; [done|]. by apply csv_plain.
  - unfold plain_field in Ht. apply andb_true_iff in Ht as [_ Ht]. by rewrite !one_line_app, Hs, Ht.
  - by destruct s.
Qed.
