(* ===== verification/Errors.v ===== *)
(** * Errors: [core/translator/errors.go] and Go error trees

    An error is modelled as the tree that [errors.As] and [errors.Is] walk: its
    leaves are Kubernetes API statuses, context errors and opaque errors; a
    translator error records its kind and its cause.  The text of a message is
    represented by its format string. *)

From S2P Require Import Prelude.

Local Open Scope string_scope.

(** [ErrorKind], with the source's seven kinds. *)
Inductive ErrorKind : Type :=
| KindInvalidArgument
| KindUnauthenticated
| KindForbidden
| KindNotFound
| KindConflict
| KindUnsupported
| KindUnavailable.

#[export] Instance ErrorKind_eq_dec : EqDecision ErrorKind.
Proof. solve_decision. Defined.

(** The reasons of a Kubernetes [StatusError] that the code distinguishes. *)
Inductive StatusReason : Type :=
| ReasonNotFound
| ReasonAlreadyExists
| ReasonConflict
| ReasonInvalid
| ReasonBadRequest
| ReasonForbidden
| ReasonUnauthorized
| ReasonServiceUnavailable
| ReasonTimeout
| ReasonServerTimeout
| ReasonOther.

#[export] Instance StatusReason_eq_dec : EqDecision StatusReason.
Proof. solve_decision. Defined.

Inductive error : Type :=
| StatusError (reason : StatusReason)                 (* an API error *)
| HTTPError (status : Z)                              (* the registry's [*httpx.HTTPError] *)
| TranslatorError (kind : ErrorKind) (cause : error)  (* [*translator.Error] *)
| Errorf (format : string) (wrapped : list error)     (* [fmt.Errorf] with its [%w] operands *)
| ContextError                                        (* [ctx.Err()] *)
| Joined (errs : list error).                         (* [errors.Join] *)

Abbreviation res := (result error).

Definition errors_New (text : string) : error := Errorf text [].

(** [errors.As(err, &target)]: the first node, in preorder, that [f] recognises. *)
Fixpoint errors_As {A} (f : error → option A) (e : error) : option A :=
  match f e with
  | Some a => Some a
  | None =>
      match e with
      | TranslatorError _ cause => errors_As f cause
      | Errorf _ l | Joined l =>
          (fix go l := match l with
                       | [] => None
                       | e :: l => match errors_As f e with Some a => Some a | None => go l end
                       end) l
      | StatusError _ | HTTPError _ | ContextError => None
      end
  end.

Definition as_translator (e : error) : option ErrorKind :=
  match e with TranslatorError k _ => Some k | _ => None end.
Definition as_status (e : error) : option StatusReason :=
  match e with StatusError r => Some r | _ => None end.

(** The kind of the outermost translator error in the tree. *)
Definition kind_of (e : error) : option ErrorKind := errors_As as_translator e.
(** [apierrors.ReasonForError]: supports wrapped errors. *)
Definition ReasonForError (e : error) : option StatusReason := errors_As as_status e.

Definition as_http (e : error) : option Z :=
  match e with HTTPError s => Some s | _ => None end.

Definition IsKind (e : error) (k : ErrorKind) : bool := bool_decide (kind_of e = Some k).

Definition has_reason (r : StatusReason) (e : error) : bool :=
  bool_decide (ReasonForError e = Some r).
Definition IsNotFound := has_reason ReasonNotFound.
Definition IsAlreadyExists := has_reason ReasonAlreadyExists.
Definition IsConflict := has_reason ReasonConflict.

(** [errors.Join] of errors some of which may be nil. *)
Definition errors_Join (l : list (option error)) : option error :=
  match omap id l with
  | [] => None
  | errs => Some (Joined errs)
  end.

Definition NewError (kind : ErrorKind) (cause : option error) : error :=
  TranslatorError kind (default (errors_New "translator operation failed") cause).

Definition InvalidArgument (cause : error) : error := NewError KindInvalidArgument (Some cause).
Definition Unauthenticated (cause : error) : error := NewError KindUnauthenticated (Some cause).
Definition Forbidden (cause : error) : error := NewError KindForbidden (Some cause).
Definition NotFound (cause : error) : error := NewError KindNotFound (Some cause).
Definition Conflict (cause : error) : error := NewError KindConflict (Some cause).
Definition Unsupported (cause : error) : error := NewError KindUnsupported (Some cause).
Definition Unavailable (cause : error) : error := NewError KindUnavailable (Some cause).

Definition ErrNotImplemented : error := Unsupported (errors_New "not implemented").

(** [kubeError] on an error that is not nil; on nil the code returns nil. *)
Definition kubeError (e : error) : error :=
  match kind_of e with
  | Some _ => e
  | None =>
      match ReasonForError e with
      | Some ReasonNotFound => NotFound e
      | Some ReasonAlreadyExists | Some ReasonConflict => Conflict e
      | Some ReasonInvalid | Some ReasonBadRequest => InvalidArgument e
      | Some ReasonForbidden => Forbidden e
      | Some ReasonUnauthorized => Unauthenticated e
      | Some ReasonServiceUnavailable | Some ReasonTimeout | Some ReasonServerTimeout =>
          Unavailable e
      | _ => Errorf "kubernetes operation: %w" [e]
      end
  end.

(** [return kubeError(err)] over a result. *)
Definition kube_result {A} (r : res A) : res A :=
  match r with Ok a => Ok a | Err e => Err (kubeError e) end.

(** The kind [kubeError] assigns to an API reason. *)
Definition reason_kind (r : StatusReason) : option ErrorKind :=
  match r with
  | ReasonNotFound => Some KindNotFound
  | ReasonAlreadyExists | ReasonConflict => Some KindConflict
  | ReasonInvalid | ReasonBadRequest => Some KindInvalidArgument
  | ReasonForbidden => Some KindForbidden
  | ReasonUnauthorized => Some KindUnauthenticated
  | ReasonServiceUnavailable | ReasonTimeout | ReasonServerTimeout => Some KindUnavailable
  | ReasonOther => None
  end.

(** ** Properties *)

Lemma IsKind_spec e k : IsKind e k = true ↔ kind_of e = Some k.
Proof. apply bool_decide_eq_true. Qed.

Lemma kind_of_TranslatorError k c : kind_of (TranslatorError k c) = Some k.
Proof. done. Qed.

Lemma ReasonForError_TranslatorError k c :
  ReasonForError (TranslatorError k c) = ReasonForError c.
Proof. done. Qed.

Lemma IsNotFound_spec e : IsNotFound e = true ↔ ReasonForError e = Some ReasonNotFound.
Proof. apply bool_decide_eq_true. Qed.

Lemma kubeError_reason e : ReasonForError (kubeError e) = ReasonForError e.
Proof.
  unfold kubeError. destruct (kind_of e); [done|].
  destruct (ReasonForError e) as [[]|] eqn:E; simpl; rewrite <- ?E; try done.
  - unfold ReasonForError. simpl. by destruct (errors_As as_status e).
  - unfold ReasonForError. simpl. by destruct (errors_As as_status e).
Qed.

Lemma kubeError_kind e :
  kind_of (kubeError e) =
    match kind_of e with
    | Some k => Some k
    | None => match ReasonForError e with Some r => reason_kind r | None => None end
    end.
Proof.
  unfold kubeError. destruct (kind_of e) eqn:Ek; [done|].
  destruct (ReasonForError e) as [[]|]; simpl; try done;
    unfold kind_of in *; simpl; by rewrite Ek.
Qed.

(** Classifying a Kubernetes failure never loses information: [kubeError]
    keeps an existing translator kind, assigns the documented kind to every
    Kubernetes reason otherwise, keeps the Kubernetes reason visible to later
    [apierrors.Is...] tests, and is stable in both under repetition. *)
Theorem kubeError_classifies e :
  kind_of (kubeError e) =
    match kind_of e with
    | Some k => Some k
    | None => match ReasonForError e with Some r => reason_kind r | None => None end
    end ∧
  ReasonForError (kubeError e) = ReasonForError e ∧
  kind_of (kubeError (kubeError e)) = kind_of (kubeError e) ∧
  (IsNotFound (kubeError e) = IsNotFound e).
Proof.
  split_and!.
  - apply kubeError_kind.
  - apply kubeError_reason.
  - rewrite (kubeError_kind (kubeError e)), kubeError_reason, kubeError_kind.
    destruct (kind_of e); [done|]. destruct (ReasonForError e) as [[]|]; done.
  - unfold IsNotFound, has_reason. by rewrite kubeError_reason.
Qed.
