(* ===== verification/Prog.v ===== *)
(** * Prog: effectful programs, their executions and a weakest precondition

    A method that calls the Kubernetes API, takes a mutex, waits for a timer or
    draws a random name is a tree of commands: each command is answered by the
    environment, and the program continues with the answer.  The environment is
    not restricted: it stands for the API server, the other clients of the
    cluster, the other goroutines of the process and the clock.

    [exec p h h' a] says that [p], started after the events [h], can return [a]
    with [h'] as the events so far (most recent first).  [wp R G p h Q] says
    that, as long as every answer satisfies [R], every command the program
    issues satisfies [G] in the history before it and the result satisfies
    [Q].  [wp_exec] relates the two. *)

From S2P Require Import Prelude.

Section prog.
Context {cmd : Type → Type}.

Inductive prog (A : Type) : Type :=
| Ret (a : A)
| Call (X : Type) (c : cmd X) (k : X → prog A).
Arguments Ret {A} a.
Arguments Call {A X} c k.

Fixpoint bind {A B} (p : prog A) (f : A → prog B) : prog B :=
  match p with
  | Ret a => f a
  | Call c k => Call c (λ x, bind (k x) f)
  end.

Definition call {X} (c : cmd X) : prog X := Call c Ret.

(** [x, err := p; if err != nil { return err }] *)
Definition bind_res {E A B} (p : prog (result E A)) (f : A → prog (result E B)) :
    prog (result E B) :=
  bind p (λ r, match r with Ok a => f a | Err e => Ret (Err e) end).

(** [defer cleanup()]: runs on every return of [body]. *)
Definition defer {A} (cleanup : prog unit) (body : prog A) : prog A :=
  bind body (λ a, bind cleanup (λ _, Ret a)).

(** A [for] loop over a list with an early return on error. *)
Fixpoint for_each {E A} (l : list A) (f : A → prog (result E unit)) : prog (result E unit) :=
  match l with
  | [] => Ret (Ok tt)
  | x :: l => bind_res (f x) (λ _, for_each l f)
  end.

(** ** Executions *)

Record event := Event { ev_type : Type; ev_cmd : cmd ev_type; ev_res : ev_type }.
Abbreviation history := (list event).

Inductive exec {A} : prog A → history → history → A → Prop :=
| exec_ret a h : exec (Ret a) h h a
| exec_call X (c : cmd X) k x h h' a :
    exec (k x) (Event X c x :: h) h' a → exec (Call c k) h h' a.

Lemma exec_inv {A} (p : prog A) h h' a :
  exec p h h' a →
  match p with
  | Ret b => a = b ∧ h' = h
  | Call c k => ∃ x, exec (k x) (Event _ c x :: h) h' a
  end.
Proof. destruct 1; eauto. Qed.

(** Every event between the two histories satisfies the predicate in the
    history before it. *)
Inductive along (P : history → event → Prop) (h : history) : history → Prop :=
| along_refl : along P h h
| along_step e h' : along P h h' → P h' e → along P h (e :: h').

Definition rely := history → ∀ X, cmd X → X → Prop.
Definition guard := history → ∀ X, cmd X → Prop.

Definition answered (R : rely) (h h' : history) : Prop :=
  along (λ h e, R h (ev_type e) (ev_cmd e) (ev_res e)) h h'.
Definition guarded (G : guard) (h h' : history) : Prop :=
  along (λ h e, G h (ev_type e) (ev_cmd e)) h h'.

(** The environment that may answer anything. *)
Definition any_answer : rely := λ _ _ _ _, True.
Definition any_command : guard := λ _ _ _, True.

Lemma along_trans P h1 h2 h3 : along P h1 h2 → along P h2 h3 → along P h1 h3.
Proof. intros H12 H23. induction H23; [done|]. by constructor. Qed.

Lemma along_mono (P P' : history → event → Prop) h h' :
  (∀ h e, P h e → P' h e) → along P h h' → along P' h h'.
Proof. intros HP. induction 1; constructor; auto. Qed.

Lemma along_suffix P h h' : along P h h' → h `suffix_of` h'.
Proof. induction 1; [done|]. by apply suffix_cons_r. Qed.

Lemma along_inv P h e h' : h ≠ e :: h' → along P h (e :: h') → P h' e ∧ along P h h'.
Proof. intros Hne. inversion 1; simplify_eq; done. Qed.

(** Splits off the first of the events. *)
Lemma along_tail P e h h' :
  e :: h `suffix_of` h' → along P h h' → P h e ∧ along P (e :: h) h'.
Proof.
  intros [l ->]. induction l as [|e' l IH]; simpl; intros Ha.
  - apply along_inv in Ha as [? _]; [split; [done|constructor]|].
    intros Heq%(f_equal length). simpl in *. lia.
  - apply along_inv in Ha as [He Ha].
    + destruct (IH Ha) as [? ?]. split; [done|]. by constructor.
    + intros Heq%(f_equal length). simpl in *. rewrite length_app in Heq. simpl in *. lia.
Qed.

Lemma along_any (P : history → event → Prop) h h' :
  (∀ h e, P h e) → h `suffix_of` h' → along P h h'.
Proof. intros HP [l ->]. induction l; simpl; constructor; auto. Qed.

Lemma exec_bind {A B} (p : prog A) (f : A → prog B) h h2 b :
  exec (bind p f) h h2 b ↔ ∃ h1 a, exec p h h1 a ∧ exec (f a) h1 h2 b.
Proof.
  split.
  - revert h. induction p as [a|X c k IH]; intros h; simpl.
    + intros. exists h, a. split; [constructor|done].
    + intros [x Hx]%exec_inv. destruct (IH x _ Hx) as (h1 & a & ? & ?).
      exists h1, a. split; [by econstructor|done].
  - intros (h1 & a & Hp & Hf). induction Hp; simpl; [done|]. econstructor. by apply IHHp.
Qed.

Lemma exec_suffix {A} (p : prog A) h h' a : exec p h h' a → h `suffix_of` h'.
Proof.
  induction 1; [done|]. etrans; [|done]. by apply suffix_cons_r.
Qed.

(** An event stays in the history. *)
Lemma event_later (e : event) (h h' : history) : h `suffix_of` h' → e ∈ h → e ∈ h'.
Proof. intros [l ->] Hin. apply elem_of_app. by right. Qed.

(** ** Weakest preconditions *)

Fixpoint wp {A} (R : rely) (G : guard) (p : prog A) (h : history)
    (Q : history → A → Prop) : Prop :=
  match p with
  | Ret a => Q h a
  | Call c k => G h _ c ∧ ∀ x, R h _ c x → wp R G (k x) (Event _ c x :: h) Q
  end.

Lemma wp_mono {A} (R : rely) (G G' : guard) (p : prog A) h (Q Q' : history → A → Prop) :
  (∀ h X c, G h X c → G' h X c) → (∀ h a, Q h a → Q' h a) →
  wp R G p h Q → wp R G' p h Q'.
Proof.
  intros HG HQ. revert h. induction p as [a|X c k IH]; intros h; simpl; [auto|].
  intros [Hc Hk]. split; [auto|]. intros x Hx. apply IH, Hk, Hx.
Qed.

(** Under a stronger assumption on the answers. *)
Lemma wp_rely {A} (R R' : rely) (G : guard) (p : prog A) h Q :
  (∀ h X c x, R' h X c x → R h X c x) → wp R G p h Q → wp R' G p h Q.
Proof.
  intros HR. revert h. induction p as [a|X c k IH]; intros h; simpl; [done|].
  intros [Hc Hk]. split; [done|]. intros x Hx. by apply IH, Hk, HR.
Qed.

Lemma wp_post {A} (R : rely) (G : guard) (p : prog A) h (Q Q' : history → A → Prop) :
  (∀ h a, Q h a → Q' h a) → wp R G p h Q → wp R G p h Q'.
Proof. intros. by eapply wp_mono. Qed.

Lemma wp_bind {A B} R G (p : prog A) (f : A → prog B) h Q :
  wp R G (bind p f) h Q ↔ wp R G p h (λ h a, wp R G (f a) h Q).
Proof.
  revert h. induction p as [a|X c k IH]; intros h; simpl; [done|].
  setoid_rewrite IH. done.
Qed.

Lemma wp_bind_res {E A B} R G (p : prog (result E A)) (f : A → prog (result E B)) h Q :
  wp R G (bind_res p f) h Q ↔
  wp R G p h (λ h r, match r with Ok a => wp R G (f a) h Q | Err e => Q h (Err e) end).
Proof.
  unfold bind_res. rewrite wp_bind. split; apply wp_post; by intros h' [].
Qed.

Lemma wp_call {X} R G (c : cmd X) h Q :
  wp R G (call c) h Q ↔ G h X c ∧ ∀ x, R h X c x → Q (Event _ c x :: h) x.
Proof. done. Qed.

Lemma wp_ret {A} R G (a : A) h Q : wp R G (Ret a) h Q ↔ Q h a.
Proof. done. Qed.

Lemma wp_defer {A} R G (cl : prog unit) (p : prog A) h Q :
  wp R G (defer cl p) h Q ↔ wp R G p h (λ h a, wp R G cl h (λ h _, Q h a)).
Proof.
  unfold defer. rewrite wp_bind. split; apply wp_post; intros h' a; by rewrite wp_bind.
Qed.

(** A loop keeps an invariant that every iteration keeps. *)
Lemma wp_for_each {E A} R G (l : list A) (f : A → prog (result E unit)) h
    (I : history → Prop) (Q : history → result E unit → Prop) :
  I h →
  (∀ x h, x ∈ l → I h → wp R G (f x) h
     (λ h r, match r with Ok _ => I h | Err e => Q h (Err e) end)) →
  (∀ h, I h → Q h (Ok tt)) →
  wp R G (for_each l f) h Q.
Proof.
  revert h. induction l as [|x l IH]; intros h HI Hf HQ; simpl; [by apply HQ|].
  rewrite wp_bind_res. eapply wp_post; [|apply Hf; [set_solver|done]].
  intros h' [[]|e] Hr; [|done]. apply IH; [done|set_solver|done].
Qed.

(** A program whose every command satisfies the guard in any history. *)
Lemma wp_any {A} R (p : prog A) h : wp R any_command p h (λ _ _, True).
Proof. revert h. induction p; intros h; simpl; [done|]. by split. Qed.

Theorem wp_exec {A} R G (p : prog A) h h' a Q :
  wp R G p h Q → exec p h h' a → answered R h h' → Q h' a ∧ guarded G h h'.
Proof.
  intros Hwp Hex. revert Hwp. induction Hex as [a h|X c k x h h' a Hex IH]; intros Hwp Hans.
  { split; [done|constructor]. }
  destruct Hwp as [Hc Hk].
  destruct (along_tail _ _ _ _ (exec_suffix _ _ _ _ Hex) Hans) as [HR Hans'].
  destruct (IH (Hk x HR) Hans') as [HQ Hg]. split; [done|].
  eapply along_trans; [|exact Hg]. constructor; [constructor|done].
Qed.

(** What holds of the result holds together with the extension of the history. *)
Lemma wp_suffix {A} R G (p : prog A) h Q :
  wp R G p h Q → wp R G p h (λ h' a, Q h' a ∧ h `suffix_of` h').
Proof.
  revert h. induction p as [a|X c k IH]; intros h; simpl; [by split|].
  intros [Hc Hk]. split; [done|]. intros x Hx. specialize (IH x _ (Hk x Hx)).
  eapply wp_post; [|exact IH]. intros h' a [HQ Hs]. split; [done|].
  etrans; [|exact Hs]. by apply suffix_cons_r.
Qed.

(** The guard may use that the history only grows. *)
Lemma wp_suffix_guard {A} R (G : guard) (p : prog A) h Q :
  wp R G p h Q → wp R (λ h' X c, G h' X c ∧ h `suffix_of` h') p h Q.
Proof.
  assert (∀ h0 h1, h0 `suffix_of` h1 → wp R G p h1 Q →
            wp R (λ h' X c, G h' X c ∧ h0 `suffix_of` h') p h1 Q) as Hgen; [|by apply Hgen].
  induction p as [a|X c k IH]; intros h0 h1 Hs; simpl; [done|].
  intros [Hc Hk]. split; [done|]. intros x Hx. apply IH, Hk, Hx. by apply suffix_cons_r.
Qed.

(** Two facts about the same program. *)
Lemma wp_both {A} R (G G' : guard) (p : prog A) h (Q Q' : history → A → Prop) :
  wp R G p h Q → wp R G' p h Q' →
  wp R (λ h X c, G h X c ∧ G' h X c) p h (λ h a, Q h a ∧ Q' h a).
Proof.
  revert h. induction p as [a|X c k IH]; intros h; simpl; [done|].
  intros [Hc Hk] [Hc' Hk']. split; [done|]. intros x Hx. by apply IH; [apply Hk|apply Hk'].
Qed.

(** A loop over actions of which each leaves behind something that lasts. *)
Lemma wp_for_each_all {E A} R G (l : list A) (f : A → prog (result E unit)) h0 h
    (P : A → history → Prop) (Q : history → result E unit → Prop) :
  (∀ x h1 h2, h1 `suffix_of` h2 → P x h1 → P x h2) →
  h0 `suffix_of` h →
  (∀ x h, x ∈ l → h0 `suffix_of` h → wp R G (f x) h
     (λ h' r, match r with Ok _ => P x h' | Err e => Q h' (Err e) end)) →
  (∀ h', h0 `suffix_of` h' → (∀ x, x ∈ l → P x h') → Q h' (Ok tt)) →
  wp R G (for_each l f) h Q.
Proof.
  intros HP. revert h0 h Q. induction l as [|x l IH]; intros h0 h Q Hs Hf HQ; simpl.
  { apply HQ; [done|set_solver]. }
  rewrite wp_bind_res. eapply wp_post; [|apply wp_suffix, Hf; [set_solver|done]].
  intros h' [[]|e] [Hr Hs']; [|done]. apply (IH h').
  - done.
  - intros y h2 Hy Hs2. apply Hf; [set_solver|]. etrans; [exact Hs|]. by etrans.
  - intros h2 Hs2 Hall. apply HQ; [by do 2 (etrans; [done|])|]. intros y [->|Hy]%elem_of_cons; [|auto].
    by eapply HP.
Qed.

(** ** Safety: every command satisfies the guard, whatever is returned *)

Definition safe {A} (R : rely) (G : guard) (p : prog A) (h : history) : Prop :=
  wp R G p h (λ h' _, h `suffix_of` h').

Lemma safe_wp {A} R G (p : prog A) h (Q : history → A → Prop) :
  (∀ h' a, h `suffix_of` h' → Q h' a) → safe R G p h → wp R G p h Q.
Proof. intros HQ. apply wp_post. auto. Qed.

Lemma safe_ret {A} R G (a : A) h : safe R G (Ret a) h.
Proof. by apply wp_ret. Qed.

Lemma safe_call {X} (R : rely) (G : guard) (c : cmd X) h : G h X c → safe R G (call c) h.
Proof. intros Hc. apply wp_call. split; [done|]. intros x _. by apply suffix_cons_r. Qed.

Lemma safe_bind {A B} R G (p : prog A) (f : A → prog B) h :
  safe R G p h → (∀ h' a, h `suffix_of` h' → safe R G (f a) h') → safe R G (bind p f) h.
Proof.
  intros Hp Hf. unfold safe. rewrite wp_bind. eapply safe_wp; [|exact Hp].
  intros h' a Hs. eapply safe_wp; [|by apply Hf]. intros. by etrans.
Qed.

Lemma safe_bind_res {E A B} R G (p : prog (result E A)) (f : A → prog (result E B)) h :
  safe R G p h → (∀ h' a, h `suffix_of` h' → safe R G (f a) h') → safe R G (bind_res p f) h.
Proof.
  intros Hp Hf. apply safe_bind; [done|]. intros h' [a|e] Hs; [auto|]. by apply wp_ret.
Qed.

Lemma safe_for_each {E A} R G (l : list A) (f : A → prog (result E unit)) h :
  (∀ x h', x ∈ l → h `suffix_of` h' → safe R G (f x) h') → safe R G (for_each l f) h.
Proof.
  revert h. induction l as [|x l IH]; intros h Hf; simpl; [apply safe_ret|].
  apply safe_bind_res; [apply Hf; [set_solver|done]|]. intros h' _ Hs.
  apply IH. intros y h2 Hy Hs2. apply Hf; [set_solver|by etrans].
Qed.

(** A program under a stronger guard. *)
Lemma safe_mono {A} R (G G' : guard) (p : prog A) h Q :
  (∀ h X c, G h X c → G' h X c) → wp R G p h Q → safe R G' p h.
Proof.
  intros HG Hp. apply wp_suffix in Hp. eapply wp_mono; [exact HG| |exact Hp]. by intros ? ? [_ ?].
Qed.

(** From a history that the safe program extends. *)
Lemma safe_from {A} R G (p : prog A) h0 h :
  h0 `suffix_of` h → safe R G p h → wp R G p h (λ h' _, h0 `suffix_of` h').
Proof. intros Hs. apply safe_wp. intros h' _ Hs'. by etrans. Qed.

(** Every answer is allowed. *)
Lemma exec_any_answer {A} (p : prog A) h h' a : exec p h h' a → answered any_answer h h'.
Proof. intros Hexec. apply along_any; [done|]. by eapply exec_suffix. Qed.

Lemma safe_exec {A} R G (p : prog A) h h' a :
  safe R G p h → exec p h h' a → answered R h h' → guarded G h h'.
Proof. intros Hp Hex Hans. by destruct (wp_exec _ _ _ _ _ _ _ Hp Hex Hans). Qed.

(** ** Running a program against a handler *)

Section run.
Context {S : Type} (handle : ∀ X, cmd X → S → X * S).

Fixpoint run {A} (p : prog A) (h : history) (s : S) : A * history * S :=
  match p with
  | Ret a => (a, h, s)
  | Call c k => let '(x, s) := handle _ c s in run (k x) (Event _ c x :: h) s
  end.

Lemma run_exec {A} (p : prog A) h s : exec p h (run p h s).1.2 (run p h s).1.1.
Proof.
  revert h s. induction p as [a|X c k IH]; intros h s; simpl; [constructor|].
  destruct (handle X c s) as [x s']. econstructor. apply IH.
Qed.

(** The answers of a handler that satisfies [R] in every state. *)
Lemma run_answered {A} (R : rely) (p : prog A) h s :
  (∀ h X (c : cmd X) s, R h X c (handle X c s).1) → answered R h (run p h s).1.2.
Proof.
  intros HR. revert h s. induction p as [a|X c k IH]; intros h s; simpl; [constructor|].
  specialize (HR h X c s). destruct (handle X c s) as [x s'].
  eapply along_trans; [|apply IH]. by constructor; [constructor|].
Qed.
End run.
End prog.

Arguments prog cmd A : clear implicits.
Arguments event cmd : clear implicits.
Arguments Ret {cmd A} a.
Arguments Call {cmd A X} c k.
Arguments Event {cmd} ev_type ev_cmd ev_res.

Abbreviation history cmd := (list (event cmd)).

Declare Scope prog_scope.
Delimit Scope prog_scope with prog.
Notation "'do' x <- p ; k" := (bind p (λ x, k))
  (at level 10, x name, p at level 200, k at level 200) : prog_scope.
Notation "'do?' x <- p ; k" := (bind_res p (λ x, k))
  (at level 10, x name, p at level 200, k at level 200) : prog_scope.
Notation "'do?' ' p <- r ; k" := (bind_res r (λ x, match x with p => k end))
  (at level 10, p strict pattern, r at level 200, k at level 200) : prog_scope.
#[global] Open Scope prog_scope.

(** A program's executions, whatever is answered, from its precondition. *)
Lemma wp_exec_any {cmd A} G (p : prog cmd A) h h' a Q :
  wp any_answer G p h Q → exec p h h' a → guarded G h h' ∧ Q h' a.
Proof.
  intros Hp Hexec. apply and_comm. exact (wp_exec _ _ _ _ _ _ _ Hp Hexec (exec_any_answer _ _ _ _ Hexec)).
Qed.

(** Reduces what guards and follows an execution to its precondition. *)
Ltac apply_wp Hexec :=
  match type of Hexec with
  | exec _ ?h ?h' ?r =>
      match goal with
      | |- guarded ?G _ _ ∧ ?Q =>
          let Q' := eval pattern h', r in Q in
          match Q' with ?F _ _ => apply (λ Hp, wp_exec_any G _ h h' r F Hp Hexec) end
      end
  end.

(** ** Programs of a part of the commands *)

Section embed.
Context {cmd1 cmd2 : Type → Type} (f : ∀ X, cmd1 X → cmd2 X).

Fixpoint embed {A} (p : prog cmd1 A) : prog cmd2 A :=
  match p with
  | Ret a => Ret a
  | Call c k => Call (f _ c) (λ x, embed (k x))
  end.

Definition embed_event (e : event cmd1) : event cmd2 :=
  match e with Event _ c x => Event _ (f _ c) x end.

(** What a program does in its own history, it does after any other events. *)
Lemma wp_embed {A} (R : rely) (G : guard) (R' : rely) (G' : guard) (p : prog cmd1 A) Q h : ∀ h1,
  (∀ h1 h2 X (c : cmd1 X) x, R' h2 _ (f _ c) x → R h1 _ c x) →
  (∀ h1 X (c : cmd1 X), G h1 _ c → G' (map embed_event h1 ++ h)%list _ (f _ c)) →
  wp R G p h1 Q →
  wp R' G' (embed p) (map embed_event h1 ++ h)%list (λ h2 a, ∃ h1, h2 = (map embed_event h1 ++ h)%list ∧ Q h1 a).
Proof.
  intros h1 HR HG. revert h1. induction p as [a|X c k IH]; intros h1; simpl; [by exists h1|].
  intros [Hc Hk]. split; [by apply HG|]. intros x Hx. apply (IH x (Event _ c x :: h1)). eapply Hk, HR, Hx.
Qed.
End embed.
