(* ===== verification/Threads.v ===== *)
(** * Threads: programs that run at the same time over a shared state

    A state of the process is what its goroutines share, and what each has left to do.  A
    step lets one of them issue its next command, which reads or changes the shared state
    at once; goroutines start with the handlers of requests, at any time, and go when they
    return.  [owned_reachable] is the rule for invariants: each goroutine has a ghost value,
    what it owns, which its commands need and change. *)

From S2P Require Import Prelude Prog.

Section threads.
Context {cmd : Type → Type} {S A : Type}.

(** What a command may answer in a state, and the state after it. *)
Context (act : ∀ X, cmd X → S → X → S → Prop).

(** What a goroutine may be started with. *)
Context (handler : prog cmd A → Prop).

Record pool := { shared : S; running : gmap nat (prog cmd A) }.

Inductive step (s : pool) : pool → Prop :=
| step_start i p :
    running s !! i = None → handler p →
    step s {| shared := shared s; running := <[i := p]> (running s) |}
| step_call i X (c : cmd X) k x after :
    running s !! i = Some (Call c k) → act X c (shared s) x after →
    step s {| shared := after; running := <[i := k x]> (running s) |}
| step_return i a :
    running s !! i = Some (Ret a) →
    step s {| shared := shared s; running := delete i (running s) |}.

Definition start (s : S) : pool := {| shared := s; running := ∅ |}.

(** ** Concrete steps *)

Section answers.
Context (answers : ∀ X, cmd X → S → option (X * S)).
Context (Hanswers : ∀ X (c : cmd X) s x after, answers X c s = Some (x, after) → act X c s x after).

(** The next command of a goroutine, or its return. *)
Definition advance (i : nat) (s : pool) : pool :=
  match running s !! i with
  | Some (Call c k) =>
      match answers _ c (shared s) with
      | Some (x, after) => {| shared := after; running := <[i := k x]> (running s) |}
      | None => s
      end
  | Some (Ret _) => {| shared := shared s; running := delete i (running s) |}
  | None => s
  end.

Definition begin (i : nat) (p : prog cmd A) (s : pool) : pool :=
  match running s !! i with
  | None => {| shared := shared s; running := <[i := p]> (running s) |}
  | Some _ => s
  end.

Lemma advance_steps n i s : rtc step s (Nat.iter n (advance i) s).
Proof.
  induction n as [|n IH]; simpl; [done|]. etrans; [exact IH|]. clear IH. generalize (Nat.iter n (advance i) s). clear s. intros s.
  unfold advance. destruct (running s !! i) as [[a|X c k]|] eqn:Hi; [|
    destruct (answers X c (shared s)) as [[x after]|] eqn:Hx; [|done]|done].
  - apply rtc_once. by eapply step_return.
  - apply rtc_once. eapply step_call; [exact Hi|by apply Hanswers].
Qed.

Lemma begin_steps i p s : handler p → rtc step s (begin i p s).
Proof.
  intros Hp. unfold begin. destruct (running s !! i) eqn:Hi; [done|]. apply rtc_once. by apply step_start.
Qed.

(** One goroutine alone. *)
Fixpoint play {B} (p : prog cmd B) (h : history cmd) (s : S) : option (B * history cmd * S) :=
  match p with
  | Ret b => Some (b, h, s)
  | Call c k =>
      match answers _ c s with
      | Some (x, s) => play (k x) (Event _ c x :: h) s
      | None => None
      end
  end.

Lemma play_exec {B} (p : prog cmd B) h s b h' s' : play p h s = Some (b, h', s') → exec p h h' b.
Proof.
  revert h s. induction p as [b'|X c k IH]; intros h s; simpl; [intros [= <- <- <-]; constructor|].
  destruct (answers X c s) as [[x after]|]; [|done]. intros Hk. econstructor. by eapply IH.
Qed.

Lemma play_answered {B} (R : rely) (p : prog cmd B) h s b h' s' :
  (∀ h X (c : cmd X) s x after, answers X c s = Some (x, after) → R h X c x) →
  play p h s = Some (b, h', s') → answered R h h'.
Proof.
  intros HR. revert h s. induction p as [b'|X c k IH]; intros h s; simpl; [intros [= <- <- <-]; constructor|].
  destruct (answers X c s) as [[x after]|] eqn:Hx; [|done]. intros Hk.
  eapply along_trans; [|by eapply IH]. constructor; [constructor|by eapply HR].
Qed.
End answers.

(** ** Ownership *)

Context {O : Type} (idle : O) (pre : ∀ X, cmd X → O → Prop) (next : ∀ X, cmd X → X → O → O).

(** What is known of every answer. *)
Context (answer : ∀ X, cmd X → X → Prop).

(** Every command of the program finds what it needs, whatever is answered. *)
Fixpoint owns {B} (o : O) (p : prog cmd B) (Q : O → B → Prop) : Prop :=
  match p with
  | Ret b => Q o b
  | Call c k => pre _ c o ∧ ∀ x, answer _ c x → owns (next _ c x o) (k x) Q
  end.

Lemma owns_post {B} o (p : prog cmd B) (Q Q' : O → B → Prop) :
  (∀ o b, Q o b → Q' o b) → owns o p Q → owns o p Q'.
Proof.
  intros HQ. revert o. induction p as [b|X c k IH]; intros o; simpl; [apply HQ|].
  intros [Hpre Hk]. split; [done|]. intros x Hx. by apply IH, Hk.
Qed.

Lemma owns_bind {B C} o (p : prog cmd B) (f : B → prog cmd C) Q :
  owns o (bind p f) Q ↔ owns o p (λ o b, owns o (f b) Q).
Proof.
  revert o. induction p as [b|X c k IH]; intros o; simpl; [done|]. by setoid_rewrite IH.
Qed.

Lemma owns_bind_res {E B C} o (p : prog cmd (result E B)) (f : B → prog cmd (result E C)) Q :
  owns o (bind_res p f) Q ↔
  owns o p (λ o r, match r with Ok b => owns o (f b) Q | Err e => Q o (Err e) end).
Proof. unfold bind_res. rewrite owns_bind. split; apply owns_post; by intros o' []. Qed.

Lemma owns_call {X} o (c : cmd X) Q :
  owns o (call c) Q ↔ pre _ c o ∧ ∀ x, answer _ c x → Q (next _ c x o) x.
Proof. done. Qed.

Lemma owns_ret {B} o (b : B) Q : owns o (Ret b) Q ↔ Q o b.
Proof. done. Qed.

Context (inv : S → gmap nat O → Prop).

(** The goroutines own what the invariant speaks of. *)
Definition owned (s : pool) : Prop :=
  ∃ ghost, inv (shared s) ghost ∧
    ∀ i, match running s !! i with
         | Some p => ∃ o, ghost !! i = Some o ∧ owns o p (λ o _, o = idle)
         | None => ghost !! i = None
         end.

Context (Hhandler : ∀ p, handler p → owns idle p (λ o _, o = idle)).
Context (Hstart : ∀ s ghost i, inv s ghost → ghost !! i = None → inv s (<[i := idle]> ghost)).
Context (Hcall : ∀ s ghost i o X (c : cmd X) x after,
  inv s ghost → ghost !! i = Some o → pre X c o → act X c s x after →
  answer X c x ∧ inv after (<[i := next X c x o]> ghost)).
Context (Hreturn : ∀ s ghost i, inv s ghost → ghost !! i = Some idle → inv s (delete i ghost)).

Lemma owned_step s s' : step s s' → owned s → owned s'.
Proof.
  destruct 1 as [i p Hi Hp|i X c k x after Hi Hact|i a Hi]; intros (ghost & Hinv & Hall); simpl.
  - exists (<[i := idle]> ghost). simpl. split.
    + apply Hstart; [done|]. specialize (Hall i). by rewrite Hi in Hall.
    + intros j. destruct (decide (i = j)) as [<-|Hne].
      * rewrite !lookup_insert_eq. exists idle. split; [done|]. by apply Hhandler.
      * rewrite !lookup_insert_ne by done. apply Hall.
  - pose proof (Hall i) as Hthread. rewrite Hi in Hthread.
    destruct Hthread as (o & Ho & Hpre & Hk).
    destruct (Hcall _ _ _ _ _ _ _ _ Hinv Ho Hpre Hact) as [Hx Hafter].
    exists (<[i := next X c x o]> ghost). simpl. split; [done|].
    intros j. destruct (decide (i = j)) as [<-|Hne].
    + rewrite !lookup_insert_eq. eexists. split; [done|by apply Hk].
    + rewrite !lookup_insert_ne by done. apply Hall.
  - pose proof (Hall i) as Hthread. rewrite Hi in Hthread. destruct Hthread as (o & Ho & Hidle).
    simpl in Hidle. subst o. exists (delete i ghost). simpl. split; [by apply Hreturn|].
    intros j. destruct (decide (i = j)) as [<-|Hne].
    + by rewrite !lookup_delete_eq.
    + rewrite !lookup_delete_ne by done. apply Hall.
Qed.

Lemma owned_reachable s0 s : inv s0 ∅ → rtc step (start s0) s → owned s.
Proof.
  intros Hinv Hr.
  assert (owned (start s0)) as Howned.
  { exists ∅. split; [done|]. intros i. simpl. by rewrite !lookup_empty. }
  induction Hr as [|? ? ? Hstep _ IH]; [done|]. by eapply IH, owned_step.
Qed.
End threads.

Arguments pool cmd S A : clear implicits.
