(* ===== verification/Docker.v ===== *)
(** * Docker: the Docker API types the translator reads

    The fields of [container.Config], [container.HostConfig] and the related
    types of the Docker API that the program inspects or sets; the fields it only
    carries along are left out.  A nil and an empty slice are distinguished where
    the code does ([Entrypoint]).  The JSON codecs are parameters. *)

From S2P Require Import Prelude GoStrings Errors.

Local Open Scope string_scope.

(** [network.Port]: a number of 16 bits and a protocol. *)
Record Port := { Num : Z; Proto : string }.

#[export] Instance Port_eq_dec : EqDecision Port.
Proof. solve_decision. Defined.
#[export] Instance Port_countable : Countable Port.
Proof.
  refine (inj_countable' (λ p, (Num p, Proto p)) (λ '(n, p), {| Num := n; Proto := p |}) _).
  by intros [].
Defined.

(** A binding: the host address, if it is valid and not unspecified, and the text
    of the host port. *)
Record PortBinding := { HostIP : option string; Binding_HostPort : string }.

#[export] Instance PortBinding_eq_dec : EqDecision PortBinding.
Proof. solve_decision. Defined.

(** Durations in nanoseconds, as [time.Duration]. *)
Record HealthConfig := {
  Test : list string;
  Interval : Z;
  Timeout : Z;
  StartPeriod : Z;
  StartInterval : Z;
  Retries : Z
}.

#[export] Instance HealthConfig_eq_dec : EqDecision HealthConfig.
Proof. solve_decision. Defined.

Record Config := {
  User : string;
  ExposedPorts : gset Port;
  Tty : bool;
  OpenStdin : bool;
  Env : list string;
  Cmd : list string;
  Healthcheck : option HealthConfig;
  Image : string;
  Config_Volumes : gset string;
  WorkingDir : string;
  Entrypoint : option (list string);     (* None is the nil slice *)
  OnBuild : list string;
  Labels : gmap string string;
  StopSignal : string;
  Shell : list string
}.

#[export] Instance Config_eq_dec : EqDecision Config.
Proof. solve_decision. Defined.

Definition empty_config : Config := {|
  User := ""; ExposedPorts := ∅; Tty := false; OpenStdin := false; Env := []; Cmd := [];
  Healthcheck := None; Image := ""; Config_Volumes := ∅; WorkingDir := ""; Entrypoint := None;
  OnBuild := []; Labels := ∅; StopSignal := ""; Shell := [] |}.

(** [dockerspec.DockerOCIImageConfig]; the ports are still text. *)
Record OCIImageConfig := {
  oci_User : string;
  oci_ExposedPorts : gset string;
  oci_Env : list string;
  oci_Entrypoint : option (list string);
  oci_Cmd : list string;
  oci_Volumes : gset string;
  oci_WorkingDir : string;
  oci_Labels : gmap string string;
  oci_StopSignal : string;
  oci_OnBuild : list string;
  oci_Shell : list string;
  oci_Healthcheck : option HealthConfig
}.

(** [container.Resources].  The fields of the struct that the backend does not
    support are listed by name, with whether they are set. *)
Record Resources := {
  Memory : Z;
  MemoryReservation : Z;
  NanoCPUs : Z;
  CPUQuota : Z;
  CPUPeriod : Z;
  MemorySwappiness : option Z;
  OomKillDisable : option bool;
  PidsLimit : option Z;
  OtherResources : list (string * bool)
}.

#[export] Instance Resources_eq_dec : EqDecision Resources.
Proof. solve_decision. Defined.

Definition empty_resources : Resources := {|
  Memory := 0; MemoryReservation := 0; NanoCPUs := 0; CPUQuota := 0; CPUPeriod := 0;
  MemorySwappiness := None; OomKillDisable := None; PidsLimit := None; OtherResources := [] |}.

(** A [mount.Mount]; the driver is the one of its [DriverConfig], if any. *)
Record Mount := {
  Mount_Type : string;
  Mount_Source : string;
  Mount_Target : string;
  Mount_ReadOnly : bool;
  NoCopy : bool;
  Subpath : string;
  DriverConfig : option (string * gmap string string)
}.

#[export] Instance Mount_eq_dec : EqDecision Mount.
Proof. solve_decision. Defined.

Record HostConfig := {
  host_Resources : Resources;
  host_Annotations : gmap string string;
  AutoRemove : bool;
  NetworkMode : string;
  PublishAllPorts : bool;
  PortBindings : gmap Port (list PortBinding);
  VolumeDriver : string;
  Tmpfs : gmap string string;
  VolumesFrom : list string;
  Mounts : list Mount;
  Binds : list string
}.

#[export] Instance HostConfig_eq_dec : EqDecision HostConfig.
Proof. solve_decision. Defined.

Definition empty_host_config : HostConfig := {|
  host_Resources := empty_resources; host_Annotations := ∅; AutoRemove := false;
  NetworkMode := ""; PublishAllPorts := false; PortBindings := ∅; VolumeDriver := "";
  Tmpfs := ∅; VolumesFrom := []; Mounts := []; Binds := [] |}.

Definition host_set_resources (r : Resources) (h : HostConfig) : HostConfig := {|
  host_Resources := r; host_Annotations := host_Annotations h; AutoRemove := AutoRemove h;
  NetworkMode := NetworkMode h; PublishAllPorts := PublishAllPorts h;
  PortBindings := PortBindings h; VolumeDriver := VolumeDriver h; Tmpfs := Tmpfs h;
  VolumesFrom := VolumesFrom h; Mounts := Mounts h; Binds := Binds h |}.

Definition host_set_annotations (a : gmap string string) (h : HostConfig) : HostConfig := {|
  host_Resources := host_Resources h; host_Annotations := a; AutoRemove := AutoRemove h;
  NetworkMode := NetworkMode h; PublishAllPorts := PublishAllPorts h;
  PortBindings := PortBindings h; VolumeDriver := VolumeDriver h; Tmpfs := Tmpfs h;
  VolumesFrom := VolumesFrom h; Mounts := Mounts h; Binds := Binds h |}.

(** [network.EndpointSettings] *)
Record EndpointSettings := { Aliases : list string; DNSNames : list string }.

#[export] Instance EndpointSettings_eq_dec : EqDecision EndpointSettings.
Proof. solve_decision. Defined.

(** [encoding/json] on the values stored in annotations; [None] is an error. *)
Class DockerJSON := {
  Marshal_Config : Config → option string;
  Unmarshal_Config : string → option Config;
  Marshal_HostConfig : HostConfig → option string;
  Unmarshal_HostConfig : string → option HostConfig;
  Marshal_aliases : gmap string (list string) → option string;
  Unmarshal_aliases : string → option (gmap string (list string))
}.

(** What is decoded is what was encoded, and no encoding is the empty text. *)
Class DockerJSONLaws `{DockerJSON} := {
  Unmarshal_Marshal_Config c s : Marshal_Config c = Some s → Unmarshal_Config s = Some c;
  Unmarshal_Marshal_HostConfig c s :
    Marshal_HostConfig c = Some s → Unmarshal_HostConfig s = Some c;
  Unmarshal_Marshal_aliases a s : Marshal_aliases a = Some s → Unmarshal_aliases s = Some a;
  Marshal_Config_nonempty c : Marshal_Config c ≠ Some "";
  Marshal_aliases_nonempty a : Marshal_aliases a ≠ Some ""
}.

(** ** A codec to evaluate the programs with *)

#[export] Instance PortBinding_countable : Countable PortBinding.
Proof.
  refine (inj_countable' (λ b, (HostIP b, Binding_HostPort b))
            (λ '(i, p), {| HostIP := i; Binding_HostPort := p |}) _).
  by intros [].
Defined.

#[export] Instance HealthConfig_countable : Countable HealthConfig.
Proof.
  refine (inj_countable' (λ c, (Test c, Interval c, Timeout c, StartPeriod c, StartInterval c, Retries c))
            (λ '(t, i, o, s, u, r), {| Test := t; Interval := i; Timeout := o; StartPeriod := s;
                                       StartInterval := u; Retries := r |}) _).
  by intros [].
Defined.

#[export] Instance Config_countable : Countable Config.
Proof.
  refine (inj_countable'
    (λ c, (User c, ExposedPorts c, Tty c, OpenStdin c, Env c, Cmd c, Healthcheck c, Image c,
           (Config_Volumes c, WorkingDir c, Entrypoint c, OnBuild c, Labels c, StopSignal c, Shell c)))
    (λ '(u, e, t, o, v, d, h, i, (l, w, n, b, a, s, x)),
      {| User := u; ExposedPorts := e; Tty := t; OpenStdin := o; Env := v; Cmd := d;
         Healthcheck := h; Image := i; Config_Volumes := l; WorkingDir := w; Entrypoint := n;
         OnBuild := b; Labels := a; StopSignal := s; Shell := x |}) _).
  by intros [].
Defined.

#[export] Instance Resources_countable : Countable Resources.
Proof.
  refine (inj_countable'
    (λ r, (Memory r, MemoryReservation r, NanoCPUs r, CPUQuota r, CPUPeriod r, MemorySwappiness r,
           OomKillDisable r, PidsLimit r, OtherResources r))
    (λ '(m, v, n, q, p, s, o, l, x),
      {| Memory := m; MemoryReservation := v; NanoCPUs := n; CPUQuota := q; CPUPeriod := p;
         MemorySwappiness := s; OomKillDisable := o; PidsLimit := l; OtherResources := x |}) _).
  by intros [].
Defined.

#[export] Instance Mount_countable : Countable Mount.
Proof.
  refine (inj_countable'
    (λ m, (Mount_Type m, Mount_Source m, Mount_Target m, Mount_ReadOnly m, NoCopy m, Subpath m,
           DriverConfig m))
    (λ '(t, s, g, r, n, p, d),
      {| Mount_Type := t; Mount_Source := s; Mount_Target := g; Mount_ReadOnly := r; NoCopy := n;
         Subpath := p; DriverConfig := d |}) _).
  by intros [].
Defined.

#[export] Instance HostConfig_countable : Countable HostConfig.
Proof.
  refine (inj_countable'
    (λ h, (host_Resources h, host_Annotations h, AutoRemove h, NetworkMode h, PublishAllPorts h,
           PortBindings h, VolumeDriver h, (Tmpfs h, VolumesFrom h, Mounts h, Binds h)))
    (λ '(r, a, v, n, p, b, d, (t, f, m, x)),
      {| host_Resources := r; host_Annotations := a; AutoRemove := v; NetworkMode := n;
         PublishAllPorts := p; PortBindings := b; VolumeDriver := d; Tmpfs := t;
         VolumesFrom := f; Mounts := m; Binds := x |}) _).
  by intros [].
Defined.

Definition demo_docker_json : DockerJSON := {|
  Marshal_Config c := Some (to_text c); Unmarshal_Config := of_text;
  Marshal_HostConfig c := Some (to_text c); Unmarshal_HostConfig := of_text;
  Marshal_aliases a := Some (to_text a); Unmarshal_aliases := of_text |}.

Lemma demo_docker_json_laws : @DockerJSONLaws demo_docker_json.
Proof.
  split; simpl.
  - intros c s [= <-]. apply of_text_to_text.
  - intros c s [= <-]. apply of_text_to_text.
  - intros c s [= <-]. apply of_text_to_text.
  - intros c [=Hc]. by apply to_text_nonempty in Hc.
  - intros c [=Hc]. by apply to_text_nonempty in Hc.
Qed.
