(* ===== verification/Kube.v ===== *)
(** * Kube: the Kubernetes objects and the commands of the translator

    Objects carry the fields the translator reads or writes.  A nil map and an
    empty map are the same [gmap]; a pointer field is an [option].  The API
    server itself is not modelled: requests are commands of [Prog.prog], answered
    by the environment.  [api_rely] states the documented part of its behaviour
    that theorems use. *)

From S2P Require Import Prelude GoStrings Errors Prog Docker.

Local Open Scope string_scope.

Record OwnerReference := {
  or_APIVersion : string;
  or_Kind : string;
  or_Name : string;
  or_UID : string;
  or_Controller : option bool
}.

Record ObjectMeta := {
  Name : string;
  Namespace : string;
  UID : string;
  ResourceVersion : string;
  Generation : Z;
  Labels : smap;
  Annotations : smap;
  OwnerReferences : list OwnerReference;
  DeletionTimestamp : option Z;
  CreationTimestamp : Z      (* nanoseconds; 0 is the zero time *)
}.

(** [metav1.ObjectMeta] with only a name, as in a composite literal. *)
Definition new_meta (name namespace : string) : ObjectMeta := {|
  Name := name; Namespace := namespace; UID := ""; ResourceVersion := "";
  Generation := 0; Labels := ∅; Annotations := ∅; OwnerReferences := [];
  DeletionTimestamp := None; CreationTimestamp := 0 |}.

Definition meta_set_labels (l : smap) (m : ObjectMeta) : ObjectMeta := {|
  Name := Name m; Namespace := Namespace m; UID := UID m;
  ResourceVersion := ResourceVersion m; Generation := Generation m; Labels := l;
  Annotations := Annotations m; OwnerReferences := OwnerReferences m;
  DeletionTimestamp := DeletionTimestamp m; CreationTimestamp := CreationTimestamp m |}.

Definition meta_set_annotations (a : smap) (m : ObjectMeta) : ObjectMeta := {|
  Name := Name m; Namespace := Namespace m; UID := UID m;
  ResourceVersion := ResourceVersion m; Generation := Generation m; Labels := Labels m;
  Annotations := a; OwnerReferences := OwnerReferences m;
  DeletionTimestamp := DeletionTimestamp m; CreationTimestamp := CreationTimestamp m |}.

Definition meta_set_owners (o : list OwnerReference) (m : ObjectMeta) : ObjectMeta := {|
  Name := Name m; Namespace := Namespace m; UID := UID m;
  ResourceVersion := ResourceVersion m; Generation := Generation m; Labels := Labels m;
  Annotations := Annotations m; OwnerReferences := o;
  DeletionTimestamp := DeletionTimestamp m; CreationTimestamp := CreationTimestamp m |}.

Definition meta_set_name (n : string) (m : ObjectMeta) : ObjectMeta := {|
  Name := n; Namespace := Namespace m; UID := UID m;
  ResourceVersion := ResourceVersion m; Generation := Generation m; Labels := Labels m;
  Annotations := Annotations m; OwnerReferences := OwnerReferences m;
  DeletionTimestamp := DeletionTimestamp m; CreationTimestamp := CreationTimestamp m |}.

Definition meta_set_rv (rv : string) (m : ObjectMeta) : ObjectMeta := {|
  Name := Name m; Namespace := Namespace m; UID := UID m;
  ResourceVersion := rv; Generation := Generation m; Labels := Labels m;
  Annotations := Annotations m; OwnerReferences := OwnerReferences m;
  DeletionTimestamp := DeletionTimestamp m; CreationTimestamp := CreationTimestamp m |}.

(** ** Pods *)

Record ContainerPort := { ContainerPort_port : Z; HostPort : Z; Port_Protocol : string }.

Record EnvVar := {
  Env_Name : string;
  Env_Value : string;
  Env_SecretKeyRef : option (string * string)   (* ValueFrom: Secret name and key *)
}.

Record VolumeMount := {
  VM_Name : string; MountPath : string; ReadOnly : bool; SubPath : string
}.

Inductive VolumeSource :=
| PersistentVolumeClaimSource (claim : string)
| EmptyDirSource (sizeLimit : option Z)
| SecretSource (secret path : string) (mode : Z)
| ConfigMapSource (name path : string) (mode : Z).

Record Volume := { Vol_Name : string; Vol_Source : VolumeSource }.

(** A [resource.Quantity] is its value in units of 10^-9. *)
Abbreviation quantity := Z.
Abbreviation ResourceList := (gmap string quantity).
Record ResourceRequirements := { Limits : ResourceList; Requests : ResourceList }.

Definition ResourceCPU : string := "cpu".
Definition ResourceMemory : string := "memory".

Record Probe := {
  Probe_Command : list string;
  InitialDelaySeconds : Z;
  TimeoutSeconds : Z;
  PeriodSeconds : Z;
  SuccessThreshold : Z;
  FailureThreshold : Z
}.

(** [ReadOnlyRootFilesystem], and the capabilities to add and to drop. *)
Record SecurityContext := {
  ReadOnlyRootFilesystem : option bool;
  Capabilities : option (list string * list string)
}.

Record Container := {
  Ctr_Name : string;
  Ctr_Image : string;
  Ctr_Command : list string;
  Ctr_Args : list string;
  Ctr_WorkingDir : string;
  Ctr_Ports : list ContainerPort;
  Ctr_Env : list EnvVar;
  Ctr_Resources : ResourceRequirements;
  Ctr_VolumeMounts : list VolumeMount;
  Ctr_ReadinessProbe : option Probe;
  Ctr_TTY : bool;
  Ctr_Stdin : bool;
  Ctr_ImagePullPolicy : string;
  Ctr_SecurityContext : option SecurityContext
}.

Inductive NodeSelectorOperator := OpIn | OpNotIn | OpExists | OpDoesNotExist.

Record NodeSelectorRequirement := {
  Req_Key : string; Req_Operator : NodeSelectorOperator; Req_Values : list string
}.
(** A term is its [MatchExpressions]; a selector is its terms. *)
Abbreviation NodeSelectorTerm := (list NodeSelectorRequirement).
Abbreviation NodeSelector := (list NodeSelectorTerm).

Record Toleration := {
  Tol_Key : string; Tol_Operator : string; Tol_Value : string; Tol_Effect : string
}.

(** [corev1.PodDNSConfig]; an option has a name and possibly a value. *)
Record DNSSettings := {
  DNS_Nameservers : list string; Searches : list string; DNS_Options : list (string * option string)
}.

Record PodSpec := {
  HostNetwork : bool;
  DNSPolicy : string;
  Volumes : list Volume;
  ImagePullSecrets : list string;
  Containers : list Container;
  NodeAffinity : option NodeSelector;   (* RequiredDuringSchedulingIgnoredDuringExecution *)
  Tolerations : list Toleration;
  RestartPolicy : string;
  Hostname : string;
  HostAliases : list (string * list string);        (* an address and its names *)
  PodDNSConfig : option DNSSettings;
  TerminationGracePeriodSeconds : option Z;
  Sysctls : list (string * string);                 (* of the Pod's security context *)
  InitContainers : list Container
}.

Record PodTemplateSpec := {
  Pod_Labels : smap; Pod_Annotations : smap; Pod_Spec : PodSpec
}.

#[export] Instance VolumeSource_eq_dec : EqDecision VolumeSource.
Proof. solve_decision. Defined.
#[export] Instance Volume_eq_dec : EqDecision Volume.
Proof. solve_decision. Defined.
#[export] Instance ContainerPort_eq_dec : EqDecision ContainerPort.
Proof. solve_decision. Defined.
#[export] Instance EnvVar_eq_dec : EqDecision EnvVar.
Proof. solve_decision. Defined.
#[export] Instance VolumeMount_eq_dec : EqDecision VolumeMount.
Proof. solve_decision. Defined.
#[export] Instance ResourceRequirements_eq_dec : EqDecision ResourceRequirements.
Proof. solve_decision. Defined.
#[export] Instance Probe_eq_dec : EqDecision Probe.
Proof. solve_decision. Defined.
#[export] Instance SecurityContext_eq_dec : EqDecision SecurityContext.
Proof. solve_decision. Defined.
#[export] Instance Container_eq_dec : EqDecision Container.
Proof. solve_decision. Defined.
#[export] Instance NodeSelectorOperator_eq_dec : EqDecision NodeSelectorOperator.
Proof. solve_decision. Defined.
#[export] Instance NodeSelectorRequirement_eq_dec : EqDecision NodeSelectorRequirement.
Proof. solve_decision. Defined.
#[export] Instance Toleration_eq_dec : EqDecision Toleration.
Proof. solve_decision. Defined.
#[export] Instance DNSSettings_eq_dec : EqDecision DNSSettings.
Proof. solve_decision. Defined.
#[export] Instance PodSpec_eq_dec : EqDecision PodSpec.
Proof. solve_decision. Defined.
#[export] Instance PodTemplateSpec_eq_dec : EqDecision PodTemplateSpec.
Proof. solve_decision. Defined.
#[export] Instance OwnerReference_eq_dec : EqDecision OwnerReference.
Proof. solve_decision. Defined.

Definition tpl_set_labels (l : smap) (t : PodTemplateSpec) : PodTemplateSpec :=
  {| Pod_Labels := l; Pod_Annotations := Pod_Annotations t; Pod_Spec := Pod_Spec t |}.
Definition tpl_set_annotations (a : smap) (t : PodTemplateSpec) : PodTemplateSpec :=
  {| Pod_Labels := Pod_Labels t; Pod_Annotations := a; Pod_Spec := Pod_Spec t |}.
Definition tpl_set_spec (s : PodSpec) (t : PodTemplateSpec) : PodTemplateSpec :=
  {| Pod_Labels := Pod_Labels t; Pod_Annotations := Pod_Annotations t; Pod_Spec := s |}.
Definition spec_set_containers (l : list Container) (s : PodSpec) : PodSpec := {|
  HostNetwork := HostNetwork s; DNSPolicy := DNSPolicy s; Volumes := Volumes s;
  ImagePullSecrets := ImagePullSecrets s; Containers := l;
  NodeAffinity := NodeAffinity s; Tolerations := Tolerations s;
  RestartPolicy := RestartPolicy s; Hostname := Hostname s; HostAliases := HostAliases s;
  PodDNSConfig := PodDNSConfig s;
  TerminationGracePeriodSeconds := TerminationGracePeriodSeconds s; Sysctls := Sysctls s;
  InitContainers := InitContainers s |}.
Definition spec_set_volumes (l : list Volume) (s : PodSpec) : PodSpec := {|
  HostNetwork := HostNetwork s; DNSPolicy := DNSPolicy s; Volumes := l;
  ImagePullSecrets := ImagePullSecrets s; Containers := Containers s;
  NodeAffinity := NodeAffinity s; Tolerations := Tolerations s;
  RestartPolicy := RestartPolicy s; Hostname := Hostname s; HostAliases := HostAliases s;
  PodDNSConfig := PodDNSConfig s;
  TerminationGracePeriodSeconds := TerminationGracePeriodSeconds s; Sysctls := Sysctls s;
  InitContainers := InitContainers s |}.
Definition spec_set_placement (a : option NodeSelector) (t : list Toleration) (s : PodSpec) : PodSpec := {|
  HostNetwork := HostNetwork s; DNSPolicy := DNSPolicy s; Volumes := Volumes s;
  ImagePullSecrets := ImagePullSecrets s; Containers := Containers s;
  NodeAffinity := a; Tolerations := t;
  RestartPolicy := RestartPolicy s; Hostname := Hostname s; HostAliases := HostAliases s;
  PodDNSConfig := PodDNSConfig s;
  TerminationGracePeriodSeconds := TerminationGracePeriodSeconds s; Sysctls := Sysctls s;
  InitContainers := InitContainers s |}.
Definition ctr_set_resources (r : ResourceRequirements) (c : Container) : Container := {|
  Ctr_Name := Ctr_Name c; Ctr_Image := Ctr_Image c; Ctr_Command := Ctr_Command c;
  Ctr_Args := Ctr_Args c; Ctr_WorkingDir := Ctr_WorkingDir c; Ctr_Ports := Ctr_Ports c;
  Ctr_Env := Ctr_Env c; Ctr_Resources := r; Ctr_VolumeMounts := Ctr_VolumeMounts c;
  Ctr_ReadinessProbe := Ctr_ReadinessProbe c; Ctr_TTY := Ctr_TTY c;
  Ctr_Stdin := Ctr_Stdin c; Ctr_ImagePullPolicy := Ctr_ImagePullPolicy c;
  Ctr_SecurityContext := Ctr_SecurityContext c |}.

(** [ContainerStateTerminated]; times are in nanoseconds. *)
Record ContainerStateTerminated := {
  TS_ExitCode : Z;
  TS_Reason : string;
  TS_Message : string;
  TS_FinishedAt : Z;
  TS_ContainerID : string
}.

(** One container status of a Pod.  Its state is running (since when), terminated or
    waiting (the message and reason); the last terminated state is kept beside it. *)
Record ContainerStatus := {
  CS_Name : string;
  CS_ContainerID : string;
  CS_ImageID : string;
  CS_Ready : bool;
  CS_RestartCount : Z;
  CS_Running : option Z;
  CS_Terminated : option ContainerStateTerminated;
  CS_Waiting : option (string * string);
  CS_LastTerminated : option ContainerStateTerminated
}.

Record Pod := {
  pod_meta :> ObjectMeta;
  Phase : string;
  ContainerStatuses : list ContainerStatus;
  pod_Volumes : list Volume;
  pod_Containers : list Container;
  NodeName : string;
  PodIP : string;
  StartTime : option Z;
  Pod_Message : string;
  Pod_Reason : string
}.

(** ** Workloads *)

Inductive DeploymentStrategy :=
| DefaultStrategy
| Recreate
| RollingUpdate (maxSurge maxUnavailable : Z).

#[export] Instance DeploymentStrategy_eq_dec : EqDecision DeploymentStrategy.
Proof. solve_decision. Defined.

Record Deployment := {
  dep_meta :> ObjectMeta;
  Replicas : option Z;
  Strategy : DeploymentStrategy;
  Selector : smap;
  dep_Template : PodTemplateSpec;
  ObservedGeneration : Z;
  StatusReplicas : Z;
  ReadyReplicas : Z
}.

Definition dep_set_meta (m : ObjectMeta) (d : Deployment) : Deployment := {|
  dep_meta := m; Replicas := Replicas d; Strategy := Strategy d; Selector := Selector d;
  dep_Template := dep_Template d; ObservedGeneration := ObservedGeneration d;
  StatusReplicas := StatusReplicas d; ReadyReplicas := ReadyReplicas d |}.
Definition dep_set_replicas (n : Z) (d : Deployment) : Deployment := {|
  dep_meta := dep_meta d; Replicas := Some n; Strategy := Strategy d; Selector := Selector d;
  dep_Template := dep_Template d; ObservedGeneration := ObservedGeneration d;
  StatusReplicas := StatusReplicas d; ReadyReplicas := ReadyReplicas d |}.
Definition dep_set_strategy (s : DeploymentStrategy) (d : Deployment) : Deployment := {|
  dep_meta := dep_meta d; Replicas := Replicas d; Strategy := s; Selector := Selector d;
  dep_Template := dep_Template d; ObservedGeneration := ObservedGeneration d;
  StatusReplicas := StatusReplicas d; ReadyReplicas := ReadyReplicas d |}.
Definition dep_set_template (t : PodTemplateSpec) (d : Deployment) : Deployment := {|
  dep_meta := dep_meta d; Replicas := Replicas d; Strategy := Strategy d;
  Selector := Selector d; dep_Template := t; ObservedGeneration := ObservedGeneration d;
  StatusReplicas := StatusReplicas d; ReadyReplicas := ReadyReplicas d |}.

Record Job := {
  job_meta :> ObjectMeta;
  Suspend : option bool;
  BackoffLimit : option Z;
  TTLSecondsAfterFinished : option Z;
  job_Template : PodTemplateSpec;
  Conditions : list (string * string);  (* type and status *)
  Active : Z
}.

Definition job_set_meta (m : ObjectMeta) (j : Job) : Job := {|
  job_meta := m; Suspend := Suspend j; BackoffLimit := BackoffLimit j;
  TTLSecondsAfterFinished := TTLSecondsAfterFinished j; job_Template := job_Template j;
  Conditions := Conditions j; Active := Active j |}.
Definition job_set_suspend (b : bool) (j : Job) : Job := {|
  job_meta := job_meta j; Suspend := Some b; BackoffLimit := BackoffLimit j;
  TTLSecondsAfterFinished := TTLSecondsAfterFinished j; job_Template := job_Template j;
  Conditions := Conditions j; Active := Active j |}.
Definition job_set_template (t : PodTemplateSpec) (j : Job) : Job := {|
  job_meta := job_meta j; Suspend := Suspend j; BackoffLimit := BackoffLimit j;
  TTLSecondsAfterFinished := TTLSecondsAfterFinished j; job_Template := t;
  Conditions := Conditions j; Active := Active j |}.

Record ReplicaSet := { rs_meta :> ObjectMeta }.

(** ** Services, configuration and policies *)

Record ServicePort := {
  SP_Name : string; SP_Port : Z; SP_TargetPort : Z; SP_Protocol : string; SP_NodePort : Z
}.

Record ServiceSpec := {
  ServiceType : string;
  Svc_Selector : smap;
  Svc_Ports : list ServicePort;
  ClusterIP : string
}.

Record Service := { svc_meta :> ObjectMeta; Svc_Spec : ServiceSpec }.

Record Secret := { secret_meta :> ObjectMeta; Secret_Type : string; Secret_Data : smap }.
Record ConfigMap := { cm_meta :> ObjectMeta; CM_Data : smap; CM_BinaryData : smap }.

Record PVCSpec := {
  PVC_Storage : quantity;
  AccessModes : list string;
  StorageClassName : option string
}.
Record PersistentVolumeClaim := {
  pvc_meta :> ObjectMeta;
  PVC_Spec : PVCSpec;
  PVC_Capacity : option quantity       (* of its status *)
}.

(** An ingress rule: the pod selectors of its peers (none: any source) and its ports. *)
Record IngressRule := { From : list smap; Rule_Ports : list (string * Z) }.
Record NetworkPolicy := {
  np_meta :> ObjectMeta;
  PodSelector : smap;
  PolicyTypes : list string;
  Ingress : list IngressRule
}.

(** The [DockerNetwork] resource ([spec.name], [driver], [labels], [attachable]). *)
Record DockerNetwork := {
  net_meta :> ObjectMeta;
  net_name : string;
  net_driver : option string;
  net_labels : option smap;
  net_attachable : option bool
}.

(** A node: its status is the allocatable resources, the platform, the conditions
    (type and status) and the addresses (type and address). *)
Record Node := {
  node_meta :> ObjectMeta;
  Unschedulable : bool;
  Allocatable : ResourceList;
  Architecture : string;
  OperatingSystem : string;
  KubeletVersion : string;
  Node_Conditions : list (string * string);
  Addresses : list (string * string)
}.
Record KubeNamespace := { ns_meta :> ObjectMeta }.

(** What a volume driver asks for ([volumeClaim] of [volume_plugin.go]). *)
Record volumeClaim := {
  claim_StorageClassName : string;
  claim_Size : string;
  claim_AccessModes : list string;
  claim_Annotations : smap
}.

(** How looking up a plugin fails, and how calling one does: by being unavailable
    (or too late), or by refusing. *)
Inductive lookup_error := PluginNotFound | LookupFailed (e : error).
Inductive plugin_error := PluginUnavailable | PluginRefused.

(** A value a secrets plugin answers with ([ResolveResponse_Secret]). *)
Record resolved_secret := { rs_Name : string; rs_Value : string; rs_Error : string }.

(** ** Commands *)

Inductive kind :=
| KDeployment | KJob | KReplicaSet | KPod | KService | KSecret | KConfigMap | KPVC
| KNetworkPolicy | KDockerNetwork | KNode | KNamespace.

#[export] Instance kind_eq_dec : EqDecision kind.
Proof. solve_decision. Defined.

Definition obj (k : kind) : Type :=
  match k with
  | KDeployment => Deployment
  | KJob => Job
  | KReplicaSet => ReplicaSet
  | KPod => Pod
  | KService => Service
  | KSecret => Secret
  | KConfigMap => ConfigMap
  | KPVC => PersistentVolumeClaim
  | KNetworkPolicy => NetworkPolicy
  | KDockerNetwork => DockerNetwork
  | KNode => Node
  | KNamespace => KubeNamespace
  end.

Definition obj_meta {k : kind} : obj k → ObjectMeta :=
  match k with
  | KDeployment => dep_meta
  | KJob => job_meta
  | KReplicaSet => rs_meta
  | KPod => pod_meta
  | KService => svc_meta
  | KSecret => secret_meta
  | KConfigMap => cm_meta
  | KPVC => pvc_meta
  | KNetworkPolicy => np_meta
  | KDockerNetwork => net_meta
  | KNode => node_meta
  | KNamespace => ns_meta
  end.

Record DeleteOptions := {
  Precondition_UID : option string;
  Precondition_ResourceVersion : option string;
  GracePeriodSeconds : option Z;
  PropagationPolicy : option string
}.
Definition no_delete_options : DeleteOptions := {|
  Precondition_UID := None; Precondition_ResourceVersion := None;
  GracePeriodSeconds := None; PropagationPolicy := None |}.

(** The mutexes of the [Docker] struct. *)
Inductive mutex := containerNameMu | pullSecretMu | execMu.

#[export] Instance mutex_eq_dec : EqDecision mutex.
Proof. solve_decision. Defined.

Inductive cmd : Type → Type :=
| KGet (k : kind) (ns name : string) : cmd (res (obj k))
| KList (k : kind) (ns selector : string) : cmd (res (list (obj k)))
| KCreate (k : kind) (ns : string) (o : obj k) : cmd (res (obj k))
| KUpdate (k : kind) (ns : string) (o : obj k) : cmd (res (obj k))
| KDelete (k : kind) (ns name : string) (opts : DeleteOptions) : cmd (res unit)
| MuLock (m : mutex) : cmd unit
| MuUnlock (m : mutex) : cmd unit
(* the container operation locks: see Lock.v for the table behind them *)
| RegisterUser (key : string) : cmd unit
| TakeToken (key : string) : cmd (res unit)     (* select: the token, or ctx.Done *)
| ReturnToken (key : string) : cmd unit
| ReleaseUser (key : string) : cmd unit
| WaitTick : cmd (res unit)                     (* select: ctx.Done, or the ticker *)
| NowRFC3339 : cmd string                       (* time.Now, formatted *)
| Now : cmd Z                                   (* time.Now, in nanoseconds since the zero time *)
| RandomName : cmd string                       (* generatedContainerName *)
| LookupVolumePlugin (ns driver : string) : cmd (result lookup_error unit)
| PluginCreateVolume (driver commonName ns name : string) (options labels : smap) :
    cmd (result plugin_error volumeClaim)
| PluginRemoveVolume (driver commonName ns name : string) (options : smap) :
    cmd (result plugin_error unit)
| ObserveVolumePlugin (ns driver : string) (outcome : option plugin_error) : cmd unit
| LookupSecretsPlugin (ns provider : string) : cmd (result lookup_error unit)
(* the identity's common name and namespace, and the names and keys of the values *)
| PluginResolve (provider commonName ns : string) (refs : list (string * string)) :
    cmd (result error (list resolved_secret))
| ObserveSecretsPlugin (ns provider : string) (outcome : option error) : cmd unit
(* the image registry of the namespace: the digests and configuration of an image *)
| ImageInspect (name : string) : cmd (res (list string * option OCIImageConfig))
| PullImage (ref : string) (auth : option string) : cmd (res unit)
| EnsurePullCredential (previousPassword : string) : cmd (res (string * string))
| ForgetExecs (ns containerID : string) : cmd unit.  (* delete from d.execs *)

Abbreviation proc := (prog cmd).
Abbreviation hist := (history cmd).

(** [defer mu.Unlock()] after [mu.Lock()] *)
Definition with_mutex {A} (m : mutex) (body : proc A) : proc A :=
  do _ <- call (MuLock m); defer (call (MuUnlock m)) body.

(** ** Documented answers of the API server *)

(** A get answers with the object of that name in that namespace; a list with
    objects of that namespace. *)
Definition api_rely : rely (cmd := cmd) := λ _ X c,
  match c in cmd X return X → Prop with
  | KGet k ns name => λ r,
      match r with
      | Ok o => Name (obj_meta o) = name ∧ Namespace (obj_meta o) = ns
      | Err _ => True
      end
  | KList k ns _ => λ r,
      match r with
      | Ok l => ∀ o, o ∈ l → Namespace (obj_meta o) = ns
      | Err _ => True
      end
  | _ => λ _, True
  end.
