(* ===== verification/Cluster.v ===== *)
(** * Cluster: an in-memory cluster to evaluate the programs on

    A concrete environment for [Prog.run]: it keeps the objects of every kind,
    answers requests from them, ticks for ever and never cancels.  The witnesses
    of the theorems about executions run the programs on it. *)

From S2P Require Import Prelude GoStrings Errors Prog Kube.

Local Open Scope string_scope.

Record cluster := {
  db : ∀ k : kind, list (obj k);
  clock : string;
  names : list string   (* the random names to come *)
}.

Definition set_db (k : kind) (l : list (obj k)) (s : cluster) : cluster := {|
  db := λ k', match decide (k = k') with
              | left H => eq_rect k (λ k, list (obj k)) l k' H
              | right _ => db s k'
              end;
  clock := clock s; names := names s |}.

Definition is_object {k} (ns name : string) (o : obj k) : bool :=
  bool_decide (Name (obj_meta o) = name) && bool_decide (Namespace (obj_meta o) = ns).

Definition find_object {k} (ns name : string) (s : cluster) : res (obj k) :=
  match List.find (is_object ns name) (db s k) with
  | Some o => Ok o
  | None => Err (StatusError ReasonNotFound)
  end.

Definition remove_object {k} (ns name : string) (l : list (obj k)) : list (obj k) :=
  List.filter (λ o, negb (is_object ns name o)) l.

(** A selector [key=value] or [key], or none. *)
Definition selected {k} (selector : string) (o : obj k) : bool :=
  if decide (selector = "") then true
  else let '(key, value, has_value) := Cut selector "=" in
       if has_value then bool_decide (mget (Labels (obj_meta o)) key = value)
       else bool_decide (is_Some (Labels (obj_meta o) !! key)).

Definition handle (X : Type) (c : cmd X) (s : cluster) : X * cluster :=
  match c in cmd X return X * cluster with
  | KGet k ns name => (find_object ns name s, s)
  | KList k ns selector =>
      (Ok (List.filter (λ o : obj k, bool_decide (Namespace (obj_meta o) = ns) && selected selector o)
             (db s k)), s)
  | KCreate k ns o =>
      match @find_object k ns (Name (obj_meta o)) s with
      | Ok _ => (Err (StatusError ReasonAlreadyExists), s)
      | Err _ => (Ok o, set_db k (o :: db s k) s)
      end
  | KUpdate k ns o =>
      (Ok o, set_db k (o :: remove_object ns (Name (obj_meta o)) (db s k)) s)
  | KDelete k ns name _ =>
      match @find_object k ns name s with
      | Ok _ => (Ok tt, set_db k (remove_object ns name (db s k)) s)
      | Err e => (Err e, s)
      end
  | TakeToken _ => (Ok tt, s)
  | WaitTick => (Ok tt, s)
  | NowRFC3339 => (clock s, s)
  | Now => ((63839664000 * 10 ^ 9)%Z, s)   (* 2024-01-01T00:00:00Z *)
  | RandomName =>
      (hd "" (names s), {| db := db s; clock := clock s; names := tl (names s) |})
  | LookupVolumePlugin _ _ => (Err PluginNotFound, s)
  | PluginCreateVolume _ _ _ _ _ _ => (Err PluginRefused, s)
  | PluginRemoveVolume _ _ _ _ _ => (Err PluginRefused, s)
  | LookupSecretsPlugin _ provider =>
      (if decide (provider = "vault") then Ok tt else Err PluginNotFound, s)
  | PluginResolve _ _ _ refs =>
      (Ok ((λ '(name, key), {| rs_Name := name; rs_Value := key; rs_Error := "" |}) <$> refs), s)
  | ImageInspect name => (Ok ([name +:+ "@sha256:00"], None), s)
  | PullImage _ _ => (Ok tt, s)
  | EnsurePullCredential _ => (Ok ("acme", "password"), s)
  | MuLock _ | MuUnlock _ | RegisterUser _ | ReturnToken _ | ReleaseUser _ | ForgetExecs _ _
  | ObserveVolumePlugin _ _ _ | ObserveSecretsPlugin _ _ _ =>
      (tt, s)
  end.

Lemma handle_rely h X (c : cmd X) s : api_rely h X c (handle X c s).1.
Proof.
  destruct c; simpl; try done.
  - unfold find_object. destruct (List.find _ _) as [o|] eqn:E; [|done].
    apply List.find_some in E as [_ E]. unfold is_object in E.
    apply andb_true_iff in E as [?%bool_decide_eq_true ?%bool_decide_eq_true]. done.
  - intros o Ho. apply list_elem_of_In in Ho. apply List.filter_In in Ho as [_ Ho].
    by apply andb_true_iff in Ho as [?%bool_decide_eq_true _].
Qed.

Definition empty_cluster : cluster := {|
  db k := []; clock := "2024-01-01T00:00:00Z"; names := ["calm-arch-00000001"] |}.

(** Runs a program on a cluster, from the empty history. *)
Definition simulate {A} (p : proc A) (s : cluster) : A * hist * cluster := run handle p [] s.

Lemma simulate_exec {A} (p : proc A) s : exec p [] (simulate p s).1.2 (simulate p s).1.1.
Proof. apply run_exec. Qed.

Lemma simulate_answered {A} (p : proc A) s : answered api_rely [] (simulate p s).1.2.
Proof. apply run_answered. apply handle_rely. Qed.

(** ** Sample objects *)

Definition sample_meta (ns name uid : string) : ObjectMeta := {|
  Name := name; Namespace := ns; UID := uid; ResourceVersion := "7"; Generation := 3;
  Labels := {["app" := name]}; Annotations := ∅; OwnerReferences := [];
  DeletionTimestamp := None; CreationTimestamp := 5 |}.

Definition empty_spec : PodSpec := {|
  HostNetwork := false; DNSPolicy := "ClusterFirst"; Volumes := []; ImagePullSecrets := [];
  Containers := []; NodeAffinity := None; Tolerations := []; RestartPolicy := "";
  Hostname := ""; HostAliases := []; PodDNSConfig := None; TerminationGracePeriodSeconds := None;
  Sysctls := []; InitContainers := [] |}.

Definition sample_deployment (ns name uid : string) (replicas : Z) : Deployment := {|
  dep_meta := sample_meta ns name uid; Replicas := Some replicas; Strategy := Recreate;
  Selector := {["app" := name]};
  dep_Template := {| Pod_Labels := {["app" := name]}; Pod_Annotations := ∅;
                     Pod_Spec := empty_spec |};
  ObservedGeneration := 3; StatusReplicas := replicas; ReadyReplicas := replicas |}.

(** One tenant with two containers: [web] runs, [db] is stopped. *)
Definition sample_cluster : cluster :=
  set_db KDeployment [sample_deployment "acme" "web" "3f25-04e0" 1;
                      sample_deployment "acme" "db" "77aa-0001" 0] empty_cluster.
