(* ===== verification/Filters.v ===== *)
(** * Filters: [pkg/filters/filters.go] and [core/translator/prune.go]

    [Args] maps a filter key to a set of values, held as a map to booleans: a
    value decoded from JSON may be present and false.  Iteration over a Go map
    has no defined order; the functions here enumerate a map with
    [map_to_list], and the theorems about them do not mention the order.  The
    JSON codec and the regular expressions are parameters. *)

From S2P Require Import Prelude GoStrings Errors.

Local Open Scope string_scope.

Abbreviation fields_t := (gmap string (gmap string bool)).

Record Args := { fields : fields_t }.

#[export] Instance Args_eq_dec : EqDecision Args.
Proof. solve_decision. Defined.

Record KeyValuePair := { Key : string; Value : string }.

Definition Arg (key value : string) : KeyValuePair := {| Key := key; Value := value |}.

(** [args.fields[key]]: the nil map when the key is absent. *)
Definition field_values (args : Args) (key : string) : gmap string bool :=
  default ∅ (fields args !! key).

Definition Add (key value : string) (args : Args) : Args :=
  {| fields := <[key := <[value := true]> (field_values args key)]> (fields args) |}.

Definition NewArgs (initialArgs : list KeyValuePair) : Args :=
  foldl (λ args arg, Add (Key arg) (Value arg) args) {| fields := ∅ |} initialArgs.

Definition Keys (args : Args) : list string := (map_to_list (fields args)).*1.

Definition Len (args : Args) : nat := size (fields args).

Definition Get (args : Args) (key : string) : list string :=
  (map_to_list (field_values args key)).*1.

(** [Del]: [delete] on a nil map does nothing. *)
Definition Del (key value : string) (args : Args) : Args :=
  let values := delete value (field_values args key) in
  if decide (values = ∅)
  then {| fields := delete key (fields args) |}
  else {| fields := <[key := values]> (fields args) |}.

Record invalidFilter := { Filter : string; filter_Value : option (list string) }.

Definition invalidFilter_Error (e : invalidFilter) : string :=
  "invalid filter" +:+
  (if decide (Filter e = "") then ""
   else " '" +:+ Filter e +:+
        match filter_Value e with
        | Some l => "=[" +:+ Join l " " +:+ "]"
        | None => ""
        end +:+ "'").

(** Filter errors as errors of the program: they carry no translator kind. *)
Definition filter_error (e : invalidFilter) : error := errors_New (invalidFilter_Error e).

Abbreviation fres := (result invalidFilter).

Definition MatchKVList (args : Args) (key : string) (sources : gmap string string) : bool :=
  let fieldValues := field_values args key in
  if decide (size fieldValues = 0) then true
  else if decide (size sources = 0) then false
  else forallb (λ value,
         let '(testK, testV, hasValue) := Cut value "=" in
         match sources !! testK with
         | None => false
         | Some v => negb (hasValue && negb (bool_decide (testV = v)))
         end) (map_to_list fieldValues).*1.

Definition ExactMatch (args : Args) (key source : string) : bool :=
  let fieldValues := field_values args key in
  if decide (size fieldValues = 0) then true
  else default false (fieldValues !! source).

Definition UniqueExactMatch (args : Args) (key source : string) : bool :=
  let fieldValues := field_values args key in
  if decide (size fieldValues = 0) then true
  else if decide (size fieldValues ≠ 1) then false
  else default false (fieldValues !! source).

Definition FuzzyMatch (args : Args) (key source : string) : bool :=
  if ExactMatch args key source then true
  else existsb (λ prefix, HasPrefix source prefix) (map_to_list (field_values args key)).*1.

(** [regexp.MatchString]: an error (an invalid pattern) is [None]. *)
Class Regexp := { MatchString : string → string → option bool }.

Definition Match `{Regexp} (args : Args) (field source : string) : bool :=
  if ExactMatch args field source then true
  else existsb (λ name2match, match MatchString name2match source with
                              | Some b => b
                              | None => false
                              end) (map_to_list (field_values args field)).*1.

Definition GetBoolOrDefault (args : Args) (key : string) (defaultValue : bool) : fres bool :=
  match fields args !! key with
  | None => Ok defaultValue
  | Some fieldValues =>
      if decide (size fieldValues = 0)
      then Err {| Filter := key; filter_Value := None |}
      else
        let at_ v := default false (fieldValues !! v) in
        let isFalse := at_ "0" || at_ "false" in
        let isTrue := at_ "1" || at_ "true" in
        if Bool.eqb isFalse isTrue
        then Err {| Filter := key; filter_Value := Some (Get args key) |}
        else Ok isTrue
  end.

Definition Contains (args : Args) (field : string) : bool :=
  match fields args !! field with Some _ => true | None => false end.

(** [Validate] reports some key that is not accepted, if there is one. *)
Definition Validate (args : Args) (accepted : gmap string bool) : fres unit :=
  match List.find (λ name, negb (default false (accepted !! name))) (Keys args) with
  | Some name => Err {| Filter := name; filter_Value := None |}
  | None => Ok tt
  end.

Definition WalkValues {E} (args : Args) (field : string) (op : string → result E unit) :
    result E unit :=
  result_map (λ _, tt) (result_mapM op (Get args field)).

(** [Clone] copies both levels of the map; a Rocq map is already a value. *)
Definition Clone (args : Args) : Args := {| fields := (λ values, values) <$> fields args |}.

Definition deprecatedArgs (d : gmap string (list string)) : fields_t :=
  (λ v, list_to_map ((λ vv, (vv, true)) <$> v)) <$> d.

(** The JSON encodings of [map[string]map[string]bool] and [map[string][]string]. *)
Class FiltersJSON := {
  Marshal_fields : fields_t → string;
  Unmarshal_fields : string → option fields_t;
  Unmarshal_legacy : string → option (gmap string (list string))
}.

(** [encoding/json]: decoding what was encoded gives it back, and no encoding
    is the empty text. *)
Class FiltersJSONLaws `{FiltersJSON} := {
  Unmarshal_Marshal f : Unmarshal_fields (Marshal_fields f) = Some f;
  Marshal_nonempty f : Marshal_fields f ≠ ""
}.

Definition MarshalJSON `{FiltersJSON} (args : Args) : string :=
  if decide (size (fields args) = 0) then "{}" else Marshal_fields (fields args).

Definition ToJSON `{FiltersJSON} (a : Args) : string :=
  if decide (Len a = 0) then "" else MarshalJSON a.

Definition FromJSON `{FiltersJSON} (p : string) : fres Args :=
  if decide (p = "") then Ok (NewArgs [])
  else match Unmarshal_fields p with
       | Some f => Ok {| fields := f |}
       | None => match Unmarshal_legacy p with
                 | None => Err {| Filter := ""; filter_Value := None |}
                 | Some d => Ok {| fields := deprecatedArgs d |}
                 end
       end.

(** ** [core/translator/prune.go] *)

Definition matchExcludedLabels (excluded : list string) (labels : gmap string string) : bool :=
  forallb (λ entry,
    let '(key, value, hasValue) := Cut entry "=" in
    match labels !! key with
    | Some actual => negb (negb hasValue || bool_decide (actual = value))
    | None => true
    end) excluded.

(** Parsing of times: the standard library's formats, in nanoseconds. *)
Class TimeParse := {
  Parse_RFC3339Nano : string → option Z;
  ParseFloat_seconds : string → option Z;     (* int64(seconds * 1e9) *)
  ParseDuration : string → option Z
}.

(** [pruneBefore]; [now] is [time.Now()] and [None] the zero time. *)
Definition pruneBefore `{TimeParse} (now : Z) (values : list string) : res (option Z) :=
  match values with
  | [] => Ok None
  | [value] =>
      match Parse_RFC3339Nano value with
      | Some t => Ok (Some t)
      | None =>
          match ParseFloat_seconds value with
          | Some t => Ok (Some t)
          | None =>
              match ParseDuration value with
              | Some d => if (0 <=? d)%Z then Ok (Some (now - d)%Z)
                          else Err (errors_New "invalid until filter %q")
              | None => Err (errors_New "invalid until filter %q")
              end
          end
      end
  | _ => Err (errors_New "until filter requires one value")
  end.

(** ** What a filter value asks of a set of labels *)

(** The reading of one [key] or [key=value] entry. *)
Definition label_selects (labels : gmap string string) (entry : string) : Prop :=
  let '(key, value, hasValue) := Cut entry "=" in
  ∃ v, labels !! key = Some v ∧ (hasValue = true → v = value).

#[export] Instance label_selects_dec labels entry : Decision (label_selects labels entry).
Proof.
  unfold label_selects. destruct (Cut entry "=") as [[key value] has].
  destruct (labels !! key) as [v|] eqn:E; [|right; naive_solver].
  destruct (decide (has = true → v = value)); [left|right]; naive_solver.
Defined.

(** ** Lemmas *)

Lemma elem_of_map_keys {V} (m : gmap string V) k :
  k ∈ (map_to_list m).*1 ↔ is_Some (m !! k).
Proof.
  rewrite list_elem_of_fmap. split.
  - intros ([k' v] & -> & Hin). apply elem_of_map_to_list in Hin. eauto.
  - intros [v Hv]. exists (k, v). split; [done|]. by apply elem_of_map_to_list.
Qed.

Lemma elem_of_Get args key v : v ∈ Get args key ↔ is_Some (field_values args key !! v).
Proof. apply elem_of_map_keys. Qed.

Lemma elem_of_Keys args key : key ∈ Keys args ↔ is_Some (fields args !! key).
Proof. apply elem_of_map_keys. Qed.

Lemma field_values_Add key value args key' :
  field_values (Add key value args) key' =
    if decide (key = key') then <[value := true]> (field_values args key)
    else field_values args key'.
Proof.
  unfold field_values, Add. simpl. rewrite lookup_insert. by case_decide; subst.
Qed.

(** The arguments that [NewArgs], [Add] and [Del] build. *)
Inductive built : Args → Prop :=
| built_new l : built (NewArgs l)
| built_Add key value args : built args → built (Add key value args)
| built_Del key value args : built args → built (Del key value args)
| built_Clone args : built args → built (Clone args).

(** Every key of such arguments has a value, and every value is set. *)
Definition wf (args : Args) : Prop :=
  ∀ key values, fields args !! key = Some values →
    values ≠ ∅ ∧ ∀ v b, values !! v = Some b → b = true.

Lemma wf_values args key v b :
  wf args → field_values args key !! v = Some b → b = true.
Proof.
  unfold field_values. intros Hwf. destruct (fields args !! key) eqn:E; simpl.
  - intros Hv. by eapply Hwf.
  - by rewrite lookup_empty.
Qed.

Lemma wf_Add key value args : wf args → wf (Add key value args).
Proof.
  intros Hwf k values. simpl. rewrite lookup_insert. case_decide as Hk.
  - intros [= <-]. split; [apply insert_non_empty|].
    intros v b. rewrite lookup_insert. case_decide; [congruence|]. by apply wf_values.
  - apply Hwf.
Qed.

Lemma wf_NewArgs l : wf (NewArgs l).
Proof.
  unfold NewArgs. assert (wf {| fields := ∅ |}) as H0.
  { intros k v. simpl. by rewrite lookup_empty. }
  revert H0. generalize {| fields := ∅ |}.
  induction l as [|x l IH]; intros a Ha; [done|]. simpl. by apply IH, wf_Add.
Qed.

Lemma wf_Del key value args : wf args → wf (Del key value args).
Proof.
  intros Hwf k values. unfold Del. case_decide as He; simpl.
  - intros [_ H]%lookup_delete_Some. by apply Hwf in H.
  - rewrite lookup_insert. case_decide; [|apply Hwf]. intros [= <-]. split; [done|].
    intros v b [_ Hv]%lookup_delete_Some. by eapply wf_values.
Qed.

Lemma Clone_id args : Clone args = args.
Proof. destruct args as [f]. unfold Clone. simpl. f_equal. apply map_fmap_id. Qed.

Lemma built_wf args : built args → wf args.
Proof.
  induction 1; rewrite ?Clone_id; auto using wf_NewArgs, wf_Add, wf_Del.
Qed.

Lemma MatchKVList_entry labels entry :
  (let '(testK, testV, hasValue) := Cut entry "=" in
   match labels !! testK with
   | None => false
   | Some v => negb (hasValue && negb (bool_decide (testV = v)))
   end) = true ↔ label_selects labels entry.
Proof.
  unfold label_selects. destruct (Cut entry "=") as [[key value] has].
  destruct (labels !! key) as [v|]; [|naive_solver].
  destruct has; simpl; [|naive_solver].
  rewrite negb_involutive, bool_decide_eq_true. naive_solver.
Qed.

(** A label filter selects exactly the label sets in which every requested
    entry holds; with no entry it selects everything. *)
Theorem MatchKVList_spec args key sources :
  MatchKVList args key sources = true ↔
  (Get args key = [] ∨ ∀ entry, entry ∈ Get args key → label_selects sources entry).
Proof.
  unfold MatchKVList. case_decide as H0.
  { split; [intros _; left|done].
    apply map_size_empty_inv in H0. unfold Get. by rewrite H0, map_to_list_empty. }
  assert (Get args key ≠ []) as Hne.
  { unfold Get. intros Hnil%fmap_nil_inv%map_to_list_empty_iff.
    apply H0. by rewrite Hnil, map_size_empty. }
  case_decide as H1.
  - split; [done|]. intros [?|Hall]; [done|].
    apply map_size_empty_inv in H1 as ->. destruct (Get args key) as [|e l]; [done|].
    specialize (Hall e ltac:(set_solver)). unfold label_selects in Hall.
    destruct (Cut e "=") as [[k v] has]. destruct Hall as (? & Hl & _).
    by rewrite lookup_empty in Hl.
  - rewrite forallb_true. setoid_rewrite MatchKVList_entry. naive_solver.
Qed.

(** The exclusion filter [label!] is the complement of the inclusion filter,
    entry by entry: a label set passes exactly when no excluded entry selects
    it, so a set passes [label!=e] if and only if it fails [label=e]. *)
Theorem matchExcludedLabels_complement excluded labels :
  (matchExcludedLabels excluded labels = true ↔
    ∀ entry, entry ∈ excluded → ¬ label_selects labels entry) ∧
  ∀ entry, matchExcludedLabels [entry] labels =
           negb (MatchKVList (NewArgs [Arg "label" entry]) "label" labels).
Proof.
  assert (∀ l, matchExcludedLabels l labels = true ↔
            ∀ entry, entry ∈ l → ¬ label_selects labels entry) as Hspec.
  { intros l. unfold matchExcludedLabels. rewrite forallb_true.
    apply forall_proper. intros e. apply forall_proper. intros He.
    unfold label_selects. destruct (Cut e "=") as [[k v] has].
    destruct (labels !! k) as [a|]; [|naive_solver].
    rewrite negb_true_iff. destruct has; simpl; [|naive_solver].
    rewrite bool_decide_eq_false. naive_solver. }
  split; [apply Hspec|]. intros e. apply Bool.eq_iff_eq_true.
  rewrite Hspec, negb_true_iff, <- not_true_iff_false, MatchKVList_spec.
  assert (Get (NewArgs [Arg "label" e]) "label" = [e]) as ->; [|set_solver].
  unfold Get, NewArgs. simpl. rewrite field_values_Add. simpl.
  unfold field_values. simpl. rewrite lookup_empty. simpl.
  by rewrite insert_empty, map_to_list_singleton.
Qed.

(** On arguments built by the package's constructors and mutators, a boolean
    filter is read as documented: its default when absent, [true] for the values
    [1]/[true] alone, [false] for [0]/[false] alone, and an error when the
    values say both or neither; the error for an empty value set cannot occur. *)
Theorem GetBoolOrDefault_spec args key d :
  built args →
  GetBoolOrDefault args key d =
    if Contains args key then
      let t := bool_decide ("1" ∈ Get args key ∨ "true" ∈ Get args key) in
      let f := bool_decide ("0" ∈ Get args key ∨ "false" ∈ Get args key) in
      if Bool.eqb f t then Err {| Filter := key; filter_Value := Some (Get args key) |} else Ok t
    else Ok d.
Proof.
  intros Hwf%built_wf. unfold GetBoolOrDefault, Contains.
  destruct (fields args !! key) as [values|] eqn:E; [|done].
  destruct (Hwf key values E) as [Hne Hb].
  rewrite decide_False by (intros ?%map_size_empty_inv; done).
  assert (∀ v, default false (values !! v) = bool_decide (v ∈ Get args key)) as Hat.
  { intros v. apply Bool.eq_iff_eq_true. rewrite bool_decide_eq_true, elem_of_Get.
    unfold field_values. rewrite E. simpl. destruct (values !! v) as [b|] eqn:Ev; simpl.
    - rewrite (Hb v b Ev). split; eauto.
    - split; [done|intros [? ?]; done]. }
  cbv zeta. by rewrite !Hat, !bool_decide_or.
Qed.

Lemma GetBoolOrDefault_spec_witness :
  GetBoolOrDefault (NewArgs [Arg "dangling" "true"]) "dangling" false = Ok true.
Proof.
  rewrite (GetBoolOrDefault_spec _ _ _ (built_new _)). vm_compute. reflexivity.
Defined.

(** The wire format round-trips: what [ToJSON] writes, [FromJSON] reads
    back, the empty argument set (written as the empty text) included. *)
Theorem FromJSON_ToJSON `{FiltersJSONLaws} args : FromJSON (ToJSON args) = Ok args.
Proof.
  unfold ToJSON, FromJSON, MarshalJSON, Len. destruct args as [f]. simpl.
  destruct (decide (size f = 0)) as [Hsz|Hsz]; simpl.
  - apply map_size_empty_inv in Hsz. by subst.
  - rewrite decide_False by apply Marshal_nonempty. by rewrite Unmarshal_Marshal.
Qed.

(** A codec to evaluate the round trip on. *)
Definition bits_codec : FiltersJSON := {|
  Marshal_fields := to_text; Unmarshal_fields := of_text; Unmarshal_legacy _ := None |}.

Lemma bits_codec_laws : @FiltersJSONLaws bits_codec.
Proof. split; simpl; intros f; [apply of_text_to_text|apply to_text_nonempty]. Qed.

Lemma FromJSON_ToJSON_witness :
  @FiltersJSONLaws bits_codec ∧
  @FromJSON bits_codec (@ToJSON bits_codec (NewArgs [Arg "label" "a=b"])) =
    Ok (NewArgs [Arg "label" "a=b"]).
Proof.
  split; [apply bits_codec_laws|].
  exact (@FromJSON_ToJSON bits_codec bits_codec_laws (NewArgs [Arg "label" "a=b"])).
Defined.
