(* ===== verification/Identity.v ===== *)
(** * Identity: [core/identity/identity.go] and [core/identity/map.go]

    A client certificate names an organization; [Resolve] maps it to the
    namespace that every request of the client is confined to.  [sanitize] is
    the regular-expression replacement written out: every maximal run of bytes
    outside [a-z0-9-] becomes one dash (a rune above 127 is a run of such
    bytes). *)

From S2P Require Import Prelude GoStrings Errors Prog.

Local Open Scope string_scope.

Record Identity := {
  Namespace : string; Organization : string; CommonName : string; Anonymous : bool
}.

(** The fields of [x509.Certificate] that are read. *)
Record Certificate := { Subject_Organization : list string; Subject_CommonName : string }.

Definition reserved : list string :=
  ["system"; "default"; "kube-system"; "kube-public"; "kube-node-lease"].

Definition label_char (c : ascii) : bool := is_lower c || is_digit c || Ascii.eqb c "-".

Definition maxNamespaceLength : nat := 63.

(** [invalidLabelChars.ReplaceAllString(s, "-")]; [in_run] tells that the
    current run has already been replaced. *)
Fixpoint replace_invalid (in_run : bool) (s : string) : string :=
  match s with
  | EmptyString => EmptyString
  | String c s =>
      if label_char c then String c (replace_invalid false s)
      else if in_run then replace_invalid true s
      else String "-" (replace_invalid true s)
  end.

Definition sanitize `{Unicode} (org : string) : string :=
  Trim (replace_invalid false (ToLower org)) "-".

Definition Resolve `{Unicode} (cert : option Certificate) (dinkNamespaces : list string) :
    res Identity :=
  let anonymous cn :=
    {| Namespace := ""; Organization := ""; CommonName := cn; Anonymous := true |} in
  match cert with
  | None => Ok (anonymous "")
  | Some cert =>
      match Subject_Organization cert with
      | [] => Ok (anonymous (Subject_CommonName cert))
      | org :: _ =>
          if decide (org = "") then Ok (anonymous (Subject_CommonName cert))
          else
            let namespace := sanitize org in
            if decide (namespace = "") then
              Err (errors_New "certificate organization %q has no usable namespace")
            else if decide (namespace ∈ reserved) then
              Err (errors_New "certificate organization %q maps to a reserved namespace")
            else if decide (namespace ∈ dinkNamespaces) then
              Err (errors_New "certificate organization %q maps to a reserved dink namespace")
            else if decide (maxNamespaceLength < len namespace)%nat then
              Err (errors_New "derived namespace %q exceeds %d characters")
            else Ok {| Namespace := namespace; Organization := org;
                       CommonName := Subject_CommonName cert; Anonymous := false |}
      end
  end.

Definition PeerCertificate (peers : option (list Certificate)) : option Certificate :=
  match peers with
  | None => None            (* r.TLS == nil *)
  | Some certs => head certs
  end.

(** ** The middleware *)

Record MiddlewareConfig := { DefaultNamespace : string; SystemNamespace : string }.

(** The one effect of the middleware: the [NamespaceEnsurer] it is given. *)
Inductive id_cmd : Type → Type :=
| EnsureNamespace (namespace : string) : id_cmd (res unit).

(** What the middleware does with the request. *)
Inductive response :=
| ServeNext (id : Identity)         (* the handler runs with [id] in its context *)
| RespondForbidden (cause : error)
| RespondInternal (cause : error).

Definition set_namespace (ns : string) (id : Identity) : Identity :=
  {| Namespace := ns; Organization := Organization id; CommonName := CommonName id;
     Anonymous := Anonymous id |}.

Definition Middleware `{Unicode} (cfg : MiddlewareConfig) (peers : option (list Certificate)) :
    prog id_cmd response :=
  match Resolve (PeerCertificate peers) [SystemNamespace cfg; DefaultNamespace cfg] with
  | Err e => Ret (RespondForbidden (Errorf "resolving identity: %w" [e]))
  | Ok id =>
      if Anonymous id then
        let id := set_namespace (DefaultNamespace cfg) id in
        do r <- call (EnsureNamespace (Namespace id));
        match r with
        | Err e => Ret (RespondInternal (Errorf "accessing default namespace: %w" [e]))
        | Ok _ => Ret (ServeNext id)
        end
      else
        do r <- call (EnsureNamespace (Namespace id));
        match r with
        | Err e => Ret (RespondInternal (Errorf "accessing tenant namespace: %w" [e]))
        | Ok _ => Ret (ServeNext id)
        end
  end.

(** ** Docker identifiers *)

Definition DockerIDFromUID (uid : string) : string :=
  let str := remove_char "-" uid in str +:+ str.

(** [None] is a panic: the slices are taken without a check of the length. *)
Definition UIDFromDockerID (dockerID : string) : option string :=
  if Nat.odd (len dockerID) then Some ""
  else
    let half := len dockerID / 2 in
    let uidStr := slice dockerID 0 half in
    if decide (len uidStr < 20)%nat then None
    else Some (Join [slice uidStr 0 8; slice uidStr 8 12; slice uidStr 12 16;
                     slice uidStr 16 20; slice_from uidStr 20] "-").

Definition Truncate (id : string) : string :=
  let id := match Cut id ":" with (_, a, true) => a | (_, _, false) => id end in
  take_chars 12 id.

(** ** Valid namespaces *)

(** [pullauth.ValidNamespace], the expression
    [^[a-z0-9]([-a-z0-9]{0,61}[a-z0-9])?$]. *)
Definition lower_alnum (c : ascii) : bool := is_lower c || is_digit c.

Definition ValidNamespace (namespace : string) : bool :=
  match namespace with
  | EmptyString => false
  | String c rest =>
      lower_alnum c &&
      match last_char rest with
      | None => true
      | Some l => lower_alnum l && all_chars label_char rest && (len rest <=? 62)%nat
      end
  end.

(** ** Lemmas *)

Lemma replace_invalid_chars b s : all_chars label_char (replace_invalid b s) = true.
Proof.
  revert b. induction s as [|c s IH]; intros b; simpl; [done|].
  destruct (label_char c) eqn:E; simpl; [by rewrite E, IH|].
  destruct b; simpl; by rewrite IH.
Qed.

Lemma label_char_spec c : label_char c = lower_alnum c || Ascii.eqb c "-".
Proof. done. Qed.

Lemma sanitize_valid `{Unicode} org :
  sanitize org ≠ "" → (len (sanitize org) ≤ maxNamespaceLength)%nat →
  ValidNamespace (sanitize org) = true.
Proof.
  intros Hne Hlen.
  assert (all_chars label_char (sanitize org) = true) as Hall
    by apply all_chars_Trim, replace_invalid_chars.
  assert (∀ c, first_char (sanitize org) = Some c ∨ last_char (sanitize org) = Some c →
            lower_alnum c = true) as Hends.
  { intros c Hc. assert (label_char c = true) as Hl.
    { destruct Hc as [Hc|Hc]; [by eapply all_chars_first|by eapply all_chars_last]. }
    apply Trim_ends in Hc. simpl in Hc. rewrite orb_false_r in Hc.
    rewrite label_char_spec, Hc, orb_false_r in Hl. done. }
  revert Hne Hall Hends Hlen. destruct (sanitize org) as [|c rest]; [done|].
  intros _ Hall Hends Hlen. simpl.
  rewrite (Hends c) by (by left). simpl. simpl in Hall. apply andb_true_iff in Hall as [_ Hall].
  destruct (last_char rest) as [l|] eqn:El; [|done].
  rewrite (Hends l), Hall; simpl.
  - apply Nat.leb_le. unfold maxNamespaceLength in Hlen. unfold len in *. simpl in Hlen. lia.
  - right. revert El. unfold last_char. rewrite srev_cons.
    destruct (String.rev rest); [done|]. by rewrite sapp_cons.
Qed.

Lemma ValidNamespace_inv ns :
  ValidNamespace ns = true →
  ns ≠ "" ∧ all_chars label_char ns = true ∧ (len ns ≤ 63)%nat.
Proof.
  destruct ns as [|c rest]; [done|]. simpl. rewrite andb_true_iff. intros [Hc Hrest].
  split; [done|]. rewrite label_char_spec, Hc. simpl.
  destruct (last_char rest) as [l|] eqn:El.
  - rewrite !andb_true_iff in Hrest. destruct Hrest as [[_ ?] Hl%Nat.leb_le].
    split; [done|]. unfold len in *. simpl. lia.
  - destruct rest; [simpl; split; [done|unfold len; simpl; lia]|].
    apply eq_None_not_Some in El. destruct El. by apply last_char_is_Some.
Qed.

Lemma ValidNamespace_no_char ns c :
  label_char c = false → ValidNamespace ns = true → has_char c ns = false.
Proof.
  intros Hc (_ & Hall & _)%ValidNamespace_inv. by eapply all_chars_has_char.
Qed.

(** The namespaces [Resolve] can give to a tenant. *)
Definition tenant_namespace (dinkNamespaces : list string) (ns : string) : Prop :=
  ValidNamespace ns = true ∧ (ns ∉ reserved) ∧ (ns ∉ dinkNamespaces).

Lemma Resolve_ok `{Unicode} cert dinkNamespaces id :
  Resolve cert dinkNamespaces = Ok id →
  if Anonymous id then Namespace id = ""
  else tenant_namespace dinkNamespaces (Namespace id) ∧
       ∃ c l, cert = Some c ∧ Subject_Organization c = Organization id :: l ∧
              Namespace id = sanitize (Organization id).
Proof.
  unfold Resolve. destruct cert as [c|]; [|by intros [= <-]].
  destruct (Subject_Organization c) as [|org l] eqn:Eo; [by intros [= <-]|].
  case_decide; [by intros [= <-]|]. cbv zeta.
  repeat (case_decide; [done|]). intros [= <-]. simpl. split; [|eauto].
  split_and!; try done. apply sanitize_valid; [done|lia].
Qed.

(** C1: the identity middleware isolates tenants.  The wrapped handler runs only
    after its namespace was ensured, exactly once and successfully; that
    namespace is the default one for a client without an organization, and for
    every other client a valid Kubernetes namespace name, the sanitized first
    organization of its certificate, that is neither reserved nor one of the
    daemon's own two namespaces.  In every other case the request is refused
    and, when the certificate itself is refused, nothing is ensured. *)
Theorem Middleware_isolates `{Unicode} cfg peers h r :
  exec (Middleware cfg peers) [] h r →
  match r with
  | ServeNext id =>
      h = [Event _ (EnsureNamespace (Namespace id)) (Ok tt)] ∧
      (if Anonymous id then Namespace id = DefaultNamespace cfg
       else tenant_namespace [SystemNamespace cfg; DefaultNamespace cfg] (Namespace id) ∧
            ∃ c l, PeerCertificate peers = Some c ∧
                   Subject_Organization c = Organization id :: l ∧
                   Namespace id = sanitize (Organization id))
  | RespondForbidden _ => h = []
  | RespondInternal _ => ∃ ns e, h = [Event _ (EnsureNamespace ns) (Err e)]
  end.
Proof.
  unfold Middleware. destruct (Resolve _ _) as [id|e] eqn:E.
  2: { intros [-> ->]%exec_inv. done. }
  apply Resolve_ok in E. destruct (Anonymous id) eqn:Ea; cbv zeta; simpl;
    intros [[[]|e] Hx]%exec_inv; apply exec_inv in Hx as [-> ->]; simpl; rewrite ?Ea; eauto.
Qed.

(** A certificate of the organization [Acme, Inc.]. *)
Definition ascii_unicode : Unicode := {|
  unicode_ToLower s := s; unicode_ToUpper s := s; unicode_TrimSpace s := s; unicode_Fields s := [s] |}.

Definition acme : Certificate :=
  {| Subject_Organization := ["Acme, Inc."]; Subject_CommonName := "ann" |}.

Lemma Middleware_isolates_witness :
  let cfg := {| DefaultNamespace := "dink"; SystemNamespace := "dink-system" |} in
  tenant_namespace ["dink-system"; "dink"] "acme-inc".
Proof.
  intros cfg.
  pose (handle := λ X (c : id_cmd X) (s : unit),
          match c in id_cmd X return X * unit with EnsureNamespace _ => (Ok tt, s) end).
  pose proof (@Middleware_isolates ascii_unicode cfg (Some [acme]) _ _
                (run_exec handle (@Middleware ascii_unicode cfg (Some [acme])) [] tt)) as H.
  vm_compute in H. destruct H as [_ [H _]]. exact H.
Defined.

(** *** Docker identifiers *)

(** The textual form of a UUID, and its five groups of hexadecimal digits. *)
Definition uuid_groups (a b c d e : string) : Prop :=
  (len a = 8 ∧ len b = 4 ∧ len c = 4 ∧ len d = 4 ∧ len e = 12)%nat ∧
  Forall (λ g, all_chars is_hex g = true) [a; b; c; d; e].

Definition uuid_text (a b c d e : string) : string := Join [a; b; c; d; e] "-".

Lemma remove_char_app c s t : remove_char c (s +:+ t) = remove_char c s +:+ remove_char c t.
Proof.
  induction s as [|d s IH]; [done|]. rewrite sapp_cons. simpl.
  destruct (Ascii.eqb d c); by rewrite IH.
Qed.

Lemma remove_char_none c s : has_char c s = false → remove_char c s = s.
Proof.
  induction s as [|d s IH]; [done|]. simpl. rewrite orb_false_iff. intros [Hd Hs].
  rewrite Ascii.eqb_sym, Hd. by rewrite IH.
Qed.

Lemma remove_char_hex s : all_chars is_hex s = true → remove_char "-" s = s.
Proof. intros. apply remove_char_none. by eapply all_chars_has_char. Qed.

Lemma DockerIDFromUID_uuid a b c d e :
  uuid_groups a b c d e →
  DockerIDFromUID (uuid_text a b c d e) =
    (a +:+ b +:+ c +:+ d +:+ e) +:+ (a +:+ b +:+ c +:+ d +:+ e).
Proof.
  intros [_ Hhex]. unfold DockerIDFromUID, uuid_text. cbv zeta. simpl Join.
  repeat rewrite Forall_cons in Hhex. destruct Hhex as (Ha & Hb & Hc & Hd & He & _).
  assert (remove_char "-" "-" = "") as Hdash by done.
  rewrite !remove_char_app, Hdash, !sapp_nil_l.
  by rewrite (remove_char_hex a), (remove_char_hex b), (remove_char_hex c),
    (remove_char_hex d), (remove_char_hex e).
Qed.

(** Docker identifiers are faithful to Kubernetes UIDs: for a UID in the
    canonical UUID form, [DockerIDFromUID] gives 64 hexadecimal characters,
    [UIDFromDockerID] recovers the UID without panicking, and the short
    identifier is the first 12 characters of the long one. *)
Theorem UIDFromDockerID_DockerIDFromUID a b c d e :
  uuid_groups a b c d e →
  let id := DockerIDFromUID (uuid_text a b c d e) in
  UIDFromDockerID id = Some (uuid_text a b c d e) ∧
  len id = 64%nat ∧ all_chars is_hex id = true ∧
  len (Truncate id) = 12%nat ∧ HasPrefix id (Truncate id) = true.
Proof.
  intros Hg id. pose proof (DockerIDFromUID_uuid _ _ _ _ _ Hg) as Hid. fold id in Hid.
  destruct Hg as [(La & Lb & Lc & Ld & Le) Hhex].
  repeat rewrite Forall_cons in Hhex. destruct Hhex as (Ha & Hb & Hc & Hd & He & _).
  assert (len id = 64%nat) as Hlen by (rewrite Hid, !len_app, La, Lb, Lc, Ld, Le; done).
  assert (all_chars is_hex id = true) as Hall
    by (rewrite Hid, !all_chars_app, Ha, Hb, Hc, Hd, He; done).
  assert (Truncate id = take_chars 12 id) as Htr.
  { unfold Truncate. rewrite (Cut_char_none ":" id); [done|].
    by eapply all_chars_has_char. }
  split_and!; try done.
  - unfold UIDFromDockerID. rewrite Hlen. cbn [Nat.odd Nat.even negb].
    change (64 / 2)%nat with 32%nat. cbv zeta.
    assert (slice id 0 32 = a +:+ b +:+ c +:+ d +:+ e) as ->.
    { rewrite Hid. apply (slice_app "" (a +:+ b +:+ c +:+ d +:+ e)); [done|].
      rewrite !len_app, La, Lb, Lc, Ld, Le. done. }
    rewrite decide_False by (rewrite !len_app, La, Lb, Lc, Ld, Le; lia).
    unfold uuid_text, slice_from. rewrite !len_app, La, Lb, Lc, Ld, Le. cbn [Nat.add].
    rewrite (slice_app "" a (b +:+ c +:+ d +:+ e)) by (rewrite ?La; done).
    rewrite (slice_app a b (c +:+ d +:+ e)) by (rewrite ?La, ?Lb; done).
    rewrite (sapp_assoc a), (slice_app (a +:+ b) c (d +:+ e))
      by (rewrite ?len_app, ?La, ?Lb, ?Lc; done).
    rewrite (sapp_assoc (a +:+ b)), (slice_app ((a +:+ b) +:+ c) d e)
      by (rewrite ?len_app, ?La, ?Lb, ?Lc, ?Ld; done).
    rewrite (sapp_assoc ((a +:+ b) +:+ c)), <- (sapp_nil_r e), (slice_app _ e "")
      by (rewrite ?len_app, ?La, ?Lb, ?Lc, ?Ld, ?Le; done).
    by rewrite sapp_nil_r.
  - rewrite Htr, len_take_chars, Hlen. done.
  - rewrite Htr. apply HasPrefix_spec, take_chars_prefix.
Qed.

Lemma UIDFromDockerID_DockerIDFromUID_witness :
  let uid := "3f2504e0-4f89-11d3-9a0c-0305e82c3301" in
  UIDFromDockerID (DockerIDFromUID uid) = Some uid.
Proof.
  apply (UIDFromDockerID_DockerIDFromUID "3f2504e0" "4f89" "11d3" "9a0c" "0305e82c3301").
  split; [split_and!; reflexivity|repeat constructor].
Defined.
