(* ===== verification/PullStore.v ===== *)
(** * PullStore: [core/registry/pullauth/store.go] and [build.go]

    The credentials that nodes and builds present to the registry.  The key-value
    store and the JSON codec are parameters: [KVStore] has the operations, and
    [KVLaws] says that a successful operation acts on a finite map; any operation
    may fail.  The library then refines the two credential tables of [spec]. *)

From S2P Require Import Prelude GoStrings Sha256 Errors.
From S2P Require Import Identity.

Local Open Scope string_scope.

Definition nsCredential : string := "pull-credential".
Definition buildCredential : string := "build-credential".

(** One hour, in nanoseconds. *)
Definition BuildCredentialLifetime : Z := 3600 * 10 ^ 9.

Record record := { rec_Hash : string; IssuedAt : Z }.

Record buildRecord := {
  Hash : string; Namespace : string; Repositories : list string; ExpiresAt : Z
}.

#[export] Instance record_eq_dec : EqDecision record.
Proof. solve_decision. Defined.
#[export] Instance buildRecord_eq_dec : EqDecision buildRecord.
Proof. solve_decision. Defined.

(** ** Parameters *)

Inductive kv_error :=
| ErrNotFound
| Failure (e : error).

Class KVStore (S : Type) := {
  kv_Key : string → string → string;
  kv_ValidPart : string → bool;
  kv_Get : S → string → result kv_error string;
  kv_Put : S → string → string → result kv_error S;
  kv_Delete : S → string → result kv_error S;
  kv_Scan : S → string → result kv_error (list (string * string));  (* of one prefix *)
  kv_Commit : S → result kv_error unit
}.

Class KVLaws (S : Type) `{KVStore S} := {
  kv_map : S → gmap string string;
  kv_Get_spec s k :
    match kv_Get s k with
    | Ok v => kv_map s !! k = Some v
    | Err ErrNotFound => kv_map s !! k = None
    | Err (Failure _) => True
    end;
  kv_Put_spec s k v s' : kv_Put s k v = Ok s' → kv_map s' = <[k := v]> (kv_map s);
  kv_Delete_spec s k s' : kv_Delete s k = Ok s' → kv_map s' = delete k (kv_map s);
  kv_Scan_spec s ns l : kv_Scan s ns = Ok l →
    ∀ k v, (k, v) ∈ l ↔ kv_map s !! k = Some v ∧ ∃ part, k = kv_Key ns part;
  kv_Key_inj ns ns' part part' :
    ns ∈ [nsCredential; buildCredential] → ns' ∈ [nsCredential; buildCredential] →
    kv_Key ns part = kv_Key ns' part' → ns = ns' ∧ part = part'
}.

(** [encoding/json] on the two records; [None] is an error. *)
Class CredentialJSON := {
  Marshal_record : record → option string;
  Unmarshal_record : string → option record;
  Marshal_buildRecord : buildRecord → option string;
  Unmarshal_buildRecord : string → option buildRecord
}.

Class CredentialJSONLaws `{CredentialJSON} := {
  Unmarshal_Marshal_record r v : Marshal_record r = Some v → Unmarshal_record v = Some r;
  Unmarshal_Marshal_buildRecord r v :
    Marshal_buildRecord r = Some v → Unmarshal_buildRecord v = Some r
}.

(** [ociref.IsValidRepository] *)
Class Ociref := { IsValidRepository : string → bool }.

(** ** The operations *)

Section ops.
Context {S : Type} `{KVStore S} `{CredentialJSON} `{Ociref}.

Definition kv_cause (e : kv_error) : list error :=
  match e with ErrNotFound => [] | Failure e => [e] end.

(** [s.kv.Update]: the changes of [body] take effect if it returns no error
    and the transaction commits. *)
Definition Update (body : S → result kv_error S) (s : S) : result kv_error unit * S :=
  match (let? s' := body s in let? _ := kv_Commit s' in Ok s') with
  | Ok s' => (Ok tt, s')
  | Err e => (Err e, s)
  end.

Definition json_error {A} (o : option A) : result kv_error A :=
  match o with Some a => Ok a | None => Err (Failure (errors_New "json")) end.

(** [Issue]: [password] is the encoded random secret, [None] when the random
    source fails; [now] is [s.now()]. *)
Definition Issue (now : Z) (password : option string) (namespace : string) (s : S) :
    res string * S :=
  if negb (ValidNamespace namespace) then (Err (errors_New "invalid namespace %q"), s)
  else match password with
  | None => (Err (errors_New "rand"), s)
  | Some password =>
      match Marshal_record {| rec_Hash := Sum256 password; IssuedAt := now |} with
      | None => (Err (errors_New "json"), s)
      | Some value =>
          match Update (λ s, kv_Put s (kv_Key nsCredential namespace) value) s with
          | (Ok _, s) => (Ok password, s)
          | (Err e, s) => (Err (Errorf "storing pull credential: %w" (kv_cause e)), s)
          end
      end
  end.

Definition Revoke (namespace : string) (s : S) : res unit * S :=
  if negb (ValidNamespace namespace) then (Err (errors_New "invalid namespace %q"), s)
  else match Update (λ s, kv_Delete s (kv_Key nsCredential namespace)) s with
       | (Ok _, s) => (Ok tt, s)
       | (Err e, s) => (Err (Errorf "" (kv_cause e)), s)
       end.

Definition Verify (namespace password : string) (s : S) : res bool :=
  if negb (ValidNamespace namespace) then Ok false
  else match (let? value := kv_Get s (kv_Key nsCredential namespace) in
              json_error (Unmarshal_record value)) with
       | Err ErrNotFound => Ok false
       | Err (Failure e) => Err e
       | Ok stored => Ok (bool_decide (Sum256 password = rec_Hash stored))
       end.

(** The keys of the expired records of a scan. *)
Fixpoint expired_keys (now : Z) (l : list (string * string)) : result kv_error (list string) :=
  match l with
  | [] => Ok []
  | (key, value) :: l =>
      let? r := json_error (Unmarshal_buildRecord value) in
      let? keys := expired_keys now l in
      Ok (if (ExpiresAt r <=? now)%Z then key :: keys else keys)
  end.

Fixpoint delete_keys (keys : list string) (s : S) : result kv_error S :=
  match keys with
  | [] => Ok s
  | key :: keys => let? s := kv_Delete s key in delete_keys keys s
  end.

Definition issue_build_tx (now : Z) (key value : string) (s : S) : result kv_error S :=
  let? entries := kv_Scan s buildCredential in
  let? expiredKeys := expired_keys now entries in
  let? s := delete_keys expiredKeys s in
  kv_Put s key value.

(** [IssueBuild]: [username] and [password] are the two [rand.Text()], the first
    after the prefix it is given; [now] is [s.now()], which the code reads for the expiry
    and again for every record it scans: one reading stands for all of them. *)
Definition IssueBuild (now : Z) (text1 text2 namespace : string) (repositories : list string)
    (s : S) : res (string * string) * S :=
  if negb (ValidNamespace namespace) || bool_decide (repositories = [])
  then (Err (errors_New "build credential requires a namespace and repositories"), s)
  else if existsb (λ repo, negb (HasPrefix repo (namespace +:+ "/")) ||
                           negb (IsValidRepository repo)) repositories
  then (Err (errors_New "build repository %q is outside namespace %q"), s)
  else
    let username := "build_" +:+ text1 in
    let password := text2 in
    match Marshal_buildRecord
            {| Hash := Sum256 password; Namespace := namespace;
               Repositories := repositories; ExpiresAt := now + BuildCredentialLifetime |} with
    | None => (Err (errors_New "json"), s)
    | Some value =>
        match Update (issue_build_tx now (kv_Key buildCredential username) value) s with
        | (Ok _, s) => (Ok (username, password), s)
        | (Err e, s) => (Err (Errorf "storing build credential: %w" (kv_cause e)), s)
        end
    end.

Definition VerifyBuild (now : Z) (username password : string) (s : S) :
    res (string * list string) :=
  match (let? value := kv_Get s (kv_Key buildCredential username) in
         json_error (Unmarshal_buildRecord value)) with
  | Err ErrNotFound => Ok ("", [])
  | Err (Failure e) => Err e
  | Ok stored =>
      if (ExpiresAt stored <=? now)%Z || negb (bool_decide (Sum256 password = Hash stored))
      then Ok ("", [])
      else Ok (Namespace stored, Repositories stored)
  end.

Definition revoke_build_tx (namespace username : string) (s : S) : result kv_error S :=
  match kv_Get s (kv_Key buildCredential username) with
  | Err ErrNotFound => Ok s
  | Err e => Err e
  | Ok value =>
      let? stored := json_error (Unmarshal_buildRecord value) in
      if decide (Namespace stored ≠ namespace)
      then Err (Failure (errors_New "build credential belongs to another namespace"))
      else kv_Delete s (kv_Key buildCredential username)
  end.

Definition RevokeBuild (namespace username : string) (s : S) : res unit * S :=
  if negb (ValidNamespace namespace) || negb (HasPrefix username "build_") ||
     negb (kv_ValidPart username)
  then (Err (errors_New "invalid build credential identity"), s)
  else match Update (revoke_build_tx namespace username) s with
       | (Ok _, s) => (Ok tt, s)
       | (Err e, s) => (Err (Errorf "" (kv_cause e)), s)
       end.

(** ** The operations as one labelled step *)

Inductive op :=
| OpIssue (now : Z) (secret : option string) (namespace : string)
| OpRevoke (namespace : string)
| OpIssueBuild (now : Z) (text1 text2 namespace : string) (repositories : list string)
| OpRevokeBuild (namespace username : string).

Definition step (o : op) (s : S) : res unit * S :=
  match o with
  | OpIssue now secret ns => let '(r, s) := Issue now secret ns s in (result_map (λ _, tt) r, s)
  | OpRevoke ns => Revoke ns s
  | OpIssueBuild now t1 t2 ns repos =>
      let '(r, s) := IssueBuild now t1 t2 ns repos s in (result_map (λ _, tt) r, s)
  | OpRevokeBuild ns username => RevokeBuild ns username s
  end.
End ops.

(** ** The abstract specification: two tables *)

Record spec := { pulls : gmap string record; builds : gmap string buildRecord }.

Definition empty_spec : spec := {| pulls := ∅; builds := ∅ |}.

(** What a successful operation does to the tables. *)
Definition spec_step (o : op) (t : spec) : spec :=
  match o with
  | OpIssue now (Some password) ns =>
      {| pulls := <[ns := {| rec_Hash := Sum256 password; IssuedAt := now |}]> (pulls t);
         builds := builds t |}
  | OpIssue _ None _ => t
  | OpRevoke ns => {| pulls := delete ns (pulls t); builds := builds t |}
  | OpIssueBuild now text1 text2 ns repos =>
      {| pulls := pulls t;
         builds := <["build_" +:+ text1 :=
                      {| Hash := Sum256 text2; Namespace := ns; Repositories := repos;
                         ExpiresAt := now + BuildCredentialLifetime |}]>
                     (filter (λ '(_, r), now < ExpiresAt r)%Z (builds t)) |}
  | OpRevokeBuild _ username => {| pulls := pulls t; builds := delete username (builds t) |}
  end.

(** When it may succeed. *)
Definition spec_pre `{Ociref} (o : op) (t : spec) : Prop :=
  match o with
  | OpIssue _ secret ns => ValidNamespace ns = true ∧ secret ≠ None
  | OpRevoke ns => ValidNamespace ns = true
  | OpIssueBuild _ _ _ ns repos =>
      ValidNamespace ns = true ∧ repos ≠ [] ∧
      ∀ repo, repo ∈ repos →
        HasPrefix repo (ns +:+ "/") = true ∧ IsValidRepository repo = true
  | OpRevokeBuild ns username =>
      ValidNamespace ns = true ∧ HasPrefix username "build_" = true ∧
      ∀ r, builds t !! username = Some r → Namespace r = ns
  end.

(** ** Refinement *)

(** A table is stored under the keys [key k], its entries decoded by [dec]. *)
Definition table_rep {R} (dec : string → option R) (key : string → string)
    (m : gmap string string) (tbl : gmap string R) : Prop :=
  ∀ k, option_Forall2 (λ v r, dec v = Some r) (m !! key k) (tbl !! k).

Section table.
Context {R : Type} (dec : string → option R) (key : string → string).
Implicit Types m : gmap string string.

Lemma table_rep_insert m tbl k v r :
  (∀ k', key k' = key k → k' = k) → dec v = Some r →
  table_rep dec key m tbl → table_rep dec key (<[key k := v]> m) (<[k := r]> tbl).
Proof.
  intros Hinj Hv Hrep k'. destruct (decide (k' = k)) as [->|Hne].
  - rewrite !lookup_insert_eq. by constructor.
  - rewrite !lookup_insert_ne by naive_solver. apply Hrep.
Qed.

Lemma table_rep_delete m tbl k :
  (∀ k', key k' = key k → k' = k) →
  table_rep dec key m tbl → table_rep dec key (delete (key k) m) (delete k tbl).
Proof.
  intros Hinj Hrep k'. destruct (decide (k' = k)) as [->|Hne].
  - rewrite !lookup_delete_eq. constructor.
  - rewrite !lookup_delete_ne by naive_solver. apply Hrep.
Qed.

Lemma table_rep_agree m m' tbl :
  (∀ k, m' !! key k = m !! key k) → table_rep dec key m tbl → table_rep dec key m' tbl.
Proof. intros Hm Hrep k. rewrite Hm. apply Hrep. Qed.
End table.

Section refinement.
Context {S : Type} `{KVLaws S} `{CredentialJSONLaws} `{Ociref}.
Implicit Types (s : S) (t : spec).

Definition represents s t : Prop :=
  table_rep Unmarshal_record (kv_Key nsCredential) (kv_map s) (pulls t) ∧
  table_rep Unmarshal_buildRecord (kv_Key buildCredential) (kv_map s) (builds t).

Lemma key_inj_pull k k' : kv_Key nsCredential k' = kv_Key nsCredential k → k' = k.
Proof. intros Hk. by apply kv_Key_inj in Hk as [_ ?]; [|set_solver..]. Qed.
Lemma key_inj_build k k' : kv_Key buildCredential k' = kv_Key buildCredential k → k' = k.
Proof. intros Hk. by apply kv_Key_inj in Hk as [_ ?]; [|set_solver..]. Qed.
Lemma key_pull_build k k' : kv_Key nsCredential k ≠ kv_Key buildCredential k'.
Proof. intros Hk. by apply kv_Key_inj in Hk as [Hk _]; [|set_solver..]. Qed.

Lemma Update_inv body s r s' :
  Update body s = (r, s') → (∃ e, r = Err e ∧ s' = s) ∨ (r = Ok tt ∧ body s = Ok s').
Proof.
  unfold Update. destruct (body s) as [s1|e]; simpl; [|naive_solver].
  destruct (kv_Commit s1); naive_solver.
Qed.

Lemma expired_keys_elem now l keys :
  expired_keys now l = Ok keys → ∀ k,
    k ∈ keys ↔ ∃ v r, (k, v) ∈ l ∧ Unmarshal_buildRecord v = Some r ∧ (ExpiresAt r ≤ now)%Z.
Proof.
  revert keys. induction l as [|[k0 v0] l IH]; intros keys; simpl.
  { intros [= <-] k. set_solver. }
  destruct (Unmarshal_buildRecord v0) as [r|] eqn:Er; simpl; [|done].
  destruct (expired_keys now l) as [keys'|]; simpl; [|done]. specialize (IH keys' eq_refl).
  intros [= <-] k. setoid_rewrite elem_of_cons. destruct (Z.leb_spec (ExpiresAt r) now).
  - rewrite elem_of_cons, IH. split; [naive_solver|].
    intros (v & r' & [[= -> ->]|Hin] & Hv & Hr); naive_solver.
  - rewrite IH. split; [naive_solver|].
    intros (v & r' & [[= -> ->]|Hin] & Hv & Hr); [|naive_solver].
    rewrite Er in Hv. injection Hv as <-. lia.
Qed.

Lemma delete_keys_map keys s s' :
  delete_keys keys s = Ok s' →
  ∀ k, kv_map s' !! k = if decide (k ∈ keys) then None else kv_map s !! k.
Proof.
  revert s. induction keys as [|key keys IH]; intros s; simpl; [by intros [= ->]|].
  destruct (kv_Delete s key) as [s1|] eqn:Ed; simpl; [|done]. intros Hd k.
  rewrite (IH _ Hd), (kv_Delete_spec _ _ _ Ed).
  destruct (decide (k ∈ keys)) as [Hin|Hnin].
  { by rewrite decide_True by set_solver. }
  destruct (decide (k = key)) as [->|Hne].
  - by rewrite decide_True, lookup_delete_eq by set_solver.
  - by rewrite decide_False, lookup_delete_ne by set_solver.
Qed.

(** Removing the expired records leaves the filtered table. *)
Lemma expire_represents now s s1 t entries keys :
  represents s t → kv_Scan s buildCredential = Ok entries →
  expired_keys now entries = Ok keys → delete_keys keys s = Ok s1 →
  represents s1 {| pulls := pulls t;
                   builds := filter (λ '(_, r), now < ExpiresAt r)%Z (builds t) |}.
Proof.
  intros [Hp Hb] Hscan Hkeys Hdel. pose proof (expired_keys_elem _ _ _ Hkeys) as Hel.
  pose proof (kv_Scan_spec _ _ _ Hscan) as Hsc. pose proof (delete_keys_map _ _ _ Hdel) as Hm.
  split; simpl.
  - apply (table_rep_agree _ _ (kv_map s)); [|done]. intros k. rewrite Hm, decide_False; [done|].
    rewrite Hel. intros (v & r & Hin & _). apply Hsc in Hin as [_ [part Hk]].
    by apply key_pull_build in Hk.
  - intros k. pose proof (Hb k) as Hk. rewrite Hm, map_lookup_filter.
    inversion Hk as [v r Hv E1 E2|E1 E2]; clear Hk; simpl.
    + assert (kv_Key buildCredential k ∈ keys ↔ (ExpiresAt r ≤ now)%Z) as Hiff.
      { rewrite Hel. split.
        - intros (v' & r' & Hin & Hv' & Hr). apply Hsc in Hin as [Hl _]. congruence.
        - intros Hr. exists v, r. split; [|done]. apply Hsc. eauto. }
      destruct (decide (kv_Key buildCredential k ∈ keys)) as [Hin|Hnin]; simpl.
      * rewrite option_guard_False by (rewrite Hiff in Hin; lia). constructor.
      * rewrite option_guard_True by (rewrite Hiff in Hnin; lia). by constructor.
    + case_decide; constructor.
Qed.

Lemma represents_put_pull s s' t ns r v :
  represents s t → Unmarshal_record v = Some r →
  kv_Put s (kv_Key nsCredential ns) v = Ok s' →
  represents s' {| pulls := <[ns := r]> (pulls t); builds := builds t |}.
Proof.
  intros [Hp Hb] Hv Hput%kv_Put_spec. split; simpl; rewrite Hput.
  - apply table_rep_insert; [|done..]. intros k'. apply key_inj_pull.
  - apply (table_rep_agree _ _ (kv_map s)); [|done]. intros k.
    by rewrite lookup_insert_ne by apply key_pull_build.
Qed.

Lemma represents_put_build s s' t user r v :
  represents s t → Unmarshal_buildRecord v = Some r →
  kv_Put s (kv_Key buildCredential user) v = Ok s' →
  represents s' {| pulls := pulls t; builds := <[user := r]> (builds t) |}.
Proof.
  intros [Hp Hb] Hv Hput%kv_Put_spec. split; simpl; rewrite Hput.
  - apply (table_rep_agree _ _ (kv_map s)); [|done]. intros k.
    by rewrite lookup_insert_ne by (symmetry; apply key_pull_build).
  - apply table_rep_insert; [|done..]. intros k'. apply key_inj_build.
Qed.

Lemma represents_delete_pull s s' t ns :
  represents s t → kv_Delete s (kv_Key nsCredential ns) = Ok s' →
  represents s' {| pulls := delete ns (pulls t); builds := builds t |}.
Proof.
  intros [Hp Hb] Hd%kv_Delete_spec. split; simpl; rewrite Hd.
  - apply table_rep_delete; [|done]. intros k'. apply key_inj_pull.
  - apply (table_rep_agree _ _ (kv_map s)); [|done]. intros k.
    by rewrite lookup_delete_ne by apply key_pull_build.
Qed.

Lemma represents_delete_build s s' t user :
  represents s t → kv_Delete s (kv_Key buildCredential user) = Ok s' →
  represents s' {| pulls := pulls t; builds := delete user (builds t) |}.
Proof.
  intros [Hp Hb] Hd%kv_Delete_spec. split; simpl; rewrite Hd.
  - apply (table_rep_agree _ _ (kv_map s)); [|done]. intros k.
    by rewrite lookup_delete_ne by (symmetry; apply key_pull_build).
  - apply table_rep_delete; [|done]. intros k'. apply key_inj_build.
Qed.

(** A read of a table entry: the record, or not found, or a failure. *)
Lemma read_entry {R} (dec : string → option R) key tbl s k :
  table_rep dec key (kv_map s) tbl →
  match (let? value := kv_Get s (key k) in json_error (dec value)) with
  | Ok r => tbl !! k = Some r
  | Err ErrNotFound => tbl !! k = None
  | Err (Failure _) => True
  end.
Proof.
  intros Hrep. specialize (Hrep k). pose proof (kv_Get_spec s (key k)) as Hg.
  destruct (kv_Get s (key k)) as [v|[|e]]; simpl; [|by rewrite Hg in Hrep; inversion Hrep|done].
  rewrite Hg in Hrep. inversion Hrep as [? r Hv E1 E2|]. by rewrite Hv.
Qed.

(** The cases of a successful or failed step. *)
Definition refines_step (o : op) s t (r : res unit) s' : Prop :=
  (∃ e, r = Err e ∧ s' = s) ∨ (r = Ok tt ∧ spec_pre o t ∧ represents s' (spec_step o t)).

Lemma Issue_refines now secret ns s t r s' :
  represents s t → step (OpIssue now secret ns) s = (r, s') →
  refines_step (OpIssue now secret ns) s t r s'.
Proof.
  intros Hrep. unfold step, Issue. destruct (ValidNamespace ns) eqn:Hns; simpl;
    [|intros [= <- <-]; left; eauto].
  destruct secret as [pw|]; simpl; [|intros [= <- <-]; left; eauto].
  destruct (Marshal_record _) as [v|] eqn:Em; simpl; [|intros [= <- <-]; left; eauto].
  apply Unmarshal_Marshal_record in Em.
  destruct (Update _ s) as [r1 s1] eqn:Eu.
  apply Update_inv in Eu as [(e & -> & ->)|[-> Hb]]; simpl; intros [= <- <-]; [left; eauto|].
  right. split_and!; try done. by eapply represents_put_pull.
Qed.

Lemma Revoke_refines ns s t r s' :
  represents s t → step (OpRevoke ns) s = (r, s') → refines_step (OpRevoke ns) s t r s'.
Proof.
  intros Hrep. unfold step, Revoke. destruct (ValidNamespace ns) eqn:Hns; simpl;
    [|intros [= <- <-]; left; eauto].
  destruct (Update _ s) as [r1 s1] eqn:Eu.
  apply Update_inv in Eu as [(e & -> & ->)|[-> Hb]]; simpl; intros [= <- <-]; [left; eauto|].
  right. split_and!; try done. by eapply represents_delete_pull.
Qed.

Lemma IssueBuild_refines now x1 x2 ns repos s t r s' :
  represents s t → step (OpIssueBuild now x1 x2 ns repos) s = (r, s') →
  refines_step (OpIssueBuild now x1 x2 ns repos) s t r s'.
Proof.
  intros Hrep. unfold step, IssueBuild.
  destruct (ValidNamespace ns) eqn:Hns; simpl; [|intros [= <- <-]; left; eauto].
  case_bool_decide as Hnil; [intros [= <- <-]; left; eauto|].
  destruct (existsb _ repos) eqn:Hrepos; [intros [= <- <-]; left; eauto|].
  destruct (Marshal_buildRecord _) as [v|] eqn:Em; simpl; [|intros [= <- <-]; left; eauto].
  apply Unmarshal_Marshal_buildRecord in Em.
  destruct (Update _ s) as [r1 s1] eqn:Eu.
  apply Update_inv in Eu as [(e & -> & ->)|[-> Hb]]; simpl; intros [= <- <-]; [left; eauto|].
  right. unfold issue_build_tx in Hb. inv_result.
  split; [done|]. split; [split; [done|]; split; [done|]|].
  - intros repo Hin. rewrite existsb_false in Hrepos. specialize (Hrepos repo Hin).
    by apply orb_false_iff in Hrepos as [?%negb_false_iff ?%negb_false_iff].
  - simpl. eapply (represents_put_build _ _ {| pulls := _; builds := _ |});
      [by eapply expire_represents|done..].
Qed.

Lemma RevokeBuild_refines ns user s t r s' :
  represents s t → step (OpRevokeBuild ns user) s = (r, s') →
  refines_step (OpRevokeBuild ns user) s t r s'.
Proof.
  intros Hrep. unfold step, RevokeBuild.
  destruct (ValidNamespace ns) eqn:Hns; simpl; [|intros [= <- <-]; left; eauto].
  destruct (HasPrefix user "build_") eqn:Hp; simpl; [|intros [= <- <-]; left; eauto].
  destruct (kv_ValidPart user); simpl; [|intros [= <- <-]; left; eauto].
  destruct (Update _ s) as [r1 s1] eqn:Eu.
  apply Update_inv in Eu as [(e & -> & ->)|[-> Hb]]; simpl; intros [= <- <-]; [left; eauto|].
  right. split; [done|]. unfold revoke_build_tx in Hb.
  pose proof (read_entry _ _ _ s user (proj2 Hrep)) as Hread.
  destruct (kv_Get s _) as [v|[|e]]; simpl in *; [|injection Hb as <-|done].
  - destruct (Unmarshal_buildRecord v) as [r|]; simpl in *; [|done].
    case_decide as Hns'; [done|].
    split; [|by apply represents_delete_build with s].
    do 2 (split; [done|]). intros r'. rewrite Hread. by intros [= <-].
  - split; [do 2 (split; [done|]); by rewrite Hread|].
    simpl. rewrite delete_id by done. by destruct t.
Qed.

Lemma step_refines o s t r s' :
  represents s t → step o s = (r, s') → refines_step o s t r s'.
Proof.
  destruct o; [apply Issue_refines|apply Revoke_refines|apply IssueBuild_refines
    |apply RevokeBuild_refines].
Qed.

(** The answers the abstract tables give. *)
Definition spec_verify (t : spec) (ns password : string) : bool :=
  match pulls t !! ns with
  | Some r => ValidNamespace ns && bool_decide (Sum256 password = rec_Hash r)
  | None => false
  end.

Definition spec_verify_build (t : spec) (now : Z) (user password : string) :
    string * list string :=
  match builds t !! user with
  | Some r =>
      if (now <? ExpiresAt r)%Z && bool_decide (Sum256 password = Hash r)
      then (Namespace r, Repositories r) else ("", [])
  | None => ("", [])
  end.

Lemma Verify_refines s t ns password b :
  represents s t → Verify ns password s = Ok b → b = spec_verify t ns password.
Proof.
  intros [Hp _]. unfold Verify, spec_verify. pose proof (read_entry _ _ _ s ns Hp) as Hread.
  destruct (ValidNamespace ns); simpl; [|by destruct (pulls t !! ns); intros [= <-]].
  destruct (kv_Get s _) as [v|[|e]]; simpl in *.
  - destruct (Unmarshal_record v); simpl in *; [|done]. rewrite Hread. by intros [= <-].
  - rewrite Hread. by intros [= <-].
  - done.
Qed.

Lemma VerifyBuild_refines s t now user password answer :
  represents s t → VerifyBuild now user password s = Ok answer →
  answer = spec_verify_build t now user password.
Proof.
  intros [_ Hb]. unfold VerifyBuild, spec_verify_build.
  pose proof (read_entry _ _ _ s user Hb) as Hread.
  destruct (kv_Get s _) as [v|[|e]]; simpl in *.
  - destruct (Unmarshal_buildRecord v) as [r|]; simpl in *; [|done]. rewrite Hread.
    rewrite Z.leb_antisym. destruct (now <? ExpiresAt r)%Z; simpl; [|by intros [= <-]].
    case_bool_decide; by intros [= <-].
  - rewrite Hread. by intros [= <-].
  - done.
Qed.

(** C4: the credential store implements two tables.  Started on a store that
    represents them, every operation either fails and changes nothing, or was
    allowed by its precondition and leaves a store that represents the updated
    tables: a pull credential is replaced or removed for its namespace alone, a
    build credential is added while expired ones are dropped, and is removed
    only by its own namespace.  Both verifications answer from the tables. *)
Theorem store_refines_tables s t :
  represents s t →
  (∀ o r s', step o s = (r, s') →
     (∃ e, r = Err e ∧ s' = s) ∨
     (r = Ok tt ∧ spec_pre o t ∧ represents s' (spec_step o t))) ∧
  (∀ ns password b, Verify ns password s = Ok b → b = spec_verify t ns password) ∧
  (∀ now user password answer, VerifyBuild now user password s = Ok answer →
     answer = spec_verify_build t now user password).
Proof.
  intros Hrep. split_and!; intros.
  - by apply step_refines.
  - by apply Verify_refines with s.
  - by apply VerifyBuild_refines with s.
Qed.

(** ** Reachable stores *)

Local Open Scope list_scope.

(** [reachable h s]: the store [s] results from an empty one by operations, of
    which [h] lists the successful ones, the latest first. *)
Inductive reachable : list op → S → Prop :=
| reach_init s : kv_map s = ∅ → reachable [] s
| reach_ok h s o s' : reachable h s → step o s = (Ok tt, s') → reachable (o :: h) s'
| reach_err h s o e s' : reachable h s → step o s = (Err e, s') → reachable h s'.

Definition spec_of (h : list op) : spec := foldr spec_step empty_spec h.

Lemma reachable_represents h s :
  reachable h s →
  represents s (spec_of h) ∧
  ∀ o h1 h2, h = h2 ++ o :: h1 → spec_pre o (spec_of h1).
Proof.
  induction 1 as [s Hs|h s o s' Hr [Hrep Hpre] Hstep|h s o e s' Hr [Hrep Hpre] Hstep].
  - split; [|by intros ? ? []]. split; intros k; rewrite Hs, !lookup_empty; constructor.
  - destruct (step_refines _ _ _ _ _ Hrep Hstep) as [(? & [=] & _)|(_ & Ho & Hrep')].
    split; [done|]. intros o' h1 [|o2 h2] [= -> ->]; [done|]. by eapply Hpre.
  - destruct (step_refines _ _ _ _ _ Hrep Hstep) as [(? & _ & ->)|([=] & _)]. done.
Qed.

(** Operations that touch the pull credential of [ns], or the build credential
    of [user]. *)
Definition touches_pull (ns : string) (o : op) : Prop :=
  match o with OpIssue _ _ ns' | OpRevoke ns' => ns' = ns | _ => False end.
Definition touches_build (user : string) (o : op) : Prop :=
  match o with
  | OpIssueBuild _ text1 _ _ _ => "build_" +:+ text1 = user
  | OpRevokeBuild _ user' => user' = user
  | _ => False
  end.

(** What an issue drops: build credentials that have expired by its clock. *)
Definition purges (expiry : Z) (o : op) : Prop :=
  match o with OpIssueBuild now _ _ _ _ => (expiry ≤ now)%Z | _ => False end.

Lemma spec_of_pull h ns r :
  (∀ o h1 h2, h = h2 ++ o :: h1 → spec_pre o (spec_of h1)) →
  pulls (spec_of h) !! ns = Some r →
  ∃ h1 h2 now password, h = h2 ++ OpIssue now (Some password) ns :: h1 ∧
    rec_Hash r = Sum256 password ∧ ∀ o, o ∈ h2 → ¬ touches_pull ns o.
Proof.
  induction h as [|o h IH]; intros Hpre; simpl; [by rewrite lookup_empty|].
  pose proof (Hpre o h [] eq_refl) as Ho.
  assert (pulls (spec_of h) !! ns = Some r → ¬ touches_pull ns o →
          ∃ h1 h2 now password, o :: h = h2 ++ OpIssue now (Some password) ns :: h1 ∧
            rec_Hash r = Sum256 password ∧ ∀ o, o ∈ h2 → ¬ touches_pull ns o) as Hold.
  { intros Hl Ht. destruct IH as (h1 & h2 & now & pw & -> & Hr & Hno); [|done|].
    - intros o' h1 h2 ->. by apply (Hpre o' h1 (o :: h2)).
    - exists h1, (o :: h2), now, pw. split_and!; [done..|]. set_solver. }
  destruct o as [now [pw|] ns'|ns'|now x1 x2 ns' repos|ns' user]; simpl in *;
    try (intros Hl; apply Hold; [done|naive_solver]).
  - destruct (decide (ns' = ns)) as [->|Hne].
    + rewrite lookup_insert_eq. intros [= <-]. exists h, [], now, pw. set_solver.
    + rewrite lookup_insert_ne by done. auto.
  - intros [Hne Hl]%lookup_delete_Some. auto.
Qed.

Lemma spec_of_build h user r :
  (∀ o h1 h2, h = h2 ++ o :: h1 → spec_pre o (spec_of h1)) →
  builds (spec_of h) !! user = Some r →
  ∃ h1 h2 now x1 x2, h = h2 ++ OpIssueBuild now x1 x2 (Namespace r) (Repositories r) :: h1 ∧
    user = "build_" +:+ x1 ∧ Hash r = Sum256 x2 ∧
    ExpiresAt r = (now + BuildCredentialLifetime)%Z ∧
    ∀ o, o ∈ h2 → ¬ touches_build user o ∧ ¬ purges (ExpiresAt r) o.
Proof.
  induction h as [|o h IH]; intros Hpre; simpl; [by rewrite lookup_empty|].
  assert (builds (spec_of h) !! user = Some r → ¬ touches_build user o → ¬ purges (ExpiresAt r) o →
          ∃ h1 h2 now x1 x2,
            o :: h = h2 ++ OpIssueBuild now x1 x2 (Namespace r) (Repositories r) :: h1 ∧
            user = "build_" +:+ x1 ∧ Hash r = Sum256 x2 ∧
            ExpiresAt r = (now + BuildCredentialLifetime)%Z ∧
            ∀ o, o ∈ h2 → ¬ touches_build user o ∧ ¬ purges (ExpiresAt r) o) as Hold.
  { intros Hl Ht Hp. destruct IH as (h1 & h2 & now & x1 & x2 & -> & Hrest & Hno); [|done|].
    - intros o' h1 h2 ->. by apply (Hpre o' h1 (o :: h2)).
    - exists h1, (o :: h2), now, x1, x2. split_and!; try done; [naive_solver..|].
      intros o' [->|Ho']%elem_of_cons; [done|]. naive_solver. }
  destruct o as [now [pw|] ns'|ns'|now x1 x2 ns' repos|ns' user']; simpl in *;
    try (intros Hl; apply Hold; [done|naive_solver|naive_solver]).
  - destruct (decide ("build_" +:+ x1 = user)) as [Heq|Hne].
    + rewrite Heq, lookup_insert_eq. intros [= <-]. exists h, [], now, x1, x2. set_solver.
    + rewrite lookup_insert_ne by done. intros [Hl Hlt]%map_lookup_filter_Some.
      apply Hold; [done|done|]. simpl. lia.
  - intros [Hne Hl]%lookup_delete_Some. apply Hold; [done|done|naive_solver].
Qed.

(** Conversely, what was issued stays until it is touched. *)
Lemma pull_of_spec h1 h2 now password ns :
  (∀ o, o ∈ h2 → ¬ touches_pull ns o) →
  pulls (spec_of (h2 ++ OpIssue now (Some password) ns :: h1)) !! ns =
    Some {| rec_Hash := Sum256 password; IssuedAt := now |}.
Proof.
  induction h2 as [|o h2 IH]; intros Hno; simpl; [by rewrite lookup_insert_eq|].
  specialize (IH ltac:(set_solver)). pose proof (Hno o ltac:(set_solver)) as Ho.
  destruct o as [now' [pw|] ns'|ns'|now' x1 x2 ns' repos|ns' user']; simpl in *; try done.
  - by rewrite lookup_insert_ne.
  - by rewrite lookup_delete_ne.
Qed.

Lemma build_of_spec h1 h2 now x1 x2 ns repos :
  (∀ o, o ∈ h2 → ¬ touches_build ("build_" +:+ x1) o ∧ ¬ purges (now + BuildCredentialLifetime) o) →
  builds (spec_of (h2 ++ OpIssueBuild now x1 x2 ns repos :: h1)) !! ("build_" +:+ x1) =
    Some {| Hash := Sum256 x2; Namespace := ns; Repositories := repos;
            ExpiresAt := now + BuildCredentialLifetime |}.
Proof.
  induction h2 as [|o h2 IH]; intros Hno; cbn [spec_of foldr app spec_step builds];
    [by rewrite lookup_insert_eq|].
  specialize (IH ltac:(set_solver)). destruct (Hno o ltac:(set_solver)) as [Ht Hp].
  destruct o as [now' [pw|] ns'|ns'|now' y1 y2 ns' repos'|ns' user']; cbn [spec_step builds]; try exact IH.
  - rewrite lookup_insert_ne by done. apply map_lookup_filter_Some. split; [exact IH|]. simpl in *. lia.
  - rewrite lookup_delete_ne by (by intros ->). exact IH.
Qed.

Lemma Verify_was_issued h s ns password :
  reachable h s → Verify ns password s = Ok true →
  ValidNamespace ns = true ∧
  ∃ h1 h2 now password0, h = h2 ++ OpIssue now (Some password0) ns :: h1 ∧
    Sum256 password = Sum256 password0 ∧ ∀ o, o ∈ h2 → ¬ touches_pull ns o.
Proof.
  intros [Hrep Hpre]%reachable_represents Hv%(Verify_refines _ _ _ _ _ Hrep).
  unfold spec_verify in Hv.
  destruct (pulls (spec_of h) !! ns) as [r|] eqn:El; [|done].
  symmetry in Hv. apply andb_true_iff in Hv as [Hns Hpw%bool_decide_eq_true].
  split; [done|]. destruct (spec_of_pull h ns r Hpre El) as (h1 & h2 & now & pw0 & ? & Hr & ?).
  exists h1, h2, now, pw0. split_and!; [done|congruence|done].
Qed.

Lemma VerifyBuild_was_issued h s now user password ns repos :
  reachable h s → VerifyBuild now user password s = Ok (ns, repos) → ns ≠ "" →
  ∃ h1 h2 now0 x1 x2, h = h2 ++ OpIssueBuild now0 x1 x2 ns repos :: h1 ∧
    user = "build_" +:+ x1 ∧ Sum256 password = Sum256 x2 ∧
    (now < now0 + BuildCredentialLifetime)%Z ∧
    (∀ o, o ∈ h2 → ¬ touches_build user o ∧ ¬ purges (now0 + BuildCredentialLifetime) o) ∧
    ValidNamespace ns = true ∧
    ∀ repo, repo ∈ repos → HasPrefix repo (ns +:+ "/") = true.
Proof.
  intros [Hrep Hpre]%reachable_represents Hv%(VerifyBuild_refines _ _ _ _ _ _ Hrep) Hne.
  unfold spec_verify_build in Hv.
  destruct (builds (spec_of h) !! user) as [r|] eqn:El; [|by simplify_eq].
  destruct (_ && _) eqn:Ec; [|by simplify_eq].
  apply andb_true_iff in Ec as [Hnow%Z.ltb_lt Hpw%bool_decide_eq_true].
  injection Hv as -> ->.
  destruct (spec_of_build h user r Hpre El) as (h1 & h2 & now0 & x1 & x2 & Hh & ? & Hr & He & ?).
  destruct (Hpre _ _ _ Hh) as (? & ? & Hrepos).
  exists h1, h2, now0, x1, x2. rewrite He in *. split_and!; try done; [congruence|].
  intros repo Hin. by apply Hrepos.
Qed.

(** A verification fails only with the store. *)
Lemma entry_decodes {R} (dec : string → option R) key tbl s k v :
  table_rep dec key (kv_map s) tbl → kv_Get s (key k) = Ok v → ∃ r, dec v = Some r.
Proof.
  intros Hrep Hv. specialize (Hrep k). pose proof (kv_Get_spec s (key k)) as Hg. rewrite Hv in Hg.
  rewrite Hg in Hrep. inversion Hrep as [? r Hr|]. by exists r.
Qed.

Lemma Verify_errors h s ns password e :
  reachable h s → Verify ns password s = Err e → kv_Get s (kv_Key nsCredential ns) = Err (Failure e).
Proof.
  intros [[Hp _] _]%reachable_represents. unfold Verify. destruct (ValidNamespace ns); [|done]. simpl.
  destruct (kv_Get s _) as [v|[|e']] eqn:Ev; simpl; [|done|by intros [= <-]].
  destruct (entry_decodes _ _ _ _ _ _ Hp Ev) as [r ->]. done.
Qed.

Lemma VerifyBuild_errors h s now user password e :
  reachable h s → VerifyBuild now user password s = Err e → kv_Get s (kv_Key buildCredential user) = Err (Failure e).
Proof.
  intros [[_ Hb] _]%reachable_represents. unfold VerifyBuild.
  destruct (kv_Get s _) as [v|[|e']] eqn:Ev; simpl; [|done|by intros [= <-]].
  destruct (entry_decodes _ _ _ _ _ _ Hb Ev) as [r ->]. simpl. by destruct (_ || _).
Qed.

(** A pull credential that is in force: the latest issue, without a later revocation. *)
Definition pull_in_force (h : list op) (ns password : string) : Prop :=
  ValidNamespace ns = true ∧
  ∃ h1 h2 now password0, h = h2 ++ OpIssue now (Some password0) ns :: h1 ∧
    Sum256 password = Sum256 password0 ∧ ∀ o, o ∈ h2 → ¬ touches_pull ns o.

(** A build credential that is in force: an issue less than an hour ago, without a later
    revocation or reissue, and not dropped as expired by a later issue. *)
Definition build_in_force (h : list op) (now : Z) (user password ns : string) (repos : list string) : Prop :=
  ∃ h1 h2 now0 x1 x2, h = h2 ++ OpIssueBuild now0 x1 x2 ns repos :: h1 ∧
    user = "build_" +:+ x1 ∧ Sum256 password = Sum256 x2 ∧
    (now < now0 + 3600 * 10 ^ 9)%Z ∧
    (∀ o, o ∈ h2 → ¬ touches_build user o ∧ ¬ purges (now0 + 3600 * 10 ^ 9) o).

Lemma Verify_in_force h s ns password b :
  reachable h s → Verify ns password s = Ok b → b = true ↔ pull_in_force h ns password.
Proof.
  intros Hr Hv. split.
  - intros ->. by apply Verify_was_issued with s.
  - intros (Hns & h1 & h2 & now & pw & -> & Hpw & Hno). apply reachable_represents in Hr as [Hrep _].
    rewrite (Verify_refines _ _ _ _ _ Hrep Hv). unfold spec_verify. rewrite (pull_of_spec _ _ _ _ _ Hno).
    simpl. by rewrite Hns, bool_decide_true.
Qed.

Lemma VerifyBuild_in_force h s now user password answer :
  reachable h s → VerifyBuild now user password s = Ok answer →
  (∀ ns repos, ns ≠ "" → answer = (ns, repos) ↔ build_in_force h now user password ns repos) ∧
  (answer.1 = "" → answer.2 = []).
Proof.
  intros Hr Hv. split.
  - intros ns repos Hne. split.
    + intros ->. destruct (VerifyBuild_was_issued _ _ _ _ _ _ _ Hr Hv Hne)
        as (h1 & h2 & now0 & x1 & x2 & ? & ? & ? & ? & ? & _). by exists h1, h2, now0, x1, x2.
    + intros (h1 & h2 & now0 & x1 & x2 & -> & -> & Hpw & Hlt & Hno). apply reachable_represents in Hr as [Hrep _].
      rewrite (VerifyBuild_refines _ _ _ _ _ _ Hrep Hv). unfold spec_verify_build.
      rewrite (build_of_spec _ _ _ _ _ _ _ Hno). simpl. by rewrite bool_decide_true, (proj2 (Z.ltb_lt _ _)).
  - pose proof (reachable_represents _ _ Hr) as [Hrep Hpre].
    rewrite (VerifyBuild_refines _ _ _ _ _ _ Hrep Hv). unfold spec_verify_build.
    destruct (builds (spec_of h) !! user) as [r|] eqn:El; [|done]. destruct (_ && _); [|done]. simpl.
    destruct (spec_of_build h user r Hpre El) as (h1 & h2 & now0 & x1 & x2 & Hh & _).
    destruct (Hpre _ _ _ Hh) as (Hns & _). intros Hempty. by rewrite Hempty in Hns.
Qed.

(** C3: a credential verifies exactly if it was issued and is still in force.  In every
    store reachable by the operations, a verification that the store answers accepts a pull
    password exactly if the namespace is valid and the password hashes like the one of the
    latest issue, with no later revocation; and a build credential exactly if it was issued
    less than an hour before, with no later revocation or reissue, nor an issue that dropped
    it as expired: it then gives the namespace and repositories it was issued for, all of
    them under that namespace, and otherwise nothing.  A verification fails only with the
    store's own error. *)
Theorem verified_credential_was_issued h s :
  reachable h s →
  (∀ ns password,
     match Verify ns password s with
     | Ok b => b = true ↔ pull_in_force h ns password
     | Err e => kv_Get s (kv_Key nsCredential ns) = Err (Failure e)
     end) ∧
  (∀ now user password,
     match VerifyBuild now user password s with
     | Ok answer =>
         (∀ ns repos, ns ≠ "" → answer = (ns, repos) ↔ build_in_force h now user password ns repos) ∧
         (answer.1 = "" → answer.2 = []) ∧
         (answer.1 ≠ "" → ValidNamespace answer.1 = true ∧
            ∀ repo, repo ∈ answer.2 → HasPrefix repo (answer.1 +:+ "/") = true)
     | Err e => kv_Get s (kv_Key buildCredential user) = Err (Failure e)
     end).
Proof.
  intros Hr. split.
  - intros ns password. destruct (Verify ns password s) as [b|e] eqn:E.
    + by apply Verify_in_force with s.
    + by eapply Verify_errors.
  - intros now user password. destruct (VerifyBuild now user password s) as [[ns repos]|e] eqn:E.
    + destruct (VerifyBuild_in_force _ _ _ _ _ _ Hr E) as [Hiff Hempty]. split_and!; [done..|].
      intros Hne. by destruct (VerifyBuild_was_issued _ _ _ _ _ _ _ Hr E Hne) as (? & ? & ? & ? & ? & ? & ? & ? & ? & ? & ? & ?).
    + by eapply VerifyBuild_errors.
Qed.
End refinement.

(** ** A store to evaluate the theorems on

    The keys of a finite map, with the namespace and the part separated by a
    slash; no operation fails. *)

Definition demo_store : KVStore (gmap string string) := {|
  kv_Key ns part := ns +:+ "/" +:+ part;
  kv_ValidPart part := negb (bool_decide (part = ""));
  kv_Get s k := match s !! k with Some v => Ok v | None => Err ErrNotFound end;
  kv_Put s k v := Ok (<[k := v]> s);
  kv_Delete s k := Ok (delete k s);
  kv_Scan s ns := Ok (map_to_list (filter (λ '(k, _), HasPrefix k (ns +:+ "/") = true) s));
  kv_Commit _ := Ok tt
|}.

Definition demo_store_laws : @KVLaws (gmap string string) demo_store.
Proof.
  unshelve econstructor; [exact (λ s, s)|..]; simpl.
  - intros s k. by destruct (s !! k).
  - by intros s k v s' [= <-].
  - by intros s k s' [= <-].
  - intros s ns l [= <-] k v. rewrite elem_of_map_to_list, map_lookup_filter_Some, HasPrefix_spec.
    setoid_rewrite <- sapp_assoc. done.
  - intros ns ns' p p' Hns Hns' Heq. rewrite !elem_of_cons, elem_of_nil in *.
    destruct Hns as [->|[->|[]]], Hns' as [->|[->|[]]]; try done;
      (apply sapp_inv_length in Heq as [_ Heq]; [|done]; split; [done|]; simplify_eq; done).
Defined.

Definition demo_json : CredentialJSON := {|
  Marshal_record r := Some (to_text (rec_Hash r, IssuedAt r));
  Unmarshal_record v := (λ '(h, t), {| rec_Hash := h; IssuedAt := t |}) <$> of_text v;
  Marshal_buildRecord r := Some (to_text (Hash r, Namespace r, Repositories r, ExpiresAt r));
  Unmarshal_buildRecord v :=
    (λ '(h, n, l, t), {| Hash := h; Namespace := n; Repositories := l; ExpiresAt := t |})
      <$> of_text v
|}.

Lemma demo_json_laws : @CredentialJSONLaws demo_json.
Proof. split; simpl; intros [] v [= <-]; by rewrite of_text_to_text. Qed.

Definition demo_ociref : Ociref := {| IsValidRepository r := negb (bool_decide (r = "")) |}.

Lemma store_refines_tables_witness :
  let o := OpRevoke "acme" in
  @represents _ _ demo_store_laws demo_json (@step _ demo_store demo_json demo_ociref o ∅).2
    (spec_step o empty_spec).
Proof.
  intros o.
  assert (@represents _ _ demo_store_laws demo_json ∅ empty_spec) as Hrep.
  { split; intros k; cbn; rewrite !lookup_empty; constructor. }
  destruct (proj1 (@store_refines_tables _ _ demo_store_laws _ demo_json_laws demo_ociref
                     ∅ empty_spec Hrep) o (Ok tt) ∅) as [(e & He & _)|(_ & _ & H)];
    [reflexivity|discriminate He|exact H].
Defined.

(** A pull credential and a build credential are issued, and both verify. *)
Lemma verified_credential_was_issued_witness :
  let ops := [OpIssueBuild 5 "XY" "pw2" "acme" ["acme/app"]; OpIssue 3 (Some "pw1") "acme"] in
  let s := foldr (λ o s, (@step _ demo_store demo_json demo_ociref o s).2) ∅ ops in
  @Verify _ demo_store demo_json "acme" "pw1" s = Ok true ∧ pull_in_force ops "acme" "pw1" ∧
  @VerifyBuild _ demo_store demo_json 7 "build_XY" "pw2" s = Ok ("acme", ["acme/app"]) ∧
  build_in_force ops 7 "build_XY" "pw2" "acme" ["acme/app"].
Proof.
  intros ops s.
  assert (@reachable _ _ demo_store_laws demo_json demo_ociref ops s) as Hr.
  { apply (@reach_ok _ _ demo_store_laws demo_json demo_ociref _
             (@step _ demo_store demo_json demo_ociref (OpIssue 3 (Some "pw1") "acme") ∅).2);
      [|vm_compute; reflexivity].
    apply (@reach_ok _ _ demo_store_laws demo_json demo_ociref _ ∅); [|vm_compute; reflexivity].
    by apply reach_init. }
  assert (@Verify _ demo_store demo_json "acme" "pw1" s = Ok true) as Hv
    by (vm_compute; reflexivity).
  assert (@VerifyBuild _ demo_store demo_json 7 "build_XY" "pw2" s = Ok ("acme", ["acme/app"]))
    as Hb by (vm_compute; reflexivity).
  destruct (@verified_credential_was_issued _ _ demo_store_laws _ demo_json_laws demo_ociref
              ops s Hr) as [Hpull Hbuild].
  specialize (Hpull "acme" "pw1"). rewrite Hv in Hpull.
  specialize (Hbuild 7%Z "build_XY" "pw2"). rewrite Hb in Hbuild. destruct Hbuild as [Hbuild _].
  split; [exact Hv|]. split; [by apply Hpull|]. split; [exact Hb|]. by apply Hbuild.
Defined.
