(* ===== verification/PullScope.v ===== *)
(** * PullScope: [core/registry/pullauth/scope.go] and [middleware.go]

    The registry as an authenticated request sees it.  The underlying registry is
    an [oci.Interface]: its methods are the commands of [oci_cmd], with the
    library's descriptor, reader and writer types as parameters.  [Repositories]
    is a lazy sequence in the source; it is modelled by the list it yields to a
    consumer that reads all of it. *)

From S2P Require Import Prelude GoStrings Errors Prog.
From S2P Require Import Identity PullStore.

Local Open Scope string_scope.

Inductive oci_error :=
| ErrUnsupported
| ErrNameUnknown
| OtherOCI (message : string).

Abbreviation oci_res := (result oci_error).

Class OciTypes := {
  Descriptor : Type;
  BlobReader : Type;
  BlobWriter : Type;
  Content : Type;       (* io.Reader *)
  PushManifestParameters : Type;
  TagsParameters : Type;
  ReferrersParameters : Type
}.

(** The values of the request context that this package reads. *)
Record context := {
  ctx_namespace : option string;
  ctx_buildScope : option (list string)
}.

Definition FromContext (ctx : context) : option string :=
  match ctx_namespace ctx with
  | Some ns => if decide (ns = "") then None else Some ns
  | None => None
  end.

Definition NewContext (ctx : context) (namespace : string) : context :=
  {| ctx_namespace := Some namespace; ctx_buildScope := ctx_buildScope ctx |}.

Definition withBuildScope (ctx : context) (repositories : list string) : context :=
  {| ctx_namespace := ctx_namespace ctx; ctx_buildScope := Some repositories |}.

Definition canWrite (ctx : context) (repository : string) : bool :=
  slices_Contains (default [] (ctx_buildScope ctx)) repository.

Definition allowed (ctx : context) (repo : string) : bool :=
  match ctx_buildScope ctx with
  | Some _ => canWrite ctx repo
  | None =>
      match FromContext ctx with
      | Some namespace => HasPrefix repo (namespace +:+ "/")
      | None => false
      end
  end.

Section scoped.
Context `{OciTypes}.

(** The methods of [oci.Interface] that [scoped] overrides, [Repositories]
    excepted; digests, tags and media types are strings. *)
Inductive oci_cmd : Type → Type :=
| PushBlob (repo : string) (desc : Descriptor) (r : Content) : oci_cmd (oci_res Descriptor)
| PushBlobChunked (repo : string) (size : Z) : oci_cmd (oci_res BlobWriter)
| PushBlobChunkedResume (repo id : string) (offset size : Z) : oci_cmd (oci_res BlobWriter)
| MountBlob (from to digest : string) : oci_cmd (oci_res Descriptor)
| PushManifest (repo data mediaType : string) (params : option PushManifestParameters) :
    oci_cmd (oci_res Descriptor)
| GetBlob (repo digest : string) : oci_cmd (oci_res BlobReader)
| GetBlobRange (repo digest : string) (offset0 offset1 : Z) : oci_cmd (oci_res BlobReader)
| GetManifest (repo digest : string) : oci_cmd (oci_res BlobReader)
| GetTag (repo tagName : string) : oci_cmd (oci_res BlobReader)
| ResolveBlob (repo digest : string) : oci_cmd (oci_res Descriptor)
| ResolveManifest (repo digest : string) : oci_cmd (oci_res Descriptor)
| ResolveTag (repo tagName : string) : oci_cmd (oci_res Descriptor)
| Tags (repo : string) (params : option TagsParameters) : oci_cmd (list (oci_res string))
| Referrers (repo digest : string) (params : option ReferrersParameters) :
    oci_cmd (list (oci_res Descriptor)).

(** The scoped method of the same name: the guard, then the delegation. *)
Definition scoped (ctx : context) {X} (c : oci_cmd X) : prog oci_cmd X :=
  let write {A} repo (c : oci_cmd (oci_res A)) : prog oci_cmd (oci_res A) :=
    if negb (canWrite ctx repo) then Ret (Err ErrUnsupported) else call c in
  let read {A} repo (c : oci_cmd (oci_res A)) : prog oci_cmd (oci_res A) :=
    if negb (allowed ctx repo) then Ret (Err ErrNameUnknown) else call c in
  let read_seq {A} repo (c : oci_cmd (list (oci_res A))) : prog oci_cmd (list (oci_res A)) :=
    if negb (allowed ctx repo) then Ret [Err ErrNameUnknown] else call c in
  match c in oci_cmd X return prog oci_cmd X with
  | PushBlob repo desc r => write repo (PushBlob repo desc r)
  | PushBlobChunked repo size => write repo (PushBlobChunked repo size)
  | PushBlobChunkedResume repo id offset size =>
      write repo (PushBlobChunkedResume repo id offset size)
  | MountBlob from to digest =>
      if negb (canWrite ctx from) || negb (canWrite ctx to)
      then Ret (Err ErrUnsupported) else call (MountBlob from to digest)
  | PushManifest repo data mediaType params => write repo (PushManifest repo data mediaType params)
  | GetBlob repo digest => read repo (GetBlob repo digest)
  | GetBlobRange repo digest o0 o1 => read repo (GetBlobRange repo digest o0 o1)
  | GetManifest repo digest => read repo (GetManifest repo digest)
  | GetTag repo tagName => read repo (GetTag repo tagName)
  | ResolveBlob repo digest => read repo (ResolveBlob repo digest)
  | ResolveManifest repo digest => read repo (ResolveManifest repo digest)
  | ResolveTag repo tagName => read repo (ResolveTag repo tagName)
  | Tags repo params => read_seq repo (Tags repo params)
  | Referrers repo digest params => read_seq repo (Referrers repo digest params)
  end.

(** The repositories a command names, and whether it writes. *)
Definition repositories_of {X} (c : oci_cmd X) : list string :=
  match c with
  | PushBlob repo _ _ | PushBlobChunked repo _ | PushBlobChunkedResume repo _ _ _
  | PushManifest repo _ _ _ | GetBlob repo _ | GetBlobRange repo _ _ _ | GetManifest repo _
  | GetTag repo _ | ResolveBlob repo _ | ResolveManifest repo _ | ResolveTag repo _
  | Tags repo _ | Referrers repo _ _ => [repo]
  | MountBlob from to _ => [from; to]
  end.

Definition is_write {X} (c : oci_cmd X) : bool :=
  match c with
  | PushBlob _ _ _ | PushBlobChunked _ _ | PushBlobChunkedResume _ _ _ _
  | MountBlob _ _ _ | PushManifest _ _ _ _ => true
  | _ => false
  end.
End scoped.

(** [max] on strings. *)
Definition string_max (s t : string) : string := if String.leb s t then t else s.

(** The loop over the underlying sequence. *)
Fixpoint scan_repositories (ctx : context) (prefix : string) (l : list (oci_res string)) :
    list (oci_res string) :=
  match l with
  | [] => []
  | Err e :: _ => [Err e]
  | Ok repo :: l =>
      if negb (HasPrefix repo prefix) then []
      else if negb (allowed ctx repo) then scan_repositories ctx prefix l
      else Ok repo :: scan_repositories ctx prefix l
  end.

(** [underlying startAfter] is the sequence [s.r.Repositories] gives. *)
Definition scoped_Repositories (ctx : context) (underlying : string → list (oci_res string))
    (startAfter : string) : list (oci_res string) :=
  match FromContext ctx with
  | None => []
  | Some namespace =>
      scan_repositories ctx (namespace +:+ "/")
        (underlying (string_max startAfter (namespace +:+ ".")))
  end.

(** ** The middleware *)

Record Verifier := {
  v_Verify : string → string → res bool;
  v_VerifyBuild : option (string → string → res (string * list string))
}.

Inductive response :=
| ServeNext (ctx : context)
| Unauthorized (message : string)
| InternalError (cause : error).

(** [ctx] is the context of the incoming request, [auth] its [BasicAuth]. *)
Definition Middleware (verifier : Verifier) (ctx : context) (auth : option (string * string)) :
    response :=
  match auth with
  | None => Unauthorized "authentication required"
  | Some (namespace, password) =>
      if HasPrefix namespace "build_" then
        match v_VerifyBuild verifier with
        | None => Unauthorized "build credentials are unavailable"
        | Some verifyBuild =>
            match verifyBuild namespace password with
            | Err e => InternalError e
            | Ok (tenant, repositories) =>
                if decide (tenant = "") then Unauthorized "invalid or expired build credential"
                else ServeNext (withBuildScope (NewContext ctx tenant) repositories)
            end
        end
      else
        match v_Verify verifier namespace password with
        | Err e => InternalError e
        | Ok valid =>
            if negb valid then Unauthorized "invalid credentials"
            else ServeNext (NewContext ctx namespace)
        end
  end.

(** The verifier the registry runs with: the credential store, at a time. *)
Definition store_verifier {S} `{KVStore S} `{CredentialJSON} (now : Z) (s : S) : Verifier := {|
  v_Verify ns password := Verify ns password s;
  v_VerifyBuild := Some (λ user password, VerifyBuild now user password s)
|}.

(** A request as it arrives: nothing of this package in its context. *)
Definition fresh_context : context := {| ctx_namespace := None; ctx_buildScope := None |}.

(** ** Properties *)

Lemma canWrite_spec ctx repo :
  canWrite ctx repo = true ↔ ∃ l, ctx_buildScope ctx = Some l ∧ repo ∈ l.
Proof.
  unfold canWrite, slices_Contains. rewrite bool_decide_eq_true.
  destruct (ctx_buildScope ctx); simpl; [naive_solver|set_solver].
Qed.

Lemma canWrite_allowed ctx repo : canWrite ctx repo = true → allowed ctx repo = true.
Proof.
  intros Hw. destruct (proj1 (canWrite_spec _ _) Hw) as (l & Hl & _).
  unfold allowed. by rewrite Hl.
Qed.

Section confinement.
Context `{OciTypes}.

(** Every command a scoped method issues passed the guard. *)
Lemma scoped_guarded ctx X (c : oci_cmd X) h h' x :
  exec (scoped ctx c) h h' x →
  guarded (λ _ Y (d : oci_cmd Y),
    (∀ repo, repo ∈ repositories_of d → allowed ctx repo = true) ∧
    (is_write d = true → ∀ repo, repo ∈ repositories_of d → canWrite ctx repo = true)) h h'.
Proof.
  intros Hex.
  refine (proj2 (wp_exec any_answer _ _ _ _ _ (λ _ _, True) _ Hex _)).
  2: { apply along_any; [done|]. by eapply exec_suffix. }
  destruct c; simpl;
    repeat match goal with
    | |- context [negb (canWrite ctx ?r)] =>
        let E := fresh "E" in destruct (canWrite ctx r) eqn:E
    | |- context [negb (allowed ctx ?r)] =>
        let E := fresh "E" in destruct (allowed ctx r) eqn:E
    end; simpl; try exact I;
    (split; [split; [|intros [=]]|intros; exact I]);
    intros ? Hr; repeat (apply elem_of_cons in Hr as [->|Hr]);
    try (by apply elem_of_nil in Hr); auto using canWrite_allowed.
Qed.
End confinement.

(** C2: an authenticated request is confined to what its own credential gives.  Over a
    store reached by the package's operations, a request is admitted only with credentials
    that are in force.  With a pull credential it carries the namespace that is its user
    name, every command that a method of the scoped registry issues for it names only
    repositories under that namespace, and none writes; with a build credential it carries
    the namespace that very credential was issued for, and every command, whether it reads
    or writes, names only repositories of that very credential, which are under the
    namespace. *)
Theorem authenticated_request_confined
    {S : Type} `{KVLaws S, CredentialJSONLaws, Ociref, OciTypes} (h : list op) (s : S) now auth ctx :
  reachable h s →
  Middleware (store_verifier now s) fresh_context auth = ServeNext ctx →
  ∃ user password ns, auth = Some (user, password) ∧ ValidNamespace ns = true ∧ FromContext ctx = Some ns ∧
    if HasPrefix user "build_" then
      ∃ repos, build_in_force h now user password ns repos ∧
        (∀ repo, repo ∈ repos → HasPrefix repo (ns +:+ "/") = true) ∧
        ∀ X (c : oci_cmd X) h1 h2 x, exec (scoped ctx c) h1 h2 x →
          guarded (λ _ Y (d : oci_cmd Y), ∀ repo, repo ∈ repositories_of d → repo ∈ repos) h1 h2
    else
      user = ns ∧ pull_in_force h ns password ∧
      ∀ X (c : oci_cmd X) h1 h2 x, exec (scoped ctx c) h1 h2 x →
        guarded (λ _ Y (d : oci_cmd Y), is_write d = false ∧
          ∀ repo, repo ∈ repositories_of d → HasPrefix repo (ns +:+ "/") = true) h1 h2.
Proof.
  intros Hreach.
  destruct auth as [[user pw]|]; simpl; [|done].
  destruct (HasPrefix user "build_") eqn:Hb.
  - destruct (VerifyBuild now user pw s) as [[ns repos]|e] eqn:Hv; [|done].
    case_decide as Hne; [done|]. intros [= <-].
    destruct (VerifyBuild_was_issued h s _ _ _ _ _ Hreach Hv Hne)
      as (h1' & h2' & now0 & x1 & x2 & Hh & Huser & Hpw & Hlt & Hno & Hns & Hrepos).
    exists user, pw, ns. split_and!; [done..|by unfold FromContext; simpl; rewrite decide_False|]. rewrite Hb.
    exists repos. split_and!; [by exists h1', h2', now0, x1, x2|done|].
    intros X c h1 h2 x Hex%scoped_guarded. eapply along_mono; [|exact Hex].
    intros h0 [Y d y] [Hr _] repo Hd%Hr. simpl in *. by apply canWrite_spec in Hd as (l & [= <-] & Hl).
  - destruct (Verify user pw s) as [[]|e] eqn:Hv; [|done..]. simpl. intros [= <-].
    destruct (Verify_was_issued h s _ _ Hreach Hv) as [Hns Hforce]. pose proof (ValidNamespace_inv _ Hns) as (Hne & _).
    assert (FromContext (NewContext fresh_context user) = Some user) as Hctx
      by (unfold FromContext; simpl; by rewrite decide_False).
    exists user, pw, user. split_and!; [done..|]. rewrite Hb. split_and!; [done|by split|].
    intros X c h1 h2 x Hex%scoped_guarded. eapply along_mono; [|exact Hex].
    intros h0 [Y d y] [Hr Hw]. simpl in *. split.
    + destruct (is_write d) eqn:Ewr; [|done]. specialize (Hw eq_refl).
      assert (∃ repo, repo ∈ repositories_of d) as [repo Hd] by (destruct d; eexists; left).
      by apply Hw, canWrite_spec in Hd as (l & [=] & _).
    + intros repo Hd. specialize (Hr repo Hd). unfold allowed in Hr. simpl in Hr. by rewrite Hctx in Hr.
Qed.

(** *** Listing repositories *)

#[local] Arguments Ascii.eqb : simpl never.
#[local] Arguments N_of_ascii : simpl never.

(** A repository whose first component is a label without dots and that sorts
    after [ns.] either is under [ns] or sorts after everything under [ns]. *)
Lemma after_namespace ns n rest z :
  has_char "/" ns = false → has_char "." n = false → has_char "/" n = false →
  String.ltb (ns +:+ ".") (n +:+ "/" +:+ rest) = true →
  HasPrefix (n +:+ "/" +:+ rest) (ns +:+ "/") = false →
  String.ltb (ns +:+ "/" +:+ z) (n +:+ "/" +:+ rest) = true.
Proof.
  rewrite !ltb_compare. revert n. induction ns as [|d ns IH]; intros [|c n] Hns Hn Hn' Hlt Hp.
  - by rewrite !sapp_nil_l, HasPrefix_app in Hp.
  - simpl in *. unfold Ascii.compare in *. rewrite !orb_false_iff in *.
    destruct Hn as [Hc%Ascii.eqb_neq _], Hn' as [Hc'%Ascii.eqb_neq _].
    assert (N_of_ascii c ≠ 46 ∧ N_of_ascii c ≠ 47)%N as [H46 H47].
    { split; intros Heq; apply (f_equal ascii_of_N) in Heq; rewrite ascii_N_embedding in Heq;
        by rewrite Heq in *. }
    change (N_of_ascii ".") with 46%N in *. change (N_of_ascii "/") with 47%N in *.
    destruct (N.compare_spec 46 (N_of_ascii c)); destruct (N.compare_spec 47 (N_of_ascii c));
      try done; lia.
  - simpl in *. unfold Ascii.compare in *. rewrite orb_false_iff in Hns.
    destruct Hns as [Hd%Ascii.eqb_neq _].
    destruct (N.compare_spec (N_of_ascii d) (N_of_ascii "/")) as [Heq|Hl|Hl]; [|done|done].
    destruct Hd. apply (f_equal ascii_of_N) in Heq. by rewrite !ascii_N_embedding in Heq.
  - simpl in *. rewrite !orb_false_iff in *. destruct Hns, Hn, Hn'.
    unfold Ascii.compare in *.
    destruct (N.compare_spec (N_of_ascii d) (N_of_ascii c)) as [Heq|Hl|Hl]; [|done|done].
    apply IH; try done. apply (f_equal ascii_of_N) in Heq. rewrite !ascii_N_embedding in Heq.
    subst. revert Hp. unfold HasPrefix. simpl. by rewrite Ascii.eqb_refl.
Qed.

(** A repository under some valid namespace, as every repository of the registry is. *)
Definition tenant_repository (r : string) : Prop :=
  ∃ n rest, ValidNamespace n = true ∧ r = n +:+ "/" +:+ rest.

Definition sorted_names : list string → Prop := StronglySorted (λ a b, String.ltb a b = true).

Lemma scan_repositories_sorted ctx ns l :
  ValidNamespace ns = true → sorted_names l →
  (∀ r, r ∈ l → tenant_repository r ∧ String.ltb (ns +:+ ".") r = true) →
  scan_repositories ctx (ns +:+ "/") (Ok <$> l) =
    Ok <$> filter (λ r, HasPrefix r (ns +:+ "/") = true ∧ allowed ctx r = true) l.
Proof.
  intros Hns. induction 1 as [|r l Hl IH Hr]; intros Hall; [done|].
  rewrite fmap_cons. cbn [scan_repositories]. rewrite Forall_forall in Hr.
  destruct (HasPrefix r (ns +:+ "/")) eqn:Hp; cbn [negb].
  - rewrite IH by set_solver. rewrite filter_cons.
    destruct (allowed ctx r) eqn:Ha; simpl.
    + by rewrite decide_True.
    + rewrite decide_False; [done|]. intros [_ ?]. congruence.
  - rewrite filter_cons, decide_False by (intros [? _]; congruence).
    rewrite filter_none; [done|]. intros y Hy [[z ->]%HasPrefix_spec _].
    destruct (Hall r ltac:(set_solver)) as [(n & rest & Hn & ->) Hlt].
    specialize (Hr _ Hy). rewrite <- sapp_assoc in Hr.
    assert (String.ltb (ns +:+ "/" +:+ z) (n +:+ "/" +:+ rest) = true) as Hafter.
    { apply after_namespace; try done; by apply ValidNamespace_no_char. }
    pose proof (ltb_trans _ _ _ Hr Hafter) as Hirr. by rewrite ltb_irrefl in Hirr.
Qed.

Lemma prefixed_after ns r : HasPrefix r (ns +:+ "/") = true → String.ltb (ns +:+ ".") r = true.
Proof.
  intros [z ->]%HasPrefix_spec. rewrite ltb_compare, <- sapp_assoc, compare_app. done.
Qed.

Lemma string_max_lt s t r :
  String.ltb (string_max s t) r = true ↔ String.ltb s r = true ∧ String.ltb t r = true.
Proof.
  unfold string_max. destruct (String.leb s t) eqn:E.
  - split; [|naive_solver]. intros Ht. split; [|done].
    revert E. unfold String.leb. destruct (String.compare s t) eqn:Ec; [|intros _|done].
    + apply String.compare_eq_iff in Ec as ->. done.
    + by apply (ltb_trans s t r); [apply ltb_compare|].
  - split; [|naive_solver]. intros Hs. split; [done|].
    destruct (String.leb_total s t) as [Hl|Hl]; [congruence|].
    revert Hl. unfold String.leb. destruct (String.compare t s) eqn:Ec; [|intros _|done].
    + apply String.compare_eq_iff in Ec as ->. done.
    + by apply (ltb_trans t s r); [apply ltb_compare|].
Qed.

(** Listing is exact.  Over a registry that lists its repositories in
    order, strictly after the requested name, and whose repositories all lie
    under valid namespaces, a scoped listing yields exactly the namespace's own
    repositories after the requested name (those of the build scope, for a build
    credential), in order: starting at [namespace.] and stopping at the first
    name outside the prefix loses none. *)
Theorem scoped_Repositories_exact ctx ns repos startAfter :
  FromContext ctx = Some ns → ValidNamespace ns = true →
  sorted_names repos → (∀ r, r ∈ repos → tenant_repository r) →
  scoped_Repositories ctx (λ after, Ok <$> filter (λ r, String.ltb after r = true) repos)
      startAfter =
    Ok <$> filter (λ r, String.ltb startAfter r = true ∧
                        HasPrefix r (ns +:+ "/") = true ∧ allowed ctx r = true) repos.
Proof.
  intros Hctx Hns Hsorted Hrepos. unfold scoped_Repositories. rewrite Hctx.
  rewrite scan_repositories_sorted; [|done|by apply StronglySorted_filter|].
  - rewrite list_filter_filter. f_equal. apply filter_agree. intros r _.
    rewrite string_max_lt. pose proof (prefixed_after ns r). tauto.
  - intros r [Hlt Hr]%list_elem_of_filter. apply string_max_lt in Hlt as [_ Hlt]. auto.
Qed.

(** ** Concrete instances *)

Definition demo_types : OciTypes := {|
  Descriptor := unit; BlobReader := unit; BlobWriter := unit; Content := unit;
  PushManifestParameters := unit; TagsParameters := unit; ReferrersParameters := unit |}.

(** A node of the tenant [acme] pulls with the password it was given. *)
Lemma authenticated_request_confined_witness :
  let o := OpIssue 3 (Some "pw1") "acme" in
  let s := (@step _ demo_store demo_json demo_ociref o ∅).2 in
  @Middleware (@store_verifier _ demo_store demo_json 5 s) fresh_context (Some ("acme", "pw1")) =
    ServeNext (NewContext fresh_context "acme") ∧
  ∃ password, pull_in_force [o] "acme" password.
Proof.
  intros o s.
  assert (@reachable _ _ demo_store_laws demo_json demo_ociref [o] s) as Hr.
  { apply (@reach_ok _ _ demo_store_laws demo_json demo_ociref _ ∅); [|vm_compute; reflexivity].
    by apply reach_init. }
  split; [vm_compute; reflexivity|].
  destruct (@authenticated_request_confined _ _ demo_store_laws demo_json demo_json_laws
              demo_ociref demo_types [o] s 5 (Some ("acme", "pw1"))
              (NewContext fresh_context "acme") Hr) as (user & pw & ns & Hauth & _ & Hctx & Hif);
    [vm_compute; reflexivity|].
  injection Hauth as <- <-. simpl in Hif. destruct Hif as (<- & Hforce & _). by exists "pw1".
Defined.

Lemma scoped_Repositories_exact_witness :
  let ctx := NewContext fresh_context "acme" in
  let repos := ["acme-b/x"; "acme/app"; "acme/web"; "beta/x"] in
  scoped_Repositories ctx (λ after, Ok <$> filter (λ r, String.ltb after r = true) repos) "" =
    [Ok "acme/app"; Ok "acme/web"].
Proof.
  intros ctx repos. unfold ctx, repos. rewrite (scoped_Repositories_exact _ "acme").
  - vm_compute. reflexivity.
  - reflexivity.
  - reflexivity.
  - repeat constructor.
  - intros r Hr. repeat (apply elem_of_cons in Hr as [->|Hr]); [..|by apply elem_of_nil in Hr].
    + by exists "acme-b", "x".
    + by exists "acme", "app".
    + by exists "acme", "web".
    + by exists "beta", "x".
Defined.
