(* ===== verification/Validation.v ===== *)
(** * Validation: the name checks of [k8s.io/apimachinery] the program relies on

    The library's functions are the fields of [Validation]; each returns its list
    of problems.  [ValidationLaws] states their documented meaning, with the
    grammars of RFC 1035 and RFC 1123 labels as executable predicates. *)

From S2P Require Import Prelude GoStrings Errors.
From S2P Require Export Identity.

Local Open Scope string_scope.

Class Validation := {
  IsDNS1035Label : string → list string;
  IsDNS1123Label : string → list string;
  IsDNS1123Subdomain : string → list string;
  IsQualifiedName : string → list string;
  IsValidLabelValue : string → list string;
  ValidateAnnotationsSize : gmap string string → option error
}.

(** [[a-z]([-a-z0-9]*[a-z0-9])?], of at most 63 characters. *)
Definition dns1035_label (s : string) : bool :=
  match s with
  | EmptyString => false
  | String c rest =>
      is_lower c &&
      match last_char rest with
      | None => true
      | Some l => lower_alnum l && all_chars label_char rest && (len rest <=? 62)%nat
      end
  end.

(** [[a-z0-9]([-a-z0-9]*[a-z0-9])?], of at most 63 characters. *)
Definition dns1123_label (s : string) : bool := ValidNamespace s.

(** Labels without the length bound, joined by dots, of at most 253 characters. *)
Definition dns1123_part (s : string) : bool :=
  match first_char s, last_char s with
  | Some f, Some l => lower_alnum f && lower_alnum l && all_chars label_char s
  | _, _ => false
  end.
Definition dns1123_subdomain (s : string) : bool :=
  forallb dns1123_part (Split s ".") && (len s <=? 253)%nat.

Class ValidationLaws `{Validation} := {
  IsDNS1035Label_spec s : IsDNS1035Label s = [] ↔ dns1035_label s = true;
  IsDNS1123Label_spec s : IsDNS1123Label s = [] ↔ dns1123_label s = true;
  IsDNS1123Subdomain_spec s : IsDNS1123Subdomain s = [] ↔ dns1123_subdomain s = true
}.

(** No problems found, as the code asks. *)
Definition no_problems (l : list string) : bool := bool_decide (l = []).

Lemma no_problems_spec l : no_problems l = true ↔ l = [].
Proof. apply bool_decide_eq_true. Qed.

Lemma dns1035_intro c s :
  is_lower c = true → s ≠ "" → all_chars label_char s = true →
  (∀ l, last_char s = Some l → lower_alnum l = true) → (len s ≤ 62)%nat →
  dns1035_label (String c s) = true.
Proof.
  intros Hc Hne Hall Hlast Hlen. simpl. rewrite Hc. simpl.
  destruct (last_char_is_Some s Hne) as [l Hl]. rewrite Hl, (Hlast l Hl), Hall. simpl.
  by apply Nat.leb_le.
Qed.

Lemma dns1035_chars s : dns1035_label s = true → all_chars label_char s = true ∧ s ≠ "".
Proof.
  destruct s as [|c rest]; [done|]. simpl. rewrite andb_true_iff. intros [Hc Hr].
  split; [|done]. unfold label_char at 1. rewrite Hc. simpl.
  destruct (last_char rest) as [l|] eqn:El.
  - rewrite !andb_true_iff in Hr. by destruct Hr as [[_ ?] _].
  - destruct rest; [done|]. apply eq_None_not_Some in El. destruct El. by apply last_char_is_Some.
Qed.

(** A checker that gives one problem when the grammar is violated. *)
Definition problem (b : bool) : list string := if b then [] else ["invalid"].

Lemma problem_spec b : problem b = [] ↔ b = true.
Proof. by destruct b. Qed.

Definition demo_validation : Validation := {|
  IsDNS1035Label s := problem (dns1035_label s);
  IsDNS1123Label s := problem (dns1123_label s);
  IsDNS1123Subdomain s := problem (dns1123_subdomain s);
  IsQualifiedName s := problem (negb (bool_decide (s = "")));
  IsValidLabelValue s := problem (len s <=? 63)%nat;
  ValidateAnnotationsSize _ := None
|}.

Lemma demo_validation_laws : @ValidationLaws demo_validation.
Proof. split; intros s; apply problem_spec. Qed.
