(* ===== verification/PodMeta.v ===== *)
(** * PodMeta: [core/translator/pod_metadata.go]

    Docker labels under two prefixes become labels and annotations of the Pod. *)

From S2P Require Import Prelude GoStrings Errors Validation.

Local Open Scope string_scope.

Definition podLabelPrefix : string := "dink.io/pod-label/".
Definition podAnnotationPrefix : string := "dink.io/pod-annotation/".
Definition managedByLabel : string := "app.kubernetes.io/managed-by".
Definition managedByDink : string := "dink".

Abbreviation smap := (gmap string string).

(** [dinkPodLabels] of [network_policy.go]. *)
Definition dinkPodLabels (name : string) : smap :=
  <["app" := name]> (<[managedByLabel := managedByDink]> ∅).

(** [metav1.ObjectMeta], of which only these two are set. *)
Record PodMetadata := { meta_Labels : smap; meta_Annotations : smap }.

#[export] Instance PodMetadata_eq_dec : EqDecision PodMetadata.
Proof. solve_decision. Defined.

Definition reservedPodMetadataKey (key : string) : bool :=
  let '(domain, _, qualified) := Cut key "/" in
  bool_decide (key = "app") || bool_decide (key = managedByLabel) ||
  (qualified && (bool_decide (domain = "dink.io") || HasSuffix domain ".dink.io")).

Inductive target := TargetLabel (key : string) | TargetAnnotation (key : string) | TargetNone.

(** The [switch] on the prefix of a Docker label. *)
Definition target_of (source : string) : target :=
  if HasPrefix source podLabelPrefix then TargetLabel (TrimPrefix source podLabelPrefix)
  else if HasPrefix source podAnnotationPrefix
  then TargetAnnotation (TrimPrefix source podAnnotationPrefix)
  else TargetNone.

Section with_validation.
Context `{Validation}.

Definition check_key (key : string) : res unit :=
  if negb (no_problems (IsQualifiedName key)) then
    Err (InvalidArgument (errors_New "invalid Pod metadata key in Docker label %q: %s"))
  else if reservedPodMetadataKey key then
    Err (InvalidArgument (errors_New "Docker label %q targets reserved Pod metadata key %q"))
  else Ok tt.

(** One iteration of the inner loop. *)
Definition podMetadata_label (labels : smap) (meta : PodMetadata) (source : string) :
    res PodMetadata :=
  let value := default "" (labels !! source) in
  match target_of source with
  | TargetNone => Ok meta
  | TargetLabel key =>
      let? _ := check_key key in
      if negb (no_problems (IsValidLabelValue value)) then
        Err (InvalidArgument (errors_New "invalid Pod label value for %q: %s"))
      else Ok {| meta_Labels := <[key := value]> (meta_Labels meta);
                 meta_Annotations := meta_Annotations meta |}
  | TargetAnnotation key =>
      let? _ := check_key key in
      Ok {| meta_Labels := meta_Labels meta;
            meta_Annotations := <[key := value]> (meta_Annotations meta) |}
  end.

Definition podMetadata_set (meta : PodMetadata) (labels : smap) : res PodMetadata :=
  result_foldM (podMetadata_label labels) meta (sorted_keys labels).

Definition validatePodAnnotations (annotations : smap) : res unit :=
  match ValidateAnnotationsSize annotations with
  | Some e => Err (InvalidArgument (Errorf "invalid Pod annotations: %w" [e]))
  | None => Ok tt
  end.

Definition podMetadata (labelSets : list smap) : res PodMetadata :=
  let? meta := result_foldM podMetadata_set
                 {| meta_Labels := ∅; meta_Annotations := ∅ |} labelSets in
  let? _ := validatePodAnnotations (meta_Annotations meta) in
  Ok meta.

(** ** Specification *)

(** The value a key has after all label sets, later sets overriding. *)
Definition last_value (labelSets : list smap) (source : string) : option string :=
  foldl (λ acc (labels : smap), match labels !! source with Some v => Some v | None => acc end)
    None labelSets.

(** A label that is accepted: it requests nothing, or a legal key and value. *)
Definition acceptable (source value : string) : Prop :=
  match target_of source with
  | TargetNone => True
  | TargetLabel key =>
      IsQualifiedName key = [] ∧ reservedPodMetadataKey key = false ∧ IsValidLabelValue value = []
  | TargetAnnotation key => IsQualifiedName key = [] ∧ reservedPodMetadataKey key = false
  end.

Lemma check_key_ok key u :
  check_key key = Ok u ↔ IsQualifiedName key = [] ∧ reservedPodMetadataKey key = false.
Proof.
  unfold check_key. destruct (no_problems (IsQualifiedName key)) eqn:E; simpl.
  - apply no_problems_spec in E. destruct (reservedPodMetadataKey key); destruct u; naive_solver.
  - split; [done|]. intros [Hq%no_problems_spec _]. congruence.
Qed.

Lemma target_of_inv source key :
  (target_of source = TargetLabel key ↔ source = podLabelPrefix +:+ key) ∧
  (target_of source = TargetAnnotation key ↔ source = podAnnotationPrefix +:+ key).
Proof.
  unfold target_of, HasPrefix, TrimPrefix.
  destruct (CutPrefix source podLabelPrefix) as [r|] eqn:E1.
  { apply CutPrefix_Some in E1 as ->. split; [|done]. split; [by intros [= ->]|].
    intros Heq. apply sapp_inv_length in Heq as [_ ->]; done. }
  destruct (CutPrefix source podAnnotationPrefix) as [r|] eqn:E2.
  - apply CutPrefix_Some in E2 as ->. split; [done|]. split; [by intros [= ->]|].
    intros Heq. apply sapp_inv_length in Heq as [_ ->]; done.
  - split; (split; [done|]); intros ->; by rewrite CutPrefix_app in *.
Qed.

(** What the keys [l] of one label set leave of the metadata. *)
Definition updated (labels : smap) (l : list string) (meta meta' : PodMetadata) : Prop :=
  ∀ key,
    meta_Labels meta' !! key =
      (if decide (podLabelPrefix +:+ key ∈ l) then labels !! (podLabelPrefix +:+ key)
       else meta_Labels meta !! key) ∧
    meta_Annotations meta' !! key =
      (if decide (podAnnotationPrefix +:+ key ∈ l) then labels !! (podAnnotationPrefix +:+ key)
       else meta_Annotations meta !! key).

(** The effect of one accepted label. *)
Definition put (source value : string) (meta : PodMetadata) : PodMetadata :=
  match target_of source with
  | TargetNone => meta
  | TargetLabel key => {| meta_Labels := <[key := value]> (meta_Labels meta);
                          meta_Annotations := meta_Annotations meta |}
  | TargetAnnotation key => {| meta_Labels := meta_Labels meta;
                               meta_Annotations := <[key := value]> (meta_Annotations meta) |}
  end.

Lemma put_lookup source value meta key :
  meta_Labels (put source value meta) !! key =
    (if decide (source = podLabelPrefix +:+ key) then Some value
     else meta_Labels meta !! key) ∧
  meta_Annotations (put source value meta) !! key =
    (if decide (source = podAnnotationPrefix +:+ key) then Some value
     else meta_Annotations meta !! key).
Proof.
  destruct (target_of_inv source key) as [HL HA]. unfold put.
  pose proof (λ k, proj1 (proj1 (target_of_inv source k))) as HL'.
  pose proof (λ k, proj1 (proj2 (target_of_inv source k))) as HA'.
  destruct (target_of source) as [k|k|]; simpl.
  - specialize (HL' k eq_refl). split.
    + rewrite lookup_insert. repeat case_decide; naive_solver.
    + rewrite decide_False; [done|]. intros Heq. by apply HA in Heq.
  - specialize (HA' k eq_refl). split.
    + rewrite decide_False; [done|]. intros Heq. by apply HL in Heq.
    + rewrite lookup_insert. repeat case_decide; naive_solver.
  - rewrite !decide_False; [done|..]; intros Heq; [by apply HA in Heq|by apply HL in Heq].
Qed.

Lemma podMetadata_label_ok labels meta source value meta' :
  labels !! source = Some value →
  podMetadata_label labels meta source = Ok meta' ↔
    acceptable source value ∧ meta' = put source value meta.
Proof.
  intros Hv. unfold podMetadata_label, acceptable, put. rewrite Hv. simpl.
  destruct (target_of source) as [key|key|].
  - rewrite result_bind_ok. setoid_rewrite check_key_ok.
    destruct (no_problems (IsValidLabelValue value)) eqn:E; simpl.
    + apply no_problems_spec in E. split; [intros (_ & [? ?] & [= <-])|]; [done|].
      intros [[? [? _]] ->]. by exists tt.
    + split; [naive_solver|]. intros [(_ & _ & He%no_problems_spec) _]. congruence.
  - rewrite result_bind_ok. setoid_rewrite check_key_ok.
    split; [intros (_ & [? ?] & [= <-]); done|]. intros [[? ?] ->]. by exists tt.
  - naive_solver.
Qed.

Lemma podMetadata_label_error labels meta source e :
  podMetadata_label labels meta source = Err e → kind_of e = Some KindInvalidArgument.
Proof.
  unfold podMetadata_label, check_key. destruct (target_of source); [| |done];
    repeat (case_if; simpl); by intros [= <-].
Qed.

(** The loop over some of the keys of one label set. *)
Lemma podMetadata_loop labels l meta :
  NoDup l → (∀ source, source ∈ l → is_Some (labels !! source)) →
  match result_foldM (podMetadata_label labels) meta l with
  | Ok meta' =>
      (∀ source v, source ∈ l → labels !! source = Some v → acceptable source v) ∧
      updated labels l meta meta'
  | Err e =>
      kind_of e = Some KindInvalidArgument ∧
      ∃ source v, source ∈ l ∧ labels !! source = Some v ∧ ¬ acceptable source v
  end.
Proof.
  intros Hnd. revert meta. induction Hnd as [|source l Hni Hnd IH]; intros meta Hl; simpl.
  { split; [set_solver|]. intros key. by rewrite !decide_False by set_solver. }
  destruct (Hl source ltac:(set_solver)) as [v Hv].
  destruct (podMetadata_label labels meta source) as [meta1|e] eqn:E; simpl.
  2: { split; [by eapply podMetadata_label_error|]. exists source, v.
       split; [set_solver|]. split; [done|]. intros Ha.
       pose proof (proj2 (podMetadata_label_ok labels meta source v _ Hv)
                     (conj Ha eq_refl)). congruence. }
  apply (podMetadata_label_ok labels meta source v meta1 Hv) in E as [Ha ->].
  specialize (IH (put source v meta) ltac:(set_solver)).
  destruct (result_foldM _ (put _ _ _) l) as [meta'|e].
  2: { destruct IH as (Hk & s' & v' & ? & ? & ?). split; [done|]. exists s', v'.
       split; [set_solver|done]. }
  destruct IH as [Hacc Hup]. split.
  { intros source' v' [->|Hin]%elem_of_cons Hv'; [|by apply Hacc].
    rewrite Hv in Hv'. by injection Hv' as <-. }
  intros key. destruct (Hup key) as [-> ->]. destruct (put_lookup source v meta key) as [-> ->].
  split; repeat case_decide; set_solver.
Qed.

Lemma podMetadata_set_spec meta labels :
  match podMetadata_set meta labels with
  | Ok meta' =>
      (∀ source v, labels !! source = Some v → acceptable source v) ∧
      ∀ key,
        meta_Labels meta' !! key =
          match labels !! (podLabelPrefix +:+ key) with
          | Some v => Some v | None => meta_Labels meta !! key end ∧
        meta_Annotations meta' !! key =
          match labels !! (podAnnotationPrefix +:+ key) with
          | Some v => Some v | None => meta_Annotations meta !! key end
  | Err e =>
      kind_of e = Some KindInvalidArgument ∧
      ∃ source v, labels !! source = Some v ∧ ¬ acceptable source v
  end.
Proof.
  unfold podMetadata_set.
  pose proof (podMetadata_loop labels (sorted_keys labels) meta (NoDup_sorted_keys _)) as Hloop.
  specialize (Hloop (λ s, proj1 (elem_of_sorted_keys labels s))).
  destruct (result_foldM _ meta _) as [meta'|e]; [|naive_solver].
  destruct Hloop as [Hacc Hup]. split.
  - intros source v Hv. apply Hacc; [|done]. apply elem_of_sorted_keys. eauto.
  - intros key. destruct (Hup key) as [-> ->]. split.
    + destruct (labels !! (podLabelPrefix +:+ key)) as [v|] eqn:E;
        destruct (decide _) as [Hin|Hnin]; try done.
      * destruct Hnin. apply elem_of_sorted_keys. eauto.
      * apply elem_of_sorted_keys in Hin as [? ?]. congruence.
    + destruct (labels !! (podAnnotationPrefix +:+ key)) as [v|] eqn:E;
        destruct (decide _) as [Hin|Hnin]; try done.
      * destruct Hnin. apply elem_of_sorted_keys. eauto.
      * apply elem_of_sorted_keys in Hin as [? ?]. congruence.
Qed.

Lemma podMetadata_sets_spec labelSets meta :
  match result_foldM podMetadata_set meta labelSets with
  | Ok meta' =>
      (∀ labels source v, labels ∈ labelSets → labels !! source = Some v →
         acceptable source v) ∧
      ∀ key,
        meta_Labels meta' !! key =
          from_option Some (meta_Labels meta !! key)
            (last_value labelSets (podLabelPrefix +:+ key)) ∧
        meta_Annotations meta' !! key =
          from_option Some (meta_Annotations meta !! key)
            (last_value labelSets (podAnnotationPrefix +:+ key))
  | Err e =>
      kind_of e = Some KindInvalidArgument ∧
      ∃ labels source v, labels ∈ labelSets ∧ labels !! source = Some v ∧ ¬ acceptable source v
  end.
Proof.
  assert (∀ sets (acc : option string) source,
    foldl (λ acc (labels : smap), match labels !! source with Some v => Some v | None => acc end)
      acc sets = match last_value sets source with Some v => Some v | None => acc end) as Hfold.
  { unfold last_value. induction sets as [|x sets IH]; intros acc source; simpl; [done|].
    rewrite IH. rewrite (IH (match x !! source with Some v => Some v | None => None end)).
    destruct (foldl _ None sets); [done|]. by destruct (x !! source). }
  revert meta. induction labelSets as [|labels sets IH]; intros meta; simpl.
  { split; [set_solver|done]. }
  pose proof (podMetadata_set_spec meta labels) as Hset.
  destruct (podMetadata_set meta labels) as [meta1|e]; simpl.
  2: { destruct Hset as (Hk & source & v & ? & ?). split; [done|].
       exists labels, source, v. split; [set_solver|done]. }
  specialize (IH meta1). destruct (result_foldM _ meta1 sets) as [meta'|e].
  2: { destruct IH as (Hk & l & source & v & ? & ? & ?). split; [done|].
       exists l, source, v. split; [set_solver|done]. }
  destruct Hset as [Hacc1 Hup1], IH as [Hacc Hup]. split.
  { intros l source v [->|Hin]%elem_of_cons Hv; eauto. }
  intros key. destruct (Hup key) as [-> ->]. destruct (Hup1 key) as [-> ->].
  unfold last_value at 2 4. simpl. rewrite !Hfold. split.
  - destruct (last_value sets _); [done|]. simpl. by destruct (labels !! _).
  - destruct (last_value sets _); [done|]. simpl. by destruct (labels !! _).
Qed.

Lemma last_value_inv sets source v :
  last_value sets source = Some v → ∃ labels, labels ∈ sets ∧ labels !! source = Some v.
Proof.
  unfold last_value. induction sets as [|x sets IH] using rev_ind; simpl; [done|].
  rewrite foldl_snoc. destruct (x !! source) as [v'|] eqn:Ex.
  - intros [= <-]. exists x. set_solver.
  - intros (labels & ? & ?)%IH. exists labels. set_solver.
Qed.

(** A key that is reached through accepted labels is not reserved. *)
Lemma last_value_not_reserved sets prefix key :
  (∀ labels source v, labels ∈ sets → labels !! source = Some v → acceptable source v) →
  prefix = podLabelPrefix ∨ prefix = podAnnotationPrefix →
  is_Some (last_value sets (prefix +:+ key)) → reservedPodMetadataKey key = false.
Proof.
  intros Hacc Hp [v (labels & Hin & Hv)%last_value_inv].
  specialize (Hacc _ _ _ Hin Hv). unfold acceptable in Hacc.
  destruct (target_of_inv (prefix +:+ key) key) as [HL HA].
  destruct Hp as [->| ->].
  - rewrite (proj2 HL eq_refl) in Hacc. tauto.
  - rewrite (proj2 HA eq_refl) in Hacc. tauto.
Qed.

(** Pod metadata is exactly what the Docker labels request.  On success
    every requested key and value in every label set was legal, also those that
    a later set overrides, the Pod labels and annotations are the requested
    ones with later sets taking precedence, and none of their keys is reserved;
    otherwise the error is an invalid argument and something requested was not
    legal or the annotations were too large. *)
Theorem podMetadata_spec labelSets :
  match podMetadata labelSets with
  | Ok meta =>
      (∀ labels source v, labels ∈ labelSets → labels !! source = Some v →
         acceptable source v) ∧
      (∀ key, meta_Labels meta !! key = last_value labelSets (podLabelPrefix +:+ key)) ∧
      (∀ key, meta_Annotations meta !! key = last_value labelSets (podAnnotationPrefix +:+ key)) ∧
      (∀ key, is_Some (meta_Labels meta !! key) ∨ is_Some (meta_Annotations meta !! key) →
         reservedPodMetadataKey key = false) ∧
      ValidateAnnotationsSize (meta_Annotations meta) = None
  | Err e =>
      kind_of e = Some KindInvalidArgument ∧
      ((∃ labels source v, labels ∈ labelSets ∧ labels !! source = Some v ∧
          ¬ acceptable source v) ∨
       ∃ annotations e',
         (∀ key, annotations !! key = last_value labelSets (podAnnotationPrefix +:+ key)) ∧
         ValidateAnnotationsSize annotations = Some e')
  end.
Proof.
  unfold podMetadata. pose proof (podMetadata_sets_spec labelSets
    {| meta_Labels := ∅; meta_Annotations := ∅ |}) as Hsets.
  destruct (result_foldM _ _ labelSets) as [meta|e]; simpl; [|tauto].
  unfold validatePodAnnotations.
  destruct Hsets as [Hacc Hup]. simpl in Hup. setoid_rewrite lookup_empty in Hup.
  assert (∀ key, meta_Labels meta !! key = last_value labelSets (podLabelPrefix +:+ key) ∧
            meta_Annotations meta !! key = last_value labelSets (podAnnotationPrefix +:+ key))
    as Hup'.
  { intros key. destruct (Hup key) as [-> ->]. split; by destruct (last_value _ _). }
  destruct (ValidateAnnotationsSize (meta_Annotations meta)) as [e|] eqn:Ea; simpl.
  { split; [done|right]. exists (meta_Annotations meta), e. split; [apply Hup'|done]. }
  split_and!; [done|apply Hup'|apply Hup'| |done].
  intros key. destruct (Hup' key) as [-> ->].
  intros [Hs|Hs]; (eapply last_value_not_reserved; [done| |done]); auto.
Qed.

(** Labels of the program are not overridden by those a user requests. *)
Lemma podMetadata_keeps_reserved labelSets meta base key :
  podMetadata labelSets = Ok meta → reservedPodMetadataKey key = true →
  (meta_Labels meta ∪ base) !! key = base !! key.
Proof.
  intros Hok Hres. pose proof (podMetadata_sets_spec labelSets
    {| meta_Labels := ∅; meta_Annotations := ∅ |}) as Hsets.
  unfold podMetadata in Hok. destruct (result_foldM _ _ labelSets) as [m|]; [|done].
  simpl in Hok. destruct (validatePodAnnotations _); [|done]. injection Hok as <-.
  assert (meta_Labels m !! key = None) as Hnone; [|by rewrite lookup_union_r].
  destruct Hsets as [Hacc Hup]. destruct (Hup key) as [HL _]. simpl in HL.
  rewrite HL, lookup_empty. destruct (last_value labelSets _) as [v|] eqn:El; [|done].
  rewrite (last_value_not_reserved labelSets podLabelPrefix key Hacc) in Hres; [done|auto|].
  rewrite El. eauto.
Qed.
End with_validation.
