(* ===== verification/Lock.v ===== *)
(** * Lock: [core/translator/container_lock.go]

    The table of per-container operation locks, shared by the goroutines that
    serve requests.  A lock is a channel of capacity one (its token) and a count
    of users; the table maps an identity key to a pointer.  [state] has the table,
    the locks in the heap and where each goroutine is in [lockContainer]; a step
    is one section under [containerLocksMu] or one operation on a channel. *)

From S2P Require Import Prelude.

Local Open Scope Z_scope.

Abbreviation goroutine := nat.
Abbreviation pointer := nat.

Record containerOperationLock := {
  token : bool;      (* whether the channel holds its element *)
  users : Z
}.

(** Where a goroutine is, with the key and the lock it read from the table. *)
Inductive pc :=
| Waiting (key : string) (lock : pointer)    (* in the [select] *)
| Holding (key : string) (lock : pointer)    (* before [unlock] *)
| Releasing (key : string) (lock : pointer). (* before [releaseUser] *)

Record state := {
  containerLocks : gmap string pointer;
  heap : gmap pointer containerOperationLock;
  threads : gmap goroutine pc
}.

Definition initial : state := {| containerLocks := ∅; heap := ∅; threads := ∅ |}.

(** The section of lines 87-97; [fresh] is the pointer [&containerOperationLock{}]
    would give. *)
Definition register (g : goroutine) (key : string) (fresh : pointer) (s : state) : option state :=
  match containerLocks s !! key with
  | Some lock =>
      l ← heap s !! lock;
      Some {| containerLocks := containerLocks s;
              heap := <[lock := {| token := token l; users := users l + 1 |}]> (heap s);
              threads := <[g := Waiting key lock]> (threads s) |}
  | None =>
      Some {| containerLocks := <[key := fresh]> (containerLocks s);
              heap := <[fresh := {| token := false; users := 0 + 1 |}]> (heap s);
              threads := <[g := Waiting key fresh]> (threads s) |}
  end.

(** [case lock.token <- struct{}{}]: blocks while the channel is full. *)
Definition take (g : goroutine) (key : string) (lock : pointer) (s : state) : option state :=
  l ← heap s !! lock;
  if token l then None
  else Some {| containerLocks := containerLocks s;
               heap := <[lock := {| token := true; users := users l |}]> (heap s);
               threads := <[g := Holding key lock]> (threads s) |}.

(** [case <-ctx.Done()] *)
Definition cancel (g : goroutine) (key : string) (lock : pointer) (s : state) : option state :=
  Some {| containerLocks := containerLocks s; heap := heap s;
          threads := <[g := Releasing key lock]> (threads s) |}.

(** [<-lock.token]: blocks while the channel is empty. *)
Definition giveback (g : goroutine) (key : string) (lock : pointer) (s : state) : option state :=
  l ← heap s !! lock;
  if token l
  then Some {| containerLocks := containerLocks s;
               heap := <[lock := {| token := false; users := users l |}]> (heap s);
               threads := <[g := Releasing key lock]> (threads s) |}
  else None.

(** [releaseUser] *)
Definition releaseUser (g : goroutine) (key : string) (lock : pointer) (s : state) : option state :=
  l ← heap s !! lock;
  let users := users l - 1 in
  Some {| containerLocks := if decide (users = 0) then delete key (containerLocks s)
                            else containerLocks s;
          heap := <[lock := {| token := token l; users := users |}]> (heap s);
          threads := delete g (threads s) |}.

Inductive step : state → state → Prop :=
| step_register g key fresh s s' :
    threads s !! g = None → heap s !! fresh = None →
    register g key fresh s = Some s' → step s s'
| step_take g key lock s s' :
    threads s !! g = Some (Waiting key lock) → take g key lock s = Some s' → step s s'
| step_cancel g key lock s s' :
    threads s !! g = Some (Waiting key lock) → cancel g key lock s = Some s' → step s s'
| step_giveback g key lock s s' :
    threads s !! g = Some (Holding key lock) → giveback g key lock s = Some s' → step s s'
| step_release g key lock s s' :
    threads s !! g = Some (Releasing key lock) → releaseUser g key lock s = Some s' → step s s'.

Definition reachable : state → Prop := rtc step initial.

(** ** The invariant *)

Definition key_of (p : pc) : string :=
  match p with Waiting k _ | Holding k _ | Releasing k _ => k end.
Definition lock_of (p : pc) : pointer :=
  match p with Waiting _ l | Holding _ l | Releasing _ l => l end.
Definition is_holding (p : pc) : bool := match p with Holding _ _ => true | _ => false end.

(** The goroutines that hold a reference to a lock. *)
Definition uses (t : gmap goroutine pc) (lock : pointer) : Z :=
  Z.of_nat (size (filter (λ '(_, p), lock_of p = lock) t)).

Definition one_if (P : Prop) `{Decision P} : Z := if decide P then 1 else 0.

Lemma uses_insert t g p lock :
  t !! g = None → uses (<[g := p]> t) lock = one_if (lock_of p = lock) + uses t lock.
Proof.
  intros Hg. unfold uses, one_if. rewrite map_filter_insert. simpl. case_decide.
  - rewrite map_size_insert_None; [lia|]. apply map_lookup_filter_None. by left.
  - rewrite delete_id by done. lia.
Qed.

Lemma uses_delete t g p lock :
  t !! g = Some p → uses (delete g t) lock = uses t lock - one_if (lock_of p = lock).
Proof.
  intros Hg. pose proof (uses_insert (delete g t) g p lock (lookup_delete_eq _ _)) as Hi.
  rewrite insert_delete_id in Hi by done. lia.
Qed.

Lemma uses_update t g p p' lock :
  t !! g = Some p → lock_of p' = lock_of p → uses (<[g := p']> t) lock = uses t lock.
Proof.
  intros Hg Hl. rewrite <- insert_delete_eq.
  rewrite uses_insert by apply lookup_delete_eq. rewrite (uses_delete _ _ _ _ Hg), Hl. lia.
Qed.

Lemma uses_pos t lock : 0 < uses t lock ↔ ∃ g p, t !! g = Some p ∧ lock_of p = lock.
Proof.
  unfold uses. split.
  - intros Hpos. destruct (decide (filter (λ '(_, p), lock_of p = lock) t = ∅)) as [He|Hne].
    { rewrite He, map_size_empty in Hpos. lia. }
    apply map_choose in Hne as (g & p & Hg). apply map_lookup_filter_Some in Hg. eauto.
  - intros (g & p & Hg & Hl).
    assert (size (filter (λ '(_, p), lock_of p = lock) t) ≠ 0)%nat; [|lia].
    intros He%map_size_empty_inv. apply (lookup_empty_Some g p). rewrite <- He.
    by apply map_lookup_filter_Some.
Qed.

Record invariant (s : state) : Prop := {
  inv_current g p : threads s !! g = Some p → containerLocks s !! key_of p = Some (lock_of p);
  inv_entry key lock : containerLocks s !! key = Some lock →
    ∃ l, heap s !! lock = Some l ∧ users l = uses (threads s) lock ∧ 0 < users l;
  inv_inj key key' lock :
    containerLocks s !! key = Some lock → containerLocks s !! key' = Some lock → key = key';
  inv_token lock l : heap s !! lock = Some l →
    token l = true ↔ ∃ g key, threads s !! g = Some (Holding key lock);
  inv_holder g g' key key' lock :
    threads s !! g = Some (Holding key lock) → threads s !! g' = Some (Holding key' lock) → g = g'
}.

Lemma invariant_initial : invariant initial.
Proof. split; simpl; intros *; rewrite ?lookup_empty; done. Qed.

(** Case analysis on lookups in updated maps. *)
Ltac map_cases :=
  repeat match goal with
  | H : <[_ := _]> _ !! _ = Some _ |- _ => apply lookup_insert_Some in H as [[? ?]|[? ?]]
  | H : delete _ _ !! _ = Some _ |- _ => apply lookup_delete_Some in H as [? ?]
  | _ => progress simplify_eq/=
  end.

(** A goroutine that is not in the table and does not hold. *)
Lemma holds_insert (t : gmap goroutine pc) g p lock :
  t !! g = None → is_holding p = false →
  (∃ g' key, <[g := p]> t !! g' = Some (Holding key lock)) ↔
  (∃ g' key, t !! g' = Some (Holding key lock)).
Proof.
  intros Hg Hp. split; intros (g' & k & Hg'); exists g', k.
  - by apply lookup_insert_Some in Hg' as [[_ ->]|[_ ?]].
  - rewrite lookup_insert_ne; [done|congruence].
Qed.

(** A step that moves one goroutine between places on the same lock and keeps the
    table and the counts. *)
Lemma invariant_move s g p p' lock l tok :
  invariant s → threads s !! g = Some p → lock_of p = lock → lock_of p' = lock →
  key_of p' = key_of p → heap s !! lock = Some l →
  (tok = true ↔ is_holding p' = true ∨
     ∃ g' key, g' ≠ g ∧ threads s !! g' = Some (Holding key lock)) →
  (is_holding p' = true → ∀ g' key, g' ≠ g → threads s !! g' ≠ Some (Holding key lock)) →
  invariant {| containerLocks := containerLocks s;
               heap := <[lock := {| token := tok; users := users l |}]> (heap s);
               threads := <[g := p']> (threads s) |}.
Proof.
  intros [Hcur Hent Hinj Htok Hone] Hg Hl Hl' Hk Hlock Htok' Hothers.
  split; simpl.
  - intros g1 p1 H1. map_cases; [|by eapply Hcur]. rewrite Hk, Hl'. by eapply Hcur.
  - intros key lock1 H1. destruct (Hent _ _ H1) as (l1 & Hl1 & Hu & Hpos).
    rewrite (uses_update _ g p p') by congruence.
    destruct (decide (lock1 = lock)) as [->|Hne].
    + rewrite lookup_insert_eq. eexists. split; [done|]. simpl. by simplify_eq.
    + rewrite lookup_insert_ne by done. eauto.
  - exact Hinj.
  - intros lock1 l1 H1. destruct (decide (lock1 = lock)) as [->|Hne].
    + rewrite lookup_insert_eq in H1. injection H1 as <-. simpl. rewrite Htok'. split.
      * intros [Hh|(g' & key & Hne & Hg')].
        { destruct p' as [| k l'|]; try done. simpl in *. subst l'. exists g, k.
          by rewrite lookup_insert_eq. }
        exists g', key. by rewrite lookup_insert_ne.
      * intros (g' & key & Hg'). apply lookup_insert_Some in Hg' as [[<- ->]|[? ?]];
          [by left|right; eauto].
    + rewrite lookup_insert_ne in H1 by done. rewrite (Htok _ _ H1). split.
      * intros (g' & key & Hg'). exists g', key. rewrite lookup_insert_ne; [done|].
        intros ->. simplify_eq/=.
      * intros (g' & key & Hg'). map_cases; eauto.
  - intros g1 g2 k1 k2 lock1 H1 H2.
    apply lookup_insert_Some in H1 as [[<- ->]|[Hn1 H1]];
      apply lookup_insert_Some in H2 as [[<- H2]|[Hn2 H2]]; simpl in *; subst.
    + done.
    + exfalso. apply (Hothers eq_refl g2 k2); [congruence|done].
    + exfalso. apply (Hothers eq_refl g1 k1); [congruence|by rewrite <- Hl'].
    + by eapply Hone.
Qed.

Lemma invariant_register g key fresh s s' :
  invariant s → threads s !! g = None → heap s !! fresh = None →
  register g key fresh s = Some s' → invariant s'.
Proof.
  intros [Hcur Hent Hinj Htok Hone] Hg Hfresh. unfold register.
  destruct (containerLocks s !! key) as [lock|] eqn:Ek.
  - destruct (Hent _ _ Ek) as (l & Hl & Hu & Hpos). rewrite Hl. simpl. intros [= <-].
    split; simpl.
    + intros g1 p1 H1. map_cases; [done|by apply (Hcur g1)].
    + intros key1 lock1 H1. rewrite uses_insert by done. unfold one_if. simpl.
      destruct (Hent _ _ H1) as (l1 & Hl1 & Hu1 & Hpos1).
      destruct (decide (lock = lock1)) as [->|Hne].
      * rewrite lookup_insert_eq. eexists. split; [done|]. simpl. simplify_eq. lia.
      * rewrite lookup_insert_ne by done. exists l1. split; [done|]. lia.
    + exact Hinj.
    + intros lock1 l1 H1.
      assert (∃ l0, heap s !! lock1 = Some l0 ∧ token l0 = token l1) as (l0 & H0 & <-)
        by (map_cases; eauto).
      rewrite (Htok _ _ H0). by rewrite holds_insert.
    + intros g1 g2 k1 k2 lock1 H1 H2. map_cases. by eapply Hone.
  - intros [= <-].
    assert (∀ k lock, containerLocks s !! k = Some lock → lock ≠ fresh) as Hnf.
    { intros k lock Hk ->. destruct (Hent _ _ Hk) as (? & ? & _). congruence. }
    assert (∀ g p, threads s !! g = Some p → lock_of p ≠ fresh) as Hnt
      by (intros g1 p1 H1; eapply Hnf, (Hcur g1), H1).
    split; simpl.
    + intros g1 p1 H1. apply lookup_insert_Some in H1 as [[_ <-]|[_ H1]].
      { by rewrite lookup_insert_eq. }
      pose proof (Hcur _ _ H1). rewrite lookup_insert_ne; congruence.
    + intros key1 lock1 H1. rewrite uses_insert by done. unfold one_if. simpl.
      apply lookup_insert_Some in H1 as [[_ <-]|[_ H1]].
      * rewrite lookup_insert_eq. eexists. split; [done|]. simpl. rewrite decide_True by done.
        assert (uses (threads s) fresh = 0) as ->; [|lia].
        destruct (Z.lt_ge_cases 0 (uses (threads s) fresh)) as [(g1 & p1 & H1 & Hl1)%uses_pos|Hle].
        { by apply Hnt in H1. }
        unfold uses in *. lia.
      * assert (lock1 ≠ fresh) as Hne by eauto. rewrite decide_False by done.
        rewrite lookup_insert_ne by done. destruct (Hent _ _ H1) as (l1 & ? & ? & ?).
        exists l1. split; [done|]. lia.
    + intros k1 k2 lock1 H1 H2.
      apply lookup_insert_Some in H1 as [[Hk1 Hl1]|[_ H1]];
        apply lookup_insert_Some in H2 as [[Hk2 Hl2]|[_ H2]].
      * congruence.
      * by destruct (Hnf _ _ H2).
      * by destruct (Hnf _ _ H1).
      * by eapply Hinj.
    + intros lock1 l1 H1. apply lookup_insert_Some in H1 as [[<- <-]|[_ H1]].
      * split; [done|]. intros (g' & k & Hg')%holds_insert; [|done..].
        by destruct (Hnt _ _ Hg').
      * rewrite (Htok _ _ H1). by rewrite holds_insert.
    + intros g1 g2 k1 k2 lock1 H1 H2. map_cases. by eapply Hone.
Qed.

Lemma invariant_release g key lock s s' :
  invariant s → threads s !! g = Some (Releasing key lock) →
  releaseUser g key lock s = Some s' → invariant s'.
Proof.
  intros [Hcur Hent Hinj Htok Hone] Hg. unfold releaseUser.
  pose proof (Hcur _ _ Hg) as Hk. simpl in Hk.
  destruct (Hent _ _ Hk) as (l & Hl & Hu & Hpos). rewrite Hl. simpl. intros [= <-].
  assert (∀ lock', uses (delete g (threads s)) lock' =
            uses (threads s) lock' - one_if (lock = lock')) as Huses
    by (intros lock'; apply (uses_delete _ _ _ _ Hg)).
  assert (∀ k lock', (if decide (users l - 1 = 0) then delete key (containerLocks s)
                      else containerLocks s) !! k = Some lock' →
            containerLocks s !! k = Some lock' ∧ (lock' = lock → users l - 1 ≠ 0)) as Htab.
  { intros k lock' H1. case_decide; [|done].
    apply lookup_delete_Some in H1 as [Hne H1]. split; [done|]. intros ->.
    by destruct Hne; eapply Hinj. }
  assert (∀ g' k lock', delete g (threads s) !! g' = Some (Holding k lock') ↔
            threads s !! g' = Some (Holding k lock')) as Hhold.
  { intros g' k lock'. rewrite lookup_delete_Some. split; [naive_solver|]. intros Hh.
    split; [|done]. intros ->. congruence. }
  split; simpl.
  - intros g1 p1 [Hne H1]%lookup_delete_Some. pose proof (Hcur _ _ H1) as Hc1.
    case_decide as Hz; [|done]. rewrite lookup_delete_ne; [done|]. intros ->.
    assert (0 < uses (delete g (threads s)) lock) as Hu1.
    { apply uses_pos. exists g1, p1. split; [by rewrite lookup_delete_ne|congruence]. }
    rewrite Huses in Hu1. unfold one_if in Hu1. rewrite decide_True in Hu1 by done. lia.
  - intros k lock' [H1 Hnz]%Htab. destruct (Hent _ _ H1) as (l1 & Hl1 & Hu1 & Hpos1).
    rewrite Huses. unfold one_if. destruct (decide (lock = lock')) as [<-|Hne].
    + rewrite lookup_insert_eq. eexists. split; [done|]. simpl. specialize (Hnz eq_refl). lia.
    + rewrite lookup_insert_ne by done. exists l1. split; [done|]. lia.
  - intros k k' lock' [H1 _]%Htab [H2 _]%Htab. by eapply Hinj.
  - intros lock' l1 H1. setoid_rewrite Hhold.
    apply lookup_insert_Some in H1 as [[<- <-]|[_ H1]];
      [apply (Htok _ _ Hl)|by apply Htok].
  - intros g1 g2 k1 k2 lock' H1%Hhold H2%Hhold. by eapply Hone.
Qed.

Lemma invariant_step s s' : step s s' → invariant s → invariant s'.
Proof.
  intros Hstep Hinv. pose proof Hinv as [Hcur Hent Hinj Htok Hone]. destruct Hstep.
  - by eapply invariant_register.
  - unfold take in *. destruct (heap s !! lock) as [l|] eqn:El; [|done]. simpl in *.
    destruct (token l) eqn:Et; [done|]. simplify_eq/=.
    apply (invariant_move s g (Waiting key lock)); try done.
    + split; [by left|done].
    + intros _ g' k _ Hg'. assert (token l = true) by (apply (Htok _ _ El); eauto). congruence.
  - unfold cancel in *. simplify_eq/=. pose proof (Hcur _ _ H) as Hk. simpl in Hk.
    destruct (Hent _ _ Hk) as (l & Hl & _).
    assert (heap s = <[lock := {| token := token l; users := users l |}]> (heap s)) as Hh.
    { rewrite insert_id; [done|]. rewrite Hl. by destruct l. }
    rewrite Hh. apply (invariant_move s g (Waiting key lock)); try done.
    rewrite (Htok _ _ Hl). split.
    + intros (g' & k & Hg'). right. exists g', k. split; [congruence|done].
    + intros [[=]|(g' & k & _ & Hg')]. eauto.
  - unfold giveback in *. destruct (heap s !! lock) as [l|] eqn:El; [|done]. simpl in *.
    destruct (token l) eqn:Et; [|done]. simplify_eq/=.
    apply (invariant_move s g (Holding key lock)); try done.
    split; [done|]. intros [[=]|(g' & k & Hne & Hg')]. by destruct Hne; eapply Hone.
  - by eapply invariant_release.
Qed.

Lemma reachable_invariant s : reachable s → invariant s.
Proof.
  intros Hr. pose proof invariant_initial as Hinv. induction Hr as [|? ? ? Hstep _ IH]; [done|].
  eapply IH, invariant_step; done.
Qed.

(** Whether some goroutine is anywhere inside [lockContainer] for [key]. *)
Definition inside (s : state) (key : string) : Prop :=
  ∃ g p, threads s !! g = Some p ∧ key_of p = key.

(** C37: the operation locks are mutually exclusive, do not leak and do not get
    stuck.  In every state reachable by any interleaving of any number of
    goroutines: two goroutines that hold the lock of one key are the same
    goroutine; the table has an entry for a key exactly while some goroutine uses
    it, with as many users as there are such goroutines; a goroutine that holds a
    lock, or that is about to release its use, is never blocked; and one that
    waits is blocked only by a goroutine that holds the lock of the same key. *)
Theorem containerLocks_correct s :
  reachable s →
  (∀ g g' key lock lock',
     threads s !! g = Some (Holding key lock) → threads s !! g' = Some (Holding key lock') →
     g = g') ∧
  (∀ key, is_Some (containerLocks s !! key) ↔ inside s key) ∧
  (∀ key lock, containerLocks s !! key = Some lock →
     ∃ l, heap s !! lock = Some l ∧ users l = uses (threads s) lock) ∧
  (∀ g key lock, threads s !! g = Some (Holding key lock) → is_Some (giveback g key lock s)) ∧
  (∀ g key lock, threads s !! g = Some (Releasing key lock) →
     is_Some (releaseUser g key lock s)) ∧
  (∀ g key lock, threads s !! g = Some (Waiting key lock) →
     is_Some (take g key lock s) ∨ ∃ g', threads s !! g' = Some (Holding key lock)).
Proof.
  intros [Hcur Hent Hinj Htok Hone]%reachable_invariant.
  assert (∀ g p, threads s !! g = Some p → ∃ l, heap s !! lock_of p = Some l) as Hheap.
  { intros g p Hg. destruct (Hent _ _ (Hcur _ _ Hg)) as (l & ? & _). eauto. }
  split_and!.
  - intros g g' key lock lock' Hg Hg'. pose proof (Hcur _ _ Hg). pose proof (Hcur _ _ Hg').
    simplify_eq/=. by eapply Hone.
  - intros key. split.
    + intros [lock Hk]. destruct (Hent _ _ Hk) as (l & _ & Hu & Hpos).
      rewrite Hu in Hpos. apply uses_pos in Hpos as (g & p & Hg & Hp). exists g, p.
      split; [done|]. pose proof (Hcur _ _ Hg). subst. by eapply Hinj.
    + intros (g & p & Hg & <-). eauto.
  - intros key lock Hk. destruct (Hent _ _ Hk) as (l & ? & ? & _). eauto.
  - intros g key lock Hg. destruct (Hheap _ _ Hg) as [l Hl]. simpl in Hl. unfold giveback.
    rewrite Hl. simpl. rewrite (proj2 (Htok _ _ Hl)) by eauto. eauto.
  - intros g key lock Hg. destruct (Hheap _ _ Hg) as [l Hl]. simpl in Hl. unfold releaseUser.
    rewrite Hl. simpl. eauto.
  - intros g key lock Hg. destruct (Hheap _ _ Hg) as [l Hl]. simpl in Hl. unfold take.
    rewrite Hl. simpl. destruct (token l) eqn:Et; [|left; eauto]. right.
    apply (Htok _ _ Hl) in Et as (g' & k & Hg'). exists g'. rewrite Hg'. f_equal. f_equal.
    by eapply Hinj; [apply (Hcur _ _ Hg')|apply (Hcur _ _ Hg)].
Qed.

(** ** Progress *)

(** A step of a goroutine that is inside already and is not cancelled. *)
Inductive progress : state → state → Prop :=
| progress_take g key lock s s' :
    threads s !! g = Some (Waiting key lock) → take g key lock s = Some s' → progress s s'
| progress_giveback g key lock s s' :
    threads s !! g = Some (Holding key lock) → giveback g key lock s = Some s' → progress s s'
| progress_release g key lock s s' :
    threads s !! g = Some (Releasing key lock) → releaseUser g key lock s = Some s' → progress s s'.

Lemma progress_step s s' : progress s s' → step s s'.
Proof.
  destruct 1; [by eapply step_take|by eapply step_giveback|by eapply step_release].
Qed.

(** The steps a goroutine has left. *)
Definition steps_left (p : pc) : nat :=
  match p with Waiting _ _ => 3 | Holding _ _ => 2 | Releasing _ _ => 1 end.

Definition work_left (t : gmap goroutine pc) : nat := map_fold (λ _ p n, (steps_left p + n)%nat) 0%nat t.

Lemma work_left_insert t g p :
  t !! g = None → work_left (<[g := p]> t) = (steps_left p + work_left t)%nat.
Proof. intros Hg. unfold work_left. rewrite map_fold_insert_L; [done|intros; lia|done]. Qed.

Lemma work_left_delete t g p :
  t !! g = Some p → work_left t = (steps_left p + work_left (delete g t))%nat.
Proof.
  intros Hg. rewrite <- (work_left_insert (delete g t) g p) by apply lookup_delete_eq.
  by rewrite insert_delete_id.
Qed.

Lemma work_left_update t g p p' :
  t !! g = Some p → (steps_left p' < steps_left p → work_left (<[g := p']> t) < work_left t)%nat.
Proof.
  intros Hg Hlt. rewrite <- (insert_delete_eq t g), work_left_insert by apply lookup_delete_eq.
  rewrite (work_left_delete _ _ _ Hg). lia.
Qed.

Lemma progress_decreases s s' : progress s s' → (work_left (threads s') < work_left (threads s))%nat.
Proof.
  destruct 1 as [g key lock s s' Hg Hs|g key lock s s' Hg Hs|g key lock s s' Hg Hs].
  - unfold take in Hs. destruct (heap s !! lock) as [l|]; simpl in Hs; [|done].
    destruct (token l); simplify_eq/=. eapply work_left_update; [done|simpl; lia].
  - unfold giveback in Hs. destruct (heap s !! lock) as [l|]; simpl in Hs; [|done].
    destruct (token l); simplify_eq/=. eapply work_left_update; [done|simpl; lia].
  - unfold releaseUser in Hs. destruct (heap s !! lock) as [l|]; simplify_eq/=.
    rewrite (work_left_delete _ _ _ Hg). simpl. lia.
Qed.

(** While a goroutine is inside, one can move: a holder or a releaser if there is
    one, else any that waits. *)
Lemma can_progress s : invariant s → threads s ≠ ∅ → ∃ s', progress s s'.
Proof.
  intros [Hcur Hent Hinj Htok Hone] (g & p & Hg)%map_choose.
  assert (∃ l, heap s !! lock_of p = Some l) as [l Hl].
  { destruct (Hent _ _ (Hcur _ _ Hg)) as (l & ? & _). eauto. }
  destruct p as [key lock|key lock|key lock]; simpl in Hl.
  - destruct (token l) eqn:Et.
    + apply (Htok _ _ Hl) in Et as (g' & key' & Hg'). eexists. eapply progress_giveback; [done|].
      unfold giveback. rewrite Hl. simpl. rewrite (proj2 (Htok _ _ Hl)) by eauto. done.
    + eexists. eapply progress_take; [done|]. unfold take. rewrite Hl. simpl. by rewrite Et.
  - eexists. eapply progress_giveback; [done|]. unfold giveback. rewrite Hl. simpl.
    rewrite (proj2 (Htok _ _ Hl)) by eauto. done.
  - eexists. eapply progress_release; [done|]. unfold releaseUser. rewrite Hl. done.
Qed.

(** Whatever progress is made, it ends with nobody inside and an empty table. *)
Lemma drains s : invariant s → ∃ s', rtc progress s s' ∧ threads s' = ∅ ∧ containerLocks s' = ∅.
Proof.
  remember (work_left (threads s)) as n eqn:Hn. revert s Hn.
  induction (lt_wf n) as [n _ IH]. intros s -> Hinv.
  destruct (decide (threads s = ∅)) as [He|Hne].
  - exists s. split_and!; [constructor|done|]. apply map_eq. intros key. rewrite lookup_empty.
    destruct (containerLocks s !! key) as [lock|] eqn:Ek; [|done].
    destruct (inv_entry _ Hinv _ _ Ek) as (l & _ & Hu & Hpos). exfalso.
    rewrite Hu in Hpos. apply uses_pos in Hpos as (g & p & Hg & _). by rewrite He, lookup_empty in Hg.
  - destruct (can_progress s Hinv Hne) as [s1 Hs1].
    destruct (IH _ (progress_decreases _ _ Hs1) s1) as (s' & ? & ? & ?); [done| |].
    + eapply invariant_step; [by apply progress_step|done].
    + exists s'. split_and!; [|done..]. by eapply rtc_l.
Qed.

(** A goroutine that waits gets the token once the holder, if any, gave it back. *)
Lemma waiter_served s g key lock :
  invariant s → threads s !! g = Some (Waiting key lock) →
  ∃ s', rtc progress s s' ∧ threads s' !! g = Some (Holding key lock).
Proof.
  intros Hinv Hg. pose proof Hinv as [Hcur Hent Hinj Htok Hone].
  destruct (Hent _ _ (Hcur _ _ Hg)) as (l & Hl & _). simpl in Hl.
  destruct (token l) eqn:Et.
  - pose proof Et as Ht. apply (Htok _ _ Hl) in Ht as (g' & key' & Hg').
    assert (g ≠ g') as Hne by congruence.
    set (s1 := {| containerLocks := containerLocks s;
                  heap := <[lock := {| token := false; users := users l |}]> (heap s);
                  threads := <[g' := Releasing key' lock]> (threads s) |}).
    assert (progress s s1) as Hs1.
    { eapply progress_giveback; [done|]. unfold giveback. rewrite Hl. simpl. by rewrite Et. }
    eexists. split.
    + eapply rtc_l; [exact Hs1|]. eapply rtc_l; [|constructor].
      eapply (progress_take g key lock).
      * simpl. by rewrite lookup_insert_ne.
      * unfold take. simpl. rewrite lookup_insert_eq. simpl. reflexivity.
    + simpl. apply lookup_insert_eq.
  - eexists. split.
    + eapply rtc_l; [|constructor]. eapply (progress_take g key lock); [done|].
      unfold take. rewrite Hl. simpl. by rewrite Et.
    + simpl. apply lookup_insert_eq.
Qed.

(** the operation locks never block for good.  From every reachable state,
    without a cancellation, a goroutine that waits can get the lock, after at most
    one step of another goroutine; the steps of those inside, in any order, come to
    an end (each uses up some of the finite work left, and one is possible as long
    as anyone is inside), and the table is then empty again. *)
Theorem containerLocks_live s :
  reachable s →
  (∀ g key lock, threads s !! g = Some (Waiting key lock) →
     ∃ s', rtc progress s s' ∧ threads s' !! g = Some (Holding key lock)) ∧
  (∀ s', progress s s' → (work_left (threads s') < work_left (threads s))%nat) ∧
  (threads s ≠ ∅ → ∃ s', progress s s') ∧
  (∃ s', rtc progress s s' ∧ threads s' = ∅ ∧ containerLocks s' = ∅).
Proof.
  intros Hr%reachable_invariant. split_and!.
  - intros g key lock. by apply waiter_served.
  - apply progress_decreases.
  - by apply can_progress.
  - by apply drains.
Qed.

(** Two goroutines meet at one lock: one holds it while the other waits. *)
Definition contended : state := {|
  containerLocks := <["k" := 7%nat]> ∅;
  heap := <[7%nat := {| token := true; users := 2 |}]> ∅;
  threads := <[2%nat := Waiting "k" 7%nat]> (<[1%nat := Holding "k" 7%nat]> ∅) |}.

Lemma contended_reachable : reachable contended.
Proof.
  apply (rtc_l _ _ {| containerLocks := <["k" := 7%nat]> ∅;
                      heap := <[7%nat := {| token := false; users := 1 |}]> ∅;
                      threads := <[1%nat := Waiting "k" 7%nat]> ∅ |});
    [apply (step_register 1 "k" 7); reflexivity|].
  apply (rtc_l _ _ {| containerLocks := <["k" := 7%nat]> ∅;
                      heap := <[7%nat := {| token := true; users := 1 |}]> ∅;
                      threads := <[1%nat := Holding "k" 7%nat]> ∅ |});
    [apply (step_take 1 "k" 7); reflexivity|].
  apply (rtc_l _ _ contended); [apply (step_register 2 "k" 9); reflexivity|]. constructor.
Qed.

Lemma containerLocks_correct_witness :
  reachable contended ∧ threads contended !! 1%nat = Some (Holding "k" 7%nat) ∧ inside contended "k".
Proof.
  split; [exact contended_reachable|]. split; [reflexivity|].
  apply (proj1 (proj2 (containerLocks_correct contended contended_reachable))). exists 7%nat. reflexivity.
Defined.

Lemma containerLocks_live_witness :
  ∃ s', rtc progress contended s' ∧ threads s' !! 2%nat = Some (Holding "k" 7%nat).
Proof.
  apply (proj1 (containerLocks_live contended contended_reachable) 2%nat "k" 7%nat). reflexivity.
Defined.
