(* ===== verification/Discipline.v ===== *)
(** * Discipline: the locking discipline of the translator's methods

    [acquired h] is the stack of resources a method holds after the events [h]:
    uses and tokens of operation locks, and mutexes.  [disciplined] is the guard
    every container method satisfies: resources are released in the order opposite
    to their acquisition, an operation lock is requested only while no mutex is
    held (so that waiting for one cannot deadlock), a mutex is not requested twice,
    workloads change only under an operation lock or [containerNameMu], and Services
    change only under [containerNameMu].

    [neutral st p] says that [p], run with the resources [st], is disciplined and
    returns with the same resources.  Its closure properties are hints, so that a
    method's proof follows the method's structure. *)

From S2P Require Import Prelude GoStrings Errors Prog Kube.

Inductive resource :=
| Use (key : string)      (* registered as a user of an operation lock *)
| Token (key : string)    (* holding it *)
| Mutex (m : mutex).

#[export] Instance resource_eq_dec : EqDecision resource.
Proof. solve_decision. Defined.

Definition pop (r : resource) (st : list resource) : option (list resource) :=
  match st with
  | r' :: st => if decide (r = r') then Some st else None
  | [] => None
  end.

(** The effect of one event on the resources. *)
Definition resource_effect (e : event cmd) (st : list resource) : option (list resource) :=
  match e with
  | Event X c x =>
      (match c in cmd X return X → option (list resource) with
       | RegisterUser key => λ _, Some (Use key :: st)
       | TakeToken key => λ r, match r with Ok _ => Some (Token key :: st) | Err _ => Some st end
       | ReturnToken key => λ _, pop (Token key) st
       | ReleaseUser key => λ _, pop (Use key) st
       | MuLock m => λ _, Some (Mutex m :: st)
       | MuUnlock m => λ _, pop (Mutex m) st
       | _ => λ _, Some st
       end) x
  end.

(** [None] once something was released out of order. *)
Fixpoint acquired (h : hist) : option (list resource) :=
  match h with
  | [] => Some []
  | e :: h => st ← acquired h; resource_effect e st
  end.

Definition is_token (r : resource) : bool := match r with Token _ => true | _ => false end.
Definition is_mutex (r : resource) : bool := match r with Mutex _ => true | _ => false end.

Definition holds_token (st : list resource) : bool := existsb is_token st.
Definition holds_mutex (st : list resource) (m : mutex) : bool := bool_decide (Mutex m ∈ st).

(** What writing an object of a kind requires. *)
Definition may_write (st : list resource) (k : kind) : bool :=
  match k with
  | KDeployment | KJob => holds_token st || holds_mutex st containerNameMu
  | KService => holds_mutex st containerNameMu
  | _ => true
  end.

Definition allowed_cmd (st : list resource) {X} (c : cmd X) : bool :=
  match c with
  | KCreate k _ _ | KUpdate k _ _ | KDelete k _ _ _ => may_write st k
  | MuLock m => negb (holds_mutex st m)
  | RegisterUser _ | TakeToken _ => negb (existsb is_mutex st)
  | ReturnToken key => bool_decide (head st = Some (Token key))
  | ReleaseUser key => bool_decide (head st = Some (Use key))
  | MuUnlock m => bool_decide (head st = Some (Mutex m))
  | _ => true
  end.

Definition disciplined : guard (cmd := cmd) := λ h X c,
  match acquired h with Some st => allowed_cmd st c = true | None => False end.

Definition neutral (st : list resource) {A} (p : proc A) : Prop :=
  ∀ h, acquired h = Some st →
    wp any_answer disciplined p h (λ h' _, acquired h' = Some st).

(** A command that acquires and releases nothing. *)
Definition plain {X} (c : cmd X) : bool :=
  match c with
  | RegisterUser _ | TakeToken _ | ReturnToken _ | ReleaseUser _ | MuLock _ | MuUnlock _ => false
  | _ => true
  end.

Lemma plain_effect {X} (c : cmd X) x st :
  plain c = true → resource_effect (Event X c x) st = Some st.
Proof. by destruct c. Qed.

Lemma pop_top r st : pop r (r :: st) = Some st.
Proof. simpl. by rewrite decide_True. Qed.

Lemma wp_effect st st' {X} (c : cmd X) h :
  acquired h = Some st → allowed_cmd st c = true →
  (∀ x, resource_effect (Event X c x) st = Some st') →
  wp any_answer disciplined (call c) h (λ h' _, acquired h' = Some st').
Proof.
  intros Hh Ha He. apply wp_call. split; [unfold disciplined; by rewrite Hh|].
  intros x _. cbn [acquired]. rewrite Hh. apply He.
Qed.

Lemma neutral_ret st {A} (a : A) : neutral st (Ret a).
Proof. by intros h Hh. Qed.

Lemma neutral_bind st {A B} (p : proc A) (f : A → proc B) :
  neutral st p → (∀ a, neutral st (f a)) → neutral st (bind p f).
Proof.
  intros Hp Hf h Hh. rewrite wp_bind. eapply wp_post; [|by apply Hp].
  intros h' a Hh'. by apply Hf.
Qed.

Lemma neutral_bind_res st {E A B} (p : proc (result E A)) (f : A → proc (result E B)) :
  neutral st p → (∀ a, neutral st (f a)) → neutral st (bind_res p f).
Proof.
  intros Hp Hf. apply neutral_bind; [done|]. intros [a|e]; [done|apply neutral_ret].
Qed.

Lemma neutral_call st {X} (c : cmd X) :
  plain c = true → allowed_cmd st c = true → neutral st (call c).
Proof.
  intros Hp Ha h Hh. apply wp_call. split; [unfold disciplined; by rewrite Hh|].
  intros x _. cbn [acquired]. rewrite Hh. cbn. by apply plain_effect.
Qed.

Lemma neutral_Call st {X A} (c : cmd X) (k : X → proc A) :
  plain c = true → allowed_cmd st c = true → (∀ x, neutral st (k x)) → neutral st (Call c k).
Proof. intros Hp Ha Hk. apply (neutral_bind st (call c) k); [by apply neutral_call|done]. Qed.

Lemma neutral_for_each st {E A} (l : list A) (f : A → proc (result E unit)) :
  (∀ x, neutral st (f x)) → neutral st (for_each l f).
Proof.
  intros Hf. induction l as [|x l IH]; simpl; [apply neutral_ret|].
  apply neutral_bind_res; auto.
Qed.

(** Acquisition and release around a body. *)
Lemma neutral_bracket st r {X Y A} (acq : cmd X) (rel : cmd Y) (body : proc A) :
  allowed_cmd st acq = true → allowed_cmd (r :: st) rel = true →
  (∀ x, resource_effect (Event X acq x) st = Some (r :: st)) →
  (∀ y, resource_effect (Event Y rel y) (r :: st) = Some st) →
  neutral (r :: st) body →
  neutral st (do _ <- call acq; defer (do _ <- call rel; Ret tt) body).
Proof.
  intros Ha Hr Hacq Hrel Hbody h Hh. rewrite wp_bind, wp_call.
  split; [unfold disciplined; by rewrite Hh|]. intros x _. rewrite wp_defer.
  eapply wp_post; [|apply Hbody; cbn [acquired]; rewrite Hh; cbn; apply Hacq].
  intros h' a Hh'. rewrite wp_bind, wp_call. split; [unfold disciplined; by rewrite Hh'|].
  intros y _. rewrite wp_ret. cbn [acquired]. rewrite Hh'. cbn. apply Hrel.
Qed.

Lemma wp_mutex_defer {A} R G m (body : proc A) h Q :
  wp R G (with_mutex m body) h Q ↔
  wp R G (do _ <- call (MuLock m); defer (do _ <- call (MuUnlock m); Ret tt) body) h Q.
Proof.
  unfold with_mutex. rewrite !wp_bind, !wp_call. apply and_iff_compat_l.
  apply forall_proper. intros x. apply forall_proper. intros _. rewrite !wp_defer.
  split; apply wp_post; intros h' a; rewrite wp_bind, !wp_call; intros [? Hx]; split; try done;
    intros [] Hr; by apply Hx.
Qed.

Lemma neutral_with_mutex st m {A} (body : proc A) :
  holds_mutex st m = false → neutral (Mutex m :: st) body → neutral st (with_mutex m body).
Proof.
  intros Hm Hbody h Hh. rewrite wp_mutex_defer. revert h Hh.
  apply (neutral_bracket st (Mutex m)); try done.
  - simpl. by rewrite Hm.
  - simpl. by rewrite bool_decide_true.
  - intros y. simpl. by rewrite decide_True.
Qed.

Lemma neutral_if st {A} (b : bool) (p q : proc A) :
  neutral st p → neutral st q → neutral st (if b then p else q).
Proof. by destruct b. Qed.

Lemma neutral_decide st {A} (P : Prop) `{Decision P} (p q : proc A) :
  neutral st p → neutral st q → neutral st (if decide P then p else q).
Proof. by destruct (decide P). Qed.

Create HintDb neutral.
#[export] Hint Resolve neutral_ret neutral_bind neutral_bind_res neutral_for_each neutral_if
  neutral_decide : neutral.
#[export] Hint Extern 1 (neutral _ (call _)) => apply neutral_call; reflexivity : neutral.

(** Splits a method's body along its control structure. *)
Ltac neutral_step :=
  match goal with
  | |- ∀ _, _ => intro
  | |- neutral _ (match ?x with _ => _ end) => destruct x
  | |- neutral _ (bind_res _ _) => apply neutral_bind_res
  | |- neutral _ (bind _ _) => apply neutral_bind
  | |- neutral _ (for_each _ _) => apply neutral_for_each
  | |- neutral _ (Ret _) => apply neutral_ret
  | |- neutral _ (call _) => apply neutral_call; [reflexivity|by simpl]
  | |- neutral _ (Call _ _) => apply neutral_Call; [reflexivity|by simpl|]
  | |- neutral _ (let _ := _ in _) => cbv zeta
  | |- _ => solve [eauto with neutral]
  end.
Ltac neutral_auto := repeat neutral_step.

(** ** Programs that issue only certain commands *)

Abbreviation cmd_test := (∀ X, cmd X → bool).

Definition only (b : cmd_test) {A} (p : proc A) : Prop :=
  ∀ h, wp any_answer (λ _ X c, b X c = true) p h (λ _ _, True).

(** [h'] extends [h] by events whose commands pass the test. *)
Definition extended (b : cmd_test) (h h' : hist) : Prop :=
  ∃ pre, h' = (pre ++ h)%list ∧ ∀ e, e ∈ pre → b (ev_type e) (ev_cmd e) = true.

Lemma extended_refl b h : extended b h h.
Proof. exists []. split; [done|set_solver]. Qed.

Lemma extended_trans b h1 h2 h3 : extended b h1 h2 → extended b h2 h3 → extended b h1 h3.
Proof.
  intros (p1 & -> & H1) (p2 & -> & H2). exists (p2 ++ p1)%list. rewrite <- app_assoc. split; [done|].
  intros e [He|He]%elem_of_app; auto.
Qed.

Lemma extended_suffix b h h' : extended b h h' → h `suffix_of` h'.
Proof. intros (pre & -> & _). by exists pre. Qed.

Lemma extended_cons (b : cmd_test) h h' {X} (c : cmd X) x :
  b X c = true → extended b h h' → extended b h (Event X c x :: h').
Proof.
  intros Hb (pre & -> & Hp). exists (Event X c x :: pre). split; [done|].
  intros e [->|He]%elem_of_cons; auto.
Qed.

Lemma extended_step (b : cmd_test) h h' {X} (c : cmd X) x :
  b X c = true → extended b (Event X c x :: h) h' → extended b h h'.
Proof.
  intros Hb (pre & -> & Hp). exists (pre ++ [Event X c x])%list. rewrite <- app_assoc.
  split; [done|]. intros e [He|He%list_elem_of_singleton]%elem_of_app; [auto|by subst].
Qed.

(** The result of a program together with how it extends the history. *)
Lemma wp_extended (b : cmd_test) {A} R G (p : proc A) h (Q : hist → A → Prop) :
  wp R (λ h X c, G h X c ∧ b X c = true) p h Q →
  wp R G p h (λ h' a, Q h' a ∧ extended b h h').
Proof.
  revert h. induction p as [a|X c k IH]; intros h; simpl; [by split; [|apply extended_refl]|].
  intros [[Hg Hb] Hk]. split; [done|]. intros x Hx. eapply wp_post; [|by apply IH, Hk].
  intros h' a [? He]. split; [done|]. by eapply extended_step.
Qed.

Lemma only_wp b {A} (p : proc A) R h : only b p → wp R any_command p h (λ h' _, extended b h h').
Proof.
  intros Hp. apply (wp_rely any_answer); [done|].
  eapply wp_post; [|apply (wp_extended b); eapply wp_mono; [| |apply Hp]]; [by intros ? ? [_ ?]| |].
  - by intros.
  - by intros.
Qed.

(** Commands that satisfy a guard in any history. *)
Lemma only_guard b {A} (p : proc A) R G h :
  only b p → (∀ h X (c : cmd X), b X c = true → G h X c) →
  wp R G p h (λ h' _, extended b h h').
Proof.
  intros Hp HG. apply (wp_rely any_answer); [done|].
  assert (wp any_answer (λ h X c, G h X c ∧ b X c = true) p h (λ _ _, True)) as Hwp.
  { eapply wp_mono; [|done|apply Hp]. auto. }
  eapply wp_post; [|apply (wp_extended b), Hwp]. by intros ? ? [_ ?].
Qed.

Section only.
Context (b : cmd_test).

Lemma only_ret {A} (a : A) : only b (Ret a).
Proof. by intros h. Qed.

Lemma only_bind {A B} (p : proc A) (f : A → proc B) :
  only b p → (∀ a, only b (f a)) → only b (bind p f).
Proof. intros Hp Hf h. rewrite wp_bind. eapply wp_post; [|apply Hp]. intros h' a _. apply Hf. Qed.

Lemma only_bind_res {E A B} (p : proc (result E A)) (f : A → proc (result E B)) :
  only b p → (∀ a, only b (f a)) → only b (bind_res p f).
Proof. intros Hp Hf. apply only_bind; [done|]. intros [a|e]; [apply Hf|apply only_ret]. Qed.

Lemma only_call {X} (c : cmd X) : b X c = true → only b (call c).
Proof. intros Hc h. apply wp_call. auto. Qed.

Lemma only_Call {X A} (c : cmd X) (k : X → proc A) :
  b X c = true → (∀ x, only b (k x)) → only b (Call c k).
Proof. intros Hc Hk h. split; [done|]. intros x _. apply Hk. Qed.

Lemma only_for_each {E A} (l : list A) (f : A → proc (result E unit)) :
  (∀ x, only b (f x)) → only b (for_each l f).
Proof.
  intros Hf. induction l as [|x l IH]; simpl; [apply only_ret|]. apply only_bind_res; auto.
Qed.

Lemma only_defer {A} (cl : proc unit) (p : proc A) : only b cl → only b p → only b (defer cl p).
Proof. intros Hcl Hp. unfold defer. repeat (apply only_bind; [done|intros]). apply only_ret. Qed.
End only.

(** Commands that hold in any resources: nothing is acquired, and no workload or
    Service is written. *)
Definition unguarded : cmd_test := λ X c,
  plain c &&
  match c with
  | KCreate k _ _ | KUpdate k _ _ | KDelete k _ _ _ =>
      negb (bool_decide (k ∈ [KDeployment; KJob; KService]))
  | _ => true
  end.

Lemma only_neutral {A} (p : proc A) st : only unguarded p → neutral st p.
Proof.
  intros Hp h Hh. specialize (Hp h). revert h Hh Hp.
  induction p as [a|X c k IH]; intros h Hh; simpl; [done|]. intros [Hc Hk].
  apply andb_true_iff in Hc as [Hpl Hw]. split.
  - unfold disciplined. rewrite Hh. destruct c; try done; by destruct k0.
  - intros x Hx. apply IH; [|by apply Hk]. cbn [acquired]. rewrite Hh. cbn. by apply plain_effect.
Qed.

Create HintDb only.
Ltac only_step :=
  match goal with
  | |- ∀ _, _ => intro
  | |- only _ (match ?x with _ => _ end) => destruct x
  | |- only _ (bind_res _ _) => apply only_bind_res
  | |- only _ (bind _ _) => apply only_bind
  | |- only _ (for_each _ _) => apply only_for_each
  | |- only _ (defer _ _) => apply only_defer
  | |- only _ (Ret _) => apply only_ret
  | |- only _ (call _) => apply only_call; reflexivity
  | |- only _ (Call _ _) => apply only_Call; [reflexivity|]
  | |- only _ (let _ := _ in _) => cbv zeta
  | |- _ => solve [eauto with only]
  end.
Ltac only_auto := repeat only_step.

(** No workload is created. *)
Definition no_create : cmd_test := λ X c,
  match c with KCreate KDeployment _ _ | KCreate KJob _ _ => false | _ => true end.

Lemma only_mono (b b' : cmd_test) {A} (p : proc A) :
  (∀ X (c : cmd X), b X c = true → b' X c = true) → only b p → only b' p.
Proof. intros Hb Hp h. eapply wp_mono; [|done|apply Hp]. intros ? ? ?. apply Hb. Qed.

Lemma unguarded_no_create {A} (p : proc A) : only unguarded p → only no_create p.
Proof. apply only_mono. intros X c. destruct c; try done. by destruct k. Qed.
