(* ===== verification/Workload.v ===== *)
(** * Workload: [core/translator/container_workload.go], [container_lock.go] and
      the updates of [container_lifecycle.go]

    The Kubernetes object behind a Docker container: finding it by name or
    identifier, reading it again, locking it, changing it under optimistic
    concurrency, deleting it and listing its Pods. *)

From S2P Require Import Prelude GoStrings Errors Prog Validation PodMeta Docker.
From S2P Require Export Kube Cluster Discipline.

Local Open Scope string_scope.

Definition containerNameAnnotation : string := "dink.io/docker-name".
Definition containerConfigAnnotation : string := "dink.io/docker-config".
Definition containerHostConfigAnnotation : string := "dink.io/docker-host-config".
Definition containerSignalExitCodeAnnotation : string := "dink.io/signal-exit-code".
Definition swarmKindLabel : string := "dink.io/swarm".

(** The identity in the context of a request, if any ([identity.FromContext]). *)
Abbreviation context := (option Identity).
Abbreviation id_namespace := Identity.Namespace.

Record containerWorkload := {
  wl_meta :> ObjectMeta;
  OneShot : bool;
  Template : PodTemplateSpec;
  Started : bool;
  Finished : bool
}.

Definition deploymentWorkload (deployment : Deployment) : containerWorkload := {|
  wl_meta := dep_meta deployment;
  OneShot := false;
  Template := dep_Template deployment;
  Started := match Replicas deployment with None => true | Some n => (0 <? n)%Z end;
  Finished := false
|}.

Definition jobWorkload (job : Job) : containerWorkload := {|
  wl_meta := job_meta job;
  OneShot := true;
  Template := job_Template job;
  Started := match Suspend job with Some true => false | _ => true end &&
             match DeletionTimestamp job with None => true | Some _ => false end;
  Finished := existsb (λ '(type, status),
                (bool_decide (type = "Complete") || bool_decide (type = "Failed")) &&
                bool_decide (status = "True")) (Conditions job)
|}.

Definition ownerReference (w : containerWorkload) : OwnerReference := {|
  or_APIVersion := if OneShot w then "batch/v1" else "apps/v1";
  or_Kind := if OneShot w then "Job" else "Deployment";
  or_Name := Name w;
  or_UID := UID w;
  or_Controller := Some true
|}.

Definition dockerName (w : containerWorkload) : string :=
  let name := mget (Annotations w) containerNameAnnotation in
  if decide (name = "") then Name w else name.

Definition isContainerDeployment (deployment : Deployment) : bool :=
  bool_decide (mget (Labels deployment) swarmKindLabel = "").

Definition isContainerJob (job : Job) : bool :=
  bool_decide (mget (Annotations job) containerConfigAnnotation ≠ "").

(** The two loops of [listWorkloads]. *)
Definition workloads_of (deployments : list Deployment) (jobs : list Job) :
    list containerWorkload :=
  ((deploymentWorkload <$> filter (λ d, isContainerDeployment d = true) deployments) ++
   (jobWorkload <$> filter (λ j, isContainerJob j = true) jobs))%list.

Definition listWorkloads (namespace : string) : proc (res (list containerWorkload)) :=
  do deployments <- call (KList KDeployment namespace "");
  match deployments with
  | Err e => Ret (Err (kubeError e))
  | Ok deployments =>
      do jobs <- call (KList KJob namespace "");
      match jobs with
      | Err e => Ret (Err (kubeError e))
      | Ok jobs =>
          Ret (Ok (workloads_of deployments jobs))
      end
  end.

(** The loops of [findContainer]: the only workload that [matches], or a conflict. *)
Fixpoint unique_match {A} (matches : A → bool) (ambiguous : error) (found : option A)
    (items : list A) : res (option A) :=
  match items with
  | [] => Ok found
  | w :: items =>
      if matches w then
        match found with
        | Some _ => Err ambiguous
        | None => unique_match matches ambiguous (Some w) items
        end
      else unique_match matches ambiguous found items
  end.

Definition search_workloads (nameOrID : string) (workloads : list containerWorkload) :
    res containerWorkload :=
  let? by_name := unique_match (λ w : containerWorkload, bool_decide (dockerName w = nameOrID))
                    (Conflict (errors_New "container name %s is ambiguous")) None workloads in
  match by_name with
  | Some w => Ok w
  | None =>
      let? by_id := unique_match (λ w : containerWorkload, let dockerID := DockerIDFromUID (UID w) in
                       negb (bool_decide (nameOrID = "") || bool_decide (dockerID = "") ||
                             negb (HasPrefix dockerID nameOrID)))
                      (Conflict (errors_New "container ID %s is ambiguous")) None workloads in
      match by_id with
      | Some w => Ok w
      | None => Err (NotFound (errors_New "container %s not found"))
      end
  end.

Section with_validation.
Context `{Validation}.

Definition findContainer (ctx : context) (nameOrID : string) : proc (res containerWorkload) :=
  match ctx with
  | None => Ret (Err (Unauthenticated (errors_New "missing identity in context")))
  | Some id =>
      let namespace := id_namespace id in
      if decide (nameOrID = "")
      then Ret (Err (InvalidArgument (errors_New "container name or ID is required")))
      else
        let nameOrID := TrimPrefix nameOrID "/" in
        let search :=
          do? workloads <- listWorkloads namespace; Ret (search_workloads nameOrID workloads) in
        if no_problems (IsDNS1123Subdomain nameOrID) then
          let try_job :=
            do job <- call (KGet KJob namespace nameOrID);
            match job with
            | Ok job => if isContainerJob job && bool_decide (dockerName (jobWorkload job) = nameOrID)
                        then Ret (Ok (jobWorkload job)) else search
            | Err e => if negb (IsNotFound e) then Ret (Err (kubeError e)) else search
            end in
          do deployment <- call (KGet KDeployment namespace nameOrID);
          match deployment with
          | Ok deployment =>
              if isContainerDeployment deployment &&
                 bool_decide (dockerName (deploymentWorkload deployment) = nameOrID)
              then Ret (Ok (deploymentWorkload deployment)) else try_job
          | Err e => if negb (IsNotFound e) then Ret (Err (kubeError e)) else try_job
          end
        else search
  end.

(** ** The operation lock *)

(** [fmt.Sprintf("%s/%t/%s/%s", ...)] *)
Definition lock_key (w : containerWorkload) : string :=
  Namespace w +:+ "/" +:+ (if OneShot w then "true" else "false") +:+ "/" +:+
  Name w +:+ "/" +:+ UID w.

(** The identity that [lockContainer] compares. *)
Definition same_workload (a b : containerWorkload) : bool :=
  bool_decide (Namespace a = Namespace b) && bool_decide (Name a = Name b) &&
  bool_decide (UID a = UID b) && Bool.eqb (OneShot a) (OneShot b).

Definition unlock (key : string) : proc unit :=
  do _ <- call (ReturnToken key); do _ <- call (ReleaseUser key); Ret tt.

(** Returns the current workload and the key its [unlock] is for. *)
Definition lockContainer (ctx : context) (name : string) :
    proc (res (containerWorkload * string)) :=
  do? workload <- findContainer ctx name;
  let key := lock_key workload in
  do _ <- call (RegisterUser key);
  do token <- call (TakeToken key);
  match token with
  | Err e => do _ <- call (ReleaseUser key); Ret (Err e)
  | Ok _ =>
      do current <- findContainer ctx name;
      match current with
      | Err e => do _ <- unlock key; Ret (Err e)
      | Ok current =>
          if negb (same_workload current workload)
          then do _ <- unlock key; Ret (Err (NotFound (errors_New "container %s no longer exists")))
          else Ret (Ok (current, key))
      end
  end.

(** [workload, unlock, err := d.lockContainer(ctx, name); ...; defer unlock()] *)
Definition with_container {A} (ctx : context) (name : string)
    (body : containerWorkload → proc (res A)) : proc (res A) :=
  do locked <- lockContainer ctx name;
  match locked with
  | Err e => Ret (Err e)
  | Ok (workload, key) => defer (unlock key) (body workload)
  end.
End with_validation.

(** ** Reading, deleting and listing *)

Definition not_found_status : error := StatusError ReasonNotFound.

Definition refreshWorkload (w : containerWorkload) : proc (res containerWorkload) :=
  do? current <- (if OneShot w
                  then do? job <- call (KGet KJob (Namespace w) (Name w)); Ret (Ok (jobWorkload job))
                  else do? deployment <- call (KGet KDeployment (Namespace w) (Name w));
                       Ret (Ok (deploymentWorkload deployment)));
  if decide (UID current ≠ UID w) then Ret (Err not_found_status) else Ret (Ok current).

(** [if err != nil && !apierrors.IsNotFound(err) { return kubeError(err) }; return nil] *)
Definition ignore_not_found (r : res unit) : res unit :=
  match r with
  | Ok _ => Ok tt
  | Err e => if IsNotFound e then Ok tt else Err (kubeError e)
  end.

Definition deleteWorkload (w : containerWorkload) (force : bool) : proc (res unit) :=
  match DeletionTimestamp w with
  | Some _ => Ret (Ok tt)
  | None =>
      let options := {|
        Precondition_UID := Some (UID w);
        Precondition_ResourceVersion := None;
        GracePeriodSeconds := if force then Some 0%Z else None;
        PropagationPolicy := if OneShot w then Some "Background" else None |} in
      do r <- (if OneShot w then call (KDelete KJob (Namespace w) (Name w) options)
               else call (KDelete KDeployment (Namespace w) (Name w) options));
      Ret (ignore_not_found r)
  end.

(** The loop over the owners of one Pod: whether the workload owns it. *)
Fixpoint pod_owned_by (w : containerWorkload) (owners : list OwnerReference) : proc (res bool) :=
  match owners with
  | [] => Ret (Ok false)
  | owner :: owners =>
      if OneShot w then
        if bool_decide (or_Kind owner = "Job") && bool_decide (or_UID owner = UID w)
        then Ret (Ok true) else pod_owned_by w owners
      else if negb (bool_decide (or_Kind owner = "ReplicaSet")) then pod_owned_by w owners
      else
        do replicaSet <- call (KGet KReplicaSet (Namespace w) (or_Name owner));
        match replicaSet with
        | Err e => if IsNotFound e then pod_owned_by w owners else Ret (Err (kubeError e))
        | Ok replicaSet =>
            if negb (bool_decide (UID (rs_meta replicaSet) = or_UID owner)) then pod_owned_by w owners
            else Ret (Ok (existsb (λ parent, bool_decide (or_Kind parent = "Deployment") &&
                                            bool_decide (or_UID parent = UID w))
                            (OwnerReferences (rs_meta replicaSet))))
        end
  end.

Fixpoint owned_pods (w : containerWorkload) (pods : list Pod) : proc (res (list Pod)) :=
  match pods with
  | [] => Ret (Ok [])
  | pod :: pods =>
      do? owned <-
        match DeletionTimestamp pod with
        | Some _ => Ret (Ok false)
        | None =>
            match OwnerReferences pod with
            | [] => Ret (Ok ((CreationTimestamp w =? 0) && (CreationTimestamp pod =? 0))%Z)
            | owners => pod_owned_by w owners
            end
        end;
      do? rest <- owned_pods w pods;
      Ret (Ok (if owned : bool then pod :: rest else rest))
  end.

Definition app_selector (w : containerWorkload) : string := "app=" +:+ Name w.

Definition containerPods (w : containerWorkload) : proc (res (list Pod)) :=
  do pods <- call (KList KPod (Namespace w) (app_selector w));
  match pods with
  | Err e => Ret (Err (kubeError e))
  | Ok pods => owned_pods w pods
  end.

Definition containerMetadata `{DockerJSON} (w : containerWorkload) : res (Config * HostConfig) :=
  let value := mget (Annotations w) containerConfigAnnotation in
  let? config := (if decide (value = "") then Ok empty_config
                  else match Unmarshal_Config value with
                       | Some c => Ok c
                       | None => Err (errors_New "decoding container config for %s: %w")
                       end) in
  let value := mget (Annotations w) containerHostConfigAnnotation in
  let? hostConfig := (if decide (value = "") then Ok empty_host_config
                      else match Unmarshal_HostConfig value with
                           | Some c => Ok c
                           | None => Err (errors_New "decoding host config for %s: %w")
                           end) in
  Ok (config, hostConfig).

(** ** Updates under optimistic concurrency *)

(** [retry.RetryOnConflict] with the default backoff. *)
Class Retry := { RetryOnConflict : ∀ A, proc (res A) → proc (res A) }.

(** It runs its function at least once, again only after a conflict, and returns
    what the last run returned. *)
Class RetryLaws `{Retry} := {
  RetryOnConflict_wp A R G (p : proc (res A)) h (I : hist → Prop) (Q : hist → res A → Prop) :
    I h →
    (∀ h, I h → wp R G p h (λ h r, Q h r ∧
       match r with Err e => IsConflict e = true → I h | Ok _ => True end)) →
    wp R G (RetryOnConflict A p) h Q
}.

Section updates.
Context `{Retry}.

(** Whether a mutation changed the Pod template: then the strategy is reset. *)
Definition recreate_if_changed (before after : Deployment) : Deployment :=
  if decide (dep_Template before = dep_Template after) then after
  else dep_set_strategy Recreate after.

Definition update_deployment_once (original : containerWorkload)
    (mutate : Deployment → res Deployment) : proc (res Deployment) :=
  do? current <- call (KGet KDeployment (Namespace original) (Name original));
  if decide (UID (dep_meta current) ≠ UID original) then Ret (Err not_found_status)
  else match mutate current with
       | Err e => Ret (Err e)
       | Ok mutated =>
           call (KUpdate KDeployment (Namespace (dep_meta current)) (recreate_if_changed current mutated))
       end.

Definition updateContainerDeployment (original : containerWorkload)
    (mutate : Deployment → res Deployment) : proc (res Deployment) :=
  do r <- RetryOnConflict _ (update_deployment_once original mutate); Ret (kube_result r).

Definition update_job_once (original : containerWorkload) (mutate : Job → res Job) :
    proc (res Job) :=
  do? current <- call (KGet KJob (Namespace original) (Name original));
  if decide (UID (job_meta current) ≠ UID original) then Ret (Err not_found_status)
  else match mutate current with
       | Err e => Ret (Err e)
       | Ok mutated => call (KUpdate KJob (Namespace (job_meta current)) mutated)
       end.

Definition updateContainerJob (original : containerWorkload) (mutate : Job → res Job) :
    proc (res unit) :=
  do r <- RetryOnConflict _ (update_job_once original mutate);
  Ret (kube_result (result_map (λ _, tt) r)).
End updates.

(** An instance of the retry law: at most [n + 1] runs. *)
Fixpoint retry_fuel (n : nat) {A} (p : proc (res A)) : proc (res A) :=
  do r <- p;
  match r, n with
  | Err e, S n => if IsConflict e then retry_fuel n p else Ret (Err e)
  | r, _ => Ret r
  end.

Definition demo_retry : Retry := {| RetryOnConflict A := retry_fuel 4 |}.

Lemma retry_fuel_wp n A R G (p : proc (res A)) h (I : hist → Prop) (Q : hist → res A → Prop) :
  I h →
  (∀ h, I h → wp R G p h (λ h r, Q h r ∧
     match r with Err e => IsConflict e = true → I h | Ok _ => True end)) →
  wp R G (retry_fuel n p) h Q.
Proof.
  intros HI Hp. revert h HI. induction n as [|n IH]; intros h HI; simpl; rewrite wp_bind;
    (eapply wp_post; [|by apply Hp]); intros h' [a|e] [HQ Hr]; simpl; try done.
  destruct (IsConflict e); [|done]. by apply IH, Hr.
Qed.

Lemma demo_retry_laws : @RetryLaws demo_retry.
Proof. split. apply retry_fuel_wp. Qed.

(** ** The discipline of these methods *)

Section neutral.
Context `{Validation}.

Lemma neutral_listWorkloads st ns : neutral st (listWorkloads ns).
Proof. unfold listWorkloads. neutral_auto. Qed.
#[local] Hint Resolve neutral_listWorkloads : neutral.

Lemma neutral_findContainer st ctx name : neutral st (findContainer ctx name).
Proof. unfold findContainer. destruct ctx; neutral_auto. Qed.

Lemma neutral_refreshWorkload st w : neutral st (refreshWorkload w).
Proof. unfold refreshWorkload. neutral_auto. Qed.

Lemma neutral_pod_owned_by st w owners : neutral st (pod_owned_by w owners).
Proof. induction owners as [|o owners IH]; simpl; neutral_auto. Qed.
#[local] Hint Resolve neutral_pod_owned_by : neutral.

Lemma neutral_owned_pods st w pods : neutral st (owned_pods w pods).
Proof. induction pods as [|pod pods IH]; simpl; neutral_auto. Qed.
#[local] Hint Resolve neutral_owned_pods : neutral.

Lemma neutral_containerPods st w : neutral st (containerPods w).
Proof. unfold containerPods. neutral_auto. Qed.

Lemma neutral_deleteWorkload st w force :
  may_write st KDeployment = true → neutral st (deleteWorkload w force).
Proof.
  intros Hst. unfold deleteWorkload. destruct (DeletionTimestamp w); [apply neutral_ret|].
  apply neutral_bind; [|neutral_auto].
  destruct (OneShot w); by apply neutral_call.
Qed.

Context `{RetryLaws}.

Lemma neutral_retry st {A} (p : proc (res A)) :
  neutral st p → neutral st (RetryOnConflict A p).
Proof.
  intros Hp h Hh. apply (RetryOnConflict_wp _ _ _ _ _ (λ h, acquired h = Some st)); [done|].
  intros h' Hh'. eapply wp_post; [|by apply Hp]. intros h2 r H2. split; [done|].
  by destruct r.
Qed.

Lemma neutral_updateContainerDeployment st w mutate :
  may_write st KDeployment = true → neutral st (updateContainerDeployment w mutate).
Proof.
  intros Hst. apply neutral_bind; [|neutral_auto]. apply neutral_retry.
  unfold update_deployment_once. apply neutral_bind_res; [neutral_auto|]. intros current.
  destruct (decide _); [neutral_auto|]. destruct (mutate current); [|neutral_auto].
  by apply neutral_call.
Qed.

Lemma neutral_updateContainerJob st w mutate :
  may_write st KDeployment = true → neutral st (updateContainerJob w mutate).
Proof.
  intros Hst. apply neutral_bind; [|neutral_auto]. apply neutral_retry.
  unfold update_job_once. apply neutral_bind_res; [neutral_auto|]. intros current.
  destruct (decide _); [neutral_auto|]. destruct (mutate current); [|neutral_auto].
  by apply neutral_call.
Qed.

(** The lock and its release, with what happens while it is held. *)
Lemma neutral_unlock st key h :
  acquired h = Some (Token key :: Use key :: st) →
  wp any_answer disciplined (unlock key) h (λ h' _, acquired h' = Some st).
Proof.
  intros Hh. unfold unlock. rewrite wp_bind. eapply wp_post; [|apply (wp_effect (Token key :: Use key :: st) (Use key :: st));
    [exact Hh|cbn; by rewrite bool_decide_true|intros; apply pop_top]].
  intros h1 ? Hh1. rewrite wp_bind. eapply wp_post; [|apply (wp_effect (Use key :: st) st);
    [exact Hh1|cbn; by rewrite bool_decide_true|intros; apply pop_top]].
  done.
Qed.

Lemma lockContainer_spec st ctx name h :
  existsb is_mutex st = false → acquired h = Some st →
  wp any_answer disciplined (lockContainer ctx name) h (λ h' r,
    match r with
    | Ok (w, key) => acquired h' = Some (Token key :: Use key :: st)
    | Err _ => acquired h' = Some st
    end).
Proof.
  intros Hst Hh. unfold lockContainer. rewrite wp_bind_res.
  eapply wp_post; [|by apply neutral_findContainer]. intros h1 [w|e] Hh1; [|done].
  set (key := lock_key w).
  rewrite wp_bind, wp_call. split; [unfold disciplined; rewrite Hh1; cbn; by rewrite Hst|].
  intros [] _. rewrite wp_bind, wp_call.
  split; [unfold disciplined; cbn; rewrite Hh1; cbn; by rewrite Hst|].
  intros [u|e] _.
  2: { rewrite wp_bind. eapply wp_post; [|apply (wp_effect (Use key :: st) st);
         [cbn; by rewrite Hh1|cbn; by rewrite bool_decide_true|intros; apply pop_top]]. done. }
  rewrite wp_bind. eapply wp_post; [|apply (neutral_findContainer (Token key :: Use key :: st));
    cbn; rewrite Hh1; done].
  intros h2 [current|e] Hh2.
  - destruct (negb (same_workload current w)); [|done]. rewrite wp_bind.
    eapply wp_post; [|by apply (neutral_unlock st)]. by intros h3 ? Hh3.
  - rewrite wp_bind. eapply wp_post; [|by apply (neutral_unlock st)]. by intros h3 ? Hh3.
Qed.

Lemma neutral_with_container st ctx name {A} (body : containerWorkload → proc (res A)) :
  existsb is_mutex st = false →
  (∀ w key, neutral (Token key :: Use key :: st) (body w)) →
  neutral st (with_container ctx name body).
Proof.
  intros Hst Hbody h Hh. unfold with_container. rewrite wp_bind.
  eapply wp_post; [|by apply (lockContainer_spec st)]. intros h1 [[w key]|e] Hh1; [|done].
  rewrite wp_defer. eapply wp_post; [|by apply Hbody]. intros h2 a Hh2.
  eapply wp_post; [|by apply (neutral_unlock st)]. done.
Qed.
End neutral.

#[export] Hint Resolve neutral_listWorkloads neutral_findContainer neutral_refreshWorkload
  neutral_containerPods neutral_retry : neutral.
#[export] Hint Extern 1 (neutral _ (deleteWorkload _ _)) =>
  apply neutral_deleteWorkload; reflexivity : neutral.
#[export] Hint Extern 1 (neutral _ (updateContainerDeployment _ _)) =>
  apply neutral_updateContainerDeployment; reflexivity : neutral.
#[export] Hint Extern 1 (neutral _ (updateContainerJob _ _)) =>
  apply neutral_updateContainerJob; reflexivity : neutral.

(** ** Properties: finding *)

Definition name_matches (n : string) (w : containerWorkload) : Prop := dockerName w = n.
Definition id_matches (n : string) (w : containerWorkload) : Prop :=
  n ≠ "" ∧ HasPrefix (DockerIDFromUID (UID w)) n = true.

#[export] Instance name_matches_dec n (w : containerWorkload) : Decision (name_matches n w).
Proof. unfold name_matches. apply _. Defined.
#[export] Instance id_matches_dec n (w : containerWorkload) : Decision (id_matches n w).
Proof. unfold id_matches. apply _. Defined.

Lemma unique_match_spec {A} (f : A → bool) (P : A → Prop)
    `{∀ w, Decision (P w)} ambiguous found l :
  (∀ w, f w = true ↔ P w) →
  unique_match f ambiguous found l =
    match found, filter P l with
    | None, [] => Ok None
    | None, [w] | Some w, [] => Ok (Some w)
    | _, _ => Err ambiguous
    end.
Proof.
  intros Hf. revert found. induction l as [|w l IH]; intros found; simpl; [by destruct found|].
  rewrite filter_cons. destruct (f w) eqn:E.
  - rewrite decide_True by (by apply Hf). destruct found; [done|]. rewrite IH.
    by destruct (filter P l).
  - rewrite decide_False by (by rewrite <- Hf, E). apply IH.
Qed.

Lemma id_test n (w : containerWorkload) :
  (let dockerID := DockerIDFromUID (UID w) in
   negb (bool_decide (n = "") || bool_decide (dockerID = "") || negb (HasPrefix dockerID n)))
    = true ↔ id_matches n w.
Proof.
  cbv zeta. unfold id_matches. rewrite negb_true_iff, !orb_false_iff, !bool_decide_eq_false,
    negb_false_iff. split; [tauto|]. intros [Hn Hp]. split_and!; try done.
  intros He. rewrite He in Hp. by destruct n.
Qed.

(** The search among all workloads: the only one of that name, else the only one
    whose identifier starts so. *)
Lemma search_workloads_spec n l :
  search_workloads n l =
    match filter (name_matches n) l with
    | [w] => Ok w
    | [] => match filter (id_matches n) l with
            | [w] => Ok w
            | [] => Err (NotFound (errors_New "container %s not found"))
            | _ => Err (Conflict (errors_New "container ID %s is ambiguous"))
            end
    | _ => Err (Conflict (errors_New "container name %s is ambiguous"))
    end.
Proof.
  unfold search_workloads.
  rewrite (unique_match_spec _ (name_matches n)) by (intros; apply bool_decide_eq_true).
  destruct (filter (name_matches n) l) as [|w [|w' l']]; simpl; try done.
  rewrite (unique_match_spec _ (id_matches n)) by (intros; apply id_test).
  by destruct (filter (id_matches n) l) as [|w [|w' l']].
Qed.

(** The commands that only read objects of one namespace. *)
Definition reads_in (ns : string) : guard (cmd := cmd) := λ _ X c,
  match c with
  | KGet _ ns' _ | KList _ ns' _ => ns' = ns
  | _ => False
  end.

(** What identifies a container by the text a client gave. *)
Definition found_by (nameOrID : string) (w : containerWorkload) : Prop :=
  let n := TrimPrefix nameOrID "/" in name_matches n w ∨ id_matches n w.

Section finding.
Context `{Validation}.

Lemma listWorkloads_wp ns h :
  wp api_rely (reads_in ns) (listWorkloads ns) h (λ _ r,
    match r with
    | Ok l => ∃ ds js, l = workloads_of ds js ∧
        (∀ d, d ∈ ds → Namespace (dep_meta d) = ns) ∧
        (∀ j, j ∈ js → Namespace (job_meta j) = ns)
    | Err _ => True
    end).
Proof.
  unfold listWorkloads. rewrite wp_bind, wp_call. split; [done|].
  intros [ds|e] Hds; [|done]. rewrite wp_bind, wp_call. split; [done|].
  intros [js|e] Hjs; [|done]. exists ds, js. split_and!; [done|exact Hds|exact Hjs].
Qed.

Lemma workloads_of_namespace ns ds js (w : containerWorkload) :
  (∀ d, d ∈ ds → Namespace (dep_meta d) = ns) →
  (∀ j, j ∈ js → Namespace (job_meta j) = ns) →
  w ∈ workloads_of ds js → Namespace w = ns.
Proof.
  intros Hd Hj. unfold workloads_of. rewrite elem_of_app, !list_elem_of_fmap.
  intros [(d & -> & [_ Hin]%list_elem_of_filter)|(j & -> & [_ Hin]%list_elem_of_filter)];
    simpl; auto.
Qed.

Lemma search_workloads_in n l w :
  search_workloads n l = Ok w → w ∈ l ∧ (name_matches n w ∨ id_matches n w).
Proof.
  rewrite search_workloads_spec.
  destruct (filter (name_matches n) l) as [|w1 [|]] eqn:E1; try done.
  - destruct (filter (id_matches n) l) as [|w2 [|]] eqn:E2; try done. intros [= <-].
    assert (w2 ∈ filter (id_matches n) l) as Hin by (rewrite E2; set_solver).
    apply list_elem_of_filter in Hin as [? ?]. auto.
  - intros [= <-]. assert (w1 ∈ filter (name_matches n) l) as Hin by (rewrite E1; set_solver).
    apply list_elem_of_filter in Hin as [? ?]. auto.
Qed.

Lemma findContainer_wp id name h :
  let ns := id_namespace id in
  wp api_rely (reads_in ns) (findContainer (Some id) name) h (λ _ r,
    match r with
    | Ok w => name ≠ "" ∧ Namespace w = ns ∧ found_by name w
    | Err _ => True
    end).
Proof.
  intros ns. unfold findContainer. cbv zeta. fold ns.
  destruct (decide (name = "")) as [->|Hne]; [done|].
  set (n := TrimPrefix name "/").
  set (search := (do? workloads <- listWorkloads ns; Ret (search_workloads n workloads))).
  set (Q := λ (_ : hist) (r : res containerWorkload), match r with
             | Ok w => name ≠ "" ∧ Namespace w = ns ∧ found_by name w | Err _ => True end).
  assert (∀ h, wp api_rely (reads_in ns) search h Q) as Hsearch.
  { intros h'. unfold search. rewrite wp_bind_res. eapply wp_post; [|apply listWorkloads_wp].
    intros h2 [l|e]; [|done]. intros (ds & js & -> & Hd & Hj). rewrite wp_ret. unfold Q.
    destruct (search_workloads n _) as [w|e] eqn:E; [|done].
    apply search_workloads_in in E as [Hin Hm].
    split_and!; [done|by eapply workloads_of_namespace|exact Hm]. }
  destruct (no_problems _); [|apply Hsearch].
  rewrite wp_bind, wp_call. split; [done|].
  assert (∀ h, wp api_rely (reads_in ns) (do job <- call (KGet KJob ns n);
            match job with
            | Ok job => if isContainerJob job && bool_decide (dockerName (jobWorkload job) = n)
                        then Ret (Ok (jobWorkload job)) else search
            | Err e => if negb (IsNotFound e) then Ret (Err (kubeError e)) else search
            end) h Q) as Hjob.
  { intros h'. rewrite wp_bind, wp_call. split; [done|]. intros [j|e] Hj.
    - destruct (_ && _) eqn:E; [|apply Hsearch]. rewrite wp_ret.
      apply andb_true_iff in E as [_ E%bool_decide_eq_true].
      destruct Hj as [_ Hns]. split_and!; [done|exact Hns|by left].
    - by destruct (negb _); [|apply Hsearch]. }
  intros [d|e] Hd.
  - destruct (_ && _) eqn:E; [|apply Hjob]. rewrite wp_ret.
    apply andb_true_iff in E as [_ E%bool_decide_eq_true].
    destruct Hd as [_ Hns]. split_and!; [done|exact Hns|by left].
  - by destruct (negb _); [|apply Hjob].
Qed.

(** finding a container stays within the tenant and finds what was asked
    for.  It only reads, and only objects of the namespace of the request's
    identity; a container it returns is in that namespace and has the requested
    Docker name, or an identifier that starts with the requested text.  Without
    an identity or a name it fails without a request. *)
Theorem findContainer_isolated ctx name h h' r :
  exec (findContainer ctx name) h h' r → answered api_rely h h' →
  match ctx with
  | Some id =>
      guarded (reads_in (id_namespace id)) h h' ∧
      match r with
      | Ok w => name ≠ "" ∧ Namespace w = id_namespace id ∧ found_by name w
      | Err _ => True
      end
  | None => h' = h ∧ ∃ e, r = Err e ∧ kind_of e = Some KindUnauthenticated
  end.
Proof.
  intros Hex Hans. destruct ctx as [id|].
  - by destruct (wp_exec _ _ _ _ _ _ _ (findContainer_wp id name h) Hex Hans).
  - apply exec_inv in Hex as [-> ->]. split; [done|]. eexists. split; [done|]. done.
Qed.
End finding.

Definition acme_identity : Identity := {|
  Identity.Namespace := "acme"; Organization := "Acme"; CommonName := "ann"; Anonymous := false |}.

(** The identifier prefix [3f25] finds the container [web]. *)
Lemma findContainer_isolated_witness :
  let p := @findContainer demo_validation (Some acme_identity) "3f25" in
  ∃ w, (simulate p sample_cluster).1.1 = Ok w ∧ Namespace w = "acme" ∧ found_by "3f25" w.
Proof.
  intros p.
  pose proof (@findContainer_isolated demo_validation (Some acme_identity) "3f25" _ _ _
    (simulate_exec p sample_cluster) (simulate_answered p sample_cluster)) as [_ H].
  fold p in H.
  assert ((simulate p sample_cluster).1.1 =
          Ok (deploymentWorkload (sample_deployment "acme" "web" "3f25-04e0" 1))) as Hr
    by (vm_compute; reflexivity).
  rewrite Hr in H. eexists. split; [exact Hr|]. exact (proj2 H).
Defined.

(** ** Properties: updating *)

(** The commands of an update: a read of the object, or a write that directly
    follows a read that gave the same object, and writes what the mutation makes
    of it. *)
Definition updates_deployment (original : containerWorkload) (mutate : Deployment → res Deployment) :
    guard (cmd := cmd) := λ h X c,
  match c with
  | KGet k ns name => k = KDeployment ∧ ns = Namespace original ∧ name = Name original
  | KUpdate k ns o =>
      match k return obj k → Prop with
      | KDeployment => λ o, ∃ h0 current mutated,
          h = Event _ (KGet KDeployment (Namespace original) (Name original)) (Ok current) :: h0 ∧
          UID (dep_meta current) = UID original ∧ ns = Namespace (dep_meta current) ∧
          mutate current = Ok mutated ∧ o = recreate_if_changed current mutated
      | _ => λ _, False
      end o
  | _ => False
  end.

Definition updates_job (original : containerWorkload) (mutate : Job → res Job) :
    guard (cmd := cmd) := λ h X c,
  match c with
  | KGet k ns name => k = KJob ∧ ns = Namespace original ∧ name = Name original
  | KUpdate k ns o =>
      match k return obj k → Prop with
      | KJob => λ o, ∃ h0 current,
          h = Event _ (KGet KJob (Namespace original) (Name original)) (Ok current) :: h0 ∧
          UID (job_meta current) = UID original ∧ ns = Namespace (job_meta current) ∧
          mutate current = Ok o
      | _ => λ _, False
      end o
  | _ => False
  end.

(** The latest event is a successful update of the kind. *)
Definition just_updated (k : kind) (d : obj k) (h : hist) : Prop :=
  ∃ ns o h0, h = Event _ (KUpdate k ns o) (Ok d) :: h0.

Section updating.
Context `{RetryLaws}.

Lemma updateContainerDeployment_wp original mutate h :
  wp any_answer (updates_deployment original mutate)
    (updateContainerDeployment original mutate) h (λ h' r,
      match r with Ok d => just_updated KDeployment d h' | Err _ => True end).
Proof.
  unfold updateContainerDeployment. rewrite wp_bind.
  apply (RetryOnConflict_wp _ _ _ _ _ (λ _, True)); [done|]. intros h0 _.
  unfold update_deployment_once. rewrite wp_bind_res, wp_call. split; [done|].
  intros [current|e] _; [|by rewrite wp_ret].
  destruct (decide _) as [Hne|He]; [by rewrite !wp_ret|]. apply dec_stable in He.
  destruct (mutate current) as [mutated|e] eqn:Em; [|by rewrite !wp_ret].
  rewrite wp_call. split; [by exists h0, current, mutated|].
  intros [d|e] _; rewrite wp_ret; simpl; [|done]. split; [|done]. by eexists _, _, _.
Qed.

Lemma updateContainerJob_wp original mutate h :
  wp any_answer (updates_job original mutate) (updateContainerJob original mutate) h (λ h' r,
    match r with Ok _ => ∃ j, just_updated KJob j h' | Err _ => True end).
Proof.
  unfold updateContainerJob. rewrite wp_bind.
  apply (RetryOnConflict_wp _ _ _ _ _ (λ _, True)); [done|]. intros h0 _.
  unfold update_job_once. rewrite wp_bind_res, wp_call. split; [done|].
  intros [current|e] _; [|by rewrite wp_ret].
  destruct (decide _) as [Hne|He]; [by rewrite !wp_ret|]. apply dec_stable in He.
  destruct (mutate current) as [mutated|e] eqn:Em; [|by rewrite !wp_ret].
  rewrite wp_call. split; [by exists h0, current|].
  intros [d|e] _; rewrite wp_ret; simpl; [|done]. split; [|done]. by eexists _, _, _, _.
Qed.

(** workload updates are safe read-modify-write cycles.  Every write of
    [updateContainerDeployment] and [updateContainerJob] directly follows a read
    of the same object that still has the UID of the container the update was
    asked for, and stores exactly the mutation of what was read (which carries
    its resource version), with the [Recreate] strategy whenever the Pod
    template changed; success is reported only when such a write succeeded. *)
Theorem workload_updates_are_safe original :
  (∀ mutate h h' r, exec (updateContainerDeployment original mutate) h h' r →
     guarded (updates_deployment original mutate) h h' ∧
     match r with Ok d => just_updated KDeployment d h' | Err _ => True end) ∧
  (∀ mutate h h' r, exec (updateContainerJob original mutate) h h' r →
     guarded (updates_job original mutate) h h' ∧
     match r with Ok _ => ∃ j, just_updated KJob j h' | Err _ => True end) ∧
  (∀ before after, dep_Template before ≠ dep_Template after →
     Strategy (recreate_if_changed before after) = Recreate).
Proof.
  split_and!.
  - intros mutate h h' r Hex.
    destruct (wp_exec _ _ _ _ _ _ _ (updateContainerDeployment_wp original mutate h) Hex); [|done].
    apply along_any; [done|]. by eapply exec_suffix.
  - intros mutate h h' r Hex.
    destruct (wp_exec _ _ _ _ _ _ _ (updateContainerJob_wp original mutate h) Hex); [|done].
    apply along_any; [done|]. by eapply exec_suffix.
  - intros before after Hne. unfold recreate_if_changed. by rewrite decide_False.
Qed.
End updating.

Lemma workload_updates_are_safe_witness :
  let w := deploymentWorkload (sample_deployment "acme" "web" "3f25-04e0" 1) in
  let p := @updateContainerDeployment demo_retry w (λ d, Ok (dep_set_replicas 0 d)) in
  ∃ d, (simulate p sample_cluster).1.1 = Ok d ∧
       just_updated KDeployment d (simulate p sample_cluster).1.2.
Proof.
  intros w p.
  pose proof (proj1 (@workload_updates_are_safe demo_retry demo_retry_laws w)
    (λ d, Ok (dep_set_replicas 0 d)) _ _ _ (simulate_exec p sample_cluster)) as [_ H].
  assert ((simulate p sample_cluster).1.1 =
    Ok (dep_set_replicas 0 (sample_deployment "acme" "web" "3f25-04e0" 1))) as Hr
    by (vm_compute; reflexivity).
  rewrite Hr in H. eexists. split; [exact Hr|exact H].
Defined.

(** ** Properties: the Pods of a container *)

(** How a Pod is seen to belong to the container. *)
Definition pod_owner_seen (w : containerWorkload) (h : hist) (pod : Pod) : Prop :=
  (OwnerReferences pod = [] ∧ CreationTimestamp w = 0%Z ∧ CreationTimestamp pod = 0%Z) ∨
  ∃ owner, owner ∈ OwnerReferences pod ∧
    if OneShot w then or_Kind owner = "Job" ∧ or_UID owner = UID w
    else or_Kind owner = "ReplicaSet" ∧
         ∃ rs parent, Event _ (KGet KReplicaSet (Namespace w) (or_Name owner)) (Ok rs) ∈ h ∧
           UID (rs_meta rs) = or_UID owner ∧ parent ∈ OwnerReferences (rs_meta rs) ∧
           or_Kind parent = "Deployment" ∧ or_UID parent = UID w.

Lemma pod_owner_seen_suffix w h h' pod :
  h `suffix_of` h' → pod_owner_seen w h pod → pod_owner_seen w h' pod.
Proof.
  intros [l ->] [Hn|(owner & Hin & Hk)]; [by left|right]. exists owner. split; [done|].
  destruct (OneShot w); [done|]. destruct Hk as (? & rs & parent & He & Hrest). split; [done|].
  exists rs, parent. split; [set_solver|done].
Qed.

Section pods.
Implicit Types w : containerWorkload.

(** What [owned_pods] and [containerPods] promise. *)
Definition pods_of w (pods : list Pod) (h : hist) (r : res (list Pod)) : Prop :=
  match r with
  | Ok owned => owned `sublist_of` pods ∧
      ∀ pod : Pod, pod ∈ owned → DeletionTimestamp pod = None ∧ pod_owner_seen w h pod
  | Err _ => True
  end.

Lemma pod_owned_by_wp w (pod : Pod) owners h :
  (∀ owner, owner ∈ owners → owner ∈ OwnerReferences pod) →
  wp any_answer (reads_in (Namespace w)) (pod_owned_by w owners) h (λ h' r,
    h `suffix_of` h' ∧ match r with Ok true => pod_owner_seen w h' pod | _ => True end).
Proof.
  revert h. induction owners as [|owner owners IH]; intros h Hin; cbn [pod_owned_by].
  { by rewrite wp_ret. }
  assert (∀ h, wp any_answer (reads_in (Namespace w)) (pod_owned_by w owners) h (λ h' r,
    h `suffix_of` h' ∧ match r with Ok true => pod_owner_seen w h' pod | _ => True end)) as Hnext.
  { intros h'. apply IH. set_solver. }
  destruct (OneShot w) eqn:Eo.
  - destruct (_ && _) eqn:E; [|apply Hnext]. rewrite wp_ret. split; [done|]. right.
    exists owner. split; [set_solver|]. rewrite Eo.
    apply andb_true_iff in E as [?%bool_decide_eq_true ?%bool_decide_eq_true]. done.
  - destruct (negb _) eqn:Ek; [apply Hnext|]. apply negb_false_iff, bool_decide_eq_true in Ek.
    rewrite wp_bind, wp_call. split; [done|].
    assert (∀ (e : event cmd), wp any_answer (reads_in (Namespace w)) (pod_owned_by w owners) (e :: h)
      (λ h' r, h `suffix_of` h' ∧ match r with Ok true => pod_owner_seen w h' pod | _ => True end))
      as Hnext'.
    { intros e. eapply wp_post; [|apply Hnext]. intros h' r [Hs Hr]. split; [|done].
      etrans; [|exact Hs]. by apply suffix_cons_r. }
    intros [rs|e] _; [|destruct (IsNotFound e); [apply Hnext'|by rewrite wp_ret; split;
      [apply suffix_cons_r|]]].
    destruct (bool_decide _) eqn:Eu; [|apply Hnext']. apply bool_decide_eq_true in Eu.
    simpl negb. cbv iota. rewrite wp_ret. split; [by apply suffix_cons_r|].
    destruct (existsb _ _) eqn:Ex; [|done]. right. exists owner. split; [set_solver|]. rewrite Eo.
    split; [done|]. apply existsb_true in Ex as (parent & Hp & Ep).
    apply andb_true_iff in Ep as [?%bool_decide_eq_true ?%bool_decide_eq_true].
    exists rs, parent. split_and!; try done. apply list_elem_of_here.
Qed.

Lemma owned_pods_wp w pods h :
  wp any_answer (reads_in (Namespace w)) (owned_pods w pods) h (λ h' r,
    h `suffix_of` h' ∧ pods_of w pods h' r).
Proof.
  revert h. induction pods as [|pod pods IH]; intros h; cbn [owned_pods].
  { rewrite wp_ret. split; [done|]. split; [done|]. set_solver. }
  rewrite wp_bind_res.
  eapply wp_post with (Q := λ h1 r, h `suffix_of` h1 ∧ match r with
    | Ok true => DeletionTimestamp pod = None ∧ pod_owner_seen w h1 pod | _ => True end).
  - intros h1 [owned|e] [Hs Hr]; [|done]. rewrite wp_bind_res. eapply wp_post; [|apply IH].
    intros h2 [rest|e] [Hs2 Hrest]; [|split; [by etrans|done]].
    destruct Hrest as [Hsub Hrest]. rewrite wp_ret. split; [by etrans|].
    destruct owned; (split; [by constructor|]); [|done].
    intros pod' [->|Hin]%elem_of_cons; [|by apply Hrest].
    split; [apply Hr|]. eapply pod_owner_seen_suffix; [done|apply Hr].
  - destruct (DeletionTimestamp pod) eqn:Ed; [by rewrite wp_ret|].
    destruct (OwnerReferences pod) as [|o os] eqn:Eo.
    + rewrite wp_ret. split; [done|]. destruct (_ && _) eqn:E; [|done].
      apply andb_true_iff in E as [?%Z.eqb_eq ?%Z.eqb_eq]. split; [done|]. by left.
    + eapply wp_post; [|apply (pod_owned_by_wp w pod); by rewrite Eo].
      intros h1 [[]|e] [Hs Hr]; by split.
Qed.

(** What [containerPods] promises of its answer. *)
Definition own_pods w (h : hist) (r : res (list Pod)) : Prop :=
  match r with
  | Ok owned => ∃ pods,
      Event _ (KList KPod (Namespace w) (app_selector w)) (Ok pods) ∈ h ∧
      owned `sublist_of` pods ∧
      ∀ pod : Pod, pod ∈ owned → DeletionTimestamp pod = None ∧ pod_owner_seen w h pod
  | Err _ => True
  end.

Lemma containerPods_wp w h :
  wp any_answer (reads_in (Namespace w)) (containerPods w) h (own_pods w).
Proof.
  unfold containerPods. rewrite wp_bind, wp_call. split; [done|].
  intros [pods|e] _; [|done]. eapply wp_post; [|apply owned_pods_wp].
  intros h2 [owned|e] [[l ->] Hr]; [|done]. exists pods. split; [set_solver|exact Hr].
Qed.

(** A container is only attributed its own Pods.  [containerPods] only reads,
    in the namespace of the container; the Pods it returns were listed, are not
    being deleted, and belong to the container by UID: to its Job, or to a
    ReplicaSet that was read, has the UID the Pod names and names the UID of the
    Deployment. *)
Theorem containerPods_owned w h h' r :
  exec (containerPods w) h h' r → guarded (reads_in (Namespace w)) h h' ∧ own_pods w h' r.
Proof.
  intros Hex. apply and_comm.
  refine (wp_exec _ _ _ _ _ _ _ (containerPods_wp w h) Hex _).
  apply along_any; [done|]. by eapply exec_suffix.
Qed.
End pods.

(** A Pod of the ReplicaSet of [web], and one of another container. *)
Definition sample_pod (name uid owner : string) : Pod := {|
  pod_meta := meta_set_owners [{| or_APIVersion := "apps/v1"; or_Kind := "ReplicaSet";
    or_Name := owner; or_UID := uid; or_Controller := Some true |}]
    {| Name := name; Namespace := "acme"; UID := name; ResourceVersion := "1"; Generation := 1;
       Labels := {["app" := "web"]}; Annotations := ∅; OwnerReferences := [];
       DeletionTimestamp := None; CreationTimestamp := 6 |};
  Phase := "Running"; ContainerStatuses := []; pod_Volumes := []; pod_Containers := [];
  NodeName := ""; PodIP := ""; StartTime := None; Pod_Message := ""; Pod_Reason := "" |}.

Definition pods_cluster : cluster :=
  set_db KReplicaSet [Build_ReplicaSet (meta_set_owners
      [ownerReference (deploymentWorkload (sample_deployment "acme" "web" "3f25-04e0" 1))]
      (sample_meta "acme" "web-1" "rs-1"))]
    (set_db KPod [sample_pod "a" "rs-1" "web-1"; sample_pod "b" "rs-0" "web-1"] sample_cluster).

Lemma containerPods_owned_witness :
  let w := deploymentWorkload (sample_deployment "acme" "web" "3f25-04e0" 1) in
  (simulate (containerPods w) pods_cluster).1.1 = Ok [sample_pod "a" "rs-1" "web-1"] ∧
  pod_owner_seen w (simulate (containerPods w) pods_cluster).1.2 (sample_pod "a" "rs-1" "web-1").
Proof.
  intros w.
  assert ((simulate (containerPods w) pods_cluster).1.1 = Ok [sample_pod "a" "rs-1" "web-1"]) as Hr
    by (vm_compute; reflexivity).
  split; [exact Hr|].
  destruct (containerPods_owned w _ _ _ (simulate_exec (containerPods w) pods_cluster)) as [_ H].
  rewrite Hr in H. destruct H as (pods & _ & _ & Hpods). apply Hpods, list_elem_of_here.
Defined.
