(* ===== verification/Net.v ===== *)
(** * Net: the addresses of Go's standard library that the program reads

    [netip.ParseAddr], [net.ParseIP], [net.SplitHostPort] and [strconv.Atoi], as
    executable definitions.  An address is represented by the text it was parsed
    from: the program asks whether there is one, or carries it along. *)

From S2P Require Import Prelude GoStrings.

Local Open Scope string_scope.

(** ** Numbers *)

(** The value of a decimal number after [acc]. *)
Fixpoint decimal (acc : Z) (s : string) : Z :=
  match s with
  | EmptyString => acc
  | String c s => decimal (acc * 10 + (Z.of_N (code c) - 48)) s
  end.

(** The sign of a number: whether it is negative, and the rest. *)
Definition cut_sign (s : string) : bool * string :=
  match s with
  | String c rest => if Ascii.eqb c "-" then (true, rest)
                     else if Ascii.eqb c "+" then (false, rest) else (false, s)
  | EmptyString => (false, s)
  end.

(** [strconv.Atoi] on a 64-bit machine: an optional sign and decimal digits. *)
Definition Atoi (s : string) : option Z :=
  let '(negative, digits) := cut_sign s in
  if negb (bool_decide (digits = "")) && all_chars is_digit digits then
    let v := (if negative then - decimal 0 digits else decimal 0 digits)%Z in
    if (int64_min <=? v)%Z && (v <=? int64_max)%Z then Some v else None
  else None.

(** ** Addresses *)

(** One field of a dotted address: at most 255, without a leading zero. *)
Definition ipv4_field (s : string) : bool :=
  negb (bool_decide (s = "")) && all_chars is_digit s && (len s <=? 3)%nat &&
  (decimal 0 s <=? 255)%Z && (bool_decide (len s = 1) || negb (HasPrefix s "0")).

Definition parseIPv4 (s : string) : bool :=
  let fields := Split s "." in bool_decide (length fields = 4) && forallb ipv4_field fields.

Definition is_hex_digit (c : ascii) : bool := is_hex c || in_range "A" "F" c.

(** The hexadecimal digits at the start, and the rest. *)
Fixpoint span_hex (s : string) : nat * string :=
  match s with
  | String c rest => if is_hex_digit c then let '(n, r) := span_hex rest in (S n, r) else (0, s)
  | EmptyString => (0, s)
  end.

(** The loop of [parseIPv6] from the byte [i], with at most [n] groups to come: where
    it stops, whether an ellipsis was seen, and what is left to read. *)
Fixpoint ipv6_groups (n i : nat) (ellipsis : bool) (s : string) : option (nat * bool * string) :=
  match n with
  | O => Some (i, ellipsis, s)
  | S n =>
      let '(off, rest) := span_hex s in
      if bool_decide (off = 0) || (4 <? off)%nat then None
      else match rest with
      | EmptyString => Some (i + 2, ellipsis, "")
      | String c after =>
          if Ascii.eqb c "." then
            if (negb ellipsis && negb (bool_decide (i = 12))) || (16 <? i + 4)%nat then None
            else if parseIPv4 s then Some (i + 4, ellipsis, "") else None
          else if negb (Ascii.eqb c ":") || bool_decide (after = "") then None
          else match after with
               | String ":" after' =>
                   if ellipsis then None
                   else if decide (after' = "") then Some (i + 2, true, "")
                   else ipv6_groups n (i + 2) true after'
               | _ => ipv6_groups n (i + 2) ellipsis after
               end
      end
  end.

(** An address without its zone: eight groups, or fewer around one ellipsis. *)
Definition parseIPv6 (s : string) : bool :=
  let '(leading, rest) := match CutPrefix s "::" with Some r => (true, r) | None => (false, s) end in
  if leading && bool_decide (rest = "") then true
  else match ipv6_groups 8 0 leading rest with
       | Some (i, ellipsis, rest) =>
           bool_decide (rest = "") &&
           (if (i <? 16)%nat then ellipsis else negb ellipsis)
       | None => false
       end.

(** The first of the characters that tell the kinds of addresses apart. *)
Fixpoint first_separator (s : string) : option ascii :=
  match s with
  | String c s => if has_char c ".:%" then Some c else first_separator s
  | EmptyString => None
  end.

(** [netip.ParseAddr]: whether there is an address; [zones] says whether it may have a zone. *)
Definition parse_addr (zones : bool) (s : string) : bool :=
  match first_separator s with
  | Some c =>
      if Ascii.eqb c "." then parseIPv4 s
      else if Ascii.eqb c ":" then
        let '(address, zone, zoned) := Cut s "%" in
        if zoned : bool then zones && negb (bool_decide (zone = "")) && parseIPv6 address
        else parseIPv6 s
      else false
  | None => false
  end.

Definition ParseAddr : string → bool := parse_addr true.
Definition ParseIP : string → bool := parse_addr false.

(** ** Hosts and ports *)

(** What is before and after the last occurrence of a character. *)
Definition cut_last (c : ascii) (s : string) : option (string * string) :=
  match Cut (String.rev s) (String c "") with
  | (after, before, true) => Some (String.rev before, String.rev after)
  | (_, _, false) => None
  end.

(** [net.SplitHostPort]; an error leaves both parts empty. *)
Definition SplitHostPort (hostport : string) : option (string * string) :=
  match cut_last ":" hostport with
  | None => None
  | Some (before, port) =>
      match hostport with
      | String "[" _ =>
          match Cut hostport "]" with
          | (bracketed, _, true) =>
              (* the first "]" is just before the last colon *)
              if bool_decide (before = bracketed +:+ "]") then
                let host := TrimPrefix bracketed "[" in
                if has_char "[" host || has_char "[" port || has_char "]" port then None
                else Some (host, port)
              else None
          | (_, _, false) => None
          end
      | _ =>
          if has_char ":" before || has_char "[" hostport || has_char "]" hostport then None
          else Some (before, port)
      end
  end.

(** ** Properties *)

Lemma has_char_rev c s : has_char c (String.rev s) = has_char c s.
Proof.
  induction s as [|d s IH]; [done|]. rewrite srev_cons, has_char_app, IH. simpl.
  by rewrite orb_false_r, orb_comm.
Qed.

Lemma cut_last_app c b a : has_char c a = false → cut_last c (b +:+ String c a) = Some (b, a).
Proof.
  intros Ha. unfold cut_last. rewrite srev_app, srev_cons, <- sapp_assoc.
  change (String c "" +:+ ?t) with (String c t). rewrite Cut_char by by rewrite has_char_rev.
  by rewrite !srev_involutive.
Qed.

Lemma cut_last_spec c s b a :
  cut_last c s = Some (b, a) ↔ s = b +:+ String c a ∧ has_char c a = false.
Proof.
  split; [|intros [-> Ha]; by apply cut_last_app].
  unfold cut_last. destruct (Cut (String.rev s) (String c "")) as [[x y] []] eqn:E; [|done].
  intros [= <- <-]. rewrite has_char_rev. split; [|by eapply Cut_char_before].
  apply Cut_true in E. by rewrite <- (srev_involutive s), E, !srev_app, <- sapp_assoc.
Qed.

(** A host without colons and brackets, joined with a port, is split again. *)
Lemma SplitHostPort_plain host port :
  (∀ c, c ∈ [":"; "["; "]"]%char → has_char c host = false ∧ has_char c port = false) →
  SplitHostPort (host +:+ ":" +:+ port) = Some (host, port).
Proof.
  intros Hc. destruct (Hc ":"%char) as [H1 H2]; [set_solver|].
  destruct (Hc "["%char) as [H3 H4]; [set_solver|]. destruct (Hc "]"%char) as [H5 H6]; [set_solver|].
  unfold SplitHostPort. change (":" +:+ port) with (String ":" port). rewrite cut_last_app by done.
  rewrite H1, !has_char_app. simpl. rewrite H3, H4, H5, H6.
  destruct host as [|c host]; [done|]. rewrite sapp_cons.
  simpl in H3. apply orb_false_iff in H3 as [H3 _].
  by destruct c as [[] [] [] [] [] [] [] []].
Qed.

(** An address in brackets, too. *)
Lemma SplitHostPort_bracketed host port :
  has_char "[" host = false → has_char "]" host = false →
  (∀ c, c ∈ [":"; "["; "]"]%char → has_char c port = false) →
  SplitHostPort ("[" +:+ host +:+ "]:" +:+ port) = Some (host, port).
Proof.
  intros Ho Hc Hp. unfold SplitHostPort.
  assert ("[" +:+ host +:+ "]:" +:+ port = ("[" +:+ host +:+ "]") +:+ String ":" port) as ->
    by by rewrite <- !sapp_assoc.
  rewrite cut_last_app by (apply Hp; set_solver). rewrite <- !sapp_assoc.
  change ("[" +:+ ?t) with (String "[" t). cbv iota beta.
  change (String "[" (host +:+ "]" +:+ String ":" port)) with (String "[" host +:+ String "]" (String ":" port)).
  rewrite Cut_char by done. cbv iota beta. rewrite bool_decide_eq_true_2 by done.
  change (String "[" host) with ("[" +:+ host). rewrite TrimPrefix_app.
  by rewrite Ho, !Hp by set_solver.
Qed.

(** Concrete addresses, as the standard library reads them. *)
Example addresses_read :
  (ParseIP <$> ["10.0.0.7"; "::1"; "2001:db8::8:800:200c:417a"; "::ffff:10.0.0.1"; "1:2:3:4:5:6:7:8"; "::"]) =
    replicate 6 true ∧
  (ParseIP <$> ["10.0.0"; "10.0.0.256"; "10.00.0.1"; "1::2::3"; "1:2:3:4:5:6:7:8::"; "12345::"; "fe80::1%eth0";
                "node-1"; ""; ":"]) = replicate 10 false ∧
  ParseAddr "fe80::1%eth0" = true ∧
  SplitHostPort "[::1]:5000" = Some ("::1", "5000") ∧ SplitHostPort "::1:5000" = None ∧
  SplitHostPort "dinki:5000" = Some ("dinki", "5000") ∧ SplitHostPort "dinki" = None ∧
  Atoi "-17" = Some (-17)%Z ∧ Atoi "9223372036854775808" = None ∧ Atoi "" = None.
Proof. by vm_compute. Qed.

(** ** Reading a printed number *)

Lemma decimal_digit acc x s :
  (x < 10)%N → decimal acc (String (pretty_N_char x) s) = decimal (acc * 10 + Z.of_N x) s.
Proof.
  intros Hx. cbn [decimal]. do 2 f_equal.
  assert (x = 0 ∨ x = 1 ∨ x = 2 ∨ x = 3 ∨ x = 4 ∨ x = 5 ∨ x = 6 ∨ x = 7 ∨ x = 8 ∨ x = 9)%N as Hd by lia.
  by destruct Hd as [->|[->|[->|[->|[->|[->|[->|[->|[->| ->]]]]]]]]].
Qed.

Lemma decimal_pretty_go x s : decimal 0 (pretty_N_go x s) = decimal (Z.of_N x) s.
Proof.
  revert s. induction (N.lt_wf_0 x) as [x _ IH]. intros s.
  destruct (decide (0 < x)%N) as [Hx|Hx]; [|by replace x with 0%N by lia].
  rewrite pretty_N_go_step, IH, decimal_digit by (try done; try (by apply N.div_lt); apply N.mod_lt; lia).
  f_equal. pose proof (N.div_mod x 10). lia.
Qed.

Lemma decimal_pretty z : (0 ≤ z)%Z → decimal 0 (pretty z) = z.
Proof.
  intros Hz. destruct z as [|p|p]; [done| |lia]. change (decimal 0 (pretty (N.pos p)) = Z.pos p).
  unfold pretty, pretty_N. rewrite decide_False by done. by rewrite decimal_pretty_go.
Qed.

Lemma cut_sign_digits s : s ≠ "" → all_chars is_digit s = true → cut_sign s = (false, s).
Proof.
  destruct s as [|c s]; [done|]. intros _. cbn [all_chars cut_sign]. intros [Hc _]%andb_true_iff.
  destruct (Ascii.eqb_spec c "-") as [->|_]; [done|]. by destruct (Ascii.eqb_spec c "+") as [->|_].
Qed.

Lemma pretty_Z_nonempty (z : Z) : (0 ≤ z)%Z → pretty z ≠ "".
Proof.
  intros Hz He. assert (0 < z ∨ z = 0)%Z as [Hp| ->] by lia; [|done].
  pose proof (decimal_pretty z Hz) as Hd. rewrite He in Hd. simpl in Hd. lia.
Qed.

Lemma Atoi_pretty z : (0 ≤ z ≤ int64_max)%Z → Atoi (pretty z) = Some z.
Proof.
  intros [Hz Hm]. pose proof (pretty_Z_nonempty z Hz) as Hne. pose proof (pretty_Z_digits z Hz) as Hd.
  unfold Atoi. rewrite cut_sign_digits, Hd, bool_decide_false, decimal_pretty by done. cbn [negb andb]. cbv zeta.
  by rewrite (proj2 (Z.leb_le int64_min z)), (proj2 (Z.leb_le z int64_max)) by (unfold int64_min, int64_max in *; lia).
Qed.
