(* ===== verification/Ports.v ===== *)
(** * Ports: published ports and the Services of a container

    [resolvePublishedPorts], [podPorts], [containerDNSService],
    [publishedPortsService] of [core/translator/container_create.go],
    [publishedPortsServiceName] of [container.go] and [containerServiceName] of
    [container_name.go].  The request's ports come from Go maps; [resolve_ports]
    takes them in the order of an iteration. *)

From S2P Require Import Prelude GoStrings Sha256 Errors Prog Validation Docker.
From S2P Require Export PodMeta Workload Net.

Local Open Scope string_scope.

Record publishedPort := { containerPort : Z; hostPort : Z; protocol : string }.

#[export] Instance publishedPort_eq_dec : EqDecision publishedPort.
Proof. solve_decision. Defined.

Definition ProtocolTCP : string := "TCP".
Definition ProtocolUDP : string := "UDP".
Definition ProtocolSCTP : string := "SCTP".

Definition ServiceTypeNodePort : string := "NodePort".
Definition ServiceTypeLoadBalancer : string := "LoadBalancer".
Definition ServiceTypeClusterIP : string := "ClusterIP".
Definition ClusterIPNone : string := "None".

(** [strconv.ParseUint(s, 10, 16)] *)
Definition ParseUint16 (s : string) : option Z :=
  if negb (bool_decide (s = "")) && all_chars is_digit s && (decimal 0 s <=? uint16_max)%Z
  then Some (decimal 0 s) else None.

(** The order of the [sort.Slice]. *)
Definition port_compare (p q : publishedPort) : comparison :=
  match Z.compare (containerPort p) (containerPort q) with
  | Eq => match String.compare (protocol p) (protocol q) with
          | Eq => Z.compare (hostPort p) (hostPort q)
          | c => c
          end
  | c => c
  end.
Definition port_le (p q : publishedPort) : Prop := port_compare p q ≠ Gt.

#[export] Instance port_le_dec : RelDecision port_le.
Proof. intros p q. unfold port_le. apply _. Defined.

Definition valid_port (p : publishedPort) : res unit :=
  if (containerPort p =? 0)%Z
  then Err (errors_New "container port must be between 1 and 65535")
  else if decide (protocol p ∈ [ProtocolTCP; ProtocolUDP; ProtocolSCTP]) then Ok tt
  else Err (errors_New "unsupported port protocol %q").

Section with_unicode.
Context `{Unicode}.

Definition exposed_port (port : Port) : publishedPort :=
  {| containerPort := Num port; hostPort := 0; protocol := ToUpper (Proto port) |}.

Definition binding_port (port : Port) (binding : PortBinding) : res publishedPort :=
  if decide (Binding_HostPort binding = "")
  then Ok (exposed_port port)
  else match ParseUint16 (Binding_HostPort binding) with
       | None => Err (errors_New "invalid published port %q: %w")
       | Some parsed => Ok {| containerPort := Num port; hostPort := parsed;
                              protocol := ToUpper (Proto port) |}
       end.

(** The bindings in the order of the two nested loops. *)
Definition flatten (entries : list (Port * list PortBinding)) : list (Port * PortBinding) :=
  entries ≫= λ '(port, bindings), (λ b, (port, b)) <$> bindings.

Definition binding_warning (entry : Port * PortBinding) : option string :=
  match HostIP entry.2 with
  | Some ip => Some ("host IP " +:+ ip +:+ " has no Kubernetes Service equivalent and was ignored")
  | None => None
  end.

Definition resolve_ports (publishAll : bool) (exposed : list Port)
    (bindings : list (Port * list PortBinding)) :
    res (list publishedPort * string * list string) :=
  let? '(ports, serviceType, warnings) :=
    (if publishAll then Ok (exposed_port <$> exposed, ServiceTypeNodePort, [])
     else
       let? ports := result_mapM (λ '(port, b), binding_port port b) (flatten bindings) in
       Ok (ports, if decide (ports = []) then "" else ServiceTypeLoadBalancer,
           omap binding_warning (flatten bindings))) in
  let serviceType := if decide (ports = []) then "" else serviceType in
  let? _ := result_mapM valid_port ports in
  Ok (merge_sort port_le ports, serviceType, warnings).

Definition resolvePublishedPorts (config : Config) (hostConfig : option HostConfig) :
    res (list publishedPort * string * list string) :=
  let hostConfig := default empty_host_config hostConfig in
  resolve_ports (PublishAllPorts hostConfig) (elements (ExposedPorts config))
    (map_to_list (PortBindings hostConfig)).
End with_unicode.

(** [podPorts]; the key ["%d/%s"] is the pair. *)
Fixpoint podPorts_loop (seen : gset (Z * string)) (ports : list publishedPort) :
    list ContainerPort :=
  match ports with
  | [] => []
  | port :: ports =>
      let key := (containerPort port, protocol port) in
      if decide (key ∈ seen) then podPorts_loop seen ports
      else {| ContainerPort_port := wrap_signed 32 (containerPort port); HostPort := 0;
              Port_Protocol := protocol port |} :: podPorts_loop ({[key]} ∪ seen) ports
  end.
Definition podPorts (ports : list publishedPort) : list ContainerPort := podPorts_loop ∅ ports.

(** ** Services *)

(** DNS-valid names keep their readable name; others get a hashed key. *)
Definition containerServiceName `{Validation} (name : string) : string :=
  if no_problems (IsDNS1035Label name) then name
  else "container-" +:+ hex (take_chars 20 (Sum256 name)).

Definition publishedPortsServiceName (deploymentName : string) : string :=
  let suffix := "-published" in
  if (len deploymentName + len suffix <=? 63)%nat then deploymentName +:+ suffix
  else take_chars 44 deploymentName +:+ "-" +:+
       hex (take_chars 4 (Sum256 deploymentName)) +:+ suffix.

(** [fmt.Sprintf("port-%d", index)] *)
Definition port_name (index : nat) : string := "port-" +:+ pretty (N.of_nat index).

Definition dns_port (index : nat) (port : publishedPort) : ServicePort := {|
  SP_Name := port_name index;
  SP_Port := wrap_signed 32 (containerPort port);
  SP_TargetPort := wrap_signed 32 (containerPort port);
  SP_Protocol := protocol port;
  SP_NodePort := 0
|}.

Definition containerDNSService `{Validation} (deployment : containerWorkload)
    (ports : list publishedPort) : Service := {|
  svc_meta := {|
    Name := containerServiceName (dockerName deployment);
    Namespace := Namespace deployment;
    UID := ""; ResourceVersion := ""; Generation := 0;
    Kube.Labels := {["app" := Name deployment]};
    Annotations := {[containerNameAnnotation := dockerName deployment]};
    OwnerReferences := [ownerReference deployment];
    DeletionTimestamp := None; CreationTimestamp := 0 |};
  Svc_Spec := {|
    ServiceType := ServiceTypeClusterIP;
    Svc_Selector := {["app" := Name deployment]};
    Svc_Ports := imap dns_port ports;
    ClusterIP := if decide (ports = []) then ClusterIPNone else "" |}
|}.

Definition published_port (index : nat) (port : publishedPort) : ServicePort := {|
  SP_Name := port_name index;
  SP_Port := wrap_signed 32 (if (hostPort port =? 0)%Z then containerPort port else hostPort port);
  SP_TargetPort := wrap_signed 32 (containerPort port);
  SP_Protocol := protocol port;
  SP_NodePort := 0
|}.

Definition publishedPortsService (deployment : containerWorkload) (serviceType : string)
    (ports : list publishedPort) : Service := {|
  svc_meta := {|
    Name := publishedPortsServiceName (Name deployment);
    Namespace := Namespace deployment;
    UID := ""; ResourceVersion := ""; Generation := 0;
    Kube.Labels := {["app" := Name deployment]};
    Annotations := ∅;
    OwnerReferences := [ownerReference deployment];
    DeletionTimestamp := None; CreationTimestamp := 0 |};
  Svc_Spec := {|
    ServiceType := serviceType;
    Svc_Selector := {["app" := Name deployment]};
    Svc_Ports := imap published_port ports;
    ClusterIP := "" |}
|}.

(** ** Properties: names *)

Lemma hex_label s : all_chars label_char (hex s) = true.
Proof.
  eapply all_chars_impl; [|apply hex_is_hex]. intros c. unfold is_hex, label_char.
  rewrite !orb_true_iff. intros [?|Hc]; [auto|]. left. left. revert Hc.
  unfold is_lower, in_range. rewrite !andb_true_iff, !N.leb_le. change (code "f") with 102%N.
  change (code "z") with 122%N. lia.
Qed.

Lemma containerServiceName_hashed_valid name :
  dns1035_label ("container-" +:+ hex (take_chars 20 (Sum256 name))) = true.
Proof.
  assert (len (hex (take_chars 20 (Sum256 name))) = 40%nat) as Hlen.
  { rewrite len_hex, len_take_chars, len_Sum256. done. }
  change ("container-" +:+ ?h) with (String "c" ("ontainer-" +:+ h)).
  apply dns1035_intro; [done|done| | |].
  - rewrite all_chars_app, hex_label. done.
  - intros l Hl. assert (last_char (hex (take_chars 20 (Sum256 name))) = Some l) as Hl'.
    { revert Hl. unfold last_char. rewrite srev_app.
      destruct (String.rev (hex _)) eqn:E; [|done].
      apply (f_equal len) in E. rewrite len_rev, Hlen in E. done. }
    pose proof (all_chars_last _ _ _ (hex_is_hex _) Hl') as Hh.
    revert Hh. unfold is_hex, lower_alnum, is_lower, in_range.
    rewrite !orb_true_iff. intros [?|Hc]; [auto|]. left. revert Hc.
    rewrite !andb_true_iff, !N.leb_le. change (code "f") with 102%N.
    change (code "z") with 122%N. lia.
  - rewrite len_app, Hlen. unfold len. simpl. lia.
Qed.

(** Every container gets a legal, recognisable and distinct DNS name.
    [containerServiceName] always gives a DNS-1035 label; it keeps a Docker name
    that is one already; and two Docker names share a Service name only if their
    SHA-256 digests agree in the first 160 bits or one of them is itself the
    hashed name of the other. *)
Theorem containerServiceName_valid `{ValidationLaws} name name' :
  dns1035_label (containerServiceName name) = true ∧
  (dns1035_label name = true → containerServiceName name = name) ∧
  (containerServiceName name = containerServiceName name' →
   name = name' ∨
   take_chars 20 (Sum256 name) = take_chars 20 (Sum256 name') ∨
   name = "container-" +:+ hex (take_chars 20 (Sum256 name')) ∨
   name' = "container-" +:+ hex (take_chars 20 (Sum256 name))).
Proof.
  assert (∀ n, no_problems (IsDNS1035Label n) = dns1035_label n) as Hp.
  { intros n. apply Bool.eq_iff_eq_true. by rewrite no_problems_spec, IsDNS1035Label_spec. }
  unfold containerServiceName. rewrite !Hp. split_and!.
  - destruct (dns1035_label name) eqn:E; [done|]. apply containerServiceName_hashed_valid.
  - by intros ->.
  - destruct (dns1035_label name), (dns1035_label name'); auto.
    intros Heq. apply sapp_inv_length in Heq as [_ Heq]; [|done].
    right. left. by apply hex_inj.
Qed.

Lemma containerServiceName_valid_witness :
  dns1035_label (@containerServiceName demo_validation "my_app.1") = true ∧
  @containerServiceName demo_validation "web" = "web".
Proof.
  split.
  - apply (@containerServiceName_valid demo_validation demo_validation_laws "my_app.1" "x").
  - apply (@containerServiceName_valid demo_validation demo_validation_laws "web" "x").
    reflexivity.
Defined.

(** ** Properties: published ports *)

Lemma port_compare_antisym p q : port_compare q p = CompOpp (port_compare p q).
Proof.
  unfold port_compare. rewrite (Z.compare_antisym (containerPort p)).
  destruct (Z.compare (containerPort p) _); simpl; try done.
  rewrite (String.compare_antisym (protocol q)).
  destruct (String.compare (protocol p) _); simpl; try done. apply Z.compare_antisym.
Qed.

Lemma port_compare_eq p q : port_compare p q = Eq → p = q.
Proof.
  unfold port_compare. destruct (Z.compare_spec (containerPort p) (containerPort q)); try done.
  destruct (String.compare (protocol p) (protocol q)) eqn:E; try done.
  apply String.compare_eq_iff in E. intros Hz%Z.compare_eq. destruct p, q; simpl in *. congruence.
Qed.

(** The order spelled out. *)
Lemma port_le_spec p q :
  port_le p q ↔
  (containerPort p < containerPort q)%Z ∨
  containerPort p = containerPort q ∧
    (String.ltb (protocol p) (protocol q) = true ∨
     protocol p = protocol q ∧ (hostPort p ≤ hostPort q)%Z).
Proof.
  unfold port_le, port_compare. rewrite ltb_compare.
  destruct (Z.compare_spec (containerPort p) (containerPort q)) as [Hz|Hz|Hz].
  - destruct (String.compare (protocol p) (protocol q)) eqn:E.
    + apply String.compare_eq_iff in E. change ((hostPort p ?= hostPort q)%Z ≠ Gt)
        with (hostPort p ≤ hostPort q)%Z. split; [auto|].
      intros [?|[_ [Hl|[_ ?]]]]; [lia|done|done].
    + split; [auto|done].
    + split; [done|]. intros [?|[_ [?|[Heq _]]]]; [lia|done|]. by rewrite Heq, compare_refl in E.
  - split; [auto|done].
  - split; [done|]. intros [?|[? _]]; lia.
Qed.

#[export] Instance port_le_total : Total port_le.
Proof.
  intros p q. unfold port_le. rewrite (port_compare_antisym p q).
  destruct (port_compare p q); simpl; auto.
Qed.

#[export] Instance port_le_trans : Transitive port_le.
Proof.
  intros p q r. rewrite !port_le_spec.
  intros [?|[? [Hs|[Hs ?]]]] [?|[? [Ht|[Ht ?]]]]; try (left; lia); right; (split; [lia|]).
  - left. by eapply ltb_trans.
  - left. by rewrite <- Ht.
  - left. by rewrite Hs.
  - right. split; [congruence|lia].
Qed.

#[export] Instance port_le_antisymm : AntiSymm (=) port_le.
Proof.
  intros p q Hp Hq. unfold port_le in *. rewrite port_compare_antisym in Hq.
  apply port_compare_eq. by destruct (port_compare p q).
Qed.

Lemma sort_ports_perm l l' : l ≡ₚ l' → merge_sort port_le l = merge_sort port_le l'.
Proof.
  intros Hp. apply (StronglySorted_unique port_le); try apply (StronglySorted_merge_sort port_le).
  by rewrite !merge_sort_Permutation.
Qed.

Lemma valid_port_ok p u :
  valid_port p = Ok u ↔
  containerPort p ≠ 0%Z ∧ protocol p ∈ [ProtocolTCP; ProtocolUDP; ProtocolSCTP].
Proof.
  destruct u. unfold valid_port. destruct (Z.eqb_spec (containerPort p) 0); [naive_solver|].
  case_decide; naive_solver.
Qed.

Lemma flatten_perm l l' : l ≡ₚ l' → flatten l ≡ₚ flatten l'.
Proof. intros Hp. unfold flatten. by rewrite Hp. Qed.

(** The type of the published Service. *)
Definition service_type (publishAll : bool) (ports : list publishedPort) : string :=
  if decide (ports = []) then ""
  else if publishAll then ServiceTypeNodePort else ServiceTypeLoadBalancer.

Lemma service_type_perm publishAll l l' :
  l ≡ₚ l' → service_type publishAll l = service_type publishAll l'.
Proof.
  intros Hp. destruct l, l'; try done.
  - by apply Permutation_nil_cons in Hp.
  - symmetry in Hp. by apply Permutation_nil_cons in Hp.
Qed.

Section resolution.
Context `{Unicode}.
Implicit Types (ex : list Port) (bi : list (Port * list PortBinding)).

(** The ports a request asks for, and the warnings they give, before sorting. *)
Definition requested (publishAll : bool) ex bi : res (list publishedPort) :=
  if publishAll then Ok (exposed_port <$> ex)
  else result_mapM (λ '(port, b), binding_port port b) (flatten bi).
Definition request_warnings (publishAll : bool) bi : list string :=
  if publishAll then [] else omap binding_warning (flatten bi).

Lemma resolve_ports_eq publishAll ex bi :
  resolve_ports publishAll ex bi =
    (let? ports := requested publishAll ex bi in
     let? _ := result_mapM valid_port ports in
     Ok (merge_sort port_le ports, service_type publishAll ports,
         request_warnings publishAll bi)).
Proof.
  unfold resolve_ports, requested, request_warnings, service_type. destruct publishAll; simpl.
  - by destruct (result_mapM valid_port _).
  - destruct (result_mapM _ (flatten bi)) as [ports|]; simpl; [|done].
    repeat case_decide; by destruct (result_mapM valid_port _).
Qed.

Lemma resolve_ports_perm publishAll ex ex' bi bi' ports ty w :
  ex ≡ₚ ex' → bi ≡ₚ bi' → resolve_ports publishAll ex bi = Ok (ports, ty, w) →
  ∃ w', resolve_ports publishAll ex' bi' = Ok (ports, ty, w') ∧ w ≡ₚ w'.
Proof.
  intros Hex Hbi%flatten_perm. rewrite !resolve_ports_eq. intros Hr.
  apply result_bind_ok in Hr as (req & Hreq & Hr).
  apply result_bind_ok in Hr as (us & Hus & Hr). simplify_eq.
  assert (∃ req', requested publishAll ex' bi' = Ok req' ∧ req ≡ₚ req') as (req' & -> & Hperm).
  { revert Hreq. unfold requested. destruct publishAll; [|by apply result_mapM_perm].
    intros [= <-]. eexists. split; [done|]. by rewrite Hex. }
  destruct (result_mapM_perm valid_port _ _ _ Hperm Hus) as (us' & Hus' & _). simpl.
  rewrite Hus'. simpl. eexists. split.
  - by rewrite (sort_ports_perm _ _ Hperm), (service_type_perm publishAll _ _ Hperm).
  - unfold request_warnings. destruct publishAll; [done|]. by rewrite Hbi.
Qed.

Lemma resolve_ports_ok publishAll ex bi ports ty w :
  resolve_ports publishAll ex bi = Ok (ports, ty, w) →
  StronglySorted port_le ports ∧ ty = service_type publishAll ports ∧
  ∀ p, p ∈ ports →
    containerPort p ≠ 0%Z ∧ protocol p ∈ [ProtocolTCP; ProtocolUDP; ProtocolSCTP] ∧
    if publishAll then ∃ port, port ∈ ex ∧ p = exposed_port port
    else ∃ port b, (port, b) ∈ flatten bi ∧ binding_port port b = Ok p.
Proof.
  rewrite resolve_ports_eq. intros Hr. apply result_bind_ok in Hr as (req & Hreq & Hr).
  apply result_bind_ok in Hr as (us & Hus & Hr). simplify_eq. split_and!.
  - apply (StronglySorted_merge_sort port_le).
  - apply service_type_perm. by rewrite merge_sort_Permutation.
  - intros p Hp. rewrite merge_sort_Permutation in Hp.
    destruct (proj1 (result_mapM_elem _ _ _ Hus) p Hp) as (u & _ & Hv).
    apply valid_port_ok in Hv as [? ?]. split; [done|]. split; [done|].
    unfold requested in Hreq. destruct publishAll.
    + injection Hreq as <-. apply list_elem_of_fmap in Hp as (port & -> & ?). eauto.
    + destruct (proj2 (result_mapM_elem _ _ _ Hreq) p Hp) as ([port b] & Hin & Hb). eauto.
Qed.
End resolution.

(** resolving published ports gives one answer per request.  The ports and
    bindings come from Go maps, whose iteration order is arbitrary: in any other
    order the resolution succeeds or fails alike, with the same ports, the same
    Service type, and the same warnings up to their order.  On success the ports
    are sorted, each one requested, with a container port that is not zero and a
    protocol Kubernetes knows, and a Service type is set exactly when there are
    ports. *)
Theorem resolve_ports_order_independent `{Unicode} publishAll exposed exposed' bindings bindings' :
  exposed ≡ₚ exposed' → bindings ≡ₚ bindings' →
  match resolve_ports publishAll exposed bindings with
  | Ok (ports, serviceType, warnings) =>
      (∃ warnings', resolve_ports publishAll exposed' bindings' = Ok (ports, serviceType, warnings') ∧
         warnings ≡ₚ warnings') ∧
      StronglySorted port_le ports ∧
      serviceType = service_type publishAll ports ∧
      ∀ p, p ∈ ports →
        containerPort p ≠ 0%Z ∧ protocol p ∈ [ProtocolTCP; ProtocolUDP; ProtocolSCTP] ∧
        if publishAll then ∃ port, port ∈ exposed ∧ p = exposed_port port
        else ∃ port b, (port, b) ∈ flatten bindings ∧ binding_port port b = Ok p
  | Err _ => ∃ e, resolve_ports publishAll exposed' bindings' = Err e
  end.
Proof.
  intros He Hb. destruct (resolve_ports publishAll exposed bindings) as [[[ports ty] w]|e] eqn:E.
  - split; [by eapply resolve_ports_perm|]. by eapply resolve_ports_ok.
  - destruct (resolve_ports publishAll exposed' bindings') as [[[ports ty] w]|e'] eqn:E'; [|eauto].
    apply (resolve_ports_perm _ _ exposed _ bindings) in E' as (w' & E' & _); [|done..]. congruence.
Qed.

Lemma resolve_ports_order_independent_witness :
  let http := {| Num := 80; Proto := "tcp" |} in
  let dns := {| Num := 53; Proto := "udp" |} in
  let b p := {| HostIP := None; Binding_HostPort := p |} in
  ∃ w, @resolve_ports ascii_unicode false [] [(dns, [b ""]); (http, [b "8081"; b "8080"])] =
    Ok ([{| containerPort := 53; hostPort := 0; protocol := "UDP" |};
         {| containerPort := 80; hostPort := 8080; protocol := "TCP" |};
         {| containerPort := 80; hostPort := 8081; protocol := "TCP" |}],
        "LoadBalancer", w) ∧ [] ≡ₚ w.
Proof.
  intros http dns b.
  pose proof (@resolve_ports_order_independent ascii_unicode false [] []
    [(http, [b "8081"; b "8080"]); (dns, [b ""])] [(dns, [b ""]); (http, [b "8081"; b "8080"])]
    (Permutation_refl _) (Permutation_swap _ _ _)) as H.
  destruct (@resolve_ports ascii_unicode false [] [(http, [b "8081"; b "8080"]); (dns, [b ""])])
    as [[[ports ty] w]|e] eqn:E; vm_compute in E; [|discriminate E].
  injection E as <- <- <-. exact (proj1 H).
Defined.

(** *** The ports of the Pod and of the DNS Service *)

(** Container ports are 16-bit numbers. *)
Definition uint16_ports (ports : list publishedPort) : Prop :=
  ∀ p, p ∈ ports → (0 ≤ containerPort p ≤ uint16_max)%Z.

Definition port_key (p : publishedPort) : Z * string := (containerPort p, protocol p).
Definition pod_key (c : ContainerPort) : Z * string := (ContainerPort_port c, Port_Protocol c).
Definition service_key (p : ServicePort) : Z * string := (SP_Port p, SP_Protocol p).

Lemma wrap_port z : (0 ≤ z ≤ uint16_max)%Z → wrap_signed 32 z = z.
Proof. unfold uint16_max. intros. apply wrap_signed_id; lia. Qed.

Lemma podPorts_loop_spec seen ports :
  uint16_ports ports →
  NoDup (pod_key <$> podPorts_loop seen ports) ∧
  ∀ k, k ∈ pod_key <$> podPorts_loop seen ports ↔ k ∈ port_key <$> ports ∧ k ∉ seen.
Proof.
  revert seen. induction ports as [|p ports IH]; intros seen Hr; simpl.
  { split; [constructor|set_solver]. }
  assert (uint16_ports ports) as Hr' by (intros q Hq; apply Hr; set_solver).
  assert (wrap_signed 32 (containerPort p) = containerPort p) as Hw
    by (apply wrap_port, Hr; set_solver).
  destruct (decide _) as [Hin|Hnin].
  - destruct (IH seen Hr') as [Hnd Hel]. split; [done|]. intros k. rewrite Hel.
    unfold port_key at 3. set_solver.
  - destruct (IH ({[(containerPort p, protocol p)]} ∪ seen) Hr') as [Hnd Hel].
    rewrite fmap_cons. unfold pod_key at 1 3. simpl. rewrite Hw. split.
    + constructor; [|done]. rewrite Hel. set_solver.
    + intros k. rewrite !elem_of_cons, Hel. change (port_key p) with (containerPort p, protocol p).
      destruct (decide (k = (containerPort p, protocol p))); set_solver.
Qed.

Lemma dns_keys (f : nat → nat) ports :
  uint16_ports ports →
  service_key <$> imap (λ i, dns_port (f i)) ports = port_key <$> ports.
Proof.
  revert f. induction ports as [|p ports IH]; intros f Hr; [done|]. simpl. f_equal.
  - unfold service_key, port_key. simpl. f_equal. apply wrap_port, Hr. set_solver.
  - apply (IH (λ i, f (S i))). intros q Hq. apply Hr. set_solver.
Qed.

(** A Pod exposes each published container port exactly once, whatever host
    ports it is published on; the ports of its DNS Service are unique only if no
    container port is published twice, which is not so when a client publishes
    one port on two host ports. *)
Theorem pod_and_service_ports `{Validation} w ports :
  uint16_ports ports →
  NoDup (pod_key <$> podPorts ports) ∧
  (∀ k, k ∈ pod_key <$> podPorts ports ↔ k ∈ port_key <$> ports) ∧
  (NoDup (service_key <$> Svc_Ports (Svc_Spec (containerDNSService w ports))) ↔
   NoDup (port_key <$> ports)) ∧
  (∀ n p q proto, p ≠ q →
     ¬ NoDup (port_key <$> [{| containerPort := n; hostPort := p; protocol := proto |};
                            {| containerPort := n; hostPort := q; protocol := proto |}])).
Proof.
  intros Hr. destruct (podPorts_loop_spec ∅ ports Hr) as [Hnd Hel]. split_and!.
  - exact Hnd.
  - intros k. unfold podPorts. rewrite Hel. set_solver.
  - simpl. by rewrite (dns_keys (λ i, i)).
  - intros n p q proto _ [Hni _]%NoDup_cons. apply Hni. set_solver.
Qed.

Lemma pod_and_service_ports_witness :
  let ports := [{| containerPort := 80; hostPort := 8080; protocol := "TCP" |};
                {| containerPort := 80; hostPort := 8081; protocol := "TCP" |}] in
  let w := deploymentWorkload (sample_deployment "acme" "web" "3f25-04e0" 1) in
  podPorts ports = [{| ContainerPort_port := 80; HostPort := 0; Port_Protocol := "TCP" |}] ∧
  ¬ NoDup (service_key <$> Svc_Ports (Svc_Spec (@containerDNSService demo_validation w ports))).
Proof.
  intros ports w. split; [vm_compute; reflexivity|].
  destruct (@pod_and_service_ports demo_validation w ports) as (_ & _ & Hs & Hd).
  - intros p Hp. unfold ports in Hp.
    repeat (apply elem_of_cons in Hp as [->|Hp]); [split; vm_compute; discriminate..|].
    by apply elem_of_nil in Hp.
  - rewrite Hs. apply Hd. done.
Defined.
