(* ===== verification/Services.v ===== *)
(** * Services: [core/translator/container_name.go] and [container_aliases.go]

    Docker names and network aliases are Kubernetes Services.  A Service belongs to
    a container if it has the container's owner reference and selects its Pods;
    every method that deletes or replaces one checks that first. *)

From S2P Require Import Prelude GoStrings Sha256 Errors Prog Validation Docker.
From S2P Require Export Ports.

Local Open Scope string_scope.

Definition containerAliasAnnotation : string := "dink.io/network-aliases".
Definition aliasOfLabel : string := "dink.io/alias-of".

Abbreviation aliases_t := (gmap string (list string)).

(** ** Names *)

(** [^[a-zA-Z0-9][a-zA-Z0-9_.-]*$] *)
Definition name_char (c : ascii) : bool := is_alnum c || has_char c "_.-".
Definition dockerContainerNamePattern (name : string) : bool :=
  match name with
  | EmptyString => false
  | String c rest => is_alnum c && all_chars name_char rest
  end.

Definition normalizeContainerName (name : string) : res string :=
  let name := TrimPrefix name "/" in
  if negb (dockerContainerNamePattern name)
  then Err (InvalidArgument (errors_New "invalid container name %q: must match [a-zA-Z0-9][a-zA-Z0-9_.-]*"))
  else Ok name.

Definition workloadOwnsService (w : containerWorkload) (service : Service) : bool :=
  let owner := ownerReference w in
  existsb (λ reference, bool_decide (or_UID reference = or_UID owner) &&
                        bool_decide (or_Kind reference = or_Kind owner) &&
                        bool_decide (or_Name reference = or_Name owner))
    (OwnerReferences (svc_meta service)) &&
  bool_decide (mget (Svc_Selector (Svc_Spec service)) "app" = Name w).

(** Setters of the fields of a Service that the methods assign. *)
Definition svc_set_meta (m : ObjectMeta) (s : Service) : Service :=
  {| svc_meta := m; Svc_Spec := Svc_Spec s |}.
Definition svc_set_cluster_ip (ip : string) (s : Service) : Service :=
  {| svc_meta := svc_meta s;
     Svc_Spec := {| ServiceType := ServiceType (Svc_Spec s);
                    Svc_Selector := Svc_Selector (Svc_Spec s);
                    Svc_Ports := Svc_Ports (Svc_Spec s); ClusterIP := ip |} |}.

Definition wl_set_annotations (a : smap) (w : containerWorkload) : containerWorkload := {|
  wl_meta := meta_set_annotations a (wl_meta w); OneShot := OneShot w;
  Template := Template w; Started := Started w; Finished := Finished w |}.

(** [namedContainer] of [container.go] *)
Definition named_container (containers : list Container) (name : string) : res Container :=
  match List.find (λ c, bool_decide (Ctr_Name c = name)) containers with
  | Some c => Ok c
  | None => Err (NotFound (errors_New "application container %q not found in pod spec"))
  end.

Definition namedContainer (spec : PodSpec) (name : string) : res Container :=
  named_container (Containers spec) name.

Definition workloadPublishedPorts (w : containerWorkload) : res (list publishedPort) :=
  let spec := Pod_Spec (Template w) in
  if decide (Containers spec = []) then Ok []
  else
    let? application := namedContainer spec (Name w) in
    result_mapM (λ port,
      if ((ContainerPort_port port <? 0) || (65535 <? ContainerPort_port port))%Z
      then Err (InvalidArgument (errors_New "container port %d is out of range"))
      else Ok {| containerPort := wrap_unsigned 16 (ContainerPort_port port); hostPort := 0;
                 protocol := Port_Protocol port |}) (Ctr_Ports application).

(** The alias maps: [distinctAliases], [mergeNetworkAliases] and the JSON forms. *)
Definition distinctAliases (aliases : aliases_t) : list string :=
  slices_Compact (slices_Sort (concat (map_to_list aliases).*2)).

Definition mergeNetworkAliases (current : aliases_t) (network : string) (aliases : list string) :
    aliases_t :=
  if decide (aliases = []) then delete network current else <[network := aliases]> current.

Section with_validation.
Context `{Validation}.

Definition endpoint_aliases (endpoint : option EndpointSettings) : res (list string) :=
  match endpoint with
  | None => Ok []
  | Some endpoint =>
      let names := slices_Compact (slices_Sort (Aliases endpoint ++ DNSNames endpoint)%list) in
      if forallb (λ alias, no_problems (IsDNS1035Label alias)) names then Ok names
      else Err (InvalidArgument
             (errors_New "network alias %q is not usable as a Kubernetes Service name: %s"))
  end.

(** The endpoints without names are left out of the map. *)
Definition aliasesFromEndpoints (endpoints : gmap string (option EndpointSettings)) :
    res aliases_t :=
  let? entries := result_mapM (λ '(name, endpoint),
    let? names := endpoint_aliases endpoint in Ok (name, names)) (map_to_list endpoints) in
  Ok (list_to_map (List.filter (λ e, negb (bool_decide (e.2 = []))) entries)).

Definition aliasService (w : containerWorkload) (alias : string) (ports : list publishedPort) :
    Service :=
  let service := containerDNSService w ports in
  svc_set_meta (meta_set_labels (<["app" := Name w]> (<[aliasOfLabel := Name w]>
                                   (<[managedByLabel := managedByDink]> ∅)))
                 (meta_set_annotations ∅ (meta_set_name alias (svc_meta service)))) service.

(** ** Availability of names *)

Definition containerObjectName (namespace name : string) : proc (res string) :=
  let candidate := containerServiceName name in
  do deployment <- call (KGet KDeployment namespace candidate);
  match deployment with
  | Ok _ => do n <- call RandomName; Ret (Ok n)
  | Err e =>
      if negb (IsNotFound e) then Ret (Err (kubeError e))
      else
        do job <- call (KGet KJob namespace candidate);
        match job with
        | Ok _ => do n <- call RandomName; Ret (Ok n)
        | Err e => if negb (IsNotFound e) then Ret (Err (kubeError e)) else Ret (Ok candidate)
        end
  end.

Definition is_workload (except : option containerWorkload) (w : containerWorkload) : bool :=
  match except with
  | Some e => bool_decide (Name w = Name e) && Bool.eqb (OneShot w) (OneShot e) &&
              bool_decide (UID w = UID e)
  | None => false
  end.

Definition ensureContainerNameAvailable (namespace name : string)
    (except : option containerWorkload) : proc (res unit) :=
  do? workloads <- listWorkloads namespace;
  if existsb (λ w, negb (is_workload except w) && bool_decide (dockerName w = name)) workloads
  then Ret (Err (Conflict (errors_New "the container name %q is already in use")))
  else
    do service <- call (KGet KService namespace (containerServiceName name));
    match service with
    | Err e => if IsNotFound e then Ret (Ok tt) else Ret (Err (kubeError e))
    | Ok service =>
        if match except with Some e => workloadOwnsService e service | None => false end
        then Ret (Ok tt)
        else Ret (Err (Conflict
               (errors_New "the container name %q is already in use by a container or network alias")))
    end.

(** ** Deleting Services *)

Definition deleteOwnedService (w : containerWorkload) (service : Service) : proc (res unit) :=
  if negb (workloadOwnsService w service)
  then Ret (Err (Conflict (errors_New "service %s is not owned by container %s")))
  else
    do r <- call (KDelete KService (Namespace w) (Name (svc_meta service))
              (Build_DeleteOptions (Some (UID (svc_meta service)))
                 (Some (ResourceVersion (svc_meta service))) None None));
    match r with
    | Err e => if IsNotFound e then Ret (Ok tt) else Ret (Err (kubeError e))
    | Ok _ => Ret (Ok tt)
    end.

Definition removeContainerServices (w : containerWorkload) : proc (res unit) :=
  do services <- call (KList KService (Namespace w) (app_selector w));
  match services with
  | Err e => Ret (Err (kubeError e))
  | Ok services =>
      for_each services (λ service : Service,
        if workloadOwnsService w service then deleteOwnedService w service else Ret (Ok tt))
  end.

(** ** Alias Services *)

Definition apply_alias (w : containerWorkload) (ports : list publishedPort) (alias : string) :
    proc (res unit) :=
  if decide (alias = containerServiceName (dockerName w)) then
    do current <- call (KGet KService (Namespace w) alias);
    match current with
    | Err e => Ret (Err (kubeError e))
    | Ok current =>
        if negb (workloadOwnsService w current)
        then Ret (Err (Conflict (errors_New "network alias %q is already in use in this namespace")))
        else Ret (Ok tt)
    end
  else
    let service := aliasService w alias ports in
    do created <- call (KCreate KService (Namespace w) service);
    match created with
    | Ok _ => Ret (Ok tt)
    | Err e =>
        if IsAlreadyExists e then
          do current <- call (KGet KService (Namespace w) alias);
          match current with
          | Err e => Ret (Err (kubeError e))
          | Ok current =>
              if negb (workloadOwnsService w current)
              then Ret (Err (Conflict (errors_New "network alias %q is already in use in this namespace")))
              else
                let m := svc_meta current in
                let named := mget (Annotations m) containerNameAnnotation in
                if negb (bool_decide (named = "")) && bool_decide (named = dockerName w)
                then Ret (Ok tt)
                else
                  let annotations := if decide (named = "") then Annotations m
                                     else delete containerNameAnnotation (Annotations m) in
                  do updated <- call (KUpdate KService (Namespace w)
                    (svc_set_cluster_ip (ClusterIP (Svc_Spec current))
                      (svc_set_meta (meta_set_rv (ResourceVersion m)
                        (meta_set_annotations annotations (svc_meta service))) service)));
                  match updated with
                  | Err e => Ret (Err (kubeError e))
                  | Ok _ => Ret (Ok tt)
                  end
          end
        else Ret (Err (kubeError e))
    end.

Definition applyAliasServices (w : containerWorkload) (aliases : list string)
    (ports : list publishedPort) : proc (res unit) :=
  do existing <- call (KList KService (Namespace w) (aliasOfLabel +:+ "=" +:+ Name w));
  match existing with
  | Err e => Ret (Err (kubeError e))
  | Ok existing =>
      do? _ <- for_each existing (λ service : Service,
        if decide (Name (svc_meta service) ∈ aliases) then Ret (Ok tt)
        else if decide (Name (svc_meta service) = containerServiceName (dockerName w))
        then Ret (Ok tt)
        else deleteOwnedService w service);
      for_each aliases (apply_alias w ports)
  end.

Context `{DockerJSON} `{Retry}.

Definition decodeContainerAliases (annotations : smap) : res aliases_t :=
  let encoded := mget annotations containerAliasAnnotation in
  if decide (encoded = "") then Ok ∅
  else match Unmarshal_aliases encoded with
       | Some aliases => Ok aliases
       | None => Err (errors_New "decoding network aliases: %w")
       end.

Definition encodeContainerAliases (aliases : aliases_t) : res string :=
  if decide (aliases = ∅) then Ok ""
  else match Marshal_aliases aliases with
       | Some encoded => Ok encoded
       | None => Err (InvalidArgument (errors_New "encoding network aliases: %w"))
       end.

Definition claimContainerAliases (w : containerWorkload) : proc (res unit) :=
  with_mutex containerNameMu
    (match decodeContainerAliases (Annotations w) with
     | Err e => Ret (Err e)
     | Ok aliases =>
         if decide (aliases = ∅) then Ret (Ok tt)
         else match workloadPublishedPorts w with
              | Err e => Ret (Err e)
              | Ok ports => applyAliasServices w (distinctAliases aliases) ports
              end
     end).

(** [updateWorkloadAnnotations]; the mutation acts on the annotations. *)
Definition updateWorkloadAnnotations (w : containerWorkload) (mutate : smap → smap) :
    proc (res unit) :=
  if OneShot w
  then updateContainerJob w (λ current,
         Ok (job_set_meta (meta_set_annotations (mutate (Annotations (job_meta current)))
               (job_meta current)) current))
  else do? _ <- updateContainerDeployment w (λ current,
         Ok (dep_set_meta (meta_set_annotations (mutate (Annotations (dep_meta current)))
               (dep_meta current)) current));
       Ret (Ok tt).

Definition setContainerAliases (w : containerWorkload) (aliases : aliases_t) : proc (res unit) :=
  match encodeContainerAliases aliases, workloadPublishedPorts w with
  | Err e, _ => Ret (Err e)
  | _, Err e => Ret (Err e)
  | Ok encoded, Ok ports =>
      do? _ <- applyAliasServices w (distinctAliases aliases) ports;
      updateWorkloadAnnotations w (λ annotations,
        if decide (encoded = "") then delete containerAliasAnnotation annotations
        else <[containerAliasAnnotation := encoded]> annotations)
  end.

(** ** Renaming *)

(** The mutation of [setContainerName] on an object's metadata. *)
Definition rename_meta (oldName newName : string) (m : ObjectMeta) : res ObjectMeta :=
  let annotated := mget (Annotations m) containerNameAnnotation in
  let currentName := if decide (annotated = "") then Name m else annotated in
  if decide (currentName = newName) then Ok m
  else if decide (currentName ≠ oldName)
  then Err (Conflict (errors_New "container %s was concurrently renamed to %s"))
  else Ok (meta_set_annotations (<[containerNameAnnotation := newName]> (Annotations m)) m).

Definition setContainerName (w : containerWorkload) (oldName newName : string) :
    proc (res unit) :=
  if OneShot w
  then updateContainerJob w (λ current,
         let? m := rename_meta oldName newName (job_meta current) in Ok (job_set_meta m current))
  else do? _ <- updateContainerDeployment w (λ current,
         let? m := rename_meta oldName newName (dep_meta current) in Ok (dep_set_meta m current));
       Ret (Ok tt).

(** Whether an owned Service is the primary one of an earlier name. *)
Definition stale_primary (w : containerWorkload) (serviceName : string) (aliases : list string)
    (stale : Service) : bool :=
  let m := svc_meta stale in
  let primary := negb (bool_decide (mget (Annotations m) containerNameAnnotation = "")) ||
                 (bool_decide (Name m = Name w) && bool_decide (mget (Labels m) aliasOfLabel = "")) in
  negb (bool_decide (Name m = serviceName)) && primary && workloadOwnsService w stale &&
  negb (slices_Contains aliases (Name m)).

(** After the new name is recorded: the primary Service, the aliases and the
    Services of earlier names. *)
Definition finish_rename (w renamed : containerWorkload) (newName serviceName : string)
    (aliases : aliases_t) (ports : list publishedPort) : proc (res unit) :=
  do current <- call (KGet KService (Namespace w) serviceName);
  match current with
  | Err e => Ret (Err (kubeError e))
  | Ok current =>
      if negb (workloadOwnsService w current)
      then Ret (Err (Conflict (errors_New "the container name %q is already in use")))
      else
        let m := svc_meta current in
        do updated <- call (KUpdate KService (Namespace w)
          (svc_set_meta (meta_set_labels (delete aliasOfLabel (Labels m))
            (meta_set_annotations (<[containerNameAnnotation := newName]> (Annotations m)) m))
            current));
        match updated with
        | Err e => Ret (Err (kubeError e))
        | Ok _ =>
            do? _ <- applyAliasServices renamed (distinctAliases aliases) ports;
            do owned <- call (KList KService (Namespace w) (app_selector w));
            match owned with
            | Err e => Ret (Err (kubeError e))
            | Ok owned =>
                for_each owned (λ stale : Service,
                  if stale_primary w serviceName (distinctAliases aliases) stale
                  then deleteOwnedService w stale else Ret (Ok tt))
            end
        end
  end.

(** The creation of the new primary Service: whether this call created it. *)
Definition claim_service (w : containerWorkload) (service : Service) : proc (res (option Service)) :=
  do created <- call (KCreate KService (Namespace w) service);
  match created with
  | Ok created => Ret (Ok (Some created))
  | Err e =>
      if negb (IsAlreadyExists e) then Ret (Err (kubeError e))
      else
        do current <- call (KGet KService (Namespace w) (Name (svc_meta service)));
        match current with
        | Err e => Ret (Err (kubeError e))
        | Ok current =>
            if negb (workloadOwnsService w current)
            then Ret (Err (Conflict (errors_New "the container name %q is already in use")))
            else Ret (Ok None)
        end
  end.

Definition rename_locked (w : containerWorkload) (newName : string) : proc (res unit) :=
  do? _ <- ensureContainerNameAvailable (Namespace w) newName (Some w);
  match workloadPublishedPorts w, decodeContainerAliases (Annotations w) with
  | Err e, _ => Ret (Err e)
  | _, Err e => Ret (Err e)
  | Ok ports, Ok aliases =>
      let renamed :=
        wl_set_annotations (<[containerNameAnnotation := newName]> (Annotations w)) w in
      let service := containerDNSService renamed ports in
      do? created <- claim_service w service;
      do named <- setContainerName w (dockerName w) newName;
      match named with
      | Err e =>
          match created with
          | Some created =>
              do deleted <- deleteOwnedService w created;
              Ret (Err (Joined (e :: match deleted with Err e' => [e'] | Ok _ => [] end)))
          | None => Ret (Err e)
          end
      | Ok _ => finish_rename w renamed newName (Name (svc_meta service)) aliases ports
      end
  end.

Definition ContainerRename (ctx : context) (name newName : string) : proc (res unit) :=
  match normalizeContainerName newName with
  | Err e => Ret (Err e)
  | Ok newName =>
      with_container ctx name (λ w, with_mutex containerNameMu (rename_locked w newName))
  end.
End with_validation.

(** ** The discipline of these methods *)

Section neutral.
Context `{Validation} `{DockerJSON} `{RetryLaws}.

Lemma neutral_deleteOwnedService st w s :
  holds_mutex st containerNameMu = true → neutral st (deleteOwnedService w s).
Proof.
  intros Hst. unfold deleteOwnedService. destruct (negb _); [neutral_auto|].
  apply neutral_bind; [by apply neutral_call|neutral_auto].
Qed.

Lemma neutral_removeContainerServices st w :
  holds_mutex st containerNameMu = true → neutral st (removeContainerServices w).
Proof.
  intros Hst. unfold removeContainerServices. neutral_auto.
  by apply neutral_deleteOwnedService.
Qed.

Lemma neutral_apply_alias st w ports alias :
  holds_mutex st containerNameMu = true → neutral st (apply_alias w ports alias).
Proof.
  intros Hst. unfold apply_alias. repeat first
    [ neutral_step | apply neutral_call; [reflexivity|exact Hst] ].
Qed.

Lemma neutral_applyAliasServices st w aliases ports :
  holds_mutex st containerNameMu = true → neutral st (applyAliasServices w aliases ports).
Proof.
  intros Hst. unfold applyAliasServices. neutral_auto.
  - by apply neutral_deleteOwnedService.
  - by apply neutral_apply_alias.
Qed.

Lemma neutral_claimContainerAliases st w :
  holds_mutex st containerNameMu = false → neutral st (claimContainerAliases w).
Proof.
  intros Hst. unfold claimContainerAliases. apply neutral_with_mutex; [done|].
  neutral_auto. apply neutral_applyAliasServices. unfold holds_mutex.
  rewrite bool_decide_true; [done|set_solver].
Qed.

Lemma neutral_ensureContainerNameAvailable st ns name except :
  neutral st (ensureContainerNameAvailable ns name except).
Proof. unfold ensureContainerNameAvailable. neutral_auto. Qed.

Lemma neutral_containerObjectName st ns name : neutral st (containerObjectName ns name).
Proof. unfold containerObjectName. neutral_auto. Qed.

Lemma neutral_setContainerName st w oldName newName :
  may_write st KDeployment = true → neutral st (setContainerName w oldName newName).
Proof.
  intros Hst. unfold setContainerName. destruct (OneShot w).
  - by apply neutral_updateContainerJob.
  - apply neutral_bind_res; [by apply neutral_updateContainerDeployment|neutral_auto].
Qed.

Lemma neutral_claim_service st w service :
  holds_mutex st containerNameMu = true → neutral st (claim_service w service).
Proof.
  intros Hst. unfold claim_service.
  apply neutral_bind; [by apply neutral_call|neutral_auto].
Qed.

Lemma neutral_finish_rename st w renamed newName serviceName aliases ports :
  holds_mutex st containerNameMu = true →
  neutral st (finish_rename w renamed newName serviceName aliases ports).
Proof.
  intros Hst. unfold finish_rename. repeat first
    [ neutral_step | apply neutral_call; [reflexivity|exact Hst]
    | by apply neutral_applyAliasServices | by apply neutral_deleteOwnedService ].
Qed.

Lemma neutral_rename_locked st w newName :
  holds_mutex st containerNameMu = true → neutral st (rename_locked w newName).
Proof.
  intros Hst. assert (may_write st KDeployment = true) as Hw
    by (simpl; rewrite Hst; apply orb_true_r).
  unfold rename_locked.
  repeat first
    [ apply neutral_ensureContainerNameAvailable | by apply neutral_claim_service
    | by apply neutral_setContainerName | by apply neutral_finish_rename
    | by apply neutral_deleteOwnedService | neutral_step ].
Qed.

Lemma neutral_ContainerRename ctx name newName : neutral [] (ContainerRename ctx name newName).
Proof.
  unfold ContainerRename. destruct (normalizeContainerName newName); [|apply neutral_ret].
  apply neutral_with_container; [done|]. intros w key. apply neutral_with_mutex; [done|].
  by apply neutral_rename_locked.
Qed.
End neutral.

(** ** Services are changed only by their owner *)

(** A Service that an answer of the API server showed. *)
Definition seen_service (h : hist) (s : Service) : Prop :=
  (∃ ns selector l, Event _ (KList KService ns selector) (Ok l) ∈ h ∧ s ∈ l) ∨
  (∃ ns o, Event _ (KCreate KService ns o) (Ok s) ∈ h).

(** The guard: every deletion is of a Service that the container owns, with its UID
    and resource version as preconditions; every update is of one that was just
    read and owned, at the version read; every creation is of one it owns; and no
    object of another kind is created or deleted. *)
Definition owned_service_writes (w : containerWorkload) : guard (cmd := cmd) := λ h X c,
  match c with
  | KDelete k ns name opts =>
      k = KService ∧ ns = Namespace w ∧
      ∃ s, seen_service h s ∧ workloadOwnsService w s = true ∧ name = Name (svc_meta s) ∧
        opts = Build_DeleteOptions (Some (UID (svc_meta s))) (Some (ResourceVersion (svc_meta s)))
                 None None
  | KUpdate k ns o =>
      match k return obj k → Prop with
      | KService => λ o, ∃ h0 name current,
          h = Event _ (KGet KService ns name) (Ok current) :: h0 ∧
          workloadOwnsService w current = true ∧ workloadOwnsService w o = true ∧
          ResourceVersion (svc_meta o) = ResourceVersion (svc_meta current)
      | _ => λ _, True
      end o
  | KCreate k ns o =>
      match k return obj k → Prop with
      | KService => λ o, ns = Namespace w ∧ workloadOwnsService w o = true
      | _ => λ _, False
      end o
  | _ => True
  end.

Lemma owns_by_owner w (s : Service) :
  ownerReference w ∈ OwnerReferences (svc_meta s) →
  mget (Svc_Selector (Svc_Spec s)) "app" = Name w → workloadOwnsService w s = true.
Proof.
  intros Hin Hs. unfold workloadOwnsService. apply andb_true_iff. split.
  - apply existsb_true. exists (ownerReference w). split; [done|].
    by rewrite !bool_decide_true.
  - by apply bool_decide_eq_true.
Qed.

(** A rename changes annotations only: ownership is the same. *)
Lemma owns_renamed w a s : workloadOwnsService (wl_set_annotations a w) s = workloadOwnsService w s.
Proof. done. Qed.

Lemma owned_writes_renamed w a h X (c : cmd X) :
  owned_service_writes (wl_set_annotations a w) h X c ↔ owned_service_writes w h X c.
Proof. done. Qed.

Lemma seen_suffix h h' s : h `suffix_of` h' → seen_service h s → seen_service h' s.
Proof.
  intros [l ->] [(ns & sel & ls & Hin & Hs)|(ns & o & Hin)]; [left|right].
  - exists ns, sel, ls. split; [|done]. set_solver.
  - exists ns, o. set_solver.
Qed.

(** The methods under the guard, from any history, with its extension. *)
Abbreviation owned_safe w := (safe any_answer (owned_service_writes w)).

Ltac owned_step :=
  match goal with
  | |- ∀ _, _ => intro
  | |- owned_safe _ (bind_res _ _) _ => apply safe_bind_res
  | |- owned_safe _ (bind _ _) _ => apply safe_bind
  | |- owned_safe _ (Ret _) _ => apply safe_ret
  | |- owned_safe _ (call (KGet _ _ _)) _ => apply safe_call; exact I
  | |- owned_safe _ (call (KList _ _ _)) _ => apply safe_call; exact I
  | |- owned_safe _ (match ?x with _ => _ end) _ => let E := fresh "E" in destruct x eqn:E
  | |- owned_safe _ (let _ := _ in _) _ => cbv zeta
  end.

Section owned.
Context `{Validation} `{DockerJSON} `{RetryLaws}.
Implicit Types (w : containerWorkload).

Lemma owned_deleteOwnedService w s h :
  seen_service h s → owned_safe w (deleteOwnedService w s) h.
Proof.
  intros Hs. unfold deleteOwnedService. destruct (workloadOwnsService w s) eqn:E; simpl;
    [|apply safe_ret].
  apply (safe_bind _ _ (call _)); [|repeat owned_step].
  apply safe_call. simpl. split_and!; [done..|]. by exists s.
Qed.

(** Listed Services may be passed to deletion. *)
Lemma owned_list_bind w ns selector {B} (f : res (list Service) → proc B) h :
  (∀ h', owned_safe w (f (Err h')) (Event _ (KList KService ns selector) (Err h') :: h)) →
  (∀ l h', (∀ s h2, s ∈ l → h' `suffix_of` h2 → seen_service h2 s) → owned_safe w (f (Ok l)) h') →
  owned_safe w (bind (call (KList KService ns selector)) f) h.
Proof.
  intros Herr Hok. unfold safe. rewrite wp_bind, wp_call. split; [done|].
  intros [l|e] _.
  - eapply safe_wp; [|apply (Hok l)]; [intros; by eapply suffix_cons_l|].
    intros s h2 Hs Hsuf. eapply seen_suffix; [exact Hsuf|]. left.
    exists ns, selector, l. split; [|done]. set_solver.
  - eapply safe_wp; [|apply Herr]. intros; by eapply suffix_cons_l.
Qed.

Lemma owned_removeContainerServices w h : owned_safe w (removeContainerServices w) h.
Proof.
  unfold removeContainerServices. apply owned_list_bind; [intros; apply safe_ret|].
  intros l h' Hl. apply safe_for_each. intros s h2 Hin Hsuf.
  destruct (workloadOwnsService w s); [|apply safe_ret].
  apply owned_deleteOwnedService. by eapply Hl.
Qed.

Lemma owns_aliasService w alias ports : workloadOwnsService w (aliasService w alias ports) = true.
Proof. apply owns_by_owner; [set_solver|]. unfold mget. simpl. by rewrite lookup_singleton_eq. Qed.

Lemma owns_containerDNSService w ports : workloadOwnsService w (containerDNSService w ports) = true.
Proof. apply owns_by_owner; [set_solver|]. unfold mget. simpl. by rewrite lookup_singleton_eq. Qed.

Lemma owned_apply_alias w ports alias h : owned_safe w (apply_alias w ports alias) h.
Proof.
  unfold apply_alias. destruct (decide _); [repeat owned_step|]. cbv zeta.
  apply (safe_bind _ _ (call _)).
  { apply safe_call. split; [done|]. apply owns_aliasService. }
  intros h1 [s|e] _; [apply safe_ret|]. destruct (IsAlreadyExists e); [|apply safe_ret].
  unfold safe at 1. rewrite wp_bind, wp_call. split; [done|]. intros [current|e'] _.
  2: { apply wp_ret. by apply suffix_cons_r. }
  set (h2 := Event _ _ _ :: h1).
  assert (h1 `suffix_of` h2) as Hs by by apply suffix_cons_r.
  eapply safe_wp; [intros ? ? Hx; etrans; [exact Hs|exact Hx]|].
  destruct (workloadOwnsService w current) eqn:Eo; cbn [negb]; [|apply safe_ret].
  destruct (_ && _); [apply safe_ret|].
  apply (safe_bind _ _ (call _)); [|repeat owned_step].
  apply safe_call. simpl. exists h1, alias, current. split_and!; try done.
  rewrite <- (owns_aliasService w alias ports). done.
Qed.

Lemma owned_applyAliasServices w aliases ports h :
  owned_safe w (applyAliasServices w aliases ports) h.
Proof.
  unfold applyAliasServices. apply owned_list_bind; [intros; apply safe_ret|].
  intros l h' Hl. apply safe_bind_res.
  - apply safe_for_each. intros s h2 Hin Hsuf.
    destruct (decide _); [apply safe_ret|]. destruct (decide _); [apply safe_ret|].
    apply owned_deleteOwnedService. by eapply Hl.
  - intros h2 _ _. apply safe_for_each. intros; apply owned_apply_alias.
Qed.

Lemma owned_updates_dep w mutate h : owned_safe w (updateContainerDeployment w mutate) h.
Proof.
  eapply safe_mono; [|apply updateContainerDeployment_wp].
  intros h0 X c. destruct c; simpl; try done. by destruct k.
Qed.

Lemma owned_updates_job w mutate h : owned_safe w (updateContainerJob w mutate) h.
Proof.
  eapply safe_mono; [|apply updateContainerJob_wp].
  intros h0 X c. destruct c; simpl; try done. by destruct k.
Qed.

Lemma owned_listWorkloads w ns h : owned_safe w (listWorkloads ns) h.
Proof. unfold listWorkloads. repeat owned_step. Qed.

Lemma owned_ensureContainerNameAvailable w ns name except h :
  owned_safe w (ensureContainerNameAvailable ns name except) h.
Proof.
  unfold ensureContainerNameAvailable. apply safe_bind_res; [apply owned_listWorkloads|].
  repeat owned_step.
Qed.

Lemma owned_finish_rename w a newName serviceName aliases ports h :
  owned_safe w (finish_rename w (wl_set_annotations a w) newName serviceName aliases ports) h.
Proof.
  unfold finish_rename. unfold safe. rewrite wp_bind, wp_call. split; [done|].
  intros [current|e] _; [|apply wp_ret; by apply suffix_cons_r].
  set (h1 := Event _ _ _ :: h).
  eapply safe_wp; [intros h' r Hx; etrans; [by apply suffix_cons_r|exact Hx]|].
  destruct (workloadOwnsService w current) eqn:Eo; cbn [negb]; [|apply safe_ret].
  cbv zeta. apply (safe_bind _ _ (call _)).
  { apply safe_call. simpl. exists h, serviceName, current. by split_and!. }
  intros h2 [s|e] _; [|apply safe_ret].
  apply safe_bind_res; [exact (owned_applyAliasServices (wl_set_annotations a w) _ _ _)|].
  intros h3 _ _. apply owned_list_bind; [intros; apply safe_ret|].
  intros l h4 Hl. apply safe_for_each. intros s' h5 Hin Hsuf.
  destruct (stale_primary _ _ _ _); [|apply safe_ret].
  apply owned_deleteOwnedService. by eapply Hl.
Qed.

Lemma claim_service_wp w service h :
  workloadOwnsService w service = true →
  wp any_answer (owned_service_writes w) (claim_service w service) h (λ h' r,
    h `suffix_of` h' ∧
    match r with Ok (Some s) => seen_service h' s | _ => True end).
Proof.
  intros Ho. unfold claim_service. rewrite wp_bind, wp_call. split; [by split|].
  intros [s|e] _.
  - apply wp_ret. split; [by apply suffix_cons_r|]. right. eexists _, _. by apply list_elem_of_here.
  - destruct (negb _); [apply wp_ret; split; [by apply suffix_cons_r|done]|].
    rewrite wp_bind, wp_call. split; [done|].
    intros [current|e'] _; [destruct (negb _)|]; apply wp_ret; (split; [|done]);
      apply suffix_cons_r, suffix_cons_r; reflexivity.
Qed.

Lemma owned_rename_locked w newName h : owned_safe w (rename_locked w newName) h.
Proof.
  unfold rename_locked.
  apply safe_bind_res; [apply owned_ensureContainerNameAvailable|]. intros h1 _ _.
  destruct (workloadPublishedPorts w) as [ports|e]; [|apply safe_ret].
  destruct (decodeContainerAliases _) as [aliases|e]; [|apply safe_ret]. cbv zeta.
  set (service := containerDNSService _ ports). unfold safe. rewrite wp_bind_res.
  assert (workloadOwnsService w service = true) as Ho
    by exact (owns_containerDNSService (wl_set_annotations _ w) ports).
  eapply wp_post; [|exact (claim_service_wp w service h1 Ho)].
  intros h2 [created|e] [Hs Hseen]; [|done].
  eapply safe_wp; [intros h' r Hx; etrans; [exact Hs|exact Hx]|].
  apply safe_bind.
  - unfold setContainerName. destruct (OneShot w); [apply owned_updates_job|].
    apply safe_bind_res; [apply owned_updates_dep|]. repeat owned_step.
  - intros h3 [u|e] Hs3; [apply owned_finish_rename|].
    destruct created as [s|]; [|apply safe_ret].
    apply safe_bind; [|repeat owned_step].
    apply owned_deleteOwnedService. by eapply seen_suffix.
Qed.

Lemma owned_claimContainerAliases w h : owned_safe w (claimContainerAliases w) h.
Proof.
  unfold claimContainerAliases, with_mutex, defer. apply (safe_bind _ _ (call _)).
  { by apply safe_call. }
  intros h1 _ _. apply safe_bind; [|intros; apply (safe_bind _ _ (call _));
    [by apply safe_call|repeat owned_step]].
  destruct (decodeContainerAliases _); [|apply safe_ret].
  destruct (decide _); [apply safe_ret|].
  destruct (workloadPublishedPorts w); [|apply safe_ret]. apply owned_applyAliasServices.
Qed.

Lemma owned_setContainerAliases w aliases h : owned_safe w (setContainerAliases w aliases) h.
Proof.
  unfold setContainerAliases. destruct (encodeContainerAliases aliases); [|apply safe_ret].
  destruct (workloadPublishedPorts w); [|apply safe_ret].
  apply safe_bind_res; [apply owned_applyAliasServices|]. intros h1 _ _.
  unfold updateWorkloadAnnotations. destruct (OneShot w); [apply owned_updates_job|].
  apply safe_bind_res; [apply owned_updates_dep|]. repeat owned_step.
Qed.

(** C9: Services are changed only by the container that owns them.  While a
    container is renamed or removed, or its aliases are claimed or rewritten,
    every Service that is deleted was shown by the API server, is owned by the
    container and is deleted under the UID and resource version that were seen;
    every Service that is overwritten was read just before, is owned and keeps
    its resource version; every Service that is created is owned by the
    container; nothing else is created or deleted. *)
Theorem service_writes_are_owned w :
  (∀ newName h h' r, exec (rename_locked w newName) h h' r → guarded (owned_service_writes w) h h') ∧
  (∀ h h' r, exec (removeContainerServices w) h h' r → guarded (owned_service_writes w) h h') ∧
  (∀ h h' r, exec (claimContainerAliases w) h h' r → guarded (owned_service_writes w) h h') ∧
  (∀ aliases h h' r, exec (setContainerAliases w aliases) h h' r →
     guarded (owned_service_writes w) h h').
Proof.
  assert (∀ A (p : proc A) h h' r, owned_safe w p h → exec p h h' r →
            guarded (owned_service_writes w) h h') as Hguard.
  { intros A p h h' r Hp Hex. refine (proj2 (wp_exec _ _ _ _ _ _ _ Hp Hex _)).
    apply along_any; [done|]. by eapply exec_suffix. }
  split_and!; intros *; apply Hguard.
  - apply owned_rename_locked.
  - apply owned_removeContainerServices.
  - apply owned_claimContainerAliases.
  - apply owned_setContainerAliases.
Qed.
End owned.

(** Renaming [web] to [site] on the sample cluster succeeds. *)
Lemma service_writes_are_owned_witness :
  let w := deploymentWorkload (sample_deployment "acme" "web" "3f25-04e0" 1) in
  let p := @rename_locked demo_validation demo_docker_json demo_retry w "site" in
  (simulate p sample_cluster).1.1 = Ok tt ∧
  guarded (owned_service_writes w) [] (simulate p sample_cluster).1.2.
Proof.
  intros w p. split; [vm_compute; reflexivity|].
  eapply (proj1 (@service_writes_are_owned demo_validation demo_docker_json demo_retry
                   demo_retry_laws w)). apply simulate_exec.
Defined.

(** ** Properties: aliases *)

(** The names of one endpoint, without duplicates and in order. *)
Definition endpoint_names (endpoint : option EndpointSettings) : list string :=
  match endpoint with
  | None => []
  | Some e => slices_Compact (slices_Sort (Aliases e ++ DNSNames e)%list)
  end.

Section aliases.
Context `{ValidationLaws} `{DockerJSONLaws}.

Lemma endpoint_aliases_spec endpoint :
  match endpoint_aliases endpoint with
  | Ok names => names = endpoint_names endpoint ∧ ∀ a, a ∈ names → dns1035_label a = true
  | Err e => kind_of e = Some KindInvalidArgument ∧
      ∃ a, a ∈ endpoint_names endpoint ∧ dns1035_label a = false
  end.
Proof.
  unfold endpoint_aliases, endpoint_names. destruct endpoint as [e|]; [|split; [done|set_solver]].
  destruct (forallb _ _) eqn:E.
  - split; [done|]. rewrite forallb_true in E. intros a Ha%E.
    by apply no_problems_spec, IsDNS1035Label_spec in Ha.
  - split; [done|]. apply forallb_false in E as (a & Ha & Hf). exists a. split; [done|].
    apply not_true_iff_false. rewrite <- IsDNS1035Label_spec, <- no_problems_spec. by rewrite Hf.
Qed.

Lemma aliasesFromEndpoints_ok endpoints aliases :
  aliasesFromEndpoints endpoints = Ok aliases →
  ∀ name names, aliases !! name = Some names ↔
    ∃ endpoint, endpoints !! name = Some endpoint ∧ names = endpoint_names endpoint ∧ names ≠ [].
Proof.
  unfold aliasesFromEndpoints. intros Ha. apply result_bind_ok in Ha as (entries & He & Ha).
  injection Ha as <-. apply result_mapM_ok in He.
  assert (entries = (λ e, (e.1, endpoint_names e.2)) <$> map_to_list endpoints) as ->.
  { clear -He H0 H2. induction He as [|[n e] y l ys Hy _ IH]; [done|].
    rewrite fmap_cons. simpl. apply result_bind_ok in Hy as (names & Hn & [= <-]).
    pose proof (endpoint_aliases_spec e) as Hs. rewrite Hn in Hs. destruct Hs as [-> _].
    by f_equal. }
  intros name names. rewrite <- elem_of_list_to_map.
  - rewrite list_elem_of_In, List.filter_In, <- list_elem_of_In, list_elem_of_fmap. simpl.
    rewrite negb_true_iff, bool_decide_eq_false. split.
    + intros [([n e] & [= -> ->] & Hin%elem_of_map_to_list) Hne]. eauto.
    + intros (e & He' & -> & Hne). split; [|done]. exists (name, e).
      split; [done|]. by apply elem_of_map_to_list.
  - assert (∀ l : list (string * option EndpointSettings), NoDup l.*1 →
      NoDup (List.filter (λ e, negb (bool_decide (e.2 = [])))
        ((λ e, (e.1, endpoint_names e.2)) <$> l)).*1) as Hnd; [|apply Hnd, NoDup_fst_map_to_list].
    induction l as [|[n e] l IH]; simpl; [done|]. intros [Hni Hnd]%NoDup_cons.
    destruct (negb _); simpl; [|auto]. constructor; [|auto].
    intros Hin. apply Hni. apply list_elem_of_fmap in Hin as ([n1 names1] & -> & Hin).
    apply list_elem_of_In, List.filter_In in Hin as [Hin _]. apply list_elem_of_In in Hin.
    apply list_elem_of_fmap in Hin as ([n2 e2] & [= -> ->] & Hin).
    apply list_elem_of_fmap. by exists (n2, e2).
Qed.

Lemma distinctAliases_elem aliases a :
  a ∈ distinctAliases aliases ↔ ∃ network names, aliases !! network = Some names ∧ a ∈ names.
Proof.
  unfold distinctAliases. rewrite elem_of_slices_Compact, elem_of_slices_Sort.
  rewrite list_elem_of_In, in_concat. split.
  - intros (names & Hn & Ha). apply list_elem_of_In in Hn, Ha.
    apply list_elem_of_fmap in Hn as ([n l] & -> & Hin%elem_of_map_to_list). eauto.
  - intros (n & l & Hl & Ha). exists l. rewrite <- !list_elem_of_In. split; [|done].
    apply list_elem_of_fmap. exists (n, l). split; [done|]. by apply elem_of_map_to_list.
Qed.

(** Network aliases are recorded faithfully.  The aliases taken from a
    request are, for each network that has any, the distinct names of its
    endpoint in order, all legal Service names; the annotation they are stored
    in decodes to the same aliases, and its absence to none; and the Services to
    create are exactly the distinct aliases over all networks. *)
Theorem aliases_recorded endpoints aliases annotations encoded :
  aliasesFromEndpoints endpoints = Ok aliases → encodeContainerAliases aliases = Ok encoded →
  (∀ network names, aliases !! network = Some names ↔
     ∃ endpoint, endpoints !! network = Some endpoint ∧ names = endpoint_names endpoint ∧
       names ≠ []) ∧
  decodeContainerAliases
    (if decide (encoded = "") then delete containerAliasAnnotation annotations
     else <[containerAliasAnnotation := encoded]> annotations) = Ok aliases ∧
  NoDup (distinctAliases aliases) ∧
  (∀ a, a ∈ distinctAliases aliases ↔
     ∃ network endpoint, endpoints !! network = Some endpoint ∧ a ∈ endpoint_names endpoint) ∧
  (∀ a, a ∈ distinctAliases aliases → dns1035_label a = true).
Proof.
  intros Ha He. pose proof (aliasesFromEndpoints_ok _ _ Ha) as Hspec.
  assert (∀ a, a ∈ distinctAliases aliases ↔
    ∃ network endpoint, endpoints !! network = Some endpoint ∧ a ∈ endpoint_names endpoint) as Hel.
  { intros a. rewrite distinctAliases_elem. setoid_rewrite Hspec. split.
    - intros (n & ? & (e & ? & -> & _) & ?). eauto.
    - intros (n & e & ? & Hin). exists n, (endpoint_names e). split; [|done].
      exists e. split_and!; [done..|]. by intros Hnil; rewrite Hnil in Hin; apply elem_of_nil in Hin. }
  split; [done|]. split; [|split; [|split; [done|]]].
  - unfold encodeContainerAliases in He. unfold decodeContainerAliases, mget.
    destruct (decide (aliases = ∅)) as [->|Hne].
    + injection He as <-. by rewrite (decide_True (P := "" = "")), lookup_delete_eq by done.
    + destruct (Marshal_aliases aliases) as [s|] eqn:Em; [|done]. injection He as <-.
      assert (s ≠ "") as Hs by (intros ->; by apply Marshal_aliases_nonempty in Em).
      rewrite (decide_False (P := s = "")), lookup_insert_eq by done. simpl.
      rewrite decide_False by done. by rewrite (Unmarshal_Marshal_aliases _ _ Em).
  - apply (slices_Compact_NoDup String.le), slices_Sort_Sorted.
  - intros a (n & e & Hn & Hin)%Hel. unfold aliasesFromEndpoints in Ha.
    apply result_bind_ok in Ha as (entries & Hentries & _).
    destruct (proj1 (result_mapM_elem _ _ _ Hentries) (n, e)) as (y & _ & Hy);
      [by apply elem_of_map_to_list|].
    apply result_bind_ok in Hy as (names & Hnames & _).
    pose proof (endpoint_aliases_spec e) as Hs. rewrite Hnames in Hs.
    destruct Hs as [-> Hs]. auto.
Qed.
End aliases.

Lemma aliases_recorded_witness :
  let endpoints : gmap string (option EndpointSettings) :=
    {["front" := Some {| Aliases := ["www"; "api"]; DNSNames := ["api"] |}; "back" := None]} in
  ∃ aliases encoded,
    @aliasesFromEndpoints demo_validation endpoints = Ok aliases ∧
    @decodeContainerAliases demo_docker_json {[containerAliasAnnotation := encoded]} = Ok aliases ∧
    distinctAliases aliases = ["api"; "www"].
Proof.
  intros endpoints.
  destruct (@aliasesFromEndpoints demo_validation endpoints) as [aliases|e] eqn:Ha;
    [|vm_compute in Ha; discriminate Ha].
  destruct (@encodeContainerAliases demo_docker_json aliases) as [encoded|e] eqn:He;
    [|vm_compute in Ha; injection Ha as <-; vm_compute in He; discriminate He].
  pose proof (@aliases_recorded demo_validation demo_validation_laws demo_docker_json
    demo_docker_json_laws endpoints aliases ∅ encoded Ha He) as (_ & Hd & _).
  exists aliases, encoded. split; [reflexivity|].
  vm_compute in Ha. injection Ha as <-. vm_compute in He. injection He as <-.
  split; [exact Hd|vm_compute; reflexivity].
Defined.
