(* ===== verification/Resources.v ===== *)
(** * Resources: CPU and memory of a container

    [containerResources] of [core/translator/container.go], the tenant defaults of
    [container_create.go], [ResourceDefaults.Validate] of [core/config/config.go]
    and node placement.  Docker's numbers are 64-bit integers and the arithmetic on
    them is written with its wrap-around; a Kubernetes quantity is its value in
    units of 10^-9, and its textual syntax is a parameter. *)

From S2P Require Import Prelude GoStrings Errors Prog Docker.
From S2P Require Export Kube.

Local Open Scope Z_scope.

Definition int64 (z : Z) : Z := wrap_signed 64 z.

(** [resource.NewQuantity] and [NewMilliQuantity] *)
Definition NewQuantity (v : Z) : quantity := v * 10 ^ 9.
Definition NewMilliQuantity (v : Z) : quantity := v * 10 ^ 6.

(** Rounded up, away from zero. *)
Definition round_up (q unit : Z) : Z := if 0 <=? q then (q + unit - 1) / unit else - ((- q + unit - 1) / unit).
Definition MilliValue (q : quantity) : Z := int64 (round_up q (10 ^ 6)).
Definition Value (q : quantity) : Z := int64 (round_up q (10 ^ 9)).

Class Quantities := {
  ParseQuantity : string → option quantity;
  Quantity_String : quantity → string
}.

Definition resource_error (text : string) : error := errors_New text.

(** The remaining fields that the code rejects when set. *)
Definition unsupported_resource (o : Resources) : bool :=
  match MemorySwappiness o with Some s => negb (s =? -1) | None => false end ||
  match OomKillDisable o with Some b => b | None => false end ||
  match PidsLimit o with Some n => negb (n =? 0) | None => false end ||
  existsb snd (OtherResources o).

(** The three parts of [containerResources] that can fail. *)
Definition memory_requests (o : Resources) : res ResourceList :=
  if 0 <? MemoryReservation o then
    if (0 <? Memory o) && (Memory o <? MemoryReservation o)
    then Err (resource_error "memory reservation exceeds memory limit")
    else Ok {[ResourceMemory := NewQuantity (MemoryReservation o)]}
  else Ok ∅.

Definition nano_limit (o : Resources) (limits : ResourceList) : res ResourceList :=
  if 0 <? NanoCPUs o then
    if negb (Z.rem (NanoCPUs o) 1000000 =? 0)
    then Err (resource_error "CPU limit must be a whole number of millicores")
    else Ok (<[ResourceCPU := NewMilliQuantity (Z.quot (NanoCPUs o) 1000000)]> limits)
  else Ok limits.

Definition quota_limit (o : Resources) (limits : ResourceList) : res ResourceList :=
  if 0 <? CPUQuota o then
    let period := if CPUPeriod o =? 0 then 100000 else CPUPeriod o in
    if (Z.quot int64_max 1000 <? CPUQuota o) ||
       negb (Z.rem (int64 (CPUQuota o * 1000)) period =? 0)
    then Err (resource_error "CPU quota cannot be represented in whole millicores")
    else Ok (<[ResourceCPU := NewMilliQuantity (Z.quot (int64 (CPUQuota o * 1000)) period)]> limits)
  else if negb (CPUPeriod o =? 0)
  then Err (resource_error "CPU period without a quota is not supported")
  else Ok limits.

Definition containerResources (hostConfig : option HostConfig) : res ResourceRequirements :=
  match hostConfig with
  | None => Ok {| Limits := ∅; Requests := ∅ |}
  | Some h =>
      let o := host_Resources h in
      if (Memory o <? 0) || (MemoryReservation o <? 0) || (NanoCPUs o <? 0) ||
         (CPUQuota o <? -1) || (CPUPeriod o <? 0)
      then Err (resource_error "invalid negative container resource value")
      else
        let limits : ResourceList :=
          if 0 <? Memory o then {[ResourceMemory := NewQuantity (Memory o)]} else ∅ in
        let? requests := memory_requests o in
        if (0 <? NanoCPUs o) && (0 <? CPUQuota o)
        then Err (resource_error "NanoCPUs and CPUQuota cannot be combined")
        else
          let? limits := nano_limit o limits in
          let? limits := quota_limit o limits in
          if unsupported_resource o
          then Err (resource_error "unsupported container resource %s")
          else Ok {| Limits := limits; Requests := requests |}
  end.

(** ** Tenant defaults *)

Record ResourceValues := { CPU : string; Mem : string }.
Record ResourceDefaults := { default_Limits : ResourceValues; default_Requests : ResourceValues }.

Section defaults.
Context `{Quantities}.

(** One entry of [ResourceDefaults.Validate]. *)
Definition valid_default (is_cpu : bool) (value : string) : bool :=
  if decide (value = ""%string) then true
  else match ParseQuantity value with
  | None => false
  | Some q =>
      (0 <? q) &&
      if is_cpu
      then (q <=? NewMilliQuantity (Z.quot int64_max 1000000)) && (q =? NewMilliQuantity (MilliValue q))
      else (q <=? NewQuantity int64_max) && (q =? NewQuantity (Value q))
  end.

(** The comparison of a request with a limit; an unparsable one is reported above. *)
Definition request_within (request limit : string) : bool :=
  if bool_decide (request = ""%string) || bool_decide (limit = ""%string) then true
  else match ParseQuantity request, ParseQuantity limit with
       | Some request, Some limit => request <=? limit
       | _, _ => true
       end.

(** [ResourceDefaults.Validate]: whether no error is joined. *)
Definition Validate_defaults (d : ResourceDefaults) : bool :=
  valid_default true (CPU (default_Limits d)) && valid_default false (Mem (default_Limits d)) &&
  valid_default true (CPU (default_Requests d)) && valid_default false (Mem (default_Requests d)) &&
  request_within (CPU (default_Requests d)) (CPU (default_Limits d)) &&
  request_within (Mem (default_Requests d)) (Mem (default_Limits d)).

(** [tenantResourceDefaults]: [Decode] is the strict decoding of one JSON object. *)
Definition override_value (base override : string) : string :=
  if decide (override = ""%string) then base else override.

Definition override_defaults (base override : ResourceDefaults) : ResourceDefaults := {|
  default_Limits := {|
    CPU := override_value (CPU (default_Limits base)) (CPU (default_Limits override));
    Mem := override_value (Mem (default_Limits base)) (Mem (default_Limits override)) |};
  default_Requests := {|
    CPU := override_value (CPU (default_Requests base)) (CPU (default_Requests override));
    Mem := override_value (Mem (default_Requests base)) (Mem (default_Requests override)) |} |}.

Definition tenantResourceDefaults (Decode : string → option ResourceDefaults)
    (defaultResources : ResourceDefaults) (namespace : string) : proc (res ResourceDefaults) :=
  do configMap <- call (KGet KConfigMap namespace "dink-resource-defaults"%string);
  match configMap with
  | Err e => if IsNotFound e then Ret (Ok defaultResources) else Ret (Err (kubeError e))
  | Ok configMap =>
      match CM_Data configMap !! "resources.json"%string with
      | None => Ret (Err (errors_New "%s/%s is missing resources.json"))
      | Some data =>
          match Decode data with
          | None => Ret (Err (errors_New "decoding resource defaults for %s: %w"))
          | Some override =>
              let defaults := override_defaults defaultResources override in
              if Validate_defaults defaults then Ret (Ok defaults)
              else Ret (Err (errors_New "invalid resource defaults for %s: %w"))
          end
      end
  end.

(** One of the two bodies over [Limits]. *)
Definition default_limit (name value : string) (s : HostConfig * ResourceRequirements) :
    res (HostConfig * ResourceRequirements) :=
  let '(h, r) := s in
  if bool_decide (is_Some (Limits r !! name)) || bool_decide (value = ""%string) then Ok s
  else match ParseQuantity value with
  | None => Err (resource_error "quantity")
  | Some q =>
      let o := host_Resources h in
      let o := if decide (name = ResourceCPU)
        then {| Memory := Memory o; MemoryReservation := MemoryReservation o;
                NanoCPUs := int64 (MilliValue q * 1000000); CPUQuota := CPUQuota o;
                CPUPeriod := CPUPeriod o; MemorySwappiness := MemorySwappiness o;
                OomKillDisable := OomKillDisable o; PidsLimit := PidsLimit o;
                OtherResources := OtherResources o |}
        else {| Memory := Value q; MemoryReservation := MemoryReservation o;
                NanoCPUs := NanoCPUs o; CPUQuota := CPUQuota o;
                CPUPeriod := CPUPeriod o; MemorySwappiness := MemorySwappiness o;
                OomKillDisable := OomKillDisable o; PidsLimit := PidsLimit o;
                OtherResources := OtherResources o |} in
      Ok (host_set_resources o h, {| Limits := <[name := q]> (Limits r); Requests := Requests r |})
  end.

(** One of the two bodies over [Requests]: a default is capped by the limit. *)
Definition default_request (name value : string) (s : HostConfig * ResourceRequirements) :
    res (HostConfig * ResourceRequirements) :=
  let '(h, r) := s in
  if bool_decide (is_Some (Requests r !! name)) || bool_decide (value = ""%string) then Ok s
  else match ParseQuantity value with
  | None => Err (resource_error "quantity")
  | Some q =>
      let q := match Limits r !! name with
               | Some limit => if limit <? q then limit else q
               | None => q
               end in
      let o := host_Resources h in
      let o := if decide (name = ResourceMemory)
        then {| Memory := Memory o; MemoryReservation := Value q; NanoCPUs := NanoCPUs o;
                CPUQuota := CPUQuota o; CPUPeriod := CPUPeriod o;
                MemorySwappiness := MemorySwappiness o; OomKillDisable := OomKillDisable o;
                PidsLimit := PidsLimit o; OtherResources := OtherResources o |}
        else o in
      Ok (host_set_resources o h, {| Limits := Limits r; Requests := <[name := q]> (Requests r) |})
  end.

(** [applyResourceDefaults]: the host configuration and the resources it leaves. *)
Definition applyResourceDefaults (hostConfig : option HostConfig) (r : ResourceRequirements)
    (defaults : ResourceDefaults) : res (HostConfig * ResourceRequirements) :=
  let h := default empty_host_config hostConfig in
  let? s := default_limit ResourceCPU (CPU (default_Limits defaults)) (h, r) in
  let? s := default_limit ResourceMemory (Mem (default_Limits defaults)) s in
  let? s := default_request ResourceCPU (CPU (default_Requests defaults)) s in
  let? '(h, r) := default_request ResourceMemory (Mem (default_Requests defaults)) s in
  if existsb (λ '(name, requested),
       match Limits r !! name with Some limit => limit <? requested | None => false end)
       (map_to_list (Requests r))
  then Err (resource_error "%s request exceeds effective limit")
  else
    let h := match Requests r !! ResourceCPU with
             | Some cpu => host_set_annotations
                 (<["dink.io/requests.cpu"%string := Quantity_String cpu]> (host_Annotations h)) h
             | None => h
             end in
    Ok (h, r).
(** Only the resources and the annotations of the host configuration change. *)
Definition same_mode (h h' : HostConfig) : Prop :=
  NetworkMode h' = NetworkMode h ∧ AutoRemove h' = AutoRemove h.

Lemma default_limit_mode name value s s' : default_limit name value s = Ok s' → same_mode s.1 s'.1.
Proof.
  destruct s as [h r]. unfold default_limit. destruct (_ || _); [by intros [= <-]|].
  destruct (ParseQuantity value); [|done]. by intros [= <-].
Qed.

Lemma default_request_mode name value s s' : default_request name value s = Ok s' → same_mode s.1 s'.1.
Proof.
  destruct s as [h r]. unfold default_request. destruct (_ || _); [by intros [= <-]|].
  destruct (ParseQuantity value); [|done]. by intros [= <-].
Qed.

Lemma applyResourceDefaults_mode hostConfig r defaults h r' :
  applyResourceDefaults hostConfig r defaults = Ok (h, r') →
  same_mode (default empty_host_config hostConfig) h.
Proof.
  unfold applyResourceDefaults. intros (s1 & H1%default_limit_mode & (s2 & H2%default_limit_mode &
    (s3 & H3%default_request_mode & ([h4 r4] & H4%default_request_mode & Hr)%result_bind_ok)
    %result_bind_ok)%result_bind_ok)%result_bind_ok.
  destruct (existsb _ _); [done|]. injection Hr as <- _.
  assert (same_mode (default empty_host_config hostConfig) h4) as [Hn Ha].
  { destruct H1, H2, H3, H4. simpl in *. split; congruence. }
  by destruct (Requests r4 !! ResourceCPU).
Qed.
End defaults.

(** [NodePlacement] and [applyNodePlacement] of [container_placement.go] *)
Record NodePlacement := {
  Enabled : option bool;
  LabelKey : string;
  Tolerate : option bool
}.

Definition IsEnabled (n : NodePlacement) : bool :=
  match Enabled n with Some b => b | None => false end.
Definition TolerationsEnabled (n : NodePlacement) : bool :=
  match Tolerate n with Some b => b | None => true end.

Definition placement_selector (key namespace : string) : NodeSelector :=
  [[{| Req_Key := key; Req_Operator := OpDoesNotExist; Req_Values := [] |}];
   [{| Req_Key := key; Req_Operator := OpIn; Req_Values := [namespace] |}]].

Definition applyNodePlacement (spec : PodSpec) (placement : NodePlacement) (namespace : string) :
    PodSpec :=
  if negb (IsEnabled placement) || bool_decide (namespace = ""%string) then spec
  else spec_set_placement (Some (placement_selector (LabelKey placement) namespace))
    (if TolerationsEnabled placement
     then (Tolerations spec ++ [{| Tol_Key := LabelKey placement; Tol_Operator := "Equal";
                                   Tol_Value := namespace; Tol_Effect := "NoSchedule" |}])%list
     else Tolerations spec) spec.

(** ** Properties *)

(** The period of a quota: Docker's default is 100ms. *)
Definition effective_period (o : Resources) : Z :=
  if CPUPeriod o =? 0 then 100000 else CPUPeriod o.

(** The requests that the backend can represent. *)
Definition supported (o : Resources) : Prop :=
  (0 ≤ Memory o ∧ 0 ≤ MemoryReservation o ∧ 0 ≤ NanoCPUs o ∧ -1 ≤ CPUQuota o ∧ 0 ≤ CPUPeriod o) ∧
  (0 < Memory o → 0 < MemoryReservation o → MemoryReservation o ≤ Memory o) ∧
  ¬ (0 < NanoCPUs o ∧ 0 < CPUQuota o) ∧
  (10 ^ 6 | NanoCPUs o) ∧
  (0 < CPUQuota o → CPUQuota o ≤ int64_max / 1000 ∧ (effective_period o | CPUQuota o * 1000)) ∧
  (CPUQuota o ≤ 0 → CPUPeriod o = 0) ∧
  unsupported_resource o = false.

(** The CPU limit in units of 10^-9 CPU. *)
Definition cpu_limit (o : Resources) : option Z :=
  if 0 <? NanoCPUs o then Some (NanoCPUs o)
  else if 0 <? CPUQuota o then Some (CPUQuota o * 10 ^ 9 / effective_period o)
  else None.

Definition positive_quantity (z : Z) : option quantity :=
  if 0 <? z then Some (NewQuantity z) else None.

(** The divisibility test on a non-negative number. *)
Lemma rem_test a b : 0 ≤ a → 0 < b → (Z.rem a b =? 0) = true ↔ (b | a).
Proof.
  intros Ha Hb. rewrite Z.rem_mod_nonneg by lia. rewrite Z.eqb_eq. by apply Z.mod_divide; lia.
Qed.

Lemma quota_no_overflow o :
  0 < CPUQuota o → CPUQuota o ≤ int64_max / 1000 → int64 (CPUQuota o * 1000) = CPUQuota o * 1000.
Proof.
  intros H0 Hm. apply wrap_signed_id; [lia|]. unfold int64_max in Hm.
  assert (1000 * ((2 ^ 63 - 1) / 1000) ≤ 2 ^ 63 - 1) by (apply Z.mul_div_le; lia). lia.
Qed.

Lemma quota_milli q period : 0 < period → (period | q * 1000) →
  NewMilliQuantity (Z.quot (q * 1000) period) = q * 10 ^ 9 / period ∧
  q * 10 ^ 9 / period * period = q * 10 ^ 9.
Proof.
  intros Hp [k Hk]. rewrite Hk, Z.quot_mul by lia. unfold NewMilliQuantity.
  replace (q * 10 ^ 9) with (k * 10 ^ 6 * period) by lia.
  rewrite Z.div_mul by lia. lia.
Qed.

Lemma memory_requests_spec o :
  match memory_requests o with
  | Ok requests =>
      (0 < Memory o → 0 < MemoryReservation o → MemoryReservation o ≤ Memory o) ∧
      requests !! ResourceMemory = positive_quantity (MemoryReservation o) ∧
      ∀ name, name ≠ ResourceMemory → requests !! name = None
  | Err _ => 0 < Memory o ∧ 0 < MemoryReservation o ∧ Memory o < MemoryReservation o
  end.
Proof.
  unfold memory_requests, positive_quantity. destruct (Z.ltb_spec 0 (MemoryReservation o)).
  - destruct (Z.ltb_spec 0 (Memory o)), (Z.ltb_spec (Memory o) (MemoryReservation o)); simpl;
      try lia; (split; [lia|]); (split; [apply lookup_singleton_eq|]); intros; by apply lookup_singleton_ne.
  - split; [lia|]. by split.
Qed.

Lemma nano_limit_spec o limits :
  0 ≤ NanoCPUs o →
  match nano_limit o limits with
  | Ok limits' =>
      (10 ^ 6 | NanoCPUs o) ∧
      limits' = if 0 <? NanoCPUs o then <[ResourceCPU := NanoCPUs o]> limits else limits
  | Err _ => ¬ (10 ^ 6 | NanoCPUs o)
  end.
Proof.
  intros Hn. unfold nano_limit. destruct (Z.ltb_spec 0 (NanoCPUs o)).
  - pose proof (rem_test (NanoCPUs o) 1000000 Hn ltac:(lia)) as Ht.
    destruct (Z.rem (NanoCPUs o) 1000000 =? 0); simpl.
    + destruct (proj1 Ht eq_refl) as [k Hk]. split; [by exists k|]. f_equal.
      rewrite Hk, Z.quot_mul by lia. unfold NewMilliQuantity. lia.
    + intros Hd. by apply Ht in Hd.
  - split; [|done]. replace (NanoCPUs o) with 0 by lia. apply Z.divide_0_r.
Qed.

Lemma quota_limit_spec o limits :
  -1 ≤ CPUQuota o → 0 ≤ CPUPeriod o →
  match quota_limit o limits with
  | Ok limits' =>
      (0 < CPUQuota o → CPUQuota o ≤ int64_max / 1000 ∧ (effective_period o | CPUQuota o * 1000)) ∧
      (CPUQuota o ≤ 0 → CPUPeriod o = 0) ∧
      limits' = if 0 <? CPUQuota o
                then <[ResourceCPU := CPUQuota o * 10 ^ 9 / effective_period o]> limits else limits
  | Err _ =>
      ¬ ((0 < CPUQuota o →
            CPUQuota o ≤ int64_max / 1000 ∧ (effective_period o | CPUQuota o * 1000)) ∧
         (CPUQuota o ≤ 0 → CPUPeriod o = 0))
  end.
Proof.
  intros Hq Hp. unfold quota_limit. fold (effective_period o). cbv zeta.
  change (Z.quot int64_max 1000) with (int64_max / 1000).
  assert (0 < effective_period o) as Hpos
    by (unfold effective_period; destruct (Z.eqb_spec (CPUPeriod o) 0); lia).
  destruct (Z.ltb_spec 0 (CPUQuota o)) as [H0|H0].
  - destruct (Z.ltb_spec (int64_max / 1000) (CPUQuota o)) as [Hm|Hm]; simpl; [lia|].
    rewrite (quota_no_overflow _ H0 Hm).
    pose proof (rem_test (CPUQuota o * 1000) _ ltac:(lia) Hpos) as Ht.
    destruct (Z.rem (CPUQuota o * 1000) (effective_period o) =? 0); simpl.
    + pose proof (proj1 Ht eq_refl) as Hd. split; [done|]. split; [lia|].
      by rewrite (proj1 (quota_milli _ _ Hpos Hd)).
    + intros [Hd _]. destruct (Hd H0) as [_ Hd']. by apply Ht in Hd'.
  - destruct (Z.eqb_spec (CPUPeriod o) 0) as [Hz|Hz]; simpl; [|lia]. split; [lia|]. by split.
Qed.

(** resource requests are translated exactly or refused.  The translation
    succeeds exactly for the supported requests; then the memory limit and
    request are the bytes asked for, the CPU limit is NanoCPUs, or quota divided
    by period with no rounding and no 64-bit overflow, there are no other limits
    or requests, and no memory request exceeds its limit. *)
Theorem containerResources_exact h :
  let o := host_Resources h in
  match containerResources (Some h) with
  | Ok r =>
      supported o ∧
      Limits r !! ResourceMemory = positive_quantity (Memory o) ∧
      Requests r !! ResourceMemory = positive_quantity (MemoryReservation o) ∧
      Limits r !! ResourceCPU = cpu_limit o ∧
      (0 < CPUQuota o → CPUQuota o * 10 ^ 9 / effective_period o * effective_period o =
                        CPUQuota o * 10 ^ 9) ∧
      (∀ name, name ≠ ResourceMemory → Requests r !! name = None) ∧
      (∀ name, name ≠ ResourceMemory → name ≠ ResourceCPU → Limits r !! name = None)
  | Err _ => ¬ supported o
  end.
Proof.
  intros o. unfold containerResources, supported. fold o.
  destruct (_ || _ || _ || _ || _) eqn:Eneg; [intros (? & _); rewrite !orb_true_iff in Eneg; lia|].
  rewrite !orb_false_iff in Eneg. cbv zeta.
  pose proof (memory_requests_spec o) as Hmem. destruct (memory_requests o) as [requests|];
    simpl; [|intros (_ & Hm & _); lia].
  destruct Hmem as (Hmem & Hreq & Hreq').
  destruct ((0 <? NanoCPUs o) && (0 <? CPUQuota o)) eqn:Eboth;
    [apply andb_true_iff in Eboth; intros (_ & _ & Hb & _); lia|].
  assert (0 ≤ NanoCPUs o) as Hn by lia.
  pose proof (nano_limit_spec o (if 0 <? Memory o then {[ResourceMemory := NewQuantity (Memory o)]}
                                 else ∅) Hn) as Hnano.
  destruct (nano_limit o _) as [limits1|]; simpl; [|tauto]. destruct Hnano as [Hdiv ->].
  pose proof (quota_limit_spec o (if 0 <? NanoCPUs o then <[ResourceCPU := NanoCPUs o]>
    (if 0 <? Memory o then {[ResourceMemory := NewQuantity (Memory o)]} else ∅)
    else (if 0 <? Memory o then {[ResourceMemory := NewQuantity (Memory o)]} else ∅))
    ltac:(lia) ltac:(lia)) as Hquota.
  destruct (quota_limit o _) as [limits2|]; simpl; [|tauto].
  destruct Hquota as (Hq & Hp & ->).
  destruct (unsupported_resource o) eqn:Eu; simpl; [by intros (_ & _ & _ & _ & _ & _ & ?)|].
  split; [split_and!; try done; try lia; apply andb_false_iff in Eboth; lia|].
  unfold positive_quantity, cpu_limit. split; [|split; [done|split]].
  - destruct (0 <? CPUQuota o), (0 <? NanoCPUs o), (0 <? Memory o);
      rewrite ?lookup_insert_ne, ?lookup_singleton_eq, ?lookup_empty by done; done.
  - destruct (0 <? NanoCPUs o) eqn:E1, (0 <? CPUQuota o) eqn:E2; simpl in Eboth; try done;
      destruct (0 <? Memory o);
      rewrite ?lookup_insert_eq, ?lookup_singleton_ne, ?lookup_empty by done; done.
  - split; [|split; [done|]].
    + intros H0. apply quota_milli; [|by apply Hq].
      unfold effective_period. destruct (Z.eqb_spec (CPUPeriod o) 0); lia.
    + intros name H1 H2. destruct (0 <? CPUQuota o), (0 <? NanoCPUs o), (0 <? Memory o);
        rewrite ?lookup_insert_ne, ?lookup_singleton_ne, ?lookup_empty by done; done.
Qed.

Lemma containerResources_exact_witness :
  let h := host_set_resources {| Memory := 1024; MemoryReservation := 0; NanoCPUs := 0;
    CPUQuota := 50000; CPUPeriod := 0; MemorySwappiness := None; OomKillDisable := None;
    PidsLimit := None; OtherResources := [] |} empty_host_config in
  ∃ r, containerResources (Some h) = Ok r ∧ Limits r !! ResourceCPU = Some 500000000.
Proof.
  intros h. pose proof (containerResources_exact h) as H.
  destruct (containerResources (Some h)) as [r|e] eqn:E; [|vm_compute in E; discriminate E].
  exists r. split; [reflexivity|]. destruct H as (_ & _ & _ & H & _). exact H.
Defined.

(** *** Defaults *)

Lemma round_up_exact q unit : 0 < unit → (unit | q) → 0 ≤ q → round_up q unit = q / unit.
Proof.
  intros Hu [k ->] Hq. unfold round_up. destruct (Z.leb_spec 0 (k * unit)); [|lia].
  rewrite Z.div_mul by lia. symmetry. apply (Z.div_unique _ _ _ (unit - 1)); lia.
Qed.

Section defaults_spec.
Context `{Quantities}.

(** What a default fills in. *)
Definition default_value (present : option quantity) (value : string) : option quantity :=
  match present with
  | Some q => Some q
  | None => if decide (value = ""%string) then None else ParseQuantity value
  end.

Lemma default_limit_spec name value h r h' r' :
  default_limit name value (h, r) = Ok (h', r') →
  Requests r' = Requests r ∧
  Limits r' !! name = default_value (Limits r !! name) value ∧
  (∀ n, n ≠ name → Limits r' !! n = Limits r !! n) ∧
  (Limits r !! name = None → ∀ q, value ≠ ""%string → ParseQuantity value = Some q →
     if decide (name = ResourceCPU)
     then NanoCPUs (host_Resources h') = int64 (MilliValue q * 1000000)
     else Memory (host_Resources h') = Value q) ∧
  (name ≠ ResourceCPU → NanoCPUs (host_Resources h') = NanoCPUs (host_Resources h)) ∧
  (name = ResourceCPU → Memory (host_Resources h') = Memory (host_Resources h)).
Proof.
  unfold default_limit, default_value. destruct (Limits r !! name) as [q0|] eqn:El.
  { rewrite bool_decide_true by eauto. intros [= <- <-]. by rewrite El. }
  rewrite bool_decide_false by (intros [? ?]; done). simpl.
  destruct (decide (value = ""%string)) as [->|Hv].
  { intros [= <- <-]. by rewrite El. }
  rewrite bool_decide_false by done.
  destruct (ParseQuantity value) as [q|] eqn:Ep; [|done]. intros [= <- <-]. simpl.
  split; [done|]. split; [by rewrite lookup_insert_eq|].
  split; [intros n Hn; by rewrite lookup_insert_ne|].
  repeat case_decide; split_and!; try done; by intros _ q' _ [= <-].
Qed.

Lemma default_request_spec name value h r h' r' :
  default_request name value (h, r) = Ok (h', r') →
  Limits r' = Limits r ∧
  Requests r' !! name =
    match Requests r !! name with
    | Some q => Some q
    | None => match default_value None value, Limits r !! name with
              | Some q, Some limit => Some (q `min` limit)
              | dq, _ => dq
              end
    end ∧
  (∀ n, n ≠ name → Requests r' !! n = Requests r !! n) ∧
  NanoCPUs (host_Resources h') = NanoCPUs (host_Resources h) ∧
  Memory (host_Resources h') = Memory (host_Resources h).
Proof.
  unfold default_request, default_value. destruct (Requests r !! name) as [q0|] eqn:El.
  { rewrite bool_decide_true by eauto. intros [= <- <-]. by rewrite El. }
  rewrite bool_decide_false by (intros [? ?]; done). simpl.
  destruct (decide (value = ""%string)) as [->|Hv].
  { intros [= <- <-]. by rewrite El. }
  rewrite bool_decide_false by done.
  destruct (ParseQuantity value) as [q|] eqn:Ep; [|done]. intros [= <- <-]. simpl.
  split; [done|]. split.
  { rewrite lookup_insert_eq. destruct (Limits r !! name) as [l|]; [|done]. f_equal.
    destruct (Z.ltb_spec l q); lia. }
  split; [intros n Hn; by rewrite lookup_insert_ne|]. by case_decide.
Qed.

(** A validated CPU default is a whole number of millicores that NanoCPUs can
    hold; a validated memory default a whole number of bytes. *)
Lemma valid_default_cpu value q :
  valid_default true value = true → value ≠ ""%string → ParseQuantity value = Some q →
  0 < q ∧ int64 (MilliValue q * 1000000) = q.
Proof.
  unfold valid_default. intros Hv Hne Hq. rewrite decide_False, Hq in Hv by done.
  rewrite !andb_true_iff in Hv. destruct Hv as (H0%Z.ltb_lt & Hm%Z.leb_le & He%Z.eqb_eq).
  split; [done|]. unfold NewMilliQuantity in *.
  replace (MilliValue q * 1000000) with q by lia. apply wrap_signed_id; [lia|].
  assert (Z.quot int64_max 1000000 * 10 ^ 6 ≤ int64_max) by (vm_compute; discriminate).
  unfold int64_max in *. lia.
Qed.

Lemma valid_default_memory value q :
  valid_default false value = true → value ≠ ""%string → ParseQuantity value = Some q →
  0 < q ∧ NewQuantity (Value q) = q.
Proof.
  unfold valid_default. intros Hv Hne Hq. rewrite decide_False, Hq in Hv by done.
  rewrite !andb_true_iff in Hv. destruct Hv as (H0%Z.ltb_lt & _ & He%Z.eqb_eq). auto.
Qed.

(** Tenant defaults complete a request without weakening it.  With
    validated defaults, whatever the request set stays; a limit that is absent
    is the default's, and Docker's own field records exactly that amount; a
    request that is absent is the default's, capped by the effective limit; and
    no request exceeds its limit. *)
Theorem applyResourceDefaults_spec hostConfig r d h' r' :
  Validate_defaults d = true → applyResourceDefaults hostConfig r d = Ok (h', r') →
  Limits r' !! ResourceCPU = default_value (Limits r !! ResourceCPU) (CPU (default_Limits d)) ∧
  Limits r' !! ResourceMemory =
    default_value (Limits r !! ResourceMemory) (Mem (default_Limits d)) ∧
  (∀ name q, Limits r !! name = Some q → Limits r' !! name = Some q) ∧
  (∀ name q, Requests r !! name = Some q → Requests r' !! name = Some q) ∧
  (Limits r !! ResourceCPU = None → ∀ q, Limits r' !! ResourceCPU = Some q →
     NanoCPUs (host_Resources h') = q) ∧
  (Limits r !! ResourceMemory = None → ∀ q, Limits r' !! ResourceMemory = Some q →
     NewQuantity (Memory (host_Resources h')) = q) ∧
  (∀ name q l, Requests r' !! name = Some q → Limits r' !! name = Some l → q ≤ l).
Proof.
  intros Hvalid Happ. unfold Validate_defaults in Hvalid. rewrite !andb_true_iff in Hvalid.
  destruct Hvalid as [[[[[Vc Vm] _] _] _] _].
  unfold applyResourceDefaults in Happ. cbv zeta in Happ.
  apply result_bind_ok in Happ as ([h1 r1] & H1 & Happ).
  apply result_bind_ok in Happ as ([h2 r2] & H2 & Happ).
  apply result_bind_ok in Happ as ([h3 r3] & H3 & Happ).
  apply result_bind_ok in Happ as ([h4 r4] & H4 & Happ).
  destruct (existsb _ _) eqn:Ex; [done|]. injection Happ as Hh <-.
  assert (host_Resources h' = host_Resources h4) as Hres
    by (subst h'; by destruct (Requests r4 !! ResourceCPU)).
  apply default_limit_spec in H1 as (R1 & L1 & O1 & N1 & _ & M1).
  apply default_limit_spec in H2 as (R2 & L2 & O2 & N2 & K2 & _).
  apply default_request_spec in H3 as (L3 & R3 & O3 & N3 & M3).
  apply default_request_spec in H4 as (L4 & R4 & O4 & N4 & M4).
  rewrite L4, L3 in *. rewrite (O1 ResourceMemory) in L2 by done.
  assert (Limits r2 !! ResourceCPU = default_value (Limits r !! ResourceCPU) (CPU (default_Limits d)))
    as Lc by (rewrite (O2 ResourceCPU) by done; done).
  split; [done|]. split; [done|]. split.
  { intros name q Hq. destruct (decide (name = ResourceMemory)) as [->|Hm]; [by rewrite L2, Hq|].
    rewrite O2 by done. destruct (decide (name = ResourceCPU)) as [->|Hc]; [by rewrite L1, Hq|].
    by rewrite O1. }
  split.
  { intros name q Hq.
    assert (Requests r2 !! name = Some q) as Hq2 by (by rewrite R2, R1).
    destruct (decide (name = ResourceMemory)) as [->|Hm].
    { by rewrite R4, O3, Hq2. }
    rewrite O4 by done. destruct (decide (name = ResourceCPU)) as [->|Hc]; [by rewrite R3, Hq2|].
    by rewrite O3. }
  split_and!.
  - intros Hn q Hq. rewrite Lc in Hq. unfold default_value in Hq. rewrite Hn in Hq.
    case_decide as Hv; [done|]. rewrite Hres, N4, N3, K2 by done.
    specialize (N1 Hn q Hv Hq). rewrite decide_True in N1 by done. rewrite N1.
    by apply (valid_default_cpu _ _ Vc Hv Hq).
  - intros Hn q Hq. rewrite L2 in Hq. unfold default_value in Hq. rewrite Hn in Hq.
    case_decide as Hv; [done|]. rewrite Hres, M4, M3.
    assert (ResourceMemory ≠ ResourceCPU) as Hne by done.
    specialize (N2 (eq_trans (O1 _ Hne) Hn) q Hv Hq).
    rewrite decide_False in N2 by exact Hne. rewrite N2.
    by apply (valid_default_memory _ _ Vm Hv Hq).
  - intros name q l Hq Hl. rewrite existsb_false in Ex.
    specialize (Ex (name, q)). rewrite elem_of_map_to_list, Hl in Ex.
    specialize (Ex Hq). lia.
Qed.
End defaults_spec.

(** A parser of whole numbers of units, for concrete runs. *)
Definition demo_quantities : Quantities := {|
  ParseQuantity := λ s, if decide (s = "500m"%string) then Some (NewMilliQuantity 500)
                        else if decide (s = "64Mi"%string) then Some (NewQuantity (64 * 2 ^ 20))
                        else None;
  Quantity_String := λ q, if decide (q = NewMilliQuantity 500) then "500m"%string else ""%string
|}.

Definition demo_defaults : ResourceDefaults := {|
  default_Limits := {| CPU := "500m"; Mem := "64Mi" |};
  default_Requests := {| CPU := ""; Mem := "64Mi" |}
|}.

Lemma applyResourceDefaults_spec_witness :
  ∃ h r,
    applyResourceDefaults (H:=demo_quantities) None {| Limits := ∅; Requests := ∅ |} demo_defaults =
      Ok (h, r) ∧
    NanoCPUs (host_Resources h) = 500000000.
Proof.
  eexists _, _. split; [reflexivity|].
  pose proof (applyResourceDefaults_spec (H:=demo_quantities) None
    {| Limits := ∅; Requests := ∅ |} demo_defaults _ _ eq_refl eq_refl)
    as (_ & _ & _ & _ & Hcpu & _).
  apply (Hcpu eq_refl). reflexivity.
Defined.
