(* ===== verification/Volumes.v ===== *)
(** * Volumes: [core/translator/volume.go], [volume_plugin.go] and
      [container_volumes.go]

    Docker volumes are managed PersistentVolumeClaims that carry the Docker name in
    an annotation, since the name of the claim cannot always be the Docker name.
    Drivers other than [local] are plugins, asked through commands. *)

From S2P Require Import Prelude GoStrings Errors Prog Filters Docker Validation Resources.
From S2P Require Export Workload.

Local Open Scope string_scope.

Definition volumeManagedLabel : string := "dink.io/managed-by".
Definition volumeManagedValue : string := "dink".
Definition volumeNameAnnotation : string := "dink.io/docker-volume-name".
Definition volumeLabelsAnnotation : string := "dink.io/docker-volume-labels".
Definition volumeOptionsAnnotation : string := "dink.io/docker-volume-options".
Definition volumeDriverAnnotation : string := "dink.io/docker-volume-driver".
Definition localVolumeDriver : string := "local".
Definition volumeMountpointBase : string := "/var/lib/dink/volumes".
Definition defaultVolumeStorageSize : string := "1Gi".
Definition anonymousVolumeLabel : string := "com.docker.volume.anonymous".

(** ** Names *)

(** [[^a-z0-9.-]+] and its replacement by one dash per maximal run. *)
Definition volume_char (c : ascii) : bool := is_lower c || is_digit c || has_char c ".-".

Fixpoint replace_volume_chars (in_run : bool) (s : string) : string :=
  match s with
  | EmptyString => EmptyString
  | String c s =>
      if volume_char c then String c (replace_volume_chars false s)
      else if in_run then replace_volume_chars true s
      else String "-" (replace_volume_chars true s)
  end.

Definition volumeResourceName `{Unicode} (name : string) : res string :=
  let name := ToLower (TrimSpace name) in
  let name := replace_volume_chars false name in
  let name := Trim name "-." in
  let name := if (63 <? len name)%nat then TrimRight (slice name 0 63) "-." else name in
  if decide (name = "") then Err (InvalidArgument (errors_New "volume name is required"))
  else Ok name.

(** ** Times: [t.UTC().Format(time.RFC3339Nano)], [t] in nanoseconds since the
    zero time, the start of year 1. *)

Definition pad_digits (width : nat) (z : Z) : string :=
  let s := pretty z in String.concat "" (replicate (width - len s) "0") +:+ s.

Fixpoint trim_zeros (s : string) : string :=
  match s with
  | EmptyString => EmptyString
  | String c s => match trim_zeros s with
                  | EmptyString => if Ascii.eqb c "0" then "" else String c ""
                  | s => String c s
                  end
  end.

(** Year, month and day of a day number; day 0 is January 1st of year 1. *)
Definition civil_date (day : Z) : Z * Z * Z :=
  (let z := day + 306 in
   let era := z / 146097 in
   let doe := z mod 146097 in
   let yoe := (doe - doe / 1460 + doe / 36524 - doe / 146096) / 365 in
   let doy := doe - (365 * yoe + yoe / 4 - yoe / 100) in
   let mp := (5 * doy + 2) / 153 in
   let m := if mp <? 10 then mp + 3 else mp - 9 in
   (yoe + era * 400 + (if m <=? 2 then 1 else 0), m, doy - (153 * mp + 2) / 5 + 1))%Z.

Definition FormatRFC3339Nano (t : Z) : string :=
  let seconds := (t / 10 ^ 9)%Z in
  let '(y, m, d) := civil_date (seconds / 86400) in
  let s := (seconds mod 86400)%Z in
  let fraction := trim_zeros (pad_digits 9 (t mod 10 ^ 9)) in
  pad_digits 4 y +:+ "-" +:+ pad_digits 2 m +:+ "-" +:+ pad_digits 2 d +:+ "T" +:+
  pad_digits 2 (s / 3600) +:+ ":" +:+ pad_digits 2 (s / 60 mod 60) +:+ ":" +:+
  pad_digits 2 (s mod 60) +:+ (if decide (fraction = "") then "" else "." +:+ fraction) +:+ "Z".

(** ** Volumes and requests *)

(** [volume.Volume] *)
Record DockerVolume := {
  vol_Name : string;
  vol_Driver : string;
  Mountpoint : string;
  CreatedAt : string;
  vol_Labels : smap;
  vol_Options : smap;
  vol_Scope : string
}.

(** [volume.CreateRequest]; of the cluster specification only its presence counts. *)
Record CreateRequest := {
  request_Name : string;
  request_Driver : string;
  DriverOpts : smap;
  request_Labels : smap;
  ClusterVolumeSpec : bool
}.

(** [encoding/json] on [map[string]string]; a decoded [null] is the empty map. *)
Class MapJSON := {
  Marshal_map : smap → option string;
  Unmarshal_map : string → option smap
}.

Class MapJSONLaws `{MapJSON} := {
  Unmarshal_Marshal_map m s : Marshal_map m = Some s → Unmarshal_map s = Some m;
  Marshal_map_nonempty m : Marshal_map m ≠ Some ""
}.

Definition decode_map `{MapJSON} (raw : string) (e : error) : res smap :=
  if decide (raw = "") then Ok ∅
  else match Unmarshal_map raw with Some m => Ok m | None => Err e end.

Definition volumeFromPVC `{MapJSON} (pvc : PersistentVolumeClaim) : res DockerVolume :=
  let annotations := Annotations (pvc_meta pvc) in
  let? labels := decode_map (mget annotations volumeLabelsAnnotation)
                   (errors_New "decoding labels for volume %s: %w") in
  let? options := decode_map (mget annotations volumeOptionsAnnotation)
                    (errors_New "decoding options for volume %s: %w") in
  let driver := mget annotations volumeDriverAnnotation in
  Ok {|
    vol_Name := mget annotations volumeNameAnnotation;
    vol_Driver := if decide (driver = "") then localVolumeDriver else driver;
    Mountpoint := volumeMountpointBase +:+ "/" +:+ Name (pvc_meta pvc);
    CreatedAt := FormatRFC3339Nano (CreationTimestamp (pvc_meta pvc));
    vol_Labels := labels; vol_Options := options; vol_Scope := "local" |}.

(** Whether a claim is dink's claim for the Docker volume of this name. *)
Definition claim_of (name : string) (pvc : PersistentVolumeClaim) : bool :=
  bool_decide (mget (Labels (pvc_meta pvc)) volumeManagedLabel = volumeManagedValue) &&
  bool_decide (mget (Annotations (pvc_meta pvc)) volumeNameAnnotation = name).

(** ** Claims of drivers: [volumeClaim.pvcSpec] *)

Definition volumeAccessModes : list string :=
  ["ReadWriteOnce"; "ReadOnlyMany"; "ReadWriteMany"; "ReadWriteOncePod"].

Section spec.
Context `{Validation} `{Quantities}.

Definition check_annotation (key : string) : res unit :=
  if HasPrefix key "dink.io/"
  then Err (InvalidArgument (errors_New "volume annotation %q is reserved"))
  else if negb (no_problems (IsQualifiedName key))
  then Err (InvalidArgument (errors_New "invalid volume annotation %q: %s"))
  else Ok tt.

Definition pvcSpec (c : volumeClaim) : res (PVCSpec * smap) :=
  let size := if decide (claim_Size c = "") then defaultVolumeStorageSize else claim_Size c in
  match ParseQuantity size with
  | None => Err (InvalidArgument (errors_New "invalid volume size %q"))
  | Some quantity =>
      if (quantity <=? 0)%Z then Err (InvalidArgument (errors_New "invalid volume size %q"))
      else
        let? modes := result_mapM (λ m,
            if slices_Contains volumeAccessModes m then Ok m
            else Err (InvalidArgument (errors_New "invalid volume access mode %q")))
          (claim_AccessModes c) in
        let modes := if decide (modes = []) then ["ReadWriteOnce"] else modes in
        if negb (bool_decide (claim_StorageClassName c = "")) &&
           negb (no_problems (IsDNS1123Subdomain (claim_StorageClassName c)))
        then Err (InvalidArgument (errors_New "invalid storage class %q: %s"))
        else
          let? _ := result_mapM check_annotation (map_to_list (claim_Annotations c)).*1 in
          Ok ({| PVC_Storage := quantity; AccessModes := modes;
                 StorageClassName := if decide (claim_StorageClassName c = "") then None
                                     else Some (claim_StorageClassName c) |},
              claim_Annotations c)
  end.
End spec.

(** ** Plugins *)

Definition volumePlugin (namespace driver : string) : proc (res unit) :=
  do plugin <- call (LookupVolumePlugin namespace driver);
  match plugin with
  | Ok _ => Ret (Ok tt)
  | Err PluginNotFound =>
      Ret (Err (Unsupported (errors_New "volume driver %q is not installed")))
  | Err (LookupFailed e) => Ret (Err (Unavailable e))
  end.

Definition volumePluginError (e : plugin_error) : error :=
  match e with
  | PluginUnavailable => Unavailable (errors_New "volume driver %s: %w")
  | PluginRefused => InvalidArgument (errors_New "volume driver %s: %w")
  end.

Definition plugin_outcome {A} (r : result plugin_error A) : option plugin_error :=
  match r with Ok _ => None | Err e => Some e end.

Definition pluginVolumeClaim (id : Identity) (driver name : string) (request : CreateRequest) :
    proc (res volumeClaim) :=
  do? _ <- volumePlugin (id_namespace id) driver;
  do r <- call (PluginCreateVolume driver (CommonName id) (id_namespace id) name
                  (DriverOpts request) (request_Labels request));
  do _ <- call (ObserveVolumePlugin (id_namespace id) driver (plugin_outcome r));
  match r with
  | Err e => Ret (Err (volumePluginError e))
  | Ok claim => Ret (Ok claim)
  end.

Definition removePluginVolume (id : Identity) (volume : DockerVolume) : proc (res unit) :=
  do? _ <- volumePlugin (id_namespace id) (vol_Driver volume);
  do r <- call (PluginRemoveVolume (vol_Driver volume) (CommonName id) (id_namespace id)
                  (vol_Name volume) (vol_Options volume));
  do _ <- call (ObserveVolumePlugin (id_namespace id) (vol_Driver volume) (plugin_outcome r));
  match r with
  | Err e => Ret (Err (volumePluginError e))
  | Ok _ => Ret (Ok tt)
  end.

(** ** The handlers *)

(** The names of the claims that some volumes refer to. *)
Definition claim_names (volumes : list Volume) : list string :=
  omap (λ v, match Vol_Source v with PersistentVolumeClaimSource claim => Some claim | _ => None end)
    volumes.

(** The set that the two loops of [volumeClaimsInUse] collect. *)
Definition claims_used (workloads : list containerWorkload) (pods : list Pod) : list string :=
  ((w ← workloads; claim_names (Volumes (Pod_Spec (Template w)))) ++
   (pod ← pods; claim_names (pod_Volumes pod)))%list.

Definition volumeClaimsInUse (namespace : string) : proc (res (list string)) :=
  do? workloads <- listWorkloads namespace;
  do pods <- call (KList KPod namespace "");
  match pods with
  | Err e => Ret (Err (kubeError e))
  | Ok pods => Ret (Ok (claims_used workloads pods))
  end.

Definition no_identity {A} : proc (res A) :=
  Ret (Err (Unauthenticated (errors_New "missing identity in context"))).

Definition volume_not_found : error := NotFound (errors_New "volume %q not found").

Section handlers.
Context `{Unicode} `{Regexp} `{MapJSON} `{Validation} `{Quantities}.

(** The loop of [ListVolumes] over the claims. *)
Fixpoint list_volumes (volumeFilters : Args) (used : list string) (dangling : bool)
    (pvcs : list PersistentVolumeClaim) : res (list DockerVolume) :=
  match pvcs with
  | [] => Ok []
  | pvc :: pvcs =>
      let? volume := volumeFromPVC pvc in
      let? rest := list_volumes volumeFilters used dangling pvcs in
      if negb (Match volumeFilters "name" (vol_Name volume)) ||
         negb (Match volumeFilters "driver" (vol_Driver volume)) ||
         negb (MatchKVList volumeFilters "label" (vol_Labels volume))
      then Ok rest
      else if (0 <? length (Get volumeFilters "dangling"))%nat &&
              Bool.eqb (slices_Contains used (Name (pvc_meta pvc))) dangling
      then Ok rest
      else Ok (volume :: rest)
  end.

Definition ListVolumes (ctx : context) (volumeFilters : Args) : proc (res (list DockerVolume)) :=
  match ctx with
  | None => no_identity
  | Some id =>
      do pvcs <- call (KList KPVC (id_namespace id) (volumeManagedLabel +:+ "=" +:+ volumeManagedValue));
      match pvcs with
      | Err e => Ret (Err (kubeError e))
      | Ok pvcs =>
          do? used <- volumeClaimsInUse (id_namespace id);
          match GetBoolOrDefault volumeFilters "dangling" false with
          | Err e => Ret (Err (InvalidArgument (filter_error e)))
          | Ok dangling => Ret (list_volumes volumeFilters used dangling pvcs)
          end
      end
  end.

Definition GetVolume (ctx : context) (name : string) : proc (res DockerVolume) :=
  match ctx with
  | None => no_identity
  | Some id =>
      match volumeResourceName name with
      | Err e => Ret (Err e)
      | Ok pvcName =>
          do pvc <- call (KGet KPVC (id_namespace id) pvcName);
          match pvc with
          | Err e => Ret (Err (if IsNotFound e then volume_not_found else kubeError e))
          | Ok pvc =>
              if negb (claim_of name pvc) then Ret (Err volume_not_found)
              else Ret (volumeFromPVC pvc)
          end
      end
  end.

Definition existingVolume (pvc : PersistentVolumeClaim) (name driver : string) : res DockerVolume :=
  if negb (claim_of name pvc) then Err (Conflict (errors_New "volume %q already exists"))
  else
    let? volume := volumeFromPVC pvc in
    if decide (vol_Driver volume ≠ driver)
    then Err (Conflict (errors_New "volume %q already exists with driver %q"))
    else Ok volume.

(** The claim that [CreateVolume] submits. *)
Definition new_claim (namespace pvcName name driver : string) (labels options : string)
    (spec : PVCSpec) (extra : smap) : PersistentVolumeClaim := {|
  pvc_meta :=
    meta_set_labels {[volumeManagedLabel := volumeManagedValue]}
      (meta_set_annotations
         (extra ∪
          <[volumeNameAnnotation := name]>
            (<[volumeLabelsAnnotation := labels]>
               (<[volumeOptionsAnnotation := options]>
                  {[volumeDriverAnnotation := driver]})))
         (new_meta pvcName namespace));
  PVC_Spec := spec;
  PVC_Capacity := None |}.

(** The options that the local driver takes. *)
Definition local_options_ok (options : smap) : bool :=
  negb ((1 <? size options)%nat ||
        ((size options =? 1)%nat && bool_decide (mget options "size" = ""))).

(** The two parts of [CreateVolume] after the claim was found to be absent. *)
Definition submit_claim (id : Identity) (request : CreateRequest)
    (name driver pvcName : string) (claim : volumeClaim) : proc (res DockerVolume) :=
  match pvcSpec claim with
  | Err e => Ret (Err e)
  | Ok (spec, extraAnnotations) =>
      match Marshal_map (request_Labels request) with
      | None => Ret (Err (errors_New "encoding volume labels: %w"))
      | Some labels =>
          match Marshal_map (DriverOpts request) with
          | None => Ret (Err (errors_New "encoding volume options: %w"))
          | Some options =>
              do pvc <- call (KCreate KPVC (id_namespace id)
                (new_claim (id_namespace id) pvcName name driver labels options spec
                   extraAnnotations : obj KPVC));
              match pvc with
              | Ok pvc => Ret (volumeFromPVC pvc)
              | Err e =>
                  if IsAlreadyExists e then
                    do existing <- call (KGet KPVC (id_namespace id) pvcName);
                    match existing with
                    | Err e => Ret (Err (kubeError e))
                    | Ok existing => Ret (existingVolume existing name driver)
                    end
                  else Ret (Err (kubeError e))
              end
          end
      end
  end.

Definition provision_volume (id : Identity) (request : CreateRequest)
    (name driver pvcName : string) : proc (res DockerVolume) :=
  do? claim <-
    (if decide (driver ≠ localVolumeDriver)
     then pluginVolumeClaim id driver name request
     else Ret (Ok {| claim_StorageClassName := ""; claim_Size := mget (DriverOpts request) "size";
                     claim_AccessModes := []; claim_Annotations := ∅ |}));
  submit_claim id request name driver pvcName claim.

Definition CreateVolume (ctx : context) (request : CreateRequest) : proc (res DockerVolume) :=
  match ctx with
  | None => no_identity
  | Some id =>
      if ClusterVolumeSpec request
      then Ret (Err (Unsupported (errors_New "cluster volumes are not supported")))
      else
        let driver := if decide (request_Driver request = "") then localVolumeDriver
                      else request_Driver request in
        if bool_decide (driver = localVolumeDriver) && negb (local_options_ok (DriverOpts request))
        then Ret (Err (InvalidArgument
               (errors_New "only the local volume driver size option is supported")))
        else
          do name <- (if decide (request_Name request = "") then call RandomName
                      else Ret (request_Name request));
          match volumeResourceName name with
          | Err e => Ret (Err e)
          | Ok pvcName =>
              do existing <- call (KGet KPVC (id_namespace id) pvcName);
              match existing with
              | Ok existing => Ret (existingVolume existing name driver)
              | Err e => if negb (IsNotFound e) then Ret (Err (kubeError e))
                         else provision_volume id request name driver pvcName
              end
          end
  end.

(** The deletion at the end of [RemoveVolume]. *)
Definition delete_claim (id : Identity) (volume : DockerVolume) (force : bool) (pvcName : string) :
    proc (res unit) :=
  do released <- (if decide (vol_Driver volume ≠ localVolumeDriver)
                  then removePluginVolume id volume else Ret (Ok tt));
  match released with
  | Err e => if negb force then Ret (Err e)
             else do r <- call (KDelete KPVC (id_namespace id) pvcName no_delete_options);
                  Ret (kube_result r)
  | Ok _ => do r <- call (KDelete KPVC (id_namespace id) pvcName no_delete_options);
            Ret (kube_result r)
  end.

Definition RemoveVolume (ctx : context) (name : string) (force : bool) : proc (res unit) :=
  match ctx with
  | None => no_identity
  | Some id =>
      do? volume <- GetVolume ctx name;
      do? _ <-
        (if negb force then
           do? used <- volumeClaimsInUse (id_namespace id);
           match volumeResourceName (vol_Name volume) with
           | Err e => Ret (Err e)
           | Ok pvcName =>
               if slices_Contains used pvcName
               then Ret (Err (Conflict (errors_New "volume %q is in use")))
               else Ret (Ok tt)
           end
         else Ret (Ok tt));
      match volumeResourceName (vol_Name volume) with
      | Err e => Ret (Err e)
      | Ok pvcName => delete_claim id volume force pvcName
      end
  end.

(** The loop of [PruneVolumes]. *)
Fixpoint prune_volumes (ctx : context) (all : bool) (volumes : list DockerVolume) :
    proc (res (list string)) :=
  match volumes with
  | [] => Ret (Ok [])
  | volume :: volumes =>
      if negb all && negb (bool_decide (is_Some (vol_Labels volume !! anonymousVolumeLabel)))
      then prune_volumes ctx all volumes
      else
        do removed <- RemoveVolume ctx (vol_Name volume) false;
        match removed with
        | Err e => if IsKind e KindConflict then prune_volumes ctx all volumes else Ret (Err e)
        | Ok _ => do? deleted <- prune_volumes ctx all volumes; Ret (Ok (vol_Name volume :: deleted))
        end
  end.

Definition PruneVolumes (ctx : context) (volumeFilters : Args) : proc (res (list string)) :=
  match GetBoolOrDefault volumeFilters "all" false with
  | Err e => Ret (Err (InvalidArgument (filter_error e)))
  | Ok all =>
      let listFilters := foldl (λ args value, Del "all" value args) (Clone volumeFilters)
                           (Get (Clone volumeFilters) "all") in
      do? volumes <- ListVolumes ctx listFilters;
      prune_volumes ctx all volumes
  end.
End handlers.

(** ** [container_volumes.go] *)

(** The maps that [containerVolumes] fills. *)
Record mounts_state := {
  volumesByName : gmap string Volume;
  mountsByTarget : gmap string VolumeMount;
  anonymous : list string
}.

Section container_volumes.
Context `{Unicode} `{Regexp} `{MapJSON} `{Validation} `{Quantities}.

Definition ensureContainerVolume (ctx : context) (name driver : string) (driverOpts : smap) :
    proc (res string) :=
  do name_labels <- (if decide (name = "")
                     then do generated <- call RandomName;
                          Ret (generated, {[anonymousVolumeLabel := ""]} : smap)
                     else Ret (name, ∅));
  let '(name, labels) := name_labels in
  do volume <- GetVolume ctx name;
  match volume with
  | Ok volume => Ret (volumeResourceName (vol_Name volume))
  | Err e =>
      if negb (IsKind e KindNotFound) then Ret (Err e)
      else
        do created <- CreateVolume ctx {| request_Name := name; request_Driver := driver;
                                          DriverOpts := driverOpts; request_Labels := labels;
                                          ClusterVolumeSpec := false |};
        match created with
        | Err e => if negb (IsKind e KindConflict) then Ret (Err e)
                   else do? volume <- GetVolume ctx name; Ret (volumeResourceName (vol_Name volume))
        | Ok _ => do? volume <- GetVolume ctx name; Ret (volumeResourceName (vol_Name volume))
        end
  end.

(** The closure [addMount]. *)
Definition addMount (ctx : context) (s : mounts_state) (target source : string) (readOnly : bool)
    (subPath driver : string) (driverOpts : smap) : proc (res mounts_state) :=
  if negb (IsAbs target)
  then Ret (Err (InvalidArgument (errors_New "volume mount target %q must be an absolute path")))
  else
    do? pvcName <- ensureContainerVolume ctx source driver driverOpts;
    Ret (Ok {|
      volumesByName := <[pvcName := {| Vol_Name := pvcName;
                                       Vol_Source := PersistentVolumeClaimSource pvcName |}]>
                         (volumesByName s);
      mountsByTarget := <[target := {| VM_Name := pvcName; MountPath := target;
                                       ReadOnly := readOnly; SubPath := subPath |}]>
                          (mountsByTarget s);
      anonymous := if decide (source = "") then (anonymous s ++ [pvcName])%list
                   else anonymous s |}).

(** A loop that threads the maps. *)
Fixpoint fold_mounts {A} (f : mounts_state → A → proc (res mounts_state)) (s : mounts_state)
    (l : list A) : proc (res mounts_state) :=
  match l with
  | [] => Ret (Ok s)
  | x :: l => do? s <- f s x; fold_mounts f s l
  end.

Definition requested_mount (ctx : context) (defaultDriver : string) (s : mounts_state)
    (requested : Mount) : proc (res mounts_state) :=
  let mountType := if decide (Mount_Type requested = "") then "volume" else Mount_Type requested in
  if decide (mountType = "volume") then
    let '(driver, driverOpts) :=
      match DriverConfig requested with
      | Some (name, options) => (if decide (name = "") then defaultDriver else name, options)
      | None => (defaultDriver, ∅)
      end in
    if NoCopy requested
    then Ret (Err (Unsupported (errors_New "volume no-copy behavior is not supported")))
    else addMount ctx s (Mount_Target requested) (Mount_Source requested)
           (Mount_ReadOnly requested) (Subpath requested) driver driverOpts
  else if decide (mountType = "bind")
  then Ret (Err (Unsupported (errors_New "host-path bind mounts are not supported")))
  else Ret (Err (Unsupported (errors_New "mount type %q is not supported"))).

(** The options of a bind: whether it is read-only. *)
Definition bind_option (readOnly : bool) (option : string) : res bool :=
  if decide (option = "ro") then Ok true
  else if decide (option = "rw" ∨ option = "") then Ok readOnly
  else Err (Unsupported (errors_New "bind option %q is not supported")).

(** The parsing of one entry of [Binds]: source, target and read-only. *)
Definition parse_bind (bind : string) : res (string * string * bool) :=
  let parts := Split bind ":" in
  match parts with
  | source :: target :: rest =>
      if (1 <? length rest)%nat then Err (InvalidArgument (errors_New "invalid bind mount %q"))
      else if IsAbs source || bool_decide (source = ".") || HasPrefix source "./" ||
              HasPrefix source "../"
      then Err (Unsupported (errors_New "host-path bind mounts are not supported"))
      else
        let? readOnly := match rest with
                         | [] => Ok false
                         | options :: _ => result_foldM bind_option false (Split options ",")
                         end in
        Ok (source, target, readOnly)
  | _ => Err (InvalidArgument (errors_New "invalid bind mount %q"))
  end.

Definition bind_mount (ctx : context) (defaultDriver : string) (s : mounts_state)
    (bind : string) : proc (res mounts_state) :=
  match parse_bind bind with
  | Err e => Ret (Err e)
  | Ok (source, target, readOnly) => addMount ctx s target source readOnly "" defaultDriver ∅
  end.

Definition anonymous_mount (ctx : context) (defaultDriver : string) (s : mounts_state)
    (target : string) : proc (res mounts_state) :=
  if decide (is_Some (mountsByTarget s !! target)) then Ret (Ok s)
  else addMount ctx s target "" false "" defaultDriver ∅.

(** The values of a map in the order of its sorted keys. *)
Definition sorted_values {V} (m : gmap string V) : list V :=
  omap (λ k, m !! k) (sorted_keys m).

(** [order] is the order in which the range over [config.Volumes] visits it. *)
Definition containerVolumes (ctx : context) (order : gset string → list string)
    (config : Config) (hostConfig : option HostConfig) :
    proc (res (list Volume * list VolumeMount * list string)) :=
  let defaultDriver := match hostConfig with Some h => VolumeDriver h | None => "" end in
  if match hostConfig with
     | Some h => negb (bool_decide (Tmpfs h = ∅)) || negb (bool_decide (VolumesFrom h = []))
     | None => false
     end
  then Ret (Err (Unsupported (errors_New "tmpfs and volumes-from mounts are not supported")))
  else
    let s := {| volumesByName := ∅; mountsByTarget := ∅; anonymous := [] |} in
    do? s <-
      match hostConfig with
      | None => Ret (Ok s)
      | Some h =>
          do? s <- fold_mounts (requested_mount ctx defaultDriver) s (Mounts h);
          fold_mounts (bind_mount ctx defaultDriver) s (Binds h)
      end;
    do? s <- fold_mounts (anonymous_mount ctx defaultDriver) s (order (Config_Volumes config));
    Ret (Ok (sorted_values (volumesByName s), sorted_values (mountsByTarget s), anonymous s)).
End container_volumes.

(** ** Discipline *)

Section neutral.
Context `{Unicode} `{Regexp} `{MapJSON} `{Validation} `{Quantities}.

Lemma neutral_volumeClaimsInUse st ns : neutral st (volumeClaimsInUse ns).
Proof. unfold volumeClaimsInUse. neutral_auto. Qed.
#[local] Hint Resolve neutral_volumeClaimsInUse : neutral.

Lemma neutral_GetVolume st ctx name : neutral st (GetVolume ctx name).
Proof. unfold GetVolume, no_identity. neutral_auto. Qed.
#[local] Hint Resolve neutral_GetVolume : neutral.

Lemma neutral_removePluginVolume st id v : neutral st (removePluginVolume id v).
Proof. unfold removePluginVolume, volumePlugin. neutral_auto. Qed.
#[local] Hint Resolve neutral_removePluginVolume : neutral.

Lemma neutral_RemoveVolume st ctx name force : neutral st (RemoveVolume ctx name force).
Proof. unfold RemoveVolume, delete_claim, no_identity. neutral_auto. Qed.

Lemma neutral_CreateVolume st ctx request : neutral st (CreateVolume ctx request).
Proof.
  unfold CreateVolume, provision_volume, submit_claim, pluginVolumeClaim, volumePlugin, no_identity.
  neutral_auto.
Qed.
#[local] Hint Resolve neutral_CreateVolume : neutral.

Lemma neutral_ensureContainerVolume st ctx name driver opts :
  neutral st (ensureContainerVolume ctx name driver opts).
Proof. unfold ensureContainerVolume. neutral_auto. Qed.
#[local] Hint Resolve neutral_ensureContainerVolume : neutral.

Lemma neutral_addMount st ctx s target source ro sub driver opts :
  neutral st (addMount ctx s target source ro sub driver opts).
Proof. unfold addMount. neutral_auto. Qed.
#[local] Hint Resolve neutral_addMount : neutral.

Lemma neutral_fold_mounts {A} st (f : mounts_state → A → proc (res mounts_state)) s l :
  (∀ s x, neutral st (f s x)) → neutral st (fold_mounts f s l).
Proof.
  intros Hf. revert s. induction l as [|x l IH]; intros s; simpl; neutral_auto.
Qed.

Lemma neutral_containerVolumes st ctx order config hostConfig :
  neutral st (containerVolumes ctx order config hostConfig).
Proof.
  unfold containerVolumes. cbv zeta. apply neutral_if; [neutral_auto|].
  apply neutral_bind_res.
  - destruct hostConfig as [h|]; [|neutral_auto]. apply neutral_bind_res.
    + apply neutral_fold_mounts. intros s x. unfold requested_mount. neutral_auto.
    + intros s. apply neutral_fold_mounts. intros s' x. unfold bind_mount. neutral_auto.
  - intros s. apply neutral_bind_res; [|neutral_auto].
    apply neutral_fold_mounts. intros s' x. unfold anonymous_mount. neutral_auto.
Qed.
End neutral.

#[export] Hint Resolve neutral_volumeClaimsInUse neutral_GetVolume neutral_RemoveVolume
  neutral_CreateVolume neutral_containerVolumes : neutral.

(** ** Properties: names *)

Lemma volume_char_spec c : volume_char c = lower_alnum c || has_char c "-.".
Proof.
  unfold volume_char, lower_alnum. f_equal. cbn [has_char]. rewrite !orb_false_r. apply orb_comm.
Qed.

Lemma replace_volume_chars_chars b s : all_chars volume_char (replace_volume_chars b s) = true.
Proof.
  revert b. induction s as [|c s IH]; intros b; simpl; [done|].
  destruct (volume_char c) eqn:E; simpl; [by rewrite E, IH|].
  destruct b; simpl; by rewrite IH.
Qed.

Lemma replace_volume_chars_id b s :
  all_chars volume_char s = true → replace_volume_chars b s = s.
Proof.
  revert b. induction s as [|c s IH]; intros b; simpl; [done|]. rewrite andb_true_iff.
  intros [-> Hs]. by rewrite IH.
Qed.

Lemma trim_left_id f s : (∀ c, first_char s = Some c → f c = false) → trim_left f s = s.
Proof. destruct s as [|c s]; simpl; [done|]. intros Hf. by rewrite Hf. Qed.

Lemma trim_right_id f s : (∀ c, last_char s = Some c → f c = false) → trim_right f s = s.
Proof. intros Hf. unfold trim_right. by rewrite trim_left_id, srev_involutive. Qed.

Lemma trim_right_prefix f s : ∃ t, s = trim_right f s +:+ t.
Proof.
  assert (∀ v, ∃ t, String.rev v = String.rev (trim_left f v) +:+ t) as H.
  { intros v. induction v as [|c v [t IH]]; [by exists ""|]. simpl trim_left.
    destruct (f c); [|exists ""; by rewrite sapp_nil_r].
    exists (t +:+ String c ""). by rewrite srev_cons, IH, <- sapp_assoc. }
  destruct (H (String.rev s)) as [t Ht]. rewrite srev_involutive in Ht. by exists t.
Qed.

(** What remains of trimming on the right starts as the text does. *)
Lemma trim_right_first f s c : first_char (trim_right f s) = Some c → first_char s = Some c.
Proof.
  intros Hc. destruct s as [|d s]; [done|]. destruct (f d) eqn:Ed.
  - revert Hc. destruct (trim_right f (String d s)) as [|c' r] eqn:E; [done|]. intros [= <-].
    destruct (trim_right_prefix f (String d s)) as [t Ht].
    rewrite E, sapp_cons in Ht. by injection Ht as <- _.
  - rewrite trim_right_cons in Hc by done. exact Hc.
Qed.

Lemma len_trim_left f s : (len (trim_left f s) ≤ len s)%nat.
Proof. induction s as [|c s IH]; simpl; [done|]. destruct (f c); unfold len in *; simpl; lia. Qed.

Lemma len_trim_right f s : (len (trim_right f s) ≤ len s)%nat.
Proof. unfold trim_right. rewrite len_rev, <- (len_rev s). apply len_trim_left. Qed.

Lemma map_chars_id f g s :
  (∀ c, f c = true → g c = c) → all_chars f s = true → map_chars g s = s.
Proof.
  intros Hg. induction s as [|c s IH]; simpl; [done|]. rewrite andb_true_iff. intros [Hc Hs].
  by rewrite Hg, IH.
Qed.

(** Facts about single characters, by cases on the 256 of them. *)
Lemma volume_char_ascii c :
  volume_char c = true → is_ascii c = true ∧ lower_char c = c ∧ Ascii.is_space c = false.
Proof. destruct c as [[] [] [] [] [] [] [] []]; vm_compute; by intros. Qed.

Lemma lower_alnum_spec c : lower_alnum c = true → has_char c "-." = false.
Proof. destruct c as [[] [] [] [] [] [] [] []]; vm_compute; by intros. Qed.

Section names.
Context `{Unicode}.

(** Names of claims are well formed.  A name of a claim is not empty, has
    at most 63 characters of [a-z0-9.-], starts and ends with a letter or
    digit, and is its own claim name; a volume name that leaves nothing is an
    invalid argument. *)
Theorem volumeResourceName_valid name :
  match volumeResourceName name with
  | Ok r =>
      r ≠ "" ∧ (len r ≤ 63)%nat ∧ all_chars volume_char r = true ∧
      (∀ c, first_char r = Some c ∨ last_char r = Some c → lower_alnum c = true) ∧
      volumeResourceName r = Ok r
  | Err e => kind_of e = Some KindInvalidArgument
  end.
Proof.
  unfold volumeResourceName at 1. cbv zeta.
  set (t := Trim (replace_volume_chars false (ToLower (TrimSpace name))) "-.").
  assert (all_chars volume_char t = true) as Ht
    by apply all_chars_Trim, replace_volume_chars_chars.
  set (r := if (63 <? len t)%nat then TrimRight (slice t 0 63) "-." else t).
  assert (all_chars volume_char r = true ∧ (len r ≤ 63)%nat ∧
          ∀ c, first_char r = Some c ∨ last_char r = Some c → has_char c "-." = false)
    as (Hall & Hlen & Hends).
  { unfold r. destruct (Nat.ltb_spec 63 (len t)) as [Hl|Hl].
    - unfold TrimRight, slice. rewrite substring_0. split_and!.
      + apply all_chars_trim_right. destruct (take_chars_prefix (63 - 0) t) as [u Hu].
        rewrite Hu, all_chars_app in Ht. by apply andb_true_iff in Ht as [? _].
      + etrans; [apply len_trim_right|]. rewrite len_take_chars. lia.
      + intros c [Hc%trim_right_first|Hc]; [|by eapply (trim_right_last (λ c, has_char c "-."))].
        apply (Trim_ends (replace_volume_chars false (ToLower (TrimSpace name)))). left. fold t.
        destruct t; [done|exact Hc].
    - split_and!; [done|lia|]. intros c. apply Trim_ends. }
  destruct (decide (r = "")) as [|Hne]; [done|].
  assert (∀ c, first_char r = Some c ∨ last_char r = Some c → lower_alnum c = true) as Hl.
  { intros c Hc. specialize (Hends c Hc).
    assert (volume_char c = true) as Hv
      by (destruct Hc as [Hc|Hc]; [by eapply all_chars_first|by eapply all_chars_last]).
    rewrite volume_char_spec, Hends, orb_false_r in Hv. done. }
  split_and!; try done. unfold volumeResourceName. cbv zeta.
  assert (all_chars is_ascii r = true) as Hascii
    by (eapply all_chars_impl; [|exact Hall]; intros c Hc; apply (volume_char_ascii c Hc)).
  assert (TrimSpace r = r) as ->.
  { unfold TrimSpace. rewrite Hascii.
    assert (∀ c, first_char r = Some c ∨ last_char r = Some c → Ascii.is_space c = false) as Hs.
    { intros c Hc. apply volume_char_ascii. rewrite volume_char_spec, Hl by done. done. }
    rewrite trim_left_id, trim_right_id; [done|..]; intros c Hc; apply Hs; auto. }
  assert (ToLower r = r) as ->.
  { unfold ToLower. rewrite Hascii. eapply map_chars_id; [|exact Hall].
    intros c Hc. apply (volume_char_ascii c Hc). }
  rewrite replace_volume_chars_id by done.
  assert (Trim r "-." = r) as ->.
  { unfold Trim. rewrite trim_left_id, trim_right_id; [done|..]; intros c Hc; apply Hends; auto. }
  destruct (Nat.ltb_spec 63 (len r)); [lia|]. by rewrite decide_False.
Qed.
End names.

(** ** Properties: reading and removing *)

(** A successful plugin event. *)
Definition plugin_done (e : event cmd) : Prop :=
  match e with
  | Event X c x =>
      (match c in cmd X return X → Prop with
       | LookupVolumePlugin _ _ => λ r, is_ok r = true
       | PluginRemoveVolume _ _ _ _ _ => λ r, is_ok r = true
       | ObserveVolumePlugin _ _ outcome => λ _, outcome = None
       | _ => λ _, False
       end) x
  end.

(** The latest events but for those of plugins read the workloads and the Pods of
    the namespace, and none of them refers to the claim. *)
Definition seen_unused (ns claim : string) (recent h : hist) : Prop :=
  ∃ h0 ds js pods,
    h = (recent ++ Event _ (KList KPod ns "") (Ok pods) :: Event _ (KList KJob ns "") (Ok js) ::
           Event _ (KList KDeployment ns "") (Ok ds) :: h0)%list ∧
    claim ∉ claims_used (workloads_of ds js) pods.

Section removal.
Context `{Unicode} `{Regexp} `{MapJSON} `{Validation} `{Quantities}.

(** The claim was read as dink's claim of the volume [name], with this view. *)
Definition seen_volume (ns claim name : string) (v : DockerVolume) (h : hist) : Prop :=
  ∃ pvc, Event _ (KGet KPVC ns claim) (Ok pvc) ∈ h ∧ claim_of name pvc = true ∧
         volumeFromPVC pvc = Ok v ∧ vol_Name v = name.

(** What removing the volume [name] may do. *)
Definition removal (id : Identity) (name : string) (force : bool) : guard (cmd := cmd) := λ h X c,
  let ns := id_namespace id in
  match c with
  | KGet k ns' claim => k = KPVC ∧ ns' = ns ∧ volumeResourceName name = Ok claim
  | KList _ ns' _ => ns' = ns
  | LookupVolumePlugin ns' _ | ObserveVolumePlugin ns' _ _ => ns' = ns
  | PluginRemoveVolume _ _ ns' name' _ => ns' = ns ∧ name' = name ∧
      ∃ claim v, volumeResourceName name = Ok claim ∧ seen_volume ns claim name v h ∧
        (force = false → ∃ recent, seen_unused ns claim recent h)
  | KDelete k ns' claim _ => k = KPVC ∧ ns' = ns ∧ volumeResourceName name = Ok claim ∧
      ∃ v, seen_volume ns claim name v h ∧
        (force = false → ∃ recent, seen_unused ns claim recent h ∧ Forall plugin_done recent ∧
           (vol_Driver v ≠ localVolumeDriver →
            Event _ (PluginRemoveVolume (vol_Driver v) (CommonName id) ns name (vol_Options v))
              (Ok tt) ∈ recent))
  | _ => False
  end.

Lemma volumeFromPVC_name name pvc v :
  volumeFromPVC pvc = Ok v → claim_of name pvc = true → vol_Name v = name.
Proof.
  unfold volumeFromPVC, claim_of. cbv zeta. intros Hv [_ Hc%bool_decide_eq_true]%andb_true_iff.
  apply result_bind_ok in Hv as (l & _ & Hv). apply result_bind_ok in Hv as (o & _ & Hv).
  by injection Hv as <-.
Qed.

(** [GetVolume] issues one read, of the claim of the name. *)
Lemma GetVolume_wp (R : rely (cmd := cmd)) (G : guard (cmd := cmd)) id name h
    (Q : hist → res DockerVolume → Prop) :
  let ns := id_namespace id in
  (∀ claim, volumeResourceName name = Ok claim → G h _ (KGet KPVC ns claim)) →
  (∀ h' e, h `suffix_of` h' → Q h' (Err e)) →
  (∀ claim pvc v, volumeResourceName name = Ok claim → claim_of name pvc = true →
     volumeFromPVC pvc = Ok v → vol_Name v = name →
     R h (res (obj KPVC)) (KGet KPVC ns claim) (Ok pvc) →
     Q (Event _ (KGet KPVC ns claim) (Ok pvc) :: h) (Ok v)) →
  wp R G (GetVolume (Some id) name) h Q.
Proof.
  intros ns Hg Herr Hok. unfold GetVolume.
  destruct (volumeResourceName name) as [claim|e] eqn:En; [|by apply wp_ret, Herr].
  rewrite wp_bind, wp_call. split; [by apply Hg|]. intros [pvc|e] Hr.
  - destruct (claim_of name pvc) eqn:Ec; simpl.
    + destruct (volumeFromPVC pvc) as [v|e] eqn:Ev.
      * eapply Hok; try done. by eapply volumeFromPVC_name.
      * apply Herr. by apply suffix_cons_r.
    + apply Herr. by apply suffix_cons_r.
  - apply Herr. by apply suffix_cons_r.
Qed.

Lemma volumeClaimsInUse_wp (R : rely (cmd := cmd)) (G : guard (cmd := cmd)) ns h
    (Q : hist → res (list string) → Prop) :
  (∀ h k sel, G h _ (KList k ns sel)) →
  (∀ h' e, h `suffix_of` h' → Q h' (Err e)) →
  (∀ ds js pods,
     Q (Event _ (KList KPod ns "") (Ok pods) :: Event _ (KList KJob ns "") (Ok js) ::
        Event _ (KList KDeployment ns "") (Ok ds) :: h)
       (Ok (claims_used (workloads_of ds js) pods))) →
  wp R G (volumeClaimsInUse ns) h Q.
Proof.
  intros Hg Herr Hok. unfold volumeClaimsInUse, listWorkloads. rewrite wp_bind_res.
  rewrite wp_bind, wp_call. split; [apply (Hg _ KDeployment)|].
  intros [ds|e] _; [|apply wp_ret, Herr; by apply suffix_cons_r].
  rewrite wp_bind, wp_call. split; [apply (Hg _ KJob)|].
  intros [js|e] _; [|apply wp_ret, Herr; do 2 apply suffix_cons_r; done].
  rewrite wp_ret, wp_bind, wp_call. split; [apply (Hg _ KPod)|].
  intros [pods|e] _; [|apply wp_ret, Herr; do 3 apply suffix_cons_r; done]. apply Hok.
Qed.
End removal.

Section removal_proof.
Context `{Unicode} `{Regexp} `{MapJSON} `{Validation} `{Quantities}.

(** Success is reported only when the deletion of the claim succeeded last. *)
Definition removal_done (ns name : string) (h : hist) (r : res unit) : Prop :=
  match r with
  | Ok _ => ∃ claim h0, volumeResourceName name = Ok claim ∧
      h = Event _ (KDelete KPVC ns claim no_delete_options) (Ok tt) :: h0
  | Err _ => True
  end.

(** The release by the plugin and the deletion, once the claim was seen. *)
Lemma delete_claim_wp id v name force claim h :
  let ns := id_namespace id in
  volumeResourceName name = Ok claim → vol_Name v = name →
  seen_volume ns claim name v h → (force = false → seen_unused ns claim [] h) →
  wp any_answer (removal id name force) (delete_claim id v force claim) h (removal_done ns name).
Proof.
  intros ns Hclaim Hname Hseen Hunused.
  assert (∀ recent, (force = false → Forall plugin_done recent ∧
            (vol_Driver v ≠ localVolumeDriver →
             Event _ (PluginRemoveVolume (vol_Driver v) (CommonName id) ns name
                        (vol_Options v)) (Ok tt) ∈ recent)) →
          wp any_answer (removal id name force)
            (do r <- call (KDelete KPVC (id_namespace id) claim no_delete_options);
             Ret (kube_result r)) (recent ++ h)%list (removal_done ns name)) as Hdelete.
  { intros recent Hrecent. rewrite wp_bind, wp_call. split.
    - cbn. split_and!; try done. exists v. split.
      + destruct Hseen as (pvc & Hin & Hrest). exists pvc. split; [set_solver|done].
      + intros Hf. destruct (Hunused Hf) as (h0 & ds & js & pods & -> & Hni).
        destruct (Hrecent Hf) as [Hdone Hremoved]. exists recent. split; [|done].
        by exists h0, ds, js, pods.
    - intros r _. apply wp_ret. destruct r as [[]|e]; simpl; [by exists claim, (recent ++ h)%list|done]. }
  unfold delete_claim. destruct (decide _) as [Hne|Hlocal]; rewrite wp_bind.
  2: { rewrite wp_ret. apply dec_stable in Hlocal. by apply (Hdelete []). }
  unfold removePluginVolume, volumePlugin. fold ns.
  rewrite wp_bind_res, wp_bind, wp_call. split; [done|].
  assert (∀ recent e, wp any_answer (removal id name force)
    (if negb force then Ret (Err e)
     else do r <- call (KDelete KPVC (id_namespace id) claim no_delete_options);
          Ret (kube_result r)) (recent ++ h)%list (removal_done ns name)) as Hfail.
  { intros recent e. destruct force; simpl negb; [by apply Hdelete|by apply wp_ret]. }
  intros [[]|[|e]] _; [|apply (Hfail [_])..].
  rewrite wp_ret, wp_bind, wp_call. split.
  { cbn. split_and!; try done. exists claim, v. split; [done|]. split.
    - destruct Hseen as (pvc & Hin & Hrest). exists pvc. split; [set_solver|done].
    - intros Hf. destruct (Hunused Hf) as (h0 & ds & js & pods & -> & Hni).
      exists [Event _ (LookupVolumePlugin ns (vol_Driver v)) (Ok tt)]. by exists h0, ds, js, pods. }
  intros r _. rewrite wp_bind, wp_call. split; [done|]. intros [] _.
  destruct r as [[]|e]; rewrite wp_ret.
  - apply (Hdelete [_; _; _]). intros _. split; [repeat constructor|]. set_solver.
  - apply (Hfail [_; _; _]).
Qed.

Lemma RemoveVolume_wp id name force h :
  let ns := id_namespace id in
  wp any_answer (removal id name force) (RemoveVolume (Some id) name force) h (removal_done ns name).
Proof.
  intros ns. unfold RemoveVolume. rewrite wp_bind_res.
  apply GetVolume_wp; [intros claim Hc; by split_and!|done|]. fold ns.
  intros claim pvc v Hclaim Hof Hv Hname _. set (h1 := Event _ _ _ :: h).
  assert (seen_volume ns claim name v h1) as Hseen
    by (exists pvc; split; [apply list_elem_of_here|done]).
  assert (∀ h2, h1 `suffix_of` h2 →
            (force = false → seen_unused ns claim [] h2) →
            wp any_answer (removal id name force) (delete_claim id v force claim) h2 (removal_done ns name)) as Hdel.
  { intros h2 [l ->] Hu. apply (delete_claim_wp id v name); try done.
    destruct Hseen as (pvc' & Hin & Hrest). exists pvc'. split; [set_solver|done]. }
  rewrite wp_bind_res, Hname, Hclaim. destruct force; simpl negb; cbv iota.
  { rewrite wp_ret. apply (Hdel h1); done. }
  rewrite wp_bind_res. apply volumeClaimsInUse_wp; [done|done|].
  intros ds js pods. destruct (slices_Contains _ claim) eqn:Eu; rewrite wp_ret; [done|].
  apply Hdel; [do 3 apply suffix_cons_r; done|]. intros _.
  exists h1, ds, js, pods. split; [done|]. by apply bool_decide_eq_false in Eu.
Qed.
End removal_proof.

Section pruning.
Context `{Unicode} `{Regexp} `{MapJSON} `{Validation} `{Quantities}.

(** The volume was listed, with the label of anonymous volumes. *)
Definition listed_anonymous (ns name : string) (h : hist) : Prop :=
  ∃ selector pvcs pvc v,
    Event _ (KList KPVC ns selector) (Ok pvcs) ∈ h ∧ pvc ∈ pvcs ∧
    volumeFromPVC pvc = Ok v ∧ vol_Name v = name ∧ is_Some (vol_Labels v !! anonymousVolumeLabel).

(** What pruning may do: remove, without force, volumes that it may prune. *)
Definition pruning (id : Identity) (all : bool) : guard (cmd := cmd) := λ h X c,
  match c with
  | KGet _ ns _ | KList _ ns _ | LookupVolumePlugin ns _ | ObserveVolumePlugin ns _ _ =>
      ns = id_namespace id
  | PluginRemoveVolume _ _ _ _ _ | KDelete _ _ _ _ =>
      ∃ name, removal id name false h X c ∧
        (all = true ∨ listed_anonymous (id_namespace id) name h)
  | _ => False
  end.

(** Everything that is reported was deleted. *)
Definition pruned (ns : string) (h : hist) (r : res (list string)) : Prop :=
  match r with
  | Ok deleted => ∀ name, name ∈ deleted → ∃ claim, volumeResourceName name = Ok claim ∧
      Event _ (KDelete KPVC ns claim no_delete_options) (Ok tt) ∈ h
  | Err _ => True
  end.

Lemma removal_pruning id name all h0 h X (c : cmd X) :
  (all = true ∨ listed_anonymous (id_namespace id) name h0) →
  removal id name false h X c ∧ h0 `suffix_of` h → pruning id all h X c.
Proof.
  intros Ha [Hr [l ->]].
  assert (all = true ∨ listed_anonymous (id_namespace id) name (l ++ h0)%list) as Ha'.
  { destruct Ha as [?|(sel & pvcs & pvc & v & Hin & Hrest)]; [by left|right].
    exists sel, pvcs, pvc, v. split; [set_solver|done]. }
  destruct c; simpl in *; try done.
  - by destruct Hr as (_ & -> & _).
  - by exists name.
  - by exists name.
Qed.

Lemma list_volumes_elem volumeFilters used dangling pvcs volumes :
  list_volumes volumeFilters used dangling pvcs = Ok volumes →
  ∀ v, v ∈ volumes → ∃ pvc, pvc ∈ pvcs ∧ volumeFromPVC pvc = Ok v.
Proof.
  revert volumes. induction pvcs as [|pvc pvcs IH]; intros volumes; simpl.
  { intros [= <-]. set_solver. }
  intros Hl. apply result_bind_ok in Hl as (v & Hv & Hl).
  apply result_bind_ok in Hl as (rest & Hrest & Hl).
  specialize (IH _ Hrest). intros v' Hin.
  destruct (_ || _); [|destruct (_ && _)]; injection Hl as <-.
  - destruct (IH v' Hin) as (p & ? & ?). exists p. set_solver.
  - destruct (IH v' Hin) as (p & ? & ?). exists p. set_solver.
  - apply elem_of_cons in Hin as [->|Hin]; [exists pvc; set_solver|].
    destruct (IH v' Hin) as (p & ? & ?). exists p. set_solver.
Qed.

Lemma ListVolumes_wp id all volumeFilters h :
  wp any_answer (pruning id all) (ListVolumes (Some id) volumeFilters) h (λ h' r,
    match r with
    | Ok volumes => ∃ selector pvcs,
        Event _ (KList KPVC (id_namespace id) selector) (Ok pvcs) ∈ h' ∧
        ∀ v, v ∈ volumes → ∃ pvc, pvc ∈ pvcs ∧ volumeFromPVC pvc = Ok v
    | Err _ => True
    end).
Proof.
  unfold ListVolumes. rewrite wp_bind, wp_call. split; [done|].
  intros [pvcs|e] _; [|done]. rewrite wp_bind_res. apply volumeClaimsInUse_wp; [done|done|].
  intros ds js pods. destruct (GetBoolOrDefault _ _ _) as [dangling|e]; rewrite wp_ret; [|done].
  destruct (list_volumes _ _ _ pvcs) as [volumes|e] eqn:E; [|done].
  eexists _, pvcs. split; [|by eapply list_volumes_elem].
  do 3 apply list_elem_of_further. apply list_elem_of_here.
Qed.

Lemma prune_volumes_wp id all volumes h :
  (∀ v, v ∈ volumes → is_Some (vol_Labels v !! anonymousVolumeLabel) →
     listed_anonymous (id_namespace id) (vol_Name v) h) →
  wp any_answer (pruning id all) (prune_volumes (Some id) all volumes) h (λ h' r,
    h `suffix_of` h' ∧
    pruned (id_namespace id) h' r).
Proof.
  revert h. induction volumes as [|v volumes IH]; intros h Hlisted; simpl.
  { split; [done|]. set_solver. }
  assert (∀ h', h `suffix_of` h' → ∀ v, v ∈ volumes → is_Some (vol_Labels v !! anonymousVolumeLabel) →
            listed_anonymous (id_namespace id) (vol_Name v) h') as Hlater.
  { intros h' [l ->] v' Hv Ha. destruct (Hlisted v' ltac:(set_solver) Ha)
      as (sel & pvcs & pvc & v0 & Hin & Hrest).
    exists sel, pvcs, pvc, v0. split; [set_solver|done]. }
  destruct (negb all && _) eqn:Eskip; [by apply IH, Hlater|].
  assert (all = true ∨ listed_anonymous (id_namespace id) (vol_Name v) h) as Hmay.
  { destruct all; [by left|right]. simpl in Eskip. apply negb_false_iff, bool_decide_eq_true in Eskip.
    apply Hlisted; [set_solver|done]. }
  rewrite wp_bind.
  pose proof (wp_suffix _ _ _ _ _ (wp_suffix_guard _ _ _ _ _
                (RemoveVolume_wp id (vol_Name v) false h))) as Hremove.
  eapply wp_mono; [|clear Hremove|exact Hremove].
  { intros h0 X c. by apply removal_pruning. }
  intros h1 r [Hdone Hs]. cbv beta in Hdone. destruct r as [u|e].
  - rewrite wp_bind_res. eapply wp_post; [|by apply IH, Hlater].
    intros h2 [deleted|e] [Hs2 Hdel]; (split; [by etrans|]); [|done].
    intros name [->|Hin]%elem_of_cons; [|by apply Hdel].
    destruct Hdone as (claim & h0 & Hc & ->). exists claim. split; [done|].
    destruct Hs2 as [l ->]. set_solver.
  - destruct (IsKind e KindConflict); [|by split].
    eapply wp_post; [|by apply IH, Hlater]. intros h2 r [Hs2 Hdel]. split; [by etrans|done].
Qed.

(** volumes are removed only when that is safe.  Removing a volume reads
    and deletes nothing but dink's own claim of exactly that Docker name, in the
    namespace of the identity, after reading it; without force, the deletion
    (and the call of the driver) directly follows a listing of all workloads and
    Pods of the namespace in which nothing refers to the claim, and for a plugin
    driver its successful release.  Pruning does only that, without force, and
    only for volumes listed as anonymous unless all were asked for; what it
    reports was deleted. *)
Theorem volume_removal_is_safe id :
  (∀ name force h h' r, exec (RemoveVolume (Some id) name force) h h' r →
     guarded (removal id name force) h h' ∧ removal_done (id_namespace id) name h' r) ∧
  (∀ volumeFilters all h h' r, GetBoolOrDefault volumeFilters "all" false = Ok all →
     exec (PruneVolumes (Some id) volumeFilters) h h' r →
     guarded (pruning id all) h h' ∧
     pruned (id_namespace id) h' r).
Proof.
  split.
  - intros name force h h' r Hex.
    destruct (wp_exec _ _ _ _ _ _ _ (RemoveVolume_wp id name force h) Hex); [|done].
    apply along_any; [done|]. by eapply exec_suffix.
  - intros volumeFilters all h h' r Hall Hex.
    assert (answered any_answer h h') as Hans
      by (apply along_any; [done|]; by eapply exec_suffix).
    apply and_comm.
    refine (wp_exec any_answer (pruning id all) _ _ _ _ (pruned (id_namespace id)) _ Hex Hans).
    unfold PruneVolumes. rewrite Hall. cbv zeta. rewrite wp_bind_res.
    eapply wp_post; [|apply ListVolumes_wp]. intros h1 [volumes|e]; [|done].
    intros (sel & pvcs & Hin & Hv). eapply wp_post; [|apply prune_volumes_wp].
    + by intros h2 r2 [_ ?].
    + intros v Hvin Ha. destruct (Hv v Hvin) as (pvc & Hp & Hpv).
      by exists sel, pvcs, pvc, v.
Qed.
End pruning.

(** A cluster with two volumes of [acme]; the container [web] mounts [data]. *)
Definition sample_claim (name : string) (labels : smap) : PersistentVolumeClaim := {|
  pvc_meta := meta_set_labels {[volumeManagedLabel := volumeManagedValue]}
    (meta_set_annotations
       {[volumeNameAnnotation := name; volumeLabelsAnnotation := to_text labels]}
       (sample_meta "acme" name "11aa"));
  PVC_Spec := {| PVC_Storage := 1; AccessModes := ["ReadWriteOnce"]; StorageClassName := None |};
  PVC_Capacity := None |}.

Definition data_deployment : Deployment :=
  let d := sample_deployment "acme" "web" "3f25-04e0" 1 in
  dep_set_template (tpl_set_spec
    (spec_set_volumes [{| Vol_Name := "data"; Vol_Source := PersistentVolumeClaimSource "data" |}]
       empty_spec) (dep_Template d)) d.

Definition volume_cluster : cluster :=
  set_db KDeployment [data_deployment]
    (set_db KPVC [sample_claim "data" ∅; sample_claim "cache" {[anonymousVolumeLabel := ""]}]
       empty_cluster).

Definition demo_map_json : MapJSON := {| Marshal_map m := Some (to_text m); Unmarshal_map := of_text |}.

Lemma demo_map_json_laws : @MapJSONLaws demo_map_json.
Proof.
  split; simpl.
  - intros m s [= <-]. apply of_text_to_text.
  - intros m [=Hm]. by apply to_text_nonempty in Hm.
Qed.

Definition demo_regexp : Regexp := {| MatchString pattern s := Some (bool_decide (pattern = s)) |}.

(** Pruning deletes the anonymous volume; the used one is refused. *)
Lemma volume_removal_is_safe_witness :
  let remove := @RemoveVolume ascii_unicode demo_map_json (Some acme_identity) "data" false in
  let prune := @PruneVolumes ascii_unicode demo_regexp demo_map_json (Some acme_identity) (NewArgs []) in
  (simulate remove volume_cluster).1.1 = Err (Conflict (errors_New "volume %q is in use")) ∧
  (simulate prune volume_cluster).1.1 = Ok ["cache"] ∧
  guarded (@pruning ascii_unicode demo_map_json acme_identity false) []
    (simulate prune volume_cluster).1.2.
Proof.
  intros remove prune. split; [vm_compute; reflexivity|]. split; [vm_compute; reflexivity|].
  refine (proj1 (proj2 (@volume_removal_is_safe ascii_unicode demo_regexp demo_map_json acme_identity)
            (NewArgs []) false _ _ _ eq_refl (simulate_exec prune volume_cluster))).
Defined.

(** ** Properties: creating *)

(** The API server keeps the labels and annotations of what it creates. *)
Definition keeps_metadata : rely (cmd := cmd) := λ _ X c,
  match c in cmd X return X → Prop with
  | KCreate k _ o => λ r,
      match r with
      | Ok o' => Labels (obj_meta o') = Labels (obj_meta o) ∧
                 Annotations (obj_meta o') = Annotations (obj_meta o)
      | Err _ => True
      end
  | _ => λ _, True
  end.

Section creation.
Context `{Unicode} `{MapJSONLaws} `{Validation} `{Quantities}.

Definition effective_driver (request : CreateRequest) : string :=
  if decide (request_Driver request = "") then localVolumeDriver else request_Driver request.

(** The claim of [name] was looked for and is absent. *)
Definition seen_absent (ns claim : string) (h : hist) : Prop :=
  ∃ e, Event _ (KGet KPVC ns claim) (Err e) ∈ h ∧ IsNotFound e = true.

(** What creating a volume may do. *)
Definition creation (id : Identity) (request : CreateRequest) : guard (cmd := cmd) := λ h X c,
  let ns := id_namespace id in
  match c with
  | KGet k ns' _ => k = KPVC ∧ ns' = ns
  | RandomName => request_Name request = ""
  | LookupVolumePlugin ns' driver | ObserveVolumePlugin ns' driver _ =>
      ns' = ns ∧ driver = effective_driver request ∧ driver ≠ localVolumeDriver
  | PluginCreateVolume driver _ ns' name options labels =>
      driver = effective_driver request ∧ ns' = ns ∧
      options = DriverOpts request ∧ labels = request_Labels request ∧
      ∃ claim, volumeResourceName name = Ok claim ∧ seen_absent ns claim h
  | KCreate k ns' o =>
      match k return obj k → Prop with
      | KPVC => λ o, ns' = ns ∧ Namespace (pvc_meta o) = ns ∧
          ∃ name v, claim_of name o = true ∧ volumeResourceName name = Ok (Name (pvc_meta o)) ∧
            seen_absent ns (Name (pvc_meta o)) h ∧
            volumeFromPVC o = Ok v ∧ vol_Name v = name ∧ vol_Driver v = effective_driver request ∧
            vol_Labels v = request_Labels request ∧ vol_Options v = DriverOpts request
      | _ => λ _, False
      end o
  | _ => False
  end.

Lemma result_mapM_unit_ok {A} (f : A → res unit) l us x :
  result_mapM f l = Ok us → x ∈ l → f x = Ok tt.
Proof.
  intros Hf Hx. destruct (proj1 (result_mapM_elem _ _ _ Hf) x Hx) as ([] & _ & ?). done.
Qed.

(** Annotations of a driver cannot be dink's own. *)
Lemma pvcSpec_annotations c spec extra key :
  pvcSpec c = Ok (spec, extra) → HasPrefix key "dink.io/" = true → extra !! key = None.
Proof.
  unfold pvcSpec. cbv zeta. intros Hs Hk. destruct (ParseQuantity _) as [q|]; [|done].
  destruct (q <=? 0)%Z; [done|]. apply result_bind_ok in Hs as (modes & _ & Hs).
  destruct (_ && _); [done|]. apply result_bind_ok in Hs as (us & Hus & Hs).
  injection Hs as _ <-. destruct (claim_Annotations c !! key) as [v|] eqn:E; [|done].
  exfalso. assert (check_annotation key = Ok tt) as Hc.
  { eapply result_mapM_unit_ok; [exact Hus|]. apply elem_of_map_keys. eauto. }
  unfold check_annotation in Hc. by rewrite Hk in Hc.
Qed.

(** What the submitted claim, or one with the same annotations, is read as. *)
Lemma new_claim_view ns claim name driver labels options l o spec extra (pvc : PersistentVolumeClaim) :
  (∀ key, HasPrefix key "dink.io/" = true → extra !! key = None) →
  Marshal_map labels = Some l → Marshal_map options = Some o → driver ≠ "" →
  let submitted := new_claim ns claim name driver l o spec extra in
  Annotations (pvc_meta pvc) = Annotations (pvc_meta submitted) →
  ∃ v, volumeFromPVC pvc = Ok v ∧ vol_Name v = name ∧ vol_Driver v = driver ∧
       vol_Labels v = labels ∧ vol_Options v = options.
Proof.
  intros Hextra Hl Ho Hd submitted Ha. unfold volumeFromPVC. rewrite Ha. unfold submitted. simpl.
  assert (∀ key, HasPrefix key "dink.io/" = true → ∀ m : smap, mget (extra ∪ m) key = mget m key)
    as Hm by (intros key Hk m; unfold mget; by rewrite lookup_union_r by auto).
  rewrite !Hm by done. unfold mget.
  rewrite (lookup_insert_ne _ _ volumeLabelsAnnotation), (lookup_insert_eq _ volumeLabelsAnnotation),
    !(lookup_insert_ne _ _ volumeOptionsAnnotation), (lookup_insert_eq _ volumeOptionsAnnotation),
    !(lookup_insert_ne _ _ volumeDriverAnnotation), lookup_singleton_eq,
    (lookup_insert_eq _ volumeNameAnnotation) by done.
  simpl. unfold decode_map.
  assert (l ≠ "" ∧ o ≠ "") as [Hl' Ho']
    by (split; intros ->; [by apply Marshal_map_nonempty in Hl|by apply Marshal_map_nonempty in Ho]).
  rewrite !decide_False by done.
  rewrite (Unmarshal_Marshal_map _ _ Hl), (Unmarshal_Marshal_map _ _ Ho). simpl.
  eexists. by split_and!.
Qed.
End creation.

Section creation_proof.
Context `{Unicode} `{MapJSONLaws} `{Validation} `{Quantities}.

(** The volume that is returned is the one that was asked for. *)
Definition created_as (request : CreateRequest) (r : res DockerVolume) : Prop :=
  match r with
  | Ok v => (request_Name request ≠ "" → vol_Name v = request_Name request) ∧
            vol_Driver v = effective_driver request
  | Err _ => True
  end.

Lemma effective_driver_nonempty request : effective_driver request ≠ "".
Proof. unfold effective_driver. by case_decide. Qed.

Lemma existingVolume_created request pvc name :
  (request_Name request ≠ "" → name = request_Name request) →
  created_as request (existingVolume pvc name (effective_driver request)).
Proof.
  intros Hn. unfold existingVolume. destruct (claim_of name pvc) eqn:Ec; [|done]. simpl negb. cbv iota.
  destruct (volumeFromPVC pvc) as [v|e] eqn:Ev; [|done]. cbn.
  destruct (decide _) as [Hd|Hd]; [done|]. apply dec_stable in Hd. split; [|done].
  intros Hne. rewrite <- Hn by done. by eapply volumeFromPVC_name.
Qed.

Lemma submit_claim_wp id request name claim c h :
  let ns := id_namespace id in
  let driver := effective_driver request in
  volumeResourceName name = Ok claim → seen_absent ns claim h →
  (request_Name request ≠ "" → name = request_Name request) →
  wp keeps_metadata (creation id request) (submit_claim id request name driver claim c) h
    (λ _ r, created_as request r).
Proof.
  intros ns driver Hclaim Habsent Hn. unfold submit_claim.
  destruct (pvcSpec c) as [[spec extra]|e] eqn:Es; [|done].
  destruct (Marshal_map (request_Labels request)) as [labels|] eqn:El; [|done].
  destruct (Marshal_map (DriverOpts request)) as [options|] eqn:Eo; [|done].
  set (o := new_claim _ _ _ _ _ _ _ _).
  pose proof (λ pvc Ha, new_claim_view ns claim name driver _ _ _ _ spec extra pvc
    (λ key, pvcSpec_annotations c spec extra key Es) El Eo
    (effective_driver_nonempty request) Ha) as Hview.
  assert (∀ pvc, Annotations (pvc_meta pvc) = Annotations (pvc_meta o) →
            mget (Annotations (pvc_meta pvc)) volumeNameAnnotation = name) as Hname.
  { intros pvc Ha. destruct (Hview pvc Ha) as (v & Hv & Hvn & _). rewrite <- Hvn.
    unfold volumeFromPVC in Hv. apply result_bind_ok in Hv as (? & _ & Hv).
    apply result_bind_ok in Hv as (? & _ & Hv). by injection Hv as <-. }
  rewrite wp_bind, wp_call. split.
  - destruct (Hview o eq_refl) as (v & Hv & Hvn & Hvd & Hvl & Hvo). cbn.
    split; [done|]. split; [done|]. exists name, v. split_and!; try done.
    unfold claim_of. rewrite (Hname o eq_refl), !bool_decide_true; [done|done|].
    unfold mget. simpl. by rewrite lookup_singleton_eq.
  - intros [pvc|e] Hr.
    + destruct (Hview pvc (proj2 Hr)) as (v & Hv & Hvn & Hvd & _). rewrite wp_ret, Hv.
      split; [|done]. intros Hne. rewrite <- Hn; done.
    + destruct (IsAlreadyExists e); [|done]. rewrite wp_bind, wp_call. split; [done|].
      intros [existing|e'] _; [|done]. by apply existingVolume_created.
Qed.

Lemma provision_volume_wp id request name claim h :
  let ns := id_namespace id in
  let driver := effective_driver request in
  volumeResourceName name = Ok claim → seen_absent ns claim h →
  (request_Name request ≠ "" → name = request_Name request) →
  wp keeps_metadata (creation id request) (provision_volume id request name driver claim) h
    (λ _ r, created_as request r).
Proof.
  intros ns driver Hclaim Habsent Hn. unfold provision_volume.
  assert (∀ h' c, h `suffix_of` h' → wp keeps_metadata (creation id request)
            (submit_claim id request name driver claim c) h' (λ _ r, created_as request r)) as Hrest.
  { intros h' c [l0 ->]. apply submit_claim_wp; [done| |done].
    destruct Habsent as (e & Hin & He). exists e. split; [set_solver|done]. }
  rewrite wp_bind_res. destruct (decide _) as [Hd|Hd].
  - unfold pluginVolumeClaim, volumePlugin. rewrite wp_bind_res, wp_bind, wp_call.
    split; [done|]. intros [[]|[|e]] _; [|done..]. rewrite wp_ret, wp_bind, wp_call. split.
    { cbn. split_and!; try done. exists claim. split; [done|].
      destruct Habsent as (e & Hin & He). exists e. split; [set_solver|done]. }
    intros r _. rewrite wp_bind, wp_call. split; [done|]. intros [] _.
    destruct r as [c|e]; rewrite wp_ret; [|done]. apply Hrest. do 3 apply suffix_cons_r. done.
  - rewrite wp_ret. by apply Hrest.
Qed.

(** creating a volume is idempotent and exact.  [CreateVolume] looks for
    the claim first: if it is there, nothing is created and no driver is asked,
    and the volume is returned only if it has the requested name and driver (a
    conflict otherwise).  A claim that is created belongs to the identity's
    namespace, was absent, is dink's claim of the requested name (or of a
    generated one), and reads back as a volume with the requested name, driver,
    labels and options, whatever annotations the driver adds. *)
Theorem CreateVolume_exact id request h h' r :
  exec (CreateVolume (Some id) request) h h' r → answered keeps_metadata h h' →
  guarded (creation id request) h h' ∧ created_as request r.
Proof.
  intros Hex Hans. apply and_comm.
  refine (wp_exec keeps_metadata (creation id request) _ _ _ _ (λ _ r, created_as request r)
            _ Hex Hans).
  unfold CreateVolume. destruct (ClusterVolumeSpec request); [done|]. cbv zeta.
  fold (effective_driver request). destruct (_ && _); [done|]. rewrite wp_bind.
  assert (∀ name h, (request_Name request ≠ "" → name = request_Name request) →
    wp keeps_metadata (creation id request)
      (match volumeResourceName name with
       | Err e => Ret (Err e)
       | Ok pvcName =>
           do existing <- call (KGet KPVC (id_namespace id) pvcName);
           match existing with
           | Ok existing => Ret (existingVolume existing name (effective_driver request))
           | Err e => if negb (IsNotFound e) then Ret (Err (kubeError e))
                      else provision_volume id request name (effective_driver request) pvcName
           end
       end) h (λ _ r, created_as request r)) as Hmain.
  { clear Hex Hans h h'. intros name h Hn.
    destruct (volumeResourceName name) as [claim|e] eqn:Ec; [|done].
    rewrite wp_bind, wp_call. split; [done|]. intros [existing|e] _.
    - by apply existingVolume_created.
    - destruct (IsNotFound e) eqn:He; [|done]. simpl negb. cbv iota.
      apply provision_volume_wp; [done| |done]. exists e. split; [apply list_elem_of_here|done]. }
  destruct (decide (request_Name request = "")) as [He|Hne].
  - rewrite wp_call. split; [done|]. intros name _. by apply Hmain.
  - rewrite wp_ret. by apply Hmain.
Qed.
End creation_proof.

Definition demo_request (name : string) : CreateRequest := {|
  request_Name := name; request_Driver := ""; DriverOpts := {["size" := "64Mi"]};
  request_Labels := {["app" := "web"]}; ClusterVolumeSpec := false |}.

Lemma cluster_keeps_metadata h X (c : cmd X) s : keeps_metadata h X c (handle X c s).1.
Proof. destruct c; simpl; try done. by destruct (find_object _ _ _). Qed.

Lemma CreateVolume_exact_witness :
  let p := @CreateVolume ascii_unicode demo_map_json demo_validation demo_quantities
             (Some acme_identity) (demo_request "My_Logs") in
  ∃ v, (simulate p volume_cluster).1.1 = Ok v ∧ vol_Name v = "My_Logs" ∧
       Mountpoint v = "/var/lib/dink/volumes/my-logs".
Proof.
  intros p.
  destruct (simulate p volume_cluster).1.1 as [v|e] eqn:E; [|vm_compute in E; discriminate E].
  exists v. split; [reflexivity|].
  pose proof (@CreateVolume_exact ascii_unicode demo_map_json demo_map_json_laws demo_validation
    demo_quantities acme_identity (demo_request "My_Logs") _ _ _ (simulate_exec p volume_cluster)
    (run_answered handle keeps_metadata p [] volume_cluster cluster_keeps_metadata)) as [_ H].
  fold p in H. rewrite E in H. split; [apply H; discriminate|].
  vm_compute in E. injection E as <-. reflexivity.
Defined.

(** ** Properties: mounting *)

Section mounting.
Context `{Unicode} `{Regexp} `{MapJSON} `{Validation} `{Quantities}.

Definition claim_name (n : string) : Prop := ∃ name, volumeResourceName name = Ok n.

(** The volume of a claim, under the name of the claim. *)
Definition claim_volume (n : string) : Volume :=
  {| Vol_Name := n; Vol_Source := PersistentVolumeClaimSource n |}.

(** The invariant of the maps. *)
Record mounts_ok (s : mounts_state) : Prop := {
  ok_mounts t m : mountsByTarget s !! t = Some m →
    MountPath m = t ∧ IsAbs t = true ∧ is_Some (volumesByName s !! VM_Name m);
  ok_volumes n v : volumesByName s !! n = Some v → v = claim_volume n ∧ claim_name n;
  ok_anonymous n : n ∈ anonymous s → is_Some (volumesByName s !! n)
}.

(** From [s], the loop over mounts with these targets leads to [s']. *)
Definition mounted (s : mounts_state) (targets : list string) (s' : mounts_state) : Prop :=
  mounts_ok s' ∧
  ∀ t, is_Some (mountsByTarget s' !! t) ↔ is_Some (mountsByTarget s !! t) ∨ t ∈ targets.

Lemma volumeResourceName_wp name h :
  wp any_answer any_command (Ret (volumeResourceName name) : proc (res string)) h (λ _ r,
    match r with Ok n => claim_name n | Err _ => True end).
Proof. rewrite wp_ret. destruct (volumeResourceName name) eqn:E; [by exists name|done]. Qed.

Lemma ensureContainerVolume_wp ctx name driver opts h :
  wp any_answer any_command (ensureContainerVolume ctx name driver opts) h (λ _ r,
    match r with Ok n => claim_name n | Err _ => True end).
Proof.
  unfold ensureContainerVolume. rewrite wp_bind. eapply wp_post; [|apply wp_any].
  intros h1 [name' labels] _. rewrite wp_bind. eapply wp_post; [|apply wp_any].
  assert (∀ h, wp any_answer any_command
    (do? volume <- GetVolume ctx name'; Ret (volumeResourceName (vol_Name volume))) h (λ _ r,
      match r with Ok n => claim_name n | Err _ => True end)) as Hget.
  { intros h'. rewrite wp_bind_res. eapply wp_post; [|apply wp_any].
    intros h2 [v|e] _; [apply volumeResourceName_wp|done]. }
  intros h2 [v|e] _; [apply volumeResourceName_wp|]. destruct (negb _); [done|].
  rewrite wp_bind. eapply wp_post; [|apply wp_any].
  intros h3 [v|e'] _; [apply Hget|]. destruct (negb _); [done|apply Hget].
Qed.

Lemma addMount_wp ctx s target source ro sub driver opts h :
  mounts_ok s →
  wp any_answer any_command (addMount ctx s target source ro sub driver opts) h (λ _ r,
    match r with Ok s' => mounted s [target] s' | Err _ => True end).
Proof.
  intros Hs. unfold addMount. destruct (IsAbs target) eqn:Ea; [|done]. simpl negb. cbv iota.
  rewrite wp_bind_res. eapply wp_post; [|apply ensureContainerVolume_wp].
  intros h' [n|e] Hn; [|done]. rewrite wp_ret. split.
  - split; simpl.
    + intros t m. rewrite lookup_insert_Some. intros [[<- <-]|[Hne Hm]].
      * simpl. rewrite lookup_insert_eq. eauto.
      * destruct (ok_mounts s Hs t m Hm) as (-> & Habs & Hv). split_and!; [done..|].
        destruct (decide (n = VM_Name m)) as [->|]; [by rewrite lookup_insert_eq|].
        by rewrite lookup_insert_ne.
    + intros n' v. rewrite lookup_insert_Some. intros [[<- <-]|[Hne Hv]]; [done|].
      by apply (ok_volumes s Hs).
    + intros n' Hin. destruct (decide (n = n')) as [->|Hne]; [by rewrite lookup_insert_eq|].
      rewrite lookup_insert_ne by done. apply (ok_anonymous s Hs).
      case_decide; [|done]. apply elem_of_app in Hin as [?|?%list_elem_of_singleton]; [done|].
      congruence.
  - intros t. simpl. rewrite list_elem_of_singleton. destruct (decide (target = t)) as [->|Hne].
    + rewrite lookup_insert_eq. naive_solver.
    + rewrite lookup_insert_ne by done. naive_solver.
Qed.

Lemma fold_mounts_wp {A} (f : mounts_state → A → proc (res mounts_state)) (target : A → list string)
    s l h :
  (∀ s x h, mounts_ok s → wp any_answer any_command (f s x) h (λ _ r,
     match r with Ok s' => mounted s (target x) s' | Err _ => True end)) →
  mounts_ok s →
  wp any_answer any_command (fold_mounts f s l) h (λ _ r,
    match r with Ok s' => mounted s (l ≫= target) s' | Err _ => True end).
Proof.
  intros Hf. revert s h. induction l as [|x l IH]; intros s h Hs; simpl.
  { split; [done|]. set_solver. }
  rewrite wp_bind_res. eapply wp_post; [|by apply Hf].
  intros h1 [s1|e] Hm1; [|done]. destruct Hm1 as [Hs1 Ht1].
  eapply wp_post; [|by apply IH]. intros h2 [s2|e] Hm2; [|done]. destruct Hm2 as [Hs2 Ht2].
  split; [done|]. intros t. rewrite Ht2, Ht1, elem_of_app. tauto.
Qed.

(** The targets that the entries of [Binds] name. *)
Definition bind_targets (bind : string) : list string :=
  match parse_bind bind with Ok (_, target, _) => [target] | Err _ => [] end.

Lemma requested_mount_wp ctx driver s m h :
  mounts_ok s →
  wp any_answer any_command (requested_mount ctx driver s m) h (λ _ r,
    match r with Ok s' => mounted s [Mount_Target m] s' | Err _ => True end).
Proof.
  intros Hs. unfold requested_mount. cbv zeta. destruct (decide (_ = "volume"));
    [|by destruct (decide (_ = "bind"))].
  destruct (DriverConfig m) as [[n o]|]; (destruct (NoCopy m); [done|by apply addMount_wp]).
Qed.

Lemma bind_mount_wp ctx driver s bind h :
  mounts_ok s →
  wp any_answer any_command (bind_mount ctx driver s bind) h (λ _ r,
    match r with Ok s' => mounted s (bind_targets bind) s' | Err _ => True end).
Proof.
  intros Hs. unfold bind_mount, bind_targets.
  destruct (parse_bind bind) as [[[source target] ro]|e]; [by apply addMount_wp|done].
Qed.

Lemma anonymous_mount_wp ctx driver s target h :
  mounts_ok s →
  wp any_answer any_command (anonymous_mount ctx driver s target) h (λ _ r,
    match r with Ok s' => mounted s [target] s' | Err _ => True end).
Proof.
  intros Hs. unfold anonymous_mount. destruct (decide _) as [Ht|Ht]; [|by apply addMount_wp].
  rewrite wp_ret. split; [done|]. intros t. rewrite list_elem_of_singleton. naive_solver.
Qed.

Lemma sorted_values_keys {V} (f : V → string) (m : gmap string V) :
  (∀ k v, m !! k = Some v → f v = k) → f <$> sorted_values m = sorted_keys m.
Proof.
  intros Hf. unfold sorted_values.
  assert (∀ l : list string, (∀ k, k ∈ l → is_Some (m !! k)) →
            f <$> (omap (λ k, m !! k) l : list V) = l) as Hl.
  { induction l as [|k l IH]; intros Hin; [done|].
    destruct (Hin k ltac:(set_solver)) as [v Hv]. simpl. rewrite Hv. simpl. f_equal; [by apply Hf|].
    apply IH. set_solver. }
  apply Hl. intros k. apply elem_of_sorted_keys.
Qed.

Lemma elem_of_sorted_values {V} (m : gmap string V) v :
  v ∈ sorted_values m ↔ ∃ k, m !! k = Some v.
Proof.
  unfold sorted_values. rewrite list_elem_of_omap. split.
  - intros (k & _ & Hk). eauto.
  - intros [k Hk]. exists k. split; [|done]. apply elem_of_sorted_keys. eauto.
Qed.

(** The name of a claim is a DNS label exactly if it has no dot. *)
Lemma claim_name_label n : claim_name n → dns1123_label n = negb (has_char "." n).
Proof.
  intros [name Hn]. pose proof (volumeResourceName_valid name) as Hv. rewrite Hn in Hv.
  destruct Hv as (Hne & Hlen & Hall & Hends & _).
  assert (∀ s, all_chars volume_char s = true → all_chars label_char s = negb (has_char "." s)) as Hdot.
  { induction s as [|c s IH]; [done|]. cbn [all_chars has_char]. rewrite andb_true_iff.
    intros [Hc Hs]. rewrite IH, negb_orb by done. f_equal.
    revert Hc. destruct c as [[] [] [] [] [] [] [] []]; vm_compute; by intros. }
  destruct n as [|c rest]; [done|].
  assert (lower_alnum c = true) as Hc by (apply Hends; by left).
  assert (Ascii.eqb "." c = false) as Hcd
    by (revert Hc; destruct c as [[] [] [] [] [] [] [] []]; vm_compute; by intros).
  cbn [all_chars] in Hall. apply andb_true_iff in Hall as [_ Hall].
  cbn [has_char]. rewrite Hcd, orb_false_l, <- Hdot by done.
  unfold dns1123_label, ValidNamespace. rewrite Hc. simpl andb.
  destruct (last_char rest) as [l|] eqn:El.
  - assert (lower_alnum l = true) as ->.
    { apply Hends. right. unfold last_char in *. rewrite srev_cons.
      destruct (String.rev rest); [done|]. by rewrite sapp_cons. }
    unfold len in *. simpl in Hlen. rewrite (proj2 (Nat.leb_le _ _)) by lia.
    by rewrite andb_true_r.
  - destruct rest; [done|]. destruct (last_char_is_Some (String a rest)); congruence.
Qed.

(** container volumes are well formed.  What [containerVolumes] returns is
    a list of distinct volumes, each the claim of its name, in order of their
    names; distinct mounts at absolute paths, in order, each of one of these
    volumes; exactly the targets that the mounts, the binds and the image's
    volumes name are mounted; and the anonymous claims are among the volumes.
    No path of a host is ever mounted.  The name of such a volume is a DNS
    label, as Kubernetes requires, exactly if it has no dot. *)
Theorem containerVolumes_well_formed ctx order config hostConfig h h' volumes mounts anon :
  (∀ l, order l ≡ₚ elements l) →
  exec (containerVolumes ctx order config hostConfig) h h' (Ok (volumes, mounts, anon)) →
  NoDup (Vol_Name <$> volumes) ∧ StronglySorted String.le (Vol_Name <$> volumes) ∧
  (∀ v, v ∈ volumes → v = claim_volume (Vol_Name v) ∧
     dns1123_label (Vol_Name v) = negb (has_char "." (Vol_Name v))) ∧
  NoDup (MountPath <$> mounts) ∧ StronglySorted String.le (MountPath <$> mounts) ∧
  (∀ m, m ∈ mounts → IsAbs (MountPath m) = true ∧ VM_Name m ∈ Vol_Name <$> volumes) ∧
  (∀ t, t ∈ MountPath <$> mounts ↔
     t ∈ Config_Volumes config ∨
     ∃ hc, hostConfig = Some hc ∧
       (t ∈ Mount_Target <$> Mounts hc ∨ t ∈ Binds hc ≫= bind_targets)) ∧
  (∀ n, n ∈ anon → n ∈ Vol_Name <$> volumes).
Proof.
  intros Horder Hex.
  set (s0 := {| volumesByName := ∅; mountsByTarget := ∅; anonymous := [] |}).
  set (requested := match hostConfig with
                    | None => []
                    | Some hc => (Mount_Target <$> Mounts hc) ++ (Binds hc ≫= bind_targets)
                    end%list).
  assert (wp any_answer any_command (containerVolumes ctx order config hostConfig) h (λ _ r,
    match r with
    | Ok (volumes, mounts, anon) => ∃ s,
        mounted s0 (requested ++ order (Config_Volumes config)) s ∧
        volumes = sorted_values (volumesByName s) ∧ mounts = sorted_values (mountsByTarget s) ∧
        anon = anonymous s
    | Err _ => True
    end)) as Hwp.
  { unfold containerVolumes. cbv zeta. match goal with |- wp _ _ (if ?b then _ else _) _ _ => destruct b end; [done|].
    assert (mounts_ok s0) as Hok0 by (split; simpl; [done|done|set_solver]).
    rewrite wp_bind_res.
    assert (∀ h (p : proc (res mounts_state)) Q,
      wp any_answer any_command p h (λ _ r,
        match r with Ok s => mounted s0 requested s | Err _ => True end) →
      (∀ h s, mounted s0 requested s → Q h (Ok s)) → (∀ h e, Q h (Err e)) →
      wp any_answer any_command p h Q) as Hseq.
    { intros h1 p Q Hp HQ He. eapply wp_post; [|exact Hp]. intros h2 [s|e] Hr; auto. }
    apply Hseq; [| |done].
    - unfold requested. destruct hostConfig as [hc|]; [|by rewrite wp_ret; split; [done|set_solver]].
      rewrite wp_bind_res. eapply wp_post; [|apply (fold_mounts_wp _ (λ m, [Mount_Target m]));
        [intros; by apply requested_mount_wp|done]].
      intros h1 [s1|e] Hm1; [|done]. destruct Hm1 as [Hs1 Ht1].
      eapply wp_post; [|apply (fold_mounts_wp _ bind_targets); [intros; by apply bind_mount_wp|done]].
      intros h2 [s2|e] Hm2; [|done]. destruct Hm2 as [Hs2 Ht2]. split; [done|].
      intros t. rewrite Ht2, Ht1, elem_of_app, list_elem_of_fmap.
      setoid_rewrite list_elem_of_bind. setoid_rewrite list_elem_of_singleton. naive_solver.
    - intros h1 s1 [Hs1 Ht1]. rewrite wp_bind_res.
      eapply wp_post; [|apply (fold_mounts_wp _ (λ t, [t])); [intros; by apply anonymous_mount_wp|done]].
      intros h2 [s2|e] Hm2; [|done]. destruct Hm2 as [Hs2 Ht2]. rewrite wp_ret. exists s2.
      split; [|done]. split; [done|]. intros t. rewrite Ht2, Ht1, elem_of_app.
      setoid_rewrite list_elem_of_bind. setoid_rewrite list_elem_of_singleton. naive_solver. }
  destruct (wp_exec _ _ _ _ _ _ _ Hwp Hex) as [(s & [Hs Ht] & -> & -> & ->) _];
    [apply along_any; [done|]; by eapply exec_suffix|].
  assert (Vol_Name <$> sorted_values (volumesByName s) = sorted_keys (volumesByName s)) as ->.
  { apply sorted_values_keys. intros k v Hv. by destruct (ok_volumes s Hs k v Hv) as [-> _]. }
  assert (MountPath <$> sorted_values (mountsByTarget s) = sorted_keys (mountsByTarget s)) as ->.
  { apply sorted_values_keys. intros k m Hm. apply (ok_mounts s Hs k m Hm). }
  split_and!; try apply NoDup_sorted_keys; try apply slices_Sort_Sorted.
  - intros v [k Hv]%elem_of_sorted_values. destruct (ok_volumes s Hs k v Hv) as [-> Hk].
    split; [done|]. by apply claim_name_label.
  - intros m [k Hm]%elem_of_sorted_values. destruct (ok_mounts s Hs k m Hm) as (-> & ? & ?).
    split; [done|]. by apply elem_of_sorted_keys.
  - intros t. rewrite elem_of_sorted_keys, Ht, elem_of_app, Horder, elem_of_elements.
    assert (t ∈ requested ↔ ∃ hc, hostConfig = Some hc ∧
      (t ∈ Mount_Target <$> Mounts hc ∨ t ∈ Binds hc ≫= bind_targets)) as ->.
    { unfold requested. destruct hostConfig as [hc|].
      - rewrite elem_of_app. split; [eauto|]. by intros (? & [= <-] & ?).
      - split; [set_solver|]. by intros (? & ? & _). }
    assert (¬ is_Some (mountsByTarget s0 !! t)) as Hno by (simpl; rewrite lookup_empty; by intros [? ?]).
    tauto.
  - intros n Hn. apply elem_of_sorted_keys, (ok_anonymous s Hs), Hn.
Qed.
End mounting.

(** A parser that knows the default size. *)
Definition demo_quantities' : Quantities := {|
  ParseQuantity := λ s, if decide (s = defaultVolumeStorageSize) then Some (NewQuantity (2 ^ 30)) else None;
  Quantity_String := λ q, defaultVolumeStorageSize
|}.

(** A bind of the volume [my.data] is mounted under a name with a dot. *)
Lemma containerVolumes_well_formed_witness :
  let hc := {|
    host_Resources := empty_resources; host_Annotations := ∅; AutoRemove := false;
    NetworkMode := ""; PublishAllPorts := false; PortBindings := ∅; VolumeDriver := "";
    Tmpfs := ∅; VolumesFrom := []; Mounts := []; Binds := ["my.data:/data:ro"] |} in
  let p := @containerVolumes ascii_unicode demo_map_json demo_validation demo_quantities'
             (Some acme_identity) elements empty_config (Some hc) in
  ∃ volumes mounts anon,
    (simulate p empty_cluster).1.1 = Ok (volumes, mounts, anon) ∧
    Vol_Name <$> volumes = ["my.data"] ∧ MountPath <$> mounts = ["/data"] ∧
    dns1123_label "my.data" = false ∧ NoDup (MountPath <$> mounts).
Proof.
  intros hc p.
  destruct (simulate p empty_cluster).1.1 as [[[volumes mounts] anon]|e] eqn:E;
    [|vm_compute in E; discriminate E].
  exists volumes, mounts, anon. split; [reflexivity|].
  pose proof (simulate_exec p empty_cluster) as Hex. rewrite E in Hex.
  pose proof (@containerVolumes_well_formed ascii_unicode demo_map_json demo_validation
    demo_quantities' (Some acme_identity) elements empty_config (Some hc) _ _ volumes mounts anon
    (λ l, reflexivity _) Hex) as (_ & _ & _ & Hnd & _).
  vm_compute in E. injection E as <- <- _.
  split; [reflexivity|]. split; [reflexivity|]. split; [reflexivity|exact Hnd].
Defined.
