(* ===== verification/Lifecycle.v ===== *)
(** * Lifecycle: [core/translator/container_lifecycle.go] and [container_prune.go]

    Starting, stopping, killing, restarting, removing, updating and waiting for a
    container.  The polling loops count their ticks: [waitContainerStopped] has a
    deadline of 1200 of them (two minutes of 100ms), [ContainerWait] runs for as many
    as its caller waits. *)

From S2P Require Import Prelude GoStrings Errors Prog Filters Docker Validation Resources Volumes.
From S2P Require Export Services.

Local Open Scope string_scope.

(** [backend.ContainerStopOptions] and [backend.ContainerRmConfig] *)
Record ContainerStopOptions := { stop_Signal : string; stop_Timeout : option Z }.
Record ContainerRmConfig := { ForceRemove : bool; RemoveVolume_ : bool; RemoveLink : bool }.

(** [container.UpdateConfig] *)
Record UpdateConfig := {
  update_Resources : Resources;
  RestartPolicy_Name : string;
  MaximumRetryCount : Z
}.

Definition validateStopOptions (options : ContainerStopOptions) : res unit :=
  if negb (bool_decide (stop_Signal options = "")) || bool_decide (is_Some (stop_Timeout options))
  then Err (InvalidArgument
         (errors_New "custom signal and timeout are not supported by the Kubernetes backend"))
  else Ok tt.

(** [strconv.ParseInt(s, 10, 32)] *)
Definition ParseInt32 (s : string) : option Z :=
  let '(negative, digits) :=
    match s with
    | String c rest => if Ascii.eqb c "-" then (true, rest)
                       else if Ascii.eqb c "+" then (false, rest) else (false, s)
    | EmptyString => (false, s)
    end in
  if negb (bool_decide (digits = "")) && all_chars is_digit digits then
    let v := (if negative then - decimal 0 digits else decimal 0 digits)%Z in
    if (int32_min <=? v)%Z && (v <=? int32_max)%Z then Some v else None
  else None.

(** ** Waiting until a container is stopped *)

(** [controllerStopped] for a Deployment that was read. *)
Definition deployment_stopped (d : Deployment) : bool :=
  match Replicas d with None => true | Some n => (n =? 0)%Z end &&
  (Generation (dep_meta d) <=? ObservedGeneration d)%Z && (StatusReplicas d =? 0)%Z.

Definition controller_stopped (w : containerWorkload) : proc (res bool) :=
  if OneShot w then Ret (Ok true)
  else
    do current <- call (KGet KDeployment (Namespace w) (Name w));
    match current with
    | Err e => if negb (IsNotFound e) then Ret (Err (kubeError e)) else Ret (Ok true)
    | Ok current =>
        if decide (UID (dep_meta current) ≠ UID w)
        then Ret (Err (Conflict (errors_New "container %s was replaced while stopping")))
        else Ret (Ok (deployment_stopped current))
    end.

Definition pod_active (pod : Pod) : bool :=
  negb (bool_decide (Phase pod = "Succeeded")) && negb (bool_decide (Phase pod = "Failed")).

Definition deadline_error : error :=
  Errorf "waiting for container %s to stop: %w" [ContextError].

(** The loop of [waitContainerStopped], for [n] more ticks.  A tick comes 100 ms after the
    one before or later, so that there are not more before the deadline; after [n] ticks the
    deadline is all that the select can take.  Time that the requests take leaves fewer
    ticks: the context can end at any of them, and a request that the deadline cuts short
    is answered by an error; both are answers of the commands. *)
Fixpoint wait_stopped (n : nat) (w : containerWorkload) : proc (res unit) :=
  do? controllerStopped <- controller_stopped w;
  do pods <- call (KList KPod (Namespace w) (app_selector w));
  match pods with
  | Err e => Ret (Err (kubeError e))
  | Ok pods =>
      if controllerStopped && negb (existsb pod_active pods) then Ret (Ok tt)
      else
        do tick <- call WaitTick;
        match tick, n with
        | Err _, _ | Ok _, O => Ret (Err deadline_error)
        | Ok _, S n => wait_stopped n w
        end
  end.

(** Two minutes. *)
Definition stop_ticks : nat := 1200.
Definition waitContainerStopped (w : containerWorkload) : proc (res unit) := wait_stopped stop_ticks w.

Definition hasActivePod (w : containerWorkload) : proc (res bool) :=
  do pods <- call (KList KPod (Namespace w) (app_selector w));
  match pods with
  | Err e => Ret (Err (kubeError e))
  | Ok pods => Ret (Ok (existsb (λ pod, bool_decide (Phase pod = "Running") ||
                                        bool_decide (Phase pod = "Pending")) pods))
  end.

(** ** Mutations *)

Definition dep_annotate (f : smap → smap) (d : Deployment) : Deployment :=
  dep_set_meta (meta_set_annotations (f (Annotations (dep_meta d))) (dep_meta d)) d.
Definition job_annotate (f : smap → smap) (j : Job) : Job :=
  job_set_meta (meta_set_annotations (f (Annotations (job_meta j))) (job_meta j)) j.

Definition restartedAnnotation : string := "dink.io/restarted-at".

(** The function that [setContainerReplicas] passes. *)
Definition set_replicas (replicas : Z) (restartAt : string) (current : Deployment) : Deployment :=
  let current := dep_set_strategy Recreate (dep_set_replicas replicas current) in
  let current := if (0 <? replicas)%Z
                 then dep_annotate (delete containerSignalExitCodeAnnotation) current else current in
  if decide (restartAt = "") then current
  else dep_set_template
         (tpl_set_annotations (<[restartedAnnotation := restartAt]> (Pod_Annotations (dep_Template current)))
            (dep_Template current)) current.

Section handlers.
Context `{Validation} `{DockerJSON} `{MapJSON} `{Retry}.

Definition setContainerReplicas (w : containerWorkload) (replicas : Z) (restartAt : string) :
    proc (res unit) :=
  do? _ <- updateContainerDeployment w (λ current, Ok (set_replicas replicas restartAt current));
  Ret (Ok tt).

Definition stopOneShot (w : containerWorkload) (exitCode : string) : proc (res unit) :=
  if negb (Started w) then Ret (Ok tt)
  else
    do? _ <- updateContainerJob w
      (λ current, Ok (job_annotate (<[containerSignalExitCodeAnnotation := exitCode]>) current));
    do r <- call (KDelete KJob (Namespace w) (Name w) {|
      Precondition_UID := Some (UID w); Precondition_ResourceVersion := None;
      GracePeriodSeconds := None; PropagationPolicy := Some "Foreground" |});
    match ignore_not_found r with
    | Err e => Ret (Err e)
    | Ok _ => waitContainerStopped w
    end.

(** ** Kill, stop, start and restart *)

Definition kill_code (signal : string) : string :=
  if decide (signal = "INT" ∨ signal = "SIGINT") then "130" else "137".

Definition kill_locked (signal : string) (w : containerWorkload) : proc (res unit) :=
  let code := kill_code signal in
  if OneShot w then stopOneShot w code
  else
    do? _ <- updateContainerDeployment w (λ current,
      Ok (dep_annotate (<[containerSignalExitCodeAnnotation := code]>) (dep_set_replicas 0 current)));
    Ret (Ok tt).

Definition ContainerKill (ctx : context) (name signal : string) : proc (res unit) :=
  if decide (signal ∉ [""; "KILL"; "SIGKILL"; "INT"; "SIGINT"])
  then Ret (Err (InvalidArgument
         (errors_New "container signal %q is not supported by the Kubernetes backend")))
  else with_container ctx name (kill_locked signal).

Definition stop_locked (w : containerWorkload) : proc (res unit) :=
  if OneShot w then stopOneShot w "143"
  else do? _ <- setContainerReplicas w 0 ""; waitContainerStopped w.

Definition ContainerStop (ctx : context) (name : string) (options : ContainerStopOptions) :
    proc (res unit) :=
  match validateStopOptions options with
  | Err e => Ret (Err e)
  | Ok _ => with_container ctx name stop_locked
  end.

Definition start_locked (w : containerWorkload) : proc (res unit) :=
  do? _ <- (if negb (Started w) then waitContainerStopped w else Ret (Ok tt));
  do? _ <- claimContainerAliases w;
  if OneShot w then updateContainerJob w (λ current, Ok (job_set_suspend false current))
  else setContainerReplicas w 1 "".

Definition ContainerStart (ctx : context) (name checkpoint checkpointDir : string) :
    proc (res unit) :=
  if negb (bool_decide (checkpoint = "")) || negb (bool_decide (checkpointDir = ""))
  then Ret (Err (InvalidArgument
         (errors_New "container checkpoints are not supported by the Kubernetes backend")))
  else with_container ctx name start_locked.

Definition restart_locked (w : containerWorkload) : proc (res unit) :=
  if OneShot w
  then Ret (Err (Unsupported
         (errors_New "restarting a --rm container is not supported by the Kubernetes backend")))
  else
    do? _ <- setContainerReplicas w 0 "";
    do? _ <- waitContainerStopped w;
    do? _ <- claimContainerAliases w;
    do now <- call NowRFC3339;
    setContainerReplicas w 1 now.

Definition ContainerRestart (ctx : context) (name : string) (options : ContainerStopOptions) :
    proc (res unit) :=
  match validateStopOptions options with
  | Err e => Ret (Err e)
  | Ok _ => with_container ctx name restart_locked
  end.

(** ** Removal *)

(** The body of the second loop of [removeAnonymousVolumes]. *)
Definition remove_anonymous (w : containerWorkload) (inUse : list string) (volume : Volume) :
    proc (res unit) :=
  match Vol_Source volume with
  | PersistentVolumeClaimSource claim =>
      if slices_Contains inUse claim then Ret (Ok tt)
      else
        do pvc <- call (KGet KPVC (Namespace w) claim);
        match pvc with
        | Err e => if IsNotFound e then Ret (Ok tt) else Ret (Err (kubeError e))
        | Ok pvc =>
            if decide (mget (Labels (pvc_meta pvc)) volumeManagedLabel ≠ volumeManagedValue)
            then Ret (Ok tt)
            else match volumeFromPVC pvc with
                 | Err e => Ret (Err e)
                 | Ok dockerVolume =>
                     if decide (is_Some (vol_Labels dockerVolume !! anonymousVolumeLabel)) then
                       do r <- call (KDelete KPVC (Namespace w) (Name (pvc_meta pvc))
                                       no_delete_options);
                       Ret (ignore_not_found r)
                     else Ret (Ok tt)
                 end
        end
  | _ => Ret (Ok tt)
  end.

Definition removeAnonymousVolumes (removed : containerWorkload) : proc (res unit) :=
  do? workloads <- listWorkloads (Namespace removed);
  let others := List.filter (λ w : containerWorkload, negb (bool_decide (UID w = UID removed)))
                  workloads in
  let inUse := w ← others; claim_names (Volumes (Pod_Spec (Template w))) in
  for_each (Volumes (Pod_Spec (Template removed))) (remove_anonymous removed inUse).

Definition rm_locked (config : option ContainerRmConfig) (w : containerWorkload) : proc (res unit) :=
  let force := match config with Some c => ForceRemove c | None => false end in
  if negb force && Started w && negb (Finished w)
  then Ret (Err (Conflict (errors_New "cannot remove container %s: container is running: stop the container before removing or force remove")))
  else
    do? _ <- deleteWorkload w force;
    do? _ <- waitContainerStopped w;
    with_mutex containerNameMu
      (do? _ <- removeContainerServices w;
       do _ <- call (MuLock execMu);
       do _ <- call (ForgetExecs (Namespace w) (DockerIDFromUID (UID w)));
       do _ <- call (MuUnlock execMu);
       if match config with Some c => RemoveVolume_ c | None => false end
       then removeAnonymousVolumes w else Ret (Ok tt)).

Definition ContainerRm (ctx : context) (name : string) (config : option ContainerRmConfig) :
    proc (res unit) :=
  if match config with Some c => RemoveLink c | None => false end
  then Ret (Err (InvalidArgument
         (errors_New "link removal is not supported by the Kubernetes backend")))
  else with_container ctx name (rm_locked config).

(** ** Updates *)

Definition update_mutation (resources : ResourceRequirements) (o : Resources)
    (current : Deployment) : res Deployment :=
  match Containers (Pod_Spec (dep_Template current)) with
  | [] => Err (Conflict (errors_New "container %s has no pod template"))
  | c :: containers =>
      let? '(_, hostConfig) := containerMetadata (deploymentWorkload current) in
      match Marshal_HostConfig (host_set_resources o hostConfig) with
      | None => Err (errors_New "encoding updated host config: %w")
      | Some metadata =>
          let current := dep_annotate (<[containerHostConfigAnnotation := metadata]>) current in
          Ok (dep_set_template
            (tpl_set_spec (spec_set_containers (ctr_set_resources resources c :: containers)
               (Pod_Spec (dep_Template current))) (dep_Template current)) current)
      end
  end.

Definition update_locked (resources : ResourceRequirements) (o : Resources)
    (w : containerWorkload) : proc (res (list string)) :=
  if OneShot w
  then Ret (Err (Unsupported
         (errors_New "updating a --rm container is not supported by the Kubernetes backend")))
  else
    do? updated <- updateContainerDeployment w (update_mutation resources o);
    Ret (Ok (match Replicas updated with
             | Some n => if (0 <? n)%Z
                         then ["Applying resource updates replaces the Kubernetes Pod."] else []
             | None => []
             end)).

(** The warnings of the [UpdateResponse]. *)
Definition ContainerUpdate (ctx : context) (name : string) (update : option UpdateConfig) :
    proc (res (list string)) :=
  match update with
  | None => Ret (Err (InvalidArgument (errors_New "container update configuration is required")))
  | Some update =>
      if negb (bool_decide (RestartPolicy_Name update = "")) ||
         negb (MaximumRetryCount update =? 0)%Z
      then Ret (Err (InvalidArgument
             (errors_New "updating restart policy is not supported by the Kubernetes backend")))
      else
        match containerResources (Some (host_set_resources (update_Resources update) empty_host_config)) with
        | Err e => Ret (Err (InvalidArgument e))
        | Ok resources => with_container ctx name (update_locked resources (update_Resources update))
        end
  end.

(** ** Waiting for the exit *)

(** One container status, then one Pod, in the loops of [ContainerWait]:
    whether something runs, and the first exit code. *)
Definition scan_status (autoRemove : bool) (s : bool * option Z) (status : ContainerStatus) :
    bool * option Z :=
  let '(running, exitCode) := s in
  let exitCode :=
    match exitCode with
    | Some code => Some code
    | None =>
        match CS_Terminated status with
        | Some t => Some (TS_ExitCode t)
        | None => if negb (bool_decide (is_Some (CS_Running status))) || autoRemove
                  then TS_ExitCode <$> CS_LastTerminated status else None
        end
    end in
  (running || bool_decide (is_Some (CS_Running status)), exitCode).

Definition scan_pod (autoRemove : bool) (s : bool * option Z) (pod : Pod) : bool * option Z :=
  let '(running, exitCode) := foldl (scan_status autoRemove) s (ContainerStatuses pod) in
  (running || (bool_decide (Phase pod = "Running") && bool_decide (ContainerStatuses pod = [])),
   exitCode).

Record wait_state := {
  seenRunning : bool;
  firstCheck : bool;
  removedExitCode : option Z
}.

Definition WaitConditionNotRunning : string := "not-running".
Definition WaitConditionNextExit : string := "next-exit".
Definition WaitConditionRemoved : string := "removed".

(** The decisions after the Pods were scanned; [inl] is a return. *)
Definition wait_decide (condition : string) (s : wait_state) (started running : bool)
    (exitCode : option Z) : res Z + wait_state :=
  let seen := seenRunning s || running in
  let stopped := negb started && negb running in
  let ended := bool_decide (is_Some exitCode) || stopped in
  if (bool_decide (condition = WaitConditionNotRunning) && ended) ||
     (bool_decide (condition = WaitConditionNextExit) && negb (firstCheck s) && seen && ended)
  then inl (match exitCode with
            | None => Err (Unsupported
                (errors_New "container exit status is no longer available from Kubernetes"))
            | Some code => Ok code
            end)
  else inr {| seenRunning := seen; firstCheck := false; removedExitCode := removedExitCode s |}.

(** One iteration of the loop of [ContainerWait]. *)
Definition wait_check (ctx : context) (condition : string) (autoRemove : bool)
    (w : containerWorkload) (s : wait_state) : proc (res Z + wait_state) :=
  do current <- refreshWorkload w;
  match current with
  | Err e => if IsNotFound e then Ret (inl (Ok (default 0%Z (removedExitCode s))))
             else Ret (inl (Err (kubeError e)))
  | Ok current =>
      if bool_decide (removedExitCode s = None) &&
         (negb (bool_decide (condition = WaitConditionRemoved)) || autoRemove)
      then
        do pods <- containerPods w;
        match pods with
        | Err e => Ret (inl (Err e))
        | Ok pods =>
            let '(running, exitCode) := foldl (scan_pod autoRemove) (false, None) pods in
            let exitCode :=
              match exitCode with
              | Some code => Some code
              | None => if autoRemove && negb running && negb (Started current)
                        then ParseInt32 (mget (Annotations current) containerSignalExitCodeAnnotation)
                        else None
              end in
            if autoRemove && bool_decide (is_Some exitCode) then
              do removed <- ContainerRm ctx (DockerIDFromUID (UID current))
                              (Some {| ForceRemove := true; RemoveVolume_ := true; RemoveLink := false |});
              match removed with
              | Err e => Ret (inl (Err e))
              | Ok _ => Ret (wait_decide condition
                          {| seenRunning := seenRunning s; firstCheck := firstCheck s;
                             removedExitCode := exitCode |} (Started current) running exitCode)
              end
            else Ret (wait_decide condition s (Started current) running exitCode)
        end
      else Ret (inr {| seenRunning := seenRunning s; firstCheck := false;
                       removedExitCode := removedExitCode s |})
  end.

(** The loop, for [n] more ticks; [None] is still waiting. *)
Fixpoint wait_loop (n : nat) (ctx : context) (condition : string) (autoRemove : bool)
    (w : containerWorkload) (s : wait_state) : proc (option (res Z)) :=
  do r <- wait_check ctx condition autoRemove w s;
  match r with
  | inl r => Ret (Some r)
  | inr s =>
      do tick <- call WaitTick;
      match tick, n with
      | Err e, _ => Ret (Some (Err e))
      | Ok _, O => Ret None
      | Ok _, S n => wait_loop n ctx condition autoRemove w s
      end
  end.

Definition ContainerWait (n : nat) (ctx : context) (name condition : string) :
    proc (option (res Z)) :=
  if decide (condition ∉ [WaitConditionNotRunning; WaitConditionNextExit; WaitConditionRemoved])
  then Ret (Some (Err (InvalidArgument (errors_New "invalid wait condition %q"))))
  else
    do w <- findContainer ctx name;
    match w with
    | Err e => Ret (Some (Err e))
    | Ok w =>
        match (if decide (condition = WaitConditionRemoved)
               then result_map (λ c, AutoRemove c.2) (containerMetadata w) else Ok false) with
        | Err e => Ret (Some (Err e))
        | Ok autoRemove =>
            wait_loop n ctx condition autoRemove w
              {| seenRunning := false; firstCheck := true; removedExitCode := None |}
        end
    end.
End handlers.

(** ** [container_prune.go] *)

Section prune.
Context `{Validation} `{DockerJSON} `{MapJSON} `{Retry} `{TimeParse}.

(** Whether the loop of [ContainerPrune] passes over a workload without reading its
    configuration. *)
Definition prune_skips (before : option Z) (w : containerWorkload) : bool :=
  bool_decide (mget (Annotations w) containerConfigAnnotation = "") ||
  (Started w && negb (Finished w)) ||
  match before with Some t => negb (CreationTimestamp w <? t)%Z | None => false end.

(** The report's [ContainersDeleted] and the error. *)
Fixpoint prune_containers (ctx : context) (pruneFilters : Args) (before : option Z)
    (deleted : list string) (workloads : list containerWorkload) :
    proc (list string * res unit) :=
  match workloads with
  | [] => Ret (deleted, Ok tt)
  | w :: workloads =>
      if prune_skips before w then prune_containers ctx pruneFilters before deleted workloads
      else match containerMetadata w with
      | Err e => Ret (deleted, Err e)
      | Ok (config, _) =>
          if negb (MatchKVList pruneFilters "label" (Docker.Labels config)) ||
             negb (matchExcludedLabels (Get pruneFilters "label!") (Docker.Labels config))
          then prune_containers ctx pruneFilters before deleted workloads
          else
            do active <- hasActivePod w;
            match active with
            | Err e => Ret (deleted, Err e)
            | Ok true => prune_containers ctx pruneFilters before deleted workloads
            | Ok false =>
                do removed <- ContainerRm ctx (DockerIDFromUID (UID w))
                  (Some {| ForceRemove := false; RemoveVolume_ := false; RemoveLink := false |});
                match removed with
                | Err e => Ret (deleted, Err e)
                | Ok _ => prune_containers ctx pruneFilters before
                            (deleted ++ [DockerIDFromUID (UID w)])%list workloads
                end
            end
      end
  end.

Definition prune_filters : gmap string bool :=
  {["label" := true; "label!" := true; "until" := true]}.

(** [now] is the time that [time.Now] gives to [pruneBefore]. *)
Definition ContainerPrune (ctx : context) (now : Z) (pruneFilters : Args) :
    proc (list string * res unit) :=
  match Validate pruneFilters prune_filters with
  | Err e => Ret ([], Err (InvalidArgument (filter_error e)))
  | Ok _ =>
      match pruneBefore now (Get pruneFilters "until") with
      | Err e => Ret ([], Err (InvalidArgument e))
      | Ok before =>
          match ctx with
          | None => Ret ([], Err (Unauthenticated (errors_New "missing identity in context")))
          | Some id =>
              do workloads <- listWorkloads (id_namespace id);
              match workloads with
              | Err e => Ret ([], Err e)
              | Ok workloads => prune_containers ctx pruneFilters before [] workloads
              end
          end
      end
  end.
End prune.

(** ** The discipline of these methods *)

Section neutral.
Context `{Validation} `{DockerJSON} `{MapJSON} `{RetryLaws} `{TimeParse}.

Lemma neutral_controller_stopped st w : neutral st (controller_stopped w).
Proof. unfold controller_stopped. neutral_auto. Qed.
#[local] Hint Resolve neutral_controller_stopped : neutral.

Lemma neutral_wait_stopped st n w : neutral st (wait_stopped n w).
Proof. induction n as [|n IH]; simpl; neutral_auto. Qed.

Lemma neutral_waitContainerStopped st w : neutral st (waitContainerStopped w).
Proof. apply neutral_wait_stopped. Qed.
#[local] Hint Resolve neutral_waitContainerStopped : neutral.

Lemma neutral_hasActivePod st w : neutral st (hasActivePod w).
Proof. unfold hasActivePod. neutral_auto. Qed.
#[local] Hint Resolve neutral_hasActivePod : neutral.

Lemma neutral_setContainerReplicas st w n at_ :
  may_write st KDeployment = true → neutral st (setContainerReplicas w n at_).
Proof.
  intros Hst. unfold setContainerReplicas. apply neutral_bind_res; [|neutral_auto].
  by apply neutral_updateContainerDeployment.
Qed.

Lemma neutral_stopOneShot st w code :
  may_write st KDeployment = true → neutral st (stopOneShot w code).
Proof.
  intros Hst. unfold stopOneShot. destruct (negb _); [neutral_auto|].
  apply neutral_bind_res; [by apply neutral_updateContainerJob|]. intros _.
  apply neutral_bind; [by apply neutral_call|]. neutral_auto.
Qed.

Lemma neutral_remove_anonymous st w inUse volume : neutral st (remove_anonymous w inUse volume).
Proof. unfold remove_anonymous. neutral_auto. Qed.
#[local] Hint Resolve neutral_remove_anonymous : neutral.

Lemma neutral_removeAnonymousVolumes st w : neutral st (removeAnonymousVolumes w).
Proof. unfold removeAnonymousVolumes. neutral_auto. Qed.

Lemma neutral_kill_locked key signal w : neutral [Token key; Use key] (kill_locked signal w).
Proof.
  unfold kill_locked. cbv zeta. destruct (OneShot w); [by apply neutral_stopOneShot|].
  apply neutral_bind_res; [by apply neutral_updateContainerDeployment|neutral_auto].
Qed.

Lemma neutral_stop_locked key w : neutral [Token key; Use key] (stop_locked w).
Proof.
  unfold stop_locked. destruct (OneShot w); [by apply neutral_stopOneShot|].
  apply neutral_bind_res; [by apply neutral_setContainerReplicas|neutral_auto].
Qed.

Lemma neutral_start_locked key w : neutral [Token key; Use key] (start_locked w).
Proof.
  unfold start_locked. apply neutral_bind_res; [neutral_auto|]. intros _.
  apply neutral_bind_res; [by apply neutral_claimContainerAliases|]. intros _.
  destruct (OneShot w); [by apply neutral_updateContainerJob|by apply neutral_setContainerReplicas].
Qed.

Lemma neutral_restart_locked key w : neutral [Token key; Use key] (restart_locked w).
Proof.
  unfold restart_locked. destruct (OneShot w); [neutral_auto|].
  apply neutral_bind_res; [by apply neutral_setContainerReplicas|]. intros _.
  apply neutral_bind_res; [neutral_auto|]. intros _.
  apply neutral_bind_res; [by apply neutral_claimContainerAliases|]. intros _.
  apply neutral_bind; [neutral_auto|]. intros now. by apply neutral_setContainerReplicas.
Qed.

Lemma neutral_forget_execs st w (rest : proc (res unit)) :
  holds_mutex st execMu = false → neutral st rest →
  neutral st (do _ <- call (MuLock execMu);
              do _ <- call (ForgetExecs (Namespace w) (DockerIDFromUID (UID w)));
              do _ <- call (MuUnlock execMu); rest).
Proof.
  intros Hm Hrest h Hh. rewrite wp_bind.
  eapply wp_post; [|apply (wp_effect st (Mutex execMu :: st)); [done|by simpl; rewrite Hm|done]].
  intros h1 ? Hh1. rewrite wp_bind.
  eapply wp_post; [|by apply (neutral_call (Mutex execMu :: st))]. intros h2 ? Hh2. rewrite wp_bind.
  eapply wp_post; [|apply (wp_effect (Mutex execMu :: st) st);
    [exact Hh2|reflexivity|intros; apply pop_top]].
  intros h3 ? Hh3. by apply Hrest.
Qed.

Lemma neutral_rm_locked key config w : neutral [Token key; Use key] (rm_locked config w).
Proof.
  unfold rm_locked. cbv zeta. destruct (_ && _ && _); [neutral_auto|].
  apply neutral_bind_res; [by apply neutral_deleteWorkload|]. intros _.
  apply neutral_bind_res; [neutral_auto|]. intros _.
  apply neutral_with_mutex; [done|].
  apply neutral_bind_res; [by apply neutral_removeContainerServices|]. intros _.
  apply neutral_forget_execs; [done|].
  apply neutral_if; [apply neutral_removeAnonymousVolumes|neutral_auto].
Qed.

Lemma neutral_update_locked key resources o w :
  neutral [Token key; Use key] (update_locked resources o w).
Proof.
  unfold update_locked. destruct (OneShot w); [neutral_auto|].
  apply neutral_bind_res; [by apply neutral_updateContainerDeployment|neutral_auto].
Qed.

Lemma neutral_ContainerRm ctx name config : neutral [] (ContainerRm ctx name config).
Proof.
  unfold ContainerRm. apply neutral_if; [neutral_auto|].
  apply neutral_with_container; [done|]. intros w key. apply neutral_rm_locked.
Qed.
#[local] Hint Resolve neutral_ContainerRm : neutral.

Lemma neutral_wait_check ctx condition autoRemove w s :
  neutral [] (wait_check ctx condition autoRemove w s).
Proof. unfold wait_check. neutral_auto. Qed.
#[local] Hint Resolve neutral_wait_check : neutral.

Lemma neutral_wait_loop n ctx condition autoRemove w s :
  neutral [] (wait_loop n ctx condition autoRemove w s).
Proof. revert s. induction n as [|n IH]; intros s; simpl; neutral_auto. Qed.
#[local] Hint Resolve neutral_wait_loop : neutral.

Lemma neutral_prune_containers ctx pruneFilters before deleted workloads :
  neutral [] (prune_containers ctx pruneFilters before deleted workloads).
Proof. revert deleted. induction workloads as [|w l IH]; intros deleted; simpl; neutral_auto. Qed.
#[local] Hint Resolve neutral_prune_containers : neutral.

(** The requests a client makes of a container. *)
Inductive request : ∀ A, proc A → Prop :=
| req_kill ctx name signal : request _ (ContainerKill ctx name signal)
| req_stop ctx name options : request _ (ContainerStop ctx name options)
| req_start ctx name c d : request _ (ContainerStart ctx name c d)
| req_restart ctx name options : request _ (ContainerRestart ctx name options)
| req_rm ctx name config : request _ (ContainerRm ctx name config)
| req_update ctx name update : request _ (ContainerUpdate ctx name update)
| req_wait n ctx name condition : request _ (ContainerWait n ctx name condition)
| req_prune ctx now f : request _ (ContainerPrune ctx now f)
| req_rename ctx name newName : request _ (ContainerRename ctx name newName).

Lemma neutral_request A (p : proc A) : request A p → neutral [] p.
Proof.
  destruct 1.
  - unfold ContainerKill. apply neutral_decide; [neutral_auto|].
    apply neutral_with_container; [done|]. intros; apply neutral_kill_locked.
  - unfold ContainerStop. destruct (validateStopOptions options); [|neutral_auto].
    apply neutral_with_container; [done|]. intros; apply neutral_stop_locked.
  - unfold ContainerStart. apply neutral_if; [neutral_auto|].
    apply neutral_with_container; [done|]. intros; apply neutral_start_locked.
  - unfold ContainerRestart. destruct (validateStopOptions options); [|neutral_auto].
    apply neutral_with_container; [done|]. intros; apply neutral_restart_locked.
  - apply neutral_ContainerRm.
  - unfold ContainerUpdate. destruct update as [u|]; [|neutral_auto].
    apply neutral_if; [neutral_auto|]. destruct (containerResources _); [|neutral_auto].
    apply neutral_with_container; [done|]. intros; apply neutral_update_locked.
  - unfold ContainerWait. apply neutral_decide; [neutral_auto|]. neutral_auto.
  - unfold ContainerPrune. neutral_auto.
  - apply neutral_ContainerRename.
Qed.

(** every container request obeys the locking discipline.  Whatever the
    cluster answers, killing, stopping, starting, restarting, removing, updating,
    awaiting, pruning or renaming a container releases everything it acquires, in
    the opposite order, on every path; takes an operation lock only while it
    holds no mutex, and no mutex twice, so that the locks cannot deadlock; writes
    Deployments and Jobs only under an operation lock or the name mutex; and
    writes Services only under the name mutex. *)
Theorem container_requests_disciplined A (p : proc A) h h' r :
  request A p → acquired h = Some [] → exec p h h' r →
  guarded disciplined h h' ∧ acquired h' = Some [].
Proof.
  intros Hp Hh Hex. apply and_comm.
  refine (wp_exec _ _ _ _ _ _ (λ h' _, acquired h' = Some []) (neutral_request A p Hp h Hh) Hex _).
  apply along_any; [done|]. by eapply exec_suffix.
Qed.
End neutral.

Lemma container_requests_disciplined_witness :
  let p := @ContainerRm demo_validation demo_map_json (Some acme_identity) "db" None in
  (simulate p sample_cluster).1.1 = Ok tt ∧ acquired (simulate p sample_cluster).1.2 = Some [] ∧
  guarded disciplined [] (simulate p sample_cluster).1.2.
Proof.
  intros p.
  pose (tp := {| Parse_RFC3339Nano _ := None; ParseFloat_seconds _ := None; ParseDuration _ := None |}).
  pose proof (@container_requests_disciplined demo_validation demo_docker_json demo_map_json demo_retry
    demo_retry_laws tp _ p [] _ _ (@req_rm _ _ _ _ tp _ _ _) eq_refl (simulate_exec p sample_cluster)) as [H1 H2].
  split; [vm_compute; reflexivity|]. split; [exact H2|exact H1].
Defined.

(** ** Properties: the order of the effects *)

(** Since [h0], the container was observed to be stopped: a listing without active
    Pods that directly follows, for a Deployment, a read that found none, or its
    replicas gone. *)
Definition controller_seen_stopped (w : containerWorkload) (h : hist) : Prop :=
  OneShot w = true ∨
  (∃ e h', h = Event _ (KGet KDeployment (Namespace w) (Name w)) (Err e) :: h' ∧ IsNotFound e = true) ∨
  (∃ d h', h = Event _ (KGet KDeployment (Namespace w) (Name w)) (Ok d) :: h' ∧
     UID (dep_meta d) = UID w ∧ deployment_stopped d = true).

Definition stopped_since (w : containerWorkload) (h0 h : hist) : Prop :=
  ∃ recent pods h1,
    h = (recent ++ Event _ (KList KPod (Namespace w) (app_selector w)) (Ok pods) :: h1)%list ∧
    existsb pod_active pods = false ∧ controller_seen_stopped w h1 ∧ h0 `suffix_of` h1.

(** What a lifecycle operation on the locked container [w] may do, begun at [h0]:
    delete it, only by its UID and only when [deletable]; give a Deployment replicas,
    delete Services or claims, or forget sessions, only when it was observed to be
    stopped (unless [started]: it was running already). *)
Definition lifecycle (w : containerWorkload) (deletable started : bool) (h0 : hist) :
    guard (cmd := cmd) := λ h X c,
  match c with
  | KDelete k ns name opts =>
      match k with
      | KDeployment | KJob =>
          deletable = true ∧ ns = Namespace w ∧ name = Name w ∧ Precondition_UID opts = Some (UID w)
      | _ => ns = Namespace w ∧ (started = true ∨ stopped_since w h0 h)
      end
  | KUpdate k ns o =>
      match k return obj k → Prop with
      | KDeployment => λ o, Replicas o = Some 0%Z ∨ started = true ∨ stopped_since w h0 h
      | _ => λ _, True
      end o
  | ForgetExecs ns id =>
      ns = Namespace w ∧ id = DockerIDFromUID (UID w) ∧ stopped_since w h0 h
  | _ => True
  end.

Lemma stopped_since_suffix w h0 h h' :
  h `suffix_of` h' → stopped_since w h0 h → stopped_since w h0 h'.
Proof.
  intros [l ->] (recent & pods & h1 & -> & Hrest). exists (l ++ recent)%list, pods, h1.
  split; [by rewrite <- app_assoc|done].
Qed.

(** Commands that need no observation. *)
Definition harmless {X} (c : cmd X) : bool :=
  match c with
  | KDelete _ _ _ _ | ForgetExecs _ _ => false
  | KUpdate k _ _ => negb (bool_decide (k = KDeployment))
  | _ => true
  end.

Lemma lifecycle_harmless w deletable started h0 h X (c : cmd X) :
  harmless c = true → lifecycle w deletable started h0 h X c.
Proof. destruct c; simpl; try done. by destruct k. Qed.

Section order.
Context `{Validation} `{DockerJSON} `{MapJSON} `{RetryLaws}.
Implicit Types w : containerWorkload.

Abbreviation ordered w deletable started h0 := (safe any_answer (lifecycle w deletable started h0)).

(** The wait succeeds only once the container was observed to be stopped. *)
Lemma wait_stopped_wp n w deletable started h0 h :
  h0 `suffix_of` h →
  wp any_answer (lifecycle w deletable started h0) (wait_stopped n w) h (λ h' r,
    h `suffix_of` h' ∧ match r with Ok _ => stopped_since w h0 h' | Err _ => True end).
Proof.
  revert h. induction n as [|n IH]; intros h Hs; cbn [wait_stopped]; rewrite wp_bind_res.
  all: assert (∀ Q : hist → res bool → Prop,
    (∀ h' e, h `suffix_of` h' → Q h' (Err e)) →
    (∀ h' b, h `suffix_of` h' → (b = true → controller_seen_stopped w h') → Q h' (Ok b)) →
    wp any_answer (lifecycle w deletable started h0) (controller_stopped w) h Q) as Hc;
  [ intros Q He Hok; unfold controller_stopped; destruct (OneShot w) eqn:Eo;
    [ rewrite wp_ret; apply Hok; [done|by left] |
      rewrite wp_bind, wp_call; split; [done|]; intros [d|e] _;
      [ destruct (decide _) as [Hu|Hu]; rewrite wp_ret;
        [ apply He; by apply suffix_cons_r |
          apply dec_stable in Hu; apply Hok; [by apply suffix_cons_r|];
          intros Hd; right; right; by exists d, h ]
      | destruct (IsNotFound e) eqn:En; simpl; rewrite ?wp_ret;
        [ apply Hok; [by apply suffix_cons_r|]; intros _; right; left; by exists e, h
        | apply He; by apply suffix_cons_r ] ] ] | ].
  all: apply Hc; [done|]; intros h1 b Hs1 Hb; rewrite wp_bind, wp_call; split; [done|];
    intros [pods|e] _; [|split; [by apply suffix_cons_r|done]].
  all: assert (h `suffix_of` Event _ (KList KPod (Namespace w) (app_selector w)) (Ok pods) :: h1)
    as Hs2 by by apply suffix_cons_r.
  all: destruct (b && negb (existsb pod_active pods)) eqn:E.
  1, 3: apply andb_true_iff in E as [-> E%negb_true_iff]; rewrite wp_ret; split; [done|];
    exists [], pods, h1; split_and!; [done|done|by apply Hb|by etrans].
  - rewrite wp_bind, wp_call. split; [done|]. intros [[]|e] _; (split; [|done]);
      by apply suffix_cons_r.
  - rewrite wp_bind, wp_call. split; [done|]. intros [[]|e] _.
    + set (h2 := Event _ WaitTick _ :: _). assert (h `suffix_of` h2) as Hs3 by by apply suffix_cons_r.
      eapply wp_post; [|apply (IH h2); by etrans]. intros h3 r [Hs4 Hr]. split; [by etrans|done].
    + split; [by apply suffix_cons_r|done].
Qed.

(** Updates of the container's own objects. *)
Lemma ordered_update w deletable started h0 h mutate :
  (∀ d d', mutate d = Ok d' → Replicas d' = Some 0%Z) ∨ started = true ∨ stopped_since w h0 h →
  ordered w deletable started h0 (updateContainerDeployment w mutate) h.
Proof.
  intros Hm. eapply safe_mono; [|apply wp_suffix_guard, updateContainerDeployment_wp].
  intros h' X c [Hc Hs]. destruct c; try (by apply lifecycle_harmless); try done.
  destruct k; try (by apply lifecycle_harmless).
  destruct Hc as (h1 & d & d' & _ & _ & _ & Hd & ->). cbn.
  destruct Hm as [Hm|[Hm|Hm]].
  - left. unfold recreate_if_changed. rewrite <- (Hm _ _ Hd). by case_decide.
  - auto.
  - right. right. by eapply stopped_since_suffix.
Qed.

Lemma ordered_update_job w deletable started h0 h mutate :
  ordered w deletable started h0 (updateContainerJob w mutate) h.
Proof.
  eapply safe_mono; [|apply updateContainerJob_wp].
  intros h' X c Hc. destruct c; try (by apply lifecycle_harmless); try done.
  by destruct k; try (by apply lifecycle_harmless).
Qed.

(** Programs that are ordered once the container may be touched. *)
Definition ready w deletable started h0 {A} (p : proc A) : Prop :=
  ∀ h, started = true ∨ stopped_since w h0 h → ordered w deletable started h0 p h.

Lemma ready_bind w deletable started h0 {A B} (p : proc A) (f : A → proc B) :
  ready w deletable started h0 p → (∀ a, ready w deletable started h0 (f a)) →
  ready w deletable started h0 (bind p f).
Proof.
  intros Hp Hf h Hh. apply safe_bind; [by apply Hp|]. intros h' a Hs. apply Hf.
  destruct Hh as [?|Hh]; [by left|right]. by eapply stopped_since_suffix.
Qed.

Lemma ready_bind_res w deletable started h0 {E A B} (p : proc (result E A))
    (f : A → proc (result E B)) :
  ready w deletable started h0 p → (∀ a, ready w deletable started h0 (f a)) →
  ready w deletable started h0 (bind_res p f).
Proof.
  intros Hp Hf. apply ready_bind; [done|]. intros [a|e]; [done|]. intros h _. apply safe_ret.
Qed.

Lemma ready_ret w deletable started h0 {A} (a : A) : ready w deletable started h0 (Ret a).
Proof. intros h _. apply safe_ret. Qed.

Lemma ready_call w deletable started h0 {X} (c : cmd X) :
  harmless c = true → ready w deletable started h0 (call c).
Proof. intros Hc h _. by apply safe_call, lifecycle_harmless. Qed.

Lemma ready_delete w deletable started h0 k name opts :
  k ≠ KDeployment → k ≠ KJob → ready w deletable started h0 (call (KDelete k (Namespace w) name opts)).
Proof. intros Hd Hj h Hh. apply safe_call. by destruct k. Qed.

Lemma ready_for_each w deletable started h0 {E A} (l : list A) (f : A → proc (result E unit)) :
  (∀ x, ready w deletable started h0 (f x)) → ready w deletable started h0 (for_each l f).
Proof.
  intros Hf. induction l as [|x l IH]; simpl; [apply ready_ret|]. by apply ready_bind_res.
Qed.

Ltac ready_step :=
  match goal with
  | |- ∀ _, _ => intro
  | |- ready _ _ _ _ (match ?x with _ => _ end) => destruct x
  | |- ready _ _ _ _ (bind_res _ _) => apply ready_bind_res
  | |- ready _ _ _ _ (bind _ _) => apply ready_bind
  | |- ready _ _ _ _ (for_each _ _) => apply ready_for_each
  | |- ready _ _ _ _ (Ret _) => apply ready_ret
  | |- ready _ _ _ _ (call (KDelete _ _ _ _)) => apply ready_delete; [done|done]
  | |- ready _ _ _ _ (call _) => apply ready_call; reflexivity
  | |- ready _ _ _ _ (let _ := _ in _) => cbv zeta
  end.

Lemma ready_deleteOwnedService w deletable started h0 s :
  ready w deletable started h0 (deleteOwnedService w s).
Proof. unfold deleteOwnedService. repeat ready_step. Qed.

Lemma ready_removeContainerServices w deletable started h0 :
  ready w deletable started h0 (removeContainerServices w).
Proof.
  unfold removeContainerServices. repeat first [apply ready_deleteOwnedService|ready_step].
Qed.

Lemma ready_claimContainerAliases w deletable started h0 :
  ready w deletable started h0 (claimContainerAliases w).
Proof.
  unfold claimContainerAliases, with_mutex, defer, applyAliasServices, apply_alias.
  repeat first [apply ready_deleteOwnedService|ready_step].
Qed.

Lemma ready_listWorkloads w deletable started h0 ns :
  ready w deletable started h0 (listWorkloads ns).
Proof. unfold listWorkloads. repeat ready_step. Qed.

Lemma ready_removeAnonymousVolumes w deletable started h0 :
  ready w deletable started h0 (removeAnonymousVolumes w).
Proof.
  unfold removeAnonymousVolumes, remove_anonymous.
  repeat first [apply ready_listWorkloads|ready_step].
Qed.

Lemma ready_setContainerReplicas w deletable started h0 n at_ :
  ready w deletable started h0 (setContainerReplicas w n at_).
Proof.
  unfold setContainerReplicas. apply ready_bind_res; [|intros; apply ready_ret].
  intros h Hh. apply ordered_update. auto.
Qed.

(** After the observation, a program that is ready may run. *)
Lemma ordered_after_wait w deletable started h0 h {A} (p : proc (res A)) :
  h0 `suffix_of` h → ready w deletable started h0 p →
  ordered w deletable started h0 (do? _ <- waitContainerStopped w; p) h.
Proof.
  intros Hs Hp. unfold safe. rewrite wp_bind_res.
  eapply wp_post; [|by apply (wait_stopped_wp stop_ticks w deletable started h0)].
  intros h' [u|e] [Hs' Hr]; [|done]. apply safe_from; [done|]. apply Hp. by right.
Qed.

Lemma ordered_wait w deletable started h0 h :
  h0 `suffix_of` h → ordered w deletable started h0 (waitContainerStopped w) h.
Proof.
  intros Hs. eapply wp_post; [|by apply (wait_stopped_wp stop_ticks w deletable started h0)].
  by intros h' r [? _].
Qed.

Lemma ordered_deleteWorkload w deletable started h0 h force :
  deletable = true → ordered w deletable started h0 (deleteWorkload w force) h.
Proof.
  intros Hd. unfold deleteWorkload. destruct (DeletionTimestamp w); [apply safe_ret|].
  apply safe_bind; [|intros; apply safe_ret]. destruct (OneShot w); by apply safe_call.
Qed.

(** An operation that ends with an observed stop reports it. *)
Definition reports_stop w h0 (h : hist) (r : res unit) : Prop :=
  match r with Ok _ => stopped_since w h0 h | Err _ => True end.

Lemma wait_reports w deletable started h0 h :
  h0 `suffix_of` h →
  wp any_answer (lifecycle w deletable started h0) (waitContainerStopped w) h (reports_stop w h0).
Proof.
  intros Hs. eapply wp_post; [|by apply (wait_stopped_wp stop_ticks w deletable started h0)].
  by intros h' r [_ Hr].
Qed.

Lemma stopOneShot_wp w code h :
  OneShot w = true →
  wp any_answer (lifecycle w (OneShot w && Started w) false h) (stopOneShot w code) h
    (λ h' r, Started w = true → reports_stop w h h' r).
Proof.
  intros Ho. unfold stopOneShot. destruct (Started w) eqn:Est; [|done]. simpl negb. cbv iota.
  rewrite wp_bind_res. eapply safe_wp; [|apply ordered_update_job].
  intros h1 [u|e] Hs1; [|done]. rewrite wp_bind, wp_call.
  split; [by rewrite Ho|]. intros r _. destruct (ignore_not_found r); [|done].
  eapply wp_post; [|apply wait_reports; by apply suffix_cons_r]. done.
Qed.

Lemma rm_locked_wp config w h :
  let force := match config with Some c => ForceRemove c | None => false end in
  wp any_answer (lifecycle w (force || negb (Started w) || Finished w) false h)
    (rm_locked config w) h (reports_stop w h).
Proof.
  intros force. unfold rm_locked. fold force. cbv zeta.
  destruct (negb force && Started w && negb (Finished w)) eqn:E; [done|].
  set (deletable := force || negb (Started w) || Finished w).
  assert (deletable = true) as Hd
    by (unfold deletable; by destruct force, (Started w), (Finished w)).
  rewrite wp_bind_res. eapply safe_wp; [|by apply ordered_deleteWorkload].
  intros h1 [u|e] Hs1; [|done]. rewrite wp_bind_res.
  eapply wp_post; [|by apply (wait_stopped_wp stop_ticks w deletable false h)].
  intros h2 [[]|e] [Hs2 Hr]; [|done].
  eapply safe_wp; [intros h3 r Hs3|].
  { destruct r; [|done]. by eapply stopped_since_suffix. }
  assert (ready w deletable false h (call (ForgetExecs (Namespace w) (DockerIDFromUID (UID w)))))
    as Hforget by (intros h' [Hf|Hf]; [done|by apply safe_call]).
  match goal with |- safe _ _ ?p _ => assert (ready w deletable false h p) as Hready end;
    [|apply Hready; by right].
  unfold with_mutex, defer.
  repeat first [exact Hforget|apply ready_removeContainerServices|apply ready_removeAnonymousVolumes
               |ready_step].
Qed.

Lemma ordered_scale_down w deletable started h0 h :
  ordered w deletable started h0 (setContainerReplicas w 0 "") h.
Proof.
  unfold setContainerReplicas. apply safe_bind_res; [|intros; apply safe_ret].
  apply ordered_update. left. intros d d' [= <-]. unfold set_replicas. by case_decide.
Qed.

Lemma ordered_restart_locked w h : ordered w false false h (restart_locked w) h.
Proof.
  unfold restart_locked. destruct (OneShot w); [apply safe_ret|].
  apply safe_bind_res; [apply ordered_scale_down|]. intros h1 u Hs1.
  apply ordered_after_wait; [done|].
  repeat first [apply ready_claimContainerAliases|apply ready_setContainerReplicas|ready_step].
Qed.

Lemma ordered_start_locked w h : ordered w false (Started w) h (start_locked w) h.
Proof.
  unfold start_locked.
  match goal with |- safe _ _ (bind_res _ ?f) _ => set (rest := f) end.
  assert (∀ u, ready w false (Started w) h (rest u)) as Hrest.
  { intros u. unfold rest. apply ready_bind_res; [apply ready_claimContainerAliases|]. intros _.
    destruct (OneShot w); [intros h' _; apply ordered_update_job|apply ready_setContainerReplicas]. }
  destruct (Started w); simpl negb; cbv iota.
  - unfold safe. rewrite wp_bind_res, wp_ret. apply Hrest. by left.
  - apply (ordered_after_wait w false false h h (rest tt)); [done|apply Hrest].
Qed.

Lemma stop_locked_wp w h :
  wp any_answer (lifecycle w (OneShot w && Started w) false h) (stop_locked w) h
    (λ h' r, (OneShot w = true → Started w = true) → reports_stop w h h' r).
Proof.
  unfold stop_locked. destruct (OneShot w) eqn:Eo.
  - pose proof (stopOneShot_wp w "143" h Eo) as Hw. rewrite Eo in Hw.
    eapply wp_post; [|exact Hw]. intros h' r Hr Hs. by apply Hr, Hs.
  - rewrite wp_bind_res. eapply safe_wp; [|apply ordered_scale_down].
    intros h1 [u|e] Hs1; [|done]. eapply wp_post; [|by apply wait_reports]. done.
Qed.

Lemma kill_locked_wp signal w h :
  wp any_answer (lifecycle w (OneShot w && Started w) false h) (kill_locked signal w) h
    (λ _ _, True).
Proof.
  unfold kill_locked. cbv zeta. destruct (OneShot w) eqn:Eo.
  - pose proof (stopOneShot_wp w (kill_code signal) h Eo) as Hw. rewrite Eo in Hw.
    eapply wp_post; [|exact Hw]. done.
  - eapply safe_wp; [done|]. apply safe_bind_res; [|intros; apply safe_ret].
    apply ordered_update. left. by intros d d' [= <-].
Qed.

(** C38: containers are removed and restarted in a safe order.  With [w] the
    container that was locked: removing it deletes the workload only by its UID,
    and without force only if it was not running; its Services, sessions and
    anonymous volumes are removed only after it was observed to be stopped
    (controller and Pods), which success implies.  Restarting gives a Deployment
    replicas again only after such an observation, and so does starting one that
    is not running.  Stopping reports success only after one, except for a Job
    that was not started, for which there is nothing to stop.  Killing obeys the
    same order and deletes only a Job that was started, by its UID; it does not
    wait, so nothing is claimed of what it reports.  Updates of Jobs (their annotations and
    suspension) are not ordered. *)
Theorem lifecycle_order w h h' :
  (∀ config r, exec (rm_locked config w) h h' r →
     guarded (lifecycle w (match config with Some c => ForceRemove c | None => false end ||
                           negb (Started w) || Finished w) false h) h h' ∧
     reports_stop w h h' r) ∧
  (∀ r, exec (restart_locked w) h h' r → guarded (lifecycle w false false h) h h') ∧
  (∀ r, exec (start_locked w) h h' r → guarded (lifecycle w false (Started w) h) h h') ∧
  (∀ r, exec (stop_locked w) h h' r →
     guarded (lifecycle w (OneShot w && Started w) false h) h h' ∧
     ((OneShot w = true → Started w = true) → reports_stop w h h' r)) ∧
  (∀ signal r, exec (kill_locked signal w) h h' r →
     guarded (lifecycle w (OneShot w && Started w) false h) h h').
Proof.
  assert (∀ A (p : proc A) G Q r, wp any_answer G p h Q → exec p h h' r →
            guarded G h h' ∧ Q h' r) as Hrun.
  { intros A p G Q r Hp Hex. apply and_comm. refine (wp_exec _ _ _ _ _ _ _ Hp Hex _).
    apply along_any; [done|]. by eapply exec_suffix. }
  split_and!.
  - intros config r. apply Hrun, rm_locked_wp.
  - intros r Hex. exact (proj1 (Hrun _ _ _ _ r (ordered_restart_locked w h) Hex)).
  - intros r Hex. exact (proj1 (Hrun _ _ _ _ r (ordered_start_locked w h) Hex)).
  - intros r Hex. exact (Hrun _ _ _ _ r (stop_locked_wp w h) Hex).
  - intros signal r Hex. exact (proj1 (Hrun _ _ _ _ r (kill_locked_wp signal w h) Hex)).
Qed.
End order.

(** Removing the stopped container [db] of the sample cluster. *)
Lemma lifecycle_order_witness :
  let w := deploymentWorkload (sample_deployment "acme" "db" "77aa-0001" 0) in
  let p := @rm_locked demo_map_json None w in
  (simulate p sample_cluster).1.1 = Ok tt ∧ stopped_since w [] (simulate p sample_cluster).1.2.
Proof.
  intros w p.
  pose proof (proj1 (@lifecycle_order demo_validation demo_docker_json demo_map_json demo_retry
    demo_retry_laws w [] _) None _ (simulate_exec p sample_cluster)) as [_ H].
  assert ((simulate p sample_cluster).1.1 = Ok tt) as Hr by (vm_compute; reflexivity).
  split; [exact Hr|]. fold p in H. rewrite Hr in H. exact H.
Defined.

(** ** Properties: waiting *)

Section waiting.
Context `{Validation} `{DockerJSON} `{MapJSON}.
Implicit Types w : containerWorkload.

(** The workload, as it was read last. *)
Definition read_last w (h : hist) (r : res containerWorkload) : Prop :=
  if OneShot w
  then ∃ r' h0, h = Event _ (KGet KJob (Namespace w) (Name w)) r' :: h0 ∧ r = result_map jobWorkload r'
  else ∃ r' h0, h = Event _ (KGet KDeployment (Namespace w) (Name w)) r' :: h0 ∧
         r = result_map deploymentWorkload r'.

(** The last read did not find the container: nothing, or another one. *)
Definition gone w (h : hist) : Prop :=
  ∃ r, read_last w h r ∧
    match r with Ok current => UID current ≠ UID w | Err e => IsNotFound e = true end.

(** An exit code that Kubernetes reported for a Pod of the container, or that was
    recorded when it was signalled. *)
Definition terminated_with (status : ContainerStatus) (code : Z) : Prop :=
  TS_ExitCode <$> CS_Terminated status = Some code ∨ TS_ExitCode <$> CS_LastTerminated status = Some code.

Definition exit_seen w (h : hist) (code : Z) : Prop :=
  (∃ pods pod status,
     Event _ (KList KPod (Namespace w) (app_selector w)) (Ok pods) ∈ h ∧ pod ∈ pods ∧
     status ∈ ContainerStatuses pod ∧
     terminated_with status code) ∨
  (∃ h1 current, h1 `suffix_of` h ∧ read_last w h1 (Ok current) ∧
     ParseInt32 (mget (Annotations current) containerSignalExitCodeAnnotation) = Some code).

(** Reading, and waiting for time to pass; anything when the container is to be
    removed. *)
Definition waits (ns : string) (autoRemove : bool) : guard (cmd := cmd) := λ h X c,
  autoRemove = true ∨ match c with WaitTick => True | _ => reads_in ns h X c end.

Lemma exit_seen_suffix w h h' code : h `suffix_of` h' → exit_seen w h code → exit_seen w h' code.
Proof.
  intros [l ->] [(pods & pod & status & Hin & Hrest)|(h1 & current & Hs & Hrest)]; [left|right].
  - exists pods, pod, status. split; [set_solver|done].
  - exists h1, current. split; [by apply suffix_app_r|done].
Qed.

Lemma scan_status_seen autoRemove statuses running exitCode code :
  (foldl (scan_status autoRemove) (running, exitCode) statuses).2 = Some code →
  exitCode = Some code ∨
  ∃ status, status ∈ statuses ∧
    terminated_with status code.
Proof.
  revert running exitCode. induction statuses as [|s l IH]; intros running exitCode; cbn [foldl].
  { by left. }
  intros Hc. specialize (IH _ _ Hc). destruct IH as [Hs|(s' & ? & ?)];
    [|right; exists s'; set_solver].
  destruct exitCode as [c|]; [by left|right]. exists s. split; [set_solver|].
  unfold terminated_with. destruct (CS_Terminated s); [by left|]. destruct (_ || _); [by right|done].
Qed.

Lemma scan_pods_seen autoRemove pods s code :
  (foldl (scan_pod autoRemove) s pods).2 = Some code →
  s.2 = Some code ∨
  ∃ pod status, pod ∈ pods ∧ status ∈ ContainerStatuses pod ∧
    terminated_with status code.
Proof.
  revert s. induction pods as [|pod pods IH]; intros s; cbn [foldl]; [by left|].
  intros Hc. specialize (IH _ Hc). destruct IH as [Hs|(p & st & ? & ? & ?)];
    [|right; exists p, st; set_solver].
  unfold scan_pod in Hs. destruct s as [running exitCode].
  pose proof (scan_status_seen autoRemove (ContainerStatuses pod) running exitCode code) as Hst.
  destruct (foldl (scan_status autoRemove) (running, exitCode) (ContainerStatuses pod)) as [b e].
  simpl in Hs, Hst. destruct (Hst Hs) as [->|(st & ? & ?)]; [by left|right].
  exists pod, st. set_solver.
Qed.

Lemma refreshWorkload_wp w autoRemove h (Q : hist → res containerWorkload → Prop) :
  (∀ h' current, h `suffix_of` h' → read_last w h' (Ok current) → Q h' (Ok current)) →
  (∀ h' e, h `suffix_of` h' → (IsNotFound e = true → gone w h') → Q h' (Err e)) →
  wp any_answer (waits (Namespace w) autoRemove) (refreshWorkload w) h Q.
Proof.
  intros Hok Herr. unfold refreshWorkload.
  assert (∀ h' r, h `suffix_of` h' → read_last w h' r →
    wp any_answer (waits (Namespace w) autoRemove)
      (match r with
       | Ok current => if decide (UID current ≠ UID w) then Ret (Err not_found_status)
                       else Ret (Ok current)
       | Err e => Ret (Err e)
       end) h' Q) as Hrest.
  { intros h' [current|e] Hs Hr; [|rewrite wp_ret; apply Herr; [done|]; intros He; by exists (Err e)].
    destruct (decide _) as [Hu|Hu]; rewrite wp_ret; [|by apply Hok].
    apply Herr; [done|]. intros _. by exists (Ok current). }
  unfold read_last in Hrest. rewrite wp_bind_res. destruct (OneShot w).
  - rewrite wp_bind_res, wp_call. split; [by right|]. intros [j|e] _.
    + rewrite wp_ret. refine (Hrest _ (Ok (jobWorkload j)) _ _); [by apply suffix_cons_r|].
      by exists (Ok j), h.
    + refine (Hrest _ (Err e) _ _); [by apply suffix_cons_r|]. by exists (Err e), h.
  - rewrite wp_bind_res, wp_call. split; [by right|]. intros [d|e] _.
    + rewrite wp_ret. refine (Hrest _ (Ok (deploymentWorkload d)) _ _); [by apply suffix_cons_r|].
      by exists (Ok d), h.
    + refine (Hrest _ (Err e) _ _); [by apply suffix_cons_r|]. by exists (Err e), h.
Qed.

(** What the loop promises of an answer, and of its state. *)
Definition answer_ok w (h : hist) (r : res Z) : Prop :=
  match r with Ok code => exit_seen w h code ∨ (code = 0%Z ∧ gone w h) | Err _ => True end.
Definition state_ok w (h : hist) (s : wait_state) : Prop :=
  ∀ code, removedExitCode s = Some code → exit_seen w h code.

Lemma wait_decide_ok w h condition s started running exitCode :
  state_ok w h s → (∀ code, exitCode = Some code → exit_seen w h code) →
  match wait_decide condition s started running exitCode with
  | inl r => answer_ok w h r
  | inr s => state_ok w h s
  end.
Proof.
  intros Hs He. unfold wait_decide. cbv zeta.
  destruct (_ || _); [|exact Hs]. destruct exitCode as [code|]; [|done]. left. by apply He.
Qed.

Lemma wait_check_wp ctx condition autoRemove w s h :
  state_ok w h s →
  wp any_answer (waits (Namespace w) autoRemove) (wait_check ctx condition autoRemove w s) h (λ h' r,
    h `suffix_of` h' ∧ match r with inl r => answer_ok w h' r | inr s => state_ok w h' s end).
Proof.
  intros Hs. unfold wait_check. rewrite wp_bind. apply refreshWorkload_wp.
  2: { intros h' e Hs' Hgone. destruct (IsNotFound e); rewrite wp_ret; (split; [done|]); [|done].
       destruct (removedExitCode s) as [code|] eqn:Ec; simpl.
       - left. eapply exit_seen_suffix; [done|]. by apply Hs.
       - right. auto. }
  intros h1 current Hs1 Hread.
  assert (∀ h', h `suffix_of` h' → state_ok w h' s) as Hkeep.
  { intros h' Hs' code Hc. eapply exit_seen_suffix; [done|]. by apply Hs. }
  destruct (_ && _); [|rewrite wp_ret; split; [done|]; by apply Hkeep].
  rewrite wp_bind.
  pose proof (wp_suffix _ _ _ _ _ (containerPods_wp w h1)) as Hpods.
  eapply wp_mono; [intros ? ? c Hc; right; by destruct c| |exact Hpods].
  intros h2 [pods|e] [Hp Hs2]; [|rewrite wp_ret; split; [by etrans|done]].
  destruct Hp as (listed & Hin & Hsub & _).
  pose proof (scan_pods_seen autoRemove pods (false, None)) as Hscan.
  destruct (foldl _ _ pods) as [running exitCode]. simpl in Hscan.
  set (exitCode' := match exitCode with Some code => Some code | None => _ end).
  assert (∀ h' code, h2 `suffix_of` h' → exitCode' = Some code → exit_seen w h' code) as Hexit.
  { intros h' code Hs' Hc. unfold exitCode' in Hc. destruct exitCode as [c|].
    - injection Hc as ->. destruct (Hscan code eq_refl) as [|(pod & st & Hpod & Hst & Hcode)]; [done|].
      left. exists listed, pod, st. destruct Hs' as [l ->]. split; [set_solver|].
      split; [|done]. by eapply elem_of_sublist.
    - destruct (_ && _); [|done]. right. exists h1, current. split; [by etrans|done]. }
  destruct (autoRemove && bool_decide (is_Some exitCode')) eqn:Ea.
  - apply andb_true_iff in Ea as [-> _]. rewrite wp_bind.
    eapply wp_mono; [by left| |apply wp_suffix, wp_any].
    intros h3 r [_ Hs3]. destruct r as [u|e]; rewrite wp_ret; (split; [do 2 (etrans; [done|]); done|]);
      [|done].
    apply wait_decide_ok; [intros code Hc|]; intros; by apply Hexit.
  - rewrite wp_ret. split; [by etrans|]. apply wait_decide_ok; [apply Hkeep; by etrans|].
    intros code Hc. by apply Hexit.
Qed.

Lemma wait_loop_wp n ctx condition autoRemove w s h :
  state_ok w h s →
  wp any_answer (waits (Namespace w) autoRemove) (wait_loop n ctx condition autoRemove w s) h
    (λ h' r, match r with Some r => answer_ok w h' r | None => True end).
Proof.
  revert s h. induction n as [|n IH]; intros s h Hs; cbn [wait_loop]; rewrite wp_bind;
    (eapply wp_post; [|by apply wait_check_wp]);
    intros h1 [r|s1] [Hs1 Hr]; rewrite ?wp_ret; try exact Hr; rewrite wp_bind, wp_call;
    (split; [by right|]); intros [[]|e] _; rewrite ?wp_ret; try done.
  apply IH. intros code Hc. apply (exit_seen_suffix w h1); [by apply suffix_cons_r|by apply Hr].
Qed.

(** Waiting reports a real exit.  However long it waits, [ContainerWait]
    only reads the namespace of the identity, unless the removal of the container
    is awaited; and an exit code it returns is one that Kubernetes reported for a
    listed Pod of the container that was named, or that was recorded when it was
    signalled, except that it is 0 when the container is gone without one. *)
Theorem ContainerWait_sound n id name condition h h' r :
  exec (ContainerWait n (Some id) name condition) h h' r → answered api_rely h h' →
  guarded (waits (id_namespace id) (bool_decide (condition = WaitConditionRemoved))) h h' ∧
  match r with
  | Some (Ok code) => ∃ w, found_by name w ∧ Namespace w = id_namespace id ∧
      (exit_seen w h' code ∨ (code = 0%Z ∧ gone w h'))
  | _ => True
  end.
Proof.
  intros Hex Hans. apply and_comm.
  refine (wp_exec api_rely _ _ _ _ _ (λ h' r, match r with
    | Some (Ok code) => ∃ w, found_by name w ∧ Namespace w = id_namespace id ∧
        (exit_seen w h' code ∨ (code = 0%Z ∧ gone w h'))
    | _ => True
    end) _ Hex Hans).
  unfold ContainerWait. destruct (decide _); [done|]. rewrite wp_bind.
  eapply wp_mono; [| |apply findContainer_wp]; [intros ? ? c Hc; right; by destruct c|].
  intros h1 [w|e] Hw; [|done]. destruct Hw as (_ & Hns & Hw).
  destruct (if decide (condition = WaitConditionRemoved) then _ else _) as [autoRemove|e] eqn:Ea;
    [|done].
  assert (autoRemove = true → condition = WaitConditionRemoved) as Har
    by (intros ->; by destruct (decide (condition = WaitConditionRemoved))).
  eapply wp_rely with (R := any_answer); [done|]. eapply wp_mono;
    [| |apply (wait_loop_wp n (Some id) condition autoRemove w); by intros ? [=]].
  - intros ? ? c [->%Har|Hc]; [left; by apply bool_decide_eq_true|right]. by rewrite <- Hns.
  - intros h2 [[code|e]|] Hr; try done. by exists w.
Qed.
End waiting.

(** The Pod of [web] ended with the code 3. *)
Definition exited_cluster : cluster :=
  set_db KPod [{| pod_meta := pod_meta (sample_pod "a" "rs-1" "web-1"); Phase := "Failed";
    ContainerStatuses := [{| CS_Name := "web"; CS_ContainerID := ""; CS_ImageID := "";
      CS_Ready := false; CS_RestartCount := 0; CS_Running := None;
      CS_Terminated := Some {| TS_ExitCode := 3; TS_Reason := "Error"; TS_Message := "";
        TS_FinishedAt := 9; TS_ContainerID := "" |};
      CS_Waiting := None; CS_LastTerminated := None |}];
    pod_Volumes := []; pod_Containers := []; NodeName := ""; PodIP := ""; StartTime := None; Pod_Message := ""; Pod_Reason := "" |}] pods_cluster.

Lemma ContainerWait_sound_witness :
  let p := @ContainerWait demo_validation demo_docker_json demo_map_json 5
             (Some acme_identity) "web" "not-running" in
  (simulate p exited_cluster).1.1 = Some (Ok 3%Z) ∧
  ∃ w, found_by "web" w ∧ Namespace w = "acme".
Proof.
  intros p.
  pose proof (@ContainerWait_sound demo_validation demo_docker_json demo_map_json 5 acme_identity "web"
    "not-running" _ _ _ (simulate_exec p exited_cluster) (simulate_answered p exited_cluster)) as [_ H].
  assert ((simulate p exited_cluster).1.1 = Some (Ok 3%Z)) as Hr by (vm_compute; reflexivity).
  split; [exact Hr|]. fold p in H. rewrite Hr in H. destruct H as (w & Hw & Hns & _).
  by exists w.
Defined.

(** ** Properties: the time a stop takes *)

(** The ticks among the events. *)
Definition is_tick (e : event cmd) : bool :=
  match ev_cmd e with WaitTick => true | _ => false end.
Definition ticks (h : hist) : nat := length (List.filter is_tick h).

(** Answers that show the container stopped, or still busy, at every poll. *)
Definition polled (w : containerWorkload) (stopped : bool) : rely (cmd := cmd) := λ _ X c,
  match c in cmd X return X → Prop with
  | KGet k ns name =>
      match k return res (obj k) → Prop with
      | KDeployment => λ r, ∃ d, r = Ok d ∧ UID (dep_meta d) = UID w ∧
                                 (stopped = true → deployment_stopped d = true)
      | _ => λ _, True
      end
  | KList k ns selector =>
      match k return res (list (obj k)) → Prop with
      | KPod => λ r, ∃ pods, r = Ok pods ∧ existsb pod_active pods = negb stopped
      | _ => λ _, True
      end
  | WaitTick => λ r, r = Ok tt
  | _ => λ _, True
  end.

(** At most [n + 1] polls: each asks twice and waits for at most one tick. *)
Definition bounded_polls (n : nat) (h h' : hist) : Prop :=
  (length h' ≤ length h + 3 * S n ∧ ticks h' ≤ ticks h + S n)%nat.

(** A request that failed, or the end of the context. *)
Definition failed (e : event cmd) : bool :=
  match e with
  | Event _ c x =>
      match c in cmd X return X → bool with
      | KGet k _ _ => λ r, match r with Ok _ => false | Err e => negb (IsNotFound e) end
      | KList k _ _ => λ r, negb (is_ok r)
      | WaitTick => λ r, negb (is_ok r)
      | _ => λ _, false
      end x
  end.

(** Nothing follows a failure, and it is the outcome. *)
Definition ends_on_failure (h h' : hist) (r : res unit) : Prop :=
  ∃ recent, h' = (recent ++ h)%list ∧ Forall (λ e, failed e = false) (tail recent) ∧
    ∀ e, head recent = Some e → failed e = true → is_ok r = false.

Lemma controller_stopped_wp w (R : rely (cmd := cmd)) h (Q : hist → res bool → Prop) :
  (∀ r, OneShot w = true → r = Ok true → Q h r) →
  (∀ (d : res Deployment) r, R h _ (KGet KDeployment (Namespace w) (Name w)) d → OneShot w = false →
     (∀ d', d = Ok d' → UID (dep_meta d') = UID w → r = Ok (deployment_stopped d')) →
     Q (Event _ (KGet KDeployment (Namespace w) (Name w)) d :: h) r) →
  wp R any_command (controller_stopped w) h Q.
Proof.
  intros Hjob Hdep. unfold controller_stopped. destruct (OneShot w) eqn:Eo; [by apply Hjob|].
  rewrite wp_bind, wp_call. split; [done|]. intros [d|e] Hd.
  - destruct (decide _) as [Hne|Heq].
    + rewrite wp_ret. apply Hdep; [done..|]. intros d' [= <-] Hu. done.
    + rewrite wp_ret. apply Hdep; [done..|]. by intros d' [= <-] _.
  - destruct (negb _); rewrite wp_ret; by apply Hdep.
Qed.

Ltac count_events := unfold bounded_polls, ticks in *; simpl in *; lia.

(** One poll after the controller was asked, with what follows a tick. *)
Ltac poll rest :=
  rewrite wp_bind, wp_call; split; [done|]; intros [pods|?] _; [|count_events];
  destruct (_ && _); [count_events|];
  rewrite wp_bind, wp_call; split; [done|]; intros [u|?] _; [rest|count_events].

Lemma wait_stopped_bounded n w h :
  wp any_answer any_command (wait_stopped n w) h (λ h' _, bounded_polls n h h').
Proof.
  revert h. induction n as [|n IH]; intros h; cbn [wait_stopped]; rewrite wp_bind_res;
    apply (controller_stopped_wp w any_answer).
  - intros [stopped|e] _ _; [poll count_events|count_events].
  - intros d [stopped|e] _ _ _; [poll count_events|count_events].
  - intros [stopped|e] _ _; [|count_events].
    poll ltac:(eapply wp_post; [|apply IH]; intros h' ? ?; count_events).
  - intros d [stopped|e] _ _ _; [|count_events].
    poll ltac:(eapply wp_post; [|apply IH]; intros h' ? ?; count_events).
Qed.

Lemma ends_after l h h' r :
  Forall (λ e, failed e = false) l → ends_on_failure (l ++ h)%list h' r → ends_on_failure h h' r.
Proof.
  intros Hl (recent & -> & Htail & Hhead). exists (recent ++ l)%list. rewrite app_assoc. split; [done|].
  destruct recent as [|e recent]; simpl in *; [|split; [by apply Forall_app|done]].
  destruct l as [|e l]; [done|]. apply Forall_cons in Hl as [He Hl]. split; [done|]. intros ? [= <-]. congruence.
Qed.

Lemma ends_last l e h r :
  Forall (λ e, failed e = false) l → (failed e = true → is_ok r = false) → ends_on_failure h (e :: l ++ h)%list r.
Proof. intros Hl He. exists (e :: l). split_and!; [done..|]. by intros ? [= <-]. Qed.

Lemma wait_stopped_fails n w h :
  wp any_answer any_command (wait_stopped n w) h (ends_on_failure h).
Proof.
  assert (∀ (f : proc (res unit)) l h, Forall (λ e, failed e = false) l →
    (∀ h, wp any_answer any_command f h (ends_on_failure h)) → ∀ stopped : bool,
    wp any_answer any_command
      (do pods <- call (KList KPod (Namespace w) (app_selector w));
       match pods with
       | Err e => Ret (Err (kubeError e))
       | Ok pods => if stopped && negb (existsb pod_active pods) then Ret (Ok tt)
                    else do tick <- call WaitTick; match tick with Err _ => Ret (Err deadline_error) | Ok _ => f end
       end) (l ++ h)%list (ends_on_failure h)) as Hpoll.
  { intros f l h1 Hl Hf stopped. rewrite wp_bind, wp_call. split; [done|]. intros [pods|e] _; [|by apply ends_last].
    destruct (_ && _); [by apply ends_last|]. rewrite wp_bind, wp_call. split; [done|].
    intros [[]|e] _; [|by apply (ends_last (_ :: l)); [constructor|]].
    eapply wp_post; [|apply Hf]. intros h2 r. by apply (ends_after (_ :: _ :: l)); repeat constructor. }
  assert (∀ rest : bool → proc (res unit),
    (∀ l h stopped, Forall (λ e, failed e = false) l →
       wp any_answer any_command (rest stopped) (l ++ h)%list (ends_on_failure h)) →
    ∀ h, wp any_answer any_command (do? stopped <- controller_stopped w; rest stopped) h (ends_on_failure h)) as Hgo.
  { intros rest Hrest h1. unfold controller_stopped. destruct (OneShot w); [by apply (Hrest [])|].
    rewrite wp_bind_res, wp_bind, wp_call. split; [done|]. intros [d|e] _.
    - destruct (decide _); rewrite wp_ret; [by apply (ends_last [])|]. apply (Hrest [_]). by repeat constructor.
    - destruct (IsNotFound e) eqn:En; simpl; [|by apply (ends_last [])]. apply (Hrest [_]).
      repeat constructor. simpl. by rewrite En. }
  revert h. induction n as [|n IH]; intros h; cbn [wait_stopped].
  - refine (Hgo (λ stopped, _) (λ l h stopped Hl, _) h).
    apply (Hpoll (Ret (Err deadline_error))); [done|]. intros h2. by exists [].
  - refine (Hgo (λ stopped, _) (λ l h stopped Hl, _) h). by apply (Hpoll (wait_stopped n w)).
Qed.

(** The same under answers that leave one way through. *)
Ltac poll_answered rest :=
  rewrite wp_bind, wp_call; split; [done|]; intros ? (pods & -> & Hp);
  rewrite Hp, andb_false_r, wp_bind, wp_call; split; [done|]; intros ? ->; rest.

Ltac count_busy := unfold ticks in *; simpl in *; intuition lia.

Lemma wait_stopped_busy n w h :
  wp (polled w false) any_command (wait_stopped n w) h (λ h' r,
    r = Err deadline_error ∧ ticks h' = (ticks h + S n)%nat).
Proof.
  revert h. induction n as [|n IH]; intros h; cbn [wait_stopped]; rewrite wp_bind_res;
    apply controller_stopped_wp.
  - intros r _ ->. poll_answered count_busy.
  - intros d r (d' & Hd & Hu & _) _ Hr. rewrite (Hr d' Hd Hu). poll_answered count_busy.
  - intros r _ ->. poll_answered ltac:(eapply wp_post; [|apply IH]; intros; count_busy).
  - intros d r (d' & Hd & Hu & _) _ Hr. rewrite (Hr d' Hd Hu).
    poll_answered ltac:(eapply wp_post; [|apply IH]; intros; count_busy).
Qed.

Lemma wait_stopped_idle n w h :
  wp (polled w true) any_command (wait_stopped n w) h (λ h' r, r = Ok tt ∧ ticks h' = ticks h).
Proof.
  destruct n; cbn [wait_stopped]; rewrite wp_bind_res; apply controller_stopped_wp;
    [intros r _ ->|intros d r (d' & Hd & Hu & Hs) _ Hr; rewrite (Hr d' Hd Hu), (Hs eq_refl)
    |intros r _ ->|intros d r (d' & Hd & Hu & Hs) _ Hr; rewrite (Hr d' Hd Hu), (Hs eq_refl)];
    rewrite wp_bind, wp_call; (split; [done|]); intros r2 (pods & -> & Hp); by rewrite Hp.
Qed.

(** C39: waiting for a container to stop comes to an end.  Whatever is answered,
    [waitContainerStopped] waits for at most the 1200 ticks of 100 ms that its two minutes
    have, and then for its deadline, sends at most two requests before each, and ends with
    an error at the first request that fails and at the end of its context, as when the
    deadline cuts a request short.  If every poll shows the container busy and all the
    ticks come, it waits for all of them and ends with the deadline error; and if the first
    poll shows it stopped it returns without waiting. *)
Theorem waitContainerStopped_terminates w h h' r :
  exec (waitContainerStopped w) h h' r →
  (length h' ≤ length h + 3603 ∧ ticks h' ≤ ticks h + 1201)%nat ∧
  ends_on_failure h h' r ∧
  (answered (polled w false) h h' → r = Err deadline_error ∧ ticks h' = (ticks h + 1201)%nat) ∧
  (answered (polled w true) h h' → r = Ok tt ∧ ticks h' = ticks h).
Proof.
  unfold waitContainerStopped. intros Hex.
  assert (answered any_answer h h') as Hany by (apply along_any; [done|]; by eapply exec_suffix).
  split_and!.
  - refine (proj1 (proj1 (wp_exec _ _ _ _ _ _ _ (wait_stopped_bounded stop_ticks w h) Hex Hany))).
  - refine (proj2 (proj1 (wp_exec _ _ _ _ _ _ _ (wait_stopped_bounded stop_ticks w h) Hex Hany))).
  - exact (proj1 (wp_exec _ _ _ _ _ _ _ (wait_stopped_fails stop_ticks w h) Hex Hany)).
  - intros Ha. exact (proj1 (wp_exec _ _ _ _ _ _ _ (wait_stopped_busy stop_ticks w h) Hex Ha)).
  - intros Ha. exact (proj1 (wp_exec _ _ _ _ _ _ _ (wait_stopped_idle stop_ticks w h) Hex Ha)).
Qed.

(** The stopped container [db] is seen stopped at once. *)
Lemma waitContainerStopped_terminates_witness :
  let w := deploymentWorkload (sample_deployment "acme" "db" "77aa-0001" 0) in
  (simulate (waitContainerStopped w) sample_cluster).1.1 = Ok tt ∧
  ends_on_failure [] (simulate (waitContainerStopped w) sample_cluster).1.2 (Ok tt).
Proof.
  intros w. assert ((simulate (waitContainerStopped w) sample_cluster).1.1 = Ok tt) as Hok by (vm_compute; reflexivity).
  split; [exact Hok|]. rewrite <- Hok.
  exact (proj1 (proj2 (waitContainerStopped_terminates w [] _ _ (simulate_exec _ sample_cluster)))).
Defined.
