(* ===== verification/Networks.v ===== *)
(** * Networks: [core/translator/network*.go]

    Docker networks are [DockerNetwork] objects.  The members of a network are the
    Pods with its label; the policies of the namespace let the members of a network
    reach each other, and everyone the published ports. *)

From S2P Require Import Prelude GoStrings Sha256 Errors Prog Cluster Filters Docker Validation PodMeta.
From S2P Require Export Services.

Local Open Scope string_scope.

Definition namespaceIsolationPolicy : string := "dink-default-deny".
Definition networkPolicyPrefix : string := "dink-network-".
Definition publishedPolicyPrefix : string := "dink-published-".
Definition networkLabelPrefix : string := "dink.io/network-".
Definition ingressNetworkName : string := "ingress".

Definition builtinNetworkDrivers : gmap string string :=
  {["bridge" := "bridge"; "host" := "host"; "none" := "null"; ingressNetworkName := "overlay"]}.

(** The order in which a range over [builtinNetworkDrivers] visits it. *)
Class NetworkOrder := { range_builtins : list (string * string) }.
Class NetworkOrderLaws `{NetworkOrder} := {
  range_builtins_spec : range_builtins ≡ₚ map_to_list builtinNetworkDrivers
}.

Definition networkScope (driver : string) : string :=
  if decide (driver = "overlay") then "swarm" else "local".

(** [fmt.Sprintf("network-%x", sha256.Sum256(...))[:40]] *)
Definition networkObjectName (name : string) : string :=
  slice ("network-" +:+ hex (Sum256 name)) 0 40.

Definition network_label (objectName : string) : string := networkLabelPrefix +:+ objectName.

(** [network.Network], without the fields that are the same for every network. *)
Record Network := {
  nw_Name : string;
  nw_ID : string;
  nw_Created : Z;
  nw_Scope : string;
  nw_Driver : string;
  nw_EnableIPv4 : bool;
  nw_Ingress : bool;
  nw_Attachable : bool;
  nw_Labels : smap
}.

Definition networkFromObject (obj : DockerNetwork) : Network :=
  let name := net_name obj in
  let driver := match net_driver obj with
                | Some value => if decide (value = "") then "bridge" else value
                | None => "bridge"
                end in
  let driver := match builtinNetworkDrivers !! name with Some d => d | None => driver end in
  {| nw_Name := name;
     nw_ID := DockerIDFromUID (UID (net_meta obj));
     nw_Created := CreationTimestamp (net_meta obj);
     nw_Scope := networkScope driver;
     nw_Driver := driver;
     nw_EnableIPv4 := bool_decide (driver = "bridge");
     nw_Ingress := bool_decide (name = ingressNetworkName);
     nw_Attachable := default false (net_attachable obj) || bool_decide (name = ingressNetworkName);
     nw_Labels := default ∅ (net_labels obj) |}.

Definition is_builtin (name : string) : bool :=
  match builtinNetworkDrivers !! name with Some _ => true | None => false end.

(** ** Policies *)

Definition managed_meta (name namespace : string) (owners : list OwnerReference) : ObjectMeta :=
  meta_set_labels {[managedByLabel := managedByDink]}
    (meta_set_owners owners (new_meta name namespace)).

Definition isolation_policy (namespace : string) : NetworkPolicy := {|
  np_meta := managed_meta namespaceIsolationPolicy namespace [];
  PodSelector := {[managedByLabel := managedByDink]};
  PolicyTypes := ["Ingress"];
  Ingress := [] |}.

(** A creation that may find the object there already. *)
Definition create_policy (namespace : string) (policy : NetworkPolicy) : proc (res unit) :=
  do r <- call (KCreate KNetworkPolicy namespace policy);
  match r with
  | Ok _ => Ret (Ok tt)
  | Err e => if IsAlreadyExists e then Ret (Ok tt) else Ret (Err (kubeError e))
  end.

Definition ensureNamespaceIsolation (namespace : string) : proc (res unit) :=
  do policy <- call (KGet KNetworkPolicy namespace namespaceIsolationPolicy);
  match policy with
  | Ok _ => Ret (Ok tt)
  | Err e => if negb (IsNotFound e) then Ret (Err (kubeError e))
             else create_policy namespace (isolation_policy namespace)
  end.

Definition networkHasPolicy (name : string) : bool :=
  negb (bool_decide (name = "none")) && negb (bool_decide (name = "host")).

Definition network_policy (obj : DockerNetwork) : NetworkPolicy :=
  let namespace := Namespace (net_meta obj) in
  let objectName := Name (net_meta obj) in
  let membership : smap := {[network_label objectName := "true"]} in
  {| np_meta := managed_meta (networkPolicyPrefix +:+ objectName) namespace
       [{| or_APIVersion := "dink.io/v1alpha1"; or_Kind := "DockerNetwork"; or_Name := objectName;
           or_UID := UID (net_meta obj); or_Controller := None |}];
     PodSelector := membership;
     PolicyTypes := ["Ingress"];
     Ingress := [{| From := [membership]; Rule_Ports := [] |}] |}.

Definition ensureNetworkPolicy (obj : DockerNetwork) : proc (res unit) :=
  if negb (networkHasPolicy (nw_Name (networkFromObject obj))) then Ret (Ok tt)
  else create_policy (Namespace (net_meta obj)) (network_policy obj).

(** The protocol and number of each port. *)
Definition networkPolicyPorts (ports : list ContainerPort) : list (string * Z) :=
  (λ port, (if decide (Port_Protocol port = "") then ProtocolTCP else Port_Protocol port,
            ContainerPort_port port)) <$> ports.

Definition published_policy (namespace name : string) (owner : OwnerReference)
    (ports : list ContainerPort) : NetworkPolicy := {|
  np_meta := managed_meta (publishedPolicyPrefix +:+ name) namespace [owner];
  PodSelector := {["app" := name]};
  PolicyTypes := ["Ingress"];
  Ingress := [{| From := []; Rule_Ports := networkPolicyPorts ports |}] |}.

Definition np_set_rv (rv : string) (policy : NetworkPolicy) : NetworkPolicy := {|
  np_meta := meta_set_rv rv (np_meta policy); PodSelector := PodSelector policy;
  PolicyTypes := PolicyTypes policy; Ingress := Ingress policy |}.

Definition applyPublishedPortsPolicy (namespace name : string) (owner : OwnerReference)
    (ports : list ContainerPort) : proc (res unit) :=
  let policyName := publishedPolicyPrefix +:+ name in
  if decide (ports = []) then
    do r <- call (KDelete KNetworkPolicy namespace policyName no_delete_options);
    Ret (ignore_not_found r)
  else
    let policy := published_policy namespace name owner ports in
    do existing <- call (KGet KNetworkPolicy namespace policyName);
    match existing with
    | Err e => if IsNotFound e then create_policy namespace policy else Ret (Err (kubeError e))
    | Ok existing =>
        do r <- call (KUpdate KNetworkPolicy namespace
                        (np_set_rv (ResourceVersion (np_meta existing)) policy : obj KNetworkPolicy));
        Ret (kube_result (result_map (λ _, tt) r))
    end.

(** ** Listing and finding *)

Section listing.
Context `{NetworkOrder}.

Definition new_network (namespace name driver : string) (attachable : option bool)
    (labels : option smap) : DockerNetwork := {|
  net_meta := new_meta (networkObjectName name) namespace; net_name := name;
  net_driver := Some driver; net_labels := labels; net_attachable := attachable |}.

(** The loop over the builtin networks: whether one was missing. *)
Fixpoint create_builtins (namespace : string) (existing : list string) (created : bool)
    (builtins : list (string * string)) : proc (res bool) :=
  match builtins with
  | [] => Ret (Ok created)
  | (name, driver) :: builtins =>
      if slices_Contains existing (networkObjectName name)
      then create_builtins namespace existing created builtins
      else
        do obj <- call (KCreate KDockerNetwork namespace
                          (new_network namespace name driver None None : obj KDockerNetwork));
        match obj with
        | Err e => if negb (IsAlreadyExists e) then Ret (Err e)
                   else create_builtins namespace existing true builtins
        | Ok obj => do? _ <- ensureNetworkPolicy obj;
                    create_builtins namespace existing true builtins
        end
  end.

Definition ensureBuiltinNetworks (namespace : string) (l : list DockerNetwork) : proc (res bool) :=
  create_builtins namespace ((λ o, Name (net_meta o)) <$> l) false range_builtins.

Definition networkNamespace (ctx : context) : res string :=
  match ctx with
  | None => Err (Unauthenticated (errors_New "missing identity in context"))
  | Some id => Ok (id_namespace id)
  end.

Definition networkList (ctx : context) : proc (res (list DockerNetwork)) :=
  match networkNamespace ctx with
  | Err e => Ret (Err e)
  | Ok namespace =>
      do? l <- call (KList KDockerNetwork namespace "");
      do? created <- ensureBuiltinNetworks namespace l;
      if created : bool then call (KList KDockerNetwork namespace "") else Ret (Ok l)
  end.

(** Whether a network is one that [nameOrID] may mean. *)
Definition network_matches (nameOrID : string) (obj : DockerNetwork) : bool :=
  let network := networkFromObject obj in
  bool_decide (nw_Name network = nameOrID) || HasPrefix (nw_ID network) nameOrID.

(** The loop of [findNetwork]. *)
Fixpoint find_network (nameOrID : string) (found : option DockerNetwork) (l : list DockerNetwork) :
    res (option DockerNetwork) :=
  match l with
  | [] => Ok found
  | obj :: l =>
      if negb (network_matches nameOrID obj) then find_network nameOrID found l
      else match found with
           | Some _ => Err (Conflict (errors_New "network %s is ambiguous"))
           | None => find_network nameOrID (Some obj) l
           end
  end.

Definition network_not_found : error := NotFound (errors_New "network %s not found").

Definition findNetwork (ctx : context) (nameOrID : string) : proc (res DockerNetwork) :=
  do? l <- networkList ctx;
  match find_network nameOrID None l with
  | Err e => Ret (Err e)
  | Ok None => Ret (Err network_not_found)
  | Ok (Some obj) => if decide (nameOrID = "") then Ret (Err network_not_found) else Ret (Ok obj)
  end.

Definition template_attached (selector : string) (labels : smap) (meta : ObjectMeta) : bool :=
  bool_decide (is_Some (labels !! selector)) && bool_decide (DeletionTimestamp meta = None).

Definition networkInUse (obj : DockerNetwork) : proc (res bool) :=
  let namespace := Namespace (net_meta obj) in
  let selector := network_label (Name (net_meta obj)) in
  do? deployments <- call (KList KDeployment namespace "");
  if existsb (λ d : Deployment, template_attached selector (Pod_Labels (dep_Template d)) (dep_meta d))
       deployments
  then Ret (Ok true)
  else
    do? jobs <- call (KList KJob namespace "");
    if existsb (λ j : Job, template_attached selector (Pod_Labels (job_Template j)) (job_meta j)) jobs
    then Ret (Ok true)
    else
      do? pods <- call (KList KPod namespace selector);
      Ret (Ok (existsb (λ pod : Pod,
        bool_decide (DeletionTimestamp (pod_meta pod) = None) &&
        negb (bool_decide (mget (Labels (pod_meta pod)) managedByLabel = managedByDink))) pods)).

Definition GetNetwork (ctx : context) (nameOrID : string) : proc (res Network) :=
  do? obj <- findNetwork ctx nameOrID; Ret (Ok (networkFromObject obj)).

(** ** Creation *)

(** [network.CreateRequest]; of the fields that must be unset, whether they are set. *)
Record NetworkRequest := {
  nr_Name : string;
  nr_Driver : string;
  nr_Scope : string;
  nr_Ingress : bool;
  nr_Attachable : bool;
  nr_EnableIPv4 : option bool;
  nr_EnableIPv6 : option bool;
  nr_Internal : bool;
  nr_ConfigOnly : bool;
  nr_ConfigFrom : bool;
  nr_Options : smap;
  nr_IPAM : option (string * smap * nat);   (* driver, options, number of configurations *)
  nr_Labels : smap
}.

Definition unsupported_network (request : NetworkRequest) : bool :=
  match nr_EnableIPv4 request with Some b => negb b | None => false end ||
  match nr_EnableIPv6 request with Some b => b | None => false end ||
  nr_Internal request || nr_ConfigOnly request || nr_ConfigFrom request ||
  (0 <? size (nr_Options request))%nat ||
  match nr_IPAM request with
  | Some (driver, options, configs) =>
      (negb (bool_decide (driver = "")) && negb (bool_decide (driver = "default"))) ||
      (0 <? size options)%nat || (0 <? configs)%nat
  | None => false
  end.

(** The checks before the first request; the driver. *)
Definition check_network `{Unicode} (request : NetworkRequest) : res string :=
  if decide (TrimSpace (nr_Name request) = "")
  then Err (InvalidArgument (errors_New "network name is required"))
  else
    let driver := if decide (nr_Driver request = "") then "bridge" else nr_Driver request in
    if negb (bool_decide (driver = "bridge")) && negb (bool_decide (driver = "overlay"))
    then Err (InvalidArgument
           (errors_New "network driver %q is not supported by the Kubernetes backend"))
    else if negb (bool_decide (nr_Scope request = "")) &&
            negb (bool_decide (nr_Scope request = networkScope driver))
    then Err (InvalidArgument (errors_New "network scope %q does not match the %s driver"))
    else if nr_Ingress request
    then Err (Conflict (errors_New "the %s network already exists and is managed by Dink"))
    else if nr_Attachable request && negb (bool_decide (driver = "overlay"))
    then Err (InvalidArgument (errors_New "attachable networks require the overlay driver"))
    else if unsupported_network request
    then Err (InvalidArgument
           (errors_New "network configuration is not supported by the Kubernetes backend"))
    else Ok driver.

(** The identifier of the response. *)
Definition CreateNetwork `{Unicode} (ctx : context) (request : NetworkRequest) : proc (res string) :=
  match check_network request with
  | Err e => Ret (Err e)
  | Ok driver =>
      match networkNamespace ctx with
      | Err e => Ret (Err e)
      | Ok namespace =>
          do? l <- networkList ctx;
          if existsb (λ obj, bool_decide (nw_Name (networkFromObject obj) = nr_Name request)) l
          then Ret (Err (Conflict (errors_New "network with name %s already exists")))
          else
            do obj <- call (KCreate KDockerNetwork namespace
              (new_network namespace (nr_Name request) driver (Some (nr_Attachable request))
                 (Some (nr_Labels request)) : obj KDockerNetwork));
            match obj with
            | Err e => if IsAlreadyExists e
                       then Ret (Err (Conflict (errors_New "network with name %s already exists")))
                       else Ret (Err e)
            | Ok obj =>
                do? _ <- ensureNamespaceIsolation namespace;
                do? _ <- ensureNetworkPolicy obj;
                Ret (Ok (DockerIDFromUID (UID (net_meta obj))))
            end
      end
  end.

(** ** Deletion *)

Definition delete_network (obj : DockerNetwork) : proc (res unit) :=
  call (KDelete KDockerNetwork (Namespace (net_meta obj)) (Name (net_meta obj)) {|
    Precondition_UID := Some (UID (net_meta obj)); Precondition_ResourceVersion := None;
    GracePeriodSeconds := None; PropagationPolicy := None |}).

Definition DeleteNetwork (ctx : context) (nameOrID : string) : proc (res unit) :=
  do? obj <- findNetwork ctx nameOrID;
  if is_builtin (nw_Name (networkFromObject obj))
  then Ret (Err (Forbidden
         (errors_New "network %s is a predefined network and cannot be removed")))
  else
    do? inUse <- networkInUse obj;
    if inUse : bool then Ret (Err (Conflict (errors_New "network %s has active endpoints")))
    else
      do r <- delete_network obj;
      match r with
      | Err e => Ret (Err (if IsNotFound e then network_not_found else e))
      | Ok _ => Ret (Ok tt)
      end.

(** The loop of [NetworkPrune]. *)
Fixpoint prune_networks (pruneFilters : Args) (before : option Z) (deleted : list string)
    (l : list DockerNetwork) : proc (list string * res unit) :=
  match l with
  | [] => Ret (deleted, Ok tt)
  | obj :: l =>
      let network := networkFromObject obj in
      if is_builtin (nw_Name network) then prune_networks pruneFilters before deleted l
      else if negb (MatchKVList pruneFilters "label" (nw_Labels network)) ||
              negb (matchExcludedLabels (Get pruneFilters "label!") (nw_Labels network)) ||
              match before with
              | Some t => (t <? CreationTimestamp (net_meta obj))%Z
              | None => false
              end
      then prune_networks pruneFilters before deleted l
      else
        do inUse <- networkInUse obj;
        match inUse with
        | Err e => Ret (deleted, Err e)
        | Ok true => prune_networks pruneFilters before deleted l
        | Ok false =>
            do r <- delete_network obj;
            match r with
            | Err e => Ret (deleted, Err e)
            | Ok _ => prune_networks pruneFilters before (deleted ++ [nw_Name network])%list l
            end
        end
  end.

Definition NetworkPrune `{TimeParse} (ctx : context) (now : Z) (pruneFilters : Args) :
    proc (list string * res unit) :=
  if negb (forallb (λ key, bool_decide (key ∈ ["label"; "label!"; "until"])) (Keys pruneFilters))
  then Ret ([], Err (InvalidArgument (errors_New "unsupported network prune filter %q")))
  else match pruneBefore now (Get pruneFilters "until") with
  | Err e => Ret ([], Err (InvalidArgument e))
  | Ok before =>
      do l <- networkList ctx;
      match l with
      | Err e => Ret ([], Err e)
      | Ok l => prune_networks pruneFilters before [] l
      end
  end.

(** ** Summaries *)

Definition network_keys : list string :=
  ["name"; "id"; "driver"; "scope"; "label"; "label!"; "type"; "dangling"].

Definition network_selected `{Regexp} (f : Args) (network : Network) : bool :=
  let networkType := if is_builtin (nw_Name network) then "builtin" else "custom" in
  Match f "name" (nw_Name network) && Match f "id" (nw_ID network) &&
  ExactMatch f "driver" (nw_Driver network) && ExactMatch f "scope" (nw_Scope network) &&
  ExactMatch f "type" networkType &&
  MatchKVList f "label" (nw_Labels network) &&
  matchExcludedLabels (Get f "label!") (nw_Labels network).

Fixpoint summarize `{Regexp} (f : Args) (dangling : bool) (l : list DockerNetwork) :
    proc (res (list Network)) :=
  match l with
  | [] => Ret (Ok [])
  | obj :: l =>
      let network := networkFromObject obj in
      if negb (network_selected f network) then summarize f dangling l
      else
        do? keep <-
          (if negb (0 <? length (Get f "dangling"))%nat then Ret (Ok true)
           else if is_builtin (nw_Name network) then Ret (Ok (negb dangling))
           else do? inUse <- networkInUse obj; Ret (Ok (negb (Bool.eqb dangling inUse))));
        do? rest <- summarize f dangling l;
        Ret (Ok (if keep : bool then network :: rest else rest))
  end.

Definition GetNetworkSummaries `{Regexp} (ctx : context) (f : Args) : proc (res (list Network)) :=
  if negb (forallb (λ key, bool_decide (key ∈ network_keys)) (Keys f))
  then Ret (Err (InvalidArgument (errors_New "unsupported network filter %q")))
  else
    do? l <- networkList ctx;
    match GetBoolOrDefault f "dangling" false with
    | Err e => Ret (Err (InvalidArgument (filter_error e)))
    | Ok dangling => summarize f dangling l
    end.
End listing.

(** ** Connecting and disconnecting containers *)

Section connecting.
Context `{NetworkOrder} `{Validation} `{DockerJSON} `{Retry}.

(** [mutate] acts on the labels of the Pod template. *)
Definition update_template_labels (mutate : smap → smap) (t : PodTemplateSpec) : PodTemplateSpec :=
  tpl_set_labels (mutate (Pod_Labels t)) t.

Definition updateNetworkLabels (w : containerWorkload) (mutate : smap → smap) : proc (res unit) :=
  if OneShot w then
    if Started w
    then Ret (Err (Unsupported (errors_New
           "changing networks of a running --rm container is not supported by the Kubernetes backend")))
    else updateContainerJob w (λ current,
           Ok (job_set_template (update_template_labels mutate (job_Template current)) current))
  else do? _ <- updateContainerDeployment w (λ current,
         Ok (dep_set_template (update_template_labels mutate (dep_Template current)) current));
       Ret (Ok tt).

(** The aliases an endpoint asks for; the flag says whether other settings are set. *)
Definition endpoint_request (endpoint : option (EndpointSettings * bool)) : res (list string) :=
  match endpoint with
  | None => Ok []
  | Some (requested, other_settings) =>
      if other_settings : bool
      then Err (InvalidArgument (errors_New
             "network endpoint settings other than aliases are not supported by the Kubernetes backend"))
      else Ok (Aliases requested ++ DNSNames requested)%list
  end.

Definition aliases_of (network : string) (aliases : aliases_t) : list string :=
  default [] (aliases !! network).

Definition member_label (obj : DockerNetwork) : string :=
  network_label (networkObjectName (nw_Name (networkFromObject obj))).

Definition is_member (label : string) (labels : smap) : bool :=
  bool_decide (mget labels label = "true").

(** [ConnectContainerToNetwork] once the locks are held and the network is found. *)
Definition connect_found (w : containerWorkload) (aliases : list string) (obj : DockerNetwork) :
    proc (res unit) :=
  let name := nw_Name (networkFromObject obj) in
  let label := member_label obj in
  do? _ <-
    (if decide (aliases = []) then Ret (Ok tt)
     else match aliasesFromEndpoints {[name := Some {| Aliases := aliases; DNSNames := [] |}]} with
          | Err e => Ret (Err e)
          | Ok validated =>
              match decodeContainerAliases (Annotations w) with
              | Err e => Ret (Err e)
              | Ok current =>
                  setContainerAliases w (mergeNetworkAliases current name (aliases_of name validated))
              end
          end);
  if is_member label (Pod_Labels (Template w)) then Ret (Ok tt)
  else updateNetworkLabels w (λ labels, <[label := "true"]> labels).

Definition ConnectContainerToNetwork (ctx : context) (networkID containerID : string)
    (endpoint : option (EndpointSettings * bool)) : proc (res unit) :=
  match endpoint_request endpoint with
  | Err e => Ret (Err e)
  | Ok aliases =>
      with_container ctx containerID (λ w,
        with_mutex containerNameMu
          (do? obj <- findNetwork ctx networkID; connect_found w aliases obj))
  end.

Definition disconnect_found (w : containerWorkload) (force : bool) (obj : DockerNetwork) :
    proc (res unit) :=
  let name := nw_Name (networkFromObject obj) in
  let label := member_label obj in
  if negb (is_member label (Pod_Labels (Template w))) then
    if force then Ret (Ok tt)
    else Ret (Err (NotFound (errors_New "container %s is not connected to network %s")))
  else
    match decodeContainerAliases (Annotations w) with
    | Err e => Ret (Err e)
    | Ok current =>
        do? _ <-
          (match current !! name with
           | Some _ => setContainerAliases w (mergeNetworkAliases current name [])
           | None => Ret (Ok tt)
           end);
        updateNetworkLabels w (λ labels, delete label labels)
    end.

Definition DisconnectContainerFromNetwork (ctx : context) (networkID containerID : string)
    (force : bool) : proc (res unit) :=
  with_container ctx containerID (λ w,
    with_mutex containerNameMu
      (do? obj <- findNetwork ctx networkID; disconnect_found w force obj)).
End connecting.

(** ** The requests of listing, finding and removing *)

(** An object that a listing of the namespace's networks gave. *)
Definition listed_network (ns : string) (obj : DockerNetwork) (h : hist) : Prop :=
  ∃ l : list DockerNetwork, Event _ (KList KDockerNetwork ns "") (Ok l) ∈ h ∧ obj ∈ l.

(** The latest events saw nothing that uses the network: no workload with its label
    that is not being deleted, and no foreign Pod. *)
Definition unattached (obj : DockerNetwork) (h : hist) : Prop :=
  let ns := Namespace (net_meta obj) in
  let label := network_label (Name (net_meta obj)) in
  ∃ (ds : list Deployment) (js : list Job) (pods : list Pod) h0,
    h = Event _ (KList KPod ns label) (Ok pods) ::
        Event _ (KList KJob ns "") (Ok js) ::
        Event _ (KList KDeployment ns "") (Ok ds) :: h0 ∧
    (∀ d, d ∈ ds → is_Some (Pod_Labels (dep_Template d) !! label) →
       DeletionTimestamp (dep_meta d) ≠ None) ∧
    (∀ j, j ∈ js → is_Some (Pod_Labels (job_Template j) !! label) →
       DeletionTimestamp (job_meta j) ≠ None) ∧
    (∀ pod, pod ∈ pods → DeletionTimestamp (pod_meta pod) = None →
       mget (Labels (pod_meta pod)) managedByLabel = managedByDink).

(** Reads of one namespace, the creation of its missing builtin networks with their
    policies, and the deletion by UID of listed networks that satisfy [P], are not
    builtin and were just seen unattached. *)
Definition network_requests (ns : string) (P : DockerNetwork → hist → Prop) : guard (cmd := cmd) :=
  λ h X c,
  match c with
  | KList _ ns' _ => ns' = ns
  | KCreate k ns' o =>
      match k return obj k → Prop with
      | KDockerNetwork => λ o, ns' = ns ∧ ∃ name driver,
          builtinNetworkDrivers !! name = Some driver ∧ o = new_network ns name driver None None
      | KNetworkPolicy => λ o, ∃ net asked h0,
          h = Event _ (KCreate KDockerNetwork ns asked) (Ok net) :: h0 ∧
          ns' = Namespace (net_meta net) ∧ o = network_policy net
      | _ => λ _, False
      end o
  | KDelete k ns' name opts => k = KDockerNetwork ∧ ns' = ns ∧ ∃ net,
      Namespace (net_meta net) = ns ∧ name = Name (net_meta net) ∧
      opts = {| Precondition_UID := Some (UID (net_meta net)); Precondition_ResourceVersion := None;
                GracePeriodSeconds := None; PropagationPolicy := None |} ∧
      listed_network ns net h ∧ is_builtin (net_name net) = false ∧ unattached net h ∧ P net h
  | _ => False
  end.

(** Nothing is deleted. *)
Abbreviation network_reads ns := (network_requests ns (λ _ _, False)).

Lemma network_requests_mono ns (P P' : DockerNetwork → hist → Prop) h X (c : cmd X) :
  (∀ net, P net h → P' net h) → network_requests ns P h X c → network_requests ns P' h X c.
Proof.
  intros HP. destruct c; simpl; try done.
  intros (-> & -> & net & ? & ? & ? & ? & ? & ? & ?). split_and!; [done..|].
  exists net. split_and!; auto.
Qed.

Lemma network_reads_any ns P h X (c : cmd X) :
  network_reads ns h X c → network_requests ns P h X c.
Proof. by apply network_requests_mono. Qed.

Lemma listed_suffix ns net h h' :
  h `suffix_of` h' → listed_network ns net h → listed_network ns net h'.
Proof. intros [l ->] (nets & Hin & Hnet). exists nets. split; [set_solver|done]. Qed.

Section listing_requests.
Context `{NetworkOrderLaws}.

Lemma range_builtins_lookup name driver :
  (name, driver) ∈ range_builtins → builtinNetworkDrivers !! name = Some driver.
Proof. rewrite range_builtins_spec. by rewrite elem_of_map_to_list. Qed.

Lemma create_builtins_safe ns existing created builtins h :
  (∀ name driver, (name, driver) ∈ builtins → builtinNetworkDrivers !! name = Some driver) →
  safe any_answer (network_reads ns) (create_builtins ns existing created builtins) h.
Proof.
  revert created h. induction builtins as [|[name driver] builtins IH]; intros created h Hb;
    cbn [create_builtins]; [apply safe_ret|].
  assert (∀ created h, safe any_answer (network_reads ns)
            (create_builtins ns existing created builtins) h) as Hrest.
  { intros created' h'. apply IH. intros ? ? Hin. apply Hb. set_solver. }
  destruct (slices_Contains _ _); [apply Hrest|].
  unfold safe. rewrite wp_bind, wp_call. split.
  { split; [done|]. exists name, driver. split; [apply Hb; set_solver|done]. }
  intros [net|e] _.
  - apply safe_from; [by apply suffix_cons_r|]. apply safe_bind_res; [|intros; apply Hrest].
    unfold ensureNetworkPolicy. destruct (negb _); [apply safe_ret|].
    unfold create_policy, safe. rewrite wp_bind, wp_call. split; [by eexists _, _, _|].
    intros [?|e] _; [|destruct (IsAlreadyExists e)]; rewrite wp_ret; by apply suffix_cons_r.
  - apply safe_from; [by apply suffix_cons_r|].
    destruct (negb _); [apply safe_ret|apply Hrest].
Qed.

(** What listing returns was listed. *)
Lemma networkList_wp id h :
  wp api_rely (network_reads (id_namespace id)) (networkList (Some id)) h (λ h' r,
    match r with
    | Ok l => Event _ (KList KDockerNetwork (id_namespace id) "") (Ok l) ∈ h' ∧
              ∀ net, net ∈ l → Namespace (net_meta net) = id_namespace id
    | Err _ => True
    end).
Proof.
  unfold networkList. cbn [networkNamespace]. rewrite wp_bind_res, wp_call. split; [done|].
  intros [l|e] Hl; [|done]. rewrite wp_bind_res. apply (wp_rely any_answer); [done|].
  eapply safe_wp; [|apply create_builtins_safe, range_builtins_lookup].
  intros h1 [created|e] Hs; [|done]. destruct created.
  - rewrite wp_call. split; [done|]. intros [l'|e] Hl'; [|done].
    split; [apply list_elem_of_here|exact Hl'].
  - rewrite wp_ret. split; [|exact Hl]. destruct Hs as [pre ->]. set_solver.
Qed.
End listing_requests.

(** ** Properties: finding a network *)

Definition only_match (nameOrID : string) (l : list DockerNetwork) (net : DockerNetwork) : Prop :=
  List.filter (network_matches nameOrID) l = [net].

Lemma find_network_spec n found l :
  find_network n found l =
    match found, List.filter (network_matches n) l with
    | None, [] => Ok None
    | None, [net] | Some net, [] => Ok (Some net)
    | _, _ => Err (Conflict (errors_New "network %s is ambiguous"))
    end.
Proof.
  revert found. induction l as [|net l IH]; intros found; simpl; [by destruct found|].
  destruct (network_matches n net); simpl; [|apply IH].
  destruct found; [done|]. rewrite IH. by destruct (List.filter _ l).
Qed.

(** The network was listed in the namespace, and is the only match. *)
Definition matched_network (ns nameOrID : string) (net : DockerNetwork) (h : hist) : Prop :=
  nameOrID ≠ "" ∧ ∃ l, Event _ (KList KDockerNetwork ns "") (Ok l) ∈ h ∧ only_match nameOrID l net.

Lemma findNetwork_listed `{NetworkOrder} R id n h :
  wp R any_command (findNetwork (Some id) n) h (λ h' r,
    match r with Ok net => matched_network (id_namespace id) n net h' | Err _ => True end).
Proof.
  unfold findNetwork, networkList. cbn [networkNamespace]. rewrite !wp_bind_res, wp_call.
  split; [done|]. intros [l|e] _; [|done]. rewrite wp_bind_res.
  match goal with |- wp _ _ _ ?h0 _ => set (hl := h0) end.
  eapply wp_post; [|apply wp_suffix, wp_any]. intros h1 [created|e] [_ Hs]; [|done].
  assert (∀ l' h2, Event _ (KList KDockerNetwork (id_namespace id) "") (Ok l') ∈ h2 →
    wp R any_command (match find_network n None l' with
      | Err e => Ret (Err e) | Ok None => Ret (Err network_not_found)
      | Ok (Some obj) => if decide (n = "") then Ret (Err network_not_found) else Ret (Ok obj) end) h2
      (λ h' r, match r with Ok net => matched_network (id_namespace id) n net h' | Err _ => True end)) as Hfind.
  { intros l' h2 Hin. rewrite find_network_spec.
    destruct (List.filter _ l') as [|net [|net' rest]] eqn:E; try by rewrite wp_ret.
    destruct (decide (n = "")); rewrite wp_ret; [done|]. split; [done|]. by exists l'. }
  destruct created.
  - rewrite wp_call. split; [done|]. intros [l'|e] _; [|done]. apply Hfind. by left.
  - rewrite wp_ret. apply Hfind. destruct Hs as [pre ->]. apply elem_of_app. right. by left.
Qed.

(** The network that is found: listed in the namespace, and the only match. *)
Definition found_network (ns nameOrID : string) (net : DockerNetwork) (h : hist) : Prop :=
  nameOrID ≠ "" ∧ Namespace (net_meta net) = ns ∧
  ∃ l, Event _ (KList KDockerNetwork ns "") (Ok l) ∈ h ∧ only_match nameOrID l net.

Section finding_networks.
Context `{NetworkOrderLaws}.

Definition find_result (ns nameOrID : string) (h : hist) (r : res DockerNetwork) : Prop :=
  match r with Ok net => found_network ns nameOrID net h | Err _ => True end.

Lemma findNetwork_wp id n h :
  wp api_rely (network_reads (id_namespace id)) (findNetwork (Some id) n) h
    (find_result (id_namespace id) n).
Proof.
  unfold findNetwork. rewrite wp_bind_res. eapply wp_post; [|apply networkList_wp].
  intros h1 [l|e]; [|done]. intros [Hin Hns]. rewrite find_network_spec.
  destruct (List.filter _ l) as [|net [|net' l']] eqn:E; try by rewrite wp_ret.
  destruct (decide (n = "")); rewrite wp_ret; [done|].
  split_and!; [done| |by exists l]. apply Hns, list_elem_of_In.
  apply (proj1 (List.filter_In (network_matches n) net l)). rewrite E. by left.
Qed.

(** Finding a network is confined and unambiguous.  [findNetwork] reads only
    the namespace of the identity, creates nothing but missing builtin networks
    and their policies, and deletes nothing; the network it returns is the only
    one of the listed networks that has the requested name or an identifier that
    starts with the requested text.  A name that is also the beginning of
    another network's identifier is therefore refused as ambiguous. *)
Theorem findNetwork_unambiguous n :
  (∀ ctx h h' r, exec (findNetwork ctx n) h h' r → answered api_rely h h' →
   match ctx with
   | Some id => guarded (network_reads (id_namespace id)) h h' ∧
                find_result (id_namespace id) n h' r
   | None => h' = h ∧ ∃ e, r = Err e ∧ kind_of e = Some KindUnauthenticated
   end) ∧
  (∀ l net other, net ∈ l → other ∈ l → net ≠ other → net_name net = n →
     HasPrefix (DockerIDFromUID (UID (net_meta other))) n = true →
     ∃ e, find_network n None l = Err e ∧ kind_of e = Some KindConflict).
Proof.
  split.
  - intros ctx h h' r Hex Hans. destruct ctx as [id|].
    + by destruct (wp_exec _ _ _ _ _ _ _ (findNetwork_wp id n h) Hex Hans).
    + apply exec_inv in Hex as [-> ->]. split; [done|]. by eexists.
  - intros l net other Hnet Hother Hne Hname Hid. rewrite find_network_spec.
    assert (∀ o, o ∈ l → network_matches n o = true → o ∈ List.filter (network_matches n) l) as Hf.
    { intros o Ho Hm. apply list_elem_of_In, List.filter_In. by rewrite <- list_elem_of_In. }
    assert (network_matches n net = true) as Hm1.
    { unfold network_matches. apply orb_true_iff. left. by apply bool_decide_eq_true. }
    assert (network_matches n other = true) as Hm2.
    { unfold network_matches. apply orb_true_iff. by right. }
    apply Hf in Hm1, Hm2; [|done..].
    destruct (List.filter _ l) as [|o1 [|o2 rest]]; [set_solver| |by eexists].
    apply list_elem_of_singleton in Hm1, Hm2. congruence.
Qed.
End finding_networks.

(** ** Properties: removing networks *)

Lemma existsb_false_elem {A} (f : A → bool) l x : existsb f l = false → x ∈ l → f x = false.
Proof.
  intros Hf Hx. apply not_true_iff_false. intros Ht. apply not_true_iff_false in Hf.
  apply Hf, existsb_exists. exists x. by rewrite <- list_elem_of_In.
Qed.

Lemma template_attached_false label (labels : smap) meta :
  template_attached label labels meta = false → is_Some (labels !! label) →
  DeletionTimestamp meta ≠ None.
Proof.
  unfold template_attached. rewrite andb_false_iff, !bool_decide_eq_false. naive_solver.
Qed.

Section removing.
Context `{NetworkOrderLaws}.

Lemma networkInUse_wp ns P (net : DockerNetwork) h :
  Namespace (net_meta net) = ns →
  wp any_answer (network_requests ns P) (networkInUse net) h (λ h' r,
    h `suffix_of` h' ∧ (r = Ok false → unattached net h')).
Proof.
  intros Hns. unfold networkInUse. cbv zeta. rewrite Hns.
  rewrite wp_bind_res, wp_call. split; [done|]. intros [ds|e] _.
  2: { split; [by apply suffix_cons_r|done]. }
  destruct (existsb _ ds) eqn:Ed; [rewrite wp_ret; by split; [apply suffix_cons_r|]|].
  rewrite wp_bind_res, wp_call. split; [done|]. intros [js|e] _.
  2: { split; [by do 2 apply suffix_cons_r|done]. }
  destruct (existsb _ js) eqn:Ej; [rewrite wp_ret; by split; [do 2 apply suffix_cons_r|]|].
  rewrite wp_bind_res, wp_call. split; [done|]. intros [pods|e] _.
  2: { split; [by do 3 apply suffix_cons_r|done]. }
  rewrite wp_ret. split; [by do 3 apply suffix_cons_r|]. intros [= Ep].
  unfold unattached. rewrite Hns. exists ds, js, pods, h. split_and!; [done|..].
  - intros d Hd. eapply template_attached_false, (existsb_false_elem _ _ _ Ed Hd).
  - intros j Hj. eapply template_attached_false, (existsb_false_elem _ _ _ Ej Hj).
  - intros pod Hpod Hdel. pose proof (existsb_false_elem _ _ _ Ep Hpod) as Hf. cbv beta in Hf.
    rewrite bool_decide_true in Hf by done. simpl in Hf.
    by apply negb_false_iff, bool_decide_eq_true in Hf.
Qed.

Lemma delete_network_wp R ns (P : DockerNetwork → hist → Prop) (net : DockerNetwork) h Q :
  Namespace (net_meta net) = ns → listed_network ns net h → is_builtin (net_name net) = false →
  unattached net h → P net h → (∀ r, Q (Event _ (KDelete KDockerNetwork ns (Name (net_meta net))
    {| Precondition_UID := Some (UID (net_meta net)); Precondition_ResourceVersion := None;
       GracePeriodSeconds := None; PropagationPolicy := None |}) r :: h) r) →
  wp R (network_requests ns P) (delete_network net) h Q.
Proof.
  intros Hns Hl Hb Hu HP HQ. unfold delete_network. rewrite wp_call, Hns.
  split; [|by intros r _]. split_and!; [done..|]. exists net. by split_and!.
Qed.

Definition network_deleted (ns : string) (net : DockerNetwork) (h : hist) : Prop :=
  ∃ opts, Event _ (KDelete KDockerNetwork ns (Name (net_meta net)) opts) (Ok tt) ∈ h.

Definition delete_result (ns n : string) (h : hist) (r : res unit) : Prop :=
  r = Ok tt → ∃ net, found_network ns n net h ∧ network_deleted ns net h.

Lemma DeleteNetwork_wp id n h :
  let ns := id_namespace id in
  wp api_rely (network_requests ns (found_network ns n)) (DeleteNetwork (Some id) n) h
    (delete_result ns n).
Proof.
  intros ns. unfold DeleteNetwork. rewrite wp_bind_res.
  eapply wp_mono; [by intros; apply network_reads_any| |apply findNetwork_wp].
  intros h1 [net|e]; [|done]. intros Hfound.
  destruct (is_builtin _) eqn:Hb; [by rewrite wp_ret|].
  assert (∀ h2, h1 `suffix_of` h2 → found_network ns n net h2 ∧ listed_network ns net h2) as Hkeep.
  { intros h2 [pre ->]. destruct Hfound as (? & ? & l & Hin & Hl). split.
    - split_and!; [done..|]. exists l. split; [|done]. set_solver.
    - exists l. split; [set_solver|]. apply list_elem_of_In.
      apply (proj1 (List.filter_In (network_matches n) net l)). rewrite Hl. by left. }
  pose proof Hfound as (_ & Hns & _).
  rewrite wp_bind_res. apply (wp_rely any_answer); [done|].
  eapply wp_post; [|by apply (networkInUse_wp ns)].
  intros h2 [[]|e] [Hs Hu]; try by rewrite ?wp_ret. specialize (Hu eq_refl).
  destruct (Hkeep _ Hs) as [? ?]. rewrite wp_bind. apply (delete_network_wp _ ns); [done..|].
  intros [[]|e]; rewrite wp_ret; [|by destruct (IsNotFound e)]. intros _. exists net. split.
  - apply Hkeep. by apply suffix_cons_r.
  - eexists. apply list_elem_of_here.
Qed.

(** What the filters of a prune select. *)
Definition prunable (f : Args) (before : option Z) (net : DockerNetwork) : Prop :=
  MatchKVList f "label" (default ∅ (net_labels net)) = true ∧
  matchExcludedLabels (Get f "label!") (default ∅ (net_labels net)) = true ∧
  ∀ t, before = Some t → (CreationTimestamp (net_meta net) ≤ t)%Z.

Definition prune_result (ns : string) (h : hist) (r : list string * res unit) : Prop :=
  ∀ name, name ∈ r.1 → ∃ net, net_name net = name ∧ network_deleted ns net h.

Lemma network_deleted_suffix ns net h h' :
  h `suffix_of` h' → network_deleted ns net h → network_deleted ns net h'.
Proof. intros [pre ->] [opts Hin]. exists opts. set_solver. Qed.

Lemma prune_result_suffix ns h h' r :
  h `suffix_of` h' → prune_result ns h r → prune_result ns h' r.
Proof.
  intros Hs Hr name Hin. destruct (Hr name Hin) as (net & ? & ?). exists net.
  split; [done|]. by eapply network_deleted_suffix.
Qed.

Lemma prune_networks_wp ns f before deleted l h :
  (∀ net, net ∈ l → Namespace (net_meta net) = ns ∧ listed_network ns net h) →
  prune_result ns h (deleted, Ok tt) →
  wp any_answer (network_requests ns (λ net _, prunable f before net))
    (prune_networks f before deleted l) h (prune_result ns).
Proof.
  revert deleted h. induction l as [|net l IH]; intros deleted h Hl Hdel; [by apply wp_ret|].
  cbn [prune_networks].
  assert (∀ deleted h', h `suffix_of` h' → prune_result ns h' (deleted, Ok tt) →
    wp any_answer (network_requests ns (λ net _, prunable f before net))
      (prune_networks f before deleted l) h' (prune_result ns)) as Hrest.
  { intros deleted' h' Hs Hd. apply IH; [|done]. intros net' Hin.
    destruct (Hl net') as [? ?]; [set_solver|]. split; [done|]. by eapply listed_suffix. }
  destruct (is_builtin _) eqn:Hb; [by apply Hrest|].
  destruct (_ || _) eqn:Hf; [by apply Hrest|].
  rewrite !orb_false_iff, !negb_false_iff in Hf. destruct Hf as [[Hm Hx] Ht].
  destruct (Hl net) as [Hns Hlisted]; [set_solver|].
  rewrite wp_bind. eapply wp_post; [|by apply (networkInUse_wp ns)].
  intros h1 [[]|e] [Hs Hu]; [by apply Hrest, (prune_result_suffix _ h)| |].
  2: { rewrite wp_ret. by eapply prune_result_suffix. }
  specialize (Hu eq_refl). rewrite wp_bind. apply (delete_network_wp _ ns); try done.
  - by eapply listed_suffix.
  - split_and!; [done..|]. intros t ->. by apply Z.ltb_ge in Ht.
  - intros [[]|e]; [|rewrite wp_ret; eapply prune_result_suffix, Hdel; by apply suffix_cons_r].
    apply Hrest; [by apply suffix_cons_r|]. intros name. simpl.
    rewrite elem_of_app, list_elem_of_singleton. intros [Hin| ->].
    + destruct (Hdel name Hin) as (net' & ? & ?). exists net'. split; [done|].
      eapply network_deleted_suffix; [|done]. by apply suffix_cons_r.
    + exists net. split; [done|]. eexists. apply list_elem_of_here.
Qed.

(** networks are removed only when that is safe.  [DeleteNetwork] and
    [NetworkPrune] delete, by UID, only networks of the identity's namespace that
    were listed there, that are not predefined, and for which the three listings
    directly before the deletion showed no workload that carries the network's
    label and is not being deleted, nor a foreign Pod; the first deletes only the
    one unambiguous match of its argument, the second only what its filters
    select.  A successful removal did delete that network, and a prune reports
    only networks it deleted. *)
Theorem network_removal_is_safe `{TimeParse} id :
  let ns := id_namespace id in
  (∀ n h h' r, exec (DeleteNetwork (Some id) n) h h' r → answered api_rely h h' →
     guarded (network_requests ns (found_network ns n)) h h' ∧ delete_result ns n h' r) ∧
  (∀ now f before h h' r, pruneBefore now (Get f "until") = Ok before →
     exec (NetworkPrune (Some id) now f) h h' r → answered api_rely h h' →
     guarded (network_requests ns (λ net _, prunable f before net)) h h' ∧
     prune_result ns h' r).
Proof.
  intros ns. split.
  - intros n h h' r Hex Hans.
    by destruct (wp_exec _ _ _ _ _ _ _ (DeleteNetwork_wp id n h) Hex Hans).
  - intros now f before h h' r Hb Hex Hans. apply and_comm. revert Hex Hans. apply wp_exec.
    unfold NetworkPrune. rewrite Hb. destruct (negb _); [by apply wp_ret; intros ? Hin%elem_of_nil|].
    rewrite wp_bind. eapply wp_mono; [by intros; apply network_reads_any| |apply networkList_wp].
    intros h1 [l|e]; [|by intros _ name Hname%elem_of_nil]. intros [Hin Hns].
    apply (wp_rely any_answer); [done|]. apply prune_networks_wp.
    + intros net Hnet. split; [by apply Hns|]. by exists l.
    + by intros name Hname%elem_of_nil.
Qed.
End removing.

(** ** Properties: membership *)

Definition same_but (key : string) (l l' : smap) : Prop := delete key l = delete key l'.

(** A Pod template with only the given label changed. *)
Definition same_template (label : string) (t t' : PodTemplateSpec) : Prop :=
  same_but label (Pod_Labels t) (Pod_Labels t') ∧
  Pod_Annotations t = Pod_Annotations t' ∧ Pod_Spec t = Pod_Spec t'.

(** Metadata with only the alias annotation changed. *)
Definition same_meta (m m' : ObjectMeta) : Prop :=
  same_but containerAliasAnnotation (Annotations m) (Annotations m') ∧
  m' = meta_set_annotations (Annotations m') m.

(** Every update of a workload directly follows a read of the container's own
    object and changes at most the membership label and the alias annotation; no
    workload is created or deleted. *)
Definition membership_writes (w : containerWorkload) (label : string) : guard (cmd := cmd) :=
  λ h X c,
  match c with
  | KUpdate k ns o =>
      match k return obj k → Prop with
      | KDeployment => λ o, ∃ h0 current,
          h = Event _ (KGet KDeployment (Namespace w) (Name w)) (Ok current) :: h0 ∧
          UID (dep_meta current) = UID w ∧ same_meta (dep_meta current) (dep_meta o) ∧
          same_template label (dep_Template current) (dep_Template o) ∧
          Replicas o = Replicas current
      | KJob => λ o, ∃ h0 current,
          h = Event _ (KGet KJob (Namespace w) (Name w)) (Ok current) :: h0 ∧
          UID (job_meta current) = UID w ∧ same_meta (job_meta current) (job_meta o) ∧
          same_template label (job_Template current) (job_Template o) ∧
          Suspend o = Suspend current
      | KService => λ _, True
      | _ => λ _, False
      end o
  | KCreate k _ _ | KDelete k _ _ _ => k = KService
  | _ => True
  end.

(** The latest event stored the container's object with the given membership. *)
Definition stored_membership (w : containerWorkload) (label : string) (member : bool) (h : hist) :
    Prop :=
  (OneShot w = false ∧ ∃ ns (o d : Deployment) h0,
     h = Event _ (KUpdate KDeployment ns o) (Ok d) :: h0 ∧
     is_member label (Pod_Labels (dep_Template o)) = member) ∨
  (OneShot w = true ∧ Started w = false ∧ ∃ ns (o j : Job) h0,
     h = Event _ (KUpdate KJob ns o) (Ok j) :: h0 ∧
     is_member label (Pod_Labels (job_Template o)) = member).

Lemma same_but_refl key l : same_but key l l.
Proof. done. Qed.
Lemma same_but_insert key v l : same_but key l (<[key := v]> l).
Proof. unfold same_but. by rewrite delete_insert_eq. Qed.
Lemma same_but_delete key l : same_but key l (delete key l).
Proof. unfold same_but. by rewrite delete_delete_eq. Qed.
Lemma same_meta_refl m : same_meta m m.
Proof. split; [done|]. by destruct m. Qed.
Lemma same_template_refl label t : same_template label t t.
Proof. done. Qed.

Lemma is_member_insert label labels : is_member label (<[label := "true"]> labels) = true.
Proof. unfold is_member, mget. rewrite lookup_insert_eq. by apply bool_decide_eq_true. Qed.
Lemma is_member_delete label labels : is_member label (delete label labels) = false.
Proof. unfold is_member, mget. rewrite lookup_delete_eq. by apply bool_decide_eq_false. Qed.

(** Splits a program along its structure; the guard allows each of its commands. *)
Ltac safe_step :=
  match goal with
  | |- ∀ _, _ => intro
  | |- safe _ _ (bind_res _ _) _ => apply safe_bind_res
  | |- safe _ _ (bind _ _) _ => apply safe_bind
  | |- safe _ _ (for_each _ _) _ => apply safe_for_each
  | |- safe _ _ (Ret _) _ => apply safe_ret
  | |- safe _ _ (call _) _ => apply safe_call; solve [exact I | reflexivity]
  | |- safe _ _ (match ?x with _ => _ end) _ => destruct x
  | |- safe _ _ (let _ := _ in _) _ => cbv zeta
  end.

Section membership.
Context `{Validation} `{DockerJSON} `{RetryLaws}.

Lemma recreate_template current d : dep_Template (recreate_if_changed current d) = dep_Template d.
Proof. unfold recreate_if_changed. by destruct (decide _). Qed.
Lemma recreate_meta current d : dep_meta (recreate_if_changed current d) = dep_meta d.
Proof. unfold recreate_if_changed. by destruct (decide _). Qed.
Lemma recreate_replicas current d : Replicas (recreate_if_changed current d) = Replicas d.
Proof. unfold recreate_if_changed. by destruct (decide _). Qed.

Lemma applyAliasServices_membership w label aliases ports h :
  safe any_answer (membership_writes w label) (applyAliasServices w aliases ports) h.
Proof.
  unfold applyAliasServices, apply_alias, deleteOwnedService.
  repeat safe_step.
Qed.

Lemma setContainerAliases_membership w label aliases h :
  safe any_answer (membership_writes w label) (setContainerAliases w aliases) h.
Proof.
  unfold setContainerAliases. destruct (encodeContainerAliases aliases) as [encoded|]; [|apply safe_ret].
  destruct (workloadPublishedPorts w); [|apply safe_ret].
  apply safe_bind_res; [apply applyAliasServices_membership|]. intros h1 _ _.
  set (mutate := λ annotations : smap, _).
  assert (∀ m, same_meta m (meta_set_annotations (mutate (Annotations m)) m)) as Hm.
  { intros m. split; [|done]. simpl. unfold mutate.
    destruct (decide _); [apply same_but_delete|apply same_but_insert]. }
  unfold updateWorkloadAnnotations. destruct (OneShot w).
  - eapply safe_mono; [|apply updateContainerJob_wp]. intros h2 X c. destruct c; try done.
    destruct k; try done. intros (h0 & current & -> & ? & ? & [= <-]).
    exists h0, current. split_and!; [done|done|apply Hm|done|done].
  - apply safe_bind_res; [|intros; apply safe_ret].
    eapply safe_mono; [|apply updateContainerDeployment_wp]. intros h2 X c. destruct c; try done.
    destruct k; try done. intros (h0 & current & mutated & -> & ? & ? & [= <-] & ->).
    exists h0, current. rewrite recreate_meta, recreate_template, recreate_replicas.
    split_and!; [done|done|apply Hm|done|done].
Qed.

Lemma updateNetworkLabels_wp w label member mutate h :
  (∀ labels, same_but label labels (mutate labels)) →
  (∀ labels, is_member label (mutate labels) = member) →
  wp any_answer (membership_writes w label) (updateNetworkLabels w mutate) h (λ h' r,
    r = Ok tt → stored_membership w label member h').
Proof.
  intros Hsame Hmem. unfold updateNetworkLabels. destruct (OneShot w) eqn:Eo.
  - destruct (Started w) eqn:Es; [done|]. unfold updateContainerJob. rewrite wp_bind.
    apply (RetryOnConflict_wp _ _ _ _ _ (λ _, True)); [done|]. intros h0 _.
    unfold update_job_once. rewrite wp_bind_res, wp_call. split; [done|].
    intros [current|e] _; [|by rewrite wp_ret].
    destruct (decide _) as [Hne|He]; [by rewrite !wp_ret|]. apply dec_stable in He.
    rewrite wp_call. split.
    { exists h0, current. split_and!; try done; apply same_meta_refl. }
    intros [j|e] _; rewrite wp_ret; [|done]. split; [|done]. intros _. right.
    split_and!; [done..|]. eexists _, _, j, _. split; [done|apply Hmem].
  - rewrite wp_bind_res. unfold updateContainerDeployment. rewrite wp_bind.
    apply (RetryOnConflict_wp _ _ _ _ _ (λ _, True)); [done|]. intros h0 _.
    unfold update_deployment_once. rewrite wp_bind_res, wp_call. split; [done|].
    intros [current|e] _; [|by rewrite wp_ret].
    destruct (decide _) as [Hne|He]; [by rewrite !wp_ret|]. apply dec_stable in He.
    rewrite wp_call. split.
    { exists h0, current. rewrite recreate_meta, recreate_template, recreate_replicas.
      split_and!; try done; apply same_meta_refl. }
    intros [d|e] _; rewrite wp_ret; [|done]. split; [|done]. intros _. left. split; [done|].
    eexists _, _, d, _. split; [done|]. rewrite recreate_template. apply Hmem.
Qed.

(** What a method that makes the container a member, or not, leaves behind. *)
Definition membership_result w label (member : bool) (h : hist) (r : res unit) : Prop :=
  r = Ok tt →
  is_member label (Pod_Labels (Template w)) = member ∨ stored_membership w label member h.

Lemma set_aliases_then w label aliases h (Q : hist → res unit → Prop) (k : proc (res unit)) :
  (∀ h e, Q h (Err e)) → (∀ h, wp any_answer (membership_writes w label) k h Q) →
  wp any_answer (membership_writes w label)
    (do? _ <- setContainerAliases w aliases; k) h Q.
Proof.
  intros He Hk. rewrite wp_bind_res.
  eapply safe_wp; [|apply setContainerAliases_membership]. intros h' [[]|e] _; auto.
Qed.

Lemma connect_found_wp w aliases obj h :
  wp any_answer (membership_writes w (member_label obj)) (connect_found w aliases obj) h
    (membership_result w (member_label obj) true).
Proof.
  unfold connect_found. cbv zeta. set (label := member_label obj).
  set (k := if is_member label _ then _ else _).
  assert (∀ h, wp any_answer (membership_writes w label) k h (membership_result w label true)) as Hk.
  { intros h1. unfold k. destruct (is_member _ _) eqn:Em; [by rewrite wp_ret; left|].
    eapply wp_post; [|apply (updateNetworkLabels_wp w label true);
      [intros; apply same_but_insert|apply is_member_insert]].
    intros h2 r Hr Hok. right. by apply Hr. }
  destruct (decide _); [apply Hk|].
  destruct (aliasesFromEndpoints _); [|by rewrite wp_bind_res, wp_ret].
  destruct (decodeContainerAliases _); [|by rewrite wp_bind_res, wp_ret].
  by apply set_aliases_then.
Qed.

Lemma disconnect_found_wp w force obj h :
  wp any_answer (membership_writes w (member_label obj)) (disconnect_found w force obj) h
    (membership_result w (member_label obj) false).
Proof.
  unfold disconnect_found. cbv zeta. set (label := member_label obj).
  destruct (is_member label _) eqn:Em; cbn [negb].
  2: { destruct force; rewrite wp_ret; [by left|done]. }
  assert (∀ h, wp any_answer (membership_writes w label)
            (updateNetworkLabels w (λ labels, delete label labels)) h
            (membership_result w label false)) as Hk.
  { intros h1. eapply wp_post; [|apply (updateNetworkLabels_wp w label false);
      [intros; apply same_but_delete|apply is_member_delete]].
    intros h2 r Hr Hok. right. by apply Hr. }
  destruct (decodeContainerAliases _) as [current|]; [|done].
  destruct (current !! _); [by apply set_aliases_then|apply Hk].
Qed.

(** A new member of a network is seen by [networkInUse]. *)
Lemma member_attached label labels meta :
  is_member label labels = true → DeletionTimestamp meta = None →
  template_attached label labels meta = true.
Proof.
  unfold is_member, mget, template_attached. intros Hm%bool_decide_eq_true Hd.
  apply andb_true_iff. rewrite !bool_decide_eq_true. split; [|done].
  destruct (labels !! label); [done|discriminate].
Qed.

Context `{NetworkOrder}.

Lemma neutral_networkList st ctx : neutral st (networkList ctx).
Proof.
  unfold networkList. destruct (networkNamespace ctx) as [ns|]; [|apply neutral_ret].
  apply neutral_bind_res; [neutral_auto|]. intros l. apply neutral_bind_res; [|neutral_auto].
  unfold ensureBuiltinNetworks. generalize false, ((λ o, Name (net_meta o)) <$> l).
  intros created existing. revert created.
  induction range_builtins as [|[name driver] b IH]; intros created; [apply neutral_ret|].
  cbn [create_builtins]. destruct (slices_Contains _ _); [apply IH|].
  apply neutral_bind; [by apply neutral_call|]. intros [net|e].
  - apply neutral_bind_res; [|intros; apply IH]. unfold ensureNetworkPolicy, create_policy.
    neutral_auto.
  - destruct (negb _); [apply neutral_ret|apply IH].
Qed.

Lemma neutral_findNetwork st ctx n : neutral st (findNetwork ctx n).
Proof.
  unfold findNetwork. apply neutral_bind_res; [apply neutral_networkList|]. neutral_auto.
Qed.

Lemma neutral_updateNetworkLabels st w mutate :
  may_write st KDeployment = true → neutral st (updateNetworkLabels w mutate).
Proof.
  intros Hst. unfold updateNetworkLabels. destruct (OneShot w); [destruct (Started w)|].
  - apply neutral_ret.
  - by apply neutral_updateContainerJob.
  - apply neutral_bind_res; [by apply neutral_updateContainerDeployment|]. neutral_auto.
Qed.

Lemma neutral_setContainerAliases st w aliases :
  holds_mutex st containerNameMu = true → neutral st (setContainerAliases w aliases).
Proof.
  intros Hst. assert (may_write st KDeployment = true) as Hw
    by (cbn; rewrite Hst; apply orb_true_r).
  unfold setContainerAliases. destruct (encodeContainerAliases _); [|apply neutral_ret].
  destruct (workloadPublishedPorts _); [|apply neutral_ret].
  apply neutral_bind_res; [by apply neutral_applyAliasServices|]. intros _.
  unfold updateWorkloadAnnotations. destruct (OneShot w); [by apply neutral_updateContainerJob|].
  apply neutral_bind_res; [by apply neutral_updateContainerDeployment|]. neutral_auto.
Qed.

Lemma neutral_membership {A} ctx name (body : containerWorkload → DockerNetwork → proc (res A)) n :
  (∀ st w obj, holds_mutex st containerNameMu = true → neutral st (body w obj)) →
  neutral [] (with_container ctx name (λ w,
    with_mutex containerNameMu (do? obj <- findNetwork ctx n; body w obj))).
Proof.
  intros Hbody. apply neutral_with_container; [done|]. intros w key.
  apply neutral_with_mutex; [done|]. apply neutral_bind_res; [apply neutral_findNetwork|].
  intros obj. apply Hbody. unfold holds_mutex. apply bool_decide_eq_true. set_solver.
Qed.

(** connecting and disconnecting change membership and nothing else.  With
    the network found, both methods update only the container's own object, each
    time directly after reading it, and change at most the network's membership
    label of the Pod template and the alias annotation (replicas, Pod spec and
    all other labels and annotations stay); when they succeed, the container
    already had the membership that was asked for or an object with it was
    stored last.  A stored member is what [networkInUse] counts as attached.
    Both methods follow the locking discipline and return without any lock. *)
Theorem network_membership_updates :
  (∀ w aliases obj h h' r, exec (connect_found w aliases obj) h h' r →
     guarded (membership_writes w (member_label obj)) h h' ∧
     membership_result w (member_label obj) true h' r) ∧
  (∀ w force obj h h' r, exec (disconnect_found w force obj) h h' r →
     guarded (membership_writes w (member_label obj)) h h' ∧
     membership_result w (member_label obj) false h' r) ∧
  (∀ label labels meta, is_member label labels = true → DeletionTimestamp meta = None →
     template_attached label labels meta = true) ∧
  (∀ ctx n name endpoint, neutral [] (ConnectContainerToNetwork ctx n name endpoint)) ∧
  (∀ ctx n name force, neutral [] (DisconnectContainerFromNetwork ctx n name force)).
Proof.
  assert (∀ h h' : hist, h `suffix_of` h' → answered any_answer h h') as Hany
    by (intros; by apply along_any).
  split_and!.
  - intros w aliases obj h h' r Hex.
    by destruct (wp_exec _ _ _ _ _ _ _ (connect_found_wp w aliases obj h) Hex
      (Hany _ _ (exec_suffix _ _ _ _ Hex))).
  - intros w force obj h h' r Hex.
    by destruct (wp_exec _ _ _ _ _ _ _ (disconnect_found_wp w force obj h) Hex
      (Hany _ _ (exec_suffix _ _ _ _ Hex))).
  - apply member_attached.
  - intros ctx n name endpoint. unfold ConnectContainerToNetwork.
    destruct (endpoint_request endpoint); [|apply neutral_ret].
    apply neutral_membership. intros st w obj Hst. unfold connect_found. cbv zeta.
    assert (may_write st KDeployment = true) by (cbn; rewrite Hst; apply orb_true_r).
    apply neutral_bind_res; [destruct (decide _)|]; neutral_auto;
      by (apply neutral_setContainerAliases || apply neutral_updateNetworkLabels).
  - intros ctx n name force. apply neutral_membership. intros st w obj Hst.
    assert (may_write st KDeployment = true) by (cbn; rewrite Hst; apply orb_true_r).
    unfold disconnect_found. neutral_auto;
      by (apply neutral_setContainerAliases || apply neutral_updateNetworkLabels).
Qed.
End membership.

(** ** Witnesses *)

Definition demo_network_order : NetworkOrder := {| range_builtins := map_to_list builtinNetworkDrivers |}.

Lemma demo_network_order_laws : @NetworkOrderLaws demo_network_order.
Proof. by split. Qed.

Definition no_time : TimeParse := {|
  Parse_RFC3339Nano _ := None; ParseFloat_seconds _ := None; ParseDuration _ := None |}.

Definition sample_network (name uid : string) : DockerNetwork := {|
  net_meta := sample_meta "acme" (networkObjectName name) uid; net_name := name;
  net_driver := Some "bridge"; net_labels := None; net_attachable := None |}.

(** The tenant has one network of its own; no container is connected to it. *)
Definition network_cluster : cluster :=
  set_db KDockerNetwork [sample_network "backend" "be01"] sample_cluster.

(** The prefix [be] names the network [backend], also with the builtin networks. *)
Lemma findNetwork_unambiguous_witness :
  let p := @findNetwork demo_network_order (Some acme_identity) "be" in
  (simulate p network_cluster).1.1 = Ok (sample_network "backend" "be01") ∧
  find_result "acme" "be" (simulate p network_cluster).1.2 (Ok (sample_network "backend" "be01")) ∧
  ∃ e, find_network "be" None [sample_network "be" "00"; sample_network "x" "be01"] = Err e ∧
       kind_of e = Some KindConflict.
Proof.
  intros p.
  pose proof (@findNetwork_unambiguous demo_network_order demo_network_order_laws "be") as [Hrun Hamb].
  pose proof (Hrun _ _ _ _ (simulate_exec p network_cluster) (simulate_answered p network_cluster)) as [_ Hr].
  assert ((simulate p network_cluster).1.1 = Ok (sample_network "backend" "be01")) as He
    by (vm_compute; reflexivity).
  fold p in Hr. rewrite He in Hr. split_and!; [exact He|exact Hr|].
  apply (Hamb _ (sample_network "be" "00") (sample_network "x" "be01"));
    [apply list_elem_of_here|apply list_elem_of_further, list_elem_of_here| |vm_compute; reflexivity..].
  intros Heq%(f_equal net_name). change ("be" = "x") in Heq. discriminate Heq.
Defined.

(** Nothing is connected to [backend]: it is deleted, and it is what a prune deletes. *)
Lemma network_removal_is_safe_witness :
  let p := @DeleteNetwork demo_network_order (Some acme_identity) "backend" in
  let q := @NetworkPrune demo_network_order no_time (Some acme_identity) 9 (NewArgs []) in
  (simulate p network_cluster).1.1 = Ok tt ∧
  guarded (network_requests "acme" (found_network "acme" "backend")) []
    (simulate p network_cluster).1.2 ∧
  (simulate q network_cluster).1.1 = (["backend"], Ok tt) ∧
  prune_result "acme" (simulate q network_cluster).1.2 (["backend"], Ok tt).
Proof.
  intros p q.
  pose proof (@network_removal_is_safe demo_network_order demo_network_order_laws no_time
                acme_identity) as [Hd Hp].
  assert ((simulate q network_cluster).1.1 = (["backend"], Ok tt)) as Hq
    by (vm_compute; reflexivity).
  split_and!.
  - vm_compute; reflexivity.
  - exact (proj1 (Hd _ _ _ _ (simulate_exec p network_cluster) (simulate_answered p network_cluster))).
  - exact Hq.
  - rewrite <- Hq.
    exact (proj2 (Hp 9%Z (NewArgs []) None _ _ _ eq_refl (simulate_exec q network_cluster)
      (simulate_answered q network_cluster))).
Defined.

(** The container [web] joins [backend] and leaves it again. *)
Lemma network_membership_updates_witness :
  let w := deploymentWorkload (sample_deployment "acme" "web" "3f25-04e0" 1) in
  let net := sample_network "backend" "be01" in
  let p := @connect_found demo_validation demo_docker_json demo_retry w ["api"] net in
  (simulate p network_cluster).1.1 = Ok tt ∧
  membership_result w (member_label net) true (simulate p network_cluster).1.2 (Ok tt).
Proof.
  intros w net p.
  pose proof (proj1 (@network_membership_updates demo_validation demo_docker_json demo_retry
    demo_retry_laws demo_network_order) w ["api"] net _ _ _ (simulate_exec p network_cluster)) as [_ Hr].
  assert ((simulate p network_cluster).1.1 = Ok tt) as He by (vm_compute; reflexivity).
  fold p in Hr. rewrite He in Hr. split; [exact He|exact Hr].
Defined.
