(* ===== verification/Isolation.v ===== *)
(** * Isolation: what the network policies of a namespace let through

    [ingress_allowed] is the documented meaning of network policies where the
    cluster enforces them: a Pod that no ingress policy of its namespace selects
    accepts everything; otherwise a connection is accepted exactly if a rule of a
    policy that selects the Pod admits both its source and its port.  Pods on the
    host's network are outside of policies.  The theorems are about the policies that [Networks]
    writes and when it writes them. *)

From S2P Require Import Prelude GoStrings Sha256 Errors Prog Kube Cluster Filters Docker.
From S2P Require Import Validation Networks.

Local Open Scope string_scope.

(** ** The meaning of policies *)

(** What a policy can tell of a Pod.  A Pod on the host's network has the addresses
    of its node: no Pod selector finds it, and policies do not apply to it
    ([docs/docker-api-conformance.md]). *)
Record endpoint := { ep_Namespace : string; ep_Labels : smap; ep_HostNetwork : bool }.

(** [MatchLabels]: every pair of the selector is among the labels. *)
Definition label_match (selector labels : smap) : bool := bool_decide (selector ⊆ labels).

(** A Pod selector of a policy of [namespace] means Pods of that namespace. *)
Definition pod_match (namespace : string) (selector : smap) (pod : endpoint) : bool :=
  negb (ep_HostNetwork pod) && bool_decide (ep_Namespace pod = namespace) &&
  label_match selector (ep_Labels pod).

Definition rule_admits (namespace : string) (src : endpoint) (port : string * Z)
    (rule : IngressRule) : bool :=
  (bool_decide (From rule = []) || existsb (λ peer, pod_match namespace peer src) (From rule)) &&
  (bool_decide (Rule_Ports rule = []) || bool_decide (port ∈ Rule_Ports rule)).

Definition policy_selects (dst : endpoint) (policy : NetworkPolicy) : bool :=
  bool_decide ("Ingress" ∈ PolicyTypes policy) &&
  pod_match (Namespace (np_meta policy)) (PodSelector policy) dst.

(** Whether the Pod [dst] accepts a connection from [src] on a port. *)
Definition ingress_allowed (policies : list NetworkPolicy) (src dst : endpoint) (port : string * Z) :
    bool :=
  negb (existsb (policy_selects dst) policies) ||
  existsb (λ policy, policy_selects dst policy &&
                     existsb (rule_admits (Namespace (np_meta policy)) src port) (Ingress policy))
    policies.

(** The policies of a namespace with these networks and published containers. *)
Definition namespace_policies (namespace : string) (networks : list DockerNetwork)
    (published : list (string * OwnerReference * list ContainerPort)) : list NetworkPolicy :=
  (isolation_policy namespace ::
   (network_policy <$>
     List.filter (λ net, networkHasPolicy (nw_Name (networkFromObject net))) networks) ++
   ((λ '(name, owner, ports), published_policy namespace name owner ports) <$> published))%list.

(** The Pod is not on the host's network, and carries the membership label of [net]. *)
Definition member_of (net : DockerNetwork) (pod : endpoint) : Prop :=
  ep_HostNetwork pod = false ∧ ep_Labels pod !! network_label (Name (net_meta net)) = Some "true".

(** Two Pods of a namespace share a network other than [none] and [host]. *)
Definition shares_network (networks : list DockerNetwork) (src dst : endpoint) : Prop :=
  ep_Namespace src = ep_Namespace dst ∧
  ∃ net, net ∈ networks ∧ (net_name net ∉ ["none"; "host"]) ∧ member_of net src ∧ member_of net dst.

(** The Pod's container publishes the port: one of its container ports has the number,
    and the protocol, which is TCP when it names none. *)
Definition publishes (published : list (string * OwnerReference * list ContainerPort)) (dst : endpoint)
    (port : string * Z) : Prop :=
  ∃ name owner ports p, (name, owner, ports) ∈ published ∧ ep_Labels dst !! "app" = Some name ∧
    p ∈ ports ∧ ContainerPort_port p = port.2 ∧
    (Port_Protocol p = port.1 ∧ port.1 ≠ "" ∨ Port_Protocol p = "" ∧ port.1 = "TCP").

Lemma pod_match_singleton ns k v pod :
  pod_match ns {[k := v]} pod = true ↔
  ep_HostNetwork pod = false ∧ ep_Namespace pod = ns ∧ ep_Labels pod !! k = Some v.
Proof.
  unfold pod_match, label_match. rewrite !andb_true_iff, negb_true_iff, !bool_decide_eq_true.
  rewrite map_singleton_subseteq_l. tauto.
Qed.

Lemma existsb_elem {A} (f : A → bool) l : existsb f l = true ↔ ∃ x, x ∈ l ∧ f x = true.
Proof. rewrite existsb_exists. setoid_rewrite <- list_elem_of_In. done. Qed.

Lemma networkHasPolicy_spec name : networkHasPolicy name = true ↔ name ∉ ["none"; "host"].
Proof.
  unfold networkHasPolicy. rewrite andb_true_iff, !negb_true_iff, !bool_decide_eq_false.
  rewrite !not_elem_of_cons. pose proof (not_elem_of_nil name). tauto.
Qed.

Lemma networkPolicyPorts_spec ports port :
  port ∈ networkPolicyPorts ports ↔
  ∃ p, p ∈ ports ∧ ContainerPort_port p = port.2 ∧
    (Port_Protocol p = port.1 ∧ port.1 ≠ "" ∨ Port_Protocol p = "" ∧ port.1 = "TCP").
Proof.
  unfold networkPolicyPorts. rewrite list_elem_of_fmap. destruct port as [protocol n]. simpl.
  split; intros (p & Hp); exists p; case_decide as E.
  - destruct Hp as [[= -> ->] ?]. auto.
  - destruct Hp as [[= -> ->] ?]. auto.
  - destruct Hp as (? & <- & [[? ?]|[? ->]]); [congruence|done].
  - destruct Hp as (? & <- & [[<- ?]|[? ?]]); [done|congruence].
Qed.

Section policies.
Implicit Types (src dst : endpoint) (port : string * Z).

(** The Pods a policy selects, and what it lets them receive. *)
Lemma isolation_selects ns dst :
  policy_selects dst (isolation_policy ns) = true ↔
  ep_HostNetwork dst = false ∧ ep_Namespace dst = ns ∧
  ep_Labels dst !! managedByLabel = Some managedByDink.
Proof. unfold policy_selects. simpl. apply pod_match_singleton. Qed.

Lemma network_selects net dst :
  policy_selects dst (network_policy net) = true ↔
  member_of net dst ∧ ep_Namespace dst = Namespace (net_meta net).
Proof. unfold policy_selects, member_of. simpl. rewrite pod_match_singleton. tauto. Qed.

Lemma published_selects ns name owner ports dst :
  policy_selects dst (published_policy ns name owner ports) = true ↔
  ep_HostNetwork dst = false ∧ ep_Namespace dst = ns ∧ ep_Labels dst !! "app" = Some name.
Proof. unfold policy_selects. simpl. apply pod_match_singleton. Qed.

Lemma network_admits net src port :
  existsb (rule_admits (Namespace (net_meta net)) src port) (Ingress (network_policy net)) = true ↔
  member_of net src ∧ ep_Namespace src = Namespace (net_meta net).
Proof.
  simpl. rewrite orb_false_r. unfold rule_admits, member_of. simpl. rewrite orb_false_r, andb_true_r.
  rewrite pod_match_singleton. tauto.
Qed.

Lemma published_admits ns name owner ports src port :
  ports ≠ [] →
  existsb (rule_admits ns src port) (Ingress (published_policy ns name owner ports)) = true ↔
  port ∈ networkPolicyPorts ports.
Proof.
  intros Hne. simpl. rewrite orb_false_r. unfold rule_admits. simpl.
  rewrite bool_decide_false; [apply bool_decide_eq_true|]. by destruct ports.
Qed.

Lemma namespace_policies_elem ns networks published policy :
  policy ∈ namespace_policies ns networks published ↔
  policy = isolation_policy ns ∨
  (∃ net, net ∈ networks ∧ (net_name net ∉ ["none"; "host"]) ∧ policy = network_policy net) ∨
  (∃ name owner ports, (name, owner, ports) ∈ published ∧
     policy = published_policy ns name owner ports).
Proof.
  unfold namespace_policies. rewrite elem_of_cons, elem_of_app, !list_elem_of_fmap.
  apply or_iff_compat_l, Morphisms_Prop.or_iff_morphism.
  - setoid_rewrite list_elem_of_In at 1. setoid_rewrite List.filter_In.
    setoid_rewrite networkHasPolicy_spec. setoid_rewrite <- list_elem_of_In. naive_solver.
  - split; [intros ([[name owner] ports] & -> & ?)|intros (name & owner & ports & ? & ->)];
      [by eexists _, _, _|]. by exists (name, owner, ports).
Qed.

(** A Pod of dink's in the namespace, off the host's network, accepts what a rule of a
    policy that selects it admits: a fellow member, or a published port. *)
Lemma dink_pod_accepts ns networks published src dst port :
  (∀ net, net ∈ networks → Namespace (net_meta net) = ns) →
  (∀ name owner ports, (name, owner, ports) ∈ published → ports ≠ []) →
  ep_HostNetwork dst = false → ep_Namespace dst = ns →
  ep_Labels dst !! managedByLabel = Some managedByDink →
  ingress_allowed (namespace_policies ns networks published) src dst port = true ↔
  shares_network networks src dst ∨ publishes published dst port.
Proof.
  intros Hns Hports Hhost Hdst Hmanaged. unfold ingress_allowed. rewrite orb_true_iff, negb_true_iff. split.
  - intros [Hnone|Hsome].
    { exfalso. apply not_true_iff_false in Hnone. apply Hnone, existsb_elem.
      exists (isolation_policy ns). by rewrite namespace_policies_elem, isolation_selects; auto. }
    apply existsb_elem in Hsome as (policy & Hin & Hp). apply andb_true_iff in Hp as [Hsel Had].
    apply namespace_policies_elem in Hin as
      [->|[(net & Hnet & ? & ->)|(name & owner & ports & Hin & ->)]]; [done| |].
    + left. apply network_selects in Hsel as []. apply network_admits in Had as []. split; [congruence|].
      by exists net.
    + right. apply published_selects in Hsel as (_ & _ & Happ). cbn [np_meta published_policy] in Had.
      rewrite published_admits, networkPolicyPorts_spec in Had by eauto. destruct Had as (p & ?).
      by exists name, owner, ports, p.
  - intros Hshare. right. apply existsb_elem.
    destruct Hshare as [(Heq & net & Hnet & ? & ? & ?)|(name & owner & ports & p & Hin & ? & Hp)].
    + exists (network_policy net). rewrite namespace_policies_elem, andb_true_iff, network_selects.
      rewrite (network_admits net src port), (Hns net Hnet), <- Hdst. split; [|by rewrite Heq].
      right; left. by exists net.
    + exists (published_policy ns name owner ports).
      rewrite namespace_policies_elem, andb_true_iff, published_selects, published_admits by eauto.
      split; [right; right; by exists name, owner, ports|].
      split; [done|]. apply networkPolicyPorts_spec. by exists p.
Qed.

(** A Pod that no policy selects is left alone. *)
Lemma unselected_accepts policies src dst port :
  (∀ policy, policy ∈ policies → policy_selects dst policy ≠ true) →
  ingress_allowed policies src dst port = true.
Proof.
  intros Hnone. apply orb_true_iff. left. apply negb_true_iff, not_true_iff_false.
  intros (policy & Hin & Hsel)%existsb_elem. by apply (Hnone policy).
Qed.

(** C40: the policies isolate.  Take the policies that dink writes for a namespace:
    the default deny, one for each of its networks but [none] and [host], and one
    for each container that publishes ports.  A Pod of dink's there that is not on
    the host's network accepts a connection exactly if the source is a Pod of the
    namespace, not on the host's network either, that shares one of those networks
    with it, or the port and its protocol are those of a port its own container
    publishes.  The policies leave alone every Pod on the host's network, every Pod
    of another namespace, and each Pod that is not dink's, is labelled a member of
    none of those networks, and whose [app] label names no publishing container. *)
Theorem policies_isolate ns networks published src dst port :
  (∀ net, net ∈ networks → Namespace (net_meta net) = ns) →
  (∀ name owner ports, (name, owner, ports) ∈ published → ports ≠ []) →
  let accepts := ingress_allowed (namespace_policies ns networks published) src dst port = true in
  (ep_HostNetwork dst = false → ep_Namespace dst = ns →
   ep_Labels dst !! managedByLabel = Some managedByDink →
   accepts ↔ shares_network networks src dst ∨ publishes published dst port) ∧
  (ep_HostNetwork dst = true ∨ ep_Namespace dst ≠ ns ∨
   (ep_Labels dst !! managedByLabel ≠ Some managedByDink ∧
    (∀ net, net ∈ networks → ¬ member_of net dst) ∧
    (∀ name owner ports, (name, owner, ports) ∈ published → ep_Labels dst !! "app" ≠ Some name)) →
   accepts).
Proof.
  intros Hns Hports accepts. split; [by apply dink_pod_accepts|].
  intros Hfree. apply unselected_accepts. intros policy Hin.
  apply namespace_policies_elem in Hin as
    [->|[(net & Hnet & _ & ->)|(name & owner & ports & Hin & ->)]].
  - rewrite isolation_selects. intros (? & ? & ?). destruct Hfree as [|[|(? & _)]]; congruence.
  - rewrite network_selects, (Hns net Hnet). intros ((? & ?) & ?).
    destruct Hfree as [|[|(_ & Hno & _)]]; [congruence|done|]. by apply (Hno net Hnet).
  - rewrite published_selects. intros (? & ? & ?).
    destruct Hfree as [|[|(_ & _ & Hno)]]; [congruence|done|]. by eapply Hno.
Qed.
End policies.

(** ** When the policies are in place *)

(** The server showed a policy of that name, or took this one. *)
Definition policy_present (ns : string) (policy : NetworkPolicy) (h : hist) : Prop :=
  (∃ o : NetworkPolicy, Event _ (KGet KNetworkPolicy ns (Name (np_meta policy))) (Ok o) ∈ h) ∨
  (∃ r : res NetworkPolicy, Event _ (KCreate KNetworkPolicy ns policy) r ∈ h ∧
     match r with Ok _ => True | Err e => IsAlreadyExists e = true end).

(** What the successful creation of a network leaves behind. *)
Definition network_created `{Unicode} (ns : string) (request : NetworkRequest) (h : hist) (id : string) :
    Prop :=
  ∃ driver (net : DockerNetwork) (l : list DockerNetwork),
    check_network request = Ok driver ∧
    Event _ (KList KDockerNetwork ns "") (Ok l) ∈ h ∧
    (∀ o, o ∈ l → net_name o ≠ nr_Name request) ∧
    Event _ (KCreate KDockerNetwork ns (new_network ns (nr_Name request) driver
      (Some (nr_Attachable request)) (Some (nr_Labels request)) : obj KDockerNetwork)) (Ok net) ∈ h ∧
    id = DockerIDFromUID (UID (net_meta net)) ∧
    policy_present ns (isolation_policy ns) h ∧
    (networkHasPolicy (net_name net) = true →
     policy_present (Namespace (net_meta net)) (network_policy net) h).

(** What applying the published ports leaves behind: no policy without ports; else
    the policy, at the version read before unless it is new. *)
Definition published_applied (ns name : string) (owner : OwnerReference) (ports : list ContainerPort)
    (h : hist) : Prop :=
  let policy := published_policy ns name owner ports in
  if decide (ports = []) then
    ∃ r, Event _ (KDelete KNetworkPolicy ns (Name (np_meta policy)) no_delete_options) r ∈ h ∧
      match r with Ok _ => True | Err e => IsNotFound e = true end
  else
    policy_present ns policy h ∨
    ∃ (old new : NetworkPolicy) h0,
      h = Event _ (KUpdate KNetworkPolicy ns (np_set_rv (ResourceVersion (np_meta old)) policy
            : obj KNetworkPolicy)) (Ok new) ::
          Event _ (KGet KNetworkPolicy ns (Name (np_meta policy))) (Ok old) :: h0.

Lemma policy_present_suffix ns policy h h' :
  h `suffix_of` h' → policy_present ns policy h → policy_present ns policy h'.
Proof.
  intros [pre ->] [[o Hin]|(r & Hin & Hr)]; [left; exists o|right; exists r]; set_solver.
Qed.

Section in_place.
Context `{Unicode} `{NetworkOrderLaws}.

Lemma create_policy_wp R ns policy h :
  wp R any_command (create_policy ns policy) h (λ h' r,
    h `suffix_of` h' ∧ (r = Ok tt → policy_present ns policy h')).
Proof.
  unfold create_policy. rewrite wp_bind, wp_call. split; [done|].
  intros [o|e] _; [|destruct (IsAlreadyExists e) eqn:E]; rewrite wp_ret;
    (split; [by apply suffix_cons_r|]); [| |done]; intros _; right; eexists;
    (split; [apply list_elem_of_here|done]).
Qed.

Lemma ensureNamespaceIsolation_wp R ns h :
  wp R any_command (ensureNamespaceIsolation ns) h (λ h' r,
    h `suffix_of` h' ∧ (r = Ok tt → policy_present ns (isolation_policy ns) h')).
Proof.
  unfold ensureNamespaceIsolation. rewrite wp_bind, wp_call. split; [done|]. intros [o|e] _.
  - split; [by apply suffix_cons_r|]. intros _. left. exists o. apply list_elem_of_here.
  - destruct (negb _); [rewrite wp_ret; split; [by apply suffix_cons_r|done]|].
    eapply wp_post; [|apply create_policy_wp]. intros h' r [Hs Hr]. split; [|done].
    etrans; [|exact Hs]. by apply suffix_cons_r.
Qed.

Lemma CreateNetwork_wp id request h :
  let ns := id_namespace id in
  wp api_rely any_command (CreateNetwork (Some id) request) h (λ h' r,
    match r with Ok i => network_created ns request h' i | Err _ => True end).
Proof.
  intros ns. unfold CreateNetwork. destruct (check_network request) as [driver|e] eqn:Ec; [|done].
  cbn [networkNamespace]. rewrite wp_bind_res.
  pose proof (networkList_wp id h) as Hlist.
  eapply wp_mono; [|clear Hlist|exact Hlist]; [done|]. intros h1 [l|e]; [|done]. intros [Hl _].
  destruct (existsb _ l) eqn:Ex; [done|].
  rewrite wp_bind, wp_call. split; [done|]. intros [net|e] _; [|by destruct (IsAlreadyExists e)].
  match goal with |- wp _ _ _ (?x :: _) _ => set (ev := x) end.
  rewrite wp_bind_res. eapply wp_post; [|apply ensureNamespaceIsolation_wp].
  intros h2 [[]|e] [Hs2 Hiso]; [|done]. specialize (Hiso eq_refl).
  rewrite wp_bind_res.
  assert (wp api_rely any_command (ensureNetworkPolicy net) h2 (λ h' r, h2 `suffix_of` h' ∧
    (r = Ok tt → networkHasPolicy (net_name net) = true →
     policy_present (Namespace (net_meta net)) (network_policy net) h'))) as Hnet.
  { unfold ensureNetworkPolicy. cbn [networkFromObject nw_Name].
    destruct (networkHasPolicy (net_name net)); cbn [negb]; [|by rewrite wp_ret].
    eapply wp_post; [|apply create_policy_wp]. intros h' r [Hs Hr]. split; [done|]. auto. }
  eapply wp_post; [|exact Hnet]. intros h3 [[]|e] [Hs3 Hpol]; [|done]. rewrite wp_ret.
  assert (ev :: h1 `suffix_of` h3) as [pre ->] by by etrans.
  exists driver, net, l. split_and!; try done.
  - set_solver.
  - intros o Ho He. pose proof (existsb_false_elem _ _ _ Ex Ho) as Hf. cbv beta in Hf.
    by apply bool_decide_eq_false in Hf.
  - apply elem_of_app. right. apply list_elem_of_here.
  - by eapply policy_present_suffix.
  - by apply Hpol.
Qed.

Lemma applyPublishedPortsPolicy_wp ns name owner ports h :
  wp any_answer any_command (applyPublishedPortsPolicy ns name owner ports) h
    (λ h' r, r = Ok tt → published_applied ns name owner ports h').
Proof.
  unfold applyPublishedPortsPolicy, published_applied. cbv zeta.
  destruct (decide (ports = [])); rewrite wp_bind, wp_call; (split; [done|]).
  - intros r _. rewrite wp_ret. intros Hok. exists r. split; [apply list_elem_of_here|].
    destruct r as [|err]; [done|]. simpl in Hok. by destruct (IsNotFound err).
  - intros [old|e] _.
    + rewrite wp_bind, wp_call. split; [done|]. intros [new|e] _; rewrite wp_ret; [|done].
      intros _. right. by exists old, new, h.
    + destruct (IsNotFound e); [|done]. eapply wp_post; [|apply create_policy_wp].
      intros h2 r [_ Hr] Hok. left. by apply Hr.
Qed.

(** networks and published ports come with their policies.  A network
    request that the checks refuse sends nothing.  A network that
    [CreateNetwork] reports was created with the requested name, driver and
    labels, no listed network had its name, its identifier is that of the new
    object, and by then both the default-deny policy of the namespace and the
    policy of the network were there.  After [applyPublishedPortsPolicy] the
    policy of the published ports is there, or none is when no port is
    published. *)
Theorem networks_come_with_policies :
  (∀ ctx request e h h' r, check_network request = Err e →
     exec (CreateNetwork ctx request) h h' r → r = Err e ∧ h' = h) ∧
  (∀ id request i h h', exec (CreateNetwork (Some id) request) h h' (Ok i) →
     answered api_rely h h' → network_created (id_namespace id) request h' i) ∧
  (∀ ns name owner ports h h', exec (applyPublishedPortsPolicy ns name owner ports) h h' (Ok tt) →
     published_applied ns name owner ports h').
Proof.
  split_and!.
  - intros ctx request e h h' r He Hex. unfold CreateNetwork in Hex. rewrite He in Hex.
    by apply exec_inv in Hex.
  - intros id request i h h' Hex Hans.
    exact (proj1 (wp_exec _ _ _ _ _ _ _ (CreateNetwork_wp id request h) Hex Hans)).
  - intros ns name owner ports h h' Hex.
    destruct (wp_exec _ _ _ _ _ _ _ (applyPublishedPortsPolicy_wp ns name owner ports h) Hex)
      as [Hq _]; [|by apply Hq].
    apply along_any; [done|]. by eapply exec_suffix.
Qed.
End in_place.

(** ** Witnesses *)

(** Two members of [backend] reach each other on any port, a stranger only the
    published port. *)
Lemma policies_isolate_witness :
  let net := sample_network "backend" "be01" in
  let pod := λ labels : smap, {| ep_Namespace := "acme"; ep_Labels := labels; ep_HostNetwork := false |} in
  let member := pod {[network_label (Name (net_meta net)) := "true"; managedByLabel := managedByDink;
                      "app" := "web"]} in
  let stranger := pod {["app" := "db"; managedByLabel := managedByDink]} in
  let port := {| ContainerPort_port := 80; HostPort := 0; Port_Protocol := "" |} in
  let owner := ownerReference (deploymentWorkload (sample_deployment "acme" "web" "3f25" 1)) in
  let policies := namespace_policies "acme" [net] [("web", owner, [port])] in
  ingress_allowed policies member member ("TCP", 99%Z) = true ∧
  ingress_allowed policies stranger member ("TCP", 80%Z) = true ∧
  ingress_allowed policies stranger member ("TCP", 99%Z) = false.
Proof.
  intros net pod member stranger port owner policies.
  assert (∀ src p, ingress_allowed policies src member p = true ↔
    shares_network [net] src member ∨ publishes [("web", owner, [port])] member p) as Hp.
  { intros src p. apply (policies_isolate "acme" [net] [("web", owner, [port])] src member p);
      [by intros ? ->%list_elem_of_singleton| |reflexivity..].
    intros name o ports [= -> -> ->]%list_elem_of_singleton. discriminate. }
  split_and!; [apply Hp; left|apply Hp; right|vm_compute; reflexivity].
  - split; [done|]. exists net. split; [by left|]. split; [by apply networkHasPolicy_spec|]. by split.
  - exists "web", owner, [port], port. split; [by left|]. split; [reflexivity|]. split; [by left|].
    split; [done|]. by right.
Defined.

Lemma networks_come_with_policies_witness :
  let request := {| nr_Name := "front"; nr_Driver := ""; nr_Scope := ""; nr_Ingress := false;
    nr_Attachable := false; nr_EnableIPv4 := None; nr_EnableIPv6 := None; nr_Internal := false;
    nr_ConfigOnly := false; nr_ConfigFrom := false; nr_Options := ∅; nr_IPAM := None;
    nr_Labels := {["tier" := "edge"]} |} in
  let p := @CreateNetwork demo_network_order ascii_unicode (Some acme_identity) request in
  ∃ i, (simulate p network_cluster).1.1 = Ok i ∧
       @network_created ascii_unicode "acme" request (simulate p network_cluster).1.2 i.
Proof.
  intros request p.
  assert (∃ i, (simulate p network_cluster).1.1 = Ok i) as [i Hi] by (vm_compute; eauto).
  exists i. split; [exact Hi|].
  apply (proj1 (proj2 (@networks_come_with_policies ascii_unicode demo_network_order
    demo_network_order_laws)) acme_identity request i []).
  - rewrite <- Hi. apply simulate_exec.
  - apply simulate_answered.
Defined.
