(* ===== verification/Inspect.v ===== *)
(** * Inspect: [container_inspect.go] and [container_list.go]

    What Docker shows of a container: its state as its Pods tell it, its resources as
    Kubernetes grants them, its published ports, networks and mounts; and the listing
    of the containers of a namespace. *)

From S2P Require Import Prelude GoStrings Errors Prog Docker Filters Identity Validation Net.
From S2P Require Import Workload Ports Services Resources Volumes Networks.

Local Open Scope string_scope.

(** ** The state of a container *)

Inductive ContainerState := StateCreated | StateRunning | StateRestarting | StateExited.
Inductive HealthStatus := NoHealth | Starting | Healthy | Unhealthy.

#[export] Instance ContainerState_eq_dec : EqDecision ContainerState.
Proof. solve_decision. Defined.
#[export] Instance HealthStatus_eq_dec : EqDecision HealthStatus.
Proof. solve_decision. Defined.

Definition ContainerState_text (s : ContainerState) : string :=
  match s with
  | StateCreated => "created" | StateRunning => "running"
  | StateRestarting => "restarting" | StateExited => "exited"
  end.
Definition HealthStatus_text (h : HealthStatus) : string :=
  match h with
  | NoHealth => "" | Starting => "starting" | Healthy => "healthy" | Unhealthy => "unhealthy"
  end.

(** [container.State]; [st_Health] is [None] where the pointer is nil. *)
Record State := {
  st_Status : ContainerState;
  st_Running : bool;
  st_Restarting : bool;
  st_OOMKilled : bool;
  st_ExitCode : Z;
  st_Error : string;
  st_StartedAt : string;
  st_FinishedAt : string;
  st_Health : option HealthStatus
}.

Definition state_of (status : ContainerState) : State := {|
  st_Status := status; st_Running := false; st_Restarting := false; st_OOMKilled := false;
  st_ExitCode := 0; st_Error := ""; st_StartedAt := ""; st_FinishedAt := ""; st_Health := None |}.

(** A running state: since when. *)
Definition running_since (startedAt : string) : State := {|
  st_Status := StateRunning; st_Running := true; st_Restarting := false; st_OOMKilled := false;
  st_ExitCode := 0; st_Error := ""; st_StartedAt := startedAt; st_FinishedAt := ""; st_Health := None |}.

Definition set_restarting (s : State) : State := {|
  st_Status := StateRestarting; st_Running := st_Running s; st_Restarting := true;
  st_OOMKilled := st_OOMKilled s; st_ExitCode := st_ExitCode s; st_Error := st_Error s;
  st_StartedAt := st_StartedAt s; st_FinishedAt := st_FinishedAt s; st_Health := st_Health s |}.

Definition set_health (h : option HealthStatus) (s : State) : State := {|
  st_Status := st_Status s; st_Running := st_Running s; st_Restarting := st_Restarting s;
  st_OOMKilled := st_OOMKilled s; st_ExitCode := st_ExitCode s; st_Error := st_Error s;
  st_StartedAt := st_StartedAt s; st_FinishedAt := st_FinishedAt s; st_Health := h |}.

Definition setTerminatedState (terminated : ContainerStateTerminated) (s : State) : State := {|
  st_Status := st_Status s; st_Running := st_Running s; st_Restarting := st_Restarting s;
  st_OOMKilled := bool_decide (TS_Reason terminated = "OOMKilled");
  st_ExitCode := TS_ExitCode terminated; st_Error := TS_Message terminated;
  st_StartedAt := st_StartedAt s; st_FinishedAt := FormatRFC3339Nano (TS_FinishedAt terminated);
  st_Health := st_Health s |}.

Definition podContainerStatus (name : string) (pod : Pod) : option ContainerStatus :=
  List.find (λ status, bool_decide (CS_Name status = name)) (ContainerStatuses pod).

Definition lastTermination (status : ContainerStatus) : option ContainerStateTerminated :=
  match CS_Terminated status with Some t => Some t | None => CS_LastTerminated status end.

(** The readiness probe of the application container, if it has one. *)
Definition readiness_probe (w : containerWorkload) : option Probe :=
  List.find (λ c, bool_decide (Ctr_Name c = Name w)) (Containers (Pod_Spec (Template w))) ≫= Ctr_ReadinessProbe.

(** The time after which failing probes count: 32-bit arithmetic, then nanoseconds. *)
Definition health_grace (probe : Probe) : Z :=
  let period := if (PeriodSeconds probe <=? 0)%Z then 10%Z else PeriodSeconds probe in
  let failures := if (FailureThreshold probe <=? 0)%Z then 3%Z else FailureThreshold probe in
  (wrap_signed 32 (InitialDelaySeconds probe + wrap_signed 32 (period * failures)) * 10 ^ 9)%Z.

Definition containerHealthStatus (w : containerWorkload) (status : option ContainerStatus) (now : Z) :
    HealthStatus :=
  match readiness_probe w with
  | None => NoHealth
  | Some probe =>
      match status with
      | None => Starting
      | Some status =>
          match CS_Running status with
          | None => Unhealthy
          | Some startedAt =>
              if CS_Ready status then Healthy
              else if (now <? startedAt + health_grace probe)%Z then Starting
              else Unhealthy
          end
      end
  end.

(** The cases of [containerState] for a running Pod. *)
Definition running_state (w : containerWorkload) (pod : Pod) (status : option ContainerStatus) (now : Z) :
    State :=
  let state :=
    match status ≫= CS_Running, status ≫= lastTermination with
    | Some startedAt, _ => running_since (FormatRFC3339Nano startedAt)
    | None, Some terminated => setTerminatedState terminated (set_restarting (running_since ""))
    | None, None => running_since (default "" (FormatRFC3339Nano <$> StartTime pod))
    end in
  match containerHealthStatus w status now with
  | NoHealth => state
  | health => set_health (Some health) state
  end.

Definition exited_state (status : option ContainerStatus) : State :=
  match status ≫= lastTermination with
  | Some terminated => setTerminatedState terminated (state_of StateExited)
  | None => state_of StateExited
  end.

(** The loop of [containerState] over the Pods: the first that runs or has ended tells. *)
Fixpoint pods_state (w : containerWorkload) (pods : list Pod) (now : Z) : State * Z :=
  match pods with
  | [] => (state_of StateCreated, 0%Z)
  | pod :: pods =>
      let status := podContainerStatus (Name w) pod in
      let restartCount := default 0%Z (CS_RestartCount <$> status) in
      if decide (Phase pod = "Running") then (running_state w pod status now, restartCount)
      else if decide (Phase pod = "Failed" ∨ Phase pod = "Succeeded")
      then (exited_state status, restartCount)
      else pods_state w pods now
  end.

Definition containerState (w : containerWorkload) (pods : list Pod) (now : Z) : State * Z :=
  if negb (Started w)
  then (if negb (OneShot w) then state_of StateExited else state_of StateCreated, 0%Z)
  else pods_state w pods now.

(** ** Resources *)

Definition requestsCPUAnnotation : string := "dink.io/requests.cpu".

(** The fields of [Resources] that Kubernetes decides. *)
Definition res_set_cpu (nano quota period : Z) (r : Docker.Resources) : Docker.Resources := {|
  Memory := Memory r; MemoryReservation := MemoryReservation r; NanoCPUs := nano; CPUQuota := quota;
  CPUPeriod := period; MemorySwappiness := MemorySwappiness r; OomKillDisable := OomKillDisable r;
  PidsLimit := PidsLimit r; OtherResources := OtherResources r |}.
Definition res_set_memory (memory reservation : Z) (r : Docker.Resources) : Docker.Resources := {|
  Memory := memory; MemoryReservation := reservation; NanoCPUs := NanoCPUs r; CPUQuota := CPUQuota r;
  CPUPeriod := CPUPeriod r; MemorySwappiness := MemorySwappiness r; OomKillDisable := OomKillDisable r;
  PidsLimit := PidsLimit r; OtherResources := OtherResources r |}.

(** The CPU limit is kept as it was asked for unless Kubernetes has another. *)
Definition reconcile_cpu (hostConfig : HostConfig) (actual : ResourceRequirements) : Docker.Resources :=
  let r := host_Resources hostConfig in
  match containerResources (Some hostConfig) with
  | Err _ => r
  | Ok declared =>
      let actualCPU := Limits actual !! ResourceCPU in
      if decide (Limits declared !! ResourceCPU = actualCPU) then r
      else res_set_cpu (match actualCPU with Some q => int64 (MilliValue q * 1000000) | None => 0 end) 0 0 r
  end.

Section with_quantities.
Context `{Quantities}.

Definition reconcileInspectResources (hostConfig : HostConfig) (actual : ResourceRequirements) : HostConfig :=
  let r := reconcile_cpu hostConfig actual in
  let r := res_set_memory (default 0%Z (Value <$> Limits actual !! ResourceMemory))
             (default 0%Z (Value <$> Requests actual !! ResourceMemory)) r in
  let annotations :=
    match Requests actual !! ResourceCPU with
    | Some cpu => <[requestsCPUAnnotation := Quantity_String cpu]> (host_Annotations hostConfig)
    | None => delete requestsCPUAnnotation (host_Annotations hostConfig)
    end in
  host_set_annotations annotations (host_set_resources r hostConfig).

(** ** What the Pods tell *)

(** [strings.LastIndex(imageID, "@")], or the prefixes of the runtimes removed. *)
Definition dockerImageID (imageID fallback : string) : string :=
  match cut_last "@" imageID with
  | Some (_, digest) => digest
  | None =>
      let imageID := TrimPrefix imageID "docker-pullable://" in
      let imageID := TrimPrefix imageID "containerd://" in
      if decide (imageID = "") then fallback else imageID
  end.

(** The variables of the loop of [inspectContainer]. *)
Record pods_seen := {
  seen_hostConfig : HostConfig;
  seen_podIP : string;
  actualPodResources : bool;
  seen_imageID : string
}.

Definition see_pod (name image : string) (s : pods_seen) (pod : Pod) : pods_seen :=
  let s :=
    if bool_decide (Phase pod = "Running") && negb (actualPodResources s) then
      match List.find (λ c, bool_decide (Ctr_Name c = name)) (pod_Containers pod) with
      | Some podContainer =>
          {| seen_hostConfig := reconcileInspectResources (seen_hostConfig s) (Ctr_Resources podContainer);
             seen_podIP := PodIP pod; actualPodResources := true; seen_imageID := seen_imageID s |}
      | None =>
          {| seen_hostConfig := seen_hostConfig s; seen_podIP := PodIP pod;
             actualPodResources := false; seen_imageID := seen_imageID s |}
      end
    else s in
  match podContainerStatus name pod with
  | Some status =>
      if decide (CS_ImageID status = "") then s
      else {| seen_hostConfig := seen_hostConfig s; seen_podIP := seen_podIP s;
              actualPodResources := actualPodResources s;
              seen_imageID := dockerImageID (CS_ImageID status) image |}
  | None => s
  end.

Definition see_pods (name image : string) (hostConfig : HostConfig) (pods : list Pod) : pods_seen :=
  fold_left (see_pod name image) pods
    {| seen_hostConfig := hostConfig; seen_podIP := ""; actualPodResources := false; seen_imageID := image |}.

(** Without a running Pod, the resources are those of the template. *)
Definition template_resources (w : containerWorkload) (s : pods_seen) : res HostConfig :=
  let spec := Pod_Spec (Template w) in
  if negb (actualPodResources s) && negb (bool_decide (Containers spec = [])) then
    let? podContainer := namedContainer spec (Name w) in
    Ok (reconcileInspectResources (seen_hostConfig s) (Ctr_Resources podContainer))
  else Ok (seen_hostConfig s).
End with_quantities.

(** ** Published ports *)

(** [network.PortFrom]: a port, if the protocol is one. *)
Class PortFrom := { port_from : Z → string → option Port }.
Class PortFromLaws `{PortFrom} := {
  port_from_named n protocol : protocol ∈ ["tcp"; "udp"; "sctp"] →
    port_from n protocol = Some {| Num := n; Proto := protocol |}
}.

Section with_ports.
Context `{Unicode} `{PortFrom}.

(** [strconv.Itoa] *)
Definition Itoa (z : Z) : string := pretty z.

(** The binding that one port of the Service stands for. *)
Definition port_binding (serviceType : string) (port : ServicePort) : option (Port * list PortBinding) :=
  let targetPort := if (SP_TargetPort port =? 0)%Z then SP_Port port else SP_TargetPort port in
  match port_from (wrap_unsigned 16 targetPort) (ToLower (SP_Protocol port)) with
  | None => None
  | Some target =>
      let publishedPort :=
        if bool_decide (serviceType = ServiceTypeNodePort) && negb (SP_NodePort port =? 0)%Z
        then SP_NodePort port else SP_Port port in
      Some (target, [{| HostIP := None; Binding_HostPort := Itoa publishedPort |}])
  end.

(** The loop over the ports of the Service: a later port replaces an earlier one. *)
Definition port_bindings (spec : ServiceSpec) : gmap Port (list PortBinding) :=
  fold_left (λ bindings port, match port_binding (ServiceType spec) port with
                              | Some (target, binding) => <[target := binding]> bindings
                              | None => bindings
                              end) (Svc_Ports spec) ∅.

Definition containerPortBindings (w : containerWorkload) : proc (res (gmap Port (list PortBinding))) :=
  do service <- call (KGet KService (Namespace w) (publishedPortsServiceName (Name w)));
  match service with
  | Err e => Ret (if IsNotFound e then Ok ∅ else Err (kubeError e))
  | Ok service => Ret (Ok (port_bindings (Svc_Spec service)))
  end.
End with_ports.

(** ** Networks *)

(** [network.EndpointSettings]; the address is its text. *)
Record EndpointState := {
  ep_NetworkID : string;
  ep_Aliases : list string;
  ep_DNSNames : list string;
  ep_IPAddress : option string
}.

(** The order in which a range over a map of labels visits it. *)
Class LabelOrder := { range_labels : smap → list (string * string) }.
Class LabelOrderLaws `{LabelOrder} := { range_labels_spec m : range_labels m ≡ₚ map_to_list m }.

Section with_networks.
Context `{NetworkOrder} `{LabelOrder} `{DockerJSON}.

(** The name and identifier of the network that a label of the template names:
    [networks] are the objects listed, if there is a client for them. *)
Definition labelled_network (networks : list DockerNetwork) (objectName : string) : string * string :=
  match List.find (λ obj, bool_decide (Name (net_meta obj) = objectName)) networks with
  | Some obj => (nw_Name (networkFromObject obj), nw_ID (networkFromObject obj))
  | None =>
      match List.find (λ builtin, bool_decide (networkObjectName builtin.1 = objectName)) range_builtins with
      | Some builtin => (builtin.1, objectName)
      | None => (objectName, objectName)
      end
  end.

Definition endpoint_state (aliases : aliases_t) (podIP name id : string) : EndpointState :=
  let names := default [] (aliases !! name) in
  {| ep_NetworkID := id; ep_Aliases := names; ep_DNSNames := names;
     ep_IPAddress := if ParseAddr podIP then Some podIP else None |}.

(** The loop over the labels of the template. *)
Definition network_endpoints (networks : list DockerNetwork) (aliases : aliases_t) (podIP : string)
    (labels : list (string * string)) : gmap string EndpointState :=
  fold_left (λ endpoints label,
    match CutPrefix label.1 networkLabelPrefix with
    | Some objectName =>
        let '(name, id) := labelled_network networks objectName in
        <[name := endpoint_state aliases podIP name id]> endpoints
    | None => endpoints
    end) labels ∅.

(** [dynamic] says whether there is a client for [DockerNetwork] objects. *)
Definition containerNetworkState (dynamic : bool) (ctx : context) (w : containerWorkload) (podIP : string) :
    proc (res (gmap string EndpointState)) :=
  if HostNetwork (Pod_Spec (Template w)) then Ret (Ok ∅)
  else match decodeContainerAliases (Annotations w) with
  | Err e => Ret (Err e)
  | Ok aliases =>
      do? networks <- (if dynamic then networkList ctx else Ret (Ok []));
      Ret (Ok (network_endpoints networks aliases podIP (range_labels (Pod_Labels (Template w)))))
  end.
End with_networks.

(** ** [ContainerInspect] *)

(** [container.MountPoint], without the fields that are the same for every mount. *)
Record MountPoint := {
  mp_Name : string;
  mp_Source : string;
  mp_Destination : string;
  mp_Mode : string;
  mp_RW : bool
}.

Record InspectResponse := {
  in_ID : string;
  in_Created : string;
  in_Path : string;
  in_Args : list string;
  in_State : State;
  in_RestartCount : Z;
  in_Image : string;
  in_Name : string;
  in_HostConfig : HostConfig;
  in_Config : Docker.Config;
  in_Ports : gmap Port (list PortBinding);
  in_Networks : gmap string EndpointState;
  in_Mounts : list MountPoint
}.

Definition commandPath (command : list string) : string := hd "" command.
Definition commandArgs (command : list string) : list string := tl command.

Definition container_command (config : Docker.Config) : list string :=
  (default [] (Entrypoint config) ++ Cmd config)%list.

Definition host_set_ports (p : gmap Port (list PortBinding)) (h : HostConfig) : HostConfig := {|
  host_Resources := host_Resources h; host_Annotations := host_Annotations h; AutoRemove := AutoRemove h;
  NetworkMode := if decide (NetworkMode h = "") then "bridge" else NetworkMode h;
  PublishAllPorts := PublishAllPorts h; PortBindings := p; VolumeDriver := VolumeDriver h;
  Tmpfs := Tmpfs h; VolumesFrom := VolumesFrom h; Mounts := Mounts h; Binds := Binds h |}.

(** The mounts of one claim, in every container of the Pod. *)
Definition claim_mounts (w : containerWorkload) (volume claimName name : string) : list MountPoint :=
  Containers (Pod_Spec (Template w)) ≫= λ podContainer,
    (λ m, {| mp_Name := name; mp_Source := volumeMountpointBase +:+ "/" +:+ claimName;
             mp_Destination := MountPath m; mp_Mode := if ReadOnly m then "ro" else "rw";
             mp_RW := negb (ReadOnly m) |}) <$>
    List.filter (λ m, bool_decide (VM_Name m = volume)) (Ctr_VolumeMounts podContainer).

(** The loop over the volumes of the template. *)
Fixpoint inspect_mounts (w : containerWorkload) (volumes : list Volume) : proc (res (list MountPoint)) :=
  match volumes with
  | [] => Ret (Ok [])
  | volume :: volumes =>
      match Vol_Source volume with
      | PersistentVolumeClaimSource claimName =>
          do pvc <- call (KGet KPVC (Namespace w) claimName);
          match pvc with
          | Err e => Ret (Err (kubeError e))
          | Ok pvc =>
              let name := mget (Annotations (pvc_meta pvc)) volumeNameAnnotation in
              let name := if decide (name = "") then claimName else name in
              do? rest <- inspect_mounts w volumes;
              Ret (Ok (claim_mounts w (Vol_Name volume) claimName name ++ rest)%list)
          end
      | _ => inspect_mounts w volumes
      end
  end.

Section inspecting.
Context `{Quantities} `{Unicode} `{PortFrom} `{NetworkOrder} `{LabelOrder} `{DockerJSON} (dynamic : bool).

Definition inspectContainer (ctx : context) (w : containerWorkload) : proc (res InspectResponse) :=
  match containerMetadata w with
  | Err e => Ret (Err e)
  | Ok (config, hostConfig) =>
      do pods <- call (KList KPod (Namespace w) (app_selector w));
      match pods with
      | Err e => Ret (Err (kubeError e))
      | Ok pods =>
          do now <- call Now;
          let '(state, restartCount) := containerState w pods now in
          let s := see_pods (Name w) (Image config) hostConfig pods in
          match template_resources w s with
          | Err e => Ret (Err e)
          | Ok hostConfig =>
              do? portBindings <- containerPortBindings w;
              do? networks <- containerNetworkState dynamic ctx w (seen_podIP s);
              do? mounts <- inspect_mounts w (Kube.Volumes (Pod_Spec (Template w)));
              let command := container_command config in
              Ret (Ok {|
                in_ID := DockerIDFromUID (UID w);
                in_Created := FormatRFC3339Nano (CreationTimestamp w);
                in_Path := commandPath command; in_Args := commandArgs command;
                in_State := state; in_RestartCount := restartCount;
                in_Image := seen_imageID s;
                in_Name := "/" +:+ dockerName w;
                in_HostConfig := host_set_ports portBindings hostConfig;
                in_Config := config; in_Ports := portBindings; in_Networks := networks;
                in_Mounts := mounts |})
          end
      end
  end.

Definition ContainerInspect `{Validation} (ctx : context) (name : string) : proc (res InspectResponse) :=
  do? w <- findContainer ctx name; inspectContainer ctx w.
End inspecting.

(** ** [container_list.go] *)

(** Durations in nanoseconds, as [time.Duration]. *)
Definition saturate (z : Z) : Z := Z.max int64_min (Z.min int64_max z).
(** [time.Since(t)] at the time [now] *)
Definition Since (now t : Z) : Z := saturate (now - t).

(** [d.Round(time.Second)]: half away from zero; what does not fit is the extreme. *)
Definition round_second (d : Z) : Z :=
  let r := Z.rem d (10 ^ 9) in
  let away := if (d <? 0)%Z then (d - r - 10 ^ 9)%Z else (d - r + 10 ^ 9)%Z in
  if (2 * Z.abs r <? 10 ^ 9)%Z then (d - r)%Z else saturate away.

(** [Duration.String] of a rounded duration: hours, minutes and seconds. *)
Definition duration_text (d : Z) : string :=
  let seconds := (Z.abs d / 10 ^ 9)%Z in
  let fraction := trim_zeros (pad_digits 9 (Z.abs d mod 10 ^ 9)) in
  (if (d <? 0)%Z then "-" else "") +:+
  (if (3600 <=? seconds)%Z then Itoa (seconds / 3600) +:+ "h" else "") +:+
  (if (60 <=? seconds)%Z then Itoa (seconds / 60 mod 60) +:+ "m" else "") +:+
  Itoa (seconds mod 60) +:+ (if decide (fraction = "") then "" else "." +:+ fraction) +:+ "s".

(** [container.PortSummary] *)
Record PortSummary := { ps_PrivatePort : Z; ps_PublicPort : Z; ps_Type : string; ps_IP : option string }.

(** [container.Summary] *)
Record Summary := {
  sm_ID : string;
  sm_Names : list string;
  sm_Image : string;
  sm_ImageID : string;
  sm_Command : string;
  sm_Created : Z;
  sm_Ports : list PortSummary;
  sm_Labels : smap;
  sm_State : ContainerState;
  sm_Status : string;
  sm_Health : option HealthStatus;
  sm_NetworkMode : string;
  sm_Annotations : smap;
  sm_Networks : gmap string EndpointState
}.

(** [strconv.ParseUint(s, 10, 16)] without its error: the largest number for one
    that does not fit. *)
Definition ParseUint16_value (s : string) : Z :=
  if negb (bool_decide (s = "")) && all_chars is_digit s then Z.min uint16_max (decimal 0 s) else 0.

(** The seconds of [t.Unix()]: since 1970. *)
Definition Unix (t : Z) : Z := (t / 10 ^ 9 - 62135596800)%Z.

Definition status_text `{TimeParse} (w : containerWorkload) (state : State) (now : Z) : string :=
  match st_Status state with
  | StateRunning =>
      let started := default (CreationTimestamp w) (Parse_RFC3339Nano (st_StartedAt state)) in
      "Up " +:+ duration_text (round_second (Since now started)) +:+
      match st_Health state with
      | Some Starting => " (health: starting)"
      | Some health => " (" +:+ HealthStatus_text health +:+ ")"
      | None => ""
      end
  | StateRestarting =>
      "Restarting (" +:+ Itoa (st_ExitCode state) +:+ ")" +:+
      match Parse_RFC3339Nano (st_FinishedAt state) with
      | Some finishedAt => " " +:+ duration_text (round_second (Since now finishedAt)) +:+ " ago"
      | None => ""
      end
  | StateExited => "Exited (" +:+ Itoa (st_ExitCode state) +:+ ")"
  | status => ContainerState_text status
  end.

(** The two nested loops over the ports, in no particular order. *)
Definition port_summaries (ports : gmap Port (list PortBinding)) : list PortSummary :=
  map_to_list ports ≫= λ '(port, bindings),
    (λ b, {| ps_PrivatePort := Num port; ps_PublicPort := ParseUint16_value (Binding_HostPort b);
             ps_Type := Proto port; ps_IP := HostIP b |}) <$> bindings.

(** [containerSummary]; [now] is the time of its [time.Since]. *)
Definition containerSummary `{TimeParse} (w : containerWorkload) (inspect : InspectResponse) (now : Z) :
    Summary := {|
  sm_ID := in_ID inspect; sm_Names := [in_Name inspect];
  sm_Image := Image (in_Config inspect); sm_ImageID := in_Image inspect;
  sm_Command := Join (container_command (in_Config inspect)) " ";
  sm_Created := Unix (CreationTimestamp w);
  sm_Ports := port_summaries (in_Ports inspect);
  sm_Labels := Docker.Labels (in_Config inspect);
  sm_State := st_Status (in_State inspect);
  sm_Status := status_text w (in_State inspect) now;
  sm_Health := st_Health (in_State inspect);
  sm_NetworkMode := NetworkMode (in_HostConfig inspect);
  sm_Annotations := host_Annotations (in_HostConfig inspect);
  sm_Networks := in_Networks inspect |}.

(** [backend.ContainerListOptions] *)
Record ContainerListOptions := { lo_All : bool; lo_Limit : Z; lo_Filters : Args }.
Definition default_list_options : ContainerListOptions := {|
  lo_All := false; lo_Limit := 0; lo_Filters := {| fields := ∅ |} |}.

Definition validateContainerListFilters (filters : Args) : fres unit :=
  Validate filters {["ancestor" := true; "id" := true; "label" := true; "name" := true; "status" := true]}.

Definition matchesContainerListFilters `{Regexp} (filters : Args) (summary : Summary) (config : Docker.Config) :
    bool :=
  (FuzzyMatch filters "id" (sm_ID summary) || FuzzyMatch filters "id" (Truncate (sm_ID summary))) &&
  Match filters "name" (TrimPrefix (hd "" (sm_Names summary)) "/") &&
  ExactMatch filters "status" (ContainerState_text (sm_State summary)) &&
  MatchKVList filters "label" (Docker.Labels config) &&
  (FuzzyMatch filters "ancestor" (sm_Image summary) || FuzzyMatch filters "ancestor" (sm_ImageID summary)).

(** [sort.Slice] by the time of creation, latest first: not a stable sort. *)
Definition created_after (v w : containerWorkload) : Prop := (CreationTimestamp w ≤ CreationTimestamp v)%Z.
Class WorkloadOrder := { sort_workloads : list containerWorkload → list containerWorkload }.
Class WorkloadOrderLaws `{WorkloadOrder} := {
  sort_workloads_perm l : sort_workloads l ≡ₚ l;
  sort_workloads_sorted l : StronglySorted created_after (sort_workloads l)
}.

Section listing.
Context `{Quantities} `{Unicode} `{PortFrom} `{NetworkOrder} `{LabelOrder} `{DockerJSON} (dynamic : bool).
Context `{TimeParse} `{Regexp} `{WorkloadOrder}.

(** Whether a container is shown. *)
Definition listed (options : ContainerListOptions) (inspect : InspectResponse) (summary : Summary) : bool :=
  matchesContainerListFilters (lo_Filters options) summary (in_Config inspect) &&
  (lo_All options || st_Running (in_State inspect)).

(** The loop of [Containers] with the number of results so far. *)
Fixpoint list_containers (ctx : context) (options : ContainerListOptions) (count : Z)
    (workloads : list containerWorkload) : proc (res (list Summary)) :=
  match workloads with
  | [] => Ret (Ok [])
  | w :: workloads =>
      do? inspect <- inspectContainer dynamic ctx w;
      do now <- call Now;
      let summary := containerSummary w inspect now in
      if negb (listed options inspect summary) then list_containers ctx options count workloads
      else if (0 <? lo_Limit options)%Z && (count + 1 =? lo_Limit options)%Z then Ret (Ok [summary])
      else do? rest <- list_containers ctx options (count + 1)%Z workloads; Ret (Ok (summary :: rest))
  end.

Definition Containers (ctx : context) (options : option ContainerListOptions) : proc (res (list Summary)) :=
  match ctx with
  | None => Ret (Err (Unauthenticated (errors_New "missing identity in context")))
  | Some id =>
      let options := default default_list_options options in
      if (lo_Limit options <? 0)%Z
      then Ret (Err (InvalidArgument (errors_New "container list limit must not be negative")))
      else match validateContainerListFilters (lo_Filters options) with
      | Err e => Ret (Err (InvalidArgument (filter_error e)))
      | Ok _ =>
          do? workloads <- listWorkloads (id_namespace id);
          list_containers ctx options 0 (sort_workloads workloads)
      end
  end.
End listing.
