(* ===== verification/InspectProps.v ===== *)
(** * InspectProps: what inspection and listing show

    The state shown is that of the first Pod that runs or has ended; the resources
    are those that Kubernetes grants; a published port is shown with the last of its
    host ports; a listing is exact and stays in its namespace. *)

From S2P Require Import Prelude GoStrings Errors Prog Docker Filters Identity Validation Net.
From S2P Require Import Workload Ports Services Resources Volumes Networks Inspect.

Local Open Scope string_scope.

(** ** The state *)

(** A Pod that runs or has ended. *)
Definition settled (pod : Pod) : bool :=
  bool_decide (Phase pod ∈ ["Running"; "Failed"; "Succeeded"]).

Lemma pods_state_settled (w : containerWorkload) pods now :
  pods_state w pods now =
    match List.find settled pods with
    | None => (state_of StateCreated, 0%Z)
    | Some pod =>
        let status := podContainerStatus (Name w) pod in
        (if decide (Phase pod = "Running") then running_state w pod status now else exited_state status,
         default 0%Z (CS_RestartCount <$> status))
    end.
Proof.
  induction pods as [|pod pods IH]; [done|]. cbn [pods_state List.find]. unfold settled at 1.
  destruct (decide (Phase pod = "Running")) as [Hr|Hr].
  { rewrite bool_decide_eq_true_2 by (rewrite Hr; set_solver). cbv zeta. by rewrite decide_True. }
  destruct (decide (Phase pod = "Failed" ∨ Phase pod = "Succeeded")) as [He|He].
  - rewrite bool_decide_eq_true_2 by (destruct He as [-> | ->]; set_solver). cbv zeta.
    by rewrite decide_False.
  - rewrite bool_decide_eq_false_2; [done|]. rewrite !elem_of_cons, elem_of_nil. tauto.
Qed.

(** The status of the container, among those of the Pod: the first of its name. *)
Definition own_status (w : containerWorkload) (pod : Pod) : option ContainerStatus :=
  head (filter (λ status, CS_Name status = Name w) (ContainerStatuses pod)).

Lemma podContainerStatus_own (w : containerWorkload) pod : podContainerStatus (Name w) pod = own_status w pod.
Proof.
  unfold podContainerStatus, own_status. induction (ContainerStatuses pod) as [|status l IH]; [done|]. cbn [List.find].
  destruct (bool_decide_reflect (CS_Name status = Name w)) as [Hn|Hn].
  - by rewrite filter_cons_True.
  - by rewrite filter_cons_False.
Qed.

(** How the container ended last. *)
Definition ended_with (status : ContainerStatus) (t : ContainerStateTerminated) : Prop :=
  CS_Terminated status = Some t ∨ (CS_Terminated status = None ∧ CS_LastTerminated status = Some t).

(** The seconds of the start period and the retries, as 32-bit numbers, ten and three by
    default. *)
Definition grace_seconds (probe : Probe) : Z :=
  wrap_signed 32 (InitialDelaySeconds probe +
    wrap_signed 32 ((if decide (0 < PeriodSeconds probe)%Z then PeriodSeconds probe else 10) *
                    (if decide (0 < FailureThreshold probe)%Z then FailureThreshold probe else 3))).

Lemma health_grace_seconds probe : health_grace probe = (grace_seconds probe * 10 ^ 9)%Z.
Proof.
  unfold health_grace, grace_seconds. cbv zeta.
  destruct (Z.leb_spec (PeriodSeconds probe) 0), (Z.leb_spec (FailureThreshold probe) 0);
    rewrite ?(decide_True (P := (0 < PeriodSeconds probe)%Z)) by lia; rewrite ?(decide_False (P := (0 < PeriodSeconds probe)%Z)) by lia;
    rewrite ?(decide_True (P := (0 < FailureThreshold probe)%Z)) by lia; rewrite ?(decide_False (P := (0 < FailureThreshold probe)%Z)) by lia; done.
Qed.

(** The readiness probe of the application container: the first of its name. *)
Definition own_probe (w : containerWorkload) : option Probe :=
  head (filter (λ c, Ctr_Name c = Name w) (Kube.Containers (Pod_Spec (Template w)))) ≫= Ctr_ReadinessProbe.

Lemma readiness_probe_own w : readiness_probe w = own_probe w.
Proof.
  unfold readiness_probe, own_probe. induction (Kube.Containers (Pod_Spec (Template w))) as [|c l IH]; [done|]. cbn [List.find].
  destruct (bool_decide_reflect (Ctr_Name c = Name w)) as [Hn|Hn].
  - by rewrite filter_cons_True.
  - by rewrite filter_cons_False.
Qed.

(** The health of a running container: its readiness probe, once the start period
    and the retries are over. *)
Definition health_shown (w : containerWorkload) (status : option ContainerStatus) (now : Z)
    (health : option HealthStatus) : Prop :=
  match own_probe w, status with
  | None, _ => health = None
  | Some _, None => health = Some Starting
  | Some probe, Some status =>
      (health = Some Healthy ↔ is_Some (CS_Running status) ∧ CS_Ready status = true) ∧
      (health = Some Starting ↔ ∃ since, CS_Running status = Some since ∧ CS_Ready status = false ∧
         (now < since + grace_seconds probe * 10 ^ 9)%Z) ∧
      (health = Some Healthy ∨ health = Some Starting ∨ health = Some Unhealthy)
  end.

Lemma health_shown_ok w status now :
  health_shown w status now
    (match containerHealthStatus w status now with NoHealth => None | health => Some health end).
Proof.
  unfold health_shown, containerHealthStatus. rewrite readiness_probe_own.
  destruct (own_probe w) as [probe|]; [|done]. rewrite <- health_grace_seconds.
  destruct status as [status|]; [|done]. destruct (CS_Running status) as [since|].
  - destruct (CS_Ready status).
    + split_and!; [|split; [done|by intros (? & ? & ? & ?)]|auto]. split; [by eauto|done].
    + destruct (Z.ltb_spec now (since + health_grace probe)%Z) as [Hlt|Hge];
        (split_and!; [by split; [|intros [_ ?]]| |auto]).
      * split; [by eauto|done].
      * split; [done|]. intros (s & [= ->] & _ & ?). lia.
  - split_and!; [split; [done|by intros [[? ?] _]]|split; [done|by intros (? & ? & _)]|auto].
Qed.

(** What the state of a running Pod's container says: running since its start, restarting
    after its end, or, if neither is known, running since the Pod's start. *)
Definition shows_running (w : containerWorkload) (pod : Pod) (now : Z) (s : State) : Prop :=
  let status := own_status w pod in
  health_shown w status now (st_Health s) ∧
  match status ≫= CS_Running with
  | Some since =>
      s = {| st_Status := StateRunning; st_Running := true; st_Restarting := false; st_OOMKilled := false;
             st_ExitCode := 0; st_Error := ""; st_StartedAt := FormatRFC3339Nano since; st_FinishedAt := "";
             st_Health := st_Health s |}
  | None =>
      (∀ c t, status = Some c → ended_with c t →
         s = {| st_Status := StateRestarting; st_Running := true; st_Restarting := true;
                st_OOMKilled := bool_decide (TS_Reason t = "OOMKilled"); st_ExitCode := TS_ExitCode t;
                st_Error := TS_Message t; st_StartedAt := ""; st_FinishedAt := FormatRFC3339Nano (TS_FinishedAt t);
                st_Health := st_Health s |}) ∧
      ((∀ c t, status = Some c → ~ ended_with c t) →
         s = {| st_Status := StateRunning; st_Running := true; st_Restarting := false; st_OOMKilled := false;
                st_ExitCode := 0; st_Error := "";
                st_StartedAt := match StartTime pod with Some t => FormatRFC3339Nano t | None => "" end;
                st_FinishedAt := ""; st_Health := st_Health s |})
  end.

(** And of one that has ended. *)
Definition shows_exited (w : containerWorkload) (pod : Pod) (s : State) : Prop :=
  (∀ c t, own_status w pod = Some c → ended_with c t →
     s = {| st_Status := StateExited; st_Running := false; st_Restarting := false;
            st_OOMKilled := bool_decide (TS_Reason t = "OOMKilled"); st_ExitCode := TS_ExitCode t;
            st_Error := TS_Message t; st_StartedAt := ""; st_FinishedAt := FormatRFC3339Nano (TS_FinishedAt t);
            st_Health := None |}) ∧
  ((∀ c t, own_status w pod = Some c → ~ ended_with c t) →
     s = {| st_Status := StateExited; st_Running := false; st_Restarting := false; st_OOMKilled := false;
            st_ExitCode := 0; st_Error := ""; st_StartedAt := ""; st_FinishedAt := ""; st_Health := None |}).

(** The state of a container that has nothing to show. *)
Definition bare_state (status : ContainerState) : State := {|
  st_Status := status; st_Running := false; st_Restarting := false; st_OOMKilled := false;
  st_ExitCode := 0; st_Error := ""; st_StartedAt := ""; st_FinishedAt := ""; st_Health := None |}.

Lemma ended_with_last c t : ended_with c t ↔ lastTermination c = Some t.
Proof. unfold ended_with, lastTermination. destruct (CS_Terminated c); naive_solver. Qed.

Lemma last_of (status : option ContainerStatus) :
  match status ≫= lastTermination with
  | Some t => ∃ c, status = Some c ∧ ended_with c t ∧ ∀ c' t', status = Some c' → ended_with c' t' → t' = t
  | None => ∀ c t, status = Some c → ~ ended_with c t
  end.
Proof.
  destruct status as [c|]; simpl; [|done]. destruct (lastTermination c) as [t|] eqn:E.
  - exists c. split_and!; [done|by apply ended_with_last|]. intros ? t' [= <-] Ht%ended_with_last. congruence.
  - intros ? t [= <-] Ht%ended_with_last. congruence.
Qed.

Lemma running_state_shows (w : containerWorkload) pod now :
  shows_running w pod now (running_state w pod (podContainerStatus (Name w) pod) now).
Proof.
  unfold shows_running, running_state. cbv zeta. rewrite podContainerStatus_own. set (status := own_status w pod).
  pose proof (health_shown_ok w status now) as Hh. pose proof (last_of status) as Hlast. clearbody status.
  destruct (status ≫= CS_Running) as [since|] eqn:Er.
  { by destruct (containerHealthStatus w status now). }
  destruct (status ≫= lastTermination) as [t|].
  - destruct Hlast as (c & Hc & Hended & Hone).
    destruct (containerHealthStatus w status now); (split; [done|split]);
      try (by intros Hno; destruct (Hno c t Hc)); intros c' t' Hc' Ht'; by rewrite (Hone c' t' Hc' Ht').
  - destruct (containerHealthStatus w status now); (split; [done|split]);
      try (intros c t Hc Ht; by destruct (Hlast c t Hc)); intros _; by destruct (StartTime pod).
Qed.

Lemma exited_state_shows (w : containerWorkload) pod : shows_exited w pod (exited_state (podContainerStatus (Name w) pod)).
Proof.
  unfold shows_exited, exited_state. rewrite podContainerStatus_own. pose proof (last_of (own_status w pod)) as Hlast.
  destruct (own_status w pod ≫= lastTermination) as [t|].
  - destruct Hlast as (c & Hc & Hended & Hone). split; [|by intros Hno; destruct (Hno c t Hc)].
    intros c' t' Hc' Ht'. by rewrite (Hone c' t' Hc' Ht').
  - split; [|done]. intros c t Hc Ht. by destruct (Hlast c t Hc).
Qed.

(** C12: inspection shows the state its Pods are in, whole and on every branch.  A
    container that was not started is created if it is one-shot and exited otherwise; a
    started one is as its first Pod that runs or has ended, with that Pod's restarts, and
    created without one.  While that Pod runs, the container is running since its start,
    or else restarting with the exit code, message, time and out-of-memory mark of its last
    end, or else running since the start of the Pod; its health is healthy exactly when the
    probe of a running container succeeds, and starting exactly until the start period and
    the retries are over.  Once that Pod has ended the container is exited, with what its
    last end says if there is one.  Every other field of the state is empty. *)
Theorem containerState_exact (w : containerWorkload) pods now :
  let '(s, restarts) := containerState w pods now in
  (Started w = false →
     s = bare_state (if OneShot w then StateCreated else StateExited) ∧ restarts = 0%Z) ∧
  (Started w = true →
     match head (filter (λ pod, Phase pod ∈ ["Running"; "Failed"; "Succeeded"]) pods) with
     | None => s = bare_state StateCreated ∧ restarts = 0%Z
     | Some pod =>
         restarts = match own_status w pod with Some c => CS_RestartCount c | None => 0%Z end ∧
         (Phase pod = "Running" → shows_running w pod now s) ∧
         (Phase pod ≠ "Running" → shows_exited w pod s)
     end).
Proof.
  unfold containerState. destruct (Started w); simpl.
  - rewrite pods_state_settled.
    assert (List.find settled pods = head (filter (λ pod, Phase pod ∈ ["Running"; "Failed"; "Succeeded"]) pods)) as ->.
    { unfold settled. induction pods as [|pod pods IH]; [done|]. cbn [List.find].
      destruct (bool_decide_reflect (Phase pod ∈ ["Running"; "Failed"; "Succeeded"]));
        [by rewrite filter_cons_True|by rewrite filter_cons_False]. }
    destruct (head _) as [pod|]; [|done]. cbv zeta.
    split; [done|]. intros _. split; [by rewrite podContainerStatus_own; destruct (own_status w pod)|].
    destruct (decide (Phase pod = "Running")).
    + split; [|done]. intros _. apply running_state_shows.
    + split; [done|]. intros _. apply exited_state_shows.
  - split; [|done]. by destruct (OneShot w).
Qed.

(** ** Resources *)

Lemma Value_bytes n : (0 ≤ n ≤ int64_max)%Z → Value (NewQuantity n) = n.
Proof.
  intros Hn. unfold Value, NewQuantity. rewrite round_up_exact by (lia || by exists n).
  rewrite Z.div_mul by lia. apply wrap_signed_id; [lia|]. unfold int64_max in Hn. lia.
Qed.

Lemma MilliValue_millis n : (0 ≤ n ≤ int64_max)%Z → MilliValue (NewMilliQuantity n) = n.
Proof.
  intros Hn. unfold MilliValue, NewMilliQuantity. rewrite round_up_exact by (lia || by exists n).
  rewrite Z.div_mul by lia. apply wrap_signed_id; [lia|]. unfold int64_max in Hn. lia.
Qed.

(** Limits that Docker can show: a positive number of millicores that fits Docker's
    billionths, and of bytes that fit 64 bits. *)
Definition docker_cpu (q : quantity) : Prop :=
  ∃ m, q = NewMilliQuantity m ∧ (0 < m ∧ m * 1000000 ≤ int64_max)%Z.
Definition docker_bytes (q : quantity) : Prop := ∃ n, q = NewQuantity n ∧ (0 < n ≤ int64_max)%Z.

Lemma shown_bytes (l : ResourceList) :
  (∀ q, l !! ResourceMemory = Some q → docker_bytes q) →
  positive_quantity (default 0%Z (Value <$> l !! ResourceMemory)) = l !! ResourceMemory.
Proof.
  intros Hb. unfold positive_quantity. destruct (l !! ResourceMemory) as [q|]; [|done]. simpl.
  destruct (Hb q eq_refl) as (n & -> & Hn). rewrite Value_bytes by lia.
  by destruct (Z.ltb_spec 0 n); [|lia].
Qed.

(** A size of Docker's that was translated is shown as it was. *)
Lemma shown_size n :
  (0 ≤ n)%Z → (∀ q, positive_quantity n = Some q → docker_bytes q) →
  default 0%Z (Value <$> positive_quantity n) = n.
Proof.
  unfold positive_quantity. destruct (Z.ltb_spec 0 n); intros Hn Hb; [|simpl; lia].
  destruct (Hb _ eq_refl) as (m & Heq & Hm). unfold NewQuantity in Heq.
  simpl. apply Value_bytes. lia.
Qed.

Lemma shown_cpu h actual declared :
  containerResources (Some h) = Ok declared →
  (∀ q, Limits actual !! ResourceCPU = Some q → docker_cpu q) →
  cpu_limit (reconcile_cpu h actual) = Limits actual !! ResourceCPU.
Proof.
  intros Hd Hcpu. unfold reconcile_cpu. rewrite Hd.
  pose proof (containerResources_exact h) as He. rewrite Hd in He.
  destruct He as (_ & _ & _ & Hlimit & _). cbv zeta.
  destruct (decide _) as [Heq|Hne]; [by rewrite <- Hlimit|]. unfold cpu_limit, res_set_cpu. simpl.
  destruct (Limits actual !! ResourceCPU) as [q|]; [|done].
  destruct (Hcpu q eq_refl) as (m & -> & Hm & Hmax). unfold int64_max in Hmax.
  rewrite MilliValue_millis by (unfold int64_max; lia). unfold int64.
  rewrite wrap_signed_id by lia. unfold NewMilliQuantity.
  destruct (Z.ltb_spec 0 (m * 1000000)); [|lia]. by rewrite <- Z.mul_comm, Z.mul_comm.
Qed.

(** C13: inspection shows the resources that Kubernetes grants.  Whatever
    supported resources a container was created with, and whatever its Pod was granted
    since, the CPU limit, memory limit and memory reservation that Docker shows
    denote the limits and the request of the Pod, as long as Docker can express them;
    a Pod granted what was declared shows the request as it was made, quota and period
    included; and nothing else of the configuration changes but the annotation of the
    CPU request. *)
Theorem inspected_resources_granted `{Quantities} h declared actual :
  containerResources (Some h) = Ok declared →
  (∀ q, Limits actual !! ResourceCPU = Some q → docker_cpu q) →
  (∀ q, Limits actual !! ResourceMemory = Some q → docker_bytes q) →
  (∀ q, Requests actual !! ResourceMemory = Some q → docker_bytes q) →
  let h' := reconcileInspectResources h actual in
  cpu_limit (host_Resources h') = Limits actual !! ResourceCPU ∧
  positive_quantity (Memory (host_Resources h')) = Limits actual !! ResourceMemory ∧
  positive_quantity (MemoryReservation (host_Resources h')) = Requests actual !! ResourceMemory ∧
  (actual = declared → host_Resources h' = host_Resources h) ∧
  delete requestsCPUAnnotation (host_Annotations h') = delete requestsCPUAnnotation (host_Annotations h) ∧
  host_set_annotations (host_Annotations h) (host_set_resources (host_Resources h) h') = h.
Proof.
  intros Hd Hcpu Hmem Hreq h'. unfold h', reconcileInspectResources. simpl. split_and!.
  - rewrite <- (shown_cpu h actual declared) by done. done.
  - by apply shown_bytes.
  - by apply shown_bytes.
  - intros ->. unfold reconcile_cpu. rewrite Hd, decide_True by done.
    pose proof (containerResources_exact h) as He. rewrite Hd in He.
    destruct He as (((? & ? & _) & _) & Hl & Hr & _).
    rewrite Hl, Hr in *. rewrite !shown_size by done. by destruct (host_Resources h).
  - destruct (Requests actual !! ResourceCPU); [apply delete_insert_eq|apply delete_delete_eq].
  - by destruct h.
Qed.

(** Two CPUs were asked for by quota and period; Kubernetes grants half a CPU. *)
Definition quota_host : HostConfig := host_set_resources {| Memory := 1024; MemoryReservation := 512; NanoCPUs := 0;
  CPUQuota := 200000; CPUPeriod := 100000; MemorySwappiness := None; OomKillDisable := None;
  PidsLimit := None; OtherResources := [] |} empty_host_config.
Definition half_cpu : ResourceRequirements := {|
  Limits := {[ResourceCPU := NewMilliQuantity 500; ResourceMemory := NewQuantity 1024]};
  Requests := {[ResourceMemory := NewQuantity 512]} |}.

Lemma inspected_resources_granted_witness :
  let h' := @reconcileInspectResources demo_quantities quota_host half_cpu in
  cpu_limit (host_Resources h') = Some 500000000%Z ∧ CPUQuota (host_Resources h') = 0%Z ∧
  NanoCPUs (host_Resources h') = 500000000%Z.
Proof.
  intros h'.
  destruct (containerResources (Some quota_host)) as [declared|e] eqn:E; [|vm_compute in E; discriminate E].
  destruct (@inspected_resources_granted demo_quantities quota_host declared half_cpu E) as (Hcpu & _).
  - intros q [= <-]. exists 500%Z. split; [reflexivity|unfold int64_max; lia].
  - intros q [= <-]. exists 1024%Z. split; [reflexivity|unfold int64_max; lia].
  - intros q [= <-]. exists 512%Z. split; [reflexivity|unfold int64_max; lia].
  - split; [exact Hcpu|]. split; vm_compute; reflexivity.
Defined.

(** ** Published ports *)

Section published.
Context `{Unicode} `{PortFromLaws}.

Lemma port_bindings_snoc type spec l p :
  Svc_Ports spec = (l ++ [p])%list → ServiceType spec = type →
  port_bindings spec =
    match port_binding type p with
    | Some (target, binding) => <[target := binding]> (port_bindings {| ServiceType := type;
        Svc_Selector := Svc_Selector spec; Svc_Ports := l; ClusterIP := ClusterIP spec |})
    | None => port_bindings {| ServiceType := type; Svc_Selector := Svc_Selector spec; Svc_Ports := l;
                               ClusterIP := ClusterIP spec |}
    end.
Proof.
  intros Hl <-. unfold port_bindings. rewrite Hl, fold_left_app. simpl.
  by destruct (port_binding _ p) as [[? ?]|].
Qed.

(** The ports a client may publish, as [resolvePublishedPorts] leaves them. *)
Definition publishable (p : publishedPort) : Prop :=
  (0 < containerPort p ≤ uint16_max)%Z ∧ (0 ≤ hostPort p ≤ uint16_max)%Z ∧
  protocol p ∈ [ProtocolTCP; ProtocolUDP; ProtocolSCTP].

(** The container port that is published, and where it is. *)
Definition docker_port (p : publishedPort) : Port :=
  {| Num := containerPort p; Proto := map_chars lower_char (protocol p) |}.
Definition docker_binding (p : publishedPort) : list PortBinding :=
  [{| HostIP := None; Binding_HostPort := Itoa (if (hostPort p =? 0)%Z then containerPort p else hostPort p) |}].

Lemma published_binding type i p :
  publishable p → port_binding type (published_port i p) = Some (docker_port p, docker_binding p).
Proof.
  intros (Hc & Hh & Hp). unfold uint16_max in *. unfold port_binding, published_port, docker_port, docker_binding.
  simpl. rewrite (wrap_signed_id 32 (containerPort p)) by lia.
  destruct (Z.eqb_spec (containerPort p) 0) as [|_]; [lia|].
  rewrite wrap_unsigned_id by lia.
  assert (ToLower (protocol p) = map_chars lower_char (protocol p) ∧
          map_chars lower_char (protocol p) ∈ ["tcp"; "udp"; "sctp"]) as [-> Hl].
  { repeat (apply elem_of_cons in Hp as [->|Hp]; [split; [done|set_solver]|]). by apply elem_of_nil in Hp. }
  rewrite port_from_named by done. rewrite andb_false_r. do 4 f_equal. unfold Itoa. f_equal.
  apply wrap_signed_id; [lia|]. destruct (hostPort p =? 0)%Z; lia.
Qed.

Lemma published_bindings_fold type l i (m : gmap Port (list PortBinding)) :
  Forall publishable l →
  fold_left (λ bindings port, match port_binding type port with
                              | Some (target, binding) => <[target := binding]> bindings
                              | None => bindings
                              end) (imap (λ j, published_port (i + j)) l) m =
  fold_left (λ bindings p, <[docker_port p := docker_binding p]> bindings) l m.
Proof.
  revert i m. induction l as [|p l IH]; intros i m; [done|]. rewrite Forall_cons. intros [Hp Hl].
  cbn [imap fold_left]. rewrite published_binding by done.
  rewrite <- (IH (S i)) by done. f_equal. apply imap_ext. intros j q _. simpl. f_equal. lia.
Qed.

Lemma fold_insert_lookup {K V A} `{Countable K} (k : A → K) (v : A → V) l (m : gmap K V) p :
  p ∈ l → NoDup (k <$> l) →
  fold_left (λ m p, <[k p := v p]> m) l m !! k p = Some (v p).
Proof.
  revert m. induction l as [|q l IH]; intros m Hp Hd; [by apply elem_of_nil in Hp|].
  rewrite fmap_cons in Hd. apply NoDup_cons in Hd as [Hq Hd].
  apply elem_of_cons in Hp as [->|Hp]; [|by apply IH]. cbn [fold_left].
  assert (∀ m : gmap K V, m !! k q = Some (v q) → fold_left (λ m p, <[k p := v p]> m) l m !! k q = Some (v q)) as Hk.
  { clear IH m. revert Hq. induction l as [|r l IH]; intros Hq m Hm; [done|]. cbn [fold_left].
    rewrite fmap_cons, not_elem_of_cons in Hq. destruct Hq as [Hr Hq].
    apply IH; [|done|]. { rewrite fmap_cons in Hd. by apply NoDup_cons in Hd as [_ Hd]. }
    by rewrite lookup_insert_ne. }
  apply Hk. apply lookup_insert_eq.
Qed.

Lemma fold_insert_dom {K V A} `{Countable K} (k : A → K) (v : A → V) l (m : gmap K V) x :
  is_Some (fold_left (λ m p, <[k p := v p]> m) l m !! x) ↔ is_Some (m !! x) ∨ x ∈ k <$> l.
Proof.
  revert m. induction l as [|q l IH]; intros m; cbn [fold_left]; [set_solver|].
  rewrite IH, lookup_insert_is_Some', fmap_cons, elem_of_cons. naive_solver.
Qed.

(** inspection shows the ports as they were published.  The bindings that
    are read back from the Service that creation made for some ports are those ports:
    each container port is bound to the host port asked for, or to its own number if
    none was; no other port is bound; as long as no port is published twice. *)
Theorem published_ports_roundtrip (w : containerWorkload) type ports :
  Forall publishable ports → NoDup (docker_port <$> ports) →
  let bindings := port_bindings (Svc_Spec (publishedPortsService w type ports)) in
  (∀ p, p ∈ ports → bindings !! docker_port p = Some (docker_binding p)) ∧
  (∀ port, is_Some (bindings !! port) → ∃ p, p ∈ ports ∧ port = docker_port p).
Proof.
  intros Hp Hd bindings.
  assert (bindings = fold_left (λ bindings p, <[docker_port p := docker_binding p]> bindings) ports ∅) as ->
    by apply (published_bindings_fold type ports 0 ∅ Hp).
  split; [intros p Hin; by apply fold_insert_lookup|].
  intros port [Hs|(p & -> & Hin)%list_elem_of_fmap]%fold_insert_dom; [|by exists p].
  rewrite lookup_empty in Hs. by destruct Hs.
Qed.
End published.

Definition demo_port_from : PortFrom := {| port_from n protocol :=
  if decide (protocol = "") then None else Some {| Num := n; Proto := protocol |} |}.

Lemma demo_port_from_laws : @PortFromLaws demo_port_from.
Proof. split. intros n p Hp. simpl. rewrite decide_False; [done|]. intros ->. set_solver. Qed.

Definition two_ports : list publishedPort :=
  [{| containerPort := 53; hostPort := 5353; protocol := ProtocolUDP |};
   {| containerPort := 80; hostPort := 0; protocol := ProtocolTCP |}].

Lemma published_ports_roundtrip_witness :
  let w := deploymentWorkload (sample_deployment "acme" "web" "3f25-04e0" 1) in
  @port_bindings ascii_unicode demo_port_from (Svc_Spec (publishedPortsService w ServiceTypeLoadBalancer two_ports)) !!
    {| Num := 53; Proto := "udp" |} = Some [{| HostIP := None; Binding_HostPort := "5353" |}].
Proof.
  intros w.
  destruct (@published_ports_roundtrip ascii_unicode demo_port_from demo_port_from_laws w ServiceTypeLoadBalancer two_ports)
    as [Hin _].
  - repeat constructor; unfold uint16_max; simpl; try lia; apply (bool_decide_unpack _); vm_compute; exact I.
  - apply (bool_decide_unpack _). vm_compute. exact I.
  - apply (Hin {| containerPort := 53; hostPort := 5353; protocol := ProtocolUDP |}). by left.
Defined.

(** A port published twice is shown once, with the last of its host ports. *)
Example second_binding_replaces_first :
  let w := deploymentWorkload (sample_deployment "acme" "web" "3f25-04e0" 1) in
  map_to_list (@port_bindings ascii_unicode demo_port_from (Svc_Spec (publishedPortsService w ServiceTypeLoadBalancer
    [{| containerPort := 80; hostPort := 8080; protocol := ProtocolTCP |};
     {| containerPort := 80; hostPort := 8081; protocol := ProtocolTCP |}]))) =
  [({| Num := 80; Proto := "tcp" |}, [{| HostIP := None; Binding_HostPort := "8081" |}])].
Proof. by vm_compute. Qed.

(** ** Listing *)

(** What inspection asks of the cluster: reads of one namespace, the time, and the
    creation of its builtin networks when they are missing. *)
Definition inspection_requests (ns : string) : guard (cmd := cmd) := λ h X c,
  match c with
  | KGet _ ns' _ => ns' = ns
  | Now => True
  | _ => network_reads ns h X c
  end.

Lemma inspection_network_reads ns h X (c : cmd X) : network_reads ns h X c → inspection_requests ns h X c.
Proof. by destruct c. Qed.

Lemma inspection_reads_in ns h X (c : cmd X) : reads_in ns h X c → inspection_requests ns h X c.
Proof. by destruct c. Qed.

Lemma exec_bind_res_ok {E A B} (p : proc (result E A)) (f : A → proc (result E B)) h h' b :
  exec (bind_res p f) h h' (Ok b) → ∃ h1 a, exec p h h1 (Ok a) ∧ exec (f a) h1 h' (Ok b).
Proof.
  unfold bind_res. rewrite exec_bind. intros (h1 & [a|e] & Hp & Hf); [by exists h1, a|].
  by apply exec_inv in Hf as [? _].
Qed.

(** The answers up to some moment of an execution. *)
Lemma answered_until (R : rely) (h h1 h' : hist) :
  answered R h h' → h `suffix_of` h1 → h1 `suffix_of` h' → answered R h h1.
Proof.
  intros Ha. induction Ha as [|e h' Ha IH He]; intros Hs Hs1.
  - apply suffix_length in Hs as Hl1. apply suffix_length in Hs1 as Hl2.
    destruct Hs as [l ->]. rewrite length_app in *. destruct l; [constructor|simpl in *; lia].
  - destruct Hs1 as [[|e1 l] Heq]; simplify_eq/=; [by constructor|]. apply IH; [done|by exists l].
Qed.

Lemma listWorkloads_seen ns h :
  wp api_rely (reads_in ns) (listWorkloads ns) h (λ h' r,
    match r with
    | Ok l => ∃ ds js, l = workloads_of ds js ∧
        Event _ (KList KDeployment ns "") (Ok ds) ∈ h' ∧ Event _ (KList KJob ns "") (Ok js) ∈ h' ∧
        ∀ w : containerWorkload, w ∈ l → Namespace w = ns
    | Err _ => True
    end).
Proof.
  unfold listWorkloads. rewrite wp_bind, wp_call. split; [done|].
  intros [ds|e] Hds; [|done]. rewrite wp_bind, wp_call. split; [done|].
  intros [js|e] Hjs; [|done]. exists ds, js.
  split_and!; [done|right; by left|by left|]. intros w. by apply workloads_of_namespace.
Qed.

Section listing.
Context `{Quantities} `{Unicode} `{PortFrom} `{NetworkOrderLaws} `{LabelOrder} `{DockerJSON} (dynamic : bool).

Lemma inspect_mounts_safe (w : containerWorkload) volumes h :
  safe api_rely (inspection_requests (Namespace w)) (inspect_mounts w volumes) h.
Proof.
  revert h. induction volumes as [|v volumes IH]; intros h; cbn [inspect_mounts]; [apply safe_ret|].
  destruct (Vol_Source v); try apply IH. apply safe_bind; [by apply safe_call|].
  intros h1 [pvc|e] _; [|apply safe_ret]. apply safe_bind_res; [apply IH|]. intros; apply safe_ret.
Qed.

Lemma inspectContainer_safe id (w : containerWorkload) h :
  Namespace w = id_namespace id →
  safe api_rely (inspection_requests (id_namespace id)) (inspectContainer dynamic (Some id) w) h.
Proof.
  intros Hns. unfold inspectContainer. destruct (containerMetadata w) as [[config host]|e]; [|apply safe_ret].
  apply safe_bind; [by apply safe_call|]. intros h1 [pods|e] _; [|apply safe_ret].
  apply safe_bind; [by apply safe_call|]. intros h2 now _. destruct (containerState w pods now) as [s n].
  destruct (template_resources w _); [|apply safe_ret].
  apply safe_bind_res.
  { unfold containerPortBindings. apply safe_bind; [by apply safe_call|]. intros ? [] _; apply safe_ret. }
  intros h3 ports _. apply safe_bind_res; [|intros h4 networks _; apply safe_bind_res].
  - unfold containerNetworkState. destruct (HostNetwork _); [apply safe_ret|].
    destruct (decodeContainerAliases _); [|apply safe_ret].
    apply safe_bind_res; [|intros; apply safe_ret]. destruct dynamic; [|apply safe_ret].
    eapply safe_mono; [apply inspection_network_reads|apply networkList_wp].
  - rewrite <- Hns. apply inspect_mounts_safe.
  - intros; apply safe_ret.
Qed.

Context `{TimeParse} `{Regexp} `{WorkloadOrder}.

(** A container, its inspection, and the time its summary was made at. *)
Abbreviation entry := (containerWorkload * InspectResponse * Z)%type.

(** The line of a listing, for a container that is shown. *)
Definition shown (options : ContainerListOptions) (e : entry) : option Summary :=
  let '(w, inspect, now) := e in
  let summary := containerSummary w inspect now in
  if listed options inspect summary then Some summary else None.

(** What a listing should show: the containers that run, or all if all are asked for, of
    those that match every filter: by identifier, whole or short, by name, by state, by
    label and by image. *)
Definition selects (options : ContainerListOptions) (e : entry) : Prop :=
  let '(w, inspect, now) := e in
  let f := lo_Filters options in
  (lo_All options = true ∨ st_Running (in_State inspect) = true) ∧
  (FuzzyMatch f "id" (in_ID inspect) = true ∨ FuzzyMatch f "id" (Truncate (in_ID inspect)) = true) ∧
  Match f "name" (TrimPrefix (in_Name inspect) "/") = true ∧
  ExactMatch f "status" (ContainerState_text (st_Status (in_State inspect))) = true ∧
  MatchKVList f "label" (Docker.Labels (in_Config inspect)) = true ∧
  (FuzzyMatch f "ancestor" (Image (in_Config inspect)) = true ∨ FuzzyMatch f "ancestor" (in_Image inspect) = true).
#[local] Instance selects_dec options e : Decision (selects options e).
Proof. unfold selects. destruct e as [[w inspect] now]. apply _. Defined.

Lemma listed_selects options w inspect now :
  listed options inspect (containerSummary w inspect now) = true ↔ selects options (w, inspect, now).
Proof.
  unfold listed, matchesContainerListFilters, selects. cbn [sm_ID sm_Names sm_State sm_Image sm_ImageID containerSummary hd].
  rewrite !andb_true_iff, !orb_true_iff. tauto.
Qed.

(** How a container is shown: as it was inspected. *)
Definition describes (e : entry) (s : Summary) : Prop :=
  let '(w, inspect, now) := e in
  sm_ID s = in_ID inspect ∧ sm_Names s = [in_Name inspect] ∧
  sm_Image s = Image (in_Config inspect) ∧ sm_ImageID s = in_Image inspect ∧
  sm_State s = st_Status (in_State inspect) ∧ sm_Health s = st_Health (in_State inspect) ∧
  sm_Created s = (CreationTimestamp w / 10 ^ 9 - 62135596800)%Z ∧
  sm_Labels s = Docker.Labels (in_Config inspect) ∧ sm_NetworkMode s = NetworkMode (in_HostConfig inspect) ∧
  sm_Networks s = in_Networks inspect ∧ sm_Status s = status_text w (in_State inspect) now ∧
  ∀ p, p ∈ sm_Ports s ↔ ∃ port bindings b, in_Ports inspect !! port = Some bindings ∧ b ∈ bindings ∧
    p = {| ps_PrivatePort := Num port; ps_PublicPort := ParseUint16_value (Binding_HostPort b);
           ps_Type := Proto port; ps_IP := HostIP b |}.

Lemma containerSummary_describes w inspect now : describes (w, inspect, now) (containerSummary w inspect now).
Proof.
  unfold describes. split_and!; try done. intros p. cbn [sm_Ports containerSummary]. unfold port_summaries.
  rewrite list_elem_of_bind. split.
  - intros ([port bindings] & Hp & Hin%elem_of_map_to_list). apply list_elem_of_fmap in Hp as (b & -> & Hb).
    by exists port, bindings, b.
  - intros (port & bindings & b & Hin & Hb & ->). exists (port, bindings). split; [|by apply elem_of_map_to_list].
    apply list_elem_of_fmap. by exists b.
Qed.

Lemma shown_describes options (entries : list entry) :
  Forall2 describes (filter (selects options) entries) (omap (shown options) entries).
Proof.
  induction entries as [|[[w inspect] now] entries IH]; [constructor|]. cbn [omap list_omap shown].
  pose proof (listed_selects options w inspect now) as Hl.
  destruct (listed options inspect (containerSummary w inspect now)).
  - rewrite filter_cons_True by by apply Hl. constructor; [apply containerSummary_describes|exact IH].
  - rewrite filter_cons_False by (intros Hsel; by apply Hl in Hsel). exact IH.
Qed.

(** The containers of a namespace: its Deployments but those of Swarm services, and its
    Jobs with a container's configuration. *)
Definition containers_of (ds : list Deployment) (js : list Job) : list containerWorkload :=
  ((deploymentWorkload <$> filter (λ d : Deployment, mget (Labels d) "dink.io/swarm" = "") ds) ++
   (jobWorkload <$> filter (λ j : Job, mget (Annotations j) containerConfigAnnotation ≠ "") js))%list.

Lemma workloads_of_containers ds js : workloads_of ds js = containers_of ds js.
Proof.
  unfold workloads_of, containers_of. f_equal; f_equal; apply list_filter_iff; intros x;
    [unfold isContainerDeployment|unfold isContainerJob]; apply bool_decide_eq_true.
Qed.

(** It was inspected between two moments. *)
Definition inspected_between (ctx : context) (h h' : hist) (e : entry) : Prop :=
  ∃ h1 h2, h `suffix_of` h1 ∧ h2 `suffix_of` h' ∧ exec (inspectContainer dynamic ctx e.1.1) h1 h2 (Ok e.1.2).

Lemma inspected_widen ctx h h1 h2 h' (entries : list entry) :
  h `suffix_of` h1 → h2 `suffix_of` h' →
  Forall (inspected_between ctx h1 h2) entries → Forall (inspected_between ctx h h') entries.
Proof.
  intros Hs Hs' Hall. eapply Forall_impl; [exact Hall|]. intros e (h3 & h4 & ? & ? & ?). exists h3, h4.
  split_and!; [by etrans|by etrans|done].
Qed.

(** The containers that were looked at: all of them, unless the limit was reached. *)
Definition looked_at (options : ContainerListOptions) (ws : list containerWorkload)
    (entries : list entry) (shown : Z) : Prop :=
  if decide (0 < lo_Limit options ∧ shown = lo_Limit options)%Z
  then entries.*1.*1 `prefix_of` ws else entries.*1.*1 = ws.

Lemma list_containers_safe id options count ws h :
  (∀ w : containerWorkload, w ∈ ws → Namespace w = id_namespace id) →
  safe api_rely (inspection_requests (id_namespace id)) (list_containers dynamic (Some id) options count ws) h.
Proof.
  revert count h. induction ws as [|w ws IH]; intros count h Hns; cbn [list_containers]; [apply safe_ret|].
  assert (∀ count h, safe api_rely (inspection_requests (id_namespace id))
            (list_containers dynamic (Some id) options count ws) h) as Hrest by (intros; apply IH; set_solver).
  apply safe_bind_res; [apply inspectContainer_safe, Hns; set_solver|]. intros h1 inspect _.
  apply safe_bind; [by apply safe_call|]. intros h2 now _. cbv zeta.
  destruct (negb _); [apply Hrest|]. destruct (_ && _); [apply safe_ret|].
  apply safe_bind_res; [apply Hrest|]. intros; apply safe_ret.
Qed.

Lemma list_containers_spec ctx options count ws h h' l :
  (0 ≤ count)%Z → (0 < lo_Limit options → count < lo_Limit options)%Z →
  exec (list_containers dynamic ctx options count ws) h h' (Ok l) →
  ∃ entries : list entry,
    l = omap (shown options) entries ∧
    looked_at options ws entries (count + Z.of_nat (length l)) ∧
    (0 < lo_Limit options → count + Z.of_nat (length l) ≤ lo_Limit options)%Z ∧
    Forall (inspected_between ctx h h') entries.
Proof.
  revert count h h' l. induction ws as [|w ws IH]; intros count h h' l Hc Hl; cbn [list_containers].
  { intros [[= ->] _]%exec_inv. exists []. split_and!; [done| |simpl; lia|done].
    unfold looked_at. by destruct (decide _). }
  intros (h1 & inspect & Hi & Hx)%exec_bind_res_ok. rewrite exec_bind in Hx.
  destruct Hx as (h2 & now & Hnow & Hx). cbv zeta in Hx.
  pose proof (exec_suffix _ _ _ _ Hi) as Hs1. pose proof (exec_suffix _ _ _ _ Hnow) as Hs2.
  pose proof (exec_suffix _ _ _ _ Hx) as Hs3.
  assert (inspected_between ctx h h' (w, inspect, now)) as Hhead
    by (exists h, h1; split_and!; [done|by etrans|done]).
  assert (h `suffix_of` h2) as Hs by by etrans.
  destruct (listed options inspect (containerSummary w inspect now)) eqn:El; simpl in Hx.
  - destruct ((0 <? lo_Limit options)%Z && (count + 1 =? lo_Limit options)%Z) eqn:Elim.
    + apply exec_inv in Hx as [[= ->] _]. exists [(w, inspect, now)]. simpl. rewrite El.
      split_and!; [done| |lia|by constructor]. unfold looked_at.
      rewrite decide_True by lia. simpl. apply prefix_cons, prefix_nil.
    + apply exec_bind_res_ok in Hx as (h5 & rest & Hrest & Hx). apply exec_inv in Hx as [[= ->] ->].
      destruct (IH (count + 1)%Z h2 h5 rest) as (entries & -> & Hlook & Hlen & Hall); [lia|lia|done|].
      exists ((w, inspect, now) :: entries). simpl. rewrite El.
      replace (count + Z.of_nat (S (length (omap (shown options) entries))))%Z
        with (count + 1 + Z.of_nat (length (omap (shown options) entries)))%Z by lia.
      split_and!; [done| |done|constructor; [done|by apply (inspected_widen _ _ _ _ _ _ Hs (reflexivity _))]].
      unfold looked_at in *. simpl. destruct (decide _); [by apply prefix_cons|by f_equal].
  - destruct (IH count h2 h' l) as (entries & -> & Hlook & Hlen & Hall); [done|done|done|].
    exists ((w, inspect, now) :: entries). simpl. rewrite El.
    split_and!; [done| |done|constructor; [done|by apply (inspected_widen _ _ _ _ _ _ Hs (reflexivity _))]].
    unfold looked_at in *. simpl. destruct (decide _); [by apply prefix_cons|by f_equal].
Qed.

(** C14: a listing shows exactly the containers it should.  Only the namespace
    of the client is read, and nothing is written but its missing builtin networks.
    What is looked at are the containers that the namespace was seen to have, its
    Deployments but those of services and its Jobs with a container's configuration, latest
    first, each as it was inspected during the listing.  What is shown are those that match
    every filter and run, or all that match if all are asked for, each as it was inspected;
    up to the limit if there is one, and all of them if it is not reached. *)
Theorem Containers_exact `{!WorkloadOrderLaws} id options h h' r :
  exec (Containers dynamic (Some id) options) h h' r → answered api_rely h h' →
  let o := default default_list_options options in
  guarded (inspection_requests (id_namespace id)) h h' ∧
  ∀ l, r = Ok l → ∃ ds js ws (entries : list entry),
    Event _ (KList KDeployment (id_namespace id) "") (Ok ds) ∈ h' ∧
    Event _ (KList KJob (id_namespace id) "") (Ok js) ∈ h' ∧
    ws ≡ₚ containers_of ds js ∧ StronglySorted created_after ws ∧
    Forall2 describes (filter (selects o) entries) l ∧
    looked_at o ws entries (Z.of_nat (length l)) ∧
    (0 < lo_Limit o → Z.of_nat (length l) ≤ lo_Limit o)%Z ∧
    Forall (inspected_between (Some id) h h') entries ∧
    ∀ e : entry, e ∈ entries → Namespace e.1.1 = id_namespace id.
Proof.
  unfold Containers. set (o := default default_list_options options). cbv zeta. intros Hex Hans.
  destruct (lo_Limit o <? 0)%Z eqn:E0.
  { apply exec_inv in Hex as [-> ->]. split; [constructor|done]. }
  destruct (validateContainerListFilters (lo_Filters o)) as [u|e];
    [|apply exec_inv in Hex as [-> ->]; split; [constructor|done]].
  split.
  - eapply (wp_exec _ _ _ _ _ _ (λ _ _, True)); [|exact Hex|exact Hans].
    rewrite wp_bind_res. eapply wp_mono; [apply inspection_reads_in| |apply listWorkloads_seen].
    intros h1 [ws|e] Hws; [|done]. destruct Hws as (ds & js & -> & _ & _ & Hns).
    eapply safe_wp; [done|]. apply list_containers_safe. intros w. rewrite sort_workloads_perm. apply Hns.
  - intros l ->. apply exec_bind_res_ok in Hex as (h1 & ws & Hws & Hl).
    pose proof (exec_suffix _ _ _ _ Hl) as Hs. pose proof (exec_suffix _ _ _ _ Hws) as Hs0.
    destruct (wp_exec _ _ _ _ _ _ _ (listWorkloads_seen _ h) Hws) as [(ds & js & -> & Hds & Hjs & Hns) _];
      [by eapply answered_until|].
    destruct (list_containers_spec _ o 0 _ _ _ _ (Z.le_refl 0) ltac:(done) Hl)
      as (entries & Hshown & Hlook & Hlen & Hall).
    exists ds, js, (sort_workloads (workloads_of ds js)), entries. destruct Hs as [later ->].
    split_and!; [apply elem_of_app; by right|apply elem_of_app; by right
      |rewrite <- workloads_of_containers; apply sort_workloads_perm
      |apply sort_workloads_sorted|rewrite Hshown; apply shown_describes|done|done|by eapply inspected_widen|].
    assert (entries.*1.*1 `prefix_of` sort_workloads (workloads_of ds js)) as [rest Hrest].
    { unfold looked_at in Hlook. destruct (decide _); [done|]. by rewrite Hlook. }
    intros e He. apply Hns. rewrite <- (sort_workloads_perm (workloads_of ds js)), Hrest. apply elem_of_app.
    left. apply list_elem_of_fmap. exists e.1. split; [done|]. apply list_elem_of_fmap. by exists e.
Qed.
End listing.

(** ** Witnesses *)

Definition demo_label_order : LabelOrder := {| range_labels := map_to_list |}.
Definition no_regexp : Regexp := {| MatchString _ _ := None |}.

#[local] Instance created_after_dec : RelDecision created_after.
Proof. intros v w. unfold created_after. apply _. Defined.
#[local] Instance created_after_total : Total created_after.
Proof. intros v w. unfold created_after. lia. Qed.
#[local] Instance created_after_trans : Transitive created_after.
Proof. intros u v w. unfold created_after. lia. Qed.

Definition demo_workload_order : WorkloadOrder := {| sort_workloads := merge_sort created_after |}.

Lemma demo_workload_order_laws : @WorkloadOrderLaws demo_workload_order.
Proof. split; intros l; [apply merge_sort_Permutation|apply (StronglySorted_merge_sort created_after)]. Qed.

(** The Pod of [web] is in a crash loop: its container ended with the code 3 and is
    not running again yet. *)
Definition crashing_pod : Pod := {|
  pod_meta := pod_meta (sample_pod "a" "rs-1" "web-1"); Phase := "Running";
  ContainerStatuses := [{| CS_Name := "web"; CS_ContainerID := ""; CS_ImageID := "docker.io/web@sha256:ab";
    CS_Ready := false; CS_RestartCount := 4; CS_Running := None; CS_Terminated := None;
    CS_Waiting := Some ("back-off", "CrashLoopBackOff");
    CS_LastTerminated := Some {| TS_ExitCode := 3; TS_Reason := "Error"; TS_Message := "";
      TS_FinishedAt := 9; TS_ContainerID := "" |} |}];
  pod_Volumes := []; pod_Containers := []; NodeName := ""; PodIP := "10.0.0.7"; StartTime := None;
  Pod_Message := ""; Pod_Reason := "" |}.

Lemma containerState_exact_witness :
  let w := deploymentWorkload (sample_deployment "acme" "web" "3f25-04e0" 1) in
  let '(s, restarts) := containerState w [crashing_pod] 100 in
  restarts = 4%Z ∧ st_Status s = StateRestarting ∧ st_ExitCode s = 3%Z ∧ st_Running s = true.
Proof.
  intros w. pose proof (containerState_exact w [crashing_pod] 100) as H.
  destruct (containerState w [crashing_pod] 100) as [s restarts].
  destruct H as [_ H]. destruct (H eq_refl) as (Hr & Hs & _).
  destruct (Hs eq_refl) as (_ & Ht & _). rewrite (Ht _ _ eq_refl (or_intror (conj eq_refl eq_refl))).
  split; [exact Hr|]. split; [reflexivity|]. split; reflexivity.
Defined.

(** [web] is restarting and [db] is stopped: only the first is listed. *)
Lemma Containers_exact_witness :
  let p := @Containers demo_quantities ascii_unicode demo_port_from demo_network_order demo_label_order
             demo_docker_json true no_time no_regexp demo_workload_order (Some acme_identity) None in
  guarded (inspection_requests "acme") [] (simulate p (set_db KPod [crashing_pod] sample_cluster)).1.2 ∧
  match (simulate p (set_db KPod [crashing_pod] sample_cluster)).1.1 with
  | Ok l => (λ s, (sm_Names s, sm_Status s, sm_ImageID s)) <$> l = [(["/web"], "Restarting (3)", "sha256:ab")]
  | Err _ => False
  end.
Proof.
  intros p.
  destruct (@Containers_exact demo_quantities ascii_unicode demo_port_from demo_network_order
    demo_network_order_laws demo_label_order demo_docker_json true no_time no_regexp demo_workload_order
    demo_workload_order_laws acme_identity None [] _ _
    (simulate_exec p (set_db KPod [crashing_pod] sample_cluster))
    (simulate_answered p (set_db KPod [crashing_pod] sample_cluster))) as [Hg _].
  split; [exact Hg|]. vm_compute. reflexivity.
Defined.
