(* ===== verification/ImageConfig.v ===== *)
(** * ImageConfig: the image's part of a container's configuration

    [core/translator/container_create.go]: the configuration an image carries, how
    a request is completed with it, the environment and the health probe. *)

From S2P Require Import Prelude GoStrings Errors Docker.
From S2P Require Import Kube.

Local Open Scope string_scope.

(** [network.ParsePort] *)
Class PortParser := { ParsePort : string → option Port }.

Definition containerConfigFromImage `{PortParser} (image : option OCIImageConfig) : option Config :=
  match image with
  | None => None
  | Some image => Some {|
      User := oci_User image;
      ExposedPorts := list_to_set (omap ParsePort (elements (oci_ExposedPorts image)));
      Tty := false; OpenStdin := false;
      Docker.Env := oci_Env image;
      Cmd := oci_Cmd image;
      Healthcheck := oci_Healthcheck image;
      Image := "";
      Config_Volumes := oci_Volumes image;
      WorkingDir := oci_WorkingDir image;
      Entrypoint := oci_Entrypoint image;
      OnBuild := oci_OnBuild image;
      Docker.Labels := oci_Labels image;
      StopSignal := oci_StopSignal image;
      Shell := oci_Shell image |}
  end.

(** ** [mergeImageConfig] *)

(** [if s == "" { s = other }], and the same for a list and a number. *)
Definition or_string (s other : string) : string := if decide (s = "") then other else s.
Definition or_list {A} (l other : list A) : list A := match l with [] => other | _ => l end.
Definition or_number (n other : Z) : Z := if decide (n = 0%Z) then other else n.

Definition env_key (entry : string) : string := (Cut entry "=").1.1.

(** The entries of the image whose key the request does not set. *)
Definition merge_env (env image : list string) : list string :=
  let keys := env_key <$> env in
  (env ++ List.filter (λ e, negb (bool_decide (env_key e ∈ keys))) image)%list.

Definition merge_healthcheck (request image : option HealthConfig) : option HealthConfig :=
  match request, image with
  | None, _ => image
  | _, None => request
  | Some r, Some i => Some {|
      Test := or_list (Test r) (Test i);
      Interval := or_number (Interval r) (Interval i);
      Timeout := or_number (Timeout r) (Timeout i);
      StartPeriod := or_number (StartPeriod r) (StartPeriod i);
      StartInterval := or_number (StartInterval r) (StartInterval i);
      Retries := or_number (Retries r) (Retries i) |}
  end.

(** The entrypoint and command: those of the image are used only if the request has
    no entrypoint. *)
Definition merge_command (request image : Config) : option (list string) * list string :=
  match Entrypoint request with
  | Some (_ :: _) => (Entrypoint request, Cmd request)
  | Some [] => (Some [], or_list (Cmd request) (Cmd image))
  | None => (Entrypoint image, or_list (Cmd request) (Cmd image))
  end.

Definition mergeImageConfig (request image : option Config) : res Config :=
  match request, image with
  | None, _ => Err (errors_New "container configuration is required")
  | Some request, None => Ok request
  | Some request, Some image =>
      let '(entrypoint, cmd) := merge_command request image in
      Ok {|
        User := or_string (User request) (User image);
        ExposedPorts := ExposedPorts request ∪ ExposedPorts image;
        Tty := Tty request;
        OpenStdin := OpenStdin request;
        Docker.Env := merge_env (Docker.Env request) (Docker.Env image);
        Cmd := cmd;
        Healthcheck := merge_healthcheck (Healthcheck request) (Healthcheck image);
        Image := Image request;
        Config_Volumes := Config_Volumes request ∪ Config_Volumes image;
        WorkingDir := or_string (WorkingDir request) (WorkingDir image);
        Entrypoint := entrypoint;
        OnBuild := OnBuild request;
        Docker.Labels := Docker.Labels request ∪ Docker.Labels image;
        StopSignal := or_string (StopSignal request) (StopSignal image);
        Shell := or_list (Shell request) (Shell image) |}
  end.

Definition containerEnv (env : list string) : list EnvVar :=
  (λ value, let '(name, val, found) := Cut value "=" in
            {| Env_Name := name; Env_Value := if found : bool then val else "";
               Env_SecretKeyRef := None |}) <$> env.

(** ** [dockerHealthProbe] *)

Local Open Scope Z_scope.

Definition time_Second : Z := 1000000000.
Definition max_int32 : Z := 2147483647.

Definition probe_error (message : string) : error := errors_New message.

Definition dockerProbeSeconds (duration defaultDuration : Z) : res Z :=
  let duration := or_number duration defaultDuration in
  if duration <? 0 then Err (probe_error "Docker healthcheck %s cannot be negative")
  else if duration =? 0 then Ok 0
  else
    let seconds := Z.quot (duration - 1) time_Second + 1 in
    if max_int32 <? seconds
    then Err (probe_error "Docker healthcheck %s exceeds Kubernetes probe limits")
    else Ok seconds.

(** [strings.Join(l, " ")] *)
Fixpoint join_spaces (l : list string) : string :=
  match l with
  | [] => ""
  | [s] => s
  | s :: l => s +:+ " " +:+ join_spaces l
  end.

(** The probe's command; [None] if there is no probe. *)
Definition probe_command (test shell : list string) : res (option (list string)) :=
  match test with
  | [] => Ok None
  | kind :: args =>
      if decide (kind = "NONE"%string) then
        if decide (args = []) then Ok None
        else Err (probe_error "Docker healthcheck NONE cannot include a command")
      else if decide (kind = "CMD"%string) then
        if decide (args = []) then Err (probe_error "Docker healthcheck CMD requires a command")
        else Ok (Some args)
      else if decide (kind = "CMD-SHELL"%string) then
        if decide (args = []) then Err (probe_error "Docker healthcheck CMD-SHELL requires a command")
        else Ok (Some (or_list shell ["/bin/sh"%string] ++ ["-c"%string; join_spaces args])%list)
      else Err (probe_error "unsupported Docker healthcheck test %q")
  end.

Definition sub_second (duration : Z) : bool := negb (Z.rem duration time_Second =? 0).

Definition probe_warnings (healthcheck : HealthConfig) : list string :=
  ((if 0 <? StartPeriod healthcheck
    then ["Docker healthcheck start period is approximated with Kubernetes readiness-probe initial delay."%string]
    else []) ++
   (if sub_second (Interval healthcheck) || sub_second (Timeout healthcheck) ||
       sub_second (StartPeriod healthcheck)
    then ["Sub-second Docker healthcheck timings are rounded up to whole seconds for Kubernetes probes."%string]
    else []) ++
   (if 0 <? StartInterval healthcheck
    then ["Docker healthcheck start interval is not supported by Kubernetes probes; the regular interval is used during startup."%string]
    else []))%list.

Definition dockerHealthProbe (healthcheck : option HealthConfig) (shell : list string) :
    res (option Probe * list string) :=
  match healthcheck with
  | None => Ok (None, [])
  | Some healthcheck =>
      let? command := probe_command (Test healthcheck) shell in
      match command with
      | None => Ok (None, [])
      | Some command =>
          let? interval := dockerProbeSeconds (Interval healthcheck) (30 * time_Second) in
          let? timeout := dockerProbeSeconds (Timeout healthcheck) (30 * time_Second) in
          let? initialDelay := dockerProbeSeconds (StartPeriod healthcheck) 0 in
          let retries := or_number (Retries healthcheck) 3 in
          if (retries <? 0) || (max_int32 <? retries)
          then Err (probe_error "Docker healthcheck retries must be between 1 and %d")
          else if StartInterval healthcheck <? 0
          then Err (probe_error "Docker healthcheck start interval cannot be negative")
          else Ok (Some {|
            Probe_Command := command;
            InitialDelaySeconds := if 0 <? StartPeriod healthcheck then initialDelay else 0;
            TimeoutSeconds := timeout;
            PeriodSeconds := interval;
            SuccessThreshold := 1;
            FailureThreshold := wrap_signed 32 retries |}, probe_warnings healthcheck)
      end
  end.

(** ** Properties: the environment and merging *)

Close Scope Z_scope.

(** The value an entry list gives a variable: that of the last entry for it. *)
Definition env_value (env : list string) (key : string) : option string :=
  last (omap (λ e, let '(name, val, found) := Cut e "=" in
                   if bool_decide (name = key) then Some (if found : bool then val else "") else None)
          env).

Definition entry_value (key e : string) : option string :=
  let '(name, val, found) := Cut e "=" in
  if bool_decide (name = key) then Some (if found : bool then val else "") else None.

Lemma env_value_eq env key : env_value env key = last (omap (entry_value key) env).
Proof. done. Qed.

Lemma entry_value_key key e : is_Some (entry_value key e) ↔ env_key e = key.
Proof.
  unfold entry_value, env_key. destruct (Cut e "=") as [[name val] found]. simpl.
  destruct (bool_decide_reflect (name = key)); split; try done;
    intros Hs; by destruct Hs.
Qed.

Lemma omap_entry_none env key :
  key ∉ (env_key <$> env) → omap (entry_value key) env = [].
Proof.
  induction env as [|e env IH]; simpl; [done|]. rewrite not_elem_of_cons. intros [Hne Hin].
  destruct (entry_value key e) eqn:E; [|by apply IH].
  destruct Hne. symmetry. apply entry_value_key. by rewrite E.
Qed.

Lemma omap_entry_some env key :
  key ∈ (env_key <$> env) → omap (entry_value key) env ≠ [].
Proof.
  intros (e & -> & He)%list_elem_of_fmap Hnil.
  destruct (proj2 (entry_value_key (env_key e) e) eq_refl) as [v Hv].
  assert (v ∈ omap (entry_value (env_key e)) env) as Hin by (apply list_elem_of_omap; eauto).
  rewrite Hnil in Hin. by apply elem_of_nil in Hin.
Qed.

(** The entries of the image that stay are those of keys the request lacks. *)
Lemma omap_filter_image (keys image : list string) key :
  omap (entry_value key) (List.filter (λ e, negb (bool_decide (env_key e ∈ keys))) image) =
  if decide (key ∈ keys) then [] else omap (entry_value key) image.
Proof.
  induction image as [|e image IH]; simpl; [by destruct (decide _)|].
  destruct (entry_value key e) as [v|] eqn:Ev.
  - assert (env_key e = key) as Hk by (apply entry_value_key; by rewrite Ev). rewrite Hk.
    destruct (decide (key ∈ keys)) as [Hin|Hin].
    + rewrite bool_decide_true by done. exact IH.
    + rewrite bool_decide_false by done. simpl. rewrite Ev. f_equal. exact IH.
  - destruct (negb _); simpl; rewrite ?Ev; exact IH.
Qed.

Lemma merge_env_value env image key :
  env_value (merge_env env image) key =
  match env_value env key with Some v => Some v | None => env_value image key end.
Proof.
  rewrite !env_value_eq. unfold merge_env. cbv zeta. rewrite omap_app, omap_filter_image.
  destruct (decide (key ∈ env_key <$> env)) as [Hin|Hin].
  - rewrite app_nil_r. apply omap_entry_some in Hin.
    destruct (omap _ env) as [|v l] using rev_ind; [done|]. by rewrite last_snoc.
  - by rewrite (omap_entry_none env key Hin).
Qed.

Lemma merge_env_idem env image : merge_env (merge_env env image) image = merge_env env image.
Proof.
  unfold merge_env at 1. cbv zeta. set (f := λ e, negb _).
  assert (∀ l, (∀ e, e ∈ l → f e = false) → List.filter f l = []) as Hnone.
  { induction l as [|e l IH]; intros Hl; simpl; [done|]. rewrite Hl by set_solver.
    apply IH. set_solver. }
  rewrite Hnone; [apply app_nil_r|].
  intros e He. apply negb_false_iff, bool_decide_eq_true, list_elem_of_fmap.
  unfold merge_env. destruct (decide (env_key e ∈ env_key <$> env)) as [Hin|Hin].
  - apply list_elem_of_fmap in Hin as (e' & ? & ?). exists e'. rewrite elem_of_app. auto.
  - exists e. split; [done|]. apply elem_of_app. right. apply list_elem_of_In, List.filter_In.
    rewrite <- list_elem_of_In. split; [done|]. by rewrite bool_decide_false.
Qed.

Lemma or_string_idem s t : or_string (or_string s t) t = or_string s t.
Proof. unfold or_string. by repeat destruct (decide _). Qed.
Lemma or_number_idem n m : or_number (or_number n m) m = or_number n m.
Proof. unfold or_number. by repeat destruct (decide _). Qed.
Lemma or_list_idem {A} (l k : list A) : or_list (or_list l k) k = or_list l k.
Proof. by destruct l, k. Qed.

Lemma merge_healthcheck_idem r i :
  merge_healthcheck (merge_healthcheck r i) i = merge_healthcheck r i.
Proof.
  destruct r as [r|], i as [i|]; simpl; try done; f_equal.
  - by rewrite !or_list_idem, !or_number_idem.
  - destruct i as [t ? ? ? ? ?]; simpl. unfold or_number.
    repeat destruct (decide _); by destruct t.
Qed.

Lemma union_idem_r `{Countable A} (X Y : gset A) : X ∪ Y ∪ Y = X ∪ Y.
Proof. set_solver. Qed.

Lemma map_union_idem_r (m n : smap) : m ∪ n ∪ n = m ∪ n.
Proof. by rewrite <- map_union_assoc, map_union_idemp. Qed.

(** Either the request has an entrypoint, then the image's command line is not used
    at all; or the image's entrypoint is used unless it was explicitly cleared, and
    its command unless the request has one. *)
Definition command_line (request image : Config) : list string * list string :=
  match Entrypoint request with
  | Some ((_ :: _) as entrypoint) => (entrypoint, Cmd request)
  | Some [] => ([], or_list (Cmd request) (Cmd image))
  | None => (default [] (Entrypoint image), or_list (Cmd request) (Cmd image))
  end.

Lemma mergeImageConfig_idem request image merged :
  mergeImageConfig (Some request) (Some image) = Ok merged →
  mergeImageConfig (Some merged) (Some image) = Ok merged.
Proof.
  unfold mergeImageConfig. destruct (merge_command request image) as [entrypoint cmd] eqn:Ec.
  intros [= <-]. unfold merge_command in *. simpl.
  assert ((match entrypoint with
           | Some (_ :: _) => (entrypoint, cmd)
           | Some [] => (Some [], or_list cmd (Cmd image))
           | None => (Entrypoint image, or_list cmd (Cmd image))
           end) = (entrypoint, cmd)) as ->.
  { destruct (Entrypoint request) as [[|]|]; simplify_eq; rewrite ?or_list_idem; try done.
    destruct (Entrypoint image) as [[|]|]; rewrite ?or_list_idem; done. }
  by rewrite !or_string_idem, !or_list_idem, !union_idem_r, map_union_idem_r, merge_env_idem,
    merge_healthcheck_idem.
Qed.

(** the request has precedence over the image, field by field.  The merged
    configuration gives every variable the request's value or else the image's,
    every label likewise, exposes the ports and mounts the volumes of both, takes
    the user, directory, signal, shell and each health check setting from the
    request unless it is unset there, and its command line is that of
    [command_line]; merging the image a second time changes nothing, so that a
    container recreated from its stored configuration gets the same one. *)
Theorem mergeImageConfig_precedence request image merged :
  mergeImageConfig (Some request) (Some image) = Ok merged →
  (∀ key, env_value (Docker.Env merged) key =
     match env_value (Docker.Env request) key with
     | Some v => Some v | None => env_value (Docker.Env image) key end) ∧
  (∀ key, Docker.Labels merged !! key =
     match Docker.Labels request !! key with
     | Some v => Some v | None => Docker.Labels image !! key end) ∧
  (∀ port, port ∈ ExposedPorts merged ↔ port ∈ ExposedPorts request ∨ port ∈ ExposedPorts image) ∧
  (∀ path, path ∈ Config_Volumes merged ↔
     path ∈ Config_Volumes request ∨ path ∈ Config_Volumes image) ∧
  (default [] (Entrypoint merged), Cmd merged) = command_line request image ∧
  (User request ≠ "" → User merged = User request) ∧
  (WorkingDir request ≠ "" → WorkingDir merged = WorkingDir request) ∧
  (Healthcheck request = None → Healthcheck merged = Healthcheck image) ∧
  mergeImageConfig (Some merged) (Some image) = Ok merged.
Proof.
  intros Hm. pose proof (mergeImageConfig_idem _ _ _ Hm) as Hidem. revert Hm.
  unfold mergeImageConfig. destruct (merge_command request image) as [entrypoint cmd] eqn:Ec.
  intros [= <-]. simpl. split_and!.
  - intros key. apply merge_env_value.
  - intros key. rewrite lookup_union. by destruct (Docker.Labels request !! key), (_ !! key).
  - intros port. apply elem_of_union.
  - intros path. apply elem_of_union.
  - unfold merge_command in Ec. unfold command_line.
    destruct (Entrypoint request) as [[|]|]; by injection Ec as <- <-.
  - intros Hu. unfold or_string. by rewrite decide_False.
  - intros Hu. unfold or_string. by rewrite decide_False.
  - by intros ->.
  - exact Hidem.
Qed.

(** ** Properties: the health probe *)

Local Open Scope Z_scope.

(** The seconds a duration is rounded up to. *)
Definition ceil_seconds (duration : Z) : Z := (duration + time_Second - 1) / time_Second.

Lemma dockerProbeSeconds_ok duration default seconds :
  0 ≤ default →
  dockerProbeSeconds duration default = Ok seconds →
  0 ≤ duration ∧ seconds = ceil_seconds (or_number duration default) ∧ 0 ≤ seconds ≤ max_int32 ∧
  (0 < or_number duration default → 0 < seconds).
Proof.
  intros Hd. unfold dockerProbeSeconds, ceil_seconds.
  assert (0 ≤ or_number duration default → 0 ≤ duration) as Hor
    by (unfold or_number; destruct (decide (duration = 0)); lia).
  destruct (Z.ltb_spec (or_number duration default) 0); [done|].
  destruct (Z.eqb_spec (or_number duration default) 0) as [He|He].
  { intros [= <-]. rewrite He. unfold max_int32. split_and!; try lia; done. }
  destruct (Z.ltb_spec max_int32 (Z.quot (or_number duration default - 1) time_Second + 1)); [done|].
  intros [= <-]. rewrite Z.quot_div_nonneg in * by (unfold time_Second; lia).
  set (d := or_number duration default) in *.
  replace (d + time_Second - 1) with (d - 1 + 1 * time_Second) by lia.
  rewrite Z.div_add by (unfold time_Second; lia).
  assert (0 ≤ (d - 1) / time_Second) by (apply Z.div_pos; unfold time_Second; lia).
  split_and!; lia.
Qed.

Lemma dockerProbeSeconds_error duration default e :
  0 ≤ default ≤ max_int32 * time_Second →
  dockerProbeSeconds duration default = Err e → duration < 0 ∨ max_int32 * time_Second < duration.
Proof.
  intros Hd. unfold dockerProbeSeconds, or_number.
  destruct (decide (duration = 0)) as [->|Hz].
  - destruct (Z.ltb_spec default 0); [lia|]. destruct (Z.eqb_spec default 0); [done|].
    destruct (Z.ltb_spec max_int32 (Z.quot (default - 1) time_Second + 1)) as [Hlt|]; [|done].
    rewrite Z.quot_div_nonneg in Hlt by (unfold time_Second; lia).
    pose proof (Z.mul_div_le (default - 1) time_Second). unfold max_int32, time_Second in *. lia.
  - destruct (Z.ltb_spec duration 0); [by left|]. destruct (Z.eqb_spec duration 0); [done|].
    destruct (Z.ltb_spec max_int32 (Z.quot (duration - 1) time_Second + 1)) as [Hlt|]; [|done].
    rewrite Z.quot_div_nonneg in Hlt by (unfold time_Second; lia).
    pose proof (Z.mul_div_le (duration - 1) time_Second). unfold max_int32, time_Second in *. lia.
Qed.

(** The command a health check asks to run, and how. *)
Definition probe_runs (test shell command : list string) : Prop :=
  (∃ args, test = "CMD"%string :: args ∧ args ≠ [] ∧ command = args) ∨
  (∃ args, test = "CMD-SHELL"%string :: args ∧ args ≠ [] ∧
     command = (or_list shell ["/bin/sh"%string] ++ ["-c"%string; join_spaces args])%list).

Lemma probe_command_ok test shell command :
  probe_command test shell = Ok (Some command) → probe_runs test shell command ∧ command ≠ [].
Proof.
  unfold probe_command, probe_runs. destruct test as [|kind args]; [done|].
  repeat destruct (decide _) as [->|?]; try done; intros [= <-]; (split; [|try done]).
  - left. by exists args.
  - right. by exists args.
  - destruct shell; simpl; [done|]. by destruct shell.
Qed.

(** A health check whose numbers a probe can hold. *)
Definition probe_representable (h : HealthConfig) : Prop :=
  (∀ d, d ∈ [Interval h; Timeout h; StartPeriod h] → 0 ≤ d ≤ max_int32 * time_Second) ∧
  0 ≤ StartInterval h ∧ 0 ≤ Retries h ≤ max_int32.

(** A period or timeout: 30 s by default, rounded up. *)
Lemma period_seconds d seconds :
  dockerProbeSeconds d (30 * time_Second) = Ok seconds →
  seconds = ceil_seconds (or_number d (30 * time_Second)) ∧ 1 ≤ seconds ≤ max_int32.
Proof.
  intros (Hd & -> & Hb & Hpos)%dockerProbeSeconds_ok; [|done]. split; [done|].
  assert (0 < or_number d (30 * time_Second)) as Ho
    by (unfold or_number; destruct (decide _); unfold time_Second; lia).
  specialize (Hpos Ho). lia.
Qed.

(** A delay: none by default, rounded up. *)
Lemma delay_seconds d seconds :
  dockerProbeSeconds d 0 = Ok seconds →
  (if 0 <? d then seconds else 0) = ceil_seconds d ∧ 0 ≤ ceil_seconds d ≤ max_int32.
Proof.
  intros (Hd & -> & Hb & _)%dockerProbeSeconds_ok; [|done].
  assert (or_number d 0 = d) as Ho by (unfold or_number; destruct (decide _); lia).
  rewrite Ho in *. destruct (Z.ltb_spec 0 d); [done|]. by replace d with 0 by lia.
Qed.

Lemma retries_threshold r :
  (or_number r 3 <? 0) || (max_int32 <? or_number r 3) = false →
  wrap_signed 32 (or_number r 3) = or_number r 3 ∧ 1 ≤ or_number r 3 ≤ max_int32.
Proof.
  intros [Hr0 Hr1]%orb_false_iff. apply Z.ltb_ge in Hr0, Hr1.
  assert (0 < or_number r 3) by (unfold or_number in *; destruct (decide (r = 0)); lia).
  rewrite wrap_signed_id by (unfold max_int32 in *; lia). lia.
Qed.

Lemma timing_refused h d default e :
  dockerProbeSeconds d default = Err e → 0 ≤ default ≤ max_int32 * time_Second →
  d ∈ [Interval h; Timeout h; StartPeriod h] → ¬ probe_representable h.
Proof.
  intros Herr Hdef Hd [Hrep _]. apply Hrep in Hd. apply dockerProbeSeconds_error in Herr; lia.
Qed.

Lemma retries_refused h :
  (or_number (Retries h) 3 <? 0) || (max_int32 <? or_number (Retries h) 3) = true →
  ¬ probe_representable h.
Proof.
  rewrite orb_true_iff, !Z.ltb_lt. intros Hr (_ & _ & Hb). unfold or_number, max_int32 in *.
  destruct (decide (Retries h = 0)); lia.
Qed.

(** health checks become valid probes, rounded up.  A probe that
    [dockerHealthProbe] returns runs exactly the requested command, its period and
    timeout are the requested durations (30 s by default) rounded up to whole
    seconds, at least 1 and within 32 bits, its initial delay is the start period
    rounded up, its failure threshold is the number of retries (3 by default);
    without a probe the health check is absent or disabled; a runnable health check
    is refused only if a number is negative or does not fit, or the command is
    malformed. *)
Theorem dockerHealthProbe_valid healthcheck shell :
  match dockerHealthProbe healthcheck shell with
  | Ok (Some probe, _) => ∃ h, healthcheck = Some h ∧
      probe_runs (Test h) shell (Probe_Command probe) ∧ Probe_Command probe ≠ [] ∧
      PeriodSeconds probe = ceil_seconds (or_number (Interval h) (30 * time_Second)) ∧
      1 ≤ PeriodSeconds probe ≤ max_int32 ∧
      TimeoutSeconds probe = ceil_seconds (or_number (Timeout h) (30 * time_Second)) ∧
      1 ≤ TimeoutSeconds probe ≤ max_int32 ∧
      InitialDelaySeconds probe = ceil_seconds (StartPeriod h) ∧
      0 ≤ InitialDelaySeconds probe ≤ max_int32 ∧
      FailureThreshold probe = or_number (Retries h) 3 ∧ 1 ≤ FailureThreshold probe ≤ max_int32 ∧
      SuccessThreshold probe = 1
  | Ok (None, warnings) => warnings = [] ∧
      ∀ h, healthcheck = Some h → Test h = [] ∨ Test h = ["NONE"%string]
  | Err _ => ∃ h, healthcheck = Some h ∧
      (probe_representable h → ∀ command, probe_command (Test h) shell ≠ Ok command)
  end.
Proof.
  destruct healthcheck as [h|]; [|done]. unfold dockerHealthProbe.
  destruct (probe_command (Test h) shell) as [[command|]|e] eqn:Ec; simpl.
  3: { exists h. split; [done|]. intros _ command. by rewrite Ec. }
  2: { split; [done|]. intros ? [= <-]. revert Ec. unfold probe_command.
       destruct (Test h) as [|kind args]; [by left|].
       repeat destruct (decide _) as [->|?]; try done. by right. }
  apply probe_command_ok in Ec as [Hrun Hne].
  destruct (dockerProbeSeconds (Interval h) _) as [interval|e] eqn:Ei; simpl.
  2: { exists h. split; [done|]. intros Hr. by destruct (timing_refused h _ _ _ Ei ltac:(done) ltac:(set_solver)). }
  destruct (dockerProbeSeconds (Timeout h) _) as [timeout|e] eqn:Et; simpl.
  2: { exists h. split; [done|]. intros Hr. by destruct (timing_refused h _ _ _ Et ltac:(done) ltac:(set_solver)). }
  destruct (dockerProbeSeconds (StartPeriod h) _) as [delay|e] eqn:Es; simpl.
  2: { exists h. split; [done|]. intros Hr. by destruct (timing_refused h _ _ _ Es ltac:(done) ltac:(set_solver)). }
  destruct ((_ <? 0) || _) eqn:Er; simpl.
  { exists h. split; [done|]. intros Hr. destruct (retries_refused h Er Hr). }
  destruct (Z.ltb_spec (StartInterval h) 0); simpl.
  { exists h. split; [done|]. intros (_ & ? & _). lia. }
  apply period_seconds in Ei as [Hi ?], Et as [Ht ?]. apply delay_seconds in Es as [Hs ?].
  apply retries_threshold in Er as [Hw ?]. exists h. rewrite Hw, Hs. split_and!; first [done|lia].
Qed.

Lemma mergeImageConfig_precedence_witness :
  let request := {| User := ""; ExposedPorts := ∅; Tty := false; OpenStdin := false;
    Docker.Env := ["PATH=/bin"]%string; Cmd := ["serve"]%string; Healthcheck := None; Image := "app";
    Config_Volumes := ∅; WorkingDir := ""; Entrypoint := None; OnBuild := []; Docker.Labels := ∅;
    StopSignal := ""; Shell := [] |} in
  let image := {| User := "app"; ExposedPorts := ∅; Tty := false; OpenStdin := false;
    Docker.Env := ["PATH=/usr/bin"; "HOME=/app"]%string; Cmd := ["help"]%string; Healthcheck := None;
    Image := ""; Config_Volumes := ∅; WorkingDir := "/app"; Entrypoint := Some ["/app/run"]%string;
    OnBuild := []; Docker.Labels := ∅; StopSignal := ""; Shell := [] |} in
  ∃ merged, mergeImageConfig (Some request) (Some image) = Ok merged ∧
    (∀ key, env_value (Docker.Env merged) key =
       match env_value (Docker.Env request) key with
       | Some v => Some v | None => env_value (Docker.Env image) key end) ∧
    (default [] (Entrypoint merged), Cmd merged) = (["/app/run"]%string, ["serve"]%string).
Proof.
  intros request image. eexists. split; [reflexivity|].
  destruct (mergeImageConfig_precedence request image _ eq_refl) as (He & _ & _ & _ & Hc & _).
  split; [exact He|exact Hc].
Defined.
