(* ===== verification/Secrets.v ===== *)
(** * Secrets: environment values that refer to secrets

    [core/secrets/resolver.go], [k8s.go] and [grpc.go] resolve the
    [se://<provider>/<key>] values of an environment; [translator/container_env.go]
    stores what plugins answered in a Secret of the container. *)

From S2P Require Import Prelude GoStrings Sha256 Errors Prog Docker Kube Cluster Identity Filters.
From S2P Require Import PodMeta Workload ImageConfig.

Local Open Scope string_scope.

Definition Scheme : string := "se://".
Definition builtinProvider : string := "k8s".
Definition StoreName : string := "dink-secrets".
Definition StoreLabel : string := "dink.io/secret-store".
Definition envOfLabel : string := "dink.io/env-of".

(** A failure caused by the reference itself ([ErrInvalidRef]) or another one. *)
Inductive resolve_error := ErrInvalidRef | ResolveFailed (e : error).

(** The [index] of a variable and the [key] it asks for. *)
Record ref := { ref_index : nat; ref_key : string }.

Record SecretEnv := { Vars : list EnvVar; Values : smap; SecretName : string }.

Definition env_set_vars (vars : list EnvVar) (env : SecretEnv) : SecretEnv :=
  {| Vars := vars; Values := Values env; SecretName := SecretName env |}.

Definition IsRef (value : string) : bool := HasPrefix value Scheme.

Definition EnvSecretName (container : string) : string := "dink-env-" +:+ container.

(** The provider and the key of a reference. *)
Definition parse_ref (value : string) : option (string * string) :=
  let '(provider, key, ok) := Cut (TrimPrefix value Scheme) "/" in
  if negb ok || bool_decide (provider = "") || bool_decide (key = "") then None
  else Some (provider, key).

(** The first loop of [Resolve], from the variable of the given index. *)
Fixpoint collect_refs (index : nat) (byProvider : gmap string (list ref)) (vars : list EnvVar) :
    result resolve_error (gmap string (list ref)) :=
  match vars with
  | [] => Ok byProvider
  | v :: vars =>
      if negb (IsRef (Env_Value v)) then collect_refs (S index) byProvider vars
      else match parse_ref (Env_Value v) with
           | None => Err ErrInvalidRef
           | Some (provider, key) =>
               collect_refs (S index)
                 (<[provider := (default [] (byProvider !! provider) ++
                                 [{| ref_index := index; ref_key := key |}])%list]> byProvider) vars
           end
  end.

(** [v.Value = ""; v.ValueFrom = secretKeyRef(name, key)] *)
Definition to_secret (name key : string) (v : EnvVar) : EnvVar :=
  {| Env_Name := Env_Name v; Env_Value := ""; Env_SecretKeyRef := Some (name, key) |}.

(** [env.Vars[ref.index].Name]; the index is always one of the variables. *)
Definition var_name (env : SecretEnv) (r : ref) : string :=
  match Vars env !! ref_index r with Some v => Env_Name v | None => "" end.

Fixpoint use_store (store : Secret) (env : SecretEnv) (refs : list ref) :
    result resolve_error SecretEnv :=
  match refs with
  | [] => Ok env
  | r :: refs =>
      match Secret_Data store !! ref_key r with
      | None => Err ErrInvalidRef
      | Some _ =>
          use_store store (env_set_vars (alter (to_secret StoreName (ref_key r)) (ref_index r) (Vars env))
                             env) refs
      end
  end.

Definition resolveBuiltin (namespace : string) (env : SecretEnv) (refs : list ref) :
    proc (result resolve_error SecretEnv) :=
  do store <- call (KGet KSecret namespace StoreName);
  match store with
  | Err e => Ret (Err (if IsNotFound e then ErrInvalidRef else ResolveFailed e))
  | Ok store =>
      if negb (bool_decide (mget (Labels (secret_meta store)) StoreLabel = "true"))
      then Ret (Err ErrInvalidRef)
      else Ret (use_store store env refs)
  end.

(** [validation.IsConfigMapKey] *)
Class ConfigMapKeys := { IsConfigMapKey : string → list string }.

(** The answers by name; of two answers for one name the later counts. *)
Definition answers (l : list resolved_secret) : gmap string resolved_secret :=
  foldl (λ m s, <[rs_Name s := s]> m) ∅ l.

Fixpoint use_answers (resolved : gmap string resolved_secret) (env : SecretEnv) (refs : list ref) :
    result resolve_error SecretEnv :=
  match refs with
  | [] => Ok env
  | r :: refs =>
      let name := var_name env r in
      match resolved !! name with
      | None => Err ErrInvalidRef
      | Some s =>
          if decide (rs_Error s = "") then
            use_answers resolved
              {| Vars := alter (to_secret (SecretName env) name) (ref_index r) (Vars env);
                 Values := <[name := rs_Value s]> (Values env);
                 SecretName := SecretName env |} refs
          else Err ErrInvalidRef
      end
  end.

(** The order in which a range over [byProvider] visits it. *)
Class ProviderOrder := { range_providers : gmap string (list ref) → list (string * list ref) }.
Class ProviderOrderLaws `{ProviderOrder} := {
  range_providers_spec m : range_providers m ≡ₚ map_to_list m
}.

Section resolving.
Context `{ConfigMapKeys} `{ProviderOrder}.

Definition resolvePlugin (id : Identity) (provider : string) (env : SecretEnv) (refs : list ref) :
    proc (result resolve_error SecretEnv) :=
  do plugin <- call (LookupSecretsPlugin (id_namespace id) provider);
  match plugin with
  | Err PluginNotFound => Ret (Err ErrInvalidRef)
  | Err (LookupFailed e) => Ret (Err (ResolveFailed e))
  | Ok _ =>
      if negb (forallb (λ r, bool_decide (IsConfigMapKey (var_name env r) = [])) refs)
      then Ret (Err ErrInvalidRef)
      else
        do res <- call (PluginResolve provider (CommonName id) (id_namespace id)
                          ((λ r, (var_name env r, ref_key r)) <$> refs));
        do _ <- call (ObserveSecretsPlugin (id_namespace id) provider
                        (match res with Ok _ => None | Err e => Some e end));
        match res with
        | Err e => Ret (Err (ResolveFailed e))
        | Ok l => Ret (use_answers (answers l) env refs)
        end
  end.

(** The second loop of [Resolve]. *)
Fixpoint resolve_providers (id : Identity) (env : SecretEnv) (providers : list (string * list ref)) :
    proc (result resolve_error SecretEnv) :=
  match providers with
  | [] => Ret (Ok env)
  | (provider, refs) :: providers =>
      do? env <- (if decide (provider = builtinProvider)
                  then resolveBuiltin (id_namespace id) env refs
                  else resolvePlugin id provider env refs);
      resolve_providers id env providers
  end.

Definition Resolve (id : Identity) (container : string) (vars : list EnvVar) :
    proc (result resolve_error SecretEnv) :=
  match collect_refs 0 ∅ vars with
  | Err e => Ret (Err e)
  | Ok byProvider =>
      resolve_providers id
        {| Vars := vars; Values := ∅; SecretName := EnvSecretName container |}
        (range_providers byProvider)
  end.

Definition resolveEnv (id : Identity) (name : string) (env : list string) : proc (res SecretEnv) :=
  do resolved <- Resolve id name (containerEnv env);
  Ret (match resolved with
       | Ok env => Ok env
       | Err ErrInvalidRef => Err (InvalidArgument (errors_New "invalid secret reference"))
       | Err (ResolveFailed e) => Err (Unavailable e)
       end).
End resolving.

(** ** The container's own Secret *)

Definition SecretTypeOpaque : string := "Opaque".

Definition env_secret (namespace name : string) (env : SecretEnv) (owner : OwnerReference) : Secret := {|
  secret_meta := meta_set_labels {[managedByLabel := managedByDink; envOfLabel := name]}
    (meta_set_owners [owner] (new_meta (SecretName env) namespace));
  Secret_Type := SecretTypeOpaque;
  Secret_Data := Values env |}.

Definition updated_env_secret (existing : Secret) (env : SecretEnv) (owner : OwnerReference) : Secret := {|
  secret_meta := meta_set_owners [owner] (secret_meta existing);
  Secret_Type := Secret_Type existing;
  Secret_Data := Values env |}.

Definition applyEnvSecret (namespace name : string) (env : SecretEnv) (owner : OwnerReference) :
    proc (res unit) :=
  do existing <- call (KGet KSecret namespace (SecretName env));
  match existing with
  | Err e =>
      if IsNotFound e then
        if decide (Values env = ∅) then Ret (Ok tt)
        else do r <- call (KCreate KSecret namespace (env_secret namespace name env owner : obj KSecret));
             Ret (kube_result (result_map (λ _, tt) r))
      else Ret (Err (kubeError e))
  | Ok existing =>
      if negb (bool_decide (mget (Labels (secret_meta existing)) envOfLabel = name))
      then Ret (Err (Conflict (errors_New "secret %s already exists and is not managed by dink")))
      else if decide (Values env = ∅) then
        do r <- call (KDelete KSecret namespace (Name (secret_meta existing)) {|
          Precondition_UID := Some (UID (secret_meta existing)); Precondition_ResourceVersion := None;
          GracePeriodSeconds := None; PropagationPolicy := None |});
        match r with
        | Err e => if IsNotFound e then Ret (Ok tt) else Ret (Err (kubeError e))
        | Ok _ => Ret (Ok tt)
        end
      else
        do r <- call (KUpdate KSecret namespace (updated_env_secret existing env owner : obj KSecret));
        Ret (kube_result (result_map (λ _, tt) r))
  end.

(** ** [envHash] *)

(** [fmt.Fprintf(h, "%d:%s%d:", len(k), k, len(values[k]))] and the value. *)
Definition hash_entry (e : string * string) : string :=
  pretty (N.of_nat (len e.1)) +:+ ":" +:+ e.1 +:+ pretty (N.of_nat (len e.2)) +:+ ":" +:+ e.2.

Fixpoint hash_input (entries : list (string * string)) : string :=
  match entries with
  | [] => ""
  | e :: entries => hash_entry e +:+ hash_input entries
  end.

(** The values in the order of their keys. *)
Definition sorted_entries (values : smap) : list (string * string) :=
  (λ k, (k, mget values k)) <$> sorted_keys values.

Definition envHash (values : smap) : string :=
  if decide (values = ∅) then "" else hex (Sum256 (hash_input (sorted_entries values))).

(** ** Properties: resolution *)

(** A variable whose value is a reference to a key of a provider. *)
Definition refers (v : EnvVar) (provider key : string) : Prop :=
  Env_Value v = "se://" +:+ provider +:+ "/" +:+ key ∧ provider ≠ "" ∧ key ≠ "" ∧ has_char "/" provider = false.

Lemma refers_parse v provider key :
  refers v provider key ↔ IsRef (Env_Value v) = true ∧ parse_ref (Env_Value v) = Some (provider, key).
Proof.
  unfold refers, IsRef, parse_ref. split.
  - intros (-> & Hp & Hk & Hslash). split; [by apply HasPrefix_spec; eexists|].
    unfold TrimPrefix. change "se://" with Scheme. rewrite CutPrefix_app.
    change ("/" +:+ key) with (String "/" key). rewrite Cut_char by done. simpl.
    by rewrite !bool_decide_eq_false_2 by done.
  - intros [[rest Hrest]%HasPrefix_spec Hparse]. rewrite Hrest in *. unfold TrimPrefix in Hparse.
    rewrite CutPrefix_app in Hparse. destruct (Cut rest "/") as [[p k] []] eqn:Ecut; simpl in Hparse; [|done].
    destruct (bool_decide_reflect (p = "")), (bool_decide_reflect (k = "")); simpl in Hparse; try done.
    injection Hparse as -> ->. split_and!; [|done..|by eapply Cut_char_before].
    by rewrite (Cut_true _ _ _ _ Ecut).
Qed.

Lemma refers_unique v p k p' k' : refers v p k → refers v p' k' → p = p' ∧ k = k'.
Proof. intros [_ H1]%refers_parse [_ H2]%refers_parse. by simplify_eq. Qed.

Section requests.
Context `{ConfigMapKeys} (id : Identity) (vars : list EnvVar).

(** The requests of a resolution: the store of the identity's own namespace, if a variable
    refers to it; and plugins of the namespace that variables refer to, each found first,
    and asked in the name of the identity for exactly the keys that they refer to. *)
Definition secret_requests : guard (cmd := cmd) := λ h X c,
  match c with
  | KGet k ns name => k = KSecret ∧ ns = id_namespace id ∧ name = "dink-secrets" ∧
      ∃ v key, v ∈ vars ∧ refers v "k8s" key
  | LookupSecretsPlugin ns provider => ns = id_namespace id ∧ provider ≠ "k8s" ∧
      ∃ v key, v ∈ vars ∧ refers v provider key
  | PluginResolve provider commonName ns refs =>
      commonName = CommonName id ∧ ns = id_namespace id ∧ provider ≠ "k8s" ∧
      (∃ h0, h = Event _ (LookupSecretsPlugin ns provider) (Ok tt) :: h0) ∧
      ∀ name key, (name, key) ∈ refs ↔
        (∃ v, v ∈ vars ∧ Env_Name v = name ∧ refers v provider key) ∧
        (∀ v key', v ∈ vars → refers v provider key' → IsConfigMapKey (Env_Name v) = [])
  | ObserveSecretsPlugin ns provider outcome =>
      ns = id_namespace id ∧ ∃ h0 refs r,
        h = Event _ (PluginResolve provider (CommonName id) ns refs) r :: h0 ∧
        outcome = match r with Ok _ => None | Err e => Some e end
  | _ => False
  end.

(** The tenant's store was read and has the key. *)
Definition store_has (ns : string) (h : hist) (key : string) : Prop :=
  ∃ store : Secret, Event _ (KGet KSecret ns "dink-secrets") (Ok store) ∈ h ∧
    mget (Labels (secret_meta store)) "dink.io/secret-store" = "true" ∧ is_Some (Secret_Data store !! key).

(** Asked by the identity for a key under a name, the provider answered the value: the last
    of its answers for that name, without an error. *)
Definition plugin_answered (h : hist) (provider name key value : string) : Prop :=
  ∃ refs before s after,
    Event _ (PluginResolve provider (CommonName id) (id_namespace id) refs) (Ok (before ++ s :: after)%list) ∈ h ∧
    (name, key) ∈ refs ∧ rs_Name s = name ∧ rs_Value s = value ∧ rs_Error s = "" ∧
    ∀ s', s' ∈ after → rs_Name s' ≠ name.

Context (container : string).

(** A variable and what its reference became: a key of the tenant's store, or one of the
    container's own Secret, which will hold a value for it. *)
Definition settled (h : hist) (values : smap) (v v' : EnvVar) : Prop :=
  Env_Name v' = Env_Name v ∧ Env_Value v' = "" ∧
  ∃ provider key, refers v provider key ∧
    if decide (provider = "k8s")
    then Env_SecretKeyRef v' = Some ("dink-secrets", key) ∧ store_has (id_namespace id) h key
    else Env_SecretKeyRef v' = Some ("dink-env-" +:+ container, Env_Name v) ∧
         is_Some (values !! Env_Name v) ∧ ∃ value, plugin_answered h provider (Env_Name v) key value.

(** Every value was answered for the reference of a variable of that name. *)
Definition values_answered (h : hist) (values : smap) : Prop :=
  ∀ name value, values !! name = Some value → ∃ v provider key,
    v ∈ vars ∧ Env_Name v = name ∧ refers v provider key ∧ provider ≠ "k8s" ∧
    plugin_answered h provider name key value.

(** The result of a resolution: every reference points to a Secret of the tenant,
    everything else is as it was. *)
Definition resolved_env (h : hist) (env : SecretEnv) : Prop :=
  SecretName env = "dink-env-" +:+ container ∧
  length (Vars env) = length vars ∧
  (∀ i v, vars !! i = Some v → ∃ v', Vars env !! i = Some v' ∧
     if HasPrefix (Env_Value v) "se://" then settled h (Values env) v v' else v' = v) ∧
  values_answered h (Values env).
End requests.

Lemma store_has_suffix ns h h' key : h `suffix_of` h' → store_has ns h key → store_has ns h' key.
Proof. intros [pre ->] (store & Hin & ?). exists store. split; [set_solver|done]. Qed.

Lemma plugin_answered_suffix id h h' provider name key value :
  h `suffix_of` h' → plugin_answered id h provider name key value → plugin_answered id h' provider name key value.
Proof.
  intros [pre ->] (refs & before & s & after & Hin & ?). exists refs, before, s, after. split; [set_solver|done].
Qed.

Lemma settled_more id container h h' values values' v v' :
  h `suffix_of` h' → (∀ name, is_Some (values !! name) → is_Some (values' !! name)) →
  settled id container h values v v' → settled id container h' values' v v'.
Proof.
  intros Hs Hvalues (? & ? & provider & key & ? & Hp). split_and!; [done..|].
  exists provider, key. split; [done|]. destruct (decide _).
  - destruct Hp as [? ?]. split; [done|]. by eapply store_has_suffix.
  - destruct Hp as (? & ? & value & ?). split_and!; [done|by apply Hvalues|].
    exists value. by eapply plugin_answered_suffix.
Qed.

Lemma values_answered_suffix id vars h h' values :
  h `suffix_of` h' → values_answered id vars h values → values_answered id vars h' values.
Proof.
  intros Hs Hv name value Hl. destruct (Hv name value Hl) as (v & p & key & ? & ? & ? & ? & ?).
  exists v, p, key. split_and!; [done..|]. by eapply plugin_answered_suffix.
Qed.

(** What a reference says about the variable it is for. *)
Definition ref_of (vars : list EnvVar) (provider : string) (r : ref) : Prop :=
  ∃ v, vars !! ref_index r = Some v ∧ refers v provider (ref_key r).

(** All the references to a provider. *)
Definition all_refs (vars : list EnvVar) (provider : string) (refs : list ref) : Prop :=
  refs ≠ [] ∧ ∀ r, r ∈ refs ↔ ref_of vars provider r.

Section resolution.
Context (id : Identity) (container : string) (vars : list EnvVar).

(** Part of the variables is settled, the others are as they were. *)
Definition partial (h : hist) (env : SecretEnv) : Prop :=
  SecretName env = EnvSecretName container ∧ length (Vars env) = length vars ∧
  (∀ i v, vars !! i = Some v → ∃ v', Vars env !! i = Some v' ∧ Env_Name v' = Env_Name v ∧
     (v' = v ∨ settled id container h (Values env) v v')) ∧
  values_answered id vars h (Values env).

Definition finished (h : hist) (env : SecretEnv) (i : nat) : Prop :=
  ∃ v v', vars !! i = Some v ∧ Vars env !! i = Some v' ∧ settled id container h (Values env) v v'.

(** [env'] is further than [env]. *)
Definition further (h h' : hist) (env env' : SecretEnv) : Prop :=
  partial h' env' ∧ ∀ i, finished h env i → finished h' env' i.

Lemma further_refl h h' env : h `suffix_of` h' → partial h env → further h h' env env.
Proof.
  intros Hs (? & ? & Hv & ?). split.
  - split_and!; [done..| |by eapply values_answered_suffix].
    intros i v Hi. destruct (Hv i v Hi) as (v' & ? & ? & Hor). exists v'. split_and!; [done..|].
    destruct Hor; [by left|right]. by eapply settled_more.
  - intros i (v & v' & ? & ? & ?). exists v, v'. split_and!; [done..|]. by eapply settled_more.
Qed.

Lemma further_trans h1 h2 h3 env1 env2 env3 :
  further h1 h2 env1 env2 → further h2 h3 env2 env3 → further h1 h3 env1 env3.
Proof. intros [_ H12] [? H23]. split; [done|]. auto. Qed.

Lemma settle_one h env provider r name key values :
  partial h env → ref_of vars provider r → values_answered id vars h values →
  (∀ name, is_Some (Values env !! name) → is_Some (values !! name)) →
  (∀ v v', vars !! ref_index r = Some v → Env_Name v' = Env_Name v →
     settled id container h values v (to_secret name key v')) →
  let env' := {| Vars := alter (to_secret name key) (ref_index r) (Vars env); Values := values;
                 SecretName := SecretName env |} in
  further h h env env' ∧ finished h env' (ref_index r).
Proof.
  intros (Hn & Hlen & Hv & _) (v & Hr & _) Hvals Hmore Hset env'.
  assert (∀ i w, vars !! i = Some w → ∃ w', Vars env' !! i = Some w' ∧ Env_Name w' = Env_Name w ∧
    ((i = ref_index r ∧ settled id container h values w w') ∨ (i ≠ ref_index r ∧ Vars env !! i = Some w'))) as Hall.
  { intros i w Hi. destruct (Hv i w Hi) as (w' & Hw' & Hname & Hor). simpl.
    destruct (decide (i = ref_index r)) as [->|Hne].
    - rewrite list_lookup_alter_eq, Hw'. simpl. eexists. split_and!; [done..|]. left. split; [done|].
      by apply Hset.
    - rewrite list_lookup_alter_ne by done. exists w'. split_and!; auto. }
  split; [split|].
  - split_and!; [done|by simpl; rewrite length_alter| |done].
    intros i w Hi. destruct (Hall i w Hi) as (w' & Hw' & Hname & [[-> Hs]|[Hne Hw2]]).
    + exists w'. auto.
    + exists w'. split_and!; [done..|]. destruct (Hv i w Hi) as (w2 & ? & ? & Hor). simplify_eq.
      destruct Hor; [by left|right]. by eapply settled_more.
  - intros i (w & w' & Hi & Hw' & Hs). destruct (Hall i w Hi) as (w2 & ? & ? & [[-> ?]|[? ?]]).
    + by exists w, w2.
    + exists w, w2. simplify_eq. split_and!; [done..|]. by eapply settled_more.
  - destruct (Hall _ _ Hr) as (w' & ? & ? & [[_ ?]|[? _]]); [|done]. by exists v, w'.
Qed.

Lemma use_store_spec h store env refs env' :
  partial h env → (∀ r, r ∈ refs → ref_of vars builtinProvider r) →
  Event _ (KGet KSecret (id_namespace id) StoreName) (Ok store) ∈ h →
  mget (Labels (secret_meta store)) StoreLabel = "true" →
  use_store store env refs = Ok env' →
  further h h env env' ∧ ∀ r, r ∈ refs → finished h env' (ref_index r).
Proof.
  intros Hp Hrefs Hin Hlabel. revert env Hp. induction refs as [|r refs IH]; intros env Hp; simpl.
  { intros [= <-]. split; [by apply further_refl|set_solver]. }
  destruct (Secret_Data store !! ref_key r) as [value|] eqn:Ekey; [|done]. intros Huse.
  pose proof (Hrefs r ltac:(set_solver)) as Href.
  destruct (settle_one h env builtinProvider r StoreName (ref_key r) (Values env) Hp Href)
    as [Hfur Hfin]; [apply Hp|done| |].
  { intros v v' Hv Hname. destruct Href as (v2 & ? & ?). simplify_eq.
    split_and!; [done..|]. exists builtinProvider, (ref_key r). split; [done|].
    rewrite decide_True by done. split; [done|]. exists store. split_and!; [done..|]. by rewrite Ekey. }
  apply IH in Huse as [Hfur2 Hall]; [|set_solver|apply Hfur].
  split; [by eapply further_trans|]. intros r' [->|Hr']%elem_of_cons; [|auto].
  by apply Hfur2.
Qed.

(** The last answer for a name. *)
Lemma answers_lookup l name s :
  answers l !! name = Some s →
  ∃ before after, l = (before ++ s :: after)%list ∧ rs_Name s = name ∧ ∀ s', s' ∈ after → rs_Name s' ≠ name.
Proof.
  unfold answers. induction l as [|s' l IH] using rev_ind; [done|].
  rewrite foldl_app. simpl. rewrite lookup_insert_Some. intros [[<- <-]|[Hne Hl]].
  - exists l, []. split_and!; [done..|set_solver].
  - destruct (IH Hl) as (before & after & -> & ? & Hafter). exists before, (after ++ [s'])%list.
    split; [by rewrite <- app_assoc|]. split; [done|].
    intros s2 [?| ->%list_elem_of_singleton]%elem_of_app; [by apply Hafter|done].
Qed.

Lemma use_answers_spec h provider asked l env refs env' :
  provider ≠ builtinProvider →
  partial h env → (∀ r, r ∈ refs → ref_of vars provider r) →
  (∀ r v, r ∈ refs → vars !! ref_index r = Some v → (Env_Name v, ref_key r) ∈ asked) →
  Event _ (PluginResolve provider (CommonName id) (id_namespace id) asked) (Ok l) ∈ h →
  use_answers (answers l) env refs = Ok env' →
  further h h env env' ∧ ∀ r, r ∈ refs → finished h env' (ref_index r).
Proof.
  intros Hne Hp Hrefs Hasked Hin. revert env Hp. induction refs as [|r refs IH]; intros env Hp; simpl.
  { intros [= <-]. split; [by apply further_refl|set_solver]. }
  pose proof (Hrefs r ltac:(set_solver)) as Href. pose proof Hp as (Hsn & Hlen & Hv & Hvals).
  destruct Href as (v & Hvr & Hrefers).
  assert (var_name env r = Env_Name v) as Hname.
  { destruct (Hv _ _ Hvr) as (v' & Hv' & Hn & _). unfold var_name. by rewrite Hv'. }
  destruct (answers l !! var_name env r) as [s|] eqn:Es; [|done].
  destruct (decide (rs_Error s = "")) as [He|]; [|done]. intros Huse.
  rewrite Hname in Es, Huse. apply answers_lookup in Es as (before & after & -> & Hsname & Hafter).
  assert (plugin_answered id h provider (Env_Name v) (ref_key r) (rs_Value s)) as Hanswer.
  { exists asked, before, s, after. split_and!; [done| |done..]. apply Hasked; [by left|done]. }
  assert (values_answered id vars h (<[Env_Name v:=rs_Value s]> (Values env))) as Hvals'.
  { intros name value. rewrite lookup_insert_Some. intros [[<- <-]|[_ Hl]]; [|by apply Hvals].
    exists v, provider, (ref_key r). split_and!; [by eapply list_elem_of_lookup_2|done..]. }
  destruct (settle_one h env provider r (SecretName env) (Env_Name v) _ Hp ltac:(by exists v) Hvals')
    as [Hfur Hfin].
  { intros name Hsome. rewrite lookup_insert_is_Some. destruct (decide (Env_Name v = name)); auto. }
  { intros w w' Hw Hwname. simplify_eq.
    split_and!; [done..|]. exists provider, (ref_key r). split; [done|].
    rewrite decide_False by done. simpl. rewrite Hsn, lookup_insert_eq.
    split_and!; [done|by eexists|by eexists]. }
  apply IH in Huse as [Hfur2 Hall]; [|set_solver|set_solver|apply Hfur].
  split; [by eapply further_trans|]. intros r' [->|Hr']%elem_of_cons; [|auto].
  by apply Hfur2.
Qed.

Context `{ConfigMapKeys}.

(** One provider: its references are finished if it succeeds. *)
Definition provider_done (refs : list ref) (h0 : hist) (env : SecretEnv) (h : hist)
    (r : result resolve_error SecretEnv) : Prop :=
  h0 `suffix_of` h ∧
  match r with
  | Ok env' => further h0 h env env' ∧ ∀ r, r ∈ refs → finished h env' (ref_index r)
  | Err _ => True
  end.

Lemma all_refs_some provider refs :
  refs ≠ [] → (∀ r, r ∈ refs ↔ ref_of vars provider r) → ∃ v key, v ∈ vars ∧ refers v provider key.
Proof.
  destruct refs as [|r refs]; [done|]. intros _ Hrefs. destruct (proj1 (Hrefs r)) as (v & Hv & Href); [by left|].
  exists v, (ref_key r). split; [by eapply list_elem_of_lookup_2|done].
Qed.

(** A plugin is asked for exactly what refers to it, under names that a Secret can have. *)
Lemma asked_refs_exact env provider refs h :
  partial h env → all_refs vars provider refs →
  forallb (λ r, bool_decide (IsConfigMapKey (var_name env r) = [])) refs = true →
  let asked := (λ r, (var_name env r, ref_key r)) <$> refs in
  (∀ name key, (name, key) ∈ asked ↔
     (∃ v, v ∈ vars ∧ Env_Name v = name ∧ refers v provider key) ∧
     (∀ v key', v ∈ vars → refers v provider key' → IsConfigMapKey (Env_Name v) = [])) ∧
  ∀ r v, r ∈ refs → vars !! ref_index r = Some v → (Env_Name v, ref_key r) ∈ asked.
Proof.
  intros (_ & _ & Hv & _) [_ Hrefs] Hkeys asked.
  assert (∀ r v, vars !! ref_index r = Some v → var_name env r = Env_Name v) as Hname.
  { intros r v Hr. destruct (Hv _ _ Hr) as (v' & Hv' & Hn & _). unfold var_name. by rewrite Hv'. }
  assert (∀ v key', v ∈ vars → refers v provider key' → ∃ i, vars !! i = Some v ∧
            {| ref_index := i; ref_key := key' |} ∈ refs) as Hfind.
  { intros v key' [i Hi]%list_elem_of_lookup Href. exists i. split; [done|]. apply Hrefs. by exists v. }
  split.
  - intros name key. unfold asked. rewrite list_elem_of_fmap. split.
    + intros (r & [= -> ->] & Hr). destruct (proj1 (Hrefs r) Hr) as (v & Hi & Href). split.
      * exists v. split_and!; [by eapply list_elem_of_lookup_2|by rewrite (Hname r v)|done].
      * intros w key' Hw Hrefw. destruct (Hfind w key' Hw Hrefw) as (i & Hiw & Hin).
        rewrite forallb_forall in Hkeys. specialize (Hkeys _ (proj1 (list_elem_of_In _ _) Hin)).
        apply bool_decide_eq_true in Hkeys. by rewrite <- (Hname {| ref_index := i; ref_key := key' |} w).
    + intros [(v & Hin & <- & Href) _]. destruct (Hfind v key Hin Href) as (i & Hi & Hr).
      exists {| ref_index := i; ref_key := key |}. split; [|done]. by rewrite (Hname _ v).
  - intros r v Hr Hi. apply list_elem_of_fmap. exists r. by rewrite (Hname r v).
Qed.

Lemma resolveBuiltin_wp env refs h :
  partial h env → all_refs vars builtinProvider refs →
  wp any_answer (secret_requests id vars) (resolveBuiltin (id_namespace id) env refs) h
    (provider_done refs h env).
Proof.
  intros Hp [Hne Hrefs]. unfold resolveBuiltin. rewrite wp_bind, wp_call. split.
  { split_and!; [done..|]. by apply all_refs_some with refs. }
  intros [store|e] _; [|by split; [apply suffix_cons_r|]].
  destruct (bool_decide_reflect (mget (Labels (secret_meta store)) StoreLabel = "true")) as [Hl|Hl];
    cbn [negb]; [|by split; [apply suffix_cons_r|]].
  rewrite wp_ret. split; [by apply suffix_cons_r|].
  destruct (use_store store env refs) as [env'|e] eqn:Eu; [|done].
  match goal with |- context [further _ ?h'] => set (h1 := h') end.
  assert (further h h1 env env) as Hfur by (apply further_refl; [by apply suffix_cons_r|done]).
  destruct (use_store_spec h1 store env refs env') as [? ?]; try done; [apply Hfur|intros r; apply Hrefs|apply list_elem_of_here|].
  split; [by eapply further_trans|done].
Qed.

Lemma resolvePlugin_wp provider env refs h :
  provider ≠ builtinProvider → partial h env → all_refs vars provider refs →
  wp any_answer (secret_requests id vars) (resolvePlugin id provider env refs) h (provider_done refs h env).
Proof.
  intros Hne Hp Hall. unfold resolvePlugin. rewrite wp_bind, wp_call. split.
  { split_and!; [done..|]. destruct Hall as [? ?]. by apply all_refs_some with refs. }
  intros [[]|[|e]] _; [|by split; [apply suffix_cons_r|]..].
  destruct (forallb _ refs) eqn:Ekeys; cbn [negb]; [|by split; [apply suffix_cons_r|]].
  pose proof (asked_refs_exact env provider refs h Hp Hall Ekeys) as [Hexact Hasked].
  rewrite wp_bind, wp_call. split; [split_and!; [done..|by eexists|exact Hexact]|]. intros res _.
  rewrite wp_bind, wp_call. split; [split; [done|]; by eexists _, _, _|]. intros [] _.
  destruct res as [l|e]; rewrite wp_ret; (split; [by do 3 apply suffix_cons_r|]); [|done].
  destruct (use_answers (answers l) env refs) as [env'|e] eqn:Eu; [|done].
  match goal with |- context [further _ ?h'] => set (h1 := h') end.
  assert (further h h1 env env) as Hfur by (apply further_refl; [by do 3 apply suffix_cons_r|done]).
  eapply use_answers_spec in Eu as [? ?]; [|exact Hne|apply Hfur|intros r; apply Hall|exact Hasked|].
  - split; [by eapply further_trans|done].
  - apply list_elem_of_further, list_elem_of_here.
Qed.

Lemma resolve_providers_wp env providers h :
  partial h env → (∀ p refs, (p, refs) ∈ providers → all_refs vars p refs) →
  wp any_answer (secret_requests id vars) (resolve_providers id env providers) h (λ h' r,
    match r with
    | Ok env' => further h h' env env' ∧
        ∀ p refs r, (p, refs) ∈ providers → r ∈ refs → finished h' env' (ref_index r)
    | Err _ => True
    end).
Proof.
  revert env h. induction providers as [|[p refs] providers IH]; intros env h Hp Hrefs;
    cbn [resolve_providers].
  { rewrite wp_ret. split; [by apply further_refl|set_solver]. }
  rewrite wp_bind_res.
  assert (all_refs vars p refs) as Hp1 by (eapply Hrefs; apply list_elem_of_here).
  assert (wp any_answer (secret_requests id vars)
    (if decide (p = builtinProvider) then resolveBuiltin (id_namespace id) env refs
     else resolvePlugin id p env refs) h (provider_done refs h env)) as Hone.
  { destruct (decide _) as [->|Hne]; [by apply resolveBuiltin_wp|by apply resolvePlugin_wp]. }
  eapply wp_post; [|exact Hone]. intros h1 [env1|e] [Hs Hd]; [|done]. destruct Hd as [Hfur Hfin].
  eapply wp_post; [|apply IH; [apply Hfur|set_solver]].
  intros h2 [env2|e]; [|done]. intros [Hfur2 Hfin2]. split; [by eapply further_trans|].
  intros p' refs' r [[= -> ->]|Hin]%elem_of_cons Hr; [|by eapply Hfin2].
  apply Hfur2. by apply Hfin.
Qed.
End resolution.

(** Every reference of the environment is collected, under its provider. *)
Lemma collect_refs_spec vars index byProvider result all :
  (∀ i v, vars !! i = Some v → all !! (index + i) = Some v) →
  (∀ p refs r, byProvider !! p = Some refs → r ∈ refs → ref_of all p r) →
  (∀ p refs, byProvider !! p = Some refs → refs ≠ []) →
  collect_refs index byProvider vars = Ok result →
  (∀ p refs r, result !! p = Some refs → r ∈ refs → ref_of all p r) ∧
  (∀ p refs, result !! p = Some refs → refs ≠ []) ∧
  (∀ p refs r, byProvider !! p = Some refs → r ∈ refs → ∃ refs', result !! p = Some refs' ∧ r ∈ refs') ∧
  (∀ i v, vars !! i = Some v → IsRef (Env_Value v) = true →
     ∃ p refs r, result !! p = Some refs ∧ r ∈ refs ∧ ref_index r = index + i).
Proof.
  revert index byProvider. induction vars as [|v vars IH]; intros index byProvider Hall Hby Hne; simpl.
  { intros [= <-]. split_and!; [done|done|by eauto|done]. }
  assert (∀ i w, vars !! i = Some w → all !! (S index + i) = Some w) as Hall'.
  { intros i w Hi. rewrite <- (Hall (S i) w Hi). f_equal. lia. }
  destruct (IsRef (Env_Value v)) eqn:Er; simpl.
  - destruct (parse_ref (Env_Value v)) as [[provider key]|] eqn:Ep; [|done]. intros Hc.
    set (r := {| ref_index := index; ref_key := key |}) in *.
    assert (ref_of all provider r) as Href.
    { exists v. split; [|by apply refers_parse]. simpl. rewrite <- (Hall 0 v eq_refl). f_equal. lia. }
    apply IH in Hc as (H1 & Hne' & H2 & H3); [|done| |].
    + split_and!; [done|done| |].
      * intros p refs r' Hl Hr. destruct (decide (p = provider)) as [->|Hp].
        -- eapply H2; [apply lookup_insert_eq|]. rewrite Hl. simpl. set_solver.
        -- eapply H2; [by rewrite lookup_insert_ne|done].
      * intros [|i] w Hi Hw.
        -- destruct (H2 provider _ r (lookup_insert_eq _ _ _) ltac:(set_solver)) as (refs & ? & ?).
           exists provider, refs, r. split_and!; [done..|]. simpl. lia.
        -- destruct (H3 i w Hi Hw) as (p & refs & r' & ? & ? & ?). exists p, refs, r'.
           split_and!; [done..|]. lia.
    + intros p refs r'. rewrite lookup_insert_Some. intros [[<- <-]|[_ Hl]]; [|by eapply Hby].
      rewrite elem_of_app, list_elem_of_singleton. intros [Hr| ->]; [|done].
      destruct (byProvider !! provider) as [refs'|] eqn:Eb; simpl in Hr; [by eapply Hby|set_solver].
    + intros p refs. rewrite lookup_insert_Some. intros [[<- <-]|[_ Hl]]; [|by eapply Hne].
      by intros [_ ?]%app_eq_nil.
  - intros Hc. apply IH in Hc as (H1 & Hne' & H2 & H3); [|done|done|done]. split_and!; [done..|].
    intros [|i] w Hi Hw; [simplify_eq/=; congruence|].
    destruct (H3 i w Hi Hw) as (p & refs & r' & ? & ? & ?). exists p, refs, r'.
    split_and!; [done..|]. lia.
Qed.

(** So what is collected under a provider is what refers to it. *)
Lemma collect_refs_all vars byProvider p refs :
  collect_refs 0 ∅ vars = Ok byProvider → byProvider !! p = Some refs → all_refs vars p refs.
Proof.
  intros Hc Hl. eapply (collect_refs_spec vars 0 ∅ _ vars) in Hc as (Hrefs & Hne & _ & Hall); [|done|..].
  2: { intros p' refs' r. by rewrite lookup_empty. }
  2: { intros p' refs'. by rewrite lookup_empty. }
  split; [by eapply Hne|]. intros r. split; [by apply Hrefs|]. intros (v & Hv & Href).
  pose proof Href as [Hisref _]%refers_parse.
  destruct (Hall _ _ Hv Hisref) as (p' & refs' & r' & Hl' & Hr' & Hidx). simpl in Hidx.
  destruct (Hrefs _ _ _ Hl' Hr') as (v' & Hv' & Href'). rewrite Hidx in Hv'. simplify_eq.
  destruct (refers_unique _ _ _ _ _ Href Href') as [<- Hkey]. simplify_eq.
  destruct r, r'. simpl in *. by subst.
Qed.

Section secrets_properties.
Context `{ConfigMapKeys} `{ProviderOrderLaws}.

Lemma Resolve_wp id container vars h :
  wp any_answer (secret_requests id vars) (Resolve id container vars) h (λ h' r,
    match r with Ok env => resolved_env id vars container h' env | Err _ => True end).
Proof.
  unfold Resolve. destruct (collect_refs 0 ∅ vars) as [byProvider|e] eqn:Ec; [|done].
  pose proof (λ p refs, collect_refs_all vars byProvider p refs Ec) as Hrefs.
  eapply (collect_refs_spec vars 0 ∅ _ vars) in Ec as (_ & _ & _ & Hall); [|done|..].
  2: { intros p' refs' r. by rewrite lookup_empty. }
  2: { intros p' refs'. by rewrite lookup_empty. }
  eapply wp_post; [|apply (resolve_providers_wp id container vars)].
  - intros h' [env|e]; [|done]. intros [[(Hn & Hlen & Hv & Hvals) _] Hfin].
    split_and!; [done..| |done]. intros i v Hi. destruct (Hv i v Hi) as (v' & Hv' & Hname & Hor).
    exists v'. split; [done|]. change (HasPrefix (Env_Value v) "se://") with (IsRef (Env_Value v)).
    destruct (IsRef (Env_Value v)) eqn:Er.
    + destruct (Hall i v Hi Er) as (p & refs & r & Hl & Hr & Hidx). simpl in Hidx.
      destruct (Hfin p refs r) as (w & w' & Hw & Hw' & Hset); [|done|].
      { rewrite range_providers_spec. by apply elem_of_map_to_list. }
      rewrite Hidx in Hw, Hw'. by simplify_eq.
    + destruct Hor as [|(_ & _ & p & key & [Hisref _]%refers_parse & _)]; [done|congruence].
  - split_and!; [done..| |].
    + intros i v Hi. exists v. auto.
    + intros name value. simpl. by rewrite lookup_empty.
  - intros p refs. rewrite range_providers_spec, elem_of_map_to_list. apply Hrefs.
Qed.

(** C34: secret references are confined to the tenant, and resolved.  Resolving an
    environment reads only the secret store of the identity's own namespace, and only if
    a variable refers to it, and asks only plugins of that namespace that variables refer
    to, in the name of the identity, for exactly the keys that they refer to.  In the result
    every variable is kept, the plain ones unchanged, and every [se://] reference is
    replaced, never by a value: by a reference to the tenant's store, which was read, is
    marked as one and has the key, or by one to the container's own Secret, after the
    provider answered the variable's key without an error; that Secret will hold a value
    under the variable's name, and every value it will hold was answered, as the last for
    its name, for the reference of a variable of that name. *)
Theorem secret_references_confined id container vars h h' r :
  exec (Resolve id container vars) h h' r →
  guarded (secret_requests id vars) h h' ∧
  match r with Ok env => resolved_env id vars container h' env | Err _ => True end.
Proof.
  intros Hex. apply and_comm.
  apply (wp_exec _ _ _ _ _ _ _ (Resolve_wp id container vars h) Hex).
  apply along_any; [done|]. by eapply exec_suffix.
Qed.
End secrets_properties.

(** ** Properties: the container's Secret *)

(** Only the container's own Secret is written: one that was just read and carries
    its label, or a new one. *)
Definition env_secret_writes (namespace name : string) (env : SecretEnv) (owner : OwnerReference) :
    guard (cmd := cmd) := λ h X c,
  match c with
  | KGet k ns n => k = KSecret ∧ ns = namespace ∧ n = SecretName env
  | KCreate k ns o =>
      match k return obj k → Prop with
      | KSecret => λ o, ns = namespace ∧ o = env_secret namespace name env owner ∧ Values env ≠ ∅
      | _ => λ _, False
      end o
  | KUpdate k ns o =>
      match k return obj k → Prop with
      | KSecret => λ o, ns = namespace ∧ Values env ≠ ∅ ∧ ∃ h0 existing,
          h = Event _ (KGet KSecret namespace (SecretName env)) (Ok existing) :: h0 ∧
          mget (Labels (secret_meta existing)) envOfLabel = name ∧
          o = updated_env_secret existing env owner
      | _ => λ _, False
      end o
  | KDelete k ns n opts => k = KSecret ∧ ns = namespace ∧ Values env = ∅ ∧ ∃ h0 (existing : Secret),
      h = Event _ (KGet KSecret namespace (SecretName env)) (Ok existing) :: h0 ∧
      mget (Labels (secret_meta existing)) envOfLabel = name ∧
      n = Name (secret_meta existing) ∧ Precondition_UID opts = Some (UID (secret_meta existing))
  | _ => False
  end.

(** What success means: the values are stored, or no Secret of the container is
    left when there are none. *)
Definition env_secret_stored (namespace : string) (env : SecretEnv) (h : hist) : Prop :=
  if decide (Values env = ∅) then
    (∃ e h0, h = Event _ (KGet KSecret namespace (SecretName env)) (Err e) :: h0 ∧ IsNotFound e = true) ∨
    (∃ n opts (r : res unit) h0, h = Event _ (KDelete KSecret namespace n opts) r :: h0 ∧
       match r with Ok _ => True | Err e => IsNotFound e = true end)
  else
    ∃ (o stored : Secret) h0, Secret_Data o = Values env ∧
      (h = Event _ (KCreate KSecret namespace (o : obj KSecret)) (Ok stored) :: h0 ∨
       h = Event _ (KUpdate KSecret namespace (o : obj KSecret)) (Ok stored) :: h0).

Lemma applyEnvSecret_wp namespace name env owner h :
  wp any_answer (env_secret_writes namespace name env owner)
    (applyEnvSecret namespace name env owner) h
    (λ h' r, r = Ok tt → env_secret_stored namespace env h').
Proof.
  unfold applyEnvSecret, env_secret_stored. rewrite wp_bind, wp_call. split; [done|].
  intros [existing|e] _.
  - destruct (bool_decide_reflect (mget (Labels (secret_meta existing)) envOfLabel = name)) as [Hl|Hl];
      cbn [negb]; [|done].
    destruct (decide (Values env = ∅)) as [Hv|Hv].
    + rewrite wp_bind, wp_call. split; [split_and!; [done..|]; by exists h, existing|].
      intros r _. destruct r as [u|e]; [|destruct (IsNotFound e) eqn:En]; rewrite wp_ret; try done;
        intros _; right; eexists _, _, _, _; (split; [reflexivity|done]).
    + rewrite wp_bind, wp_call. split; [split_and!; [done..|]; by exists h, existing|].
      intros [stored|e] _; rewrite wp_ret; [|done]. intros _. eexists _, stored, _.
      split; [|by right]. done.
  - destruct (IsNotFound e) eqn:En; [|done]. destruct (decide (Values env = ∅)) as [Hv|Hv].
    + rewrite wp_ret. intros _. left. by exists e, h.
    + rewrite wp_bind, wp_call. split; [done|]. intros [stored|e'] _; rewrite wp_ret; [|done].
      intros _. eexists _, stored, _. split; [|by left]. done.
Qed.

(** ** Properties: the hash *)

Lemma pretty_N_no_colon n : has_char ":" (pretty (n : N)) = false.
Proof. by eapply all_chars_has_char; [apply pretty_N_digits|]. Qed.

Lemma hash_part_inj (a a' r r' : string) :
  pretty (N.of_nat (len a)) +:+ ":" +:+ a +:+ r = pretty (N.of_nat (len a')) +:+ ":" +:+ a' +:+ r' →
  a = a' ∧ r = r'.
Proof.
  intros Heq. apply (f_equal (λ s, Cut s ":")) in Heq.
  change (":" +:+ a +:+ r) with (String ":" (a +:+ r)) in Heq.
  change (":" +:+ a' +:+ r') with (String ":" (a' +:+ r')) in Heq.
  rewrite !Cut_char in Heq by apply pretty_N_no_colon. injection Heq as Hlen Heq.
  apply (inj pretty), Nat2N.inj in Hlen. by apply sapp_inv_length in Heq.
Qed.

Lemma hash_entry_inj e e' r r' :
  hash_entry e +:+ r = hash_entry e' +:+ r' → e = e' ∧ r = r'.
Proof.
  unfold hash_entry. destruct e as [k v], e' as [k' v']. simpl.
  rewrite <- !sapp_assoc. intros Heq. apply hash_part_inj in Heq as [-> Heq].
  by apply hash_part_inj in Heq as [-> ->].
Qed.

Lemma hash_input_inj l l' : hash_input l = hash_input l' → l = l'.
Proof.
  revert l'. induction l as [|e l IH]; intros [|e' l']; simpl; [done| | |].
  - intros Heq%(f_equal len). rewrite len_app in Heq. unfold hash_entry in Heq.
    rewrite !len_app in Heq. unfold len in Heq. simpl in Heq. lia.
  - intros Heq%(f_equal len). rewrite len_app in Heq. unfold hash_entry in Heq.
    rewrite !len_app in Heq. unfold len in Heq. simpl in Heq. lia.
  - intros Heq. apply hash_entry_inj in Heq as [-> Heq]. f_equal. by apply IH.
Qed.

Lemma sorted_entries_lookup values k v :
  (k, v) ∈ sorted_entries values ↔ values !! k = Some v.
Proof.
  unfold sorted_entries. rewrite list_elem_of_fmap. unfold mget. split.
  - intros (k' & [= -> ->] & Hk). apply elem_of_sorted_keys in Hk as [v' Hv]. by rewrite Hv.
  - intros Hv. exists k. rewrite Hv. split; [done|]. apply elem_of_sorted_keys. by rewrite Hv.
Qed.

(** the container's Secret is the container's.  [applyEnvSecret] writes no
    object but the container's own Secret; it replaces or deletes one only directly
    after reading it with the container's label, deletes only when no value is
    left and then under the UID it read; and it succeeds only when exactly the
    resolved values are stored, or when there are none and no such Secret is
    left. *)
Theorem env_secret_is_owned namespace name env owner h h' r :
  exec (applyEnvSecret namespace name env owner) h h' r →
  guarded (env_secret_writes namespace name env owner) h h' ∧
  (r = Ok tt → env_secret_stored namespace env h').
Proof.
  intros Hex. apply and_comm. apply (wp_exec _ _ _ _ _ _ _ (applyEnvSecret_wp namespace name env owner h) Hex).
  apply along_any; [done|]. by eapply exec_suffix.
Qed.

(** The environment hash changes when the resolved values change.  The text
    that is hashed determines the values, whatever bytes names and values contain,
    so two environments share a hash only if they are equal or SHA-256 collides on
    two different texts; no environment with values has the hash of none. *)
Theorem envHash_detects_changes values values' :
  envHash values = envHash values' →
  values = values' ∨
  (∃ s s', s ≠ s' ∧ Sum256 s = Sum256 s' ∧
     s = hash_input (sorted_entries values) ∧ s' = hash_input (sorted_entries values')).
Proof.
  unfold envHash. intros Heq.
  assert (∀ s, hex (Sum256 s) ≠ "") as Hne.
  { intros s Hs%(f_equal len). rewrite len_hex, len_Sum256 in Hs. done. }
  destruct (decide (values = ∅)) as [->|], (decide (values' = ∅)) as [->|]; [by left| | |].
  - by destruct (Hne (hash_input (sorted_entries values'))).
  - by destruct (Hne (hash_input (sorted_entries values))).
  - apply hex_inj in Heq.
    destruct (decide (hash_input (sorted_entries values) = hash_input (sorted_entries values')))
      as [Hi|Hi]; [left|right; by eexists _, _].
    apply hash_input_inj in Hi. apply map_eq. intros k. apply option_eq. intros v.
    by rewrite <- !sorted_entries_lookup, Hi.
Qed.

(** ** Witnesses *)

Definition demo_keys : ConfigMapKeys := {| IsConfigMapKey _ := [] |}.
Definition demo_provider_order : ProviderOrder := {| range_providers m := map_to_list m |}.

Lemma demo_provider_order_laws : @ProviderOrderLaws demo_provider_order.
Proof. by split. Qed.

Definition store_cluster : cluster :=
  set_db KSecret [{| secret_meta := meta_set_labels {[StoreLabel := "true"]} (new_meta StoreName "acme");
                     Secret_Type := SecretTypeOpaque; Secret_Data := {["db" := "s3cr3t"]} |}]
    empty_cluster.

(** One value from the store, one from a plugin, one plain. *)
Lemma secret_references_confined_witness :
  let vars := containerEnv ["DB=se://k8s/db"; "KEY=se://vault/app/key"; "MODE=x"] in
  let p := @Resolve demo_keys demo_provider_order acme_identity "web" vars in
  let env := {| Vars := [to_secret StoreName "db" {| Env_Name := "DB"; Env_Value := ""; Env_SecretKeyRef := None |};
                         to_secret "dink-env-web" "KEY" {| Env_Name := "KEY"; Env_Value := ""; Env_SecretKeyRef := None |};
                         {| Env_Name := "MODE"; Env_Value := "x"; Env_SecretKeyRef := None |}];
                Values := {["KEY" := "app/key"]}; SecretName := "dink-env-web" |} in
  (simulate p store_cluster).1.1 = Ok env ∧
  resolved_env acme_identity vars "web" (simulate p store_cluster).1.2 env.
Proof.
  intros vars p env.
  pose proof (@secret_references_confined demo_keys demo_provider_order demo_provider_order_laws
    acme_identity "web" vars _ _ _ (simulate_exec p store_cluster)) as [_ Hr].
  assert ((simulate p store_cluster).1.1 = Ok env) as He by (vm_compute; reflexivity).
  fold p in Hr. rewrite He in Hr. split; [exact He|exact Hr].
Defined.

Lemma env_secret_is_owned_witness :
  let env := {| Vars := []; Values := {["KEY" := "v"]}; SecretName := "dink-env-web" |} in
  let owner := ownerReference (deploymentWorkload (sample_deployment "acme" "web" "3f25" 1)) in
  let p := applyEnvSecret "acme" "web" env owner in
  (simulate p store_cluster).1.1 = Ok tt ∧ env_secret_stored "acme" env (simulate p store_cluster).1.2.
Proof.
  intros env owner p.
  pose proof (env_secret_is_owned "acme" "web" env owner _ _ _ (simulate_exec p store_cluster)) as [_ Hr].
  assert ((simulate p store_cluster).1.1 = Ok tt) as He by (vm_compute; reflexivity).
  split; [exact He|exact (Hr He)].
Defined.

Lemma envHash_detects_changes_witness :
  let values : smap := {["A" := "1"]} in envHash values = envHash values ∧
  (values = values ∨ ∃ s s', s ≠ s' ∧ Sum256 s = Sum256 s' ∧
     s = hash_input (sorted_entries values) ∧ s' = hash_input (sorted_entries values)).
Proof.
  intros values. split; [reflexivity|]. apply (envHash_detects_changes values values). reflexivity.
Defined.
