(* ===== verification/Create.v ===== *)
(** * Create: [ContainerCreate] of [core/translator/container_create.go]

    The steps that the other files model are composed as the code composes them:
    the image and its configuration, resources, ports, probe, environment, volumes,
    networks, the pull Secret, the Pod template, the Deployment or Job, and what
    must exist with it. *)

From S2P Require Import Prelude GoStrings Sha256 Errors Prog Docker Kube Cluster Filters Validation.
From S2P Require Import PodMeta Discipline Workload Ports Services Resources Volumes Networks.
From S2P Require Import ImageConfig Secrets.

Local Open Scope string_scope.

Definition pullSecretName : string := "dinki-pull".
Definition oneShotRemovalDelay : Z := 10.
Definition DockerConfigJsonKey : string := ".dockerconfigjson".
Definition SecretTypeDockerConfigJson : string := "kubernetes.io/dockerconfigjson".
Definition PullAlways : string := "Always".

(** [base64.StdEncoding], and the JSON of a Docker configuration: an entry of its
    [auths] has a username, a password and an auth text. *)
Class PullSecretCodec := {
  Base64Encode : string → string;
  Base64Decode : string → option string;
  Marshal_auths : gmap string (string * string * string) → option string;
  Unmarshal_auths : string → option (gmap string (string * string * string))
}.
Class PullSecretCodecLaws `{PullSecretCodec} := {
  Base64Decode_Encode s : Base64Decode (Base64Encode s) = Some s;
  Base64Encode_empty s : Base64Encode s = "" ↔ s = "";
  Unmarshal_Marshal_auths m s : Marshal_auths m = Some s → Unmarshal_auths s = Some m
}.

(** The fields of the [Docker] struct that creation reads. *)
Record docker_settings := {
  pullHost : string;
  defaultResources : ResourceDefaults;
  nodePlacement : NodePlacement;
  DecodeDefaults : string → option ResourceDefaults   (* the JSON of a tenant's defaults *)
}.

(** [backend.ContainerCreateConfig]; the endpoints are those of its networking
    configuration, if any. *)
Record CreateConfig := {
  cc_Name : string;
  cc_Config : option Config;
  cc_HostConfig : option HostConfig;
  cc_Endpoints : gmap string (option EndpointSettings)
}.

(** ** The pull Secret *)

Section pull_secret.
Context `{PullSecretCodec}.

Definition dockerConfigPassword (config scope username : string) : string :=
  match Unmarshal_auths config with
  | None => ""
  | Some auths =>
      match auths !! scope with
      | None => ""
      | Some (entry_user, entry_password, auth) =>
          if negb (bool_decide (auth = "")) then
            match Base64Decode auth with
            | None => ""
            | Some raw =>
                let '(user, password, ok) := Cut raw ":" in
                if negb ok || negb (bool_decide (user = username)) then "" else password
            end
          else if negb (bool_decide (entry_user = username)) then "" else entry_password
      end
  end.

Definition dockerConfigJSON (scope username password : string) : res string :=
  match Marshal_auths {[scope := (username, password, Base64Encode (username +:+ ":" +:+ password))]} with
  | Some config => Ok config
  | None => Err (errors_New "json")
  end.

Definition pull_secret (namespace config : string) : Secret := {|
  secret_meta := meta_set_labels {[managedByLabel := managedByDink]} (new_meta pullSecretName namespace);
  Secret_Type := SecretTypeDockerConfigJson;
  Secret_Data := {[DockerConfigJsonKey := config]} |}.

Definition updated_pull_secret (existing : Secret) (config : string) : Secret := {|
  secret_meta := secret_meta existing;
  Secret_Type := SecretTypeDockerConfigJson;
  Secret_Data := <[DockerConfigJsonKey := config]> (Secret_Data existing) |}.

Definition previous_password (scope namespace : string) (existing : option Secret) : string :=
  match existing with
  | Some existing =>
      if decide (Secret_Type existing = SecretTypeDockerConfigJson)
      then dockerConfigPassword (mget (Secret_Data existing) DockerConfigJsonKey) scope namespace
      else ""
  | None => ""
  end.

(** The part of [ensurePullSecret] after the Secret was looked for. *)
Definition store_pull_credential (scope namespace : string) (existing : option Secret) :
    proc (res unit) :=
  let previousPassword := previous_password scope namespace existing in
  do credential <- call (EnsurePullCredential previousPassword);
  match credential with
  | Err e => Ret (Err (Errorf "ensuring pull credential: %w" [e]))
  | Ok (username, password) =>
      if negb (bool_decide (previousPassword = "")) && bool_decide (username = namespace) &&
         bool_decide (password = previousPassword)
      then Ret (Ok tt)
      else match dockerConfigJSON scope username password with
      | Err e => Ret (Err e)
      | Ok config =>
          match existing with
          | Some existing =>
              do r <- call (KUpdate KSecret namespace (updated_pull_secret existing config : obj KSecret));
              Ret (match r with Ok _ => Ok tt
                   | Err e => Err (Errorf "updating pull secret: %w" [e]) end)
          | None =>
              do r <- call (KCreate KSecret namespace (pull_secret namespace config : obj KSecret));
              Ret (match r with Ok _ => Ok tt
                   | Err e => Err (Errorf "creating pull secret: %w" [e]) end)
          end
      end
  end.

Definition ensurePullSecret (host namespace : string) : proc (res unit) :=
  with_mutex pullSecretMu
    (let scope := host +:+ "/" +:+ namespace in
     do existing <- call (KGet KSecret namespace pullSecretName);
     match existing with
     | Err e => if IsNotFound e then store_pull_credential scope namespace None
                else Ret (Err (Errorf "reading pull secret: %w" [e]))
     | Ok existing => store_pull_credential scope namespace (Some existing)
     end).
End pull_secret.

(** ** Networks of a new container *)

Section networks.
Context `{NetworkOrder}.

(** The loop of [networkMembershipLabels]. *)
Fixpoint membership_labels (ctx : context) (labels : smap) (names : list string) : proc (res smap) :=
  match names with
  | [] => Ret (Ok labels)
  | name :: names =>
      do? objectName <-
        (if is_builtin name then Ret (Ok (networkObjectName name))
         else do? obj <- findNetwork ctx name; Ret (Ok (Name (net_meta obj))));
      membership_labels ctx (<[network_label objectName := "true"]> labels) names
  end.

Definition networkMembershipLabels (ctx : context) (names : list string) : proc (res smap) :=
  membership_labels ctx ∅ names.

(** The names of the endpoints, [default] meaning [bridge]. *)
Definition endpoint_networks (endpoints : list string) : list string :=
  (λ name, if decide (name = "default") then "bridge" else name) <$> endpoints.

(** The networks a mode and the endpoints ask for; [None] for the host's. *)
Definition requested_networks (mode : string) (endpoints : list string) : res (option (list string)) :=
  if decide (mode = "host") then
    if decide (endpoints = []) then Ok None
    else Err (InvalidArgument (errors_New "host network mode cannot be combined with network endpoints"))
  else if HasPrefix mode "container:"
  then Err (InvalidArgument
         (errors_New "container network mode is not supported by the Kubernetes backend"))
  else if decide (mode = "none") then
    if decide (endpoints = []) then Ok (Some ["none"])
    else Err (InvalidArgument (errors_New "none network mode cannot be combined with network endpoints"))
  else if decide (mode ∈ [""; "default"; "bridge"]) then
    if decide (endpoints = []) then Ok (Some ["bridge"]) else Ok (Some (endpoint_networks endpoints))
  else if decide (endpoints = []) then Ok (Some [mode]) else Ok (Some (endpoint_networks endpoints)).

Definition containerNetworkLabels (ctx : context) (hostConfig : option HostConfig)
    (endpoints : gmap string (option EndpointSettings)) : proc (res (smap * bool)) :=
  let mode := match hostConfig with Some h => NetworkMode h | None => "" end in
  match requested_networks mode (map_to_list endpoints).*1 with
  | Err e => Ret (Err e)
  | Ok None => Ret (Ok (∅, true))
  | Ok (Some networkNames) =>
      do? labels <- networkMembershipLabels ctx (slices_Sort networkNames);
      Ret (Ok (labels, false))
  end.
End networks.

Definition podDNSPolicy (hostNetwork : bool) : string :=
  if hostNetwork then "ClusterFirstWithHostNet" else "ClusterFirst".

Definition containerAnnotations `{DockerJSON} (config : Config) (hostConfig : HostConfig) : res smap :=
  match Marshal_Config config, Marshal_HostConfig hostConfig with
  | Some c, Some h => Ok {[containerConfigAnnotation := c; containerHostConfigAnnotation := h]}
  | _, _ => Err (errors_New "json")
  end.

(** The image reference of the Pods and the image's configuration. *)
Definition podImage `{PortParser} (host namespace name : string) : proc (res (string * option Config)) :=
  do? '(digests, config) <- call (ImageInspect name);
  match digests with
  | [] => Ret (Err (errors_New "image %s has no repository digest"))
  | digest :: _ =>
      Ret (Ok (host +:+ "/" +:+ namespace +:+ "/" +:+ digest, containerConfigFromImage config))
  end.

(** ** The workload *)

(** What is known before the name is claimed. *)
Record prepared := {
  pr_name : string;
  pr_image : string;
  pr_config : Config;
  pr_host : HostConfig;
  pr_meta : PodMetadata;
  pr_resources : ResourceRequirements;
  pr_ports : list publishedPort;
  pr_serviceType : string;
  pr_probe : option Probe;
  pr_warnings : list string
}.

(** What the requests under the lock found. *)
Record gathered := {
  ga_objectName : string;
  ga_env : SecretEnv;
  ga_volumes : list Volume;
  ga_mounts : list VolumeMount;
  ga_claims : list string;
  ga_networks : smap;
  ga_hostNetwork : bool;
  ga_annotations : smap
}.

(** [maps.Copy(dst, src)] *)
Definition maps_Copy (dst src : smap) : smap := src ∪ dst.

Definition container_of (p : prepared) (g : gathered) : Container := {|
  Ctr_Name := ga_objectName g;
  Ctr_Image := pr_image p;
  Ctr_Command := default [] (Entrypoint (pr_config p));
  Ctr_Args := Cmd (pr_config p);
  Ctr_WorkingDir := WorkingDir (pr_config p);
  Ctr_Ports := podPorts (pr_ports p);
  Ctr_Env := Vars (ga_env g);
  Ctr_Resources := pr_resources p;
  Ctr_VolumeMounts := ga_mounts g;
  Ctr_ReadinessProbe := pr_probe p;
  Ctr_TTY := Tty (pr_config p);
  Ctr_Stdin := OpenStdin (pr_config p);
  Ctr_ImagePullPolicy := PullAlways;
  Ctr_SecurityContext := None |}.

Definition pod_template (settings : docker_settings) (namespace : string) (p : prepared) (g : gathered)
    (restartPolicy : string) : PodTemplateSpec := {|
  Pod_Labels := maps_Copy (maps_Copy (dinkPodLabels (ga_objectName g)) (ga_networks g))
                  (meta_Labels (pr_meta p));
  Pod_Annotations := meta_Annotations (pr_meta p);
  Pod_Spec := applyNodePlacement {|
    HostNetwork := ga_hostNetwork g;
    DNSPolicy := podDNSPolicy (ga_hostNetwork g);
    Volumes := ga_volumes g;
    ImagePullSecrets := [pullSecretName];
    Containers := [container_of p g];
    NodeAffinity := None;
    Tolerations := [];
    RestartPolicy := restartPolicy;
    Hostname := ""; HostAliases := []; PodDNSConfig := None; TerminationGracePeriodSeconds := None;
    Sysctls := []; InitContainers := [] |} (nodePlacement settings) namespace |}.

Definition workload_meta (namespace : string) (g : gathered) : ObjectMeta :=
  meta_set_annotations (ga_annotations g)
    (meta_set_labels (dinkPodLabels (ga_objectName g)) (new_meta (ga_objectName g) namespace)).

Definition new_job (settings : docker_settings) (namespace : string) (p : prepared) (g : gathered) : Job := {|
  job_meta := workload_meta namespace g;
  Suspend := Some true;
  BackoffLimit := Some 0%Z;
  TTLSecondsAfterFinished := Some oneShotRemovalDelay;
  job_Template := pod_template settings namespace p g "Never";
  Conditions := []; Active := 0 |}.

Definition new_deployment (settings : docker_settings) (namespace : string) (p : prepared) (g : gathered) :
    Deployment := {|
  dep_meta := workload_meta namespace g;
  Replicas := Some 0%Z;
  Strategy := Recreate;
  Selector := {["app" := ga_objectName g]};
  dep_Template := pod_template settings namespace p g "";
  ObservedGeneration := 0; StatusReplicas := 0; ReadyReplicas := 0 |}.

(** The workload of the container, as the server stored it. *)
Definition create_workload (settings : docker_settings) (namespace : string) (p : prepared) (g : gathered) :
    proc (res containerWorkload) :=
  if AutoRemove (pr_host p) then
    do job <- call (KCreate KJob namespace (new_job settings namespace p g : obj KJob));
    Ret (match job with Ok job => Ok (jobWorkload job) | Err e => Err (kubeError e) end)
  else
    do deployment <- call (KCreate KDeployment namespace (new_deployment settings namespace p g : obj KDeployment));
    Ret (match deployment with
         | Ok deployment => Ok (deploymentWorkload deployment) | Err e => Err (kubeError e) end).

(** ** What is created with the workload *)

Section after.
Context `{Validation} `{Retry}.

Definition adopt_once (w : containerWorkload) (owner : OwnerReference) (claim : string) :
    proc (res PersistentVolumeClaim) :=
  do? pvc <- call (KGet KPVC (Namespace w) claim);
  call (KUpdate KPVC (Namespace w)
    ({| pvc_meta := meta_set_owners (OwnerReferences (pvc_meta pvc) ++ [owner])%list (pvc_meta pvc);
        PVC_Spec := PVC_Spec pvc; PVC_Capacity := PVC_Capacity pvc |} : obj KPVC)).

Definition adoptClaims (w : containerWorkload) (claims : list string) : proc (res unit) :=
  let owner := ownerReference w in
  let owner := {| or_APIVersion := or_APIVersion owner; or_Kind := or_Kind owner;
                  or_Name := or_Name owner; or_UID := or_UID owner; or_Controller := None |} in
  for_each claims (λ claim,
    do r <- RetryOnConflict _ (adopt_once w owner claim);
    Ret (kube_result (result_map (λ _, tt) r))).

(** [_ = d.deleteWorkload(ctx, workload, true)] and the return of the error. *)
Definition abandon {A} (w : containerWorkload) (e : error) : proc (res A) :=
  do _ <- deleteWorkload w true; Ret (Err e).

(** [if err := step; err != nil { delete the workload; return err }] *)
Definition or_abandon {A} (w : containerWorkload) (step : proc (res unit)) (k : proc (res A)) :
    proc (res A) :=
  do r <- step;
  match r with
  | Err e => abandon w e
  | Ok _ => k
  end.

(** The published Service, if any; its failure also deletes the name's Service. *)
Definition publish (namespace : string) (w : containerWorkload) (dnsName serviceType : string)
    (ports : list publishedPort) {A} (k : proc (res A)) : proc (res A) :=
  if decide (serviceType = "") then k
  else
    do r <- call (KCreate KService namespace (publishedPortsService w serviceType ports : obj KService));
    match r with
    | Err e =>
        do _ <- call (KDelete KService namespace dnsName no_delete_options);
        abandon w (kubeError e)
    | Ok _ => k
    end.

(** From the created workload to the response. *)
Definition finish_create (namespace : string) (p : prepared) (g : gathered) (w : containerWorkload) :
    proc (res (string * list string)) :=
  let objectName := ga_objectName g in
  or_abandon w (if OneShot w then adoptClaims w (ga_claims g) else Ret (Ok tt)) (
  or_abandon w (applyEnvSecret namespace objectName (ga_env g) (ownerReference w)) (
  let dnsService := containerDNSService w (pr_ports p) in
  do dns <- call (KCreate KService namespace (dnsService : obj KService));
  match dns with
  | Err e => abandon w (kubeError e)
  | Ok _ =>
      publish namespace w (Name (svc_meta dnsService)) (pr_serviceType p) (pr_ports p) (
      or_abandon w (if ga_hostNetwork g then Ret (Ok tt)
                    else applyPublishedPortsPolicy namespace objectName (ownerReference w)
                           (podPorts (pr_ports p)))
        (Ret (Ok (DockerIDFromUID (UID w), pr_warnings p))))
  end)).
End after.

(** ** [ContainerCreate] *)

Section create.
Context `{Unicode} `{Regexp} `{MapJSON} `{Validation} `{Quantities} `{DockerJSON} `{Retry}.
Context `{NetworkOrder} `{ConfigMapKeys} `{ProviderOrder} `{PortParser} `{PullSecretCodec}.

(** [if err != nil { return InvalidArgument(err) }] *)
Definition invalid {A} (r : res A) : res A :=
  match r with Ok a => Ok a | Err e => Err (InvalidArgument e) end.

(** [if err != nil { return err }] over a result that needs no request. *)
Definition ret_res {A B} (r : res A) (k : A → proc (res B)) : proc (res B) :=
  match r with Ok a => k a | Err e => Ret (Err e) end.

(** The steps before the name mutex. *)
Definition prepare (settings : docker_settings) (id : Identity) (cfg : CreateConfig) (name : string)
    (config : Config) : proc (res prepared) :=
  do? '(image, imageConfig) <- podImage (pullHost settings) (id_namespace id) (Image config);
  ret_res (invalid (mergeImageConfig (Some config) imageConfig)) (λ config,
  ret_res (podMetadata [Docker.Labels config]) (λ podMeta,
  ret_res (invalid (containerResources (cc_HostConfig cfg))) (λ resources,
  do? defaults <- tenantResourceDefaults (DecodeDefaults settings) (defaultResources settings)
                    (id_namespace id);
  ret_res (invalid (applyResourceDefaults (cc_HostConfig cfg) resources defaults)) (λ '(host, resources),
  ret_res (invalid (resolvePublishedPorts config (Some host))) (λ '(ports, serviceType, warnings),
  ret_res (invalid (dockerHealthProbe (Healthcheck config) (Shell config))) (λ '(probe, probeWarnings),
  Ret (Ok {| pr_name := name; pr_image := image; pr_config := config; pr_host := host;
             pr_meta := podMeta; pr_resources := resources; pr_ports := ports;
             pr_serviceType := serviceType; pr_probe := probe;
             pr_warnings := (warnings ++ probeWarnings)%list |}))))))).

(** The annotations of the workload. *)
Definition create_annotations (p : prepared) (hostNetwork : bool)
    (endpoints : gmap string (option EndpointSettings)) : res smap :=
  match containerAnnotations (pr_config p) (pr_host p) with
  | Err e => Err (InvalidArgument (Errorf "encoding container metadata: %w" [e]))
  | Ok annotations =>
      let? aliases := aliasesFromEndpoints endpoints in
      if hostNetwork && negb (bool_decide (aliases = ∅))
      then Err (InvalidArgument (errors_New "network aliases cannot be used with host networking"))
      else
        let? encoded := encodeContainerAliases aliases in
        let annotations := <[containerNameAnnotation := pr_name p]> annotations in
        Ok (if decide (encoded = "") then annotations
            else <[containerAliasAnnotation := encoded]> annotations)
  end.

(** The requests under the name mutex before the workload is created; [order] is
    that of the range over the volumes. *)
Definition gather (settings : docker_settings) (order : gset string → list string) (id : Identity)
    (cfg : CreateConfig) (p : prepared) : proc (res gathered) :=
  let namespace := id_namespace id in
  do? _ <- ensureContainerNameAvailable namespace (pr_name p) None;
  do? objectName <- containerObjectName namespace (pr_name p);
  do? env <- resolveEnv id objectName (Docker.Env (pr_config p));
  do? '(volumes, mounts, claims) <- containerVolumes (Some id) order (pr_config p) (Some (pr_host p));
  do? '(networkLabels, hostNetwork) <- containerNetworkLabels (Some id) (Some (pr_host p)) (cc_Endpoints cfg);
  do? _ <- ensurePullSecret (pullHost settings) namespace;
  do? _ <- ensureNamespaceIsolation namespace;
  ret_res (create_annotations p hostNetwork (cc_Endpoints cfg)) (λ annotations,
  Ret (Ok {| ga_objectName := objectName; ga_env := env; ga_volumes := volumes; ga_mounts := mounts;
             ga_claims := claims; ga_networks := networkLabels; ga_hostNetwork := hostNetwork;
             ga_annotations := annotations |})).

Definition create_locked (settings : docker_settings) (order : gset string → list string) (id : Identity)
    (cfg : CreateConfig) (p : prepared) : proc (res (string * list string)) :=
  do? g <- gather settings order id cfg p;
  do? w <- create_workload settings (id_namespace id) p g;
  finish_create (id_namespace id) p g w.

(** The Docker identifier and the warnings of the response. *)
Definition ContainerCreate (settings : docker_settings) (order : gset string → list string)
    (ctx : context) (cfg : CreateConfig) : proc (res (string * list string)) :=
  match ctx, cc_Config cfg with
  | None, _ => Ret (Err (Unauthenticated (errors_New "missing identity in context")))
  | _, None => Ret (Err (InvalidArgument (errors_New "container configuration is required")))
  | Some id, Some config =>
      do requested <- (if decide (cc_Name cfg = "") then call RandomName else Ret (cc_Name cfg));
      ret_res (normalizeContainerName requested) (λ name,
      do? p <- prepare settings id cfg name config;
      with_mutex containerNameMu (create_locked settings order id cfg p))
  end.
End create.
