(* ===== verification/CreateProps.v ===== *)
(** * CreateProps: what [ContainerCreate] guarantees

    A container is created stopped, confined to its tenant and complete; when
    anything fails after its workload was created, the workload is deleted again. *)

From S2P Require Import Prelude GoStrings Sha256 Errors Prog Docker Kube Cluster Filters Validation.
From S2P Require Import PodMeta Discipline Workload Ports Services Resources Volumes Networks Isolation.
From S2P Require Import ImageConfig Secrets Create.

Local Open Scope string_scope.

(** ** The commands of the steps *)

Section commands.
Context `{Unicode} `{Regexp} `{MapJSON} `{Validation} `{Quantities} `{DockerJSON}.
Context `{NetworkOrder} `{ConfigMapKeys} `{ProviderOrder} `{PortParser} `{PullSecretCodec}.

Lemma only_retry `{RetryLaws} b {A} (p : proc (res A)) : only b p → only b (RetryOnConflict A p).
Proof.
  intros Hp h. apply (RetryOnConflict_wp _ _ _ _ _ (λ _, True)); [done|]. intros h' _.
  eapply wp_post; [|apply Hp]. intros h2 [a|e] _; done.
Qed.

Lemma only_listWorkloads ns : only unguarded (listWorkloads ns).
Proof. unfold listWorkloads. only_auto. Qed.
#[local] Hint Resolve only_listWorkloads : only.

Lemma only_ensureContainerNameAvailable ns name except :
  only unguarded (ensureContainerNameAvailable ns name except).
Proof. unfold ensureContainerNameAvailable. only_auto. Qed.

Lemma only_containerObjectName ns name : only unguarded (containerObjectName ns name).
Proof. unfold containerObjectName. only_auto. Qed.

Lemma only_resolveEnv id name env : only unguarded (resolveEnv id name env).
Proof.
  unfold resolveEnv, Resolve. apply only_bind; [|only_auto]. destruct (collect_refs _ _ _); [|only_auto].
  generalize (range_providers a). intros providers.
  generalize {| Vars := containerEnv env; Values := ∅; SecretName := EnvSecretName name |}.
  induction providers as [|[provider refs] providers IH]; intros e; cbn [resolve_providers]; [only_auto|].
  apply only_bind_res; [|intros; apply IH]. destruct (decide _).
  - unfold resolveBuiltin. only_auto.
  - unfold resolvePlugin. only_auto.
Qed.

Lemma only_CreateVolume ctx request : only unguarded (CreateVolume ctx request).
Proof.
  unfold CreateVolume, provision_volume, submit_claim, pluginVolumeClaim, volumePlugin, no_identity.
  only_auto.
Qed.
#[local] Hint Resolve only_CreateVolume : only.

Lemma only_GetVolume ctx name : only unguarded (GetVolume ctx name).
Proof. unfold GetVolume, no_identity. only_auto. Qed.
#[local] Hint Resolve only_GetVolume : only.

Lemma only_ensureContainerVolume ctx name driver opts :
  only unguarded (ensureContainerVolume ctx name driver opts).
Proof. unfold ensureContainerVolume. only_auto. Qed.
#[local] Hint Resolve only_ensureContainerVolume : only.

Lemma only_addMount ctx s target source ro sub driver opts :
  only unguarded (addMount ctx s target source ro sub driver opts).
Proof. unfold addMount. only_auto. Qed.
#[local] Hint Resolve only_addMount : only.

Lemma only_fold_mounts {A} b (f : mounts_state → A → proc (res mounts_state)) s l :
  (∀ s x, only b (f s x)) → only b (fold_mounts f s l).
Proof. intros Hf. revert s. induction l as [|x l IH]; intros s; simpl; only_auto; auto. Qed.

Lemma only_containerVolumes ctx order config hostConfig :
  only unguarded (containerVolumes ctx order config hostConfig).
Proof.
  unfold containerVolumes. cbv zeta.
  match goal with |- only _ (if ?b then _ else _) => destruct b end; [only_auto|].
  apply only_bind_res.
  - destruct hostConfig as [h|]; [|only_auto].
    apply only_bind_res; [|intros s]; apply only_fold_mounts; intros s' x;
      unfold requested_mount, bind_mount; only_auto.
  - intros s. apply only_bind_res; [|only_auto]. apply only_fold_mounts. intros s' x.
    unfold anonymous_mount. only_auto.
Qed.

Lemma only_networkList ctx : only unguarded (networkList ctx).
Proof.
  unfold networkList. destruct (networkNamespace ctx) as [ns|]; [|only_auto].
  apply only_bind_res; [only_auto|]. intros l. apply only_bind_res; [|only_auto].
  unfold ensureBuiltinNetworks. generalize false, ((λ o, Name (net_meta o)) <$> l).
  intros created existing. revert created.
  induction range_builtins as [|[name driver] bs IH]; intros created; [apply only_ret|].
  cbn [create_builtins].
  match goal with |- only _ (if ?b then _ else _) => destruct b end; [apply IH|].
  apply only_bind; [by apply only_call|]. intros [net|e].
  - apply only_bind_res; [|intros; apply IH]. unfold ensureNetworkPolicy, create_policy. only_auto.
  - destruct (negb _); [only_auto|apply IH].
Qed.
#[local] Hint Resolve only_networkList : only.

Lemma only_containerNetworkLabels ctx hostConfig endpoints :
  only unguarded (containerNetworkLabels ctx hostConfig endpoints).
Proof.
  unfold containerNetworkLabels. cbv zeta. destruct (requested_networks _ _) as [[names|]|]; [|only_auto..].
  apply only_bind_res; [|only_auto]. unfold networkMembershipLabels. generalize (slices_Sort names) (∅ : smap).
  intros l. induction l as [|name l IH]; intros labels; cbn [membership_labels]; [only_auto|].
  apply only_bind_res; [|intros; apply IH]. unfold findNetwork. only_auto.
Qed.

Lemma only_ensureNamespaceIsolation ns : only unguarded (ensureNamespaceIsolation ns).
Proof. unfold ensureNamespaceIsolation, create_policy. only_auto. Qed.

Lemma only_store_pull_credential scope ns existing :
  only unguarded (store_pull_credential scope ns existing).
Proof. unfold store_pull_credential. only_auto. Qed.
#[local] Hint Resolve only_store_pull_credential : only.

Lemma only_adoptClaims `{RetryLaws} w claims : only unguarded (adoptClaims w claims).
Proof.
  unfold adoptClaims. cbv zeta. apply only_for_each. intros claim.
  apply only_bind; [|only_auto]. apply only_retry. unfold adopt_once. only_auto.
Qed.

Lemma only_applyEnvSecret ns name env owner : only unguarded (applyEnvSecret ns name env owner).
Proof. unfold applyEnvSecret. only_auto. Qed.

Lemma only_applyPublishedPortsPolicy ns name owner ports :
  only unguarded (applyPublishedPortsPolicy ns name owner ports).
Proof. unfold applyPublishedPortsPolicy, create_policy. only_auto. Qed.

Lemma only_prepare settings id cfg name config :
  only unguarded (prepare settings id cfg name config).
Proof. unfold prepare, podImage, tenantResourceDefaults, ret_res. only_auto. Qed.
End commands.

(** ** After the workload is created *)

(** The event deletes the workload, if the UID is still its own. *)
Definition deletion_of (w : containerWorkload) (e : event cmd) : Prop :=
  ∃ opts (r : res unit), Precondition_UID opts = Some (UID w) ∧
    (e = Event _ (KDelete KDeployment (Namespace w) (Name w) opts) r ∧ OneShot w = false ∨
     e = Event _ (KDelete KJob (Namespace w) (Name w) opts) r ∧ OneShot w = true).

(** From [h] to [h'] no workload was created and this one was deleted (unless the
    server already showed it as being deleted). *)
Definition abandoned (w : containerWorkload) (h h' : hist) : Prop :=
  extended no_create h h' ∧
  (DeletionTimestamp w = None → ∃ pre e, h' = (pre ++ h)%list ∧ e ∈ pre ∧ deletion_of w e).

Lemma abandoned_before w h h1 h2 : extended no_create h h1 → abandoned w h1 h2 → abandoned w h h2.
Proof.
  intros Hx [Hy Hd]. split; [by eapply extended_trans|]. intros Hnone.
  destruct (Hd Hnone) as (pre & e & -> & He & Hdel). destruct Hx as (pre1 & -> & _).
  exists (pre ++ pre1)%list, e. rewrite <- app_assoc. split_and!; [done|set_solver|done].
Qed.

(** What creation returns from [h] on: an abandoned workload, or a result. *)
Definition finished_create {A} (w : containerWorkload) (Q : hist → A → Prop) (h h' : hist) (r : res A) :
    Prop :=
  match r with
  | Err _ => abandoned w h h'
  | Ok a => extended no_create h h' ∧ Q h' a
  end.

Lemma finished_before {A} w (Q : hist → A → Prop) h h1 h2 r :
  extended no_create h h1 → finished_create w Q h1 h2 r → finished_create w Q h h2 r.
Proof.
  intros Hx. destruct r as [a|e]; simpl; [|by apply abandoned_before].
  intros [? ?]. split; [by eapply extended_trans|done].
Qed.

Lemma abandon_wp {A} w e (Q : hist → A → Prop) h :
  wp any_answer any_command (abandon w e) h (finished_create w Q h).
Proof.
  unfold abandon, deleteWorkload. destruct (DeletionTimestamp w) eqn:Ed.
  { rewrite wp_bind, !wp_ret. split; [apply extended_refl|congruence]. }
  cbv zeta. destruct (OneShot w) eqn:Eo; rewrite !wp_bind, wp_call; (split; [done|]);
    intros r _; rewrite !wp_ret; (split; [by apply extended_cons, extended_refl|]); intros _.
  - eexists [_], _. split_and!; [done|apply list_elem_of_here|].
    eexists; exists r; split; [|right; by split]; done.
  - eexists [_], _. split_and!; [done|apply list_elem_of_here|].
    eexists; exists r; split; [|left; by split]; done.
Qed.

(** A step that creates no workload, and the rest. *)
Lemma or_abandon_wp {A} w (step : proc (res unit)) (k : proc (res A)) (Q : hist → A → Prop) h :
  only no_create step →
  (∀ h1, wp any_answer any_command k h1 (finished_create w Q h1)) →
  wp any_answer any_command (or_abandon w step k) h (finished_create w Q h).
Proof.
  intros Hstep Hk. unfold or_abandon. rewrite wp_bind.
  eapply wp_post; [|by apply (only_wp no_create)]. intros h1 [u|e] Hx;
    (eapply wp_post; [intros h2 r; by apply finished_before|]); [apply Hk|apply abandon_wp].
Qed.

(** What is there when a container is reported. *)
Definition created_with (ns name : string) (p : prepared) (hostNetwork : bool) (dns : Service)
    (w : containerWorkload) (h : hist) (r : string * list string) : Prop :=
  r = (DockerIDFromUID (UID w), pr_warnings p) ∧
  (∃ s, Event _ (KCreate KService ns (dns : obj KService)) (Ok s) ∈ h) ∧
  (pr_serviceType p ≠ "" → ∃ s, Event _ (KCreate KService ns
     (publishedPortsService w (pr_serviceType p) (pr_ports p) : obj KService)) (Ok s) ∈ h) ∧
  (hostNetwork = false → published_applied ns name (ownerReference w) (podPorts (pr_ports p)) h).

Section after_creation.
Context `{Validation} `{RetryLaws}.

Lemma publish_wp {A} ns w dnsName serviceType ports (k : proc (res A)) (Q : hist → A → Prop) h :
  (∀ h1, extended no_create h h1 →
     (serviceType ≠ "" → ∃ s, Event _ (KCreate KService ns
        (publishedPortsService w serviceType ports : obj KService)) (Ok s) ∈ h1) →
     wp any_answer any_command k h1 (finished_create w Q h1)) →
  wp any_answer any_command (publish ns w dnsName serviceType ports k) h (finished_create w Q h).
Proof.
  intros Hk. unfold publish. destruct (decide (serviceType = "")) as [->|Hne].
  { apply Hk; [apply extended_refl|done]. }
  rewrite wp_bind, wp_call. split; [done|]. intros [s|e] _.
  - match goal with |- wp _ _ _ ?h0 _ => assert (extended no_create h h0) as Hx
      by (by apply extended_cons, extended_refl) end.
    eapply wp_post; [intros h2 r; exact (finished_before w Q _ _ _ _ Hx)|].
    apply Hk; [exact Hx|]. intros _. exists s. apply list_elem_of_here.
  - rewrite wp_bind, wp_call. split; [done|]. intros r _.
    eapply wp_post; [|apply abandon_wp]. intros h2 r2. apply finished_before.
    by apply extended_cons, extended_cons, extended_refl.
Qed.

Lemma elem_extended b h h' (e : event cmd) : extended b h h' → e ∈ h → e ∈ h'.
Proof. intros (pre & -> & _) He. set_solver. Qed.

Lemma finish_create_wp ns p g w h :
  wp any_answer any_command (finish_create ns p g w) h
    (finished_create w (created_with ns (ga_objectName g) p (ga_hostNetwork g)
       (containerDNSService w (pr_ports p)) w) h).
Proof.
  unfold finish_create. cbv zeta.
  apply or_abandon_wp.
  { apply unguarded_no_create. destruct (OneShot w); [apply only_adoptClaims|apply only_ret]. }
  intros h1. apply or_abandon_wp; [apply unguarded_no_create, only_applyEnvSecret|]. intros h2.
  rewrite wp_bind, wp_call. split; [done|]. intros [dns|e] _.
  2: { eapply wp_post; [|apply abandon_wp]. intros h3 r3. apply finished_before.
       by apply extended_cons, extended_refl. }
  match goal with |- wp _ _ _ ?h0 _ => set (hd := h0) end.
  assert (extended no_create h2 hd) as Hxd by (by apply extended_cons, extended_refl).
  eapply wp_post; [intros h3 r3; exact (finished_before w _ _ _ _ _ Hxd)|].
  apply publish_wp. intros h3 Hx3 Hpub.
  assert (∃ s, Event _ (KCreate KService ns (containerDNSService w (pr_ports p) : obj KService)) (Ok s) ∈ hd)
    as [s Hs] by (exists dns; apply list_elem_of_here).
  unfold or_abandon. rewrite wp_bind.
  assert (only no_create (if ga_hostNetwork g then Ret (Ok tt) else
    applyPublishedPortsPolicy ns (ga_objectName g) (ownerReference w) (podPorts (pr_ports p)))) as Honly.
  { apply unguarded_no_create. destruct (ga_hostNetwork g); [apply only_ret|].
    apply only_applyPublishedPortsPolicy. }
  assert (wp any_answer any_command (if ga_hostNetwork g then Ret (Ok tt) else
    applyPublishedPortsPolicy ns (ga_objectName g) (ownerReference w) (podPorts (pr_ports p))) h3
    (λ h' r, (r = Ok tt → ga_hostNetwork g = false →
       published_applied ns (ga_objectName g) (ownerReference w) (podPorts (pr_ports p)) h') ∧
       extended no_create h3 h')) as Hpol.
  { apply wp_extended. specialize (Honly h3). revert Honly.
    destruct (ga_hostNetwork g); [done|]. intros Honly.
    pose proof (wp_both _ _ _ _ _ _ _ Honly (applyPublishedPortsPolicy_wp ns (ga_objectName g)
      (ownerReference w) (podPorts (pr_ports p)) h3)) as Hboth.
    eapply wp_mono; [| |exact Hboth]; [by intros ? ? ? [? ?]|]. intros h4 r [_ Hr] Hok _. auto. }
  eapply wp_post; [|exact Hpol]. intros h4 [[]|e] [Happ Hx4].
  - rewrite wp_ret. split; [done|]. split_and!; [done| | |by apply Happ].
    + exists s. by do 2 (eapply elem_extended; [done|]).
    + intros Hne. destruct (Hpub Hne) as [s' Hs']. exists s'. by eapply elem_extended.
  - eapply wp_post; [intros h5 r5; by apply finished_before|apply abandon_wp].
Qed.
End after_creation.

(** ** What is known before the workload is created *)

(** The network object of a name: a predefined name has its own; any other was found. *)
Definition resolved_network (ns name objectName : string) (h : hist) : Prop :=
  if is_builtin name then objectName = networkObjectName name
  else ∃ net, matched_network ns name net h ∧ objectName = Name (net_meta net).

(** The labels are those of the networks of the names, and no other. *)
Definition memberships (ns : string) (names : list string) (labels : smap) (h : hist) : Prop :=
  (∀ name, name ∈ names → ∃ objectName, resolved_network ns name objectName h ∧
     labels !! network_label objectName = Some "true") ∧
  (∀ key, is_Some (labels !! key) → ∃ name objectName, name ∈ names ∧
     resolved_network ns name objectName h ∧ key = network_label objectName).

Lemma resolved_network_mono ns name objectName h h' :
  h `suffix_of` h' → resolved_network ns name objectName h → resolved_network ns name objectName h'.
Proof.
  intros [pre ->]. unfold resolved_network. destruct (is_builtin name); [done|].
  intros (net & (Hne & l & Hl & Hm) & ->). exists net. split; [|done]. split; [done|]. exists l.
  split; [|done]. apply elem_of_app. by right.
Qed.

Lemma memberships_mono ns names labels h h' :
  h `suffix_of` h' → memberships ns names labels h → memberships ns names labels h'.
Proof.
  intros Hs [H1 H2]. split.
  - intros name (o & Ho & ?)%H1. exists o. split; [by eapply resolved_network_mono|done].
  - intros key (name & o & ? & ? & ?)%H2. exists name, o. split_and!; [done| |done].
    by eapply resolved_network_mono.
Qed.

(** The host configuration that was asked for, and the networks. *)
Definition asked_host (cfg : CreateConfig) : HostConfig := default empty_host_config (cc_HostConfig cfg).

Definition asked_networks (cfg : CreateConfig) : list string :=
  match requested_networks (NetworkMode (asked_host cfg)) (map_to_list (cc_Endpoints cfg)).*1 with
  | Ok (Some names) => slices_Sort names
  | _ => []
  end.

(** The image of the Pods: the first repository digest that the registry answered for the
    image that is asked for, in the tenant's repository. *)
Definition image_pinned (settings : docker_settings) (ns : string) (cfg : CreateConfig) (image : string)
    (h : hist) : Prop :=
  ∃ config digest digests imageConfig, cc_Config cfg = Some config ∧
    Event _ (ImageInspect (Image config)) (Ok (digest :: digests, imageConfig)) ∈ h ∧
    image = pullHost settings +:+ "/" +:+ ns +:+ "/" +:+ digest.

Definition prepared_for `{Validation} (settings : docker_settings) (ns : string) (cfg : CreateConfig)
    (p : prepared) : Prop :=
  podMetadata [Docker.Labels (pr_config p)] = Ok (pr_meta p) ∧
  same_mode (asked_host cfg) (pr_host p).

Definition gathered_for (ns : string) (cfg : CreateConfig) (p : prepared) (g : gathered) (h : hist) : Prop :=
  memberships ns (asked_networks cfg) (ga_networks g) h ∧
  ga_hostNetwork g = bool_decide (NetworkMode (pr_host p) = "host") ∧
  ga_annotations g !! containerNameAnnotation = Some (pr_name p).

Section before_creation.
Context `{Unicode} `{Regexp} `{MapJSON} `{Validation} `{Quantities} `{DockerJSON}.
Context `{NetworkOrder} `{ConfigMapKeys} `{ProviderOrder} `{PortParser} `{PullSecretCodec}.

Lemma wp_ret_res {A B} R G (r : res A) (k : A → proc (res B)) h Q :
  (∀ a, r = Ok a → wp R G (k a) h Q) → (∀ e, Q h (Err e)) → wp R G (ret_res r k) h Q.
Proof. destruct r; simpl; auto. Qed.

(** A step of which nothing is needed. *)
Lemma wp_then {A B} R (p : proc (res A)) (k : A → proc (res B)) h Q :
  (∀ h a, wp R any_command (k a) h Q) → (∀ h e, Q h (Err e)) →
  wp R any_command (do? a <- p; k a) h Q.
Proof.
  intros Hk He. rewrite wp_bind_res. eapply wp_post; [|apply wp_any].
  intros h' [a|e] _; auto.
Qed.

Lemma prepare_wp settings id cfg name config h :
  cc_Config cfg = Some config →
  wp any_answer any_command (prepare settings id cfg name config) h (λ h' r,
    match r with
    | Ok p => prepared_for settings (id_namespace id) cfg p ∧ pr_name p = name ∧
        ∃ pre, h' = (pre ++ h)%list ∧ image_pinned settings (id_namespace id) cfg (pr_image p) pre
    | Err _ => True
    end).
Proof.
  intros Hconfig. unfold prepare, podImage. rewrite wp_bind_res, wp_bind_res, wp_call. split; [done|].
  intros [[[|digest digests] imageConfig]|e] _; [done| |done]. rewrite wp_ret.
  apply wp_ret_res; [intros merged _|done]. apply wp_ret_res; [intros meta Hmeta|done].
  apply wp_ret_res; [intros resources _|done]. rewrite wp_bind_res.
  eapply wp_post; [|apply wp_suffix, wp_any]. intros h1 [defaults|e] [_ [pre ->]]; [|done].
  apply wp_ret_res; [intros [host resources'] Hhost|done].
  apply wp_ret_res; [intros [[ports serviceType] warnings] _|done].
  apply wp_ret_res; [intros [probe probeWarnings] _|done]. rewrite wp_ret.
  split; [split|split; [done|]]; [done| |].
  - destruct (applyResourceDefaults _ _ _) as [[h' r']|] eqn:E; [|done]. injection Hhost as <- <-.
    by eapply applyResourceDefaults_mode.
  - exists (pre ++ [Event _ (ImageInspect (Image config)) (Ok (digest :: digests, imageConfig))])%list.
    rewrite <- app_assoc. split; [done|]. exists config, digest, digests, imageConfig. split_and!; [done|set_solver|done].
Qed.

Lemma network_label_inj o o' : network_label o = network_label o' → o = o'.
Proof. intros Heq. by apply sapp_inv_length in Heq as [_ Heq]. Qed.

Lemma membership_labels_wp id acc labels names h :
  memberships (id_namespace id) acc labels h →
  wp any_answer any_command (membership_labels (Some id) labels names) h (λ h' r,
    match r with
    | Ok labels => memberships (id_namespace id) (acc ++ names)%list labels h'
    | Err _ => True
    end).
Proof.
  revert acc labels h. induction names as [|name names IH]; intros acc labels h Hl;
    cbn [membership_labels]; [by rewrite wp_ret, app_nil_r|].
  rewrite wp_bind_res. eapply (wp_post _ _ _ _ (λ h' r,
    match r with
    | Ok o => resolved_network (id_namespace id) name o h' ∧ h `suffix_of` h'
    | Err _ => True
    end)).
  - intros h1 [o|e]; [|done]. intros [Ho Hs]. rewrite cons_middle, app_assoc. apply IH.
    destruct (memberships_mono _ _ _ _ _ Hs Hl) as [Hn Hk]. split.
    + intros name' [Hin| ->%list_elem_of_singleton]%elem_of_app.
      * destruct (Hn name' Hin) as (o' & Ho' & Hlab). exists o'. split; [done|].
        destruct (decide (o' = o)) as [->|Hne]; [by rewrite lookup_insert_eq|].
        rewrite lookup_insert_ne; [done|]. intros Heq%network_label_inj. congruence.
      * exists o. split; [done|apply lookup_insert_eq].
    + intros key. destruct (decide (key = network_label o)) as [->|Hne].
      * intros _. exists name, o. split_and!; [set_solver|done..].
      * rewrite lookup_insert_ne by done. intros (n' & o' & ? & ? & ?)%Hk. exists n', o'. set_solver.
  - unfold resolved_network. destruct (is_builtin name); [by rewrite wp_ret|].
    rewrite wp_bind_res. eapply wp_post; [|apply wp_suffix, findNetwork_listed].
    intros h1 [net|e]; [|done]. rewrite wp_ret. intros [Hm Hs]. split; [by exists net|done].
Qed.

Lemma memberships_empty ns h : memberships ns [] ∅ h.
Proof. split; [set_solver|]. intros key [v Hv]. by rewrite lookup_empty in Hv. Qed.

Lemma containerNetworkLabels_wp id host endpoints h :
  wp any_answer any_command (containerNetworkLabels (Some id) (Some host) endpoints) h (λ h' r,
    match r with
    | Ok (labels, hostNetwork) =>
        memberships (id_namespace id)
          (match requested_networks (NetworkMode host) (map_to_list endpoints).*1 with
           | Ok (Some names) => slices_Sort names | _ => [] end) labels h' ∧
        hostNetwork = bool_decide (NetworkMode host = "host")
    | Err _ => True
    end).
Proof.
  unfold containerNetworkLabels. cbv zeta.
  assert (∀ names, requested_networks (NetworkMode host) (map_to_list endpoints).*1 = Ok names →
    bool_decide (NetworkMode host = "host") = match names with None => true | Some _ => false end) as Hhost.
  { intros names. unfold requested_networks. destruct (decide (NetworkMode host = "host")) as [Hm|Hm].
    - rewrite bool_decide_true by done. destruct (decide _); [by intros [= <-]|done].
    - rewrite bool_decide_false by done. intros Hr.
      repeat match type of Hr with (if ?b then _ else _) = _ => destruct b end;
        first [done | by injection Hr as <-]. }
  destruct (requested_networks _ _) as [[names|]|] eqn:E; [| |done].
  - rewrite wp_bind_res. eapply wp_post; [|apply (membership_labels_wp id []), memberships_empty].
    intros h1 [labels|e]; [|done]. rewrite wp_ret. by rewrite (Hhost _ eq_refl).
  - rewrite wp_ret, (Hhost _ eq_refl). split; [apply memberships_empty|done].
Qed.

Lemma create_annotations_name p hostNetwork endpoints annotations :
  create_annotations p hostNetwork endpoints = Ok annotations →
  annotations !! containerNameAnnotation = Some (pr_name p).
Proof.
  unfold create_annotations. destruct (containerAnnotations _ _) as [a|]; [|done].
  destruct (aliasesFromEndpoints endpoints) as [aliases|]; simpl; [|done].
  destruct (_ && _); [done|]. destruct (encodeContainerAliases aliases) as [encoded|]; simpl; [|done].
  destruct (decide _); intros [= <-]; [apply lookup_insert_eq|].
  rewrite lookup_insert_ne by done. apply lookup_insert_eq.
Qed.

Lemma gather_wp settings order id cfg p h :
  same_mode (asked_host cfg) (pr_host p) →
  wp any_answer any_command (gather settings order id cfg p) h (λ h' r,
    match r with Ok g => gathered_for (id_namespace id) cfg p g h' | Err _ => True end).
Proof.
  intros [Hmode _]. unfold gather. cbv zeta.
  apply wp_then; [intros h1 _|done]. apply wp_then; [intros h2 objectName|done].
  apply wp_then; [intros h3 env|done]. apply wp_then; [intros h4 [[volumes mounts] claims]|done].
  rewrite wp_bind_res. eapply wp_post; [|apply containerNetworkLabels_wp].
  intros h5 [[labels hostNetwork]|e]; [|done]. intros [Hl Hh]. rewrite Hmode in Hl.
  rewrite wp_bind_res. eapply wp_post; [|apply wp_suffix, wp_any]. intros h6 [u|e] [_ Hs6]; [|done].
  rewrite wp_bind_res. eapply wp_post; [|apply wp_suffix, wp_any]. intros h7 [u'|e] [_ Hs7]; [|done].
  apply wp_ret_res; [intros annotations Ha|done]. rewrite wp_ret.
  split_and!; [|done|by eapply create_annotations_name].
  eapply memberships_mono; [|exact Hl]. by etrans.
Qed.

Lemma only_gather settings order id cfg p : only no_create (gather settings order id cfg p).
Proof.
  unfold gather. cbv zeta.
  apply only_bind_res; [apply unguarded_no_create, only_ensureContainerNameAvailable|intros _].
  apply only_bind_res; [apply unguarded_no_create, only_containerObjectName|intros objectName].
  apply only_bind_res; [apply unguarded_no_create, only_resolveEnv|intros env].
  apply only_bind_res; [apply unguarded_no_create, only_containerVolumes|intros [[volumes mounts] claims]].
  apply only_bind_res; [apply unguarded_no_create, only_containerNetworkLabels|intros [labels hostNetwork]].
  apply only_bind_res; [|intros _].
  { unfold ensurePullSecret, with_mutex. apply only_bind; [by apply only_call|]. intros _.
    apply only_defer; [by apply only_call|]. apply unguarded_no_create. only_auto.
    - apply only_store_pull_credential.
    - apply only_store_pull_credential. }
  apply only_bind_res; [apply unguarded_no_create, only_ensureNamespaceIsolation|intros _].
  unfold ret_res. only_auto.
Qed.
End before_creation.

(** ** The properties *)

(** The workload that an event stored. *)
Definition created_workload (e : event cmd) : option containerWorkload :=
  match e with
  | Event X c x =>
      (match c in cmd X return X → option containerWorkload with
       | KCreate k _ _ =>
           match k return res (obj k) → option containerWorkload with
           | KDeployment => λ r, match r with Ok d => Some (deploymentWorkload d) | Err _ => None end
           | KJob => λ r, match r with Ok j => Some (jobWorkload j) | Err _ => None end
           | _ => λ _, None
           end
       | _ => λ _, None
       end) x
  end.

(** Every workload created since [h] was deleted again. *)
Definition rolled_back (h h' : hist) : Prop :=
  ∃ pre, h' = (pre ++ h)%list ∧
  ∀ w e, e ∈ pre → created_workload e = Some w → DeletionTimestamp w = None → ∃ d, d ∈ pre ∧ deletion_of w d.

(** The Pod template of a container: it carries the labels of its container and of
    the networks it was connected to, whatever labels the user asked for; its image is the
    one that was prepared, and pulled with the tenant's credential at every start; with
    placement it runs on the tenant's nodes, and without anywhere. *)
Definition tenant_template (settings : docker_settings) (ns : string) (cfg : CreateConfig) (p : prepared) (g : gathered)
    (t : PodTemplateSpec) : Prop :=
  Pod_Labels t !! "app" = Some (ga_objectName g) ∧
  Pod_Labels t !! managedByLabel = Some managedByDink ∧
  (∀ objectName, Pod_Labels t !! network_label objectName = ga_networks g !! network_label objectName) ∧
  (∃ c, Containers (Pod_Spec t) = [c] ∧ Ctr_Name c = ga_objectName g ∧
     Ctr_Image c = pr_image p ∧ Ctr_ImagePullPolicy c = PullAlways) ∧
  ImagePullSecrets (Pod_Spec t) = [pullSecretName] ∧
  HostNetwork (Pod_Spec t) = bool_decide (NetworkMode (asked_host cfg) = "host") ∧
  NodeAffinity (Pod_Spec t) =
    (if IsEnabled (nodePlacement settings) && negb (bool_decide (ns = ""))
     then Some [[{| Req_Key := LabelKey (nodePlacement settings); Req_Operator := OpDoesNotExist; Req_Values := [] |}];
                [{| Req_Key := LabelKey (nodePlacement settings); Req_Operator := OpIn; Req_Values := [ns] |}]]
     else None).

(** The stored workload does not run yet, and how it was asked for. *)
Definition stopped_creation (settings : docker_settings) (ns : string) (cfg : CreateConfig) (p : prepared) (g : gathered)
    (w : containerWorkload) (e : event cmd) : Prop :=
  (∃ (o d : Deployment), e = Event _ (KCreate KDeployment ns (o : obj KDeployment)) (Ok d) ∧
     w = deploymentWorkload d ∧ AutoRemove (asked_host cfg) = false ∧ Replicas o = Some 0%Z ∧
     Selector o ⊆ Pod_Labels (dep_Template o) ∧ tenant_template settings ns cfg p g (dep_Template o)) ∨
  (∃ (o j : Job), e = Event _ (KCreate KJob ns (o : obj KJob)) (Ok j) ∧
     w = jobWorkload j ∧ AutoRemove (asked_host cfg) = true ∧ Suspend o = Some true ∧
     RestartPolicy (Pod_Spec (job_Template o)) = "Never" ∧
     tenant_template settings ns cfg p g (job_Template o)).

Definition created_as `{Validation} (settings : docker_settings) (ns : string) (cfg : CreateConfig) (p : prepared)
    (h h' : hist) (r : string * list string) : Prop :=
  ∃ g w e pre h1, h' = (pre ++ h)%list ∧ e ∈ pre ∧
    stopped_creation settings ns cfg p g w e ∧
    memberships ns (asked_networks cfg) (ga_networks g) h' ∧
    ga_annotations g !! containerNameAnnotation = Some (pr_name p) ∧
    h1 `suffix_of` h' ∧
    created_with ns (ga_objectName g) p (ga_hostNetwork g) (containerDNSService w (pr_ports p)) w h1 r.

Definition container_created `{Validation} (settings : docker_settings) (ns : string) (cfg : CreateConfig) (h h' : hist)
    (r : string * list string) : Prop :=
  ∃ p pre, h' = (pre ++ h)%list ∧ image_pinned settings ns cfg (pr_image p) pre ∧
    created_as settings ns cfg p h h' r.

Lemma network_label_reserved objectName : reservedPodMetadataKey (network_label objectName) = true.
Proof.
  unfold reservedPodMetadataKey, network_label, networkLabelPrefix.
  change ("dink.io/network-" +:+ objectName) with ("dink.io" +:+ String "/" ("network-" +:+ objectName)).
  rewrite Cut_char by reflexivity. rewrite (bool_decide_true ("dink.io" = "dink.io")) by done.
  cbn [andb orb]. by rewrite !orb_true_r.
Qed.

Lemma placed_spec spec placement ns :
  Containers (applyNodePlacement spec placement ns) = Containers spec ∧
  ImagePullSecrets (applyNodePlacement spec placement ns) = ImagePullSecrets spec ∧
  HostNetwork (applyNodePlacement spec placement ns) = HostNetwork spec ∧
  RestartPolicy (applyNodePlacement spec placement ns) = RestartPolicy spec ∧
  NodeAffinity (applyNodePlacement spec placement ns) =
    (if IsEnabled placement && negb (bool_decide (ns = ""))
     then Some (placement_selector (LabelKey placement) ns) else NodeAffinity spec).
Proof.
  unfold applyNodePlacement. destruct (IsEnabled placement); simpl; [|by split_and!].
  destruct (bool_decide_reflect (ns = "")) as [->|Hne]; by split_and!.
Qed.

Section properties.
Context `{Unicode} `{Regexp} `{MapJSON} `{Validation} `{Quantities} `{DockerJSON} `{RetryLaws}.
Context `{NetworkOrder} `{ConfigMapKeys} `{ProviderOrder} `{PortParser} `{PullSecretCodec}.

Lemma pod_template_contained settings ns cfg p g restart h :
  prepared_for settings ns cfg p → gathered_for ns cfg p g h →
  tenant_template settings ns cfg p g (pod_template settings ns p g restart).
Proof.
  intros (Hmeta & Hmode) ([_ Hnet] & Hhost & _). unfold tenant_template, pod_template.
  cbn [Pod_Labels Pod_Spec].
  match goal with |- context [applyNodePlacement ?s _ _] =>
    destruct (placed_spec s (nodePlacement settings) ns) as (Hc & Hs & Hh & _ & Ha) end.
  unfold maps_Copy.
  assert (∀ key, key = "app" ∨ key = managedByLabel → ga_networks g !! key = None) as Hnone.
  { intros key Hkey. apply eq_None_not_Some. intros (n & o & _ & _ & ->)%Hnet. by destruct Hkey. }
  rewrite !(podMetadata_keeps_reserved _ _ _ _ Hmeta) by done.
  rewrite !lookup_union_r by (apply Hnone; auto). split_and!; [done|done| | |done| |exact Ha].
  - intros o. rewrite (podMetadata_keeps_reserved _ _ _ _ Hmeta) by apply network_label_reserved.
    rewrite lookup_union. unfold dinkPodLabels. rewrite !lookup_insert_ne by done.
    rewrite lookup_empty. by destruct (ga_networks g !! _).
  - rewrite Hc. exists (container_of p g). by split_and!.
  - rewrite Hh. cbn. rewrite Hhost. by destruct Hmode as [-> _].
Qed.

Definition creation_result settings (id : Identity) (cfg : CreateConfig) (p : prepared) (h h' : hist)
    (r : res (string * list string)) : Prop :=
  match r with
  | Ok a => created_as settings (id_namespace id) cfg p h h' a
  | Err _ => rolled_back h h'
  end.

Lemma no_creation e w : no_create (ev_type e) (ev_cmd e) = true → created_workload e = Some w → False.
Proof. destruct e as [X c x]. destruct c; try done. by destruct k. Qed.

Lemma rolled_back_quiet h h' : extended no_create h h' → rolled_back h h'.
Proof.
  intros (pre & -> & Hp). exists pre. split; [done|]. intros w e He Hc.
  destruct (no_creation e w); auto.
Qed.

Lemma rolled_back_abandoned h h1 h' w e :
  extended no_create h h1 → created_workload e = Some w → abandoned w (e :: h1) h' → rolled_back h h'.
Proof.
  intros (p1 & -> & Hp1) Hc [(p2 & -> & Hp2) Hdel]. exists (p2 ++ e :: p1)%list.
  split; [by rewrite <- app_assoc|]. intros w' e' He' Hc' Hnone.
  assert (e' = e) as ->.
  { apply elem_of_app in He' as [He'|[->|He']%elem_of_cons]; [|done|];
      destruct (no_creation e' w'); auto. }
  rewrite Hc in Hc'. injection Hc' as <-.
  destruct (Hdel Hnone) as (pre & d & Heq & Hd & Hdd). exists d. split; [|done].
  apply app_inv_tail in Heq as ->. set_solver.
Qed.

(** Events that create nothing may come before and after. *)
Lemma creation_result_around settings id cfg p h h1 h2 h3 r :
  extended no_create h h1 → creation_result settings id cfg p h1 h2 r → extended no_create h2 h3 →
  creation_result settings id cfg p h h3 r.
Proof.
  intros (p1 & -> & Hp1) Hr (p3 & -> & Hp3). destruct r as [a|err]; simpl in *.
  - destruct Hr as (g & w & e & pre & h0 & -> & He & Hstop & Hmem & Hname & Hs & Hwith).
    exists g, w, e, (p3 ++ pre ++ p1)%list, h0. rewrite <- !app_assoc.
    split_and!; [done|set_solver|done| |done| |done].
    + eapply memberships_mono; [|exact Hmem]. by apply suffix_app_r.
    + etrans; [exact Hs|]. by apply suffix_app_r.
  - destruct Hr as (pre & -> & Hp). exists (p3 ++ pre ++ p1)%list. rewrite <- !app_assoc.
    split; [done|]. intros w e He Hc Hnone.
    assert (e ∈ pre) as Hin.
    { rewrite !elem_of_app in He. destruct He as [He|[He|He]]; [|done|];
        destruct (no_creation e w); auto. }
    destruct (Hp w e Hin Hc Hnone) as (d & ? & ?). exists d. split; [set_solver|done].
Qed.

Lemma created_result settings id cfg p g w e h1 h' r :
  created_workload e = Some w → stopped_creation settings (id_namespace id) cfg p g w e →
  memberships (id_namespace id) (asked_networks cfg) (ga_networks g) h1 →
  ga_annotations g !! containerNameAnnotation = Some (pr_name p) →
  finished_create w (created_with (id_namespace id) (ga_objectName g) p (ga_hostNetwork g)
    (containerDNSService w (pr_ports p)) w) (e :: h1) h' r →
  creation_result settings id cfg p h1 h' r.
Proof.
  intros Hc Hstop Hmem Hname. destruct r as [a|err]; simpl.
  - intros [(pre & -> & _) Hwith]. exists g, w, e, (pre ++ [e])%list, (pre ++ e :: h1)%list.
    rewrite <- app_assoc. split_and!; try done; [set_solver|].
    eapply memberships_mono; [|exact Hmem]. by apply suffix_app_r, suffix_cons_r.
  - intros Hab. by eapply rolled_back_abandoned; [apply extended_refl|..].
Qed.

Lemma create_locked_wp settings order id cfg p h :
  prepared_for settings (id_namespace id) cfg p →
  wp any_answer any_command (create_locked settings order id cfg p) h (creation_result settings id cfg p h).
Proof.
  intros Hp. unfold create_locked. rewrite wp_bind_res.
  pose proof (wp_extended no_create any_answer any_command (gather settings order id cfg p) h _
    (wp_both _ _ _ _ _ _ _ (gather_wp settings order id cfg p h (proj2 Hp))
      (only_gather settings order id cfg p h)))
    as Hgather.
  eapply wp_post; [|exact Hgather]. intros h1 [g|e] [[Hg _] Hx];
    [|by apply rolled_back_quiet].
  assert (∀ h2 r, creation_result settings id cfg p h1 h2 r → creation_result settings id cfg p h h2 r) as Hbefore.
  { intros h2 r Hr. eapply creation_result_around; [done..|apply extended_refl]. }
  assert (∀ e h2, h2 = e :: h1 → created_workload e = None → rolled_back h h2) as Hfailed.
  { intros e h2 -> Hc. apply (Hbefore _ (Err ContextError)). exists [e]. split; [done|].
    intros w e' He'%list_elem_of_singleton. subst. congruence. }
  rewrite wp_bind_res. unfold create_workload. pose proof (proj2 (proj2 Hp)) as Hauto.
  destruct (AutoRemove (pr_host p)) eqn:Ea;
    rewrite wp_bind, wp_call; (split; [done|]); intros [o|e] _; rewrite wp_ret;
    try (eapply Hfailed; reflexivity).
  - match goal with |- wp _ _ _ (?x :: _) _ => set (ev := x) end.
    eapply wp_post; [|apply finish_create_wp]. intros h2 r Hr. apply Hbefore.
    apply (created_result settings id cfg p g (jobWorkload o) ev);
      [reflexivity| |exact (proj1 Hg)|exact (proj2 (proj2 Hg))|exact Hr].
    right. eexists _, o. split_and!; [done..|by rewrite <- Hauto|done| |by eapply pod_template_contained].
    apply placed_spec.
  - match goal with |- wp _ _ _ (?x :: _) _ => set (ev := x) end.
    eapply wp_post; [|apply finish_create_wp]. intros h2 r Hr. apply Hbefore.
    apply (created_result settings id cfg p g (deploymentWorkload o) ev);
      [reflexivity| |exact (proj1 Hg)|exact (proj2 (proj2 Hg))|exact Hr].
    pose proof (pod_template_contained settings (id_namespace id) cfg p g "" _ Hp Hg) as Ht.
    left. eexists _, o. split_and!; [done..|by rewrite <- Hauto|done| |exact Ht].
    apply map_singleton_subseteq_l. apply Ht.
Qed.

Definition creation_outcome settings (id : Identity) (cfg : CreateConfig) (h h' : hist)
    (r : res (string * list string)) : Prop :=
  match r with
  | Ok a => container_created settings (id_namespace id) cfg h h' a
  | Err _ => rolled_back h h'
  end.

Lemma image_pinned_later settings ns cfg image h h' : h ⊆ h' → image_pinned settings ns cfg image h → image_pinned settings ns cfg image h'.
Proof. intros Hs (config & d & ds & ic & Hc & Hin & He). exists config, d, ds, ic. split_and!; [done|by apply Hs|done]. Qed.

Lemma ContainerCreate_wp settings order id cfg h :
  wp any_answer any_command (ContainerCreate settings order (Some id) cfg) h
    (creation_outcome settings id cfg h).
Proof.
  unfold ContainerCreate. destruct (cc_Config cfg) as [config|] eqn:Econfig.
  2: { apply rolled_back_quiet, extended_refl. }
  rewrite wp_bind. eapply wp_post.
  2: { apply (only_wp no_create). destruct (decide (cc_Name cfg = "")); [by apply only_call|apply only_ret]. }
  intros h1 name Hx1. unfold ret_res.
  destruct (normalizeContainerName name) as [n|]; [|by apply rolled_back_quiet].
  rewrite wp_bind_res.
  pose proof (wp_extended no_create any_answer any_command _ h1 _
    (wp_both _ _ _ _ _ _ _ (prepare_wp settings id cfg n config h1 Econfig)
       (unguarded_no_create _ (only_prepare settings id cfg n config) h1))) as Hprep.
  eapply wp_post; [|exact Hprep]. intros h2 [p|e] [[Hp _] Hx2].
  2: { apply rolled_back_quiet. eapply extended_trans; [exact Hx1|exact Hx2]. }
  destruct Hp as (Hp & _ & pre2 & -> & Himage).
  assert (extended no_create h (pre2 ++ h1)%list) as Hx by (eapply extended_trans; [exact Hx1|exact Hx2]).
  unfold with_mutex. rewrite wp_bind, wp_call. split; [done|]. intros [] _. rewrite wp_defer.
  eapply wp_post; [|apply wp_suffix, create_locked_wp, Hp]. intros h3 r [Hr [pre3 Hs]].
  rewrite wp_call. split; [done|]. intros [] _.
  assert (creation_result settings id cfg p h
    (Event _ (MuUnlock containerNameMu) tt :: h3) r) as Hdone.
  { eapply creation_result_around; [|exact Hr|by apply extended_cons, extended_refl]. by apply extended_cons. }
  destruct r as [a|e]; [|exact Hdone]. destruct Hx1 as (pre1 & -> & _).
  exists p, (Event _ (MuUnlock containerNameMu) tt :: pre3 ++ Event _ (MuLock containerNameMu) tt :: pre2 ++ pre1)%list.
  rewrite Hs. split; [simpl; rewrite <- !app_assoc; simpl; by rewrite <- !app_assoc|]. split; [|by rewrite <- Hs].
  eapply image_pinned_later; [|exact Himage]. set_solver.
Qed.

(** The locking discipline of creation. *)
Lemma neutral_ensurePullSecret st host ns :
  holds_mutex st pullSecretMu = false → neutral st (ensurePullSecret host ns).
Proof.
  intros Hst. apply neutral_with_mutex; [done|]. apply only_neutral. only_auto;
    apply only_store_pull_credential.
Qed.

Lemma neutral_gather settings order id cfg p st :
  holds_mutex st pullSecretMu = false → neutral st (gather settings order id cfg p).
Proof.
  intros Hst. unfold gather, ret_res. cbv zeta.
  repeat first [ apply only_neutral; first [apply only_ensureContainerNameAvailable
    | apply only_containerObjectName | apply only_resolveEnv | apply only_containerVolumes
    | apply only_containerNetworkLabels | apply only_ensureNamespaceIsolation]
    | by apply neutral_ensurePullSecret | neutral_step ].
Qed.

Lemma neutral_finish_create ns p g w st :
  holds_mutex st containerNameMu = true → neutral st (finish_create ns p g w).
Proof.
  intros Hst. assert (may_write st KDeployment = true) as Hw by (cbn; rewrite Hst; apply orb_true_r).
  assert (∀ e, neutral st (abandon w e : proc (res (string * list string)))) as Habandon.
  { intros e. apply neutral_bind; [by apply neutral_deleteWorkload|]. intros; apply neutral_ret. }
  unfold finish_create, publish, or_abandon. cbv zeta.
  repeat first [ apply Habandon
    | apply only_neutral; first [apply only_adoptClaims | apply only_applyEnvSecret
      | apply only_applyPublishedPortsPolicy]
    | apply neutral_call; [reflexivity|exact Hst] | neutral_step ].
Qed.

Lemma neutral_ContainerCreate settings order ctx cfg :
  neutral [] (ContainerCreate settings order ctx cfg).
Proof.
  unfold ContainerCreate. destruct ctx as [id|]; [|apply neutral_ret].
  destruct (cc_Config cfg) as [config|]; [|apply neutral_ret].
  apply neutral_bind; [neutral_auto|]. intros name. unfold ret_res.
  destruct (normalizeContainerName name); [|apply neutral_ret].
  apply neutral_bind_res; [apply only_neutral, only_prepare|]. intros p.
  apply neutral_with_mutex; [done|]. unfold create_locked, create_workload.
  apply neutral_bind_res; [by apply neutral_gather|]. intros g.
  apply neutral_bind_res; [neutral_auto|]. intros w. by apply neutral_finish_create.
Qed.

(** C10: a reported container is complete, confined and stopped.  When
    [ContainerCreate] reports a container, its Deployment (or, with [--rm], its
    Job) was stored in the namespace of the identity with no replica (or
    suspended), under the reported identifier and name; its Pods carry the labels
    that the policies of the container and of its networks select, those networks
    being exactly the ones asked for, each a predefined one or the tenant's only
    match of the name, and the user's labels cannot forge them; they run exactly the
    repository digest that the registry answered, in this call, for the image that was
    asked for, from the tenant's repository, pulled with the tenant's credential at every
    start, and if placement is enabled only on nodes that are the tenant's or nobody's; and its Services and the
    policy of its published ports were created. *)
Theorem created_container_is_confined settings order id cfg h h' a :
  exec (ContainerCreate settings order (Some id) cfg) h h' (Ok a) →
  container_created settings (id_namespace id) cfg h h' a.
Proof.
  intros Hex. refine (proj1 (wp_exec _ _ _ _ _ _ _ (ContainerCreate_wp settings order id cfg h) Hex _)).
  apply along_any; [done|]. by eapply exec_suffix.
Qed.

(** C11: a failed creation leaves no workload behind.  When [ContainerCreate]
    fails, every workload that was stored during the call was afterwards deleted
    under its own UID (or was already being deleted); and however it ends, the
    method follows the locking discipline and holds nothing. *)
Theorem failed_creation_is_rolled_back settings order :
  (∀ id cfg h h' e, exec (ContainerCreate settings order (Some id) cfg) h h' (Err e) →
     rolled_back h h') ∧
  (∀ ctx cfg, neutral [] (ContainerCreate settings order ctx cfg)).
Proof.
  split; [|apply neutral_ContainerCreate]. intros id cfg h h' e Hex.
  refine (proj1 (wp_exec _ _ _ _ _ _ _ (ContainerCreate_wp settings order id cfg h) Hex _)).
  apply along_any; [done|]. by eapply exec_suffix.
Qed.
End properties.

(** ** Witnesses *)

Definition demo_ports : PortParser := {| ParsePort _ := None |}.
Definition demo_pull_codec : PullSecretCodec := {|
  Base64Encode s := s; Base64Decode s := Some s;
  Marshal_auths m := Some (to_text m); Unmarshal_auths := of_text |}.

Definition demo_settings : docker_settings := {|
  pullHost := "pull.local";
  defaultResources := {| default_Limits := {| CPU := ""; Mem := "" |};
                         default_Requests := {| CPU := ""; Mem := "" |} |};
  nodePlacement := {| Enabled := None; LabelKey := ""; Tolerate := None |};
  DecodeDefaults _ := None |}.

Definition demo_request : CreateConfig := {|
  cc_Name := "api"; cc_Config := Some empty_config; cc_HostConfig := None; cc_Endpoints := ∅ |}.

Definition demo_create : proc (res (string * list string)) :=
  @ContainerCreate ascii_unicode demo_map_json demo_validation demo_quantities
    demo_docker_json demo_retry demo_network_order demo_keys demo_provider_order demo_ports
    demo_pull_codec demo_settings elements (Some acme_identity) demo_request.

Lemma created_container_is_confined_witness :
  ∃ a, (simulate demo_create network_cluster).1.1 = Ok a ∧
    @container_created demo_validation demo_settings "acme" demo_request []
      (simulate demo_create network_cluster).1.2 a.
Proof.
  assert (∃ a, (simulate demo_create network_cluster).1.1 = Ok a) as [a Ha]
    by (vm_compute; eauto).
  exists a. split; [exact Ha|].
  apply (@created_container_is_confined ascii_unicode demo_map_json demo_validation
    demo_quantities demo_docker_json demo_retry demo_retry_laws demo_network_order demo_keys
    demo_provider_order demo_ports demo_pull_codec demo_settings elements acme_identity demo_request
    [] (simulate demo_create network_cluster).1.2 a).
  rewrite <- Ha. apply simulate_exec.
Defined.

(** A foreign Service has the name: the Deployment is created and deleted again. *)
Definition occupied_cluster : cluster :=
  set_db KService [{| svc_meta := new_meta "api" "acme";
    Svc_Spec := {| ServiceType := "ClusterIP"; Svc_Selector := ∅; Svc_Ports := []; ClusterIP := "" |} |}]
    network_cluster.

Lemma failed_creation_is_rolled_back_witness :
  ∃ e, (simulate demo_create occupied_cluster).1.1 = Err e ∧
    rolled_back [] (simulate demo_create occupied_cluster).1.2.
Proof.
  assert (∃ e, (simulate demo_create occupied_cluster).1.1 = Err e) as [e He]
    by (vm_compute; eauto).
  exists e. split; [exact He|].
  apply (proj1 (@failed_creation_is_rolled_back ascii_unicode demo_map_json demo_validation
    demo_quantities demo_docker_json demo_retry demo_retry_laws demo_network_order demo_keys
    demo_provider_order demo_ports demo_pull_codec demo_settings elements)
    acme_identity demo_request [] (simulate demo_create occupied_cluster).1.2 e).
  rewrite <- He. apply simulate_exec.
Defined.

(** ** The pull Secret *)

(** The Secret of the namespace holds the credential. *)
Definition holds_credential `{PullSecretCodec} (host ns username password : string) (s : Secret) : Prop :=
  Secret_Type s = SecretTypeDockerConfigJson ∧
  dockerConfigPassword (mget (Secret_Data s) DockerConfigJsonKey) (host +:+ "/" +:+ ns) username =
    password.

(** What a successful [ensurePullSecret] leaves behind: the registry answered with a
    credential, and the Secret that was read, replaced or created holds it; a
    replaced Secret keeps its metadata and its other keys. *)
Definition pull_secret_ensured `{PullSecretCodec} (host ns : string) (h : hist) : Prop :=
  ∃ previous username password,
    Event _ (EnsurePullCredential previous) (Ok (username, password)) ∈ h ∧
    ((∃ s : Secret, Event _ (KGet KSecret ns pullSecretName) (Ok s) ∈ h ∧
        username = ns ∧ previous = password ∧ holds_credential host ns username password s) ∨
     (∃ (old o new : Secret), Event _ (KGet KSecret ns pullSecretName) (Ok old) ∈ h ∧
        Event _ (KUpdate KSecret ns (o : obj KSecret)) (Ok new) ∈ h ∧
        secret_meta o = secret_meta old ∧
        (∀ k, k ≠ DockerConfigJsonKey → Secret_Data o !! k = Secret_Data old !! k) ∧
        holds_credential host ns username password o) ∨
     (∃ (o new : Secret), Event _ (KCreate KSecret ns (o : obj KSecret)) (Ok new) ∈ h ∧
        Name (secret_meta o) = pullSecretName ∧ Namespace (secret_meta o) = ns ∧
        holds_credential host ns username password o)).

Lemma pull_secret_ensured_mono `{PullSecretCodec} host ns (h h' : hist) :
  (∀ e, e ∈ h → e ∈ h') → pull_secret_ensured host ns h → pull_secret_ensured host ns h'.
Proof.
  intros Hh (prev & u & p & Hc & Hs). exists prev, u, p. split; [by apply Hh|].
  destruct Hs as [(s & ? & ?)|[(old & o & new & ? & ? & ?)|(o & new & ? & ?)]];
    [left; exists s|right; left; exists old, o, new|right; right; exists o, new]; eauto.
Qed.

Section pull_secrets.
Context `{PullSecretCodecLaws}.

(** What is encoded is read back, for its scope and user only. *)
Lemma dockerConfig_roundtrip scope username password config :
  has_char ":" username = false →
  dockerConfigJSON scope username password = Ok config →
  dockerConfigPassword config scope username = password ∧
  (∀ scope', scope' ≠ scope → dockerConfigPassword config scope' username = "") ∧
  (∀ user, user ≠ username → dockerConfigPassword config scope user = "").
Proof.
  intros Hu. unfold dockerConfigJSON. destruct (Marshal_auths _) as [c|] eqn:Em; [|done].
  intros [= <-]. apply Unmarshal_Marshal_auths in Em. unfold dockerConfigPassword. rewrite Em.
  assert (Base64Encode (username +:+ ":" +:+ password) ≠ "") as Hne.
  { rewrite Base64Encode_empty. intros He%(f_equal len). rewrite !len_app in He. unfold len in He.
    simpl in He. lia. }
  rewrite !lookup_singleton_eq, Base64Decode_Encode, bool_decide_false by done. cbn [negb].
  change (":" +:+ password) with (String ":" password). rewrite Cut_char by done. cbn [negb orb].
  split_and!.
  - by rewrite bool_decide_true.
  - intros scope' Hs. by rewrite lookup_singleton_ne.
  - intros user Hs. by rewrite bool_decide_false.
Qed.

(** The Secret that is stored holds the credential. *)
Lemma updated_pull_secret_holds host ns username password config s :
  has_char ":" username = false →
  dockerConfigJSON (host +:+ "/" +:+ ns) username password = Ok config →
  holds_credential host ns username password (updated_pull_secret s config).
Proof.
  intros Hu Hc. split; [done|]. unfold mget. cbn. rewrite lookup_insert_eq. cbn.
  by eapply dockerConfig_roundtrip.
Qed.

Lemma pull_secret_holds host ns username password config :
  has_char ":" username = false →
  dockerConfigJSON (host +:+ "/" +:+ ns) username password = Ok config →
  holds_credential host ns username password (pull_secret ns config).
Proof.
  intros Hu Hc. split; [done|]. cbn [pull_secret Secret_Data]. unfold mget.
  rewrite lookup_singleton_eq. by eapply dockerConfig_roundtrip.
Qed.

(** The username the registry answered with, if the event is such an answer. *)
Definition answered_username (e : event cmd) : string :=
  match e with
  | Event X c x =>
      (match c in cmd X return X → string with
       | EnsurePullCredential _ => λ r, match r with Ok (username, _) => username | Err _ => "" end
       | _ => λ _, ""
       end) x
  end.

(** The registry answers with usernames without a colon, as basic authentication needs. *)
Definition plain_usernames (h : hist) : Prop :=
  ∀ e, e ∈ h → has_char ":" (answered_username e) = false.

(** The Secret the lookup found, [None] when it was not found. *)
Definition looked_up (ns : string) (existing : option Secret) (h : hist) : Prop :=
  match existing with
  | Some s => Event _ (KGet KSecret ns pullSecretName) (Ok s : res (obj KSecret)) ∈ h
  | None => True
  end.

Lemma previous_password_holds host ns existing password h :
  previous_password (host +:+ "/" +:+ ns) ns existing = password → password ≠ "" →
  looked_up ns existing h →
  ∃ s : Secret, Event _ (KGet KSecret ns pullSecretName) (Ok s : res (obj KSecret)) ∈ h ∧
    holds_credential host ns ns password s.
Proof.
  destruct existing as [s|]; simpl; [|congruence]. destruct (decide _) as [Ht|]; [|congruence].
  intros Hp Hne Hl. exists s. by split_and!.
Qed.

Lemma store_pull_credential_wp host ns existing h :
  looked_up ns existing h →
  wp any_answer any_command (store_pull_credential (host +:+ "/" +:+ ns) ns existing) h (λ h' r,
    r = Ok tt → plain_usernames h' → pull_secret_ensured host ns h').
Proof.
  intros Hl. unfold store_pull_credential. rewrite wp_bind, wp_call. split; [done|].
  intros [[username password]|e] _; [|by rewrite wp_ret].
  set (prev := previous_password (host +:+ "/" +:+ ns) ns existing).
  assert (∀ h', plain_usernames (h' ++ Event _ (EnsurePullCredential prev) (Ok (username, password)) :: h)%list →
            has_char ":" username = false) as Hplain.
  { intros h' Hp. apply (Hp (Event _ (EnsurePullCredential prev) (Ok (username, password)))). set_solver. }
  match goal with |- wp _ _ (if ?b then _ else _) _ _ => destruct b eqn:Eb end.
  - rewrite wp_ret. intros _ _. apply andb_true_iff in Eb as [[Hne Hu]%andb_true_iff Hp].
    apply negb_true_iff, bool_decide_eq_false in Hne.
    apply bool_decide_eq_true in Hu as ->. apply bool_decide_eq_true in Hp as ->.
    destruct (previous_password_holds host ns existing prev h eq_refl Hne Hl) as (s & Hs & Hh).
    exists prev, ns, prev. split; [by left|]. left. exists s. split_and!; [by right|done..].
  - destruct (dockerConfigJSON _ _ _) as [config|e] eqn:Ec; [|by rewrite wp_ret].
    destruct existing as [s|]; rewrite wp_bind, wp_call; (split; [done|]); intros [new|e] _;
      rewrite wp_ret; try done; intros _ Hp; exists prev, username, password;
      (split; [right; by left|]); right; pose proof (Hplain [_] Hp) as Hu.
    + left. exists s, (updated_pull_secret s config), new. split_and!; [| by left|done| |].
      * right. by right.
      * intros k Hk. cbn. by rewrite lookup_insert_ne.
      * by apply updated_pull_secret_holds.
    + right. exists (pull_secret ns config), new. split_and!; [by left|done..|].
      by apply pull_secret_holds.
Qed.

(** the pull Secret holds the tenant's credential.  When [ensurePullSecret]
    succeeds, the registry answered with a credential and the namespace's pull
    Secret holds it, whether the Secret was there already, was replaced (keeping
    its metadata and its other keys) or was created; and a Docker configuration
    reads back exactly what was encoded, and for its own scope and user only. *)
Theorem pull_secret_holds_credential host ns :
  (∀ h h', plain_usernames h' → exec (ensurePullSecret host ns) h h' (Ok tt) →
     pull_secret_ensured host ns h') ∧
  (∀ scope username password config, has_char ":" username = false →
     dockerConfigJSON scope username password = Ok config →
     dockerConfigPassword config scope username = password ∧
     (∀ scope', scope' ≠ scope → dockerConfigPassword config scope' username = "") ∧
     (∀ user, user ≠ username → dockerConfigPassword config scope user = "")).
Proof.
  split; [|intros; by apply dockerConfig_roundtrip]. intros h h' Hp Hex.
  assert (wp any_answer any_command (ensurePullSecret host ns) h (λ h' r,
    r = Ok tt → plain_usernames h' → pull_secret_ensured host ns h')) as Hwp.
  { unfold ensurePullSecret, with_mutex. rewrite wp_bind, wp_call. split; [done|]. intros [] _.
    rewrite wp_defer, wp_bind, wp_call. split; [done|]. intros existing _.
    assert (∀ (h : hist) (r : res unit), (r = Ok tt → plain_usernames h → pull_secret_ensured host ns h) →
      wp any_answer any_command (call (MuUnlock pullSecretMu)) h (λ h' _,
        r = Ok tt → plain_usernames h' → pull_secret_ensured host ns h')) as Hunlock.
    { intros h2 r Hr. apply wp_call. split; [done|]. intros [] _ Hok Hpl.
      eapply pull_secret_ensured_mono; [|apply Hr; [done|]]; [set_solver|].
      intros ??. eapply Hpl. by right. }
    eapply wp_post; [intros h2 r; apply Hunlock|].
    destruct existing as [s|e]; [|destruct (IsNotFound e); [|done]];
      apply store_pull_credential_wp; simpl; [by left|done]. }
  refine (proj1 (wp_exec _ _ _ _ _ _ _ Hwp Hex _) eq_refl Hp).
  apply along_any; [done|]. by eapply exec_suffix.
Qed.
End pull_secrets.

(** A namespace without a pull Secret. *)
Definition demo_pull : proc (res unit) := @ensurePullSecret demo_pull_codec "pull.local" "acme".

Lemma demo_pull_codec_laws : @PullSecretCodecLaws demo_pull_codec.
Proof.
  split; [done|done|]. intros m s [= <-]. apply of_text_to_text.
Qed.

Lemma pull_secret_holds_credential_witness :
  @pull_secret_ensured demo_pull_codec "pull.local" "acme" (simulate demo_pull network_cluster).1.2.
Proof.
  apply (proj1 (@pull_secret_holds_credential demo_pull_codec demo_pull_codec_laws "pull.local" "acme")
    [] (simulate demo_pull network_cluster).1.2).
  - unfold plain_usernames. apply list.Forall_forall. vm_compute. repeat constructor.
  - assert ((simulate demo_pull network_cluster).1.1 = Ok tt) as Hr by (vm_compute; reflexivity).
    rewrite <- Hr. apply simulate_exec.
Defined.
