(* ===== verification/Swarm.v ===== *)
(** * Swarm: [core/translator/swarm.go], [swarm_secret.go] and [swarm_config.go]

    Swarm secrets and configs are Kubernetes Secrets and ConfigMaps of the tenant's
    namespace that carry a label.  The code of the two files is the same up to the
    kind: [SwarmObject] is what differs, and the operations are written once. *)

From S2P Require Import Prelude GoStrings Errors Prog Validation Docker Filters.
From S2P Require Export Kube Cluster Workload.

Local Open Scope string_scope.

Definition swarmServiceKind : string := "service".
Definition swarmSecretKind : string := "secret".
Definition swarmConfigKind : string := "config".
Definition swarmSpecAnnotation : string := "dink.io/swarm-spec".
Definition swarmPayloadKey : string := "payload".

Definition swarm_selector (label : string) : string := swarmKindLabel +:+ "=" +:+ label.
Definition swarmServiceSelector : string := swarm_selector swarmServiceKind.

(** The interface [swarmFilters]; [no_filters] is the zero value of the arguments. *)
Record swarmFilters := {
  sf_Len : nat;
  sf_Get : string → list string;
  sf_Validate : gset string → option error;
  sf_Match : string → string → bool;
  sf_ExactMatch : string → string → bool;
  sf_FuzzyMatch : string → string → bool;
  sf_MatchKVList : string → smap → bool
}.

Definition no_filters : swarmFilters := {|
  sf_Len := 0; sf_Get _ := []; sf_Validate _ := None; sf_Match _ _ := true;
  sf_ExactMatch _ _ := true; sf_FuzzyMatch _ _ := true; sf_MatchKVList _ _ := true |}.

(** The arguments of [pkg/filters] implement it. *)
Definition filters_of `{Regexp} (args : Args) : swarmFilters := {|
  sf_Len := Len args; sf_Get := Get args;
  sf_Validate accepted :=
    match Validate args (gset_to_gmap true accepted) with
    | Ok _ => None | Err e => Some (filter_error e)
    end;
  sf_Match := Match args; sf_ExactMatch := ExactMatch args; sf_FuzzyMatch := FuzzyMatch args;
  sf_MatchKVList := MatchKVList args |}.

Definition swarm_namespace (ctx : context) : res string :=
  match ctx with
  | None => Err (Unauthenticated (errors_New "missing identity in context"))
  | Some id => Ok (id_namespace id)
  end.

(** ** Versions *)

Definition digit_value (c : ascii) : N := (code c - 48)%N.

Fixpoint parse_digits (acc : N) (s : string) : option N :=
  match s with
  | EmptyString => Some acc
  | String c s => if is_digit c then parse_digits (acc * 10 + digit_value c)%N s else None
  end.

(** [strconv.ParseUint(s, 10, 64)]; [None] is an error. *)
Definition ParseUint64 (s : string) : option N :=
  if decide (s = "") then None
  else match parse_digits 0 s with
       | Some n => if (n <? 2 ^ 64)%N then Some n else None
       | None => None
       end.

Definition swarmVersion (resourceVersion : string) : N := default 0%N (ParseUint64 resourceVersion).

Definition resourceVersionFor (version : N) : string :=
  if (version =? 0)%N then "" else pretty version.

Record SwarmMeta := { Version : N; CreatedAt : Z; UpdatedAt : Z }.

Definition swarmMeta (m : ObjectMeta) : SwarmMeta := {|
  Version := swarmVersion (ResourceVersion m);
  CreatedAt := CreationTimestamp m; UpdatedAt := CreationTimestamp m |}.

Definition validateSwarmName `{Validation} (kind name : string) : res unit :=
  if decide (name = "") then Err (InvalidArgument (errors_New "%s name is required"))
  else if no_problems (IsDNS1123Subdomain name) then Ok tt
  else Err (InvalidArgument (errors_New "%s name %q is not usable as a Kubernetes object name: %s")).

Definition notSwarm : error := Unsupported (errors_New "%s is not available").

(** ** Secrets and configs *)

(** [swarm.SecretSpec] and [swarm.ConfigSpec]; a config has no driver. *)
Record ObjectSpec := {
  spec_Name : string;
  spec_Labels : smap;
  spec_Data : string;
  spec_Driver : bool;          (* not nil *)
  spec_Templating : bool       (* not nil *)
}.

Record swarm_object := { so_ID : string; so_Meta : SwarmMeta; so_Spec : ObjectSpec }.

(** [encoding/json] on specs. *)
Class SpecJSON := {
  Marshal_spec : ObjectSpec → option string;
  Unmarshal_spec : string → option ObjectSpec
}.
Class SpecJSONLaws `{SpecJSON} := {
  Unmarshal_Marshal_spec s t : Marshal_spec s = Some t → Unmarshal_spec t = Some s;
  Marshal_spec_nonempty s : Marshal_spec s ≠ Some ""
}.

(** What differs between the two kinds. *)
Class SwarmObject (k : kind) := {
  object_label : string;
  object_refuses : ObjectSpec → option error;
  object_new : ObjectMeta → string → obj k;
  object_set_meta : ObjectMeta → obj k → obj k;
  object_data : obj k → option string   (* the payload to show; [None] keeps the decoded one *)
}.

Class SwarmObjectLaws (k : kind) `{SwarmObject k} := {
  object_shows : bool;                  (* whether the payload is shown *)
  object_new_data m d : object_data (object_new m d) = Some (if object_shows then d else "");
  object_new_meta m d : obj_meta (object_new m d) = m;
  object_set_meta_meta m (o : obj k) : obj_meta (object_set_meta m o) = m;
  object_set_meta_data m (o : obj k) : object_data (object_set_meta m o) = object_data o
}.

Definition swarm_secret_new (m : ObjectMeta) (data : string) : Secret :=
  {| secret_meta := m; Secret_Type := ""; Secret_Data := {[swarmPayloadKey := data]} |}.

#[export] Instance swarm_secret : SwarmObject KSecret := {
  object_label := swarmSecretKind;
  object_refuses spec :=
    if spec_Driver spec then
      Some (Unsupported (errors_New "external secret drivers are not supported by the Swarm endpoints"))
    else if spec_Templating spec then
      Some (Unsupported (errors_New "secret templating is not supported: Kubernetes Secrets are mounted verbatim"))
    else None;
  object_new := swarm_secret_new;
  object_set_meta m s := {| secret_meta := m; Secret_Type := Secret_Type s; Secret_Data := Secret_Data s |};
  object_data _ := Some "" }.

Definition swarm_config_new (m : ObjectMeta) (data : string) : ConfigMap :=
  {| cm_meta := m; CM_Data := ∅; CM_BinaryData := {[swarmPayloadKey := data]} |}.

(** Configs are not secret: their payload is shown. *)
Definition swarm_config_data (c : ConfigMap) : option string :=
  match CM_BinaryData c !! swarmPayloadKey with
  | Some data => Some data
  | None => CM_Data c !! swarmPayloadKey
  end.

#[export] Instance swarm_config : SwarmObject KConfigMap := {
  object_label := swarmConfigKind;
  object_refuses spec :=
    if spec_Templating spec then
      Some (Unsupported (errors_New "config templating is not supported: Kubernetes ConfigMaps are mounted verbatim"))
    else None;
  object_new := swarm_config_new;
  object_set_meta m c := {| cm_meta := m; CM_Data := CM_Data c; CM_BinaryData := CM_BinaryData c |};
  object_data := swarm_config_data }.

#[export] Instance swarm_secret_laws : SwarmObjectLaws KSecret.
Proof. by refine {| object_shows := false |}. Defined.
#[export] Instance swarm_config_laws : SwarmObjectLaws KConfigMap.
Proof. by refine {| object_shows := true |}. Defined.

Definition swarm_id_matches {k} (idOrName : string) (o : obj k) : bool :=
  HasPrefix (DockerIDFromUID (UID (obj_meta o))) idOrName.

(** [findSecret], [findConfig] and [findService]: by name, if the object of that name
    has the label, else by a prefix of the identifier. *)
Definition find_swarm (k : kind) (label : string) (ctx : context) (idOrName : string) :
    proc (res (obj k)) :=
  match swarm_namespace ctx with
  | Err e => Ret (Err e)
  | Ok namespace =>
      if decide (idOrName = "") then
        Ret (Err (InvalidArgument (errors_New "%s ID or name is required")))
      else
        let by_id :=
          do items <- call (KList k namespace (swarm_selector label));
          match items with
          | Err e => Ret (Err (kubeError e))
          | Ok items =>
              Ret (match unique_match (swarm_id_matches idOrName)
                           (Conflict (errors_New "%s %s is ambiguous")) None items with
                   | Err e => Err e
                   | Ok None => Err (NotFound (errors_New "%s %s not found"))
                   | Ok (Some o) => Ok o
                   end)
          end in
        do named <- call (KGet k namespace idOrName);
        match named with
        | Ok o => if decide (mget (Labels (obj_meta o)) swarmKindLabel = label)
                  then Ret (Ok o) else by_id
        | Err e => if negb (IsNotFound e) then Ret (Err (kubeError e)) else by_id
        end
  end.

Section objects.
Context `{Validation} `{SpecJSON} (k : kind) `{SwarmObject k}.

Definition decodeSwarmSpec (annotations : smap) : res ObjectSpec :=
  let encoded := mget annotations swarmSpecAnnotation in
  if decide (encoded = "") then
    Ok {| spec_Name := ""; spec_Labels := ∅; spec_Data := ""; spec_Driver := false; spec_Templating := false |}
  else match Unmarshal_spec encoded with
       | Some spec => Ok spec
       | None => Err (errors_New "json")
       end.

Definition swarmSpecAnnotations (spec : ObjectSpec) : res smap :=
  match Marshal_spec spec with
  | Some encoded => Ok {[swarmSpecAnnotation := encoded]}
  | None => Err (InvalidArgument (Errorf "encoding spec: %w" [errors_New "json"]))
  end.

(** [swarmSecret] and [swarmConfig]: the payload is the one the kind shows. *)
Definition swarmObject (object : obj k) : res swarm_object :=
  match decodeSwarmSpec (Annotations (obj_meta object)) with
  | Err e => Err (Errorf "decoding %s spec for %s: %w" [e])
  | Ok spec =>
      Ok {| so_ID := DockerIDFromUID (UID (obj_meta object));
            so_Meta := swarmMeta (obj_meta object);
            so_Spec := {| spec_Name := Name (obj_meta object); spec_Labels := spec_Labels spec;
                          spec_Data := default (spec_Data spec) (object_data object); spec_Driver := spec_Driver spec;
                          spec_Templating := spec_Templating spec |} |}
  end.

Definition matchesSwarmObjectFilters (filters : swarmFilters) (o : swarm_object) : bool :=
  if decide (sf_Len filters = 0) then true
  else sf_FuzzyMatch filters "id" (so_ID o) &&
       sf_Match filters "name" (spec_Name (so_Spec o)) &&
       sf_ExactMatch filters "names" (spec_Name (so_Spec o)) &&
       sf_MatchKVList filters "label" (spec_Labels (so_Spec o)).

Definition validateSwarmObjectFilters (filters : swarmFilters) : option error :=
  sf_Validate filters {["id"; "label"; "name"; "names"]}.

(** [GetSecrets], [GetConfigs] *)
Definition get_objects (ctx : context) (filters : swarmFilters) : proc (res (list swarm_object)) :=
  match swarm_namespace ctx with
  | Err e => Ret (Err e)
  | Ok namespace =>
      match validateSwarmObjectFilters filters with
      | Some e => Ret (Err (InvalidArgument e))
      | None =>
          do items <- call (KList k namespace (swarm_selector object_label));
          match items with
          | Err e => Ret (Err (kubeError e))
          | Ok items =>
              Ret (let? objects := result_mapM swarmObject items in
                   Ok (sort_by (λ o, spec_Name (so_Spec o))
                         (List.filter (matchesSwarmObjectFilters filters) objects)))
          end
      end
  end.

(** [GetSecret], [GetConfig] *)
Definition get_object (ctx : context) (idOrName : string) : proc (res swarm_object) :=
  do? object <- find_swarm k object_label ctx idOrName;
  Ret (swarmObject object).

(** The spec that is stored: the payload is in the object itself. *)
Definition stored_spec (name : string) (labels : smap) : ObjectSpec := {|
  spec_Name := name; spec_Labels := labels; spec_Data := ""; spec_Driver := false;
  spec_Templating := false |}.

Definition new_object (namespace : string) (spec : ObjectSpec) (annotations : smap) : obj k :=
  object_new (meta_set_annotations annotations
    (meta_set_labels {[swarmKindLabel := object_label]} (new_meta (spec_Name spec) namespace)))
    (spec_Data spec).

(** [CreateSecret], [CreateConfig] *)
Definition create_object (ctx : context) (spec : ObjectSpec) : proc (res string) :=
  match swarm_namespace ctx with
  | Err e => Ret (Err e)
  | Ok namespace =>
      match validateSwarmName object_label (spec_Name spec), object_refuses spec with
      | Err e, _ | Ok _, Some e => Ret (Err e)
      | Ok _, None =>
          if decide (spec_Data spec = "") then
            Ret (Err (InvalidArgument (errors_New "%s data is required")))
          else match swarmSpecAnnotations (stored_spec (spec_Name spec) (spec_Labels spec)) with
          | Err e => Ret (Err e)
          | Ok annotations =>
              do created <- call (KCreate k namespace (new_object namespace spec annotations));
              Ret (match created with
                   | Ok created => Ok (DockerIDFromUID (UID (obj_meta created)))
                   | Err e => Err (kubeError e)
                   end)
          end
      end
  end.

Definition updated_object (object : obj k) (version : N) (annotations : smap) : obj k :=
  object_set_meta (meta_set_rv (resourceVersionFor version)
    (meta_set_annotations annotations (obj_meta object))) object.

(** [UpdateSecret], [UpdateConfig] *)
Definition update_object (ctx : context) (idOrName : string) (version : N) (spec : ObjectSpec) :
    proc (res unit) :=
  do? object <- find_swarm k object_label ctx idOrName;
  if negb (bool_decide (spec_Data spec = "")) then
    Ret (Err (InvalidArgument (errors_New "only %s labels can be updated")))
  else if negb (bool_decide (spec_Name spec = "")) &&
          negb (bool_decide (spec_Name spec = Name (obj_meta object))) then
    Ret (Err (InvalidArgument (errors_New "renaming a %s is not supported")))
  else match swarmSpecAnnotations (stored_spec (Name (obj_meta object)) (spec_Labels spec)) with
  | Err e => Ret (Err e)
  | Ok annotations =>
      do r <- call (KUpdate k (Namespace (obj_meta object)) (updated_object object version annotations));
      Ret (match r with Ok _ => Ok tt | Err e => Err (kubeError e) end)
  end.

(** [RemoveSecret], [RemoveConfig] *)
Definition remove_object_named (ctx : context) (idOrName : string) : proc (res unit) :=
  do? object <- find_swarm k object_label ctx idOrName;
  do r <- call (KDelete k (Namespace (obj_meta object)) (Name (obj_meta object)) no_delete_options);
  Ret (match r with
       | Ok _ => Ok tt
       | Err e => if IsNotFound e then Ok tt else Err (kubeError e)
       end).
End objects.

Section operations.
Context `{Validation} `{SpecJSON}.

Definition findSecret : context → string → proc (res Secret) := find_swarm KSecret swarmSecretKind.
Definition GetSecrets := get_objects KSecret.
Definition GetSecret := get_object KSecret.
Definition CreateSecret := create_object KSecret.
Definition UpdateSecret := update_object KSecret.
Definition RemoveSecret := remove_object_named KSecret.

Definition findConfig : context → string → proc (res ConfigMap) := find_swarm KConfigMap swarmConfigKind.
Definition GetConfigs := get_objects KConfigMap.
Definition GetConfig := get_object KConfigMap.
Definition CreateConfig := create_object KConfigMap.
Definition UpdateConfig := update_object KConfigMap.
Definition RemoveConfig := remove_object_named KConfigMap.
End operations.

(** ** Properties: versions *)

Lemma digit_char_value (n : N) : (n < 10)%N →
  is_digit (pretty_N_char n) = true ∧ digit_value (pretty_N_char n) = n.
Proof.
  intros Hn. destruct n as [|p]; [done|]. do 4 (destruct p as [p|p|]; try done; try (exfalso; lia)).
Qed.

Lemma parse_digits_pretty_go x s : parse_digits 0 (pretty_N_go x s) = parse_digits x s.
Proof.
  revert s. induction (N.lt_wf_0 x) as [x _ IH]. intros s.
  destruct (decide (x = 0%N)) as [->|Hx]; [by rewrite pretty_N_go_0|].
  rewrite pretty_N_go_step, IH by (try apply N.div_lt; lia). cbn [parse_digits].
  destruct (digit_char_value (x `mod` 10)) as [-> ->]; [by apply N.mod_lt|].
  f_equal. rewrite N.mul_comm. symmetry. by apply N.div_mod.
Qed.

Lemma ParseUint64_pretty n : (n < 2 ^ 64)%N → ParseUint64 (pretty n) = Some n.
Proof.
  intros Hn. unfold ParseUint64, pretty, pretty_N. destruct (decide (n = 0%N)) as [->|Hz]; [done|].
  assert (pretty_N_go n "" ≠ "") as Hne.
  { intros He. pose proof (parse_digits_pretty_go n "") as Hp. rewrite He in Hp. simpl in Hp. congruence. }
  rewrite decide_False by done. rewrite parse_digits_pretty_go. simpl.
  by destruct (N.ltb_spec n (2 ^ 64)); [|lia].
Qed.

(** The version a client echoes names the version it has seen. *)
Lemma resourceVersionFor_swarmVersion n :
  (0 < n < 2 ^ 64)%N → resourceVersionFor (swarmVersion (pretty n)) = pretty n.
Proof.
  intros Hn. unfold swarmVersion, resourceVersionFor. rewrite ParseUint64_pretty by lia. simpl.
  by destruct (N.eqb_spec n 0); [lia|].
Qed.

(** ** Properties: finding *)

(** The object was answered under its name with the label, or listed under the
    label. *)
Definition swarm_seen {k} (ns label : string) (o : obj k) (h : hist) : Prop :=
  (Event _ (KGet k ns (Name (obj_meta o))) (Ok o) ∈ h ∧ mget (Labels (obj_meta o)) swarmKindLabel = label) ∨
  ∃ l, Event _ (KList k ns (swarm_selector label)) (Ok l) ∈ h ∧ o ∈ l.

(** It has the requested name, or is the only listed object with such an identifier. *)
Definition swarm_found {k} (ns label idOrName : string) (o : obj k) (h : hist) : Prop :=
  idOrName ≠ "" ∧ Namespace (obj_meta o) = ns ∧ swarm_seen ns label o h ∧
  (Name (obj_meta o) = idOrName ∨
   ∃ l, Event _ (KList k ns (swarm_selector label)) (Ok l) ∈ h ∧
     filter (λ o' : obj k, swarm_id_matches idOrName o' = true) l = [o]).

Lemma swarm_seen_suffix {k} ns label (o : obj k) h h' :
  h `suffix_of` h' → swarm_seen ns label o h → swarm_seen ns label o h'.
Proof.
  intros [pre ->] [[Hg Hl]|(l & Hl & Ho)]; [left|right; exists l];
    (split; [apply elem_of_app; by right|done]).
Qed.

(** Reads of one kind in one namespace. *)
Definition swarm_reads (k : kind) (ns label : string) : guard (cmd := cmd) := λ _ X c,
  match c with
  | KGet k' ns' _ => k' = k ∧ ns' = ns
  | KList k' ns' selector => k' = k ∧ ns' = ns ∧ selector = swarm_selector label
  | _ => False
  end.

Lemma unique_match_elem {A} (f : A → bool) ambiguous (l : list A) x :
  unique_match f ambiguous None l = Ok (Some x) → filter (λ y, f y = true) l = [x].
Proof.
  rewrite (unique_match_spec f (λ y, f y = true)) by done.
  destruct (filter _ l) as [|y [|]]; try done. by intros [= ->].
Qed.

Lemma find_swarm_wp k label id n h :
  let ns := id_namespace id in
  wp api_rely (swarm_reads k ns label) (find_swarm k label (Some id) n) h (λ h' r,
    match r with Ok o => swarm_found ns label n o h' | Err _ => True end).
Proof.
  intros ns. unfold find_swarm. cbn [swarm_namespace]. fold ns.
  destruct (decide (n = "")) as [->|Hne]; [done|]. cbv zeta.
  set (by_id := bind (call (KList k ns (swarm_selector label))) _).
  assert (∀ h, wp api_rely (swarm_reads k ns label) by_id h (λ h' r,
    match r with Ok o => swarm_found ns label n o h' | Err _ => True end)) as Hid.
  { intros h'. unfold by_id. rewrite wp_bind, wp_call. split; [done|].
    intros [l|e] Hl; rewrite wp_ret; [|done].
    destruct (unique_match _ _ _ l) as [[o|]|] eqn:E; [|done..]. apply unique_match_elem in E.
    assert (o ∈ l) as Ho.
    { apply (list_elem_of_filter (λ y : obj k, swarm_id_matches n y = true)). rewrite E. by left. }
    split_and!; [done|by apply Hl| |]; right; exists l; (split; [by left|done]). }
  rewrite wp_bind, wp_call. split; [done|]. intros [o|e] Ho.
  - destruct (decide _) as [Hlabel|]; [|apply Hid]. rewrite wp_ret. destruct Ho as [<- Hns].
    split_and!; [done..| |by left]. left. split; [by left|done].
  - by destruct (negb _); [|apply Hid].
Qed.

(** ** Properties: secrets and configs *)

(** What the operations may request. *)
Definition swarm_requests (k : kind) (ns label : string) : guard (cmd := cmd) := λ h X c,
  match c with
  | KCreate k' ns' o => k' = k ∧ ns' = ns ∧ Namespace (obj_meta o) = ns ∧
      mget (Labels (obj_meta o)) swarmKindLabel = label
  | KUpdate k' ns' o => k' = k ∧ ns' = ns ∧ ∃ old : obj k', swarm_seen ns label old h ∧
      UID (obj_meta o) = UID (obj_meta old) ∧ Name (obj_meta o) = Name (obj_meta old) ∧
      Labels (obj_meta o) = Labels (obj_meta old)
  | KDelete k' ns' name _ => k' = k ∧ ns' = ns ∧
      ∃ old : obj k', swarm_seen ns label old h ∧ Name (obj_meta old) = name
  | _ => swarm_reads k ns label h X c
  end.

Lemma swarm_reads_requests k ns label h X (c : cmd X) :
  swarm_reads k ns label h X c → swarm_requests k ns label h X c.
Proof. by destruct c. Qed.

Section properties.
Context `{Validation} `{SpecJSON} (k : kind) `{!SwarmObject k} `{!SwarmObjectLaws k}.

Lemma find_object_wp id n h (Q : hist → res (obj k) → Prop) :
  (∀ h' e, h `suffix_of` h' → Q h' (Err e)) →
  (∀ h' o, h `suffix_of` h' → swarm_found (id_namespace id) (object_label (k := k)) n o h' → Q h' (Ok o)) →
  wp api_rely (swarm_requests k (id_namespace id) (object_label (k := k)))
    (find_swarm k (object_label (k := k)) (Some id) n) h Q.
Proof.
  intros Herr Hok. pose proof (wp_suffix _ _ _ _ _ (find_swarm_wp k (object_label (k := k)) id n h)) as Hf.
  eapply wp_mono; [apply swarm_reads_requests| |exact Hf].
  intros h' [o|e] [Hr Hs]; [by apply Hok|by apply Herr].
Qed.

(** The event stores the object with its spec, keeping the identity and payload of
    the one that was found. *)
Definition object_updated (ns name n : string) (version : N) (spec : ObjectSpec) (h : hist) : Prop :=
  ∃ (old o new : obj k) annotations,
    swarm_found ns (object_label (k := k)) name old h ∧
    swarmSpecAnnotations (stored_spec (Name (obj_meta old)) (spec_Labels spec)) = Ok annotations ∧
    o = updated_object k old version annotations ∧ n = Name (obj_meta old) ∧
    Event _ (KUpdate k ns o) (Ok new) ∈ h.

Lemma update_object_wp id n version spec h :
  wp api_rely (swarm_requests k (id_namespace id) (object_label (k := k)))
    (update_object k (Some id) n version spec) h (λ h' r,
      r = Ok tt → ∃ name, object_updated (id_namespace id) n name version spec h').
Proof.
  unfold update_object. rewrite wp_bind_res. apply find_object_wp; [done|].
  intros h1 o Hs1 Hf.
  destruct (negb _); [done|]. destruct (_ && _); [done|].
  destruct (swarmSpecAnnotations _) as [annotations|] eqn:Ea; [|done].
  pose proof Hf as (_ & Hns & Hseen & _). rewrite wp_bind, wp_call, Hns. split.
  - split_and!; [done..|]. exists o. unfold updated_object. rewrite object_set_meta_meta. by split_and!.
  - intros [new|e] _; rewrite wp_ret; [|done]. intros _. exists (Name (obj_meta o)).
    exists o, (updated_object k o version annotations), new, annotations.
    split_and!; [|done..|by left]. destruct Hf as (? & ? & ? & Hby). split_and!; [done..| |].
    + eapply swarm_seen_suffix; [|done]. by apply suffix_cons_r.
    + destruct Hby as [|(l & Hl & ?)]; [by left|right; exists l; split; [by right|done]].
Qed.

(** What a successful creation has stored. *)
Definition object_created (ns : string) (spec : ObjectSpec) (id : string) (h : hist) : Prop :=
  ∃ (o : obj k) annotations,
    swarmSpecAnnotations (stored_spec (spec_Name spec) (spec_Labels spec)) = Ok annotations ∧
    Event _ (KCreate k ns (new_object k ns spec annotations)) (Ok o) ∈ h ∧
    id = DockerIDFromUID (UID (obj_meta o)).

Lemma create_object_wp id spec h :
  wp api_rely (swarm_requests k (id_namespace id) (object_label (k := k)))
    (create_object k (Some id) spec) h (λ h' r,
      match r with Ok i => object_created (id_namespace id) spec i h' | Err _ => True end).
Proof.
  unfold create_object. cbn [swarm_namespace].
  destruct (validateSwarmName _ _); [|done]. destruct (object_refuses spec); [done|].
  destruct (decide _); [done|]. destruct (swarmSpecAnnotations _) as [annotations|] eqn:Ea; [|done].
  rewrite wp_bind, wp_call. split.
  - unfold new_object. cbn [swarm_requests]. rewrite object_new_meta. by split_and!.
  - intros [o|e] _; rewrite wp_ret; [|done]. exists o, annotations. split_and!; [done|by left|done].
Qed.

Lemma remove_object_wp id n h :
  wp api_rely (swarm_requests k (id_namespace id) (object_label (k := k)))
    (remove_object_named k (Some id) n) h (λ _ _, True).
Proof.
  unfold remove_object_named. rewrite wp_bind_res. apply find_object_wp; [done|].
  intros h1 o Hs1 (_ & Hns & Hseen & _). rewrite wp_bind, wp_call, Hns. split; [|done].
  split_and!; [done..|]. by exists o.
Qed.

Lemma get_object_wp id n h :
  wp api_rely (swarm_requests k (id_namespace id) (object_label (k := k)))
    (get_object k (Some id) n) h (λ h' r,
      match r with
      | Ok s => ∃ o, swarm_found (id_namespace id) (object_label (k := k)) n o h' ∧ swarmObject k o = Ok s
      | Err _ => True
      end).
Proof.
  unfold get_object. rewrite wp_bind_res. apply find_object_wp; [done|].
  intros h1 o _ Hf. rewrite wp_ret. destruct (swarmObject k o) eqn:E; [|done]. by exists o.
Qed.

Lemma get_objects_wp id filters h :
  wp api_rely (swarm_requests k (id_namespace id) (object_label (k := k)))
    (get_objects k (Some id) filters) h (λ h' r,
      match r with
      | Ok objects => ∃ l, Event _ (KList k (id_namespace id) (swarm_selector (object_label (k := k)))) (Ok l) ∈ h' ∧
          StronglySorted (le_by (λ o, spec_Name (so_Spec o))) objects ∧
          ∀ s, s ∈ objects ↔
            matchesSwarmObjectFilters filters s = true ∧ ∃ o, o ∈ l ∧ swarmObject k o = Ok s
      | Err _ => True
      end).
Proof.
  unfold get_objects. cbn [swarm_namespace]. destruct (validateSwarmObjectFilters filters); [done|].
  rewrite wp_bind, wp_call. split; [done|]. intros [l|e] Hl; rewrite wp_ret; [|done].
  destruct (result_mapM (swarmObject k) l) as [objects|] eqn:E; [|done]. simpl.
  exists l. split_and!; [by left|apply sort_by_sorted|]. intros s.
  rewrite elem_of_sort_by, list_elem_of_In, List.filter_In, <- list_elem_of_In.
  apply result_mapM_elem in E as [E1 E2]. split.
  - intros [Hs Hm]. by split; [|apply E2].
  - intros (Hm & o & Ho & Hs). split; [|done]. destruct (E1 o Ho) as (s' & ? & Hs'). congruence.
Qed.

(** secrets and configs are confined to the tenant and to what dink labelled.
    Every request of an operation is for the kind of the operation in the namespace of
    the identity; an object is created with the label, and only an object that was
    seen with the label (under its name, or in a listing by it) is updated, keeping
    its name, UID and labels, or deleted.  The object found has the requested name,
    or is the only listed one whose identifier starts with the requested text; a
    listing shows exactly the objects the filters select, by name.  Without an
    identity nothing is requested. *)
Theorem swarm_objects_confined id :
  let ns := id_namespace id in
  let G := swarm_requests k ns (object_label (k := k)) in
  (∀ n h h' r, exec (get_object k (Some id) n) h h' r → answered api_rely h h' →
     guarded G h h' ∧ ∀ s, r = Ok s →
       ∃ o, swarm_found ns (object_label (k := k)) n o h' ∧ swarmObject k o = Ok s) ∧
  (∀ filters h h' r, exec (get_objects k (Some id) filters) h h' r → answered api_rely h h' →
     guarded G h h' ∧ ∀ objects, r = Ok objects →
       StronglySorted (le_by (λ o, spec_Name (so_Spec o))) objects ∧
       ∃ l, Event _ (KList k ns (swarm_selector (object_label (k := k)))) (Ok l) ∈ h' ∧
         ∀ s, s ∈ objects ↔
           matchesSwarmObjectFilters filters s = true ∧ ∃ o, o ∈ l ∧ swarmObject k o = Ok s) ∧
  (∀ spec h h' r, exec (create_object k (Some id) spec) h h' r → answered api_rely h h' →
     guarded G h h' ∧ ∀ i, r = Ok i → object_created ns spec i h') ∧
  (∀ n version spec h h' r, exec (update_object k (Some id) n version spec) h h' r →
     answered api_rely h h' →
     guarded G h h' ∧ (r = Ok tt → ∃ name, object_updated ns n name version spec h')) ∧
  (∀ n h h' r, exec (remove_object_named k (Some id) n) h h' r → answered api_rely h h' →
     guarded G h h') ∧
  (∀ n h h' r, exec (get_object k None n) h h' r → h' = h ∧ ∃ e, r = Err e ∧
     kind_of e = Some KindUnauthenticated).
Proof.
  intros ns G. split_and!.
  - intros n h h' r Hex Hans.
    destruct (wp_exec _ _ _ _ _ _ _ (get_object_wp id n h) Hex Hans) as [Hr ?].
    split; [done|]. intros s ->. exact Hr.
  - intros filters h h' r Hex Hans.
    destruct (wp_exec _ _ _ _ _ _ _ (get_objects_wp id filters h) Hex Hans) as [Hr ?].
    split; [done|]. intros objects ->. destruct Hr as (l & ? & ? & ?). split; [done|]. by exists l.
  - intros spec h h' r Hex Hans.
    destruct (wp_exec _ _ _ _ _ _ _ (create_object_wp id spec h) Hex Hans) as [Hr ?].
    split; [done|]. intros i ->. exact Hr.
  - intros n version spec h h' r Hex Hans.
    by destruct (wp_exec _ _ _ _ _ _ _ (update_object_wp id n version spec h) Hex Hans).
  - intros n h h' r Hex Hans.
    by destruct (wp_exec _ _ _ _ _ _ _ (remove_object_wp id n h) Hex Hans).
  - intros n h h' r Hex. apply exec_inv in Hex as [-> ->]. split; [done|]. by eexists.
Qed.

Lemma decode_stored `{!SpecJSONLaws} spec annotations :
  swarmSpecAnnotations spec = Ok annotations → decodeSwarmSpec annotations = Ok spec.
Proof.
  unfold swarmSpecAnnotations, decodeSwarmSpec, mget.
  destruct (Marshal_spec spec) as [encoded|] eqn:E; [|done]. intros [= <-].
  rewrite lookup_singleton_eq. simpl.
  rewrite decide_False by (intros ->; by apply Marshal_spec_nonempty in E).
  by apply Unmarshal_Marshal_spec in E as ->.
Qed.

(** specs survive, payloads show only where they may, and updates are guarded
    by the version the client saw.  An object stored for a spec reads back with its
    name and labels, with its payload if the kind shows it, whatever else the server
    sets; an update changes only the labels of the spec and the resource version,
    which is the one seen when the client echoes the version it was shown; and a
    Secret's payload is never shown. *)
Theorem swarm_specs_roundtrip `{!SpecJSONLaws} :
  (∀ ns spec annotations (o : obj k),
     swarmSpecAnnotations (stored_spec (spec_Name spec) (spec_Labels spec)) = Ok annotations →
     let stored := new_object k ns spec annotations in
     Annotations (obj_meta o) = Annotations (obj_meta stored) →
     Name (obj_meta o) = Name (obj_meta stored) → object_data o = object_data stored →
     ∃ s, swarmObject k o = Ok s ∧ so_ID s = DockerIDFromUID (UID (obj_meta o)) ∧
       spec_Name (so_Spec s) = spec_Name spec ∧ spec_Labels (so_Spec s) = spec_Labels spec ∧
       spec_Data (so_Spec s) = if object_shows (k := k) then spec_Data spec else "") ∧
  (∀ (old : obj k) version spec annotations,
     swarmSpecAnnotations (stored_spec (Name (obj_meta old)) (spec_Labels spec)) = Ok annotations →
     let o := updated_object k old version annotations in
     ∃ s, swarmObject k o = Ok s ∧ so_ID s = DockerIDFromUID (UID (obj_meta old)) ∧
       spec_Name (so_Spec s) = Name (obj_meta old) ∧ spec_Labels (so_Spec s) = spec_Labels spec ∧
       spec_Data (so_Spec s) = default "" (object_data old) ∧
       (∀ n, (0 < n < 2 ^ 64)%N → ResourceVersion (obj_meta old) = pretty n →
          version = swarmVersion (ResourceVersion (obj_meta old)) →
          ResourceVersion (obj_meta o) = ResourceVersion (obj_meta old))) ∧
  (∀ (o : Secret) s, swarmObject KSecret o = Ok s → spec_Data (so_Spec s) = "").
Proof.
  split_and!.
  - intros ns spec annotations o Ha stored Hann Hname Hdata. subst stored.
    unfold new_object in *. rewrite !object_new_meta in *. cbn in Hann, Hname.
    rewrite object_new_data in Hdata.
    unfold swarmObject. rewrite Hann, (decode_stored _ _ Ha), Hdata. eexists. split; [reflexivity|]. by cbn.
  - intros old version spec annotations Ha o. subst o. unfold swarmObject, updated_object.
    rewrite object_set_meta_meta. cbn [Annotations meta_set_rv meta_set_annotations].
    rewrite (decode_stored _ _ Ha), object_set_meta_data. eexists. split; [reflexivity|].
    split_and!; [done..|]. intros n Hn Hrv ->. cbn. rewrite Hrv.
    by apply resourceVersionFor_swarmVersion.
  - intros o s. unfold swarmObject. destruct (decodeSwarmSpec _); [|done]. by intros [= <-].
Qed.
End properties.

(** ** Witnesses *)

#[export] Instance ObjectSpec_eq_dec : EqDecision ObjectSpec.
Proof. solve_decision. Defined.
#[export] Instance ObjectSpec_countable : Countable ObjectSpec.
Proof.
  refine (inj_countable' (λ s, (spec_Name s, spec_Labels s, spec_Data s, spec_Driver s, spec_Templating s))
    (λ '(n, l, d, r, t), {| spec_Name := n; spec_Labels := l; spec_Data := d; spec_Driver := r;
                            spec_Templating := t |}) _).
  by intros [].
Defined.

Definition demo_spec_json : SpecJSON := {|
  Marshal_spec s := Some (to_text s); Unmarshal_spec := of_text |}.

Lemma demo_spec_json_laws : @SpecJSONLaws demo_spec_json.
Proof.
  split; simpl.
  - intros s t [= <-]. apply of_text_to_text.
  - intros s [=Hs]. by apply to_text_nonempty in Hs.
Qed.

(** Creating a config named [motd] in an empty cluster. *)
Definition motd_spec : ObjectSpec := {|
  spec_Name := "motd"; spec_Labels := {["team" := "ops"]}; spec_Data := "hello";
  spec_Driver := false; spec_Templating := false |}.

Definition demo_create_config : proc (res string) :=
  @create_object demo_validation demo_spec_json KConfigMap swarm_config (Some acme_identity) motd_spec.

Lemma swarm_objects_confined_witness :
  guarded (swarm_requests KConfigMap "acme" swarmConfigKind) [] (simulate demo_create_config empty_cluster).1.2 ∧
  @object_created demo_spec_json KConfigMap swarm_config "acme" motd_spec ""
    (simulate demo_create_config empty_cluster).1.2.
Proof.
  destruct (@swarm_objects_confined demo_validation demo_spec_json KConfigMap swarm_config
    swarm_config_laws acme_identity) as (_ & _ & Hc & _).
  destruct (Hc motd_spec [] (simulate demo_create_config empty_cluster).1.2
    (simulate demo_create_config empty_cluster).1.1) as [Hg Hr];
    [apply simulate_exec|apply simulate_answered|]. split; [exact Hg|].
  apply Hr. vm_compute. reflexivity.
Defined.

Lemma swarm_specs_roundtrip_witness :
  ∃ annotations s, @swarmSpecAnnotations demo_spec_json (stored_spec "motd" {["team" := "ops"]}) = Ok annotations ∧
    @swarmObject demo_spec_json KConfigMap swarm_config
      (@new_object KConfigMap swarm_config "acme" motd_spec annotations) = Ok s ∧
    spec_Data (so_Spec s) = "hello".
Proof.
  destruct (@swarmSpecAnnotations demo_spec_json (stored_spec "motd" {["team" := "ops"]}))
    as [annotations|] eqn:Ea; [|discriminate Ea].
  destruct (@swarm_specs_roundtrip demo_spec_json KConfigMap swarm_config swarm_config_laws
    demo_spec_json_laws) as (Hc & _).
  destruct (Hc "acme" motd_spec annotations (@new_object KConfigMap swarm_config "acme" motd_spec annotations)
    Ea eq_refl eq_refl eq_refl) as (s & Hs & _ & _ & _ & Hd).
  by exists annotations, s.
Defined.
