(* ===== verification/SwarmSpec.v ===== *)
(** * SwarmSpec: the translation of a Swarm service

    The parts of [core/translator/swarm_service.go] that need no request: defaults,
    replicas, ports and Services, resources, placement, strategy and the settings of
    the Pod.  A slice that is only tested for being empty is kept as its length, and
    a pointer that is only tested for nil as a boolean. *)

From S2P Require Import Prelude GoStrings Errors Docker Validation Kube Workload Ports Services Resources.
From S2P Require Import Swarm.
From Stdlib Require Import SpecFloat.

Local Open Scope string_scope.
Local Open Scope Z_scope.

(** ** The Docker service spec *)

Record PortConfig := {
  pc_Protocol : string; TargetPort : Z; PublishedPort : Z; PublishMode : string   (* uint32 *)
}.
Record EndpointSpec := { es_Mode : string; es_Ports : list PortConfig }.

(** The replicas of a replicated service are a [*uint64]. *)
Record ServiceMode := {
  Replicated : option (option Z); Global : bool; ReplicatedJob : bool; GlobalJob : bool
}.

Record FileTarget := { File_Name : string; File_Mode : Z }.
Record FileReference := { ref_Name : string; ref_File : option FileTarget }.

Record ServiceMount := { sm_Mount : Mount; TmpfsSize : option Z }.

Record DNSConfig := { Nameservers : list string; dns_Search : list string; dns_Options : list string }.

Record ContainerSpec := {
  cs_Image : string;
  cs_Labels : smap;
  cs_Command : list string;
  cs_Args : list string;
  cs_Env : list string;
  cs_Dir : string;
  cs_TTY : bool;
  cs_OpenStdin : bool;
  cs_Hostname : string;
  cs_Hosts : list string;
  cs_DNSConfig : option DNSConfig;
  cs_StopGracePeriod : option Z;
  cs_Sysctls : smap;
  cs_ReadOnly : bool;
  cs_CapabilityAdd : list string;
  cs_CapabilityDrop : list string;
  cs_Healthcheck : option HealthConfig;
  cs_Mounts : list ServiceMount;
  cs_Secrets : list (option FileReference);
  cs_Configs : list (option FileReference);
  cs_User : string;
  cs_Groups : list string;
  cs_Privileges : bool;
  cs_Init : bool;
  cs_Isolation : string;
  cs_Ulimits : nat;
  cs_OomScoreAdj : Z;
  cs_StopSignal : string
}.

(** [swarm.Limit] (its [Pids]) and [swarm.Resources] (its generic resources). *)
Record Limit := { lim_NanoCPUs : Z; lim_MemoryBytes : Z; lim_Pids : Z }.
Record Reservation := { rv_NanoCPUs : Z; rv_MemoryBytes : Z; rv_Generic : nat }.
Record ServiceResources := { sr_Limits : option Limit; sr_Reservations : option Reservation }.

Record Placement := { Constraints : list string; Preferences : nat }.
Record NetworkAttachment := { na_Target : string; na_Aliases : list string }.

Record TaskSpec := {
  ts_Runtime : string;
  ts_ContainerSpec : option ContainerSpec;
  ts_RestartCondition : option string;      (* the policy, if not nil *)
  ts_Resources : option ServiceResources;
  ts_Placement : option Placement;
  ts_Networks : list NetworkAttachment
}.

Record UpdateConfig := { Parallelism : Z; Order : string }.   (* uint64 *)

Record SwarmServiceSpec := {
  ss_Name : string;
  ss_Labels : smap;
  ss_TaskTemplate : TaskSpec;
  ss_Mode : ServiceMode;
  ss_UpdateConfig : option UpdateConfig;
  ss_RollbackConfig : bool;
  ss_EndpointSpec : option EndpointSpec
}.

#[export] Instance PortConfig_eq_dec : EqDecision PortConfig.
Proof. solve_decision. Defined.
#[export] Instance EndpointSpec_eq_dec : EqDecision EndpointSpec.
Proof. solve_decision. Defined.
#[export] Instance ServiceMode_eq_dec : EqDecision ServiceMode.
Proof. solve_decision. Defined.
#[export] Instance FileTarget_eq_dec : EqDecision FileTarget.
Proof. solve_decision. Defined.
#[export] Instance FileReference_eq_dec : EqDecision FileReference.
Proof. solve_decision. Defined.
#[export] Instance ServiceMount_eq_dec : EqDecision ServiceMount.
Proof. solve_decision. Defined.
#[export] Instance DNSConfig_eq_dec : EqDecision DNSConfig.
Proof. solve_decision. Defined.
#[export] Instance ContainerSpec_eq_dec : EqDecision ContainerSpec.
Proof. solve_decision. Defined.
#[export] Instance Limit_eq_dec : EqDecision Limit.
Proof. solve_decision. Defined.
#[export] Instance Reservation_eq_dec : EqDecision Reservation.
Proof. solve_decision. Defined.
#[export] Instance ServiceResources_eq_dec : EqDecision ServiceResources.
Proof. solve_decision. Defined.
#[export] Instance Placement_eq_dec : EqDecision Placement.
Proof. solve_decision. Defined.
#[export] Instance NetworkAttachment_eq_dec : EqDecision NetworkAttachment.
Proof. solve_decision. Defined.
#[export] Instance TaskSpec_eq_dec : EqDecision TaskSpec.
Proof. solve_decision. Defined.
#[export] Instance UpdateConfig_eq_dec : EqDecision UpdateConfig.
Proof. solve_decision. Defined.
#[export] Instance SwarmServiceSpec_eq_dec : EqDecision SwarmServiceSpec.
Proof. solve_decision. Defined.

Definition invalid_argument {A} (message : string) : res A := Err (InvalidArgument (errors_New message)).
Definition unsupported {A} (message : string) : res A := Err (Unsupported (errors_New message)).

(** ** Defaults *)

Definition default_mode (m : ServiceMode) : ServiceMode :=
  let replicated :=
    match Replicated m with
    | Some r => Some r
    | None => if negb (Global m) && negb (ReplicatedJob m) && negb (GlobalJob m) then Some None else None
    end in
  {| Replicated := match replicated with Some None => Some (Some 1) | r => r end;
     Global := Global m; ReplicatedJob := ReplicatedJob m; GlobalJob := GlobalJob m |}.

Definition insertServiceDefaults (spec : SwarmServiceSpec) : SwarmServiceSpec :=
  let t := ss_TaskTemplate spec in {|
  ss_Name := ss_Name spec; ss_Labels := ss_Labels spec;
  ss_TaskTemplate := {|
    ts_Runtime := ts_Runtime t; ts_ContainerSpec := ts_ContainerSpec t;
    ts_RestartCondition := match ts_RestartCondition t with Some c => Some c | None => Some "any"%string end;
    ts_Resources := ts_Resources t; ts_Placement := ts_Placement t; ts_Networks := ts_Networks t |};
  ss_Mode := default_mode (ss_Mode spec);
  ss_UpdateConfig := ss_UpdateConfig spec; ss_RollbackConfig := ss_RollbackConfig spec;
  ss_EndpointSpec := match ss_EndpointSpec spec with
                     | Some e => Some e
                     | None => Some {| es_Mode := "vip"; es_Ports := [] |}
                     end |}.

(** The number of replicas, a 32-bit integer. *)
Definition serviceReplicas (mode : ServiceMode) : res Z :=
  if Global mode then unsupported "global services are not supported"
  else if ReplicatedJob mode || GlobalJob mode then unsupported "job-mode services are not supported"
  else match Replicated mode with
  | Some (Some replicas) =>
      if 2 ^ 31 - 1 <? replicas then invalid_argument "replica count %d is too large"
      else Ok (wrap_signed 32 replicas)
  | _ => Ok 1
  end.

Definition serviceAliases `{Validation} (spec : SwarmServiceSpec) : res (list string) :=
  let aliases := slices_Compact (slices_Sort (ts_Networks (ss_TaskTemplate spec) ≫= na_Aliases)) in
  if forallb (λ alias, no_problems (IsDNS1035Label alias)) aliases then Ok aliases
  else invalid_argument "network alias %q is not usable as a Kubernetes Service name: %s".

Definition warn (b : bool) (message : string) : list string := if b then [message] else [].
Definition non_empty {A} (l : list A) : bool := match l with [] => false | _ => true end.

(** [serviceWarnings], of a spec whose container spec is present. *)
Definition serviceWarnings (spec : SwarmServiceSpec) (c : ContainerSpec) : list string :=
  (warn (negb (bool_decide (cs_User c = ""%string)) || non_empty (cs_Groups c))
     "user and group settings are ignored: Kubernetes needs numeric UIDs in the Pod security context" ++
   warn (cs_Privileges c)
     "privilege settings are ignored: SELinux, seccomp, and AppArmor are Kubernetes Pod security policy concerns" ++
   warn (cs_Init c || negb (bool_decide (cs_Isolation c = ""%string)) || (0 <? cs_Ulimits c)%nat ||
         negb (cs_OomScoreAdj c =? 0))
     "init, isolation, ulimit, and OOM score settings have no Kubernetes equivalent and were ignored" ++
   warn (negb (bool_decide (cs_StopSignal c = ""%string)))
     "stop signal is ignored: Kubernetes always sends SIGTERM before SIGKILL" ++
   warn (match ts_RestartCondition (ss_TaskTemplate spec) with
         | Some condition => negb (bool_decide (condition = ""%string)) && negb (bool_decide (condition = "any"%string))
         | None => false
         end)
     "restart policy is ignored: Deployment Pods always restart" ++
   warn (ss_RollbackConfig spec)
     "rollback configuration is ignored: Kubernetes manages its own rollout history" ++
   warn (match ss_EndpointSpec spec with Some e => bool_decide (es_Mode e = "dnsrr"%string) | None => false end)
     "dnsrr endpoint mode is approximated by a Kubernetes ClusterIP Service")%list.

(** ** Resources *)

(** One amount of CPU and memory: [what] is a limit or a reservation. *)
Definition resource_list (nanoCPUs memory : Z) (what : string) : res ResourceList :=
  let? l := (if 0 <? nanoCPUs then
               if negb (Z.rem nanoCPUs 1000000 =? 0)
               then invalid_argument what
               else Ok {[ResourceCPU := NewMilliQuantity (Z.quot nanoCPUs 1000000)]}
             else Ok ∅) in
  Ok (if 0 <? memory then <[ResourceMemory := NewQuantity memory]> l else l).

Definition serviceResources (requirements : option ServiceResources) : res ResourceRequirements :=
  match requirements with
  | None => Ok {| Limits := ∅; Requests := ∅ |}
  | Some requirements =>
      let? limits :=
        match sr_Limits requirements with
        | None => Ok ∅
        | Some l =>
            if (lim_NanoCPUs l <? 0) || (lim_MemoryBytes l <? 0)
            then invalid_argument "resource limits must not be negative"
            else if 0 <? lim_Pids l then unsupported "PID limits are not supported by the Kubernetes backend"
            else resource_list (lim_NanoCPUs l) (lim_MemoryBytes l)
                   "CPU limit must be a whole number of millicores"
        end in
      let? requests :=
        match sr_Reservations requirements with
        | None => Ok ∅
        | Some r =>
            if (rv_NanoCPUs r <? 0) || (rv_MemoryBytes r <? 0)
            then invalid_argument "resource reservations must not be negative"
            else if (0 <? rv_Generic r)%nat then unsupported "generic resources are not supported"
            else resource_list (rv_NanoCPUs r) (rv_MemoryBytes r)
                   "CPU reservation must be a whole number of millicores"
        end in
      Ok {| Limits := limits; Requests := requests |}
  end.

(** One entry of the first loop: the list with the default, if it has no entry. *)
Definition default_entry `{Quantities} (name value : string) (l : ResourceList) : res ResourceList :=
  if decide (value = ""%string) then Ok l
  else if decide (is_Some (l !! name)) then Ok l
  else match ParseQuantity value with
  | None => Err (resource_error "quantity")
  | Some q => Ok (<[name := q]> l)
  end.

(** The second loop: a request above its limit becomes the limit. *)
Definition cap_requests (limits requests : ResourceList) : ResourceList :=
  map_imap (λ name requested,
    Some (match limits !! name with
          | Some limit => if limit <? requested then limit else requested
          | None => requested
          end)) requests.

Definition applyServiceResourceDefaults `{Quantities} (r : ResourceRequirements)
    (defaults : ResourceDefaults) : res ResourceRequirements :=
  let? limits := default_entry ResourceCPU (CPU (default_Limits defaults)) (Limits r) in
  let? limits := default_entry ResourceMemory (Mem (default_Limits defaults)) limits in
  let? requests := default_entry ResourceCPU (CPU (default_Requests defaults)) (Requests r) in
  let? requests := default_entry ResourceMemory (Mem (default_Requests defaults)) requests in
  Ok {| Limits := limits; Requests := cap_requests limits requests |}.

(** ** Ports *)

Record servicePort := { target : Z; published : Z; sp_protocol : string; hostMode : bool }.

#[export] Instance servicePort_eq_dec : EqDecision servicePort.
Proof. solve_decision. Defined.

(** [sort.Slice] by target: ports with the same target come in an unspecified order. *)
Class PortOrder := { sort_targets : list servicePort → list servicePort }.
Class PortOrderLaws `{PortOrder} := {
  sort_targets_perm l : sort_targets l ≡ₚ l;
  sort_targets_sorted l : StronglySorted (λ p q, target p ≤ target q) (sort_targets l)
}.

(** One iteration of [servicePorts]: the port and its warning. *)
Definition service_port `{Unicode} (port : PortConfig) : res (servicePort * list string) :=
  if (TargetPort port =? 0) || (65535 <? TargetPort port) then
    invalid_argument "target port must be between 1 and 65535"
  else if 65535 <? PublishedPort port then
    invalid_argument "published port must be between 0 and 65535"
  else
    let protocol := ToUpper (pc_Protocol port) in
    let protocol := if decide (protocol = ""%string) then ProtocolTCP else protocol in
    if decide (protocol ∈ [ProtocolTCP; ProtocolUDP; ProtocolSCTP]) then
      let entry := {|
        target := wrap_unsigned 16 (TargetPort port); published := wrap_unsigned 16 (PublishedPort port);
        sp_protocol := protocol; hostMode := bool_decide (PublishMode port = "host"%string) |} in
      if hostMode entry && (published entry =? 0) then
        Ok ({| target := target entry; published := target entry; sp_protocol := protocol; hostMode := true |},
            ["host-mode port %d has no published port"%string])
      else Ok (entry, [])
    else invalid_argument "unsupported port protocol %q".

Definition servicePorts `{Unicode} `{PortOrder} (spec : option EndpointSpec) :
    res (list servicePort * list string) :=
  match spec with
  | None => Ok ([], [])
  | Some spec =>
      let? ports := result_mapM service_port (es_Ports spec) in
      Ok (sort_targets ports.*1, concat ports.*2)
  end.

Definition hasIngressPorts (ports : list servicePort) : bool := existsb (λ p, negb (hostMode p)) ports.

(** [serviceContainerPorts]; the key ["%d/%s"] is the pair. *)
Fixpoint container_ports (seen : gset (Z * string)) (ports : list servicePort) : list ContainerPort :=
  match ports with
  | [] => []
  | port :: ports =>
      let key := (target port, sp_protocol port) in
      if decide (key ∈ seen) then container_ports seen ports
      else {| ContainerPort_port := wrap_signed 32 (target port);
              HostPort := if hostMode port then wrap_signed 32 (published port) else 0;
              Port_Protocol := sp_protocol port |} :: container_ports ({[key]} ∪ seen) ports
  end.
Definition serviceContainerPorts (ports : list servicePort) : list ContainerPort := container_ports ∅ ports.

(** ** The Services of a service *)

Definition endpoint_port (index : nat) (port : servicePort) : ServicePort := {|
  SP_Name := port_name index; SP_Port := wrap_signed 32 (target port);
  SP_TargetPort := wrap_signed 32 (target port); SP_Protocol := sp_protocol port; SP_NodePort := 0 |}.

Definition published_endpoint (index : nat) (port : servicePort) : option ServicePort :=
  if hostMode port then None
  else Some {|
    SP_Name := port_name index;
    SP_Port := wrap_signed 32 (if published port =? 0 then target port else published port);
    SP_TargetPort := wrap_signed 32 (target port); SP_Protocol := sp_protocol port; SP_NodePort := 0 |}.

Definition endpoint_labels (name : string) : smap := {["app" := name; swarmKindLabel := swarmServiceKind]}.

Definition endpoint_service (name namespace : string) (labels : smap) (spec : ServiceSpec) : Service :=
  {| svc_meta := meta_set_labels labels (new_meta name namespace); Svc_Spec := spec |}.

Definition cluster_spec (name : string) (ports : list ServicePort) : ServiceSpec := {|
  ServiceType := ServiceTypeClusterIP; Svc_Selector := endpoint_labels name; Svc_Ports := ports;
  ClusterIP := if decide (ports = []) then ClusterIPNone else "" |}.

Definition alias_labels (name : string) : smap :=
  <[managedByLabel := managedByDink]> (<[aliasOfLabel := name]> (endpoint_labels name)).

Definition serviceEndpointServices (namespace name : string) (ports : list servicePort)
    (aliases : list string) : list Service :=
  let labels := endpoint_labels name in
  let servicePorts := imap endpoint_port ports in
  let published := omap id (imap published_endpoint ports) in
  ([endpoint_service name namespace labels (cluster_spec name servicePorts)] ++
   (if decide (published = []) then []
    else [endpoint_service (publishedPortsServiceName name) namespace labels {|
            ServiceType := ServiceTypeLoadBalancer; Svc_Selector := labels; Svc_Ports := published;
            ClusterIP := "" |}]) ++
   ((λ alias, endpoint_service alias namespace (alias_labels name) (cluster_spec name servicePorts))
      <$> aliases))%list.

(** [retainNodePorts]: the last allocation of a port is the one kept. *)
Definition allocated_ports (ports : list ServicePort) : gmap Z Z :=
  fold_left (λ m p, if SP_NodePort p =? 0 then m else <[SP_Port p := SP_NodePort p]> m) ports ∅.

Definition retain_port (allocated : gmap Z Z) (p : ServicePort) : ServicePort :=
  match allocated !! SP_Port p with
  | Some nodePort => {| SP_Name := SP_Name p; SP_Port := SP_Port p; SP_TargetPort := SP_TargetPort p;
                        SP_Protocol := SP_Protocol p; SP_NodePort := nodePort |}
  | None => p
  end.

Definition retainNodePorts (desired existing : ServiceSpec) : ServiceSpec := {|
  ServiceType := ServiceType desired; Svc_Selector := Svc_Selector desired;
  Svc_Ports := retain_port (allocated_ports (Svc_Ports existing)) <$> Svc_Ports desired;
  ClusterIP := ClusterIP desired |}.

(** ** Strategy *)

Definition serviceStrategy (update : option UpdateConfig) : DeploymentStrategy :=
  let parallelism :=
    match update with
    | Some u => if (0 <? Parallelism u) && (Parallelism u <=? 2 ^ 31 - 1)
                then wrap_signed 32 (Parallelism u) else 1
    | None => 1
    end in
  match update with
  | Some u => if decide (Order u = "start-first"%string) then RollingUpdate parallelism 0
              else RollingUpdate 0 parallelism
  | None => RollingUpdate 0 parallelism
  end.

(** ** Placement *)

Definition LabelHostname : string := "kubernetes.io/hostname".
Definition controlPlaneLabel : string := "node-role.kubernetes.io/control-plane".

(** The two sides of a constraint and its operator. *)
Definition split_constraint (constraint : string) : option (string * string * NodeSelectorOperator) :=
  match Cut constraint "==" with
  | (key, value, true) => Some (key, value, OpIn)
  | _ => match Cut constraint "!=" with
         | (key, value, true) => Some (key, value, OpNotIn)
         | _ => None
         end
  end.

(** The [switch] of [parsePlacementConstraint]. *)
Definition constraint_target (key value : string) (operator : NodeSelectorOperator) :
    res (string * string * NodeSelectorOperator) :=
  if decide (key = "node.hostname"%string) then Ok (LabelHostname, value, operator)
  else if decide (key = "node.role"%string) then
    let manager := bool_decide (value = "manager"%string) in
    if negb manager && negb (bool_decide (value = "worker"%string))
    then invalid_argument "invalid node role %q in placement constraint"
    else
      let manager := if decide (operator = OpNotIn) then negb manager else manager in
      Ok (controlPlaneLabel, ""%string, if manager then OpExists else OpDoesNotExist)
  else if HasPrefix key "node.labels." then Ok (TrimPrefix key "node.labels.", value, operator)
  else if HasPrefix key "engine.labels." then Ok (TrimPrefix key "engine.labels.", value, operator)
  else unsupported "placement constraint %q has no Kubernetes equivalent".

(** The key, the value and the operator of a constraint. *)
Definition parsePlacementConstraint `{Unicode} (constraint : string) :
    res (string * string * NodeSelectorOperator) :=
  match split_constraint constraint with
  | None => invalid_argument "invalid placement constraint %q"
  | Some (key, value, operator) => constraint_target (TrimSpace key) (TrimSpace value) operator
  end.

(** The requirement of a parsed constraint. *)
Definition requirement_of (parsed : string * string * NodeSelectorOperator) : NodeSelectorRequirement :=
  let '(key, value, operator) := parsed in
  {| Req_Key := key; Req_Operator := operator;
     Req_Values := match operator with OpIn | OpNotIn => [value] | _ => [] end |}.

Definition placement_requirement `{Unicode} (constraint : string) : res NodeSelectorRequirement :=
  let? parsed := parsePlacementConstraint constraint in Ok (requirement_of parsed).

Definition placementRequirements `{Unicode} (placement : option Placement) :
    res (list NodeSelectorRequirement) :=
  match placement with
  | None => Ok []
  | Some placement =>
      if (0 <? Preferences placement)%nat then unsupported "placement preferences are not supported"
      else result_mapM placement_requirement (Constraints placement)
  end.

Definition appendNodeSelectorRequirements (spec : PodSpec) (requirements : list NodeSelectorRequirement) :
    PodSpec :=
  match requirements with
  | [] => spec
  | _ =>
      let selector :=
        match NodeAffinity spec with
        | None | Some [] => [requirements]
        | Some terms => (λ term, (term ++ requirements)%list) <$> terms
        end in
      spec_set_placement (Some selector) (Tolerations spec) spec
  end.

(** ** Settings of the Pod *)

Definition capabilities `{Unicode} (values : list string) : list string :=
  (λ value, TrimPrefix (ToUpper value) "CAP_") <$> values.

Definition security_context `{Unicode} (c : ContainerSpec) : option SecurityContext :=
  let caps := non_empty (cs_CapabilityAdd c) || non_empty (cs_CapabilityDrop c) in
  if cs_ReadOnly c || caps then
    Some {| ReadOnlyRootFilesystem := if cs_ReadOnly c then Some true else None;
            Capabilities := if caps then Some (capabilities (cs_CapabilityAdd c), capabilities (cs_CapabilityDrop c))
                            else None |}
  else None.

Definition hostnameFor `{Validation} (value : string) : string :=
  if no_problems (IsDNS1123Label value) then value else "".

Definition serviceHostAliases `{Unicode} (hosts : list string) : list (string * list string) :=
  omap (λ host, match Fields host with
                | ip :: name :: names => Some (ip, name :: names)
                | _ => None
                end) hosts.

Definition dns_option (option : string) : string * Datatypes.option string :=
  let '(name, value, found) := Cut option ":" in (name, if (found : bool) then Some value else None).

Definition serviceDNSConfig (dns : option DNSConfig) : option DNSSettings :=
  match dns with
  | None => None
  | Some dns =>
      if negb (non_empty (Nameservers dns)) && negb (non_empty (dns_Search dns)) &&
         negb (non_empty (dns_Options dns))
      then None
      else Some {| DNS_Nameservers := Nameservers dns; Searches := dns_Search dns;
                   DNS_Options := dns_option <$> dns_Options dns |}
  end.

Definition podSysctls (sysctls : smap) : list (string * string) :=
  (λ name, (name, mget sysctls name)) <$> sorted_keys sysctls.

(** Go's [float64], as the 53-bit binary floating point numbers of [SpecFloat]. *)
Definition float_of_Z (z : Z) : spec_float := binary_normalize 53 1024 z 0 false.
Definition int64_of_float (f : spec_float) : Z :=
  match f with
  | S754_finite negative m e => (if negative then Z.opp else id) (Z.shiftl (Zpos m) e)
  | _ => 0
  end.

(** [Duration.Seconds]: the whole seconds plus the nanoseconds as a fraction. *)
Definition Duration_Seconds (duration : Z) : spec_float :=
  SFadd 53 1024 (float_of_Z (Z.quot duration (10 ^ 9)))
    (SFdiv 53 1024 (float_of_Z (Z.rem duration (10 ^ 9))) (float_of_Z (10 ^ 9))).

(** [int64(StopGracePeriod.Seconds())] *)
Definition grace_seconds (duration : Z) : Z := int64_of_float (Duration_Seconds duration).

(** ** Properties: placement *)

Section placement.
Context `{Unicode}.

(** The documented meaning of a node selector on the labels of a node. *)
Definition requirement_holds (node : smap) (r : NodeSelectorRequirement) : Prop :=
  match Req_Operator r with
  | OpIn => ∃ v, node !! Req_Key r = Some v ∧ v ∈ Req_Values r
  | OpNotIn => ∀ v, node !! Req_Key r = Some v → v ∉ Req_Values r
  | OpExists => is_Some (node !! Req_Key r)
  | OpDoesNotExist => node !! Req_Key r = None
  end.

Definition selector_holds (node : smap) (selector : option NodeSelector) : Prop :=
  match selector with
  | None => True
  | Some terms => ∃ term, term ∈ terms ∧ ∀ r, r ∈ term → requirement_holds node r
  end.

(** What a constraint asks of a node: an attribute has a value, or has not. *)
Definition node_role (node : smap) : string :=
  if decide (is_Some (node !! controlPlaneLabel)) then "manager" else "worker".

Definition node_attribute (node : smap) (key : string) : option string :=
  if decide (key = "node.hostname"%string) then node !! LabelHostname
  else if decide (key = "node.role"%string) then Some (node_role node)
  else if HasPrefix key "node.labels." then node !! TrimPrefix key "node.labels."
  else node !! TrimPrefix key "engine.labels.".

Definition constraint_holds (node : smap) (constraint : string) : Prop :=
  match split_constraint constraint with
  | Some (key, value, operator) =>
      if decide (operator = OpNotIn) then node_attribute node (TrimSpace key) ≠ Some (TrimSpace value)
      else node_attribute node (TrimSpace key) = Some (TrimSpace value)
  | None => False
  end.

Lemma node_role_cases node : node_role node = "manager"%string ∨ node_role node = "worker"%string.
Proof. unfold node_role. destruct (decide _); auto. Qed.

Lemma requirement_in node key value :
  requirement_holds node {| Req_Key := key; Req_Operator := OpIn; Req_Values := [value] |} ↔
  node !! key = Some value.
Proof.
  unfold requirement_holds. simpl. split; [|intros ->; eexists; split; [done|by left]].
  by intros (v & Hv & ->%list_elem_of_singleton).
Qed.

Lemma requirement_not_in node key value :
  requirement_holds node {| Req_Key := key; Req_Operator := OpNotIn; Req_Values := [value] |} ↔
  node !! key ≠ Some value.
Proof.
  unfold requirement_holds. simpl. split.
  - intros Hv Hk. apply (Hv value Hk). by left.
  - intros Hk v Hv ->%list_elem_of_singleton. done.
Qed.

Lemma requirement_role node (manager : bool) :
  requirement_holds node {| Req_Key := controlPlaneLabel;
    Req_Operator := if manager then OpExists else OpDoesNotExist; Req_Values := [] |} ↔
  node_role node = if manager then "manager"%string else "worker"%string.
Proof.
  unfold requirement_holds, node_role. destruct manager; simpl; destruct (decide _) as [Hs|Hs]; try done.
  - split; [|done]. intros Hn. rewrite Hn in Hs. by destruct Hs.
  - split; [done|]. intros _. by apply eq_None_not_Some.
Qed.

(** The requirement of a parsed constraint holds exactly if the constraint does. *)
Lemma constraint_target_exact node key value operator parsed :
  operator = OpIn ∨ operator = OpNotIn → constraint_target key value operator = Ok parsed →
  requirement_holds node (requirement_of parsed) ↔
    if decide (operator = OpNotIn) then node_attribute node key ≠ Some value
    else node_attribute node key = Some value.
Proof.
  intros Hop. unfold constraint_target, node_attribute.
  assert (∀ k, requirement_holds node (requirement_of (k, value, operator)) ↔
    if decide (operator = OpNotIn) then node !! k ≠ Some value else node !! k = Some value) as Hlabel.
  { intros k. destruct Hop as [-> | ->]; [apply requirement_in|apply requirement_not_in]. }
  destruct (decide (key = "node.hostname"%string)); [by intros [= <-]|].
  destruct (decide (key = "node.role"%string)).
  - destruct (bool_decide_reflect (value = "manager"%string)) as [->|Hm];
      [|destruct (bool_decide_reflect (value = "worker"%string)) as [->|Hw]; [|done]];
      intros [= <-]; destruct Hop as [-> | ->];
      first [etrans; [apply (requirement_role node true)|] | etrans; [apply (requirement_role node false)|]];
      destruct (node_role_cases node) as [-> | ->]; naive_solver.
  - destruct (HasPrefix key "node.labels."); [by intros [= <-]|].
    destruct (HasPrefix key "engine.labels."); [by intros [= <-]|done].
Qed.

Lemma split_constraint_operator c key value operator :
  split_constraint c = Some (key, value, operator) → operator = OpIn ∨ operator = OpNotIn.
Proof.
  unfold split_constraint. destruct (Cut c "==") as [[k v] [|]]; [intros [= <- <- <-]; by left|].
  destruct (Cut c "!=") as [[k' v'] [|]]; [intros [= <- <- <-]; by right|done].
Qed.

Lemma placement_requirement_exact node constraint r :
  placement_requirement constraint = Ok r →
  requirement_holds node r ↔ constraint_holds node constraint.
Proof.
  unfold placement_requirement, parsePlacementConstraint, constraint_holds.
  destruct (split_constraint constraint) as [[[key value] operator]|] eqn:Es; [|done].
  intros (parsed & Hp & [= <-])%result_bind_ok. eapply constraint_target_exact; [|done].
  by eapply split_constraint_operator.
Qed.

Lemma append_selector node spec requirements :
  NodeAffinity spec ≠ Some [] →
  selector_holds node (NodeAffinity (appendNodeSelectorRequirements spec requirements)) ↔
  selector_holds node (NodeAffinity spec) ∧ ∀ r, r ∈ requirements → requirement_holds node r.
Proof.
  intros Hne. unfold appendNodeSelectorRequirements. destruct requirements as [|r0 rs].
  { split; [|by intros [? _]]. intros ?. split; [done|]. by intros r ?%elem_of_nil. }
  cbn [NodeAffinity spec_set_placement]. set (requirements := r0 :: rs).
  destruct (NodeAffinity spec) as [[|t terms]|]; [done| |]; unfold selector_holds; split.
  - intros (term & (t' & -> & Ht')%list_elem_of_fmap & Hall). split.
    + exists t'. split; [done|]. intros r Hr. apply Hall, elem_of_app. by left.
    + intros r Hr. apply Hall, elem_of_app. by right.
  - intros [(term & Ht & Hterm) Hreq]. exists (term ++ requirements)%list. split.
    + apply list_elem_of_fmap. by exists term.
    + intros r [Hr|Hr]%elem_of_app; auto.
  - intros (term & ->%list_elem_of_singleton & Hall). by split.
  - intros [_ Hreq]. exists requirements. split; [by left|done].
Qed.

Lemma requirements_exact placement requirements node :
  placementRequirements placement = Ok requirements →
  (∀ r, r ∈ requirements → requirement_holds node r) ↔
  (∀ p c, placement = Some p → c ∈ Constraints p → constraint_holds node c).
Proof.
  intros Hp. unfold placementRequirements in Hp. destruct placement as [p|].
  2: { injection Hp as <-. split; [done|]. by intros _ r ?%elem_of_nil. }
  destruct (0 <? Preferences p)%nat; [done|]. apply result_mapM_elem in Hp as [H1 H2]. split.
  - intros Hall ? c [= <-] Hc. destruct (H1 c Hc) as (r & Hr & Hcr).
    apply (placement_requirement_exact node c r Hcr), Hall, Hr.
  - intros Hall r Hr. destruct (H2 r Hr) as (c & Hc & Hcr).
    apply (placement_requirement_exact node c r Hcr), (Hall p c eq_refl Hc).
Qed.

(** placement constraints mean on the cluster what they mean in Swarm.  When
    the constraints of a service are accepted, a node is selected for its Pods
    exactly if it satisfies the tenant's placement and every constraint: its host
    name, role (a control-plane node is a manager), or label has the value the
    constraint asks for, or, with [!=], has not. *)
Theorem placement_means_constraints placement requirements spec node :
  placementRequirements placement = Ok requirements → NodeAffinity spec ≠ Some [] →
  selector_holds node (NodeAffinity (appendNodeSelectorRequirements spec requirements)) ↔
  selector_holds node (NodeAffinity spec) ∧
  ∀ p c, placement = Some p → c ∈ Constraints p → constraint_holds node c.
Proof.
  intros Hp Hne. rewrite append_selector by done. apply and_iff_compat_l, requirements_exact, Hp.
Qed.
End placement.

(** ** Properties: ports *)

Section ports.
Context `{Unicode} `{PortOrderLaws}.

Definition effective_protocol (c : PortConfig) : string :=
  if decide (ToUpper (pc_Protocol c) = ""%string) then ProtocolTCP else ToUpper (pc_Protocol c).

(** A publication that the backend can represent. *)
Definition acceptable_port (c : PortConfig) : Prop :=
  1 ≤ TargetPort c ≤ 65535 ∧ PublishedPort c ≤ 65535 ∧
  effective_protocol c ∈ [ProtocolTCP; ProtocolUDP; ProtocolSCTP].

(** What it becomes: a host port that is not given is the target. *)
Definition port_of (c : PortConfig) : servicePort :=
  let host := bool_decide (PublishMode c = "host"%string) in {|
  target := TargetPort c;
  published := if host && (PublishedPort c =? 0) then TargetPort c else PublishedPort c;
  sp_protocol := effective_protocol c; hostMode := host |}.

Lemma service_port_spec c :
  0 ≤ TargetPort c → 0 ≤ PublishedPort c →
  match service_port c with
  | Ok (p, _) => acceptable_port c ∧ p = port_of c
  | Err _ => ¬ acceptable_port c
  end.
Proof.
  intros Ht Hp. unfold service_port, acceptable_port, port_of, effective_protocol.
  destruct (Z.eqb_spec (TargetPort c) 0); simpl; [lia|].
  destruct (Z.ltb_spec 65535 (TargetPort c)); simpl; [lia|].
  destruct (Z.ltb_spec 65535 (PublishedPort c)); simpl; [lia|].
  rewrite !wrap_unsigned_id by lia.
  set (protocol := if decide (ToUpper (pc_Protocol c) = ""%string) then ProtocolTCP else _).
  destruct (decide (protocol ∈ _)); [|naive_solver].
  destruct (bool_decide (PublishMode c = "host"%string)); simpl;
    [destruct (PublishedPort c =? 0)|]; (split; [|done]); (split; [lia|]); done.
Qed.

Definition unsigned_ports (e : EndpointSpec) : Prop :=
  ∀ c, c ∈ es_Ports e → 0 ≤ TargetPort c ∧ 0 ≤ PublishedPort c.

Lemma service_ports_spec l :
  (∀ c, c ∈ l → 0 ≤ TargetPort c ∧ 0 ≤ PublishedPort c) →
  match result_mapM service_port l with
  | Ok ports => (∀ c, c ∈ l → acceptable_port c) ∧ ports.*1 = port_of <$> l
  | Err _ => ∃ c, c ∈ l ∧ ¬ acceptable_port c
  end.
Proof.
  induction l as [|c l IH]; intros Hl; simpl; [split; [set_solver|done]|].
  destruct (Hl c) as [Ht Hp]; [by left|].
  pose proof (service_port_spec c Ht Hp) as Hc. destruct (service_port c) as [[p w]|e]; simpl.
  2: { exists c. split; [by left|done]. }
  destruct Hc as [Hc ->]. destruct (result_mapM service_port l) as [ports|e]; simpl.
  - destruct IH as [Hall Hm]; [set_solver|]. split; [set_solver|]. simpl. by f_equal.
  - destruct IH as (c' & ? & ?); [set_solver|]. exists c'. split; [by right|done].
Qed.

(** The ports of the container: each pair of port and protocol once, from a port. *)
Lemma container_ports_spec seen ports :
  (∀ p, p ∈ ports → 1 ≤ target p ≤ 65535 ∧ 0 ≤ published p ≤ 65535) →
  NoDup (pod_key <$> container_ports seen ports) ∧
  (∀ k, k ∈ pod_key <$> container_ports seen ports ↔ (k ∉ seen) ∧ k ∈ ((λ p, (target p, sp_protocol p)) <$> ports)) ∧
  (∀ cp, cp ∈ container_ports seen ports → ∃ p, p ∈ ports ∧
     ContainerPort_port cp = target p ∧ Port_Protocol cp = sp_protocol p ∧
     HostPort cp = if hostMode p then published p else 0).
Proof.
  revert seen. induction ports as [|p ports IH]; intros seen Hp; simpl.
  { split_and!; [constructor|set_solver|set_solver]. }
  destruct (Hp p) as [Ht Hpub]; [by left|].
  destruct (decide (_ ∈ seen)) as [Hin|Hin].
  - destruct (IH seen) as (Hn & Hk & Hc); [set_solver|]. split_and!; [done|set_solver|].
    intros cp Hcp. destruct (Hc cp Hcp) as (p' & ? & ?). exists p'. split; [by right|done].
  - destruct (IH ({[(target p, sp_protocol p)]} ∪ seen)) as (Hn & Hk & Hc); [set_solver|].
    rewrite fmap_cons. unfold pod_key at 1 3. cbn [ContainerPort_port Port_Protocol].
    rewrite wrap_signed_id by lia. split_and!.
    + constructor; [|done]. rewrite Hk. set_solver.
    + intros k. rewrite !elem_of_cons, Hk. destruct (decide (k = (target p, sp_protocol p))); set_solver.
    + intros cp [->|Hcp]%elem_of_cons.
      * exists p. cbn. rewrite !wrap_signed_id by lia. split_and!; [by left|done..].
      * destruct (Hc cp Hcp) as (p' & ? & ?). exists p'. split; [by right|done].
Qed.

Lemma port_of_bounds c :
  0 ≤ PublishedPort c → acceptable_port c →
  1 ≤ target (port_of c) ≤ 65535 ∧ 0 ≤ published (port_of c) ≤ 65535 ∧
  (hostMode (port_of c) = true → 1 ≤ published (port_of c)).
Proof.
  intros Hp (Ht & Hpub & _). unfold port_of. cbn.
  destruct (bool_decide _); simpl; [destruct (Z.eqb_spec (PublishedPort c) 0)|]; split_and!; try lia; done.
Qed.

(** The ports of a service are translated exactly or refused.  The ports of an
    accepted spec are those requested, ordered by target, with their numbers
    unchanged; the container exposes each pair of port and protocol exactly once,
    and binds a port of the node only for a publication in host mode, with the
    requested number or, without one, the target's; and a spec is refused only if
    one of its ports is out of range or has another protocol. *)
Theorem service_ports_exact e :
  unsigned_ports e →
  match servicePorts (Some e) with
  | Ok (ports, _) =>
      (∀ c, c ∈ es_Ports e → acceptable_port c) ∧
      ports ≡ₚ port_of <$> es_Ports e ∧
      StronglySorted (λ p q, target p ≤ target q) ports ∧
      NoDup (pod_key <$> serviceContainerPorts ports) ∧
      (∀ k, k ∈ pod_key <$> serviceContainerPorts ports ↔
         ∃ c, c ∈ es_Ports e ∧ k = (TargetPort c, effective_protocol c)) ∧
      (∀ cp, cp ∈ serviceContainerPorts ports → 1 ≤ ContainerPort_port cp ≤ 65535 ∧
         ∃ c, c ∈ es_Ports e ∧ ContainerPort_port cp = TargetPort c ∧
           Port_Protocol cp = effective_protocol c ∧
           HostPort cp = if hostMode (port_of c) then published (port_of c) else 0)
  | Err _ => ∃ c, c ∈ es_Ports e ∧ ¬ acceptable_port c
  end.
Proof.
  intros Hu. unfold servicePorts. pose proof (service_ports_spec (es_Ports e) Hu) as Hs.
  destruct (result_mapM service_port (es_Ports e)) as [l|err]; simpl; [|done].
  destruct Hs as [Hall Hm].
  assert (sort_targets l.*1 ≡ₚ port_of <$> es_Ports e) as Hperm by (by rewrite sort_targets_perm, Hm).
  assert (∀ p, p ∈ sort_targets l.*1 ↔ ∃ c, c ∈ es_Ports e ∧ p = port_of c) as Hel.
  { intros p. rewrite Hperm, list_elem_of_fmap. naive_solver. }
  destruct (container_ports_spec ∅ (sort_targets l.*1)) as (Hn & Hk & Hc).
  { intros p (c & Hin & ->)%Hel. destruct (Hu c Hin) as [_ Hp].
    by destruct (port_of_bounds c Hp (Hall c Hin)) as (? & ? & _). }
  split_and!; [done|done|apply sort_targets_sorted|done| |].
  - intros k. unfold serviceContainerPorts. rewrite Hk, list_elem_of_fmap. split.
    + intros (_ & p & -> & (c & Hin & ->)%Hel). by exists c.
    + intros (c & Hin & ->). split; [set_solver|]. exists (port_of c). split; [done|]. apply Hel. by exists c.
  - intros cp Hcp. destruct (Hc cp Hcp) as (p & (c & Hin & ->)%Hel & Hport & Hprot & Hhost).
    split; [rewrite Hport; by destruct (Hall c Hin)|]. by exists c.
Qed.
End ports.

(** ** Properties: the Services of a service *)

(** The Services have these names: the service's, that of its published ports, if one
    is published through the cluster, and its aliases. *)
Lemma published_endpoints_empty k ports :
  omap id (imap (λ i, published_endpoint (k + i)) ports) = [] ↔ hasIngressPorts ports = false.
Proof.
  revert k. induction ports as [|p ports IH]; intros k; [done|]. rewrite imap_cons. simpl.
  unfold published_endpoint at 1. destruct (hostMode p); simpl; [|done].
  rewrite <- (IH (S k)). f_equiv. f_equal. apply imap_ext. intros i x _. simpl. f_equal. lia.
Qed.

Lemma imap_endpoint_elem {A B} (f : nat → A → B) l y :
  y ∈ imap f l ↔ ∃ i x, l !! i = Some x ∧ y = f i x.
Proof.
  rewrite list_elem_of_lookup. setoid_rewrite list_lookup_imap. split.
  - intros (i & Hi). destruct (l !! i) as [x|] eqn:E; [|done]. injection Hi as <-. eauto.
  - intros (i & x & Hx & ->). exists i. by rewrite Hx.
Qed.

Definition in_range (p : servicePort) : Prop := 1 ≤ target p ≤ 65535 ∧ 0 ≤ published p ≤ 65535.

Lemma endpoint_port_exact i p :
  in_range p →
  SP_Port (endpoint_port i p) = target p ∧ SP_TargetPort (endpoint_port i p) = target p ∧
  SP_Protocol (endpoint_port i p) = sp_protocol p ∧ SP_NodePort (endpoint_port i p) = 0 ∧
  SP_Name (endpoint_port i p) = port_name i.
Proof. intros [Ht _]. cbn. by rewrite !wrap_signed_id by lia. Qed.

Lemma published_endpoint_exact i p sp :
  in_range p → published_endpoint i p = Some sp →
  hostMode p = false ∧ SP_TargetPort sp = target p ∧
  SP_Port sp = (if published p =? 0 then target p else published p) ∧
  SP_Protocol sp = sp_protocol p ∧ SP_NodePort sp = 0 ∧ SP_Name sp = port_name i.
Proof.
  intros [Ht Hp]. unfold published_endpoint. destruct (hostMode p); [done|]. intros [= <-]. cbn.
  destruct (Z.eqb_spec (published p) 0); by rewrite !wrap_signed_id by lia.
Qed.

(** What the Service called [name] of a service must be. *)
Definition is_cluster_service (ns name : string) (ports : list servicePort) (s : Service) : Prop :=
  ServiceType (Svc_Spec s) = ServiceTypeClusterIP ∧ Namespace (svc_meta s) = ns ∧
  Svc_Selector (Svc_Spec s) = endpoint_labels name ∧
  Svc_Ports (Svc_Spec s) = imap endpoint_port ports ∧
  (ClusterIP (Svc_Spec s) = ClusterIPNone ↔ ports = []).

(** the Services of a service are exactly what its spec publishes.  There is a
    cluster-internal Service under the service's name and one per alias, with every
    port on its own number, headless if there is none; and, if a port is published
    through the cluster, a load balancer that maps exactly the published ports, each
    from its requested number or, without one, the target's.  All of them select
    the Pods of the service, and none asks for a port of the nodes. *)
Theorem service_endpoints_exact ns name ports aliases :
  (∀ p, p ∈ ports → in_range p) →
  let services := serviceEndpointServices ns name ports aliases in
  (Name ∘ svc_meta) <$> services =
    (name :: (if hasIngressPorts ports then [publishedPortsServiceName name] else []) ++ aliases)%list ∧
  (∀ s, s ∈ services → Namespace (svc_meta s) = ns ∧ Svc_Selector (Svc_Spec s) = endpoint_labels name ∧
     mget (Labels (svc_meta s)) swarmKindLabel = swarmServiceKind ∧ OwnerReferences (svc_meta s) = [] ∧
     ∀ sp, sp ∈ Svc_Ports (Svc_Spec s) → SP_NodePort sp = 0) ∧
  (∀ s, s ∈ services → ServiceType (Svc_Spec s) ≠ ServiceTypeLoadBalancer → is_cluster_service ns name ports s) ∧
  (∀ s, s ∈ services → ServiceType (Svc_Spec s) = ServiceTypeLoadBalancer → ∀ k,
     k ∈ (λ sp, (SP_Port sp, SP_TargetPort sp, SP_Protocol sp)) <$> Svc_Ports (Svc_Spec s) ↔
     ∃ p, p ∈ ports ∧ hostMode p = false ∧
       k = (if published p =? 0 then target p else published p, target p, sp_protocol p)).
Proof.
  intros Hr services.
  assert (∀ n, ClusterIP (cluster_spec n (imap endpoint_port ports)) = ClusterIPNone ↔ ports = []) as Hip.
  { intros n. by destruct ports. }
  assert (∀ sp, sp ∈ imap endpoint_port ports → SP_NodePort sp = 0) as Hnode.
  { intros sp (i & p & _ & ->)%imap_endpoint_elem. done. }
  assert (∀ sp, sp ∈ omap id (imap published_endpoint ports) → ∃ i p, ports !! i = Some p ∧
            published_endpoint i p = Some sp) as Hpub.
  { intros sp (? & (i & p & Hp & ->)%imap_endpoint_elem & Hsp)%list_elem_of_omap. eauto. }
  subst services. unfold serviceEndpointServices.
  pose proof (published_endpoints_empty 0 ports) as Hempty. cbn [Nat.add] in Hempty.
  split_and!.
  - rewrite !fmap_app. cbn. f_equal. rewrite <- list_fmap_compose. f_equal; [|by rewrite list_fmap_id].
    destruct (decide _) as [He|He].
    + apply Hempty in He as ->. done.
    + destruct (hasIngressPorts ports); [done|]. by destruct He; apply Hempty.
  - intros s. rewrite !elem_of_app, list_elem_of_singleton, list_elem_of_fmap.
    intros [->|[Hs|(alias & -> & _)]]; [by split_and!| |].
    + destruct (decide _); [set_solver|]. apply list_elem_of_singleton in Hs as ->. split_and!; try done.
      cbn. intros sp (i & p & Hp & Hsp)%Hpub. apply list_elem_of_lookup_2, Hr in Hp.
      by destruct (published_endpoint_exact i p sp Hp Hsp) as (_ & _ & _ & _ & ? & _).
    + by split_and!.
  - intros s. rewrite !elem_of_app, list_elem_of_singleton, list_elem_of_fmap.
    intros [->|[Hs|(alias & -> & _)]] Ht; [split_and!; try done; apply (Hip name)| |split_and!; try done; apply (Hip name)].
    destruct (decide _); [set_solver|]. by apply list_elem_of_singleton in Hs as ->.
  - intros s. rewrite !elem_of_app, list_elem_of_singleton, list_elem_of_fmap.
    intros [->|[Hs|(alias & -> & _)]] Ht; [done| |done]. intros k.
    destruct (decide _); [set_solver|]. apply list_elem_of_singleton in Hs as ->. cbn.
    rewrite list_elem_of_fmap. split.
    + intros (sp & -> & (i & p & Hp & Hsp)%Hpub). apply list_elem_of_lookup_2 in Hp as Hin.
      destruct (published_endpoint_exact i p sp (Hr p Hin) Hsp) as (? & -> & -> & -> & _). by exists p.
    + intros (p & (i & Hi)%list_elem_of_lookup & Hh & ->).
      destruct (published_endpoint i p) as [sp|] eqn:Hsp; [|unfold published_endpoint in Hsp; by rewrite Hh in Hsp].
      exists sp. apply list_elem_of_lookup_2 in Hi as Hin.
      destruct (published_endpoint_exact i p sp (Hr p Hin) Hsp) as (_ & -> & -> & -> & _). split; [done|].
      apply list_elem_of_omap. exists (published_endpoint i p). split; [|by rewrite Hsp].
      apply imap_endpoint_elem. eauto.
Qed.

(** ** Properties: amounts *)

(** A positive amount of nano-CPUs as a quantity: they are the units of quantities. *)
Definition positive_cpu (nanoCPUs : Z) : option quantity := if 0 <? nanoCPUs then Some nanoCPUs else None.

Lemma resource_list_exact nanoCPUs memory what l :
  resource_list nanoCPUs memory what = Ok l →
  l !! ResourceCPU = positive_cpu nanoCPUs ∧ l !! ResourceMemory = positive_quantity memory ∧
  ∀ name, name ≠ ResourceCPU → name ≠ ResourceMemory → l !! name = None.
Proof.
  unfold resource_list, positive_cpu, positive_quantity. intros (l0 & Hl0 & [= <-])%result_bind_ok.
  assert (l0 !! ResourceCPU = (if 0 <? nanoCPUs then Some nanoCPUs else None) ∧
          ∀ name, name ≠ ResourceCPU → l0 !! name = None) as [Hcpu Hother].
  { destruct (Z.ltb_spec 0 nanoCPUs); [|by injection Hl0 as <-].
    destruct (Z.eqb_spec (Z.rem nanoCPUs 1000000) 0) as [Hrem|]; [|done]. injection Hl0 as <-. split.
    - rewrite lookup_singleton_eq. unfold NewMilliQuantity. f_equal.
      pose proof (Z.quot_rem' nanoCPUs 1000000). lia.
    - intros name Hn. by rewrite lookup_singleton_ne. }
  destruct (0 <? memory); (split_and!; [|try apply lookup_insert_eq; by apply Hother|]);
    try (by rewrite lookup_insert_ne); try done.
  - intros name Hc Hm. rewrite lookup_insert_ne by done. by apply Hother.
  - intros name Hc Hm. by apply Hother.
Qed.

Lemma default_entry_spec `{Quantities} name value l l' :
  default_entry name value l = Ok l' →
  l' !! name = default_value (l !! name) value ∧ ∀ n, n ≠ name → l' !! n = l !! n.
Proof.
  unfold default_entry, default_value. destruct (decide (value = ""%string)) as [->|Hv].
  { intros [= <-]. split; [|done]. by destruct (l !! name). }
  destruct (decide (is_Some (l !! name))) as [[q Hq]|Hn].
  { intros [= <-]. by rewrite Hq. }
  apply eq_None_not_Some in Hn. rewrite Hn.
  destruct (ParseQuantity value) as [q|]; [|done]. intros [= <-]. rewrite lookup_insert_eq.
  split; [done|]. intros n Hne. by rewrite lookup_insert_ne.
Qed.

Lemma default_pair_spec `{Quantities} cpu mem l l' :
  result_bind (default_entry ResourceCPU cpu l) (default_entry ResourceMemory mem) = Ok l' →
  l' !! ResourceCPU = default_value (l !! ResourceCPU) cpu ∧
  l' !! ResourceMemory = default_value (l !! ResourceMemory) mem ∧
  ∀ n, n ≠ ResourceCPU → n ≠ ResourceMemory → l' !! n = l !! n.
Proof.
  intros (l1 & [Hc Ho]%default_entry_spec & [Hm Ho']%default_entry_spec)%result_bind_ok. split_and!.
  - by rewrite Ho'.
  - by rewrite Hm, Ho.
  - intros n Hn Hn'. by rewrite Ho', Ho.
Qed.

Lemma cap_requests_lookup limits requests name :
  cap_requests limits requests !! name =
    (λ q, match limits !! name with Some limit => q `min` limit | None => q end) <$> requests !! name.
Proof.
  unfold cap_requests. rewrite map_lookup_imap. destruct (requests !! name) as [q|]; [|done]. simpl.
  destruct (limits !! name) as [limit|]; [|done]. f_equal. destruct (Z.ltb_spec limit q); lia.
Qed.

(** The replicas a mode asks for. *)
Definition asked_replicas (mode : ServiceMode) : Z :=
  match Replicated mode with Some (Some r) => r | _ => 1 end.

Lemma serviceReplicas_exact mode n :
  0 ≤ asked_replicas mode → serviceReplicas mode = Ok n → n = asked_replicas mode ∧ 0 ≤ n ≤ int32_max.
Proof.
  unfold serviceReplicas, asked_replicas. intros Hr. destruct (Global mode); [done|].
  destruct (_ || _); [done|]. destruct (Replicated mode) as [[r|]|]; [|by intros [= <-]..].
  destruct (Z.ltb_spec (2 ^ 31 - 1) r); [done|]. intros [= <-].
  rewrite wrap_signed_id by lia. unfold int32_max. lia.
Qed.

Definition start_first (update : option UpdateConfig) : bool :=
  match update with Some u => bool_decide (Order u = "start-first"%string) | None => false end.

Lemma serviceStrategy_valid update :
  ∃ n, 1 ≤ n ≤ int32_max ∧
    serviceStrategy update = (if start_first update then RollingUpdate n 0 else RollingUpdate 0 n) ∧
    ∀ u, update = Some u → 1 ≤ Parallelism u ≤ int32_max → n = Parallelism u.
Proof.
  unfold serviceStrategy, start_first, int32_max. destruct update as [u|]; [|by exists 1].
  destruct ((0 <? Parallelism u) && (Parallelism u <=? 2 ^ 31 - 1)) eqn:E.
  - apply andb_true_iff in E as [H0%Z.ltb_lt H1%Z.leb_le]. exists (Parallelism u).
    rewrite wrap_signed_id by lia. split_and!; [lia..| |by intros ? [= <-]].
    destruct (bool_decide_reflect (Order u = "start-first"%string)); by case_decide.
  - exists 1. split_and!; [lia..| |].
    + destruct (bool_decide_reflect (Order u = "start-first"%string)); by case_decide.
    + intros ? [= <-] Hb. apply andb_false_iff in E as [?%Z.ltb_ge|?%Z.leb_gt]; lia.
Qed.

Definition asked_limits (r : option ServiceResources) : option Limit :=
  match r with Some r => sr_Limits r | None => None end.
Definition asked_reservations (r : option ServiceResources) : option Reservation :=
  match r with Some r => sr_Reservations r | None => None end.

Lemma serviceResources_exact asked r :
  serviceResources asked = Ok r →
  (Limits r !! ResourceCPU = (l ← asked_limits asked; positive_cpu (lim_NanoCPUs l)) ∧
   Limits r !! ResourceMemory = (l ← asked_limits asked; positive_quantity (lim_MemoryBytes l))) ∧
  (Requests r !! ResourceCPU = (l ← asked_reservations asked; positive_cpu (rv_NanoCPUs l)) ∧
   Requests r !! ResourceMemory = (l ← asked_reservations asked; positive_quantity (rv_MemoryBytes l))).
Proof.
  unfold serviceResources. destruct asked as [asked|]; [|by intros [= <-]].
  intros (limits & Hl & (requests & Hr & [= <-])%result_bind_ok)%result_bind_ok. cbn. split.
  - destruct (sr_Limits asked) as [l|]; [|by injection Hl as <-].
    destruct (_ || _); [done|]. destruct (0 <? lim_Pids l); [done|].
    by apply resource_list_exact in Hl as (? & ? & _).
  - destruct (sr_Reservations asked) as [l|]; [|by injection Hr as <-].
    destruct (_ || _); [done|]. destruct (0 <? rv_Generic l)%nat; [done|].
    by apply resource_list_exact in Hr as (? & ? & _).
Qed.

Section defaults.
Context `{Quantities}.

(** The value of a request: what was asked, else the default, at most the limit. *)
Definition effective_request (limit present : option quantity) (value : string) : option quantity :=
  (λ q, match limit with Some l => q `min` l | None => q end) <$> default_value present value.

Lemma applyServiceResourceDefaults_exact r d r' :
  applyServiceResourceDefaults r d = Ok r' →
  Limits r' !! ResourceCPU = default_value (Limits r !! ResourceCPU) (CPU (default_Limits d)) ∧
  Limits r' !! ResourceMemory = default_value (Limits r !! ResourceMemory) (Mem (default_Limits d)) ∧
  Requests r' !! ResourceCPU = effective_request (Limits r' !! ResourceCPU)
    (Requests r !! ResourceCPU) (CPU (default_Requests d)) ∧
  Requests r' !! ResourceMemory = effective_request (Limits r' !! ResourceMemory)
    (Requests r !! ResourceMemory) (Mem (default_Requests d)) ∧
  ∀ name q limit, Requests r' !! name = Some q → Limits r' !! name = Some limit → q ≤ limit.
Proof.
  unfold applyServiceResourceDefaults.
  intros (l1 & H1 & (l2 & H2 & (q1 & H3 & (q2 & H4 & [= <-])%result_bind_ok)%result_bind_ok)%result_bind_ok)%result_bind_ok.
  assert (result_bind (default_entry ResourceCPU (CPU (default_Limits d)) (Limits r))
            (default_entry ResourceMemory (Mem (default_Limits d))) = Ok l2) as Hl by (by rewrite H1).
  assert (result_bind (default_entry ResourceCPU (CPU (default_Requests d)) (Requests r))
            (default_entry ResourceMemory (Mem (default_Requests d))) = Ok q2) as Hq by (by rewrite H3).
  apply default_pair_spec in Hl as (? & ? & _). apply default_pair_spec in Hq as (Hq1 & Hq2 & _). cbn.
  rewrite !cap_requests_lookup. unfold effective_request. rewrite Hq1, Hq2. split_and!; try done.
  intros name q limit. rewrite cap_requests_lookup. destruct (q2 !! name) as [q0|]; [|done]. simpl.
  intros [= <-] Hlim. rewrite Hlim. lia.
Qed.

(** The amounts of a service are exact and within bounds.  The replicas are the
    number asked for, one by default, and fit 32 bits; an update replaces between one
    and 2^31-1 tasks at a time, the number asked for when it fits, either all started
    first or all stopped first; limits and reservations are the quantities asked for,
    without rounding; and with the tenant's defaults, which never replace what was
    asked for as a limit, no reservation exceeds its limit. *)
Theorem service_amounts_exact :
  (∀ mode n, 0 ≤ asked_replicas mode → serviceReplicas mode = Ok n →
     n = asked_replicas mode ∧ 0 ≤ n ≤ int32_max) ∧
  (∀ update, ∃ n, 1 ≤ n ≤ int32_max ∧
     serviceStrategy update = (if start_first update then RollingUpdate n 0 else RollingUpdate 0 n) ∧
     ∀ u, update = Some u → 1 ≤ Parallelism u ≤ int32_max → n = Parallelism u) ∧
  (∀ asked d r r', serviceResources asked = Ok r → applyServiceResourceDefaults r d = Ok r' →
     let limit name value (f : Limit → option quantity) :=
       Limits r' !! name = default_value (l ← asked_limits asked; f l) value in
     let request name value (f : Reservation → option quantity) :=
       Requests r' !! name = effective_request (Limits r' !! name) (l ← asked_reservations asked; f l) value in
     limit ResourceCPU (CPU (default_Limits d)) (positive_cpu ∘ lim_NanoCPUs) ∧
     limit ResourceMemory (Mem (default_Limits d)) (positive_quantity ∘ lim_MemoryBytes) ∧
     request ResourceCPU (CPU (default_Requests d)) (positive_cpu ∘ rv_NanoCPUs) ∧
     request ResourceMemory (Mem (default_Requests d)) (positive_quantity ∘ rv_MemoryBytes) ∧
     ∀ name q l, Requests r' !! name = Some q → Limits r' !! name = Some l → q ≤ l).
Proof.
  split_and!; [apply serviceReplicas_exact|apply serviceStrategy_valid|].
  intros asked d r r' [[Hl1 Hl2] [Hr1 Hr2]]%serviceResources_exact
    (Hc & Hm & Hqc & Hqm & Hcap)%applyServiceResourceDefaults_exact limit request.
  subst limit request. cbn. rewrite Hl1 in Hc. rewrite Hl2 in Hm. rewrite Hr1 in Hqc. rewrite Hr2 in Hqm.
  by split_and!.
Qed.
End defaults.

(** ** Witnesses *)

(** Insertion by target, to evaluate with. *)
Fixpoint insert_port (p : servicePort) (l : list servicePort) : list servicePort :=
  match l with
  | [] => [p]
  | q :: l => if target p <=? target q then p :: q :: l else q :: insert_port p l
  end.
Definition demo_port_order : PortOrder := {| sort_targets := foldr insert_port [] |}.

Lemma insert_port_perm p l : insert_port p l ≡ₚ p :: l.
Proof.
  induction l as [|q l IH]; simpl; [done|]. destruct (target p <=? target q); [done|].
  rewrite IH. apply perm_swap.
Qed.

Lemma insert_port_sorted p l :
  StronglySorted (λ p q, target p ≤ target q) l →
  StronglySorted (λ p q, target p ≤ target q) (insert_port p l).
Proof.
  induction 1 as [|q l Hl IH Hq]; simpl; [repeat constructor|]. rewrite Forall_forall in Hq.
  destruct (Z.leb_spec (target p) (target q)).
  - constructor; [constructor; [done|by apply Forall_forall]|].
    apply Forall_forall. intros r [->|Hr]%elem_of_cons; [done|]. specialize (Hq r Hr). lia.
  - constructor; [done|]. apply Forall_forall. intros r. rewrite insert_port_perm.
    intros [->|Hr]%elem_of_cons; [lia|by apply Hq].
Qed.

Lemma demo_port_order_laws : @PortOrderLaws demo_port_order.
Proof.
  split; intros l; simpl; induction l as [|p l IH]; simpl; [done| |constructor|by apply insert_port_sorted].
  by rewrite insert_port_perm, IH.
Qed.

Definition host_port (target published : Z) : PortConfig := {|
  pc_Protocol := "tcp"; TargetPort := target; PublishedPort := published; PublishMode := "host" |}.
Definition ingress_port (target published : Z) : PortConfig := {|
  pc_Protocol := ""; TargetPort := target; PublishedPort := published; PublishMode := "ingress" |}.

Lemma service_ports_exact_witness :
  let e := {| es_Mode := "vip"; es_Ports := [host_port 80 8080; ingress_port 443 0] |} in
  ∃ ports warnings, @servicePorts ascii_unicode demo_port_order (Some e) = Ok (ports, warnings) ∧
    NoDup (pod_key <$> serviceContainerPorts ports).
Proof.
  intros e. assert (unsigned_ports e) as Hu.
  { intros c [->|[->|[]%elem_of_nil]%elem_of_cons]%elem_of_cons; cbn; lia. }
  pose proof (@service_ports_exact ascii_unicode demo_port_order demo_port_order_laws e Hu) as Hp.
  destruct (@servicePorts ascii_unicode demo_port_order (Some e)) as [[ports warnings]|err] eqn:E;
    [|discriminate E].
  exists ports, warnings. split; [done|]. by destruct Hp as (_ & _ & _ & ? & _).
Defined.

(** Publishing a port of the container on two ports of the node binds one of them. *)
Example host_publication_dropped :
  result_map (serviceContainerPorts ∘ fst) (@servicePorts ascii_unicode demo_port_order
    (Some {| es_Mode := "vip"; es_Ports := [host_port 80 8080; host_port 80 8081] |})) =
  Ok [{| ContainerPort_port := 80; HostPort := 8080; Port_Protocol := "TCP" |}].
Proof. vm_compute. reflexivity. Qed.

Lemma service_endpoints_exact_witness :
  (Name ∘ svc_meta) <$> serviceEndpointServices "acme" "web"
    [{| target := 80; published := 0; sp_protocol := "TCP"; hostMode := false |}] ["www"%string] =
  ["web"; "web-published"; "www"]%string.
Proof.
  etrans; [apply service_endpoints_exact|].
  - intros p ->%list_elem_of_singleton. unfold in_range. cbn. lia.
  - vm_compute. reflexivity.
Defined.

Lemma placement_means_constraints_witness :
  let placement := Some {| Constraints := ["node.labels.disk == ssd"; "node.role!=manager"]%string;
                           Preferences := 0 |} in
  let node := {["disk" := "ssd"]}%string in
  ∃ requirements, @placementRequirements ascii_unicode placement = Ok requirements ∧
    (selector_holds node (NodeAffinity (appendNodeSelectorRequirements empty_spec requirements)) ↔
     selector_holds node (NodeAffinity empty_spec) ∧
     ∀ p c, placement = Some p → c ∈ Constraints p → @constraint_holds ascii_unicode node c).
Proof.
  intros placement node.
  destruct (@placementRequirements ascii_unicode placement) as [requirements|e] eqn:E; [|discriminate E].
  exists requirements. split; [done|].
  by apply (@placement_means_constraints ascii_unicode placement requirements empty_spec node E).
Defined.

Lemma service_amounts_exact_witness :
  let mode := {| Replicated := Some (Some 3); Global := false; ReplicatedJob := false; GlobalJob := false |} in
  serviceReplicas mode = Ok 3 ∧ 0 ≤ 3 ≤ int32_max.
Proof.
  intros mode. split; [reflexivity|].
  apply (proj1 (@service_amounts_exact demo_quantities) mode 3); [cbn; lia|reflexivity].
Defined.
