(* ===== verification/SwarmService.v ===== *)
(** * SwarmService: [core/translator/swarm_service.go]

    A Swarm service is a Deployment that carries its Docker spec in an annotation,
    with Services for its address, its published ports and its aliases.  The pure
    parts of the translation are in [SwarmSpec]. *)

From S2P Require Import Prelude GoStrings Sha256 Errors Prog Docker Kube Cluster Filters Validation.
From S2P Require Import PodMeta Discipline Workload Ports Services Resources Volumes Networks.
From S2P Require Import ImageConfig Secrets Create Swarm SwarmSpec.

Local Open Scope string_scope.

Definition envHashAnnotation : string := "dink.io/env-hash".

Definition deploymentOwnerReference (name uid : string) : OwnerReference := {|
  or_APIVersion := "apps/v1"; or_Kind := "Deployment"; or_Name := name; or_UID := uid;
  or_Controller := Some true |}.

(** The JSON of service specs, [authconfig.Decode], [ociref.ParseRelative] (the
    reference as a text), [netip.ParseAddr] (the address as a prefix of its own
    length) and the order of [PortConfig.Compare]. *)
Class ServiceCodec := {
  Marshal_service : SwarmServiceSpec → option string;
  Unmarshal_service : string → option SwarmServiceSpec;
  DecodeAuth : string → option string;
  ParseRelative : string → option string;
  ParseAddr : string → option string;
  sort_configs : list PortConfig → list PortConfig
}.
Class ServiceCodecLaws `{ServiceCodec} := {
  Unmarshal_Marshal_service s t : Marshal_service s = Some t → Unmarshal_service t = Some s;
  Marshal_service_nonempty s : Marshal_service s ≠ Some "";
  sort_configs_perm l : sort_configs l ≡ₚ l
}.

Definition findService : context → string → proc (res Deployment) := find_swarm KDeployment swarmServiceKind.

(** ** Reading services *)

Record VirtualIP := { vip_Addr : string; vip_NetworkID : string }.
Record Endpoint := { ep_Spec : option EndpointSpec; VirtualIPs : list VirtualIP; ep_Ports : list PortConfig }.

Record SwarmService := {
  sv_ID : string;
  sv_Meta : SwarmMeta;
  sv_Spec : SwarmServiceSpec;
  sv_Endpoint : Endpoint;
  sv_Status : option (Z * Z)      (* running and desired tasks *)
}.

Definition empty_service_spec : SwarmServiceSpec := {|
  ss_Name := ""; ss_Labels := ∅;
  ss_TaskTemplate := {| ts_Runtime := ""; ts_ContainerSpec := None; ts_RestartCondition := None;
                        ts_Resources := None; ts_Placement := None; ts_Networks := [] |};
  ss_Mode := {| Replicated := None; Global := false; ReplicatedJob := false; GlobalJob := false |};
  ss_UpdateConfig := None; ss_RollbackConfig := false; ss_EndpointSpec := None |}.

Definition spec_with (name : string) (mode : ServiceMode) (s : SwarmServiceSpec) : SwarmServiceSpec := {|
  ss_Name := name; ss_Labels := ss_Labels s; ss_TaskTemplate := ss_TaskTemplate s; ss_Mode := mode;
  ss_UpdateConfig := ss_UpdateConfig s; ss_RollbackConfig := ss_RollbackConfig s;
  ss_EndpointSpec := ss_EndpointSpec s |}.

(** A mode stored without a replica count reports that of the Deployment. *)
Definition reported_mode (m : ServiceMode) (replicas : option Z) : ServiceMode :=
  if negb (Global m) && negb (ReplicatedJob m) && negb (GlobalJob m) &&
     match Replicated m with Some (Some _) => false | _ => true end
  then {| Replicated := Some (Some (match replicas with Some r => wrap_unsigned 64 r | None => 1%Z end));
          Global := false; ReplicatedJob := false; GlobalJob := false |}
  else m.

Definition attachedNetworks (labels : smap) (networks : gmap string Network) : list Network :=
  sort_by nw_Name (omap (λ label, networks !! label) (map_to_list labels).*1).

(** A port of the Service of published ports, and one bound on the node. *)
Definition published_config `{Unicode} (port : ServicePort) : PortConfig := {|
  pc_Protocol := ToLower (SP_Protocol port);
  TargetPort := wrap_unsigned 32 (SP_TargetPort port);
  PublishedPort := wrap_unsigned 32 (if (SP_NodePort port =? 0)%Z then SP_Port port else SP_NodePort port);
  PublishMode := "ingress" |}.

Definition host_config `{Unicode} (port : ContainerPort) : option PortConfig :=
  if (HostPort port =? 0)%Z then None
  else Some {| pc_Protocol := ToLower (Port_Protocol port);
               TargetPort := wrap_unsigned 32 (ContainerPort_port port);
               PublishedPort := wrap_unsigned 32 (HostPort port); PublishMode := "host" |}.

Definition template_ports (d : Deployment) : list ContainerPort :=
  Containers (Pod_Spec (dep_Template d)) ≫= Ctr_Ports.

Section reading.
Context `{Unicode} `{ServiceCodec} `{NetworkOrder}.

Definition networksByLabel (ctx : context) : proc (gmap string Network) :=
  do l <- networkList ctx;
  Ret (match l with
       | Err _ => ∅
       | Ok l => list_to_map (rev ((λ o, (networkLabelPrefix +:+ Name (net_meta o), networkFromObject o)) <$> l))
       end).

Definition serviceEndpoint (deployment : Deployment) (spec : SwarmServiceSpec)
    (networks : gmap string Network) : proc Endpoint :=
  let attached := attachedNetworks (Pod_Labels (dep_Template deployment)) networks in
  do vip <- call (KGet KService (Namespace deployment) (Name deployment));
  let virtual :=
    match vip with
    | Ok vip =>
        match ParseAddr (ClusterIP (Svc_Spec vip)) with
        | Some addr => [{| vip_Addr := addr;
                           vip_NetworkID := match attached with n :: _ => nw_ID n | [] => "" end |}]
        | None => []
        end
    | Err _ => []
    end in
  do published <- call (KGet KService (Namespace deployment) (publishedPortsServiceName (Name deployment)));
  let ports := match published with
               | Ok published => published_config <$> Svc_Ports (Svc_Spec published)
               | Err _ => []
               end in
  Ret {| ep_Spec := ss_EndpointSpec spec; VirtualIPs := virtual;
         ep_Ports := sort_configs (ports ++ omap host_config (template_ports deployment))%list |}.

Definition decode_service (deployment : Deployment) : res SwarmServiceSpec :=
  let encoded := mget (Annotations deployment) swarmSpecAnnotation in
  let? spec := (if decide (encoded = "") then Ok empty_service_spec
                else match Unmarshal_service encoded with
                     | Some spec => Ok spec
                     | None => Err (Errorf "decoding service spec for %s: %w" [errors_New "json"])
                     end) in
  Ok (spec_with (Name deployment) (reported_mode (ss_Mode spec) (Replicas deployment)) spec).

Definition serviceFromDeployment (deployment : Deployment) (withStatus : bool)
    (networks : gmap string Network) : proc (res SwarmService) :=
  match decode_service deployment with
  | Err e => Ret (Err e)
  | Ok spec =>
      do endpoint <- serviceEndpoint deployment spec networks;
      Ret (Ok {|
        sv_ID := DockerIDFromUID (UID deployment); sv_Meta := swarmMeta (dep_meta deployment);
        sv_Spec := spec; sv_Endpoint := endpoint;
        sv_Status := if withStatus
                     then Some (wrap_unsigned 64 (ReadyReplicas deployment),
                                match Replicas deployment with Some r => wrap_unsigned 64 r | None => 0%Z end)
                     else None |})
  end.

Definition validateServiceFilters (filters : swarmFilters) : option error :=
  sf_Validate filters {["id"; "label"; "mode"; "name"; "runtime"]}.

Definition matchesServiceFilters (filters : swarmFilters) (service : SwarmService) : bool :=
  if decide (sf_Len filters = 0%nat) then true
  else sf_FuzzyMatch filters "id" (sv_ID service) &&
       sf_Match filters "name" (ss_Name (sv_Spec service)) &&
       sf_ExactMatch filters "mode" "replicated" &&
       sf_ExactMatch filters "runtime" "container" &&
       sf_MatchKVList filters "label" (ss_Labels (sv_Spec service)).

(** The loop of [GetServices]. *)
Fixpoint list_services (filters : swarmFilters) (status : bool) (networks : gmap string Network)
    (deployments : list Deployment) : proc (res (list SwarmService)) :=
  match deployments with
  | [] => Ret (Ok [])
  | d :: deployments =>
      do? service <- serviceFromDeployment d status networks;
      do? services <- list_services filters status networks deployments;
      Ret (Ok (if matchesServiceFilters filters service then service :: services else services))
  end.

Definition GetServices (ctx : context) (filters : swarmFilters) (status : bool) :
    proc (res (list SwarmService)) :=
  match swarm_namespace ctx with
  | Err e => Ret (Err e)
  | Ok namespace =>
      match validateServiceFilters filters with
      | Some e => Ret (Err (InvalidArgument e))
      | None =>
          do deployments <- call (KList KDeployment namespace swarmServiceSelector);
          match deployments with
          | Err e => Ret (Err (kubeError e))
          | Ok deployments =>
              do networks <- networksByLabel ctx;
              do? services <- list_services filters status networks deployments;
              Ret (Ok (sort_by (λ s, ss_Name (sv_Spec s)) services))
          end
      end
  end.

Definition GetService (ctx : context) (idOrName : string) (insertDefaults : bool) : proc (res SwarmService) :=
  do? deployment <- findService ctx idOrName;
  do networks <- networksByLabel ctx;
  do? service <- serviceFromDeployment deployment true networks;
  Ret (Ok (if insertDefaults then {|
    sv_ID := sv_ID service; sv_Meta := sv_Meta service; sv_Spec := insertServiceDefaults (sv_Spec service);
    sv_Endpoint := sv_Endpoint service; sv_Status := sv_Status service |} else service)).
End reading.

(** ** Mounts *)

Definition numbered (prefix : string) (index : nat) : string := prefix +:+ pretty (N.of_nat index).

(** [os.FileMode.Perm] *)
Definition Perm (mode : Z) : Z := Z.land mode 511.

Definition mount_entry (name path subPath : string) (readOnly : bool) (source : VolumeSource) :
    Volume * VolumeMount :=
  ({| Vol_Name := name; Vol_Source := source |},
   {| VM_Name := name; MountPath := path; ReadOnly := readOnly; SubPath := subPath |}).

Section mounts.
Context `{Unicode} `{Regexp} `{MapJSON} `{Validation} `{Quantities} `{DockerJSON}.

Definition service_mount (ctx : context) (index : nat) (requested : ServiceMount) :
    proc (res (Volume * VolumeMount)) :=
  let m := sm_Mount requested in
  if negb (IsAbs (Mount_Target m)) then
    Ret (Err (InvalidArgument (errors_New "mount target %q must be an absolute path")))
  else
    let mountType := if decide (Mount_Type m = "") then "volume" else Mount_Type m in
    if decide (mountType = "volume") then
      let '(driver, driverOpts) := match DriverConfig m with Some d => d | None => ("", ∅) end in
      do? claim <- ensureContainerVolume ctx (Mount_Source m) driver driverOpts;
      Ret (Ok (mount_entry claim (Mount_Target m) "" (Mount_ReadOnly m) (PersistentVolumeClaimSource claim)))
    else if decide (mountType = "tmpfs") then
      let sizeLimit := match TmpfsSize requested with
                       | Some size => if (0 <? size)%Z then Some (NewQuantity size) else None
                       | None => None
                       end in
      Ret (Ok (mount_entry (numbered "tmpfs-" index) (Mount_Target m) "" false (EmptyDirSource sizeLimit)))
    else Ret (Err (Unsupported (errors_New "mount type %q is not supported by the Kubernetes backend"))).

Fixpoint volume_mounts (ctx : context) (index : nat) (mounts : list ServiceMount) :
    proc (res (list (Volume * VolumeMount))) :=
  match mounts with
  | [] => Ret (Ok [])
  | m :: mounts =>
      do? entry <- service_mount ctx index m;
      do? entries <- volume_mounts ctx (S index) mounts;
      Ret (Ok (entry :: entries))
  end.

Definition secret_mount (index : nat) (reference : option FileReference) : res (Volume * VolumeMount) :=
  match reference with
  | Some {| ref_Name := secret; ref_File := Some file |} =>
      let target := Clean_rooted ("/run/secrets/" +:+ File_Name file) in
      Ok (mount_entry (numbered "secret-" index) target (Base target) true
            (SecretSource secret (Base target) (wrap_signed 32 (Perm (File_Mode file)))))
  | _ => invalid_argument "secret references require a file target"
  end.

Definition config_mount (index : nat) (reference : option FileReference) : res (Volume * VolumeMount) :=
  match reference with
  | Some {| ref_Name := config; ref_File := Some file |} =>
      let target := if IsAbs (File_Name file) then File_Name file else "/" +:+ File_Name file in
      Ok (mount_entry (numbered "config-" index) target (Base target) true
            (ConfigMapSource config (Base target) (wrap_signed 32 (Perm (File_Mode file)))))
  | _ => invalid_argument "config references require a file target"
  end.

Definition file_mounts (mount : nat → option FileReference → res (Volume * VolumeMount))
    (references : list (option FileReference)) : res (list (Volume * VolumeMount)) :=
  result_mapM (λ '(i, r), mount i r) (imap pair references).

Definition serviceMounts (ctx : context) (spec : ContainerSpec) :
    proc (res (list Volume * list VolumeMount)) :=
  do? mounts <- volume_mounts ctx 0 (cs_Mounts spec);
  ret_res (file_mounts secret_mount (cs_Secrets spec)) (λ secrets,
  ret_res (file_mounts config_mount (cs_Configs spec)) (λ configs,
  let entries := (mounts ++ secrets ++ configs)%list in
  Ret (Ok (entries.*1, entries.*2)))).
End mounts.

(** ** Translating a service *)

(** The path of an image that is not in the registry yet: it is pulled, then looked up again. *)
Definition image_missing (e : error) : bool :=
  match errors_As as_http e with Some status => (status =? 404)%Z | None => false end.

Section building.
Context `{Unicode} `{Regexp} `{MapJSON} `{Validation} `{Quantities} `{DockerJSON} `{Retry}.
Context `{NetworkOrder} `{ConfigMapKeys} `{ProviderOrder} `{PortParser} `{PullSecretCodec}.
Context `{ServiceCodec} `{PortOrder}.

Definition serviceImage (settings : docker_settings) (namespace name auth : string) :
    proc (res (string * option Config)) :=
  do image <- podImage (pullHost settings) namespace name;
  match image with
  | Ok image => Ret (Ok image)
  | Err e =>
      if negb (image_missing e) then Ret (Err e)
      else match ParseRelative name with
      | None => Ret (Err (InvalidArgument (errors_New "invalid image reference %q: %w")))
      | Some ref =>
          do? _ <- call (PullImage ref (Some auth));
          podImage (pullHost settings) namespace name
      end
  end.

(** The networks of a service; publishing a port joins the ingress network. *)
Definition service_networks (spec : SwarmServiceSpec) (published : bool) : list string :=
  let names := List.filter (λ n, negb (bool_decide (n = ""))) (na_Target <$> ts_Networks (ss_TaskTemplate spec)) in
  let names := if published then (names ++ [ingressNetworkName])%list else names in
  let names := match names with [] => ["bridge"] | _ => names end in
  slices_Compact (slices_Sort names).

Definition serviceNetworkLabels (ctx : context) (spec : SwarmServiceSpec) (published : bool) :
    proc (res smap) :=
  networkMembershipLabels ctx (service_networks spec published).

(** What is known about a service when its objects are assembled. *)
Record service_parts := {
  bs_replicas : Z;
  bs_container : ContainerSpec;
  bs_meta : PodMetadata;
  bs_env : SecretEnv;
  bs_image : string;
  bs_volumes : list Volume;
  bs_mounts : list VolumeMount;
  bs_resources : ResourceRequirements;
  bs_probe : option Probe;
  bs_ports : list servicePort;
  bs_networks : smap;
  bs_aliases : list string;
  bs_spec : string;                (* the JSON of the spec *)
  bs_warnings : list string
}.

Definition service_container (name : string) (b : service_parts) : Container := {|
  Ctr_Name := name;
  Ctr_Image := bs_image b;
  Ctr_Command := cs_Command (bs_container b);
  Ctr_Args := cs_Args (bs_container b);
  Ctr_WorkingDir := cs_Dir (bs_container b);
  Ctr_Ports := serviceContainerPorts (bs_ports b);
  Ctr_Env := Vars (bs_env b);
  Ctr_Resources := bs_resources b;
  Ctr_VolumeMounts := bs_mounts b;
  Ctr_ReadinessProbe := bs_probe b;
  Ctr_TTY := cs_TTY (bs_container b);
  Ctr_Stdin := cs_OpenStdin (bs_container b);
  Ctr_ImagePullPolicy := PullAlways;
  Ctr_SecurityContext := security_context (bs_container b) |}.

Definition service_pod_labels (name : string) (b : service_parts) : smap :=
  maps_Copy (maps_Copy (<[swarmKindLabel := swarmServiceKind]> (dinkPodLabels name)) (bs_networks b))
    (meta_Labels (bs_meta b)).

Definition service_annotations (b : service_parts) : smap :=
  let hash := envHash (Values (bs_env b)) in
  if decide (hash = "") then meta_Annotations (bs_meta b)
  else <[envHashAnnotation := hash]> (meta_Annotations (bs_meta b)).

Definition service_template (name : string) (b : service_parts) : PodTemplateSpec :=
  let c := bs_container b in {|
  Pod_Labels := service_pod_labels name b;
  Pod_Annotations := service_annotations b;
  Pod_Spec := {|
    HostNetwork := false;
    DNSPolicy := match cs_DNSConfig c with
                 | Some dns => if non_empty (Nameservers dns) then "None" else ""
                 | None => ""
                 end;
    Volumes := bs_volumes b;
    ImagePullSecrets := [pullSecretName];
    Containers := [service_container name b];
    NodeAffinity := None; Tolerations := []; RestartPolicy := "";
    Hostname := hostnameFor (cs_Hostname c);
    HostAliases := serviceHostAliases (cs_Hosts c);
    PodDNSConfig := serviceDNSConfig (cs_DNSConfig c);
    TerminationGracePeriodSeconds := grace_seconds <$> cs_StopGracePeriod c;
    Sysctls := podSysctls (cs_Sysctls c); InitContainers := [] |} |}.

Definition service_selector (name : string) : smap := {["app" := name; swarmKindLabel := swarmServiceKind]}.

Definition service_deployment (namespace : string) (spec : SwarmServiceSpec) (b : service_parts)
    (template : PodTemplateSpec) : Deployment := {|
  dep_meta := meta_set_annotations {[swarmSpecAnnotation := bs_spec b]}
    (meta_set_labels {["app" := ss_Name spec; swarmKindLabel := swarmServiceKind]}
       (new_meta (ss_Name spec) namespace));
  Replicas := Some (bs_replicas b);
  Strategy := serviceStrategy (ss_UpdateConfig spec);
  Selector := service_selector (ss_Name spec);
  dep_Template := template;
  ObservedGeneration := 0; StatusReplicas := 0; ReadyReplicas := 0 |}.

(** The steps of [buildService] up to the assembly. *)
Definition gather_service (settings : docker_settings) (ctx : context) (namespace : string)
    (spec : SwarmServiceSpec) (auth : string) : proc (res service_parts) :=
  ret_res (validateSwarmName "service" (ss_Name spec)) (λ _,
  ret_res (serviceReplicas (ss_Mode spec)) (λ replicas,
  match ts_ContainerSpec (ss_TaskTemplate spec) with
  | None => Ret (Err (InvalidArgument (errors_New "service task template requires a container spec")))
  | Some c =>
  ret_res (podMetadata [ss_Labels spec; cs_Labels c]) (λ podMeta,
  if negb (bool_decide (ts_Runtime (ss_TaskTemplate spec) ∈ [""; "container"])) then
    Ret (Err (Unsupported (errors_New "task runtime %q is not supported")))
  else match ctx with
  | None => Ret (Err (Unauthenticated (errors_New "missing identity in context")))
  | Some id =>
  do? env <- resolveEnv id (ss_Name spec) (cs_Env c);
  do? '(image, imageConfig) <- serviceImage settings namespace (cs_Image c) auth;
  do? _ <- ensurePullSecret (pullHost settings) namespace;
  do? _ <- ensureNamespaceIsolation namespace;
  do? '(volumes, mounts) <- serviceMounts ctx c;
  ret_res (serviceResources (ts_Resources (ss_TaskTemplate spec))) (λ resources,
  do? defaults <- tenantResourceDefaults (DecodeDefaults settings) (defaultResources settings) namespace;
  ret_res (invalid (applyServiceResourceDefaults resources defaults)) (λ resources,
  let shell := match imageConfig with Some config => Shell config | None => [] end in
  ret_res (invalid (dockerHealthProbe (cs_Healthcheck c) shell)) (λ '(probe, probeWarnings),
  ret_res (servicePorts (ss_EndpointSpec spec)) (λ '(ports, portWarnings),
  do? networks <- serviceNetworkLabels ctx spec (hasIngressPorts ports);
  ret_res (serviceAliases spec) (λ aliases,
  if slices_Contains aliases (ss_Name spec) then
    Ret (Err (InvalidArgument (errors_New "network alias %q duplicates the service name")))
  else match Marshal_service spec with
  | None => Ret (Err (InvalidArgument (Errorf "encoding service spec: %w" [errors_New "json"])))
  | Some specJSON =>
  Ret (Ok {| bs_replicas := replicas; bs_container := c; bs_meta := podMeta; bs_env := env;
             bs_image := image; bs_volumes := volumes; bs_mounts := mounts; bs_resources := resources;
             bs_probe := probe; bs_ports := ports; bs_networks := networks; bs_aliases := aliases;
             bs_spec := specJSON;
             bs_warnings := (serviceWarnings spec c ++ probeWarnings ++ portWarnings)%list |})
  end)))))
  end)
  end)).

Definition assemble_service (settings : docker_settings) (namespace : string) (spec : SwarmServiceSpec)
    (b : service_parts) : res (Deployment * list Service * SecretEnv * list string) :=
  let template := service_template (ss_Name spec) b in
  let? _ := validatePodAnnotations (Pod_Annotations template) in
  let? constraints := placementRequirements (ts_Placement (ss_TaskTemplate spec)) in
  let pod := appendNodeSelectorRequirements
    (applyNodePlacement (Pod_Spec template) (nodePlacement settings) namespace) constraints in
  Ok (service_deployment namespace spec b (tpl_set_spec pod template),
      serviceEndpointServices namespace (ss_Name spec) (bs_ports b) (bs_aliases b),
      bs_env b, bs_warnings b).

Definition buildService (settings : docker_settings) (ctx : context) (namespace : string)
    (spec : SwarmServiceSpec) (auth : string) :
    proc (res (Deployment * list Service * SecretEnv * list string)) :=
  do? b <- gather_service settings ctx namespace spec auth;
  Ret (assemble_service settings namespace spec b).

(** ** The Services and the policy of a service *)

Definition own_service (owner : OwnerReference) (s : Service) : Service :=
  {| svc_meta := meta_set_owners [owner] (svc_meta s); Svc_Spec := Svc_Spec s |}.

(** The Service that replaces [existing]. *)
Definition replace_service (existing service : Service) : Service := {|
  svc_meta := meta_set_rv (ResourceVersion (svc_meta existing)) (svc_meta service);
  Svc_Spec :=
    let spec := {| ServiceType := ServiceType (Svc_Spec service); Svc_Selector := Svc_Selector (Svc_Spec service);
                   Svc_Ports := Svc_Ports (Svc_Spec service); ClusterIP := ClusterIP (Svc_Spec existing) |} in
    retainNodePorts spec (Svc_Spec existing) |}.

Definition apply_endpoint (namespace : string) (service : Service) : proc (res unit) :=
  do existing <- call (KGet KService namespace (Name (svc_meta service)));
  match existing with
  | Err e =>
      if IsNotFound e then
        do r <- call (KCreate KService namespace (service : obj KService));
        Ret (kube_result (result_map (λ _, tt) r))
      else Ret (Err (kubeError e))
  | Ok existing =>
      do r <- call (KUpdate KService namespace (replace_service existing service : obj KService));
      Ret (kube_result (result_map (λ _, tt) r))
  end.

Definition remove_stale (namespace : string) (wanted : list string) (name : string) : proc (res unit) :=
  if slices_Contains wanted name then Ret (Ok tt)
  else
    do r <- call (KDelete KService namespace name no_delete_options);
    Ret (match r with
         | Err e => if IsNotFound e then Ok tt else Err (kubeError e)
         | Ok _ => Ok tt
         end).

Definition applyServiceEndpoints (deployment : Deployment) (services : list Service) : proc (res unit) :=
  let ns := Namespace deployment in
  let owner := deploymentOwnerReference (Name deployment) (UID deployment) in
  let wanted := (λ s, Name (svc_meta s)) <$> services in
  do? _ <- for_each services (λ s, apply_endpoint ns (own_service owner s));
  do aliases <- call (KList KService ns (aliasOfLabel +:+ "=" +:+ Name deployment));
  match aliases with
  | Err e => Ret (Err (kubeError e))
  | Ok aliases =>
      for_each ([Name deployment; publishedPortsServiceName (Name deployment)] ++
                ((λ s : Service, Name (svc_meta s)) <$> (aliases : list Service)))%list (remove_stale ns wanted)
  end.

Definition applyServicePolicies (deployment : Deployment) : proc (res unit) :=
  applyPublishedPortsPolicy (Namespace deployment) (Name deployment)
    (deploymentOwnerReference (Name deployment) (UID deployment)) (template_ports deployment).

(** ** Creating, updating and removing services *)

(** [_ = Deployments.Delete(created.Name)] and the return of the error. *)
Definition or_delete {A} (namespace name : string) (step : proc (res unit)) (k : proc (res A)) :
    proc (res A) :=
  do r <- step;
  match r with
  | Err e => do _ <- call (KDelete KDeployment namespace name no_delete_options); Ret (Err e)
  | Ok _ => k
  end.

(** From the created Deployment to the response. *)
Definition finish_service (namespace name : string) (created : Deployment) (services : list Service)
    (env : SecretEnv) (warnings : list string) : proc (res (string * list string)) :=
  let owner := deploymentOwnerReference (Name created) (UID created) in
  or_delete namespace (Name created) (applyEnvSecret namespace name env owner) (
  or_delete namespace (Name created) (applyServiceEndpoints created services) (
  or_delete namespace (Name created) (applyServicePolicies created) (
  Ret (Ok (DockerIDFromUID (UID created), warnings))))).

Definition CreateService (settings : docker_settings) (ctx : context) (spec : SwarmServiceSpec)
    (encodedRegistryAuth : string) : proc (res (string * list string)) :=
  do name <- (if decide (ss_Name spec = "") then call RandomName else Ret (ss_Name spec));
  match DecodeAuth encodedRegistryAuth with
  | None => Ret (Err (InvalidArgument (errors_New "decoding registry auth: %w")))
  | Some auth =>
      let spec := insertServiceDefaults (spec_with name (ss_Mode spec) spec) in
      match swarm_namespace ctx with
      | Err e => Ret (Err e)
      | Ok namespace =>
          do? '(deployment, services, env, warnings) <- buildService settings ctx namespace spec auth;
          do created <- call (KCreate KDeployment namespace (deployment : obj KDeployment));
          match created with
          | Err e => Ret (Err (kubeError e))
          | Ok created => finish_service namespace (ss_Name spec) created services env warnings
          end
      end
  end.

Definition dep_set_rv (rv : string) (d : Deployment) : Deployment :=
  dep_set_meta (meta_set_rv rv (dep_meta d)) d.

(** From the built objects to the response. *)
Definition update_built (namespace name : string) (version : N) (current deployment : Deployment)
    (services : list Service) (env : SecretEnv) (warnings : list string) : proc (res (list string)) :=
  let owner := deploymentOwnerReference (Name current) (UID current) in
  let store := applyEnvSecret namespace name env owner in
  let unneeded := bool_decide (Values env = ∅) in
  do? _ <- (if unneeded then Ret (Ok tt) else store);
  do updated <- call (KUpdate KDeployment namespace (dep_set_rv (resourceVersionFor version) deployment : obj KDeployment));
  match updated with
  | Err e => Ret (Err (kubeError e))
  | Ok updated =>
      do? _ <- (if unneeded then store else Ret (Ok tt));
      do? _ <- applyServiceEndpoints updated services;
      do? _ <- applyServicePolicies updated;
      Ret (Ok warnings)
  end.

Definition UpdateService (settings : docker_settings) (ctx : context) (idOrName : string) (version : N)
    (spec : SwarmServiceSpec) (rollback encodedRegistryAuth : string) : proc (res (list string)) :=
  if negb (bool_decide (rollback ∈ [""; "none"])) then
    Ret (Err (Unsupported (errors_New "server-side rollback is not available")))
  else match DecodeAuth encodedRegistryAuth with
  | None => Ret (Err (InvalidArgument (errors_New "decoding registry auth: %w")))
  | Some auth =>
      match swarm_namespace ctx with
      | Err e => Ret (Err e)
      | Ok namespace =>
          do? current <- findService ctx idOrName;
          if negb (bool_decide (ss_Name spec = "")) && negb (bool_decide (ss_Name spec = Name current)) then
            Ret (Err (InvalidArgument (errors_New "renaming a service is not supported")))
          else
            let spec := spec_with (Name current) (ss_Mode spec) spec in
            do? '(deployment, services, env, warnings) <- buildService settings ctx namespace spec auth;
            update_built namespace (ss_Name spec) version current deployment services env warnings
      end
  end.

Definition RemoveService (ctx : context) (idOrName : string) : proc (res unit) :=
  do? deployment <- findService ctx idOrName;
  do r <- call (KDelete KDeployment (Namespace deployment) (Name deployment) {|
    Precondition_UID := Some (UID deployment); Precondition_ResourceVersion := None;
    GracePeriodSeconds := None; PropagationPolicy := None |});
  Ret (match r with
       | Err e => if IsNotFound e then Ok tt else Err (kubeError e)
       | Ok _ => Ok tt
       end).
End building.
