(* ===== verification/SwarmProps.v ===== *)
(** * SwarmProps: what creating, updating and removing a Swarm service guarantees

    The Services of a service converge to its spec; a created service is confined to
    its tenant, decodes back to its spec and is rolled back when a later step fails;
    an update is one guarded write of the Deployment between the steps it depends on
    and those that depend on it. *)

From S2P Require Import Prelude GoStrings Sha256 Errors Prog Docker Kube Cluster Filters Identity Validation.
From S2P Require Import PodMeta Discipline Workload Ports Services Resources Volumes Networks Isolation.
From S2P Require Import ImageConfig Secrets Create CreateProps Swarm SwarmSpec SwarmService.

Local Open Scope string_scope.

(** ** The Services of a service *)

Definition wanted_names (services : list Service) : list string := (λ s, Name (svc_meta s)) <$> services.

Definition service_owner (d : Deployment) : OwnerReference :=
  deploymentOwnerReference (Name d) (UID d).

(** A Service of which the Deployment is an owner. *)
Definition belongs_to (d : Deployment) (s : Service) : Prop :=
  ∃ ref, ref ∈ OwnerReferences (svc_meta s) ∧
    or_Kind ref = "Deployment" ∧ or_Name ref = Name d ∧ or_UID ref = UID d.

(** A Service made for a wanted one, and owned by the service alone. *)
Definition made_for (d : Deployment) (wanted s : Service) : Prop :=
  Name (svc_meta s) = Name (svc_meta wanted) ∧ Labels (svc_meta s) = Labels (svc_meta wanted) ∧
  ∃ ref, OwnerReferences (svc_meta s) = [ref] ∧
    or_Kind ref = "Deployment" ∧ or_Name ref = Name d ∧ or_UID ref = UID d.

(** What a Service that is replaced keeps: its version, its address, and the node port that
    each port number has, if it has its ports under different numbers. *)
Definition keeps (existing wanted s : Service) : Prop :=
  ResourceVersion (svc_meta s) = ResourceVersion (svc_meta existing) ∧
  ServiceType (Svc_Spec s) = ServiceType (Svc_Spec wanted) ∧
  Svc_Selector (Svc_Spec s) = Svc_Selector (Svc_Spec wanted) ∧
  ClusterIP (Svc_Spec s) = ClusterIP (Svc_Spec existing) ∧
  Forall2 (λ p q : ServicePort,
    SP_Name q = SP_Name p ∧ SP_Port q = SP_Port p ∧ SP_TargetPort q = SP_TargetPort p ∧
    SP_Protocol q = SP_Protocol p ∧
    (NoDup (SP_Port <$> Svc_Ports (Svc_Spec existing)) →
       (∀ e, e ∈ Svc_Ports (Svc_Spec existing) → SP_Port e = SP_Port p → SP_NodePort e ≠ 0%Z →
          SP_NodePort q = SP_NodePort e) ∧
       ((∀ e, e ∈ Svc_Ports (Svc_Spec existing) → SP_Port e = SP_Port p → SP_NodePort e = 0%Z) →
          SP_NodePort q = SP_NodePort p)))
    (Svc_Ports (Svc_Spec wanted)) (Svc_Ports (Svc_Spec s)).

(** What [applyServiceEndpoints] may request, if what it reads is [owned]: a wanted Service
    is created directly after it was not found and replaced directly after it was read;
    only the address, the published ports and the recorded aliases are deleted, and none
    that is wanted. *)
Definition endpoint_requests (owned : Service → Prop) (d : Deployment) (services : list Service) :
    guard (cmd := cmd) := λ h X c,
  let ns := Namespace d in
  match c with
  | KGet k ns' n => k = KService ∧ ns' = ns ∧ n ∈ wanted_names services
  | KList k ns' selector => k = KService ∧ ns' = ns ∧ selector = "dink.io/alias-of=" +:+ Name d
  | KCreate k ns' o =>
      match k return obj k → Prop with
      | KService => λ o, ns' = ns ∧ ∃ s e h0, s ∈ services ∧ made_for d s o ∧ Svc_Spec o = Svc_Spec s ∧
          h = Event _ (KGet KService ns (Name (svc_meta s))) (Err e) :: h0 ∧ IsNotFound e = true
      | _ => λ _, False
      end o
  | KUpdate k ns' o =>
      match k return obj k → Prop with
      | KService => λ o, ns' = ns ∧ ∃ s existing h0, s ∈ services ∧ made_for d s o ∧ keeps existing s o ∧
          owned existing ∧ h = Event _ (KGet KService ns (Name (svc_meta s))) (Ok existing) :: h0
      | _ => λ _, False
      end o
  | KDelete k ns' n _ => k = KService ∧ ns' = ns ∧ (n ∉ wanted_names services) ∧
      (n = Name d ∨ n = publishedPortsServiceName (Name d) ∨
       ∃ (aliases : list Service) a, Event _ (KList KService ns ("dink.io/alias-of=" +:+ Name d)) (Ok aliases) ∈ h ∧
         a ∈ aliases ∧ Name (svc_meta a) = n)
  | _ => False
  end.

(** The Service is stored as wanted, or in place of the one that was there. *)
Definition service_applied (ns : string) (wanted : Service) (h : hist) : Prop :=
  ∃ stored : Service,
    Event _ (KCreate KService ns (wanted : obj KService)) (Ok stored) ∈ h ∨
    ∃ existing : Service, Event _ (KGet KService ns (Name (svc_meta wanted))) (Ok existing) ∈ h ∧
      Event _ (KUpdate KService ns (replace_service existing wanted : obj KService)) (Ok stored) ∈ h.

Definition service_gone (ns name : string) (h : hist) : Prop :=
  ∃ r, Event _ (KDelete KService ns name no_delete_options) r ∈ h ∧
    match r with Ok _ => True | Err e => IsNotFound e = true end.

(** The wanted Services are there, and every other one of the service is gone. *)
Definition endpoints_applied (d : Deployment) (services : list Service) (h : hist) : Prop :=
  let ns := Namespace d in
  (∀ s, s ∈ services → service_applied ns (own_service (service_owner d) s) h) ∧
  ∃ aliases : list Service, Event _ (KList KService ns (aliasOfLabel +:+ "=" +:+ Name d)) (Ok aliases) ∈ h ∧
    ∀ n, n ∈ (Name d :: publishedPortsServiceName (Name d) :: wanted_names aliases) →
      n ∉ wanted_names services → service_gone ns n h.

Lemma suffix_elem (e : event cmd) h h' : h `suffix_of` h' → e ∈ h → e ∈ h'.
Proof. intros [pre ->] He. apply elem_of_app. by right. Qed.
#[local] Hint Resolve suffix_elem : core.

Lemma service_applied_mono ns s h h' :
  h `suffix_of` h' → service_applied ns s h → service_applied ns s h'.
Proof.
  intros Hs (stored & [Hc|(existing & Hg & Hu)]); exists stored; [left|right; exists existing]; eauto.
Qed.

Lemma service_gone_mono ns n h h' : h `suffix_of` h' → service_gone ns n h → service_gone ns n h'.
Proof. intros Hs (r & Hd & Hr). exists r. eauto. Qed.

Lemma endpoints_applied_mono d services h h' :
  h `suffix_of` h' → endpoints_applied d services h → endpoints_applied d services h'.
Proof.
  intros Hs (Hall & aliases & Hl & Hgone). split.
  - intros s ?. eapply service_applied_mono; eauto.
  - exists aliases. split; [eauto|]. intros n ? ?. eapply service_gone_mono; eauto.
Qed.

Lemma kube_result_unit {A} (r : res A) : kube_result (result_map (λ _, tt) r) = Ok tt → ∃ a, r = Ok a.
Proof. destruct r; [eauto|done]. Qed.

Lemma kube_result_map_err {A} (r : res A) e : kube_result (result_map (λ _, tt) r) = Err e → ∃ e', r = Err e'.
Proof. destruct r; [done|eauto]. Qed.

(** The node ports of [existing] that are kept for a port. *)
Definition node_ports_of (existing : list ServicePort) (port : Z) : list Z :=
  SP_NodePort <$> filter (λ p, SP_Port p = port ∧ SP_NodePort p ≠ 0%Z) existing.

Lemma allocated_ports_lookup existing port :
  allocated_ports existing !! port = last (node_ports_of existing port).
Proof.
  unfold allocated_ports, node_ports_of. induction existing as [|p l IH] using rev_ind; [done|].
  rewrite fold_left_app, filter_app, fmap_app. cbn [fold_left].
  destruct (Z.eqb_spec (SP_NodePort p) 0) as [Hz|Hz].
  - rewrite IH, (filter_cons_False _ _ []) by naive_solver. by rewrite filter_nil, app_nil_r.
  - destruct (decide (SP_Port p = port)) as [<-|Hne].
    + rewrite lookup_insert_eq, (filter_cons_True _ _ []) by done.
      by rewrite filter_nil, fmap_cons, fmap_nil, last_snoc.
    + rewrite lookup_insert_ne by done.
      rewrite IH, (filter_cons_False _ _ []) by naive_solver. by rewrite filter_nil, app_nil_r.
Qed.

Lemma elem_of_node_ports existing port n :
  n ∈ node_ports_of existing port ↔ ∃ e, e ∈ existing ∧ SP_Port e = port ∧ SP_NodePort e ≠ 0%Z ∧ SP_NodePort e = n.
Proof.
  unfold node_ports_of. rewrite list_elem_of_fmap. setoid_rewrite list_elem_of_filter. naive_solver.
Qed.

Lemma NoDup_fmap_eq {A B} (f : A → B) l x y : NoDup (f <$> l) → x ∈ l → y ∈ l → f x = f y → x = y.
Proof.
  intros Hd [i Hi]%list_elem_of_lookup [j Hj]%list_elem_of_lookup Heq.
  assert (i = j) as <-; [|by simplify_eq].
  eapply (NoDup_lookup (f <$> l)); [done|by rewrite list_lookup_fmap, Hi|by rewrite list_lookup_fmap, Hj, Heq].
Qed.

(** A port number that is there once keeps its node port. *)
Lemma node_port_kept existing port default_port :
  let kept := default default_port (last (node_ports_of existing port)) in
  (NoDup (SP_Port <$> existing) →
     (∀ e, e ∈ existing → SP_Port e = port → SP_NodePort e ≠ 0%Z → kept = SP_NodePort e) ∧
     ((∀ e, e ∈ existing → SP_Port e = port → SP_NodePort e = 0%Z) → kept = default_port)).
Proof.
  intros kept Hd. unfold kept. destruct (last _) as [n|] eqn:Elast; simpl.
  - apply last_Some_elem_of, elem_of_node_ports in Elast as (e & He & Hport & Hne & <-). split.
    + intros e' He' Hport' _. f_equal. eapply NoDup_fmap_eq; [exact Hd|done..|congruence].
    + intros Hnone. by destruct Hne; apply Hnone.
  - apply last_None in Elast. split; [|done]. intros e He Hport Hne.
    assert (SP_NodePort e ∈ node_ports_of existing port) as Hin by (apply elem_of_node_ports; eauto).
    rewrite Elast in Hin. by apply not_elem_of_nil in Hin.
Qed.

Lemma own_service_made d s : made_for d s (own_service (service_owner d) s).
Proof. unfold made_for. split_and!; [done..|]. by eexists. Qed.

Lemma replace_service_made d existing s : made_for d s (replace_service existing (own_service (service_owner d) s)).
Proof. unfold made_for. split_and!; [done..|]. by eexists. Qed.

Lemma replace_service_keeps d existing s : keeps existing s (replace_service existing (own_service (service_owner d) s)).
Proof.
  unfold keeps. split_and!; [done..|]. unfold replace_service, retainNodePorts.
  cbn [Svc_Spec Svc_Ports own_service]. apply Forall2_fmap_r, Forall_Forall2_diag, Forall_forall.
  intros p _. pose proof (node_port_kept (Svc_Ports (Svc_Spec existing)) (SP_Port p) (SP_NodePort p)) as Hkept.
  unfold compose, retain_port. rewrite allocated_ports_lookup. by destruct (last _).
Qed.

Section endpoints.
Context (d : Deployment) (services : list Service) (R : rely (cmd := cmd)) (owned : Service → Prop).
Context (HR : ∀ h ns n existing, R h _ (KGet KService ns n) (Ok (existing : obj KService)) → owned existing).
Abbreviation ns := (Namespace d).

Lemma apply_endpoint_wp s h (Q : hist → res unit → Prop) :
  s ∈ services → (∀ h e, Q h (Err e)) →
  wp R (endpoint_requests owned d services) (apply_endpoint ns (own_service (service_owner d) s)) h
    (λ h' r, match r with
             | Ok _ => service_applied ns (own_service (service_owner d) s) h'
             | Err e => Q h' (Err e)
             end).
Proof.
  intros Hs Herr. unfold apply_endpoint. rewrite wp_bind, wp_call. split.
  { split_and!; [done..|]. by apply list_elem_of_fmap; exists s. }
  intros [existing|e] Hread.
  - rewrite wp_bind, wp_call. split.
    { split; [done|]. exists s, existing, h.
      split_and!; [done|apply replace_service_made|apply replace_service_keeps|by eapply HR|done]. }
    intros [stored|e] _; rewrite wp_ret; [|apply Herr]. exists stored. right. exists existing.
    split; [right; by left|by left].
  - destruct (IsNotFound e) eqn:En; [|apply Herr]. rewrite wp_bind, wp_call.
    split; [split; [done|]; exists s, e, h; by split_and!; [|apply own_service_made|..]|].
    intros [stored|e'] _; rewrite wp_ret; [|apply Herr]. exists stored. left. by left.
Qed.

Lemma remove_stale_wp n h (Q : hist → res unit → Prop) :
  (n ∉ wanted_names services → endpoint_requests owned d services h _ (KDelete KService ns n no_delete_options)) →
  (∀ h e, Q h (Err e)) →
  wp R (endpoint_requests owned d services) (remove_stale ns (wanted_names services) n) h
    (λ h' r, match r with
             | Ok _ => n ∉ wanted_names services → service_gone ns n h'
             | Err e => Q h' (Err e)
             end).
Proof.
  intros Hg Herr. unfold remove_stale, slices_Contains.
  destruct (bool_decide_reflect (n ∈ wanted_names services)) as [Hin|Hin];
    [by rewrite wp_ret|].
  rewrite wp_bind, wp_call. split; [by apply Hg|]. intros r _. rewrite wp_ret.
  destruct r as [u|e]; [|destruct (IsNotFound e) eqn:En; [|apply Herr]];
    intros _; eexists; (split; [by left|done]).
Qed.

Lemma applyServiceEndpoints_wp h :
  wp R (endpoint_requests owned d services) (applyServiceEndpoints d services) h
    (λ h' r, r = Ok tt → endpoints_applied d services h').
Proof.
  unfold applyServiceEndpoints. cbv zeta. fold (wanted_names services). rewrite wp_bind_res.
  apply (wp_for_each_all _ _ _ _ h h (λ s, service_applied ns (own_service (service_owner d) s)));
    [intros s; apply service_applied_mono|done| |].
  { intros s h1 Hs _. apply (apply_endpoint_wp s h1 (λ h' r, r = Ok tt → endpoints_applied d services h')); done. }
  intros h1 _ Happlied. rewrite wp_bind, wp_call. split; [done|]. intros [aliases|e] _; [|done].
  match goal with |- wp _ _ _ ?h' _ => set (hl := h') end.
  assert (Event _ (KList KService ns (aliasOfLabel +:+ "=" +:+ Name d)) (Ok (aliases : list Service)) ∈ hl)
    as Hl by (by left).
  apply (wp_for_each_all _ _ _ _ hl hl (λ n h', n ∉ wanted_names services → service_gone ns n h')).
  - intros n h2 h3 Hs Hgone Hn. eapply service_gone_mono; eauto.
  - done.
  - intros n h2 Hn Hs. apply (remove_stale_wp n h2 (λ h' r, r = Ok tt → endpoints_applied d services h'));
      [|done]. intros Hw. split_and!; [done..|].
    apply elem_of_app in Hn as [[->|[->|Hn]%elem_of_cons]%elem_of_cons|Hn]; [by left|by right; left|set_solver|].
    right; right. apply list_elem_of_fmap in Hn as (a & -> & Ha). exists aliases, a. eauto.
  - intros h2 Hs2 Hgone _. split.
    + intros s Hs. eapply service_applied_mono; [|by apply Happlied].
      etrans; [|exact Hs2]. by apply suffix_cons_r.
    + exists aliases. split; [eauto|]. intros n Hn Hw. apply Hgone; [|done].
      rewrite elem_of_app. set_solver.
Qed.
End endpoints.

(** The Services that are read belong to the service. *)
Definition reads_own (d : Deployment) : rely (cmd := cmd) := λ _ X c,
  match c in cmd X return X → Prop with
  | KGet k _ _ =>
      match k return res (obj k) → Prop with
      | KService => λ r, ∀ existing : Service, r = Ok existing → belongs_to d existing
      | _ => λ _, True
      end
  | _ => λ _, True
  end.

(** A wanted Service was stored, as a new one or in place of the one that was there. *)
Definition stored_for (d : Deployment) (wanted : Service) (h : hist) : Prop :=
  ∃ o stored : Service, made_for d wanted o ∧
    ((Svc_Spec o = Svc_Spec wanted ∧ Event _ (KCreate KService (Namespace d) (o : obj KService)) (Ok stored) ∈ h) ∨
     ∃ existing : Service, Event _ (KGet KService (Namespace d) (Name (svc_meta wanted))) (Ok existing) ∈ h ∧
       keeps existing wanted o ∧ Event _ (KUpdate KService (Namespace d) (o : obj KService)) (Ok stored) ∈ h).

(** Every wanted Service was stored, and the others that the service had are gone. *)
Definition endpoints_converged (d : Deployment) (services : list Service) (h : hist) : Prop :=
  (∀ s, s ∈ services → stored_for d s h) ∧
  ∃ aliases : list Service, Event _ (KList KService (Namespace d) ("dink.io/alias-of=" +:+ Name d)) (Ok aliases) ∈ h ∧
    ∀ n, n ∈ [Name d; publishedPortsServiceName (Name d)] ∨ (∃ a, a ∈ aliases ∧ n = Name (svc_meta a)) →
      (∀ s, s ∈ services → Name (svc_meta s) ≠ n) → service_gone (Namespace d) n h.

Lemma endpoints_applied_converged d services h : endpoints_applied d services h → endpoints_converged d services h.
Proof.
  intros (Hall & aliases & Hl & Hgone). split.
  - intros s (stored & [Hc|(existing & Hg & Hu)])%Hall.
    + eexists _, stored. split; [apply own_service_made|]. left. by split; [|exact Hc].
    + eexists _, stored. split; [apply (replace_service_made d existing)|]. right. exists existing.
      split_and!; [exact Hg|apply replace_service_keeps|exact Hu].
  - exists aliases. split; [exact Hl|]. intros n Hn Hother. apply Hgone.
    + unfold wanted_names.
      destruct Hn as [Hn|(a & Ha & ->)]; [set_solver|]. do 2 right. apply list_elem_of_fmap. by exists a.
    + intros (s & -> & Hs)%list_elem_of_fmap. by apply (Hother s).
Qed.

(** C35: the Services of a service converge to its spec.  Suppose that the Services read under
    the wanted names are the service's own.  Then [applyServiceEndpoints] creates a wanted
    Service directly after it was not found, and replaces it directly after it was read, at
    the version read, keeping its cluster address and, if its ports have different numbers,
    the node port of every number; it deletes only the address, the published ports and the
    recorded aliases of the service, none of them wanted; and it succeeds only when every
    wanted Service was stored, with the service as its only owner, and every other one of
    those is gone. *)
Theorem service_endpoints_converge d services h h' r :
  exec (applyServiceEndpoints d services) h h' r → answered (reads_own d) h h' →
  guarded (endpoint_requests (belongs_to d) d services) h h' ∧
  (r = Ok tt → endpoints_converged d services h').
Proof.
  intros Hex Hans. apply and_comm.
  eapply (wp_exec (reads_own d) _ _ _ _ _ (λ h' r, r = Ok tt → endpoints_converged d services h')); [|exact Hex|exact Hans].
  eapply wp_post; [|apply (applyServiceEndpoints_wp d services (reads_own d) (belongs_to d))].
  - intros h1 r1 Happlied Hok. by apply endpoints_applied_converged, Happlied.
  - intros h1 ns n existing Hread. by apply Hread.
Qed.

(** Node ports are kept by port number alone: a service that publishes a port for TCP
    and for UDP loses the node port of one of them at its next update. *)
Example node_port_moved :
  let port := λ protocol node, {| SP_Name := ""; SP_Port := 53; SP_TargetPort := 53;
                                  SP_Protocol := protocol; SP_NodePort := node |} in
  let spec := λ ports, {| ServiceType := ServiceTypeLoadBalancer; Svc_Selector := ∅; Svc_Ports := ports;
                          ClusterIP := "" |} in
  Svc_Ports (retainNodePorts (spec [port "TCP" 0%Z; port "UDP" 0%Z]) (spec [port "TCP" 30001%Z; port "UDP" 30002%Z])) =
  [port "TCP" 30002%Z; port "UDP" 30002%Z].
Proof. reflexivity. Qed.

(** ** What is known when the objects of a service are assembled *)

(** No workload is written. *)
Definition no_workload_write : cmd_test := λ X c,
  match c with
  | KCreate k _ _ | KUpdate k _ _ | KDelete k _ _ _ => negb (bool_decide (k ∈ [KDeployment; KJob]))
  | _ => true
  end.

Lemma unguarded_no_workload_write {A} (p : proc A) : only unguarded p → only no_workload_write p.
Proof. apply only_mono. intros X c. destruct c; try done; by destruct k. Qed.

Lemma no_workload_write_no_create {A} (p : proc A) : only no_workload_write p → only no_create p.
Proof. apply only_mono. intros X c. destruct c; try done; by destruct k. Qed.

Section assembly.
Context `{Unicode} `{Regexp} `{MapJSON} `{Validation} `{Quantities} `{DockerJSON}.
Context `{NetworkOrder} `{ConfigMapKeys} `{ProviderOrder} `{PortParser} `{PullSecretCodec}.
Context `{ServiceCodec} `{PortOrder}.

Definition parts_for (settings : docker_settings) (ns : string) (spec : SwarmServiceSpec)
    (b : service_parts) (h : hist) : Prop :=
  serviceReplicas (ss_Mode spec) = Ok (bs_replicas b) ∧
  podMetadata [ss_Labels spec; cs_Labels (bs_container b)] = Ok (bs_meta b) ∧
  (∃ digest, bs_image b = pullHost settings +:+ "/" +:+ ns +:+ "/" +:+ digest) ∧
  memberships ns (service_networks spec (hasIngressPorts (bs_ports b))) (bs_networks b) h ∧
  (∃ warnings, servicePorts (ss_EndpointSpec spec) = Ok (bs_ports b, warnings)) ∧
  serviceAliases spec = Ok (bs_aliases b) ∧ (ss_Name spec ∉ bs_aliases b) ∧
  Marshal_service spec = Some (bs_spec b).

Lemma podImage_wp R host ns name h :
  wp R any_command (podImage host ns name) h (λ _ r,
    match r with Ok (image, _) => ∃ digest, image = host +:+ "/" +:+ ns +:+ "/" +:+ digest | Err _ => True end).
Proof.
  unfold podImage. rewrite wp_bind_res, wp_call. split; [done|].
  intros [[[|digest digests] config]|e] _; [done| |done]. rewrite wp_ret. by exists digest.
Qed.

Lemma serviceImage_wp R settings ns name auth h :
  wp R any_command (serviceImage settings ns name auth) h (λ _ r,
    match r with
    | Ok (image, _) => ∃ digest, image = pullHost settings +:+ "/" +:+ ns +:+ "/" +:+ digest
    | Err _ => True
    end).
Proof.
  unfold serviceImage. rewrite wp_bind. eapply wp_post; [|apply podImage_wp].
  intros h1 [[image config]|e] Hi; [by rewrite wp_ret|]. destruct (negb _); [done|].
  destruct (ParseRelative name) as [ref|]; [|done]. apply wp_then; [|done].
  intros h2 _. apply podImage_wp.
Qed.

Lemma serviceNetworkLabels_wp id spec published h :
  wp any_answer any_command (serviceNetworkLabels (Some id) spec published) h (λ h' r,
    match r with
    | Ok labels => memberships (id_namespace id) (service_networks spec published) labels h'
    | Err _ => True
    end).
Proof. apply (membership_labels_wp id []), memberships_empty. Qed.

Lemma gather_service_wp settings id spec auth h :
  wp any_answer any_command (gather_service settings (Some id) (id_namespace id) spec auth) h (λ h' r,
    match r with Ok b => parts_for settings (id_namespace id) spec b h' | Err _ => True end).
Proof.
  unfold gather_service. apply wp_ret_res; [intros _ _|done]. apply wp_ret_res; [intros replicas Hreplicas|done].
  destruct (ts_ContainerSpec (ss_TaskTemplate spec)) as [c|] eqn:Ec; [|done].
  apply wp_ret_res; [intros podMeta Hmeta|done]. destruct (negb _); [done|].
  apply wp_then; [intros h1 env|done]. rewrite wp_bind_res. eapply wp_post; [|apply serviceImage_wp].
  intros h2 [[image config]|e]; [|done]. intros Himage.
  apply wp_then; [intros h3 _|done]. apply wp_then; [intros h4 _|done].
  apply wp_then; [intros h5 [volumes mounts]|done]. apply wp_ret_res; [intros r0 _|done].
  apply wp_then; [intros h6 defaults|done]. apply wp_ret_res; [intros r1 _|done]. cbv zeta.
  apply wp_ret_res; [intros [probe pw] _|done]. apply wp_ret_res; [intros [ports portw] Hports|done].
  rewrite wp_bind_res. eapply wp_post; [|apply serviceNetworkLabels_wp].
  intros h7 [networks|e]; [|done]. intros Hnet. apply wp_ret_res; [intros aliases Haliases|done].
  unfold slices_Contains. destruct (bool_decide_reflect (ss_Name spec ∈ aliases)); [done|].
  destruct (Marshal_service spec) as [encoded|] eqn:Em; [|done]. rewrite wp_ret.
  unfold parts_for. cbn. by split_and!; [..|by exists portw| | |].
Qed.

(** ** The requests of the steps *)

Lemma only_ensurePullSecret (b : cmd_test) host ns :
  (∀ m, b _ (MuLock m) = true) → (∀ m, b _ (MuUnlock m) = true) →
  (∀ X (c : cmd X), unguarded X c = true → b X c = true) → only b (ensurePullSecret host ns).
Proof.
  intros Hl Hu Hb. unfold ensurePullSecret, with_mutex. apply only_bind; [by apply only_call|]. intros _.
  apply only_defer; [by apply only_call|]. apply (only_mono unguarded); [done|]. only_auto;
    apply only_store_pull_credential.
Qed.

Lemma only_volume_mounts ctx index mounts : only unguarded (volume_mounts ctx index mounts).
Proof.
  revert index. induction mounts as [|m mounts IH]; intros index; cbn [volume_mounts]; [apply only_ret|].
  apply only_bind_res; [|intros; apply only_bind_res; [apply IH|only_auto]].
  unfold service_mount. cbv zeta. destruct (negb _); [only_auto|]. destruct (decide _).
  - destruct (match DriverConfig _ with Some d => d | None => _ end) as [driver opts].
    apply only_bind_res; [apply only_ensureContainerVolume|only_auto].
  - only_auto.
Qed.

Lemma only_networkMembershipLabels ctx names : only unguarded (networkMembershipLabels ctx names).
Proof.
  unfold networkMembershipLabels. generalize (∅ : smap).
  induction names as [|name names IH]; intros labels; cbn [membership_labels]; [only_auto|].
  apply only_bind_res; [|intros; apply IH]. unfold findNetwork.
  destruct (is_builtin name); [only_auto|]. apply only_bind_res; [|only_auto].
  apply only_bind_res; [apply only_networkList|only_auto].
Qed.

Lemma only_gather_service settings ctx ns spec auth :
  only no_workload_write (gather_service settings ctx ns spec auth).
Proof.
  unfold gather_service, serviceImage, podImage, serviceMounts, tenantResourceDefaults, ret_res.
  repeat first [ apply only_ensurePullSecret; [done..|]; intros X0 c0; by destruct c0; try destruct k
    | apply unguarded_no_workload_write; first [apply only_resolveEnv | apply only_ensureNamespaceIsolation
        | apply only_networkMembershipLabels | apply only_volume_mounts]
    | only_step ].
Qed.

Lemma only_buildService settings ctx ns spec auth :
  only no_workload_write (buildService settings ctx ns spec auth).
Proof.
  unfold buildService. apply only_bind_res; [apply only_gather_service|]. intros b. apply only_ret.
Qed.

Lemma only_applyServiceEndpoints d services : only no_workload_write (applyServiceEndpoints d services).
Proof. unfold applyServiceEndpoints, apply_endpoint, remove_stale. only_auto. Qed.

Lemma only_applyServicePolicies d : only no_workload_write (applyServicePolicies d).
Proof. apply unguarded_no_workload_write, only_applyPublishedPortsPolicy. Qed.

Lemma only_storeEnv ns name env owner : only no_workload_write (applyEnvSecret ns name env owner).
Proof. apply unguarded_no_workload_write, only_applyEnvSecret. Qed.
End assembly.

(** ** The Deployment of a service *)

(** A node the tenant's Pods may run on, where placement is enabled. *)
Definition tenant_node (placement : NodePlacement) (ns : string) (node : smap) : Prop :=
  IsEnabled placement = true → ns ≠ "" →
  node !! LabelKey placement = None ∨ node !! LabelKey placement = Some ns.

Lemma placed_selector spec placement ns node :
  NodeAffinity spec = None →
  NodeAffinity (applyNodePlacement spec placement ns) ≠ Some [] ∧
  (selector_holds node (NodeAffinity (applyNodePlacement spec placement ns)) ↔ tenant_node placement ns node).
Proof.
  intros Hnone. unfold applyNodePlacement, tenant_node. destruct (IsEnabled placement); cbn [negb orb].
  2: { rewrite Hnone. split; [done|]. by split. }
  destruct (bool_decide_reflect (ns = "")) as [->|Hne].
  { rewrite Hnone. split; [done|]. by split. }
  cbn. split; [done|]. split.
  - intros (term & [-> | ->%list_elem_of_singleton]%elem_of_cons & Hall) _ _.
    + left. apply (Hall _ (list_elem_of_here _ _)).
    + right. apply requirement_in, (Hall _ (list_elem_of_here _ _)).
  - intros Hnode. destruct (Hnode eq_refl Hne) as [Hn|Hn].
    + eexists. split; [by left|]. by intros r ->%list_elem_of_singleton.
    + eexists. split; [right; by left|]. intros r ->%list_elem_of_singleton. by apply requirement_in.
Qed.

Lemma mget_singleton key value : mget {[key := value]} key = value.
Proof. unfold mget. by rewrite lookup_singleton_eq. Qed.

Section deployment.
Context `{Unicode} `{Regexp} `{MapJSON} `{Validation} `{Quantities} `{DockerJSON}.
Context `{NetworkOrder} `{ConfigMapKeys} `{ProviderOrder} `{PortParser} `{PullSecretCodec}.
Context `{ServiceCodec} `{PortOrder}.

(** The Deployment of a service: it runs the replicas that were asked for, its Pods
    carry the labels of the service and of exactly the networks it joins, whatever
    labels the user asked for; their image is pinned in the tenant's repository and
    pulled with the tenant's credential; they run on the tenant's nodes that satisfy
    the constraints. *)
Definition service_confined (settings : docker_settings) (ns : string) (spec : SwarmServiceSpec)
    (d : Deployment) (h : hist) : Prop :=
  let t := dep_Template d in
  Name (dep_meta d) = ss_Name spec ∧ Namespace (dep_meta d) = ns ∧
  Labels (dep_meta d) !! swarmKindLabel = Some swarmServiceKind ∧
  serviceReplicas (ss_Mode spec) = (default (Err ContextError) (Ok <$> Replicas d)) ∧
  Selector d = service_selector (ss_Name spec) ∧ Selector d ⊆ Pod_Labels t ∧
  Pod_Labels t !! managedByLabel = Some managedByDink ∧
  (∃ ports warnings networks, servicePorts (ss_EndpointSpec spec) = Ok (ports, warnings) ∧
     memberships ns (service_networks spec (hasIngressPorts ports)) networks h ∧
     ∀ o, Pod_Labels t !! network_label o = networks !! network_label o) ∧
  (∃ c digest, Containers (Pod_Spec t) = [c] ∧ Ctr_Name c = ss_Name spec ∧
     Ctr_Image c = pullHost settings +:+ "/" +:+ ns +:+ "/" +:+ digest ∧ Ctr_ImagePullPolicy c = PullAlways) ∧
  ImagePullSecrets (Pod_Spec t) = [pullSecretName] ∧ HostNetwork (Pod_Spec t) = false ∧
  ∀ node, selector_holds node (NodeAffinity (Pod_Spec t)) ↔
    tenant_node (nodePlacement settings) ns node ∧
    ∀ p c, ts_Placement (ss_TaskTemplate spec) = Some p → c ∈ Constraints p → constraint_holds node c.

(** The Services of a spec. *)
Definition endpoints_of (ns : string) (spec : SwarmServiceSpec) (services : list Service) : Prop :=
  ∃ ports warnings aliases, servicePorts (ss_EndpointSpec spec) = Ok (ports, warnings) ∧
    serviceAliases spec = Ok aliases ∧ (ss_Name spec ∉ aliases) ∧
    services = serviceEndpointServices ns (ss_Name spec) ports aliases.

(** The environment is that of the Pods, and a change of its values changes them. *)
Definition env_attached (env : SecretEnv) (d : Deployment) : Prop :=
  let t := dep_Template d in
  (∃ c, Containers (Pod_Spec t) = [c] ∧ Ctr_Env c = Vars env) ∧
  (envHash (Values env) ≠ "" → Pod_Annotations t !! envHashAnnotation = Some (envHash (Values env))).

Lemma append_keeps spec requirements :
  Containers (appendNodeSelectorRequirements spec requirements) = Containers spec ∧
  ImagePullSecrets (appendNodeSelectorRequirements spec requirements) = ImagePullSecrets spec ∧
  HostNetwork (appendNodeSelectorRequirements spec requirements) = HostNetwork spec.
Proof. by destruct requirements. Qed.

Lemma service_pod_labels_spec settings ns spec b h :
  parts_for settings ns spec b h →
  let labels := service_pod_labels (ss_Name spec) b in
  service_selector (ss_Name spec) ⊆ labels ∧ labels !! managedByLabel = Some managedByDink ∧
  ∀ o, labels !! network_label o = bs_networks b !! network_label o.
Proof.
  intros (_ & Hmeta & _ & [_ Hnet] & _) labels. unfold labels, service_pod_labels, maps_Copy.
  assert (∀ key, (∀ o, key ≠ network_label o) → bs_networks b !! key = None) as Hnone.
  { intros key Hkey. apply eq_None_not_Some. intros (n & o & _ & _ & ->)%Hnet. by destruct (Hkey o). }
  assert (∀ key, reservedPodMetadataKey key = true → (∀ o, key ≠ network_label o) →
    (meta_Labels (bs_meta b) ∪ (bs_networks b ∪
       <[swarmKindLabel := swarmServiceKind]> (dinkPodLabels (ss_Name spec)))) !! key =
    <[swarmKindLabel := swarmServiceKind]> (dinkPodLabels (ss_Name spec)) !! key) as Hown.
  { intros key Hres Hkey. rewrite (podMetadata_keeps_reserved _ _ _ _ Hmeta) by done.
    by rewrite lookup_union_r by auto. }
  split_and!.
  - apply map_subseteq_spec. intros key value. unfold service_selector. rewrite lookup_insert_Some.
    intros [[<- <-]|[_ [<- <-]%lookup_singleton_Some]]; by rewrite Hown.
  - by rewrite Hown.
  - intros o. rewrite (podMetadata_keeps_reserved _ _ _ _ Hmeta) by apply network_label_reserved.
    rewrite lookup_union. unfold dinkPodLabels. rewrite !lookup_insert_ne by done.
    rewrite lookup_empty. by destruct (bs_networks b !! _).
Qed.

Lemma assembled_env settings ns spec b constraints d :
  service_deployment ns spec b (tpl_set_spec (appendNodeSelectorRequirements
    (applyNodePlacement (Pod_Spec (service_template (ss_Name spec) b)) (nodePlacement settings) ns) constraints)
    (service_template (ss_Name spec) b)) = d →
  env_attached (bs_env b) d.
Proof.
  intros <-. split.
  - exists (service_container (ss_Name spec) b). split; [|done]. cbn [dep_Template service_deployment tpl_set_spec Pod_Spec].
    by rewrite (proj1 (append_keeps _ _)), (proj1 (placed_spec _ _ _)).
  - intros Hne. cbn. unfold service_annotations. rewrite decide_False by done. apply lookup_insert_eq.
Qed.

Lemma assemble_service_spec settings ns spec b h d services env warnings :
  parts_for settings ns spec b h →
  assemble_service settings ns spec b = Ok (d, services, env, warnings) →
  service_confined settings ns spec d h ∧
  endpoints_of ns spec services ∧ env_attached env d ∧
  mget (Annotations (dep_meta d)) swarmSpecAnnotation = bs_spec b.
Proof.
  intros Hb. pose proof Hb as (Hreplicas & _ & [digest Himage] & Hnet & [portw Hports] & Haliases & Hna & _).
  unfold assemble_service. cbv zeta. intros (u & _ & (constraints & Hc & Hd)%result_bind_ok)%result_bind_ok.
  injection Hd as Hd <- <- _. split_and!; [|by eexists _, _, _| |subst d; apply mget_singleton].
  2: { eapply assembled_env, Hd. }
  set (t := service_template (ss_Name spec) b) in *.
  set (placed := applyNodePlacement (Pod_Spec t) (nodePlacement settings) ns) in *.
  assert (Pod_Spec (dep_Template d) = appendNodeSelectorRequirements placed constraints) as Hspec by by subst d.
  destruct (placed_spec (Pod_Spec t) (nodePlacement settings) ns) as (Hctr & Hsecrets & Hhost & _).
  destruct (append_keeps placed constraints) as (Hctr' & Hsecrets' & Hhost').
  destruct (service_pod_labels_spec _ _ _ _ _ Hb) as (Hsel & Hmanaged & Hlabels).
  unfold service_confined. cbv zeta. rewrite Hspec, Hctr', Hsecrets', Hhost'. unfold placed.
  rewrite Hctr, Hsecrets, Hhost. split_and!; try (by subst d).
  - subst d. by exists (bs_ports b), portw, (bs_networks b).
  - by exists (service_container (ss_Name spec) b), digest.
  - intros node. destruct (placed_selector (Pod_Spec t) (nodePlacement settings) ns node) as [Hne Hnode]; [done|].
    rewrite append_selector by exact Hne. rewrite Hnode. apply and_iff_compat_l, requirements_exact, Hc.
Qed.

Lemma buildService_wp settings id spec auth h :
  wp any_answer any_command (buildService settings (Some id) (id_namespace id) spec auth) h (λ h' r,
    match r with
    | Ok (d, services, env, warnings) => ∃ b, parts_for settings (id_namespace id) spec b h' ∧
        assemble_service settings (id_namespace id) spec b = Ok (d, services, env, warnings)
    | Err _ => True
    end).
Proof.
  unfold buildService. rewrite wp_bind_res. eapply wp_post; [|apply gather_service_wp].
  intros h1 [b|e]; [|done]. intros Hb. rewrite wp_ret.
  destruct (assemble_service _ _ _ _) as [[[[d services] env] warnings]|e] eqn:E; [|done]. by exists b.
Qed.

(** *** The spec reads back *)

(** The mode that is reported: replicated, with the number that was asked for. *)
Definition explicit_mode (m : ServiceMode) : ServiceMode := {|
  Replicated := Some (Some (asked_replicas m)); Global := false; ReplicatedJob := false; GlobalJob := false |}.

Lemma reported_explicit m n : serviceReplicas m = Ok n → reported_mode m (Some n) = explicit_mode m.
Proof.
  unfold serviceReplicas, reported_mode, explicit_mode, asked_replicas.
  destruct m as [replicated global rjob gjob]. cbn. destruct global; [done|].
  destruct rjob; [done|]. destruct gjob; [done|]. cbn.
  destruct replicated as [[r|]|]; [done|by intros [= <-]..].
Qed.

Lemma explicit_default m n : serviceReplicas (default_mode m) = Ok n → explicit_mode (default_mode m) = default_mode m.
Proof.
  unfold serviceReplicas, explicit_mode, asked_replicas, default_mode.
  destruct m as [replicated global rjob gjob]. cbn. destruct global; [done|].
  destruct rjob; [done|]. destruct gjob; [done|]. by destruct replicated as [[r|]|].
Qed.

Lemma decode_assembled `{!ServiceCodecLaws} spec encoded (d : Deployment) n :
  Marshal_service spec = Some encoded → serviceReplicas (ss_Mode spec) = Ok n →
  Name (dep_meta d) = ss_Name spec → mget (Annotations (dep_meta d)) swarmSpecAnnotation = encoded →
  Replicas d = Some n →
  decode_service d = Ok (spec_with (ss_Name spec) (explicit_mode (ss_Mode spec)) spec).
Proof.
  intros Hm Hn Hname Ha Hr. unfold decode_service. cbv zeta. change (Annotations d) with (Annotations (dep_meta d)).
  rewrite Ha, decide_False by (intros ->; by apply Marshal_service_nonempty in Hm).
  rewrite (Unmarshal_Marshal_service _ _ Hm). cbn. change (Name d) with (Name (dep_meta d)).
  by rewrite Hname, Hr, (reported_explicit _ _ Hn).
Qed.
End deployment.

(** ** Creating a service *)

(** From [h] on no workload was created, and there is a result, or the Deployment was
    deleted last. *)
Definition or_deleted {A} (ns name : string) (Q : hist → A → Prop) (h h' : hist) (r : res A) : Prop :=
  extended no_create h h' ∧
  match r with
  | Ok a => Q h' a
  | Err _ => ∃ answer h0, h' = Event _ (KDelete KDeployment ns name no_delete_options) answer :: h0 ∧
      h `suffix_of` h0
  end.

Lemma or_deleted_before {A} ns name (Q : hist → A → Prop) h h1 h' r :
  extended no_create h h1 → or_deleted ns name Q h1 h' r → or_deleted ns name Q h h' r.
Proof.
  intros Hx [Hx' Hr]. split; [by eapply extended_trans|]. destruct r as [a|e]; [done|].
  destruct Hr as (answer & h0 & -> & Hs). exists answer, h0. split; [done|].
  etrans; [by eapply extended_suffix|done].
Qed.

Lemma or_delete_wp {A} ns name step (k : proc (res A)) h (P : hist → Prop) (Q : hist → A → Prop) :
  only no_create step → wp any_answer any_command step h (λ h' r, r = Ok tt → P h') →
  (∀ h1, h `suffix_of` h1 → P h1 → wp any_answer any_command k h1 (or_deleted ns name Q h1)) →
  wp any_answer any_command (or_delete ns name step k) h (or_deleted ns name Q h).
Proof.
  intros Hstep Hwp Hk. unfold or_delete. rewrite wp_bind.
  eapply wp_post; [|exact (wp_extended no_create _ _ _ _ _ (wp_both _ _ _ _ _ _ _ Hwp (Hstep h)))].
  intros h1 [[]|e] [[HP _] Hx].
  - eapply wp_post; [intros h2 r; by apply or_deleted_before|]. apply Hk; [by eapply extended_suffix|by apply HP].
  - rewrite wp_bind, wp_call. split; [done|]. intros answer _. rewrite wp_ret.
    split; [by apply extended_cons|]. exists answer, h1. split; [done|]. by eapply extended_suffix.
Qed.

(** What there is when the creation of a service is reported. *)
Definition service_finished (ns : string) (created : Deployment) (services : list Service) (env : SecretEnv)
    (warnings : list string) (h h' : hist) (r : string * list string) : Prop :=
  r = (DockerIDFromUID (UID created), warnings) ∧
  (∃ h0, h `suffix_of` h0 ∧ h0 `suffix_of` h' ∧ env_secret_stored ns env h0) ∧
  endpoints_applied created services h' ∧
  published_applied (Namespace created) (Name created) (service_owner created) (template_ports created) h'.

Lemma applyServicePolicies_wp d h :
  wp any_answer any_command (applyServicePolicies d) h (λ h' r, r = Ok tt →
    published_applied (Namespace d) (Name d) (service_owner d) (template_ports d) h').
Proof. apply applyPublishedPortsPolicy_wp. Qed.

Lemma finish_service_wp ns name created services env warnings h :
  wp any_answer any_command (finish_service ns name created services env warnings) h
    (or_deleted ns (Name created) (service_finished ns created services env warnings h) h).
Proof.
  unfold finish_service. cbv zeta.
  apply (or_delete_wp _ _ _ _ _ (env_secret_stored ns env)).
  { apply no_workload_write_no_create, only_storeEnv. }
  { eapply wp_mono; [| |apply applyEnvSecret_wp]; done. }
  intros h1 Hs1 Henv. apply (or_delete_wp _ _ _ _ _ (endpoints_applied created services)).
  { apply no_workload_write_no_create, only_applyServiceEndpoints. }
  { eapply wp_mono; [| |by apply (applyServiceEndpoints_wp _ _ any_answer (λ _, True))]; done. }
  intros h2 Hs2 Hend. apply (or_delete_wp _ _ _ _ _ (published_applied
    (Namespace created) (Name created) (service_owner created) (template_ports created))).
  { apply no_workload_write_no_create, only_applyServicePolicies. }
  { apply applyServicePolicies_wp. }
  intros h3 Hs3 Hpol. rewrite wp_ret. split; [apply extended_refl|].
  split_and!; [done| | |done].
  - exists h1. split_and!; [done|by etrans|done].
  - by eapply endpoints_applied_mono.
Qed.

(** The Deployment that an event stored. *)
Definition stored_deployment (e : event cmd) : option Deployment :=
  match e with
  | Event X c x =>
      (match c in cmd X return X → option Deployment with
       | KCreate k _ _ =>
           match k return res (obj k) → option Deployment with
           | KDeployment => λ r, match r with Ok d => Some d | Err _ => None end
           | _ => λ _, None
           end
       | _ => λ _, None
       end) x
  end.

(** Every Deployment created since [h] was deleted afterwards. *)
Definition deployments_rolled_back (ns : string) (h h' : hist) : Prop :=
  ∀ after e before d, h' = (after ++ e :: before ++ h)%list → stored_deployment e = Some d →
    ∃ answer, Event _ (KDelete KDeployment ns (Name d) no_delete_options) answer ∈ after.

Lemma stored_deployment_no_create e d :
  stored_deployment e = Some d → no_create (ev_type e) (ev_cmd e) = true → False.
Proof. destruct e as [X c x]. destruct c; try done. by destruct k. Qed.

Lemma rolled_back_none ns h h' : extended no_create h h' → deployments_rolled_back ns h h'.
Proof.
  intros (pre & -> & Hp) after e before d Heq Hd. rewrite app_comm_cons, app_assoc in Heq.
  apply app_inv_tail in Heq as ->. destruct (stored_deployment_no_create e d Hd). apply Hp. set_solver.
Qed.

Lemma rolled_back_refused ns h h1 e :
  extended no_create h h1 → stored_deployment e = None → deployments_rolled_back ns h (e :: h1).
Proof.
  intros Hx Hn [|e0 after] e' before d Heq Hd; simpl in Heq; injection Heq as -> Heq; [congruence|].
  destruct (rolled_back_none ns _ _ Hx after e' before d Heq Hd) as (answer & Hin). exists answer. by right.
Qed.

Lemma app_cons_unique {A} (l1 l2 r1 r2 : list A) x y (P : A → Prop) :
  (l1 ++ x :: r1)%list = (l2 ++ y :: r2)%list → P x →
  (∀ z, z ∈ l2 → ¬ P z) → (∀ z, z ∈ r2 → ¬ P z) → l1 = l2 ∧ x = y.
Proof.
  revert l2. induction l1 as [|z l1 IH]; intros [|z' l2] Heq Hx Hl Hr; simplify_eq/=; [done| | |].
  - destruct (Hl z' (list_elem_of_here _ _) Hx).
  - destruct (Hr x); [set_solver|done].
  - destruct (IH l2) as [-> ->]; [done..|set_solver|done|done].
Qed.

Lemma rolled_back_created ns h h1 h' e d answer h0 :
  extended no_create h h1 → stored_deployment e = Some d → extended no_create (e :: h1) h' →
  h' = Event _ (KDelete KDeployment ns (Name d) no_delete_options) answer :: h0 → e :: h1 `suffix_of` h0 →
  deployments_rolled_back ns h h'.
Proof.
  intros (p1 & -> & Hp1) He (p2 & -> & Hp2) Heq [p0 ->] after e' before d' Heq' He'.
  assert (after = p2 ∧ e' = e) as [-> ->].
  { apply (app_cons_unique _ _ before p1 _ _ (λ x, is_Some (stored_deployment x))).
    - apply (app_inv_tail h). rewrite <- !app_assoc. simpl. by rewrite <- Heq'.
    - by eexists.
    - intros z Hz [dz Hdz]. destruct (stored_deployment_no_create z dz Hdz). auto.
    - intros z Hz [dz Hdz]. destruct (stored_deployment_no_create z dz Hdz). auto. }
  assert (d' = d) as -> by congruence. exists answer.
  apply (app_inv_tail ((e :: p1) ++ h)%list p2 (_ :: p0)) in Heq as ->. by left.
Qed.

Section creation.
Context `{Unicode} `{Regexp} `{MapJSON} `{Validation} `{Quantities} `{DockerJSON}.
Context `{NetworkOrder} `{ConfigMapKeys} `{ProviderOrder} `{PortParser} `{PullSecretCodec}.
Context `{ServiceCodec} `{PortOrder}.

(** A service that is reported: its Deployment was stored, and then its Secret, its
    Services and its policy. *)
Definition service_created (settings : docker_settings) (ns : string) (spec : SwarmServiceSpec)
    (h' : hist) (r : string * list string) : Prop :=
  ∃ (d created : Deployment) services env h1,
    service_confined settings ns spec d h' ∧ endpoints_of ns spec services ∧ env_attached env d ∧
    Event _ (KCreate KDeployment ns (d : obj KDeployment)) (Ok created) :: h1 `suffix_of` h' ∧
    service_finished ns created services env r.2
      (Event _ (KCreate KDeployment ns (d : obj KDeployment)) (Ok created) :: h1) h' r.

(** The spec that is translated: named, and with the defaults. *)
Definition created_spec (spec spec' : SwarmServiceSpec) : Prop :=
  ∃ name, spec' = insertServiceDefaults (spec_with name (ss_Mode spec) spec) ∧
    (ss_Name spec ≠ "" → name = ss_Name spec).

Definition creation_outcome (settings : docker_settings) (ns : string) (spec : SwarmServiceSpec) (h h' : hist)
    (r : res (string * list string)) : Prop :=
  match r with
  | Ok a => ∃ spec', created_spec spec spec' ∧ service_created settings ns spec' h' a
  | Err _ => deployments_rolled_back ns h h'
  end.

Lemma service_confined_mono settings ns spec d h h' :
  h `suffix_of` h' → service_confined settings ns spec d h → service_confined settings ns spec d h'.
Proof.
  intros Hs (? & ? & ? & ? & ? & ? & ? & (ports & w & networks & ? & ? & ?) & Hrest).
  do 7 (split; [done|]). split; [|exact Hrest]. exists ports, w, networks. split_and!; [done| |done].
  by eapply memberships_mono.
Qed.

(** From the translated spec to the response. *)
Lemma create_built_wp settings id spec auth h0 h :
  extended no_create h0 h →
  wp any_answer any_command
    (do? '(deployment, services, env, warnings) <- buildService settings (Some id) (id_namespace id) spec auth;
     do created <- call (KCreate KDeployment (id_namespace id) (deployment : obj KDeployment));
     match created with
     | Err e => Ret (Err (kubeError e))
     | Ok created => finish_service (id_namespace id) (ss_Name spec) created services env warnings
     end) h
    (λ h' r, match r with
             | Ok a => service_created settings (id_namespace id) spec h' a
             | Err _ => deployments_rolled_back (id_namespace id) h0 h'
             end).
Proof.
  intros Hx0. rewrite wp_bind_res.
  eapply wp_post; [|exact (wp_extended no_create _ _ _ _ _ (wp_both _ _ _ _ _ _ _
    (buildService_wp settings id spec auth h)
    (no_workload_write_no_create _ (only_buildService settings (Some id) (id_namespace id) spec auth) h)))].
  intros h1 [[[[d services] env] warnings]|e] [[Hb _] Hx];
    (assert (extended no_create h0 h1) as Hx1 by (by eapply extended_trans)); [|by apply rolled_back_none].
  destruct Hb as (b & Hb & Ha). destruct (assemble_service_spec _ _ _ _ _ _ _ _ _ Hb Ha) as (Hd & Hend & Henv & _).
  rewrite wp_bind, wp_call. split; [done|]. intros [created|e] _.
  - match goal with |- wp _ _ _ (?x :: _) _ => set (ev := x) end.
    eapply wp_post; [|apply finish_service_wp]. intros h2 [a|e] [Hx2 Hr].
    + exists d, created, services, env, h1. pose proof (extended_suffix _ _ _ Hx2) as Hs.
      split_and!; [|done..|]; [|by destruct Hr as [-> Hr]; split].
      eapply service_confined_mono; [|exact Hd]. etrans; [|exact Hs]. by apply suffix_cons_r.
    + destruct Hr as (answer & h3 & Heq & Hs).
      by eapply (rolled_back_created _ h0 h1 h2 ev created answer h3).
  - rewrite wp_ret. by apply rolled_back_refused.
Qed.

Lemma CreateService_wp settings id spec auth h :
  wp any_answer any_command (CreateService settings (Some id) spec auth) h
    (creation_outcome settings (id_namespace id) spec h).
Proof.
  unfold CreateService. rewrite wp_bind. eapply (wp_post _ _ _ _ (λ h' name,
    extended no_create h h' ∧ (ss_Name spec ≠ "" → name = ss_Name spec))).
  - intros h1 name [Hx Hname]. destruct (DecodeAuth auth) as [a|]; [|by apply rolled_back_none].
    cbn [swarm_namespace]. cbv zeta.
    eapply wp_post; [|apply (create_built_wp settings id
      (insertServiceDefaults (spec_with name (ss_Mode spec) spec)) a h h1 Hx)].
    intros h2 [r|e] Hr; [|exact Hr]. eexists. split; [|exact Hr]. by exists name.
  - destruct (decide (ss_Name spec = "")) as [He|He].
    + rewrite wp_call. split; [done|]. intros name _. split; [by apply extended_cons, extended_refl|done].
    + rewrite wp_ret. split; [apply extended_refl|done].
Qed.

(** a created service is confined to its tenant and complete.  When
    [CreateService] reports a service, its Deployment was stored in the namespace of
    the identity under its name, with the replicas that were asked for; its Pods carry
    the labels of the service and of exactly the networks it joins (each a predefined
    one or the tenant's only match of the name), which the user's labels cannot forge;
    they run an image of the tenant's repository pinned by digest and pulled with the
    tenant's credential, on the nodes of the tenant that satisfy every constraint; and
    afterwards the resolved values of its environment, its Services and the policy of
    its published ports were stored. *)
Theorem created_service_is_confined settings id spec auth h h' a :
  exec (CreateService settings (Some id) spec auth) h h' (Ok a) →
  ∃ spec', created_spec spec spec' ∧ service_created settings (id_namespace id) spec' h' a.
Proof.
  intros Hex. refine (proj1 (wp_exec _ _ _ _ _ _ _ (CreateService_wp settings id spec auth h) Hex _)).
  apply along_any; [done|]. by eapply exec_suffix.
Qed.

(** a failed creation leaves no Deployment behind.  When [CreateService] fails,
    a deletion of every Deployment that it stored was requested afterwards; without an
    identity nothing is stored at all. *)
Theorem failed_service_is_rolled_back settings spec auth :
  (∀ id h h' e, exec (CreateService settings (Some id) spec auth) h h' (Err e) →
     deployments_rolled_back (id_namespace id) h h') ∧
  (∀ h h' r, exec (CreateService settings None spec auth) h h' r →
     extended no_workload_write h h' ∧ ∃ e, r = Err e).
Proof.
  split.
  - intros id h h' e Hex.
    refine (proj1 (wp_exec _ _ _ _ _ _ _ (CreateService_wp settings id spec auth h) Hex _)).
    apply along_any; [done|]. by eapply exec_suffix.
  - intros h h' r Hex. unfold CreateService in Hex. apply exec_bind in Hex as (h1 & name & Hname & Hex).
    assert (h' = h1 ∧ ∃ e, r = Err e) as [-> ?].
    { destruct (DecodeAuth auth); apply exec_inv in Hex as [-> ->]; eauto. }
    split; [|done]. destruct (decide _).
    + apply exec_inv in Hname as (x & Hx). apply exec_inv in Hx as [-> ->]. by apply extended_cons, extended_refl.
    + apply exec_inv in Hname as [-> ->]. apply extended_refl.
Qed.

(** C36: the spec of a service reads back.  Whatever the server sets besides, a
    Deployment that keeps the name, the annotations and the replicas built for a spec
    decodes to that spec with its number of replicas made explicit; the spec that
    creation stores, with its defaults, decodes to itself. *)
Theorem service_spec_roundtrip `{!ServiceCodecLaws} settings id spec auth h h' d services env warnings (d' : Deployment) :
  exec (buildService settings (Some id) (id_namespace id) spec auth) h h' (Ok (d, services, env, warnings)) →
  Name (dep_meta d') = Name (dep_meta d) → Annotations (dep_meta d') = Annotations (dep_meta d) →
  Replicas d' = Replicas d →
  decode_service d' = Ok (spec_with (ss_Name spec) (explicit_mode (ss_Mode spec)) spec) ∧
  (∀ spec0, spec = insertServiceDefaults spec0 → decode_service d' = Ok spec).
Proof.
  intros Hex Hname Hann Hrep.
  destruct (wp_exec _ _ _ _ _ _ _ (buildService_wp settings id spec auth h) Hex) as [(b & Hb & Ha) _];
    [apply along_any; [done|]; by eapply exec_suffix|].
  destruct (assemble_service_spec _ _ _ _ _ _ _ _ _ Hb Ha) as ((Hd & _ & _ & Hr & _) & _ & _ & Hspec).
  rewrite <- Hrep in Hr. destruct (Replicas d') as [n|] eqn:En; cbn in Hr.
  2: { by destruct Hb as [Hn _]; rewrite Hr in Hn. }
  destruct Hb as (_ & _ & _ & _ & _ & _ & _ & Hm).
  assert (decode_service d' = Ok (spec_with (ss_Name spec) (explicit_mode (ss_Mode spec)) spec)) as Hdec.
  { apply (decode_assembled _ (bs_spec b) _ n); [done..|by rewrite Hname|by rewrite Hann|exact En]. }
  split; [done|]. intros spec0 ->. rewrite Hdec. f_equal.
  cbn [ss_Mode insertServiceDefaults] in Hr |- *. by rewrite (explicit_default _ _ Hr).
Qed.
End creation.

(** ** Updating and removing a service *)

(** The Deployment of the service of a name or an identifier. *)
Abbreviation service_found ns n d h := (swarm_found (k := KDeployment) ns swarmServiceKind n d h).

(** What an update may request: no workload is created or deleted, and the only one
    that is written is the Deployment that was found, at the version the client saw. *)
Definition update_requests (ns idOrName : string) (version : N) : guard (cmd := cmd) := λ h X c,
  match c with
  | KCreate k _ _ | KDelete k _ _ _ => k ≠ KDeployment ∧ k ≠ KJob
  | KUpdate k ns' o =>
      match k return obj k → Prop with
      | KDeployment => λ o, ns' = ns ∧ ResourceVersion (dep_meta o) = resourceVersionFor version ∧
          ∃ current : Deployment, service_found ns idOrName current h ∧
            Name (dep_meta o) = Name (dep_meta current) ∧ Namespace (dep_meta o) = ns
      | KJob => λ _, False
      | _ => λ _, True
      end o
  | _ => True
  end.

Lemma no_workload_update ns n version h X (c : cmd X) :
  no_workload_write X c = true → update_requests ns n version h X c.
Proof. destruct c; try done; by destruct k. Qed.

Lemma wp_quiet {A} (p : proc A) (G : guard (cmd := cmd)) h Q :
  only no_workload_write p → (∀ h X (c : cmd X), no_workload_write X c = true → G h X c) →
  wp any_answer any_command p h Q →
  wp api_rely G p h (λ h' a, Q h' a ∧ h `suffix_of` h').
Proof.
  intros Hp HG Hwp. apply (wp_rely any_answer); [done|]. apply wp_suffix.
  eapply wp_mono; [| |exact (wp_both _ _ _ _ _ _ _ Hwp (Hp h))]; [|by intros ? ? [? _]].
  intros h' X c [_ Hc]. by apply HG.
Qed.

Lemma swarm_found_mono ns n (o : Deployment) h h' :
  h `suffix_of` h' → service_found ns n o h → service_found ns n o h'.
Proof.
  intros Hs (Hne & Hns & Hseen & Hor). split_and!; [done..|by eapply swarm_seen_suffix|].
  destruct Hor as [?|(l & Hl & Hf)]; [by left|]. right. exists l. split; [|done]. by eapply suffix_elem.
Qed.

Section updating.
Context `{Unicode} `{Regexp} `{MapJSON} `{Validation} `{Quantities} `{DockerJSON}.
Context `{NetworkOrder} `{ConfigMapKeys} `{ProviderOrder} `{PortParser} `{PullSecretCodec}.
Context `{ServiceCodec} `{PortOrder}.

(** When the values of the environment were stored: before the rollout, but with no
    value left only after it. *)
Definition env_ordered (ns : string) (env : SecretEnv) (h before after h' : hist) : Prop :=
  if decide (Values env = ∅)
  then ∃ h2, after `suffix_of` h2 ∧ h2 `suffix_of` h' ∧ env_secret_stored ns env h2
  else ∃ h2, h `suffix_of` h2 ∧ h2 `suffix_of` before ∧ env_secret_stored ns env h2.

Definition update_finished (ns : string) (version : N) (d : Deployment) (services : list Service)
    (env : SecretEnv) (h h' : hist) : Prop :=
  ∃ (updated : Deployment) h1,
    let ev := Event _ (KUpdate KDeployment ns (dep_set_rv (resourceVersionFor version) d : obj KDeployment))
                (Ok updated) in
    ev :: h1 `suffix_of` h' ∧ env_ordered ns env h h1 (ev :: h1) h' ∧
    endpoints_applied updated services h' ∧
    published_applied (Namespace updated) (Name updated) (service_owner updated) (template_ports updated) h'.

Lemma update_built_wp ns n version (current d : Deployment) services env warnings h :
  service_found ns n current h →
  Name (dep_meta d) = Name (dep_meta current) → Namespace (dep_meta d) = ns →
  wp api_rely (update_requests ns n version)
    (update_built ns (Name current) version current d services env warnings) h
    (λ h' r, match r with
             | Ok w => w = warnings ∧ update_finished ns version d services env h h'
             | Err _ => True
             end).
Proof.
  intros Hfound Hname Hns. unfold update_built. cbv zeta.
  set (store := applyEnvSecret ns (Name current) env _).
  assert (∀ h, wp api_rely (update_requests ns n version) store h
    (λ h' r, (r = Ok tt → env_secret_stored ns env h') ∧ h `suffix_of` h')) as Hstore.
  { intros h'. apply wp_quiet; [apply only_storeEnv|by apply no_workload_update|].
    eapply wp_mono; [| |apply applyEnvSecret_wp]; done. }
  assert (∀ (b : bool) h, wp api_rely (update_requests ns n version) (if b then store else Ret (Ok tt)) h
    (λ h' r, (r = Ok tt → b = true → env_secret_stored ns env h') ∧ h `suffix_of` h')) as Hmaybe.
  { intros [] h'; [eapply wp_post; [|apply Hstore]|by rewrite wp_ret]. intros h2 r [Hr ?]. auto. }
  set (unneeded := bool_decide (Values env = ∅)).
  replace (if unneeded then Ret (Ok tt) else store) with (if negb unneeded then store else Ret (cmd := cmd) (Ok tt))
    by (by destruct unneeded).
  rewrite wp_bind_res. eapply wp_post; [|apply (Hmaybe (negb unneeded))].
  intros h1 [[]|e]; [|done]. intros [Hbefore Hs1]. rewrite wp_bind, wp_call. split.
  { split_and!; [done..|]. exists current. split_and!; [by eapply swarm_found_mono|done..]. }
  intros [updated|e] _; [|done].
  match goal with |- wp _ _ _ (?x :: _) _ => set (ev := x) end.
  rewrite wp_bind_res. eapply wp_post; [|apply (Hmaybe unneeded)].
  intros h2 [[]|e]; [|done]. intros [Hafter Hs2]. rewrite wp_bind_res.
  eapply wp_post; [|apply (wp_quiet _ _ _ (λ h' r, r = Ok tt → endpoints_applied updated services h'));
    [apply only_applyServiceEndpoints|by apply no_workload_update|
     by eapply wp_mono; [| |by apply (applyServiceEndpoints_wp _ _ any_answer (λ _, True))]]].
  intros h3 [[]|e]; [|done]. intros [Hend Hs3]. rewrite wp_bind_res.
  eapply wp_post; [|apply (wp_quiet _ _ _ (λ h' r, r = Ok tt → published_applied (Namespace updated)
      (Name updated) (service_owner updated) (template_ports updated) h'));
    [apply only_applyServicePolicies|by apply no_workload_update|apply applyServicePolicies_wp]].
  intros h4 [[]|e]; [|done]. intros [Hpol Hs4]. rewrite wp_ret. split; [done|]. exists updated, h1.
  split_and!; [by do 2 (etrans; [done|])| | |by apply Hpol].
  - unfold env_ordered. unfold unneeded in Hbefore, Hafter. destruct (decide (Values env = ∅)) as [Hv|Hv].
    + rewrite bool_decide_true in Hafter by done. exists h2. split_and!; [done|by etrans|by apply Hafter].
    + rewrite bool_decide_false in Hbefore by done. exists h1. split_and!; [done..|by apply Hbefore].
  - eapply endpoints_applied_mono; [done|]. by apply Hend.
Qed.

(** What a reported update did. *)
Definition service_updated (settings : docker_settings) (ns idOrName : string) (version : N)
    (spec : SwarmServiceSpec) (h h' : hist) : Prop :=
  ∃ (current d : Deployment) services env h0,
    service_found ns idOrName current h0 ∧ h `suffix_of` h0 ∧
    (ss_Name spec = "" ∨ ss_Name spec = Name (dep_meta current)) ∧
    let spec' := spec_with (Name (dep_meta current)) (ss_Mode spec) spec in
    service_confined settings ns spec' d h0 ∧ endpoints_of ns spec' services ∧ env_attached env d ∧
    update_finished ns version d services env h0 h'.

Lemma UpdateService_wp settings id n version spec rollback auth h :
  wp api_rely (update_requests (id_namespace id) n version)
    (UpdateService settings (Some id) n version spec rollback auth) h (λ h' r,
    match r with
    | Ok _ => service_updated settings (id_namespace id) n version spec h h'
    | Err _ => True
    end).
Proof.
  unfold UpdateService. destruct (negb _); [done|]. destruct (DecodeAuth auth) as [a|]; [|done].
  cbn [swarm_namespace]. rewrite wp_bind_res.
  eapply wp_mono; [| |apply wp_suffix, (find_swarm_wp KDeployment swarmServiceKind id n h)];
    [intros h' X c; by destruct c|].
  intros h1 [current|e]; [|done]. intros [Hfound Hs1].
  destruct (negb _ && negb _) eqn:Erename; [done|]. cbv zeta. rewrite wp_bind_res.
  eapply wp_post; [|apply wp_quiet; [apply only_buildService|by apply no_workload_update|apply buildService_wp]].
  intros h2 [[[[d services] env] warnings]|e] [Hb Hs2]; [|done]. destruct Hb as (b & Hb & Ha).
  destruct (assemble_service_spec _ _ _ _ _ _ _ _ _ Hb Ha) as (Hd & Hend & Henv & _).
  eapply wp_post; [|apply (update_built_wp (id_namespace id) n version current d services env warnings h2)].
  - intros h3 [w|e]; [|done]. intros [_ Hfin]. exists current, d, services, env, h2.
    split_and!; [by eapply swarm_found_mono|by etrans| |done..].
    destruct (decide (ss_Name spec = "")) as [->|Hne]; [by left|]. right.
    rewrite (bool_decide_false (ss_Name spec = "")) in Erename by done. cbn in Erename.
    by destruct (bool_decide_reflect (ss_Name spec = Name current)).
  - by eapply swarm_found_mono.
  - apply Hd.
  - apply Hd.
Qed.

(** The service that is deleted is the one that was found, under its own UID. *)
Definition removal_requests (ns idOrName : string) : guard (cmd := cmd) := λ h X c,
  match c with
  | KDelete k ns' name opts => k = KDeployment ∧ ns' = ns ∧ ∃ current : Deployment,
      service_found ns idOrName current h ∧ name = Name (dep_meta current) ∧
      Precondition_UID opts = Some (UID (dep_meta current))
  | _ => swarm_reads KDeployment ns swarmServiceKind h X c
  end.

Lemma RemoveService_wp id n h :
  wp api_rely (removal_requests (id_namespace id) n) (RemoveService (Some id) n) h (λ h' r,
    r = Ok tt → ∃ name opts (answer : res unit) h0,
      h' = Event _ (KDelete KDeployment (id_namespace id) name opts) answer :: h0 ∧
      match answer with Ok _ => True | Err e => IsNotFound e = true end).
Proof.
  unfold RemoveService. rewrite wp_bind_res.
  eapply wp_mono; [| |apply (find_swarm_wp KDeployment swarmServiceKind id n h)]; [intros h' X c; by destruct c|].
  intros h1 [d|e]; [|done]. intros Hfound. assert (Namespace d = id_namespace id) as Hns by apply Hfound.
  rewrite wp_bind, wp_call, Hns. split; [split_and!; [done..|]; by exists d|].
  intros r _. rewrite wp_ret. intros Hr. eexists _, _, r, h1. split; [reflexivity|].
  destruct r as [|e]; [done|]. by destruct (IsNotFound e).
Qed.

(** an update is one guarded write in its place.  [UpdateService] and
    [RemoveService] write no workload but the Deployment of the service that was
    found under the name or by the identifier: an update replaces it under its own
    name at the version the client echoed, and removal deletes it under its own UID.
    When an update is reported, the stored Deployment is confined like a created one,
    the values its Pods need were stored before it (a Secret that is not needed any
    more is dropped only after it), and its Services and policy were applied
    afterwards. *)
Theorem service_updates_are_guarded settings id n :
  (∀ version spec rollback auth h h' r,
     exec (UpdateService settings (Some id) n version spec rollback auth) h h' r → answered api_rely h h' →
     guarded (update_requests (id_namespace id) n version) h h' ∧
     ∀ warnings, r = Ok warnings → service_updated settings (id_namespace id) n version spec h h') ∧
  (∀ h h' r, exec (RemoveService (Some id) n) h h' r → answered api_rely h h' →
     guarded (removal_requests (id_namespace id) n) h h').
Proof.
  split.
  - intros version spec rollback auth h h' r Hex Hans.
    destruct (wp_exec _ _ _ _ _ _ _ (UpdateService_wp settings id n version spec rollback auth h) Hex Hans)
      as [Hr ?]. split; [done|]. intros w ->. exact Hr.
  - intros h h' r Hex Hans. by destruct (wp_exec _ _ _ _ _ _ _ (RemoveService_wp id n h) Hex Hans).
Qed.
End updating.

(** ** Witnesses *)

(** A service on the network [backend] that publishes its port 80 and has an alias. *)
Definition shop_container : ContainerSpec := {|
  cs_Image := "shop"; cs_Labels := ∅; cs_Command := []; cs_Args := []; cs_Env := ["MODE=x"]; cs_Dir := "";
  cs_TTY := false; cs_OpenStdin := false; cs_Hostname := ""; cs_Hosts := []; cs_DNSConfig := None;
  cs_StopGracePeriod := None; cs_Sysctls := ∅; cs_ReadOnly := false; cs_CapabilityAdd := [];
  cs_CapabilityDrop := []; cs_Healthcheck := None; cs_Mounts := []; cs_Secrets := []; cs_Configs := [];
  cs_User := ""; cs_Groups := []; cs_Privileges := false; cs_Init := false; cs_Isolation := "";
  cs_Ulimits := 0; cs_OomScoreAdj := 0; cs_StopSignal := "" |}.

Definition shop_spec : SwarmServiceSpec := {|
  ss_Name := "shop"; ss_Labels := {["team" := "ops"]};
  ss_TaskTemplate := {|
    ts_Runtime := ""; ts_ContainerSpec := Some shop_container; ts_RestartCondition := None; ts_Resources := None;
    ts_Placement := Some {| Constraints := ["node.role == worker"]; Preferences := 0 |};
    ts_Networks := [{| na_Target := "backend"; na_Aliases := ["www"] |}] |};
  ss_Mode := {| Replicated := None; Global := false; ReplicatedJob := false; GlobalJob := false |};
  ss_UpdateConfig := None; ss_RollbackConfig := false;
  ss_EndpointSpec := Some {| es_Mode := "vip"; es_Ports := [ingress_port 80 8080] |} |}.

(** An encoding of this spec. *)
Definition demo_service_codec : ServiceCodec := {|
  Marshal_service s := if decide (s = insertServiceDefaults shop_spec) then Some "shop" else None;
  Unmarshal_service t := if decide (t = "shop") then Some (insertServiceDefaults shop_spec) else None;
  DecodeAuth s := Some s; ParseRelative s := Some s; ParseAddr s := Some s; sort_configs l := l |}.

Lemma demo_service_codec_laws : @ServiceCodecLaws demo_service_codec.
Proof.
  split; simpl.
  - intros s t. destruct (decide _) as [->|]; [|done]. by intros [= <-].
  - intros s. by destruct (decide _).
  - done.
Qed.

#[local] Existing Instances ascii_unicode demo_map_json demo_validation demo_quantities demo_network_order
  demo_keys demo_provider_order demo_ports demo_pull_codec demo_service_codec demo_port_order
  demo_service_codec_laws.

Definition demo_create_service : proc (res (string * list string)) :=
  CreateService demo_settings (Some acme_identity) shop_spec "".

Definition demo_update_service : proc (res (list string)) :=
  UpdateService demo_settings (Some acme_identity) "shop" 7 (insertServiceDefaults shop_spec) "" "".

(** The cluster after the service was created. *)
Definition shop_cluster : cluster := (simulate demo_create_service network_cluster).2.

(** A Secret of someone else has the name of the Secret of the environment. *)
Definition occupied_secret_cluster : cluster :=
  set_db KSecret [{| secret_meta := new_meta "dink-env-shop" "acme"; Secret_Type := SecretTypeOpaque;
                     Secret_Data := ∅ |}] network_cluster.

Definition shop_deployment : Deployment :=
  default (sample_deployment "acme" "shop" "5a5a" 1) (head (db shop_cluster KDeployment)).

(** The Services that were read, checked one by one. *)
Definition own_read (d : Deployment) (e : event cmd) : bool :=
  match e with
  | Event _ c x =>
      match c in cmd X return X → bool with
      | KGet k _ _ =>
          match k return res (obj k) → bool with
          | KService => λ r, match r with
              | Ok existing => existsb (λ ref, bool_decide (or_Kind ref = "Deployment") &&
                  bool_decide (or_Name ref = Name d) && bool_decide (or_UID ref = UID d))
                  (OwnerReferences (svc_meta (existing : Service)))
              | Err _ => true
              end
          | _ => λ _, true
          end
      | _ => λ _, true
      end x
  end.

Lemma reads_own_answered d h : forallb (own_read d) h = true → answered (reads_own d) [] h.
Proof.
  induction h as [|[X c x] h IH]; [constructor|]. simpl. intros [He Hh]%andb_true_iff.
  constructor; [by apply IH|]. simpl. destruct c; try done. destruct k; try done.
  intros existing ->. apply existsb_true in He as (ref & Hin & Href).
  apply andb_true_iff in Href as [[Hk%bool_decide_eq_true Hn%bool_decide_eq_true]%andb_true_iff Hu%bool_decide_eq_true].
  by exists ref.
Qed.

Lemma created_service_is_confined_witness :
  ∃ spec', created_spec shop_spec spec' ∧
    service_created demo_settings "acme" spec' (simulate demo_create_service network_cluster).1.2 ("", []).
Proof.
  assert ((simulate demo_create_service network_cluster).1.1 = Ok ("", [])) as Ha by (vm_compute; reflexivity).
  apply (created_service_is_confined demo_settings acme_identity shop_spec "" []
    (simulate demo_create_service network_cluster).1.2 ("", [])).
  rewrite <- Ha. apply simulate_exec.
Defined.

Lemma failed_service_is_rolled_back_witness :
  ∃ e, (simulate demo_create_service occupied_secret_cluster).1.1 = Err e ∧
    deployments_rolled_back "acme" [] (simulate demo_create_service occupied_secret_cluster).1.2.
Proof.
  assert (∃ e, (simulate demo_create_service occupied_secret_cluster).1.1 = Err e) as [e He]
    by (vm_compute; eauto).
  exists e. split; [exact He|].
  apply (proj1 (failed_service_is_rolled_back demo_settings shop_spec "") acme_identity [] _ e).
  rewrite <- He. apply simulate_exec.
Defined.

(** The stored Deployment of the service, whatever its status, decodes to the spec. *)
Lemma service_spec_roundtrip_witness :
  let p := buildService demo_settings (Some acme_identity) "acme" (insertServiceDefaults shop_spec) "" in
  ∃ d services env warnings, (simulate p network_cluster).1.1 = Ok (d, services, env, warnings) ∧
    decode_service d = Ok (insertServiceDefaults shop_spec).
Proof.
  intros p.
  assert (is_ok (simulate p network_cluster).1.1 = true) as Hok by (vm_compute; reflexivity).
  destruct (simulate p network_cluster).1.1 as [[[[d services] env] warnings]|] eqn:Hx; [|discriminate Hok].
  exists d, services, env, warnings. split; [reflexivity|].
  refine (proj2 (service_spec_roundtrip demo_settings acme_identity (insertServiceDefaults shop_spec) "" []
    (simulate p network_cluster).1.2 d services env warnings d _ eq_refl eq_refl eq_refl) shop_spec eq_refl).
  rewrite <- Hx. apply simulate_exec.
Defined.

Lemma service_updates_are_guarded_witness :
  guarded (update_requests "acme" "shop" 7) [] (simulate demo_update_service shop_cluster).1.2 ∧
  service_updated demo_settings "acme" "shop" 7 (insertServiceDefaults shop_spec) []
    (simulate demo_update_service shop_cluster).1.2.
Proof.
  assert ((simulate demo_update_service shop_cluster).1.1 = Ok []) as Ha by (vm_compute; reflexivity).
  destruct (proj1 (service_updates_are_guarded demo_settings acme_identity "shop") 7%N
    (insertServiceDefaults shop_spec) "" "" [] (simulate demo_update_service shop_cluster).1.2 (Ok []))
    as [Hg Hr]; [rewrite <- Ha; apply simulate_exec|apply simulate_answered|].
  split; [exact Hg|exact (Hr _ eq_refl)].
Defined.

Lemma service_endpoints_converge_witness :
  let d := shop_deployment in
  let services := serviceEndpointServices "acme" "shop" [] ["www"] in
  let p := applyServiceEndpoints d services in
  (simulate p shop_cluster).1.1 = Ok tt ∧ endpoints_converged d services (simulate p shop_cluster).1.2 ∧
  List.existsb (λ e, match ev_cmd e with KUpdate _ _ _ => true | _ => false end) (simulate p shop_cluster).1.2 = true.
Proof.
  intros d services p.
  assert ((simulate p shop_cluster).1.1 = Ok tt) as Ha by (vm_compute; reflexivity).
  split; [exact Ha|]. split; [|vm_compute; reflexivity].
  refine (proj2 (service_endpoints_converge d services [] (simulate p shop_cluster).1.2 (Ok tt) _ _) eq_refl).
  - rewrite <- Ha. apply simulate_exec.
  - apply reads_own_answered. vm_compute. reflexivity.
Defined.

(** ** Findings *)

(** The DNS Service of a container [www]; nothing marks it as the service's. *)
Definition container_dns : Service := {|
  svc_meta := meta_set_labels {[managedByLabel := managedByDink]} (new_meta "www" "acme");
  Svc_Spec := {| ServiceType := ServiceTypeClusterIP; Svc_Selector := {["app" := "www"]}; Svc_Ports := [];
                 ClusterIP := "10.0.0.9" |} |}.

(** A service with the alias [www] takes it over: it selects the Pods of the service,
    and the service owns it. *)
Example foreign_service_replaced :
  let d := sample_deployment "acme" "shop" "5a5a" 1 in
  let p := applyServiceEndpoints d (serviceEndpointServices "acme" "shop" [] ["www"]) in
  let s := simulate p (set_db KService [container_dns] empty_cluster) in
  result_map (λ _, (λ w, (Svc_Selector (Svc_Spec w) !! "app", or_Name <$> OwnerReferences (svc_meta w))) <$>
    List.find (λ w : Service, bool_decide (Name (svc_meta w) = "www")) (db s.2 KService)) s.1.1 =
  Ok (Some (Some "shop", ["shop"])).
Proof. vm_compute. reflexivity. Qed.

(** A port published twice gives the address two ports with one number and protocol. *)
Example duplicate_service_ports :
  let port := λ published, {| target := 80; published := published; sp_protocol := "TCP"; hostMode := false |} in
  (λ s, (λ p, (SP_Port p, SP_Protocol p)) <$> Svc_Ports (Svc_Spec s)) <$>
    head (serviceEndpointServices "acme" "shop" [port 8080%Z; port 8081%Z] []) =
  Some [(80%Z, "TCP"); (80%Z, "TCP")].
Proof. reflexivity. Qed.

(** A volume mounted at two paths gives the Pod two volumes of one name, and the path
    inside the volume that was asked for is not used. *)
Example duplicate_pod_volumes :
  let m := λ path, {| sm_Mount := {| Mount_Type := "volume"; Mount_Source := "data"; Mount_Target := path;
    Mount_ReadOnly := false; NoCopy := false; Subpath := "sub"; DriverConfig := None |}; TmpfsSize := None |} in
  result_map (λ l, (λ x, (Vol_Name (fst x), SubPath (snd x))) <$> l)
    (simulate (volume_mounts (Some acme_identity) 0 [m "/a"; m "/b"]) volume_cluster).1.1 =
  Ok [("data", ""); ("data", "")].
Proof. vm_compute. reflexivity. Qed.
