(* ===== verification/SwarmTask.v ===== *)
(** * SwarmTask: [swarm_task.go], [swarm_node.go] and the cluster view of [swarm.go]

    The tasks of Swarm are the Pods of its services, its nodes are those of the
    cluster, and its state is that of the cluster. *)

From S2P Require Import Prelude GoStrings Errors Prog Docker Kube Cluster Filters Identity Validation.
From S2P Require Import Discipline Workload Resources Networks Isolation Create Swarm SwarmSpec SwarmService.

Local Open Scope string_scope.

Definition deploymentRevisionAnnotation : string := "deployment.kubernetes.io/revision".
Definition DefaultDeploymentUniqueLabelKey : string := "pod-template-hash".

(** ** [strconv.ParseInt(s, 10, 64)] without its error *)

(** The digits of an unsigned number; one that does not fit 64 bits gives the
    largest, without reading on. *)
Fixpoint scan_digits (n : N) (s : string) : option N :=
  match s with
  | EmptyString => Some n
  | String c s =>
      if negb (is_digit c) then None
      else let n' := (n * 10 + digit_value c)%N in
           if (2 ^ 64 <=? n')%N then Some (2 ^ 64 - 1)%N else scan_digits n' s
  end.

Definition ParseInt_value (s : string) : Z :=
  let '(negative, digits) :=
    match s with
    | String "-" s => (true, s)
    | String "+" s => (false, s)
    | _ => (false, s)
    end in
  match (if decide (digits = "") then None else scan_digits 0 digits) with
  | None => 0
  | Some n => if negative : bool then Z.max int64_min (- Z.of_N n) else Z.min int64_max (Z.of_N n)
  end%Z.

(** ** Tasks *)

Inductive TaskState :=
| TaskStateNew | TaskStatePending | TaskStateStarting | TaskStateRunning
| TaskStateComplete | TaskStateFailed | TaskStateShutdown.

#[export] Instance TaskState_eq_dec : EqDecision TaskState.
Proof. solve_decision. Defined.

(** The text of a state. *)
Definition state_text (s : TaskState) : string :=
  match s with
  | TaskStateNew => "new" | TaskStatePending => "pending" | TaskStateStarting => "starting"
  | TaskStateRunning => "running" | TaskStateComplete => "complete" | TaskStateFailed => "failed"
  | TaskStateShutdown => "shutdown"
  end.

(** The container of a task has an identifier and an exit code. *)
Record TaskStatus := {
  Timestamp : Z;
  State : TaskState;
  Message : string;
  StatusErr : string;
  TaskContainer : option (string * Z)
}.

Record TaskAttachment := {
  ta_ID : string; ta_Name : string; ta_Labels : smap; ta_Driver : string; ta_Addresses : list string
}.

Record Task := {
  tk_ID : string;
  tk_Meta : SwarmMeta;
  tk_Name : string;
  tk_Labels : smap;
  tk_Spec : TaskSpec;
  tk_ServiceID : string;
  Slot : Z;
  NodeID : string;
  tk_Status : TaskStatus;
  DesiredState : TaskState;
  NetworksAttachments : list TaskAttachment
}.

(** The body of the loop of [podTaskStatus]. *)
Definition container_task_status (status : TaskStatus) (c : ContainerStatus) : TaskStatus :=
  let exitCode := default 0%Z (TS_ExitCode <$> CS_Terminated c) in
  let status := match CS_Terminated c with
    | None => status
    | Some terminated =>
        if (TS_ExitCode terminated =? 0)%Z
        then {| Timestamp := TS_FinishedAt terminated; State := State status; Message := Message status;
                StatusErr := StatusErr status; TaskContainer := TaskContainer status |}
        else {| Timestamp := TS_FinishedAt terminated; State := TaskStateFailed; Message := Message status;
                StatusErr := TS_Reason terminated; TaskContainer := TaskContainer status |}
    end in
  let status := match CS_Running c with
    | Some startedAt =>
        {| Timestamp := startedAt; State := State status; Message := Message status;
           StatusErr := StatusErr status; TaskContainer := TaskContainer status |}
    | None => status
    end in
  let status := match CS_Waiting c with
    | None => status
    | Some (message, reason) =>
        {| Timestamp := Timestamp status; State := TaskStateStarting; Message := message;
           StatusErr := reason; TaskContainer := TaskContainer status |}
    end in
  {| Timestamp := Timestamp status; State := State status; Message := Message status;
     StatusErr := StatusErr status;
     TaskContainer := Some (TrimPrefix (CS_ContainerID c) "containerd://", exitCode) |}.

Definition phase_state (phase : string) : TaskState :=
  if decide (phase = "Pending") then TaskStatePending
  else if decide (phase = "Running") then TaskStateRunning
  else if decide (phase = "Succeeded") then TaskStateComplete
  else if decide (phase = "Failed") then TaskStateFailed
  else TaskStateNew.

Definition podTaskStatus (pod : Pod) (containerName : string) : TaskStatus :=
  fold_left (λ status c, if decide (CS_Name c = containerName) then container_task_status status c else status)
    (ContainerStatuses pod)
    {| Timestamp := CreationTimestamp pod; State := phase_state (Phase pod); Message := Pod_Message pod;
       StatusErr := Pod_Reason pod; TaskContainer := None |}.

Definition swarmTask (pod : Pod) (service : SwarmService) (slot : Z) (nodeID : string)
    (attachments : list TaskAttachment) : Task := {|
  tk_ID := DockerIDFromUID (UID pod);
  tk_Meta := swarmMeta (pod_meta pod);
  tk_Name := Name pod;
  tk_Labels := {["com.docker.swarm.service.id" := sv_ID service;
                 "com.docker.swarm.service.name" := ss_Name (sv_Spec service);
                 "com.docker.swarm.node.id" := nodeID]};
  tk_Spec := ss_TaskTemplate (sv_Spec service);
  tk_ServiceID := sv_ID service;
  Slot := slot;
  NodeID := nodeID;
  tk_Status := podTaskStatus pod (ss_Name (sv_Spec service));
  DesiredState := match DeletionTimestamp pod with Some _ => TaskStateShutdown | None => TaskStateRunning end;
  NetworksAttachments := attachments |}.

(** The order of [sort.Slice] by creation. *)
Definition created_before (p q : Pod) : Prop := (CreationTimestamp p ≤ CreationTimestamp q)%Z.
#[export] Instance created_before_dec p q : Decision (created_before p q).
Proof. unfold created_before. apply _. Defined.
Class PodOrder := { sort_created : list Pod → list Pod }.
Class PodOrderLaws `{PodOrder} := {
  sort_created_perm l : sort_created l ≡ₚ l;
  sort_created_sorted l : StronglySorted created_before (sort_created l)
}.

(** [metav1.GetControllerOf] *)
Definition GetControllerOf (m : ObjectMeta) : option OwnerReference :=
  List.find (λ o, match or_Controller o with Some b => b | None => false end) (OwnerReferences m).

(** The body of the loop of [currentTemplateHashes]: the hash of a Deployment's newest
    ReplicaSet so far, and its revision. *)
Definition newer_hash (hashes : gmap string (string * Z)) (rs : ReplicaSet) : gmap string (string * Z) :=
  match GetControllerOf (rs_meta rs) with
  | Some owner =>
      if negb (bool_decide (or_Kind owner = "Deployment")) then hashes
      else
        let revision := ParseInt_value (mget (Annotations (rs_meta rs)) deploymentRevisionAnnotation) in
        let entry := (mget (Labels (rs_meta rs)) DefaultDeploymentUniqueLabelKey, revision) in
        match hashes !! or_Name owner with
        | Some (_, seen) => if (revision <=? seen)%Z then hashes else <[or_Name owner := entry]> hashes
        | None => <[or_Name owner := entry]> hashes
        end
  | None => hashes
  end.

Definition template_hashes (replicaSets : list ReplicaSet) : smap :=
  fst <$> fold_left newer_hash replicaSets ∅.

Definition currentTemplateHashes (namespace : string) : proc (res smap) :=
  do replicaSets <- call (KList KReplicaSet namespace swarmServiceSelector);
  Ret (match replicaSets with
       | Err e => Err (kubeError e)
       | Ok replicaSets => Ok (template_hashes replicaSets)
       end).

Definition nodeIDsByName : proc smap :=
  do nodes <- call (KList KNode "" "");
  Ret (match nodes with
       | Err _ => ∅
       | Ok nodes => list_to_map (rev ((λ n : Node, (Name n, DockerIDFromUID (UID n))) <$> (nodes : list Node)))
       end).

(** The map [byName]: a later service replaces an earlier one. *)
Definition services_by_name (services : list SwarmService) : gmap string SwarmService :=
  list_to_map (rev ((λ s, (ss_Name (sv_Spec s), s)) <$> services)).

Section tasks.
Context `{Unicode} `{ServiceCodec} `{NetworkOrder} `{PodOrder}.

Definition task_attachment (addresses : list string) (network : Network) : TaskAttachment := {|
  ta_ID := nw_ID network; ta_Name := nw_Name network; ta_Labels := nw_Labels network;
  ta_Driver := nw_Driver network; ta_Addresses := addresses |}.

Definition taskNetworkAttachments (pod : Pod) (networks : gmap string Network) : list TaskAttachment :=
  let addresses := match ParseAddr (PodIP pod) with Some address => [address] | None => [] end in
  sort_by ta_Name (task_attachment addresses <$> omap (λ label, networks !! label) (map_to_list (Labels pod)).*1).

(** A Pod that [_up-to-date] leaves out. *)
Definition superseded (hashes : smap) (service : SwarmService) (pod : Pod) : bool :=
  bool_decide (is_Some (DeletionTimestamp pod)) ||
  negb (bool_decide (mget (Labels pod) DefaultDeploymentUniqueLabelKey = mget hashes (ss_Name (sv_Spec service)))).

(** The loop over the Pods; [slots] counts the tasks of each service. *)
Fixpoint service_tasks (byName : gmap string SwarmService) (upToDate : option smap) (nodeIDs : smap)
    (networks : gmap string Network) (slots : gmap string Z) (pods : list Pod) : list Task :=
  match pods with
  | [] => []
  | pod :: pods =>
      match byName !! mget (Labels pod) "app" with
      | None => service_tasks byName upToDate nodeIDs networks slots pods
      | Some service =>
          if match upToDate with Some hashes => superseded hashes service pod | None => false end
          then service_tasks byName upToDate nodeIDs networks slots pods
          else
            let name := ss_Name (sv_Spec service) in
            let slot := (default 0 (slots !! name) + 1)%Z in
            swarmTask pod service slot (mget nodeIDs (NodeName pod)) (taskNetworkAttachments pod networks) ::
            service_tasks byName upToDate nodeIDs networks (<[name := slot]> slots) pods
      end
  end.

Definition list_tasks (ctx : context) (upToDate : bool) : proc (res (list Task)) :=
  match swarm_namespace ctx with
  | Err e => Ret (Err e)
  | Ok namespace =>
      do? services <- GetServices ctx no_filters false;
      do pods <- call (KList KPod namespace swarmServiceSelector);
      match pods with
      | Err e => Ret (Err (kubeError e))
      | Ok pods =>
          do? hashes <- (if upToDate then do? h <- currentTemplateHashes namespace; Ret (Ok (Some h))
                         else Ret (Ok None));
          do nodeIDs <- nodeIDsByName;
          do networks <- networksByLabel ctx;
          Ret (Ok (service_tasks (services_by_name services) hashes nodeIDs networks ∅ (sort_created pods)))
      end
  end.

Definition validateTaskFilters (filters : swarmFilters) : option error :=
  sf_Validate filters {["id"; "label"; "name"; "node"; "service"; "desired-state"; "_up-to-date"]}.

Definition matchesTaskFilters (filters : swarmFilters) (task : Task) : bool :=
  if decide (sf_Len filters = 0%nat) then true
  else sf_FuzzyMatch filters "id" (tk_ID task) &&
       sf_Match filters "name" (tk_Name task) &&
       sf_ExactMatch filters "desired-state" (state_text (DesiredState task)) &&
       sf_FuzzyMatch filters "node" (NodeID task) &&
       match sf_Get filters "service" with
       | [] => true
       | values => existsb (λ value, bool_decide (value = mget (tk_Labels task) "com.docker.swarm.service.name") ||
                                     HasPrefix (tk_ServiceID task) value) values
       end &&
       sf_MatchKVList filters "label" (tk_Labels task).

Definition GetTasks (ctx : context) (filters : swarmFilters) : proc (res (list Task)) :=
  match validateTaskFilters filters with
  | Some e => Ret (Err (InvalidArgument e))
  | None =>
      do? tasks <- list_tasks ctx (match sf_Get filters "_up-to-date" with [] => false | _ => true end);
      Ret (Ok (List.filter (matchesTaskFilters filters) tasks))
  end.

Definition GetTask (ctx : context) (id : string) : proc (res Task) :=
  if decide (id = "") then Ret (Err (InvalidArgument (errors_New "task ID is required")))
  else
    do? tasks <- list_tasks ctx false;
    Ret (match unique_match (λ t, HasPrefix (tk_ID t) id) (Conflict (errors_New "task %s is ambiguous")) None tasks with
         | Err e => Err e
         | Ok None => Err (NotFound (errors_New "task %s not found"))
         | Ok (Some task) => Ok task
         end).
End tasks.

(** ** Nodes *)

(** [runtime.GOARCH] and [runtime.GOOS] of the build. *)
Class Runtime := { GOARCH : string; GOOS : string }.

Inductive NodeRole := NodeRoleWorker | NodeRoleManager.
Inductive NodeAvailability := NodeAvailabilityActive | NodeAvailabilityDrain.
Inductive NodeState := NodeStateReady | NodeStateDown | NodeStateUnknown.

Definition role_text (r : NodeRole) : string :=
  match r with NodeRoleWorker => "worker" | NodeRoleManager => "manager" end.

Record SwarmNode := {
  sn_ID : string;
  sn_Meta : SwarmMeta;
  sn_Labels : smap;
  sn_Role : NodeRole;
  sn_Availability : NodeAvailability;
  sn_Hostname : string;
  sn_Architecture : string;
  sn_OS : string;
  sn_NanoCPUs : Z;
  sn_MemoryBytes : Z;
  sn_EngineVersion : string;
  sn_State : NodeState;
  sn_Addr : string;
  sn_Manager : option string     (* the address of a reachable manager *)
}.

Definition isControlPlaneNode (node : Node) : bool :=
  existsb (λ key, bool_decide (is_Some (Labels (node_meta node) !! key)))
    ["node-role.kubernetes.io/control-plane"; "node-role.kubernetes.io/master"].

Definition nodeAddress (node : Node) : string :=
  match List.find (λ a, bool_decide (fst a = "InternalIP")) (Addresses node) with
  | Some a => snd a
  | None => ""
  end.

Definition nodeState (node : Node) : NodeState :=
  match List.find (λ c, bool_decide (fst c = "Ready")) (Node_Conditions node) with
  | Some (_, status) =>
      if decide (status = "True") then NodeStateReady
      else if decide (status = "False") then NodeStateDown
      else NodeStateUnknown
  | None => NodeStateUnknown
  end.

Section nodes.
Context `{Runtime}.

Definition swarmNode (node : Node) : SwarmNode :=
  let role := if isControlPlaneNode node then NodeRoleManager else NodeRoleWorker in {|
  sn_ID := DockerIDFromUID (UID (node_meta node));
  sn_Meta := swarmMeta (node_meta node);
  sn_Labels := Labels (node_meta node);
  sn_Role := role;
  sn_Availability := if Unschedulable node then NodeAvailabilityDrain else NodeAvailabilityActive;
  sn_Hostname := Name (node_meta node);
  sn_Architecture := if decide (Architecture node = "") then GOARCH else Architecture node;
  sn_OS := if decide (OperatingSystem node = "") then GOOS else OperatingSystem node;
  sn_NanoCPUs := int64 (MilliValue (default 0%Z (Allocatable node !! ResourceCPU)) * 1000000);
  sn_MemoryBytes := Value (default 0%Z (Allocatable node !! ResourceMemory));
  sn_EngineVersion := KubeletVersion node;
  sn_State := nodeState node;
  sn_Addr := nodeAddress node;
  sn_Manager := match role with NodeRoleManager => Some (nodeAddress node) | NodeRoleWorker => None end |}.

Definition validateNodeFilters (filters : swarmFilters) : option error :=
  sf_Validate filters {["id"; "label"; "membership"; "name"; "node.label"; "role"]}.

Definition matchesNodeFilters (filters : swarmFilters) (node : SwarmNode) : bool :=
  if decide (sf_Len filters = 0%nat) then true
  else sf_FuzzyMatch filters "id" (sn_ID node) &&
       sf_Match filters "name" (sn_Hostname node) &&
       sf_ExactMatch filters "role" (role_text (sn_Role node)) &&
       sf_ExactMatch filters "membership" "accepted" &&
       sf_MatchKVList filters "label" (sn_Labels node) &&
       sf_MatchKVList filters "node.label" (sn_Labels node).

Definition GetNodes (filters : swarmFilters) : proc (res (list SwarmNode)) :=
  match validateNodeFilters filters with
  | Some e => Ret (Err (InvalidArgument e))
  | None =>
      do nodes <- call (KList KNode "" "");
      Ret (match nodes with
           | Err e => Err (kubeError e)
           | Ok nodes => Ok (List.filter (matchesNodeFilters filters) (swarmNode <$> (nodes : list Node)))
           end)
  end.

Definition node_matches (idOrName : string) (node : SwarmNode) : bool :=
  bool_decide (sn_Hostname node = idOrName) || HasPrefix (sn_ID node) idOrName.

Definition GetNode (idOrName : string) : proc (res SwarmNode) :=
  if decide (idOrName = "") then Ret (Err (InvalidArgument (errors_New "node ID or name is required")))
  else
    do nodes <- call (KList KNode "" "");
    Ret (match nodes with
         | Err e => Err (kubeError e)
         | Ok nodes =>
             match unique_match (node_matches idOrName) (Conflict (errors_New "node %s is ambiguous")) None
                     (swarmNode <$> (nodes : list Node)) with
             | Err e => Err e
             | Ok None => Err (NotFound (errors_New "node %s not found"))
             | Ok (Some node) => Ok node
             end
         end).

Definition UpdateNode : res unit := Err (Unsupported (errors_New "updating a node is not available")).
Definition RemoveNode : res unit := Err (Unsupported (errors_New "removing a node is not available")).
End nodes.

(** ** The cluster *)

Record SwarmClusterInfo := { ci_ID : string; ci_Meta : SwarmMeta; ci_Name : string; ci_Labels : smap }.

Definition clusterInfo : proc (res SwarmClusterInfo) :=
  do namespace <- call (KGet KNamespace "" "kube-system");
  Ret (match namespace with
       | Err e => Err (kubeError e)
       | Ok ns => Ok {| ci_ID := DockerIDFromUID (UID (ns_meta ns)); ci_Meta := swarmMeta (ns_meta ns);
                        ci_Name := "default"; ci_Labels := ∅ |}
       end).

(** [swarm.Inspect]: the join tokens stay empty. *)
Definition Inspect : proc (res SwarmClusterInfo) := clusterInfo.

Inductive LocalNodeState := LocalNodeStateInactive | LocalNodeStateActive.

(** A remote manager has an identifier and an address; the error is that of the
    request that failed. *)
Record SwarmInfo := {
  si_State : LocalNodeState;
  si_Error : option error;
  si_Cluster : option SwarmClusterInfo;
  si_ControlAvailable : bool;
  si_Nodes : nat;
  si_Managers : nat;
  si_RemoteManagers : list (string * string);
  si_NodeID : string;
  si_NodeAddr : string;
  si_Warnings : nat
}.

Definition inactive (e : error) : SwarmInfo := {|
  si_State := LocalNodeStateInactive; si_Error := Some e; si_Cluster := None; si_ControlAvailable := false;
  si_Nodes := 0; si_Managers := 0; si_RemoteManagers := []; si_NodeID := ""; si_NodeAddr := "";
  si_Warnings := 0 |}.

(** The body of the loop over the nodes. *)
Definition count_manager (info : SwarmInfo) (node : Node) : SwarmInfo :=
  if negb (isControlPlaneNode node) then info
  else
    let peer := (DockerIDFromUID (UID (node_meta node)), nodeAddress node) in
    let unset := bool_decide (si_NodeID info = "") in {|
    si_State := si_State info; si_Error := si_Error info; si_Cluster := si_Cluster info;
    si_ControlAvailable := si_ControlAvailable info; si_Nodes := si_Nodes info;
    si_Managers := S (si_Managers info);
    si_RemoteManagers := (si_RemoteManagers info ++ [peer])%list;
    si_NodeID := if unset then fst peer else si_NodeID info;
    si_NodeAddr := if unset then snd peer else si_NodeAddr info;
    si_Warnings := si_Warnings info |}.

(** After the loop: without a manager the first node stands in. *)
Definition with_node (nodes : list Node) (info : SwarmInfo) : SwarmInfo :=
  match nodes with
  | node :: _ =>
      if decide (si_NodeID info = "") then {|
        si_State := si_State info; si_Error := si_Error info; si_Cluster := si_Cluster info;
        si_ControlAvailable := si_ControlAvailable info; si_Nodes := si_Nodes info;
        si_Managers := si_Managers info; si_RemoteManagers := si_RemoteManagers info;
        si_NodeID := DockerIDFromUID (UID (node_meta node)); si_NodeAddr := nodeAddress node;
        si_Warnings := si_Warnings info |}
      else info
  | [] => info
  end.

(** The state of an active cluster; three warnings tell what it stands for. *)
Definition active_info (cluster : SwarmClusterInfo) (nodes : list Node) : SwarmInfo :=
  with_node nodes (fold_left count_manager nodes {|
    si_State := LocalNodeStateActive; si_Error := None; si_Cluster := Some cluster;
    si_ControlAvailable := true; si_Nodes := length nodes; si_Managers := 0; si_RemoteManagers := [];
    si_NodeID := ""; si_NodeAddr := ""; si_Warnings := 3 |}).

Definition Info : proc SwarmInfo :=
  do cluster <- clusterInfo;
  match cluster with
  | Err e => Ret (inactive e)
  | Ok cluster =>
      do nodes <- call (KList KNode "" "");
      Ret (match nodes with
           | Err e => inactive (kubeError e)
           | Ok nodes => active_info cluster nodes
           end)
  end.
