(* ===== verification/TaskProps.v ===== *)
(** * TaskProps: what listing services, tasks and nodes guarantees

    Listings show exactly what the cluster has of the tenant, tasks are numbered
    within their service, the current ReplicaSet of a service is its newest, and the
    cluster view never fails. *)

From S2P Require Import Prelude GoStrings Errors Prog Docker Kube Cluster Filters Identity Validation.
From S2P Require Import Discipline Workload Resources Networks Isolation Create CreateProps.
From S2P Require Import Swarm SwarmSpec SwarmService SwarmProps SwarmTask.

Local Open Scope string_scope.

(** ** The tasks of the Pods *)

Section tasks.
Context `{Unicode} `{ServiceCodec} `{NetworkOrder}.
Context (byName : gmap string SwarmService) (upToDate : option smap) (nodeIDs : smap)
  (networks : gmap string Network).

(** The service of a Pod that is listed. *)
Definition listed_service (pod : Pod) : option SwarmService :=
  match byName !! mget (Labels pod) "app" with
  | Some service =>
      if match upToDate with Some hashes => superseded hashes service pod | None => false end
      then None else Some service
  | None => None
  end.

(** The task is that of the Pod, in any slot. *)
Definition task_of (pod : Pod) (task : Task) : Prop :=
  ∃ service, listed_service pod = Some service ∧
    task = swarmTask pod service (Slot task) (mget nodeIDs (NodeName pod)) (taskNetworkAttachments pod networks).

Definition task_service (t : Task) : string := mget (tk_Labels t) "com.docker.swarm.service.name".

Lemma task_service_of pod service slot nodeID attachments :
  task_service (swarmTask pod service slot nodeID attachments) = ss_Name (sv_Spec service).
Proof. unfold task_service, mget. cbn. by rewrite !lookup_insert_ne, lookup_insert_eq by done. Qed.

Abbreviation tasks_from := (service_tasks byName upToDate nodeIDs networks).

Lemma service_tasks_cons slots pod pods :
  tasks_from slots (pod :: pods) =
  match listed_service pod with
  | None => tasks_from slots pods
  | Some service =>
      let name := ss_Name (sv_Spec service) in
      let slot := (default 0 (slots !! name) + 1)%Z in
      swarmTask pod service slot (mget nodeIDs (NodeName pod)) (taskNetworkAttachments pod networks) ::
      tasks_from (<[name := slot]> slots) pods
  end.
Proof.
  unfold listed_service. cbn [service_tasks]. destruct (byName !! _) as [s|]; [|done].
  by destruct (match upToDate with Some hashes => _ | None => _ end).
Qed.

(** Every listed Pod has its task, in order. *)
Lemma service_tasks_pods slots pods :
  Forall2 task_of (filter (λ p, is_Some (listed_service p)) pods) (tasks_from slots pods).
Proof.
  revert slots. induction pods as [|pod pods IH]; intros slots; [constructor|].
  rewrite service_tasks_cons, filter_cons. destruct (listed_service pod) as [s|] eqn:Es.
  - rewrite decide_True by eauto. constructor; [|apply IH]. by exists s.
  - rewrite decide_False by (by intros [? ?]). apply IH.
Qed.

(** The slots of a service are numbered from one, in order. *)
Lemma service_tasks_slots slots pods name :
  let slots_of := Slot <$> filter (λ t, task_service t = name) (tasks_from slots pods) in
  slots_of = seqZ (default 0 (slots !! name) + 1)%Z (Z.of_nat (length slots_of)).
Proof.
  revert slots. induction pods as [|pod pods IH]; intros slots; [done|].
  rewrite service_tasks_cons. destruct (listed_service pod) as [s|]; [|apply IH]. cbv zeta.
  rewrite filter_cons, task_service_of. destruct (decide (ss_Name (sv_Spec s) = name)) as [<-|Hne].
  - rewrite fmap_cons. cbn [length Slot swarmTask].
    specialize (IH (<[ss_Name (sv_Spec s) := (default 0 (slots !! ss_Name (sv_Spec s)) + 1)%Z]> slots)).
    rewrite lookup_insert_eq in IH. cbn in IH. rewrite seqZ_cons by lia. f_equal.
    rewrite IH at 1. f_equal; lia.
  - specialize (IH (<[ss_Name (sv_Spec s) := (default 0 (slots !! ss_Name (sv_Spec s)) + 1)%Z]> slots)).
    rewrite lookup_insert_ne in IH by done. exact IH.
Qed.
End tasks.

Lemma services_by_name_named services name s :
  services_by_name services !! name = Some s → s ∈ services ∧ ss_Name (sv_Spec s) = name.
Proof.
  unfold services_by_name. intros Hs%elem_of_list_to_map_2.
  apply list_elem_of_In, in_rev, list_elem_of_In, list_elem_of_fmap in Hs as (s' & [= -> ->] & Hs). done.
Qed.

(** ** The newest ReplicaSet *)

Definition controlled_by (name : string) (rs : ReplicaSet) : Prop :=
  ∃ owner, GetControllerOf (rs_meta rs) = Some owner ∧ or_Kind owner = "Deployment" ∧ or_Name owner = name.

#[export] Instance controlled_by_dec name rs : Decision (controlled_by name rs).
Proof.
  unfold controlled_by. destruct (GetControllerOf (rs_meta rs)) as [o|]; [|right; by intros (? & ? & _)].
  destruct (decide (or_Kind o = "Deployment" ∧ or_Name o = name)) as [[Hk Hn]|Hne]; [left; by exists o|].
  right. intros (o' & [= <-] & ? & ?). by apply Hne.
Defined.

Definition rs_revision (rs : ReplicaSet) : Z :=
  ParseInt_value (mget (Annotations (rs_meta rs)) deploymentRevisionAnnotation).
Definition rs_hash (rs : ReplicaSet) : string := mget (Labels (rs_meta rs)) DefaultDeploymentUniqueLabelKey.

(** The first of the ReplicaSets of a Deployment with the highest revision. *)
Definition newest (name : string) (l : list ReplicaSet) (rs : ReplicaSet) : Prop :=
  ∃ l1 l2, l = (l1 ++ rs :: l2)%list ∧ controlled_by name rs ∧
    (∀ r, r ∈ l1 → controlled_by name r → (rs_revision r < rs_revision rs)%Z) ∧
    (∀ r, r ∈ l2 → controlled_by name r → (rs_revision r ≤ rs_revision rs)%Z).

Lemma newest_unique name l r r' : newest name l r → newest name l r' → r = r'.
Proof.
  intros (a & b & -> & Hr & Ha & Hb) (c & d & Heq & Hr' & Hc & Hd).
  revert c Heq Hc. induction a as [|x a IH]; intros [|y c] Heq Hc; simpl in Heq; injection Heq as Hx Heq; subst.
  - done.
  - assert (r' ∈ c ++ r' :: d)%list as Hin by set_solver.
    specialize (Hb r' Hin Hr'). specialize (Hc _ (list_elem_of_here _ _) Hr). lia.
  - assert (r ∈ a ++ r :: b)%list as Hin by set_solver.
    specialize (Hd r Hin Hr). specialize (Ha _ (list_elem_of_here _ _) Hr'). lia.
  - apply (IH (λ z Hz, Ha z (list_elem_of_further _ _ _ Hz)) c Heq).
    intros z Hz. apply Hc. by right.
Qed.

(** The entry of a Deployment after the ReplicaSets [l]. *)
Definition entry_exact (name : string) (l : list ReplicaSet) (entry : option (string * Z)) : Prop :=
  match entry with
  | None => ∀ r, r ∈ l → ¬ controlled_by name r
  | Some (hash, revision) => ∃ rs, newest name l rs ∧ hash = rs_hash rs ∧ revision = rs_revision rs
  end.

Lemma newer_hash_other hashes rs name :
  ¬ controlled_by name rs → newer_hash hashes rs !! name = hashes !! name.
Proof.
  intros Hn. unfold newer_hash. destruct (GetControllerOf (rs_meta rs)) as [o|] eqn:Eo; [|done].
  destruct (bool_decide_reflect (or_Kind o = "Deployment")) as [Hk|]; [|done]. cbn [negb]. cbv zeta.
  assert (or_Name o ≠ name) as Hne by (intros <-; apply Hn; by exists o).
  destruct (hashes !! or_Name o) as [[? seen]|]; [destruct (_ <=? _)%Z; [done|]|]; by rewrite lookup_insert_ne.
Qed.

Lemma newer_hash_own hashes rs name :
  controlled_by name rs →
  newer_hash hashes rs !! name =
    match hashes !! name with
    | Some (hash, seen) => if (rs_revision rs <=? seen)%Z then Some (hash, seen) else Some (rs_hash rs, rs_revision rs)
    | None => Some (rs_hash rs, rs_revision rs)
    end.
Proof.
  intros (o & Eo & Hk & <-). unfold newer_hash. rewrite Eo, bool_decide_true by done. cbn [negb]. cbv zeta.
  fold (rs_revision rs) (rs_hash rs). destruct (hashes !! or_Name o) as [[hash seen]|] eqn:E;
    [destruct (_ <=? _)%Z; [done|]|]; by rewrite lookup_insert_eq.
Qed.

Lemma template_entries_exact name l : entry_exact name l (fold_left newer_hash l ∅ !! name).
Proof.
  induction l as [|rs l IH] using rev_ind; [cbn [fold_left]; rewrite lookup_empty; by intros r ?%elem_of_nil|].
  rewrite fold_left_app. cbn [fold_left]. destruct (decide (controlled_by name rs)) as [Hc|Hc].
  - rewrite newer_hash_own by done. destruct (fold_left newer_hash l ∅ !! name) as [[hash seen]|]; simpl in IH.
    + destruct IH as (r & (l1 & l2 & -> & Hr & H1 & H2) & -> & ->). rewrite <- app_assoc. simpl.
      destruct (Z.leb_spec (rs_revision rs) (rs_revision r)).
      * exists r. split; [|done]. exists l1, (l2 ++ [rs])%list. split_and!; [done..|].
        intros r' [Hr'|Hr'%list_elem_of_singleton]%elem_of_app; [auto|by subst].
      * exists rs. split; [|done]. exists (l1 ++ r :: l2)%list, []. rewrite <- app_assoc.
        split_and!; [done..| |by intros ? ?%elem_of_nil].
        intros r' [Hr'|[->|Hr']%elem_of_cons]%elem_of_app Hcr; [specialize (H1 _ Hr' Hcr)|done|specialize (H2 _ Hr' Hcr)]; lia.
    + exists rs. split; [|done]. exists l, []. split_and!; [done..| |by intros ? ?%elem_of_nil].
      intros r Hr Hcr. by destruct (IH r Hr).
  - rewrite newer_hash_other by done. destruct (fold_left newer_hash l ∅ !! name) as [[hash seen]|]; simpl in *.
    + destruct IH as (r & (l1 & l2 & -> & Hr & H1 & H2) & -> & ->). exists r. split; [|done].
      exists l1, (l2 ++ [rs])%list. rewrite <- app_assoc. split_and!; [done..|].
      intros r' [Hr'|Hr'%list_elem_of_singleton]%elem_of_app Hcr; [auto|by subst].
    + intros r [Hr|Hr%list_elem_of_singleton]%elem_of_app; [auto|by subst].
Qed.

(** the current Pods of a service are those of its newest ReplicaSet.
    [currentTemplateHashes] maps a Deployment to the template hash of the first
    ReplicaSet with the highest revision among those it controls, and to none exactly
    if it controls none. *)
Theorem template_hashes_newest l name :
  (∀ hash, template_hashes l !! name = Some hash ↔ ∃ rs, newest name l rs ∧ rs_hash rs = hash) ∧
  (template_hashes l !! name = None ↔ ∀ rs, rs ∈ l → ¬ controlled_by name rs).
Proof.
  unfold template_hashes. rewrite lookup_fmap. pose proof (template_entries_exact name l) as He.
  destruct (fold_left newer_hash l ∅ !! name) as [[h r]|]; simpl in *.
  - destruct He as (rs & Hrs & -> & _). split.
    + intros hash. split; [intros [= <-]; by exists rs|]. intros (rs' & Hrs' & <-).
      by rewrite (newest_unique _ _ _ _ Hrs Hrs').
    + split; [done|]. intros Hall. destruct Hrs as (l1 & l2 & -> & Hc & _). destruct (Hall rs); [set_solver|done].
  - split; [|done]. intros hash. split; [done|]. intros (rs & (l1 & l2 & -> & Hc & _) & _).
    destruct (He rs); [set_solver|done].
Qed.

(** ** The state of a task *)

Lemma podTaskStatus_fold name l status :
  fold_left (λ status c, if decide (CS_Name c = name) then container_task_status status c else status) l status =
  fold_left container_task_status (filter (λ c, CS_Name c = name) l) status.
Proof.
  revert status. induction l as [|c l IH]; intros status; [done|]. rewrite filter_cons. simpl.
  by destruct (decide (CS_Name c = name)).
Qed.

(** The state that a container gives its task. *)
Definition container_state (phase : string) (c : ContainerStatus) : TaskState :=
  match CS_Waiting c, CS_Terminated c with
  | Some _, _ => TaskStateStarting
  | None, Some t => if (TS_ExitCode t =? 0)%Z then phase_state phase else TaskStateFailed
  | None, None => phase_state phase
  end.

(** A task reports the state of its service's container.  A Pod with no status
    of that container reports its phase, its message and reason, and no container;
    with exactly one, the container's identifier and exit code are reported, a waiting
    container makes the task starting and one that exited with another code than zero
    makes it failed, else it is as the phase says; and the time is that of the last
    change of the container. *)
Theorem task_status_exact pod name :
  (filter (λ c, CS_Name c = name) (ContainerStatuses pod) = [] →
     podTaskStatus pod name = {| Timestamp := CreationTimestamp pod; State := phase_state (Phase pod);
       Message := Pod_Message pod; StatusErr := Pod_Reason pod; TaskContainer := None |}) ∧
  (∀ c, filter (λ c, CS_Name c = name) (ContainerStatuses pod) = [c] →
     let status := podTaskStatus pod name in
     TaskContainer status = Some (TrimPrefix (CS_ContainerID c) "containerd://", default 0%Z (TS_ExitCode <$> CS_Terminated c)) ∧
     State status = container_state (Phase pod) c ∧
     Timestamp status = default (default (CreationTimestamp pod) (TS_FinishedAt <$> CS_Terminated c)) (CS_Running c) ∧
     (∀ message reason, CS_Waiting c = Some (message, reason) → Message status = message ∧ StatusErr status = reason) ∧
     (∀ t, CS_Waiting c = None → CS_Terminated c = Some t → TS_ExitCode t ≠ 0%Z → StatusErr status = TS_Reason t)).
Proof.
  unfold podTaskStatus. rewrite podTaskStatus_fold. split; [by intros ->|]. intros c ->. cbn [fold_left].
  unfold container_task_status, container_state. cbv zeta.
  destruct (CS_Terminated c) as [t|]; [cbn [fmap option_fmap option_map default from_option]; destruct (Z.eqb_spec (TS_ExitCode t) 0)|];
    destruct (CS_Running c) as [since|], (CS_Waiting c) as [[m r]|]; cbn; split_and!; try done;
    intros; simplify_eq; done.
Qed.

(** ** Listing *)

(** What a listing may request: reads in the tenant's namespace and of the nodes, and
    what listing the networks needs (missing predefined networks are created). *)
Definition listing_requests (ns : string) : guard (cmd := cmd) := λ h X c,
  match c with
  | KGet _ ns' _ => ns' = ns
  | KList k ns' _ => ns' = ns ∨ (k = KNode ∧ ns' = "")
  | _ => network_reads ns h X c
  end.

Lemma network_reads_listing ns h X (c : cmd X) : network_reads ns h X c → listing_requests ns h X c.
Proof. destruct c; try done. intros Hns. by left. Qed.

Section listing.
Context `{Unicode} `{ServiceCodec} `{NetworkOrderLaws} `{PodOrderLaws}.

(** The service that is reported for a Deployment. *)
Definition reads_as (d : Deployment) (s : SwarmService) : Prop :=
  decode_service d = Ok (sv_Spec s) ∧ sv_ID s = DockerIDFromUID (UID d) ∧ sv_Meta s = swarmMeta (dep_meta d).

Lemma networksByLabel_wp id h :
  wp api_rely (listing_requests (id_namespace id)) (networksByLabel (Some id)) h (λ h' _, h `suffix_of` h').
Proof.
  unfold networksByLabel. rewrite wp_bind.
  eapply wp_mono; [apply network_reads_listing| |apply wp_suffix, networkList_wp].
  intros h1 r [_ Hs]. by rewrite wp_ret.
Qed.

Lemma serviceFromDeployment_wp ns (d : Deployment) status networks h :
  Namespace d = ns →
  wp api_rely (listing_requests ns) (serviceFromDeployment d status networks) h (λ h' r,
    match r with Ok s => reads_as d s | Err _ => True end).
Proof.
  intros Hns. unfold serviceFromDeployment. destruct (decode_service d) as [spec|e] eqn:E; [|done].
  rewrite wp_bind. eapply (wp_post _ _ _ _ (λ _ _, True)).
  { intros h1 endpoint _. rewrite wp_ret. by split_and!. }
  unfold serviceEndpoint. cbv zeta. rewrite Hns, wp_bind, wp_call. split; [done|]. intros vip _.
  rewrite wp_bind, wp_call. split; [done|]. intros published _. by rewrite wp_ret.
Qed.

Lemma list_services_wp ns filters status networks l h :
  (∀ d, d ∈ l → Namespace (dep_meta d) = ns) →
  wp api_rely (listing_requests ns) (list_services filters status networks l) h (λ h' r,
    match r with
    | Ok services => ∃ all, Forall2 reads_as l all ∧ services = List.filter (matchesServiceFilters filters) all
    | Err _ => True
    end).
Proof.
  revert h. induction l as [|d l IH]; intros h Hns; cbn [list_services].
  { rewrite wp_ret. by exists []. }
  rewrite wp_bind_res. eapply wp_post; [|apply serviceFromDeployment_wp, Hns; by left].
  intros h1 [s|e]; [|done]. intros Hs. rewrite wp_bind_res. eapply wp_post; [|apply IH; set_solver].
  intros h2 [services|e]; [|done]. intros (all & Hall & ->). rewrite wp_ret. exists (s :: all).
  split; [by constructor|]. cbn [List.filter]. by destruct (matchesServiceFilters filters s).
Qed.

(** The services of the namespace: those of the Deployments that were listed. *)
Definition services_listed (ns : string) (filters : swarmFilters) (services : list SwarmService) (h : hist) : Prop :=
  ∃ l all, Event _ (KList KDeployment ns swarmServiceSelector) (Ok l) ∈ h ∧ Forall2 reads_as l all ∧
    StronglySorted (le_by (λ s, ss_Name (sv_Spec s))) services ∧
    ∀ s, s ∈ services ↔ s ∈ all ∧ matchesServiceFilters filters s = true.

Lemma services_listed_mono ns filters services h h' :
  h `suffix_of` h' → services_listed ns filters services h → services_listed ns filters services h'.
Proof. intros Hs (l & all & Hl & Hrest). exists l, all. split; [by eapply suffix_elem|done]. Qed.

Lemma GetServices_wp id filters status h :
  wp api_rely (listing_requests (id_namespace id)) (GetServices (Some id) filters status) h (λ h' r,
    match r with Ok services => services_listed (id_namespace id) filters services h' | Err _ => True end).
Proof.
  unfold GetServices. cbn [swarm_namespace]. destruct (validateServiceFilters filters); [done|].
  rewrite wp_bind, wp_call. split; [by left|]. intros [l|e] Hl; [|done]. rewrite wp_bind.
  match goal with |- wp _ _ _ ?h0 _ => set (hl := h0) end.
  eapply wp_post; [|apply networksByLabel_wp]. intros h1 networks Hs1. rewrite wp_bind_res.
  eapply wp_post; [|apply wp_suffix, list_services_wp; exact Hl].
  intros h2 [services|e] [Hr Hs2]; [|done]. destruct Hr as (all & Hall & ->). rewrite wp_ret.
  exists l, all. split_and!; [|done|apply sort_by_sorted|].
  - eapply suffix_elem; [exact Hs2|]. eapply suffix_elem; [exact Hs1|]. by left.
  - intros s. by rewrite elem_of_sort_by, list_elem_of_In, List.filter_In, <- list_elem_of_In.
Qed.

(** Which Pods count: all, or with [_up-to-date] only those of the newest ReplicaSets. *)
Definition hashes_read (ns : string) (upToDate : bool) (hashes : option smap) (h : hist) : Prop :=
  if upToDate
  then ∃ l, Event _ (KList KReplicaSet ns swarmServiceSelector) (Ok l) ∈ h ∧ hashes = Some (template_hashes l)
  else hashes = None.

(** The tasks of the namespace: those of the Pods that were listed, by creation, and
    numbered within their service. *)
Definition tasks_listed (ns : string) (upToDate : bool) (tasks : list Task) (h : hist) : Prop :=
  ∃ services (pods sorted : list Pod) hashes nodeIDs networks,
    services_listed ns no_filters services h ∧
    Event _ (KList KPod ns swarmServiceSelector) (Ok pods) ∈ h ∧ hashes_read ns upToDate hashes h ∧
    sorted ≡ₚ pods ∧ StronglySorted created_before sorted ∧
    let listed := filter (λ p, is_Some (listed_service (services_by_name services) hashes p)) sorted in
    Forall2 (task_of (services_by_name services) hashes nodeIDs networks) listed tasks ∧
    ∀ name : string, let slots := Slot <$> filter (λ t, task_service t = name) tasks in slots = seqZ 1 (Z.of_nat (length slots)).

Lemma currentTemplateHashes_wp ns (upToDate : bool) h :
  wp api_rely (listing_requests ns)
    (if upToDate then do? h <- currentTemplateHashes ns; Ret (Ok (Some h)) else Ret (Ok None)) h
    (λ h' r, match r with Ok hashes => hashes_read ns upToDate hashes h' | Err _ => True end).
Proof.
  destruct upToDate; [|by rewrite wp_ret]. rewrite wp_bind_res. unfold currentTemplateHashes.
  rewrite wp_bind, wp_call. split; [by left|]. intros [l|e] _; rewrite wp_ret; [|done].
  exists l. split; [by left|done].
Qed.

Lemma list_tasks_wp id upToDate h :
  wp api_rely (listing_requests (id_namespace id)) (list_tasks (Some id) upToDate) h (λ h' r,
    match r with Ok tasks => tasks_listed (id_namespace id) upToDate tasks h' | Err _ => True end).
Proof.
  unfold list_tasks. cbn [swarm_namespace]. rewrite wp_bind_res. eapply wp_post; [|apply GetServices_wp].
  intros h1 [services|e]; [|done]. intros Hservices. rewrite wp_bind, wp_call. split; [by left|].
  intros [pods|e] _; [|done]. match goal with |- wp _ _ _ ?h0 _ => set (hp := h0) end.
  rewrite wp_bind_res. eapply wp_post; [|apply wp_suffix, currentTemplateHashes_wp].
  intros h2 [hashes|e] [Hhashes Hs2]; [|done]. rewrite wp_bind. unfold nodeIDsByName at 1.
  rewrite wp_bind, wp_call. split; [by right|]. intros nodes _. rewrite wp_ret. cbv beta.
  match goal with |- wp _ _ _ ?h0 _ => set (hn := h0) end.
  rewrite wp_bind. eapply wp_post; [|apply networksByLabel_wp]. intros h3 networks Hs3. rewrite wp_ret.
  assert (h2 `suffix_of` h3) as Hs23 by (etrans; [|exact Hs3]; by apply suffix_cons_r).
  assert (hp `suffix_of` h3) as Hsp by by etrans.
  eexists services, pods, (sort_created pods), hashes, _, networks. split_and!.
  - eapply services_listed_mono; [|exact Hservices]. etrans; [|exact Hsp]. by apply suffix_cons_r.
  - eapply suffix_elem; [exact Hsp|by left].
  - unfold hashes_read in *. destruct upToDate; [|done]. destruct Hhashes as (l & Hl & ->). exists l.
    split; [eapply suffix_elem; [exact Hs23|exact Hl]|done].
  - apply sort_created_perm.
  - apply sort_created_sorted.
  - cbv zeta. split; [apply service_tasks_pods|]. intros name.
    exact (service_tasks_slots (services_by_name services) hashes _ networks ∅ (sort_created pods) name).
Qed.

Lemma tasks_listed_mono ns upToDate tasks h h' :
  h `suffix_of` h' → tasks_listed ns upToDate tasks h → tasks_listed ns upToDate tasks h'.
Proof.
  intros Hs (services & pods & sorted & hashes & nodeIDs & networks & Hservices & Hpods & Hhashes & Hrest).
  exists services, pods, sorted, hashes, nodeIDs, networks.
  split_and!; [by eapply services_listed_mono|by eapply suffix_elem| |apply Hrest..].
  unfold hashes_read in *. destruct upToDate; [|done]. destruct Hhashes as (l & Hl & ->). exists l.
  split; [by eapply suffix_elem|done].
Qed.

Lemma GetTask_wp id i h :
  wp api_rely (listing_requests (id_namespace id)) (GetTask (Some id) i) h (λ h' r, ∀ task, r = Ok task →
    i ≠ "" ∧ ∃ all, tasks_listed (id_namespace id) false all h' ∧ filter (λ t, HasPrefix (tk_ID t) i = true) all = [task]).
Proof.
  unfold GetTask. destruct (decide (i = "")) as [->|Hi]; [done|]. rewrite wp_bind_res.
  eapply wp_post; [|apply list_tasks_wp]. intros h1 [tasks|e]; [|done]. intros Ht. rewrite wp_ret.
  intros task. destruct (unique_match _ _ _ tasks) as [[t|]|] eqn:E; [|done..]. intros [= <-].
  split; [done|]. exists tasks. split; [done|]. exact (unique_match_elem _ _ _ _ E).
Qed.

(** services and tasks are listed exactly.  Listing only reads the tenant's
    namespace and the nodes (and creates missing predefined networks).  The services
    are those of the listed Deployments, decoded, that the filters select, by name;
    the tasks are those of the Pods that belong to one of them, by creation, and the
    tasks of each service are numbered from one (with [_up-to-date], only the Pods of
    its newest ReplicaSet that are not being deleted); [GetTask] returns the only task
    whose identifier starts with the text. *)
Theorem tasks_are_listed_exactly id :
  let ns := id_namespace id in
  (∀ filters status h h' r, exec (GetServices (Some id) filters status) h h' r → answered api_rely h h' →
     guarded (listing_requests ns) h h' ∧ ∀ services, r = Ok services → services_listed ns filters services h') ∧
  (∀ filters h h' r, exec (GetTasks (Some id) filters) h h' r → answered api_rely h h' →
     guarded (listing_requests ns) h h' ∧
     ∀ tasks, r = Ok tasks → ∃ all, tasks_listed ns (bool_decide (sf_Get filters "_up-to-date" ≠ [])) all h' ∧
       tasks = List.filter (matchesTaskFilters filters) all) ∧
  (∀ i h h' r, exec (GetTask (Some id) i) h h' r → answered api_rely h h' →
     guarded (listing_requests ns) h h' ∧
     ∀ task, r = Ok task → i ≠ "" ∧ ∃ all, tasks_listed ns false all h' ∧
       filter (λ t, HasPrefix (tk_ID t) i = true) all = [task]).
Proof.
  intros ns. split_and!.
  - intros filters status h h' r Hex Hans.
    destruct (wp_exec _ _ _ _ _ _ _ (GetServices_wp id filters status h) Hex Hans) as [Hr ?].
    split; [done|]. by intros services ->.
  - intros filters h h' r Hex Hans.
    assert (wp api_rely (listing_requests ns) (GetTasks (Some id) filters) h (λ h' r, ∀ tasks, r = Ok tasks →
      ∃ all, tasks_listed ns (bool_decide (sf_Get filters "_up-to-date" ≠ [])) all h' ∧
        tasks = List.filter (matchesTaskFilters filters) all)) as Hwp.
    { unfold GetTasks. destruct (validateTaskFilters filters); [done|]. rewrite wp_bind_res.
      replace (match sf_Get filters "_up-to-date" with [] => false | _ => true end)
        with (bool_decide (sf_Get filters "_up-to-date" ≠ [])) by (by destruct (sf_Get filters _)).
      eapply wp_post; [|apply list_tasks_wp]. intros h1 [tasks|e]; [|done]. intros Ht. rewrite wp_ret.
      intros ? [= <-]. by exists tasks. }
    destruct (wp_exec _ _ _ _ _ _ _ Hwp Hex Hans). by split.
  - intros i h h' r Hex Hans.
    destruct (wp_exec _ _ _ _ _ _ _ (GetTask_wp id i h) Hex Hans). by split.
Qed.
End listing.

(** ** The cluster *)

Definition peer (node : Node) : string * string := (DockerIDFromUID (UID (node_meta node)), nodeAddress node).
Definition manager (node : Node) : Prop := isControlPlaneNode node = true.
#[export] Instance manager_dec node : Decision (manager node).
Proof. unfold manager. apply _. Defined.

(** What the loop over the nodes adds. *)
Definition counted (nodes : list Node) (info i : SwarmInfo) : Prop :=
  si_State i = si_State info ∧ si_Error i = si_Error info ∧ si_Cluster i = si_Cluster info ∧
  si_Nodes i = si_Nodes info ∧
  si_Managers i = (si_Managers info + length (filter manager nodes))%nat ∧
  si_RemoteManagers i = (si_RemoteManagers info ++ (peer <$> filter manager nodes))%list ∧
  (si_NodeID i, si_NodeAddr i) =
    match filter manager nodes with
    | node :: _ => if decide (si_NodeID info = "") then peer node else (si_NodeID info, si_NodeAddr info)
    | [] => (si_NodeID info, si_NodeAddr info)
    end.

Lemma count_managers nodes info :
  (∀ node, node ∈ nodes → DockerIDFromUID (UID (node_meta node)) ≠ "") →
  counted nodes info (fold_left count_manager nodes info).
Proof.
  revert info. induction nodes as [|node nodes IH]; intros info Hid; unfold counted.
  { cbn. rewrite app_nil_r, Nat.add_0_r. by split_and!. }
  cbn [fold_left]. destruct (IH (count_manager info node)) as (E1 & E2 & E3 & E4 & E5 & E6 & E7); [set_solver|].
  rewrite E1, E2, E3, E4, E5, E6, E7. unfold count_manager.
  destruct (isControlPlaneNode node) eqn:Em; cbn [negb].
  - rewrite !(filter_cons_True manager) by exact Em. cbn. rewrite <- app_assoc. split_and!; [done..|lia|done|].
    specialize (Hid node (list_elem_of_here _ _)). unfold peer.
    destruct (filter manager nodes); case_bool_decide as He; repeat case_decide; done.
  - rewrite !(filter_cons_False manager) by (unfold manager; by rewrite Em). by split_and!.
Qed.

(** What is reported of an active cluster. *)
Definition cluster_reported (nodes : list Node) (info : SwarmInfo) : Prop :=
  si_Nodes info = length nodes ∧ si_Managers info = length (filter manager nodes) ∧
  si_RemoteManagers info = peer <$> filter manager nodes ∧
  ((∀ node, node ∈ nodes → DockerIDFromUID (UID (node_meta node)) ≠ "") →
   (si_NodeID info, si_NodeAddr info) = default ("", "") (peer <$> head (filter manager nodes ++ nodes)%list)).

(** The requests of the cluster view are reads of the cluster. *)
Definition cluster_reads : guard (cmd := cmd) := λ _ X c,
  match c with
  | KGet k ns name => k = KNamespace ∧ ns = "" ∧ name = "kube-system"
  | KList k ns selector => k = KNode ∧ ns = "" ∧ selector = ""
  | _ => False
  end.

Definition identified (nodes : list Node) : Prop :=
  ∀ node, node ∈ nodes → DockerIDFromUID (UID (node_meta node)) ≠ "".

Lemma active_info_reported cluster nodes :
  identified nodes →
  let info := active_info cluster nodes in
  si_State info = LocalNodeStateActive ∧ si_Error info = None ∧ si_Cluster info = Some cluster ∧
  cluster_reported nodes info.
Proof.
  intros Hid. unfold active_info, with_node. set (info0 := Build_SwarmInfo _ _ _ _ _ _ _ _ _ _).
  destruct (count_managers nodes info0 Hid) as (E1 & E2 & E3 & E4 & E5 & E6 & E7).
  set (i := fold_left count_manager nodes info0) in *. clearbody i. cbn in *.
  assert (∀ m ms, filter manager nodes = m :: ms → DockerIDFromUID (UID (node_meta m)) ≠ "") as Hm.
  { intros m ms Hms. apply Hid. apply (list_elem_of_filter manager). rewrite Hms. by left. }
  unfold cluster_reported. destruct nodes as [|node nodes]; [by split_and!|].
  destruct (filter manager (node :: nodes)) as [|m ms] eqn:Ef; injection E7 as E7 E8.
  - rewrite decide_True by done. cbn. split_and!; done.
  - specialize (Hm m ms eq_refl). rewrite decide_False by congruence. split_and!; try done.
    intros _. cbn. by rewrite E7, E8.
Qed.

(** The node whose name is the text or whose identifier starts with it. *)
Definition node_found `{Runtime} (text : string) (node : SwarmNode) (h : hist) : Prop :=
  text ≠ "" ∧ ∃ nodes : list Node, Event _ (KList KNode "" "") (Ok nodes) ∈ h ∧
    filter (λ n, node_matches text n = true) (swarmNode <$> nodes) = [node].

Lemma active_info_error cluster nodes : si_Error (active_info cluster nodes) = None.
Proof.
  unfold active_info. set (info0 := Build_SwarmInfo _ _ _ _ _ _ _ _ _ _).
  assert (si_Error (fold_left count_manager nodes info0) = None) as He.
  { assert (si_Error info0 = None) as H0 by done. revert H0. generalize info0.
    induction nodes as [|node nodes IH]; intros info H0; [done|]. cbn. apply IH.
    unfold count_manager. by destruct (negb _). }
  unfold with_node. destruct nodes; [done|]. by destruct (decide _).
Qed.

(** What [Info] reports: the error of a request, or the cluster as it was answered. *)
Definition info_answered (h : hist) (info : SwarmInfo) : Prop :=
  match si_Error info with
  | Some e => info = inactive e
  | None => ∃ (ns : KubeNamespace) (nodes : list Node),
      Event _ (KGet KNamespace "" "kube-system") (Ok ns) ∈ h ∧ Event _ (KList KNode "" "") (Ok nodes) ∈ h ∧
      (identified nodes → si_State info = LocalNodeStateActive ∧
         ci_ID <$> si_Cluster info = Some (DockerIDFromUID (UID (ns_meta ns))) ∧ cluster_reported nodes info)
  end.

Lemma Info_wp h : wp any_answer cluster_reads Info h info_answered.
Proof.
  unfold Info, clusterInfo. rewrite !wp_bind, wp_call. split; [done|]. intros [ns|e] _; rewrite wp_ret; [|done].
  rewrite wp_bind, wp_call. split; [done|]. intros [nodes|e] _; rewrite wp_ret; [|done].
  unfold info_answered. rewrite active_info_error. exists ns, nodes. split_and!; [right; by left|by left|].
  intros Hid. match goal with |- context [active_info ?c nodes] => 
    destruct (active_info_reported c nodes Hid) as (-> & _ & -> & ?) end. done.
Qed.

Lemma GetNode_wp `{Runtime} text h :
  wp any_answer cluster_reads (GetNode text) h (λ h' r, ∀ node, r = Ok node → node_found text node h').
Proof.
  unfold GetNode. destruct (decide (text = "")) as [->|Hne]; [done|]. rewrite wp_bind, wp_call.
  split; [done|]. intros [nodes|e] _; rewrite wp_ret; [|done]. intros node.
  destruct (unique_match _ _ _ _) as [[n|]|] eqn:E; [|done..]. intros [= <-].
  split; [done|]. exists nodes. split; [by left|]. exact (unique_match_elem _ _ _ _ E).
Qed.

Lemma node_capacity `{Runtime} node milli bytes :
  Allocatable node !! ResourceCPU = Some (NewMilliQuantity milli) →
  Allocatable node !! ResourceMemory = Some (NewQuantity bytes) →
  (0 ≤ milli * 1000000 ≤ int64_max)%Z → (0 ≤ bytes ≤ int64_max)%Z →
  sn_NanoCPUs (swarmNode node) = (milli * 1000000)%Z ∧ sn_MemoryBytes (swarmNode node) = bytes.
Proof.
  intros Hcpu Hmem Hm Hb. unfold int64_max in *. unfold swarmNode. cbn [sn_NanoCPUs sn_MemoryBytes].
  rewrite Hcpu, Hmem. cbn [default from_option id]. unfold MilliValue, Value, NewMilliQuantity, NewQuantity, int64.
  rewrite !round_up_exact by (try apply Z.divide_factor_r; lia). rewrite !Z.div_mul by lia.
  rewrite (wrap_signed_id 64 milli), !wrap_signed_id by lia. done.
Qed.

(** the cluster view reads and never fails.  [Info] always answers: it asks only
    for the namespace that identifies the cluster and for the nodes; it reports the
    error of the request that failed as an inactive node, else it is active, counts
    the nodes and the control-plane nodes, lists these with their addresses, and names
    the first of them, or the first node if there is none.  [GetNode] returns the only
    listed node with the name or identifier prefix; capacities of whole millicores and
    bytes are reported exactly. *)
Theorem cluster_view_exact `{Runtime} :
  (∀ h h' info, exec Info h h' info → guarded cluster_reads h h' ∧ info_answered h' info) ∧
  (∀ text h h' r, exec (GetNode text) h h' r → guarded cluster_reads h h' ∧
     ∀ node, r = Ok node → node_found text node h') ∧
  (∀ node milli bytes,
     Allocatable node !! ResourceCPU = Some (NewMilliQuantity milli) →
     Allocatable node !! ResourceMemory = Some (NewQuantity bytes) →
     (0 ≤ milli * 1000000 ≤ int64_max)%Z → (0 ≤ bytes ≤ int64_max)%Z →
     sn_NanoCPUs (swarmNode node) = (milli * 1000000)%Z ∧ sn_MemoryBytes (swarmNode node) = bytes).
Proof.
  split_and!; [| |apply node_capacity].
  - intros h h' info Hex. apply and_comm, (wp_exec _ _ _ _ _ _ _ (Info_wp h) Hex).
    apply along_any; [done|]. by eapply exec_suffix.
  - intros text h h' r Hex. apply and_comm, (wp_exec _ _ _ _ _ _ _ (GetNode_wp text h) Hex).
    apply along_any; [done|]. by eapply exec_suffix.
Qed.

(** ** Witnesses *)

Definition demo_pod_order : PodOrder := {| sort_created := merge_sort created_before |}.

#[local] Instance created_before_total : Total created_before.
Proof. intros p q. unfold created_before. lia. Qed.
#[local] Instance created_before_trans : Transitive created_before.
Proof. intros p q r. unfold created_before. lia. Qed.

Lemma demo_pod_order_laws : @PodOrderLaws demo_pod_order.
Proof. split; intros l; [apply merge_sort_Permutation|apply (StronglySorted_merge_sort created_before)]. Qed.

Definition shop_pod (name uid hash : string) (created : Z) : Pod := {|
  pod_meta := {| Name := name; Namespace := "acme"; UID := uid; ResourceVersion := "9"; Generation := 1;
    Labels := {["app" := "shop"; swarmKindLabel := swarmServiceKind; DefaultDeploymentUniqueLabelKey := hash]};
    Annotations := ∅; OwnerReferences := []; DeletionTimestamp := None; CreationTimestamp := created |};
  Phase := "Running"; pod_Volumes := []; pod_Containers := []; NodeName := "node-1"; PodIP := "10.0.0.7"; StartTime := None; Pod_Message := ""; Pod_Reason := "";
  ContainerStatuses := [{| CS_Name := "shop"; CS_ContainerID := "containerd://abc"; CS_ImageID := ""; CS_Ready := true;
    CS_RestartCount := 0; CS_Running := Some created; CS_Terminated := None;
    CS_Waiting := None; CS_LastTerminated := None |}] |}.

Definition shop_replica_set (name hash revision : string) : ReplicaSet := {|
  rs_meta := {| Name := name; Namespace := "acme"; UID := name; ResourceVersion := "1"; Generation := 1;
    Labels := {[swarmKindLabel := swarmServiceKind; DefaultDeploymentUniqueLabelKey := hash]};
    Annotations := {[deploymentRevisionAnnotation := revision]};
    OwnerReferences := [deploymentOwnerReference "shop" ""];
    DeletionTimestamp := None; CreationTimestamp := 0 |} |}.

Definition demo_node : Node := {|
  node_meta := {| Name := "node-1"; Namespace := ""; UID := "aa-bb"; ResourceVersion := "1"; Generation := 1;
    Labels := {["node-role.kubernetes.io/control-plane" := ""]}; Annotations := ∅; OwnerReferences := [];
    DeletionTimestamp := None; CreationTimestamp := 0 |};
  Unschedulable := false; Allocatable := {[ResourceCPU := NewMilliQuantity 1500; ResourceMemory := NewQuantity 4096]};
  Architecture := ""; OperatingSystem := "linux"; KubeletVersion := "v1"; Node_Conditions := [("Ready", "True")];
  Addresses := [("InternalIP", "10.0.0.1")] |}.

(** Three Pods of the service, one of them of the ReplicaSet it was updated from. *)
Definition task_cluster : cluster :=
  set_db KPod [shop_pod "shop-c" "c1" "new" 30; shop_pod "shop-a" "a1" "old" 10; shop_pod "shop-b" "b1" "new" 20]
  (set_db KReplicaSet [shop_replica_set "shop-1" "old" "9"; shop_replica_set "shop-2" "new" "10"]
  (set_db KNode [demo_node]
  (set_db KNamespace [{| ns_meta := sample_meta "" "kube-system" "cc-dd" |}] shop_cluster))).

#[local] Existing Instances ascii_unicode demo_network_order demo_network_order_laws demo_service_codec
  demo_pod_order demo_pod_order_laws.

Definition up_to_date_filters : swarmFilters := {|
  sf_Len := 1; sf_Get name := if decide (name = "_up-to-date") then ["true"] else []; sf_Validate _ := None;
  sf_Match _ _ := true; sf_ExactMatch _ _ := true; sf_FuzzyMatch _ _ := true; sf_MatchKVList _ _ := true |}.

Definition demo_tasks : proc (res (list Task)) := GetTasks (Some acme_identity) up_to_date_filters.

Lemma tasks_are_listed_exactly_witness :
  ∃ tasks, (simulate demo_tasks task_cluster).1.1 = Ok tasks ∧ (tk_Name <$> tasks) = ["shop-b"; "shop-c"] ∧
    (Slot <$> tasks) = [1; 2]%Z ∧
    ∃ all, tasks_listed "acme" true all (simulate demo_tasks task_cluster).1.2 ∧
      tasks = List.filter (matchesTaskFilters up_to_date_filters) all.
Proof.
  assert (∃ tasks, (simulate demo_tasks task_cluster).1.1 = Ok tasks ∧ (tk_Name <$> tasks) = ["shop-b"; "shop-c"] ∧
    (Slot <$> tasks) = [1; 2]%Z) as (tasks & Ht & Hn & Hs) by (vm_compute; eauto).
  exists tasks. split_and!; [exact Ht|exact Hn|exact Hs|].
  destruct (tasks_are_listed_exactly acme_identity) as (_ & Htasks & _).
  exact (proj2 (Htasks up_to_date_filters [] _ _ (simulate_exec demo_tasks task_cluster)
    (simulate_answered demo_tasks task_cluster)) tasks Ht).
Defined.

Lemma template_hashes_newest_witness :
  ∃ rs, newest "shop" [shop_replica_set "shop-1" "old" "9"; shop_replica_set "shop-2" "new" "10"] rs ∧ rs_hash rs = "new".
Proof. apply (proj1 (template_hashes_newest _ _)). vm_compute. reflexivity. Defined.

Lemma task_status_exact_witness :
  let status := podTaskStatus (shop_pod "shop-a" "a1" "old" 10) "shop" in
  TaskContainer status = Some ("abc", 0%Z) ∧ State status = TaskStateRunning.
Proof.
  intros status. destruct (proj2 (task_status_exact (shop_pod "shop-a" "a1" "old" 10) "shop") _ eq_refl)
    as (Hc & Hs & _). split; [exact Hc|exact Hs].
Defined.

#[local] Instance demo_runtime : Runtime := {| GOARCH := "amd64"; GOOS := "linux" |}.

Lemma cluster_view_exact_witness :
  info_answered (simulate Info task_cluster).1.2 (simulate Info task_cluster).1.1 ∧
  si_Managers (simulate Info task_cluster).1.1 = 1%nat ∧ sn_NanoCPUs (swarmNode demo_node) = 1500000000%Z.
Proof.
  destruct cluster_view_exact as (Hinfo & _ & Hnode). split_and!.
  - exact (proj2 (Hinfo _ _ _ (simulate_exec Info task_cluster))).
  - vm_compute. reflexivity.
  - refine (proj1 (Hnode demo_node 1500%Z 4096%Z eq_refl eq_refl _ _)); vm_compute; split; discriminate.
Defined.
