(* ===== verification/Plugins.v ===== *)
(** * Plugins: [core/plugins]

    The registry of plugins: those of dink's configuration, and those registered by
    Plugin resources, of the cluster's system namespace or of a tenant's namespace.
    The informer's events change the tables ([upsert], [remove]); a request takes the
    plugins that apply to its namespace ([Visible], [Auth], [Lookup]) and makes sure
    they are ready ([ensureReady]).

    A [*Plugin] is shared by the tables, by the requests that use it and by background
    goroutines.  What never changes after it was published is the record [Plugin],
    which carries the identity [pl_id] of the object; what its mutex protects is a
    [Condition], read when the mutex is locked and written when it is unlocked, by
    commands.  The tables are read and written by commands too, one per critical
    section of the registry's mutex, so other goroutines act between any two. *)

From S2P Require Import Prelude GoStrings Errors Prog.

Local Open Scope string_scope.

(** ** Data *)

(** [Type] *)
Definition PluginType : Type := string.
Definition TypeAuth : PluginType := "auth".
Definition TypeSecrets : PluginType := "secrets".
Definition TypeVolumes : PluginType := "volumes".

(** [pluginv1.PluginType] *)
Inductive ProtoType := TYPE_UNSPECIFIED | TYPE_AUTH | TYPE_SECRETS | TYPE_VOLUMES.

#[export] Instance ProtoType_eq_dec : EqDecision ProtoType.
Proof. solve_decision. Defined.

Definition protoTypes (t : PluginType) : option ProtoType :=
  if decide (t = TypeAuth) then Some TYPE_AUTH
  else if decide (t = TypeSecrets) then Some TYPE_SECRETS
  else if decide (t = TypeVolumes) then Some TYPE_VOLUMES
  else None.

Definition ReservedNames : list string := ["k8s"; "local"].

(** Durations, in nanoseconds. *)
Definition second : Z := 1000000000.
Definition defaultTimeout : Z := 5 * second.
Definition retryAfter : Z := 10 * second.

(** [sdkplugin.APIVersion] *)
Definition APIVersion : Z := 1.

(** [plugins.Static] *)
Record Static := { Static_Name : string; Static_Types : list PluginType; Static_Endpoint : string }.

(** The HTTP client of a plugin: its base URL and timeout, the socket it dials when it
    is not the URL's host, and whether it presents dink's certificate. *)
Record Client := {
  baseURL : string;
  client_Timeout : Z;
  socket : option string;
  mutual_tls : bool
}.

(** The fields of [Plugin] that are not changed once it is published.  A registration
    that is invalid has an error and no client. *)
Record Plugin := {
  pl_id : positive;
  pl_Name : string;
  pl_Namespace : string;
  pl_UID : string;
  pl_Types : list PluginType;
  pl_generation : Z;
  pl_client : Client;
  pl_err : option error;
  pl_changed : bool          (* [changed] is [writeStatus], or nil *)
}.

(** The fields of [Plugin] that [mu] protects; [None] is the zero time. *)
Record Condition := {
  ready : bool;
  cond_version : string;
  lastErr : option string;
  checkedAt : option Z
}.
Definition new_condition : Condition :=
  {| ready := false; cond_version := ""; lastErr := None; checkedAt := None |}.

(** The codes of [connect.CodeOf] that are distinguished, and the error's text. *)
Inductive Code := CodeUnavailable | CodeDeadlineExceeded | CodeOther.
Record rpc_error := { rpc_code : Code; rpc_text : string }.

Record InfoResponse := { Info_Version : string; Info_ApiVersion : Z; Info_Types : list ProtoType }.

(** How a plugin cannot be used: an error of the registration, or of the last
    handshake or call. *)
Inductive plugin_failure := RegistrationError (cause : error) | CallError (text : string).

(** [plugins.Status]; the message is the text of the error. *)
Record Status := {
  Status_Ready : bool;
  Status_Version : string;
  Status_Message : option plugin_failure;
  ObservedGeneration : Z
}.

(** [plugins.Spec] *)
Record Spec := {
  Spec_Types : list PluginType;
  Service_Name : string;
  Service_Port : Z;
  Spec_Timeout : string;
  Spec_Insecure : bool
}.

(** A Plugin resource: what is read of its metadata, and its [spec] as it is stored. *)
Record PluginObject := {
  po_Namespace : string;
  po_Name : string;
  po_UID : string;
  po_Generation : Z;
  po_spec : string
}.

(** Kubernetes' converter between objects and structures, and the parser of durations. *)
Class SpecCodec := {
  FromUnstructured : string → res Spec;
  ToUnstructured : Spec → res string;
  ParseDuration : string → option Z
}.
Class SpecCodecLaws `{SpecCodec} := {
  ToUnstructured_total : ∀ s, is_ok (ToUnstructured s) = true;
  FromUnstructured_To : ∀ s raw, ToUnstructured s = Ok raw → FromUnstructured raw = Ok s
}.

(** ** Specs ([spec.go]) *)

Definition Endpoint (s : Spec) (namespace : string) : string :=
  let scheme := if Spec_Insecure s then "http" else "https" in
  scheme +:+ "://" +:+ Service_Name s +:+ "." +:+ namespace +:+ ".svc:" +:+ pretty (Service_Port s).

Definition timeout `{SpecCodec} (s : Spec) : res Z :=
  if decide (Spec_Timeout s = "") then Ok defaultTimeout
  else
    match ParseDuration (Spec_Timeout s) with
    | Some d =>
        if (d <=? 0)%Z then Err (errors_New "invalid spec.timeout %q") else Ok d
    | None => Err (errors_New "invalid spec.timeout %q")
    end.

Definition SpecFromObject `{SpecCodec} (u : PluginObject) : res Spec :=
  match FromUnstructured (po_spec u) with
  | Err e => Err (Errorf "decoding spec: %w" [e])
  | Ok s =>
      if bool_decide (Service_Name s = "") || (Service_Port s <? 1)%Z || (65535 <? Service_Port s)%Z
      then Err (errors_New "spec.service needs a name and a port between 1 and 65535")
      else Ok s
  end.

(** [Spec.Object]; the API server sets the UID and the generation. *)
Definition spec_Object `{SpecCodec} (s : Spec) (namespace name : string) : res PluginObject :=
  let? spec := ToUnstructured s in
  Ok {| po_Namespace := namespace; po_Name := name; po_UID := ""; po_Generation := 0; po_spec := spec |}.

(** ** Plugins ([plugins.go]) *)

(** [Plugin.String] *)
Definition plugin_String (p : Plugin) : string :=
  if decide (pl_Namespace p = "") then pl_Name p else pl_Namespace p +:+ "/" +:+ pl_Name p.

Definition has (p : Plugin) (t : PluginType) : bool :=
  bool_decide (pl_err p ≠ None) || slices_Contains (pl_Types p) t.

(** The client for an endpoint; [tls] tells that dink has a certificate. *)
Definition plugin_client (name endpoint : string) (timeout : Z) (tls : bool) : res Client :=
  let client url socket mutual :=
    Ok {| baseURL := TrimSuffix url "/"; client_Timeout := timeout; socket := socket;
          mutual_tls := mutual |} in
  if HasPrefix endpoint "unix://" then
    client ("http://" +:+ name) (Some (TrimPrefix endpoint "unix://")) false
  else if HasPrefix endpoint "https://" then
    if tls then client endpoint None true
    else Err (errors_New "dink has no TLS client certificate to call https plugins with")
  else if HasPrefix endpoint "http://" then client endpoint None false
  else Err (errors_New "endpoint %q must be an http(s) or unix:// URL").

Definition newPlugin (id : positive) (name namespace : string) (types : list PluginType)
    (endpoint : string) (timeout : Z) (tls : bool) : res Plugin :=
  if decide (name = "") then Err (errors_New "name must not be empty")
  else if slices_Contains ReservedNames name then Err (errors_New "name %q is reserved")
  else if decide (types = []) then Err (errors_New "at least one type is required")
  else if existsb (λ t, bool_decide (protoTypes t = None)) types then
    Err (errors_New "unknown plugin type %q")
  else
    let? client := plugin_client name endpoint timeout tls in
    Ok {| pl_id := id; pl_Name := name; pl_Namespace := namespace; pl_UID := "";
          pl_Types := types; pl_generation := 0; pl_client := client; pl_err := None;
          pl_changed := false |}.

(** ** Commands *)

Abbreviation tables := (gmap string (gmap string Plugin)).

(** What the registry starts in the background. *)
Inductive task := TaskWriteStatus (p : Plugin) | TaskEnsureReady (p : Plugin).

(** The requests to auth plugins: [authv1.AuthZReqRequest] and [AuthZResRequest]. *)
Record AuthZReqRequest := {
  req_Namespace : string;
  req_User : string;
  req_UserAuthNMethod : string;
  req_RequestMethod : string;
  req_RequestURI : string;
  req_RequestBody : string;
  req_RequestHeaders : gmap string string;
  req_PeerCertificates : list string
}.
Record AuthZResRequest := {
  res_Request : AuthZReqRequest;
  res_ResponseBody : string;
  res_ResponseHeaders : gmap string string;
  res_ResponseStatusCode : Z
}.
Record Decision := { Allow : bool; Msg : string }.

(** What a handler left in the response modifier it wrote to, and whether it flushed the
    modifier or took over its connection, so that the client may have got output before
    the handler returned. *)
Record RawResponse := {
  raw_StatusCode : Z; raw_Header : gmap string (list string); raw_Body : string;
  raw_Sent : bool
}.

Inductive pcmd : Type → Type :=
| NewObject : pcmd positive                                   (* a [&Plugin{...}] *)
| ReadRegistry : pcmd tables                                  (* under [mu.RLock] *)
| SetPlugin (p : Plugin) : pcmd unit                          (* under [mu.Lock] *)
| DeletePlugin (namespace name : string) : pcmd unit          (* under [mu.Lock] *)
| Go (t : task) : pcmd unit
| LockPlugin (id : positive) : pcmd Condition
| UnlockPlugin (id : positive) (c : Condition) : pcmd unit
| Now : pcmd Z
| Info (c : Client) : pcmd (result rpc_error InfoResponse)
| PatchStatus (namespace name uid : string) (s : Status) : pcmd (res unit)
| AuthZReq (c : Client) (req : AuthZReqRequest) : pcmd (result rpc_error Decision)
| AuthZRes (c : Client) (req : AuthZResRequest) : pcmd (result rpc_error Decision)
| ServeNext : pcmd unit                                       (* on the connection *)
| ServeBuffered : pcmd RawResponse                            (* on a response modifier *)
| FlushAll : pcmd unit
| RespondForbidden (cause : error) : pcmd unit.

Abbreviation pproc := (prog pcmd).

(** The registry's configuration: [watching] tells that [Watch] has set [dynamic]. *)
Record Registry := {
  systemNamespace : string; tlsConfig : bool; watching : bool; static : list Plugin
}.

(** ** Health *)

Definition Health (p : Plugin) : pproc (bool * string * option plugin_failure) :=
  match pl_err p with
  | Some e => Ret (false, "", Some (RegistrationError e))
  | None =>
      do c <- call (LockPlugin (pl_id p));
      do _ <- call (UnlockPlugin (pl_id p) c);
      Ret (ready c, cond_version c, CallError <$> lastErr c)
  end.

(** The status is patched with the plugin's UID, so that of a successor is not; a
    failure is only logged. *)
Definition writeStatus (watching : bool) (p : Plugin) : pproc unit :=
  if negb watching then Ret tt
  else
    do health <- Health p;
    let '(is_ready, version, err) := health in
    do _ <- call (PatchStatus (pl_Namespace p) (pl_Name p) (pl_UID p)
      {| Status_Ready := is_ready; Status_Version := version; Status_Message := err;
         ObservedGeneration := pl_generation p |});
    Ret tt.

Definition report (watching : bool) (p : Plugin) : pproc unit :=
  if pl_changed p then writeStatus watching p else Ret tt.

Definition Observe (watching : bool) (p : Plugin) (err : option rpc_error) : pproc unit :=
  match err with
  | Some {| rpc_code := CodeUnavailable; rpc_text := text |}
  | Some {| rpc_code := CodeDeadlineExceeded; rpc_text := text |} =>
      do c <- call (LockPlugin (pl_id p));
      do now <- call Now;
      do _ <- call (UnlockPlugin (pl_id p)
        {| ready := false; cond_version := cond_version c; lastErr := Some text;
           checkedAt := Some now |});
      if ready c then report watching p else Ret tt
  | _ => Ret tt
  end.

(** The answer to a handshake, checked. *)
Definition check_info (p : Plugin) (info : InfoResponse) : result string string :=
  if negb (Info_ApiVersion info =? APIVersion)%Z then
    Err ("plugin " +:+ plugin_String p +:+ " uses API version " +:+ pretty (Info_ApiVersion info) +:+
         ", dink supports " +:+ pretty APIVersion)
  else
    match List.find (λ t, negb (slices_Contains (Info_Types info)
                            (default TYPE_UNSPECIFIED (protoTypes t)))) (pl_Types p) with
    | Some t => Err ("plugin " +:+ plugin_String p +:+ " is registered as " +:+ t +:+
                     " but does not implement it")
    | None => Ok (Info_Version info)
    end.

Definition handshake (p : Plugin) : pproc (result string string) :=
  do r <- call (Info (pl_client p));
  match r with
  | Err e => Ret (Err ("plugin " +:+ plugin_String p +:+ " is unavailable: " +:+ rpc_text e))
  | Ok info => Ret (check_info p info)
  end.

(** [p.lastErr != nil && time.Since(p.checkedAt) < retryAfter] *)
Definition backing_off (c : Condition) : pproc (option string) :=
  match lastErr c with
  | None => Ret None
  | Some e =>
      do now <- call Now;
      Ret (match checkedAt c with
           | Some at_ => if (now - at_ <? retryAfter)%Z then Some e else None
           | None => None
           end)
  end.

Definition errText (err : option string) : string := default "" err.

Definition err_of {A} (r : result string A) : option string :=
  match r with Ok _ => None | Err e => Some e end.

(** The condition after a handshake, and whether it is reported. *)
Definition after_handshake (r : result string string) (now : Z) : Condition :=
  {| ready := is_ok r; cond_version := match r with Ok v => v | Err _ => "" end;
     lastErr := err_of r; checkedAt := Some now |}.
Definition condition_changed (c : Condition) (r : result string string) : bool :=
  bool_decide (checkedAt c = None) || negb (Bool.eqb (ready c) (is_ok r)) ||
  negb (bool_decide (errText (lastErr c) = errText (err_of r))).

Definition ensureReady (watching : bool) (p : Plugin) : pproc (result plugin_failure unit) :=
  match pl_err p with
  | Some e => Ret (Err (RegistrationError (Errorf "plugin %s: %w" [e])))
  | None =>
      do c <- call (LockPlugin (pl_id p));
      if ready c then do _ <- call (UnlockPlugin (pl_id p) c); Ret (Ok tt)
      else
        do waiting <- backing_off c;
        match waiting with
        | Some e => do _ <- call (UnlockPlugin (pl_id p) c); Ret (Err (CallError e))
        | None =>
            do r <- handshake p;
            do now <- call Now;
            do _ <- call (UnlockPlugin (pl_id p) (after_handshake r now));
            do _ <- (if condition_changed c r then report watching p else Ret tt);
            Ret (match r with Ok _ => Ok tt | Err e => Err (CallError e) end)
        end
  end.

(** ** The registry ([registry.go]) *)

(** [New]; the static plugins get the identities [1], [2], ... *)
Fixpoint new_static (tls : bool) (id : positive) (l : list Static) : res (list Plugin) :=
  match l with
  | [] => Ok []
  | s :: l =>
      match newPlugin id (Static_Name s) "" (Static_Types s) (Static_Endpoint s) defaultTimeout tls with
      | Err e => Err (Errorf "configuring plugin %q: %w" [e])
      | Ok p => let? ps := new_static tls (Pos.succ id) l in Ok (p :: ps)
      end
  end.

Definition New (systemNamespace : string) (static : list Static) (tlsConfig : bool) : res Registry :=
  let? plugins := new_static tlsConfig 1 static in
  Ok {| systemNamespace := systemNamespace; tlsConfig := tlsConfig; watching := false;
        static := plugins |}.

(** [sorted]: the names of one namespace are distinct, so the order is determined. *)
Definition sorted (plugins : gmap string Plugin) : list Plugin :=
  sort_by pl_Name (map_to_list plugins).*2.

Definition namespace_plugins (tb : tables) (namespace : string) : gmap string Plugin :=
  default ∅ (tb !! namespace).

Definition visible (r : Registry) (tb : tables) (namespace : string) : list Plugin :=
  static r ++ sorted (namespace_plugins tb (systemNamespace r)) ++
  (if bool_decide (namespace ≠ "") && bool_decide (namespace ≠ systemNamespace r)
   then sorted (namespace_plugins tb namespace) else []).

Definition Visible (r : option Registry) (namespace : string) : pproc (list Plugin) :=
  match r with
  | None => Ret []
  | Some r => do tb <- call ReadRegistry; Ret (visible r tb namespace)
  end.

Definition is_watching (r : option Registry) : bool :=
  match r with Some r => watching r | None => false end.

Definition Auth (r : option Registry) (namespace : string) :
    pproc (result plugin_failure (list Plugin)) :=
  do plugins <- Visible r namespace;
  let found := filter (λ p, has p TypeAuth = true) plugins in
  do? _ <- for_each found (ensureReady (is_watching r));
  Ret (Ok found).

Inductive lookup_failure := ErrNotFound (t name : string) | NotReady (f : plugin_failure).

Definition lookup_table (tb : tables) (namespace name : string) : option Plugin :=
  namespace_plugins tb namespace !! name.

Definition of_type (t : PluginType) (p : option Plugin) : option Plugin :=
  match p with
  | Some p => if has p t then Some p else None
  | None => None
  end.

(** The plugin a lookup takes: of the static ones, the last. *)
Definition lookup_plugin (r : Registry) (tb : tables) (namespace name : string) (t : PluginType) :
    option Plugin :=
  match of_type t (lookup_table tb namespace name) with
  | Some p => Some p
  | None =>
      match of_type t (lookup_table tb (systemNamespace r) name) with
      | Some p => Some p
      | None =>
          fold_left (λ found s, if bool_decide (pl_Name s = name) && has s t then Some s else found)
            (static r) None
      end
  end.

Definition Lookup (r : option Registry) (namespace name : string) (t : PluginType) :
    pproc (result lookup_failure Plugin) :=
  match r with
  | None => Ret (Err (ErrNotFound t name))
  | Some r =>
      do tb <- call ReadRegistry;
      match lookup_plugin r tb namespace name t with
      | None => Ret (Err (ErrNotFound t name))
      | Some p =>
          do e <- ensureReady (watching r) p;
          match e with
          | Ok _ => Ret (Ok p)
          | Err e => Ret (Err (NotReady e))
          end
      end
  end.

Definition fromObject `{SpecCodec} (r : Registry) (id : positive) (u : PluginObject) : res Plugin :=
  let? spec := SpecFromObject u in
  let? timeout := timeout spec in
  newPlugin id (po_Name u) (po_Namespace u) (Spec_Types spec) (Endpoint spec (po_Namespace u))
    timeout (tlsConfig r).

(** A plugin of the tables: with the identity of its object, and reporting its health. *)
Definition registered (u : PluginObject) (p : Plugin) : Plugin :=
  {| pl_id := pl_id p; pl_Name := pl_Name p; pl_Namespace := pl_Namespace p; pl_UID := po_UID u;
     pl_Types := pl_Types p; pl_generation := po_Generation u; pl_client := pl_client p;
     pl_err := pl_err p; pl_changed := true |}.

Definition no_client : Client :=
  {| baseURL := ""; client_Timeout := 0; socket := None; mutual_tls := false |}.

(** The registration that an invalid object leaves. *)
Definition invalid_plugin (id : positive) (u : PluginObject) (e : error) : Plugin :=
  {| pl_id := id; pl_Name := po_Name u; pl_Namespace := po_Namespace u; pl_UID := "";
     pl_Types := []; pl_generation := 0; pl_client := no_client; pl_err := Some e;
     pl_changed := false |}.

Definition plugin_of `{SpecCodec} (r : Registry) (id : positive) (u : PluginObject) : Plugin :=
  registered u (match fromObject r id u with Ok p => p | Err e => invalid_plugin id u e end).

(** A status write: the same object at the same generation. *)
Definition same_registration (existing : option Plugin) (u : PluginObject) : bool :=
  match existing with
  | Some p => bool_decide (pl_UID p = po_UID u) && (pl_generation p =? po_Generation u)%Z
  | None => false
  end.

(** What the informer's handlers are called with. *)
Inductive informer_object :=
| Unstructured (u : PluginObject)
| DeletedFinalStateUnknown (u : option PluginObject)
| OtherObject.

Definition upsert `{SpecCodec} (r : Registry) (obj : informer_object) : pproc unit :=
  match obj with
  | Unstructured u =>
      do tb <- call ReadRegistry;
      if same_registration (lookup_table tb (po_Namespace u) (po_Name u)) u then Ret tt
      else
        do id <- call NewObject;
        let p := plugin_of r id u in
        do _ <- call (SetPlugin p);
        if negb (watching r) then Ret tt
        else if bool_decide (pl_err p ≠ None) then call (Go (TaskWriteStatus p))
        else call (Go (TaskEnsureReady p))
  | _ => Ret tt
  end.

Definition remove (obj : informer_object) : pproc unit :=
  match obj with
  | Unstructured u | DeletedFinalStateUnknown (Some u) =>
      call (DeletePlugin (po_Namespace u) (po_Name u))
  | _ => Ret tt
  end.

(** The goroutines [upsert] starts. *)
Definition run_task (watching : bool) (t : task) : pproc unit :=
  match t with
  | TaskWriteStatus p => writeStatus watching p
  | TaskEnsureReady p => do _ <- ensureReady watching p; Ret tt
  end.

(** What the commands that write the tables do to them. *)
Definition set_plugin (p : Plugin) (tb : tables) : tables :=
  <[pl_Namespace p := <[pl_Name p := p]> (namespace_plugins tb (pl_Namespace p))]> tb.
Definition delete_plugin (namespace name : string) (tb : tables) : tables :=
  match tb !! namespace with
  | Some m => <[namespace := delete name m]> tb
  | None => tb
  end.

(** ** What the tables hold: the registrations, newest generation of each *)

Definition tables_step (e : event pcmd) (tb : tables) : tables :=
  match e with
  | Event _ (SetPlugin p) _ => set_plugin p tb
  | Event _ (DeletePlugin namespace name) _ => delete_plugin namespace name tb
  | _ => tb
  end.

(** The tables after a history. *)
Definition tables_of (h : history pcmd) : tables := foldr tables_step ∅ h.

(** The tables are read as they were written; the rest is not restricted. *)
Definition own_tables : rely (cmd:=pcmd) := λ h _ c,
  match c with
  | ReadRegistry => λ tb, tb = tables_of h
  | _ => λ _, True
  end.

(** A plugin is published only when the tables do not hold it at that generation, so a
    write of its status does not replace it. *)
Definition new_generation : guard (cmd:=pcmd) := λ h _ c,
  match c with
  | SetPlugin p => ∀ q, lookup_table (tables_of h) (pl_Namespace p) (pl_Name p) = Some q →
                   (pl_UID q, pl_generation q) ≠ (pl_UID p, pl_generation p)
  | LockPlugin _ | UnlockPlugin _ _ | Info _ | PatchStatus _ _ _ _ | AuthZReq _ _ | AuthZRes _ _ => False
  | _ => True
  end.

(** The informer's notifications, and the handlers called with them, in order. *)
Inductive notification := Added (u : PluginObject) | Updated (u : PluginObject)
                        | Deleted (u : PluginObject) | DeletedUnseen (u : PluginObject).

Definition handle `{SpecCodec} (r : Registry) (n : notification) : pproc unit :=
  match n with
  | Added u | Updated u => upsert r (Unstructured u)
  | Deleted u => remove (Unstructured u)
  | DeletedUnseen u => remove (DeletedFinalStateUnknown (Some u))
  end.

Fixpoint informer `{SpecCodec} (r : Registry) (l : list notification) : pproc unit :=
  match l with
  | [] => Ret tt
  | n :: l => do _ <- handle r n; informer r l
  end.

(** The Plugin resources that exist, by namespace and name. *)
Abbreviation objects := (gmap (string * string) PluginObject).

Definition apply_notification (n : notification) (m : objects) : objects :=
  match n with
  | Added u | Updated u => <[(po_Namespace u, po_Name u) := u]> m
  | Deleted u | DeletedUnseen u => delete (po_Namespace u, po_Name u) m
  end.

Definition live (l : list notification) (m : objects) : objects :=
  fold_left (λ m n, apply_notification n m) l m.

(** The tables hold the plugin of every resource, and nothing else. *)
Definition represents `{SpecCodec} (r : Registry) (tb : tables) (m : objects) : Prop :=
  ∀ namespace name,
    match m !! (namespace, name) with
    | Some u => ∃ id, lookup_table tb namespace name = Some (plugin_of r id u)
    | None => lookup_table tb namespace name = None
    end.

(** The API server changes the generation of an object with its spec. *)
Definition same_generation (u v : PluginObject) : Prop :=
  po_Namespace u = po_Namespace v ∧ po_Name u = po_Name v ∧ po_UID u = po_UID v ∧
  po_Generation u = po_Generation v.
Definition seen_object (n : notification) : list PluginObject :=
  match n with Added u | Updated u => [u] | _ => [] end.
Definition generations_have_one_spec (l : list PluginObject) : Prop :=
  ∀ u v, u ∈ l → v ∈ l → same_generation u v → po_spec u = po_spec v.

Section registry.
Context `{SpecCodec}.
Implicit Types (p : Plugin) (tb : tables) (u v : PluginObject).

Lemma lookup_set_plugin p tb namespace name :
  lookup_table (set_plugin p tb) namespace name =
  if decide ((namespace, name) = (pl_Namespace p, pl_Name p)) then Some p
  else lookup_table tb namespace name.
Proof.
  unfold lookup_table, set_plugin, namespace_plugins at 1.
  destruct (decide (namespace = pl_Namespace p)) as [->|Hne].
  - rewrite lookup_insert_eq. simpl. case_decide as Hn.
    + injection Hn as ->. by rewrite lookup_insert_eq.
    + rewrite lookup_insert_ne; [done|congruence].
  - rewrite lookup_insert_ne by done. rewrite decide_False by congruence. done.
Qed.

Lemma lookup_delete_plugin ns n tb namespace name :
  lookup_table (delete_plugin ns n tb) namespace name =
  if decide ((namespace, name) = (ns, n)) then None else lookup_table tb namespace name.
Proof.
  unfold lookup_table, delete_plugin, namespace_plugins.
  destruct (decide (namespace = ns)) as [->|Hne].
  - destruct (tb !! ns) as [m|] eqn:E; simpl.
    + rewrite lookup_insert_eq. simpl. case_decide as Hn.
      * injection Hn as ->. by rewrite lookup_delete_eq.
      * rewrite lookup_delete_ne; [done|congruence].
    + rewrite E. simpl. by case_decide.
  - rewrite decide_False by congruence. destruct (tb !! ns) as [m|]; [|done].
    by rewrite lookup_insert_ne.
Qed.

Lemma fromObject_identity r id u p :
  fromObject r id u = Ok p → pl_Name p = po_Name u ∧ pl_Namespace p = po_Namespace u.
Proof.
  unfold fromObject, newPlugin. intros Hp. inv_result.
  repeat (case_decide || case_if; try discriminate). by inv_result.
Qed.

(** A registration, valid or not, stays in the namespace and under the name of its object. *)
Lemma plugin_of_identity r id u :
  pl_Name (plugin_of r id u) = po_Name u ∧ pl_Namespace (plugin_of r id u) = po_Namespace u ∧
  pl_UID (plugin_of r id u) = po_UID u ∧ pl_generation (plugin_of r id u) = po_Generation u.
Proof.
  unfold plugin_of, registered. simpl. destruct (fromObject r id u) as [p|e] eqn:E; simpl; [|done].
  by destruct (fromObject_identity _ _ _ _ E) as [-> ->].
Qed.

Lemma represents_set r tb m id u :
  represents r tb m →
  represents r (set_plugin (plugin_of r id u) tb) (<[(po_Namespace u, po_Name u) := u]> m).
Proof.
  destruct (plugin_of_identity r id u) as (Hn & Hns & _).
  intros Hrep namespace name. rewrite lookup_set_plugin, Hn, Hns. case_decide as Heq.
  - rewrite Heq, lookup_insert_eq. eauto.
  - rewrite lookup_insert_ne by congruence. apply Hrep.
Qed.

Lemma represents_delete r tb m u :
  represents r tb m →
  represents r (delete_plugin (po_Namespace u) (po_Name u) tb)
    (delete (po_Namespace u, po_Name u) m).
Proof.
  intros Hrep namespace name. rewrite lookup_delete_plugin. case_decide as Heq.
  - by rewrite Heq, lookup_delete_eq.
  - rewrite lookup_delete_ne by congruence. apply Hrep.
Qed.

(** What is seen again at the same generation is the object that is there. *)
Lemma same_registration_live r tb m u l :
  represents r tb m → (∀ k v, m !! k = Some v → v ∈ l ∧ k = (po_Namespace v, po_Name v)) →
  generations_have_one_spec l → u ∈ l →
  same_registration (lookup_table tb (po_Namespace u) (po_Name u)) u = true →
  m !! (po_Namespace u, po_Name u) = Some u.
Proof.
  intros Hrep Hm Hgen Hu Hsame. specialize (Hrep (po_Namespace u) (po_Name u)).
  destruct (m !! _) as [v|] eqn:Ev; [|by rewrite Hrep in Hsame].
  destruct Hrep as [id Hrep]. rewrite Hrep in Hsame. simpl in Hsame.
  apply andb_true_iff in Hsame as [HU%bool_decide_eq_true HG%Z.eqb_eq].
  destruct (Hm _ _ Ev) as [Hv Hk]. injection Hk as Hns Hn. f_equal.
  assert (po_spec v = po_spec u) as Hspec by (apply Hgen; [done..|by repeat split]).
  destruct u, v; simpl in *; congruence.
Qed.

Lemma handle_represents r n m h l :
  represents r (tables_of h) m →
  (∀ k v, m !! k = Some v → v ∈ l ∧ k = (po_Namespace v, po_Name v)) →
  generations_have_one_spec l → (∀ u, u ∈ seen_object n → u ∈ l) →
  wp own_tables new_generation (handle r n) h
    (λ h' _, represents r (tables_of h') (apply_notification n m)).
Proof.
  intros Hrep Hm Hgen Hl.
  assert (∀ u, u ∈ l → wp own_tables new_generation (upsert r (Unstructured u)) h
            (λ h' _, represents r (tables_of h') (<[(po_Namespace u, po_Name u) := u]> m))) as Hup.
  { intros u Hu. simpl. split; [done|]. intros tb ->. destruct (same_registration _ _) eqn:E; simpl.
    - assert (m !! (po_Namespace u, po_Name u) = Some u) as Hlive by by apply (same_registration_live r (tables_of h) m u l).
      by rewrite insert_id.
    - split; [done|]. intros id _. split.
      { destruct (plugin_of_identity r id u) as (Hn & Hns & _). simpl in Hn, Hns.
        rewrite Hn, Hns. intros q Hq Heq. rewrite Hq in E. simpl in E. injection Heq as HU HG.
        by rewrite bool_decide_eq_true_2, (proj2 (Z.eqb_eq _ _)) in E. }
      intros [] _.
      apply (represents_set _ _ _ id u) in Hrep.
      destruct (negb _); [done|]. by destruct (bool_decide _); (split; [done|]); intros [] _. }
  destruct n as [u|u|u|u]; simpl; [apply Hup, Hl; set_solver..| |];
    (split; [done|]); intros [] _; by apply represents_delete.
Qed.

Lemma apply_notification_keys n m (l : list PluginObject) :
  (∀ k v, m !! k = Some v → v ∈ l ∧ k = (po_Namespace v, po_Name v)) →
  (∀ u, u ∈ seen_object n → u ∈ l) →
  ∀ k v, apply_notification n m !! k = Some v → v ∈ l ∧ k = (po_Namespace v, po_Name v).
Proof.
  intros Hm Hl k v. destruct n as [u|u|u|u]; simpl.
  1,2: intros [[<- ->]|[_ ?]]%lookup_insert_Some; [split; [apply Hl; set_solver|done]|auto].
  all: intros [_ ?]%lookup_delete_Some; auto.
Qed.

Lemma informer_represents r l objs : ∀ m h,
  represents r (tables_of h) m →
  (∀ k v, m !! k = Some v → v ∈ objs ∧ k = (po_Namespace v, po_Name v)) →
  generations_have_one_spec objs → (∀ n u, n ∈ l → u ∈ seen_object n → u ∈ objs) →
  wp own_tables new_generation (informer r l) h (λ h' _, represents r (tables_of h') (live l m)).
Proof.
  induction l as [|n l IH]; intros m h Hrep Hm Hgen Hl; simpl; [done|].
  rewrite wp_bind. eapply wp_post; [|apply (handle_represents r n m h objs); [done..|]].
  - intros h' [] Hrep'. apply IH; [done| |done|set_solver].
    apply (apply_notification_keys n m objs); [done|set_solver].
  - intros u. apply Hl. set_solver.
Qed.
End registry.
