(* ===== verification/PluginProps.v ===== *)
(** * PluginProps: what the plugin registry guarantees

    The tables follow the Plugin resources; a tenant's requests see the static plugins,
    the cluster's and the tenant's own, and no others; a plugin is used only after a
    handshake that it passed, and one that failed is left alone for a while; an invalid
    registration refuses the requests it applies to. *)

From S2P Require Import Prelude GoStrings Errors Prog Identity Plugins.

(** ** Readiness *)

(** What a plugin has to answer to a handshake. *)
Definition implements (p : Plugin) (info : InfoResponse) : Prop :=
  Info_ApiVersion info = 1%Z ∧
  ∀ t, t ∈ pl_Types p → default TYPE_UNSPECIFIED (protoTypes t) ∈ Info_Types info.

(** The recent events show that a plugin may be used: it is valid, and it was read to
    be ready or passed a handshake. *)
Definition usable (recent : history pcmd) (p : Plugin) : Prop :=
  pl_err p = None ∧
  ((∃ c, Event _ (LockPlugin (pl_id p)) c ∈ recent ∧ ready c = true) ∨
   (∃ info, Event _ (Info (pl_client p)) (Ok info) ∈ recent ∧ implements p info)).

(** The condition of a plugin that was last read, or left, under its mutex. *)
Definition condition_step (id : positive) (e : event pcmd) (c : Condition) : Condition :=
  match ev_cmd e in pcmd X return X → Condition with
  | LockPlugin id' => λ c', if decide (id' = id) then c' else c
  | UnlockPlugin id' c' => λ _, if decide (id' = id) then c' else c
  | _ => λ _, c
  end (ev_res e).
Definition condition_of (id : positive) (h : history pcmd) : Condition :=
  foldr (condition_step id) new_condition h.
#[local] Arguments condition_of : simpl never.

(** The commands of [ensureReady]: a handshake is attempted with a plugin that is not
    ready, and after a failure only when [retryAfter] has passed since it; the condition
    that is left is the one found or the outcome of the handshake just made. *)
Definition paced (p : Plugin) : guard (cmd:=pcmd) := λ h _ c,
  match c with
  | LockPlugin id => id = pl_id p
  | Now => True
  | Info client =>
      client = pl_client p ∧ ready (condition_of (pl_id p) h) = false ∧
      (lastErr (condition_of (pl_id p) h) = None ∨
       ∃ now h0, h = Event _ Now now :: h0 ∧
         ∀ at_, checkedAt (condition_of (pl_id p) h) = Some at_ → (retryAfter ≤ now - at_)%Z)
  | UnlockPlugin id c =>
      id = pl_id p ∧
      (c = condition_of id h ∨
       ∃ now answer h0, h = Event _ Now now :: Event _ (Info (pl_client p)) answer :: h0 ∧
         checkedAt c = Some now ∧
         (ready c = true ↔ ∃ info, answer = Ok info ∧ implements p info) ∧
         (ready c = true ↔ lastErr c = None))
  | PatchStatus namespace name uid _ =>
      namespace = pl_Namespace p ∧ name = pl_Name p ∧ uid = pl_UID p
  | _ => False
  end.

Lemma check_info_ok p info : is_ok (check_info p info) = true ↔ implements p info.
Proof.
  unfold check_info, implements. destruct (Info_ApiVersion info =? APIVersion)%Z eqn:E; simpl.
  - apply Z.eqb_eq in E. destruct (List.find _ _) as [t|] eqn:Ef; simpl.
    + apply List.find_some in Ef as [Ht Hn]. split; [done|]. intros [_ Hall].
      apply negb_true_iff, bool_decide_eq_false in Hn. destruct Hn. apply Hall.
      by apply list_elem_of_In.
    + split; [|done]. intros _. split; [done|]. intros t Ht.
      apply list_elem_of_In in Ht. pose proof (List.find_none _ _ Ef t Ht) as Hn. simpl in Hn.
      by apply negb_false_iff, bool_decide_eq_true in Hn.
  - apply Z.eqb_neq in E. naive_solver.
Qed.

Lemma handshake_wp R (G : guard) p h Q :
  G h _ (Info (pl_client p)) →
  (∀ answer o, (is_ok o = true ↔ ∃ info, answer = Ok info ∧ implements p info) →
     Q (Event _ (Info (pl_client p)) answer :: h) o) →
  wp R G (handshake p) h Q.
Proof.
  intros HG HQ. unfold handshake. rewrite wp_bind, wp_call. split; [done|].
  intros [info|e] _; apply HQ.
  - rewrite check_info_ok. naive_solver.
  - simpl. naive_solver.
Qed.

Lemma condition_of_read id c h : condition_of id (Event _ (LockPlugin id) c :: h) = c.
Proof. unfold condition_of, condition_step. simpl. by rewrite decide_True. Qed.

Lemma report_wp R watching p h (Q : history pcmd → unit → Prop) :
  (∀ recent, Q (recent ++ h) tt) → wp R (paced p) (report watching p) h Q.
Proof.
  intros HQ. unfold report, writeStatus, Health.
  destruct (pl_changed p), watching, (pl_err p); simpl; try apply (HQ []).
  - split; [done|]. intros x _. apply (HQ [_]).
  - split; [done|]. intros c _. split; [split; [done|left; by rewrite condition_of_read]|].
    intros [] _. split; [done|]. intros x _. apply (HQ [_; _; _]).
Qed.

(** Waiting is decided by the clock, and only after a failure. *)
Lemma backing_off_wp R p c h Q :
  (∀ e, lastErr c = Some e → ∀ now, Q (Event _ Now now :: h) (Some e)) →
  (∀ pre, (lastErr c = None ∧ pre = [] ∨
     ∃ now, pre = [Event _ Now now] ∧ ∀ at_, checkedAt c = Some at_ → (retryAfter ≤ now - at_)%Z) →
     Q (pre ++ h) None) →
  wp R (paced p) (backing_off c) h Q.
Proof.
  intros Hwait Hgo. unfold backing_off. destruct (lastErr c) as [e|] eqn:He; simpl.
  - split; [done|]. intros now _. destruct (checkedAt c) as [at_|] eqn:Ec.
    + destruct (now - at_ <? retryAfter)%Z eqn:Elt; [by apply Hwait|]. apply Z.ltb_ge in Elt.
      apply (Hgo [_]). right. exists now. naive_solver.
    + apply (Hgo [_]). right. by exists now.
  - apply (Hgo []). by left.
Qed.

Lemma ensureReady_wp R watching p h :
  wp R (paced p) (ensureReady watching p) h (λ h' r,
    ∃ recent, h' = recent ++ h ∧
    (pl_err p ≠ None → is_ok r = false ∧ recent = []) ∧ (is_ok r = true → usable recent p)).
Proof.
  unfold ensureReady. destruct (pl_err p) as [e|] eqn:Hp; [by exists []|].
  rewrite wp_bind, wp_call. split; [done|]. intros c _.
  destruct (ready c) eqn:Hready.
  { simpl. split; [split; [done|left]|].
    { by rewrite condition_of_read. }
    intros [] _. eexists [_; _]. split; [done|]. split; [done|]. intros _. split; [done|]. left.
    exists c. split; [set_solver|done]. }
  rewrite wp_bind. apply backing_off_wp.
  { intros e He now. simpl. split; [split; [done|left]|].
    { symmetry. apply condition_of_read. }
    intros [] _. by eexists [_; _; _]. }
  intros pre Hpre.
  assert (condition_of (pl_id p) (pre ++ Event _ (LockPlugin (pl_id p)) c :: h) = c) as Hc1.
  { destruct Hpre as [[_ ->]|(? & -> & _)]; apply condition_of_read. }
  rewrite wp_bind. apply handshake_wp.
  { unfold paced. rewrite Hc1. split_and!; [done..|].
    destruct Hpre as [[? _]|(now & -> & ?)]; [by left|right; by eexists now, _]. }
  intros answer o Ho. rewrite wp_bind, wp_call. split; [done|]. intros now _.
  rewrite wp_bind, wp_call. split.
  { split; [done|]. right. eexists now, answer, _. split_and!; [done..|]. by destruct o. }
  intros [] _. rewrite wp_bind.
  lazymatch goal with |- wp _ _ _ ?h1 _ =>
    eapply (wp_post _ _ _ _ (λ h' _, ∃ recent, h' = recent ++ h1))
  end.
  { intros h' _ [recent ->]. rewrite wp_ret.
    eexists (recent ++ _ :: _ :: _ :: pre ++ [Event _ (LockPlugin (pl_id p)) c]).
    rewrite <- !app_assoc. simpl. rewrite <- app_assoc. split; [done|]. split; [done|]. intros Hok. split; [done|]. right.
    destruct (proj1 Ho) as (info & -> & Hi); [by destruct o|]. exists info. set_solver. }
  destruct (condition_changed c o); [apply report_wp; eauto|]. rewrite wp_ret. by exists [].
Qed.

(** ** Where a plugin's client connects to *)

Fixpoint take_until (stop : ascii → bool) (s : string) : string :=
  match s with
  | EmptyString => EmptyString
  | String c s => if stop c then EmptyString else String c (take_until stop s)
  end.

(** The host a URL names: what follows the scheme, up to the path, the query or the
    fragment, without the user and the port. *)
Definition url_host (url : string) : string :=
  let rest := (Cut url "://").1.2 in
  let authority := take_until (λ c, has_char c "/?#") rest in
  let host_port := String.rev (take_until (λ c, Ascii.eqb c "@") (String.rev authority)) in
  (Cut host_port ":").1.1.

Lemma take_until_all stop s : all_chars (λ c, negb (stop c)) s = true → take_until stop s = s.
Proof.
  induction s as [|c s IH]; simpl; [done|]. intros [Hc Hs]%andb_true_iff.
  apply negb_true_iff in Hc. by rewrite Hc, IH.
Qed.

(** The characters of host names and ports. *)
Definition authority_char (c : ascii) : bool :=
  label_char c || Ascii.eqb c "." || Ascii.eqb c ":".

Lemma authority_char_not c d : authority_char c = true → authority_char d = false → Ascii.eqb c d = false.
Proof. intros Hc Hd. apply Ascii.eqb_neq. intros ->. congruence. Qed.

Lemma url_host_authority scheme host port :
  all_chars (λ c, label_char c || Ascii.eqb c ".") host = true → all_chars is_digit port = true →
  has_char ":" scheme = false →
  url_host (scheme +:+ "://" +:+ host +:+ ":" +:+ port) = host.
Proof.
  intros Hhost Hport Hscheme. unfold url_host.
  assert (all_chars authority_char (host +:+ ":" +:+ port) = true) as Hall.
  { rewrite !all_chars_app. apply andb_true_iff. split; [|apply andb_true_iff; split; [done|]].
    - revert Hhost. apply all_chars_impl. intros c Hc. unfold authority_char. by rewrite Hc.
    - revert Hport. apply all_chars_impl. intros c Hc. unfold authority_char, label_char.
      by rewrite Hc, orb_true_r. }
  rewrite Cut_head by done. simpl.
  rewrite (take_until_all (λ c, has_char c "/?#")).
  2: { revert Hall. apply all_chars_impl. intros c Hc. simpl. by rewrite !(authority_char_not c). }
  rewrite (take_until_all (λ c, Ascii.eqb c "@")), srev_involutive.
  2: { rewrite all_chars_rev. revert Hall. apply all_chars_impl. intros c Hc.
       by rewrite (authority_char_not c "@"). }
  change (":" +:+ port)%string with (String ":" port). rewrite Cut_char; [done|].
  by eapply all_chars_has_char.
Qed.

Lemma TrimSuffix_port s d :
  all_chars is_digit d = true → TrimSuffix (s +:+ ":" +:+ d) "/" = (s +:+ ":" +:+ d)%string.
Proof.
  intros Hd. unfold TrimSuffix. rewrite srev_app. change (String.rev "/") with "/"%string.
  assert (all_chars (λ c, is_digit c || Ascii.eqb c ":") (String.rev (":" +:+ d)) = true) as Hall.
  { rewrite all_chars_rev. simpl. revert Hd. apply all_chars_impl. intros c Hc. by rewrite Hc. }
  destruct (String.rev (":" +:+ d)) as [|c t] eqn:E.
  { apply (f_equal len) in E. rewrite len_rev in E. simpl in E. unfold len in E. simpl in E. lia. }
  simpl in Hall. apply andb_true_iff in Hall as [Hc _].
  rewrite sapp_cons. cbn [CutPrefix]. destruct (Ascii.eqb_spec "/" c) as [<-|]; [done|done].
Qed.

Lemma HasPrefix_cons c s p : HasPrefix (String c s) (String c p) = HasPrefix s p.
Proof. unfold HasPrefix. simpl. by rewrite Ascii.eqb_refl. Qed.

(** A valid plugin: named, not with a name of dink's own, and of known types. *)
Definition valid_plugin (p : Plugin) : Prop :=
  pl_err p = None ∧ pl_Name p ≠ ""%string ∧ (pl_Name p ∉ ReservedNames) ∧ pl_Types p ≠ [] ∧
  (∀ t, t ∈ pl_Types p → protoTypes t ≠ None).

Lemma newPlugin_ok id name namespace types endpoint timeout tls p :
  newPlugin id name namespace types endpoint timeout tls = Ok p →
  valid_plugin p ∧ pl_id p = id ∧ pl_Types p = types ∧
  plugin_client name endpoint timeout tls = Ok (pl_client p).
Proof.
  unfold newPlugin. intros Hp. case_decide; [discriminate|].
  destruct (slices_Contains ReservedNames name) eqn:Er; [discriminate|].
  case_decide; [discriminate|].
  destruct (existsb _ types) eqn:Et; [discriminate|]. inv_result.
  apply bool_decide_eq_false in Er. rewrite existsb_false in Et. unfold valid_plugin. simpl.
  split_and!; try done. intros t Ht. specialize (Et t Ht). by apply bool_decide_eq_false in Et.
Qed.

(** The client of an endpoint that ends with a port. *)
Lemma plugin_client_url name s d timeout tls c :
  plugin_client name ("http" +:+ s +:+ ":" +:+ d) timeout tls = Ok c →
  HasPrefix s "s://" = true ∨ HasPrefix s "://" = true → all_chars is_digit d = true →
  baseURL c = ("http" +:+ s +:+ ":" +:+ d)%string ∧ socket c = None ∧ client_Timeout c = timeout ∧
  mutual_tls c = HasPrefix s "s://" ∧ (mutual_tls c = true → tls = true).
Proof.
  unfold plugin_client. intros Hc Hs Hd.
  assert (HasPrefix ("http" +:+ s +:+ ":" +:+ d) "unix://" = false) as Hu by done.
  assert (∀ p q, q = ("http" +:+ p)%string →
            HasPrefix ("http" +:+ s +:+ ":" +:+ d) q = HasPrefix (s +:+ ":" +:+ d) p) as Hp by by intros ? ? ->.
  assert (∀ p, HasPrefix s p = true → HasPrefix (s +:+ ":" +:+ d) p = true) as Happ.
  { intros p [r ->]%HasPrefix_spec. apply HasPrefix_spec. exists (r +:+ ":" +:+ d)%string.
    by rewrite !sapp_assoc. }
  assert (TrimSuffix ("http" +:+ s +:+ ":" +:+ d) "/" = ("http" +:+ s +:+ ":" +:+ d)%string) as Ht.
  { by rewrite (sapp_assoc "http" s (":" +:+ d)), TrimSuffix_port. }
  rewrite Hu, (Hp "s://"%string), (Hp "://"%string) in Hc by done. destruct (HasPrefix s "s://") eqn:Es.
  - rewrite Happ in Hc by done. destruct tls; inv_result. simpl. by rewrite Ht.
  - destruct Hs as [?|Hs]; [done|]. rewrite (Happ _ Hs) in Hc.
    assert (HasPrefix (s +:+ ":" +:+ d) "s://" = false) as Hn by by apply HasPrefix_spec in Hs as [r ->].
    rewrite Hn in Hc. inv_result. simpl. by rewrite Ht.
Qed.

(** The client of a registration. *)
Lemma fromObject_client `{SpecCodec} r id u p :
  fromObject r id u = Ok p →
  valid_plugin p ∧ pl_id p = id ∧
  ∃ spec, SpecFromObject u = Ok spec ∧ pl_Types p = Spec_Types spec ∧
    (0 < client_Timeout (pl_client p))%Z ∧ (1 ≤ Service_Port spec ≤ 65535)%Z ∧
    Service_Name spec ≠ ""%string ∧
    baseURL (pl_client p) = Endpoint spec (po_Namespace u) ∧ socket (pl_client p) = None ∧
    mutual_tls (pl_client p) = negb (Spec_Insecure spec).
Proof.
  unfold fromObject. intros Hp. apply result_bind_ok in Hp as (spec & Hspec & Hp).
  apply result_bind_ok in Hp as (timeout & Htimeout & Hp).
  apply newPlugin_ok in Hp as (Hv & Hid & Ht & Hc). split; [done|]. split; [done|]. exists spec.
  assert (Service_Name spec ≠ ""%string ∧ (1 ≤ Service_Port spec ≤ 65535)%Z) as [Hname Hport].
  { revert Hspec. unfold SpecFromObject. destruct (FromUnstructured _) as [s|e]; [|done].
    destruct (bool_decide _) eqn:E1, (_ <? 1)%Z eqn:E2, (65535 <? _)%Z eqn:E3; try done.
    intros [= ->]. apply bool_decide_eq_false in E1. split; [done|lia]. }
  assert (0 < timeout)%Z as Hpos.
  { revert Htimeout. unfold Plugins.timeout. case_decide; [by intros [= <-]|].
    destruct (ParseDuration _) as [d|]; [|done]. case_if; [done|]. intros [= <-]. lia. }
  assert (∃ s, Endpoint spec (po_Namespace u) =
            ("http" +:+ s +:+ ":" +:+ pretty (Service_Port spec))%string ∧
            HasPrefix s (if Spec_Insecure spec then "://" else "s://")%string = true ∧
            HasPrefix s "s://" = negb (Spec_Insecure spec)) as (s & Heq & Hpre & Hs).
  { eexists ((if Spec_Insecure spec then "" else "s") +:+ "://" +:+ Service_Name spec +:+ "." +:+
              po_Namespace u +:+ ".svc")%string. unfold Endpoint.
    destruct (Spec_Insecure spec); simpl; repeat (rewrite <- sapp_assoc; simpl); by split_and!. }
  rewrite Heq in *. apply plugin_client_url in Hc as (-> & -> & -> & Hm & _).
  - rewrite Hm, Hs. destruct Hport. by split_and!.
  - destruct (Spec_Insecure spec); auto.
  - apply pretty_Z_digits. lia.
Qed.

(** ** What a namespace sees *)

Lemma elem_of_sorted p m : p ∈ sorted m ↔ ∃ name, m !! name = Some p.
Proof.
  unfold sorted. rewrite elem_of_sort_by, list_elem_of_fmap. split.
  - intros ([name q] & -> & Hin). apply elem_of_map_to_list in Hin. eauto.
  - intros [name Hname]. exists (name, p). split; [done|]. by apply elem_of_map_to_list.
Qed.

(** The registrations that apply to a namespace: the cluster's, and its own. *)
Definition applies (r : Registry) (namespace from : string) : Prop :=
  from = systemNamespace r ∨ (from = namespace ∧ namespace ≠ ""%string).

Lemma elem_of_visible r tb namespace p :
  p ∈ visible r tb namespace ↔
  p ∈ static r ∨ ∃ from name, applies r namespace from ∧ lookup_table tb from name = Some p.
Proof.
  unfold visible, applies, lookup_table. rewrite !elem_of_app, elem_of_sorted. split.
  - intros [?|[[name Hn]|Hp]]; [by left|right; by exists (systemNamespace r), name; auto|].
    destruct (bool_decide (namespace ≠ "")) eqn:E; [|set_solver].
    apply bool_decide_eq_true in E. destruct (bool_decide _); [|set_solver]. simpl in Hp.
    apply elem_of_sorted in Hp as [name Hn]. right. exists namespace, name. auto.
  - intros [?|(from & name & [->|[-> Hne]] & Hn)]; [by left|right; left; eauto|].
    destruct (decide (namespace = systemNamespace r)) as [->|Hsys]; [right; left; eauto|].
    rewrite !bool_decide_eq_true_2 by done. right; right. apply elem_of_sorted. eauto.
Qed.

(** The plugins of one namespace are listed by name, each once. *)
Lemma sorted_distinct m :
  (∀ name p, m !! name = Some p → pl_Name p = name) →
  StronglySorted (le_by pl_Name) (sorted m) ∧ NoDup (pl_Name <$> sorted m).
Proof.
  intros Hm. split; [apply sort_by_sorted|].
  assert (pl_Name <$> sorted m ≡ₚ (map_to_list m).*1) as ->; [|apply NoDup_fst_map_to_list].
  unfold sorted, sort_by. rewrite merge_sort_Permutation, <- list_fmap_compose.
  erewrite list_fmap_ext; [reflexivity|]. intros i [name p] Hi. simpl. apply Hm, elem_of_map_to_list.
  by eapply list_elem_of_lookup_2.
Qed.

Section properties.
Context `{SpecCodec}.

(** The plugins that the tables hold for a namespace are those of its resources. *)
Lemma represents_lookup r tb m from name p :
  represents r tb m → lookup_table tb from name = Some p →
  ∃ u id, m !! (from, name) = Some u ∧ p = plugin_of r id u.
Proof.
  intros Hrep Hp. specialize (Hrep from name). destruct (m !! (from, name)) as [u|]; [|congruence].
  destruct Hrep as [id Hid]. exists u, id. split; [done|]. congruence.
Qed.

(** The informer's events keep the registry exact.  Whatever notifications arrive,
    in whatever order, and whatever else the process does between two commands, the
    tables afterwards hold, for every Plugin resource that exists, the plugin it
    describes (or, when it is invalid, one with an error), and nothing for any other
    namespace and name; a plugin is published only when the tables do not hold it at
    that generation, so a write of its status never replaces it and loses its health;
    and the handlers neither call a plugin nor wait for one.  (That a resource's
    generation changes with its spec is what the API server documents.) *)
Theorem registry_tracks_resources r l h' x :
  generations_have_one_spec (l ≫= seen_object) →
  exec (informer r l) [] h' x → answered own_tables [] h' →
  represents r (tables_of h') (live l ∅) ∧ guarded new_generation [] h'.
Proof.
  intros Hgen Hexec Hans.
  eapply (wp_exec _ _ _ _ _ _ (λ h' _, represents r (tables_of h') _)); [|exact Hexec|exact Hans].
  apply (informer_represents r l (l ≫= seen_object)).
  - by intros namespace name.
  - by intros k v.
  - done.
  - intros n u Hn Hu. apply list_elem_of_bind. eauto.
Qed.

(** A namespace sees the static plugins, the cluster's and its own, and never those
    of another tenant: with tables that represent the resources, the list is the static
    plugins, then the cluster's by name, then the tenant's own by name, each once; and a
    listed plugin that is not static is the one a resource of the system namespace or of
    the tenant's own describes, keeps that resource's namespace, name, UID and
    generation, and a valid one has the types of its spec and connects to the endpoint
    of its spec in that same namespace. *)
Theorem visible_plugins_exact r tb m namespace :
  represents r tb m → (∀ k u, m !! k = Some u → k = (po_Namespace u, po_Name u)) →
  (∀ p, p ∈ visible r tb namespace ↔
     p ∈ static r ∨ ∃ u, m !! (po_Namespace u, po_Name u) = Some u ∧
       applies r namespace (po_Namespace u) ∧
       lookup_table tb (po_Namespace u) (po_Name u) = Some p) ∧
  (∀ u p, m !! (po_Namespace u, po_Name u) = Some u →
     lookup_table tb (po_Namespace u) (po_Name u) = Some p →
     pl_Namespace p = po_Namespace u ∧ pl_Name p = po_Name u ∧ pl_UID p = po_UID u ∧
     pl_generation p = po_Generation u ∧
     (pl_err p = None → valid_plugin p ∧ socket (pl_client p) = None ∧ ∃ spec,
        SpecFromObject u = Ok spec ∧ pl_Types p = Spec_Types spec ∧
        baseURL (pl_client p) = Endpoint spec (po_Namespace u))) ∧
  ∃ cluster tenant, visible r tb namespace = static r ++ cluster ++ tenant ∧
    Forall (λ l, StronglySorted (le_by pl_Name) l ∧ NoDup (pl_Name <$> l)) [cluster; tenant].
Proof.
  intros Hrep Hm.
  assert (∀ from name p, lookup_table tb from name = Some p → ∃ u, m !! (from, name) = Some u ∧
            from = po_Namespace u ∧ name = po_Name u ∧ pl_Name p = name) as Hlook.
  { intros from name p Hp. destruct (represents_lookup _ _ _ _ _ _ Hrep Hp) as (u & id & Hu & ->).
    exists u. split; [done|]. pose proof (Hm _ _ Hu) as Hk. injection Hk as -> ->.
    by destruct (plugin_of_identity r id u) as (-> & _). }
  split_and!.
  - intros p. rewrite elem_of_visible. f_equiv. split.
    + intros (from & name & Happ & Hp). destruct (Hlook _ _ _ Hp) as (u & Hu & -> & -> & _). eauto.
    + intros (u & Hu & Happ & Hp). eauto.
  - intros u p Hu Hp. destruct (represents_lookup _ _ _ _ _ _ Hrep Hp) as (v & id & Hv & ->).
    simplify_eq. destruct (plugin_of_identity r id u) as (-> & -> & -> & ->). split_and!; [done..|].
    unfold plugin_of. destruct (fromObject r id u) as [q|e] eqn:Eq; simpl; [|done]. intros Herr.
    destruct (fromObject_client _ _ _ _ Eq) as (Hvalid & _ & spec & ? & ? & _ & _ & _ & ? & ? & _).
    split; [exact Hvalid|]. split; [done|]. by exists spec.
  - eexists _, _. split; [reflexivity|]. repeat constructor.
    all: repeat case_if; try apply sorted_distinct; try (by constructor).
    all: intros name p Hp; by destruct (Hlook _ _ _ Hp) as (u & _ & _ & _ & Hn).
Qed.

(** A registration cannot point dink outside its namespace, as long as the service
    it names is named like a service: the client made for a resource connects over TCP,
    for the host of its base URL is the service's name in the resource's own namespace,
    with the port and (unless it is insecure) the mutual TLS of the spec, a positive
    timeout, and a name that is not reserved. *)
Theorem endpoint_stays_in_namespace r id u p spec :
  fromObject r id u = Ok p → SpecFromObject u = Ok spec →
  all_chars label_char (Service_Name spec) = true → all_chars label_char (po_Namespace u) = true →
  url_host (baseURL (pl_client p)) = (Service_Name spec +:+ "." +:+ po_Namespace u +:+ ".svc")%string ∧
  socket (pl_client p) = None ∧ mutual_tls (pl_client p) = negb (Spec_Insecure spec) ∧
  (0 < client_Timeout (pl_client p))%Z ∧ (1 ≤ Service_Port spec ≤ 65535)%Z ∧
  (pl_Name p ∉ ReservedNames).
Proof.
  intros Hp Hspec Hname Hns.
  destruct (fromObject_client _ _ _ _ Hp) as ((_ & _ & Hres & _) & _ & spec' & Hs' & _ & ? & Hport & _ & -> & ? & ? ).
  rewrite Hspec in Hs'. injection Hs' as <-. split; [|by split_and!; destruct Hport].
  assert (Endpoint spec (po_Namespace u) = ((if Spec_Insecure spec then "http" else "https") +:+
            "://" +:+ (Service_Name spec +:+ "." +:+ po_Namespace u +:+ ".svc") +:+ ":" +:+
            pretty (Service_Port spec)))%string as ->.
  { unfold Endpoint. generalize (pretty (Service_Port spec)). intros d. by rewrite <- !sapp_assoc. }
  apply url_host_authority.
  - assert (∀ s, all_chars label_char s = true →
              all_chars (λ c, label_char c || Ascii.eqb c ".") s = true) as Hlabel.
    { intros s. apply all_chars_impl. by intros c ->. }
    by rewrite !all_chars_app, (Hlabel _ Hname), (Hlabel _ Hns).
  - apply pretty_Z_digits. lia.
  - by destruct (Spec_Insecure spec).
Qed.
End properties.

(** ** Using plugins *)

(** An auth plugin, or a registration that is invalid, so that nobody knows what it is. *)
Definition must_ask (p : Plugin) : Prop := pl_err p ≠ None ∨ "auth"%string ∈ pl_Types p.

#[local] Instance must_ask_dec p : base.Decision (must_ask p).
Proof. unfold must_ask. apply _. Defined.

(** The plugins to ask of those registered in a namespace, by their names. *)
Definition asked_in (tb : tables) (namespace : string) (l : list Plugin) : Prop :=
  StronglySorted (le_by pl_Name) l ∧
  ∀ plugins, plugins = match tb !! namespace with Some plugins => plugins | None => ∅ end →
    l ≡ₚ filter must_ask (map_to_list plugins).*2.

(** The plugins that a namespace's requests are authorized by: the static ones, then the
    cluster's, then its own. *)
Definition authorizers (r : Registry) (tb : tables) (namespace : string) (found : list Plugin) : Prop :=
  ∃ cluster own, found = filter must_ask (static r) ++ cluster ++ own ∧
    asked_in tb (systemNamespace r) cluster ∧
    (namespace ≠ ""%string → namespace ≠ systemNamespace r → asked_in tb namespace own) ∧
    (namespace = ""%string ∨ namespace = systemNamespace r → own = []).

(** What the code finds. *)
Definition auth_plugins (r : Registry) (tb : tables) (namespace : string) : list Plugin :=
  filter (λ p, has p TypeAuth = true) (visible r tb namespace).

Lemma has_auth p : has p TypeAuth = true ↔ must_ask p.
Proof. unfold has, must_ask. unfold slices_Contains. by rewrite orb_true_iff, !bool_decide_eq_true. Qed.

Lemma filter_has_auth (l : list Plugin) : filter (λ p, has p TypeAuth = true) l = filter must_ask l.
Proof. apply list_filter_iff. intros p. apply has_auth. Qed.

Lemma asked_in_sorted tb namespace :
  asked_in tb namespace (filter must_ask (sorted (namespace_plugins tb namespace))).
Proof.
  split.
  - apply StronglySorted_filter, sort_by_sorted.
  - intros plugins ->. unfold namespace_plugins, sorted, sort_by. rewrite merge_sort_Permutation. done.
Qed.

Lemma auth_plugins_authorizers r tb namespace : authorizers r tb namespace (auth_plugins r tb namespace).
Proof.
  unfold auth_plugins, visible. rewrite filter_has_auth, !filter_app.
  eexists _, _. split; [reflexivity|]. split; [apply asked_in_sorted|]. split.
  - intros Hne Hsys. rewrite !bool_decide_eq_true_2 by done. apply asked_in_sorted.
  - intros [-> | ->].
    + rewrite (bool_decide_eq_false_2 ("" ≠ "")%string) by naive_solver. done.
    + rewrite (bool_decide_eq_false_2 (systemNamespace r ≠ systemNamespace r)) by naive_solver. by rewrite andb_false_r.
Qed.

(** The commands of [Auth] and [Lookup]: the tables are read, and then only plugins of
    [chosen] are handshaken with, each at its pace. *)
Definition only_chosen (chosen : tables → Plugin → Prop) : guard (cmd:=pcmd) := λ h _ c,
  match c with
  | ReadRegistry => True
  | c => ∃ tb p, Event _ ReadRegistry tb ∈ h ∧ chosen tb p ∧ paced p h _ c
  end.

Lemma usable_front recent recent' p : usable recent p → usable (recent ++ recent') p.
Proof.
  intros [Hv [(c & ? & ?)|(i & ? & ?)]]; (split; [done|]); [left; exists c|right; exists i]; set_solver.
Qed.

Lemma usable_more recent recent' p : usable recent p → usable (recent' ++ recent) p.
Proof.
  intros [Hv [(c & ? & ?)|(i & ? & ?)]]; (split; [done|]); [left; exists c|right; exists i]; set_solver.
Qed.

Lemma ensureReady_chosen R watching chosen tb p h h0 :
  chosen tb p → Event _ ReadRegistry tb ∈ h0 → h0 `suffix_of` h →
  wp R (only_chosen chosen) (ensureReady watching p) h (λ h' r,
    ∃ recent, h' = recent ++ h ∧
    (pl_err p ≠ None → is_ok r = false ∧ recent = []) ∧ (is_ok r = true → usable recent p)).
Proof.
  intros Hp Htb Hsuf. eapply wp_mono; [| |apply wp_suffix_guard, (ensureReady_wp R watching p h)]; [|by intros].
  intros h' X c [Hpaced [l ->]].
  assert (Event _ ReadRegistry tb ∈ l ++ h) as Hin by (destruct Hsuf as [l' ->]; set_solver).
  destruct c; try exact I; exists tb, p; exact (conj Hin (conj Hp Hpaced)).
Qed.

(** A handshake is made only when it is due, and its outcome is what is remembered.
    In every execution, whatever other goroutines do: an invalid registration is refused
    without a command; otherwise [ensureReady] handshakes only with a plugin that it
    read as not ready, and after a failure only when at least [retryAfter] has passed
    since it; the condition it leaves is the one it read or the outcome of the handshake
    just made, at the time it was made, and is ready exactly when the plugin answered
    with dink's API version and every type it is registered for; only the plugin's own
    status is written; and [ensureReady] succeeds only for a valid plugin that it read
    as ready or that passed the handshake. *)
Theorem handshakes_are_paced watching p h h' r :
  exec (ensureReady watching p) h h' r →
  guarded (paced p) h h' ∧ ∃ recent, h' = recent ++ h ∧
  (pl_err p ≠ None → is_ok r = false ∧ recent = []) ∧ (is_ok r = true → usable recent p).
Proof.
  intros Hexec.
  destruct (wp_exec _ _ _ _ _ _ _ (ensureReady_wp any_answer watching p h) Hexec) as [? ?].
  - by eapply exec_any_answer.
  - done.
Qed.

(** What [Auth] returns after the tables were read. *)
Definition authorized_by (r : Registry) (namespace : string) (h h' : history pcmd)
    (res : result plugin_failure (list Plugin)) : Prop :=
  ∃ recent tb, h' = recent ++ Event _ ReadRegistry tb :: h ∧
    match res with
    | Ok found => authorizers r tb namespace found ∧ Forall (usable recent) found
    | Err _ => ∃ p found, authorizers r tb namespace found ∧ p ∈ found
    end.

(** An authorizer of the namespace, in tables that were read. *)
Definition to_ask (r : Registry) (namespace : string) (tb : tables) (p : Plugin) : Prop :=
  ∃ found, authorizers r tb namespace found ∧ p ∈ found.

Lemma Auth_wp r namespace h :
  wp any_answer (only_chosen (to_ask r namespace)) (Auth (Some r) namespace) h
    (authorized_by r namespace h).
Proof.
  pose proof (auth_plugins_authorizers r) as Hfound. unfold Auth, Visible, is_watching. rewrite !wp_bind, wp_call. split; [done|].
  intros tb _. rewrite wp_ret. fold (auth_plugins r tb namespace).
  set (h0 := Event _ ReadRegistry tb :: h). set (found := auth_plugins r tb namespace).
  rewrite wp_bind_res.
  apply (wp_for_each_all _ _ _ _ h0 _ (λ p h', ∃ recent, h' = recent ++ h0 ∧ usable recent p)); [|done| |].
  - intros p h1 h2 [l ->] (recent & -> & Hu). exists (l ++ recent). rewrite app_assoc.
    split; [done|]. by apply usable_more.
  - intros p h1 Hp Hs. eapply wp_post; [|eapply (ensureReady_chosen _ _ _ tb p h1 h0); [eexists; by split; [apply Hfound|]|set_solver|done]].
    intros h2 res (recent & -> & Hinv & Hok). destruct Hs as [l ->]. destruct res as [[]|e].
    + exists (recent ++ l). rewrite app_assoc. split; [done|]. apply usable_front. by apply Hok.
    + exists (recent ++ l), tb. rewrite app_assoc. split; [done|]. exists p, found. split; [apply Hfound|done].
  - intros h' [l ->] Hall. rewrite wp_ret. exists l, tb. split; [done|]. split; [apply Hfound|].
    apply Forall_forall. intros p Hp. destruct (Hall p Hp) as (recent & Heq & Hu).
    by apply app_inv_tail in Heq as ->.
Qed.

(** C21: Authorization plugins fail closed.  [Auth] reads the tables once and returns the
    plugins to ask, all of them and in order: of the static plugins, then of the cluster's
    namespace, then of the tenant's own namespace, those of type auth and those whose
    registration is invalid, whatever their type; and it returns them only if every one of
    them is valid and was read as ready or passed a handshake in this execution.  So one
    invalid registration, or one plugin that does not answer, fails every request it
    applies to.  It fails only when there is a plugin to ask, and no other plugin is
    handshaken with. *)
Theorem Auth_fails_closed r namespace h h' res :
  exec (Auth (Some r) namespace) h h' res →
  guarded (only_chosen (to_ask r namespace)) h h' ∧ authorized_by r namespace h h' res.
Proof.
  intros Hexec. apply and_comm. eapply wp_exec; [apply Auth_wp|done|by eapply exec_any_answer].
Qed.

(** The last of the static plugins that match. *)
Lemma last_static_spec (f : Plugin → bool) l found p :
  fold_left (λ found s, if f s then Some s else found) l found = Some p →
  found = Some p ∨ p ∈ l ∧ f p = true.
Proof.
  revert found. induction l as [|s l IH]; intros found; simpl; [auto|].
  intros [Hs|[? ?]]%IH; [|right; set_solver]. destruct (f s) eqn:E; [|by left].
  injection Hs as ->. right. set_solver.
Qed.

(** Where a plugin that is looked up comes from. *)
Definition found_in (r : Registry) (tb : tables) (namespace name : string) (t : PluginType) (p : Plugin) : Prop :=
  has p t = true ∧
  (lookup_table tb namespace name = Some p ∨
   (∀ q, lookup_table tb namespace name = Some q → has q t = false) ∧
   (lookup_table tb (systemNamespace r) name = Some p ∨
    (∀ q, lookup_table tb (systemNamespace r) name = Some q → has q t = false) ∧
    p ∈ static r ∧ pl_Name p = name)).

Lemma of_type_Some t p q : of_type t p = Some q ↔ p = Some q ∧ has q t = true.
Proof.
  destruct p as [p|]; simpl; [|by split; [|intros [? _]]].
  destruct (has p t) eqn:E; (split; [try discriminate|intros [[= <-] ?]; congruence]).
  by intros [= <-].
Qed.

Lemma of_type_None t p : of_type t p = None ↔ ∀ q, p = Some q → has q t = false.
Proof.
  destruct p as [p|]; simpl; [|done]. destruct (has p t) eqn:E; split; try done.
  - intros Hq. by rewrite (Hq p) in E.
  - by intros _ q [= <-].
Qed.

Lemma lookup_plugin_found r tb namespace name t p :
  lookup_plugin r tb namespace name t = Some p → found_in r tb namespace name t p.
Proof.
  unfold lookup_plugin, found_in. intros Hp.
  destruct (of_type t (lookup_table tb namespace name)) as [q|] eqn:E1.
  { apply of_type_Some in E1 as [? ?]. simplify_eq. auto. }
  rewrite of_type_None in E1.
  destruct (of_type t (lookup_table tb (systemNamespace r) name)) as [q|] eqn:E2.
  { apply of_type_Some in E2 as [? ?]. simplify_eq. auto. }
  rewrite of_type_None in E2. apply last_static_spec in Hp as [?|[? [Hn Ht]%andb_true_iff]]; [done|].
  apply bool_decide_eq_true in Hn. auto 8.
Qed.

Definition looked_up (r : Registry) (namespace name : string) (t : PluginType) (h h' : history pcmd)
    (res : result lookup_failure Plugin) : Prop :=
  ∃ recent tb, h' = recent ++ Event _ ReadRegistry tb :: h ∧
    match lookup_plugin r tb namespace name t with
    | None => res = Err (ErrNotFound t name) ∧ recent = []
    | Some p => found_in r tb namespace name t p ∧
        ((res = Ok p ∧ usable recent p) ∨ ∃ f, res = Err (NotReady f))
    end.

(** A name is looked up in the tenant's own namespace, then in the cluster's, then
    among the static plugins, and nowhere else.  [Lookup] reads the tables once; it
    fails with "not found", and does nothing more, exactly when there is no plugin of
    the name and the type (an invalid registration counts as of every type); otherwise
    it returns the plugin found, provided that is valid and was read as ready or passed
    a handshake, or its failure, and handshakes with no other plugin. *)
Theorem Lookup_exact r namespace name t h h' res :
  exec (Lookup (Some r) namespace name t) h h' res →
  guarded (only_chosen (λ tb p, lookup_plugin r tb namespace name t = Some p)) h h' ∧
  looked_up r namespace name t h h' res.
Proof.
  intros Hexec. apply and_comm.
  eapply (wp_exec any_answer _ _ _ _ _ (looked_up r namespace name t h)); [|exact Hexec|by eapply exec_any_answer].
  clear h' res Hexec. unfold Lookup. rewrite wp_bind, wp_call. split; [done|]. intros tb _.
  unfold looked_up. destruct (lookup_plugin r tb namespace name t) as [p|] eqn:Ep.
  - rewrite wp_bind. eapply wp_post; [|apply (ensureReady_chosen _ _ _ tb p _ (Event _ ReadRegistry tb :: h)); [exact Ep|set_solver|done]].
    intros h' e (recent & -> & _ & Hok). pose proof (lookup_plugin_found _ _ _ _ _ _ Ep) as Hfound.
    destruct e as [[]|e]; rewrite wp_ret; exists recent, tb; (split; [done|]); rewrite Ep; naive_solver.
  - rewrite wp_ret. exists [], tb. by rewrite Ep.
Qed.

(** Specs survive the round trip through a resource. *)
Lemma spec_Object_roundtrip `{SpecCodecLaws} s namespace name u :
  spec_Object s namespace name = Ok u →
  Service_Name s ≠ ""%string → (1 ≤ Service_Port s ≤ 65535)%Z →
  SpecFromObject u = Ok s ∧ po_Namespace u = namespace ∧ po_Name u = name.
Proof.
  intros Hu Hname Hport. apply result_bind_ok in Hu as (raw & Hraw & [= <-]). unfold SpecFromObject. simpl.
  rewrite (FromUnstructured_To _ _ Hraw). rewrite bool_decide_eq_false_2 by done.
  destruct (Service_Port s <? 1)%Z eqn:E1, (65535 <? Service_Port s)%Z eqn:E2; simpl; try done; lia.
Qed.

(** ** Witnesses *)

Definition demo_spec_codec : SpecCodec := {|
  FromUnstructured raw :=
    match of_text (A:=list string * string * Z * string * bool) raw with
    | Some (types, name, port, timeout, insecure) =>
        Ok {| Spec_Types := types; Service_Name := name; Service_Port := port;
              Spec_Timeout := timeout; Spec_Insecure := insecure |}
    | None => Err (errors_New "not a spec")
    end;
  ToUnstructured s :=
    Ok (to_text (Spec_Types s, Service_Name s, Service_Port s, Spec_Timeout s, Spec_Insecure s));
  ParseDuration text := if decide (text = "2s"%string) then Some (2 * second)%Z else None
|}.
#[local] Existing Instance demo_spec_codec.

Lemma demo_spec_codec_laws : SpecCodecLaws.
Proof.
  split; [done|]. intros [] raw. simpl. intros [= <-]. by rewrite of_text_to_text.
Qed.

Definition demo_spec (service : string) : string :=
  to_text (A:=list string * string * Z * string * bool) ([TypeAuth], service, 8443%Z, "2s"%string, false).
Definition demo_object (namespace name service : string) (generation : Z) : PluginObject := {|
  po_Namespace := namespace; po_Name := name; po_UID := (namespace +:+ "/" +:+ name)%string;
  po_Generation := generation;
  po_spec := demo_spec service
|}.
Definition guard_object : PluginObject := demo_object "acme" "guard" "authz" 1.
Definition audit_object : PluginObject := demo_object "dink-system" "audit" "authz" 3.
Definition other_object : PluginObject := demo_object "umbra" "spy" "authz" 1.

Definition demo_registry : Registry :=
  {| systemNamespace := "dink-system"; tlsConfig := true; watching := true; static := [] |}.

(** The tables, the next identity, and plugins that answer and allow. *)
Definition world : Type := tables * positive.
Definition serve (X : Type) (c : pcmd X) (w : world) : X * world :=
  match c in pcmd X return X * world with
  | NewObject => (w.2, (w.1, Pos.succ w.2))
  | ReadRegistry => (w.1, w)
  | SetPlugin p => (tt, (set_plugin p w.1, w.2))
  | DeletePlugin namespace name => (tt, (delete_plugin namespace name w.1, w.2))
  | Go _ => (tt, w)
  | LockPlugin _ => (new_condition, w)
  | UnlockPlugin _ _ => (tt, w)
  | Now => (0%Z, w)
  | Info _ => (Ok {| Info_Version := "1.2"; Info_ApiVersion := 1; Info_Types := [TYPE_AUTH] |}, w)
  | PatchStatus _ _ _ _ => (Ok tt, w)
  | AuthZReq _ _ => (Ok {| Allow := true; Msg := "" |}, w)
  | AuthZRes _ _ => (Ok {| Allow := true; Msg := "" |}, w)
  | ServeNext => (tt, w)
  | ServeBuffered => ({| raw_StatusCode := 200; raw_Header := ∅; raw_Body := "{}"; raw_Sent := false |}, w)
  | FlushAll => (tt, w)
  | RespondForbidden _ => (tt, w)
  end.

Lemma serve_own_tables {A} (p : pproc A) h w :
  w.1 = tables_of h → answered own_tables h (run serve p h w).1.2.
Proof.
  revert h w. induction p as [a|X c k IH]; intros h w Hw; simpl; [apply along_refl|].
  destruct (serve X c w) as [x w'] eqn:Es.
  assert (own_tables h X c x ∧ w'.1 = tables_of (Event X c x :: h)) as [Hx Hw'].
  { destruct c; simpl in Es; injection Es as <- <-; simpl; by rewrite ?Hw. }
  eapply along_trans; [|by apply IH]. apply along_step; [apply along_refl|exact Hx].
Qed.

Definition demo_notifications : list notification :=
  [Added guard_object; Added other_object; Updated guard_object; Added audit_object; DeletedUnseen other_object].
Definition demo_run : unit * history pcmd * world :=
  run serve (informer demo_registry demo_notifications) [] (∅, 1%positive).
Definition demo_world : world := demo_run.2.

Lemma registry_tracks_resources_witness :
  represents demo_registry (tables_of demo_run.1.2) (live demo_notifications ∅) ∧
  guarded new_generation [] demo_run.1.2.
Proof.
  apply (registry_tracks_resources demo_registry demo_notifications demo_run.1.2 demo_run.1.1).
  - assert (∀ w, w ∈ demo_notifications ≫= seen_object → po_spec w = po_spec guard_object) as Hspec.
    { intros w [n [Hw Hn]]%list_elem_of_bind. unfold demo_notifications in Hn.
      rewrite !elem_of_cons in Hn.
      destruct Hn as [->|[->|[->|[->|[->|Hn]]]]]; simpl in Hw; [..|by apply not_elem_of_nil in Hn].
      all: first [apply list_elem_of_singleton in Hw as ->; cbv [po_spec guard_object audit_object other_object demo_object]; reflexivity | by apply not_elem_of_nil in Hw]. }
    intros u v Hu Hv _. by rewrite (Hspec u Hu), (Hspec v Hv).
  - apply run_exec.
  - by apply serve_own_tables.
Defined.

Definition demo_tables : tables := set_plugin (plugin_of demo_registry 1 guard_object) ∅.

Lemma visible_plugins_exact_witness :
  pl_Name <$> visible demo_registry demo_tables "acme" = ["guard"%string] ∧
  ∀ p, p ∈ visible demo_registry demo_tables "acme" ↔
     p ∈ static demo_registry ∨
     ∃ u, ({[("acme", "guard") := guard_object]} : objects) !! (po_Namespace u, po_Name u) = Some u ∧
       applies demo_registry "acme" (po_Namespace u) ∧
       lookup_table demo_tables (po_Namespace u) (po_Name u) = Some p.
Proof.
  split; [vm_compute; reflexivity|].
  refine (proj1 (visible_plugins_exact demo_registry demo_tables _ "acme" _ _)).
  - exact (represents_set demo_registry ∅ ∅ 1 guard_object (λ _ _, eq_refl)).
  - intros k u [<- <-]%lookup_singleton_Some. reflexivity.
Defined.

Lemma endpoint_stays_in_namespace_witness :
  match fromObject demo_registry 1 guard_object with
  | Ok p => url_host (baseURL (pl_client p)) = "authz.acme.svc"%string
  | Err _ => False
  end.
Proof.
  destruct (fromObject demo_registry 1 guard_object) as [p|e] eqn:Ep; [|vm_compute in Ep; discriminate Ep].
  exact (proj1 (endpoint_stays_in_namespace demo_registry 1 guard_object p
    {| Spec_Types := [TypeAuth]; Service_Name := "authz"; Service_Port := 8443; Spec_Timeout := "2s";
       Spec_Insecure := false |} Ep ltac:(vm_compute; reflexivity) eq_refl eq_refl)).
Defined.

(** The name of the service is not checked: a tenant's registration can make dink connect
    to any host. *)
Example endpoint_leaves_namespace :
  match fromObject demo_registry 1 (demo_object "acme" "guard" "evil.example/?" 1) with
  | Ok p => url_host (baseURL (pl_client p)) = "evil.example"%string
  | Err _ => False
  end.
Proof. vm_compute. reflexivity. Qed.

Definition guard_plugin : Plugin := plugin_of demo_registry 1 guard_object.

Lemma handshakes_are_paced_witness :
  let o := run serve (ensureReady true guard_plugin) [] demo_world in
  is_ok o.1.1 = true ∧ guarded (paced guard_plugin) [] o.1.2.
Proof.
  intros o. split; [vm_compute; reflexivity|].
  exact (proj1 (handshakes_are_paced true guard_plugin [] _ _ (run_exec serve _ _ _))).
Defined.

Lemma Auth_fails_closed_witness :
  let o := run serve (Auth (Some demo_registry) "acme") [] demo_world in
  result_map (λ l, pl_Name <$> l) o.1.1 = Ok ["audit"%string; "guard"%string] ∧
  authorized_by demo_registry "acme" [] o.1.2 o.1.1.
Proof.
  intros o. split; [vm_compute; reflexivity|].
  exact (proj2 (Auth_fails_closed demo_registry "acme" [] _ _ (run_exec serve _ _ _))).
Defined.

Lemma Lookup_exact_witness :
  let o := run serve (Lookup (Some demo_registry) "acme" "guard" TypeAuth) [] demo_world in
  result_map pl_Namespace o.1.1 = Ok "acme"%string ∧
  looked_up demo_registry "acme" "guard" TypeAuth [] o.1.2 o.1.1.
Proof.
  intros o. split; [vm_compute; reflexivity|].
  exact (proj2 (Lookup_exact demo_registry "acme" "guard" TypeAuth [] _ _ (run_exec serve _ _ _))).
Defined.
