(* ===== verification/Authz.v ===== *)
(** * Authz: [core/auth]

    Every request of a tenant passes the auth plugins that apply to its namespace: they
    are asked about the request before a handler sees it, and about the response before
    the middleware sends it.  The handler writes to a response modifier, which is not code
    of this repository: what is left in it is sent by [FlushAll], unless the handler sent
    output before, by flushing the modifier or by taking over its connection, as those of
    streams do. *)

From S2P Require Import Prelude GoStrings Errors Prog Identity Plugins.

Local Open Scope string_scope.

Definition maxBodySize : Z := 4 * 1024 * 1024.

Abbreviation header := (gmap string (list string)).

(** What is read of an [*http.Request]: the bytes of its body, how reading it ends ([None]
    is the end of the file), and the peer certificates of a TLS connection. *)
Record http_request := {
  http_Method : string;
  http_RequestURI : string;
  http_Header : header;
  http_Body : string;
  http_BodyErr : option error;
  http_Peers : option (list string)
}.

(** The path of a parsed URL, the media type of a Content-Type, and the JSON of a
    certificate ([pki.PeerCertificate]). *)
Class HTTPSyntax := {
  url_Path : string → option string;
  MediaType : string → option string;
  MarshalPeer : string → res string
}.

(** ** Requests ([authz.go]) *)

(** The expression [^[^\/]*\/(v\d[\d\.]*\/)?auth.*]. *)
Definition versioned_auth (s : string) : bool :=
  match s with
  | String v (String d rest) =>
      Ascii.eqb v "v" && is_digit d &&
      match trim_left (λ c, is_digit c || Ascii.eqb c ".") rest with
      | String slash rest => Ascii.eqb slash "/" && HasPrefix rest "auth"
      | EmptyString => false
      end
  | _ => false
  end.

Definition isAuthEndpoint (urlPath : string) : bool :=
  match Cut urlPath "/" with
  | (_, rest, true) => HasPrefix rest "auth" || versioned_auth rest
  | _ => false
  end.

(** [header.Get] of a canonical key *)
Definition header_Get (h : header) (key : string) : string :=
  match h !! key with Some (v :: _) => v | _ => "" end.

Definition sendBody `{HTTPSyntax} (inURL : string) (h : header) : bool :=
  match url_Path inURL with
  | None => false
  | Some path =>
      if isAuthEndpoint path then false
      else
        match MediaType (header_Get h "Content-Type") with
        | None => false
        | Some contentType => bool_decide (contentType = "application/json")
        end
  end.

(** The headers that carry credentials. *)
Definition credential_header (k : string) : bool :=
  EqualFold k "Authorization" || EqualFold k "X-Registry-Config" || EqualFold k "X-Registry-Auth".

(** Of a header with several values the last is kept; the keys of the map are distinct,
    so the order of the range over it does not matter. *)
Definition headers (h : header) : gmap string string :=
  omap last (filter (λ kv, credential_header kv.1 = false) h).

(** [bufBody.Peek(maxBodySize + 1)], and what is made of it. *)
Definition peek_body (r : http_request) : res string :=
  if (maxBodySize <? Z.of_nat (len (http_Body r)))%Z then
    Err (errors_New "request body too large for authorization plugin: size exceeds %d bytes")
  else
    match http_BodyErr r with
    | Some e => Err e
    | None => Ok (http_Body r)
    end.

(** [auth.Request] *)
Record Request := {
  ctx_Namespace : string;
  ctx_User : string;
  ctx_UserAuthNMethod : string;
  ctx_RequestMethod : string;
  ctx_RequestURI : string
}.

(** The request to the plugins.  (Writing the headers to a buffer, which the code does
    as well, does not fail, and nothing reads the buffer.) *)
Definition authz_request `{HTTPSyntax} (ctx : Request) (r : http_request) : res AuthZReqRequest :=
  let? body := if sendBody (ctx_RequestURI ctx) (http_Header r) then peek_body r else Ok "" in
  let? certificates := result_mapM MarshalPeer (default [] (http_Peers r)) in
  Ok {| req_Namespace := ctx_Namespace ctx; req_User := ctx_User ctx;
        req_UserAuthNMethod := ctx_UserAuthNMethod ctx; req_RequestMethod := ctx_RequestMethod ctx;
        req_RequestURI := ctx_RequestURI ctx; req_RequestBody := body;
        req_RequestHeaders := headers (http_Header r); req_PeerCertificates := certificates |}.

(** ** Asking the plugins *)

(** What a plugin's answer means: an error, or a denial, ends the request. *)
Definition verdict (r : result rpc_error Decision) : res unit :=
  match r with
  | Err e => Err (errors_New "plugin %s failed with error: %s")
  | Ok d => if Allow d then Ok tt else Err (errors_New "authorization denied by plugin %s: %s")
  end.

Definition ask_plugin (watching : bool) (query : Client → pcmd (result rpc_error Decision))
    (p : Plugin) : pproc (res unit) :=
  do r <- call (query (pl_client p));
  do _ <- Observe watching p (match r with Ok _ => None | Err e => Some e end);
  Ret (verdict r).

Definition ask_plugins (watching : bool) (query : Client → pcmd (result rpc_error Decision))
    (plugins : list Plugin) : pproc (res unit) :=
  for_each plugins (ask_plugin watching query).

Definition AuthZRequest `{HTTPSyntax} (watching : bool) (plugins : list Plugin) (ctx : Request)
    (r : http_request) : pproc (res AuthZReqRequest) :=
  match authz_request ctx r with
  | Err e => Ret (Err e)
  | Ok req =>
      do? _ <- ask_plugins watching (λ c, AuthZReq c req) plugins;
      Ret (Ok req)
  end.

(** The request about a response: the code sets the body a second time when it is JSON of
    another endpoint than [/auth], after having set it in any case. *)
Definition authz_response `{HTTPSyntax} (ctx : Request) (req : AuthZReqRequest) (rm : RawResponse) :
    AuthZResRequest :=
  {| res_Request := req;
     res_ResponseBody :=
       if sendBody (ctx_RequestURI ctx) (raw_Header rm) then raw_Body rm else raw_Body rm;
     res_ResponseHeaders := headers (raw_Header rm);
     res_ResponseStatusCode := wrap_signed 32 (raw_StatusCode rm) |}.

Definition AuthZResponse `{HTTPSyntax} (watching : bool) (plugins : list Plugin) (ctx : Request)
    (req : AuthZReqRequest) (rm : RawResponse) : pproc (res unit) :=
  do? _ <- ask_plugins watching (λ c, AuthZRes c (authz_response ctx req rm)) plugins;
  do _ <- call FlushAll;
  Ret (Ok tt).

(** ** The middleware ([middleware.go]) *)

Definition failure_error (f : plugin_failure) : error :=
  match f with RegistrationError e => e | CallError text => errors_New text end.

(** The identity of a request that has none in its context is the zero identity. *)
Definition no_one : Identity :=
  {| Namespace := ""; Organization := ""; CommonName := ""; Anonymous := false |}.

Definition request_context (id : option Identity) (r : http_request) : Request := {|
  ctx_Namespace := Namespace (default no_one id);
  ctx_User := CommonName (default no_one id);
  ctx_UserAuthNMethod := match id with Some _ => "TLS" | None => "" end;
  ctx_RequestMethod := http_Method r;
  ctx_RequestURI := http_RequestURI r
|}.

Definition Middleware `{HTTPSyntax} (registry : option Registry) (id : option Identity)
    (r : http_request) : pproc unit :=
  do authPlugins <- Auth registry (Namespace (default no_one id));
  match authPlugins with
  | Err e => call (RespondForbidden (Errorf "authorization plugins unavailable: %w" [failure_error e]))
  | Ok [] => call ServeNext
  | Ok plugins =>
      let ctx := request_context id r in
      let watching := is_watching registry in
      do asked <- AuthZRequest watching plugins ctx r;
      match asked with
      | Err e => call (RespondForbidden (Errorf "AuthZRequest returned error: %w" [e]))
      | Ok req =>
          do rm <- call ServeBuffered;
          do answered <- AuthZResponse watching plugins ctx req rm;
          match answered with
          | Err e => call (RespondForbidden (Errorf "AuthZResponse returned error: %w" [e]))
          | Ok _ => Ret tt
          end
      end
  end.
