(* ===== verification/AuthzProps.v ===== *)
(** * AuthzProps: what the authorization middleware guarantees

    A handler runs only after every plugin of the tenant allowed the request, and the
    middleware sends its response only after every plugin allowed the response; a handler
    that flushes, or takes over the connection, is not waited for. *)

From S2P Require Import Prelude GoStrings Errors Prog Identity Plugins PluginProps Authz.

(** ** What was asked *)

(** The events in which the plugins of a list, in order, allowed a query, from one history
    to another. *)
Fixpoint approved (query : Client → pcmd (result rpc_error Decision)) (l : list Plugin)
    (h h' : history pcmd) : Prop :=
  match l with
  | [] => h' = h
  | p :: l => ∃ msg, approved query l
                (Event _ (query (pl_client p)) (Ok {| Allow := true; Msg := msg |}) :: h) h'
  end.

(** What the middleware replies with. *)
Definition is_reply (e : event pcmd) : bool :=
  match e with
  | Event _ ServeNext _ | Event _ FlushAll _ | Event _ (RespondForbidden _) _ => true
  | _ => false
  end.
Definition replies (h : history pcmd) : nat := length (filter (λ e, is_reply e = true) h).

(** What a handler sent by itself, while the response was withheld from the client. *)
Definition sent_early (e : event pcmd) : bool :=
  match ev_cmd e in pcmd X return X → bool with ServeBuffered => raw_Sent | _ => λ _, false end (ev_res e).

(** Whatever can reach the client. *)
Definition outputs (h : history pcmd) : nat := length (filter (λ e, is_reply e || sent_early e = true) h).

Lemma outputs_replies recent h :
  (∀ e, e ∈ recent → sent_early e = false) →
  (outputs (recent ++ h) + replies h = outputs h + replies (recent ++ h))%nat.
Proof.
  intros Hquiet. unfold outputs, replies. rewrite !filter_app, !length_app.
  enough (filter (λ e, is_reply e || sent_early e = true) recent = filter (λ e, is_reply e = true) recent) as -> by lia.
  induction recent as [|e recent IH]; [done|]. rewrite !filter_cons, IH by (intros; apply Hquiet; set_solver).
  rewrite (Hquiet e) by set_solver. by rewrite orb_false_r.
Qed.

Lemma approved_snoc query l p msg : ∀ h h',
  approved query l h h' →
  approved query (l ++ [p]) h (Event _ (query (pl_client p)) (Ok {| Allow := true; Msg := msg |}) :: h').
Proof. induction l as [|q l IH]; intros h h'; simpl; [intros ->; by exists msg|]. intros [m ?]. exists m. auto. Qed.

Lemma approved_length query l h h' : approved query l h h' → ∃ pre, h' = pre ++ h ∧ length pre = length l.
Proof.
  revert h. induction l as [|p l IH]; intros h; simpl; [intros ->; by exists []|].
  intros [m (pre & -> & Hl)%IH]. exists (pre ++ [Event _ (query (pl_client p)) (Ok {| Allow := true; Msg := m |})]).
  rewrite <- app_assoc, length_app. simpl. split; [done|lia].
Qed.

(** Commands that are no replies. *)
Definition no_reply (X : Type) (c : pcmd X) : Prop :=
  match c with ServeNext | FlushAll | RespondForbidden _ => False | _ => True end.

Lemma replies_quiet {A} R (G : guard) (p : pproc A) h0 h Q :
  (∀ h X c, G h X c → no_reply X c) → replies h = replies h0 →
  wp R G p h Q → wp R G p h (λ h' a, Q h' a ∧ replies h' = replies h0).
Proof.
  intros HG. revert h. induction p as [a|X c k IH]; intros h Heq; simpl; [done|].
  intros [Hc Hk]. split; [done|]. intros x Hx. apply IH; [|by apply Hk].
  specialize (HG _ _ _ Hc). unfold replies in *. rewrite filter_cons.
  rewrite decide_False; [done|]. by destruct c.
Qed.

(** The commands of [Observe]. *)
Definition bookkeeping (X : Type) (c : pcmd X) : Prop :=
  match c with LockPlugin _ | UnlockPlugin _ _ | Now | PatchStatus _ _ _ _ => True | _ => False end.

Lemma Observe_wp R (G : guard) watching p err h :
  (∀ h X c, bookkeeping X c → G h X c) →
  wp R G (Observe watching p err) h (λ h' _, err = None → h' = h).
Proof.
  intros HG. unfold Observe.
  assert (∀ h (Q : history pcmd → unit → Prop), (∀ h', Q h' tt) → wp R G (report watching p) h Q) as Hreport.
  { intros h1 Q HQ. unfold report, writeStatus, Health.
    destruct (pl_changed p), watching, (pl_err p); simpl; auto.
    all: repeat (split; [by apply HG|]; intros ? _); try done.
    all: destruct x0; simpl; repeat (split; [by apply HG|]; intros ? _); try done; by destruct x0. }
  destruct err as [[[] text]|]; simpl; try done.
  all: repeat (split; [by apply HG|]; intros ? _); destruct (ready x); simpl; try done; by apply Hreport.
Qed.

(** The plugins are asked one after the other, while they allow. *)
Lemma ask_plugins_wp R (G : guard) watching query l h0 :
  (∀ h X c, bookkeeping X c → G h X c) →
  (∀ before p after h, l = before ++ p :: after → approved query before h0 h →
     G h _ (query (pl_client p))) →
  wp R G (ask_plugins watching query l) h0 (λ h' r, is_ok r = true → approved query l h0 h').
Proof.
  intros Hbook HG. unfold ask_plugins.
  assert (∀ rest before h, l = before ++ rest → approved query before h0 h →
            wp R G (for_each rest (ask_plugin watching query)) h
              (λ h' r, is_ok r = true → approved query l h0 h')) as Hgen; [|by apply (Hgen l [])].
  induction rest as [|p rest IH]; intros before h Hl Hb; simpl.
  { by rewrite Hl, app_nil_r. }
  split; [by eapply HG|]. intros r _. rewrite !wp_bind. eapply wp_post; [|by apply Observe_wp].
  intros h' [] Hh'. rewrite wp_ret. destruct r as [d|e]; simpl; [|done]. rewrite (Hh' eq_refl).
  destruct d as [[] msg]; simpl; [|done].
  apply (IH (before ++ [p])); [by rewrite Hl, <- app_assoc|]. by apply approved_snoc.
Qed.

(** ** The middleware *)

Section middleware.
Context `{HTTPSyntax} (r : Registry) (id : option Identity) (rq : http_request).

Local Abbreviation namespace := (Namespace (default no_one id)).
Local Abbreviation ctx := (request_context id rq).
Implicit Types (h : history pcmd) (found : list Plugin) (req : AuthZReqRequest).

(** What the plugins are told of the request at hand. *)
Definition describes (req : AuthZReqRequest) : Prop :=
  req_Namespace req = namespace ∧ req_User req = CommonName (default no_one id) ∧
  req_UserAuthNMethod req = (if decide (id = None) then "" else "TLS")%string ∧
  req_RequestMethod req = http_Method rq ∧ req_RequestURI req = http_RequestURI rq ∧
  (∀ k v, req_RequestHeaders req !! k = Some v ↔
     credential_header k = false ∧ ∃ vs, http_Header rq !! k = Some vs ∧ last vs = Some v) ∧
  (if sendBody (http_RequestURI rq) (http_Header rq)
   then req_RequestBody req = http_Body rq ∧ (Z.of_nat (len (http_Body rq)) ≤ 4194304)%Z ∧
        http_BodyErr rq = None
   else req_RequestBody req = ""%string) ∧
  Forall2 (λ peer json, MarshalPeer peer = Ok json) (default [] (http_Peers rq)) (req_PeerCertificates req).

(** What the plugins are told of the response [rm] to it: its whole body, of whatever type. *)
Definition describes_response (req : AuthZReqRequest) (rm : RawResponse) (q : AuthZResRequest) : Prop :=
  res_Request q = req ∧ res_ResponseBody q = raw_Body rm ∧
  (∀ k v, res_ResponseHeaders q !! k = Some v ↔
     credential_header k = false ∧ ∃ vs, raw_Header rm !! k = Some vs ∧ last vs = Some v) ∧
  ((-2147483648 ≤ raw_StatusCode rm ≤ 2147483647)%Z → res_ResponseStatusCode q = raw_StatusCode rm).

(** After the history [h0], the plugins [found] of the request's namespace were taken,
    up to [h1]. *)
Definition plugins_taken h0 found h1 : Prop := authorized_by r namespace h0 h1 (Ok found).

(** All of them were asked about [req], the request at hand, and allowed it, up to [h]. *)
Definition request_passed h0 found req h : Prop :=
  found ≠ [] ∧ describes req ∧
  ∃ h1, plugins_taken h0 found h1 ∧ approved (λ c, AuthZReq c req) found h1 h.

(** The handler's response [rm], written to the modifier after that, was put to the
    plugins [found], which allowed it, up to [h]. *)
Definition response_passed h0 found rm h : Prop :=
  ∃ req q h1, request_passed h0 found req h1 ∧ describes_response req rm q ∧
    approved (λ c, AuthZRes c q) found (Event _ ServeBuffered rm :: h1) h.

(** When each command may be issued, by a middleware that started after [h0]. *)
Definition authorized h0 : guard (cmd:=pcmd) := λ h _ c,
  match c with
  | ServeNext => plugins_taken h0 [] h
  | AuthZReq client req =>
      describes req ∧ ∃ h1 before p after,
        plugins_taken h0 (before ++ p :: after) h1 ∧ client = pl_client p ∧
        approved (λ c, AuthZReq c req) before h1 h
  | ServeBuffered => ∃ found req, request_passed h0 found req h
  | AuthZRes client q => ∃ before p after rm req h1,
      client = pl_client p ∧ describes_response req rm q ∧
      request_passed h0 (before ++ p :: after) req h1 ∧
      approved (λ c, AuthZRes c q) before (Event _ ServeBuffered rm :: h1) h
  | FlushAll => ∃ found rm, response_passed h0 found rm h
  | NewObject | SetPlugin _ | DeletePlugin _ _ | Go _ => False
  | _ => True
  end.

Lemma headers_exact (l : header) k v :
  headers l !! k = Some v ↔ credential_header k = false ∧ ∃ vs, l !! k = Some vs ∧ last vs = Some v.
Proof.
  unfold headers. rewrite lookup_omap. destruct (l !! k) as [vs|] eqn:E.
  - destruct (decide (credential_header k = false)) as [Hc|Hc].
    + rewrite (map_lookup_filter_Some_2 _ _ k vs) by done. naive_solver.
    + rewrite map_lookup_filter_None_2; [naive_solver|]. right. naive_solver.
  - rewrite map_lookup_filter_None_2 by (by left). naive_solver.
Qed.

(** What the plugins are told of a request is what it is.  They see the namespace and
    the name of the client's certificate, and the method and the URI of the request;
    of every header that has a value, unless it carries credentials, the last value,
    and of no other header any; the body is the whole body, of at most 4 MiB, if the
    request carries JSON and is not for [/auth], and empty otherwise; a request whose
    body is longer or cannot be read is refused. *)
Lemma authz_request_exact req : authz_request ctx rq = Ok req → describes req.
Proof.
  unfold authz_request, describes. simpl. intros Hreq.
  apply result_bind_ok in Hreq as (body & Hbody & Hreq).
  apply result_bind_ok in Hreq as (certificates & Hcerts%result_mapM_ok & [= <-]). simpl.
  split_and!; try done.
  - by destruct id.
  - intros k v. apply headers_exact.
  - destruct (sendBody _ _); [|by injection Hbody as <-]. unfold peek_body in Hbody.
    destruct (maxBodySize <? _)%Z eqn:E; [done|]. destruct (http_BodyErr rq); [done|].
    injection Hbody as <-. apply Z.ltb_ge in E. done.
Qed.

Lemma authz_response_exact req rm : describes_response req rm (authz_response ctx req rm).
Proof.
  unfold describes_response, authz_response. simpl. split_and!; [done|by destruct (sendBody _ _)|apply headers_exact|].
  intros Hcode. apply wrap_signed_id; simpl; lia.
Qed.

(** Asking is no reply. *)
Definition asking h0 : guard (cmd:=pcmd) := λ h X c, authorized h0 h X c ∧ no_reply X c.

Lemma ask_wp R watching query l h0 h1 h :
  replies h = replies h0 → h1 = h →
  (∀ before p after h, l = before ++ p :: after → approved query before h1 h →
     asking h0 h _ (query (pl_client p))) →
  wp R (authorized h0) (ask_plugins watching query l) h
    (λ h' res, (is_ok res = true → approved query l h1 h') ∧ replies h' = replies h0).
Proof.
  intros Hrep -> HG.
  eapply (wp_mono _ (asking h0)); [by intros ? ? ? [? _]|intros ? ? HQ; exact HQ|].
  apply replies_quiet; [by intros ? ? ? [_ ?]|done|]. apply ask_plugins_wp; [|done].
  intros h' X c Hc. by destruct c.
Qed.

Lemma take_plugins_wp h0 :
  wp any_answer (authorized h0) (Auth (Some r) namespace) h0
    (λ h' res, (∀ found, res = Ok found → plugins_taken h0 found h') ∧ replies h' = replies h0).
Proof.
  eapply (wp_mono _ (only_chosen (to_ask r namespace))); [| |].
  3: { apply replies_quiet; [|done|apply Auth_wp]. intros h X c Hc. destruct c; simpl in *; try done; naive_solver. }
  - intros h X c Hc. destruct c; simpl in *; try done; naive_solver.
  - intros h' res [Hres Hrep]. split; [|done]. by intros found ->.
Qed.

Lemma replies_reply e h : is_reply e = true → replies (e :: h) = S (replies h).
Proof. intros He. unfold replies. rewrite filter_cons, decide_True by done. done. Qed.

Lemma respond_wp R h0 h cause :
  replies h = replies h0 →
  wp R (authorized h0) (call (RespondForbidden cause)) h (λ h' _, replies h' = S (replies h0)).
Proof. intros Hrep. rewrite wp_call. split; [done|]. intros [] _. by rewrite replies_reply, Hrep. Qed.

Lemma answer_wp watching found req h0 h :
  request_passed h0 found req h → replies h = replies h0 →
  wp any_answer (authorized h0)
    (do rm <- call ServeBuffered;
     do answered <- AuthZResponse watching found ctx req rm;
     match answered with
     | Err e => call (RespondForbidden (Errorf "AuthZResponse returned error: %w" [e]))
     | Ok _ => Ret tt
     end) h (λ h' _, replies h' = S (replies h0)).
Proof.
  intros Hpass Hrep. rewrite wp_bind, wp_call. split; [by exists found, req|]. intros rm _.
  unfold AuthZResponse. rewrite wp_bind, wp_bind_res. eapply wp_post; [|eapply ask_wp; [|done|]].
  - intros h' [[]|e] [Happ Hrep']; simpl; [|by apply respond_wp].
    split.
    + exists found, rm, req, (authz_response ctx req rm), h. split; [done|]. split; [apply authz_response_exact|by apply Happ].
    + intros [] _. by rewrite replies_reply, Hrep'.
  - unfold replies in *. by rewrite filter_cons.
  - intros before p after h' -> Happ. split; [|done]. exists before, p, after, rm, req, h.
    by split_and!; [|apply authz_response_exact|..].
Qed.

Lemma Middleware_wp h0 :
  wp any_answer (authorized h0) (Middleware (Some r) id rq) h0 (λ h' _, replies h' = S (replies h0)).
Proof.
  unfold Middleware. rewrite wp_bind. eapply wp_post; [|apply take_plugins_wp].
  intros h1 [[|p0 l]|e] [Htaken Hrep]; [|set (found := p0 :: l) in *|by apply respond_wp].
  { rewrite wp_call. split; [by apply Htaken|]. intros [] _. by rewrite replies_reply, Hrep. }
  specialize (Htaken _ eq_refl). unfold AuthZRequest.
  destruct (authz_request ctx rq) as [req|e] eqn:Ereq;
    rewrite wp_bind; [|rewrite wp_ret; by apply respond_wp].
  rewrite wp_bind_res. eapply wp_post; [|eapply ask_wp; [done..|]].
  - intros h2 [[]|e] [Happ Hrep']; [|by apply respond_wp]. rewrite wp_ret.
    apply answer_wp; [|done]. split; [done|]. split; [by apply authz_request_exact|]. exists h1. split; [done|by apply Happ].
  - intros before p after h Hl Happ. split; [|done]. split; [by apply authz_request_exact|]. exists h1, before, p, after.
    by rewrite <- Hl.
Qed.

(** C20: No request is served, and no response passed on, that an auth plugin did not
    allow.  In every execution of the middleware, whatever the plugins answer and other
    goroutines do: the handler runs unobserved only when no auth plugin applies to the
    namespace of the request's identity; otherwise it runs only after all of the plugins
    that apply, taken as [Auth] takes them, were asked about this very request, in
    order, and every one of them answered that it allows it; what it left in the response
    modifier is sent only after every one of them was told of that response, in order, and
    allowed it; no plugin is asked after one that denied or failed; and the middleware
    replies exactly once.  If the handler sends nothing by itself, by flushing the modifier
    or by taking over its connection, that reply is all that reaches the client. *)
Theorem Middleware_authorizes h0 h' :
  exec (Middleware (Some r) id rq) h0 h' tt →
  guarded (authorized h0) h0 h' ∧ replies h' = S (replies h0) ∧
  ∃ recent, h' = recent ++ h0 ∧
    ((∀ e, e ∈ recent → sent_early e = false) → outputs h' = S (outputs h0)).
Proof.
  intros Hexec.
  destruct (wp_exec _ _ _ _ _ _ _ (Middleware_wp h0) Hexec) as [Hrep Hguard]; [by eapply exec_any_answer|].
  split_and!; [done..|]. apply exec_suffix in Hexec as [recent ->]. exists recent. split; [done|].
  intros Hquiet. pose proof (outputs_replies recent h0 Hquiet). lia.
Qed.
End middleware.

(** ** Witnesses *)

Definition demo_syntax : HTTPSyntax := {|
  url_Path := Some;
  MediaType := Some;
  MarshalPeer := Ok
|}.
#[local] Existing Instances demo_syntax demo_spec_codec.

Definition demo_request : http_request := {|
  http_Method := "POST";
  http_RequestURI := "/v1.47/containers/create";
  http_Header := {["Content-Type" := ["application/json"]; "X-Registry-Auth" := ["secret"];
                   "Accept" := ["a"; "b"]]}%string;
  http_Body := "{}";
  http_BodyErr := None;
  http_Peers := Some ["certificate"%string]
|}.
Definition demo_id : option Identity := Some
  {| Namespace := "acme"; Organization := "Acme"; CommonName := "alice"; Anonymous := false |}.

Lemma Middleware_authorizes_witness :
  let o := run serve (Middleware (Some demo_registry) demo_id demo_request) [] demo_world in
  replies o.1.2 = 1 ∧ guarded (authorized demo_registry demo_id demo_request []) [] o.1.2.
Proof.
  intros o. split; [vm_compute; reflexivity|].
  refine (proj1 (Middleware_authorizes demo_registry demo_id demo_request [] o.1.2 _)).
  pose proof (run_exec serve (Middleware (Some demo_registry) demo_id demo_request) [] demo_world) as Hexec.
  fold o in Hexec. destruct o.1.1. exact Hexec.
Defined.

(** The media type of a response decides nothing: any response is shown to the plugins. *)
Example response_body_is_always_sent :
  let identity_token := {| raw_StatusCode := 200; raw_Header := ∅; raw_Body := "token"; raw_Sent := false |} in
  let ctx := {| ctx_Namespace := "acme"; ctx_User := "alice"; ctx_UserAuthNMethod := "TLS";
                ctx_RequestMethod := "POST"; ctx_RequestURI := "/auth" |} in
  ∀ req, sendBody (ctx_RequestURI ctx) (raw_Header identity_token) = false ∧
    res_ResponseBody (authz_response ctx req identity_token) = "token"%string.
Proof. intros identity_token ctx req. split; [vm_compute|]; reflexivity. Qed.

(** A handler that flushes is seen by the client whatever the plugins say of its response:
    here they deny it, and the client gets the output and then the refusal. *)
Example flushed_output_is_not_withheld :
  let denying X (c : pcmd X) (w : world) : X * world :=
    match c in pcmd X return X * world with
    | ServeBuffered => ({| raw_StatusCode := 200; raw_Header := ∅; raw_Body := "secret"; raw_Sent := true |}, w)
    | AuthZRes _ _ => (Ok {| Allow := false; Msg := "" |}, w)
    | c => serve _ c w
    end in
  let o := run denying (Middleware (Some demo_registry) demo_id demo_request) [] demo_world in
  outputs o.1.2 = 2 ∧ head ((λ e, is_reply e) <$> o.1.2) = Some true.
Proof. vm_compute. done. Qed.
