(* ===== verification/Oci.v ===== *)
(** * Oci: references, descriptors and the commands of the image service

    The image service of [core/registry] reads a metadata index of dink's own registry
    and talks to two OCI registries: its own, and that of a pull or a push.  Their
    methods are commands.  Parsing references and digests, decoding manifests and
    matching platforms are done by libraries, which are classes here. *)

From S2P Require Import Prelude GoStrings Errors Prog Identity.

Local Open Scope string_scope.

(** ** Errors *)

(** The codes of the OCI library that are distinguished. *)
Inductive oci_code := ErrNameUnknown | ErrManifestUnknown | ErrBlobUnknown | ErrNameInvalid
                    | ErrUnauthorized | ErrDenied | ErrOther.
#[export] Instance oci_code_eq_dec : EqDecision oci_code.
Proof. solve_decision. Defined.

(** An error of the library, one with an HTTP status ([httpx]), one made with
    [fmt.Errorf] and its [%w] operand, and [ctx.Err()]. *)
Inductive ierror :=
| OciError (code : oci_code)
| HttpError (status : Z) (cause : ierror)
| Failed (format : string) (wrapped : option ierror)
| Cancelled.

Abbreviation ires := (result ierror).

Fixpoint errors_Is (code : oci_code) (e : ierror) : bool :=
  match e with
  | OciError c => bool_decide (c = code)
  | HttpError _ e => errors_Is code e
  | Failed _ (Some e) => errors_Is code e
  | Failed _ None | Cancelled => false
  end.

Definition errors_new (text : string) : ierror := Failed text None.
Definition BadRequest (e : ierror) : ierror := HttpError 400 e.
Definition HttpUnauthorized (e : ierror) : ierror := HttpError 401 e.
Definition HttpForbidden (e : ierror) : ierror := HttpError 403 e.
Definition HttpNotFound (e : ierror) : ierror := HttpError 404 e.
Definition HttpConflict (e : ierror) : ierror := HttpError 409 e.

Definition isNotFound (e : ierror) : bool :=
  errors_Is ErrNameUnknown e || errors_Is ErrManifestUnknown e || errors_Is ErrBlobUnknown e.

(** [contentExists]: a descriptor, or none if it is not found. *)
Definition contentExists {A} (r : ires A) : ires (option A) :=
  match r with
  | Ok a => Ok (Some a)
  | Err e => if isNotFound e then Ok None else Err e
  end.

(** ** Data *)

Record Platform := {
  OS : string; Architecture : string; Variant : string; OSVersion : string; OSFeatures : list string
}.

(** [oci.Descriptor] *)
Record Descriptor := {
  MediaType : string;
  Digest : string;
  Size : Z;
  Data : string;
  desc_Platform : option Platform;
  Annotations : gmap string string
}.

(** [oci.IndexOrManifest] *)
Record IndexOrManifest := {
  iom_MediaType : string;
  Manifests : list Descriptor;
  Layers : list Descriptor;
  Config : option Descriptor
}.

(** [ociref.Reference] *)
Record Reference := { Host : string; Repository : string; Tag : string; ref_Digest : string }.

(** The index's records ([backend.TagRecord], [backend.ManifestRecord]) and the entries of
    a closure. *)
Record TagRecord := { tag_Tag : string; tag_Digest : string }.
Record ManifestRecord := {
  rec_Descriptor : Descriptor;
  rec_Tags : list string;
  rec_Manifests : list Descriptor;
  rec_Layers : list Descriptor;
  rec_Config : option Descriptor
}.
Record ClosureEntry := {
  ce_Descriptor : Descriptor;
  RoleManifest : bool;
  RetainedInRepository : bool;
  Shared : bool
}.

(** Digests: the parts of one, its parser, and the size of the algorithms known. *)
Class Digests := {
  Algorithm : string → string;
  Encoded : string → string;
  ParseDigest : string → option string;
  LookupAlgorithm : string → option Z
}.
Class DigestLaws `{Digests} := {
  ParseDigest_parts : ∀ s d, ParseDigest s = Some d → s = d ∧ d = Algorithm d +:+ ":" +:+ Encoded d;
  Algorithm_no_dash : ∀ s d, ParseDigest s = Some d → has_char "-" (Algorithm d) = false
}.

Class References := { ParseRelative : string → option Reference; ref_String : Reference → string }.

Class ManifestJSON := { readIndexOrManifest : string → ires IndexOrManifest }.

(** [platforms.Default], [Only] and [OnlyStrict]: whether a platform matches. *)
Class Platforms := {
  DefaultPlatform : Platform → bool;
  Only : Platform → Platform → bool;
  OnlyStrict : Platform → Platform → bool
}.

(** ** Commands *)

(** dink's own registry, and the other one of a transfer. *)
Inductive side := Internal | Remote.
#[export] Instance side_eq_dec : EqDecision side.
Proof. solve_decision. Defined.

Inductive icmd : Type → Type :=
(* the metadata index *)
| Repositories (after : string) : icmd (ires (list string))
| TagRecords (repository after : string) : icmd (ires (list TagRecord))
| IndexResolveTag (repository tag : string) : icmd (ires Descriptor)
| IndexManifest (repository digest : string) : icmd (ires ManifestRecord)
| Closure (repository digest : string) : icmd (ires (list ClosureEntry))
| ImageConfig (config : Descriptor) : icmd (ires (option string))
(* the registries; [GetManifest] answers with the manifest read into the descriptor *)
| GetManifest (s : side) (repository digest : string) : icmd (ires Descriptor)
| ResolveManifest (s : side) (repository digest : string) : icmd (ires Descriptor)
| ResolveTag (s : side) (repository tag : string) : icmd (ires Descriptor)
| ResolveBlob (s : side) (repository digest : string) : icmd (ires Descriptor)
(* opening a blob, then reading it *)
| GetBlob (s : side) (repository digest : string) : icmd (ires (ires string))
| PushBlob (s : side) (repository : string) (desc : Descriptor) (content : ires string) : icmd (ires unit)
| PushManifest (s : side) (repository data mediaType digest : string) (tags : list string) :
    icmd (ires unit)
| DeleteTag (repository tag : string) : icmd (ires unit)
| DeleteManifest (repository digest : string) : icmd (ires unit)
| DeleteBlob (repository digest : string) : icmd (ires unit)
| Referrers (s : side) (repository digest : string) : icmd (ires (list Descriptor))
| Tags (s : side) (repository : string) : icmd (ires (list string))
(* blobs copied by concurrent goroutines; Copier.v is what is behind it *)
| CopyBlobs (from to : side) (source destination : string) (blobs : list Descriptor) : icmd (ires bool)
(* whether the context is done, and a message of a progress stream *)
| CtxErr : icmd bool
| Message (id text : string) : icmd unit.

Abbreviation iproc := (prog icmd).

Definition with_Tag (ref : Reference) (tag : string) : Reference :=
  {| Host := Host ref; Repository := Repository ref; Tag := tag; ref_Digest := ref_Digest ref |}.
Definition with_Digest (ref : Reference) (digest : string) : Reference :=
  {| Host := Host ref; Repository := Repository ref; Tag := Tag ref; ref_Digest := digest |}.

(** ** Media types *)

Definition isIndex (mediaType : string) : bool :=
  slices_Contains ["application/vnd.oci.image.index.v1+json";
                   "application/vnd.docker.distribution.manifest.list.v2+json"] mediaType.
Definition isManifest (mediaType : string) : bool :=
  slices_Contains ["application/vnd.oci.image.manifest.v1+json";
                   "application/vnd.docker.distribution.manifest.v2+json"] mediaType.
Definition isImageLayer (mediaType : string) : bool :=
  slices_Contains ["application/vnd.oci.image.layer.v1.tar"; "application/vnd.oci.image.layer.v1.tar+gzip";
                   "application/vnd.oci.image.layer.v1.tar+zstd"] mediaType.
Definition isConfig (mediaType : string) : bool :=
  bool_decide (mediaType = "application/vnd.oci.image.config.v1+json").

Lemma isIndex_not_manifest mediaType : isIndex mediaType = true → isManifest mediaType = false.
Proof.
  intros [->|[->|H]%elem_of_cons]%bool_decide_eq_true%elem_of_cons; [reflexivity..|by apply not_elem_of_nil in H].
Qed.

(** ** References ([ref.go]) *)

Section references.
Context `{Digests}.

(** A port's colon is not valid in a repository. *)
Definition repositoryHost (host : string) : string := replace_char ":" "-" host.

Definition digestTag (d : string) : string := Algorithm d +:+ "-" +:+ Encoded d.

Definition digestForTag (tag : string) : option string :=
  match Cut tag "-" with
  | (algorithm, encoded, true) => ParseDigest (algorithm +:+ ":" +:+ encoded)
  | _ => None
  end.

Definition byDigest (tag : string) : bool :=
  match digestForTag tag with Some _ => true | None => false end.

Definition repositoryFor (id : Identity) (ref : Reference) : Reference :=
  let repo :=
    if decide (Host ref = "docker.io")
    then Namespace id +:+ "/" +:+ TrimPrefix (Repository ref) "library/"
    else Namespace id +:+ "/" +:+ repositoryHost (Host ref) +:+ "/" +:+ Repository ref in
  let tag :=
    if bool_decide (Tag ref = "") && negb (bool_decide (ref_Digest ref = ""))
    then digestTag (ref_Digest ref) else Tag ref in
  {| Host := ""; Repository := repo; Tag := tag; ref_Digest := ref_Digest ref |}.

Definition BuildReference (id : Identity) (ref : Reference) : Reference := repositoryFor id ref.

Definition idForRef (digest : string) : string := take_chars 12 (Encoded digest).

Definition dockerFriendlyName `{References} (ref : Reference) : string :=
  if decide (Host ref = "docker.io") then TrimPrefix (ref_String ref) "docker.io/library/"
  else ref_String ref.

Definition tagOrDigest (ref : Reference) : string :=
  if decide (Tag ref = "") then ref_Digest ref else Tag ref.

(** ** Lemmas *)

(** Every reference maps into the tenant's namespace. *)
Lemma repositoryFor_namespace id ref :
  HasPrefix (Repository (repositoryFor id ref)) (Namespace id +:+ "/") = true.
Proof.
  unfold repositoryFor. simpl.
  case_decide; apply HasPrefix_spec; eexists; by rewrite sapp_assoc.
Qed.

(** The tag form of a digest is recognised, and gives the digest back. *)
Lemma digestForTag_digestTag `{!DigestLaws} s d :
  ParseDigest s = Some d → digestForTag (digestTag d) = ParseDigest d.
Proof.
  intros Hd. destruct (ParseDigest_parts s d Hd) as [_ Hparts].
  unfold digestForTag, digestTag. change ("-" +:+ Encoded d) with (String "-" (Encoded d)).
  rewrite Cut_char by (by eapply Algorithm_no_dash). by rewrite <- Hparts.
Qed.
End references.
