(* ===== verification/Images.v ===== *)
(** * Images: [core/registry/resolve.go], [images.go], [image_list.go] and [inspect.go]

    The images of a namespace, read from the metadata index: finding one by name, digest
    or identifier ([resolveImage]), loading its manifests ([imageTree]), listing
    ([Images]), describing ([manifestSummaries]) and removing it ([ImageDelete]).

    The index is read in pages of [indexPage] records, each asked for after the last one
    of the page before; [page_fuel] bounds the number of pages, and [OutOfPages] is what a
    loop answers that reached it (see ImageProps.v: with pages as the index gives them,
    it is not reached). *)

From S2P Require Import Prelude GoStrings Errors Prog Identity Oci.

Local Open Scope string_scope.

Definition indexPage : Z := 1000.

Definition OutOfPages : ierror := errors_new "out of pages".

(** Sums of sizes wrap around. *)
Definition add64 (a b : Z) : Z := wrap_signed 64 (a + b).

(** ** Stored images *)

Record storedPlatform := {
  sp_OS : string; sp_Architecture : string; sp_Variant : option string; sp_OSVersion : option string;
  sp_OSFeatures : list string
}.
Record storedAnnotation := { sa_Key : string; sa_Value : string }.
Record storedSized := { ss_Digest : string; ss_Size : Z }.
Record storedDescriptor := {
  sd_Digest : string; sd_Size : Z; sd_MediaType : string; sd_Annotations : list storedAnnotation
}.
Record storedImageConfig := {
  sc_Created : option Z; sc_OS : string; sc_Architecture : string; sc_Variant : string; sc_Raw : string
}.
Record storedImage := {
  si_Digest : string; si_MediaType : string; si_Size : Z;
  si_Config : option storedSized;
  si_Layers : list storedDescriptor;
  si_ImageConfig : option storedImageConfig
}.
Record storedIndexChild := {
  child_Digest : string; child_MediaType : string; child_Size : Z;
  child_Platform : option storedPlatform;
  child_Annotations : list storedAnnotation;
  child_Manifest : option storedImage
}.
Record storedImageTree := {
  tree_image : storedImage; tree_Tags : list string; tree_Manifests : list storedIndexChild
}.

(** What is read of an image configuration: when it was created (the zero time is none),
    and its platform. *)
Class ConfigJSON := { decodeConfig : string → ires (option Z * string * string * string) }.

Definition optional (value : string) : option string := if decide (value = "") then None else Some value.
Definition deref (value : option string) : string := default "" value.

Definition platformOf (p : option Platform) : option storedPlatform :=
  match p with
  | None => None
  | Some p => Some {| sp_OS := OS p; sp_Architecture := Architecture p; sp_Variant := optional (Variant p);
                      sp_OSVersion := optional (OSVersion p); sp_OSFeatures := OSFeatures p |}
  end.

Definition ociPlatform (p : storedPlatform) : Platform :=
  {| OS := sp_OS p; Architecture := sp_Architecture p; Variant := deref (sp_Variant p);
     OSVersion := deref (sp_OSVersion p); OSFeatures := sp_OSFeatures p |}.

Definition annotationList (m : gmap string string) : list storedAnnotation :=
  (λ k, {| sa_Key := k; sa_Value := default "" (m !! k) |}) <$> sorted_keys m.

Definition annotationValue (l : list storedAnnotation) (key : string) : string :=
  match List.find (λ a, bool_decide (sa_Key a = key)) l with Some a => sa_Value a | None => "" end.

Definition annotationMap (l : list storedAnnotation) : gmap string string :=
  fold_left (λ m a, <[sa_Key a := sa_Value a]> m) l ∅.

(** ** Resolving names ([resolve.go]) *)

Record resolvedImage := { ri_namespace : string; ri_repository : string; ri_digest : string; ri_tag : string }.

Section images.
Context `{Unicode} `{Digests} `{References} `{ConfigJSON} `{Platforms} (page_fuel : nat).

Definition display (i : resolvedImage) : string := TrimPrefix (ri_repository i) (ri_namespace i +:+ "/").

Definition reference (i : resolvedImage) : string :=
  if bool_decide (ri_tag i = "") || byDigest (ri_tag i) then display i +:+ "@" +:+ ri_digest i
  else display i +:+ ":" +:+ ri_tag i.

(** [imageIDPattern], [^[0-9a-f]{4,}$] *)
Definition imageIDPattern (value : string) : bool := all_chars is_hex value && (4 <=? len value)%nat.

Definition imageIDPrefix (name : string) : option string :=
  if has_char "/" name || has_char "@" name then None
  else
    let check value size :=
      if (size * 2 <? Z.of_nat (len value))%Z || negb (imageIDPattern value) then None else Some value in
    match Cut name ":" with
    | (algorithm, encoded, true) =>
        match LookupAlgorithm algorithm with
        | None => None
        | Some size => check encoded size
        end
    | _ => check name 32%Z
    end.

(** The index's manifest, or none if it is not stored. *)
Definition manifest (repository digest : string) : iproc (ires (option ManifestRecord)) :=
  do r <- call (IndexManifest repository digest);
  Ret (match r with
       | Ok record => Ok (Some record)
       | Err e => if isNotFound e || errors_Is ErrNameInvalid e then Ok None else Err e
       end).

(** A page is the last one when it is not full. *)
Definition last_page {A} (page : list A) : bool := (Z.of_nat (length page) <? indexPage)%Z.

(** The names of one page: those of the namespace, and whether the page goes beyond it. *)
Fixpoint scan_names (prefix : string) (names : list string) : list string * bool :=
  match names with
  | [] => ([], false)
  | name :: names =>
      if HasPrefix name prefix then
        let '(found, stop) := scan_names prefix names in (name :: found, stop)
      else if String.ltb prefix name then ([], true)
      else scan_names prefix names
  end.

Fixpoint repository_pages (fuel : nat) (prefix after : string) (result : list string) :
    iproc (ires (list string)) :=
  match fuel with
  | O => Ret (Err OutOfPages)
  | S fuel =>
      do? names <- call (Repositories after);
      let '(found, stop) := scan_names prefix names in
      let result := (result ++ found)%list in
      if stop then Ret (Ok result)
      else if last_page names then Ret (Ok result)
      else repository_pages fuel prefix (default "" (last names)) result
  end.

(** Repositories sort by name: the pages start just before the namespace's. *)
Definition namespaceRepositories (namespace : string) : iproc (ires (list string)) :=
  if decide (namespace = "") then repository_pages page_fuel "" "" []
  else repository_pages page_fuel (namespace +:+ "/") (namespace +:+ ".") [].

(** The tags of a repository, page by page; a repository that is gone has no more. *)
Fixpoint tag_pages {S} (fuel : nat) (repository after : string)
    (f : S → list TagRecord → iproc (ires S)) (s : S) : iproc (ires S) :=
  match fuel with
  | O => Ret (Err OutOfPages)
  | Datatypes.S fuel =>
      do tags <- call (TagRecords repository after);
      match tags with
      | Err e => Ret (if isNotFound e then Ok s else Err e)
      | Ok tags =>
          do? s <- f s tags;
          if last_page tags then Ret (Ok s)
          else tag_pages fuel repository (default "" (tag_Tag <$> last tags)) f s
      end
  end.

Definition containsImage (images : list resolvedImage) (image : resolvedImage) : bool :=
  existsb (λ existing, bool_decide (ri_digest existing = ri_digest image)) images.

Definition match_tag (namespace repository prefix : string) (matches : list resolvedImage)
    (tag : TagRecord) : list resolvedImage :=
  if negb (HasPrefix (Encoded (tag_Digest tag)) prefix) then matches
  else
    let m := {| ri_namespace := namespace; ri_repository := repository; ri_digest := tag_Digest tag;
                ri_tag := "" |} in
    if containsImage matches m then matches else (matches ++ [m])%list.

Fixpoint match_repositories (namespace prefix : string) (repos : list string)
    (matches : list resolvedImage) : iproc (ires (list resolvedImage)) :=
  match repos with
  | [] => Ret (Ok matches)
  | repo :: repos =>
      do? matches <- tag_pages page_fuel repo ""
        (λ matches tags, Ret (Ok (fold_left (match_tag namespace repo prefix) tags matches))) matches;
      match_repositories namespace prefix repos matches
  end.

Definition imageByID (namespace prefix : string) : iproc (ires (option resolvedImage)) :=
  do? repos <- namespaceRepositories namespace;
  do? matches <- match_repositories namespace prefix repos [];
  Ret (match matches with
       | [] => Ok None
       | [image] => Ok (Some image)
       | _ => Err (BadRequest (errors_new "multiple images found with prefix %s"))
       end).

Definition no_such_image : ierror := HttpNotFound (errors_new "no such image: %s").

(** A name, once it is known not to be an identifier. *)
Definition resolve_reference (id : Identity) (name : string) : iproc (ires resolvedImage) :=
  match ParseRelative name with
  | None => Ret (Err (BadRequest (errors_new "invalid reference")))
  | Some parsed =>
      let ref := repositoryFor id parsed in
      let image tag digest :=
        {| ri_namespace := Namespace id; ri_repository := Repository ref; ri_digest := digest; ri_tag := tag |} in
      if negb (bool_decide (ref_Digest parsed = "")) then
        do? record <- manifest (Repository ref) (ref_Digest parsed);
        Ret (match record with
             | Some record => Ok (image "" (Digest (rec_Descriptor record)))
             | None => Err no_such_image
             end)
      else
        let tag := if decide (Tag ref = "") then "latest" else Tag ref in
        do r <- call (IndexResolveTag (Repository ref) tag);
        Ret (match r with
             | Ok descriptor => Ok (image tag (Digest descriptor))
             | Err e => if isNotFound e || errors_Is ErrNameInvalid e then Err no_such_image else Err e
             end)
  end.

Definition missing_identity : ierror := errors_new "missing identity in context".

Definition resolveImage (id : option Identity) (name : string) : iproc (ires resolvedImage) :=
  match id with
  | None => Ret (Err missing_identity)
  | Some id =>
      let name := TrimSpace name in
      if decide (name = "") then Ret (Err (BadRequest (errors_new "image name is required")))
      else
        do? found <- match imageIDPrefix name with
                     | Some prefix => imageByID (Namespace id) prefix
                     | None => Ret (Ok None)
                     end;
        match found with
        | Some image => Ret (Ok image)
        | None => resolve_reference id name
        end
  end.

(** ** Loading manifests ([images.go]) *)

Definition storedImage_of (record : ManifestRecord) : iproc (ires storedImage) :=
  let image config imageConfig :=
    {| si_Digest := Digest (rec_Descriptor record); si_MediaType := MediaType (rec_Descriptor record);
       si_Size := Size (rec_Descriptor record); si_Config := config;
       si_Layers := (λ layer, {| sd_Digest := Digest layer; sd_Size := Size layer;
                                 sd_MediaType := MediaType layer;
                                 sd_Annotations := annotationList (Annotations layer) |})
                      <$> rec_Layers record;
       si_ImageConfig := imageConfig |} in
  match rec_Config record with
  | None => Ret (Ok (image None None))
  | Some config =>
      let sized := Some {| ss_Digest := Digest config; ss_Size := Size config |} in
      do? raw <- call (ImageConfig config);
      match raw with
      | None => Ret (Ok (image sized None))
      | Some raw =>
          Ret (match decodeConfig raw with
               | Err e => Err (Failed "decoding image config %s: %w" (Some e))
               | Ok (created, os, architecture, variant) =>
                   Ok (image sized (Some {| sc_Created := created; sc_OS := os;
                                            sc_Architecture := architecture; sc_Variant := variant;
                                            sc_Raw := raw |}))
               end)
      end
  end.

Definition load_child (repository : string) (child : Descriptor) : iproc (ires storedIndexChild) :=
  let entry m :=
    {| child_Digest := Digest child; child_MediaType := MediaType child; child_Size := Size child;
       child_Platform := platformOf (desc_Platform child);
       child_Annotations := annotationList (Annotations child); child_Manifest := m |} in
  do? record <- manifest repository (Digest child);
  match record with
  | None => Ret (Ok (entry None))
  | Some record => do? image <- storedImage_of record; Ret (Ok (entry (Some image)))
  end.

Fixpoint load_children (repository : string) (l : list Descriptor) : iproc (ires (list storedIndexChild)) :=
  match l with
  | [] => Ret (Ok [])
  | child :: l =>
      do? entry <- load_child repository child;
      do? entries <- load_children repository l;
      Ret (Ok (entry :: entries))
  end.

Definition imageTree (repository digest : string) : iproc (ires (option storedImageTree)) :=
  do? record <- manifest repository digest;
  match record with
  | None => Ret (Ok None)
  | Some record =>
      do? image <- storedImage_of record;
      do? children <- load_children repository (rec_Manifests record);
      Ret (Ok (Some {| tree_image := image; tree_Tags := rec_Tags record; tree_Manifests := children |}))
  end.

(** [parseIndexManifest] on the children: the first one whose platform matches, and the
    attestations that refer to it ([manifest.go]). *)
Definition AnnotationReferenceType : string := "vnd.docker.reference.type".
Definition AnnotationReferenceDigest : string := "vnd.docker.reference.digest".
Definition AnnotationReferenceTypeAttestation : string := "attestation-manifest".

Definition annotation (d : Descriptor) (key : string) : string := default "" (Annotations d !! key).

Definition matches_platform (matcher : Platform → bool) (m : Descriptor) : bool :=
  match desc_Platform m with Some p => matcher p | None => false end.

Definition is_attestation (digest : string) (m : Descriptor) : bool :=
  bool_decide (annotation m AnnotationReferenceType = AnnotationReferenceTypeAttestation) &&
  bool_decide (annotation m AnnotationReferenceDigest = digest).

Record indexManifest := { platformDigest : string; im_descriptors : list Descriptor }.

Definition parseIndexManifest (p : option (Platform → bool)) (index : IndexOrManifest) : ires indexManifest :=
  let matcher := default DefaultPlatform p in
  if negb (isIndex (iom_MediaType index)) then Err (errors_new "not an index")
  else
    match List.find (matches_platform matcher) (Manifests index) with
    | None => Err (errors_new "no manifest found for platform %s")
    | Some m =>
        if decide (Digest m = "") then Err (errors_new "no manifest found for platform %s")
        else Ok {| platformDigest := Digest m;
                   im_descriptors := m :: List.filter (is_attestation (Digest m)) (Manifests index) |}
    end.

(** ** The child that describes an index *)

Definition child_descriptor (child : storedIndexChild) : Descriptor :=
  {| MediaType := child_MediaType child; Digest := child_Digest child; Size := child_Size child;
     Data := ""; desc_Platform := ociPlatform <$> child_Platform child; Annotations := ∅ |}.

Definition defaultPlatformChild (mediaType : string) (children : list storedIndexChild) :
    option storedIndexChild :=
  match parseIndexManifest None {| iom_MediaType := mediaType; Manifests := child_descriptor <$> children;
                                   Layers := []; Config := None |} with
  | Err _ => None
  | Ok selected => List.find (λ child, bool_decide (child_Digest child = platformDigest selected)) children
  end.

(** A child that was pulled and is of a known platform. *)
Definition is_present (child : storedIndexChild) : bool :=
  match child_Manifest child, child_Platform child with
  | Some _, Some p => negb (bool_decide (sp_OS p = "unknown"))
  | _, _ => false
  end.

Definition presentPlatformChild (mediaType : string) (children : list storedIndexChild) :
    option storedIndexChild :=
  let present := List.filter is_present children in
  match defaultPlatformChild mediaType present with
  | Some child => Some child
  | None => head present
  end.

Definition manifestSize (image : storedImage) : Z :=
  fold_left (λ size layer, add64 size (sd_Size layer)) (si_Layers image)
    (match si_Config image with Some config => add64 0 (ss_Size config) | None => 0%Z end).

(** ** Manifests of an image ([manifestSummaries]) *)

Inductive ManifestKind := KindUnknown | KindAttestation | KindImage.
#[export] Instance ManifestKind_eq_dec : EqDecision ManifestKind.
Proof. solve_decision. Defined.

(** [imagetypes.ManifestSummary]; [Size.Content] and [Size.Total] are the two sizes,
    [ms_For] and [ms_Platform] what the properties of its kind hold. *)
Record ManifestSummary := {
  ms_ID : string;
  ms_Descriptor : Descriptor;
  ms_Available : bool;
  ms_Content : Z;
  ms_Total : Z;
  ms_Kind : ManifestKind;
  ms_For : option string;
  ms_Platform : option Platform
}.

Definition manifestSummary (child : storedIndexChild) : ManifestSummary :=
  let descriptor :=
    {| MediaType := child_MediaType child; Digest := child_Digest child; Size := child_Size child; Data := "";
       desc_Platform := ociPlatform <$> child_Platform child;
       Annotations := annotationMap (child_Annotations child) |} in
  let size := match child_Manifest child with
              | Some m => add64 (child_Size child) (manifestSize m)
              | None => 0%Z
              end in
  let attestation := bool_decide (annotationValue (child_Annotations child) AnnotationReferenceType =
                                  AnnotationReferenceTypeAttestation) in
  let image := match desc_Platform descriptor with
               | Some p => negb attestation && negb (bool_decide (OS p = "unknown"))
               | None => false
               end in
  {| ms_ID := child_Digest child;
     ms_Descriptor := descriptor;
     ms_Available := bool_decide (is_Some (child_Manifest child));
     ms_Content := size; ms_Total := size;
     ms_Kind := if attestation then KindAttestation else if image then KindImage else KindUnknown;
     ms_For := if attestation
               then Some (annotationValue (child_Annotations child) AnnotationReferenceDigest) else None;
     ms_Platform := if image then desc_Platform descriptor else None |}.

Definition manifestSummaries (children : list storedIndexChild) : list ManifestSummary :=
  manifestSummary <$> children.

(** The children of an index, or the manifest itself as the only one. *)
Definition listed_children (tree : storedImageTree) : list storedIndexChild :=
  let image := tree_image tree in
  if isIndex (si_MediaType image) then tree_Manifests tree
  else [{| child_Digest := si_Digest image; child_MediaType := si_MediaType image; child_Size := si_Size image;
           child_Platform := (λ config, {| sp_OS := sc_OS config; sp_Architecture := sc_Architecture config;
                                           sp_Variant := optional (sc_Variant config); sp_OSVersion := None;
                                           sp_OSFeatures := [] |}) <$> si_ImageConfig image;
           child_Annotations := []; child_Manifest := Some image |}].

(** The sizes of the content that is stored, and the digests that are not. *)
Record presence := { present : gmap string Z; missing : gset string }.

(** What is known of a blob, asking the registry the first time. *)
Definition blob_size (repository digest : string) (p : presence) : iproc (ires (option Z * presence)) :=
  match present p !! digest with
  | Some size => Ret (Ok (Some size, p))
  | None =>
      if bool_decide (digest ∈ missing p) then Ret (Ok (None, p))
      else
        do r <- call (ResolveBlob Internal repository digest);
        Ret (match r with
             | Ok descriptor =>
                 Ok (Some (Size descriptor),
                     {| present := <[digest := Size descriptor]> (present p); missing := missing p |})
             | Err e =>
                 if isNotFound e
                 then Ok (None, {| present := present p; missing := {[digest]} ∪ missing p |})
                 else Err e
             end)
  end.

(** The blobs of a manifest, each counted once: the size of those found, and whether all
    were. *)
Fixpoint count_blobs (repository : string) (blobs : list storedSized) (counted : gset string)
    (content : Z) (available : bool) (p : presence) : iproc (ires (Z * bool * presence)) :=
  match blobs with
  | [] => Ret (Ok (content, available, p))
  | blob :: blobs =>
      if bool_decide (ss_Digest blob ∈ counted) then count_blobs repository blobs counted content available p
      else
        let counted := {[ss_Digest blob]} ∪ counted in
        do? found <- blob_size repository (ss_Digest blob) p;
        match found with
        | (Some size, p) => count_blobs repository blobs counted (add64 content size) available p
        | (None, p) => count_blobs repository blobs counted content false p
        end
  end.

Definition image_blobs (m : storedImage) : list storedSized :=
  match si_Config m with Some config => [config] | None => [] end ++
  ((λ layer, {| ss_Digest := sd_Digest layer; ss_Size := sd_Size layer |}) <$> si_Layers m).

Definition sized_summary (summary : ManifestSummary) (content : Z) (available : bool) : ManifestSummary :=
  {| ms_ID := ms_ID summary; ms_Descriptor := ms_Descriptor summary; ms_Available := available;
     ms_Content := content; ms_Total := content; ms_Kind := ms_Kind summary; ms_For := ms_For summary;
     ms_Platform := ms_Platform summary |}.

Fixpoint size_children (repository : string) (children : list storedIndexChild) (p : presence) :
    iproc (ires (list ManifestSummary * presence)) :=
  match children with
  | [] => Ret (Ok ([], p))
  | child :: children =>
      do? '(summary, p) <-
        match child_Manifest child with
        | None => Ret (Ok (sized_summary (manifestSummary child) 0 false, p))
        | Some m =>
            let p := {| present := <[child_Digest child := child_Size child]> (present p);
                        missing := missing p |} in
            do? '(content, available, p) <-
              count_blobs repository (image_blobs m) {[child_Digest child]} (child_Size child)
                (bool_decide (is_Some (si_Config m))) p;
            Ret (Ok (sized_summary (manifestSummary child) content available, p))
        end;
      do? '(summaries, p) <- size_children repository children p;
      Ret (Ok (summary :: summaries, p))
  end.

(** The sum of the map's sizes, which does not depend on the order of its entries. *)
Definition total_size (p : presence) : Z := map_fold (λ _ size total, add64 total size) 0%Z (present p).

Definition listManifestSummaries (client : ires unit) (repository : string) (tree : storedImageTree) :
    iproc (ires (list ManifestSummary * Z)) :=
  match client with
  | Err e => Ret (Err e)
  | Ok _ =>
      let image := tree_image tree in
      do? '(summaries, p) <- size_children repository (listed_children tree)
        {| present := {[si_Digest image := si_Size image]}; missing := ∅ |};
      Ret (Ok (summaries, total_size p))
  end.

(** ** Listing *)

(** [imagetypes.Summary] *)
Record Summary := {
  sum_RepoTags : list string;
  sum_RepoDigests : list string;
  sum_Created : Z;
  sum_ID : string;
  sum_Descriptor : option Descriptor;
  sum_Size : Z;
  sum_Manifests : list ManifestSummary
}.

(** The image of a tag: of an index, that of the child chosen; and the size of the
    manifests that name it. *)
Definition summary_image (root : storedImageTree) : option (storedImage * Z) :=
  let image := tree_image root in
  if isIndex (si_MediaType image) then
    match presentPlatformChild (si_MediaType image) (tree_Manifests root) with
    | Some child =>
        match child_Manifest child with
        | Some m => Some (m, add64 (si_Size image) (si_Size m))
        | None => None
        end
    | None => None
    end
  else Some (image, si_Size image).

Definition imageSummary (namespace repo tag : string) (root : option storedImageTree) : option Summary :=
  match root with
  | None => None
  | Some root =>
      match summary_image root with
      | None => None
      | Some (image, size) =>
          match si_Config image with
          | None => None
          | Some config =>
              let totalSize := fold_left (λ size layer, add64 size (sd_Size layer)) (si_Layers image)
                                 (add64 size (ss_Size config)) in
              let display := TrimPrefix repo (namespace +:+ "/") in
              let digestRef := display +:+ "@" +:+ si_Digest (tree_image root) in
              let c := si_ImageConfig image in
              Some {| sum_RepoTags := [if byDigest tag then digestRef else display +:+ ":" +:+ tag];
                      sum_RepoDigests := [digestRef];
                      sum_Created := default 0%Z (c ≫= sc_Created);
                      sum_ID := si_Digest (tree_image root);
                      sum_Descriptor :=
                        Some {| MediaType := si_MediaType (tree_image root);
                                Digest := si_Digest (tree_image root); Size := totalSize; Data := "";
                                desc_Platform := Some {| OS := default "" (sc_OS <$> c);
                                                         Architecture := default "" (sc_Architecture <$> c);
                                                         Variant := default "" (sc_Variant <$> c);
                                                         OSVersion := ""; OSFeatures := [] |};
                                Annotations := ∅ |};
                      sum_Size := totalSize;
                      sum_Manifests := [] |}
          end
      end
  end.

(** A summary with the manifests of its image ([options.Manifests]). *)
Definition with_manifests (tree : storedImageTree) (summary : Summary) (manifests : list ManifestSummary)
    (size : Z) : Summary :=
  {| sum_RepoTags := sum_RepoTags summary; sum_RepoDigests := sum_RepoDigests summary;
     sum_Created := sum_Created summary; sum_ID := sum_ID summary;
     sum_Descriptor :=
       (λ d, {| MediaType := MediaType d; Digest := Digest d; Size := si_Size (tree_image tree);
                Data := Data d;
                desc_Platform := if isIndex (si_MediaType (tree_image tree)) then None else desc_Platform d;
                Annotations := Annotations d |}) <$> sum_Descriptor summary;
     sum_Size := size; sum_Manifests := manifests |}.

(** [with_Manifests] is [options.Manifests], and [client] the outcome of [r.client()]. *)
Section listing.
Context (with_Manifests : bool) (client : ires unit).

(** The entry of a tag, if it has one. *)
Definition tag_summary (namespace repo : string) (tag : TagRecord) : iproc (ires (option Summary)) :=
  do? tree <- imageTree repo (tag_Digest tag);
  match tree, imageSummary namespace repo (tag_Tag tag) tree with
  | Some tree, Some summary =>
      if with_Manifests then
        do? '(manifests, size) <- listManifestSummaries client repo tree;
        Ret (Ok (Some (with_manifests tree summary manifests size)))
      else Ret (Ok (Some summary))
  | _, _ => Ret (Ok None)
  end.

Definition list_tag (namespace repo : string) (summaries : list Summary) (tag : TagRecord) :
    iproc (ires (list Summary)) :=
  do? summary <- tag_summary namespace repo tag;
  Ret (Ok (summaries ++ from_option (λ summary, [summary]) [] summary)%list).

Fixpoint list_tags (namespace repo : string) (summaries : list Summary) (tags : list TagRecord) :
    iproc (ires (list Summary)) :=
  match tags with
  | [] => Ret (Ok summaries)
  | tag :: tags =>
      do? summaries <- list_tag namespace repo summaries tag;
      list_tags namespace repo summaries tags
  end.

Fixpoint list_repositories (namespace : string) (repos : list string) (summaries : list Summary) :
    iproc (ires (list Summary)) :=
  match repos with
  | [] => Ret (Ok summaries)
  | repo :: repos =>
      do? summaries <- tag_pages page_fuel repo "" (list_tags namespace repo) summaries;
      list_repositories namespace repos summaries
  end.

Definition Images (id : option Identity) : iproc (ires (list Summary)) :=
  match id with
  | None => Ret (Err missing_identity)
  | Some id =>
      do? repos <- namespaceRepositories (Namespace id);
      list_repositories (Namespace id) repos []
  end.
End listing.

(** ** Removing ([ImageDelete]) *)

Inductive DeleteResponse := Untagged (reference : string) | Deleted (digest : string).

Record RemoveOptions := { remove_Platforms : list Platform; remove_Force : bool }.

(** The records made so far, and how it ended. *)
Abbreviation deletion := (list DeleteResponse * option ierror)%type.

Definition untagged_name (resolved : resolvedImage) (digest tag : string) : string :=
  if byDigest tag then display resolved +:+ "@" +:+ digest else display resolved +:+ ":" +:+ tag.

Fixpoint untag (resolved : resolvedImage) (digest : string) (tags : list string)
    (records : list DeleteResponse) : iproc deletion :=
  match tags with
  | [] => Ret (records, None)
  | tag :: tags =>
      do r <- call (DeleteTag (ri_repository resolved) tag);
      match r with
      | Err e => Ret (records, Some (Failed "untagging %s: %w" (Some e)))
      | Ok _ => untag resolved digest tags (records ++ [Untagged (untagged_name resolved digest tag)])%list
      end
  end.

(** One pass over the closure: over its manifests, or over its blobs. *)
Definition in_pass (pass : bool) (entry : ClosureEntry) : bool :=
  Bool.eqb (RoleManifest entry) pass && negb (RetainedInRepository entry).

Fixpoint remove_entries (repository : string) (pass : bool) (entries : list ClosureEntry) :
    iproc (ires unit) :=
  match entries with
  | [] => Ret (Ok tt)
  | entry :: entries =>
      let digest := Digest (ce_Descriptor entry) in
      do r <- call (if pass then DeleteManifest repository digest else DeleteBlob repository digest);
      match r with
      | Err e =>
          if isNotFound e then remove_entries repository pass entries
          else Ret (Err (Failed "removing %s from %s: %w" (Some e)))
      | Ok _ => remove_entries repository pass entries
      end
  end.

(** The digests whose content has no user left. *)
Definition deleted_records (entries : list ClosureEntry) : list DeleteResponse :=
  (λ entry, Deleted (Digest (ce_Descriptor entry))) <$> List.filter (λ entry, negb (Shared entry)) entries.

(** Manifests go first, so every blob is unreferenced when it is removed. *)
Definition remove_closure (repository : string) (closure : list ClosureEntry)
    (records : list DeleteResponse) : iproc deletion :=
  let manifests := List.filter (in_pass true) closure in
  let blobs := List.filter (in_pass false) closure in
  do r <- remove_entries repository true manifests;
  match r with
  | Err e => Ret (records, Some e)
  | Ok _ =>
      do r <- remove_entries repository false blobs;
      match r with
      | Err e => Ret (records, Some e)
      | Ok _ => Ret ((records ++ deleted_records (manifests ++ blobs))%list, None)
      end
  end.

(** The tags to remove: the one that was named, or all of an image named otherwise. *)
Definition tags_to_remove (resolved : resolvedImage) (record : ManifestRecord) (force : bool) :
    ires (list string) :=
  if decide (ri_tag resolved = "") then
    if (1 <? length (rec_Tags record))%nat && negb force
    then Err (HttpConflict (errors_new "unable to delete %s (must be forced) - image is referenced in multiple tags"))
    else Ok (rec_Tags record)
  else Ok [ri_tag resolved].

Definition retained (closure : list ClosureEntry) : bool :=
  match closure with [] => true | entry :: _ => RetainedInRepository entry end.

(** What is to be done about an image that was found. *)
Definition delete_resolved (resolved : resolvedImage) (force : bool) : iproc deletion :=
  let repository := ri_repository resolved in
  do record <- manifest repository (ri_digest resolved);
  match record with
  | Err e => Ret ([], Some e)
  | Ok None => Ret ([], Some no_such_image)
  | Ok (Some record) =>
      do closure <- call (Closure repository (ri_digest resolved));
      match closure with
      | Err e => Ret ([], Some (if isNotFound e then no_such_image else e))
      | Ok closure =>
          match tags_to_remove resolved record force with
          | Err e => Ret ([], Some e)
          | Ok remove =>
              do untagged <- untag resolved (Digest (rec_Descriptor record)) remove [];
              let '(records, err) := untagged in
              match err with
              | Some e => Ret (records, Some e)
              | None =>
                  let remaining := List.filter (λ tag, negb (slices_Contains remove tag)) (rec_Tags record) in
                  if negb (bool_decide (remaining = [])) || retained closure then Ret (records, None)
                  else remove_closure repository closure records
              end
          end
      end
  end.

(** [client] is the outcome of [r.client()]. *)
Definition ImageDelete (client : ires unit) (id : option Identity) (name : string)
    (options : RemoveOptions) : iproc deletion :=
  if negb (bool_decide (remove_Platforms options = [])) then
    Ret ([], Some (BadRequest (errors_new "removing individual platforms is not supported")))
  else
    match client with
    | Err e => Ret ([], Some e)
    | Ok _ =>
        do resolved <- resolveImage id name;
        match resolved with
        | Err e => Ret ([], Some e)
        | Ok resolved => delete_resolved resolved (remove_Force options)
        end
    end.
End images.
