(* ===== verification/Transfer.v ===== *)
(** * Transfer: [core/registry/manifest.go], [pull.go] and [push.go]

    What is copied between dink's own registry and another one: the descriptors of an
    image ([AllDescriptors] for a pull, [imageDescriptors] for a push or a new tag), the
    copy of its blobs, which is a command here (see Copier.v), and the manifests pushed
    after them ([pushManifests]).  The goroutine that writes the progress to the client
    is not modelled; the messages themselves are commands. *)

From S2P Require Import Prelude GoStrings Errors Prog Identity Oci Images.

Local Open Scope string_scope.

(** The digests visited, and the descriptors in the order they are to be pushed. *)
Abbreviation visit := (gset string * list Descriptor)%type.

Section transfer.
Context `{Unicode} `{Digests} `{References} `{ManifestJSON} `{ConfigJSON} `{Platforms} (page_fuel : nat).

(** ** Manifests ([manifest.go]) *)

Definition is_blob (m : Descriptor) : bool := negb (isIndex (MediaType m) || isManifest (MediaType m)).

Definition blobsFromDescriptors (l : list Descriptor) : list Descriptor := List.filter is_blob l.

Definition getManifest (client : side) (ref : Reference) : iproc (ires Descriptor) :=
  call (GetManifest client (Repository ref) (ref_Digest ref)).

Definition manifestDescriptors (desc : Descriptor) : ires (list Descriptor) :=
  if negb (isManifest (MediaType desc)) then Err (errors_new "expected a manifest, got %s")
  else
    let? manifest := readIndexOrManifest (Data desc) in
    Ok (Layers manifest ++ option_list (Config manifest))%list.

Definition unsupported : ierror := errors_new "unsupported media type: %s".

Definition walkManifest (client : side) (ref : Reference) (desc : Descriptor) : iproc (ires (list Descriptor)) :=
  if negb (isManifest (MediaType desc)) then Ret (Err unsupported)
  else
    do cancelled <- call CtxErr;
    if cancelled : bool then Ret (Err Cancelled)
    else
      do? descriptor <- getManifest client (with_Digest ref (Digest desc));
      Ret (let? descriptors := manifestDescriptors descriptor in Ok (descriptors ++ [descriptor])%list).

(** All children are walked; whether one of them failed. *)
Fixpoint walk_children (client : side) (ref : Reference) (l : list Descriptor) : iproc (list Descriptor * bool) :=
  match l with
  | [] => Ret ([], false)
  | desc :: l =>
      do r <- walkManifest client ref desc;
      do rest <- walk_children client ref l;
      Ret (match r with
           | Ok descriptors => ((descriptors ++ rest.1)%list, rest.2)
           | Err _ => (rest.1, true)
           end)
  end.

(** [desc] is the index that is to be pulled. *)
Definition walkIndexManifest (client : side) (ref : Reference) (platform : option (Platform → bool))
    (desc : Descriptor) : iproc (ires indexManifest) :=
  if negb (isIndex (MediaType desc)) then Ret (Err (errors_new "expected index media type, got: %s"))
  else
    do? indexDescriptor <- getManifest client ref;
    match readIndexOrManifest (Data indexDescriptor) with
    | Err e => Ret (Err e)
    | Ok index =>
        match parseIndexManifest platform index with
        | Err e => Ret (Err e)
        | Ok selected =>
            if decide (platformDigest selected = "")
            then Ret (Err (errors_new "no manifests found in index for platform %v"))
            else
              do children <- walk_children client ref (im_descriptors selected);
              let '(descriptors, failed) := children in
              Ret (if failed : bool then Err (errors_new "errors occurred while walking manifests: %v")
                   else Ok {| platformDigest := platformDigest selected;
                              im_descriptors := (descriptors ++ [indexDescriptor])%list |})
        end
    end.

Fixpoint walk_referrers (client : side) (ref : Reference) (l : list Descriptor) : iproc (ires (list Descriptor)) :=
  match l with
  | [] => Ret (Ok [])
  | r :: l =>
      do? descriptors <- walkManifest client ref r;
      do? rest <- walk_referrers client ref l;
      Ret (Ok (descriptors ++ rest)%list)
  end.

Definition referrers (client : side) (ref : Reference) (digest : string) : iproc (ires (list Descriptor)) :=
  do? l <- call (Referrers client (Repository ref) digest);
  walk_referrers client ref l.

Definition AllDescriptors (client : side) (ref : Reference) (platform : option (Platform → bool))
    (desc : Descriptor) : iproc (ires (list Descriptor)) :=
  do? '(digest, descriptors) <-
    if isIndex (MediaType desc) then
      do? index <- walkIndexManifest client ref platform desc;
      Ret (Ok (platformDigest index, im_descriptors index))
    else if isManifest (MediaType desc) then
      do? descriptors <- walkManifest client ref desc;
      Ret (Ok (Digest desc, descriptors))
    else Ret (Err unsupported);
  do? refs <- referrers client ref digest;
  Ret (Ok (descriptors ++ refs)%list).

Definition pushManifest (client : side) (ref : Reference) (desc : Descriptor) : iproc (ires unit) :=
  if decide (Data desc = "") then Ret (Err (errors_new "manifest data is empty"))
  else
    do r <- call (PushManifest client (Repository ref) (Data desc) (MediaType desc) (Digest desc)
                    (if decide (Tag ref = "") then [] else [Tag ref]));
    Ret (match r with
         | Ok _ => Ok tt
         | Err e => Err (Failed "unable to push manifest %s: %w" (Some e))
         end).

(** Only the manifest the reference is for gets its tag. *)
Fixpoint pushManifests (client : side) (ref : Reference) (l : list Descriptor) : iproc (ires unit) :=
  match l with
  | [] => Ret (Ok tt)
  | desc :: l =>
      if is_blob desc then pushManifests client ref l
      else
        do? _ <- pushManifest client
                   (if decide (ref_Digest ref = Digest desc) then ref else with_Tag ref "") desc;
        pushManifests client ref l
  end.

Definition platformMatcher (pls : list Platform) : option (Platform → bool) := Only <$> head pls.

(** ** Pulling ([pull.go]) *)

Definition checkTagDigest (client : side) (ref : Reference) : iproc (ires Descriptor) :=
  if decide (Tag ref = "") then Ret (Err (errors_new "tag must be specified"))
  else
    do? desc <- call (ResolveTag client (Repository ref) (Tag ref));
    Ret (if negb (bool_decide (ref_Digest ref = "")) && negb (bool_decide (ref_Digest ref = Digest desc))
         then Err (errors_new "digest %s does not match tag %s") else Ok desc).

Definition isTagged (client : side) (ref : Reference) : iproc (ires bool) :=
  do r <- checkTagDigest client ref;
  Ret (let? tag := contentExists r in Ok (bool_decide (is_Some tag))).

(** What a puller and a pusher share: copying from one registry to the other. *)
Definition copyBlobs (client destination : side) (srcRef dstRef : Reference) (descriptors : list Descriptor) :
    iproc (ires bool) :=
  call (CopyBlobs client destination (Repository srcRef) (Repository dstRef) (blobsFromDescriptors descriptors)).

Section puller.
Context (platform : option (Platform → bool)).

(** A stored index may lack the manifests of platforms that were never pulled. *)
Definition hasPlatform (repository : string) (existing : Descriptor) : iproc (ires bool) :=
  if negb (isIndex (MediaType existing)) then Ret (Ok true)
  else
    do? stored <- call (GetManifest Internal repository (Digest existing));
    match readIndexOrManifest (Data stored) with
    | Err e => Ret (Err e)
    | Ok index =>
        match parseIndexManifest platform index with
        | Err _ => Ret (Ok false)
        | Ok selected =>
            if decide (platformDigest selected = "") then Ret (Ok false)
            else
              do child <- call (ResolveManifest Internal repository (platformDigest selected));
              Ret (let? child := contentExists child in Ok (bool_decide (is_Some child)))
        end
    end.

Definition ensureTagged (ref dstRef : Reference) : iproc (ires unit) :=
  do? tagged <- isTagged Internal dstRef;
  if tagged then Ret (Ok tt)
  else
    do? manifest <- getManifest Remote ref;
    pushManifest Internal dstRef manifest.

Definition pull (ref dstRef : Reference) (desc : Descriptor) : iproc (ires bool) :=
  do? descriptors <- AllDescriptors Remote ref platform desc;
  do? ok <- copyBlobs Remote Internal ref dstRef descriptors;
  do? _ <- pushManifests Internal dstRef descriptors;
  Ret (Ok ok).

(** What the tag or the digest of a reference names at the source. *)
Definition resolve_source (ref : Reference) : iproc (ires (Reference * Descriptor)) :=
  if negb (bool_decide (Tag ref = "")) then
    do? tagDesc <- checkTagDigest Remote ref;
    Ret (Ok (with_Digest ref (Digest tagDesc), tagDesc))
  else if negb (bool_decide (ref_Digest ref = "")) then
    do? manifest <- call (ResolveManifest Remote (Repository ref) (ref_Digest ref));
    Ret (Ok (ref, manifest))
  else Ret (Err (errors_new "either tag or digest must be specified")).

(** The image at [dstRef], unless it is stored already. *)
Definition pull_missing (ref dstRef : Reference) (desc : Descriptor) : iproc (ires bool) :=
  do existing <- call (ResolveManifest Internal (Repository dstRef) (ref_Digest ref));
  match contentExists existing with
  | Err e => Ret (Err e)
  | Ok None => pull ref dstRef desc
  | Ok (Some existing) =>
      do? complete <- hasPlatform (Repository dstRef) existing;
      if complete then do? _ <- ensureTagged ref dstRef; Ret (Ok false)
      else pull ref dstRef desc
  end.

Definition pullTag (id : option Identity) (ref : Reference) : iproc (ires bool) :=
  match id with
  | None => Ret (Err missing_identity)
  | Some id =>
      do? '(ref, desc) <- resolve_source ref;
      do _ <- call (Message (tagOrDigest ref) ("Pulling from " +:+ Repository ref));
      do r <- pull_missing ref (repositoryFor id ref) desc;
      match r with
      | Err e => Ret (Err e)
      | Ok copied =>
          do cancelled <- call CtxErr;
          if cancelled : bool then Ret (Ok copied)
          else do _ <- call (Message "" ("Digest: " +:+ ref_Digest ref)); Ret (Ok copied)
      end
  end.

Definition status (requestedTag : string) (layersDownloaded : bool) : string :=
  (if layersDownloaded then "Status: Downloaded newer image for "
   else "Status: Image is up to date for ") +:+ requestedTag.

Fixpoint pull_tags (id : option Identity) (ref : Reference) (tags : list string) : iproc (ires unit) :=
  match tags with
  | [] => Ret (Ok tt)
  | tag :: tags =>
      let tagRef := with_Tag ref tag in
      do? ok <- pullTag id tagRef;
      do cancelled <- call CtxErr;
      if cancelled : bool then Ret (Err Cancelled)
      else
        do _ <- call (Message "" (status (dockerFriendlyName tagRef) ok));
        pull_tags id ref tags
  end.

Definition pullRepo (id : option Identity) (ref : Reference) : iproc (ires unit) :=
  if bool_decide (Tag ref = "") && bool_decide (ref_Digest ref = "") then
    do? all <- call (Tags Remote (Repository ref));
    pull_tags id ref all
  else pull_tags id ref [Tag ref].
End puller.

(** [client] is the outcome of [r.client()], [connect] that of [NewClient]. *)
Section requests.
Context (client : ires unit) (connect : string → ires unit).

Definition PullImage (id : option Identity) (ref : Reference) (pls : list Platform) : iproc (ires unit) :=
  if (1 <? length pls)%nat then Ret (Err (errors_new "pulling multiple platforms is not supported"))
  else
    match client, connect (Host ref) with
    | Err e, _ | Ok _, Err e => Ret (Err e)
    | Ok _, Ok _ =>
        do r <- pullRepo (platformMatcher pls) id ref;
        do cancelled <- call CtxErr;
        Ret (if cancelled : bool then Err Cancelled
             else match r with
                  | Ok _ => Ok tt
                  | Err e => Err (if isNotFound e then HttpNotFound e else e)
                  end)
    end.

(** ** The descriptors of an image ([imageDescriptors] in [push.go]) *)

(** The blobs of a manifest that were not seen yet. *)
Fixpoint visit_blobs (client : side) (allowMissing : bool) (ref : Reference) (blobs : list Descriptor)
    (s : visit) : iproc (ires visit) :=
  match blobs with
  | [] => Ret (Ok s)
  | blob :: blobs =>
      let '(seen, descriptors) := s in
      if bool_decide (Digest blob ∈ seen) then visit_blobs client allowMissing ref blobs s
      else
        do r <- call (ResolveBlob client (Repository ref) (Digest blob));
        match r with
        | Err e =>
            if allowMissing && isNotFound e then visit_blobs client allowMissing ref blobs s else Ret (Err e)
        | Ok _ =>
            visit_blobs client allowMissing ref blobs
              ({[Digest blob]} ∪ seen, (descriptors ++ [blob])%list)
        end
  end.

(** The children of an index, with the function that visits one. *)
Fixpoint visit_all (visit_one : string → visit → iproc (ires visit)) (l : list Descriptor) (s : visit) :
    iproc (ires visit) :=
  match l with
  | [] => Ret (Ok s)
  | child :: l => do? s <- visit_one (Digest child) s; visit_all visit_one l s
  end.

Definition max_depth : nat := 32.

Definition too_deep : ierror := errors_new "image manifest nesting exceeds 32 levels".

(** [left] levels are allowed from here on. *)
Fixpoint walk (client : side) (allowMissing : bool) (root : Reference) (left : nat) (digest : string)
    (s : visit) : iproc (ires visit) :=
  match left with
  | O => Ret (Err too_deep)
  | S left' =>
      let '(seen, descriptors) := s in
      if bool_decide (digest ∈ seen) then Ret (Ok s)
      else
        let ref := with_Digest root digest in
        let seen := {[digest]} ∪ seen in
        do r <- getManifest client ref;
        match r with
        | Err e =>
            if allowMissing && bool_decide (left ≠ S max_depth) && isNotFound e
            then Ret (Ok (seen, descriptors)) else Ret (Err e)
        | Ok descriptor =>
            do? '(seen, descriptors) <-
              if isIndex (MediaType descriptor) then
                match readIndexOrManifest (Data descriptor) with
                | Err e => Ret (Err e)
                | Ok index =>
                    visit_all (walk client allowMissing root left') (Manifests index) (seen, descriptors)
                end
              else
                match manifestDescriptors descriptor with
                | Err e => Ret (Err e)
                | Ok blobs => visit_blobs client allowMissing ref blobs (seen, descriptors)
                end;
            Ret (Ok (seen, (descriptors ++ [descriptor])%list))
        end
  end.

Definition imageDescriptors (client : side) (ref : Reference) (allowMissing : bool) : iproc (ires (list Descriptor)) :=
  do? s <- walk client allowMissing ref (S max_depth) (ref_Digest ref) (∅, []);
  Ret (Ok (s : visit).2).

Definition pushDescriptors (client : side) (ref : Reference) : iproc (ires (list Descriptor)) :=
  imageDescriptors client ref false.

(** ** Tagging ([TagImage] in [pull.go]) *)

(** Every manifest's referrers. *)
Fixpoint attached_to (client : side) (ref : Reference) (l : list Descriptor) : iproc (ires (list Descriptor)) :=
  match l with
  | [] => Ret (Ok [])
  | descriptor :: l =>
      if is_blob descriptor then attached_to client ref l
      else
        do? attached <- referrers client ref (Digest descriptor);
        do? rest <- attached_to client ref l;
        Ret (Ok (attached ++ rest)%list)
  end.

Definition source_ref (image : resolvedImage) : Reference :=
  {| Host := ""; Repository := ri_repository image; Tag := ""; ref_Digest := ri_digest image |}.

(** The image is copied with the referrers of its manifests, as far as it is stored. *)
Definition copy_tagged (sourceRef destination : Reference) : iproc (ires unit) :=
  do? descriptors <- imageDescriptors Internal sourceRef true;
  do? attached <- attached_to Internal sourceRef descriptors;
  let descriptors := (descriptors ++ attached)%list in
  do? _ <- copyBlobs Internal Internal sourceRef destination descriptors;
  do? _ <- pushManifests Internal destination descriptors;
  Ret (Ok tt).

Definition TagImage (id : option Identity) (name : string) (target : Reference) : iproc (ires unit) :=
  if bool_decide (Repository target = "") || bool_decide (Tag target = "") || negb (bool_decide (ref_Digest target = ""))
  then Ret (Err (BadRequest (errors_new "tag target must include a repository and tag")))
  else
    match id with
    | None => Ret (Err missing_identity)
    | Some identity =>
        match client with
        | Err e => Ret (Err e)
        | Ok _ =>
            do? source <- resolveImage page_fuel id name;
            copy_tagged (source_ref source) (with_Digest (repositoryFor identity target) (ri_digest source))
        end
    end.

(** ** Pushing ([push.go]) *)

(** The image of a name, with its manifests ([inspectTree] in [inspect.go]). *)
Definition inspectTree (id : option Identity) (name : string) : iproc (ires (resolvedImage * storedImageTree)) :=
  do? resolved <- resolveImage page_fuel id name;
  do? tree <- imageTree (ri_repository resolved) (ri_digest resolved);
  Ret (match tree with
       | None => Err no_such_image
       | Some tree => Ok (resolved, tree)
       end).

Definition is_candidate (requested : option Platform) (summary : ManifestSummary) : bool :=
  ms_Available summary &&
  match ms_Platform summary with
  | None => false
  | Some p => match requested with Some r => OnlyStrict r p | None => true end
  end.

(** A candidate is pushed if it is the only one, or the first for the default platform
    when no platform was asked for. *)
Definition select_candidate (requested : option Platform) (candidates : list ManifestSummary) :
    ires ManifestSummary :=
  match candidates with
  | [] => Err (HttpNotFound (errors_new "no complete image manifest is stored for the requested platform"))
  | [candidate] => Ok candidate
  | _ =>
      match requested with
      | Some _ => Err (HttpConflict (errors_new "multiple manifests match the requested platform"))
      | None =>
          match List.find (λ c, match desc_Platform (ms_Descriptor c) with
                                | Some p => DefaultPlatform p
                                | None => false
                                end) candidates with
          | Some candidate => Ok candidate
          | None => Err (HttpConflict (errors_new "incomplete multi-platform image; specify a platform to push"))
          end
      end
  end.

Definition pushPlatform (repository : string) (tree : storedImageTree) (requested : option Platform) :
    iproc (ires Descriptor) :=
  do? '(summaries, _) <- listManifestSummaries client repository tree;
  Ret (let? selected := select_candidate requested (List.filter (is_candidate requested) summaries) in
       let d := ms_Descriptor selected in
       Ok {| MediaType := MediaType d; Digest := Digest d; Size := Size d; Data := ""; desc_Platform := None;
             Annotations := ∅ |}).

(** What is pushed: the manifest that gets the tag, and the descriptors in order.  With
    no platform asked for, an index of which a part is missing is replaced by one of its
    manifests; [original] is the manifest that the reference names. *)
Definition select_pushed (source : resolvedImage) (tree : storedImageTree) (original : Descriptor)
    (requested : option Platform) : iproc (ires (Descriptor * list Descriptor)) :=
  let srcRef := source_ref source in
  let platform_only :=
    do? target <- pushPlatform (ri_repository source) tree requested;
    do? descriptors <- pushDescriptors Internal (with_Digest srcRef (Digest target));
    Ret (Ok (target, descriptors)) in
  match requested with
  | Some _ => platform_only
  | None =>
      do r <- pushDescriptors Internal srcRef;
      match r with
      | Ok descriptors => Ret (Ok (original, descriptors))
      | Err e => if isNotFound e && isIndex (si_MediaType (tree_image tree)) then platform_only else Ret (Err e)
      end
  end.

(** A push of all of it takes the referrers along, that of one platform does not. *)
Definition pushed_referrers (source : resolvedImage) (original target : Descriptor) (requested : option Platform) :
    iproc (ires (list Descriptor)) :=
  if bool_decide (requested = None) && bool_decide (Digest target = Digest original)
  then referrers Internal (source_ref source) (Digest target)
  else Ret (Ok []).

Definition push_image (source : resolvedImage) (tree : storedImageTree) (ref : Reference)
    (requested : option Platform) : iproc (ires unit) :=
  do? original <- getManifest Internal (source_ref source);
  do? '(target, descriptors) <- select_pushed source tree original requested;
  do? attached <- pushed_referrers source original target requested;
  let descriptors := (descriptors ++ attached)%list in
  let dstRef := with_Digest ref (Digest target) in
  do? _ <- copyBlobs Internal Remote (source_ref source) dstRef descriptors;
  do? _ <- pushManifests Remote dstRef descriptors;
  do _ <- if bool_decide (requested = None) && negb (bool_decide (Digest original = Digest target))
          then call (Message "" "ManifestPushedInsteadOfIndex") else Ret tt;
  do _ <- call (Message "" (tagOrDigest ref +:+ ": digest: " +:+ Digest target +:+ " size: " +:+
                            pretty (Size target)));
  Ret (Ok tt).

Definition pushTag (id : option Identity) (ref : Reference) (requested : option Platform) : iproc (ires unit) :=
  do? '(source, tree) <- inspectTree id (ref_String ref);
  push_image source tree ref requested.

(** The tags of a repository that are not the form of a digest. *)
Definition tagged_names (tags : list TagRecord) : list string :=
  List.filter (λ tag, negb (byDigest tag)) (tag_Tag <$> tags).

Definition pushed_tags (source ref : Reference) : iproc (ires (list string)) :=
  if negb (bool_decide (Tag ref = "")) then Ret (Ok [Tag ref])
  else tag_pages page_fuel (Repository source) ""
         (λ tags records, Ret (Ok (tags ++ tagged_names records)%list)) [].

Fixpoint push_tags (id : option Identity) (ref : Reference) (requested : option Platform) (tags : list string) :
    iproc (ires unit) :=
  match tags with
  | [] => Ret (Ok tt)
  | tag :: tags =>
      do? _ <- pushTag id (with_Tag ref tag) requested;
      push_tags id ref requested tags
  end.

(** The errors of a remote registry, for the client. *)
Definition remote_error (e : ierror) : ierror :=
  if errors_Is ErrUnauthorized e then HttpUnauthorized e
  else if errors_Is ErrDenied e then HttpForbidden e
  else if isNotFound e then HttpNotFound e else e.

Definition PushImage (id : option Identity) (ref : Reference) (pls : list Platform) : iproc (ires unit) :=
  if (1 <? length pls)%nat
  then Ret (Err (BadRequest (errors_new "pushing multiple platforms is not supported")))
  else if match pls with
          | [p] => bool_decide (OS p = "") || bool_decide (Architecture p = "")
          | _ => false
          end
  then Ret (Err (BadRequest (errors_new "both OS and Architecture must be provided")))
  else if negb (bool_decide (ref_Digest ref = ""))
  then Ret (Err (BadRequest (errors_new "pushing by digest is not supported; use a tag")))
  else
    match ParseRelative (ref_String ref), id, client with
    | None, _, _ => Ret (Err (BadRequest (errors_new "invalid reference")))
    | Some _, None, _ => Ret (Err (HttpUnauthorized missing_identity))
    | Some _, Some _, Err e => Ret (Err e)
    | Some ref, Some identity, Ok _ =>
        do? tags <- pushed_tags (repositoryFor identity ref) ref;
        if decide (tags = []) then Ret (Err (HttpNotFound (errors_new "no tagged image found for %s")))
        else
          match connect (Host ref) with
          | Err e => Ret (Err e)
          | Ok _ =>
              do _ <- call (Message "" ("The push refers to repository [" +:+ Host ref +:+ "/" +:+
                                        Repository ref +:+ "]"));
              do r <- push_tags id ref (head pls) tags;
              match r with
              | Err e => Ret (Err (remote_error e))
              | Ok _ =>
                  do cancelled <- call CtxErr;
                  Ret (if cancelled : bool then Err Cancelled else Ok tt)
              end
          end
    end.
End requests.
End transfer.
