(* ===== verification/ImageInspect.v ===== *)
(** * ImageInspect: [core/registry/inspect.go] and [distribution.go]

    What [docker history], [docker image inspect] and the attestations of an image show,
    read from the metadata index, and what an upstream registry holds under a name.  The
    JSON of an image configuration is a class; its times keep the zone they were written
    with. *)

From S2P Require Import Prelude GoStrings Errors Docker Volumes Prog Identity Oci Images Transfer.

Local Open Scope string_scope.

(** ** Image configurations *)

(** [time.Time] as [encoding/json] reads one: an instant in nanoseconds since the start of
    year 1, and the seconds its zone is east of UTC. *)
Record Time := { t_Nanos : Z; t_Offset : Z }.

Definition Unix (t : Time) : Z := (t_Nanos t / 10 ^ 9 - 62135596800)%Z.

(** [t.Format(time.RFC3339Nano)], in the time's own zone. *)
Definition Format_RFC3339Nano (t : Time) : string :=
  let zone := (Z.abs (t_Offset t) / 60)%Z in
  TrimSuffix (FormatRFC3339Nano (t_Nanos t + t_Offset t * 10 ^ 9)) "Z" +:+
  (if decide (t_Offset t = 0%Z) then "Z"
   else (if (t_Offset t <? 0)%Z then "-" else "+") +:+
        pad_digits 2 (zone / 60) +:+ ":" +:+ pad_digits 2 (zone mod 60)).

(** [ocispec.History] *)
Record History := {
  hist_Created : option Time; hist_CreatedBy : string; hist_Comment : string; hist_EmptyLayer : bool
}.

(** [dockerspec.DockerOCIImage] *)
Record DockerOCIImage := {
  doi_Created : option Time;
  doi_Author : string;
  doi_OS : string; doi_Architecture : string; doi_Variant : string; doi_OSVersion : string;
  doi_Config : OCIImageConfig;
  doi_DiffIDs : list string;
  doi_History : list History
}.

(** [json.Unmarshal] into it, and into the platform of an [ocispec.Image]. *)
Class ImageJSON := {
  Unmarshal_image : string → ires DockerOCIImage;
  Unmarshal_platform : string → ires Platform
}.

(** ** What is shown *)

(** [imagetypes.HistoryResponseItem] *)
Record HistoryResponseItem := {
  item_ID : string; item_Created : Z; item_CreatedBy : string; item_Comment : string; item_Size : Z;
  item_Tags : list string
}.

(** [imagetypes.InspectResponse]; the fields that are left empty are not listed. *)
Record InspectResponse := {
  ins_ID : string;
  ins_RepoTags : list string;
  ins_RepoDigests : list string;
  ins_Created : string;
  ins_Author : string;
  ins_Config : OCIImageConfig;
  ins_Architecture : string; ins_Variant : string; ins_Os : string; ins_OsVersion : string;
  ins_Size : Z;
  ins_Layers : list string;
  ins_Descriptor : Descriptor;
  ins_Manifests : list ManifestSummary
}.

(** [imagetypes.AttestationStatement] *)
Record AttestationStatement := {
  att_Descriptor : Descriptor; att_PredicateType : string; att_Statement : option string
}.

(** [imagebackend.ImageInspectOpts] and [AttestationOpts] *)
Record ImageInspectOpts := { inspect_Manifests : bool; inspect_Platform : option Platform }.
Record AttestationOpts := {
  PredicateTypes : list string; IncludeStatement : bool; att_Platform : option Platform
}.

Definition inTotoPredicateTypeAnnotation : string := "in-toto.io/predicate-type".
Definition maxStatementSize : Z := Z.shiftl 4 20.

Section inspect.
Context `{Unicode} `{Digests} `{References} `{ConfigJSON} `{Platforms} `{ImageJSON} (page_fuel : nat).

(** ** The image of a platform *)

(** Whether an index's child is stored, and of a platform that matches. *)
Definition child_matches (matcher : Platform → bool) (child : storedIndexChild) : bool :=
  match child_Manifest child, child_Platform child with
  | Some _, Some p => matcher (ociPlatform p)
  | _, _ => false
  end.

Definition platformManifest (tree : storedImageTree) (platform : option Platform) :
    ires (option storedImage * option storedIndexChild) :=
  if negb (isIndex (si_MediaType (tree_image tree))) then Ok (Some (tree_image tree), None)
  else
    match platform with
    | Some p =>
        match List.find (child_matches (Only p)) (tree_Manifests tree) with
        | Some child => Ok (child_Manifest child, Some child)
        | None => Err (HttpNotFound (errors_new "image does not contain the requested platform %s"))
        end
    | None =>
        match presentPlatformChild (si_MediaType (tree_image tree)) (tree_Manifests tree) with
        | Some child => Ok (child_Manifest child, Some child)
        | None => Err (HttpNotFound (errors_new "image has no stored platform manifest"))
        end
    end.

(** Whether a child holds the statements attached to the manifest of a digest. *)
Definition attests (digest : string) (child : storedIndexChild) : bool :=
  bool_decide (annotationValue (child_Annotations child) AnnotationReferenceType =
               AnnotationReferenceTypeAttestation) &&
  bool_decide (annotationValue (child_Annotations child) AnnotationReferenceDigest = digest).

Definition attestationManifest (tree : storedImageTree) (digest : string) : option storedImage :=
  match List.find (attests digest) (tree_Manifests tree) with
  | Some child => child_Manifest child
  | None => None
  end.

Definition decodeImageConfig (image : option storedImage) : ires DockerOCIImage :=
  match image ≫= si_ImageConfig with
  | None => Err (HttpNotFound (errors_new "image config for %s is not stored locally"))
  | Some config =>
      if decide (sc_Raw config = "")
      then Err (HttpNotFound (errors_new "image config for %s is not stored locally"))
      else match Unmarshal_image (sc_Raw config) with
           | Err e => Err (Failed "parsing image config for %s: %w" (Some e))
           | Ok config => Ok config
           end
  end.

Definition repoTags (resolved : resolvedImage) (tree : storedImageTree) : list string :=
  (λ tag, display resolved +:+ ":" +:+ tag) <$> List.filter (λ tag, negb (byDigest tag)) (tree_Tags tree).

Definition diffIDs (config : DockerOCIImage) : list string := doi_DiffIDs config.

Definition imageSize (tree : storedImageTree) (image : storedImage) : Z :=
  let size := si_Size (tree_image tree) in
  let size := if bool_decide (si_Digest image = si_Digest (tree_image tree)) then size
              else add64 size (si_Size image) in
  add64 size (manifestSize image).

(** ** [ImageHistory] *)

(** The loop over the history; [layer] counts the entries that made a layer. *)
Fixpoint history_items (layers : list storedDescriptor) (layer : nat) (l : list History) :
    list HistoryResponseItem :=
  match l with
  | [] => []
  | entry :: l =>
      {| item_ID := "<missing>";
         item_Created := match hist_Created entry with Some t => Unix t | None => 0%Z end;
         item_CreatedBy := hist_CreatedBy entry;
         item_Comment := hist_Comment entry;
         item_Size := if hist_EmptyLayer entry then 0%Z
                      else if (layer <? length layers)%nat
                      then match layers !! layer with Some d => sd_Size d | None => 0%Z end else 0%Z;
         item_Tags := [] |}
      :: history_items layers (if hist_EmptyLayer entry then layer else S layer) l
  end.

(** The newest entry is that of the image. *)
Definition name_newest (digest : string) (tags : list string) (items : list HistoryResponseItem) :
    list HistoryResponseItem :=
  match items with
  | [] => []
  | item :: items =>
      {| item_ID := digest; item_Created := item_Created item; item_CreatedBy := item_CreatedBy item;
         item_Comment := item_Comment item; item_Size := item_Size item; item_Tags := tags |} :: items
  end.

(** What the two calls below start with. *)
Definition inspected_image (id : option Identity) (name : string) (platform : option Platform) :
    iproc (ires (resolvedImage * storedImageTree * storedImage * option storedIndexChild * DockerOCIImage)) :=
  do? '(resolved, tree) <- inspectTree page_fuel id name;
  Ret (let? found := platformManifest tree platform in
       let? config := decodeImageConfig found.1 in
       match found.1 with
       | Some image => Ok (resolved, tree, image, found.2, config)
       | None => Err no_such_image   (* refused by [decodeImageConfig] *)
       end).

Definition ImageHistory (id : option Identity) (name : string) (platform : option Platform) :
    iproc (ires (list HistoryResponseItem)) :=
  do? '(resolved, tree, image, _, config) <- inspected_image id name platform;
  Ret (Ok (name_newest (si_Digest (tree_image tree)) (repoTags resolved tree)
             (reverse (history_items (si_Layers image) 0 (doi_History config))))).

(** ** [ImageInspect] *)

Definition ImageInspect (id : option Identity) (name : string) (options : ImageInspectOpts) :
    iproc (ires InspectResponse) :=
  do? '(resolved, tree, image, child, config) <- inspected_image id name (inspect_Platform options);
  let platform :=
    match child ≫= child_Platform with
    | Some p => ociPlatform p
    | None => {| OS := doi_OS config; Architecture := doi_Architecture config; Variant := doi_Variant config;
                 OSVersion := doi_OSVersion config; OSFeatures := [] |}
    end in
  let root := tree_image tree in
  Ret (Ok {| ins_ID := si_Digest root;
             ins_RepoTags := repoTags resolved tree;
             ins_RepoDigests := [display resolved +:+ "@" +:+ si_Digest root];
             ins_Created := match doi_Created config with Some t => Format_RFC3339Nano t | None => "" end;
             ins_Author := doi_Author config;
             ins_Config := doi_Config config;
             ins_Architecture := Architecture platform; ins_Variant := Variant platform;
             ins_Os := OS platform; ins_OsVersion := OSVersion platform;
             ins_Size := imageSize tree image;
             ins_Layers := diffIDs config;
             ins_Descriptor := {| MediaType := si_MediaType root; Digest := si_Digest root; Size := si_Size root;
                                  Data := ""; desc_Platform := Some platform; Annotations := ∅ |};
             ins_Manifests := if inspect_Manifests options then manifestSummaries (tree_Manifests tree) else [] |}).

(** ** [ImageAttestations] *)

(** [io.ReadAll(io.LimitReader(blob, maxStatementSize))] *)
Definition limited (content : string) : string :=
  if (Z.of_nat (len content) <=? maxStatementSize)%Z then content
  else take_chars (Z.to_nat maxStatementSize) content.

Definition readStatement (repository digest : string) (size : Z) : iproc (ires string) :=
  if (maxStatementSize <? size)%Z
  then Ret (Err (errors_new "statement is %d bytes, larger than the %d byte limit"))
  else
    do r <- call (GetBlob Internal repository digest);
    Ret (match r with
         | Err e => if isNotFound e then Err (HttpNotFound e) else Err e
         | Ok (Err e) => Err e
         | Ok (Ok content) => Ok (limited content)
         end).

(** Whether the statement of a layer was asked for. *)
Definition wanted (options : AttestationOpts) (layer : storedDescriptor) : bool :=
  let predicate := annotationValue (sd_Annotations layer) inTotoPredicateTypeAnnotation in
  negb (bool_decide (predicate = "")) &&
  (bool_decide (PredicateTypes options = []) || slices_Contains (PredicateTypes options) predicate).

Definition layer_statement (layer : storedDescriptor) (content : option string) : AttestationStatement :=
  {| att_Descriptor := {| MediaType := sd_MediaType layer; Digest := sd_Digest layer; Size := sd_Size layer;
                          Data := ""; desc_Platform := None;
                          Annotations := annotationMap (sd_Annotations layer) |};
     att_PredicateType := annotationValue (sd_Annotations layer) inTotoPredicateTypeAnnotation;
     att_Statement := content |}.

Fixpoint statements (options : AttestationOpts) (repository : string) (layers : list storedDescriptor) :
    iproc (ires (list AttestationStatement)) :=
  match layers with
  | [] => Ret (Ok [])
  | layer :: layers =>
      if negb (wanted options layer) then statements options repository layers
      else
        do content <- if IncludeStatement options
                      then (do r <- readStatement repository (sd_Digest layer) (sd_Size layer);
                            Ret (match r with
                                 | Ok data => Ok (Some data)
                                 | Err e => Err (Failed "reading attestation statement %s: %w" (Some e))
                                 end))
                      else Ret (Ok None);
        match content with
        | Err e => Ret (Err e)
        | Ok content =>
            do? rest <- statements options repository layers;
            Ret (Ok (layer_statement layer content :: rest))
        end
  end.

(** [client] is the outcome of [r.client()]. *)
Definition ImageAttestations (client : ires unit) (id : option Identity) (name : string)
    (options : AttestationOpts) : iproc (ires (list AttestationStatement)) :=
  match client with
  | Err e => Ret (Err e)
  | Ok _ =>
      do? '(resolved, tree) <- inspectTree page_fuel id name;
      if negb (isIndex (si_MediaType (tree_image tree))) then Ret (Ok [])
      else
        match platformManifest tree (att_Platform options) with
        | Err e => Ret (Err e)
        | Ok (_, None) => Ret (Ok [])
        | Ok (_, Some child) =>
            match attestationManifest tree (child_Digest child) with
            | None => Ret (Ok [])
            | Some attestation => statements options (ri_repository resolved) (si_Layers attestation)
            end
        end
  end.

(** ** What a registry holds under a name ([distribution.go]) *)

(** [registrytypes.DistributionInspect] *)
Record DistributionInspect := { dist_Descriptor : Descriptor; dist_Platforms : list Platform }.

Context `{ManifestJSON}.

(** [pushOCIDescriptor] *)
Definition pushOCIDescriptor (d : Descriptor) : Descriptor :=
  {| MediaType := MediaType d; Digest := Digest d; Size := Size d; Data := ""; desc_Platform := None;
     Annotations := ∅ |}.

(** The platform in the configuration of a manifest. *)
Definition config_platform (repository : string) (config : Descriptor) : iproc (ires Platform) :=
  do? blob <- call (GetBlob Remote repository (Digest config));
  Ret (let? content := blob in Unmarshal_platform content).

Definition inspectDistribution (ref : Reference) : iproc (ires DistributionInspect) :=
  do? ref <- if decide (ref_Digest ref = "")
             then (do? descriptor <- call (ResolveTag Remote (Repository ref) (Tag ref));
                   Ret (Ok (with_Digest ref (Digest descriptor))))
             else Ret (Ok ref);
  do? descriptor <- getManifest Remote ref;
  match readIndexOrManifest (Data descriptor) with
  | Err e => Ret (Err e)
  | Ok manifest =>
      let result platforms := {| dist_Descriptor := pushOCIDescriptor descriptor; dist_Platforms := platforms |} in
      if isIndex (MediaType descriptor) then
        Ret (Ok (result (omap (λ child, ociPlatform <$> platformOf (desc_Platform child)) (Manifests manifest))))
      else if isManifest (MediaType descriptor) then
        match Config manifest with
        | None => Ret (Err (errors_new "distribution manifest has no image config"))
        | Some config =>
            do? platform <- config_platform (Repository ref) config;
            Ret (Ok (result [platform]))
        end
      else Ret (Err (errors_new "unsupported distribution media type %q"))
  end.

(** [connect] is the outcome of building a client for the host. *)
Definition InspectDistribution (connect : string → ires unit) (name : string) :
    iproc (ires DistributionInspect) :=
  match ParseRelative name with
  | None => Ret (Err (BadRequest (errors_new "invalid image reference %q")))
  | Some ref =>
      if decide (Repository ref = "") then Ret (Err (BadRequest (errors_new "invalid image reference %q")))
      else
        let ref := if bool_decide (Tag ref = "") && bool_decide (ref_Digest ref = "")
                   then with_Tag ref "latest" else ref in
        match connect (Host ref) with
        | Err e => Ret (Err e)
        | Ok _ =>
            do r <- inspectDistribution ref;
            Ret (match r with Ok result => Ok result | Err e => Err (remote_error e) end)
        end
  end.
End inspect.
