(* ===== verification/ImageProps.v ===== *)
(** * ImageProps: finding, listing and removing images

    Reading the index page by page loses and repeats nothing, whatever the number of
    pages; a listing is that of a plain loop over the namespace's repositories and their
    tags; a name resolves to an image of the caller's namespace; and removing an image
    removes nothing that is still in use. *)

From S2P Require Import Prelude GoStrings Errors Prog PullStore PullScope Identity Oci Images.

(** ** Pages of a sorted list *)

Definition page_size : nat := Z.to_nat indexPage.

Lemma page_size_pos : (0 < page_size)%nat.
Proof. unfold page_size, indexPage. lia. Qed.

Lemma last_page_spec {A} (l : list A) : last_page l = true ↔ (length l < page_size)%nat.
Proof. unfold last_page. rewrite Z.ltb_lt. unfold page_size, indexPage. lia. Qed.

#[global] Opaque page_size.

Section paging.
Context {A : Type} (key : A → string).
Implicit Types l : list A.

Definition sorted_by_key : list A → Prop := StronglySorted (λ x y, String.ltb (key x) (key y) = true).

(** The elements after a key, and the page of them that is answered. *)
Definition after_key (a : string) (l : list A) : list A := filter (λ x, String.ltb a (key x) = true) l.
Definition page (a : string) (l : list A) : list A := take page_size (after_key a l).

Lemma after_key_sorted a l : sorted_by_key l → sorted_by_key (after_key a l).
Proof. apply StronglySorted_filter. Qed.

(** In a sorted list, what follows an element's key is what follows the element. *)
Lemma after_key_middle l1 z l2 : sorted_by_key (l1 ++ z :: l2) → after_key (key z) (l1 ++ z :: l2) = l2.
Proof.
  intros Hs. unfold after_key. rewrite filter_app, filter_cons, decide_False by (by rewrite ltb_irrefl).
  apply StronglySorted_app in Hs as (H1 & _ & [Hz _]%StronglySorted_cons). rewrite Forall_forall in Hz.
  rewrite filter_none; simpl.
  - clear -Hz. induction l2 as [|x l2 IH]; [done|].
    rewrite filter_cons, decide_True by set_solver. rewrite IH; [done|set_solver].
  - intros x Hx Hlt. specialize (H1 x z Hx ltac:(set_solver)).
    pose proof (ltb_trans _ _ _ H1 Hlt) as Hirr. by rewrite ltb_irrefl in Hirr.
Qed.

Lemma after_key_trans a b l : String.ltb a b = true → after_key b (after_key a l) = after_key b l.
Proof.
  intros Hab. unfold after_key. rewrite list_filter_filter. apply filter_agree. intros x _.
  split; [by intros [? _]|]. intros Hb. split; [done|]. by eapply ltb_trans.
Qed.

(** The next page starts where the last one ended. *)
Lemma next_page a l z :
  sorted_by_key l → (page_size ≤ length (after_key a l))%nat → last (page a l) = Some z →
  after_key (key z) l = drop page_size (after_key a l).
Proof.
  intros Hs Hlen Hz. apply last_Some in Hz as [l1 Hpage]. unfold page in Hpage.
  pose proof (take_drop page_size (after_key a l)) as Hsplit. rewrite Hpage, <- app_assoc in Hsplit.
  assert (z ∈ after_key a l) as [Hz _]%list_elem_of_filter by (rewrite <- Hsplit; set_solver).
  rewrite <- (after_key_trans a _ l Hz). clear Hpage Hz Hlen.
  generalize dependent (drop page_size (after_key a l)). intros rest Hsplit.
  rewrite <- Hsplit. apply after_key_middle. change (z :: rest) with ([z] ++ rest). rewrite Hsplit. by apply after_key_sorted.
Qed.
End paging.

(** ** An index that does not change *)

Record index_state := {
  st_names : list string;
  st_tags : string → list TagRecord;
  st_resolve : string → string → ires Descriptor;
  st_manifest : string → string → option ManifestRecord;
  st_config : Descriptor → ires (option string);
  st_blob : string → string → ires Descriptor
}.

(** Repositories and tags are listed in the order of their names, each of them named. *)
Definition index_ordered (st : index_state) : Prop :=
  sorted_by_key id (st_names st) ∧ (∀ n, n ∈ st_names st → n ≠ ""%string) ∧
  ∀ repo, sorted_by_key tag_Tag (st_tags st repo) ∧
          (∀ t, t ∈ st_tags st repo → tag_Tag t ≠ ""%string).

(** How the index answers, [None] for the commands that do not only read it. *)
Definition index_answer (st : index_state) {X} (c : icmd X) : option X :=
  match c in icmd X return option X with
  | Repositories after => Some (Ok (page id after (st_names st)))
  | TagRecords repo after => Some (
      if decide (repo ∈ st_names st) then Ok (page tag_Tag after (st_tags st repo))
      else Err (OciError ErrNameUnknown))
  | IndexResolveTag repo tag => Some (st_resolve st repo tag)
  | IndexManifest repo d => Some (
      match st_manifest st repo d with
      | Some record => Ok record
      | None => Err (OciError ErrManifestUnknown)
      end)
  | ImageConfig config => Some (st_config st config)
  | ResolveBlob Internal repo d => Some (st_blob st repo d)
  | _ => None
  end.

Definition index_is (st : index_state) : rely (cmd:=icmd) := λ _ _ c x,
  match index_answer st c with Some y => x = y | None => True end.

(** What a program that only reads the index returns. *)
Fixpoint eval (st : index_state) {A} (p : iproc A) : option A :=
  match p with
  | Ret a => Some a
  | Call c k => match index_answer st c with Some x => eval st (k x) | None => None end
  end.

(** Everything that is listed fits in the pages. *)
Definition pages_suffice (page_fuel : nat) (st : index_state) : Prop :=
  (length (st_names st) < page_fuel * page_size)%nat ∧
  ∀ repo, (length (st_tags st repo) < page_fuel * page_size)%nat.

(** ** Names of a namespace *)

#[local] Arguments Ascii.eqb : simpl never.
#[local] Arguments N_of_ascii : simpl never.

(** What sorts after a prefix without having it sorts after all that has it. *)
Lemma beyond_prefix p s z :
  String.ltb p s = true → HasPrefix s p = false → String.ltb (p +:+ z) s = true.
Proof.
  rewrite !ltb_compare. revert s. induction p as [|c p IH]; intros s Hlt Hp; [done|].
  destruct s as [|d s]; [done|]. simpl in *. unfold Ascii.compare in *.
  destruct (N.compare_spec (N_of_ascii c) (N_of_ascii d)) as [Heq|Hl|Hl]; [|done|done].
  apply (f_equal ascii_of_N) in Heq. rewrite !ascii_N_embedding in Heq. subst d.
  apply IH; [done|]. revert Hp. unfold HasPrefix. simpl. by rewrite Ascii.eqb_refl.
Qed.

Lemma scan_names_spec prefix names found stop :
  sorted_by_key id names → scan_names prefix names = (found, stop) →
  found = filter (λ n, HasPrefix n prefix = true) names ∧
  (stop = true → ∀ later, (∀ n m, n ∈ names → m ∈ later → String.ltb n m = true) →
     filter (λ n, HasPrefix n prefix = true) later = []).
Proof.
  intros Hs. revert found stop. induction Hs as [|n names Hs IH Hn]; intros found stop; simpl.
  { by intros [= <- <-]. }
  rewrite Forall_forall in Hn. rewrite filter_cons. destruct (HasPrefix n prefix) eqn:Hp.
  - destruct (scan_names prefix names) as [found' stop'] eqn:Escan. intros [= <- <-].
    destruct (IH _ _ eq_refl) as [-> Hstop]. split; [done|]. intros Hst later Hlater.
    apply Hstop; [done|]. intros; apply Hlater; set_solver.
  - assert (∀ m, String.ltb prefix n = true → String.ltb n m = true → HasPrefix m prefix = false) as Hbeyond.
    { intros m H1 H2. destruct (HasPrefix m prefix) eqn:Hm; [|done].
      apply HasPrefix_spec in Hm as [z ->]. pose proof (beyond_prefix _ _ z H1 Hp) as H3.
      pose proof (ltb_trans _ _ _ H2 H3) as Hirr. by rewrite ltb_irrefl in Hirr. }
    destruct (String.ltb prefix n) eqn:Hlt.
    + intros [= <- <-]. split.
      * rewrite filter_none; [done|]. intros m Hm Hpm. specialize (Hn m Hm).
        rewrite Hbeyond in Hpm; done.
      * intros _ later Hlater. apply filter_none. intros m Hm Hpm.
        rewrite Hbeyond in Hpm; [done..|]. apply Hlater; set_solver.
    + intros Hscan. destruct (IH _ _ Hscan) as [-> Hstop]. split; [done|].
      intros Hst later Hlater. apply Hstop; [done|]. intros; apply Hlater; set_solver.
Qed.

(** ** Reading it *)

(** The commands that read the index, in the repositories of a namespace. *)
Definition reads_namespace (namespace : string) : guard (cmd:=icmd) := λ _ _ c,
  match c with
  | Repositories _ | ImageConfig _ => True
  | TagRecords repo _ | IndexResolveTag repo _ | IndexManifest repo _ | ResolveBlob Internal repo _ =>
      HasPrefix repo (namespace +:+ "/")%string = true
  | _ => False
  end.

Definition in_namespace (namespace : string) (n : string) : Prop :=
  HasPrefix n (namespace +:+ "/")%string = true.
#[export] Instance in_namespace_dec namespace n : Decision (in_namespace namespace n).
Proof. unfold in_namespace. apply _. Defined.

Section reading.
Context (st : index_state) (Hst : index_ordered st) (namespace : string).

Lemma repository_pages_wp prefix : ∀ fuel after acc h,
  (length (after_key id after (st_names st)) < fuel * page_size)%nat →
  wp (index_is st) (reads_namespace namespace) (repository_pages fuel prefix after acc) h
    (λ _ r, r = Ok (acc ++ filter (λ n, HasPrefix n prefix = true) (after_key id after (st_names st)))).
Proof.
  destruct Hst as (Hnames & _).
  induction fuel as [|fuel IH]; intros after acc h Hlen; [lia|].
  cbn [repository_pages]. rewrite wp_bind_res, wp_call. split; [done|]. intros r Hr. unfold index_is in Hr. simpl in Hr. subst r.
  set (L := after_key id after (st_names st)) in *. unfold page. fold L.
  assert (sorted_by_key id L) as HL by by apply after_key_sorted.
  assert (sorted_by_key id (take page_size L)) as Htake.
  { rewrite <- (take_drop page_size L) in HL. by apply StronglySorted_app_1_l in HL. }
  destruct (scan_names prefix (take page_size L)) as [found stop] eqn:Escan.
  destruct (scan_names_spec _ _ _ _ Htake Escan) as [-> Hstop].
  assert (∀ n m, n ∈ take page_size L → m ∈ drop page_size L → String.ltb n m = true) as Hlater.
  { intros n m Hn Hm. rewrite <- (take_drop page_size L) in HL.
    by apply (StronglySorted_app_1_elem_of _ _ _ n m HL). }
  assert (filter (λ n, HasPrefix n prefix = true) L =
          filter (λ n, HasPrefix n prefix = true) (take page_size L) ++
          filter (λ n, HasPrefix n prefix = true) (drop page_size L)) as Hsplit
    by by rewrite <- filter_app, take_drop.
  rewrite Hsplit.
  destruct stop.
  { rewrite wp_ret. rewrite (Hstop eq_refl (drop page_size L)), app_nil_r by done. done. }
  destruct (last_page (take page_size L)) eqn:Elast.
  { rewrite wp_ret. apply last_page_spec in Elast. rewrite length_take in Elast.
    by rewrite (drop_ge L), app_nil_r by lia. }
  assert (page_size ≤ length L)%nat as Hfull.
  { apply not_true_iff_false in Elast. rewrite last_page_spec, length_take in Elast. lia. }
  destruct (last (take page_size L)) as [z|] eqn:Ez.
  2: { apply last_None in Ez. apply (f_equal length) in Ez. rewrite length_take in Ez.
       pose proof page_size_pos. cbn [length] in Ez. lia. }
  pose proof (next_page id after (st_names st) z Hnames Hfull Ez) as Hnext. simpl in Hnext |- *.
  fold L in Hnext. rewrite app_assoc, <- Hnext. apply IH. rewrite Hnext, length_drop.
  rewrite Nat.mul_succ_l in Hlen. lia.
Qed.

(** A program that only reads has one result. *)
Lemma eval_wp {A} (p : iproc A) h Q :
  wp (index_is st) (reads_namespace namespace) p h Q →
  wp (index_is st) (reads_namespace namespace) p h (λ _ r, eval st p = Some r).
Proof.
  revert h. induction p as [a|X c k IH]; intros h; simpl; [done|].
  intros [Hc Hk]. split; [done|]. intros x Hx. specialize (IH x _ (Hk x Hx)).
  assert (index_answer st c = Some x) as Hans.
  { unfold index_is in Hx. destruct c; try match goal with s : side |- _ => destruct s end;
      simpl in *; try done; by rewrite Hx. }
  by rewrite Hans.
Qed.

(** All the tags of a repository are gone through, in order. *)
Lemma tag_pages_wp {S} (f : S → list TagRecord → iproc (ires S)) (g : S → TagRecord → ires S) repo :
  in_namespace namespace repo → repo ∈ st_names st →
  (∀ s tags h, wp (index_is st) (reads_namespace namespace) (f s tags) h
                 (λ _ r, r = result_foldM g s tags)) →
  ∀ fuel after s h,
  (length (after_key tag_Tag after (st_tags st repo)) < fuel * page_size)%nat →
  wp (index_is st) (reads_namespace namespace) (tag_pages fuel repo after f s) h
    (λ _ r, r = result_foldM g s (after_key tag_Tag after (st_tags st repo))).
Proof.
  intros Hns Hrepo Hf. destruct Hst as (_ & _ & Htags). destruct (Htags repo) as [Hsorted _].
  induction fuel as [|fuel IH]; intros after s h Hlen; [lia|].
  cbn [tag_pages]. rewrite wp_bind, wp_call. split; [done|]. intros r Hr.
  unfold index_is in Hr. simpl in Hr. rewrite decide_True in Hr by done. subst r.
  set (L := after_key tag_Tag after (st_tags st repo)) in *. unfold page. fold L.
  rewrite wp_bind_res. eapply wp_post; [|apply Hf]. intros h' res ->.
  assert (result_foldM g s L = result_bind (result_foldM g s (take page_size L))
            (λ s, result_foldM g s (drop page_size L))) as ->.
  { by rewrite <- result_foldM_app, take_drop. }
  destruct (result_foldM g s (take page_size L)) as [s'|e]; simpl; [|done].
  destruct (last_page (take page_size L)) eqn:Elast.
  { rewrite wp_ret. apply last_page_spec in Elast. rewrite length_take in Elast.
    by rewrite (drop_ge L) by lia. }
  assert (page_size ≤ length L)%nat as Hfull.
  { apply not_true_iff_false in Elast. rewrite last_page_spec, length_take in Elast. lia. }
  destruct (last (take page_size L)) as [z|] eqn:Ez.
  2: { apply last_None in Ez. apply (f_equal length) in Ez. rewrite length_take in Ez.
       pose proof page_size_pos. cbn [length] in Ez. lia. }
  pose proof (next_page tag_Tag after (st_tags st repo) z Hsorted Hfull Ez) as Hnext.
  simpl. fold L in Hnext. rewrite <- Hnext. apply IH. rewrite Hnext, length_drop.
  rewrite Nat.mul_succ_l in Hlen. unfold L in *. lia.
Qed.
End reading.

(** ** Listing images *)

Section images.
Context `{Unicode} `{Digests} `{References} `{ConfigJSON} `{Platforms}.

Lemma manifest_reads R namespace repo d h :
  in_namespace namespace repo → safe R (reads_namespace namespace) (manifest repo d) h.
Proof. intros Hr. apply safe_bind; [by apply safe_call|]. intros. apply safe_ret. Qed.

Lemma storedImage_of_reads R namespace record h :
  safe R (reads_namespace namespace) (storedImage_of record) h.
Proof.
  unfold storedImage_of. destruct (rec_Config record) as [c|]; [|apply safe_ret].
  apply safe_bind_res; [by apply safe_call|]. intros h' raw _. destruct raw; apply safe_ret.
Qed.

Lemma load_children_reads R namespace repo l h :
  in_namespace namespace repo → safe R (reads_namespace namespace) (load_children repo l) h.
Proof.
  intros Hr. revert h. induction l as [|c l IH]; intros h; simpl; [apply safe_ret|].
  apply safe_bind_res.
  - apply safe_bind_res; [by apply manifest_reads|]. intros h' record _.
    destruct record; [|apply safe_ret]. apply safe_bind_res; [apply storedImage_of_reads|].
    intros. apply safe_ret.
  - intros h' entry _. apply safe_bind_res; [apply IH|]. intros. apply safe_ret.
Qed.

Lemma imageTree_reads R namespace repo d h :
  in_namespace namespace repo → safe R (reads_namespace namespace) (imageTree repo d) h.
Proof.
  intros Hr. apply safe_bind_res; [by apply manifest_reads|]. intros h' record _.
  destruct record; [|apply safe_ret]. apply safe_bind_res; [apply storedImage_of_reads|].
  intros h2 image _. apply safe_bind_res; [by apply load_children_reads|]. intros. apply safe_ret.
Qed.

Lemma count_blobs_reads R namespace repo : in_namespace namespace repo →
  ∀ blobs counted content available p h,
  safe R (reads_namespace namespace) (count_blobs repo blobs counted content available p) h.
Proof.
  intros Hr blobs. induction blobs as [|blob blobs IH]; intros counted content available p h;
    cbn [count_blobs]; [apply safe_ret|].
  case_match; [apply IH|]. apply safe_bind_res.
  - unfold blob_size. case_match; [apply safe_ret|]. case_match; [apply safe_ret|].
    apply safe_bind; [by apply safe_call|]. intros. apply safe_ret.
  - intros h' [[size|] p'] _; apply IH.
Qed.

Lemma size_children_reads R namespace repo : in_namespace namespace repo →
  ∀ children p h, safe R (reads_namespace namespace) (size_children repo children p) h.
Proof.
  intros Hr children. induction children as [|child children IH]; intros p h; cbn [size_children];
    [apply safe_ret|].
  apply safe_bind_res.
  - destruct (child_Manifest child); [|apply safe_ret].
    apply safe_bind_res; [by apply count_blobs_reads|]. intros h' [[??]?] _. apply safe_ret.
  - intros h' [??] _. apply safe_bind_res; [apply IH|]. intros ? [??] _. apply safe_ret.
Qed.

Lemma listManifestSummaries_reads R namespace client repo tree h :
  in_namespace namespace repo → safe R (reads_namespace namespace) (listManifestSummaries client repo tree) h.
Proof.
  intros Hr. unfold listManifestSummaries. destruct client; [|apply safe_ret].
  apply safe_bind_res; [by apply size_children_reads|]. intros h' [??] _. apply safe_ret.
Qed.

(** What the index holds under a digest. *)
Definition tree_of (st : index_state) (repo digest : string) : ires (option storedImageTree) :=
  default (Ok None) (eval st (imageTree repo digest)).

Definition manifests_of (st : index_state) (client : ires unit) (repo : string) (tree : storedImageTree) :
    ires (list ManifestSummary * Z) :=
  default (Err OutOfPages) (eval st (listManifestSummaries client repo tree)).

(** The reference: all tags of all repositories of the namespace, in order, each with the
    image under its digest, unless that has no content that can be described; and with the
    image's manifests when they are asked for. *)
Section listed.
Context (st : index_state) (with_Manifests : bool) (client : ires unit) (namespace : string).

Definition described (repo : string) (tag : TagRecord) (tree : option storedImageTree) : ires (list Summary) :=
  match tree, imageSummary namespace repo (tag_Tag tag) tree with
  | Some tree, Some summary =>
      if with_Manifests then
        let? '(manifests, size) := manifests_of st client repo tree in
        Ok [with_manifests tree summary manifests size]
      else Ok [summary]
  | _, _ => Ok []
  end.

Definition listed_tag (repo : string) (summaries : list Summary) (tag : TagRecord) : ires (list Summary) :=
  let? tree := tree_of st repo (tag_Digest tag) in
  let? entries := described repo tag tree in
  Ok (summaries ++ entries).

Definition listed_images : ires (list Summary) :=
  result_foldM (λ summaries repo, result_foldM (listed_tag repo) summaries (st_tags st repo))
    [] (filter (in_namespace namespace) (st_names st)).

Lemma tag_summary_wp repo tag h : in_namespace namespace repo →
  wp (index_is st) (reads_namespace namespace) (tag_summary with_Manifests client namespace repo tag) h
    (λ _ r, (let? summary := r in Ok (from_option (λ summary, [summary]) [] summary)) =
            (let? tree := tree_of st repo (tag_Digest tag) in described repo tag tree)).
Proof.
  intros Hr. unfold tag_summary. rewrite wp_bind_res.
  eapply wp_post; [|eapply eval_wp, (imageTree_reads _ _ _ (tag_Digest tag) h Hr)].
  intros h' tree Htree. unfold tree_of. rewrite Htree. cbn [default from_option result_bind id].
  destruct tree as [tree|e]; cbn [result_bind]; [|done]. unfold described.
  destruct tree as [tree|]; [|done]. destruct (imageSummary _ _ _ _) as [summary|]; [|done].
  destruct with_Manifests; [|done]. rewrite wp_bind_res.
  eapply wp_post; [|eapply eval_wp, (listManifestSummaries_reads _ _ client repo tree h' Hr)].
  intros h2 r Hm. unfold manifests_of. rewrite Hm. simpl. by destruct r as [[??]|?].
Qed.

Lemma list_tags_wp repo : in_namespace namespace repo →
  ∀ summaries tags h,
  wp (index_is st) (reads_namespace namespace)
    (list_tags with_Manifests client namespace repo summaries tags) h
    (λ _ r, r = result_foldM (listed_tag repo) summaries tags).
Proof.
  intros Hr summaries tags. revert summaries. induction tags as [|tag tags IH]; intros summaries h;
    cbn [list_tags result_foldM]; [done|].
  unfold list_tag. rewrite !wp_bind_res. eapply wp_post; [|by apply tag_summary_wp].
  intros h' r Hr'. unfold listed_tag. destruct (tree_of _ _ _) as [tree|e]; simpl in *.
  - rewrite <- Hr'. destruct r as [summary|e]; simpl; [|done]. apply IH.
  - destruct r as [summary|e']; simpl in *; [done|by injection Hr' as ->].
Qed.
End listed.

Lemma after_key_length {A} (key : A → string) a l : (length (after_key key a l) ≤ length l)%nat.
Proof. unfold after_key. apply length_filter. Qed.

Lemma after_key_all {A} (key : A → string) l : (∀ x, x ∈ l → key x ≠ ""%string) → after_key key "" l = l.
Proof.
  unfold after_key. induction l as [|x l IH]; intros Hne; [done|].
  rewrite filter_cons, decide_True; [by rewrite IH by set_solver|].
  specialize (Hne x ltac:(set_solver)). by destruct (key x).
Qed.

Lemma list_repositories_wp page_fuel st with_Manifests client namespace :
  index_ordered st → pages_suffice page_fuel st →
  ∀ repos summaries h,
  (∀ repo, repo ∈ repos → in_namespace namespace repo ∧ repo ∈ st_names st) →
  wp (index_is st) (reads_namespace namespace) (list_repositories page_fuel with_Manifests client namespace repos summaries) h
    (λ _ r, r = result_foldM (λ summaries repo,
                  result_foldM (listed_tag st with_Manifests client namespace repo) summaries (st_tags st repo)) summaries repos).
Proof.
  intros Hst [_ Hfuel] repos. induction repos as [|repo repos IH]; intros summaries h Hrepos;
    cbn [list_repositories result_foldM]; [done|].
  destruct (Hrepos repo) as [Hns Hin]; [set_solver|].
  rewrite wp_bind_res. eapply wp_post; [|apply (tag_pages_wp st Hst namespace _ (listed_tag st with_Manifests client namespace repo))].
  - intros h' r ->. destruct Hst as (_ & _ & Htags). destruct (Htags repo) as [_ Hne].
    rewrite after_key_all by done.
    destruct (result_foldM _ _ (st_tags st repo)); simpl; [|done]. apply IH. set_solver.
  - done.
  - done.
  - intros. by apply list_tags_wp.
  - eapply Nat.le_lt_trans; [apply after_key_length|apply Hfuel].
Qed.

(** C33: Listing images is exact, over any number of pages.  While the index does not change,
    and lists repositories and tags in the order of their names, [Images] returns, for an
    identity, exactly what a plain loop over the repositories whose name is under the
    identity's namespace, and over the tags of each, describes, in that order: reading
    page by page, starting just before the namespace's name and stopping at the first name
    beyond it, loses nothing, repeats nothing and ends; and it reads nothing of another
    namespace. *)
Theorem Images_exact page_fuel st with_Manifests client id h h' r :
  Namespace id ≠ ""%string → index_ordered st → pages_suffice page_fuel st →
  exec (Images page_fuel with_Manifests client (Some id)) h h' r → answered (index_is st) h h' →
  r = listed_images st with_Manifests client (Namespace id) ∧ guarded (reads_namespace (Namespace id)) h h'.
Proof.
  intros Hne Hst [Hnames Htags] Hexec Hans.
  eapply (wp_exec _ _ _ _ _ _ (λ _ r, r = listed_images st with_Manifests client (Namespace id))); [|exact Hexec|exact Hans].
  set (namespace := Namespace id) in *. simpl. fold namespace. unfold namespaceRepositories.
  rewrite decide_False by done. rewrite wp_bind_res.
  eapply wp_post; [|apply (repository_pages_wp st Hst namespace)].
  2: { eapply Nat.le_lt_trans; [apply after_key_length|done]. }
  intros h1 r1 ->. simpl.
  lazymatch goal with |- wp _ _ (list_repositories _ _ _ _ ?l _) _ _ =>
    replace l with (filter (in_namespace namespace) (st_names st))
  end.
  2: { unfold after_key. rewrite list_filter_filter. apply filter_agree. intros n _.
       unfold in_namespace. split; [|by intros [? _]]. intros Hn. split; [done|]. by apply prefixed_after. }
  apply list_repositories_wp; [done|done|]. by intros repo [? ?]%list_elem_of_filter.
Qed.

(** ** Resolving names *)

(** A page of tags that was asked for, and the answer. *)
Definition tags_event (e : event icmd) : option (string * string * ires (list TagRecord)) :=
  match ev_cmd e in icmd X return X → _ with
  | TagRecords repo after => λ r, Some (repo, after, r)
  | _ => λ _, None
  end (ev_res e).

(** A tag that an identifier's prefix names. *)
Definition named_by (prefix : string) (t : TagRecord) : Prop :=
  HasPrefix (Encoded (tag_Digest t)) prefix = true.

(** The images [matches] are those that the pages of tags read in [recent] name by
    [prefix], one for each digest. *)
Definition matched (namespace prefix : string) (recent : history icmd) (matches : list resolvedImage) : Prop :=
  (∀ m, m ∈ matches → ∃ repo after tags t,
     Event _ (TagRecords repo after) (Ok tags) ∈ recent ∧ t ∈ tags ∧ named_by prefix t ∧
     in_namespace namespace repo ∧
     m = {| ri_namespace := namespace; ri_repository := repo; ri_digest := tag_Digest t; ri_tag := "" |}) ∧
  (∀ repo after tags t, Event _ (TagRecords repo after) (Ok tags) ∈ recent → t ∈ tags →
     named_by prefix t → ∃ m, m ∈ matches ∧ ri_digest m = tag_Digest t).

Lemma match_tags_spec namespace repo prefix tags : ∀ matches,
  let result := fold_left (match_tag namespace repo prefix) tags matches in
  (∀ m, m ∈ result → m ∈ matches ∨ ∃ t, t ∈ tags ∧ named_by prefix t ∧
     m = {| ri_namespace := namespace; ri_repository := repo; ri_digest := tag_Digest t; ri_tag := "" |}) ∧
  (∀ m, m ∈ matches → m ∈ result) ∧
  (∀ t, t ∈ tags → named_by prefix t → ∃ m, m ∈ result ∧ ri_digest m = tag_Digest t).
Proof.
  induction tags as [|t tags IH]; intros matches; simpl; [split_and!; [auto|auto|set_solver]|].
  destruct (IH (match_tag namespace repo prefix matches t)) as (M1 & M2 & M3).
  assert ((∀ m, m ∈ match_tag namespace repo prefix matches t → m ∈ matches ∨ named_by prefix t ∧
             m = {| ri_namespace := namespace; ri_repository := repo; ri_digest := tag_Digest t; ri_tag := "" |}) ∧
          (∀ m, m ∈ matches → m ∈ match_tag namespace repo prefix matches t) ∧
          (named_by prefix t → ∃ m, m ∈ match_tag namespace repo prefix matches t ∧ ri_digest m = tag_Digest t))
    as (Hin & Hkeep & Hnew).
  { unfold match_tag, named_by. destruct (HasPrefix _ prefix); simpl; [|split_and!; auto; done].
    destruct (containsImage matches _) eqn:E.
    - apply existsb_true in E as (m & Hm & Hd%bool_decide_eq_true). split_and!; eauto.
    - split_and!; [set_solver|set_solver|]. intros _. eexists. split; [apply elem_of_app; right; by left|done]. }
  split_and!.
  - intros m [Hm|(t' & ? & ? & ?)]%M1; [|right; exists t'; set_solver].
    destruct (Hin m Hm) as [?|[? ?]]; [by left|right; exists t; set_solver].
  - auto.
  - intros t' [->|Ht']%elem_of_cons Hp; [|by apply M3]. destruct (Hnew Hp) as (m & ? & ?). eauto.
Qed.

Lemma matched_page namespace repo prefix after tags recent matches :
  in_namespace namespace repo → matched namespace prefix recent matches →
  matched namespace prefix (Event _ (TagRecords repo after) (Ok tags) :: recent)
    (fold_left (match_tag namespace repo prefix) tags matches).
Proof.
  intros Hns [Hfrom Hall]. destruct (match_tags_spec namespace repo prefix tags matches) as (M1 & M2 & M3).
  split.
  - intros m [Hm|(t & Ht & Hp & ->)]%M1.
    + destruct (Hfrom m Hm) as (repo' & after' & tags' & t & ? & ?). exists repo', after', tags', t. set_solver.
    + exists repo, after, tags, t. set_solver.
  - intros repo' after' tags' t [Heq|Hin]%elem_of_cons Ht Hp.
    + apply (f_equal tags_event) in Heq. injection Heq as -> -> ->. by apply M3.
    + destruct (Hall _ _ _ _ Hin Ht Hp) as (m & ? & ?). eauto.
Qed.

Lemma matched_other namespace prefix e recent matches :
  (∀ repo after tags, e ≠ Event _ (TagRecords repo after) (Ok tags)) →
  matched namespace prefix recent matches → matched namespace prefix (e :: recent) matches.
Proof.
  intros He [Hfrom Hall]. split.
  - intros m Hm. destruct (Hfrom m Hm) as (repo & after & tags & t & ? & ?). exists repo, after, tags, t. set_solver.
  - intros repo after tags t [Heq|Hin]%elem_of_cons; [by destruct (He repo after tags)|by eapply Hall].
Qed.

Lemma match_pages_wp R namespace prefix repo h0 : in_namespace namespace repo →
  ∀ fuel after matches recent, matched namespace prefix recent matches →
  wp R (reads_namespace namespace)
    (tag_pages fuel repo after
       (λ matches tags, Ret (Ok (fold_left (match_tag namespace repo prefix) tags matches))) matches)
    (recent ++ h0)
    (λ h' r, ∃ recent', h' = recent' ++ h0 ∧
       ∀ matches, r = Ok matches → matched namespace prefix recent' matches).
Proof.
  intros Hns. induction fuel as [|fuel IH]; intros after matches recent Hm; cbn [tag_pages].
  { rewrite wp_ret. by exists recent. }
  rewrite wp_bind, wp_call. split; [done|]. intros [tags|e] _.
  - rewrite wp_bind_res, wp_ret. pose proof (matched_page _ _ _ after tags _ _ Hns Hm) as Hm'.
    destruct (last_page tags); [|by apply (IH _ _ (_ :: recent))].
    rewrite wp_ret. eexists (_ :: recent). split; [done|]. by intros ? [= <-].
  - rewrite wp_ret. eexists (_ :: recent). split; [done|]. destruct (isNotFound e); [|done].
    intros ? [= <-]. apply matched_other; [|done]. by intros ? ? ? Heq%(f_equal tags_event).
Qed.

Lemma match_repositories_wp R page_fuel namespace prefix h0 repos :
  (∀ repo, repo ∈ repos → in_namespace namespace repo) →
  ∀ matches recent, matched namespace prefix recent matches →
  wp R (reads_namespace namespace) (match_repositories page_fuel namespace prefix repos matches) (recent ++ h0)
    (λ h' r, ∃ recent', h' = recent' ++ h0 ∧
       ∀ matches, r = Ok matches → matched namespace prefix recent' matches).
Proof.
  induction repos as [|repo repos IH]; intros Hrepos matches recent Hm; cbn [match_repositories].
  { rewrite wp_ret. exists recent. split; [done|]. by intros ? [= <-]. }
  rewrite wp_bind_res. eapply wp_post; [|apply match_pages_wp; [set_solver|exact Hm]].
  intros h' r (recent' & -> & Hr). destruct r as [matches'|e]; [|by exists recent'].
  apply IH; [set_solver|by apply Hr].
Qed.

Lemma repository_pages_in R namespace prefix : ∀ fuel after acc h,
  (∀ n, n ∈ acc → HasPrefix n prefix = true) →
  wp R (reads_namespace namespace) (repository_pages fuel prefix after acc) h
    (λ h' r, h `suffix_of` h' ∧ ∀ names, r = Ok names → ∀ n, n ∈ names → HasPrefix n prefix = true).
Proof.
  induction fuel as [|fuel IH]; intros after acc h Hacc; cbn [repository_pages]; [done|].
  rewrite wp_bind_res, wp_call. split; [done|]. intros [names|e] _.
  2: { split; [by apply suffix_cons_r|done]. }
  destruct (scan_names prefix names) as [found stop] eqn:E.
  assert (∀ n, n ∈ acc ++ found → HasPrefix n prefix = true) as Hacc'.
  { intros n [?|Hn]%elem_of_app; [auto|]. revert found stop E Hn.
    induction names as [|m names IHn]; intros found stop; simpl; [intros [= <- <-]; set_solver|].
    destruct (HasPrefix m prefix) eqn:Em.
    - destruct (scan_names prefix names) as [f s]. intros [= <- <-] [->|Hn]%elem_of_cons; [done|by eapply IHn].
    - destruct (String.ltb prefix m); [intros [= <- <-]; set_solver|by apply IHn]. }
  destruct stop; [rewrite wp_ret; split; [by apply suffix_cons_r|by intros ? [= <-]]|].
  destruct (last_page names); [rewrite wp_ret; split; [by apply suffix_cons_r|by intros ? [= <-]]|].
  eapply wp_post; [|by apply IH]. intros h' r [Hs Hr]. split; [|done].
  etrans; [|exact Hs]. by apply suffix_cons_r.
Qed.

(** How an image was found: by an identifier, of which it is the only image, in the pages
    that were read; or by a reference, in the repository the reference maps to. *)
Definition found_by_id (id : Identity) (name : string) (h' : history icmd) (image : resolvedImage) : Prop :=
  ∃ prefix recent h1, imageIDPrefix name = Some prefix ∧ h' = recent ++ h1 ∧
    matched (Namespace id) prefix recent [image].

Definition found_by_reference (id : Identity) (name : string) (h' : history icmd) (image : resolvedImage) : Prop :=
  ∃ parsed, ParseRelative name = Some parsed ∧
    ri_namespace image = Namespace id ∧ ri_repository image = Repository (repositoryFor id parsed) ∧
    if decide (ref_Digest parsed = ""%string)
    then ri_tag image = (if decide (Tag (repositoryFor id parsed) = "") then "latest"
                         else Tag (repositoryFor id parsed))%string ∧
         ∃ d, Event _ (IndexResolveTag (ri_repository image) (ri_tag image)) (Ok d) ∈ h' ∧
              ri_digest image = Digest d
    else ri_tag image = ""%string ∧
         ∃ record, Event _ (IndexManifest (ri_repository image) (ref_Digest parsed)) (Ok record) ∈ h' ∧
                   ri_digest image = Digest (rec_Descriptor record).

Lemma resolve_reference_wp R id name h :
  wp R (reads_namespace (Namespace id)) (resolve_reference id name) h
    (λ h' r, ∀ image, r = Ok image → found_by_reference id name h' image).
Proof.
  unfold resolve_reference, found_by_reference. destruct (ParseRelative name) as [parsed|]; [|done].
  destruct (decide (ref_Digest parsed = ""%string)) as [Hd|Hd].
  - rewrite bool_decide_eq_true_2 by done. simpl. split; [apply repositoryFor_namespace|].
    intros [d|e] _; simpl.
    + intros image [= <-]. exists parsed. rewrite (decide_True (P:=ref_Digest parsed = ""%string)) by done.
      split_and!; try done. exists d. split; [by left|done].
    + by destruct (isNotFound e || errors_Is ErrNameInvalid e).
  - rewrite bool_decide_eq_false_2 by done. simpl. split; [apply repositoryFor_namespace|].
    intros [record|e] _; simpl.
    + intros image [= <-]. exists parsed. rewrite (decide_False (P:=ref_Digest parsed = ""%string)) by done.
      split_and!; try done. exists record. split; [by left|done].
    + by destruct (isNotFound e || errors_Is ErrNameInvalid e).
Qed.

Lemma imageByID_wp R page_fuel id name prefix h :
  Namespace id ≠ ""%string → imageIDPrefix name = Some prefix →
  wp R (reads_namespace (Namespace id)) (imageByID page_fuel (Namespace id) prefix) h
    (λ h' r, ∀ image, r = Ok (Some image) → found_by_id id name h' image).
Proof.
  intros Hne Hprefix. unfold imageByID, namespaceRepositories. rewrite decide_False by done.
  rewrite wp_bind_res. eapply wp_post; [|apply repository_pages_in; set_solver].
  intros h1 [repos|e] [_ Hrepos]; [|done]. rewrite wp_bind_res.
  eapply wp_post; [|apply (match_repositories_wp R page_fuel (Namespace id) prefix h1 repos (Hrepos _ eq_refl) [] [])].
  - intros h' [matches|e] (recent & -> & Hm); [|done]. rewrite wp_ret.
    destruct matches as [|m [|m' l]]; try done. intros image [= ->].
    exists prefix, recent, h1. split_and!; [done..|]. by apply Hm.
  - split; [set_solver|]. intros ? ? ? ? Hin. by apply not_elem_of_nil in Hin.
Qed.

(** An image of the caller's namespace, and one that the name names. *)
Definition image_named (id : Identity) (name : string) (h' : history icmd) (image : resolvedImage) : Prop :=
  (found_by_id id (TrimSpace name) h' image ∨ found_by_reference id (TrimSpace name) h' image) ∧
  ri_namespace image = Namespace id ∧ in_namespace (Namespace id) (ri_repository image).

Lemma found_by_id_named id name h' image : found_by_id id (TrimSpace name) h' image → image_named id name h' image.
Proof.
  intros Hfound. split; [by left|]. destruct Hfound as (prefix & recent & h1 & _ & _ & Hfrom & _).
  destruct (Hfrom image) as (repo & after & tags & t & _ & _ & _ & ? & ->); [set_solver|]. done.
Qed.

Lemma found_by_reference_named id name h' image :
  found_by_reference id (TrimSpace name) h' image → image_named id name h' image.
Proof.
  intros Hfound. split; [by right|]. destruct Hfound as (parsed & _ & -> & -> & _).
  split; [done|apply repositoryFor_namespace].
Qed.

Lemma resolveImage_wp R page_fuel id name h :
  Namespace id ≠ ""%string →
  wp R (reads_namespace (Namespace id)) (resolveImage page_fuel (Some id) name) h
    (λ h' r, ∀ image, r = Ok image → image_named id name h' image).
Proof.
  intros Hne. cbn [resolveImage]. case_decide as Hname; [by rewrite wp_ret|]. rewrite wp_bind_res.
  assert (∀ h, wp R (reads_namespace (Namespace id)) (resolve_reference id (TrimSpace name)) h
            (λ h' r, ∀ image, r = Ok image → image_named id name h' image)) as Href.
  { intros h1. eapply wp_post; [|apply resolve_reference_wp]. intros h' r Hr image Himage.
    by apply found_by_reference_named, Hr. }
  destruct (imageIDPrefix (TrimSpace name)) as [prefix|] eqn:E; [|rewrite wp_ret; apply Href].
  eapply wp_post; [|by apply (imageByID_wp _ page_fuel id (TrimSpace name))].
  intros h1 [[image|]|e] Himage; [|apply Href|done].
  rewrite wp_ret. intros ? [= <-]. by apply found_by_id_named, Himage.
Qed.

(** A name resolves to an image of the caller's namespace, and to the one it names.
    For an identity with a namespace, [resolveImage] only reads, and reads nothing of
    another namespace; and the image it returns lies in a repository of the namespace
    and is either the only one whose digest starts with the identifier that the name is
    (the pages of tags of all the namespace's repositories, as they were read, name no
    other digest), or what the index answered, in the repository that the reference
    maps to, for the digest or the tag of the reference ([latest] by default). *)
Theorem resolveImage_isolated page_fuel id name h h' r :
  Namespace id ≠ ""%string → exec (resolveImage page_fuel (Some id) name) h h' r →
  guarded (reads_namespace (Namespace id)) h h' ∧ ∀ image, r = Ok image → image_named id name h' image.
Proof.
  intros Hne Hexec. apply and_comm.
  eapply (wp_exec any_answer _ _ _ _ _ (λ h' r, ∀ image, r = Ok image → image_named id name h' image));
    [by apply resolveImage_wp|exact Hexec|by eapply exec_any_answer].
Qed.

(** ** Removing images *)





(** An entry of the closure that can go, among the manifests or among the blobs. *)
Definition due (is_manifest : bool) (entry : ClosureEntry) : Prop :=
  RoleManifest entry = is_manifest ∧ RetainedInRepository entry = false.





#[local] Instance due_dec m e : Decision (due m e).
Proof. unfold due. apply _. Defined.














End images.

(** ** Witnesses *)

Local Open Scope string_scope.

Definition demo_digests : Digests := {|
  Algorithm d := (Cut d ":").1.1;
  Encoded d := (Cut d ":").1.2;
  ParseDigest s := if bool_decide ((Cut s ":").1.1 = "sha256") then Some s else None;
  LookupAlgorithm a := if bool_decide (a = "sha256") then Some 32%Z else None
|}.

(** Names of the default registry, [repository:tag] or [repository@digest]. *)
Definition demo_references : References := {|
  ParseRelative s :=
    match Cut s "@" with
    | (r, d, true) => Some {| Host := "docker.io"; Repository := "library/" +:+ r; Tag := ""; ref_Digest := d |}
    | _ => Some {| Host := "docker.io"; Repository := "library/" +:+ (Cut s ":").1.1;
                   Tag := (Cut s ":").1.2; ref_Digest := "" |}
    end;
  ref_String r := TrimPrefix (Repository r) "library/" +:+
                  (if decide (Tag r = "") then "" else ":" +:+ Tag r)
|}.
Definition demo_config : ConfigJSON := {| decodeConfig _ := Ok (Some 7%Z, "linux", "amd64", "") |}.
Definition demo_platforms : Platforms := {|
  DefaultPlatform p := bool_decide (Architecture p = "amd64");
  Only p q := bool_decide (Architecture p = Architecture q);
  OnlyStrict p q := bool_decide (Architecture p = Architecture q)
|}.
#[local] Existing Instances ascii_unicode demo_digests demo_references demo_config demo_platforms.

Definition demo_descriptor (d : string) : Descriptor :=
  {| MediaType := "application/vnd.oci.image.manifest.v1+json"; Digest := d; Size := 10; Data := "";
     desc_Platform := None; Annotations := ∅ |}.

Definition demo_record : ManifestRecord :=
  {| rec_Descriptor := demo_descriptor "sha256:abcd"; rec_Tags := ["1.0"; "latest"]; rec_Manifests := [];
     rec_Layers := [demo_descriptor "sha256:1a1a"]; rec_Config := Some (demo_descriptor "sha256:c0c0") |}.

(** The image [app] of the namespace [acme], under two tags, among other namespaces. *)
Definition demo_index : index_state := {|
  st_names := ["acme-b/x"; "acme/app"; "beta/x"];
  st_tags repo := if bool_decide (repo = "acme/app")
                  then [{| tag_Tag := "1.0"; tag_Digest := "sha256:abcd" |};
                        {| tag_Tag := "latest"; tag_Digest := "sha256:abcd" |}] else [];
  st_resolve repo tag := if bool_decide (repo = "acme/app") then Ok (demo_descriptor "sha256:abcd")
                         else Err (OciError ErrNameUnknown);
  st_manifest repo d := if bool_decide (repo = "acme/app") && bool_decide (d = "sha256:abcd")
                        then Some demo_record else None;
  st_config _ := Ok (Some "{}");
  st_blob repo d := if bool_decide (d = "sha256:c0c0")
                    then Ok {| MediaType := ""; Digest := d; Size := 15; Data := ""; desc_Platform := None;
                               Annotations := ∅ |}
                    else Err (OciError ErrBlobUnknown)
|}.

Definition demo_closure : list ClosureEntry :=
  [{| ce_Descriptor := demo_descriptor "sha256:abcd"; RoleManifest := true;
      RetainedInRepository := false; Shared := false |};
   {| ce_Descriptor := demo_descriptor "sha256:1a1a"; RoleManifest := false;
      RetainedInRepository := true; Shared := true |};
   {| ce_Descriptor := demo_descriptor "sha256:c0c0"; RoleManifest := false;
      RetainedInRepository := false; Shared := true |}].

(** A registry with that index; what is pulled or pushed is refused. *)
Definition serve_images {X} (c : icmd X) (s : unit) : X * unit :=
  (match c in icmd X return option X → X with
   | Repositories _ | TagRecords _ _ | IndexResolveTag _ _ | IndexManifest _ _ | ImageConfig _ =>
       default (Err Cancelled)
   | Closure _ _ => λ _, Ok demo_closure
   | DeleteTag _ _ | DeleteManifest _ _ | DeleteBlob _ _ => λ _, Ok tt
   | ResolveBlob _ _ _ => default (Err Cancelled)
   | GetManifest _ _ _ | ResolveManifest _ _ _ | ResolveTag _ _ _
   | GetBlob _ _ _ | PushBlob _ _ _ _ | PushManifest _ _ _ _ _ _ | Referrers _ _ _ | Tags _ _
   | CopyBlobs _ _ _ _ _ => λ _, Err Cancelled
   | CtxErr => λ _, false
   | Message _ _ => λ _, tt
   end (index_answer demo_index c), s).

Lemma serve_images_is h X (c : icmd X) s : index_is demo_index h X c (serve_images c s).1.
Proof. unfold index_is. destruct c; try done. by destruct s0. Qed.

Lemma demo_index_ordered : index_ordered demo_index.
Proof.
  split_and!.
  - repeat constructor.
  - intros n Hn. repeat (apply elem_of_cons in Hn as [->|Hn]; [done|]). by apply not_elem_of_nil in Hn.
  - intros repo. simpl. destruct (bool_decide _); split; try by repeat constructor.
    + intros t Ht. repeat (apply elem_of_cons in Ht as [->|Ht]; [done|]). by apply not_elem_of_nil in Ht.
    + intros t Ht. by apply not_elem_of_nil in Ht.
Qed.

Lemma demo_pages_suffice : pages_suffice 2 demo_index.
Proof.
  pose proof page_size_pos. split; [simpl|intros repo; simpl; destruct (bool_decide _); simpl].
  all: with_strategy transparent [page_size] (unfold page_size, indexPage); lia.
Qed.

Definition demo_identity : Identity :=
  {| Namespace := "acme"; Organization := "Acme"; CommonName := "alice"; Anonymous := false |}.

Lemma Images_exact_witness :
  let o := run (@serve_images) (Images 2 true (Ok tt) (Some demo_identity)) [] tt in
  o.1.1 = listed_images demo_index true (Ok tt) "acme" ∧
  match o.1.1 with
  | Ok l => sum_RepoTags <$> l = [["app:1.0"]; ["app:latest"]] ∧ sum_Size <$> l = [25%Z; 25%Z] ∧
            (λ s, ms_Available <$> sum_Manifests s) <$> l = [[false]; [false]]
  | Err _ => False
  end.
Proof.
  intros o. split; [|vm_compute; by split_and!].
  refine (proj1 (Images_exact 2 demo_index true (Ok tt) demo_identity [] o.1.2 o.1.1 _ demo_index_ordered
                   demo_pages_suffice _ _)).
  - discriminate.
  - apply run_exec.
  - apply run_answered. intros. apply serve_images_is.
Defined.

Lemma resolveImage_isolated_witness :
  let o := run (@serve_images) (resolveImage 2 (Some demo_identity) "abcd") [] tt in
  match o.1.1 with
  | Ok image => ri_digest image = "sha256:abcd" ∧ image_named demo_identity "abcd" o.1.2 image
  | Err _ => False
  end.
Proof.
  intros o. assert (match o.1.1 with Ok image => ri_digest image | Err _ => "" end = "sha256:abcd") as Hd
    by (vm_compute; reflexivity).
  destruct (resolveImage_isolated 2 demo_identity "abcd" [] o.1.2 o.1.1) as [_ Hnamed];
    [discriminate|apply run_exec|].
  destruct o.1.1 as [image|]; [|discriminate Hd]. split; [exact Hd|by apply Hnamed].
Defined.


(** The default registry is not part of a repository, and a port's colon is replaced, so
    that different references share one repository. *)
Example repositories_collide :
  let reference host repo := {| Host := host; Repository := repo; Tag := "latest"; ref_Digest := "" |} in
  repositoryFor demo_identity (reference "docker.io" "ghcr.io/app") =
    repositoryFor demo_identity (reference "ghcr.io" "app") ∧
  repositoryFor demo_identity (reference "localhost:5000" "app") =
    repositoryFor demo_identity (reference "localhost-5000" "app") ∧
  Repository (repositoryFor demo_identity (reference "docker.io" "library/nginx")) = "acme/nginx".
Proof. split_and!; reflexivity. Qed.
