(* ===== verification/ImageInspectProps.v ===== *)
(** * ImageInspectProps: what the inspection of images shows

    Inspection reads only the caller's namespace and describes the image that was named,
    as the index holds it: the history accounts for every layer, the descriptions are
    those of the manifest chosen, and the statements are those attached to it. *)

From S2P Require Import Prelude GoStrings Errors Docker Prog Identity Oci Images Transfer ImageInspect ImageProps.

Section inspect.
Context `{Unicode} `{Digests} `{References} `{ConfigJSON} `{Platforms} `{ImageJSON} (page_fuel : nat).

(** ** What was read *)

(** A manifest, as the index answered it; and its configuration, if it is stored. *)
Definition image_read (h' : history icmd) (record : ManifestRecord) (image : storedImage) : Prop :=
  si_Digest image = Digest (rec_Descriptor record) ∧ si_MediaType image = MediaType (rec_Descriptor record) ∧
  si_Size image = Size (rec_Descriptor record) ∧
  sd_Digest <$> si_Layers image = Digest <$> rec_Layers record ∧
  sd_Size <$> si_Layers image = Size <$> rec_Layers record ∧
  ∀ c, si_ImageConfig image = Some c →
    ∃ config, rec_Config record = Some config ∧ Event _ (ImageConfig config) (Ok (Some (sc_Raw c))) ∈ h'.

Definition child_read (repo : string) (h' : history icmd) (desc : Descriptor) (child : storedIndexChild) : Prop :=
  child_Digest child = Digest desc ∧ child_Platform child = platformOf (desc_Platform desc) ∧
  child_Annotations child = annotationList (Annotations desc) ∧
  ∀ m, child_Manifest child = Some m →
    ∃ record, Event _ (IndexManifest repo (Digest desc)) (Ok record) ∈ h' ∧ image_read h' record m.

Definition tree_read (repo digest : string) (h' : history icmd) (tree : storedImageTree) : Prop :=
  ∃ record, Event _ (IndexManifest repo digest) (Ok record) ∈ h' ∧
    image_read h' record (tree_image tree) ∧ tree_Tags tree = rec_Tags record ∧
    Forall2 (child_read repo h') (rec_Manifests record) (tree_Manifests tree).

Lemma image_read_later h h' record image : h `suffix_of` h' → image_read h record image → image_read h' record image.
Proof.
  intros Hs (? & ? & ? & ? & ? & Hc). do 5 (split; [done|]). intros c Hsome.
  destruct (Hc c Hsome) as (config & ? & ?). exists config. split; [done|by eapply event_later].
Qed.

Lemma child_read_later repo h h' desc child :
  h `suffix_of` h' → child_read repo h desc child → child_read repo h' desc child.
Proof.
  intros Hs (? & ? & ? & Hm). do 3 (split; [done|]). intros m Hsome.
  destruct (Hm m Hsome) as (record & ? & ?). exists record.
  split; [by eapply event_later|by eapply image_read_later].
Qed.

Lemma tree_read_later repo digest h h' tree :
  h `suffix_of` h' → tree_read repo digest h tree → tree_read repo digest h' tree.
Proof.
  intros Hs (record & ? & ? & ? & Hc). exists record. split; [by eapply event_later|].
  split; [by eapply image_read_later|]. split; [done|].
  eapply Forall2_impl; [exact Hc|]. intros. by eapply child_read_later.
Qed.

Section reads.
Context (R : rely (cmd:=icmd)) (namespace : string).

Abbreviation reads := (wp R (reads_namespace namespace)).

Lemma manifest_wp repo d h :
  in_namespace namespace repo →
  reads (manifest repo d) h (λ h' r, h `suffix_of` h' ∧
    ∀ record, r = Ok (Some record) → Event _ (IndexManifest repo d) (Ok record) ∈ h').
Proof.
  intros Hr. unfold manifest. rewrite wp_bind, wp_call. split; [done|]. intros r _. rewrite wp_ret.
  split; [by apply suffix_cons_r|]. intros record.
  destruct r as [a|e]; [|by case_match]. intros [= <-]. by left.
Qed.

Lemma storedImage_of_wp record h :
  reads (storedImage_of record) h (λ h' r, h `suffix_of` h' ∧ ∀ image, r = Ok image → image_read h' record image).
Proof.
  assert (∀ X (l : list Descriptor) (f : Descriptor → X) (g : storedDescriptor → X),
            (∀ d, g {| sd_Digest := Digest d; sd_Size := Size d; sd_MediaType := MediaType d;
                       sd_Annotations := annotationList (Annotations d) |} = f d) →
            g <$> ((λ d, {| sd_Digest := Digest d; sd_Size := Size d; sd_MediaType := MediaType d;
                            sd_Annotations := annotationList (Annotations d) |}) <$> l) = f <$> l) as Hmap.
  { intros X l f g Hfg. rewrite <- list_fmap_compose. apply list_fmap_ext. intros i d _. apply Hfg. }
  unfold storedImage_of. destruct (rec_Config record) as [config|] eqn:Econfig.
  2: { rewrite wp_ret. split; [done|]. intros image [= <-]. repeat split; try by apply Hmap. done. }
  rewrite wp_bind_res, wp_call. split; [done|]. intros [[raw|]|e] _; [| |split; [by apply suffix_cons_r|done]].
  - rewrite wp_ret. split; [by apply suffix_cons_r|]. intros image.
    destruct (decodeConfig raw) as [[[[created os] arch] variant]|e]; [|done]. intros [= <-].
    repeat split; try by apply Hmap. intros c [= <-]. exists config. split; [done|by left].
  - rewrite wp_ret. split; [by apply suffix_cons_r|]. intros image [= <-].
    repeat split; try by apply Hmap. done.
Qed.

Lemma load_child_wp repo desc h :
  in_namespace namespace repo →
  reads (load_child repo desc) h (λ h' r, h `suffix_of` h' ∧ ∀ child, r = Ok child → child_read repo h' desc child).
Proof.
  intros Hr. unfold load_child. rewrite wp_bind_res. eapply wp_post; [|by apply manifest_wp].
  intros h1 [[record|]|e] [Hs1 Hrecord]; [| |by split].
  - rewrite wp_bind_res. eapply wp_post; [|apply storedImage_of_wp].
    intros h2 [image|e] [Hs2 Himage]; [|split; [by etrans|done]]. rewrite wp_ret.
    split; [by etrans|]. intros child [= <-]. do 3 (split; [done|]). intros m [= <-].
    exists record. split; [|by apply Himage]. eapply event_later; [exact Hs2|by apply Hrecord].
  - rewrite wp_ret. split; [done|]. intros child [= <-]. by do 3 (split; [done|]).
Qed.

Lemma load_children_wp repo l : in_namespace namespace repo → ∀ h,
  reads (load_children repo l) h (λ h' r, h `suffix_of` h' ∧
    ∀ children, r = Ok children → Forall2 (child_read repo h') l children).
Proof.
  intros Hr. induction l as [|desc l IH]; intros h; cbn [load_children].
  { rewrite wp_ret. split; [done|]. intros children [= <-]. constructor. }
  rewrite wp_bind_res. eapply wp_post; [|by apply load_child_wp].
  intros h1 [child|e] [Hs1 Hchild]; [|by split]. rewrite wp_bind_res. eapply wp_post; [|apply IH].
  intros h2 [children|e] [Hs2 Hall]; [|split; [by etrans|done]]. rewrite wp_ret.
  split; [by etrans|]. intros ? [= <-]. constructor; [|by apply Hall].
  eapply child_read_later; [exact Hs2|by apply Hchild].
Qed.

Lemma imageTree_wp repo digest h :
  in_namespace namespace repo →
  reads (imageTree repo digest) h (λ h' r, h `suffix_of` h' ∧
    ∀ tree, r = Ok (Some tree) → tree_read repo digest h' tree).
Proof.
  intros Hr. unfold imageTree. rewrite wp_bind_res. eapply wp_post; [|by apply manifest_wp].
  intros h1 [[record|]|e] [Hs1 Hrecord]; [|by split|by split].
  rewrite wp_bind_res. eapply wp_post; [|apply storedImage_of_wp].
  intros h2 [image|e] [Hs2 Himage]; [|split; [by etrans|done]].
  rewrite wp_bind_res. eapply wp_post; [|by apply load_children_wp].
  intros h3 [children|e] [Hs3 Hchildren]; [|split; [by do 2 etrans|done]]. rewrite wp_ret.
  split; [by do 2 (etrans; [done|])|]. intros tree [= <-]. exists record.
  split; [eapply event_later; [|by apply Hrecord]; by etrans|].
  split; [by eapply image_read_later, Himage|]. split; [done|by apply Hchildren].
Qed.
End reads.

(** An image of the caller's namespace that the name names, as it was read. *)
Definition inspected (id : Identity) (name : string) (h' : history icmd)
    (resolved : resolvedImage) (tree : storedImageTree) : Prop :=
  (∃ h1, h1 `suffix_of` h' ∧ image_named id name h1 resolved) ∧
  tree_read (ri_repository resolved) (ri_digest resolved) h' tree.

Lemma inspected_later id name h h' resolved tree :
  h `suffix_of` h' → inspected id name h resolved tree → inspected id name h' resolved tree.
Proof.
  intros Hs [(h1 & ? & ?) ?]. split; [exists h1; split; [by etrans|done]|by eapply tree_read_later].
Qed.

Lemma inspectTree_wp R id name h :
  Namespace id ≠ ""%string →
  wp R (reads_namespace (Namespace id)) (inspectTree page_fuel (Some id) name) h
    (λ h' r, h `suffix_of` h' ∧ ∀ resolved tree, r = Ok (resolved, tree) → inspected id name h' resolved tree).
Proof.
  intros Hne. unfold inspectTree. rewrite wp_bind_res. eapply wp_post; [|by apply wp_suffix, resolveImage_wp].
  intros h1 [image|e] [Himage Hs1]; [|by split]. specialize (Himage image eq_refl).
  rewrite wp_bind_res. eapply wp_post; [|apply imageTree_wp; by apply Himage].
  intros h2 [[tree|]|e] [Hs2 Htree]; rewrite ?wp_ret; (split; [by etrans|]); [|done|done].
  intros ? ? [= <- <-]. split; [by exists h1|by apply Htree].
Qed.

(** ** The manifest that describes an image *)

(** The image itself; or of an index a stored child, of the platform that was asked for. *)
Definition describes (tree : storedImageTree) (platform : option Platform) (image : storedImage)
    (child : option storedIndexChild) : Prop :=
  match child with
  | None => isIndex (si_MediaType (tree_image tree)) = false ∧ image = tree_image tree
  | Some c =>
      isIndex (si_MediaType (tree_image tree)) = true ∧ c ∈ tree_Manifests tree ∧
      child_Manifest c = Some image ∧
      match platform with
      | Some p => ∃ stored, child_Platform c = Some stored ∧ Only p (ociPlatform stored) = true
      | None => is_present c = true
      end
  end.

Lemma find_elem {A} (f : A → bool) l x : List.find f l = Some x → x ∈ l ∧ f x = true.
Proof. intros [Hin Hf]%find_some. split; [by apply list_elem_of_In|done]. Qed.

Lemma presentPlatformChild_present mediaType children child :
  presentPlatformChild mediaType children = Some child → child ∈ children ∧ is_present child = true.
Proof.
  unfold presentPlatformChild.
  assert (∀ c, c ∈ List.filter is_present children → c ∈ children ∧ is_present c = true) as Hin.
  { intros c [? ?]%list_elem_of_In%filter_In. split; [by apply list_elem_of_In|done]. }
  destruct (defaultPlatformChild mediaType _) as [c|] eqn:Edefault.
  - intros [= <-]. apply Hin. unfold defaultPlatformChild in Edefault.
    destruct (parseIndexManifest _ _); [|done]. by apply find_elem in Edefault as [? _].
  - intros Hhead. apply Hin. destruct (List.filter _ _); [done|]. injection Hhead as ->. by left.
Qed.

Lemma platformManifest_describes tree platform image child :
  platformManifest tree platform = Ok (Some image, child) → describes tree platform image child.
Proof.
  unfold platformManifest. destruct (isIndex _) eqn:Eindex; simpl; [|by intros [= <- <-]].
  destruct platform as [p|].
  - destruct (List.find _ _) as [c|] eqn:Efind; [|done]. apply find_elem in Efind as [Hin Hmatch].
    intros [= Himage <-]. split_and!; [done..|]. unfold child_matches in Hmatch. rewrite Himage in Hmatch.
    destruct (child_Platform c) as [stored|]; [|done]. by exists stored.
  - destruct (presentPlatformChild _ _) as [c|] eqn:Epresent; [|done].
    apply presentPlatformChild_present in Epresent as [Hin Hpresent]. intros [= Himage <-]. by split_and!.
Qed.

(** The configuration is the one stored with the manifest. *)
Definition configured (image : storedImage) (config : DockerOCIImage) : Prop :=
  ∃ stored, si_ImageConfig image = Some stored ∧ Unmarshal_image (sc_Raw stored) = Ok config.

Lemma decodeImageConfig_configured image config :
  decodeImageConfig image = Ok config → ∃ i, image = Some i ∧ configured i config.
Proof.
  unfold decodeImageConfig. destruct image as [i|]; [|done]. simpl.
  destruct (si_ImageConfig i) as [stored|] eqn:Estored; [|done]. case_decide; [done|].
  destruct (Unmarshal_image _) as [c|] eqn:Ec; [|done]. intros [= <-]. exists i. split; [done|by exists stored].
Qed.

Definition found_image (id : Identity) (name : string) (platform : option Platform) (h' : history icmd)
    (resolved : resolvedImage) (tree : storedImageTree) (image : storedImage)
    (child : option storedIndexChild) (config : DockerOCIImage) : Prop :=
  inspected id name h' resolved tree ∧ describes tree platform image child ∧ configured image config.

Lemma inspected_image_wp R id name platform h :
  Namespace id ≠ ""%string →
  wp R (reads_namespace (Namespace id)) (inspected_image page_fuel (Some id) name platform) h
    (λ h' r, ∀ resolved tree image child config, r = Ok (resolved, tree, image, child, config) →
       found_image id name platform h' resolved tree image child config).
Proof.
  intros Hne. unfold inspected_image. rewrite wp_bind_res. eapply wp_post; [|by apply inspectTree_wp].
  intros h1 [[resolved tree]|e] [_ Hread]; [|done]. rewrite wp_ret. intros ? ? ? ? ? Hr.
  apply result_bind_ok in Hr as ([found c] & Hfound & (decoded & Hconfig & Hr)%result_bind_ok). simpl in *.
  apply decodeImageConfig_configured in Hconfig as (i & -> & Hconfig). injection Hr as <- <- <- <- <-.
  split; [by apply Hread|]. split; [by apply platformManifest_describes|done].
Qed.

(** ** The history *)

(** The size of an entry: that of the layer it made, if it made one. *)
Definition entry_size (layers : list storedDescriptor) (l : list History) (i : nat) (entry : History) : Z :=
  if hist_EmptyLayer entry then 0%Z
  else match layers !! length (List.filter (λ e, negb (hist_EmptyLayer e)) (take i l)) with
       | Some d => sd_Size d
       | None => 0%Z
       end.

(** What an item shows of an entry, and how it is named. *)
Definition item_shows (size : Z) (entry : History) (item : HistoryResponseItem) : Prop :=
  item_Created item = from_option Unix 0%Z (hist_Created entry) ∧
  item_CreatedBy item = hist_CreatedBy entry ∧ item_Comment item = hist_Comment entry ∧ item_Size item = size.

Definition item_named (digest : string) (tags : list string) (item : HistoryResponseItem) : Prop :=
  item_ID item = digest ∧ item_Tags item = tags.

Lemma history_items_spec layers l : ∀ layer i entry, l !! i = Some entry →
  ∃ item, history_items layers layer l !! i = Some item ∧ item_named "<missing>" [] item ∧
    item_shows (if hist_EmptyLayer entry then 0%Z
                else match layers !! (layer + length (List.filter (λ e, negb (hist_EmptyLayer e)) (take i l)))%nat with
                     | Some d => sd_Size d
                     | None => 0%Z
                     end) entry item.
Proof.
  induction l as [|e l IH]; intros layer [|i] entry; cbn [history_items lookup list_lookup]; [done..| |].
  - intros [= ->]. eexists. split; [done|]. split; [done|]. split_and!; try done.
    simpl. rewrite Nat.add_0_r. destruct (hist_EmptyLayer entry); [done|].
    destruct (layer <? length layers)%nat eqn:Hlt; [done|].
    apply Nat.ltb_ge in Hlt. by rewrite lookup_ge_None_2.
  - intros Hentry. destruct (IH (if hist_EmptyLayer e then layer else S layer) i entry Hentry)
      as (item & Hitem & Hnamed & Hshows). exists item. split; [done|]. split; [done|].
    revert Hshows. simpl. destruct (hist_EmptyLayer e); simpl; [done|]. by rewrite Nat.add_succ_r.
Qed.

Lemma history_items_length layers l : ∀ layer, length (history_items layers layer l) = length l.
Proof. induction l as [|e l IH]; intros layer; simpl; [done|]. by rewrite IH. Qed.

Lemma name_newest_length digest tags items : length (name_newest digest tags items) = length items.
Proof. by destruct items. Qed.

(** Newest first: the entry before the last is the second item. *)
Lemma named_history_spec digest tags layers l i entry :
  l !! i = Some entry →
  ∃ item, name_newest digest tags (reverse (history_items layers 0 l)) !! (length l - 1 - i)%nat = Some item ∧
    item_shows (entry_size layers l i entry) entry item ∧
    if decide (S i = length l) then item_named digest tags item else item_named "<missing>" [] item.
Proof.
  intros Hentry. pose proof (lookup_lt_Some _ _ _ Hentry) as Hlt.
  destruct (history_items_spec layers l 0 i entry Hentry) as (item & Hitem & Hnamed & Hshows).
  assert (reverse (history_items layers 0 l) !! (length l - 1 - i)%nat = Some item) as Hrev.
  { rewrite reverse_lookup; rewrite history_items_length; [|lia].
    by replace (length l - S (length l - 1 - i))%nat with i by lia. }
  destruct (reverse _) as [|first items]; [done|]. case_decide as Hlast.
  - replace (length l - 1 - i)%nat with 0%nat in * by lia. injection Hrev as ->.
    eexists. split; [done|]. by split.
  - destruct (length l - 1 - i)%nat as [|j] eqn:Ej; [lia|]. exists item. by split_and!.
Qed.

(** The history of an image is that of the image named, layer by layer.  For an identity
    with a namespace, [ImageHistory] only reads, in the caller's namespace; and its items
    are the entries of the configuration of the image that describes the named one for
    the platform, newest first: each shows the entry's time, command and comment, and
    the size of the layer that the entry made, the next of the manifest's layers for
    every entry that made one; the newest carries the digest of the image and its tags. *)
Theorem ImageHistory_exact id name platform h h' r :
  Namespace id ≠ ""%string → exec (ImageHistory page_fuel (Some id) name platform) h h' r →
  guarded (reads_namespace (Namespace id)) h h' ∧
  ∀ items, r = Ok items → ∃ resolved tree image child config,
    found_image id name platform h' resolved tree image child config ∧
    length items = length (doi_History config) ∧
    ∀ i entry, doi_History config !! i = Some entry →
      ∃ item, items !! (length (doi_History config) - 1 - i)%nat = Some item ∧
        item_shows (entry_size (si_Layers image) (doi_History config) i entry) entry item ∧
        if decide (S i = length (doi_History config))
        then item_named (si_Digest (tree_image tree)) (repoTags resolved tree) item
        else item_named "<missing>" [] item.
Proof.
  intros Hne Hexec. apply_wp Hexec.
  unfold ImageHistory. rewrite wp_bind_res. eapply wp_post; [|by apply inspected_image_wp].
  intros h1 [[[[[resolved tree] image] child] config]|e] Hfound; [|done].
  rewrite wp_ret. intros items [= <-]. exists resolved, tree, image, child, config.
  split; [by apply Hfound|]. split.
  - by rewrite name_newest_length, length_reverse, history_items_length.
  - intros i entry Hentry. by apply named_history_spec.
Qed.

(** ** Descriptions *)

(** The description of an image is of the image named: [ImageInspect] reads only the
    caller's namespace, and what it shows is the digest, media type and size of the named
    manifest, the tags under which it is stored, none of them the tag form of a digest,
    the platform of the child chosen for the platform asked for, and the configuration
    stored with that child. *)
Theorem ImageInspect_exact id name options h h' r :
  Namespace id ≠ ""%string → exec (ImageInspect page_fuel (Some id) name options) h h' r →
  guarded (reads_namespace (Namespace id)) h h' ∧
  ∀ shown, r = Ok shown → ∃ resolved tree image child config,
    found_image id name (inspect_Platform options) h' resolved tree image child config ∧
    ins_ID shown = si_Digest (tree_image tree) ∧
    Digest (ins_Descriptor shown) = ins_ID shown ∧
    MediaType (ins_Descriptor shown) = si_MediaType (tree_image tree) ∧
    Size (ins_Descriptor shown) = si_Size (tree_image tree) ∧
    (∀ tag, tag ∈ tree_Tags tree ∧ byDigest tag = false →
       (display resolved +:+ ":" +:+ tag)%string ∈ ins_RepoTags shown) ∧
    (∀ t, t ∈ ins_RepoTags shown →
       ∃ tag, t = (display resolved +:+ ":" +:+ tag)%string ∧ tag ∈ tree_Tags tree ∧ byDigest tag = false) ∧
    ins_Config shown = doi_Config config ∧ ins_Layers shown = doi_DiffIDs config ∧
    (∀ c stored, child = Some c → child_Platform c = Some stored →
       desc_Platform (ins_Descriptor shown) = Some (ociPlatform stored)) ∧
    (inspect_Manifests options = true →
       ms_ID <$> ins_Manifests shown = child_Digest <$> tree_Manifests tree).
Proof.
  intros Hne Hexec. apply_wp Hexec.
  unfold ImageInspect. rewrite wp_bind_res. eapply wp_post; [|by apply inspected_image_wp].
  intros h1 [[[[[resolved tree] image] child] config]|e] Hfound; [|done].
  rewrite wp_ret. intros shown [= <-]. exists resolved, tree, image, child, config.
  split; [by apply Hfound|]. do 4 (split; [done|]). unfold ins_RepoTags, repoTags.
  split; [|split; [|split; [done|split; [done|split]]]].
  - intros tag [Hin Htag]. apply list_elem_of_fmap. exists tag. split; [done|].
    apply list_elem_of_In, filter_In. split; [by apply list_elem_of_In|by rewrite Htag].
  - intros t (tag & -> & [Hin Htag]%list_elem_of_In%filter_In)%list_elem_of_fmap.
    exists tag. apply negb_true_iff in Htag. split_and!; [done|by apply list_elem_of_In|done].
  - intros c stored -> Hstored. simpl. by rewrite Hstored.
  - intros Hmanifests. simpl. rewrite Hmanifests. unfold manifestSummaries.
    rewrite <- list_fmap_compose. done.
Qed.

(** ** Attestations *)

(** Reading the index, or a blob, in the repositories of a namespace. *)
Definition reads_content (namespace : string) : guard (cmd:=icmd) := λ h _ c,
  match c with
  | GetBlob Internal repo _ => in_namespace namespace repo
  | c => reads_namespace namespace h _ c
  end.

Lemma reads_reads_content namespace h X (c : icmd X) : reads_namespace namespace h X c → reads_content namespace h X c.
Proof. by destruct c. Qed.

Definition attested_layers (tree : storedImageTree) (digest : string) : list storedDescriptor :=
  match attestationManifest tree digest with Some attestation => si_Layers attestation | None => [] end.

(** A layer's statement; its content, if it was asked for, is what the registry holds of the
    layer in the repository, and fits the limit. *)
Definition statement_of (options : AttestationOpts) (repo : string) (h' : history icmd)
    (layer : storedDescriptor) (statement : AttestationStatement) : Prop :=
  Digest (att_Descriptor statement) = sd_Digest layer ∧ Size (att_Descriptor statement) = sd_Size layer ∧
  MediaType (att_Descriptor statement) = sd_MediaType layer ∧
  att_PredicateType statement = annotationValue (sd_Annotations layer) inTotoPredicateTypeAnnotation ∧
  if IncludeStatement options
  then (sd_Size layer ≤ maxStatementSize)%Z ∧
       ∃ content, Event _ (GetBlob Internal repo (sd_Digest layer)) (Ok (Ok content)) ∈ h' ∧
         att_Statement statement = Some (limited content)
  else att_Statement statement = None.

Lemma statement_of_later options repo h h' layer statement :
  h `suffix_of` h' → statement_of options repo h layer statement → statement_of options repo h' layer statement.
Proof.
  intros Hs (? & ? & ? & ? & Hcontent). do 4 (split; [done|]). destruct (IncludeStatement options); [|done].
  destruct Hcontent as (? & content & ? & ?). split; [done|]. exists content. split; [by eapply event_later|done].
Qed.

Lemma readStatement_wp namespace repo digest size h :
  in_namespace namespace repo →
  wp any_answer (reads_content namespace) (readStatement repo digest size) h
    (λ h' r, h `suffix_of` h' ∧ ∀ data, r = Ok data → (size ≤ maxStatementSize)%Z ∧
       ∃ content, Event _ (GetBlob Internal repo digest) (Ok (Ok content)) ∈ h' ∧
         data = limited content).
Proof.
  intros Hrepo. unfold readStatement. destruct (maxStatementSize <? size)%Z eqn:Hsize; [by rewrite wp_ret|].
  rewrite wp_bind, wp_call. split; [done|]. intros r _. rewrite wp_ret. split; [by apply suffix_cons_r|].
  intros data. destruct r as [[content|e]|e]; [|done|by case_match]. intros [= <-].
  split; [by apply Z.ltb_ge|]. exists content. split; [by left|done].
Qed.

Lemma statements_wp namespace options repo layers : in_namespace namespace repo → ∀ h,
  wp any_answer (reads_content namespace) (statements options repo layers) h
    (λ h' r, h `suffix_of` h' ∧ ∀ l, r = Ok l →
       Forall2 (statement_of options repo h') (List.filter (wanted options) layers) l).
Proof.
  intros Hrepo. induction layers as [|layer layers IH]; intros h; cbn [statements List.filter].
  { rewrite wp_ret. split; [done|]. intros l [= <-]. constructor. }
  destruct (wanted options layer) eqn:Hwanted; [|apply IH]. cbn [negb]. rewrite wp_bind.
  eapply (wp_post _ _ _ _ (λ h1 content, h `suffix_of` h1 ∧ ∀ c, content = Ok c →
            statement_of options repo h1 layer (layer_statement layer c))).
  - intros h1 [content|e] [Hs1 Hcontent]; [|by split]. rewrite wp_bind_res. eapply wp_post; [|apply IH].
    intros h2 [rest|e] [Hs2 Hrest]; [|split; [by etrans|done]]. rewrite wp_ret.
    split; [by etrans|]. intros l [= <-]. constructor; [|by apply Hrest].
    eapply statement_of_later; [exact Hs2|by apply Hcontent].
  - unfold statement_of. destruct (IncludeStatement options) eqn:Einclude.
    + rewrite wp_bind. eapply wp_post; [|by apply (readStatement_wp namespace)].
      intros h1 [data|e] [Hs1 Hdata]; rewrite wp_ret; (split; [done|]); [|done]. intros c [= <-].
      do 4 (split; [done|]). destruct (Hdata data eq_refl) as (Hsize & content & Hin & ->).
      split; [done|by exists content].
    + rewrite wp_ret. split; [done|]. intros c [= <-]. by do 4 (split; [done|]).
Qed.

Lemma platformManifest_child tree platform image child :
  platformManifest tree platform = Ok (image, Some child) →
  ∃ i, image = Some i ∧ describes tree platform i (Some child).
Proof.
  intros Hfound. destruct image as [i|]; [exists i; split; [done|by apply platformManifest_describes]|].
  revert Hfound. unfold platformManifest. destruct (isIndex _); simpl; [|done]. destruct platform as [p|].
  - destruct (List.find _ _) as [c|] eqn:Efind; [|done]. apply find_elem in Efind as [_ Hmatch].
    intros [= Hnone <-]. unfold child_matches in Hmatch. by rewrite Hnone in Hmatch.
  - destruct (presentPlatformChild _ _) as [c|] eqn:Epresent; [|done].
    apply presentPlatformChild_present in Epresent as [_ Hpresent]. intros [= Hnone <-].
    unfold is_present in Hpresent. by rewrite Hnone in Hpresent.
Qed.

Lemma platformManifest_no_child tree platform image :
  platformManifest tree platform = Ok (image, None) → isIndex (si_MediaType (tree_image tree)) = false.
Proof.
  unfold platformManifest. destruct (isIndex _); simpl; [|done].
  destruct platform; [by destruct (List.find _ _)|by destruct (presentPlatformChild _ _)].
Qed.

Lemma attestationManifest_attests tree digest attestation :
  attestationManifest tree digest = Some attestation →
  ∃ holder, holder ∈ tree_Manifests tree ∧ attests digest holder = true ∧ child_Manifest holder = Some attestation.
Proof.
  unfold attestationManifest. destruct (List.find _ _) as [holder|] eqn:Efind; [|done].
  apply find_elem in Efind as [? ?]. intros ?. by exists holder.
Qed.

(** The attestations of an image are those attached to it.  For an identity with a
    namespace, [ImageAttestations] reads the index and blobs of the caller's namespace
    alone; of an image that is not an index there are none, and otherwise they are, in
    order, the layers with a predicate that was asked for, of the first child of the
    index that declares itself the attestation of the manifest chosen for the platform;
    the contents are read, when asked for, from the image's own repository and are
    never larger than the limit. *)
Theorem ImageAttestations_exact client id name options h h' r :
  Namespace id ≠ ""%string → exec (ImageAttestations page_fuel client (Some id) name options) h h' r →
  guarded (reads_content (Namespace id)) h h' ∧
  ∀ l, r = Ok l → ∃ resolved tree, inspected id name h' resolved tree ∧
    if isIndex (si_MediaType (tree_image tree)) then
      ∃ image child, describes tree (att_Platform options) image (Some child) ∧
        (∀ attestation, attestationManifest tree (child_Digest child) = Some attestation →
           ∃ holder, holder ∈ tree_Manifests tree ∧ attests (child_Digest child) holder = true ∧
             child_Manifest holder = Some attestation) ∧
        Forall2 (statement_of options (ri_repository resolved) h')
          (List.filter (wanted options) (attested_layers tree (child_Digest child))) l
    else l = [].
Proof.
  intros Hne Hexec. apply_wp Hexec. unfold ImageAttestations. destruct client as [[]|e]; [|done].
  rewrite wp_bind_res. eapply wp_mono; [apply reads_reads_content| |by apply inspectTree_wp].
  intros h1 [[resolved tree]|e] [_ Hread]; [|done]. specialize (Hread resolved tree eq_refl).
  destruct (isIndex _) eqn:Eindex; cbn [negb].
  2: { rewrite wp_ret. intros l [= <-]. exists resolved, tree. by rewrite Eindex. }
  destruct (platformManifest tree _) as [[image [child|]]|e] eqn:Efound; rewrite ?wp_ret; [| |done].
  2: { apply platformManifest_no_child in Efound. by rewrite Efound in Eindex. }
  apply platformManifest_child in Efound as (i & -> & Hdescribes).
  destruct Hread as [Hnamed Htree].
  destruct Hnamed as (h0 & Hs0 & Hnamed). assert (in_namespace (Namespace id) (ri_repository resolved)) as Hown
    by by apply Hnamed.
  eapply (wp_post _ _ _ _ (λ h2 r, h1 `suffix_of` h2 ∧ ∀ l, r = Ok l →
    Forall2 (statement_of options (ri_repository resolved) h2)
      (List.filter (wanted options) (attested_layers tree (child_Digest child))) l)).
  - intros h2 r2 [Hs2 Hall] l Hl. exists resolved, tree. split.
    { eapply inspected_later; [exact Hs2|]. split; [by exists h0|done]. }
    rewrite Eindex. exists i, child. split; [done|]. split; [apply attestationManifest_attests|by apply Hall].
  - unfold attested_layers. destruct (attestationManifest _ _); [by apply (statements_wp (Namespace id))|].
    rewrite wp_ret. split; [done|]. intros l [= <-]. constructor.
Qed.
End inspect.

(** ** Witnesses *)

Local Open Scope string_scope.

(** An index of an image for amd64 and of its attestation. *)
Definition inspect_descriptor (d mediaType : string) (p : option Platform) (a : gmap string string) : Descriptor :=
  {| MediaType := mediaType; Digest := d; Size := 10; Data := ""; desc_Platform := p; Annotations := a |}.

Definition index_type : string := "application/vnd.oci.image.index.v1+json".
Definition manifest_type : string := "application/vnd.oci.image.manifest.v1+json".

Definition inspect_index : ManifestRecord :=
  {| rec_Descriptor := inspect_descriptor "sha256:abcd" index_type None ∅;
     rec_Tags := ["1.0"; "sha256-abcd"];
     rec_Manifests :=
       [inspect_descriptor "sha256:a1" manifest_type
          (Some {| OS := "linux"; Architecture := "amd64"; Variant := ""; OSVersion := ""; OSFeatures := [] |}) ∅;
        inspect_descriptor "sha256:a2" manifest_type None
          {[AnnotationReferenceType := AnnotationReferenceTypeAttestation;
            AnnotationReferenceDigest := "sha256:a1"]}];
     rec_Layers := []; rec_Config := None |}.

Definition inspect_manifest : ManifestRecord :=
  {| rec_Descriptor := inspect_descriptor "sha256:a1" manifest_type None ∅; rec_Tags := []; rec_Manifests := [];
     rec_Layers := [inspect_descriptor "sha256:1a1a" "" None ∅];
     rec_Config := Some (inspect_descriptor "sha256:c0c0" "" None ∅) |}.

Definition inspect_attestation : ManifestRecord :=
  {| rec_Descriptor := inspect_descriptor "sha256:a2" manifest_type None ∅; rec_Tags := []; rec_Manifests := [];
     rec_Layers := [inspect_descriptor "sha256:5b0" "" None {[inTotoPredicateTypeAnnotation := "sbom"]};
                    inspect_descriptor "sha256:5b1" "" None {[inTotoPredicateTypeAnnotation := "slsa"]}];
     rec_Config := None |}.

Definition serve_inspect {X} (c : icmd X) (s : unit) : X * unit :=
  (match c in icmd X return X with
   | IndexManifest _ d =>
       if decide (d = "sha256:abcd") then Ok inspect_index
       else if decide (d = "sha256:a1") then Ok inspect_manifest
       else if decide (d = "sha256:a2") then Ok inspect_attestation else Err (OciError ErrManifestUnknown)
   | IndexResolveTag _ _ => Ok (rec_Descriptor inspect_index)
   | ImageConfig _ => Ok (Some "{}")
   | GetBlob _ _ d => Ok (Ok ("content of " +:+ d))
   | Repositories _ | TagRecords _ _ | Closure _ _ | DeleteTag _ _ | DeleteManifest _ _ | DeleteBlob _ _
   | ResolveBlob _ _ _ | GetManifest _ _ _ | ResolveManifest _ _ _ | ResolveTag _ _ _
   | PushBlob _ _ _ _ | PushManifest _ _ _ _ _ _ | Referrers _ _ _ | Tags _ _ | CopyBlobs _ _ _ _ _ => Err Cancelled
   | CtxErr => false
   | Message _ _ => tt
   end, s).

Definition demo_history (command : string) (empty : bool) : History :=
  {| hist_Created := Some {| t_Nanos := 63863683200 * 10 ^ 9; t_Offset := -12600 |};
     hist_CreatedBy := command; hist_Comment := ""; hist_EmptyLayer := empty |}.

Definition demo_image_json : ImageJSON := {|
  Unmarshal_image _ := Ok {|
    doi_Created := Some {| t_Nanos := 63863683200 * 10 ^ 9; t_Offset := -12600 |};
    doi_Author := "ann"; doi_OS := "linux"; doi_Architecture := "amd64"; doi_Variant := ""; doi_OSVersion := "";
    doi_Config := {| oci_User := ""; oci_ExposedPorts := ∅; oci_Env := []; oci_Entrypoint := None; oci_Cmd := ["sh"];
                     oci_Volumes := ∅; oci_WorkingDir := "/"; oci_Labels := ∅; oci_StopSignal := "";
                     oci_OnBuild := []; oci_Shell := []; oci_Healthcheck := None |};
    doi_DiffIDs := ["sha256:d1"];
    doi_History := [demo_history "ADD rootfs" false; demo_history "CMD sh" true] |};
  Unmarshal_platform _ := Err Cancelled
|}.
#[local] Existing Instances ascii_unicode demo_digests demo_references demo_config demo_platforms demo_image_json.

Lemma ImageHistory_exact_witness :
  let o := run (@serve_inspect) (ImageHistory 2 (Some demo_identity) "app:1.0" None) [] tt in
  guarded (reads_namespace "acme") [] o.1.2 ∧
  match o.1.1 with
  | Ok items => item_CreatedBy <$> items = ["CMD sh"; "ADD rootfs"] ∧ item_Size <$> items = [0%Z; 10%Z] ∧
                item_Tags <$> items = [["app:1.0"]; []] ∧ item_ID <$> items = ["sha256:abcd"; "<missing>"] ∧
                item_Created <$> items = [1728086400%Z; 1728086400%Z]
  | Err _ => False
  end.
Proof.
  intros o. split; [|vm_compute; by split_and!].
  refine (proj1 (ImageHistory_exact 2 demo_identity "app:1.0" None [] o.1.2 o.1.1 _ _));
    [discriminate|apply run_exec].
Defined.

Lemma ImageInspect_exact_witness :
  let o := run (@serve_inspect) (ImageInspect 2 (Some demo_identity) "app:1.0"
                {| inspect_Manifests := true; inspect_Platform := None |}) [] tt in
  guarded (reads_namespace "acme") [] o.1.2 ∧
  match o.1.1 with
  | Ok shown => ins_ID shown = "sha256:abcd" ∧ ins_RepoTags shown = ["app:1.0"] ∧ ins_Size shown = 40%Z ∧
                ins_Created shown = "2024-10-04T20:30:00-03:30" ∧
                ms_Kind <$> ins_Manifests shown = [KindImage; KindAttestation]
  | Err _ => False
  end.
Proof.
  intros o. split; [|vm_compute; by split_and!].
  refine (proj1 (ImageInspect_exact 2 demo_identity "app:1.0" {| inspect_Manifests := true; inspect_Platform := None |}
            [] o.1.2 o.1.1 _ _)); [discriminate|apply run_exec].
Defined.

Definition demo_attestation_opts : AttestationOpts :=
  {| PredicateTypes := ["slsa"]; IncludeStatement := true; att_Platform := None |}.

Lemma ImageAttestations_exact_witness :
  let o := run (@serve_inspect) (ImageAttestations 2 (Ok tt) (Some demo_identity) "app:1.0" demo_attestation_opts) [] tt in
  guarded (reads_content "acme") [] o.1.2 ∧
  match o.1.1 with
  | Ok [s] => att_PredicateType s = "slsa" ∧ att_Statement s = Some "content of sha256:5b1"
  | _ => False
  end.
Proof.
  intros o. split; [|vm_compute; by split_and!].
  refine (proj1 (ImageAttestations_exact 2 (Ok tt) demo_identity "app:1.0" demo_attestation_opts
            [] o.1.2 o.1.1 _ _)); [discriminate|apply run_exec].
Defined.
