(* ===== verification/RegistryApi.v ===== *)
(** * RegistryApi: [core/registry/api], the wire between dink and dinki

    [dink] serves Docker clients and makes no OCI requests itself: every image operation
    goes through a client ([client.go], [registry_ops.go]) whose messages ([convert.go])
    reach the handlers of [dinki] ([server/server.go], [server/registry_ops.go]), which
    call the image service.  Messages are records whose getters read a missing message as
    the empty one; the transport delivers a message as it was sent, or fails.  The
    credentials are in RegistryCreds.v. *)

From S2P Require Import Prelude GoStrings Errors Filters Prog Identity Oci Images Transfer ImageInspect.

Local Open Scope string_scope.

(** [encoding/json] on a type; [None] is an error. *)
Class Json (A : Type) := { json_Marshal : A → option string; json_Unmarshal : string → option A }.
Class JsonLaws (A : Type) `{Json A} := {
  json_roundtrip a s : json_Marshal a = Some s → s ≠ "" ∧ json_Unmarshal s = Some a
}.

(** [registry.AuthConfig] *)
Record AuthConfig := {
  auth_Username : string; auth_Password : string; auth_Auth : string; auth_ServerAddress : string;
  auth_IdentityToken : string; auth_RegistryToken : string
}.

(** [registry.SearchResult] *)
Record SearchResult := {
  sr_StarCount : Z; sr_IsOfficial : bool; sr_Name : string; sr_IsAutomated : bool; sr_Description : string
}.

(** ** Messages ([registry.proto]) *)

Module pb.
Record Identity := { Namespace : string; Organization : string; CommonName : string; Anonymous : bool }.
Record RegistryAuth := {
  Username : string; Password : string; IdentityToken : string; RegistryToken : string; ServerAddress : string
}.
Record Reference := { Host : string; Repository : string; Tag : string; Digest : string }.
Record Platform := {
  Os : string; Architecture : string; Variant : string; OsVersion : string; OsFeatures : list string
}.
Record HeaderValues := { Values : list string }.
Record Descriptor := { MediaType : string; Desc_Digest : string; Size : Z; Desc_Platform : option Platform }.
Record ImageSummary := {
  Id : string; RepoTags : list string; RepoDigests : list string; Created : Z; Summary_Size : Z;
  Target : option Descriptor; Manifests : string
}.
Record RemoveImageRecord := { Untagged : string; Deleted : string }.
Record TransferRequest := {
  tr_Identity : option Identity; tr_Reference : option Reference; tr_Auth : option RegistryAuth;
  tr_MetaHeaders : gmap string HeaderValues; tr_Platforms : list Platform
}.
Record SearchRequest := {
  sq_Identity : option Identity; sq_Term : string; sq_Limit : Z; sq_Filters : string;
  sq_Auth : option RegistryAuth; sq_MetaHeaders : gmap string HeaderValues
}.
Record ListImagesRequest := { li_Identity : option Identity; li_Manifests : bool }.
Record RemoveImageRequest := {
  ri_Identity : option Identity; ri_Name : string; ri_Platforms : list Platform
}.
Record TagImageRequest := {
  ti_Identity : option Identity; ti_Name : string; ti_Target : option Reference
}.
Record InspectImageRequest := {
  ii_Identity : option Identity; ii_Name : string; ii_Platform : option Platform; ii_Manifests : bool
}.
Record ImageHistoryRequest := {
  ih_Identity : option Identity; ih_Name : string; ih_Platform : option Platform
}.
Record ImageAttestationsRequest := {
  ia_Identity : option Identity; ia_Name : string; ia_Platform : option Platform;
  ia_PredicateTypes : list string; ia_IncludeStatement : bool
}.
End pb.

(** ** Conversions ([convert.go]) *)

Definition IdentityToProto (id : Identity) : pb.Identity :=
  {| pb.Namespace := Namespace id; pb.Organization := Organization id; pb.CommonName := CommonName id;
     pb.Anonymous := Anonymous id |}.

Definition IdentityFromProto (id : option pb.Identity) : Identity :=
  {| Namespace := from_option pb.Namespace "" id; Organization := from_option pb.Organization "" id;
     CommonName := from_option pb.CommonName "" id; Anonymous := from_option pb.Anonymous false id |}.

Definition AuthToProto (auth : option AuthConfig) : option pb.RegistryAuth :=
  match auth with
  | None => None
  | Some a => Some {| pb.Username := auth_Username a; pb.Password := auth_Password a;
                      pb.IdentityToken := auth_IdentityToken a; pb.RegistryToken := auth_RegistryToken a;
                      pb.ServerAddress := auth_ServerAddress a |}
  end.

Definition AuthFromProto (auth : option pb.RegistryAuth) : option AuthConfig :=
  match auth with
  | None => None
  | Some a => Some {| auth_Username := pb.Username a; auth_Password := pb.Password a; auth_Auth := "";
                      auth_IdentityToken := pb.IdentityToken a; auth_RegistryToken := pb.RegistryToken a;
                      auth_ServerAddress := pb.ServerAddress a |}
  end.

Definition ReferenceToProto (ref : Reference) : pb.Reference :=
  {| pb.Host := Host ref; pb.Repository := Repository ref; pb.Tag := Tag ref; pb.Digest := ref_Digest ref |}.

Definition ReferenceFromProto `{Digests} (ref : option pb.Reference) : ires Reference :=
  let result digest := {| Host := from_option pb.Host "" ref; Repository := from_option pb.Repository "" ref;
                          Tag := from_option pb.Tag "" ref; ref_Digest := digest |} in
  let digest := from_option pb.Digest "" ref in
  if decide (digest = "") then Ok (result "")
  else match ParseDigest digest with
       | None => Err (errors_new "invalid digest")
       | Some digest => Ok (result digest)
       end.

Definition PlatformToProto (p : Platform) : pb.Platform :=
  {| pb.Os := OS p; pb.Architecture := Architecture p; pb.Variant := Variant p; pb.OsVersion := OSVersion p;
     pb.OsFeatures := OSFeatures p |}.

Definition PlatformFromProto (p : pb.Platform) : Platform :=
  {| OS := pb.Os p; Architecture := pb.Architecture p; Variant := pb.Variant p; OSVersion := pb.OsVersion p;
     OSFeatures := pb.OsFeatures p |}.

Definition OptionalPlatformToProto (p : option Platform) : option pb.Platform := PlatformToProto <$> p.
Definition OptionalPlatformFromProto (p : option pb.Platform) : option Platform := PlatformFromProto <$> p.
Definition PlatformsToProto (l : list Platform) : list pb.Platform := PlatformToProto <$> l.
Definition PlatformsFromProto (l : list pb.Platform) : list Platform := PlatformFromProto <$> l.

Definition HeadersToProto (headers : gmap string (list string)) : gmap string pb.HeaderValues :=
  pb.Build_HeaderValues <$> headers.
Definition HeadersFromProto (headers : gmap string pb.HeaderValues) : gmap string (list string) :=
  pb.Values <$> headers.

Section summaries.
Context `{Json (list ManifestSummary)}.

(** A digest's [String] is its text. *)
Definition DescriptorToProto (d : Descriptor) : pb.Descriptor :=
  {| pb.MediaType := MediaType d; pb.Desc_Digest := Digest d; pb.Size := Size d;
     pb.Desc_Platform := PlatformToProto <$> desc_Platform d |}.

Definition DescriptorFromProto (d : pb.Descriptor) : Descriptor :=
  {| MediaType := pb.MediaType d; Digest := pb.Desc_Digest d; Size := pb.Size d; Data := "";
     desc_Platform := PlatformFromProto <$> pb.Desc_Platform d; Annotations := ∅ |}.

Definition SummaryToProto (s : Summary) : option pb.ImageSummary :=
  let result manifests :=
    {| pb.Id := sum_ID s; pb.RepoTags := sum_RepoTags s; pb.RepoDigests := sum_RepoDigests s;
       pb.Created := sum_Created s; pb.Summary_Size := sum_Size s;
       pb.Target := DescriptorToProto <$> sum_Descriptor s; pb.Manifests := manifests |} in
  if decide (length (sum_Manifests s) = 0%nat) then Some (result "")
  else result <$> json_Marshal (sum_Manifests s).

Definition SummaryFromProto (s : pb.ImageSummary) : option Summary :=
  let result manifests :=
    {| sum_ID := pb.Id s; sum_RepoTags := pb.RepoTags s; sum_RepoDigests := pb.RepoDigests s;
       sum_Created := pb.Created s; sum_Size := pb.Summary_Size s;
       sum_Descriptor := DescriptorFromProto <$> pb.Target s; sum_Manifests := manifests |} in
  if decide (pb.Manifests s = "") then Some (result [])
  else result <$> json_Unmarshal (pb.Manifests s).
End summaries.

(** ** Errors *)

(** The codes of [connect] that are told apart. *)
Inductive Code :=
| CodeCanceled | CodeUnknown | CodeInvalidArgument | CodeDeadlineExceeded | CodeNotFound | CodeAlreadyExists
| CodePermissionDenied | CodeFailedPrecondition | CodeInternal | CodeUnavailable | CodeUnauthenticated | CodeOther.
#[export] Instance Code_eq_dec : EqDecision Code.
Proof. solve_decision. Defined.

(** [*connect.Error] *)
Record connect_error := { ConnectCode : Code; ConnectMessage : string }.

(** What [ToConnectError] finds in an error of the server: its text, a [*connect.Error], a
    context error (with whether the deadline ended it), and the status and message of an
    [*httpx.HTTPError]. *)
Class GoError (E : Type) := {
  Error_text : E → string;
  as_connect : E → option connect_error;
  as_context : E → option bool;
  as_HTTPError : E → option (Z * string)
}.

Definition code_of_status (status : Z) : Code :=
  if decide (status = 400%Z) then CodeInvalidArgument
  else if decide (status = 401%Z) then CodeUnauthenticated
  else if decide (status = 403%Z) then CodePermissionDenied
  else if decide (status = 404%Z) then CodeNotFound
  else if decide (status = 409%Z) then CodeAlreadyExists
  else if decide (status = 408%Z) then CodeDeadlineExceeded
  else if decide (status = 410%Z) then CodeFailedPrecondition
  else CodeUnknown.

Definition ToConnectError {E} `{GoError E} (e : E) : connect_error :=
  match as_connect e with
  | Some c => c
  | None =>
      match as_context e with
      | Some deadline =>
          {| ConnectCode := if deadline : bool then CodeDeadlineExceeded else CodeCanceled;
             ConnectMessage := Error_text e |}
      | None =>
          match as_HTTPError e with
          | Some (status, message) => {| ConnectCode := code_of_status status; ConnectMessage := message |}
          | None => {| ConnectCode := CodeUnknown; ConnectMessage := Error_text e |}
          end
      end
  end.

(** The errors a client returns: with an HTTP status, joined with a context error, plain,
    or wrapped by [fmt.Errorf]. *)
Inductive client_error :=
| HTTPStatus (status : Z) (message : string)
| ContextError (deadline : bool) (message : string)
| Plain (message : string)
| Wrapped (format : string) (cause : client_error).

Definition FromConnectError (e : connect_error) : client_error :=
  let message := ConnectMessage e in
  match ConnectCode e with
  | CodeInvalidArgument => HTTPStatus 400 message
  | CodeUnauthenticated => HTTPStatus 401 message
  | CodePermissionDenied => HTTPStatus 403 message
  | CodeNotFound => HTTPStatus 404 message
  | CodeAlreadyExists => HTTPStatus 409 message
  | CodeFailedPrecondition => HTTPStatus 410 message
  | CodeCanceled => ContextError false message
  | CodeDeadlineExceeded => ContextError true message
  | CodeUnavailable => HTTPStatus 503 message
  | CodeUnknown | CodeInternal | CodeOther => Plain message
  end.

Definition NewError (code : Code) (message : string) : connect_error :=
  {| ConnectCode := code; ConnectMessage := message |}.

(** The errors of the image service.  None of them is a [*connect.Error]; [ctx.Err()] tells
    whether the deadline ended the context, which is the argument [deadline]. *)
Fixpoint is_context_error (e : ierror) : bool :=
  match e with
  | Cancelled => true
  | HttpError _ e | Failed _ (Some e) => is_context_error e
  | OciError _ | Failed _ None => false
  end.

Fixpoint http_error (e : ierror) : option (Z * ierror) :=
  match e with
  | HttpError status cause => Some (status, cause)
  | Failed _ (Some e) => http_error e
  | OciError _ | Failed _ None | Cancelled => None
  end.

(** [Error()], as a text. *)
Class ErrorText := { ierror_text : ierror → string }.

#[export] Instance ierror_GoError `{ErrorText} (deadline : bool) : GoError ierror := {|
  Error_text := ierror_text;
  as_connect _ := None;
  as_context e := if is_context_error e then Some deadline else None;
  as_HTTPError e := (λ '(status, cause), (status, ierror_text cause)) <$> http_error e
|}.

(** ** The image service, as the handlers use it *)

(** [imagebackend.PullOptions] and [PushOptions], less the stream. *)
Record TransferOptions := {
  opt_AuthConfig : option AuthConfig; opt_MetaHeaders : gmap string (list string); opt_Platforms : list Platform
}.

Class ImageService := {
  svc_Authenticate : AuthConfig → iproc (ires string);
  svc_PullImage : option Identity → Reference → TransferOptions → iproc (ires unit);
  svc_PushImage : option Identity → Reference → TransferOptions → iproc (ires unit);
  svc_Search : option Identity → Args → string → Z → option AuthConfig → gmap string (list string) →
               iproc (ires (list SearchResult));
  svc_Images : option Identity → bool → iproc (ires (list Summary));
  svc_ImageDelete : option Identity → string → RemoveOptions →
                    iproc (list DeleteResponse * option ierror);
  svc_TagImage : option Identity → string → Reference → iproc (ires unit);
  svc_ImageInspect : option Identity → string → ImageInspectOpts → iproc (ires InspectResponse);
  svc_ImageHistory : option Identity → string → option Platform → iproc (ires (list HistoryResponseItem));
  svc_ImageAttestations : option Identity → string → AttestationOpts → iproc (ires (list AttestationStatement))
}.

(** What a summary carries over the wire: its descriptor names no content and no annotations. *)
Definition plain_summary (s : Summary) : Prop :=
  ∀ d, sum_Descriptor s = Some d → Data d = "" ∧ Annotations d = ∅.

Class ImageServiceLaws `{ImageService} := {
  listed_summaries_plain id manifests h h' l :
    exec (svc_Images id manifests) h h' (Ok l) → Forall plain_summary l
}.

(** ** The calls *)

Abbreviation rres := (result connect_error).

(** A message of a progress stream: the operation's item and text, which are sent as JSON. *)
Abbreviation message := (string * string)%type.

(** What a server stream delivers: messages, and the error that ended it. *)
Abbreviation stream := (list message * option connect_error)%type.

Inductive rpc : Type → Type :=
| Login (auth : option pb.RegistryAuth) : rpc (rres string)
| Pull (r : pb.TransferRequest) : rpc (rres stream)
| Push (r : pb.TransferRequest) : rpc (rres stream)
| Search (r : pb.SearchRequest) : rpc (rres string)
| ListImages (r : pb.ListImagesRequest) : rpc (rres (list pb.ImageSummary))
| RemoveImage (r : pb.RemoveImageRequest) : rpc (rres (list pb.RemoveImageRecord))
| TagImageCall (r : pb.TagImageRequest) : rpc (rres unit)
| InspectImage (r : pb.InspectImageRequest) : rpc (rres string)
| ImageHistoryCall (r : pb.ImageHistoryRequest) : rpc (rres string)
| ImageAttestationsCall (r : pb.ImageAttestationsRequest) : rpc (rres string).

(** ** The transport

    The commands of dink and dinki together: those of the image service, the network, and
    the stream of a Docker client. *)

Inductive wcmd : Type → Type :=
| AtServer (X : Type) (c : icmd X) : wcmd X
(* whether the request, or then the answer, is lost, with the error the client sees *)
| Lost : wcmd (option connect_error)
(* whether a stream breaks, after how many messages *)
| Broken : wcmd (option (nat * connect_error))
(* whether a message can be written to the Docker client *)
| OutStream_Write (m : message) : wcmd bool.

Abbreviation wproc := (prog wcmd).
Abbreviation cres := (result client_error).

(** ** The server ([server/server.go], [server/registry_ops.go]) *)

Section server.
Context `{Digests} `{ErrorText} `{FiltersJSON} `{ImageService}.
Context `{Json (list ManifestSummary)} `{Json InspectResponse} `{Json (list HistoryResponseItem)}.
Context `{Json (list AttestationStatement)} `{Json (list SearchResult)}.

(** Whether a context that is done was ended by its deadline. *)
Context (deadline : bool).

#[local] Instance server_errors : GoError ierror := ierror_GoError deadline.

(** [return response, api.ToConnectError(err)] *)
Definition to_connect {A} (r : ires A) : rres A :=
  match r with Ok a => Ok a | Err e => Err (ToConnectError e) end.

Definition withIdentity {A} (id : option pb.Identity) (k : Identity → iproc (rres A)) : iproc (rres A) :=
  match id with
  | None => Ret (Err (NewError CodeInvalidArgument "identity is required"))
  | Some _ => k (IdentityFromProto id)
  end.

(** A reference that does not parse is refused. *)
Definition with_reference {A} (ref : option pb.Reference) (k : Reference → iproc (rres A)) : iproc (rres A) :=
  match ReferenceFromProto ref with
  | Err e => Ret (Err (NewError CodeInvalidArgument (ierror_text e)))
  | Ok ref => k ref
  end.

(** [json.Marshal] of an answer. *)
Definition encoded {A} `{Json A} (p : iproc (ires A)) : iproc (rres string) :=
  do r <- p;
  Ret (match r with
       | Err e => Err (ToConnectError e)
       | Ok a => match json_Marshal a with
                 | Some s => Ok s
                 | None => Err (NewError CodeInternal "json")
                 end
       end).

Definition LoginHandler (auth : option pb.RegistryAuth) : iproc (rres string) :=
  let auth := default {| auth_Username := ""; auth_Password := ""; auth_Auth := ""; auth_ServerAddress := "";
                         auth_IdentityToken := ""; auth_RegistryToken := "" |} (AuthFromProto auth) in
  do r <- svc_Authenticate auth; Ret (to_connect r).

(** [Pull] and [Push], which differ in what they call.  The stream is what the operation
    writes: [streamWriter] sends each message once. *)
Definition transfer_options (r : pb.TransferRequest) : TransferOptions :=
  {| opt_AuthConfig := AuthFromProto (pb.tr_Auth r); opt_MetaHeaders := HeadersFromProto (pb.tr_MetaHeaders r);
     opt_Platforms := PlatformsFromProto (pb.tr_Platforms r) |}.

Definition transfer_handler
    (svc : option Identity → Reference → TransferOptions → iproc (ires unit))
    (r : pb.TransferRequest) : iproc (rres unit) :=
  withIdentity (pb.tr_Identity r) (λ id,
  with_reference (pb.tr_Reference r) (λ ref,
  do r <- svc (Some id) ref (transfer_options r); Ret (to_connect r))).

Definition PullHandler : pb.TransferRequest → iproc (rres unit) := transfer_handler svc_PullImage.
Definition PushHandler : pb.TransferRequest → iproc (rres unit) := transfer_handler svc_PushImage.

Definition SearchHandler (r : pb.SearchRequest) : iproc (rres string) :=
  withIdentity (pb.sq_Identity r) (λ id,
  if (pb.sq_Limit r <? 0)%Z || (100 <? pb.sq_Limit r)%Z
  then Ret (Err (NewError CodeInvalidArgument "search limit must be between 0 and 100"))
  else match FromJSON (pb.sq_Filters r) with
       | Err e => Ret (Err (NewError CodeInvalidArgument (invalidFilter_Error e)))
       | Ok searchFilters =>
           encoded (svc_Search (Some id) searchFilters (pb.sq_Term r) (pb.sq_Limit r)
                      (AuthFromProto (pb.sq_Auth r)) (HeadersFromProto (pb.sq_MetaHeaders r)))
       end).

(** The summaries, encoded one after the other. *)
Definition summaries_to_proto (l : list Summary) : rres (list pb.ImageSummary) :=
  result_mapM (λ s, match SummaryToProto s with
                    | Some image => Ok image
                    | None => Err (NewError CodeInternal "json")
                    end) l.

Definition ListImagesHandler (r : pb.ListImagesRequest) : iproc (rres (list pb.ImageSummary)) :=
  withIdentity (pb.li_Identity r) (λ id,
  do summaries <- svc_Images (Some id) (pb.li_Manifests r);
  Ret (let? summaries := to_connect summaries in summaries_to_proto summaries)).

(** The request has no field for [Force]. *)
Definition record_of (record : DeleteResponse) : pb.RemoveImageRecord :=
  match record with
  | Untagged ref => {| pb.Untagged := ref; pb.Deleted := "" |}
  | Deleted digest => {| pb.Untagged := ""; pb.Deleted := digest |}
  end.

Definition RemoveImageHandler (r : pb.RemoveImageRequest) : iproc (rres (list pb.RemoveImageRecord)) :=
  withIdentity (pb.ri_Identity r) (λ id,
  do deletion <- svc_ImageDelete (Some id) (pb.ri_Name r)
                   {| remove_Platforms := PlatformsFromProto (pb.ri_Platforms r); remove_Force := false |};
  let '(records, err) := deletion in
  Ret (match err with
       | Some e => Err (ToConnectError e)
       | None => Ok (record_of <$> records)
       end)).

Definition TagImageHandler (r : pb.TagImageRequest) : iproc (rres unit) :=
  withIdentity (pb.ti_Identity r) (λ id,
  match pb.ti_Target r with
  | None => Ret (Err (NewError CodeInvalidArgument "tag target is required"))
  | Some _ =>
      with_reference (pb.ti_Target r) (λ target,
      do r <- svc_TagImage (Some id) (pb.ti_Name r) target; Ret (to_connect r))
  end).

Definition InspectImageHandler (r : pb.InspectImageRequest) : iproc (rres string) :=
  withIdentity (pb.ii_Identity r) (λ id,
  encoded (svc_ImageInspect (Some id) (pb.ii_Name r)
             {| inspect_Manifests := pb.ii_Manifests r;
                inspect_Platform := OptionalPlatformFromProto (pb.ii_Platform r) |})).

Definition ImageHistoryHandler (r : pb.ImageHistoryRequest) : iproc (rres string) :=
  withIdentity (pb.ih_Identity r) (λ id,
  encoded (svc_ImageHistory (Some id) (pb.ih_Name r) (OptionalPlatformFromProto (pb.ih_Platform r)))).

Definition ImageAttestationsHandler (r : pb.ImageAttestationsRequest) : iproc (rres string) :=
  withIdentity (pb.ia_Identity r) (λ id,
  encoded (svc_ImageAttestations (Some id) (pb.ia_Name r)
             {| att_Platform := OptionalPlatformFromProto (pb.ia_Platform r);
                PredicateTypes := pb.ia_PredicateTypes r; IncludeStatement := pb.ia_IncludeStatement r |})).

(** ** Calls over the network *)

(** What the operation writes to its stream by a command. *)
Definition sent {X} (c : icmd X) : list message :=
  match c with Message id text => [(id, text)] | _ => [] end.

(** A handler's run at the server, with all that it wrote. *)
Fixpoint at_server {A} (p : iproc A) : wproc (list message * A) :=
  match p with
  | Ret a => Ret ([], a)
  | Call c k =>
      Call (AtServer _ c) (λ x, do r <- at_server (k x); Ret (sent c ++ r.1, r.2)%list)
  end.

(** A call answered by one message: the request and the answer may get lost. *)
Definition unary {A} (p : iproc (rres A)) : wproc (rres A) :=
  do lost <- call Lost;
  match lost with
  | Some e => Ret (Err e)
  | None =>
      do r <- at_server p;
      do lost <- call Lost;
      Ret (match lost with Some e => Err e | None => r.2 end)
  end.

(** A call answered by a stream, which may break. *)
Definition streaming (p : iproc (rres unit)) : wproc (rres stream) :=
  do lost <- call Lost;
  match lost with
  | Some e => Ret (Err e)
  | None =>
      do r <- at_server p;
      do broken <- call Broken;
      Ret (Ok (match broken with
               | Some (n, e) => (take n r.1, Some e)
               | None => (r.1, match r.2 with Ok _ => None | Err e => Some e end)
               end))
  end.

Definition invoke {X} (c : rpc X) : wproc X :=
  match c with
  | Login r => unary (LoginHandler r)
  | Pull r => streaming (PullHandler r)
  | Push r => streaming (PushHandler r)
  | Search r => unary (SearchHandler r)
  | ListImages r => unary (ListImagesHandler r)
  | RemoveImage r => unary (RemoveImageHandler r)
  | TagImageCall r => unary (TagImageHandler r)
  | InspectImage r => unary (InspectImageHandler r)
  | ImageHistoryCall r => unary (ImageHistoryHandler r)
  | ImageAttestationsCall r => unary (ImageAttestationsHandler r)
  end.

(** ** The client ([client.go], [registry_ops.go]) *)

(** [err] is why the client could not be built. *)
Record Client := { client_err : option client_error }.

Definition Unavailable (e : client_error) : Client := {| client_err := Some e |}.

Context (c : Client).

Definition requestIdentity (ctx : option Identity) : cres pb.Identity :=
  match client_err c, ctx with
  | Some e, _ => Err e
  | None, None => Err (Plain "missing identity in context")
  | None, Some id => Ok (IdentityToProto id)
  end.

(** A call made for the identity of the context, and what becomes of its answer. *)
Definition request {A} (ctx : option Identity) (k : pb.Identity → wproc (cres A)) : wproc (cres A) :=
  match requestIdentity ctx with Err e => Ret (Err e) | Ok id => k id end.

Definition answer {A B} (p : wproc (rres A)) (f : A → cres B) : wproc (cres B) :=
  do r <- p; Ret (match r with Err e => Err (FromConnectError e) | Ok a => f a end).

(** [json.Unmarshal] of an answer. *)
Definition decoded {A} `{Json A} (format : string) (s : string) : cres A :=
  match json_Unmarshal s with Some a => Ok a | None => Err (Wrapped format (Plain "json")) end.

Definition Authenticate (auth : option AuthConfig) : wproc (cres string) :=
  match client_err c with
  | Some e => Ret (Err e)
  | None => answer (invoke (Login (AuthToProto auth))) Ok
  end.

(** The loop over a stream; [out] is whether the options have an [OutStream]. *)
Fixpoint receive (out : bool) (format : string) (messages : list message) (err : option connect_error) :
    wproc (cres unit) :=
  match messages with
  | [] => Ret (match err with Some e => Err (FromConnectError e) | None => Ok tt end)
  | m :: messages =>
      if out then
        do written <- call (OutStream_Write m);
        if written : bool then receive out format messages err
        else Ret (Err (Wrapped format (Plain "write")))
      else receive out format messages err
  end.

Definition transfer_request (id : pb.Identity) (ref : Reference) (options : TransferOptions) : pb.TransferRequest :=
  {| pb.tr_Identity := Some id; pb.tr_Reference := Some (ReferenceToProto ref);
     pb.tr_Auth := AuthToProto (opt_AuthConfig options);
     pb.tr_MetaHeaders := HeadersToProto (opt_MetaHeaders options);
     pb.tr_Platforms := PlatformsToProto (opt_Platforms options) |}.

Definition receive_stream (out : bool) (format : string) (p : wproc (rres stream)) : wproc (cres unit) :=
  do r <- p;
  match r with
  | Err e => Ret (Err (FromConnectError e))
  | Ok (messages, err) => receive out format messages err
  end.

Definition PullImage (ctx : option Identity) (ref : Reference) (options : TransferOptions) (out : bool) :
    wproc (cres unit) :=
  request ctx (λ id, receive_stream out "writing pull progress: %w" (invoke (Pull (transfer_request id ref options)))).

Definition PushImage (ctx : option Identity) (ref : Reference) (options : TransferOptions) (out : bool) :
    wproc (cres unit) :=
  request ctx (λ id, receive_stream out "writing push progress: %w" (invoke (Push (transfer_request id ref options)))).

Definition SearchImages (ctx : option Identity) (searchFilters : Args) (term : string) (limit : Z)
    (auth : option AuthConfig) (headers : gmap string (list string)) : wproc (cres (list SearchResult)) :=
  request ctx (λ id,
  answer (invoke (Search {| pb.sq_Identity := Some id; pb.sq_Term := term; pb.sq_Limit := limit;
                            pb.sq_Filters := ToJSON searchFilters; pb.sq_Auth := AuthToProto auth;
                            pb.sq_MetaHeaders := HeadersToProto headers |}))
    (decoded "decoding search results: %w")).

Definition summaries_from_proto (l : list pb.ImageSummary) : cres (list Summary) :=
  result_mapM (λ s, match SummaryFromProto s with
                    | Some image => Ok image
                    | None => Err (Wrapped "decoding image summary: %w" (Plain "json"))
                    end) l.

Definition Images (ctx : option Identity) (manifests : bool) : wproc (cres (list Summary)) :=
  request ctx (λ id,
  answer (invoke (ListImages {| pb.li_Identity := Some id; pb.li_Manifests := manifests |})) summaries_from_proto).

(** [imagetypes.DeleteResponse], of which one of the fields is set. *)
Definition ImageDelete (ctx : option Identity) (name : string) (options : RemoveOptions) :
    wproc (cres (list pb.RemoveImageRecord)) :=
  request ctx (λ id,
  answer (invoke (RemoveImage {| pb.ri_Identity := Some id; pb.ri_Name := name;
                                 pb.ri_Platforms := PlatformsToProto (remove_Platforms options) |})) Ok).

Definition TagImage (ctx : option Identity) (name : string) (ref : Reference) : wproc (cres unit) :=
  request ctx (λ id,
  answer (invoke (TagImageCall {| pb.ti_Identity := Some id; pb.ti_Name := name;
                                  pb.ti_Target := Some (ReferenceToProto ref) |})) Ok).

Definition ImageInspect (ctx : option Identity) (name : string) (options : ImageInspectOpts) :
    wproc (cres InspectResponse) :=
  request ctx (λ id,
  answer (invoke (InspectImage {| pb.ii_Identity := Some id; pb.ii_Name := name;
                                  pb.ii_Platform := OptionalPlatformToProto (inspect_Platform options);
                                  pb.ii_Manifests := inspect_Manifests options |}))
    (decoded "decoding image inspect response: %w")).

Definition ImageHistory (ctx : option Identity) (name : string) (platform : option Platform) :
    wproc (cres (list HistoryResponseItem)) :=
  request ctx (λ id,
  answer (invoke (ImageHistoryCall {| pb.ih_Identity := Some id; pb.ih_Name := name;
                                      pb.ih_Platform := OptionalPlatformToProto platform |}))
    (decoded "decoding image history response: %w")).

Definition ImageAttestations (ctx : option Identity) (name : string) (options : AttestationOpts) :
    wproc (cres (list AttestationStatement)) :=
  request ctx (λ id,
  answer (invoke (ImageAttestationsCall
                    {| pb.ia_Identity := Some id; pb.ia_Name := name;
                       pb.ia_Platform := OptionalPlatformToProto (att_Platform options);
                       pb.ia_PredicateTypes := PredicateTypes options;
                       pb.ia_IncludeStatement := IncludeStatement options |}))
    (decoded "decoding image attestations response: %w")).
End server.
