(* ===== verification/RegistryApiProps.v ===== *)
(** * RegistryApiProps: a client of the registry API behaves as the image service

    Whatever the network does, a call of the client either fails with an error of the
    transport or has the outcome of the image service's operation, run at the server for
    the same identity with the same arguments; a progress stream reaches the Docker client
    in order; and the errors that Docker clients tell apart arrive with their status. *)

From S2P Require Import Prelude GoStrings Errors Docker Filters Prog Identity Oci Images Transfer ImageInspect.
From S2P Require Import ImageProps RegistryApi.

(** ** Conversions are inverse *)

Lemma IdentityFromToProto id : IdentityFromProto (Some (IdentityToProto id)) = id.
Proof. by destruct id. Qed.

(** The [Auth] field of a Docker client's credentials is not sent. *)
Definition sent_auth (a : AuthConfig) : AuthConfig :=
  {| auth_Username := auth_Username a; auth_Password := auth_Password a; auth_Auth := ""%string;
     auth_ServerAddress := auth_ServerAddress a; auth_IdentityToken := auth_IdentityToken a;
     auth_RegistryToken := auth_RegistryToken a |}.

Lemma AuthFromToProto a : AuthFromProto (AuthToProto a) = sent_auth <$> a.
Proof. by destruct a. Qed.

Lemma PlatformFromToProto p : PlatformFromProto (PlatformToProto p) = p.
Proof. by destruct p. Qed.

Lemma PlatformsFromToProto l : PlatformsFromProto (PlatformsToProto l) = l.
Proof.
  unfold PlatformsFromProto, PlatformsToProto. rewrite <- list_fmap_compose.
  rewrite <- (list_fmap_id l) at 2. apply list_fmap_ext. intros i p _. apply PlatformFromToProto.
Qed.

Lemma OptionalPlatformFromToProto p : OptionalPlatformFromProto (OptionalPlatformToProto p) = p.
Proof. destruct p as [p|]; [|done]. unfold OptionalPlatformFromProto. simpl. by rewrite PlatformFromToProto. Qed.

Lemma HeadersFromToProto headers : HeadersFromProto (HeadersToProto headers) = headers.
Proof.
  unfold HeadersFromProto, HeadersToProto. rewrite <- map_fmap_compose.
  rewrite <- (map_fmap_id headers) at 2. by apply map_fmap_ext.
Qed.

Definition sent_options (o : TransferOptions) : TransferOptions :=
  {| opt_AuthConfig := sent_auth <$> opt_AuthConfig o; opt_MetaHeaders := opt_MetaHeaders o;
     opt_Platforms := opt_Platforms o |}.

#[export] Hint Rewrite AuthFromToProto PlatformFromToProto PlatformsFromToProto OptionalPlatformFromToProto
  HeadersFromToProto : dink.

(** References with a digest that parses, as [ociref] makes them. *)
Definition well_formed_reference `{Digests} (ref : Reference) : Prop :=
  ref_Digest ref = ""%string ∨ ParseDigest (ref_Digest ref) = Some (ref_Digest ref).

Lemma ReferenceFromToProto `{Digests} ref :
  well_formed_reference ref → ReferenceFromProto (Some (ReferenceToProto ref)) = Ok ref.
Proof.
  unfold well_formed_reference, ReferenceFromProto. destruct ref as [host repository tag digest]. simpl.
  intros [->|Hparse]; [done|]. case_decide as Hd; [by rewrite Hd|]. by rewrite Hparse.
Qed.

Section summaries.
Context `{JsonLaws (list ManifestSummary)}.

Lemma DescriptorFromToProto d :
  Data d = ""%string → Annotations d = ∅ → DescriptorFromProto (DescriptorToProto d) = d.
Proof.
  destruct d as [mediaType digest size data platform annotations]. simpl. intros -> ->.
  unfold DescriptorFromProto, DescriptorToProto. simpl. destruct platform as [p|]; simpl; [|done].
  by rewrite PlatformFromToProto.
Qed.

Lemma SummaryFromToProto s image : plain_summary s → SummaryToProto s = Some image → SummaryFromProto image = Some s.
Proof.
  intros Hplain. unfold SummaryToProto, SummaryFromProto.
  assert (DescriptorFromProto <$> (DescriptorToProto <$> sum_Descriptor s) = sum_Descriptor s) as Hd.
  { destruct (sum_Descriptor s) as [d|] eqn:E; [|done]. simpl.
    destruct (Hplain d E). by rewrite DescriptorFromToProto. }
  case_decide as Hlen.
  - intros [= <-]. simpl. rewrite Hd. apply nil_length_inv in Hlen. destruct s; simpl in *. by rewrite Hlen.
  - destruct (json_Marshal (sum_Manifests s)) as [text|] eqn:Etext; [|done]. intros [= <-].
    destruct (json_roundtrip _ _ Etext) as [Hne Hdecode]. simpl. rewrite Hd, Hdecode. case_decide; [done|].
    by destruct s.
Qed.
End summaries.

(** ** What happened at the server *)

(** The part of an event that the image service sees. *)
Definition server_event (e : event wcmd) : option (event icmd) :=
  match e with
  | Event _ c x =>
      match c in wcmd X return X → option (event icmd) with
      | AtServer _ c => λ x, Some (Event _ c x)
      | _ => λ _, None
      end x
  end.

Definition server_part (h : history wcmd) : history icmd := omap server_event h.

(** The messages that an operation wrote, and those that reached the Docker client. *)
Definition sent_by (e : event icmd) : list message := match e with Event _ c _ => sent c end.

Definition written_by (e : event wcmd) : list message :=
  match e with
  | Event _ c x =>
      match c in wcmd X return X → list message with
      | OutStream_Write m => λ written, if written : bool then [m] else []
      | _ => λ _, []
      end x
  end.

(** In their order, between two histories of which one extends the other. *)
Definition messages_of {E} (f : E → list message) (new : list E) : list message := mjoin (f <$> reverse new).

Lemma messages_of_cons {E} (f : E → list message) e new :
  messages_of f (new ++ [e]) = (f e ++ messages_of f new)%list.
Proof. unfold messages_of. by rewrite reverse_app. Qed.

Lemma messages_of_nil {E} (f : E → list message) : messages_of f [] = [].
Proof. done. Qed.

(** A run at the server is a run of the operation; only the server acts. *)
Lemma at_server_exec {A} (p : iproc A) h h' r :
  exec (at_server p) h h' r →
  ∃ new, h' = new ++ h ∧ exec p (server_part h) (server_part h') r.2 ∧
    r.1 = messages_of sent_by (server_part new) ∧ messages_of written_by new = [] ∧
    ∀ e, e ∈ new → is_Some (server_event e).
Proof.
  revert h r. induction p as [a|X c k IH]; intros h r; simpl.
  - intros [-> ->]%exec_inv. exists []. split; [done|]. split; [apply exec_ret|]. do 2 (split; [done|]).
    intros e He. by apply not_elem_of_nil in He.
  - intros (x & Hx)%exec_inv. apply exec_bind in Hx as (h1 & r1 & Hk & [-> ->]%exec_inv). simpl.
    destruct (IH x _ _ Hk) as (new & -> & Hexec & Hsent & Hwritten & Hall).
    exists (new ++ [Event _ (AtServer _ c) x]). split; [by rewrite <- app_assoc|]. split_and!.
    + eapply exec_call; exact Hexec.
    + unfold server_part. rewrite omap_app. simpl. by rewrite messages_of_cons, Hsent.
    + by rewrite messages_of_cons, Hwritten.
    + intros e [He| ->%list_elem_of_singleton]%elem_of_app; [by apply Hall|done].
Qed.

(** ** Failures of the network *)

(** The error that the client saw when the network failed. *)
Definition network_error (e : event wcmd) : option connect_error :=
  match e with
  | Event _ c x =>
      match c in wcmd X return X → option connect_error with
      | Lost => id
      | Broken => λ broken, snd <$> broken
      | _ => λ _, None
      end x
  end.

Definition lost_between (h h' : history wcmd) (e : connect_error) : Prop :=
  ∃ new event, h' = new ++ h ∧ event ∈ new ∧ network_error event = Some e.

(** Then the operation was not run, or was run without its outcome being known. *)
Definition maybe_run {A} (service : iproc A) (h h' : history wcmd) : Prop :=
  server_part h' = server_part h ∨ ∃ r, exec service (server_part h) (server_part h') r.

Lemma unary_exec {A} (p : iproc (rres A)) h h' r :
  exec (unary p) h h' r →
  (∃ e, r = Err e ∧ lost_between h h' e ∧ maybe_run p h h') ∨ exec p (server_part h) (server_part h') r.
Proof.
  unfold unary. intros (h1 & lost & (x & [-> ->]%exec_inv)%exec_inv & Hrest)%exec_bind.
  destruct x as [e|].
  { apply exec_inv in Hrest as [-> ->]. left. exists e. split; [done|]. split; [|by left].
    eexists [_], _. split; [done|]. split; [by left|done]. }
  apply exec_bind in Hrest as (h2 & r2 & Hserver & Hrest).
  apply at_server_exec in Hserver as (new & -> & Hexec & _).
  apply exec_bind in Hrest as (h3 & lost & (x & [-> ->]%exec_inv)%exec_inv & [-> ->]%exec_inv).
  destruct x as [e|]; [|by right]. left. exists e. split; [done|]. split; [|right; by exists r2.2].
  eexists (_ :: new ++ [_]), _. split; [simpl; by rewrite <- app_assoc|]. split; [by left|done].
Qed.

(** ** Calls with one answer *)

Section client.
Context `{Digests} `{ErrorText} `{FiltersJSONLaws} `{ImageServiceLaws}.
Context `{JsonLaws (list ManifestSummary)} `{Json InspectResponse} `{Json (list HistoryResponseItem)}.
Context `{Json (list AttestationStatement)} `{Json (list SearchResult)}.
Context (deadline : bool) (c : Client).

#[local] Instance client_side_errors : GoError ierror := ierror_GoError deadline.

(** A result that could not be encoded, or decoded. *)
Definition not_coded (e : client_error) : Prop := ∃ m, e = Plain m ∨ ∃ format, e = Wrapped format (Plain m).

(** A call of the client behaves as an operation of the service: it fails as the network
    failed; or it has the operation's outcome, its result as [f] makes it if that can be
    encoded and decoded, or its error as it crosses the wire. *)
Definition behaves_as {A B} (client : wproc (cres B)) (service : iproc (ires A)) (f : A → option B) : Prop :=
  ∀ h h' r, exec client h h' r →
    (∃ e, r = Err (FromConnectError e) ∧ lost_between h h' e ∧ maybe_run service h h') ∨
    ∃ outcome, exec service (server_part h) (server_part h') outcome ∧
      match outcome with
      | Ok a => match f a with Some b => r = Ok b | None => ∃ e, r = Err e ∧ not_coded e end
      | Err e => r = Err (FromConnectError (ToConnectError e))
      end.

Lemma answer_behaves {A B C} (p : iproc (rres A)) (service : iproc (ires C)) (k : ires C → rres A)
    (f : A → cres B) (g : C → option B) :
  (∀ h h' r, exec p h h' r → ∃ outcome, exec service h h' outcome ∧ r = k outcome) →
  (∀ e, k (Err e) = Err (ToConnectError e)) →
  (∀ h h' a, exec service h h' (Ok a) →
     match g a, k (Ok a) with
     | Some b, Ok x => f x = Ok b
     | Some b, Err _ => False
     | None, Ok x => ∃ e, f x = Err e ∧ not_coded e
     | None, Err e => ∃ m, e = NewError CodeInternal m
     end) →
  behaves_as (answer (unary p) f) service g.
Proof.
  intros Hp Herr Hok h h' r. unfold answer. intros (h1 & r1 & Hunary & [-> ->]%exec_inv)%exec_bind.
  apply unary_exec in Hunary as [(e & -> & Hlost & Hrun)|Hrun].
  - left. exists e. split; [done|]. split; [done|].
    destruct Hrun as [Hsame|(r & (outcome & ? & _)%Hp)]; [by left|right; by exists outcome].
  - right. destruct (Hp _ _ _ Hrun) as (outcome & Hservice & ->).
    exists outcome. split; [done|]. destruct outcome as [a|e]; [|by rewrite Herr].
    specialize (Hok _ _ _ Hservice). destruct (g a) as [b|], (k (Ok a)) as [x|e]; [by rewrite Hok|done| |].
    + destruct Hok as (e & -> & Hcoded). by exists e.
    + destruct Hok as (m & ->). exists (Plain m). split; [done|]. exists m. by left.
Qed.

(** A handler that ends with what its operation returned. *)
Lemma exec_ret_map {A B} (service : iproc A) (k : A → B) h h' r :
  exec (do a <- service; Ret (k a)) h h' r → ∃ a, exec service h h' a ∧ r = k a.
Proof. intros (h1 & a & Hservice & [-> ->]%exec_inv)%exec_bind. by exists a. Qed.

Lemma withIdentity_some {A} id (k : Identity → iproc (rres A)) : withIdentity (Some (IdentityToProto id)) k = k id.
Proof. unfold withIdentity. by rewrite IdentityFromToProto. Qed.

Lemma with_reference_some {A} ref (k : Reference → iproc (rres A)) :
  well_formed_reference ref → with_reference (Some (ReferenceToProto ref)) k = k ref.
Proof. intros Href. unfold with_reference. by rewrite ReferenceFromToProto. Qed.

Lemma request_some {A} id (k : pb.Identity → wproc (cres A)) :
  client_err c = None → request c (Some id) k = k (IdentityToProto id).
Proof. unfold request, requestIdentity. by intros ->. Qed.

(** The answers that are JSON: what [encoding/json] decodes of what it encoded. *)
Definition recoded {A} `{Json A} (a : A) : option A := json_Marshal a ≫= json_Unmarshal.

Lemma decoded_behaves {A} `{Json A} format (service : iproc (ires A)) :
  behaves_as (answer (unary (encoded deadline service)) (decoded format)) service recoded.
Proof.
  eapply answer_behaves; [apply exec_ret_map|done|]. intros h h' a _. unfold recoded, decoded.
  destruct (json_Marshal a) as [s|] eqn:Es; simpl; [|by eexists].
  destruct (json_Unmarshal s) as [b|]; [done|]. eexists. split; [done|]. eexists. right. by eexists.
Qed.

(** All the summaries, if each of them can be encoded. *)
Definition encodable_summaries (l : list Summary) : option (list Summary) :=
  if forallb (λ s, bool_decide (is_Some (SummaryToProto s))) l then Some l else None.

Lemma summaries_cross l :
  Forall plain_summary l →
  match encodable_summaries l, summaries_to_proto l with
  | Some l', Ok x => summaries_from_proto x = Ok l'
  | Some _, Err _ => False
  | None, Ok x => ∃ e, summaries_from_proto x = Err e ∧ not_coded e
  | None, Err e => ∃ m, e = NewError CodeInternal m
  end.
Proof.
  intros Hall. enough (match encodable_summaries l with
          | Some l' => ∃ x, summaries_to_proto l = Ok x ∧ summaries_from_proto x = Ok l'
          | None => ∃ m, summaries_to_proto l = Err (NewError CodeInternal m)
          end) as Hcross.
  { by destruct (encodable_summaries l); [destruct Hcross as (x & -> & ?)|destruct Hcross as (m & ->); exists m]. }
  unfold encodable_summaries. induction Hall as [|s l Hs Hl IH]; simpl; [by exists []|].
  unfold summaries_to_proto, summaries_from_proto in *. simpl.
  destruct (SummaryToProto s) as [image|] eqn:Eimage; simpl; [|by eexists].
  apply SummaryFromToProto in Eimage; [|done].
  destruct (forallb _ l).
  - destruct IH as (x & -> & Hx). simpl. exists (image :: x). split; [done|]. simpl. by rewrite Eimage, Hx.
  - destruct IH as (m & ->). by eexists.
Qed.

(** What [ImageDelete] returns: its records, if it did not fail. *)
Definition deletion_result (p : iproc (list DeleteResponse * option ierror)) : iproc (ires (list DeleteResponse)) :=
  do r <- p; Ret (match r.2 with Some e => Err e | None => Ok r.1 end).


(** The force of a removal is not sent: the request has no field for it. *)
Definition unforced (options : RemoveOptions) : RemoveOptions :=
  {| remove_Platforms := remove_Platforms options; remove_Force := false |}.

Lemma Images_behaves id manifests :
  client_err c = None →
  behaves_as (Images deadline c (Some id) manifests) (svc_Images (Some id) manifests) encodable_summaries.
Proof.
  intros Hc. unfold Images. rewrite request_some by done. cbn [invoke]. unfold ListImagesHandler.
  cbn [pb.li_Identity pb.li_Manifests]. rewrite withIdentity_some.
  eapply answer_behaves; [apply exec_ret_map|done|]. intros h h' l Hl%listed_summaries_plain.
  by apply summaries_cross.
Qed.

Lemma ImageDelete_behaves id name options :
  client_err c = None →
  behaves_as (ImageDelete deadline c (Some id) name options)
    (deletion_result (svc_ImageDelete (Some id) name (unforced options))) (λ l, Some (record_of <$> l)).
Proof.
  intros Hc. unfold ImageDelete. rewrite request_some by done. cbn [invoke]. unfold RemoveImageHandler.
  cbn [pb.ri_Identity pb.ri_Name pb.ri_Platforms]. rewrite withIdentity_some, PlatformsFromToProto.
  eapply (answer_behaves _ _ (λ r, match r with
                                    | Err e => Err (ToConnectError e)
                                    | Ok records => Ok (record_of <$> records)
                                    end)); [|done|].
  - intros h h' r (h1 & [records err] & Hservice & [-> Hh]%exec_inv)%exec_bind. rewrite Hh.
    exists (match err with Some e => Err e | None => Ok records end). split; [|by destruct err].
    apply exec_bind. exists h1, (records, err). split; [done|constructor].
  - intros h h' l _. done.
Qed.

Lemma TagImage_behaves id name ref :
  client_err c = None → well_formed_reference ref →
  behaves_as (TagImage deadline c (Some id) name ref) (svc_TagImage (Some id) name ref) Some.
Proof.
  intros Hc Href. unfold TagImage. rewrite request_some by done. cbn [invoke]. unfold TagImageHandler.
  cbn [pb.ti_Identity pb.ti_Name pb.ti_Target]. rewrite withIdentity_some, with_reference_some by done.
  eapply answer_behaves; [apply exec_ret_map|done|]. done.
Qed.

Lemma SearchImages_behaves id filters term limit auth headers :
  client_err c = None → (0 ≤ limit ≤ 100)%Z →
  behaves_as (SearchImages deadline c (Some id) filters term limit auth headers)
    (svc_Search (Some id) filters term limit (sent_auth <$> auth) headers) recoded.
Proof.
  intros Hc Hlimit. unfold SearchImages. rewrite request_some by done. cbn [invoke]. unfold SearchHandler.
  cbn [pb.sq_Identity pb.sq_Limit pb.sq_Filters pb.sq_Term pb.sq_Auth pb.sq_MetaHeaders].
  rewrite withIdentity_some, FromJSON_ToJSON, AuthFromToProto, HeadersFromToProto.
  replace (limit <? 0)%Z with false by (symmetry; apply Z.ltb_ge; lia).
  replace (100 <? limit)%Z with false by (symmetry; apply Z.ltb_ge; lia). apply decoded_behaves.
Qed.

(** C27: The calls about stored images behave as the image service.  For a client that was
    created, and whatever the network does, listing, removing, tagging and inspecting
    images, their history and attestations, and a search of at most 100 results, each
    either fails with an error of the network, the operation having run or not, or has the
    outcome of the operation run at the server for the identity of the caller, with the
    arguments of the call: its error as it crosses the wire, or its result.  That is the
    very list of summaries (an internal error, if one has no JSON) and the records of a
    complete removal, and elsewhere what [encoding/json] decodes of the encoded result.
    Lost on the way are the [Auth] field of the credentials of a search, the force of a
    removal, and the records of a removal that fails. *)
Theorem calls_behave_as_service id :
  client_err c = None →
  (∀ manifests,
     behaves_as (Images deadline c (Some id) manifests) (svc_Images (Some id) manifests) encodable_summaries) ∧
  (∀ name options,
     behaves_as (ImageDelete deadline c (Some id) name options)
       (deletion_result (svc_ImageDelete (Some id) name (unforced options))) (λ l, Some (record_of <$> l))) ∧
  (∀ name ref, well_formed_reference ref →
     behaves_as (TagImage deadline c (Some id) name ref) (svc_TagImage (Some id) name ref) Some) ∧
  (∀ name options,
     behaves_as (ImageInspect deadline c (Some id) name options) (svc_ImageInspect (Some id) name options) recoded) ∧
  (∀ name platform,
     behaves_as (ImageHistory deadline c (Some id) name platform) (svc_ImageHistory (Some id) name platform)
       recoded) ∧
  (∀ name options,
     behaves_as (ImageAttestations deadline c (Some id) name options)
       (svc_ImageAttestations (Some id) name options) recoded) ∧
  (∀ filters term limit auth headers, (0 ≤ limit ≤ 100)%Z →
     behaves_as (SearchImages deadline c (Some id) filters term limit auth headers)
       (svc_Search (Some id) filters term limit (sent_auth <$> auth) headers) recoded).
Proof.
  intros Hc. split; [|split; [|split; [|split; [|split; [|split]]]]].
  - intros manifests. by apply Images_behaves.
  - intros name options. by apply ImageDelete_behaves.
  - intros name ref Href. by apply TagImage_behaves.
  - intros name options. unfold ImageInspect. rewrite request_some by done. cbn [invoke].
    unfold InspectImageHandler. cbn [pb.ii_Identity pb.ii_Platform pb.ii_Manifests pb.ii_Name].
    rewrite withIdentity_some, OptionalPlatformFromToProto. destruct options. apply decoded_behaves.
  - intros name platform. unfold ImageHistory. rewrite request_some by done. cbn [invoke].
    unfold ImageHistoryHandler. cbn [pb.ih_Identity pb.ih_Platform pb.ih_Name].
    rewrite withIdentity_some, OptionalPlatformFromToProto. apply decoded_behaves.
  - intros name options. unfold ImageAttestations. rewrite request_some by done. cbn [invoke].
    unfold ImageAttestationsHandler.
    cbn [pb.ia_Identity pb.ia_Platform pb.ia_Name pb.ia_PredicateTypes pb.ia_IncludeStatement].
    rewrite withIdentity_some, OptionalPlatformFromToProto. destruct options. apply decoded_behaves.
  - intros filters term limit auth headers Hlimit. by apply SearchImages_behaves.
Qed.

(** ** Progress streams *)

Lemma messages_of_app {E} (f : E → list message) new new' :
  messages_of f (new' ++ new) = (messages_of f new ++ messages_of f new')%list.
Proof. unfold messages_of. by rewrite reverse_app, fmap_app, join_app. Qed.

(** The loop over a stream writes the messages in their order, to the end or to the first
    that cannot be written. *)
Lemma receive_exec out format messages err : ∀ h h' r,
  exec (receive out format messages err) h h' r →
  ∃ new, h' = new ++ h ∧ server_part new = [] ∧
    ((messages_of written_by new = (if out : bool then messages else []) ∧
      r = match err with Some e => Err (FromConnectError e) | None => Ok tt end) ∨
     (out = true ∧ messages_of written_by new `prefix_of` messages ∧ r = Err (Wrapped format (Plain "write")))).
Proof.
  induction messages as [|m messages IH]; intros h h' r; cbn [receive].
  { intros [-> ->]%exec_inv. exists []. split_and!; [done..|]. left. by destruct out. }
  destruct out eqn:Hout.
  2: { intros (new & ? & ? & [?|[? _]])%IH; [|done]. exists new. split_and!; [done..|by left]. }
  intros (h1 & written & (x & [-> ->]%exec_inv)%exec_inv & Hrest)%exec_bind. destruct x.
  - apply IH in Hrest as (new & -> & Hserver & Hwritten).
    exists (new ++ [Event _ (OutStream_Write m) true]). split; [by rewrite <- app_assoc|].
    split; [unfold server_part in *; by rewrite omap_app, Hserver|].
    rewrite messages_of_app. change (messages_of written_by [_]) with [m].
    destruct Hwritten as [[-> ->]|(_ & Hprefix & ->)]; [by left|]. right. split_and!; [done| |done].
    by apply prefix_cons.
  - apply exec_inv in Hrest as [-> ->]. eexists [_]. split_and!; [done..|]. right. split_and!; [done| |done].
    apply prefix_nil.
Qed.

Lemma streaming_exec p h h' r :
  exec (streaming p) h h' r →
  ∃ new, h' = new ++ h ∧ messages_of written_by new = [] ∧
    ((∃ e, r = Err e ∧ lost_between h h' e ∧ server_part h' = server_part h) ∨
     ∃ outcome messages err, r = Ok (messages, err) ∧ exec p (server_part h) (server_part h') outcome ∧
       ((messages = messages_of sent_by (server_part new) ∧
         err = match outcome with Ok _ => None | Err e => Some e end) ∨
        (messages `prefix_of` messages_of sent_by (server_part new) ∧
         ∃ e, err = Some e ∧ lost_between h h' e))).
Proof.
  unfold streaming. intros (h1 & lost & (x & [-> ->]%exec_inv)%exec_inv & Hrest)%exec_bind.
  destruct x as [e|].
  { apply exec_inv in Hrest as [-> ->]. eexists [_]. split_and!; [done..|]. left. exists e. split_and!; [done| |done].
    eexists [_], _. split; [done|]. split; [by left|done]. }
  apply exec_bind in Hrest as (h2 & [messages outcome] & Hserver & Hrest).
  apply at_server_exec in Hserver as (new & -> & Hexec & Hsent & Hwritten & _). simpl in Hexec, Hsent.
  apply exec_bind in Hrest as (h3 & broken & (x & [-> ->]%exec_inv)%exec_inv & [-> ->]%exec_inv).
  exists (Event _ Broken x :: new ++ [Event _ Lost None]). split; [simpl; by rewrite <- app_assoc|].
  assert (messages_of sent_by (server_part (Event _ Broken x :: new ++ [Event _ Lost None])) = messages) as Hall.
  { unfold server_part. simpl. rewrite omap_app. simpl. by rewrite app_nil_r. }
  split.
  { change (?e :: new ++ [?e']) with ([e] ++ new ++ [e']). by rewrite !messages_of_app, Hwritten. }
  right. rewrite Hall. destruct x as [[n e]|]; simpl.
  - exists outcome, (take n messages), (Some e). split_and!; [done..|]. right.
    split; [apply prefix_take|]. exists e. split; [done|].
    eexists (_ :: new ++ [_]), _. split; [simpl; by rewrite <- app_assoc|]. split; [by left|done].
  - eexists outcome, messages, _. split_and!; [done..|]. by left.
Qed.

(** A transfer of the client behaves as the service's, and what it writes to the Docker
    client is a beginning of what the operation wrote, all of it if the transfer succeeds. *)
Definition streams_as (client : wproc (cres unit)) (service : iproc (ires unit)) (out : bool) (format : string) : Prop :=
  ∀ h h' r, exec client h h' r →
    ∃ new, h' = new ++ h ∧
      messages_of written_by new `prefix_of` messages_of sent_by (server_part new) ∧
      match r with
      | Ok _ =>
          exec service (server_part h) (server_part h') (Ok tt) ∧
          messages_of written_by new = if out then messages_of sent_by (server_part new) else []
      | Err e =>
          (∃ failure, e = FromConnectError failure ∧ lost_between h h' failure ∧ maybe_run service h h') ∨
          (∃ failure, exec service (server_part h) (server_part h') (Err failure) ∧
             e = FromConnectError (ToConnectError failure)) ∨
          (out = true ∧ e = Wrapped format (Plain "write") ∧ maybe_run service h h')
      end.

Lemma lost_between_later h h1 h' e : lost_between h h1 e → h1 `suffix_of` h' → lost_between h h' e.
Proof.
  intros (new & event & -> & Hin & He) [new' ->]. exists (new' ++ new), event.
  rewrite app_assoc. split_and!; [done|set_solver|done].
Qed.

Lemma transfer_exec (service : iproc (ires unit)) h h' outcome :
  exec (do r <- service; Ret (to_connect deadline r)) h h' outcome →
  ∃ r, exec service h h' r ∧ outcome = to_connect deadline r.
Proof. apply exec_ret_map. Qed.

Lemma transfer_streams service out format :
  streams_as (receive_stream out format (streaming (do r <- service; Ret (to_connect deadline r)))) service out format.
Proof.
  intros h h' r. unfold receive_stream. intros (h1 & r1 & Hstream & Hreceive)%exec_bind.
  apply streaming_exec in Hstream as (new & -> & Hnone & [(e & -> & Hlost & Hsame)|Hstream]).
  { apply exec_inv in Hreceive as [-> ->]. exists new. split; [done|]. rewrite Hnone. split; [apply prefix_nil|].
    left. exists e. split; [done|]. split; [done|by left]. }
  destruct Hstream as (outcome & messages & err & -> & (r0 & Hservice & ->)%transfer_exec & Hmessages).
  apply receive_exec in Hreceive as (new' & -> & Hserver & Hreceived).
  exists (new' ++ new). split; [by rewrite app_assoc|].
  assert (server_part (new' ++ new) = server_part new) as Hnew.
  { unfold server_part in *. by rewrite omap_app, Hserver. }
  assert (server_part (new' ++ new ++ h) = server_part (new ++ h)) as Hpart.
  { unfold server_part in *. by rewrite omap_app, Hserver. }
  rewrite Hnew, Hpart, messages_of_app, Hnone. simpl.
  assert (maybe_run service h (new' ++ new ++ h)) as Hrun by (right; rewrite Hpart; by exists r0).
  assert (messages `prefix_of` messages_of sent_by (server_part new)) as Hprefix.
  { destruct Hmessages as [[-> _]|[? _]]; done. }
  destruct Hreceived as [[Hwritten ->]|(-> & Hwritten & ->)].
  - rewrite Hwritten. split; [destruct out; [done|apply prefix_nil]|].
    destruct Hmessages as [[-> ->]|(_ & e & -> & Hlost)]; [destruct r0 as [[]|e]; simpl|].
    + done.
    + right. left. by exists e.
    + left. exists e. split; [done|]. split; [|done]. eapply lost_between_later; [done|by eexists].
  - split; [by etrans|]. right. right. done.
Qed.

(** C28: A pull or a push of the client behaves as the image service's.  Whatever the network
    and the Docker client do, what is written to the Docker client is a beginning of the
    messages of the operation, in their order; a success means that the operation run at
    the server, for the identity and the reference of the caller and with its headers,
    platforms and credentials, succeeded, and that all its messages were written; a
    failure is that of the operation as it crosses the wire, of the network, or of the
    Docker client's stream. *)
Theorem transfers_behave_as_service id ref options out :
  client_err c = None → well_formed_reference ref →
  streams_as (PullImage deadline c (Some id) ref options out)
    (svc_PullImage (Some id) ref (sent_options options)) out "writing pull progress: %w" ∧
  streams_as (PushImage deadline c (Some id) ref options out)
    (svc_PushImage (Some id) ref (sent_options options)) out "writing push progress: %w".
Proof.
  intros Hc Href. unfold PullImage, PushImage. rewrite !request_some by done. cbn [invoke].
  unfold PullHandler, PushHandler, transfer_handler, transfer_request, transfer_options.
  cbn [pb.tr_Identity pb.tr_Reference pb.tr_Auth pb.tr_MetaHeaders pb.tr_Platforms].
  rewrite !withIdentity_some, !with_reference_some by done.
  rewrite AuthFromToProto, HeadersFromToProto, PlatformsFromToProto. split; apply transfer_streams.
Qed.

End client.

(** ** Errors *)

Section errors.
Context `{ErrorText} (deadline : bool).

#[local] Instance errors_of_service : GoError ierror := ierror_GoError deadline.

(** The errors that one holds: itself, and what it wraps. *)
Inductive inside (e : ierror) : ierror → Prop :=
| inside_here : inside e e
| inside_failed format e' : inside e e' → inside e (Failed format (Some e'))
| inside_http status e' : inside e e' → inside e (HttpError status e').

Lemma ierror_nested (P : ierror → Prop) :
  P Cancelled → (∀ code, P (OciError code)) → (∀ format, P (Failed format None)) →
  (∀ status e, P e → P (HttpError status e)) → (∀ format e, P e → P (Failed format (Some e))) → ∀ e, P e.
Proof. intros Hc Ho Hf Hs Hw. fix IH 1. intros [code|status e|format [e|]|]; [done|apply Hs, IH|apply Hw, IH|done|done]. Qed.

Definition wrapped_in (formats : list string) (e : ierror) : ierror :=
  foldr (λ format e, Failed format (Some e)) e formats.

Lemma context_error_inside e : is_context_error e = true ↔ inside Cancelled e.
Proof.
  split.
  - induction e as [|code|format|status e IH|format e IH] using ierror_nested; simpl; try done; intros He; constructor; auto.
  - by induction 1.
Qed.

Lemma http_error_wrapped formats status cause :
  http_error (wrapped_in formats (HttpError status cause)) = Some (status, cause).
Proof. by induction formats. Qed.

Lemma http_error_inside e status cause : http_error e = Some (status, cause) → inside (HttpError status cause) e.
Proof.
  induction e as [|code|format|status' e IH|format e IH] using ierror_nested; simpl; try done.
  - intros [= <- <-]. constructor.
  - intros He. constructor. auto.
Qed.

(** C30: Errors cross the wire with what Docker clients are told.  An error of the image
    service that holds the end of its context is restored as that, whatever wraps it; one
    with one of the statuses 400, 401, 403, 404, 409 and 410, whatever texts wrap it, with
    its status and its own message; and one that holds no status as its message alone. *)
Theorem errors_cross_the_wire (e : ierror) :
  (inside Cancelled e → FromConnectError (ToConnectError e) = ContextError deadline (ierror_text e)) ∧
  (¬ inside Cancelled e →
     (∀ formats status cause, e = wrapped_in formats (HttpError status cause) →
        status ∈ [400; 401; 403; 404; 409; 410]%Z →
        FromConnectError (ToConnectError e) = HTTPStatus status (ierror_text cause)) ∧
     ((∀ status cause, ¬ inside (HttpError status cause) e) →
        FromConnectError (ToConnectError e) = Plain (ierror_text e))).
Proof.
  unfold ToConnectError. simpl. split; [intros Hin|intros Hctx; split].
  - apply context_error_inside in Hin as ->. by destruct deadline.
  - intros formats status cause -> Hin. destruct (is_context_error _) eqn:Ectx; [by apply context_error_inside in Ectx|].
    rewrite http_error_wrapped. simpl. unfold code_of_status.
    repeat (apply elem_of_cons in Hin as [->|Hin]; [done|]). by apply not_elem_of_nil in Hin.
  - intros Hhttp. destruct (is_context_error _) eqn:Ectx; [by apply context_error_inside in Ectx|].
    destruct (http_error e) as [[status cause]|] eqn:He; [|done]. by apply http_error_inside, Hhttp in He.
Qed.

(** A request timeout comes back as an expired context, and the other statuses, that of an
    unavailable service included, do not come back. *)
Lemma other_statuses_are_lost (e : ierror) status cause :
  is_context_error e = false → http_error e = Some (status, cause) →
  status ∉ [400; 401; 403; 404; 409; 410]%Z →
  FromConnectError (ToConnectError e) =
  if decide (status = 408%Z) then ContextError true (ierror_text cause) else Plain (ierror_text cause).
Proof.
  intros Hctx He Hout. unfold ToConnectError. simpl. rewrite Hctx, He. simpl. unfold code_of_status.
  do 5 rewrite (decide_False (P:=status = _)) by (intros ->; apply Hout; set_solver).
  rewrite (decide_False (P:=status = 410%Z)) by (intros ->; apply Hout; set_solver). by case_decide.
Qed.
End errors.

(** ** The image service of [core/registry] *)

Section registry.
Context `{Unicode} `{Digests} `{References} `{ManifestJSON} `{ConfigJSON} `{Platforms} `{ImageJSON}.
Context (page_fuel : nat) (client : ires unit).
(* what is outside these files: building a client for a host, logging in and searching *)
Context (connect : option AuthConfig → gmap string (list string) → string → ires unit).
Context (authenticate : AuthConfig → iproc (ires string)).
Context (search : option Identity → Args → string → Z → option AuthConfig → gmap string (list string) →
                  iproc (ires (list SearchResult))).

#[export] Instance registry_service : ImageService := {|
  svc_Authenticate := authenticate;
  svc_PullImage id ref o :=
    Transfer.PullImage client (connect (opt_AuthConfig o) (opt_MetaHeaders o)) id ref (opt_Platforms o);
  svc_PushImage id ref o :=
    Transfer.PushImage page_fuel client (connect (opt_AuthConfig o) (opt_MetaHeaders o)) id ref (opt_Platforms o);
  svc_Search := search;
  svc_Images id manifests := Images.Images page_fuel manifests client id;
  svc_ImageDelete := Images.ImageDelete page_fuel client;
  svc_TagImage := Transfer.TagImage page_fuel client;
  svc_ImageInspect := ImageInspect.ImageInspect page_fuel;
  svc_ImageHistory := ImageInspect.ImageHistory page_fuel;
  svc_ImageAttestations := ImageInspect.ImageAttestations page_fuel client
|}.

(** ** Its listings hold plain summaries *)

Abbreviation ends p h P := (wp any_answer any_command p h (λ _ r, ∀ a, r = Ok a → P a)).

Lemma tag_pages_ends {S} (P : S → Prop) repo (f : S → list TagRecord → iproc (ires S)) :
  (∀ s tags h, P s → ends (f s tags) h P) → ∀ fuel after s h, P s → ends (tag_pages fuel repo after f s) h P.
Proof.
  intros Hf. induction fuel as [|fuel IH]; intros after s h Hs; cbn [tag_pages]; [by rewrite wp_ret|].
  rewrite wp_bind, wp_call. split; [done|]. intros [tags|e] _.
  2: { case_match; rewrite wp_ret; [by intros ? [= <-]|done]. }
  rewrite wp_bind_res. eapply wp_post; [|by apply Hf]. intros h' [s'|e] Hs'; [|done]. specialize (Hs' s' eq_refl).
  case_match; [rewrite wp_ret; by intros ? [= <-]|by apply IH].
Qed.

Lemma imageSummary_plain namespace repo tag root summary :
  imageSummary namespace repo tag root = Some summary → plain_summary summary.
Proof.
  unfold imageSummary. destruct root as [root|]; [|done]. destruct (summary_image root) as [[image size]|]; [|done].
  destruct (si_Config image); [|done]. intros [= <-] d [= <-]. done.
Qed.

Lemma tag_summary_ends manifests namespace repo tag h :
  ends (tag_summary manifests client namespace repo tag) h (λ s, ∀ summary, s = Some summary → plain_summary summary).
Proof.
  unfold tag_summary. rewrite wp_bind_res. eapply wp_post; [|apply wp_any].
  intros h1 [tree|e] _; [|done]. destruct tree as [tree|]; [|rewrite wp_ret; by intros ? [= <-] ?].
  destruct (imageSummary _ _ _ _) as [summary|] eqn:Esummary; [|rewrite wp_ret; by intros ? [= <-] ?].
  apply imageSummary_plain in Esummary. destruct manifests; [|rewrite wp_ret; by intros ? [= <-] ? [= <-]].
  rewrite wp_bind_res. eapply wp_post; [|apply wp_any]. intros h2 [[l size]|e] _; [|done].
  rewrite wp_ret. intros ? [= <-] ? [= <-] d. unfold with_manifests. simpl.
  destruct (sum_Descriptor summary) as [d'|] eqn:Ed; [|done]. intros [= <-]. by destruct (Esummary d' Ed).
Qed.

Lemma list_tags_ends manifests namespace repo tags : ∀ l h,
  Forall plain_summary l → ends (list_tags manifests client namespace repo l tags) h (Forall plain_summary).
Proof.
  induction tags as [|tag tags IH]; intros l h Hl; cbn [list_tags]; [rewrite wp_ret; by intros ? [= <-]|].
  unfold list_tag. rewrite !wp_bind_res. eapply wp_post; [|apply tag_summary_ends].
  intros h1 [summary|e] Hsummary; [|done]. rewrite wp_ret. apply IH. apply Forall_app. split; [done|].
  destruct summary as [summary|]; simpl; [|constructor]. constructor; [|constructor]. by eapply Hsummary.
Qed.

Lemma list_repositories_ends manifests namespace repos : ∀ l h,
  Forall plain_summary l →
  ends (list_repositories page_fuel manifests client namespace repos l) h (Forall plain_summary).
Proof.
  induction repos as [|repo repos IH]; intros l h Hl; cbn [list_repositories]; [rewrite wp_ret; by intros ? [= <-]|].
  rewrite wp_bind_res. eapply wp_post; [|apply (tag_pages_ends (Forall plain_summary)); [|exact Hl]].
  - intros h1 [l'|e] Hl'; [|done]. by apply IH, Hl'.
  - intros. by apply list_tags_ends.
Qed.

#[export] Instance registry_service_laws : ImageServiceLaws.
Proof.
  split. intros id manifests h h' l Hexec. simpl in Hexec.
  assert (ends (Images.Images page_fuel manifests client id) h (Forall plain_summary)) as Hends.
  { unfold Images.Images. destruct id as [id|]; [|by rewrite wp_ret]. rewrite wp_bind_res.
    eapply wp_post; [|apply wp_any]. intros h1 [repos|e] _; [|done]. by apply list_repositories_ends. }
  destruct (wp_exec _ _ _ _ _ _ _ Hends Hexec (exec_any_answer _ _ _ _ Hexec)) as [Hl _]. by apply Hl.
Qed.
End registry.

(** ** Witnesses

    The JSON of the answers is some injective text. *)

#[local] Ltac countable f g :=
  refine (inj_countable' f g _); by intros [].

#[local] Instance Platform_eq_dec : EqDecision Platform.
Proof. solve_decision. Defined.
#[local] Instance Platform_countable : Countable Platform.
Proof.
  countable (λ p, (OS p, Architecture p, Variant p, OSVersion p, OSFeatures p))
    (λ '(o, a, v, w, f), {| OS := o; Architecture := a; Variant := v; OSVersion := w; OSFeatures := f |}).
Defined.

#[local] Instance Descriptor_eq_dec : EqDecision Descriptor.
Proof. solve_decision. Defined.
#[local] Instance Descriptor_countable : Countable Descriptor.
Proof.
  countable (λ d, (MediaType d, Digest d, Size d, Data d, desc_Platform d, Annotations d))
    (λ '(m, g, s, t, p, a), {| MediaType := m; Digest := g; Size := s; Data := t; desc_Platform := p; Annotations := a |}).
Defined.

#[local] Instance ManifestKind_countable : Countable ManifestKind.
Proof.
  countable (λ k, match k with KindUnknown => 0 | KindAttestation => 1 | KindImage => 2 end)%nat
    (λ n, match n with 0 => KindUnknown | 1 => KindAttestation | _ => KindImage end)%nat.
Defined.

#[local] Instance ManifestSummary_eq_dec : EqDecision ManifestSummary.
Proof. solve_decision. Defined.
#[local] Instance ManifestSummary_countable : Countable ManifestSummary.
Proof.
  countable (λ m, (ms_ID m, ms_Descriptor m, ms_Available m, ms_Content m, ms_Total m, ms_Kind m, ms_For m, ms_Platform m))
    (λ '(i, d, a, c, t, k, f, p), {| ms_ID := i; ms_Descriptor := d; ms_Available := a; ms_Content := c; ms_Total := t;
                                     ms_Kind := k; ms_For := f; ms_Platform := p |}).
Defined.

#[local] Instance HistoryResponseItem_eq_dec : EqDecision HistoryResponseItem.
Proof. solve_decision. Defined.
#[local] Instance HistoryResponseItem_countable : Countable HistoryResponseItem.
Proof.
  countable (λ i, (item_ID i, item_Created i, item_CreatedBy i, item_Comment i, item_Size i, item_Tags i))
    (λ '(i, c, b, m, s, t), {| item_ID := i; item_Created := c; item_CreatedBy := b; item_Comment := m; item_Size := s;
                               item_Tags := t |}).
Defined.

#[local] Instance AttestationStatement_eq_dec : EqDecision AttestationStatement.
Proof. solve_decision. Defined.
#[local] Instance AttestationStatement_countable : Countable AttestationStatement.
Proof.
  countable (λ a, (att_Descriptor a, att_PredicateType a, att_Statement a))
    (λ '(d, p, s), {| att_Descriptor := d; att_PredicateType := p; att_Statement := s |}).
Defined.

#[local] Instance SearchResult_eq_dec : EqDecision SearchResult.
Proof. solve_decision. Defined.
#[local] Instance SearchResult_countable : Countable SearchResult.
Proof.
  countable (λ r, (sr_StarCount r, sr_IsOfficial r, sr_Name r, sr_IsAutomated r, sr_Description r))
    (λ '(s, o, n, a, d), {| sr_StarCount := s; sr_IsOfficial := o; sr_Name := n; sr_IsAutomated := a;
                            sr_Description := d |}).
Defined.

#[local] Instance OCIImageConfig_eq_dec : EqDecision OCIImageConfig.
Proof. solve_decision. Defined.
#[local] Instance OCIImageConfig_countable : Countable OCIImageConfig.
Proof.
  countable (λ c, (oci_User c, oci_ExposedPorts c, oci_Env c, oci_Entrypoint c, oci_Cmd c, oci_Volumes c,
                   oci_WorkingDir c, oci_Labels c, oci_StopSignal c, oci_OnBuild c, oci_Shell c, oci_Healthcheck c))
    (λ '(a, b, c, d, e, f, g, h, i, j, k, l),
       {| oci_User := a; oci_ExposedPorts := b; oci_Env := c; oci_Entrypoint := d; oci_Cmd := e; oci_Volumes := f;
          oci_WorkingDir := g; oci_Labels := h; oci_StopSignal := i; oci_OnBuild := j; oci_Shell := k;
          oci_Healthcheck := l |}).
Defined.

#[local] Instance InspectResponse_eq_dec : EqDecision InspectResponse.
Proof. solve_decision. Defined.
#[local] Instance InspectResponse_countable : Countable InspectResponse.
Proof.
  countable (λ r, (ins_ID r, ins_RepoTags r, ins_RepoDigests r, ins_Created r, ins_Author r, ins_Config r,
                   ins_Architecture r, ins_Variant r, ins_Os r, ins_OsVersion r, ins_Size r, ins_Layers r,
                   ins_Descriptor r, ins_Manifests r))
    (λ '(a, b, c, d, e, f, g, h, i, j, k, l, m, n),
       {| ins_ID := a; ins_RepoTags := b; ins_RepoDigests := c; ins_Created := d; ins_Author := e; ins_Config := f;
          ins_Architecture := g; ins_Variant := h; ins_Os := i; ins_OsVersion := j; ins_Size := k; ins_Layers := l;
          ins_Descriptor := m; ins_Manifests := n |}).
Defined.

Definition text_json {A} `{Countable A} : Json A := {|
  json_Marshal a := Some (to_text a); json_Unmarshal := of_text |}.
#[local] Existing Instance text_json.

Lemma text_json_laws {A} `{Countable A} : JsonLaws A.
Proof. split. simpl. intros a s [= <-]. split; [apply to_text_nonempty|apply of_text_to_text]. Qed.
#[local] Existing Instance text_json_laws.

Local Open Scope string_scope.

Fixpoint demo_error_text (e : ierror) : string :=
  match e with
  | HttpError _ e => demo_error_text e
  | Failed format _ => format
  | OciError _ => "oci"
  | Cancelled => "context canceled"
  end.
Definition demo_texts : ErrorText := {| ierror_text := demo_error_text |}.
Definition demo_no_manifests : ManifestJSON := {| readIndexOrManifest _ := Err Cancelled |}.
Definition demo_no_images : ImageJSON := {| Unmarshal_image _ := Err Cancelled; Unmarshal_platform _ := Err Cancelled |}.
#[local] Existing Instances ascii_unicode demo_digests demo_references demo_config demo_platforms demo_texts
  demo_no_manifests demo_no_images bits_codec bits_codec_laws.

(** Upstream registries are unreachable. *)
#[local] Instance demo_service : ImageService :=
  registry_service 2 (Ok tt) (λ _ _ _, Err (errors_new "unreachable")) (λ _, Ret (Ok ""))
    (λ _ _ _ _ _ _, Ret (Ok [])).
#[local] Instance demo_service_laws : ImageServiceLaws.
Proof. apply registry_service_laws. Defined.

Definition serve_wire {X} (c : wcmd X) (s : unit) : X * unit :=
  match c in wcmd X return X * unit with
  | AtServer _ c => serve_images c s
  | Lost => (None, s)
  | Broken => (None, s)
  | OutStream_Write _ => (true, s)
  end.

Definition demo_client : Client := {| client_err := None |}.

Lemma calls_behave_as_service_witness :
  let o := run (@serve_wire) (Images false demo_client (Some demo_identity) true) [] tt in
  match o.1.1 with Ok l => sum_RepoTags <$> l = [["app:1.0"]; ["app:latest"]] | Err _ => False end ∧
  behaves_as false (Images false demo_client (Some demo_identity) true) (svc_Images (Some demo_identity) true)
    encodable_summaries.
Proof.
  intros o. split; [vm_compute; done|].
  exact (proj1 (calls_behave_as_service false demo_client demo_identity eq_refl) true).
Defined.

Definition demo_options : TransferOptions := {|
  opt_AuthConfig := None; opt_MetaHeaders := ∅; opt_Platforms := [] |}.

Lemma transfers_behave_as_service_witness :
  let ref := {| Host := "ghcr.io"; Repository := "app"; Tag := "1.0"; ref_Digest := "" |} in
  (run (@serve_wire) (PullImage false demo_client (Some demo_identity) ref demo_options true) [] tt).1.1 =
    Err (Plain "unreachable") ∧
  streams_as false (PullImage false demo_client (Some demo_identity) ref demo_options true)
    (svc_PullImage (Some demo_identity) ref (sent_options demo_options)) true "writing pull progress: %w".
Proof.
  intros ref. split; [vm_compute; done|].
  refine (proj1 (transfers_behave_as_service false demo_client demo_identity ref demo_options true eq_refl _)).
  by left.
Defined.

(** An image with several tags, named by its identifier, is removed by force at the server,
    but not by a client that asks for it: the request says nothing of the force. *)
Example force_is_lost :
  let options := {| remove_Platforms := []; remove_Force := true |} in
  (run (@serve_images) (svc_ImageDelete (Some demo_identity) "abcd" options) [] tt).1.1 =
    ([Untagged "app:1.0"; Untagged "app:latest"; Deleted "sha256:abcd"], None) ∧
  (run (@serve_wire) (ImageDelete false demo_client (Some demo_identity) "abcd" options) [] tt).1.1 =
    Err (HTTPStatus 409 "unable to delete %s (must be forced) - image is referenced in multiple tags").
Proof. split; vm_compute; reflexivity. Qed.
