(* ===== verification/RegistryCreds.v ===== *)
(** * RegistryCreds: issuing credentials over the registry API

    [core/registry/api/server/server.go] and [build.go]: the handlers of [dinki] that issue
    and revoke the credentials with which nodes pull and builds push, over the store of
    PullStore.v; and the calls of the client ([client.go], [build.go]).  A handler that
    changes the store maps it to its answer and the store after. *)

From S2P Require Import Prelude GoStrings Errors PullStore Prog Identity Oci Images ImageProps RegistryApi.

Local Open Scope string_scope.

(** [Error()] on the errors of the store. *)
Class StoreErrorText := { error_text : error → string }.

Definition as_context_error (e : error) : option unit :=
  match e with Errors.ContextError => Some tt | _ => None end.

#[export] Instance error_GoError `{StoreErrorText} (deadline : bool) : GoError error := {|
  Error_text := error_text;
  as_connect _ := None;
  as_context e := (λ _, deadline) <$> errors_As as_context_error e;
  as_HTTPError e := (λ status, (status, error_text e)) <$> errors_As as_http e
|}.

(** ** The handlers *)

Section server.
Context {S : Type} `{KVStore S} `{CredentialJSON} `{Ociref} `{Digests} `{References} `{StoreErrorText}.
Context (deadline : bool).

#[local] Instance store_errors : GoError error := error_GoError deadline.

Definition store_result {A} (r : res A) : rres A :=
  match r with Ok a => Ok a | Err e => Err (ToConnectError e) end.

Definition credentialNamespace (id : option pb.Identity) : rres string :=
  match id with
  | Some i =>
      if ValidNamespace (pb.Namespace i) then Ok (pb.Namespace i)
      else Err (NewError CodeInvalidArgument "identity with a valid namespace is required")
  | None => Err (NewError CodeInvalidArgument "identity with a valid namespace is required")
  end.

(** [now] and [secret] are the clock and the random secret of [Issue]. *)
Definition issue_new (now : Z) (secret : option string) (namespace : string) (s : S) :
    rres (string * string) * S :=
  let '(r, s) := Issue now secret namespace s in
  (result_map (λ password, (namespace, password)) (store_result r), s).

Definition IssuePullCredential (now : Z) (secret : option string) (id : option pb.Identity)
    (ExistingPassword : string) (s : S) : rres (string * string) * S :=
  match credentialNamespace id with
  | Err e => (Err e, s)
  | Ok namespace =>
      if decide (ExistingPassword = "") then issue_new now secret namespace s
      else match Verify namespace ExistingPassword s with
           | Err e => (Err (ToConnectError e), s)
           | Ok true => (Ok (namespace, ExistingPassword), s)
           | Ok false => issue_new now secret namespace s
           end
  end.

Definition RevokePullCredential (id : option pb.Identity) (s : S) : rres unit * S :=
  match credentialNamespace id with
  | Err e => (Err e, s)
  | Ok namespace => let '(r, s) := Revoke namespace s in (store_result r, s)
  end.

(** The reference and the repository of one name of a build's output. *)
Definition build_output (namespace name : string) : rres (string * string) :=
  let tagged := Err (NewError CodeInvalidArgument "build output must be a tagged image reference") in
  match ParseRelative name with
  | None => tagged
  | Some ref =>
      if negb (bool_decide (ref_Digest ref = "")) || bool_decide (Tag ref = "") then tagged
      else
        let mapped := BuildReference {| Identity.Namespace := namespace; Organization := ""; CommonName := "";
                                        Anonymous := false |} ref in
        if negb (IsValidRepository (Repository mapped))
        then Err (NewError CodeInvalidArgument "mapped build repository is invalid")
        else Ok (ref_String mapped, Repository mapped)
  end.

(** [builds] is whether the credentials are [buildCredentials]: those of the store are. *)
Definition IssueBuildCredential (builds : bool) (now : Z) (text1 text2 : string) (id : option pb.Identity)
    (names : list string) (s : S) : rres (string * string * list string) * S :=
  match credentialNamespace id with
  | Err e => (Err e, s)
  | Ok namespace =>
      if negb builds then (Err (NewError CodeUnavailable "build credentials are unavailable"), s)
      else if decide (names = [])
      then (Err (NewError CodeInvalidArgument "at least one image tag is required"), s)
      else match result_mapM (build_output namespace) names with
           | Err e => (Err e, s)
           | Ok outputs =>
               let '(r, s) := IssueBuild now text1 text2 namespace (outputs.*2) s in
               (result_map (λ '(username, password), (username, password, outputs.*1)) (store_result r), s)
           end
  end.

Definition RevokeBuildCredential (builds : bool) (id : option pb.Identity) (username : string) (s : S) :
    rres unit * S :=
  match credentialNamespace id with
  | Err e => (Err e, s)
  | Ok namespace =>
      if negb builds then (Err (NewError CodeUnavailable "build credentials are unavailable"), s)
      else let '(r, s) := RevokeBuild namespace username s in (store_result r, s)
  end.

(** ** The client

    [lost] and [unanswered] are the errors of the network before and after the handler. *)

Context (c : Client) (lost unanswered : option connect_error).

Definition over_network {A} (ctx : option Identity) (handler : option pb.Identity → S → rres A * S) (s : S) :
    cres A * S :=
  match requestIdentity c ctx with
  | Err e => (Err e, s)
  | Ok id =>
      match lost with
      | Some e => (Err (FromConnectError e), s)
      | None =>
          let '(r, s) := handler (Some id) s in
          (match unanswered, r with
           | Some e, _ | None, Err e => Err (FromConnectError e)
           | None, Ok a => Ok a
           end, s)
      end
  end.

Definition EnsurePullCredential (now : Z) (secret : option string) (ctx : option Identity)
    (existingPassword : string) : S → cres (string * string) * S :=
  over_network ctx (λ id, IssuePullCredential now secret id existingPassword).

Definition ClientIssuePullCredential (now : Z) (secret : option string) (ctx : option Identity) :
    S → cres (string * string) * S :=
  EnsurePullCredential now secret ctx "".

Definition ClientRevokePullCredential (ctx : option Identity) : S → cres unit * S :=
  over_network ctx RevokePullCredential.

Definition ClientIssueBuildCredential (builds : bool) (now : Z) (text1 text2 : string) (ctx : option Identity)
    (names : list string) : S → cres (string * string * list string) * S :=
  over_network ctx (λ id, IssueBuildCredential builds now text1 text2 id names).

Definition ClientRevokeBuildCredential (builds : bool) (ctx : option Identity) (username : string) :
    S → cres unit * S :=
  over_network ctx (λ id, RevokeBuildCredential builds id username).
End server.

(** ** What is issued *)

Section issued.
Context {S : Type} `{KVLaws S} `{CredentialJSONLaws} `{Ociref} `{Digests} `{References} `{StoreErrorText}.
Context (deadline : bool).

Lemma credentialNamespace_ok id namespace :
  credentialNamespace id = Ok namespace →
  ValidNamespace namespace = true ∧ ∃ i, id = Some i ∧ namespace = pb.Namespace i.
Proof.
  unfold credentialNamespace. destruct id as [i|]; [|done]. destruct (ValidNamespace _) eqn:E; [|done].
  intros [= <-]. split; [done|by exists i].
Qed.

(** What the tables are after a pull credential was asked for. *)
Definition pull_step (now : Z) (secret : option string) (namespace : string) (t t' : spec) (password : string) : Prop :=
  (t' = t ∧ spec_verify t namespace password = true) ∨
  (secret = Some password ∧ t' = spec_step (OpIssue now secret namespace) t).

Lemma spec_verify_issued now password namespace t :
  ValidNamespace namespace = true →
  spec_verify (spec_step (OpIssue now (Some password) namespace) t) namespace password = true.
Proof.
  intros Hns. unfold spec_verify. simpl. rewrite lookup_insert_eq, Hns. simpl. by rewrite bool_decide_eq_true_2.
Qed.

Lemma Issue_password now secret namespace s password s' :
  Issue now secret namespace s = (Ok password, s') → secret = Some password.
Proof.
  unfold Issue. destruct (ValidNamespace namespace); [|done]. destruct secret as [p|]; [|done]. simpl.
  destruct (Marshal_record _); [|done]. destruct (Update _ s) as [[[]|e] s1]; [|done]. by intros [= <- <-].
Qed.

Lemma issue_new_refines now secret namespace s t r s' :
  ValidNamespace namespace = true → represents s t → issue_new deadline now secret namespace s = (r, s') →
  match r with
  | Err _ => s' = s
  | Ok (username, password) =>
      username = namespace ∧ secret = Some password ∧ represents s' (spec_step (OpIssue now secret namespace) t)
  end.
Proof.
  intros Hns Hrep. unfold issue_new. destruct (Issue now secret namespace s) as [r1 s1] eqn:Eissue.
  assert (step (OpIssue now secret namespace) s = (result_map (λ _, tt) r1, s1)) as Hstep
    by by (unfold step; rewrite Eissue).
  destruct (Issue_refines _ _ _ _ _ _ _ Hrep Hstep) as [(e & Hr & ->)|(Hr & _ & Hrep')];
    destruct r1 as [password|e1]; simpl in *; try done; intros [= <- <-]; [done|].
  split_and!; [done| |done]. by eapply Issue_password.
Qed.

(** The pull credential that is answered is the caller's and is valid.  On a store that
    represents the tables, [IssuePullCredential] either fails and changes nothing, or
    answers with the caller's namespace, a valid one, and a password that verifies for it
    afterwards: the one that the caller had, if it verified, and then nothing changed; or
    a new one, and then the credential of that namespace, and no other, was replaced. *)
Theorem IssuePullCredential_exact now secret id existing s t r s' :
  represents s t → IssuePullCredential deadline now secret id existing s = (r, s') →
  match r with
  | Err _ => s' = s
  | Ok (username, password) =>
      ValidNamespace username = true ∧ (∃ i, id = Some i ∧ username = pb.Namespace i) ∧
      ∃ t', represents s' t' ∧ spec_verify t' username password = true ∧
        if negb (bool_decide (existing = "")) && spec_verify t username existing
        then password = existing ∧ s' = s ∧ t' = t
        else secret = Some password ∧ t' = spec_step (OpIssue now secret username) t
  end.
Proof.
  intros Hrep. unfold IssuePullCredential.
  destruct (credentialNamespace id) as [namespace|e] eqn:Ens; [|by intros [= <- <-]].
  apply credentialNamespace_ok in Ens as [Hns Hid].
  assert (∀ r, issue_new deadline now secret namespace s = (r, s') →
    match r with
    | Err _ => s' = s
    | Ok (username, password) =>
        username = namespace ∧ secret = Some password ∧ represents s' (spec_step (OpIssue now secret username) t) ∧
        spec_verify (spec_step (OpIssue now secret username) t) username password = true
    end) as Hissue.
  { intros r1 Hnew. pose proof (issue_new_refines _ _ _ _ _ _ _ Hns Hrep Hnew) as Hr.
    destruct r1 as [[username password]|]; [|done]. destruct Hr as (-> & -> & Hrep').
    split_and!; [done..|]. by apply spec_verify_issued. }
  case_decide as Hempty.
  { intros Hnew. specialize (Hissue r Hnew). destruct r as [[username password]|]; [|done].
    destruct Hissue as (-> & Hsecret & Hrep' & Hverify). split; [done|]. split; [done|].
    eexists. split; [done|]. split; [done|]. by rewrite bool_decide_eq_true_2. }
  destruct (Verify namespace existing s) as [valid|e] eqn:Everify; [|by intros [= <- <-]].
  apply (Verify_refines _ _ _ _ _ Hrep) in Everify. destruct valid.
  - intros [= <- <-]. split; [done|]. split; [done|]. exists t. split; [done|]. split; [done|].
    by rewrite bool_decide_eq_false_2, <- Everify.
  - intros Hnew. specialize (Hissue r Hnew). destruct r as [[username password]|]; [|done].
    destruct Hissue as (-> & Hsecret & Hrep' & Hverify). split; [done|]. split; [done|].
    eexists. split; [done|]. split; [done|]. by rewrite <- Everify, andb_false_r.
Qed.

(** What a name of a build's output maps to: a tagged reference, in a repository of the
    namespace. *)
Definition maps_to (namespace name : string) (output : string * string) : Prop :=
  ∃ ref mapped, ParseRelative name = Some ref ∧ Tag ref ≠ "" ∧ ref_Digest ref = "" ∧
    mapped = BuildReference {| Identity.Namespace := namespace; Organization := ""; CommonName := "";
                               Anonymous := false |} ref ∧
    output = (ref_String mapped, Repository mapped) ∧
    HasPrefix (Repository mapped) (namespace +:+ "/") = true ∧ IsValidRepository (Repository mapped) = true.

Lemma build_output_maps namespace name output : build_output namespace name = Ok output → maps_to namespace name output.
Proof.
  unfold build_output. destruct (ParseRelative name) as [ref|] eqn:Eref; [|done].
  case_bool_decide as Hdigest; [|done]. case_bool_decide as Htag; [done|]. cbn [negb orb].
  destruct (IsValidRepository _) eqn:Evalid; [|done]. intros [= <-].
  exists ref. eexists. split_and!; try done. apply (repositoryFor_namespace {| Identity.Namespace := namespace |}).
Qed.

Lemma IssueBuild_answer now text1 text2 namespace repositories s username password s' :
  IssueBuild now text1 text2 namespace repositories s = (Ok (username, password), s') →
  username = "build_" +:+ text1 ∧ password = text2.
Proof.
  unfold IssueBuild. do 2 (case_if; [done|]). destruct (Marshal_buildRecord _); [|done].
  destruct (Update _ s) as [[[]|e] s1]; [|done]. by intros [= <- <- <-].
Qed.

(** C29: A build credential writes only where the build's names map, in the caller's namespace.
    On a store that represents the tables, [IssueBuildCredential] either fails and changes
    nothing, or every name was a tagged reference, the references that are answered are
    those the names map to, each in a repository of the caller's valid namespace, and the
    credential that was added verifies from now until it expires, for that namespace and
    exactly those repositories. *)
Theorem IssueBuildCredential_exact builds now text1 text2 id names s t r s' :
  represents s t → IssueBuildCredential deadline builds now text1 text2 id names s = (r, s') →
  match r with
  | Err _ => s' = s
  | Ok (username, password, references) =>
      ∃ i outputs, id = Some i ∧ ValidNamespace (pb.Namespace i) = true ∧ names ≠ [] ∧
        Forall2 (maps_to (pb.Namespace i)) names outputs ∧ references = outputs.*1 ∧
        let t' := spec_step (OpIssueBuild now text1 text2 (pb.Namespace i) (outputs.*2)) t in
        represents s' t' ∧
        ∀ later, (now ≤ later < now + BuildCredentialLifetime)%Z →
          spec_verify_build t' later username password = (pb.Namespace i, outputs.*2)
  end.
Proof.
  intros Hrep. unfold IssueBuildCredential.
  destruct (credentialNamespace id) as [namespace|e] eqn:Ens; [|by intros [= <- <-]].
  apply credentialNamespace_ok in Ens as [Hns (i & -> & ->)].
  destruct builds; cbn [negb]; [|by intros [= <- <-]]. case_decide as Hnames; [by intros [= <- <-]|].
  destruct (result_mapM _ names) as [outputs|e] eqn:Eoutputs; [|by intros [= <- <-]].
  apply result_mapM_ok in Eoutputs.
  destruct (IssueBuild now text1 text2 _ (outputs.*2) s) as [r1 s1] eqn:Eissue.
  assert (step (OpIssueBuild now text1 text2 (pb.Namespace i) (outputs.*2)) s = (result_map (λ _, tt) r1, s1)) as Hstep
    by by (unfold step; rewrite Eissue).
  destruct (IssueBuild_refines _ _ _ _ _ _ _ _ _ Hrep Hstep) as [(e & Hr & ->)|(Hr & _ & Hrep')];
    destruct r1 as [[username password]|e1]; simpl in Hr; try done; intros [= <- <-]; [done|].
  apply IssueBuild_answer in Eissue as [-> ->].
  exists i, outputs. split; [done|]. split; [done|]. split; [done|]. split.
  { eapply Forall2_impl; [exact Eoutputs|]. apply build_output_maps. }
  split; [done|]. split; [done|]. intros later Hlater. unfold spec_verify_build. simpl.
  rewrite lookup_insert_eq. simpl. rewrite bool_decide_eq_true_2 by done.
  by replace (later <? now + BuildCredentialLifetime)%Z with true by (symmetry; apply Z.ltb_lt; lia).
Qed.

(** Revocation is the caller's: on a store that represents the tables, a revocation fails
    and changes nothing, or removes the pull credential of the caller's own namespace, or
    the build credential that was named, which was of that namespace. *)
Theorem revocation_is_the_callers builds id username s t r s' :
  represents s t →
  (RevokePullCredential deadline id s = (r, s') →
     s' = s ∨ ∃ i, id = Some i ∧ represents s' (spec_step (OpRevoke (pb.Namespace i)) t)) ∧
  (RevokeBuildCredential deadline builds id username s = (r, s') →
     s' = s ∨ ∃ i, id = Some i ∧ represents s' (spec_step (OpRevokeBuild (pb.Namespace i) username) t) ∧
       ∀ b, PullStore.builds t !! username = Some b → PullStore.Namespace b = pb.Namespace i).
Proof.
  intros Hrep. unfold RevokePullCredential, RevokeBuildCredential.
  destruct (credentialNamespace id) as [namespace|e] eqn:Ens; [|split; intros [= <- <-]; by left].
  apply credentialNamespace_ok in Ens as [Hns (i & -> & ->)]. split.
  - destruct (Revoke _ s) as [r1 s1] eqn:Erevoke. intros [= _ <-].
    destruct (Revoke_refines _ _ _ _ _ Hrep Erevoke) as [(e & _ & ->)|(_ & _ & ?)]; [by left|right; by exists i].
  - destruct builds; cbn [negb]; [|intros [= _ <-]; by left].
    destruct (RevokeBuild _ username s) as [r1 s1] eqn:Erevoke. intros [= _ <-].
    destruct (RevokeBuild_refines _ _ _ _ _ _ Hrep Erevoke) as [(e & _ & ->)|(_ & (_ & _ & Hown) & ?)];
      [by left|right; exists i; by split_and!].
Qed.
End issued.

(** ** Witnesses *)

Definition demo_store_texts : StoreErrorText := {| error_text _ := "error" |}.
#[local] Existing Instances demo_store demo_store_laws demo_json demo_json_laws demo_ociref demo_digests
  demo_references demo_store_texts.

Lemma demo_empty_represents : represents (∅ : gmap string string) empty_spec.
Proof. split; intros k; cbn; rewrite !lookup_empty; constructor. Qed.

Definition demo_caller : pb.Identity :=
  {| pb.Namespace := "acme"; pb.Organization := ""; pb.CommonName := ""; pb.Anonymous := false |}.

Lemma IssuePullCredential_exact_witness :
  let issued := IssuePullCredential false 3 (Some "pw1") (Some demo_caller) "" (∅ : gmap string string) in
  issued.1 = Ok ("acme", "pw1") ∧
  (IssuePullCredential false 4 (Some "pw2") (Some demo_caller) "pw1" issued.2).1 = Ok ("acme", "pw1") ∧
  ValidNamespace "acme" = true.
Proof.
  intros issued. assert (issued.1 = Ok ("acme", "pw1")) as Hr by (vm_compute; reflexivity).
  split; [exact Hr|]. split; [vm_compute; reflexivity|].
  pose proof (IssuePullCredential_exact false 3 (Some "pw1") (Some demo_caller) "" ∅ empty_spec issued.1 issued.2
                demo_empty_represents (surjective_pairing _)) as Hexact.
  rewrite Hr in Hexact. exact (proj1 Hexact).
Defined.

Lemma IssueBuildCredential_exact_witness :
  let issued := IssueBuildCredential false true 3 "XY" "pw2" (Some demo_caller) ["app:1.0"] (∅ : gmap string string) in
  issued.1 = Ok ("build_XY", "pw2", ["acme/app:1.0"]) ∧
  ∃ i outputs, Some demo_caller = Some i ∧ Forall2 (maps_to (pb.Namespace i)) ["app:1.0"] outputs.
Proof.
  intros issued. assert (issued.1 = Ok ("build_XY", "pw2", ["acme/app:1.0"])) as Hr by (vm_compute; reflexivity).
  split; [exact Hr|].
  pose proof (IssueBuildCredential_exact false true 3 "XY" "pw2" (Some demo_caller) ["app:1.0"] ∅ empty_spec
                issued.1 issued.2 demo_empty_represents (surjective_pairing _)) as Hexact.
  rewrite Hr in Hexact. destruct Hexact as (i & outputs & Hid & _ & _ & Houtputs & _).
  exists i, outputs. split; [exact Hid|exact Houtputs].
Defined.

Lemma revocation_is_the_callers_witness :
  let issued := IssueBuildCredential false true 3 "XY" "pw2" (Some demo_caller) ["app:1.0"] (∅ : gmap string string) in
  (RevokeBuildCredential false true (Some demo_caller) "build_XY" issued.2).1 = Ok tt ∧
  (RevokePullCredential false (Some demo_caller) (∅ : gmap string string) = (Ok tt, ∅) →
   ∅ = (∅ : gmap string string) ∨
   ∃ i, Some demo_caller = Some i ∧ represents ∅ (spec_step (OpRevoke (pb.Namespace i)) empty_spec)).
Proof.
  intros issued. split; [vm_compute; reflexivity|].
  exact (proj1 (revocation_is_the_callers false true (Some demo_caller) "build_XY" ∅ empty_spec (Ok tt) ∅
                  demo_empty_represents)).
Defined.
