(* ===== verification/ImageUse.v ===== *)
(** * ImageUse: the images of a namespace and the containers that use them

    [core/translator/image.go], [image_list.go] and [image_prune.go]: listing images with
    the containers that use them, and removing and pruning those that are unused.  The images are asked of the registry (RegistryApi.v), the
    workloads of the Kubernetes API. *)

From S2P Require Import Prelude GoStrings Errors Filters Prog Identity Workload Oci Images.

Local Open Scope string_scope.

(** ** Commands *)

(** What is read of an inspected image: its digest, and the labels of its configuration
    if it has one. *)
Record inspected_image := { img_ID : string; img_Labels : option smap }.

Inductive ucmd : Type → Type :=
| Cluster (X : Type) (c : cmd X) : ucmd X
| RegistryImages : ucmd (res (list Summary))
| RegistryInspect (name : string) : ucmd (res inspected_image)
| RegistryDelete (name : string) (options : RemoveOptions) : ucmd (res (list DeleteResponse)).

Abbreviation uproc := (prog ucmd).

(** A method of the translator that only talks to the cluster. *)
Definition on_cluster {A} : proc A → uproc A := embed Cluster.

(** ** Listing ([image_list.go]) *)

(** An image, and the count of the containers that use it. *)
Record used_image := { u_Summary :> Summary; u_Containers : Z }.

Definition pod_containers (w : containerWorkload) : list Container :=
  (Containers (Pod_Spec (Template w)) ++ InitContainers (Pod_Spec (Template w)))%list.

Definition workloadUsesImage (w : containerWorkload) (namespace : string) (digests : list string) : bool :=
  existsb (λ container, existsb (λ digest, HasSuffix (Ctr_Image container) ("/" +:+ namespace +:+ "/" +:+ digest))
                          digests) (pod_containers w).

(** The inner loop, on the count of the registry's answer, which has none. *)
Definition count_uses (workloads : list containerWorkload) (namespace : string) (image : Summary) : used_image :=
  {| u_Summary := image;
     u_Containers := fold_left (λ count w, if workloadUsesImage w namespace (sum_RepoDigests image)
                                           then add64 count 1 else count) workloads 0%Z |}.

Definition Images (ctx : context) : uproc (res (list used_image)) :=
  do? images <- call RegistryImages : uproc (res (list Summary));
  match ctx with
  | None => Ret (Err (Unauthenticated (errors_New "missing identity in context")))
  | Some id =>
      do? workloads <- on_cluster (listWorkloads (id_namespace id));
      Ret (Ok (map (count_uses workloads (id_namespace id)) images))
  end.

(** ** Removing ([image.go]) *)

Section removing.
Context `{Unicode} `{Digests} `{References}.

(** The largest of the counts of some images. *)
Definition max_containers (images : list used_image) : Z :=
  fold_left (λ count image, if (count <? u_Containers image)%Z then u_Containers image else count) images 0%Z.

Definition imageContainerCount (images : list used_image) (imageID : string) : Z :=
  max_containers (List.filter (λ image : used_image, bool_decide (sum_ID image = imageID)) images).

(** Whether two images have a digest reference in common. *)
Definition same_repository (target image : used_image) : bool :=
  existsb (λ digest, slices_Contains (sum_RepoDigests target) digest) (sum_RepoDigests image).

(** The inner loop: another reference in the repository keeps the digest available. *)
Fixpoint repository_count (target : used_image) (tag : string) (images : list used_image) (count : Z) : Z :=
  match images with
  | [] => count
  | image :: images =>
      if negb (bool_decide (sum_ID image = sum_ID target)) || negb (same_repository target image)
      then repository_count target tag images count
      else if existsb (λ other, negb (bool_decide (other = tag))) (sum_RepoTags image) then 0%Z
      else repository_count target tag images
             (if (count <? u_Containers image)%Z then u_Containers image else count)
  end.

(** Whether a name is an identifier of the image, perhaps shortened. *)
Definition names_by_id (imageID name : string) : bool :=
  let encoded := match Cut imageID ":" with (_, encoded, _) => encoded end in
  (has_char ":" name && HasPrefix imageID name) || ((4 <=? len name)%nat && HasPrefix encoded name).

(** The tag that a reference is in the listing. *)
Definition removal_tag (id : Identity) (ref : Reference) : string :=
  let ref := BuildReference id ref in
  TrimPrefix (Repository ref) (id_namespace id +:+ "/") +:+ ":" +:+ (if decide (Tag ref = "") then "latest" else Tag ref).

Definition imageRemovalContainerCount (images : list used_image) (imageID name : string) (id : Identity) : Z :=
  let name := TrimSpace name in
  if names_by_id imageID name then imageContainerCount images imageID
  else
    match ParseRelative name with
    | None => imageContainerCount images imageID
    | Some ref =>
        if negb (bool_decide (ref_Digest ref = "")) then imageContainerCount images imageID
        else
          let tag := removal_tag id ref in
          match List.find (λ target : used_image, bool_decide (sum_ID target = imageID) &&
                                                   slices_Contains (sum_RepoTags target) tag) images with
          | Some target => repository_count target tag images 0
          | None => imageContainerCount images imageID
          end
    end.

Definition ImageDelete (ctx : context) (name : string) (options : RemoveOptions) : uproc (res (list DeleteResponse)) :=
  do? image <- call (RegistryInspect name);
  do? images <- Images ctx;
  match ctx with
  | None => Ret (Err (Unauthenticated (errors_New "missing identity in context")))
  | Some id =>
      if (0 <? imageRemovalContainerCount images (img_ID image) name id)%Z
      then Ret (Err (Conflict (errors_New "unable to remove %s: image is used by %d container(s)")))
      else call (RegistryDelete name options)
  end.

(** ** Pruning ([image_prune.go]) *)

Context `{Regexp} `{TimeParse}.

(** What was removed so far, and how it ended. *)
Abbreviation pruned := (list DeleteResponse * option error)%type.

Definition no_options : RemoveOptions := {| remove_Platforms := []; remove_Force := false |}.

Fixpoint prune_tags (ctx : context) (tags : list string) (report : list DeleteResponse) : uproc pruned :=
  match tags with
  | [] => Ret (report, None)
  | tag :: tags =>
      do deleted <- ImageDelete ctx tag no_options;
      match deleted with
      | Err e => Ret (report, Some e)
      | Ok deleted => prune_tags ctx tags (report ++ deleted)%list
      end
  end.

(** [time.Unix(created, 0)], in nanoseconds since the zero time. *)
Definition created_at (created : Z) : Z := ((created + 62135596800) * 10 ^ 9)%Z.

(** Whether an image is left without looking at its labels. *)
Definition kept (images : list used_image) (before : option Z) (image : used_image) : bool :=
  (0 <? imageContainerCount images (sum_ID image))%Z || bool_decide (sum_RepoTags image = []) ||
  match before with
  | None => false
  | Some before => bool_decide (sum_Created image = 0%Z) || negb (created_at (sum_Created image) <? before)%Z
  end.

(** Whether the labels of an image are asked for, and whether they select it. *)
Definition by_labels (pruneFilters : Args) : bool :=
  (0 <? length (Get pruneFilters "label"))%nat || (0 <? length (Get pruneFilters "label!"))%nat.

Definition labels_select (pruneFilters : Args) (labels : smap) : bool :=
  MatchKVList pruneFilters "label" labels &&
  negb ((0 <? length (Get pruneFilters "label!"))%nat && MatchKVList pruneFilters "label!" labels).

(** The loop over the images; [images] is all of them. *)
Fixpoint prune_images (ctx : context) (pruneFilters : Args) (before : option Z) (images todo : list used_image)
    (report : list DeleteResponse) : uproc pruned :=
  match todo with
  | [] => Ret (report, None)
  | image :: todo =>
      if kept images before image then prune_images ctx pruneFilters before images todo report
      else
        do selected <-
          if by_labels pruneFilters then
            (do inspect <- call (RegistryInspect (default "" (head (sum_RepoTags image))));
             Ret (match inspect with
                  | Err e => Err e
                  | Ok inspect => Ok (labels_select pruneFilters (default ∅ (img_Labels inspect)))
                  end))
          else Ret (Ok true);
        match selected with
        | Err e => Ret (report, Some e)
        | Ok false => prune_images ctx pruneFilters before images todo report
        | Ok true =>
            do removed <- prune_tags ctx (sum_RepoTags image) report;
            let '(report, err) := removed in
            match err with
            | Some e => Ret (report, Some e)
            | None => prune_images ctx pruneFilters before images todo report
            end
        end
  end.

Definition accepted_filters : gmap string bool :=
  {["dangling" := true; "label" := true; "label!" := true; "until" := true]}.

(** [now] is the time that [time.Now] gives to [pruneBefore]. *)
Definition ImagePrune (ctx : context) (now : Z) (pruneFilters : Args) : uproc pruned :=
  match Validate pruneFilters accepted_filters with
  | Err e => Ret ([], Some (InvalidArgument (filter_error e)))
  | Ok _ =>
      match GetBoolOrDefault pruneFilters "dangling" true with
      | Err e => Ret ([], Some (InvalidArgument (filter_error e)))
      | Ok danglingOnly =>
          match pruneBefore now (Get pruneFilters "until") with
          | Err e => Ret ([], Some (InvalidArgument e))
          | Ok before =>
              if danglingOnly then Ret ([], None)
              else
                do images <- Images ctx;
                match images with
                | Err e => Ret ([], Some e)
                | Ok images => prune_images ctx pruneFilters before images images []
                end
          end
      end
  end.
End removing.
