(* ===== verification/ImageUseProps.v ===== *)
(** * ImageUseProps: images that containers use are not removed

    A removal is asked of the registry only directly after the images and the workloads of
    the caller's namespace were seen, and only when no container was seen to use a digest
    that would go; pruning removes only tags of images that were listed as unused and that
    its filters select. *)

From S2P Require Import Prelude GoStrings Errors Filters Prog Cluster Identity Workload Oci Images ImageUse ImageProps.

Local Open Scope string_scope.

(** ** Counting the containers of an image *)

(** The workloads that use an image. *)
Definition users (workloads : list containerWorkload) (namespace : string) (image : Summary) :
    list containerWorkload :=
  List.filter (λ w, workloadUsesImage w namespace (sum_RepoDigests image)) workloads.

Lemma count_uses_from workloads namespace digests : ∀ count,
  (0 ≤ count)%Z → (count + Z.of_nat (length workloads) < 2 ^ 63)%Z →
  fold_left (λ count w, if workloadUsesImage w namespace digests then add64 count 1 else count) workloads count =
  (count + Z.of_nat (length (List.filter (λ w, workloadUsesImage w namespace digests) workloads)))%Z.
Proof.
  induction workloads as [|w workloads IH]; intros count Hpos Hmax; simpl; [lia|].
  simpl in Hmax. destruct (workloadUsesImage w namespace digests); simpl.
  - unfold add64. rewrite wrap_signed_id by lia. rewrite IH by lia. lia.
  - rewrite IH by lia. lia.
Qed.

(** The count does not overflow: there are not 2^63 workloads. *)
Lemma count_uses_exact workloads namespace image :
  (Z.of_nat (length workloads) < 2 ^ 63)%Z →
  u_Containers (count_uses workloads namespace image) = Z.of_nat (length (users workloads namespace image)).
Proof. intros Hmax. unfold count_uses. simpl. rewrite count_uses_from by lia. done. Qed.

Section counts.
Context `{Unicode} `{Digests} `{References}.
Implicit Types (image target : used_image) (images : list used_image).

Lemma max_from images : ∀ count,
  let m := fold_left (λ count image, if (count <? u_Containers image)%Z then u_Containers image else count)
             images count in
  (count ≤ m)%Z ∧ ∀ image, image ∈ images → (u_Containers image ≤ m)%Z.
Proof.
  induction images as [|image images IH]; intros count; simpl.
  { split; [lia|]. intros image Hin. by apply not_elem_of_nil in Hin. }
  destruct (IH (if (count <? u_Containers image)%Z then u_Containers image else count)) as [Hge Hall].
  split.
  - destruct (Z.ltb_spec count (u_Containers image)); lia.
  - intros image' [->|Hin]%elem_of_cons; [|by apply Hall].
    destruct (Z.ltb_spec count (u_Containers image)); lia.
Qed.

Lemma imageContainerCount_bounds images imageID image :
  image ∈ images → sum_ID image = imageID → (u_Containers image ≤ imageContainerCount images imageID)%Z.
Proof.
  intros Hin Hid. unfold imageContainerCount, max_containers. apply (max_from _ 0%Z).
  apply list_elem_of_In, filter_In. split; [by apply list_elem_of_In|by apply bool_decide_eq_true].
Qed.

Lemma repository_count_bounds target tag images : ∀ count,
  (0 ≤ count)%Z →
  (∃ image other, image ∈ images ∧ sum_ID image = sum_ID target ∧ same_repository target image = true ∧
     other ∈ sum_RepoTags image ∧ other ≠ tag) ∨
  ((count ≤ repository_count target tag images count)%Z ∧
   ∀ image, image ∈ images → sum_ID image = sum_ID target → same_repository target image = true →
     (u_Containers image ≤ repository_count target tag images count)%Z).
Proof.
  induction images as [|image images IH]; intros count Hpos; simpl.
  { right. split; [lia|]. intros image Hin. by apply not_elem_of_nil in Hin. }
  destruct (negb (bool_decide (sum_ID image = sum_ID target)) || negb (same_repository target image)) eqn:Eother.
  - destruct (IH count Hpos) as [(i & other & Hin & ?)|[Hge Hall]].
    + left. exists i, other. split; [by right|done].
    + right. split; [done|]. intros i [->|Hin]%elem_of_cons Hid Hrepo; [|by apply Hall].
      by rewrite Hid, bool_decide_eq_true_2, Hrepo in Eother.
  - apply orb_false_iff in Eother as [Hid%negb_false_iff%bool_decide_eq_true Hrepo%negb_false_iff].
    destruct (existsb _ (sum_RepoTags image)) eqn:Etags.
    + left. apply existsb_true in Etags as (other & Hother & Hne%negb_true_iff%bool_decide_eq_false).
      exists image, other. split; [by left|done].
    + set (c := if (count <? u_Containers image)%Z then u_Containers image else count).
      assert (count ≤ c ∧ u_Containers image ≤ c)%Z as [Hc Hi]
        by (unfold c; destruct (Z.ltb_spec count (u_Containers image)); lia).
      destruct (IH c ltac:(lia)) as [(i & other & Hin & ?)|[Hge Hall]].
      * left. exists i, other. split; [by right|done].
      * right. split; [lia|]. intros i [->|Hin]%elem_of_cons ? ?; [lia|by apply Hall].
Qed.

(** ** What a removal may make unavailable *)

(** A name that is a tag of the image, which keeps the image under other tags; or which
    concerns the images of one repository. *)
Definition tagged_target (id : Identity) (name : string) (images : list used_image) (imageID tag : string)
    (target : used_image) : Prop :=
  ∃ ref, ParseRelative (TrimSpace name) = Some ref ∧ ref_Digest ref = "" ∧ tag = removal_tag id ref ∧
    target ∈ images ∧ sum_ID target = imageID ∧ tag ∈ sum_RepoTags target.

(** The images of which no container may remain: those of the identifier; unless the name
    is a tag, of the tag's repository only; and none if that has another tag. *)
Definition spared (P : used_image → Prop) (id : Identity) (name : string) (images : list used_image)
    (imageID : string) : Prop :=
  (∀ image, image ∈ images → sum_ID image = imageID → P image) ∨
  ∃ tag target, tagged_target id name images imageID tag target ∧
    ((∃ image other, image ∈ images ∧ sum_ID image = imageID ∧ same_repository target image = true ∧
        other ∈ sum_RepoTags image ∧ other ≠ tag) ∨
     ∀ image, image ∈ images → sum_ID image = imageID → same_repository target image = true → P image).

Lemma spared_mono (P Q : used_image → Prop) id name images imageID :
  (∀ image, image ∈ images → P image → Q image) →
  spared P id name images imageID → spared Q id name images imageID.
Proof.
  intros HPQ [Hall|(tag & target & Htarget & Hkept)]; [left; auto|].
  right. exists tag, target. split; [done|]. destruct Hkept as [?|Hall]; [by left|right; auto].
Qed.

Lemma imageRemovalContainerCount_spared id name images imageID :
  (imageRemovalContainerCount images imageID name id ≤ 0)%Z →
  spared (λ image, u_Containers image ≤ 0)%Z id name images imageID.
Proof.
  assert ((imageContainerCount images imageID ≤ 0)%Z →
          spared (λ image, u_Containers image ≤ 0)%Z id name images imageID) as Hall.
  { intros Hcount. left. intros image Hin Hid. pose proof (imageContainerCount_bounds _ _ _ Hin Hid). lia. }
  unfold imageRemovalContainerCount. destruct (names_by_id _ _); [done|].
  destruct (ParseRelative _) as [ref|] eqn:Eref; [|done].
  case_bool_decide as Hdigest; cbn [negb]; [|done].
  destruct (List.find _ images) as [target|] eqn:Etarget; [|done]. intros Hcount. right.
  apply find_some in Etarget as [Hin [Hid%bool_decide_eq_true Htag%bool_decide_eq_true]%andb_prop].
  apply list_elem_of_In in Hin. exists (removal_tag id ref), target. split; [by exists ref|]. rewrite <- Hid.
  destruct (repository_count_bounds target (removal_tag id ref) images 0 ltac:(lia)) as [Hother|[_ Hmax]];
    [by left|right]. intros image Himage Hsame Hrepo. specialize (Hmax image Himage Hsame Hrepo). lia.
Qed.
End counts.

(** ** Removals *)

(** No workload seen uses an image; there are not 2^63 of them. *)
Definition free_of (workloads : list containerWorkload) (namespace : string) (image : Summary) : Prop :=
  (Z.of_nat (length workloads) < 2 ^ 63)%Z →
  ∀ w, w ∈ workloads → workloadUsesImage w namespace (sum_RepoDigests image) = false.

Lemma unused_free workloads namespace image :
  (u_Containers (count_uses workloads namespace image) ≤ 0)%Z → free_of workloads namespace image.
Proof.
  intros Hcount Hmax w Hw. rewrite count_uses_exact in Hcount by done.
  destruct (workloadUsesImage w namespace (sum_RepoDigests image)) eqn:Euses; [|done].
  assert (In w (users workloads namespace image)) as Hin by (apply filter_In; split; [by apply list_elem_of_In|done]).
  destruct (users workloads namespace image); [done|]. simpl in Hcount. lia.
Qed.

(** In a namespace without Swarm services, whose Pods are not looked at, no Deployment runs
    an image and no Job of a container. *)
Definition unused_by (deployments : list Deployment) (jobs : list Job) (namespace : string) (image : Summary) : Prop :=
  (∀ d : Deployment, d ∈ deployments → mget (Labels d) "dink.io/swarm" = "") →
  (Z.of_nat (length deployments + length jobs) < 2 ^ 63)%Z →
  ∀ template,
    (∃ d : Deployment, d ∈ deployments ∧ template = dep_Template d) ∨
    (∃ j : Job, j ∈ jobs ∧ mget (Kube.Annotations j) "dink.io/docker-config" ≠ "" ∧ template = job_Template j) →
  ∀ container digest,
    container ∈ Containers (Pod_Spec template) ∨ container ∈ InitContainers (Pod_Spec template) →
    digest ∈ sum_RepoDigests image →
    HasSuffix (Ctr_Image container) ("/" +:+ namespace +:+ "/" +:+ digest) = false.

Lemma free_unused deployments jobs namespace image :
  free_of (workloads_of deployments jobs) namespace image → unused_by deployments jobs namespace image.
Proof.
  intros Hfree Hswarm Hmax template Htemplate container digest Hcontainer Hdigest.
  assert (∃ w, w ∈ workloads_of deployments jobs ∧ template = Template w) as (w & Hw & ->).
  { unfold workloads_of. destruct Htemplate as [(d & Hd & ->)|(j & Hj & Hann & ->)].
    - exists (deploymentWorkload d). split; [|done]. apply elem_of_app. left. apply list_elem_of_fmap_2.
      apply list_elem_of_filter. split; [by apply bool_decide_eq_true, Hswarm|done].
    - exists (jobWorkload j). split; [|done]. apply elem_of_app. right. apply list_elem_of_fmap_2.
      apply list_elem_of_filter. split; [by apply bool_decide_eq_true|done]. }
  assert (length (workloads_of deployments jobs) ≤ length deployments + length jobs)%nat as Hlength.
  { unfold workloads_of. rewrite length_app, !length_fmap. apply Nat.add_le_mono; apply length_filter. }
  specialize (Hfree ltac:(lia) w Hw). unfold workloadUsesImage in Hfree.
  destruct (HasSuffix _ _) eqn:Esuffix; [|done]. rewrite <- Hfree. symmetry. apply existsb_true.
  exists container. split.
  - unfold pod_containers. apply elem_of_app. naive_solver.
  - apply existsb_true. by exists digest.
Qed.

Section requests.
Context `{Unicode} `{Digests} `{References} `{Regexp} `{TimeParse} (id : Identity).

(** The images and the workloads of the namespace, seen one after the other. *)
Definition after_listing (images : list Summary) (deployments : list Deployment) (jobs : list Job)
    (h0 : history ucmd) : history ucmd :=
  Event _ (Cluster _ (KList KJob (id_namespace id) "")) (Ok jobs) ::
  Event _ (Cluster _ (KList KDeployment (id_namespace id) "")) (Ok deployments) ::
  Event _ RegistryImages (Ok images) :: h0.

Definition listed (images : list Summary) (deployments : list Deployment) (jobs : list Job) : list used_image :=
  map (count_uses (workloads_of deployments jobs) (id_namespace id)) images.

(** A removal directly follows the inspection of what the name names and the listing, in
    which no container uses what goes. *)
Definition removal_seen (name : string) (h : history ucmd) : Prop :=
  ∃ image images deployments jobs h0,
    h = after_listing images deployments jobs (Event _ (RegistryInspect name) (Ok image) :: h0) ∧
    spared (unused_by deployments jobs (id_namespace id)) id name
      (listed images deployments jobs) (img_ID image).

Definition reads_cluster {X} (c : cmd X) : Prop :=
  match c with KList _ ns _ => ns = id_namespace id | _ => False end.

Definition spares_used : guard (cmd:=ucmd) := λ h _ c,
  match c with
  | Cluster _ c => reads_cluster c
  | RegistryImages | RegistryInspect _ => True
  | RegistryDelete name _ => removal_seen name h
  end.

(** The records of the removals, in their order. *)
Definition deleted_by (e : event ucmd) : list DeleteResponse :=
  match e with
  | Event _ c x =>
      match c in ucmd X return X → list DeleteResponse with
      | RegistryDelete _ _ => λ r, match r with Ok l => l | Err _ => [] end
      | _ => λ _, []
      end x
  end.

Definition deleted_in (h : history ucmd) : list DeleteResponse := mjoin (deleted_by <$> reverse h).

Lemma deleted_in_cons e h : deleted_in (e :: h) = (deleted_in h ++ deleted_by e)%list.
Proof. unfold deleted_in. rewrite reverse_cons, fmap_app, join_app. simpl. by rewrite app_nil_r. Qed.

Lemma deleted_in_nothing e h : deleted_by e = [] → deleted_in (e :: h) = deleted_in h.
Proof. intros He. by rewrite deleted_in_cons, He, app_nil_r. Qed.

Lemma Images_wp G h :
  (∀ h X c, match c with Cluster _ c => reads_cluster c | RegistryImages => True | _ => False end → G h X c) →
  wp any_answer G (Images (Some id)) h (λ h' r, deleted_in h' = deleted_in h ∧
    ∀ used, r = Ok used → ∃ images deployments jobs,
      h' = after_listing images deployments jobs h ∧ used = listed images deployments jobs).
Proof.
  assert (∀ h' (e : error), deleted_in h' = deleted_in h →
    deleted_in h' = deleted_in h ∧ ∀ used, Err e = Ok used → ∃ images deployments jobs,
      h' = after_listing images deployments jobs h ∧ used = listed images deployments jobs) as Herr.
  { intros h' e ?. split; [done|]. by intros used. }
  intros HG. unfold Images. rewrite wp_bind_res, wp_call. split; [by apply HG|].
  intros [images|e] _; [|by apply Herr, deleted_in_nothing].
  rewrite wp_bind_res. simpl. split; [by apply HG|].
  intros [deployments|e] _; simpl; [|apply Herr; by rewrite !deleted_in_nothing].
  split; [by apply HG|].
  intros [jobs|e] _; simpl; [|apply Herr; by rewrite !deleted_in_nothing].
  split; [by rewrite !deleted_in_nothing|].
  intros used [= <-]. by exists images, deployments, jobs.
Qed.

Lemma ImageDelete_wp G name options h :
  (∀ h X c, match c with
            | Cluster _ c => reads_cluster c
            | RegistryImages => True
            | RegistryInspect n => n = name
            | RegistryDelete n o => n = name ∧ o = options ∧ removal_seen name h
            end → G h X c) →
  wp any_answer G (ImageDelete (Some id) name options) h (λ h' r,
    deleted_in h' = (deleted_in h ++ match r with Ok l => l | Err _ => [] end)%list).
Proof.
  intros HG. unfold ImageDelete. rewrite wp_bind_res, wp_call. split; [by apply HG|].
  intros [image|e] _; [|by rewrite deleted_in_cons].
  rewrite wp_bind_res. eapply wp_post; [|apply Images_wp; intros h1 X c Hc; apply HG; by destruct c].
  intros h1 [used|e] [Hd Hused]; [|by rewrite Hd, deleted_in_nothing, app_nil_r].
  destruct (Hused used eq_refl) as (images & deployments & jobs & -> & ->).
  destruct (Z.ltb_spec 0 (imageRemovalContainerCount (listed images deployments jobs) (img_ID image) name id))
    as [_|Hcount]; [by rewrite wp_ret, Hd, deleted_in_nothing, app_nil_r|].
  rewrite wp_call. split.
  - apply HG. split_and!; [done..|]. exists image, images, deployments, jobs, h. split; [done|].
    eapply spared_mono; [|by apply imageRemovalContainerCount_spared].
    intros u [summary [-> _]]%list_elem_of_fmap Hu. by apply free_unused, (unused_free _ _ summary).
  - intros r _. by rewrite deleted_in_cons, Hd, deleted_in_nothing.
Qed.

(** ** Pruning *)

(** What was listed of an image when the pruning began: none of the entries with its digest
    is used, it was created before the time asked for, and its labels select it. *)
Definition prunable (pruneFilters : Args) (before : option Z) (listing : history ucmd) (h : history ucmd)
    (image : used_image) : Prop :=
  ∃ images deployments jobs h0,
    listing = after_listing images deployments jobs h0 ∧
    image ∈ listed images deployments jobs ∧
    (∀ other : used_image, other ∈ listed images deployments jobs → sum_ID other = sum_ID image →
       unused_by deployments jobs (id_namespace id) other) ∧
    (∀ time, before = Some time →
       sum_Created image ≠ 0 ∧ (sum_Created image + 62135596800) * 1000000000 < time)%Z ∧
    (Get pruneFilters "label" ≠ [] ∨ Get pruneFilters "label!" ≠ [] → ∃ inspected name labels,
       Event _ (RegistryInspect name) (Ok inspected) ∈ h ∧ head (sum_RepoTags image) = Some name ∧
       labels = match img_Labels inspected with Some labels => labels | None => ∅ end ∧
       MatchKVList pruneFilters "label" labels = true ∧
       (Get pruneFilters "label!" ≠ [] → MatchKVList pruneFilters "label!" labels = false)).

(** The requests of a pruning: only tags of prunable images are removed, and each as
    [ImageDelete] removes it. *)
Definition prunes (pruneFilters : Args) (before : option Z) : guard (cmd:=ucmd) := λ h _ c,
  match c with
  | Cluster _ c => reads_cluster c
  | RegistryImages | RegistryInspect _ => True
  | RegistryDelete name options =>
      options = no_options ∧ removal_seen name h ∧
      ∃ listing image, listing `suffix_of` h ∧ prunable pruneFilters before listing h image ∧
        name ∈ sum_RepoTags image
  end.

Lemma prunable_later pruneFilters before listing h h' image :
  h `suffix_of` h' → prunable pruneFilters before listing h image → prunable pruneFilters before listing h' image.
Proof.
  intros Hs (images & deployments & jobs & h0 & ? & ? & ? & ? & Hlabels).
  exists images, deployments, jobs, h0. split_and!; [done..|]. intros Hby.
  destruct (Hlabels Hby) as (inspected & name & labels & Hin & ?).
  exists inspected, name, labels. split; [by eapply event_later|done].
Qed.

(** What the labels decide. *)
Lemma labels_select_spec pruneFilters labels :
  labels_select pruneFilters labels = true ↔
  MatchKVList pruneFilters "label" labels = true ∧
  (Get pruneFilters "label!" ≠ [] → MatchKVList pruneFilters "label!" labels = false).
Proof.
  unfold labels_select. rewrite andb_true_iff, negb_true_iff. f_equiv.
  destruct (Get pruneFilters "label!") as [|x l]; simpl; [by split|]. split; [done|]. intros Hx. by apply Hx.
Qed.

Lemma by_labels_spec pruneFilters :
  Get pruneFilters "label" ≠ [] ∨ Get pruneFilters "label!" ≠ [] → by_labels pruneFilters = true.
Proof.
  unfold by_labels. destruct (Get pruneFilters "label"), (Get pruneFilters "label!"); simpl; naive_solver.
Qed.

Lemma prune_tags_wp pruneFilters before listing image tags : ∀ report h,
  listing `suffix_of` h → prunable pruneFilters before listing h image → tags ⊆ sum_RepoTags image →
  wp any_answer (prunes pruneFilters before) (prune_tags (Some id) tags report) h (λ h' r, ∃ new,
    fst r = (report ++ new)%list ∧ deleted_in h' = (deleted_in h ++ new)%list).
Proof.
  induction tags as [|tag tags IH]; intros report h Hlisting Himage Htags; cbn [prune_tags].
  { exists []. by rewrite !app_nil_r. }
  rewrite wp_bind. eapply wp_mono; [| |apply wp_suffix_guard, wp_suffix, (ImageDelete_wp (λ h X c,
    match c with
    | Cluster _ c => reads_cluster c
    | RegistryImages | RegistryInspect _ => True
    | RegistryDelete n o => n = tag ∧ o = no_options ∧ removal_seen tag h
    end))].
  - intros h1 X c [Hc Hs]. destruct c; try done. destruct Hc as (-> & -> & Hseen).
    split_and!; [done..|]. exists listing, image.
    split_and!; [by etrans|by eapply prunable_later|apply Htags; by left].
  - intros h1 [deleted|e] [Hd Hs]; rewrite ?wp_ret.
    + eapply wp_post; [|apply IH; [by etrans|by eapply prunable_later|]].
      * intros h2 r (new & Hr & Hd2). exists (deleted ++ new)%list. split.
        -- by rewrite Hr, <- app_assoc.
        -- by rewrite Hd2, Hd, <- app_assoc.
      * intros other Hother. apply Htags. by right.
    + exists []. by rewrite Hd, !app_nil_r.
  - intros h1 X c Hc. by destruct c.
Qed.

(** An image that is not left out is prunable, once its labels select it. *)
Lemma kept_prunable pruneFilters before images deployments jobs h0 h image :
  kept (listed images deployments jobs) before image = false →
  image ∈ listed images deployments jobs →
  (by_labels pruneFilters = true → ∃ inspected name,
     Event _ (RegistryInspect name) (Ok inspected) ∈ h ∧ head (sum_RepoTags image) = Some name ∧
     labels_select pruneFilters (default ∅ (img_Labels inspected)) = true) →
  prunable pruneFilters before (after_listing images deployments jobs h0) h image.
Proof.
  intros [[Hcount Htags]%orb_false_iff Hbefore]%orb_false_iff Hin Hlabels.
  apply Z.ltb_ge in Hcount.
  exists images, deployments, jobs, h0. split_and!; [done..| | |].
  3: { intros (inspected & name & ? & ? & Hselect%labels_select_spec)%by_labels_spec%Hlabels.
       exists inspected, name, (default ∅ (img_Labels inspected)). by destruct Hselect. }
  - intros other Hother Hid. pose proof (imageContainerCount_bounds _ _ _ Hother Hid) as Hle.
    apply list_elem_of_fmap in Hother as [summary [-> _]]. apply free_unused, (unused_free _ _ summary). lia.
  - intros time ->. apply orb_false_iff in Hbefore as [Hzero%bool_decide_eq_false Hold].
    apply negb_false_iff, Z.ltb_lt in Hold. done.
Qed.

Lemma prune_images_wp pruneFilters before images deployments jobs h0 todo : ∀ report h,
  let listing := after_listing images deployments jobs h0 in
  listing `suffix_of` h → todo ⊆ listed images deployments jobs →
  wp any_answer (prunes pruneFilters before)
    (prune_images (Some id) pruneFilters before (listed images deployments jobs) todo report) h (λ h' r, ∃ new,
      fst r = (report ++ new)%list ∧ deleted_in h' = (deleted_in h ++ new)%list).
Proof.
  induction todo as [|image todo IH]; intros report h listing Hs Htodo; cbn [prune_images].
  { exists []. by rewrite !app_nil_r. }
  assert (todo ⊆ listed images deployments jobs) as Hrest by (intros i Hi; apply Htodo; by right).
  destruct (kept _ _ _) eqn:Ekept; [by apply IH|].
  assert (image ∈ listed images deployments jobs) as Hin by (apply Htodo; by left).
  (* The image is removed in a history in which its labels select it. *)
  assert (∀ h1, listing `suffix_of` h1 → deleted_in h1 = deleted_in h → prunable pruneFilters before listing h1 image →
    wp any_answer (prunes pruneFilters before)
      (do removed <- prune_tags (Some id) (sum_RepoTags image) report;
       let '(report, err) := removed in
       match err with
       | Some e => Ret (report, Some e)
       | None => prune_images (Some id) pruneFilters before (listed images deployments jobs) todo report
       end) h1 (λ h' r, ∃ new, fst r = (report ++ new)%list ∧ deleted_in h' = (deleted_in h ++ new)%list)) as Hremove.
  { intros h1 Hs1 Hd Hprunable. rewrite wp_bind.
    eapply wp_post; [|by apply wp_suffix, (prune_tags_wp _ _ listing image)].
    intros h2 [report' err] [(new & Hr & Hd2) Hs2]. simpl in Hr. subst report'. rewrite Hd in Hd2.
    destruct err as [e|]; [by exists new|].
    eapply wp_post; [|apply IH; [by etrans|done]].
    intros h3 r (new' & Hr & Hd3). exists (new ++ new')%list.
    rewrite Hr, Hd3, Hd2, <- !app_assoc. done. }
  destruct (by_labels pruneFilters) eqn:Eby.
  2: { apply Hremove; [done..|]. by apply kept_prunable; rewrite ?Eby. }
  rewrite wp_bind, wp_bind, wp_call. split; [done|]. intros [inspected|e] _; rewrite wp_ret.
  2: { exists []. rewrite deleted_in_nothing, !app_nil_r by done. done. }
  destruct (labels_select _ _) eqn:Eselect.
  - apply Hremove; [by apply suffix_cons_r|by apply deleted_in_nothing|]. apply kept_prunable; [done..|]. intros _.
    exists inspected, (default "" (head (sum_RepoTags image))). split_and!; [by left| |done].
    apply orb_false_iff in Ekept as [[_ Htags%bool_decide_eq_false]%orb_false_iff _].
    by destruct (sum_RepoTags image).
  - eapply wp_post; [|apply IH; [by apply suffix_cons_r|done]]. intros h1 r (new & Hr & Hd).
    exists new. rewrite Hr, Hd, deleted_in_nothing by done. done.
Qed.

(** C32: Pruning, whatever the registry and the cluster answer and whoever acts meanwhile, asks
    only for the removal of tags of images that its own listing shows in no container of
    the namespace, that were created before the time asked for, and whose labels, as
    inspected, select them; and each directly after a new listing in which no container
    uses the digests that go with the tag.  (Listings with Deployments of Swarm services
    are not spoken of: what only those run is not seen.)  What is reported as removed is
    exactly what the registry answered of the removals that succeeded, in their order,
    whether or not the pruning fails midway; of one that fails it answers nothing. *)
Theorem pruning_spares_used now pruneFilters h h' r :
  exec (ImagePrune (Some id) now pruneFilters) h h' r →
  (∃ before, pruneBefore now (Get pruneFilters "until") = Ok before ∧
     GetBoolOrDefault pruneFilters "dangling" true = Ok false ∧
     guarded (prunes pruneFilters before) h h' ∧ deleted_in h' = (deleted_in h ++ fst r)%list) ∨
  (h' = h ∧ fst r = []).
Proof.
  intros Hexec. unfold ImagePrune in Hexec.
  destruct (Validate _ _); [|by right; apply exec_inv in Hexec as [-> ->]].
  destruct (GetBoolOrDefault _ _ _) as [dangling|]; [|by right; apply exec_inv in Hexec as [-> ->]].
  destruct (pruneBefore _ _) as [before|]; [|by right; apply exec_inv in Hexec as [-> ->]].
  destruct dangling; [by right; apply exec_inv in Hexec as [-> ->]|].
  left. exists before. split; [done|]. split; [done|]. apply_wp Hexec.
  rewrite wp_bind. eapply wp_post; [|apply (Images_wp (prunes pruneFilters before))].
  2: { intros h1 X c Hc. by destruct c. }
  intros h1 [used|e] [Hd Hused]; [|by rewrite wp_ret, Hd, app_nil_r].
  destruct (Hused used eq_refl) as (images & deployments & jobs & -> & ->).
  eapply wp_post; [|by apply (prune_images_wp _ before images deployments jobs h)].
  intros h2 r' (new & -> & ->). by rewrite Hd.
Qed.
End requests.

(** ** Concrete inputs *)

#[local] Existing Instances ascii_unicode demo_digests demo_references.

(** Times are written in seconds. *)
Definition demo_regexp : Regexp := {| MatchString pattern s := Some (bool_decide (pattern = s)) |}.
Definition demo_time : TimeParse := {|
  Parse_RFC3339Nano s := if bool_decide (s = "2024") then Some (created_at 1704067200) else None;
  ParseFloat_seconds _ := None;
  ParseDuration _ := None
|}.
#[local] Existing Instances demo_regexp demo_time.

Definition demo_summary (tag digest : string) (created : Z) : Summary :=
  {| sum_RepoTags := [tag]; sum_RepoDigests := [(Cut tag ":").1.1 +:+ "@" +:+ digest]; sum_Created := created;
     sum_ID := digest; sum_Descriptor := None; sum_Size := 40; sum_Manifests := [] |}.

(** A Deployment whose container runs an image. *)
Definition running (image : string) (d : Deployment) : Deployment :=
  let container := {| Ctr_Name := "main"; Ctr_Image := image; Ctr_Command := []; Ctr_Args := [];
    Ctr_WorkingDir := ""; Ctr_Ports := []; Ctr_Env := []; Ctr_Resources := {| Requests := ∅; Limits := ∅ |};
    Ctr_VolumeMounts := []; Ctr_ReadinessProbe := None; Ctr_TTY := false; Ctr_Stdin := false;
    Ctr_ImagePullPolicy := "Always"; Ctr_SecurityContext := None |} in
  dep_set_template {| Pod_Labels := ∅; Pod_Annotations := ∅;
    Pod_Spec := {| HostNetwork := false; DNSPolicy := ""; Volumes := []; ImagePullSecrets := [];
      Containers := [container]; NodeAffinity := None; Tolerations := []; RestartPolicy := "";
      Hostname := ""; HostAliases := []; PodDNSConfig := None; TerminationGracePeriodSeconds := None;
      Sysctls := []; InitContainers := [] |} |} d.

(** A registry and a cluster: an image in use, an old one, and a new one. *)
Section serving.
Context (deployments : list Deployment).

Definition serve_images X (c : ucmd X) (s : unit) : X * unit :=
  (match c in ucmd X return X with
   | Cluster _ c =>
       match c in cmd X return X with
       | KList KDeployment _ _ => Ok deployments
       | KList _ _ _ => Ok []
       | c => (handle _ c empty_cluster).1
       end
   | RegistryImages => Ok [demo_summary "app:1.0" "sha256:abcd" 1600000000;
                           demo_summary "base:old" "sha256:beef" 1600000000;
                           demo_summary "base:new" "sha256:cafe" 1800000000]
   | RegistryInspect name =>
       Ok {| img_ID := if bool_decide (name = "app:1.0") then "sha256:abcd" else "sha256:beef";
             img_Labels := Some {["tier" := "base"]} |}
   | RegistryDelete name _ => Ok [Untagged name]
   end, s).
End serving.

Definition demo_prune : Args :=
  NewArgs [Arg "dangling" "false"; Arg "until" "2024"; Arg "label" "tier=base"].

(** Only the old image goes. *)
Lemma pruning_spares_used_witness :
  let o := run (serve_images [running "pull.dink/acme/app@sha256:abcd" (sample_deployment "acme" "web" "3f" 1)])
               (ImagePrune (Some demo_identity) 0 demo_prune) [] tt in
  fst o.1.1 = [Untagged "base:old"] ∧
  ∃ before, guarded (prunes demo_identity demo_prune before) [] o.1.2 ∧
            deleted_in o.1.2 = [Untagged "base:old"].
Proof.
  intros o. split; [by vm_compute|].
  destruct (pruning_spares_used demo_identity 0 demo_prune [] o.1.2 o.1.1 (run_exec _ _ _ _))
    as [(before & _ & _ & Hguarded & Hdeleted)|[Hnothing _]]; [|by vm_compute in Hnothing].
  exists before. split; [done|]. rewrite Hdeleted. by vm_compute.
Defined.

(** The Deployment of a Swarm service is not among the workloads, so that the image that
    its Pods run is pruned. *)
Example swarm_image_is_pruned :
  let service := dep_set_meta (meta_set_labels {[swarmKindLabel := "service"]} (sample_meta "acme" "shop" "5e"))
                   (running "pull.dink/acme/app@sha256:abcd" (sample_deployment "acme" "shop" "5e" 1)) in
  fst (run (serve_images [service]) (ImagePrune (Some demo_identity) 0 (NewArgs [Arg "dangling" "false"; Arg "until" "2024"]))
         [] tt).1.1 = [Untagged "app:1.0"; Untagged "base:old"].
Proof. by vm_compute. Qed.
