(* ===== verification/TransferProps.v ===== *)
(** * TransferProps: the order in which manifests are pushed

    Whatever is transferred, a manifest is pushed only after everything it names: its
    blobs were copied before, and the manifests of an index were pushed before; a tag is
    given in the end, only to the manifest that was asked for.  The registries' answers
    are assumed to be addressed by content ([faithful]). *)

From S2P Require Import Prelude GoStrings Errors Prog Identity Oci Images ImageProps Transfer.

Local Open Scope string_scope.

Section transfer.
Context `{Unicode} `{Digests} `{References} `{ManifestJSON} `{ConfigJSON} `{Platforms}.

(** ** What the registries answer *)

(** What a manifest lists as layers and configuration are no manifests, and an index is
    said to be one. *)
Definition consistent (desc : Descriptor) (m : IndexOrManifest) : Prop :=
  (isIndex (iom_MediaType m) = true → isIndex (MediaType desc) = true) ∧
  ∀ b, b ∈ (Layers m ++ option_list (Config m))%list → is_blob b = true.

(** A manifest read by its digest has it, and is consistent; a tag has a digest. *)
Definition faithful : rely (cmd:=icmd) := λ _ X c,
  match c in icmd X return X → Prop with
  | GetManifest _ _ digest => λ r, ∀ desc, r = Ok desc →
      Digest desc = digest ∧ ∀ m, readIndexOrManifest (Data desc) = Ok m → consistent desc m
  | ResolveManifest _ _ digest => λ r, ∀ desc, r = Ok desc → Digest desc = digest
  | ResolveTag _ _ _ => λ r, ∀ desc, r = Ok desc → Digest desc ≠ ""
  | _ => λ _, True
  end.

Context (R : rely (cmd:=icmd)) (HR : ∀ h X c x, R h X c x → faithful h X c x).

Definition reads_from (s : side) (repo : string) : guard (cmd:=icmd) := λ _ _ c,
  match c with
  | GetManifest s' r _ | ResolveBlob s' r _ | Referrers s' r _ => s' = s ∧ r = repo
  | CtxErr => True
  | _ => False
  end.

(** ** Orders in which to push *)

Section order.
(** What a manifest names that is to be there, and what is known not to be there. *)
Context (names : string → string → list Descriptor) (missing : history icmd → string → Prop).

Definition same_digest (x b : Descriptor) : Prop := Digest b = Digest x.

Definition complete (h : history icmd) (l l1 : list Descriptor) (d : Descriptor) : Prop :=
  ∀ x, x ∈ names (MediaType d) (Data d) →
    (∃ b, b ∈ l ∧ is_blob b = true ∧ same_digest x b) ∨
    (∃ m, m ∈ l1 ∧ is_blob m = false ∧ same_digest x m) ∨ missing h (Digest x).

(** Each manifest comes after those it names. *)
Definition well_ordered (h : history icmd) (l : list Descriptor) : Prop :=
  ∀ l1 d l2, l = (l1 ++ d :: l2)%list → is_blob d = false → complete h l l1 d.

Context (missing_mono : ∀ h h' d, h `suffix_of` h' → missing h d → missing h' d).

Lemma complete_mono h h' l l' l1 l1' d :
  h `suffix_of` h' → l ⊆ l' → l1 ⊆ l1' → complete h l l1 d → complete h' l' l1' d.
Proof.
  intros Hs Hl Hl1 Hc x Hx. destruct (Hc x Hx) as [(b & ? & ?)|[(m & ? & ?)|?]];
    [left; exists b|right; left; exists m|right; right]; eauto.
Qed.

Lemma well_ordered_mono h h' l : h `suffix_of` h' → well_ordered h l → well_ordered h' l.
Proof. intros Hs Hl l1 d l2 Heq Hd. eapply complete_mono; [done..|by eapply Hl]. Qed.

Lemma well_ordered_app h l l' : well_ordered h l → well_ordered h l' → well_ordered h (l ++ l')%list.
Proof using missing_mono.
  clear R HR.
  intros Hl Hl' l1 d l2 Heq Hd. apply app_eq_inv in Heq as [(k & -> & Heq)|(k & -> & Heq)].
  - destruct k as [|d' k]; simplify_list_eq.
    + eapply complete_mono; [done|..|by apply (Hl' [] d l2)]; set_solver.
    + eapply complete_mono; [done|..|by eapply Hl]; set_solver.
  - eapply complete_mono; [done|..|by eapply (Hl' k)]; set_solver.
Qed.

Lemma well_ordered_snoc h l d :
  well_ordered h l → (is_blob d = false → complete h (l ++ [d])%list l d) → well_ordered h (l ++ [d])%list.
Proof using missing_mono.
  clear R HR.
  intros Hl Hd l1 d' l2 Heq Hd'. apply app_eq_inv in Heq as [(k & -> & Heq)|(k & -> & Heq)].
  - destruct k as [|? k]; simplify_list_eq; [by apply Hd|].
    eapply complete_mono; [done|..|by eapply Hl]; set_solver.
  - destruct k as [|? k]; simplify_list_eq; [by apply Hd|].
    by destruct k.
Qed.

Lemma well_ordered_blobs h l : (∀ b, b ∈ l → is_blob b = true) → well_ordered h l.
Proof. intros Hl l1 d l2 -> Hd. rewrite (Hl d) in Hd; [done|]. apply elem_of_app. right. by left. Qed.

(** ** Pushing manifests *)

(** Something is in a repository: it was copied there, or pushed there. *)
Definition published (to : side) (repo : string) (h : history icmd) (digest : string) : Prop :=
  (∃ from src blobs copied b, Event _ (CopyBlobs from to src repo blobs) (Ok copied) ∈ h ∧
     b ∈ blobs ∧ Digest b = digest) ∨
  (∃ data mt tags, Event _ (PushManifest to repo data mt digest tags) (Ok tt) ∈ h).

(** A manifest may be pushed after all it names, and only the one that the reference is
    for gets its tag. *)
Definition may_push (to : side) (ref : Reference) (h : history icmd) (repo data mt digest : string)
    (tags : list string) : Prop :=
  repo = Repository ref ∧ data ≠ "" ∧
  (∀ x, x ∈ names mt data → published to repo h (Digest x) ∨ missing h (Digest x)) ∧
  (tags = [] ∨ tags = [Tag ref] ∧ digest = ref_Digest ref).

Definition pushes (to : side) (ref : Reference) : guard (cmd:=icmd) := λ h _ c,
  match c with
  | PushManifest s repo data mt digest tags => s = to ∧ may_push to ref h repo data mt digest tags
  | _ => False
  end.

Definition pushed (to : side) (ref : Reference) (h : history icmd) (m : Descriptor) : Prop :=
  Event _ (PushManifest to (Repository ref) (Data m) (MediaType m) (Digest m)
             (if decide (ref_Digest ref = Digest m)
              then if decide (Tag ref = "") then [] else [Tag ref] else [])) (Ok tt) ∈ h.

Lemma elem_of_blobs b l : b ∈ blobsFromDescriptors l ↔ b ∈ l ∧ is_blob b = true.
Proof. unfold blobsFromDescriptors. by rewrite !list_elem_of_In, filter_In. Qed.

Lemma complete_published to ref from src copied h l l1 d :
  complete h l l1 d →
  Event _ (CopyBlobs from to src (Repository ref) (blobsFromDescriptors l)) (Ok copied) ∈ h →
  (∀ m, m ∈ l1 → is_blob m = false → pushed to ref h m) →
  ∀ x, x ∈ names (MediaType d) (Data d) →
    published to (Repository ref) h (Digest x) ∨ missing h (Digest x).
Proof.
  intros Hc Hcopy Hpushed x Hx. destruct (Hc x Hx) as [(b & Hb & Hblob & Hd)|[(m & Hm & Hman & Hd)|Hmis]];
    [left; left|left; right|by right].
  - exists from, src, (blobsFromDescriptors l), copied, b. split_and!; [done|by apply elem_of_blobs|done].
  - specialize (Hpushed m Hm Hman). unfold pushed in Hpushed. rewrite Hd in Hpushed. eauto.
Qed.

Lemma pushManifests_wp (R' : rely) to ref from src copied l : ∀ l2 l1 h,
  l = (l1 ++ l2)%list → well_ordered h l →
  Event _ (CopyBlobs from to src (Repository ref) (blobsFromDescriptors l)) (Ok copied) ∈ h →
  (∀ m, m ∈ l1 → is_blob m = false → pushed to ref h m) →
  wp R' (pushes to ref) (pushManifests to ref l2) h
    (λ h' r, h `suffix_of` h' ∧ (r = Ok tt → ∀ m, m ∈ l → is_blob m = false → pushed to ref h' m)).
Proof.
  intros l2. induction l2 as [|d l2 IH]; intros l1 h Heq Hord Hcopy Hpushed; cbn [pushManifests].
  { split; [done|]. intros _. rewrite Heq, app_nil_r. exact Hpushed. }
  assert (l = ((l1 ++ [d]) ++ l2)%list) as Heq' by by rewrite Heq, <- app_assoc.
  destruct (is_blob d) eqn:Hd.
  { apply (IH (l1 ++ [d])%list); [done..|]. intros m [Hm| ->%list_elem_of_singleton]%elem_of_app Hman;
      [by apply Hpushed|by rewrite Hd in Hman]. }
  rewrite wp_bind_res. unfold pushManifest.
  assert (Repository (if decide (ref_Digest ref = Digest d) then ref else with_Tag ref "") = Repository ref)
    as -> by by destruct (decide _).
  destruct (decide (Data d = "")) as [|Hdata]; [by split|]. rewrite wp_bind, wp_call. split.
  { split; [done|]. split_and!; [done..| |].
    - eapply complete_published; [by eapply Hord|done|done].
    - destruct (decide (ref_Digest ref = Digest d)); simpl; [|by left].
      destruct (decide (Tag ref = "")); [by left|by right]. }
  intros [[]|e] _; rewrite wp_ret; [|split; [by apply suffix_cons_r|done]].
  eapply wp_post; [|apply (IH (l1 ++ [d])%list); [done|..]].
  - intros h' r [Hs Hr]. split; [etrans; [|exact Hs]; by apply suffix_cons_r|done].
  - eapply well_ordered_mono; [|done]. by apply suffix_cons_r.
  - by right.
  - intros m [Hm| ->%list_elem_of_singleton]%elem_of_app Hman; [right; by apply Hpushed|].
    unfold pushed. destruct (decide (ref_Digest ref = Digest d)); by left.
Qed.

(** Copying the blobs of a list, and then pushing its manifests. *)
Definition publishes (from to : side) (src ref : Reference) : guard (cmd:=icmd) := λ h X c,
  match c with
  | CopyBlobs f t s repo _ => f = from ∧ t = to ∧ s = Repository src ∧ repo = Repository ref
  | _ => pushes to ref h X c
  end.

Lemma copy_push_wp {B} (R' : rely) (G : guard) from to src ref l h (k : bool → iproc (ires B)) Q :
  well_ordered h l →
  (∀ h' X c, h `suffix_of` h' → publishes from to src ref h' X c → G h' X c) →
  (∀ e h', h `suffix_of` h' → Q h' (Err e)) →
  (∀ ok h', h `suffix_of` h' → (∀ m, m ∈ l → is_blob m = false → pushed to ref h' m) → wp R' G (k ok) h' Q) →
  wp R' G (do? ok <- copyBlobs from to src ref l; do? _ <- pushManifests to ref l; k ok) h Q.
Proof.
  intros Hord HG Herr Hk. rewrite wp_bind_res. unfold copyBlobs. rewrite wp_call. split; [by apply HG|].
  intros [ok|e] _; [|apply Herr; by apply suffix_cons_r]. rewrite wp_bind_res.
  set (h0 := Event _ _ _ :: h). assert (h `suffix_of` h0) as Hs0 by by apply suffix_cons_r.
  eapply wp_mono; [| |eapply wp_suffix_guard,
    (pushManifests_wp R' to ref from (Repository src) ok l l []); [done| |by left|]].
  - intros h' X c [Hc Hs]. apply HG; [by etrans|]. by destruct c.
  - intros h' r [Hs Hr]. destruct r as [[]|e]; [apply Hk|apply Herr]; [by etrans|by apply Hr|by etrans].
  - eapply well_ordered_mono; [|exact Hord]. done.
  - intros m Hm. by apply not_elem_of_nil in Hm.
Qed.

(** ** Walking manifests *)

(** What a manifest names are its blobs. *)
Definition names_blobs : Prop := ∀ mt data m, isManifest mt = true → readIndexOrManifest data = Ok m →
  names mt data = (Layers m ++ option_list (Config m))%list.
Context (Hnames : names_blobs).

Lemma isManifest_not_index mt : isManifest mt = true → isIndex mt = false.
Proof. destruct (isIndex mt) eqn:E; [|done]. by rewrite isIndex_not_manifest. Qed.

Lemma isManifest_not_blob m : isManifest (MediaType m) = true → is_blob m = false.
Proof. unfold is_blob. intros ->. by rewrite orb_true_r. Qed.

(** The descriptors of a manifest: its blobs, and then itself. *)
Lemma manifestDescriptors_ordered h s repo d desc ds :
  faithful h _ (GetManifest s repo d) (Ok desc) → manifestDescriptors desc = Ok ds →
  well_ordered h (ds ++ [desc])%list ∧ isManifest (MediaType desc) = true ∧ Digest desc = d.
Proof.
  unfold manifestDescriptors. intros Hf. destruct (isManifest (MediaType desc)) eqn:E; [|done]. simpl.
  intros (m & Hm & [= <-])%result_bind_ok. destruct (Hf desc eq_refl) as [Hd Hc].
  destruct (Hc m Hm) as [_ Hblobs]. split_and!; [|done..].
  apply well_ordered_snoc; [by apply well_ordered_blobs|]. intros _ x Hx.
  rewrite (Hnames _ _ m E Hm) in Hx. left. exists x. split_and!; [|by apply Hblobs|done].
  apply elem_of_app. by left.
Qed.

Lemma walkManifest_wp s ref desc h :
  wp R (reads_from s (Repository ref)) (walkManifest s ref desc) h
    (λ h' r, ∀ ds, r = Ok ds → well_ordered h' ds ∧ ∃ d, d ∈ ds ∧ is_blob d = false ∧ same_digest desc d).
Proof.
  unfold walkManifest. destruct (isManifest (MediaType desc)); simpl negb; cbv iota; [|done].
  rewrite wp_bind, wp_call. split; [done|]. intros [] _; [done|].
  rewrite wp_bind_res. unfold getManifest. rewrite wp_call. split; [done|]. intros [d|e] Hans; [|done].
  rewrite wp_ret. intros ds (blobs & Hblobs & [= <-])%result_bind_ok.
  destruct (manifestDescriptors_ordered _ _ _ _ _ _ (HR _ _ _ _ Hans) Hblobs) as (Hord & Hman & Hd).
  split; [eapply well_ordered_mono; [|exact Hord]; by apply suffix_cons_r|].
  exists d. split_and!; [set_solver|by apply isManifest_not_blob|done].
Qed.

Lemma walk_children_wp s ref l : ∀ h,
  wp R (reads_from s (Repository ref)) (walk_children s ref l) h
    (λ h' res, h `suffix_of` h' ∧ (res.2 = false → well_ordered h' res.1 ∧
       ∀ c, c ∈ l → ∃ d, d ∈ res.1 ∧ is_blob d = false ∧ same_digest c d)).
Proof.
  induction l as [|desc l IH]; intros h; cbn [walk_children].
  { split; [done|]. intros _. split; [by apply well_ordered_blobs; set_solver|]. set_solver. }
  rewrite wp_bind. eapply wp_post; [|apply wp_suffix, walkManifest_wp]. intros h1 r [Hr Hs1].
  rewrite wp_bind. eapply wp_post; [|apply IH]. intros h2 [ds failed] [Hs2 Hrest]. rewrite wp_ret. simpl in *.
  destruct r as [ds'|e]; simpl; [|split; [by etrans|done]]. split; [by etrans|].
  intros Hf. destruct (Hrest Hf) as [Hord Hall]. destruct (Hr ds' eq_refl) as [Hord' (d & Hd & ? & ?)].
  split; [apply well_ordered_app; [by eapply well_ordered_mono|done]|].
  intros c [->|Hc]%elem_of_cons; [exists d; split_and!; [apply elem_of_app; by left|done..]|].
  destruct (Hall c Hc) as (d' & ? & ? & ?). exists d'. split_and!; [apply elem_of_app; by right|done..].
Qed.

Lemma walk_referrers_wp s ref l : ∀ h,
  wp R (reads_from s (Repository ref)) (walk_referrers s ref l) h
    (λ h' r, h `suffix_of` h' ∧ ∀ ds, r = Ok ds → well_ordered h' ds).
Proof.
  induction l as [|desc l IH]; intros h; cbn [walk_referrers].
  { split; [done|]. intros ds [= <-]. by apply well_ordered_blobs; set_solver. }
  rewrite wp_bind_res. eapply wp_post; [|apply wp_suffix, walkManifest_wp]. intros h1 [ds|e] [Hr Hs1]; [|done].
  rewrite wp_bind_res. eapply wp_post; [|apply IH].
  intros h2 [rest|e] [Hs2 Hrest]; [|by split; [etrans|]]. split; [by etrans|].
  intros ? [= <-]. apply well_ordered_app; [|by apply Hrest].
  eapply well_ordered_mono; [exact Hs2|]. by apply Hr.
Qed.

Lemma referrers_wp s ref digest h :
  wp R (reads_from s (Repository ref)) (referrers s ref digest) h
    (λ h' r, h `suffix_of` h' ∧ ∀ ds, r = Ok ds → well_ordered h' ds).
Proof.
  unfold referrers. rewrite wp_bind_res, wp_call. split; [done|].
  intros [l|e] _; [|by split; [apply suffix_cons_r|]].
  eapply wp_post; [|apply walk_referrers_wp]. intros h' r [Hs Hr]. split; [|done].
  etrans; [|exact Hs]. by apply suffix_cons_r.
Qed.
End order.

Lemma well_ordered_weaken names (missing missing' : history icmd → string → Prop) h l :
  (∀ h d, missing h d → missing' h d) → well_ordered names missing h l → well_ordered names missing' h l.
Proof using.
  clear R HR. intros Hm Hl l1 d l2 Heq Hd x Hx.
  destruct (Hl l1 d l2 Heq Hd x Hx) as [?|[?|?]]; [by left|by right; left|right; right; by apply Hm].
Qed.

(** Nothing is left out. *)
Definition never : history icmd → string → Prop := λ _ _, False.
Lemma never_mono h h' d : h `suffix_of` h' → never h d → never h' d.
Proof using. done. Qed.

(** ** Visiting a whole image *)

Section visiting.
Context (rank : string → nat).

(** All that a manifest names. *)
Definition full_names (mt data : string) : list Descriptor :=
  match readIndexOrManifest data with
  | Err _ => []
  | Ok m => if isIndex mt then Manifests m else (Layers m ++ option_list (Config m))%list
  end.

Lemma full_names_blobs : names_blobs full_names.
Proof. intros mt data m Hmt Hm. unfold full_names. by rewrite Hm, isManifest_not_index. Qed.

(** Manifests are addressed by content, so none names itself through others: what one
    names has a smaller rank. *)
Definition acyclic : rely (cmd:=icmd) := λ _ X c,
  match c in icmd X return X → Prop with
  | GetManifest _ _ digest => λ r, ∀ desc x, r = Ok desc →
      x ∈ full_names (MediaType desc) (Data desc) → rank (Digest x) < rank digest
  | _ => λ _, True
  end.
Context (Hacyclic : ∀ h X c x, R h X c x → acyclic h X c x).

Section visit.
Context (client : side) (allowMissing : bool) (root : Reference).
Local Abbreviation repo := (Repository root).

(** What the registry said it does not have, when that is allowed. *)
Definition left_out (h : history icmd) (digest : string) : Prop :=
  allowMissing = true ∧ ∃ e, isNotFound e = true ∧
    (Event _ (GetManifest client repo digest) (Err e) ∈ h ∨ Event _ (ResolveBlob client repo digest) (Err e) ∈ h).

Lemma left_out_mono h h' d : h `suffix_of` h' → left_out h d → left_out h' d.
Proof using.
  clear Hacyclic HR R rank. intros [l ->] (? & e & ? & ?). split; [done|]. exists e. set_solver. Qed.

Definition has_digest (l : list Descriptor) (digest : string) : Prop := ∃ d, d ∈ l ∧ Digest d = digest.

(** The state of a visit below the manifests [above], which are being visited. *)
Definition visiting (above : gset string) (h : history icmd) (s : visit) : Prop :=
  well_ordered full_names left_out h s.2 ∧
  ∀ x, x ∈ s.1 → has_digest s.2 x ∨ x ∈ above ∨ left_out h x.

(** What a visit leaves behind. *)
Definition visits (above : gset string) (s : visit) (h h' : history icmd) (s' : visit) : Prop :=
  h `suffix_of` h' ∧ visiting above h' s' ∧ s.2 ⊆ s'.2.

Lemma has_digest_here b l : has_digest (l ++ [b])%list (Digest b).
Proof using.
  clear Hacyclic HR R rank. exists b. set_solver. Qed.

Lemma subseteq_snoc (b : Descriptor) l : l ⊆ (l ++ [b])%list.
Proof using.
  clear Hacyclic HR R rank. set_solver. Qed.

Lemma has_digest_more l l' d : l ⊆ l' → has_digest l d → has_digest l' d.
Proof using.
  clear Hacyclic HR R rank. intros Hl (x & ? & ?). exists x. eauto. Qed.

Lemma visiting_mono above h h' s : h `suffix_of` h' → visiting above h s → visiting above h' s.
Proof.
  intros Hs [Hord Hseen]. split; [eapply well_ordered_mono; [apply left_out_mono|done..]|].
  intros x Hx. destruct (Hseen x Hx) as [?|[?|?]]; [by left|by right; left|].
  right. right. by eapply left_out_mono.
Qed.

Lemma visit_blobs_wp ref above : Repository ref = repo → ∀ blobs s h,
  (∀ b, b ∈ blobs → is_blob b = true ∧ Digest b ∉ above) → visiting above h s →
  wp R (reads_from client repo) (visit_blobs client allowMissing ref blobs s) h
    (λ h' r, ∀ s', r = Ok s' → visits above s h h' s' ∧
       ∀ b, b ∈ blobs → has_digest s'.2 (Digest b) ∨ left_out h' (Digest b)).
Proof.
  intros Href blobs. induction blobs as [|b blobs IH]; intros [seen l] h Hblobs Hvis; cbn [visit_blobs].
  { rewrite wp_ret. intros ? [= <-]. split; [by split_and!|]. intros b Hb. by apply not_elem_of_nil in Hb. }
  destruct (Hblobs b) as [Hb Habove]; [by left|].
  assert (∀ h1 s1, h `suffix_of` h1 → l ⊆ s1.2 → visiting above h1 s1 →
    has_digest s1.2 (Digest b) ∨ left_out h1 (Digest b) →
    wp R (reads_from client repo) (visit_blobs client allowMissing ref blobs s1) h1
      (λ h' r, ∀ s', r = Ok s' → visits above (seen, l) h h' s' ∧
         ∀ x, x ∈ b :: blobs → has_digest s'.2 (Digest x) ∨ left_out h' (Digest x))) as Hnext.
  { intros h1 s1 Hs1 Hl1 Hvis1 Hfound. eapply wp_post; [|apply IH; [intros x Hx; apply Hblobs; by right|done]].
    intros h' r Hr s' ->. destruct (Hr s' eq_refl) as [(Hs & Hvis' & Hl) Hall].
    split; [split_and!; [by etrans|done|simpl; by etrans]|].
    intros x [->|Hx]%elem_of_cons; [|by apply Hall].
    destruct Hfound; [left; by eapply has_digest_more|right; by eapply left_out_mono]. }
  destruct (bool_decide (Digest b ∈ seen)) eqn:E.
  { apply bool_decide_eq_true in E. apply Hnext; [done..|].
    destruct (proj2 Hvis _ E) as [?|[?|?]]; [by left|done|by right]. }
  rewrite wp_bind, wp_call. split; [by rewrite Href|]. intros r _. rewrite Href.
  assert (h `suffix_of` (Event _ (ResolveBlob client repo (Digest b)) r :: h)) as Hsuf by by apply suffix_cons_r.
  destruct r as [d|e].
  - apply Hnext; simpl; [done|apply subseteq_snoc| |left; apply has_digest_here].
    eapply visiting_mono in Hvis as [Hord Hseen]; [|exact Hsuf]. split; simpl.
    + apply well_ordered_snoc; [apply left_out_mono|done|]. by rewrite Hb.
    + intros x [->%elem_of_singleton|Hx]%elem_of_union; [left; apply has_digest_here|].
      destruct (Hseen x Hx) as [Hd|?]; [left|by right]. eapply has_digest_more; [|exact Hd]. apply subseteq_snoc.
  - destruct (allowMissing && isNotFound e) eqn:E'; [|done]. apply andb_true_iff in E' as [? ?].
    apply Hnext; [done..|by eapply visiting_mono|]. right. split; [done|]. exists e. split; [done|].
    right. by left.
Qed.

(** A visit of one manifest. *)
Definition visit_spec (above : gset string) (digest : string) (s : visit) (h : history icmd)
    (p : iproc (ires visit)) : Prop :=
  wp R (reads_from client repo) p h (λ h' r, ∀ s', r = Ok s' → visits above s h h' s' ∧
    (has_digest s'.2 digest ∨ left_out h' digest)).

Lemma visit_all_wp f above l : 
  (∀ c s h, c ∈ l → visiting above h s → visit_spec above (Digest c) s h (f (Digest c) s)) →
  ∀ s h, visiting above h s →
  wp R (reads_from client repo) (visit_all f l s) h
    (λ h' r, ∀ s', r = Ok s' → visits above s h h' s' ∧
       ∀ c, c ∈ l → has_digest s'.2 (Digest c) ∨ left_out h' (Digest c)).
Proof.
  induction l as [|c l IH]; intros Hf s h Hvis; cbn [visit_all].
  { rewrite wp_ret. intros ? [= <-]. split; [by split_and!|]. intros c Hc. by apply not_elem_of_nil in Hc. }
  rewrite wp_bind_res. eapply wp_post; [|apply Hf; [by left|exact Hvis]].
  intros h1 [s1|e] Hr; [|done]. destruct (Hr s1 eq_refl) as [(Hs1 & Hvis1 & Hl1) Hfound].
  eapply wp_post; [|apply IH; [intros; apply Hf; [by right|done]|exact Hvis1]]. intros h' r Hr' s' ->.
  destruct (Hr' s' eq_refl) as [(Hs & Hvis' & Hl) Hall]. split; [split_and!; [by etrans|done|by etrans]|].
  intros x [->|Hx]%elem_of_cons; [|by apply Hall].
  destruct Hfound; [left; by eapply has_digest_more|right; by eapply left_out_mono].
Qed.

(** What an index or a manifest names was visited: its descriptor may follow. *)
Lemma visited_descriptor above digest s h h1 s1 desc :
  visits ({[digest]} ∪ above) ({[digest]} ∪ s.1, s.2) h h1 s1 → Digest desc = digest →
  (∀ x, x ∈ full_names (MediaType desc) (Data desc) → has_digest s1.2 (Digest x) ∨ left_out h1 (Digest x)) →
  visits above s h h1 (s1.1, (s1.2 ++ [desc])%list).
Proof.
  intros (Hs & [Hord Hseen] & Hl) Hd Hnames. split_and!; [done| |simpl in *; etrans; [exact Hl|apply subseteq_snoc]].
  split; simpl.
  - apply well_ordered_snoc; [apply left_out_mono|done|]. intros _ x Hx.
    destruct (Hnames x Hx) as [(d & Hin & Hdig)|Hout]; [|by right; right].
    destruct (is_blob d) eqn:Hb; [left|right; left]; exists d; [|done].
    split_and!; [apply elem_of_app; by left|done..].
  - intros x Hx. destruct (Hseen x Hx) as [Hin|[[->%elem_of_singleton|Hab]%elem_of_union|Hout]].
    + left. eapply has_digest_more; [apply subseteq_snoc|done].
    + left. rewrite <- Hd. apply has_digest_here.
    + by right; left.
    + by right; right.
Qed.

(** The part of a visit below the manifest [digest]. *)
Lemma visit_names_wp left above digest s h desc :
  Digest desc = digest → (∀ m, readIndexOrManifest (Data desc) = Ok m → consistent desc m) →
  (∀ x, x ∈ full_names (MediaType desc) (Data desc) → (rank (Digest x) < rank digest)%nat) →
  (∀ a, a ∈ above → (rank digest < rank a)%nat) →
  visiting ({[digest]} ∪ above) h s →
  (∀ c s h above, (∀ a, a ∈ above → (rank (Digest c) < rank a)%nat) → visiting above h s →
     visit_spec above (Digest c) s h (walk client allowMissing root left (Digest c) s)) →
  wp R (reads_from client repo)
    (if isIndex (MediaType desc) then
       match readIndexOrManifest (Data desc) with
       | Err e => Ret (Err e)
       | Ok index => visit_all (walk client allowMissing root left) (Manifests index) s
       end
     else
       match manifestDescriptors desc with
       | Err e => Ret (Err e)
       | Ok blobs => visit_blobs client allowMissing (with_Digest root digest) blobs s
       end) h
    (λ h' r, ∀ s', r = Ok s' → visits ({[digest]} ∪ above) s h h' s' ∧ is_blob desc = false ∧
       ∀ x, x ∈ full_names (MediaType desc) (Data desc) → has_digest s'.2 (Digest x) ∨ left_out h' (Digest x)).
Proof.
  intros Hd Hcons Hrank Habove Hvis Hwalk.
  assert (∀ x a, x ∈ full_names (MediaType desc) (Data desc) → a ∈ {[digest]} ∪ above →
            (rank (Digest x) < rank a)%nat) as Hbelow.
  { intros x a Hx [->%elem_of_singleton|Ha]%elem_of_union; [by apply Hrank|].
    etrans; [by apply Hrank|by apply Habove]. }
  destruct (isIndex (MediaType desc)) eqn:Eidx.
  - destruct (readIndexOrManifest (Data desc)) as [index|e] eqn:Em; [|done].
    assert (full_names (MediaType desc) (Data desc) = Manifests index) as Hnames
      by (unfold full_names; by rewrite Em, Eidx).
    rewrite Hnames in Hbelow |- *.
    eapply wp_post; [|apply (visit_all_wp _ ({[digest]} ∪ above)); [|exact Hvis]].
    { intros h' r Hr s' ->. destruct (Hr s' eq_refl). split_and!; [done| |done]. unfold is_blob. by rewrite Eidx. }
    intros c s1 h1 Hc Hvis1. apply Hwalk; [|done]. intros a Ha. by apply Hbelow.
  - unfold manifestDescriptors. destruct (isManifest (MediaType desc)) eqn:Eman; simpl; [|done].
    destruct (readIndexOrManifest (Data desc)) as [m|e] eqn:Em; simpl; [|done].
    rewrite (full_names_blobs _ _ m) in Hbelow |- * by done.
    eapply wp_post; [|apply (visit_blobs_wp _ ({[digest]} ∪ above)); [done| |exact Hvis]].
    { intros h' r Hr s' ->. destruct (Hr s' eq_refl). split_and!; [done|by apply isManifest_not_blob|done]. }
    intros b Hb. split; [by apply (Hcons m)|].
    intros Ha. specialize (Hbelow b _ Hb Ha). lia.
Qed.

Definition has_manifest (l : list Descriptor) (digest : string) : Prop :=
  ∃ d, d ∈ l ∧ is_blob d = false ∧ Digest d = digest.

Lemma walk_wp : ∀ left digest s above h,
  (∀ a, a ∈ above → (rank digest < rank a)%nat) → visiting above h s →
  wp R (reads_from client repo) (walk client allowMissing root left digest s) h
    (λ h' r, ∀ s', r = Ok s' → visits above s h h' s' ∧ (has_digest s'.2 digest ∨ left_out h' digest) ∧
       (digest ∉ s.1 → left = S max_depth → has_manifest s'.2 digest)).
Proof.
  induction left as [|left IH]; intros digest [seen l] above h Habove Hvis; cbn [walk]; [done|].
  destruct (bool_decide (digest ∈ seen)) eqn:E.
  { apply bool_decide_eq_true in E. rewrite wp_ret. intros ? [= <-]. split_and!; [by split_and!| |done].
    destruct (proj2 Hvis _ E) as [?|[Ha|?]]; [by left| |by right]. specialize (Habove _ Ha). lia. }
  rewrite wp_bind. unfold getManifest. cbn [with_Digest Repository ref_Digest]. rewrite wp_call.
  split; [done|]. intros r Hans.
  assert (h `suffix_of` (Event _ (GetManifest client repo digest) r :: h)) as Hsuf by by apply suffix_cons_r.
  destruct r as [desc|e].
  2: { destruct (_ && isNotFound e) eqn:E'; [|done]. apply andb_true_iff in E' as [[Ha Hl]%andb_true_iff Hn].
    apply bool_decide_eq_true in Hl. rewrite wp_ret. intros ? [= <-].
    assert (left_out (Event _ (GetManifest client repo digest) (Err e) :: h) digest) as Hout.
    { split; [done|]. exists e. split; [done|]. left. by left. }
    split_and!; [split_and!; [done| |done]|by right|congruence].
    eapply visiting_mono in Hvis as [Hord Hseen]; [|exact Hsuf]. split; [done|]. simpl.
    intros x [->%elem_of_singleton|Hx]%elem_of_union; [by right; right|by apply Hseen]. }
  destruct (HR _ _ _ _ Hans desc eq_refl) as [Hd Hcons]. rewrite wp_bind_res.
  eapply wp_post; [|apply (visit_names_wp left above digest ({[digest]} ∪ seen, l)); [exact Hd|exact Hcons| |done| |]].
  - intros h1 [[seen1 l1]|e] Hr; [|done]. destruct (Hr _ eq_refl) as ((Hs1 & Hvis1 & Hl1) & Hman & Hnames).
    rewrite wp_ret. intros ? [= <-]. split_and!.
    + apply (visited_descriptor above digest (seen, l) h h1 (seen1, l1)); [|done|done].
      split_and!; [etrans; [exact Hsuf|done]|done|done].
    + left. simpl. rewrite <- Hd. apply has_digest_here.
    + intros _ _. exists desc. split_and!; [simpl; apply elem_of_app; right; by left|done..].
  - intros x Hx. by eapply (Hacyclic _ _ _ _ Hans desc).
  - eapply visiting_mono in Hvis as [Hord Hseen]; [|exact Hsuf]. split; [done|]. simpl.
    intros x [->%elem_of_singleton|Hx]%elem_of_union.
    + right. left. apply elem_of_union. left. by apply elem_of_singleton.
    + destruct (Hseen x Hx) as [?|[?|?]]; [by left|right; left; apply elem_of_union; by right|by right; right].
  - intros c s1 h1 above1 Hab Hvis1. unfold visit_spec.
    eapply wp_post; [|apply (IH _ _ above1); [exact Hab|exact Hvis1]].
    intros h' r Hr s' ->. by destruct (Hr s' eq_refl) as (? & ? & _).
Qed.

(** The descriptors of an image, in an order to push them, and the image itself. *)
Lemma imageDescriptors_wp h :
  wp R (reads_from client repo) (imageDescriptors client root allowMissing) h
    (λ h' r, h `suffix_of` h' ∧ ∀ l, r = Ok l →
       well_ordered full_names left_out h' l ∧ has_manifest l (ref_Digest root)).
Proof.
  unfold imageDescriptors. rewrite wp_bind_res.
  eapply wp_post; [|apply wp_suffix, (walk_wp _ _ _ ∅); [set_solver|]].
  - intros h' [[seen l]|e] [Hr Hs]; [|done]. rewrite wp_ret. split; [done|]. intros ? [= <-].
    destruct (Hr _ eq_refl) as ((_ & [Hord _] & _) & _ & Hman). split; [done|]. apply Hman; [set_solver|done].
  - split; [apply well_ordered_blobs; intros b Hb; by apply not_elem_of_nil in Hb|].
    intros x Hx. by apply not_elem_of_empty in Hx.
Qed.
End visit.
End visiting.
End transfer.

(** ** A concrete pair of registries *)

Definition manifest_type : string := "application/vnd.oci.image.manifest.v1+json".
Definition index_type : string := "application/vnd.oci.image.index.v1+json".

Definition demo_blob (d : string) : Descriptor :=
  {| MediaType := "application/vnd.oci.image.layer.v1.tar"; Digest := d; Size := 10; Data := "";
     desc_Platform := None; Annotations := ∅ |}.

(** An index with one manifest, and that manifest. *)
Definition demo_manifests : ManifestJSON := {|
  readIndexOrManifest data :=
    if bool_decide (data = "M") then
      Ok {| iom_MediaType := manifest_type; Manifests := []; Layers := [demo_blob "sha256:1a1a"];
            Config := Some (demo_blob "sha256:c0c0") |}
    else if bool_decide (data = "I") then
      Ok {| iom_MediaType := index_type; Layers := []; Config := None;
            Manifests := [{| MediaType := manifest_type; Digest := "sha256:abcd"; Size := 10; Data := "";
                             desc_Platform := Some {| OS := "linux"; Architecture := "amd64"; Variant := "";
                                                      OSVersion := ""; OSFeatures := [] |};
                             Annotations := ∅ |}] |}
    else Err (errors_new "not JSON")
|}.

Definition demo_manifest (digest : string) : ires Descriptor :=
  if bool_decide (digest = "sha256:abcd")
  then Ok {| MediaType := manifest_type; Digest := digest; Size := 10; Data := "M"; desc_Platform := None;
             Annotations := ∅ |}
  else if bool_decide (digest = "sha256:1d1d")
  then Ok {| MediaType := index_type; Digest := digest; Size := 10; Data := "I"; desc_Platform := None;
             Annotations := ∅ |}
  else Err (OciError ErrManifestUnknown).

(** dink's registry has [demo_index]'s image and its blobs, and the index of [acme/old];
    the other registry has the index under the tags [1.0] and [latest].  Everything that
    is copied or pushed is accepted. *)
Definition serve_registries {X} (c : icmd X) (s : unit) : X * unit :=
  (match c in icmd X return option X → X with
   | Repositories _ | TagRecords _ _ | IndexResolveTag _ _ | IndexManifest _ _ | ImageConfig _ =>
       default (Err Cancelled)
   | GetManifest _ _ d => λ _, demo_manifest d
   | ResolveManifest Remote _ d => λ _, demo_manifest d
   | ResolveManifest Internal repo d =>
       λ _, if bool_decide (repo = "acme/old") then demo_manifest d else Err (OciError ErrManifestUnknown)
   | ResolveTag Remote _ _ => λ _, demo_manifest "sha256:1d1d"
   | ResolveTag Internal _ _ => λ _, demo_manifest "sha256:abcd"
   | ResolveBlob _ _ d => λ _, Ok (demo_blob d)
   | Closure _ _ => λ _, Ok []
   | Referrers _ _ _ => λ _, Ok []
   | Tags _ _ => λ _, Ok ["1.0"; "latest"]
   | CopyBlobs _ _ _ _ _ => λ _, Ok true
   | DeleteTag _ _ | DeleteManifest _ _ | DeleteBlob _ _ | PushBlob _ _ _ _ | PushManifest _ _ _ _ _ _ =>
       λ _, Ok tt
   | GetBlob _ _ _ => λ _, Err Cancelled
   | CtxErr => λ _, false
   | Message _ _ => λ _, tt
   end (index_answer demo_index c), s).

Lemma demo_manifest_digest d desc : demo_manifest d = Ok desc →
  Digest desc = d ∧ (d = "sha256:abcd" ∧ MediaType desc = manifest_type ∧ Data desc = "M" ∨
                     d = "sha256:1d1d" ∧ MediaType desc = index_type ∧ Data desc = "I").
Proof.
  unfold demo_manifest. destruct (bool_decide (d = "sha256:abcd")) eqn:E.
  { intros [= <-]. apply bool_decide_eq_true in E. simpl. auto. }
  destruct (bool_decide (d = "sha256:1d1d")) eqn:E'; [|done].
  intros [= <-]. apply bool_decide_eq_true in E'. simpl. auto.
Qed.

Lemma serve_registries_faithful h X (c : icmd X) s :
  @faithful demo_manifests h X c (serve_registries c s).1.
Proof.
  destruct c; simpl; try done.
  - intros desc (Hd & Hdesc)%demo_manifest_digest. split; [done|]. intros m Hm.
    destruct Hdesc as [(-> & Hmt & HD)|(-> & Hmt & HD)]; rewrite HD in Hm; vm_compute in Hm;
      injection Hm as <-; (split; [by rewrite Hmt|]); intros b Hb.
    + simpl in Hb. apply elem_of_cons in Hb as [->|Hb]; [done|].
      apply list_elem_of_singleton in Hb as ->. done.
    + by apply not_elem_of_nil in Hb.
  - intros desc. destruct s0; [|by intros [? _]%demo_manifest_digest].
    destruct (bool_decide _); [by intros [? _]%demo_manifest_digest|done].
  - intros desc. destruct s0; intros [-> _]%demo_manifest_digest; done.
Qed.

Definition demo_rank (d : string) : nat :=
  if bool_decide (d = "sha256:1d1d") then 2 else if bool_decide (d = "sha256:abcd") then 1 else 0.

Lemma serve_registries_acyclic h X (c : icmd X) s :
  @acyclic demo_manifests demo_rank h X c (serve_registries c s).1.
Proof.
  destruct c; simpl; try done. intros desc x (Hd & Hdesc)%demo_manifest_digest Hx.
  destruct Hdesc as [(-> & Hmt & HD)|(-> & Hmt & HD)]; rewrite Hmt, HD in Hx; vm_compute in Hx;
    repeat (apply elem_of_cons in Hx as [->|Hx]; [vm_compute; lia|]); by apply not_elem_of_nil in Hx.
Qed.
