(* ===== verification/PullProps.v ===== *)
(** * PullProps: what a pull publishes

    A pull writes only into the caller's namespace; it pushes a manifest only after what
    it names, of an index the manifest of the platform and its attestations; it gives a
    tag only to the digest the source names by it; and when it succeeds, every tag that
    was asked for is stored. *)

From S2P Require Import Prelude GoStrings Errors Prog Identity Oci Images ImageProps Transfer TransferProps.

Local Open Scope string_scope.

Section pull.
Context `{Unicode} `{Digests} `{References} `{ManifestJSON} `{ConfigJSON} `{Platforms}.
Section answers.
Context (R : rely (cmd:=icmd)) (HR : ∀ h X c x, R h X c x → faithful h X c x).

Context (platform : option (Platform → bool)).

(** Of an index, the manifest of the platform and its attestations are pulled. *)
Definition pulled_names (mt data : string) : list Descriptor :=
  match readIndexOrManifest data with
  | Err _ => []
  | Ok m =>
      if isIndex mt then match parseIndexManifest platform m with
                         | Ok selected => im_descriptors selected
                         | Err _ => []
                         end
      else (Layers m ++ option_list (Config m))%list
  end.

Lemma pulled_names_blobs : names_blobs pulled_names.
Proof. intros mt data m Hmt Hm. unfold pulled_names. by rewrite Hm, isManifest_not_index. Qed.

Definition pulled_list (ref : Reference) (h : history icmd) (ds : list Descriptor) : Prop :=
  well_ordered pulled_names never h ds ∧ ∃ d, d ∈ ds ∧ is_blob d = false ∧ Digest d = ref_Digest ref.

Lemma walkIndexManifest_wp s ref desc h :
  wp R (reads_from s (Repository ref)) (walkIndexManifest s ref platform desc) h
    (λ h' r, ∀ index, r = Ok index → pulled_list ref h' (im_descriptors index)).
Proof.
  unfold walkIndexManifest. destruct (isIndex (MediaType desc)); simpl negb; cbv iota; [|done].
  rewrite wp_bind_res. unfold getManifest. rewrite wp_call. split; [done|]. intros [d|e] Hans; [|done].
  destruct (HR _ _ _ _ Hans d eq_refl) as [Hd Hcons].
  destruct (readIndexOrManifest (Data d)) as [index|e] eqn:Eread; [|done].
  destruct (parseIndexManifest platform index) as [selected|e] eqn:Eparse; [|done].
  destruct (decide (platformDigest selected = "")); [done|].
  rewrite wp_bind. eapply wp_post; [|apply (walk_children_wp _ HR _ never never_mono pulled_names_blobs)].
  intros h' [ds failed] [Hs Hres]. simpl in Hres. destruct failed; [done|].
  destruct (Hres eq_refl) as [Hord Hall]. rewrite wp_ret. intros ? [= <-]. simpl.
  assert (isIndex (MediaType d) = true) as Hidx.
  { apply (Hcons index eq_refl). unfold parseIndexManifest in Eparse.
    by destruct (isIndex (iom_MediaType index)). }
  split; [|exists d; split_and!; [set_solver|unfold is_blob; by rewrite Hidx|done]].
  apply well_ordered_snoc; [done..|]. intros _ x Hx. unfold pulled_names in Hx.
  rewrite Eread, Hidx, Eparse in Hx. destruct (Hall x Hx) as (m & ? & ? & ?). right. left. by exists m.
Qed.

Lemma AllDescriptors_wp s ref desc h :
  Digest desc = ref_Digest ref →
  wp R (reads_from s (Repository ref)) (AllDescriptors s ref platform desc) h
    (λ h' r, ∀ ds, r = Ok ds → pulled_list ref h' ds).
Proof.
  intros Hdesc. unfold AllDescriptors. rewrite wp_bind_res.
  assert (∀ h1 digest ds, pulled_list ref h1 ds →
            wp R (reads_from s (Repository ref))
              (do? refs <- referrers s ref digest; Ret (Ok (ds ++ refs)%list)) h1
              (λ h' r, ∀ ds, r = Ok ds → pulled_list ref h' ds)) as Hrefs.
  { intros h1 digest ds [Hord (d & Hd & ?)]. rewrite wp_bind_res.
    eapply wp_post; [|apply (referrers_wp _ HR _ never never_mono pulled_names_blobs)].
    intros h2 [refs|e] [Hs Hr]; [|done]. rewrite wp_ret. intros ? [= <-].
    split; [|exists d; set_solver].
    apply well_ordered_app; [done|by eapply well_ordered_mono|by apply Hr]. }
  destruct (isIndex (MediaType desc)).
  { rewrite wp_bind_res. eapply wp_post; [|apply walkIndexManifest_wp].
    intros h1 [index|e] Hr; [|done]. rewrite wp_ret. by apply Hrefs, Hr. }
  destruct (isManifest (MediaType desc)); [|by rewrite wp_ret].
  rewrite wp_bind_res. eapply wp_post; [|apply (walkManifest_wp _ HR _ never never_mono pulled_names_blobs)].
  intros h1 [ds|e] Hr; [|done]. rewrite wp_ret. apply Hrefs.
  destruct (Hr ds eq_refl) as [Hord (d & ? & ? & Hd)]. split; [done|]. exists d.
  split_and!; [done..|]. by rewrite <- Hdesc.
Qed.

(** The tag that a digest gets, as the source names it or as the form of the digest. *)
Definition source_names (h : history icmd) (ref : Reference) (t digest : string) : Prop :=
  (∃ desc, Event _ (ResolveTag Remote (Repository ref) t) (Ok desc) ∈ h ∧ Digest desc = digest) ∨
  (ref_Digest ref = digest ∧ digest ≠ "" ∧ t = digestTag digest).

Definition stored (h : history icmd) (repo digest : string) : Prop :=
  ∃ existing, Event _ (ResolveManifest Internal repo digest) (Ok existing) ∈ h.

(** When each command of a pull may be issued. *)
Definition pulls (id : Identity) (ref : Reference) : guard (cmd:=icmd) := λ h _ c,
  let own := Repository (repositoryFor id ref) in
  match c with
  | Tags Remote repo | ResolveTag Remote repo _ | ResolveManifest Remote repo _ | GetManifest Remote repo _
  | Referrers Remote repo _ | ResolveBlob Remote repo _ => repo = Repository ref
  | ResolveTag Internal repo _ | ResolveManifest Internal repo _ | GetManifest Internal repo _ => repo = own
  | CopyBlobs from to src dst _ => from = Remote ∧ to = Internal ∧ src = Repository ref ∧ dst = own
  | PushManifest s repo data mt digest tags => s = Internal ∧ repo = own ∧ data ≠ "" ∧
      ((∀ x, x ∈ pulled_names mt data → published Internal own h (Digest x)) ∨ stored h own digest) ∧
      ∀ t, t ∈ tags → source_names h ref t digest
  | CtxErr | Message _ _ => True
  | _ => False
  end.

(** A tag of dink's own registry names a digest. *)
Definition tagged (h : history icmd) (repo t digest : string) : Prop :=
  (∃ data mt, Event _ (PushManifest Internal repo data mt digest [t]) (Ok tt) ∈ h) ∨
  ∃ desc, Event _ (ResolveTag Internal repo t) (Ok desc) ∈ h ∧ Digest desc = digest.

Lemma source_names_mono h h' ref t digest :
  h `suffix_of` h' → source_names h ref t digest → source_names h' ref t digest.
Proof using.
  clear R HR. intros [l ->] [(desc & ? & ?)|?]; [left; exists desc; set_solver|by right]. Qed.

Lemma tagged_mono h h' repo t digest : h `suffix_of` h' → tagged h repo t digest → tagged h' repo t digest.
Proof using.
  clear R HR.
  intros [l ->] [(data & mt & ?)|(desc & ? & ?)]; [left; exists data, mt; set_solver|].
  right. exists desc. set_solver.
Qed.

Section one.
Context (id : Identity) (ref ref' : Reference) (Hrepo : Repository ref' = Repository ref)
        (Hown : Repository (repositoryFor id ref') = Repository (repositoryFor id ref))
        (Htag : Tag (repositoryFor id ref') ≠ "").
Local Abbreviation dst := (repositoryFor id ref').

Lemma dst_digest : ref_Digest dst = ref_Digest ref'.
Proof. done. Qed.

Lemma pull_wp desc h :
  Digest desc = ref_Digest ref' → source_names h ref (Tag dst) (ref_Digest ref') →
  wp R (pulls id ref) (pull platform ref' dst desc) h
    (λ h' r, ∀ ok, r = Ok ok → tagged h' (Repository dst) (Tag dst) (ref_Digest ref')).
Proof.
  intros Hdesc Hsrc. unfold pull. rewrite wp_bind_res.
  eapply (wp_mono _ (reads_from Remote (Repository ref'))); [| |by apply wp_suffix, AllDescriptors_wp].
  { intros h1 X c Hc. destruct c; simpl in Hc |- *; try done; destruct Hc as [-> ->]; exact Hrepo. }
  intros h1 [ds|e] [Hds Hs1]; [|done]. destruct (Hds ds eq_refl) as [Hord (d & Hd & Hman & Hdig)].
  apply (copy_push_wp pulled_names never never_mono); [done| |done|].
  - intros h2 X c Hs2 Hc. destruct c; cbn -[repositoryFor] in Hc |- *; try done.
    + destruct Hc as (-> & -> & Hdata & Hpub & Htags). split_and!; [done|done|done| |].
      * left. intros x Hx. rewrite <- Hown. by destruct (Hpub x Hx).
      * intros t Ht. destruct Htags as [->|[-> ->]]; [by apply not_elem_of_nil in Ht|].
        apply list_elem_of_singleton in Ht as ->. eapply source_names_mono; [|exact Hsrc]. by etrans.
    + destruct Hc as (-> & -> & -> & ->). by split_and!.
  - intros ok h2 Hs2 Hpushed. rewrite wp_ret. intros ? _. left.
    specialize (Hpushed d Hd Hman). unfold pushed in Hpushed.
    rewrite decide_True, decide_False, Hdig in Hpushed by done. eauto.
Qed.

Lemma hasPlatform_wp existing h :
  wp R (pulls id ref) (hasPlatform platform (Repository dst) existing) h (λ h' _, h `suffix_of` h').
Proof.
  unfold hasPlatform. destruct (negb _); [by rewrite wp_ret|]. rewrite wp_bind_res, wp_call. split; [done|].
  assert (∀ (e : event icmd) r, wp R (pulls id ref) (Ret (A:=ires bool) r) (e :: h) (λ h' _, h `suffix_of` h')) as Hret
    by (intros; rewrite wp_ret; by apply suffix_cons_r).
  intros [d|e] _; [|by apply suffix_cons_r].
  destruct (readIndexOrManifest _) as [index|e]; [|apply Hret].
  destruct (parseIndexManifest _ _) as [selected|e]; [|apply Hret].
  destruct (decide _); [apply Hret|]. rewrite wp_bind, wp_call. split; [done|]. intros r _. rewrite wp_ret.
  by do 2 apply suffix_cons_r.
Qed.

Lemma isTagged_wp h :
  ref_Digest ref' ≠ "" →
  wp R (pulls id ref) (isTagged Internal dst) h
    (λ h' r, h `suffix_of` h' ∧ (r = Ok true → tagged h' (Repository dst) (Tag dst) (ref_Digest ref'))).
Proof.
  intros Hne. unfold isTagged, checkTagDigest. rewrite decide_False by done. rewrite wp_bind, wp_bind_res, wp_call.
  split; [done|]. intros [desc|e] _; [|rewrite wp_ret; split; [by apply suffix_cons_r|]].
  2: { unfold contentExists. by destruct (isNotFound e). }
  rewrite !wp_ret. split; [by apply suffix_cons_r|].
  rewrite bool_decide_eq_false_2 by done. simpl. destruct (bool_decide (ref_Digest ref' = Digest desc)) eqn:E; [|done].
  apply bool_decide_eq_true in E. intros _. right. exists desc. split; [by left|done].
Qed.

Lemma ensureTagged_wp h :
  ref_Digest ref' ≠ "" → stored h (Repository dst) (ref_Digest ref') →
  source_names h ref (Tag dst) (ref_Digest ref') →
  wp R (pulls id ref) (ensureTagged ref' dst) h
    (λ h' r, r = Ok tt → tagged h' (Repository dst) (Tag dst) (ref_Digest ref')).
Proof.
  intros Hne [existing Hstored] Hsrc. unfold ensureTagged. rewrite wp_bind_res.
  eapply wp_post; [|by apply isTagged_wp]. intros h1 [[]|e] [[l ->] Htagged]; [by rewrite wp_ret; auto| |done].
  rewrite wp_bind_res. unfold getManifest. rewrite wp_call. split; [done|]. intros [m|e] Hans; [|done].
  destruct (HR _ _ _ _ Hans m eq_refl) as [Hm _]. unfold pushManifest.
  destruct (decide (Data m = "")); [done|]. rewrite wp_bind, wp_call, decide_False by done. split.
  - split_and!; [done..| |].
    + right. exists existing. rewrite <- Hown, Hm. right. set_solver.
    + intros t ->%list_elem_of_singleton. rewrite Hm. eapply source_names_mono; [|exact Hsrc].
      apply suffix_cons_r. by exists l.
  - intros [[]|e] _; rewrite wp_ret; [|done]. intros _. left. exists (Data m), (MediaType m). rewrite <- Hm. by left.
Qed.

Lemma pull_missing_wp desc h :
  Digest desc = ref_Digest ref' → ref_Digest ref' ≠ "" → source_names h ref (Tag dst) (ref_Digest ref') →
  wp R (pulls id ref) (pull_missing platform ref' dst desc) h
    (λ h' r, ∀ ok, r = Ok ok → tagged h' (Repository dst) (Tag dst) (ref_Digest ref')).
Proof.
  intros Hdesc Hne Hsrc. unfold pull_missing. rewrite wp_bind, wp_call. split; [done|]. intros r _.
  assert (∀ e h', e :: h `suffix_of` h' → source_names h' ref (Tag dst) (ref_Digest ref')) as Hsrc'.
  { intros e h' Hs. eapply source_names_mono; [|exact Hsrc]. etrans; [by apply suffix_cons_r|exact Hs]. }
  unfold contentExists. destruct r as [existing|e].
  2: { destruct (isNotFound e); [|done]. apply pull_wp; [done|]. by eapply Hsrc'. }
  rewrite wp_bind_res. eapply wp_post; [|apply hasPlatform_wp]. intros h1 [complete|e] Hs1; [|done].
  destruct complete; [|apply pull_wp; [done|by eapply Hsrc']].
  rewrite wp_bind_res. eapply wp_post; [|apply ensureTagged_wp; [done| |by eapply Hsrc']].
  - intros h2 [[]|e] Hr; [|done]. rewrite wp_ret. auto.
  - exists existing. destruct Hs1 as [l ->]. set_solver.
Qed.
End one.

(** The tag that a reference's tag or digest is stored under. *)
Definition stored_tag (tag digest : string) : string := if decide (tag = "") then digestTag digest else tag.

(** A tag was pulled: it names what the source named by it. *)
Definition pulled (h : history icmd) (id : Identity) (ref : Reference) (tag : string) : Prop :=
  ∃ digest, source_names h ref (stored_tag tag digest) digest ∧
    tagged h (Repository (repositoryFor id ref)) (stored_tag tag digest) digest.

Lemma pulled_mono h h' id ref tag : h `suffix_of` h' → pulled h id ref tag → pulled h' id ref tag.
Proof using.
  clear R HR.
  intros Hs (digest & ? & ?). exists digest. split; [by eapply source_names_mono|by eapply tagged_mono].
Qed.

Lemma resolve_source_wp id ref tag h :
  wp R (pulls id ref) (resolve_source (with_Tag ref tag)) h (λ h' r, ∀ ref' desc, r = Ok (ref', desc) →
    Digest desc = ref_Digest ref' ∧ ref_Digest ref' ≠ "" ∧
    ref' = with_Digest (with_Tag ref tag) (ref_Digest ref') ∧
    source_names h' ref (stored_tag tag (ref_Digest ref')) (ref_Digest ref')).
Proof.
  unfold resolve_source, stored_tag. simpl. destruct (decide (tag = "")) as [->|Htag].
  - rewrite bool_decide_eq_true_2 by done. simpl. destruct (decide (ref_Digest ref = "")) as [|Hd];
      [by rewrite bool_decide_eq_true_2|]. rewrite bool_decide_eq_false_2 by done. simpl.
    split; [done|]. intros [desc|e] Hans; [|done]. rewrite wp_ret.
    intros ? ? [= <- <-]. simpl. split_and!; [by apply (HR _ _ _ _ Hans)|done..|by right].
  - rewrite bool_decide_eq_false_2 by done. simpl. unfold checkTagDigest. simpl. rewrite decide_False by done.
    simpl. split; [done|]. intros [desc|e] Hans; [|done]. simpl. destruct (_ && _); [done|]. rewrite wp_ret. intros ? ? [= <- <-]. simpl.
    split_and!; [done|by apply (HR _ _ _ _ Hans)|done|]. left. exists desc. split; [by left|done].
Qed.

Lemma stored_tag_nonempty tag digest : stored_tag tag digest ≠ "".
Proof.
  unfold stored_tag. case_decide; [|done]. unfold digestTag. by destruct (Algorithm digest).
Qed.

Lemma pullTag_wp id ref tag h :
  wp R (pulls id ref) (pullTag platform (Some id) (with_Tag ref tag)) h
    (λ h' r, ∀ ok, r = Ok ok → pulled h' id ref tag).
Proof.
  unfold pullTag. rewrite wp_bind_res. eapply wp_post; [|apply resolve_source_wp].
  intros h1 [[ref' desc]|e] Hr; [|done]. destruct (Hr _ _ eq_refl) as (Hdesc & Hne & Href & Hsrc).
  set (digest := ref_Digest ref') in *.
  assert (Tag (repositoryFor id ref') = stored_tag tag digest) as Htag.
  { rewrite Href. unfold repositoryFor, stored_tag. simpl. fold digest.
    rewrite (bool_decide_eq_false_2 (digest = "")) by done. rewrite andb_true_r.
    by destruct (decide (tag = "")) as [->|?]; [|rewrite bool_decide_eq_false_2]. }
  assert (Repository (repositoryFor id ref') = Repository (repositoryFor id ref)) as Hown by by rewrite Href.
  rewrite wp_bind, wp_call. split; [done|]. intros [] _. rewrite wp_bind.
  assert (source_names (Event unit (Message (tagOrDigest ref') ("Pulling from " +:+ Repository ref')) tt :: h1)
            ref (Tag (repositoryFor id ref')) digest) as Hsrc'.
  { rewrite Htag. eapply source_names_mono; [|exact Hsrc]. by apply suffix_cons_r. }
  eapply wp_post; [|apply wp_suffix, (pull_missing_wp id ref ref'); [by rewrite Href|done| |done..]].
  2: { rewrite Htag. apply stored_tag_nonempty. }
  rewrite Htag, Hown in *. intros h2 [ok|e] [Htagged Hs2]; [|by rewrite wp_ret].
  assert (pulled h2 id ref tag) as Hp.
  { exists digest. split; [by eapply source_names_mono|by eapply Htagged]. }
  rewrite wp_bind, wp_call. split; [done|]. intros [] _.
  - rewrite wp_ret. intros _ _. eapply pulled_mono; [|exact Hp]. by apply suffix_cons_r.
  - rewrite wp_bind, wp_call. split; [done|]. intros [] _. rewrite wp_ret. intros _ _.
    eapply pulled_mono; [|exact Hp]. by do 2 apply suffix_cons_r.
Qed.

Lemma pull_tags_wp id ref tags : ∀ h,
  wp R (pulls id ref) (pull_tags platform (Some id) ref tags) h
    (λ h' r, h `suffix_of` h' ∧ (r = Ok tt → ∀ tag, tag ∈ tags → pulled h' id ref tag)).
Proof.
  induction tags as [|tag tags IH]; intros h; cbn [pull_tags].
  { split; [done|]. intros _ tag Ht. by apply not_elem_of_nil in Ht. }
  rewrite wp_bind_res. eapply wp_post; [|apply wp_suffix, pullTag_wp]. intros h1 [ok|e] [Hr Hs1]; [|done].
  rewrite wp_bind, wp_call. split; [done|]. intros [] _.
  { rewrite wp_ret. split; [|done]. etrans; [exact Hs1|]. by apply suffix_cons_r. }
  rewrite wp_bind, wp_call. split; [done|]. intros [] _. eapply wp_post; [|apply IH].
  intros h2 r [Hs2 Hall].
  assert (h1 `suffix_of` h2) as Hs12 by (etrans; [|exact Hs2]; by do 2 apply suffix_cons_r).
  split; [by etrans|]. intros Hok t [->|Ht]%elem_of_cons; [|by apply Hall].
  eapply pulled_mono; [exact Hs12|by eapply Hr].
Qed.

(** The tags that a pull is for: the one that was named, or all that the source has. *)
Definition pulled_tags (h : history icmd) (ref : Reference) (tags : list string) : Prop :=
  if bool_decide (Tag ref = "") && bool_decide (ref_Digest ref = "")
  then Event _ (Tags Remote (Repository ref)) (Ok tags) ∈ h else tags = [Tag ref].

Lemma pullRepo_wp id ref h :
  wp R (pulls id ref) (pullRepo platform (Some id) ref) h
    (λ h' r, r = Ok tt → ∃ tags, pulled_tags h' ref tags ∧ ∀ tag, tag ∈ tags → pulled h' id ref tag).
Proof.
  unfold pullRepo, pulled_tags. destruct (_ && _).
  - rewrite wp_bind_res, wp_call. split; [done|]. intros [tags|e] _; [|done].
    eapply wp_post; [|apply pull_tags_wp]. intros h' r [[l ->] Hr] Hok. exists tags.
    split; [set_solver|auto].
  - eapply wp_post; [|apply pull_tags_wp]. intros h' r [_ Hr] Hok. exists [Tag ref]. auto.
Qed.
End answers.

(** C22: A pull publishes an image only as a whole, and only in the caller's namespace.
    When the registries' manifests are addressed by their content, in every execution of
    [PullImage] for an identity: it reads only the repository that was named, at its
    source, and the caller's own repository for it, and writes only there; it pushes a
    manifest only when the blobs it names were copied, and an index only when the manifest
    of the platform and its attestations were pushed, or when the manifest was there
    already; it gives a tag only to the digest that the source names by it; and when it
    succeeds, each tag that was asked for (or each that the source has) is stored and
    names that digest. *)
Theorem PullImage_publishes client connect id ref pls h h' r :
  exec (PullImage client connect (Some id) ref pls) h h' r → answered faithful h h' →
  guarded (pulls (platformMatcher pls) id ref) h h' ∧
  (r = Ok tt → ∃ tags, pulled_tags h' ref tags ∧ ∀ tag, tag ∈ tags → pulled h' id ref tag).
Proof.
  intros Hexec Hans. apply and_comm.
  eapply (wp_exec faithful _ _ _ _ _ (λ h' r, r = Ok tt → ∃ tags, pulled_tags h' ref tags ∧
            ∀ tag, tag ∈ tags → pulled h' id ref tag)); [|exact Hexec|exact Hans].
  unfold PullImage. destruct (1 <? length pls)%nat; [done|].
  destruct client as [[]|e], (connect (Host ref)) as [[]|e']; try done. rewrite wp_bind.
  eapply wp_post; [|apply (pullRepo_wp faithful); done]. intros h1 r1 Hr.
  rewrite wp_bind, wp_call. split; [done|]. intros [] _; rewrite wp_ret; [done|].
  destruct r1 as [[]|e]; [|by destruct (isNotFound e)]. intros _.
  destruct (Hr eq_refl) as (tags & Htags & Hall). exists tags. split.
  - unfold pulled_tags in *. destruct (_ && _); [by right|done].
  - intros tag Ht. eapply pulled_mono; [|by apply Hall]. by apply suffix_cons_r.
Qed.
End pull.

(** ** Witnesses *)

#[local] Existing Instances ascii_unicode demo_digests demo_references demo_config demo_platforms demo_manifests.

Definition demo_pull (repo tag : string) :=
  run (@serve_registries)
    (PullImage (Ok tt) (λ _, Ok tt) (Some demo_identity)
       {| Host := "docker.io"; Repository := repo; Tag := tag; ref_Digest := "" |} []) [] tt.

Lemma PullImage_publishes_witness :
  let ref := {| Host := "docker.io"; Repository := "library/app"; Tag := "1.0"; ref_Digest := "" |} in
  let o := demo_pull "library/app" "1.0" in
  o.1.1 = Ok tt ∧ pulled o.1.2 demo_identity ref "1.0" ∧ guarded (pulls None demo_identity ref) [] o.1.2.
Proof.
  intros ref o. assert (o.1.1 = Ok tt) as Hok by (vm_compute; reflexivity). split; [exact Hok|].
  destruct (PullImage_publishes (Ok tt) (λ _, Ok tt) demo_identity ref [] [] o.1.2 o.1.1) as [Hguard Hall].
  - apply run_exec.
  - apply run_answered. intros. apply serve_registries_faithful.
  - split; [|exact Hguard]. destruct (Hall Hok) as (tags & Htags & Hpulled).
    assert (tags = ["1.0"]) as -> by exact Htags. apply Hpulled. by left.
Defined.

(** A tag that moved to an image that is stored already cannot be pulled: the tag still
    names the old image, and that is an error instead of a reason to move it. *)
Example moved_tag_is_not_pulled :
  (demo_pull "library/old" "1.0").1.1 = Err (errors_new "digest %s does not match tag %s").
Proof. vm_compute. reflexivity. Qed.
