(* ===== verification/PushProps.v ===== *)
(** * PushProps: what a push and a new tag publish

    A push publishes a whole image: each manifest after everything it names, all of it
    read from the caller's namespace.  A new tag copies an image within the namespace,
    leaving out only what the registry does not have. *)

From S2P Require Import Prelude GoStrings Errors Prog Identity Oci Images ImageProps Transfer TransferProps.

Local Open Scope string_scope.

Section push.
Context `{Unicode} `{Digests} `{References} `{ManifestJSON} `{ConfigJSON} `{Platforms} (page_fuel : nat).
Section answers.
Context (R : rely (cmd:=icmd)) (HR : ∀ h X c x, R h X c x → faithful h X c x).
Context (rank : string → nat) (Hacyclic : ∀ h X c x, R h X c x → acyclic rank h X c x).

(** Reading manifests and blobs of the caller's own repositories. *)
Definition reads_own (namespace : string) : guard (cmd:=icmd) := λ h X c,
  reads_namespace namespace h X c ∨
  match c with
  | GetManifest Internal repo _ | ResolveBlob Internal repo _ | Referrers Internal repo _ =>
      in_namespace namespace repo
  | CtxErr | Message _ _ => True
  | _ => False
  end.

Lemma reads_from_own namespace repo h X (c : icmd X) :
  in_namespace namespace repo → reads_from Internal repo h X c → reads_own namespace h X c.
Proof. intros Hr Hc. right. destruct c; simpl in *; try done; by destruct Hc as [-> ->]. Qed.

(** ** Tagging *)

(** Reading from one repository and publishing to another. *)
Definition copies (missing : history icmd → string → Prop) (from to : side) (src ref : Reference) :
    guard (cmd:=icmd) := λ h X c,
  reads_from from (Repository src) h X c ∨ publishes full_names missing from to src ref h X c.

Lemma attached_to_wp client root missing (Hm : ∀ h h' d, h `suffix_of` h' → missing h d → missing h' d) l : ∀ h,
  wp R (reads_from client (Repository root)) (attached_to client root l) h
    (λ h' r, h `suffix_of` h' ∧ ∀ ds, r = Ok ds → well_ordered full_names missing h' ds).
Proof.
  induction l as [|d l IH]; intros h; cbn [attached_to].
  { rewrite wp_ret. split; [done|]. intros ? [= <-]. apply well_ordered_blobs. intros b Hb. by apply not_elem_of_nil in Hb. }
  destruct (is_blob d); [apply IH|]. rewrite wp_bind_res.
  eapply wp_post; [|apply (referrers_wp R HR full_names missing Hm full_names_blobs)].
  intros h1 [ds|e] [Hs1 Hds]; [|done]. rewrite wp_bind_res. eapply wp_post; [|apply IH].
  intros h2 [rest|e] [Hs2 Hrest]; [|by split; [etrans|]]. rewrite wp_ret. split; [by etrans|].
  intros ? [= <-]. apply well_ordered_app; [done| |by apply Hrest].
  eapply well_ordered_mono; [done|exact Hs2|by apply Hds].
Qed.

Lemma copy_tagged_wp root dst h :
  wp R (λ h' X c, copies (left_out Internal true root) Internal Internal root dst h' X c ∧ h `suffix_of` h')
    (copy_tagged root dst) h
    (λ h' r, (r = Ok tt → ∃ m, Digest m = ref_Digest root ∧ pushed Internal dst h' m) ∧ h `suffix_of` h').
Proof.
  apply wp_suffix_guard, wp_suffix. unfold copy_tagged. rewrite wp_bind_res.
  set (missing := left_out Internal true root).
  eapply (wp_mono _ (reads_from Internal (Repository root))); [by left| |
    by apply (imageDescriptors_wp R HR rank Hacyclic)].
  intros h2 [l|e] [Hs2 Hl]; [|done]. destruct (Hl l eq_refl) as [Hord (m & Hm & Hman & Hdig)].
  rewrite wp_bind_res. eapply (wp_mono _ (reads_from Internal (Repository root))); [by left| |
    apply (attached_to_wp Internal root missing (left_out_mono _ _ _))].
  intros h3 [attached|e] [Hs3 Hatt]; [|done]. apply (copy_push_wp full_names missing (left_out_mono _ _ _)).
  - apply well_ordered_app; [apply left_out_mono| |by apply Hatt].
    eapply well_ordered_mono; [apply left_out_mono|exact Hs3|exact Hord].
  - by right.
  - done.
  - intros ok h4 Hs4 Hpushed. rewrite wp_ret. intros _. exists m. split; [done|].
    apply Hpushed; [|done]. apply elem_of_app. by left.
Qed.

Section tag.
Context (id : Identity) (name : string) (target : Reference).
Local Abbreviation destination := (repositoryFor id target).

(** When each command of a new tag may be issued: content goes from the repository of an
    image that the name names into the one of the target. *)
Definition tags_image : guard (cmd:=icmd) := λ h X c,
  reads_own (Namespace id) h X c ∨
  ∃ image h0, image_named id name h0 image ∧ h0 `suffix_of` h ∧
    let src := source_ref image in
    publishes full_names (left_out Internal true src) Internal Internal src
      (with_Digest destination (ri_digest image)) h X c.

(** The target's tag names an image that the name names. *)
Definition target_tagged (h : history icmd) : Prop :=
  ∃ image h0 data mt, image_named id name h0 image ∧ h0 `suffix_of` h ∧
    Event _ (PushManifest Internal (Repository destination) data mt (ri_digest image) [Tag target]) (Ok tt) ∈ h.

Lemma TagImage_wp client h :
  Namespace id ≠ "" →
  wp R tags_image (TagImage page_fuel client (Some id) name target) h (λ h' r, r = Ok tt → target_tagged h').
Proof.
  intros Hne. unfold TagImage.
  destruct (bool_decide (Repository target = "") || _ || _) eqn:E; [done|].
  apply orb_false_iff in E as [[_ Htag%bool_decide_eq_false]%orb_false_iff _].
  destruct client as [[]|e]; [|done]. rewrite wp_bind_res.
  eapply (wp_mono _ (reads_namespace (Namespace id))); [by left; left| |by apply resolveImage_wp].
  intros h1 [image|e] Himage; [|done]. specialize (Himage image eq_refl).
  pose proof Himage as (_ & _ & Hown).
  set (dst := with_Digest destination (ri_digest image)).
  assert (Tag dst = Tag target) as Htag'.
  { unfold dst, repositoryFor. simpl. by rewrite (bool_decide_eq_false_2 (Tag target = "")). }
  eapply wp_mono; [| |apply (copy_tagged_wp (source_ref image) dst)].
  - intros h2 X c [[Hc|Hc] Hs]; [left; by eapply (reads_from_own _ (ri_repository image))|].
    right. by exists image, h1.
  - intros h2 r [Hr Hs] Hok. destruct (Hr Hok) as (m & Hdig & Hpushed).
    exists image, h1, (Data m), (MediaType m). split_and!; [done..|].
    unfold pushed in Hpushed. rewrite Hdig, Htag', decide_True, decide_False in Hpushed by done. exact Hpushed.
Qed.
End tag.

(** ** Pushing *)

Section image.
Context (id : Identity) (ref : Reference).
Local Abbreviation own := (Repository (repositoryFor id ref)).

(** The tags that a push is for: the one that was named, or those of the caller's own
    repository that are not the form of a digest. *)
Definition asked_tag (h : history icmd) (t : string) : Prop :=
  if decide (Tag ref = "") then
    ∃ after records record, Event _ (TagRecords own after) (Ok records) ∈ h ∧
      record ∈ records ∧ tag_Tag record = t ∧ byDigest t = false
  else t = Tag ref.

(** When each command of a push may be issued. *)
Definition pushes_image : guard (cmd:=icmd) := λ h X c,
  reads_own (Namespace id) h X c ∨
  match c with
  | CopyBlobs from to src repo _ =>
      from = Internal ∧ to = Remote ∧ in_namespace (Namespace id) src ∧ repo = Repository ref
  | PushManifest s repo data mt digest tags => s = Remote ∧ repo = Repository ref ∧ data ≠ "" ∧
      (∀ x, x ∈ full_names mt data → published Remote repo h (Digest x)) ∧ ∀ t, t ∈ tags → asked_tag h t
  | _ => False
  end.

Definition tag_pushed (h : history icmd) (t : string) : Prop :=
  ∃ data mt digest, Event _ (PushManifest Remote (Repository ref) data mt digest
    (if decide (t = "") then [] else [t])) (Ok tt) ∈ h.

Lemma asked_tag_mono h h' t : h `suffix_of` h' → asked_tag h t → asked_tag h' t.
Proof using.
  clear R HR rank Hacyclic. unfold asked_tag. intros [l ->]. case_decide; [|done].
  intros (after & records & record & ? & ?). exists after, records, record. set_solver.
Qed.

Lemma tag_pushed_mono h h' t : h `suffix_of` h' → tag_pushed h t → tag_pushed h' t.
Proof using.
  clear R HR rank Hacyclic. intros [l ->] (data & mt & digest & ?). exists data, mt, digest. set_solver.
Qed.

Lemma pushDescriptors_wp src h :
  in_namespace (Namespace id) (Repository src) →
  wp R (reads_own (Namespace id)) (pushDescriptors Internal src) h (λ h' r, h `suffix_of` h' ∧ ∀ l, r = Ok l →
    well_ordered full_names never h' l ∧ has_manifest l (ref_Digest src)).
Proof.
  intros Hin. eapply (wp_mono _ (reads_from Internal (Repository src)));
    [| |by apply (imageDescriptors_wp R HR rank Hacyclic)].
  - intros h' X c. by apply reads_from_own.
  - intros h' r [Hs Hr]. split; [done|]. intros l Hl. destruct (Hr l Hl) as [Hord ?]. split; [|done].
    eapply well_ordered_weaken; [|exact Hord]. by intros ? ? [? _].
Qed.

Context (source : resolvedImage) (Hsource : in_namespace (Namespace id) (ri_repository source)).

Lemma platform_only_wp client tree requested h :
  wp R (reads_own (Namespace id))
    (do? target <- pushPlatform client (ri_repository source) tree requested;
     do? descriptors <- pushDescriptors Internal (with_Digest (source_ref source) (Digest target));
     Ret (Ok (target, descriptors))) h
    (λ h' r, ∀ target ds, r = Ok (target, ds) →
       well_ordered full_names never h' ds ∧ has_manifest ds (Digest target)).
Proof.
  rewrite wp_bind_res. unfold pushPlatform. rewrite wp_bind_res.
  eapply (wp_mono _ (reads_namespace (Namespace id))); [by left| |by apply listManifestSummaries_reads].
  intros h1 [[summaries total]|e] _; [|done]. rewrite wp_ret.
  destruct (select_candidate _ _) as [selected|e]; simpl; [|done]. rewrite wp_bind_res.
  eapply wp_post; [|by apply pushDescriptors_wp]. intros h2 [ds|e] [_ Hr]; [|done]. rewrite wp_ret.
  intros ? ? [= <- <-]. by apply Hr.
Qed.

Lemma select_pushed_wp client tree original requested h :
  Digest original = ri_digest source →
  wp R (reads_own (Namespace id)) (select_pushed client source tree original requested) h
    (λ h' r, ∀ target ds, r = Ok (target, ds) →
       well_ordered full_names never h' ds ∧ has_manifest ds (Digest target)).
Proof.
  intros Horig. unfold select_pushed. destruct requested; [apply platform_only_wp|].
  rewrite wp_bind. eapply wp_post; [|by apply pushDescriptors_wp]. intros h1 [ds|e] [_ Hr].
  - rewrite wp_ret. intros ? ? [= <- <-]. rewrite Horig. by apply Hr.
  - destruct (_ && _); [apply platform_only_wp|done].
Qed.

Lemma pushed_referrers_wp original target requested h :
  wp R (reads_own (Namespace id)) (pushed_referrers source original target requested) h
    (λ h' r, h `suffix_of` h' ∧ ∀ attached, r = Ok attached → well_ordered full_names never h' attached).
Proof.
  unfold pushed_referrers. destruct (_ && _).
  - eapply wp_mono; [| |apply (referrers_wp R HR full_names never never_mono full_names_blobs)]; [|done].
    intros h' X c. by apply (reads_from_own _ (ri_repository source)).
  - rewrite wp_ret. split; [done|]. intros ? [= <-]. apply well_ordered_blobs. intros b Hb.
    by apply not_elem_of_nil in Hb.
Qed.

Lemma push_image_wp client tree tag requested h :
  asked_tag h tag →
  wp R pushes_image (push_image client source tree (with_Tag ref tag) requested) h
    (λ h' r, h `suffix_of` h' ∧ (r = Ok tt → tag_pushed h' tag)).
Proof.
  intros Hasked. assert (∀ h X c, reads_own (Namespace id) h X c → pushes_image h X c) as Hreads by by left.
  unfold push_image. rewrite wp_bind_res. unfold getManifest. rewrite wp_call. split; [by left; right|].
  intros r Hans. set (h0 := Event _ _ r :: h). assert (h `suffix_of` h0) as Hs0 by by apply suffix_cons_r.
  destruct r as [original|e]; [|done]. destruct (HR _ _ _ _ Hans original eq_refl) as [Horig _].
  rewrite wp_bind_res. eapply (wp_mono _ (reads_own (Namespace id))); [exact Hreads| |
    by apply wp_suffix, select_pushed_wp].
  intros h1 [[target ds]|e] [Hsel Hs1]; [|split; [by etrans|done]].
  destruct (Hsel _ _ eq_refl) as [Hord (m & Hm & Hman & Hdig)].
  rewrite wp_bind_res. eapply (wp_mono _ (reads_own (Namespace id))); [exact Hreads| |apply pushed_referrers_wp].
  intros h2 [attached|e] [Hs2 Hatt]; [|split; [etrans; [exact Hs0|]; by etrans|done]].
  assert (h `suffix_of` h2) as Hs02 by (etrans; [exact Hs0|]; by etrans).
  apply (copy_push_wp full_names never never_mono).
  - apply well_ordered_app; [done| |by apply Hatt]. by eapply well_ordered_mono.
  - intros h3 X c Hs3 Hc. right. destruct c; try done.
    destruct Hc as (-> & -> & Hdata & Hpub & Htags). split_and!; [done|done|done| |].
    + intros x Hx. by destruct (Hpub x Hx).
    + intros t Ht. destruct Htags as [->|[-> _]]; [by apply not_elem_of_nil in Ht|].
      apply list_elem_of_singleton in Ht as ->. eapply asked_tag_mono; [|exact Hasked]. by etrans.
    + destruct Hc as (-> & -> & -> & ->). by split_and!.
  - intros e h3 Hs3. split; [by etrans|done].
  - intros _ h3 Hs3 Hpushed.
    assert (tag_pushed h3 tag) as Hp.
    { specialize (Hpushed m ltac:(apply elem_of_app; by left) Hman). unfold pushed in Hpushed.
      rewrite Hdig, decide_True in Hpushed by done. by eexists _, _, _. }
    assert (∀ h4, h3 `suffix_of` h4 → h `suffix_of` h4 ∧ (Ok (E:=ierror) tt = Ok tt → tag_pushed h4 tag)) as Hend.
    { intros h4 Hs4. split; [etrans; [exact Hs02|]; by etrans|]. intros _. by eapply tag_pushed_mono. }
    rewrite wp_bind. destruct (_ && _).
    + rewrite wp_call. split; [by left; right|]. intros [] _. rewrite wp_bind, wp_call. split; [by left; right|].
      intros [] _. rewrite wp_ret. apply Hend. by do 2 apply suffix_cons_r.
    + rewrite wp_ret, wp_bind, wp_call. split; [by left; right|].
      intros [] _. rewrite wp_ret. apply Hend. by apply suffix_cons_r.
Qed.
End image.

Section request.
Context (id : Identity) (Hne : Namespace id ≠ "") (client : ires unit).

Lemma pushTag_wp ref tag requested h :
  asked_tag id ref h tag →
  wp R (pushes_image id ref) (pushTag page_fuel client (Some id) (with_Tag ref tag) requested) h
    (λ h' r, h `suffix_of` h' ∧ (r = Ok tt → tag_pushed ref h' tag)).
Proof.
  intros Hasked. unfold pushTag, inspectTree. rewrite !wp_bind_res.
  eapply (wp_mono _ (reads_namespace (Namespace id))); [by left; left| |by apply wp_suffix, resolveImage_wp].
  intros h1 [image|e] [Himage Hs1]; [|done]. destruct (Himage image eq_refl) as (_ & _ & Hown).
  rewrite wp_bind_res. eapply (wp_mono _ (reads_namespace (Namespace id))); [by left; left| |
    by apply imageTree_reads].
  intros h2 [tree|e] Hs2; [|split; [by etrans|done]]. rewrite wp_ret.
  destruct tree as [tree|]; [|split; [by etrans|done]]. assert (h `suffix_of` h2) as Hs by by etrans.
  eapply wp_post; [|apply push_image_wp; [done|by eapply asked_tag_mono]].
  intros h3 r [Hs3 Hr]. split; [by etrans|done].
Qed.

Lemma push_tags_wp ref requested tags : ∀ h,
  (∀ t, t ∈ tags → asked_tag id ref h t) →
  wp R (pushes_image id ref) (push_tags page_fuel client (Some id) ref requested tags) h
    (λ h' r, h `suffix_of` h' ∧ (r = Ok tt → ∀ t, t ∈ tags → tag_pushed ref h' t)).
Proof.
  induction tags as [|tag tags IH]; intros h Hasked; cbn [push_tags].
  { rewrite wp_ret. split; [done|]. intros _ t Ht. by apply not_elem_of_nil in Ht. }
  rewrite wp_bind_res. eapply wp_post; [|apply pushTag_wp, Hasked; by left].
  intros h1 [[]|e] [Hs1 Hr]; [|by split]. eapply wp_post; [|apply IH].
  - intros h2 r [Hs2 Hall]. split; [by etrans|]. intros Hok t [->|Ht]%elem_of_cons; [|by apply Hall].
    eapply tag_pushed_mono; [exact Hs2|by apply Hr].
  - intros t Ht. eapply asked_tag_mono; [exact Hs1|]. apply Hasked. by right.
Qed.

Lemma pushed_tags_wp ref h :
  wp R (pushes_image id ref) (pushed_tags page_fuel (repositoryFor id ref) ref) h
    (λ h' r, h `suffix_of` h' ∧ ∀ tags, r = Ok tags →
       (∀ t, t ∈ tags → asked_tag id ref h' t) ∧ (Tag ref ≠ "" → tags = [Tag ref])).
Proof.
  unfold pushed_tags. destruct (decide (Tag ref = "")) as [Htag|Htag].
  2: { rewrite bool_decide_eq_false_2 by done. simpl. split; [done|]. intros ? [= <-]. split; [|done].
       intros t ->%list_elem_of_singleton. unfold asked_tag. by rewrite decide_False. }
  rewrite bool_decide_eq_true_2 by done. cbn [negb].
  assert (∀ fuel after acc h1, h `suffix_of` h1 → (∀ t, t ∈ acc → asked_tag id ref h1 t) →
    wp R (pushes_image id ref)
      (tag_pages fuel (Repository (repositoryFor id ref)) after
         (λ tags records, Ret (Ok (tags ++ tagged_names records)%list)) acc) h1
      (λ h' r, h `suffix_of` h' ∧ ∀ tags, r = Ok tags → ∀ t, t ∈ tags → asked_tag id ref h' t)) as Hpages.
  2: { eapply wp_post; [|apply Hpages; [done|]]; [|intros t Ht; by apply not_elem_of_nil in Ht].
       intros h' r [Hs Hr]. split; [done|]. intros tags Hok. split; [by apply Hr|done]. }
  intros fuel. induction fuel as [|fuel IH]; intros after acc h1 Hs Hacc; cbn [tag_pages]; [by rewrite wp_ret|].
  rewrite wp_bind, wp_call. split; [left; left; apply repositoryFor_namespace|]. intros r _.
  assert (h `suffix_of` (Event _ (TagRecords (Repository (repositoryFor id ref)) after) r :: h1)) as Hs'
    by (etrans; [exact Hs|]; by apply suffix_cons_r).
  destruct r as [records|e].
  2: { rewrite wp_ret. split; [done|]. destruct (isNotFound e); [|done]. intros ? [= <-] t Ht.
       eapply asked_tag_mono; [|by apply Hacc]. by apply suffix_cons_r. }
  rewrite wp_bind_res, wp_ret.
  assert (∀ t, t ∈ (acc ++ tagged_names records)%list →
    asked_tag id ref (Event _ (TagRecords (Repository (repositoryFor id ref)) after) (Ok records) :: h1) t) as Hacc'.
  { intros t [Ht|Ht]%elem_of_app.
    - eapply asked_tag_mono; [|by apply Hacc]. by apply suffix_cons_r.
    - unfold asked_tag. rewrite decide_True by done. unfold tagged_names in Ht.
      apply list_elem_of_In, filter_In in Ht as [Ht Hnot%negb_true_iff]. apply list_elem_of_In in Ht.
      apply list_elem_of_fmap in Ht as (record & -> & Hin).
      exists after, records, record. split_and!; [by left|done..]. }
  destruct (last_page records); [|by apply IH]. rewrite wp_ret. split; [done|]. intros ? [= <-]. exact Hacc'.
Qed.
End request.
End answers.

(** The answers of registries that are addressed by content. *)
Definition addressed (rank : string → nat) : rely (cmd:=icmd) := λ h X c x,
  faithful h X c x ∧ acyclic rank h X c x.

(** A new tag copies an image within the caller's namespace, and names it.  When the
    registry's manifests are addressed by content, in every execution of [TagImage] for an
    identity with a namespace: it reads only repositories of the namespace and writes only
    the one that the target maps to; the content comes from the repository of an image
    that the name names; a manifest is pushed only after everything it names was copied or
    pushed, or after the registry answered that it does not have it; only the image itself
    gets the tag, and when the request succeeds, it has it. *)
Theorem TagImage_copies rank client id name target h h' r :
  Namespace id ≠ "" → exec (TagImage page_fuel client (Some id) name target) h h' r →
  answered (addressed rank) h h' →
  guarded (tags_image id name target) h h' ∧ (r = Ok tt → target_tagged id name target h').
Proof.
  intros Hne Hexec Hans. apply and_comm.
  eapply (wp_exec (addressed rank) _ _ _ _ _ (λ h' r, r = Ok tt → target_tagged id name target h'));
    [|exact Hexec|exact Hans].
  apply (TagImage_wp (addressed rank) ltac:(by intros ? ? ? ? []) rank ltac:(by intros ? ? ? ? [])); done.
Qed.

(** C23: A push publishes whole images of the caller's namespace.  When the registries'
    manifests are addressed by content, in every execution of [PushImage] for an identity
    with a namespace, for a reference that normalises to [ref]: it reads only the caller's
    namespace and writes only the repository of the reference at its registry; it pushes a
    manifest only after everything it names was copied or pushed, at any depth, so that no
    tag names an incomplete image; it gives only the tag that was asked for, or those of
    the caller's own repository that are no digests; and when it succeeds, at least one
    tag was asked for and each of them was pushed. *)
Theorem PushImage_publishes rank client connect id reference ref pls h h' r :
  Namespace id ≠ "" → ParseRelative (ref_String reference) = Some ref →
  exec (PushImage page_fuel client connect (Some id) reference pls) h h' r → answered (addressed rank) h h' →
  guarded (pushes_image id ref) h h' ∧
  (r = Ok tt → ∃ tags, tags ≠ [] ∧ (Tag ref ≠ "" → tags = [Tag ref]) ∧
     ∀ t, t ∈ tags → asked_tag id ref h' t ∧ tag_pushed ref h' t).
Proof.
  intros Hne Hparse Hexec Hans. apply and_comm.
  eapply (wp_exec (addressed rank) _ _ _ _ _ (λ h' r, r = Ok tt → ∃ tags, tags ≠ [] ∧
    (Tag ref ≠ "" → tags = [Tag ref]) ∧ ∀ t, t ∈ tags → asked_tag id ref h' t ∧ tag_pushed ref h' t));
    [|exact Hexec|exact Hans].
  assert (∀ h X (c : icmd X) x, addressed rank h X c x → faithful h X c x) as HR by (by intros ? ? ? ? []).
  assert (∀ h X (c : icmd X) x, addressed rank h X c x → acyclic rank h X c x) as Hac by (by intros ? ? ? ? []).
  unfold PushImage. destruct (1 <? length pls)%nat; [done|].
  destruct (match pls with [p] => _ | _ => _ end); [done|]. destruct (negb _); [done|].
  rewrite Hparse. destruct client as [[]|e]; [|done]. rewrite wp_bind_res.
  eapply wp_post; [|apply (pushed_tags_wp (addressed rank))]. intros h1 [tags|e] [Hs1 Htags]; [|done].
  destruct (Htags tags eq_refl) as [Hasked Hone]. destruct (decide (tags = [])); [done|].
  destruct (connect (Host ref)) as [[]|e]; [|done]. rewrite wp_bind, wp_call. split; [by left; right|].
  intros [] _. rewrite wp_bind. eapply wp_post; [|apply (push_tags_wp (addressed rank) HR rank Hac id Hne)].
  2: { intros t Ht. eapply asked_tag_mono; [|by apply Hasked]. by apply suffix_cons_r. }
  intros h2 [[]|e] [Hs2 Hall]; [|done]. rewrite wp_bind, wp_call. split; [by left; right|].
  intros [] _; rewrite wp_ret; [done|]. intros _. exists tags. split_and!; [done..|]. intros t Ht.
  assert (∀ e, h2 `suffix_of` (e :: h2)) as Hlast by (intros; by apply suffix_cons_r).
  split; [eapply asked_tag_mono; [|by apply Hasked]|eapply tag_pushed_mono; [apply Hlast|by apply Hall]].
  etrans; [|apply Hlast]. etrans; [|exact Hs2]. by apply suffix_cons_r.
Qed.
End push.

(** ** Witnesses *)

#[local] Existing Instances ascii_unicode demo_digests demo_references demo_config demo_platforms demo_manifests.

Lemma serve_registries_addressed h X (c : icmd X) s :
  addressed demo_rank h X c (serve_registries c s).1.
Proof. split; [apply serve_registries_faithful|apply serve_registries_acyclic]. Qed.

(** [docker tag app:1.0 app2:1.0] *)
Lemma TagImage_copies_witness :
  let target := {| Host := "docker.io"; Repository := "library/app2"; Tag := "1.0"; ref_Digest := "" |} in
  let o := run (@serve_registries) (TagImage 2 (Ok tt) (Some demo_identity) "app:1.0" target) [] tt in
  o.1.1 = Ok tt ∧ target_tagged demo_identity "app:1.0" target o.1.2.
Proof.
  intros target o. assert (o.1.1 = Ok tt) as Hok by (vm_compute; reflexivity). split; [exact Hok|].
  refine (proj2 (TagImage_copies 2 demo_rank (Ok tt) demo_identity "app:1.0" target [] o.1.2 o.1.1 _ _ _) Hok).
  - discriminate.
  - apply run_exec.
  - apply run_answered. intros. apply serve_registries_addressed.
Defined.

(** [docker push app:1.0] *)
Lemma PushImage_publishes_witness :
  let ref := {| Host := "docker.io"; Repository := "library/app"; Tag := "1.0"; ref_Digest := "" |} in
  let o := run (@serve_registries)
             (PushImage 2 (Ok tt) (λ _, Ok tt) (Some demo_identity) ref []) [] tt in
  o.1.1 = Ok tt ∧ tag_pushed ref o.1.2 "1.0".
Proof.
  intros ref o. assert (o.1.1 = Ok tt) as Hok by (vm_compute; reflexivity). split; [exact Hok|].
  destruct (PushImage_publishes 2 demo_rank (Ok tt) (λ _, Ok tt) demo_identity ref ref [] [] o.1.2 o.1.1)
    as [_ Hall].
  - discriminate.
  - reflexivity.
  - apply run_exec.
  - apply run_answered. intros. apply serve_registries_addressed.
  - destruct (Hall Hok) as (tags & _ & Hone & Htags). rewrite Hone in Htags by discriminate.
    apply (Htags "1.0"). by left.
Defined.
