(* ===== verification/Copier.v ===== *)
(** * Copier: [copier.copyBlobs] in [core/registry/pull.go]

    The blobs of an image are copied by goroutines, at most three at a time.  The copy of
    one blob is a program; the pool is a step relation, in which any goroutine's next
    command may be answered at any time.  This is what is behind the command [CopyBlobs]:
    when it returns a result, every blob is at its destination.

    The end of a goroutine is one step: it notes its result under the mutex, cancels the
    context after a failure and frees its slot, which no other step can tell apart. *)

From S2P Require Import Prelude GoStrings Errors Prog Oci.

Local Open Scope string_scope.

Definition maxConcurrentLayers : nat := 3.

Section copier.
Context `{Digests} (client destination : side) (srcRepo dstRepo : string) (out pushing : bool).

(** ** One blob *)

Definition report (desc : Descriptor) (msg : string) : iproc unit :=
  if out && (negb pushing || isImageLayer (MediaType desc))
  then call (Message (idForRef (Digest desc)) msg) else Ret tt.

Definition reportType (desc : Descriptor) : iproc unit :=
  if isConfig (MediaType desc) then Ret tt
  else if isImageLayer (MediaType desc) then report desc (if pushing then "Pushed" else "Pull Complete")
  else report desc "Download Complete".

Definition copyBlob (desc : Descriptor) : iproc (ires bool) :=
  do cached <- call (ResolveBlob destination dstRepo (Digest desc));
  match contentExists cached with
  | Err e => Ret (Err e)
  | Ok (Some _) => do _ <- report desc "Already exists"; Ret (Ok false)
  | Ok None =>
      if decide (Data desc = "") then
        do blob <- call (GetBlob client srcRepo (Digest desc));
        match blob with
        | Err e => Ret (Err (Failed "get blob %s: %w" (Some e)))
        | Ok content =>
            do r <- call (PushBlob destination dstRepo desc content);
            match r with
            | Err e => Ret (Err (Failed "push blob %s: %w" (Some e)))
            | Ok _ => do _ <- reportType desc; Ret (Ok true)
            end
        end
      else
        do r <- call (PushBlob destination dstRepo desc (Ok (Data desc)));
        match r with
        | Err e => Ret (Err e)
        | Ok _ => do _ <- reportType desc; Ret (Ok true)
        end
  end.

(** ** The pool *)

Inductive phase := Scheduling | Waiting | Returned (r : ires bool).

(** The blobs not started, the goroutines with what is left of their copy, the shared
    variables, whether the context is cancelled, what [copyBlobs] itself does, and all
    commands so far. *)
Record pool := {
  queue : list Descriptor;
  threads : list (Descriptor * iproc (ires bool));
  copied : bool;
  copyErr : option ierror;
  cancelled : bool;
  main : phase;
  hist : history icmd
}.

Definition start (blobs : list Descriptor) : pool :=
  {| queue := blobs; threads := []; copied := false; copyErr := None; cancelled := false;
     main := Scheduling; hist := [] |}.

(** The next blob gets a goroutine. *)
Definition started (p : pool) (b : Descriptor) (q : list Descriptor) : pool :=
  {| queue := q; threads := (threads p ++ [(b, copyBlob b)])%list; copied := copied p;
     copyErr := copyErr p; cancelled := cancelled p; main := main p; hist := hist p |}.

(** A command of a goroutine was answered. *)
Definition worked (p : pool) (l : list (Descriptor * iproc (ires bool))) (e : event icmd) : pool :=
  {| queue := queue p; threads := l; copied := copied p; copyErr := copyErr p;
     cancelled := cancelled p; main := main p; hist := e :: hist p |}.

(** A goroutine ended. *)
Definition finished (p : pool) (rest : list (Descriptor * iproc (ires bool))) (r : ires bool) : pool :=
  {| queue := queue p; threads := rest;
     copied := match r with Ok true => true | _ => copied p end;
     copyErr := match r, copyErr p with Err e, None => Some e | _, e => e end;
     cancelled := match r with Err _ => true | Ok _ => cancelled p end;
     main := main p; hist := hist p |}.

(** [stopAndReturn], once no goroutine is left. *)
Definition outcome (p : pool) : ires bool :=
  match copyErr p with
  | Some e => Err e
  | None => if cancelled p then Err Cancelled else Ok (copied p)
  end.

Definition with_main (p : pool) (m : phase) : pool :=
  {| queue := queue p; threads := threads p; copied := copied p; copyErr := copyErr p;
     cancelled := cancelled p; main := m; hist := hist p |}.

(** Every step but the cancellation of the caller's context. *)
Inductive run_step (p : pool) : pool → Prop :=
| step_start b q :
    main p = Scheduling → queue p = b :: q → (length (threads p) < maxConcurrentLayers)%nat →
    run_step p (started p b q)
| step_stop b q :
    main p = Scheduling → queue p = b :: q → cancelled p = true → run_step p (with_main p Waiting)
| step_closed : main p = Scheduling → queue p = [] → run_step p (with_main p Waiting)
| step_work l1 l2 b X (c : icmd X) k x :
    threads p = (l1 ++ (b, Call c k) :: l2)%list →
    run_step p (worked p (l1 ++ (b, k x) :: l2)%list (Event _ c x))
| step_finish l1 l2 b r :
    threads p = (l1 ++ (b, Ret r) :: l2)%list → run_step p (finished p (l1 ++ l2)%list r)
| step_return :
    main p = Waiting → threads p = [] → run_step p (with_main p (Returned (outcome p))).

Definition cancel (p : pool) : pool :=
  {| queue := queue p; threads := threads p; copied := copied p; copyErr := copyErr p;
     cancelled := true; main := main p; hist := hist p |}.

Inductive step (p : pool) : pool → Prop :=
| step_run p' : run_step p p' → step p p'
| step_cancel : step p (cancel p).

Definition reachable (blobs : list Descriptor) : pool → Prop := rtc step (start blobs).

Definition returned (p : pool) : Prop := ∃ r, main p = Returned r.

(** ** What a copy leaves behind *)

(** A blob is at its destination. *)
Definition existed (h : history icmd) (b : Descriptor) : Prop :=
  ∃ desc, Event _ (ResolveBlob destination dstRepo (Digest b)) (Ok desc) ∈ h.
Definition uploaded (h : history icmd) (b : Descriptor) : Prop :=
  ∃ content, Event _ (PushBlob destination dstRepo b content) (Ok tt) ∈ h.

(** A blob is looked for at the destination, read at the source, and written under its
    own descriptor. *)
Definition copies_blob (b : Descriptor) : guard (cmd:=icmd) := λ _ _ c,
  match c with
  | ResolveBlob s repo d => s = destination ∧ repo = dstRepo ∧ d = Digest b
  | GetBlob s repo d => s = client ∧ repo = srcRepo ∧ d = Digest b
  | PushBlob s repo desc _ => s = destination ∧ repo = dstRepo ∧ desc = b
  | Message _ _ => True
  | _ => False
  end.

Lemma wp_report (R : rely (cmd:=icmd)) (G : guard (cmd:=icmd)) b msg h (Q : history icmd → unit → Prop) :
  (∀ id msg h, G h unit (Message id msg)) → (∀ h', h `suffix_of` h' → Q h' tt) → wp R G (report b msg) h Q.
Proof.
  intros HG HQ. unfold report. destruct (_ && _); [|by rewrite wp_ret; auto].
  rewrite wp_call. split; [apply HG|]. intros [] _. apply HQ. by apply suffix_cons_r.
Qed.

Lemma wp_reportType (R : rely (cmd:=icmd)) (G : guard (cmd:=icmd)) b h (Q : history icmd → unit → Prop) :
  (∀ id msg h, G h unit (Message id msg)) → (∀ h', h `suffix_of` h' → Q h' tt) → wp R G (reportType b) h Q.
Proof.
  intros HG HQ. unfold reportType. destruct (isConfig _); [by rewrite wp_ret; auto|].
  destruct (isImageLayer _); by apply wp_report.
Qed.

Lemma copyBlob_wp b h :
  wp any_answer (copies_blob b) (copyBlob b) h
    (λ h' r, ∀ ok, r = Ok ok → if ok : bool then uploaded h' b else existed h' b).
Proof.
  unfold copyBlob. rewrite wp_bind, wp_call. split; [done|]. intros cached _.
  destruct cached as [desc|e]; cbn [contentExists].
  { rewrite wp_bind. apply wp_report; [done|]. intros h' [l ->]. rewrite wp_ret.
    intros ? [= <-]. exists desc. set_solver. }
  destruct (isNotFound e); [|done].
  assert (∀ content h1, wp any_answer (copies_blob b) (do _ <- reportType b; Ret (Ok (E:=ierror) true))
            (Event _ (PushBlob destination dstRepo b content) (Ok tt) :: h1)
            (λ h' r, ∀ ok, r = Ok ok → if ok : bool then uploaded h' b else existed h' b)) as Hend.
  { intros content h1. rewrite wp_bind. apply wp_reportType; [done|]. intros h' [l ->]. rewrite wp_ret.
    intros ? [= <-]. exists content. set_solver. }
  case_decide.
  - rewrite wp_bind, wp_call. split; [done|]. intros [content|e'] _; [|done].
    rewrite wp_bind, wp_call. split; [done|]. intros [[]|e'] _; [apply Hend|done].
  - rewrite wp_bind, wp_call. split; [done|]. intros [[]|e'] _; [apply Hend|done].
Qed.

(** ** The pool's invariant *)

(** The copy of [b] ended with [r], and its commands are among those of the pool. *)
Definition ended (h : history icmd) (b : Descriptor) (r : ires bool) : Prop :=
  ∃ l, l ⊆ h ∧ exec (copyBlob b) [] l r.

(** What is left of the copy of [b] in a goroutine. *)
Definition rest_of (h : history icmd) (b : Descriptor) (t : iproc (ires bool)) : Prop :=
  ∃ l, l ⊆ h ∧ ∀ h' r, exec t l h' r → exec (copyBlob b) [] h' r.

Lemma ended_mono h h' b r : h ⊆ h' → ended h b r → ended h' b r.
Proof. intros Hh (l & ? & ?). exists l. split; [by etrans|done]. Qed.

Lemma rest_of_mono h h' b t : h ⊆ h' → rest_of h b t → rest_of h' b t.
Proof. intros Hh (l & ? & ?). exists l. split; [by etrans|done]. Qed.

Lemma rest_of_start h b : rest_of h b (copyBlob b).
Proof. exists []. split; [by intros ? ?%not_elem_of_nil|done]. Qed.

Lemma rest_of_step h b X (c : icmd X) k x : rest_of h b (Call c k) → rest_of (Event _ c x :: h) b (k x).
Proof.
  intros (l & Hl & Hexec). exists (Event _ c x :: l). split.
  - intros e [->|He]%elem_of_cons; [by left|right; by apply Hl].
  - intros h' r Hr. apply Hexec. by econstructor.
Qed.

Lemma rest_of_end h b r : rest_of h b (Ret r) → ended h b r.
Proof. intros (l & Hl & Hexec). exists l. split; [done|]. apply Hexec. constructor. Qed.

(** Where a blob is: waiting, being copied, copied, or given up. *)
Definition accounted (p : pool) (b : Descriptor) : Prop :=
  b ∈ queue p ∨ (∃ t, (b, t) ∈ threads p) ∨
  (∃ ok, ended (hist p) b (Ok ok) ∧ (ok = true → copied p = true)) ∨
  is_Some (copyErr p) ∨ (main p ≠ Scheduling ∧ cancelled p = true).

Record invariant (blobs : list Descriptor) (p : pool) : Prop := {
  inv_bounded : (length (threads p) ≤ maxConcurrentLayers)%nat;
  inv_threads : ∀ b t, (b, t) ∈ threads p → b ∈ blobs ∧ rest_of (hist p) b t;
  inv_queue : ∀ b, b ∈ queue p → b ∈ blobs;
  inv_blobs : ∀ b, b ∈ blobs → accounted p b;
  inv_copied : copied p = true → ∃ b, b ∈ blobs ∧ ended (hist p) b (Ok true);
  inv_err : ∀ e, copyErr p = Some e → cancelled p = true ∧ ∃ b, b ∈ blobs ∧ ended (hist p) b (Err e);
  inv_main : main p ≠ Scheduling → queue p = [] ∨ cancelled p = true;
  inv_returned : ∀ r, main p = Returned r → threads p = [] ∧
    match r with
    | Ok ok => copyErr p = None ∧ ok = copied p ∧ ∀ b, b ∈ blobs → ∃ c, ended (hist p) b (Ok c) ∧ (c = true → ok = true)
    | Err e => copyErr p = Some e ∨ (e = Cancelled ∧ cancelled p = true)
    end
}.

Lemma invariant_start blobs : invariant blobs (start blobs).
Proof.
  split; simpl; try done; [lia| |].
  - intros b t Hb. by apply not_elem_of_nil in Hb.
  - intros b Hb. by left.
Qed.

(** The steps of a goroutine are not taken after the return. *)
Lemma running_not_returned blobs p l1 t l2 r :
  invariant blobs p → threads p = (l1 ++ t :: l2)%list → main p ≠ Returned r.
Proof. intros Hinv Ht Hr. destruct (inv_returned _ _ Hinv _ Hr) as [Hnil _]. rewrite Hnil in Ht. by destruct l1. Qed.

Lemma invariant_work blobs p l1 l2 b X (c : icmd X) k x :
  invariant blobs p → threads p = (l1 ++ (b, Call c k) :: l2)%list →
  invariant blobs (worked p (l1 ++ (b, k x) :: l2)%list (Event _ c x)).
Proof.
  intros Hinv Ht. assert (hist p ⊆ Event _ c x :: hist p) as Hh by (intros e; by right).
  assert (∀ b' t, (b', t) ∈ l1 ∨ (b', t) ∈ l2 → (b', t) ∈ threads p) as Hold.
  { intros b' t Hin. rewrite Ht. apply elem_of_app. rewrite elem_of_cons. tauto. }
  split; simpl.
  - pose proof (inv_bounded _ _ Hinv) as Hb. rewrite Ht in Hb. by rewrite !length_app in *.
  - intros b' t [Hin|[[= -> ->]|Hin]%elem_of_cons]%elem_of_app.
    + destruct (inv_threads _ _ Hinv b' t) as [? ?]; [by apply Hold; left|]. split; [done|by eapply rest_of_mono].
    + destruct (inv_threads _ _ Hinv b (Call c k)) as [? ?]; [rewrite Ht; apply elem_of_app; right; by left|].
      split; [done|by apply rest_of_step].
    + destruct (inv_threads _ _ Hinv b' t) as [? ?]; [by apply Hold; right|]. split; [done|by eapply rest_of_mono].
  - apply (inv_queue _ _ Hinv).
  - intros b' Hb. destruct (inv_blobs _ _ Hinv b' Hb) as [?|[[t Hin]|[(ok & ? & ?)|[?|?]]]].
    + by left.
    + right. left. simpl. rewrite Ht in Hin. apply elem_of_app in Hin as [Hin|[[= -> ->]|Hin]%elem_of_cons].
      * exists t. apply elem_of_app. by left.
      * exists (k x). apply elem_of_app. right. by left.
      * exists t. apply elem_of_app. right. by right.
    + right. right. left. exists ok. split; [by eapply ended_mono|done].
    + by do 3 right; left.
    + by do 4 right.
  - intros Hc. destruct (inv_copied _ _ Hinv Hc) as (b' & ? & ?). exists b'. split; [done|by eapply ended_mono].
  - intros e He. destruct (inv_err _ _ Hinv e He) as (? & b' & ? & ?). split; [done|]. exists b'.
    split; [done|by eapply ended_mono].
  - apply (inv_main _ _ Hinv).
  - intros r Hr. destruct (inv_returned _ _ Hinv r Hr) as [Hnil _]. rewrite Hnil in Ht. by destruct l1.
Qed.

Lemma invariant_finish blobs p l1 l2 b r :
  invariant blobs p → threads p = (l1 ++ (b, Ret r) :: l2)%list →
  invariant blobs (finished p (l1 ++ l2)%list r).
Proof.
  intros Hinv Ht.
  assert (∀ b' t, (b', t) ∈ (l1 ++ l2)%list → (b', t) ∈ threads p) as Hold.
  { intros b' t Hin. rewrite Ht. rewrite elem_of_app in *. rewrite elem_of_cons. tauto. }
  destruct (inv_threads _ _ Hinv b (Ret r)) as [Hb Hend%rest_of_end].
  { rewrite Ht. apply elem_of_app. right. by left. }
  split; simpl.
  - pose proof (inv_bounded _ _ Hinv) as Hlen. rewrite Ht in Hlen. rewrite !length_app in *. simpl in Hlen. lia.
  - intros b' t Hin. by apply (inv_threads _ _ Hinv), Hold.
  - apply (inv_queue _ _ Hinv).
  - intros b' Hb'. destruct (inv_blobs _ _ Hinv b' Hb') as [?|[[t Hin]|[(ok & ? & Hok)|[[e He]|[? Hc]]]]].
    + by left.
    + rewrite Ht in Hin. apply elem_of_app in Hin as [Hin|[[= -> ->]|Hin]%elem_of_cons].
      * right. left. exists t. apply elem_of_app. by left.
      * right. right. destruct r as [ok|e]; [left; exists ok; split; [done|by intros ->]|].
        right. left. simpl. by destruct (copyErr p).
      * right. left. exists t. apply elem_of_app. by right.
    + right. right. left. exists ok. split; [done|]. intros Htrue. simpl. destruct r as [[]|]; auto.
    + do 3 right. left. simpl. rewrite He. by destruct r.
    + do 4 right. split; [done|]. simpl. by destruct r.
  - intros Hc. assert (copied p = true ∨ r = Ok true) as [Hc'| ->] by (destruct r as [[]|]; auto);
      [by apply (inv_copied _ _ Hinv)|by exists b].
  - intros e He. destruct r as [ok|e']; [by apply (inv_err _ _ Hinv)|]. split; [done|].
    destruct (copyErr p) as [e0|] eqn:E; [|injection He as ->; by exists b].
    injection He as ->. by apply (inv_err _ _ Hinv).
  - intros Hm. destruct (inv_main _ _ Hinv Hm) as [?|?]; [by left|right; by destruct r].
  - intros r' Hr. exfalso. by apply (running_not_returned _ _ _ _ _ _ Hinv Ht Hr).
Qed.

Lemma invariant_start_blob blobs p b q :
  invariant blobs p → main p = Scheduling → queue p = b :: q → (length (threads p) < maxConcurrentLayers)%nat →
  invariant blobs (started p b q).
Proof.
  intros Hinv Hm Hq Hlen. assert (b ∈ blobs) as Hb by (apply (inv_queue _ _ Hinv); rewrite Hq; by left).
  split; simpl.
  - rewrite length_app. simpl. lia.
  - intros b' t [Hin|[= -> ->]%list_elem_of_singleton]%elem_of_app; [by apply (inv_threads _ _ Hinv)|].
    split; [done|apply rest_of_start].
  - intros b' Hin. apply (inv_queue _ _ Hinv). rewrite Hq. by right.
  - intros b' Hb'. destruct (inv_blobs _ _ Hinv b' Hb') as [Hin|[[t Hin]|Hrest]]; [| |by right; right].
    + rewrite Hq in Hin. apply elem_of_cons in Hin as [->|Hin]; [|by left].
      right. left. exists (copyBlob b). apply elem_of_app. right. by apply list_elem_of_singleton.
    + right. left. exists t. apply elem_of_app. by left.
  - apply (inv_copied _ _ Hinv).
  - apply (inv_err _ _ Hinv).
  - done.
  - intros r Hr. rewrite Hm in Hr. done.
Qed.

(** Waiting for the goroutines, when all were started or the context is done. *)
Lemma invariant_wait blobs p :
  invariant blobs p → main p = Scheduling → queue p = [] ∨ cancelled p = true →
  invariant blobs (with_main p Waiting).
Proof.
  intros [] Hm Hw. split; simpl; try done. intros b Hb.
  destruct (inv_blobs0 b Hb) as [?|[?|[?|[?|[? _]]]]]; [by left|by right; left|by do 2 right; left|by do 3 right; left|done].
Qed.

Lemma invariant_return blobs p :
  invariant blobs p → main p = Waiting → threads p = [] →
  invariant blobs (with_main p (Returned (outcome p))).
Proof.
  intros Hinv Hm Ht. assert (main p ≠ Scheduling) as Hm' by by rewrite Hm.
  pose proof Hinv as []. split; simpl; try done.
  - intros b Hb. destruct (inv_blobs0 b Hb) as [?|[?|[?|[?|[_ ?]]]]];
      [by left|by right; left|by do 2 right; left|by do 3 right; left|by do 4 right].
  - intros _. by apply inv_main0.
  - intros r [= <-]. split; [done|]. unfold outcome. destruct (copyErr p) as [e|] eqn:Ee; [by left|].
    destruct (cancelled p) eqn:Ec; [by right|]. split_and!; [done|done|]. intros b Hb.
    destruct (inv_main0 Hm') as [Hq|]; [|congruence].
    destruct (inv_blobs0 b Hb) as [Hin|[[t Hin]|[?|[[e He]|[_ ?]]]]]; [| |done|congruence..].
    + rewrite Hq in Hin. by apply not_elem_of_nil in Hin.
    + rewrite Ht in Hin. by apply not_elem_of_nil in Hin.
Qed.

Lemma invariant_cancel blobs p : invariant blobs p → invariant blobs (cancel p).
Proof.
  intros []. split; simpl; try done.
  - intros b Hb. destruct (inv_blobs0 b Hb) as [?|[?|[?|[?|[? _]]]]];
      [by left|by right; left|by do 2 right; left|by do 3 right; left|by do 4 right].
  - intros e He. destruct (inv_err0 e He) as [_ ?]. done.
  - intros _. by right.
  - intros r Hr. destruct (inv_returned0 r Hr) as [? Hres]. split; [done|].
    destruct r; [done|]. destruct Hres as [?|[? _]]; auto.
Qed.

Lemma pool_invariant_step blobs p p' : invariant blobs p → step p p' → invariant blobs p'.
Proof.
  intros Hinv [p1 Hrun|]; [|by apply invariant_cancel]. destruct Hrun.
  - by apply invariant_start_blob.
  - apply invariant_wait; auto.
  - apply invariant_wait; auto.
  - by eapply invariant_work.
  - by eapply invariant_finish.
  - by apply invariant_return.
Qed.

Lemma reachable_pool_invariant blobs p : reachable blobs p → invariant blobs p.
Proof.
  intros Hr. unfold reachable in Hr. remember (start blobs) as p0 eqn:E.
  assert (invariant blobs p0) as Hinv by (rewrite E; apply invariant_start). clear E.
  induction Hr as [|p1 p2 p3 Hs Hr IH]; [done|]. apply IH. by eapply pool_invariant_step.
Qed.

Lemma ended_copied h b ok : ended h b (Ok ok) → if ok then uploaded h b else existed h b.
Proof.
  intros (l & Hl & Hexec).
  destruct (wp_exec _ _ _ _ _ _ _ (copyBlob_wp b []) Hexec (exec_any_answer _ _ _ _ Hexec)) as [Hok _].
  specialize (Hok ok eq_refl). destruct ok; destruct Hok as [x Hx]; exists x; by apply Hl.
Qed.

(** C24: Copying blobs concurrently copies all of them.  In every state that the goroutines
    of [copyBlobs] can reach, however their steps interleave and whatever the registries
    answer: at most three blobs are being copied, each of them one of those given; when it
    has returned, no goroutine is left; a result means that every blob is at its
    destination, where it was found or uploaded under its own descriptor, and the result
    is true only when one was uploaded, and false only when all were found; and an error is that of the copy of one of the
    blobs, or the cancellation of the context. *)
Theorem copyBlobs_copies_all blobs p :
  reachable blobs p →
  (length (threads p) ≤ maxConcurrentLayers)%nat ∧ (∀ b t, (b, t) ∈ threads p → b ∈ blobs) ∧
  ∀ r, main p = Returned r → threads p = [] ∧
    match r with
    | Ok ok =>
        (∀ b, b ∈ blobs → uploaded (hist p) b ∧ ok = true ∨ existed (hist p) b) ∧
        (ok = true → ∃ b, b ∈ blobs ∧ uploaded (hist p) b)
    | Err e => (∃ b, b ∈ blobs ∧ ended (hist p) b (Err e)) ∨ e = Cancelled ∧ cancelled p = true
    end.
Proof.
  intros Hinv%reachable_pool_invariant. split; [apply (inv_bounded _ _ Hinv)|].
  split; [intros b t Hin; by apply (inv_threads _ _ Hinv b t)|].
  intros r Hr. destruct (inv_returned _ _ Hinv r Hr) as [Ht Hres]. split; [done|].
  destruct r as [ok|e].
  - destruct Hres as (_ & -> & Hall). split.
    + intros b Hb. destruct (Hall b Hb) as (c & Hc%ended_copied & Hok). destruct c; [left|by right]. auto.
    + intros Hc. destruct (inv_copied _ _ Hinv Hc) as (b & Hb & Hend%ended_copied). by exists b.
  - destruct Hres as [He|?]; [left|by right]. by apply (inv_err _ _ Hinv).
Qed.

(** ** It returns *)

Lemma answer {X} (c : icmd X) : X.
Proof. destruct c; first [exact (Err Cancelled)|exact false|exact tt]. Defined.

(** A goroutine runs to its end. *)
Lemma thread_ends b t : ∀ p l, threads p = (b, t) :: l →
  ∃ p', rtc run_step p p' ∧ threads p' = l ∧ main p' = main p ∧ queue p' = queue p.
Proof.
  induction t as [r|X c k IH]; intros p l Ht.
  - exists (finished p l r). split; [|done]. apply rtc_once. by apply (step_finish p [] l b r).
  - set (p1 := worked p ((b, k (answer c)) :: l) (Event _ c (answer c))).
    destruct (IH (answer c) p1 l eq_refl) as (p' & Hsteps & Hrest). exists p'. split; [|exact Hrest].
    eapply rtc_l; [by apply (step_work p [] l b _ c k (answer c))|exact Hsteps].
Qed.

Lemma threads_end l : ∀ p, threads p = l →
  ∃ p', rtc run_step p p' ∧ threads p' = [] ∧ main p' = main p ∧ queue p' = queue p.
Proof.
  induction l as [|[b t] l IH]; intros p Ht; [by exists p|].
  destruct (thread_ends b t p l Ht) as (p1 & Hs1 & Ht1 & Hm1 & Hq1).
  destruct (IH p1 Ht1) as (p2 & Hs2 & Ht2 & Hm2 & Hq2). exists p2.
  split_and!; [by etrans|done|by rewrite Hm2|by rewrite Hq2].
Qed.

Lemma waiting_returns p : main p = Waiting → ∃ p' r, rtc run_step p p' ∧ main p' = Returned r.
Proof.
  intros Hm. destruct (threads_end _ p eq_refl) as (p1 & Hs1 & Ht1 & Hm1 & _).
  eexists _, _. split; [eapply rtc_r; [exact Hs1|apply step_return; [by rewrite Hm1|done]]|done].
Qed.

Lemma scheduling_returns q : ∀ p, queue p = q → main p = Scheduling →
  ∃ p' r, rtc run_step p p' ∧ main p' = Returned r.
Proof.
  induction q as [|b q IH]; intros p Hq Hm.
  { destruct (waiting_returns (with_main p Waiting) eq_refl) as (p' & r & Hs & Hr).
    exists p', r. split; [|done]. eapply rtc_l; [by apply step_closed|done]. }
  destruct (threads_end _ p eq_refl) as (p1 & Hs1 & Ht1 & Hm1 & Hq1).
  destruct (IH (started p1 b q)) as (p' & r & Hs & Hr); [done|by rewrite <- Hm1 in Hm|].
  exists p', r. split; [|exact Hr]. etrans; [exact Hs1|]. eapply rtc_l; [apply (step_start p1 b q)|exact Hs].
  - by rewrite Hm1.
  - by rewrite Hq1.
  - rewrite Ht1. unfold maxConcurrentLayers. simpl. lia.
Qed.

(** C25: Copying blobs concurrently cannot get stuck.  From every state of [copyBlobs]
    and its goroutines, the steps of its goroutines and of itself lead to its return, with any
    number of blobs and without a cancellation: no slot stays taken, and nobody waits for
    a goroutine that is not there. *)
Theorem copyBlobs_returns p : ∃ p', rtc run_step p p' ∧ returned p'.
Proof.
  destruct (main p) as [| |r] eqn:Hm.
  - destruct (scheduling_returns _ p eq_refl Hm) as (p' & r & ? & ?). exists p'. split; [done|by exists r].
  - destruct (waiting_returns p Hm) as (p' & r & ? & ?). exists p'. split; [done|by exists r].
  - exists p. split; [done|by exists r].
Qed.
End copier.

(** ** Witness *)

(** Two blobs, one of them at the destination already. *)
Lemma copyBlobs_copies_all_witness :
  let blob d data := {| MediaType := ""; Digest := d; Size := 1; Data := data; desc_Platform := None;
                        Annotations := ∅ |} in
  let D := {| Algorithm d := d; Encoded d := d; ParseDigest := Some; LookupAlgorithm _ := None |} in
  let blobs := [blob "a" "x"; blob "b" ""] in
  ∃ p, @reachable D Remote Internal "src" "dst" false false blobs p ∧ main p = Returned (Ok true) ∧
    (∀ b, b ∈ blobs → uploaded Internal "dst" (hist p) b ∧ true = true ∨ existed Internal "dst" (hist p) b).
Proof.
  intros blob D blobs. pose (missing := Err (OciError ErrBlobUnknown) : ires Descriptor).
  assert (∃ p, @reachable D Remote Internal "src" "dst" false false blobs p ∧ main p = Returned (Ok true))
    as (p & Hp & Hr).
  { eexists. split.
    - unfold reachable.
      do 2 (eapply rtc_l; [apply step_run; eapply step_start; [reflexivity|reflexivity|simpl; unfold maxConcurrentLayers; lia]|]).
      eapply rtc_l; [eapply step_run; eapply (step_work _ _ _ _ _ _ _ [] _ _ _ _ _ missing); vm_compute; reflexivity|].
      eapply rtc_l; [eapply step_run; eapply (step_work _ _ _ _ _ _ _ [_] [] _ _ _ _ (Ok (blob "b" ""))); vm_compute; reflexivity|].
      eapply rtc_l; [eapply step_run; eapply (step_work _ _ _ _ _ _ _ [] _ _ _ _ _ (Ok tt)); vm_compute; reflexivity|].
      eapply rtc_l; [eapply step_run; eapply (step_finish _ _ _ _ _ _ _ [_] []); vm_compute; reflexivity|].
      eapply rtc_l; [eapply step_run; eapply (step_finish _ _ _ _ _ _ _ [] []); vm_compute; reflexivity|].
      eapply rtc_l; [eapply step_run; eapply step_closed; reflexivity|].
      eapply rtc_l; [eapply step_run; eapply step_return; reflexivity|]. apply rtc_refl.
    - reflexivity. }
  exists p. split; [exact Hp|]. split; [exact Hr|].
  exact (proj1 (proj2 (proj2 (proj2 (copyBlobs_copies_all _ _ _ _ _ _ blobs p Hp)) _ Hr))).
Defined.
