(* ===== verification/Config.v ===== *)
(** * Config: [core/config/config.go]

    The configuration of the daemon and its validation.  A validation returns the
    errors it joins, or none; texts are format strings. *)

From S2P Require Import Prelude GoStrings Errors Validation Net Resources.

Local Open Scope string_scope.

(** ** The configuration *)

Record AccessLog := { al_Level : string; al_Enabled : option bool }.

Record Kubernetes := {
  SystemNamespace : string;
  DefaultNamespace : string;
  HealthPort : string;
  DefaultResources : ResourceDefaults;
  cfg_NodePlacement : NodePlacement
}.

Record TLS := {
  tls_CertFile : string; tls_KeyFile : string; ClientCAFile : string; MinTLSVersion : string
}.

Record Server := {
  Host : string;
  srv_Port : string;
  DisableTLS : option bool;
  AllowPlaintextWithTLS : option bool;
  TLSPort : string
}.

Record AuthPlugin := { ap_Name : string; ap_Path : string }.
Record Auth := { au_Plugins : list AuthPlugin; PluginDir : string }.

Record BuildKit := {
  bk_URL : string; bk_CAFile : string; bk_CertFile : string; bk_KeyFile : string;
  ServerName : string; RegistryURL : string
}.

Record Registry := {
  rg_URL : string; rg_CAFile : string; rg_CertFile : string; rg_KeyFile : string; PullHost : string
}.

Record Config := {
  Log_Level : string;
  cfg_AccessLog : AccessLog;
  cfg_Kubernetes : Kubernetes;
  cfg_TLS : TLS;
  cfg_Server : Server;
  cfg_BuildKit : BuildKit;
  cfg_Auth : Auth;
  cfg_Registry : Registry
}.

Definition Default : Config := {|
  Log_Level := "info";
  cfg_AccessLog := {| al_Level := "error"; al_Enabled := Some true |};
  cfg_Kubernetes := {|
    SystemNamespace := "dink-system"; DefaultNamespace := "dink-default"; HealthPort := "8080";
    DefaultResources := {| default_Limits := {| CPU := "500m"; Mem := "512Mi" |};
                           default_Requests := {| CPU := "100m"; Mem := "128Mi" |} |};
    cfg_NodePlacement := {| Enabled := Some false; LabelKey := "dink.io/tenant"; Tolerate := Some true |} |};
  cfg_TLS := {| tls_CertFile := "/etc/dink/certs/server.crt"; tls_KeyFile := "/etc/dink/certs/server.key";
                ClientCAFile := "/etc/dink/certs/ca.crt"; MinTLSVersion := "1.3" |};
  cfg_Server := {| Host := ""; srv_Port := "2375"; DisableTLS := Some false;
                   AllowPlaintextWithTLS := Some false; TLSPort := "2376" |};
  cfg_BuildKit := {| bk_URL := ""; bk_CAFile := ""; bk_CertFile := ""; bk_KeyFile := "";
                     ServerName := ""; RegistryURL := "" |};
  cfg_Auth := {| au_Plugins := []; PluginDir := "/var/lib/dink/plugins" |};
  cfg_Registry := {| rg_URL := "https://dinki.dink-system.svc.cluster.local:5000"; rg_CAFile := "";
                     rg_CertFile := ""; rg_KeyFile := ""; PullHost := "dinki.io" |} |}.

(** ** Collecting errors *)

(** [errors.Join(errs...)]: nil when there is none. *)
Definition join_errors (errs : list error) : option error :=
  match errs with [] => None | _ => Some (Joined errs) end.

(** [if cond { errs = append(errs, e) }] *)
Definition error_if (b : bool) (e : error) : list error := if b then [e] else [].
(** [if err := f(); err != nil { errs = append(errs, err) }] *)
Definition errors_of (e : option error) : list error := match e with Some e => [e] | None => [] end.

Definition empty_string (s : string) : bool := bool_decide (s = "").

(** ** Single settings *)

Definition validateLogLevel (level : string) : option error :=
  if decide (level ∈ ["debug"; "info"; "warn"; "error"]) then None
  else Some (errors_New "%s=%q is invalid; expected one of debug|info|warn|error").

Definition validateMinTLSVersion (v : string) : option error :=
  if decide (v ∈ [""; "1.2"; "1.3"]) then None
  else Some (errors_New "minTLSVersion=%q is invalid; expected 1.2 or 1.3").

(** The versions of the TLS protocol, as their numbers. *)
Definition TLSVersionFromString (v : string) : res Z :=
  if decide (v = "1.1") then Ok 770%Z
  else if decide (v = "1.2") then Ok 771%Z
  else if decide (v = "1.3") then Ok 772%Z
  else Err (errors_New "invalid TLS version: %q").

(** One part of [hostnameRE]: [[a-zA-Z0-9]([a-zA-Z0-9-]{0,61}[a-zA-Z0-9])?]. *)
Definition hostname_char (c : ascii) : bool := is_alnum c || Ascii.eqb c "-".
Definition hostname_part (s : string) : bool :=
  match first_char s, last_char s with
  | Some f, Some l => is_alnum f && is_alnum l && all_chars hostname_char s && (len s <=? 63)%nat
  | _, _ => false
  end.
(** [hostnameRE]: parts joined by dots. *)
Definition hostnameRE (s : string) : bool := forallb hostname_part (Split s ".").

Definition validateHost (value : string) : option error :=
  if empty_string value then None
  else if ParseIP value then None
  else if (len value <=? 253)%nat && hostnameRE value then None
  else Some (errors_New "host=%q is invalid; expected an IP address or hostname").

Definition validatePort (value : string) : option error :=
  if empty_string value then Some (errors_New "%s must not be empty")
  else match Atoi value with
  | None => Some (errors_New "%s=%q is invalid; expected a numeric port")
  | Some p => if ((p <? 1024) || (65535 <? p))%Z
              then Some (errors_New "%s=%q is invalid; expected range 1024-65535") else None
  end.

(** [url.Parse]: the scheme, host and path of a URL. *)
Record URL := { url_Scheme : string; url_Host : string; url_Path : string }.
Class URLParser := { url_Parse : string → option URL }.

Section urls.
Context `{URLParser}.

(** The checks of a URL of one of the network schemes. *)
Definition validate_address (u : URL) : option error :=
  match SplitHostPort (url_Host u) with
  | None => Some (errors_New "%s=%q is invalid; expected %s://host:port")
  | Some (host, port) =>
      if empty_string host then Some (errors_New "%s=%q is invalid; host must not be empty")
      else match validateHost host with
      | Some e => Some (Errorf "%s=%q is invalid; %w" [e])
      | None =>
          match Atoi port with
          | Some p => if ((p <? 1) || (65535 <? p))%Z
                      then Some (errors_New "%s=%q is invalid; port must be in range 1-65535") else None
          | None => Some (errors_New "%s=%q is invalid; port must be in range 1-65535")
          end
      end
  end.

Definition validateURL (value : string) (networkSchemes : list string) : option error :=
  if empty_string value then None
  else match url_Parse value with
  | None => Some (errors_New "%s=%q is invalid: %w")
  | Some u =>
      if decide (url_Scheme u ∈ networkSchemes) then validate_address u
      else if decide (url_Scheme u = "unix") then
        if empty_string (url_Path u) || bool_decide (url_Path u = "/")
        then Some (errors_New "%s=%q is invalid; expected unix:///path/to/socket") else None
      else Some (errors_New "%s=%q is invalid; expected a %s or unix:// address")
  end.
End urls.

(** ** The parts *)

(** [NodePlacement.Validate] *)
Definition NodePlacement_Validate `{Validation} (n : NodePlacement) : option error :=
  if negb (IsEnabled n) then None
  else if empty_string (LabelKey n)
  then Some (errors_New "nodePlacement.labelKey must not be empty when nodePlacement is enabled")
  else if negb (no_problems (IsQualifiedName (LabelKey n)))
  then Some (errors_New "nodePlacement.labelKey %q is not a valid label key: %s")
  else None.

(** One entry of [ResourceDefaults.Validate], and one pair. *)
Definition default_errors `{Quantities} (is_cpu : bool) (value : string) : list error :=
  if empty_string value then []
  else match ParseQuantity value with
  | None => [errors_New "%s must be a positive Kubernetes quantity"]
  | Some q =>
      if (q <=? 0)%Z then [errors_New "%s must be a positive Kubernetes quantity"]
      else if is_cpu then
        error_if ((NewMilliQuantity (Z.quot int64_max 1000000) <? q)%Z ||
                  negb (q =? NewMilliQuantity (MilliValue q))%Z)
          (errors_New "%s must fit Docker NanoCPUs in whole millicores")
      else
        error_if ((NewQuantity int64_max <? q)%Z || negb (q =? NewQuantity (Resources.Value q))%Z)
          (errors_New "%s must fit Docker memory in whole bytes")
  end.

Definition pair_errors `{Quantities} (request limit : string) : list error :=
  error_if (negb (request_within request limit)) (errors_New "%s request exceeds limit").

Definition ResourceDefaults_Validate `{Quantities} (d : ResourceDefaults) : option error :=
  let limits := default_Limits d in let requests := default_Requests d in
  join_errors
    (default_errors true (CPU limits) ++ default_errors false (Mem limits) ++
     default_errors true (CPU requests) ++ default_errors false (Mem requests) ++
     pair_errors (CPU requests) (CPU limits) ++ pair_errors (Mem requests) (Mem limits))%list.

Definition Kubernetes_Validate `{Validation} `{Quantities} (k : Kubernetes) : option error :=
  join_errors
    (error_if (empty_string (SystemNamespace k)) (errors_New "systemNamespace must not be empty") ++
     error_if (empty_string (DefaultNamespace k)) (errors_New "defaultNamespace must not be empty") ++
     errors_of (validatePort (HealthPort k)) ++
     errors_of (ResourceDefaults_Validate (DefaultResources k)) ++
     errors_of (NodePlacement_Validate (cfg_NodePlacement k)))%list.

Definition TLSEnabled (s : Server) : bool :=
  match DisableTLS s with None => true | Some b => negb b end.
Definition PlaintextEnabled (s : Server) : bool :=
  negb (TLSEnabled s) || default false (AllowPlaintextWithTLS s).

Definition Server_Validate (s : Server) : option error :=
  let tlsEnabled := TLSEnabled s in
  let plaintextEnabled := PlaintextEnabled s in
  join_errors
    (errors_of (validateHost (Host s)) ++
     (if plaintextEnabled then errors_of (validatePort (srv_Port s)) else []) ++
     (if tlsEnabled then errors_of (validatePort (TLSPort s)) else []) ++
     error_if (tlsEnabled && plaintextEnabled && negb (empty_string (srv_Port s)) &&
               bool_decide (srv_Port s = TLSPort s))
       (errors_New "tlsPort must differ from port when allowPlaintextWithTLS is enabled"))%list.

Definition TLS_Validate (t : TLS) : option error :=
  join_errors
    (error_if (empty_string (tls_CertFile t)) (errors_New "tlsCertFile must not be empty when TLS is enabled") ++
     error_if (empty_string (tls_KeyFile t)) (errors_New "tlsKeyFile must not be empty when TLS is enabled") ++
     errors_of (validateMinTLSVersion (MinTLSVersion t)))%list.

Definition Auth_Validate (a : Auth) : option error :=
  join_errors (au_Plugins a ≫= λ plugin,
    error_if (empty_string (ap_Name plugin)) (errors_New "authPlugins[%d].name must not be empty") ++
    error_if (empty_string (ap_Path plugin)) (errors_New "authPlugins[%d].path must not be empty"))%list.

(** The errors of [registryPullHost]: a failing split leaves no host. *)
Definition pull_host_errors (pullHost : string) : list error :=
  let '(host, errs) :=
    if has_char ":" pullHost then
      match SplitHostPort pullHost with
      | Some (host, _) => (host, [])
      | None => ("", [errors_New "registryPullHost %q must be a host or host:port: %w"])
      end
    else (pullHost, []) in
  (errs ++ error_if (empty_string host || (negb (ParseIP host) && negb (hostnameRE host)))
     (errors_New "registryPullHost %q must be a valid host or host:port"))%list.

Definition Registry_Validate `{URLParser} (r : Registry) : option error :=
  join_errors
    (errors_of (validateURL (rg_URL r) ["http"; "https"]) ++
     error_if (negb (Bool.eqb (empty_string (rg_CertFile r)) (empty_string (rg_KeyFile r))))
       (errors_New "registryCertFile and registryKeyFile must be set together") ++
     pull_host_errors (PullHost r))%list.

Definition BuildKit_Validate `{URLParser} (b : BuildKit) : option error :=
  join_errors
    (errors_of (validateURL (bk_URL b) ["tcp"]) ++
     error_if (negb (Bool.eqb (empty_string (bk_CertFile b)) (empty_string (bk_KeyFile b))))
       (errors_New "buildKit.certFile and buildKit.keyFile must be set together") ++
     (if empty_string (RegistryURL b) then [] else errors_of (validateURL (RegistryURL b) ["http"; "https"])) ++
     error_if (HasPrefix (bk_URL b) "unix://" &&
               (negb (empty_string (bk_CAFile b)) || negb (empty_string (bk_CertFile b)) ||
                negb (empty_string (ServerName b))))
       (errors_New "BuildKit TLS settings require a tcp endpoint"))%list.

Definition Validate `{Validation} `{Quantities} `{URLParser} (c : Config) : option error :=
  join_errors
    (errors_of (validateLogLevel (Log_Level c)) ++
     errors_of (validateLogLevel (al_Level (cfg_AccessLog c))) ++
     errors_of (Kubernetes_Validate (cfg_Kubernetes c)) ++
     errors_of (Server_Validate (cfg_Server c)) ++
     (if TLSEnabled (cfg_Server c) then errors_of (TLS_Validate (cfg_TLS c)) else []) ++
     errors_of (Auth_Validate (cfg_Auth c)) ++
     errors_of (BuildKit_Validate (cfg_BuildKit c)) ++
     errors_of (Registry_Validate (cfg_Registry c)))%list.

(** ** What a valid configuration is *)

(** A number in a range, as text. *)
Definition number_in (lo hi : Z) (s : string) : Prop := ∃ p, Atoi s = Some p ∧ (lo ≤ p ≤ hi)%Z.
Definition listen_port : string → Prop := number_in 1024 65535.

(** An address, or a host name of at most 253 characters. *)
Definition valid_host (s : string) : Prop :=
  ParseIP s = true ∨ (len s ≤ 253)%nat ∧ hostnameRE s = true.

Definition both_or_none (s t : string) : Prop := s = "" ↔ t = "".

(** A URL of one of the schemes with a host and port, or of a unix socket. *)
Definition valid_url `{URLParser} (schemes : list string) (value : string) : Prop :=
  ∃ u, url_Parse value = Some u ∧
    ((url_Scheme u ∈ schemes ∧ (∃ host port, SplitHostPort (url_Host u) = Some (host, port) ∧ host ≠ "" ∧
        valid_host host ∧ number_in 1 65535 port)) ∨
     ((url_Scheme u ∉ schemes) ∧ url_Scheme u = "unix" ∧ url_Path u ≠ "" ∧ url_Path u ≠ "/")).

(** The host of a registry name is a host, with or without a port. *)
Definition valid_pull_host (pullHost : string) : Prop :=
  ∃ host, (has_char ":" pullHost = false ∧ host = pullHost ∨
           has_char ":" pullHost = true ∧ ∃ port, SplitHostPort pullHost = Some (host, port)) ∧
    host ≠ "" ∧ (ParseIP host = true ∨ hostnameRE host = true).

Record valid_config `{Validation} `{Quantities} `{URLParser} (c : Config) : Prop := {
  valid_levels : Log_Level c ∈ ["debug"; "info"; "warn"; "error"] ∧
                 al_Level (cfg_AccessLog c) ∈ ["debug"; "info"; "warn"; "error"];
  valid_namespaces : SystemNamespace (cfg_Kubernetes c) ≠ "" ∧ DefaultNamespace (cfg_Kubernetes c) ≠ "";
  valid_health_port : listen_port (HealthPort (cfg_Kubernetes c));
  valid_defaults : Validate_defaults (DefaultResources (cfg_Kubernetes c)) = true;
  valid_placement : IsEnabled (cfg_NodePlacement (cfg_Kubernetes c)) = true →
    LabelKey (cfg_NodePlacement (cfg_Kubernetes c)) ≠ "" ∧
    IsQualifiedName (LabelKey (cfg_NodePlacement (cfg_Kubernetes c))) = [];
  valid_listen_host : Host (cfg_Server c) = "" ∨ valid_host (Host (cfg_Server c));
  valid_plaintext : PlaintextEnabled (cfg_Server c) = true → listen_port (srv_Port (cfg_Server c));
  valid_tls_port : TLSEnabled (cfg_Server c) = true → listen_port (TLSPort (cfg_Server c)) ∧
    (PlaintextEnabled (cfg_Server c) = true → srv_Port (cfg_Server c) ≠ TLSPort (cfg_Server c));
  valid_tls : TLSEnabled (cfg_Server c) = true →
    tls_CertFile (cfg_TLS c) ≠ "" ∧ tls_KeyFile (cfg_TLS c) ≠ "" ∧
    MinTLSVersion (cfg_TLS c) ∈ [""; "1.2"; "1.3"];
  valid_plugins : Forall (λ p, ap_Name p ≠ "" ∧ ap_Path p ≠ "") (au_Plugins (cfg_Auth c));
  valid_buildkit :
    (bk_URL (cfg_BuildKit c) = "" ∨ valid_url ["tcp"] (bk_URL (cfg_BuildKit c))) ∧
    both_or_none (bk_CertFile (cfg_BuildKit c)) (bk_KeyFile (cfg_BuildKit c)) ∧
    (RegistryURL (cfg_BuildKit c) = "" ∨ valid_url ["http"; "https"] (RegistryURL (cfg_BuildKit c))) ∧
    (HasPrefix (bk_URL (cfg_BuildKit c)) "unix://" = true →
       bk_CAFile (cfg_BuildKit c) = "" ∧ bk_CertFile (cfg_BuildKit c) = "" ∧ ServerName (cfg_BuildKit c) = "");
  valid_registry :
    (rg_URL (cfg_Registry c) = "" ∨ valid_url ["http"; "https"] (rg_URL (cfg_Registry c))) ∧
    both_or_none (rg_CertFile (cfg_Registry c)) (rg_KeyFile (cfg_Registry c)) ∧
    valid_pull_host (PullHost (cfg_Registry c))
}.

(** ** Properties *)

Lemma join_errors_None errs : join_errors errs = None ↔ errs = [].
Proof. by destruct errs. Qed.
Lemma error_if_nil b e : error_if b e = [] ↔ b = false.
Proof. by destruct b. Qed.
Lemma errors_of_nil e : errors_of e = [] ↔ e = None.
Proof. by destruct e. Qed.
Lemma empty_string_true s : empty_string s = true ↔ s = "".
Proof. apply bool_decide_eq_true. Qed.
Lemma empty_string_false s : empty_string s = false ↔ s ≠ "".
Proof. apply bool_decide_eq_false. Qed.

Lemma validatePort_exact value : validatePort value = None ↔ listen_port value.
Proof.
  unfold validatePort, listen_port, number_in. destruct (empty_string value) eqn:E.
  { apply empty_string_true in E as ->. split; [done|]. by intros (p & ? & _). }
  destruct (Atoi value) as [p|]; [|split; [done|by intros (p & ? & _)]].
  destruct (Z.ltb_spec p 1024), (Z.ltb_spec 65535 p); simpl;
    (split; [try done; eauto with lia|try done; intros (q & [= <-] & ?); lia]).
Qed.

Lemma validateHost_exact value : validateHost value = None ↔ value = "" ∨ valid_host value.
Proof.
  unfold validateHost, valid_host. destruct (empty_string value) eqn:E.
  { apply empty_string_true in E. tauto. }
  apply empty_string_false in E. destruct (ParseIP value); [tauto|].
  destruct (Nat.leb_spec (len value) 253), (hostnameRE value); simpl;
    (split; [tauto || done|intros [?|[?|[? ?]]]; done || lia]).
Qed.

Lemma validate_address_exact `{URLParser} u :
  validate_address u = None ↔
  ∃ host port, SplitHostPort (url_Host u) = Some (host, port) ∧ host ≠ "" ∧ valid_host host ∧
    number_in 1 65535 port.
Proof.
  unfold validate_address. destruct (SplitHostPort (url_Host u)) as [[host port]|];
    [|split; [done|by intros (? & ? & ? & _)]].
  pose proof (validateHost_exact host) as Hh.
  destruct (empty_string host) eqn:E.
  { apply empty_string_true in E. split; [done|]. intros (? & ? & [= <- <-] & ? & _). done. }
  apply empty_string_false in E. destruct (validateHost host) as [e|].
  { split; [done|]. intros (? & ? & [= <- <-] & _ & Hv & _). assert (Some e = None) as [=] by (apply Hh; by right). }
  assert (valid_host host) as Hv by by destruct (proj1 Hh eq_refl). unfold number_in.
  destruct (Atoi port) as [p|] eqn:Ep.
  - destruct (Z.ltb_spec p 1), (Z.ltb_spec 65535 p); simpl;
      (split; [try done; intros _; exists host, port; eauto 10 with lia|
               try done; intros (? & ? & [= <- <-] & _ & _ & q & Hq & ?); simplify_eq; lia]).
  - split; [done|]. intros (? & ? & [= <- <-] & _ & _ & q & Hq & ?). simplify_eq.
Qed.

Lemma validateURL_exact `{URLParser} schemes value :
  validateURL value schemes = None ↔ value = "" ∨ valid_url schemes value.
Proof.
  unfold validateURL, valid_url. destruct (empty_string value) eqn:E.
  { apply empty_string_true in E. tauto. }
  apply empty_string_false in E. destruct (url_Parse value) as [u|];
    [|split; [done|intros [?|(? & ? & _)]; done]].
  destruct (decide (url_Scheme u ∈ schemes)) as [Hs|Hs].
  - rewrite validate_address_exact. split; [eauto 10|]. intros [?|(? & [= <-] & [[_ ?]|[? _]])]; done.
  - destruct (decide (url_Scheme u = "unix")) as [Hu|Hu].
    + destruct (empty_string (url_Path u)) eqn:Ep; simpl.
      { apply empty_string_true in Ep. split; [done|].
        intros [?|(? & [= <-] & [[? _]|(_ & _ & ? & _)])]; done. }
      apply empty_string_false in Ep. destruct (bool_decide_reflect (url_Path u = "/")) as [Hr|Hr].
      * split; [done|]. intros [?|(? & [= <-] & [[? _]|(_ & _ & _ & ?)])]; done.
      * split; [|done]. intros _. right. exists u. eauto 10.
    + split; [done|]. intros [?|(? & [= <-] & [[? _]|(_ & ? & _)])]; done.
Qed.

Lemma both_or_none_spec s t : negb (Bool.eqb (empty_string s) (empty_string t)) = false ↔ both_or_none s t.
Proof.
  unfold both_or_none. rewrite negb_false_iff, eqb_true_iff. rewrite <- !empty_string_true.
  destruct (empty_string s), (empty_string t); naive_solver.
Qed.

Lemma pull_host_exact pullHost : pull_host_errors pullHost = [] ↔ valid_pull_host pullHost.
Proof.
  unfold pull_host_errors, valid_pull_host.
  assert (∀ host, (empty_string host || (negb (ParseIP host) && negb (hostnameRE host))) = false ↔
            host ≠ "" ∧ (ParseIP host = true ∨ hostnameRE host = true)) as Hhost.
  { intros host. rewrite orb_false_iff, empty_string_false, andb_false_iff, !negb_false_iff. done. }
  destruct (has_char ":" pullHost) eqn:Ec; [destruct (SplitHostPort pullHost) as [[host port]|] eqn:Es|].
  - rewrite app_nil_l, error_if_nil, Hhost. split; [intros Hv; exists host; split; [right; by eauto|done]|].
    intros (h & [[? _]|[_ [p Hp]]] & Hv); simplify_eq; done.
  - split; [done|]. intros (h & [[? _]|[_ [p Hp]]] & _); simplify_eq.
  - rewrite app_nil_l, error_if_nil, Hhost. split; [eauto 10|].
    intros (h & [[_ ->]|[? _]] & Hv); done.
Qed.

Section validation.
Context `{Validation} `{Quantities} `{URLParser}.

Lemma default_errors_nil is_cpu value : default_errors is_cpu value = [] ↔ valid_default is_cpu value = true.
Proof.
  unfold default_errors, valid_default. destruct (empty_string value) eqn:E.
  { apply empty_string_true in E. by rewrite decide_True. }
  apply empty_string_false in E. rewrite decide_False by done.
  destruct (ParseQuantity value) as [q|]; [|done].
  destruct (Z.ltb_spec 0 q), (Z.leb_spec q 0); try lia; simpl; [|done].
  destruct is_cpu; rewrite error_if_nil, orb_false_iff, andb_true_iff, negb_false_iff;
    rewrite Z.ltb_ge, Z.leb_le; tauto.
Qed.

Lemma resource_defaults_exact d : ResourceDefaults_Validate d = None ↔ Validate_defaults d = true.
Proof.
  unfold ResourceDefaults_Validate, Validate_defaults, pair_errors. cbv zeta.
  rewrite join_errors_None, !app_nil, !default_errors_nil, !error_if_nil, !negb_false_iff, !andb_true_iff. tauto.
Qed.

Lemma node_placement_exact n :
  NodePlacement_Validate n = None ↔
  (IsEnabled n = true → LabelKey n ≠ "" ∧ IsQualifiedName (LabelKey n) = []).
Proof.
  unfold NodePlacement_Validate. destruct (IsEnabled n); simpl; [|naive_solver].
  destruct (empty_string (LabelKey n)) eqn:E.
  { apply empty_string_true in E. split; [done|]. intros Hv. by destruct (Hv eq_refl). }
  apply empty_string_false in E. rewrite <- no_problems_spec.
  destruct (no_problems _); simpl; [naive_solver|]. split; [done|]. intros Hv. by destruct (Hv eq_refl).
Qed.

Lemma server_exact s :
  Server_Validate s = None ↔
  (Host s = "" ∨ valid_host (Host s)) ∧
  (PlaintextEnabled s = true → listen_port (srv_Port s)) ∧
  (TLSEnabled s = true → listen_port (TLSPort s) ∧ (PlaintextEnabled s = true → srv_Port s ≠ TLSPort s)).
Proof.
  unfold Server_Validate. cbv zeta.
  rewrite join_errors_None, !app_nil, errors_of_nil, error_if_nil, validateHost_exact.
  assert (∀ b v, (if b : bool then errors_of (validatePort v) else []) = [] ↔ (b = true → listen_port v)) as Hport.
  { intros [] v; [|by split]. rewrite errors_of_nil, validatePort_exact. naive_solver. }
  rewrite !Hport, !andb_false_iff, negb_false_iff, empty_string_true, bool_decide_eq_false.
  assert (listen_port (srv_Port s) → srv_Port s ≠ "") as Hempty by (intros (p & Hp & _) He; by rewrite He in Hp).
  clear Hport. destruct (TLSEnabled s), (PlaintextEnabled s); intuition congruence.
Qed.

Lemma buildkit_exact b :
  BuildKit_Validate b = None ↔
  (bk_URL b = "" ∨ valid_url ["tcp"] (bk_URL b)) ∧ both_or_none (bk_CertFile b) (bk_KeyFile b) ∧
  (RegistryURL b = "" ∨ valid_url ["http"; "https"] (RegistryURL b)) ∧
  (HasPrefix (bk_URL b) "unix://" = true → bk_CAFile b = "" ∧ bk_CertFile b = "" ∧ ServerName b = "").
Proof.
  unfold BuildKit_Validate.
  rewrite join_errors_None, !app_nil, !error_if_nil, both_or_none_spec, errors_of_nil, validateURL_exact.
  assert ((if empty_string (RegistryURL b) then [] else errors_of (validateURL (RegistryURL b) ["http"; "https"])) = [] ↔
          RegistryURL b = "" ∨ valid_url ["http"; "https"] (RegistryURL b)) as ->.
  { destruct (empty_string (RegistryURL b)) eqn:E; [apply empty_string_true in E; tauto|].
    by rewrite errors_of_nil, validateURL_exact. }
  rewrite andb_false_iff, !orb_false_iff, !negb_false_iff, !empty_string_true.
  destruct (HasPrefix (bk_URL b) "unix://"); naive_solver.
Qed.

Lemma auth_exact a : Auth_Validate a = None ↔ Forall (λ p, ap_Name p ≠ "" ∧ ap_Path p ≠ "") (au_Plugins a).
Proof.
  unfold Auth_Validate. rewrite join_errors_None.
  induction (au_Plugins a) as [|p l IH]; [by split|]. cbn [mbind list_bind].
  rewrite Forall_cons, <- IH, !app_nil, !error_if_nil, !empty_string_false. tauto.
Qed.

Lemma tls_exact t :
  TLS_Validate t = None ↔
  tls_CertFile t ≠ "" ∧ tls_KeyFile t ≠ "" ∧ MinTLSVersion t ∈ [""; "1.2"; "1.3"].
Proof.
  unfold TLS_Validate, validateMinTLSVersion.
  rewrite join_errors_None, !app_nil, !error_if_nil, !empty_string_false, errors_of_nil.
  destruct (decide _); naive_solver.
Qed.

Lemma log_level_exact level : validateLogLevel level = None ↔ level ∈ ["debug"; "info"; "warn"; "error"].
Proof. unfold validateLogLevel. by destruct (decide _). Qed.

(** A configuration is accepted exactly if it is valid.  The enabled
    listeners, and the one for health, have a number between 1024 and 65535 as their
    port, and differ where both are on; TLS has its key pair and a known version; the
    host to listen on is an address or a host name; the tenants' default resources are
    positive, fit Docker's units and are ordered; plugins have names and paths; key
    pairs are complete; URLs have a host and port; and no other check is made. *)
Theorem Validate_exact c : Validate c = None ↔ valid_config c.
Proof.
  unfold Validate, Kubernetes_Validate, Registry_Validate. rewrite join_errors_None, !app_nil, !errors_of_nil.
  rewrite !log_level_exact, !join_errors_None, !app_nil, !error_if_nil, !errors_of_nil, !empty_string_false.
  rewrite validatePort_exact, resource_defaults_exact, node_placement_exact, server_exact, auth_exact, buildkit_exact.
  rewrite both_or_none_spec, validateURL_exact, pull_host_exact.
  assert ((if TLSEnabled (cfg_Server c) then errors_of (TLS_Validate (cfg_TLS c)) else []) = [] ↔
    (TLSEnabled (cfg_Server c) = true → tls_CertFile (cfg_TLS c) ≠ "" ∧ tls_KeyFile (cfg_TLS c) ≠ "" ∧
       MinTLSVersion (cfg_TLS c) ∈ [""; "1.2"; "1.3"])) as ->.
  { destruct (TLSEnabled (cfg_Server c)); [|by split]. rewrite errors_of_nil, tls_exact. tauto. }
  split.
  - intros (? & ? & (? & ? & ? & ? & ?) & (? & ? & ?) & ? & ? & ? & ? & ? & ?). by constructor.
  - intros []. tauto.
Qed.
End validation.

(** ** Concrete configurations *)

(** Absolute URLs without user, query and fragment. *)
Definition demo_urls : URLParser := {| url_Parse s :=
  match Cut s "://" with
  | (scheme, rest, true) =>
      let '(host, path, has_path) := Cut rest "/" in
      Some {| url_Scheme := scheme; url_Host := host; url_Path := if has_path : bool then "/" +:+ path else "" |}
  | _ => None
  end |}.

(** The quantities of the default configuration. *)
Definition default_quantities : Quantities := {|
  ParseQuantity s := if decide (s = "500m") then Some (NewMilliQuantity 500)
                     else if decide (s = "100m") then Some (NewMilliQuantity 100)
                     else if decide (s = "512Mi") then Some (NewQuantity (512 * 2 ^ 20))
                     else if decide (s = "128Mi") then Some (NewQuantity (128 * 2 ^ 20))
                     else None;
  Quantity_String q := "" |}.

Lemma Default_is_valid : @Validate demo_validation default_quantities demo_urls Default = None.
Proof. by vm_compute. Qed.

(** Ports are compared as texts: two spellings of one port are accepted. *)
Definition one_port_twice : Server := {|
  Host := ""; srv_Port := "2376"; DisableTLS := None; AllowPlaintextWithTLS := Some true; TLSPort := "+2376" |}.

Example equal_ports_accepted :
  Server_Validate one_port_twice = None ∧ Atoi (srv_Port one_port_twice) = Atoi (TLSPort one_port_twice).
Proof. by vm_compute. Qed.
