(* ===== verification/Daemon.v ===== *)
(** * Daemon: [cmd/dink/command]: from the command line to the listeners

    The configuration of the daemon is the one of the flags over the one of the file
    over the defaults ([options.go]); its TLS settings and listeners follow from it
    ([cli.go]).  Reading files and listening are commands. *)

From S2P Require Import Prelude GoStrings Errors Prog Validation Net Resources Config.

Local Open Scope string_scope.

Inductive file_error := NotExist | ReadFailed.

Inductive dcmd : Type → Type :=
| ReadFile (path : string) : dcmd (result file_error string)
| Listen (address : string) : dcmd (res nat)
| CloseListener (listener : nat) : dcmd unit.

Abbreviation dproc := (prog dcmd).
Abbreviation dhist := (history dcmd).

(** ** Merging configurations *)

(** What [encoding/json] needs: decoding a file, and whether a configuration can be
    encoded (its texts must be UTF-8). *)
Class ConfigCodec := { DecodeConfig : string → option Config; encodable : Config → bool }.

Definition merge_text (src dst : string) : string := if empty_string src then dst else src.
Definition merge_flag (src dst : option bool) : option bool :=
  match src with Some b => Some b | None => dst end.
Definition merge_list {A} (src dst : list A) : list A := match src with [] => dst | _ => src end.

Definition merge_values (src dst : ResourceValues) : ResourceValues := {|
  CPU := merge_text (CPU src) (CPU dst); Mem := merge_text (Mem src) (Mem dst) |}.

Definition merge_kubernetes (src dst : Kubernetes) : Kubernetes := {|
  SystemNamespace := merge_text (SystemNamespace src) (SystemNamespace dst);
  DefaultNamespace := merge_text (DefaultNamespace src) (DefaultNamespace dst);
  HealthPort := merge_text (HealthPort src) (HealthPort dst);
  DefaultResources := {|
    default_Limits := merge_values (default_Limits (DefaultResources src)) (default_Limits (DefaultResources dst));
    default_Requests := merge_values (default_Requests (DefaultResources src)) (default_Requests (DefaultResources dst)) |};
  cfg_NodePlacement := {|
    Enabled := merge_flag (Enabled (cfg_NodePlacement src)) (Enabled (cfg_NodePlacement dst));
    LabelKey := merge_text (LabelKey (cfg_NodePlacement src)) (LabelKey (cfg_NodePlacement dst));
    Tolerate := merge_flag (Tolerate (cfg_NodePlacement src)) (Tolerate (cfg_NodePlacement dst)) |} |}.

(** What encoding [src] and decoding it into [dst] does: the fields that are not empty
    are replaced. *)
Definition merge (src dst : Config) : Config := {|
  Log_Level := merge_text (Log_Level src) (Log_Level dst);
  cfg_AccessLog := {|
    al_Level := merge_text (al_Level (cfg_AccessLog src)) (al_Level (cfg_AccessLog dst));
    al_Enabled := merge_flag (al_Enabled (cfg_AccessLog src)) (al_Enabled (cfg_AccessLog dst)) |};
  cfg_Kubernetes := merge_kubernetes (cfg_Kubernetes src) (cfg_Kubernetes dst);
  cfg_TLS := {|
    tls_CertFile := merge_text (tls_CertFile (cfg_TLS src)) (tls_CertFile (cfg_TLS dst));
    tls_KeyFile := merge_text (tls_KeyFile (cfg_TLS src)) (tls_KeyFile (cfg_TLS dst));
    ClientCAFile := merge_text (ClientCAFile (cfg_TLS src)) (ClientCAFile (cfg_TLS dst));
    MinTLSVersion := merge_text (MinTLSVersion (cfg_TLS src)) (MinTLSVersion (cfg_TLS dst)) |};
  cfg_Server := {|
    Host := merge_text (Host (cfg_Server src)) (Host (cfg_Server dst));
    srv_Port := merge_text (srv_Port (cfg_Server src)) (srv_Port (cfg_Server dst));
    DisableTLS := merge_flag (DisableTLS (cfg_Server src)) (DisableTLS (cfg_Server dst));
    AllowPlaintextWithTLS :=
      merge_flag (AllowPlaintextWithTLS (cfg_Server src)) (AllowPlaintextWithTLS (cfg_Server dst));
    TLSPort := merge_text (TLSPort (cfg_Server src)) (TLSPort (cfg_Server dst)) |};
  cfg_BuildKit := {|
    bk_URL := merge_text (bk_URL (cfg_BuildKit src)) (bk_URL (cfg_BuildKit dst));
    bk_CAFile := merge_text (bk_CAFile (cfg_BuildKit src)) (bk_CAFile (cfg_BuildKit dst));
    bk_CertFile := merge_text (bk_CertFile (cfg_BuildKit src)) (bk_CertFile (cfg_BuildKit dst));
    bk_KeyFile := merge_text (bk_KeyFile (cfg_BuildKit src)) (bk_KeyFile (cfg_BuildKit dst));
    ServerName := merge_text (ServerName (cfg_BuildKit src)) (ServerName (cfg_BuildKit dst));
    RegistryURL := merge_text (RegistryURL (cfg_BuildKit src)) (RegistryURL (cfg_BuildKit dst)) |};
  cfg_Auth := {|
    au_Plugins := merge_list (au_Plugins (cfg_Auth src)) (au_Plugins (cfg_Auth dst));
    PluginDir := merge_text (PluginDir (cfg_Auth src)) (PluginDir (cfg_Auth dst)) |};
  cfg_Registry := {|
    rg_URL := merge_text (rg_URL (cfg_Registry src)) (rg_URL (cfg_Registry dst));
    rg_CAFile := merge_text (rg_CAFile (cfg_Registry src)) (rg_CAFile (cfg_Registry dst));
    rg_CertFile := merge_text (rg_CertFile (cfg_Registry src)) (rg_CertFile (cfg_Registry dst));
    rg_KeyFile := merge_text (rg_KeyFile (cfg_Registry src)) (rg_KeyFile (cfg_Registry dst));
    PullHost := merge_text (PullHost (cfg_Registry src)) (PullHost (cfg_Registry dst)) |} |}.

(** [new(config.Config)] *)
Definition empty_cfg : Config := {|
  Log_Level := "";
  cfg_AccessLog := {| al_Level := ""; al_Enabled := None |};
  cfg_Kubernetes := {| SystemNamespace := ""; DefaultNamespace := ""; HealthPort := "";
    DefaultResources := {| default_Limits := {| CPU := ""; Mem := "" |};
                           default_Requests := {| CPU := ""; Mem := "" |} |};
    cfg_NodePlacement := {| Enabled := None; LabelKey := ""; Tolerate := None |} |};
  cfg_TLS := {| tls_CertFile := ""; tls_KeyFile := ""; ClientCAFile := ""; MinTLSVersion := "" |};
  cfg_Server := {| Host := ""; srv_Port := ""; DisableTLS := None; AllowPlaintextWithTLS := None; TLSPort := "" |};
  cfg_BuildKit := {| bk_URL := ""; bk_CAFile := ""; bk_CertFile := ""; bk_KeyFile := "";
                     ServerName := ""; RegistryURL := "" |};
  cfg_Auth := {| au_Plugins := []; PluginDir := "" |};
  cfg_Registry := {| rg_URL := ""; rg_CAFile := ""; rg_CertFile := ""; rg_KeyFile := ""; PullHost := "" |} |}.

(** ** TLS and listeners *)

(** The options of [tlsconfig.ServerTLSConfig]: the client CA, which clients must then
    have a certificate of, the key pair and the least version. *)
Record tls_options := {
  WithCA : option string;
  WithKeyPair : string * string;
  WithMinVersion : Z;
  RequireAndVerifyClientCert : bool
}.

(** The library builds a configuration of its options, or refuses them. *)
Class TLSLibrary := { ServerTLSConfig : tls_options → option error }.

Inductive listener := Plain (l : nat) | Secure (l : nat) (o : tls_options).

(** [net.JoinHostPort] *)
Definition JoinHostPort (host port : string) : string :=
  if has_char ":" host || has_char "%" host then "[" +:+ host +:+ "]:" +:+ port else host +:+ ":" +:+ port.

(** An index out of range: the program would panic. *)
Definition index_panic : error := errors_New "index out of range".
Definition index {A} (l : list A) (i : nat) : res A :=
  match l !! i with Some x => Ok x | None => Err index_panic end.

Definition file_err (e : file_error) : error := errors_New "reading a file".

Fixpoint LoadFiles (paths : list string) : dproc (res (list string)) :=
  match paths with
  | [] => Ret (Ok [])
  | path :: paths =>
      if empty_string path then LoadFiles paths
      else do data <- call (ReadFile path);
           match data with
           | Err e => Ret (Err (file_err e))
           | Ok data => do? files <- LoadFiles paths; Ret (Ok (data :: files))
           end
  end.

(** The first-read file and the two of the key pair. *)
Definition key_pair (files : list string) (i : nat) : res (string * string) :=
  let? cert := index files i in let? key := index files (S i) in Ok (cert, key).

Section daemon.
Context `{Validation} `{Quantities} `{URLParser} `{ConfigCodec} `{TLSLibrary}.

Definition mergeConfig (src dst : Config) : res Config :=
  if encodable src then Ok (merge src dst)
  else Err (errors_New "encoding source configuration: %w").

Definition loadConfigFile (configFile : string) : dproc (result (option error) Config) :=
  do data <- call (ReadFile configFile);
  Ret (match data with
       | Err NotExist => Err None                        (* errors.Is(err, fs.ErrNotExist) *)
       | Err e => Err (Some (file_err e))
       | Ok data => match DecodeConfig data with
                    | Some c => Ok c
                    | None => Err (Some (errors_New "decoding config file %q: %w"))
                    end
       end).

(** [loadCLIConfig]: [flags] is the configuration of the command line. *)
Definition merge_all (defaults file flags : Config) : res Config :=
  let? merged := mergeConfig defaults empty_cfg in
  let? merged := mergeConfig file merged in
  mergeConfig flags merged.

Definition loadCLIConfig (configFile : string) (defaults flags : Config) : dproc (res Config) :=
  do file <- loadConfigFile configFile;
  match file with
  | Err (Some e) => Ret (Err e)
  | _ =>
      let file := match file with Ok c => c | Err _ => empty_cfg end in
      match merge_all defaults file flags with
      | Err e => Ret (Err e)
      | Ok merged =>
          match Validate merged with
          | Some e => Ret (Err (Errorf "invalid configuration: %w" [e]))
          | None => Ret (Ok merged)
          end
      end
  end.

(** The configuration, if the library accepts its options. *)
Definition server_tls (o : tls_options) : res (option tls_options) :=
  match ServerTLSConfig o with Some e => Err e | None => Ok (Some o) end.

Definition newTLSConfig (cfg : Config) : dproc (res (option tls_options)) :=
  if default false (DisableTLS (cfg_Server cfg)) then Ret (Ok None)
  else match TLSVersionFromString (MinTLSVersion (cfg_TLS cfg)) with
  | Err e => Ret (Err e)
  | Ok tlsVersion =>
      let t := cfg_TLS cfg in
      if negb (empty_string (ClientCAFile t)) then
        do? caFiles <- LoadFiles [ClientCAFile t; tls_CertFile t; tls_KeyFile t];
        Ret (let? ca := index caFiles 0 in
             let? pair := key_pair caFiles 1 in
             server_tls {| WithCA := Some ca; WithKeyPair := pair; WithMinVersion := tlsVersion;
                           RequireAndVerifyClientCert := true |})
      else
        do? files <- LoadFiles [tls_CertFile t; tls_KeyFile t];
        Ret (let? pair := key_pair files 0 in
             server_tls {| WithCA := None; WithKeyPair := pair; WithMinVersion := tlsVersion;
                           RequireAndVerifyClientCert := false |})
  end.

Definition isBool (b : option bool) : bool := default false b.

(** The named results of [loadListeners] at its return: the returns of an error set the
    listeners to nil. *)
Definition load_listeners (cfg : Config) (tlsConfig : option tls_options) : dproc (list listener * option error) :=
  let s := cfg_Server cfg in
  let secure (listeners : list listener) : dproc (list listener * option error) :=
    match tlsConfig with
    | None => Ret (if decide (listeners = []) then ([], Some (errors_New "no listeners configured")) else (listeners, None))
    | Some o =>
        do ls <- call (Listen (JoinHostPort (Host s) (TLSPort s)));
        Ret (match ls with
             | Err e => ([], Some (Errorf "unable to listen for TLS server: %w" [e]))
             | Ok l => ((listeners ++ [Secure l o])%list, None)
             end)
    end in
  if negb (bool_decide (is_Some tlsConfig)) || isBool (AllowPlaintextWithTLS s) then
    do ls <- call (Listen (JoinHostPort (Host s) (srv_Port s)));
    match ls with
    | Ok l => secure [Plain l]
    | Err e => Ret ([], Some (Errorf "unable to listen for plaintext server: %w" [e]))
    end
  else secure [].

(** [loadListeners]: its deferred function closes the listeners of the named result, which
    is nil when there is an error. *)
Definition loadListeners (cfg : Config) (tlsConfig : option tls_options) : dproc (res (list listener)) :=
  do results <- load_listeners cfg tlsConfig;
  let '(listeners, retErr) := results in
  match retErr with
  | Some e =>
      do? _ <- for_each listeners (λ l, match l with
                 | Plain l | Secure l _ => do _ <- call (CloseListener l); Ret (Ok tt) end);
      Ret (Err e)
  | None => Ret (Ok listeners)
  end.

(** [newCLI], and the listeners of [start]. *)
Definition start_listening (configFile : string) (defaults flags : Config) : dproc (res (Config * list listener)) :=
  do? cfg <- loadCLIConfig configFile defaults flags;
  do? tlsConfig <- newTLSConfig cfg;
  do? listeners <- loadListeners cfg tlsConfig;
  Ret (Ok (cfg, listeners)).
End daemon.

(** ** Properties: which setting counts *)

(** The first that is not empty. *)
Definition first_set (values : list string) : string :=
  default "" (List.find (λ s, negb (empty_string s)) values).
Definition first_flag (values : list (option bool)) : option bool := mjoin (head (filter is_Some values)).

(** The settings that are texts, and those that are flags. *)
Definition text_settings : list (Config → string) :=
  ([Log_Level; al_Level ∘ cfg_AccessLog] ++
   ((λ f : Kubernetes → string, f ∘ cfg_Kubernetes) <$> [SystemNamespace; DefaultNamespace; HealthPort;
     CPU ∘ default_Limits ∘ DefaultResources; Mem ∘ default_Limits ∘ DefaultResources;
     CPU ∘ default_Requests ∘ DefaultResources; Mem ∘ default_Requests ∘ DefaultResources;
     LabelKey ∘ cfg_NodePlacement]) ++
   ((λ f : TLS → string, f ∘ cfg_TLS) <$> [tls_CertFile; tls_KeyFile; ClientCAFile; MinTLSVersion]) ++
   ((λ f : Server → string, f ∘ cfg_Server) <$> [Host; srv_Port; TLSPort]) ++
   ((λ f : BuildKit → string, f ∘ cfg_BuildKit) <$>
     [bk_URL; bk_CAFile; bk_CertFile; bk_KeyFile; ServerName; RegistryURL]) ++
   [PluginDir ∘ cfg_Auth] ++
   ((λ f : Registry → string, f ∘ cfg_Registry) <$> [rg_URL; rg_CAFile; rg_CertFile; rg_KeyFile; PullHost]))%list.
Definition flag_settings : list (Config → option bool) :=
  [al_Enabled ∘ cfg_AccessLog; Enabled ∘ cfg_NodePlacement ∘ cfg_Kubernetes;
   Tolerate ∘ cfg_NodePlacement ∘ cfg_Kubernetes; DisableTLS ∘ cfg_Server;
   AllowPlaintextWithTLS ∘ cfg_Server].

(** A configuration has the settings of the first of three that has each of them. *)
Definition layered (flags file defaults c : Config) : Prop :=
  Forall (λ get, get c = first_set [get flags; get file; get defaults]) text_settings ∧
  Forall (λ get, get c = first_flag [get flags; get file; get defaults]) flag_settings ∧
  au_Plugins (cfg_Auth c) =
    merge_list (au_Plugins (cfg_Auth flags)) (merge_list (au_Plugins (cfg_Auth file)) (au_Plugins (cfg_Auth defaults))).

Lemma merge_text_first a b c : merge_text a (merge_text b (merge_text c "")) = first_set [a; b; c].
Proof.
  unfold merge_text, first_set. simpl. destruct (empty_string a); [|done]. simpl.
  destruct (empty_string b); [|done]. simpl. destruct (empty_string c); done.
Qed.

Lemma merge_flag_first a b c : merge_flag a (merge_flag b (merge_flag c None)) = first_flag [a; b; c].
Proof. by destruct a, b, c. Qed.

Lemma merge_list_empty {A} (l : list A) : merge_list l [] = l.
Proof. by destruct l. Qed.

Lemma merge_layered flags file defaults :
  layered flags file defaults (merge flags (merge file (merge defaults empty_cfg))).
Proof.
  unfold layered, text_settings, flag_settings.
  repeat first [apply Forall_cons; split|apply Forall_nil; exact I|split].
  all: simpl; rewrite ?merge_list_empty; first [apply merge_text_first|apply merge_flag_first|done].
Qed.

(** ** Properties: who is listened to *)

Lemma read_later {X} (c : dcmd X) x h h' : h `suffix_of` h' → Event X c x ∈ h → Event X c x ∈ h'.
Proof. intros [l ->] Hin. apply elem_of_app. by right. Qed.

Definition file_read (h : dhist) (path data : string) : Prop := Event _ (ReadFile path) (Ok data) ∈ h.

(** The listener that an event opened, or closed. *)
Definition opened_by (e : event dcmd) : option nat :=
  match e with
  | Event X c x =>
      match c in dcmd X return X → option nat with
      | Listen _ => λ r, match r with Ok n => Some n | Err _ => None end
      | _ => λ _, None
      end x
  end.
Definition closed_by (e : event dcmd) : option nat :=
  match e with
  | Event X c x =>
      match c in dcmd X return X → option nat with CloseListener n => λ _, Some n | _ => λ _, None end x
  end.

Lemma LoadFiles_wp paths h :
  Forall (λ p, p ≠ "") paths →
  wp any_answer any_command (LoadFiles paths) h (λ h' r, h `suffix_of` h' ∧
    match r with Ok files => Forall2 (file_read h') paths files | Err _ => True end).
Proof.
  revert h. induction paths as [|p paths IH]; intros h; cbn [LoadFiles]; [by rewrite wp_ret|].
  rewrite Forall_cons. intros [Hp Hall]. apply empty_string_false in Hp as ->.
  rewrite wp_bind, wp_call. split; [done|]. intros [data|e] _; [|split; [by apply suffix_cons_r|done]].
  rewrite wp_bind_res. eapply wp_post; [|by apply IH]. intros h' r (Hs & Hf).
  assert (h `suffix_of` h') as Hs' by (etrans; [|exact Hs]; by apply suffix_cons_r).
  destruct r as [files|e]; [|done]. rewrite wp_ret. split; [done|]. constructor; [|done].
  eapply read_later; [exact Hs|]. by left.
Qed.

(** The options of a TLS listener are those of the configuration. *)
Definition tls_as_configured `{TLSLibrary} (cfg : Config) (h : dhist) (o : tls_options) : Prop :=
  ServerTLSConfig o = None ∧
  TLSVersionFromString (MinTLSVersion (cfg_TLS cfg)) = Ok (WithMinVersion o) ∧
  file_read h (tls_CertFile (cfg_TLS cfg)) (WithKeyPair o).1 ∧
  file_read h (tls_KeyFile (cfg_TLS cfg)) (WithKeyPair o).2 ∧
  if empty_string (ClientCAFile (cfg_TLS cfg)) then WithCA o = None ∧ RequireAndVerifyClientCert o = false
  else RequireAndVerifyClientCert o = true ∧
       ∃ ca, WithCA o = Some ca ∧ file_read h (ClientCAFile (cfg_TLS cfg)) ca.

Section starting.
Context `{Validation} `{Quantities} `{URLParser} `{ConfigCodec} `{TLSLibrary}.

(** The configuration of the file, if there is one. *)
Definition file_config (configFile : string) (h : dhist) (file : Config) : Prop :=
  (∃ data, file_read h configFile data ∧ DecodeConfig data = Some file) ∨
  (Event _ (ReadFile configFile) (Err NotExist) ∈ h ∧ file = empty_cfg).

Lemma merge_all_ok defaults file flags c :
  merge_all defaults file flags = Ok c → c = merge flags (merge file (merge defaults empty_cfg)).
Proof.
  unfold merge_all, mergeConfig. destruct (encodable defaults); simpl; [|done].
  destruct (encodable file); simpl; [|done]. destruct (encodable flags); [|done]. by intros [= <-].
Qed.

Lemma loadCLIConfig_wp configFile defaults flags h :
  wp any_answer any_command (loadCLIConfig configFile defaults flags) h (λ h' r,
    (∃ answer, h' = Event _ (ReadFile configFile) answer :: h) ∧
    match r with
    | Ok cfg => valid_config cfg ∧ ∃ file, file_config configFile h' file ∧ layered flags file defaults cfg
    | Err _ => True
    end).
Proof.
  unfold loadCLIConfig, loadConfigFile. rewrite !wp_bind, wp_call. split; [done|]. intros answer _. rewrite wp_ret.
  assert (∀ file h', file_config configFile h' file → (∃ answer, h' = Event _ (ReadFile configFile) answer :: h) →
    wp any_answer any_command (match merge_all defaults file flags with
      | Err e => Ret (Err e)
      | Ok merged => match Validate merged with
                     | Some e => Ret (Err (Errorf "invalid configuration: %w" [e]))
                     | None => Ret (Ok merged) end end : dproc (res Config)) h' (λ h' r,
      (∃ answer, h' = Event _ (ReadFile configFile) answer :: h) ∧
      match r with
      | Ok cfg => valid_config cfg ∧ ∃ file, file_config configFile h' file ∧ layered flags file defaults cfg
      | Err _ => True
      end)) as Hload.
  { intros file h' Hf He. destruct (merge_all defaults file flags) as [merged|e] eqn:Em; [|done].
    apply merge_all_ok in Em as ->. destruct (Validate _) as [e|] eqn:Ev; [done|]. split; [done|].
    split; [by apply Validate_exact|]. exists file. split; [done|]. apply merge_layered. }
  destruct answer as [data|[]].
  - destruct (DecodeConfig data) as [file|] eqn:Ed; [|split; [by eexists|done]].
    apply Hload; [|by eexists]. left. exists data. split; [by left|done].
  - apply Hload; [|by eexists]. right. split; [by left|done].
  - split; [by eexists|done].
Qed.

Lemma newTLSConfig_wp cfg h :
  valid_config cfg →
  wp any_answer any_command (newTLSConfig cfg) h (λ h' r, h `suffix_of` h' ∧
    match r with
    | Ok None => TLSEnabled (cfg_Server cfg) = false
    | Ok (Some o) => TLSEnabled (cfg_Server cfg) = true ∧ tls_as_configured cfg h' o
    | Err _ => True
    end).
Proof.
  intros Hv. unfold newTLSConfig. pose proof (valid_tls cfg Hv) as Htls.
  assert (TLSEnabled (cfg_Server cfg) = negb (default false (DisableTLS (cfg_Server cfg)))) as He
    by (unfold TLSEnabled; by destruct (DisableTLS _)).
  destruct (default false (DisableTLS (cfg_Server cfg))); [by rewrite wp_ret|]. simpl in He.
  destruct (Htls He) as (Hcert & Hkey & _).
  destruct (TLSVersionFromString _) as [version|e] eqn:Eversion; [|by rewrite wp_ret]. cbv zeta.
  unfold tls_as_configured. rewrite Eversion.
  destruct (empty_string (ClientCAFile (cfg_TLS cfg))) eqn:Eca; cbn [negb]; rewrite wp_bind_res;
    (eapply wp_post; [|apply LoadFiles_wp; repeat constructor; try done; by apply empty_string_false]);
    intros h1 [files|e] (Hs & Hf); cbn beta iota; try done; rewrite wp_ret; (split; [done|]).
  - apply Forall2_cons_inv_l in Hf as (cert & ? & Hc & (key & ? & Hk & ->%Forall2_nil_inv_l & ->)%Forall2_cons_inv_l & ->).
    unfold key_pair, server_tls. simpl. destruct (ServerTLSConfig _) eqn:Eo; [done|]. by split_and!.
  - apply Forall2_cons_inv_l in Hf as (ca & ? & Ha & (cert & ? & Hc & (key & ? & Hk & ->%Forall2_nil_inv_l & ->)%Forall2_cons_inv_l & ->)%Forall2_cons_inv_l & ->).
    unfold key_pair, server_tls. simpl. destruct (ServerTLSConfig _) eqn:Eo; [done|].
    split_and!; try done. by exists ca.
Qed.

(** The listeners that a configuration asks for, in order, and those opened. *)
Definition listens (cfg : Config) (tls : option tls_options) (h : dhist) (l : listener) : Prop :=
  match l with
  | Plain n =>
      PlaintextEnabled (cfg_Server cfg) = true ∧
      Event _ (Listen (JoinHostPort (Host (cfg_Server cfg)) (srv_Port (cfg_Server cfg)))) (Ok n) ∈ h
  | Secure n o =>
      tls = Some o ∧
      Event _ (Listen (JoinHostPort (Host (cfg_Server cfg)) (TLSPort (cfg_Server cfg)))) (Ok n) ∈ h
  end.

Lemma loadListeners_wp cfg tls h :
  is_Some tls ↔ TLSEnabled (cfg_Server cfg) = true →
  wp any_answer any_command (loadListeners cfg tls) h (λ h' r, h `suffix_of` h' ∧
    match r with
    | Ok ls => Forall (listens cfg tls h') ls ∧ ls ≠ [] ∧
        (PlaintextEnabled (cfg_Server cfg) = true → ∃ n, Plain n ∈ ls) ∧
        (∀ o, tls = Some o → ∃ n, Secure n o ∈ ls)
    | Err _ => True
    end).
Proof.
  intros Htls. unfold loadListeners, load_listeners. cbv zeta. rewrite wp_bind.
  assert (negb (bool_decide (is_Some tls)) || isBool (AllowPlaintextWithTLS (cfg_Server cfg)) =
          PlaintextEnabled (cfg_Server cfg)) as ->.
  { unfold PlaintextEnabled, isBool. f_equal. f_equal. apply Bool.eq_iff_eq_true. by rewrite bool_decide_eq_true. }
  destruct (PlaintextEnabled (cfg_Server cfg)) eqn:Ep.
  - rewrite wp_bind, wp_call. split; [done|]. intros [n|e] _; [|split; [by apply suffix_cons_r|done]].
    destruct tls as [o|].
    + rewrite wp_bind, wp_call. split; [done|]. intros [m|e] _; simpl; (split; [by do 2 apply suffix_cons_r|]); [|done].
      split_and!; [|done|by exists n; left|].
      { constructor; [split; [done|right; by left]|constructor; [split; [done|by left]|constructor]]. }
      intros ? [= <-]. exists m. right. by left.
    + simpl. split; [by apply suffix_cons_r|]. split_and!; [|done|by exists n; left|done].
      constructor; [split; [done|by left]|constructor].
  - destruct tls as [o|].
    + rewrite wp_bind, wp_call. split; [done|]. intros [m|e] _; simpl; (split; [by apply suffix_cons_r|]); [|done].
      split_and!; [|done|done|]; [constructor; [split; [done|by left]|constructor]|]. intros ? [= <-]. exists m. by left.
    + unfold PlaintextEnabled in Ep. apply orb_false_iff in Ep as [Ep _]. apply negb_false_iff in Ep.
      apply Htls in Ep. by destruct Ep.
Qed.

Lemma tls_as_configured_later cfg h h' o :
  h `suffix_of` h' → tls_as_configured cfg h o → tls_as_configured cfg h' o.
Proof.
  intros Hs (Hlib & Hversion & Hc & Hk & Hca). unfold tls_as_configured, file_read in *.
  split_and!; [done|done|by eapply read_later|by eapply read_later|].
  destruct (empty_string _); [done|]. destruct Hca as (? & ca & ? & ?). split; [done|]. exists ca.
  split; [done|by eapply read_later].
Qed.

(** With the defaults, clients need certificates, and the version is at least 1.2. *)
Lemma guarded_tls flags file cfg h o :
  layered flags file Default cfg → valid_config cfg → TLSEnabled (cfg_Server cfg) = true →
  tls_as_configured cfg h o → (771 ≤ WithMinVersion o)%Z ∧ RequireAndVerifyClientCert o = true.
Proof.
  intros (Htext & _ & _) Hv He (_ & Hversion & _ & _ & Hca).
  assert (∀ get, get ∈ text_settings → get Default ≠ "" → empty_string (get cfg) = false) as Hset.
  { intros get Hin Hd. rewrite Forall_forall in Htext. rewrite (Htext get Hin).
    apply empty_string_false. unfold first_set. simpl. apply empty_string_false in Hd.
    destruct (empty_string (get flags)) eqn:E1; simpl; [|by apply empty_string_false].
    destruct (empty_string (get file)) eqn:E2; simpl; [|by apply empty_string_false].
    rewrite Hd. simpl. by apply empty_string_false. }
  split.
  - destruct (valid_tls cfg Hv He) as (_ & _ & Hmin).
    assert (MinTLSVersion (cfg_TLS cfg) ≠ "") as Hne.
    { apply empty_string_false, (Hset (MinTLSVersion ∘ cfg_TLS)); [|done]. unfold text_settings. set_solver. }
    apply elem_of_cons in Hmin as [|Hmin]; [done|].
    apply elem_of_cons in Hmin as [E|Hmin]; [rewrite E in Hversion; by injection Hversion as <-|].
    apply elem_of_cons in Hmin as [E|Hmin]; [rewrite E in Hversion; by injection Hversion as <-|by apply elem_of_nil in Hmin].
  - assert (empty_string (ClientCAFile (cfg_TLS cfg)) = false) as E.
    { apply (Hset (ClientCAFile ∘ cfg_TLS)); [|done]. unfold text_settings. set_solver. }
    rewrite E in Hca. by destruct Hca.
Qed.

(** What starting has led to. *)
Definition serves (configFile : string) (flags : Config) (h : dhist) (r : res (Config * list listener)) : Prop :=
  match r with
  | Ok (cfg, ls) =>
      valid_config cfg ∧ ls ≠ [] ∧
      (∃ file, file_config configFile h file ∧ layered flags file Default cfg) ∧
      ∃ tls, Forall (listens cfg tls h) ls ∧
        (PlaintextEnabled (cfg_Server cfg) = true ↔ ∃ n, Plain n ∈ ls) ∧
        (TLSEnabled (cfg_Server cfg) = true ↔ ∃ n o, Secure n o ∈ ls) ∧
        ∀ o, tls = Some o → tls_as_configured cfg h o ∧ (771 ≤ WithMinVersion o)%Z ∧
          RequireAndVerifyClientCert o = true
  | Err _ => True
  end.

(** C8: the daemon serves only as its configuration says.  When it starts, each
    setting is that of the command line, else that of the file, else the default, and
    the whole is valid.  There is a listener, in plain text only if TLS was disabled or
    plain text was allowed by a flag or the file, and with TLS otherwise: on the
    configured addresses, with the configured key pair, at least the configured version
    of 1.2 or 1.3, and the client CA, whose certificates clients then must have. *)
Theorem start_listening_guarded configFile flags h' r :
  exec (start_listening configFile Default flags) [] h' r → serves configFile flags h' r.
Proof.
  intros Hex. refine (proj1 (wp_exec any_answer any_command _ _ _ _ _ _ Hex (exec_any_answer _ _ _ _ Hex))).
  clear r h' Hex. unfold start_listening, serves. rewrite wp_bind_res. eapply wp_post; [|apply loadCLIConfig_wp].
  intros h1 r [[answer ->] Hload].
  destruct r as [cfg|e]; [|done]. destruct Hload as (Hv & file & Hfile & Hlay).
  rewrite wp_bind_res. eapply wp_post; [|by apply newTLSConfig_wp]. intros h2 r (Hs2 & Htls).
  destruct r as [tls|e]; [|done].
  assert (is_Some tls ↔ TLSEnabled (cfg_Server cfg) = true) as Hon.
  { destruct tls; [destruct Htls as [-> _]|rewrite Htls]; split; try done; by intros []. }
  rewrite wp_bind_res. eapply wp_post; [|by apply loadListeners_wp]. intros h3 [ls|e] [Hs3 Hls]; [|done].
  rewrite wp_ret. destruct Hls as (Hall & Hne & Hplain & Hsec). split_and!; [done|done| |].
  { exists file. split; [|done]. destruct Hfile as [(data & Hr & Hd)|[Hr ->]]; [left; exists data; split; [|done]|right; split; [|done]];
      (eapply read_later; [|exact Hr]; by etrans). }
  exists tls. rewrite Forall_forall in Hall. split_and!.
  - by apply Forall_forall.
  - split; [done|]. intros (n & Hin). by destruct (Hall _ Hin).
  - rewrite <- Hon. split; [intros [o ->]; destruct (Hsec o eq_refl) as [n ?]; by exists n, o|].
    intros (n & o & Hin). destruct (Hall _ Hin) as [-> _]. by eexists.
  - intros o ->. destruct Htls as [Hen Htls]. split; [by eapply tls_as_configured_later|].
    by eapply guarded_tls.
Qed.
End starting.

(** ** A machine to start on *)

(** There is no configuration file; every other file has its path as its content, and
    listening works, unless the address is [taken]. *)
Definition machine (configFile taken : string) (X : Type) (c : dcmd X) (next : nat) : X * nat :=
  match c in dcmd X return X * nat with
  | ReadFile path => (if decide (path = configFile) then Err NotExist else Ok path, next)
  | Listen address => if decide (address = taken) then (Err (errors_New "address in use"), next) else (Ok next, S next)
  | CloseListener _ => (tt, next)
  end.

Definition demo_codec : ConfigCodec := {| DecodeConfig _ := None; encodable _ := true |}.
Definition demo_tls : TLSLibrary := {| ServerTLSConfig _ := None |}.

(** Plain text is allowed by a flag. *)
Definition plaintext_flags : Config :=
  merge {| Log_Level := "debug"; cfg_AccessLog := cfg_AccessLog empty_cfg; cfg_Kubernetes := cfg_Kubernetes empty_cfg;
           cfg_TLS := cfg_TLS empty_cfg;
           cfg_Server := {| Host := "10.0.0.7"; srv_Port := ""; DisableTLS := None;
                            AllowPlaintextWithTLS := Some true; TLSPort := "" |};
           cfg_BuildKit := cfg_BuildKit empty_cfg; cfg_Auth := cfg_Auth empty_cfg;
           cfg_Registry := cfg_Registry empty_cfg |} empty_cfg.

Definition demo_start : dproc (res (Config * list listener)) :=
  @start_listening demo_validation default_quantities demo_urls demo_codec demo_tls "/etc/dink.json" Default plaintext_flags.

(** Both listeners are opened. *)
Lemma start_listening_guarded_witness :
  let good := run (machine "/etc/dink.json" "") demo_start [] 0 in
  @serves demo_validation default_quantities demo_urls demo_codec demo_tls "/etc/dink.json" plaintext_flags
    good.1.2 good.1.1 ∧
  (λ r, length r.2) <$> match good.1.1 with Ok r => Some r | Err _ => None end = Some 2.
Proof.
  intros good.
  pose proof (@start_listening_guarded demo_validation default_quantities demo_urls demo_codec demo_tls
    "/etc/dink.json" plaintext_flags _ _ (run_exec (machine "/etc/dink.json" "") demo_start [] 0)) as Hgood.
  split; [exact Hgood|]. vm_compute. reflexivity.
Defined.

(** The listener in plain text stays open when the other one cannot be opened. *)
Lemma plaintext_listener_leaks :
  let bad := run (machine "/etc/dink.json" "10.0.0.7:2376") demo_start [] 0 in
  bad.1.1 = Err (Errorf "unable to listen for TLS server: %w" [errors_New "address in use"]) ∧
  omap opened_by bad.1.2 = [0] ∧ omap closed_by bad.1.2 = [].
Proof. split_and!; by vm_compute. Qed.
