(* ===== verification/Events.v ===== *)
(** * Events: [core/translator/events.go]

    Docker's event stream.  Past events are read from the Kubernetes events of the
    namespace; new ones are made by [forwardKubernetesEvents], a loop over four watches
    and a ticker, modelled as a step function over its inputs.  Subscribing is a program
    over commands that list, watch and register the stream. *)

From S2P Require Import Prelude GoStrings Errors Prog Docker Filters Identity Validation.
From S2P Require Import Workload Resources Volumes Inspect.

Local Open Scope string_scope.

Definition eventVolumeSelector : string := volumeManagedLabel +:+ "=" +:+ volumeManagedValue.

(** ** Messages *)

Inductive EventType := ContainerEventType | VolumeEventType.
#[export] Instance EventType_eq_dec : EqDecision EventType.
Proof. solve_decision. Defined.

Definition EventType_text (t : EventType) : string :=
  match t with ContainerEventType => "container" | VolumeEventType => "volume" end.

(** [events.Message], with its actor; the time is in seconds and in nanoseconds. *)
Record EventMessage := {
  ev_Type : EventType;
  ev_Action : string;
  ev_Scope : string;
  ev_Time : Z;
  ev_TimeNano : Z;
  ev_ID : string;
  ev_Attributes : smap
}.

#[export] Instance EventMessage_eq_dec : EqDecision EventMessage.
Proof. solve_decision. Defined.

(** [t.UnixNano()] for a time in nanoseconds since the zero time, and [time.Unix(0, n)]. *)
Definition unix_epoch : Z := (62135596800 * 10 ^ 9)%Z.
Definition UnixNano (t : Z) : Z := int64 (t - unix_epoch).
Definition time_of_nano (n : Z) : Z := (n + unix_epoch)%Z.

Definition dockerEvent (type : EventType) (id action : string) (attributes : smap) (timestamp : Z) : EventMessage := {|
  ev_Type := type; ev_Action := action; ev_Scope := "local"; ev_Time := Unix timestamp;
  ev_TimeNano := UnixNano timestamp; ev_ID := id; ev_Attributes := attributes |}.

(** [maps.Copy(dst, src)] *)
Definition maps_Copy (dst src : smap) : smap := src ∪ dst.

Section messages.
Context `{DockerJSON} `{MapJSON}.

Definition container_attributes (w : containerWorkload) : smap :=
  let attributes : smap := {["name" := dockerName w]} in
  match containerMetadata w with
  | Ok (config, _) =>
      let attributes := maps_Copy attributes (Docker.Labels config) in
      if decide (Image config = "") then attributes else <["image" := Image config]> attributes
  | Err _ => attributes
  end.

(** The image of the first container stands in for a missing one. *)
Definition with_template_image (w : containerWorkload) (attributes : smap) : smap :=
  if decide (mget attributes "image" = "") then
    match Kube.Containers (Pod_Spec (Template w)) with
    | c :: _ => <["image" := Ctr_Image c]> attributes
    | [] => attributes
    end
  else attributes.

Definition event_id (w : containerWorkload) : string :=
  let id := DockerIDFromUID (UID w) in if decide (id = "") then Name w else id.

Definition containerDockerEvent (w : containerWorkload) (action : string) (timestamp : Z) : EventMessage :=
  dockerEvent ContainerEventType (event_id w) action (with_template_image w (container_attributes w)) timestamp.

Definition volume_name (pvc : PersistentVolumeClaim) : string :=
  let name := mget (Annotations (pvc_meta pvc)) volumeNameAnnotation in
  if decide (name = "") then Name (pvc_meta pvc) else name.

(** The labels of the volume: none, if they cannot be decoded. *)
Definition volume_labels (pvc : PersistentVolumeClaim) : smap :=
  let raw := mget (Annotations (pvc_meta pvc)) volumeLabelsAnnotation in
  if decide (raw = "") then ∅ else default ∅ (Unmarshal_map raw).

Definition volumeDockerEvent (pvc : PersistentVolumeClaim) (action : string) (timestamp : Z) : EventMessage :=
  dockerEvent VolumeEventType (volume_name pvc) action
    (maps_Copy {["name" := volume_name pvc; "driver" := "local"]} (volume_labels pvc)) timestamp.

(** ** Filters *)

(** Times are nanoseconds since the zero time, which is no bound. *)
Definition event_time (message : EventMessage) : Z :=
  if (ev_TimeNano message =? 0)%Z then (ev_Time message * 10 ^ 9 + unix_epoch)%Z
  else time_of_nano (ev_TimeNano message).

Definition in_window (since until timestamp : Z) : bool :=
  ((since =? 0) || (since <=? timestamp))%Z && ((until =? 0) || (timestamp <=? until))%Z.

Definition eventTimeMatches (message : EventMessage) (since until : Z) : bool :=
  in_window since until (event_time message).

Context `{Regexp}.

Definition no_values (filters : Args) (field : string) : bool := bool_decide (Get filters field = []).

(** The candidates that a field may match. *)
Definition event_candidates (field : string) (message : EventMessage) : list string :=
  if decide (field = "image") then [mget (ev_Attributes message) "image"]
  else [ev_ID message; mget (ev_Attributes message) "name"].

Definition matchesDockerEvent (filters : Args) (message : EventMessage) : bool :=
  forallb (λ '(key, value), no_values filters key || Match filters key value)
    [("type", EventType_text (ev_Type message)); ("event", ev_Action message); ("scope", ev_Scope message)] &&
  (no_values filters "label" || MatchKVList filters "label" (ev_Attributes message)) &&
  forallb (λ field, no_values filters field ||
             existsb (λ candidate, negb (bool_decide (candidate = "")) && Match filters field candidate)
               (event_candidates field message))
    ["container"; "image"; "volume"].

(** What [sendDockerEvent] sends, of the messages handed to it. *)
Definition sent (filters : Args) (since until : Z) (messages : list EventMessage) : list EventMessage :=
  List.filter (λ m, eventTimeMatches m since until && matchesDockerEvent filters m) messages.

(** ** The states of Pods *)

Record podEventState := {
  observed_pod : option Pod;
  startedAt : string;
  termination : string;
  exitCode : Z;
  health : HealthStatus
}.

(** The zero value, of a Pod that was not observed. *)
Definition no_state : podEventState := {|
  observed_pod := None; startedAt := ""; termination := ""; exitCode := 0; health := NoHealth |}.

Definition app_of (pod : Pod) : string := mget (Labels (pod_meta pod)) "app".

(** The state of a Pod without a status of its container. *)
Definition phase_event_state (pod : Pod) : podEventState := {|
  observed_pod := Some pod;
  startedAt := if decide (Phase pod = "Running") then Phase pod else "";
  termination := if decide (Phase pod = "Failed" ∨ Phase pod = "Succeeded") then Phase pod else "";
  exitCode := 0; health := NoHealth |}.

Definition observePodEventState (deployment : option containerWorkload) (pod : Pod) (now : Z) : podEventState :=
  match podContainerStatus (app_of pod) pod with
  | None => phase_event_state pod
  | Some status =>
      let started := match CS_Running status with
                     | Some t => CS_ContainerID status +:+ "@" +:+ FormatRFC3339Nano t
                     | None => ""
                     end in
      {| observed_pod := Some pod;
         startedAt := started;
         termination := match lastTermination status with
                        | Some t => TS_ContainerID t +:+ "@" +:+ FormatRFC3339Nano (TS_FinishedAt t)
                        | None => ""
                        end;
         exitCode := match lastTermination status with Some t => TS_ExitCode t | None => 0 end;
         health := match deployment with
                   | Some w => if decide (started = "") then NoHealth else containerHealthStatus w (Some status) now
                   | None => NoHealth
                   end |}
  end.

(** [message.Actor.Attributes["exitCode"] = ...] *)
Definition with_exit_code (code : Z) (m : EventMessage) : EventMessage := {|
  ev_Type := ev_Type m; ev_Action := ev_Action m; ev_Scope := ev_Scope m; ev_Time := ev_Time m;
  ev_TimeNano := ev_TimeNano m; ev_ID := ev_ID m;
  ev_Attributes := <["exitCode" := Itoa code]> (ev_Attributes m) |}.

Definition podTransitionEvents (w : containerWorkload) (previous current : podEventState) (now : Z) :
    list EventMessage :=
  ((if negb (bool_decide (termination current = "")) && negb (bool_decide (termination current = termination previous))
    then [with_exit_code (exitCode current) (containerDockerEvent w "die" now)] else []) ++
   (if negb (bool_decide (startedAt current = "")) && negb (bool_decide (startedAt current = startedAt previous))
    then [containerDockerEvent w "start" now] else []) ++
   (if negb (bool_decide (health current = health previous)) &&
       (bool_decide (health current = Healthy) || bool_decide (health current = Unhealthy))
    then [containerDockerEvent w ("health_status" +:+ ": " +:+ HealthStatus_text (health current)) now] else []))%list.

(** ** The forwarding loop *)

Inductive watch_type := Added | Modified | Deleted | OtherEvent.

#[export] Instance watch_type_eq_dec : EqDecision watch_type.
Proof. solve_decision. Defined.

(** What the [select] receives: an event of a watch with its object, if it is of the
    expected type, and the time it is handled at; the end of a watch; or a tick. *)
Inductive event_input :=
| DeploymentEvent (type : watch_type) (object : option Deployment) (now : Z)
| JobEvent (type : watch_type) (object : option Job) (now : Z)
| PodEvent (type : watch_type) (object : option Pod) (now : Z)
| PVCEvent (type : watch_type) (object : option PersistentVolumeClaim) (now : Z)
| WatchClosed (k : kind)
| HealthTick (now : Z).

Record forward_state := {
  fw_deployments : gmap string containerWorkload;
  fw_pods : gmap string podEventState;
  fw_open : list kind
}.

Definition set_deployments (d : gmap string containerWorkload) (s : forward_state) : forward_state :=
  {| fw_deployments := d; fw_pods := fw_pods s; fw_open := fw_open s |}.
Definition set_pods (p : gmap string podEventState) (s : forward_state) : forward_state :=
  {| fw_deployments := fw_deployments s; fw_pods := p; fw_open := fw_open s |}.

Definition handleWorkload (type : watch_type) (w : containerWorkload) (now : Z) (s : forward_state) :
    forward_state * list EventMessage :=
  let previous := fw_deployments s !! Name w in
  let put := set_deployments (<[Name w := w]> (fw_deployments s)) s in
  match type with
  | Added => (put, [containerDockerEvent w "create" now])
  | Modified =>
      (put, match previous with
            | Some previous =>
                if negb (bool_decide (dockerName previous = dockerName w))
                then [containerDockerEvent w "rename" now]
                else if negb (bool_decide (Template previous = Template w))
                then [containerDockerEvent w "update" now] else []
            | None => []
            end)
  | Deleted =>
      (set_deployments (delete (Name w) (fw_deployments s)) s, [containerDockerEvent w "destroy" now])
  | OtherEvent => (s, [])
  end.

Definition pod_key (pod : Pod) : string := Namespace (pod_meta pod) +:+ "/" +:+ Name (pod_meta pod).

Definition handlePod (type : watch_type) (pod : Pod) (now : Z) (s : forward_state) :
    forward_state * list EventMessage :=
  let key := pod_key pod in
  let previous := default no_state (fw_pods s !! key) in
  let deployment := fw_deployments s !! app_of pod in
  match type with
  | Deleted =>
      (set_pods (delete key (fw_pods s)) s,
       match deployment with
       | Some w => if decide (startedAt previous = "") then [] else [containerDockerEvent w "stop" now]
       | None => []
       end)
  | Added | Modified =>
      let current := observePodEventState deployment pod now in
      (set_pods (<[key := current]> (fw_pods s)) s,
       match deployment with
       | Some w => podTransitionEvents w previous current now
       | None => []
       end)
  | OtherEvent => (s, [])
  end.

(** The body of the loop over the Pods at a tick: those that are starting are
    observed again. *)
Definition tick_pod (now : Z) (acc : forward_state * list EventMessage) (entry : string * podEventState) :
    forward_state * list EventMessage :=
  let '(s, messages) := acc in
  let '(key, previous) := entry in
  if negb (bool_decide (health previous = Starting)) then acc
  else match observed_pod previous with
  | None => acc
  | Some pod =>
      let deployment := fw_deployments s !! app_of pod in
      let current := observePodEventState deployment pod now in
      (set_pods (<[key := current]> (fw_pods s)) s,
       (messages ++ match deployment with
                    | Some w => podTransitionEvents w previous current now
                    | None => []
                    end)%list)
  end.

(** The order in which a range over the Pod states visits them. *)
Class PodStateOrder := { range_pod_states : gmap string podEventState → list (string * podEventState) }.
Class PodStateOrderLaws `{PodStateOrder} := { range_pod_states_spec m : range_pod_states m ≡ₚ map_to_list m }.

Context `{PodStateOrder}.

Definition handleTick (now : Z) (s : forward_state) : forward_state * list EventMessage :=
  foldl (tick_pod now) (s, []) (range_pod_states (fw_pods s)).

(** One iteration: the state, and the messages handed to [sendDockerEvent]. *)
Definition forward_step (s : forward_state) (input : event_input) : forward_state * list EventMessage :=
  match input with
  | HealthTick now => handleTick now s
  | WatchClosed k =>
      ({| fw_deployments := fw_deployments s; fw_pods := fw_pods s;
          fw_open := List.filter (λ k', negb (bool_decide (k' = k))) (fw_open s) |}, [])
  | DeploymentEvent type (Some deployment) now => handleWorkload type (deploymentWorkload deployment) now s
  | JobEvent type (Some job) now =>
      if isContainerJob job then handleWorkload type (jobWorkload job) now s else (s, [])
  | PodEvent type (Some pod) now => handlePod type pod now s
  | PVCEvent type (Some pvc) now =>
      (s, match type with
          | Added => [volumeDockerEvent pvc "create" now]
          | Deleted => [volumeDockerEvent pvc "destroy" now]
          | _ => []
          end)
  | _ => (s, [])
  end.

(** The loop: until every watch is closed. *)
Fixpoint forward (s : forward_state) (inputs : list event_input) : forward_state * list EventMessage :=
  match inputs with
  | [] => (s, [])
  | input :: inputs =>
      if decide (fw_open s = []) then (s, [])
      else let '(s', messages) := forward_step s input in
           let '(s'', rest) := forward s' inputs in (s'', (messages ++ rest)%list)
  end.

(** The state that the loop starts from; [now] gives the time at which each Pod is
    observed. *)
Definition initial_workloads (workloads : list containerWorkload) : gmap string containerWorkload :=
  foldl (λ m (w : containerWorkload), <[Name w := w]> m) ∅ workloads.
Definition initial_pods (deployments : gmap string containerWorkload) (pods : list Pod) (now : string → Z) :
    gmap string podEventState :=
  foldl (λ m pod, <[pod_key pod := observePodEventState (deployments !! app_of pod) pod (now (pod_key pod))]> m) ∅ pods.
Definition initial_state (workloads : list containerWorkload) (pods : list Pod) (now : string → Z) : forward_state :=
  let deployments := initial_workloads workloads in
  {| fw_deployments := deployments; fw_pods := initial_pods deployments pods now;
     fw_open := [KDeployment; KJob; KPod; KPVC] |}.

(** What [forwardKubernetesEvents] sends on its channel for some inputs. *)
Definition forwardKubernetesEvents (filters : Args) (since until : Z) (workloads : list containerWorkload)
    (pods : list Pod) (now : string → Z) (inputs : list event_input) : list EventMessage :=
  sent filters since until (forward (initial_state workloads pods now) inputs).2.
End messages.

(** ** Past events *)

(** A Kubernetes event: the object it is about, the reason and the times it may have. *)
Record KubeEvent := {
  Involved_Kind : string;
  Involved_Name : string;
  Reason : string;
  EventTime : Z;
  LastObservedTime : option Z;      (* of its series *)
  LastTimestamp : Z;
  FirstTimestamp : Z;
  Event_CreationTimestamp : Z
}.

Definition kubernetesEventTime (event : KubeEvent) : Z :=
  if negb (EventTime event =? 0)%Z then EventTime event
  else if negb (default 0 (LastObservedTime event) =? 0)%Z then default 0%Z (LastObservedTime event)
  else if negb (LastTimestamp event =? 0)%Z then LastTimestamp event
  else if negb (FirstTimestamp event =? 0)%Z then FirstTimestamp event
  else Event_CreationTimestamp event.

Definition mapPodEventAction (reason : string) : string :=
  if decide (reason = "Created") then "create"
  else if decide (reason = "Started") then "start"
  else if decide (reason = "Killing") then "kill"
  else "".

(** [sort.SliceStable] by the time in nanoseconds. *)
Fixpoint insert_message (m : EventMessage) (l : list EventMessage) : list EventMessage :=
  match l with
  | [] => [m]
  | m' :: l' => if (ev_TimeNano m' <? ev_TimeNano m)%Z then m' :: insert_message m l' else m :: l
  end.
Definition SliceStable (l : list EventMessage) : list EventMessage := foldr insert_message [] l.

(** The last object of a name in a list, as the maps of [historicalDockerEvents] hold it. *)
Definition by_name {A} (name_of : A → string) (l : list A) (name : string) : option A :=
  List.find (λ x, bool_decide (name_of x = name)) (rev l).

Section history.
Context `{DockerJSON} `{MapJSON} `{Regexp}.

(** The message of one Kubernetes event, if it is one of Docker's. *)
Definition historical_message (workloads : list containerWorkload) (pods : list Pod)
    (pvcs : list PersistentVolumeClaim) (event : KubeEvent) (timestamp : Z) : option EventMessage :=
  if decide (Involved_Kind event = "Pod") then
    pod ← by_name (λ p, Name (pod_meta p)) pods (Involved_Name event);
    w ← by_name (λ w : containerWorkload, Name w) workloads (app_of pod);
    let action := mapPodEventAction (Reason event) in
    if decide (action = "") then None else Some (containerDockerEvent w action timestamp)
  else if decide (Involved_Kind event = "PersistentVolumeClaim") then
    pvc ← by_name (λ p, Name (pvc_meta p)) pvcs (Involved_Name event);
    if decide (Reason event = "ProvisioningSucceeded") then Some (volumeDockerEvent pvc "create" timestamp)
    else None
  else None.

(** The body of the loop over the events. *)
Definition past_event (since until : Z) (filters : Args) (workloads : list containerWorkload) (pods : list Pod)
    (pvcs : list PersistentVolumeClaim) (event : KubeEvent) : option EventMessage :=
  let timestamp := kubernetesEventTime event in
  if ((timestamp =? 0) || (timestamp <? since))%Z || (negb (until =? 0) && (until <? timestamp))%Z then None
  else
    message ← historical_message workloads pods pvcs event timestamp;
    if matchesDockerEvent filters message then Some message else None.
End history.

(** ** Subscribing *)

Inductive ecmd : Type → Type :=
| ListFrom (k : kind) (ns selector : string) : ecmd (res (list (obj k) * string))   (* and the version *)
| ListEvents (ns : string) : ecmd (res (list KubeEvent))
| Watch (k : kind) (ns selector version : string) : ecmd (res nat)
| StopWatch (w : nat) : ecmd unit
| CancelWatches : ecmd unit                              (* the context of the watches *)
| MakeStream : ecmd nat
| RegisterStream (stream : nat) : ecmd unit              (* under [eventsMu] *)
| StartForwarding (stream : nat) (workloads : list containerWorkload) (pods : list Pod) (watches : list nat) :
    ecmd unit                                            (* go forwardKubernetesEvents *)
| TakeStream (stream : nat) : ecmd bool                  (* under [eventsMu]: whether it was registered *)
| CancelStream (stream : nat) : ecmd unit.

Abbreviation eproc := (prog ecmd).
Abbreviation ehist := (history ecmd).

Section subscribing.
Context `{DockerJSON} `{MapJSON} `{Regexp}.

Definition historicalDockerEvents (namespace : string) (since until : Z) (filters : Args)
    (workloads : list containerWorkload) (pods : list Pod) (pvcs : list PersistentVolumeClaim) :
    eproc (res (list EventMessage)) :=
  if (since =? 0)%Z then Ret (Ok [])
  else
    do events <- call (ListEvents namespace);
    match events with
    | Err e => Ret (Err (kubeError e))
    | Ok events => Ret (Ok (SliceStable (omap (M:=list) (past_event since until filters workloads pods pvcs) events)))
    end.

(** [list, err := ...List(...); if err != nil { return kubeError(err) }] *)
Definition list_from (k : kind) (ns selector : string) : eproc (res (list (obj k) * string)) :=
  do r <- call (ListFrom k ns selector); Ret (kube_result r).

(** The loop that starts the watches: on an error, those that were started are stopped. *)
Fixpoint start_watches (namespace : string) (started : list nat) (starts : list (kind * string * string)) :
    eproc (res (list nat)) :=
  match starts with
  | [] => Ret (Ok started)
  | (k, selector, version) :: starts =>
      do watcher <- call (Watch k namespace selector version);
      match watcher with
      | Ok w => start_watches namespace (started ++ [w])%list starts
      | Err e =>
          do? _ <- for_each started (λ w, do _ <- call (StopWatch w); Ret (Ok tt));
          do _ <- call CancelWatches;
          Ret (Err (kubeError e))
      end
  end.

Definition accepted_event_filters : gmap string bool :=
  {["container" := true; "event" := true; "image" := true; "label" := true; "scope" := true; "type" := true;
    "volume" := true]}.

Definition event_workloads (deployments : list Deployment) (jobs : list Job) : list containerWorkload :=
  ((deploymentWorkload <$> deployments) ++ (jobWorkload <$> filter (λ j, isContainerJob j = true) jobs))%list.

Definition SubscribeToEvents (ctx : context) (since until : Z) (filters : Args) :
    eproc (res (list EventMessage * nat)) :=
  match ctx with
  | None => Ret (Err (Unauthenticated (errors_New "missing identity in context")))
  | Some id =>
      let namespace := id_namespace id in
      if decide (namespace = "") then Ret (Err (Unauthenticated (errors_New "missing identity in context")))
      else match Validate filters accepted_event_filters with
      | Err e => Ret (Err (InvalidArgument (filter_error e)))
      | Ok _ =>
          do? '(deployments, dv) <- list_from KDeployment namespace "";
          do? '(jobs, jv) <- list_from KJob namespace "";
          do? '(pods, pv) <- list_from KPod namespace "";
          do? '(pvcs, vv) <- list_from KPVC namespace eventVolumeSelector;
          let workloads := event_workloads deployments jobs in
          do? historical <- historicalDockerEvents namespace since until filters workloads pods pvcs;
          do? watches <- start_watches namespace []
            [(KDeployment, "", dv); (KJob, "", jv); (KPod, "", pv); (KPVC, eventVolumeSelector, vv)];
          do stream <- call MakeStream;
          do _ <- call (RegisterStream stream);
          do _ <- call (StartForwarding stream workloads pods watches);
          Ret (Ok (historical, stream))
      end
  end.

Definition UnsubscribeFromEvents (stream : nat) : eproc (res unit) :=
  do registered <- call (TakeStream stream);
  if registered : bool then do _ <- call (CancelStream stream); Ret (Ok tt) else Ret (Ok tt).
End subscribing.
