(* ===== verification/EventProps.v ===== *)
(** * EventProps: what the event stream says

    Past events are exactly those of the window, in order; new events are determined
    by the objects that the watches showed; a subscription stays in its namespace,
    misses nothing between its lists and its watches, and leaves no watch behind when
    it fails. *)

From S2P Require Import Prelude GoStrings Errors Prog Docker Filters Identity Validation.
From S2P Require Import Workload Resources Volumes Inspect Events.

Local Open Scope string_scope.

(** ** Sorting *)

Definition not_later (m m' : EventMessage) : Prop := (ev_TimeNano m ≤ ev_TimeNano m')%Z.

Lemma insert_message_perm m l : insert_message m l ≡ₚ m :: l.
Proof.
  induction l as [|m' l IH]; [done|]. cbn [insert_message]. destruct (_ <? _)%Z; [|done].
  rewrite IH. constructor.
Qed.

Lemma SliceStable_perm l : SliceStable l ≡ₚ l.
Proof.
  induction l as [|m l IH]; [done|]. change (SliceStable (m :: l)) with (insert_message m (SliceStable l)).
  by rewrite insert_message_perm, IH.
Qed.

Lemma insert_message_sorted m l : StronglySorted not_later l → StronglySorted not_later (insert_message m l).
Proof.
  induction 1 as [|m' l Hs IH Hall]; [repeat constructor|]. cbn [insert_message].
  destruct (Z.ltb_spec (ev_TimeNano m') (ev_TimeNano m)) as [Hlt|Hge].
  - constructor; [done|]. rewrite insert_message_perm. constructor; [|done]. unfold not_later. lia.
  - constructor; [by constructor|]. constructor; [done|].
    eapply Forall_impl; [exact Hall|]. intros x. unfold not_later. lia.
Qed.

Lemma SliceStable_sorted l : StronglySorted not_later (SliceStable l).
Proof. induction l; [constructor|]. by apply insert_message_sorted. Qed.

(** Messages of one time keep their order. *)
Lemma insert_message_stable n m l :
  StronglySorted not_later l →
  List.filter (λ x, ev_TimeNano x =? n)%Z (insert_message m l) = List.filter (λ x, ev_TimeNano x =? n)%Z (m :: l).
Proof.
  induction 1 as [|m' l Hs IH Hall]; [done|]. cbn [insert_message].
  destruct (Z.ltb_spec (ev_TimeNano m') (ev_TimeNano m)) as [Hlt|Hge]; [|done].
  cbn [List.filter] in *. rewrite IH. destruct (Z.eqb_spec (ev_TimeNano m) n), (Z.eqb_spec (ev_TimeNano m') n);
    try done; lia.
Qed.

Lemma SliceStable_stable n l :
  List.filter (λ x, ev_TimeNano x =? n)%Z (SliceStable l) = List.filter (λ x, ev_TimeNano x =? n)%Z l.
Proof.
  induction l as [|m l IH]; [done|]. change (SliceStable (m :: l)) with (insert_message m (SliceStable l)).
  rewrite insert_message_stable by apply SliceStable_sorted. cbn [List.filter]. by rewrite IH.
Qed.

(** ** Past events *)

Section past.
Context `{DockerJSON} `{MapJSON} `{Regexp}.

(** The message of a Kubernetes event that happened in the window and is asked for. *)
Definition reported (since until : Z) (filters : Args) workloads pods pvcs (event : KubeEvent) (m : EventMessage) :
    Prop :=
  let timestamp := kubernetesEventTime event in
  timestamp ≠ 0%Z ∧ (since ≤ timestamp)%Z ∧ (until = 0%Z ∨ (timestamp ≤ until)%Z) ∧
  historical_message workloads pods pvcs event timestamp = Some m ∧ matchesDockerEvent filters m = true.

Lemma past_event_exact since until filters workloads pods pvcs event m :
  past_event since until filters workloads pods pvcs event = Some m ↔
  reported since until filters workloads pods pvcs event m.
Proof.
  unfold past_event, reported. cbv zeta. set (t := kubernetesEventTime event).
  destruct (Z.eqb_spec t 0), (Z.ltb_spec t since), (Z.eqb_spec until 0), (Z.ltb_spec until t); simpl;
    try (split; [done|intros (? & ? & [?|?] & _); lia]).
  all: destruct (historical_message workloads pods pvcs event t) as [m'|]; simpl;
    [|by split; [|intros (_ & _ & _ & ? & _)]].
  all: destruct (matchesDockerEvent filters m') eqn:E;
    (split; [intros [= <-]; split_and!; auto with lia|intros (_ & _ & _ & [= <-] & ?); congruence]).
Qed.

(** What a subscription returns as past events, for the events the namespace has. *)
Definition history_of (since until : Z) (filters : Args) workloads pods pvcs (events : list KubeEvent)
    (result : list EventMessage) : Prop :=
  StronglySorted not_later result ∧
  (∀ m, m ∈ result ↔ ∃ event, event ∈ events ∧ reported since until filters workloads pods pvcs event m) ∧
  length result = length (filter (λ e, is_Some (past_event since until filters workloads pods pvcs e)) events) ∧
  ∀ n, List.filter (λ x, ev_TimeNano x =? n)%Z result =
       List.filter (λ x, ev_TimeNano x =? n)%Z (omap (M:=list) (past_event since until filters workloads pods pvcs) events).

Lemma historical_exact since until filters workloads pods pvcs events :
  history_of since until filters workloads pods pvcs events
    (SliceStable (omap (M:=list) (past_event since until filters workloads pods pvcs) events)).
Proof.
  split; [apply SliceStable_sorted|]. split; [|split].
  - intros m. rewrite SliceStable_perm, list_elem_of_omap. by setoid_rewrite past_event_exact.
  - rewrite SliceStable_perm. induction events as [|e l IH]; [done|]. cbn [omap list_omap]. rewrite filter_cons.
    destruct (past_event _ _ _ _ _ _ e) as [m|] eqn:E.
    + rewrite decide_True by done. simpl. by rewrite IH.
    + rewrite decide_False; [done|]. by intros [? ?].
  - intros n. by rewrite SliceStable_stable.
Qed.
End past.

(** ** Subscriptions *)

(** Only the namespace is listed and watched. *)
Definition events_in (ns : string) : guard (cmd := ecmd) := λ _ X c,
  match c with
  | ListFrom _ ns' _ | ListEvents ns' | Watch _ ns' _ _ => ns' = ns
  | _ => True
  end.

(** The watch that an event started, or stopped; the stream that it registered. *)
Definition watch_started (e : event ecmd) : option nat :=
  match e with
  | Event X c x => match c in ecmd X return X → option nat with
                   | Watch _ _ _ _ => λ r, match r with Ok w => Some w | Err _ => None end
                   | _ => λ _, None end x
  end.
Definition watch_stopped (e : event ecmd) : option nat :=
  match e with
  | Event X c x => match c in ecmd X return X → option nat with StopWatch w => λ _, Some w | _ => λ _, None end x
  end.
Definition stream_registered (e : event ecmd) : option nat :=
  match e with
  | Event X c x => match c in ecmd X return X → option nat with RegisterStream s => λ _, Some s | _ => λ _, None end x
  end.

(** No watch is left running, and no stream was registered. *)
Definition nothing_left (h : ehist) : Prop :=
  (∀ w, Some w ∈ watch_started <$> h → Some w ∈ watch_stopped <$> h) ∧ (∀ s, Some s ∉ stream_registered <$> h).

Definition quiet (h : ehist) : Prop :=
  (∀ w, Some w ∉ watch_started <$> h) ∧ (∀ s, Some s ∉ stream_registered <$> h).

Lemma quiet_nothing_left h : quiet h → nothing_left h.
Proof. intros [Hw Hs]. split; [|done]. intros w Hin. by apply Hw in Hin. Qed.

Lemma quiet_cons e h : watch_started e = None → stream_registered e = None → quiet h → quiet (e :: h).
Proof.
  intros Ew Es [Hw Hs]. split; intros x; rewrite fmap_cons, ?Ew, ?Es, elem_of_cons;
    (intros [?|Hin]; [done|]); [by apply Hw in Hin|by apply Hs in Hin].
Qed.

Section subscriptions.
Context `{DockerJSON} `{MapJSON} `{Regexp}.

(** A watch that was started at a version. *)
Definition watching (h : ehist) (ns : string) (w : nat) (start : kind * string * string) : Prop :=
  Event _ (Watch start.1.1 ns start.1.2 start.2) (Ok w) ∈ h.

(** While watches are started: those started are the ones in hand. *)
Definition started_only (h : ehist) (ws : list nat) : Prop :=
  (∀ w, Some w ∈ watch_started <$> h ↔ w ∈ ws) ∧ (∀ s, Some s ∉ stream_registered <$> h).

Lemma stop_all_wp ns ws h :
  wp any_answer (events_in ns)
    (for_each ws (λ w, do _ <- call (StopWatch w); Ret (Ok tt)) : eproc (res unit)) h
    (λ h' r, r = Ok tt ∧ (∀ w, Some w ∈ watch_started <$> h' → Some w ∈ watch_started <$> h) ∧
       (∀ s, Some s ∈ stream_registered <$> h' → Some s ∈ stream_registered <$> h) ∧
       ∀ w, w ∈ ws ∨ Some w ∈ watch_stopped <$> h → Some w ∈ watch_stopped <$> h').
Proof.
  revert h. induction ws as [|w ws IH]; intros h; cbn [for_each].
  { rewrite wp_ret. split_and!; try done. intros w [Hin|?]; [by apply elem_of_nil in Hin|done]. }
  rewrite wp_bind_res, wp_bind, wp_call. split; [done|]. intros [] _. rewrite wp_ret.
  eapply wp_post; [|apply IH]. intros h' r (-> & Hw & Hs & Hstop). split_and!; [done| | |].
  - intros x Hin%Hw. rewrite fmap_cons, elem_of_cons in Hin. by destruct Hin.
  - intros x Hin%Hs. rewrite fmap_cons, elem_of_cons in Hin. by destruct Hin.
  - intros x Hx. apply Hstop. rewrite fmap_cons.
    destruct Hx as [[->|Hx]%elem_of_cons|Hx]; [right; by left|by left|right; by right].
Qed.

Lemma start_watches_wp ns started starts h h0 done_starts :
  started_only h started → h0 `suffix_of` h → Forall2 (watching h ns) started done_starts →
  wp any_answer (events_in ns) (start_watches ns started starts) h (λ h' r, h0 `suffix_of` h' ∧
    match r with
    | Ok ws => started_only h' ws ∧ Forall2 (watching h' ns) ws (done_starts ++ starts)%list
    | Err _ => nothing_left h'
    end).
Proof.
  revert started h done_starts. induction starts as [|[[k selector] version] starts IH];
    intros started h ds Hon Hs Hw; cbn [start_watches]; [by rewrite wp_ret, app_nil_r|].
  rewrite wp_bind, wp_call. split; [done|]. intros [w|e] _.
  - replace (ds ++ (k, selector, version) :: starts)%list with ((ds ++ [(k, selector, version)]) ++ starts)%list
      by (by rewrite <- app_assoc).
    apply IH; [|by apply suffix_cons_r|].
    + destruct Hon as [Hw' Hr]. split.
      * intros x. rewrite fmap_cons, elem_of_cons, elem_of_app, list_elem_of_singleton, Hw'. simpl.
        split; [intros [[= ->]|?]; auto|intros [?| ->]; auto].
      * intros s. rewrite fmap_cons, elem_of_cons. intros [?|Hin]; [done|by apply Hr in Hin].
    + apply Forall2_app; [|constructor; [by left|constructor]].
      eapply Forall2_impl; [exact Hw|]. intros x y Hin. by right.
  - rewrite wp_bind_res. eapply wp_post; [|apply wp_suffix, stop_all_wp]. intros h' r [(-> & Hst & Hreg & Hstop) Hs'].
    rewrite wp_bind, wp_call. split; [done|]. intros [] _. rewrite wp_ret.
    split; [apply suffix_cons_r; etrans; [|exact Hs']; by apply suffix_cons_r|].
    destruct Hon as [Hon Hr]. split.
    + intros x. rewrite !fmap_cons, !elem_of_cons. simpl. intros [?|Hin%Hst]; [done|]. right. apply Hstop. left.
      rewrite fmap_cons, elem_of_cons in Hin. destruct Hin as [?|Hin]; [done|by apply Hon].
    + intros x. rewrite fmap_cons, elem_of_cons. intros [?|Hin%Hreg]; [done|].
      rewrite fmap_cons, elem_of_cons in Hin. destruct Hin as [?|Hin]; [done|by apply Hr in Hin].
Qed.

Definition listed_at (h : ehist) (k : kind) (ns selector : string) (l : list (obj k)) (version : string) : Prop :=
  Event _ (ListFrom k ns selector) (Ok (l, version)) ∈ h.

(** What subscribing has led to. *)
Definition subscribed (ns : string) (since until : Z) (filters : Args) (h : ehist)
    (r : res (list EventMessage * nat)) : Prop :=
  match r with
  | Ok (past, stream) => ∃ ds dv js jv pods pv pvcs vv ws,
      (listed_at h KDeployment ns "" ds dv ∧ listed_at h KJob ns "" js jv ∧ listed_at h KPod ns "" pods pv ∧
       listed_at h KPVC ns eventVolumeSelector pvcs vv) ∧
      Forall2 (watching h ns) ws
        [(KDeployment, "", dv); (KJob, "", jv); (KPod, "", pv); (KPVC, eventVolumeSelector, vv)] ∧
      (∀ w, Some w ∈ watch_started <$> h ↔ w ∈ ws) ∧
      (∃ h0, h = Event _ (StartForwarding stream (event_workloads ds js) pods ws) tt ::
                 Event _ (RegisterStream stream) tt :: h0) ∧
      if decide (since = 0%Z) then past = []
      else ∃ events, Event _ (ListEvents ns) (Ok events) ∈ h ∧
             history_of since until filters (event_workloads ds js) pods pvcs events past
  | Err _ => nothing_left h
  end.

Lemma list_from_wp {k} ns selector h :
  quiet h →
  wp any_answer (events_in ns) (list_from k ns selector) h (λ h' r, h `suffix_of` h' ∧ quiet h' ∧
    match r with Ok (l, version) => listed_at h' k ns selector l version | Err _ => True end).
Proof.
  intros Hq. unfold list_from. rewrite wp_bind, wp_call. split; [done|]. intros answer _. rewrite wp_ret.
  split; [by apply suffix_cons_r|]. split; [by apply quiet_cons|].
  destruct answer as [[l version]|e]; [by left|done].
Qed.

Lemma historicalDockerEvents_wp ns since until filters workloads pods pvcs h :
  quiet h →
  wp any_answer (events_in ns) (historicalDockerEvents ns since until filters workloads pods pvcs) h
    (λ h' r, h `suffix_of` h' ∧ quiet h' ∧
      match r with
      | Ok past => if decide (since = 0%Z) then past = []
                   else ∃ events, Event _ (ListEvents ns) (Ok events) ∈ h' ∧
                          history_of since until filters workloads pods pvcs events past
      | Err _ => True
      end).
Proof.
  intros Hq. unfold historicalDockerEvents. destruct (Z.eqb_spec since 0) as [->|Hne].
  { rewrite wp_ret. by split_and!. }
  rewrite wp_bind, wp_call. split; [done|]. intros answer _. destruct answer as [events|e]; rewrite wp_ret;
    (split; [by apply suffix_cons_r|]); (split; [by apply quiet_cons|]); [|done].
  rewrite decide_False by done. exists events. split; [by left|apply historical_exact].
Qed.

(** C16: a subscription is confined, complete or undone.  Without an identity
    with a namespace nothing is asked for.  Otherwise only the namespace is listed and
    watched.  A subscription that succeeds has started exactly four watches, each at the
    version of the list its initial state is made of, so that nothing that happens in
    between is missed or seen twice, and has registered the stream before messages are
    forwarded to it; its past events are exactly the Kubernetes events of the window
    that mean something to Docker, are about listed objects and match the filters, in
    the order of time, those of one time in the order in which they were listed.  One
    that fails has stopped every watch it started and registered no stream. *)
Theorem SubscribeToEvents_safe ctx since until filters h r :
  exec (SubscribeToEvents ctx since until filters) [] h r →
  match ctx with
  | Some id => if decide (id_namespace id = "")
               then h = [] ∧ ∃ e, r = Err e ∧ kind_of e = Some KindUnauthenticated
               else guarded (events_in (id_namespace id)) [] h ∧ subscribed (id_namespace id) since until filters h r
  | None => h = [] ∧ ∃ e, r = Err e ∧ kind_of e = Some KindUnauthenticated
  end.
Proof.
  intros Hex. destruct ctx as [id|]; [|apply exec_inv in Hex as [-> ->]; eauto 10].
  destruct (decide (id_namespace id = "")) as [E|E].
  { unfold SubscribeToEvents in Hex. rewrite decide_True in Hex by done. apply exec_inv in Hex as [-> ->]. eauto 10. }
  apply and_comm. refine (wp_exec any_answer _ _ _ _ _ _ _ Hex (exec_any_answer _ _ _ _ Hex)).
  clear Hex h r. unfold SubscribeToEvents. rewrite decide_False by done. set (ns := id_namespace id).
  assert (quiet []) as Hq0 by (split; intros x Hx; by apply elem_of_nil in Hx).
  destruct (Validate filters accepted_event_filters) as [u|e]; [|rewrite wp_ret; by apply quiet_nothing_left].
  rewrite wp_bind_res. eapply wp_post; [|by apply list_from_wp].
  intros h1 [[ds dv]|e] (_ & Hq1 & Hl1); [|by apply quiet_nothing_left].
  rewrite wp_bind_res. eapply wp_post; [|by apply list_from_wp].
  intros h2 [[js jv]|e] (Hs2 & Hq2 & Hl2); [|by apply quiet_nothing_left].
  rewrite wp_bind_res. eapply wp_post; [|by apply list_from_wp].
  intros h3 [[pods pv]|e] (Hs3 & Hq3 & Hl3); [|by apply quiet_nothing_left].
  rewrite wp_bind_res. eapply wp_post; [|by apply list_from_wp].
  intros h4 [[pvcs vv]|e] (Hs4 & Hq4 & Hl4); [|by apply quiet_nothing_left]. cbv zeta.
  rewrite wp_bind_res. eapply wp_post; [|by apply historicalDockerEvents_wp].
  intros h5 [past|e] (Hs5 & Hq5 & Hpast); [|by apply quiet_nothing_left].
  rewrite wp_bind_res. eapply wp_post; [|apply (start_watches_wp ns [] _ h5 h5 []); [|done|constructor]].
  2: { destruct Hq5 as [Hw Hr]. split; [|done]. intros w. rewrite elem_of_nil. split; [|done]. by intros ?%Hw. }
  intros h6 [ws|e] [Hs6 Hws]; [|done]. destruct Hws as [[Hon _] Hws].
  rewrite wp_bind, wp_call. split; [done|]. intros stream _. rewrite wp_bind, wp_call. split; [done|]. intros [] _.
  rewrite wp_bind, wp_call. split; [done|]. intros [] _. rewrite wp_ret.
  match goal with |- subscribed _ _ _ _ ?h _ => assert (h6 `suffix_of` h) as Hs7
    by (by do 3 apply suffix_cons_r) end.
  exists ds, dv, js, jv, pods, pv, pvcs, vv, ws. split_and!.
  - eapply event_later; [|exact Hl1]. by repeat (etrans; [eassumption|]).
  - eapply event_later; [|exact Hl2]. by repeat (etrans; [eassumption|]).
  - eapply event_later; [|exact Hl3]. by repeat (etrans; [eassumption|]).
  - eapply event_later; [|exact Hl4]. by repeat (etrans; [eassumption|]).
  - eapply Forall2_impl; [exact Hws|]. intros w start. by apply event_later.
  - intros w. rewrite <- Hon, !fmap_cons, !elem_of_cons. simpl. naive_solver.
  - by eexists.
  - destruct (decide (since = 0%Z)); [done|]. destruct Hpast as (events & Hin & Hof). exists events.
    split; [|done]. eapply event_later; [|exact Hin]. by etrans.
Qed.
End subscriptions.

(** ** The stream and the objects *)

(** What a Pod says of its container, apart from its health. *)
Definition pod_started (pod : Pod) : string := startedAt (observePodEventState None pod 0).
Definition pod_ended (pod : Pod) : string := termination (observePodEventState None pod 0).
Definition pod_code (pod : Pod) : Z := exitCode (observePodEventState None pod 0).

Lemma observe_fields deployment pod now :
  let s := observePodEventState deployment pod now in
  observed_pod s = Some pod ∧ startedAt s = pod_started pod ∧ termination s = pod_ended pod ∧
  exitCode s = pod_code pod.
Proof.
  unfold pod_started, pod_ended, pod_code, observePodEventState.
  by destruct (podContainerStatus (app_of pod) pod).
Qed.

Section forwarding.
Context `{DockerJSON} `{MapJSON}.

(** The last state of an object that a watch showed, from the one listed. *)
Definition note {A} (type : watch_type) (object : A) (seen : option A) : option A :=
  match type with Added | Modified => Some object | Deleted => None | OtherEvent => seen end.

Definition workload_of (input : event_input) : option (watch_type * containerWorkload * Z) :=
  match input with
  | DeploymentEvent type (Some d) now => Some (type, deploymentWorkload d, now)
  | JobEvent type (Some j) now => if isContainerJob j then Some (type, jobWorkload j, now) else None
  | _ => None
  end.

Definition note_workload (name : string) (seen : option containerWorkload) (input : event_input) :
    option containerWorkload :=
  match workload_of input with
  | Some (type, w, _) => if decide (Name w = name) then note type w seen else seen
  | None => seen
  end.
Definition latest_workload (workloads : list containerWorkload) (inputs : list event_input) (name : string) :
    option containerWorkload :=
  foldl (note_workload name) (by_name (λ w : containerWorkload, Name w) workloads name) inputs.

Definition note_pod (key : string) (seen : option Pod) (input : event_input) : option Pod :=
  match input with
  | PodEvent type (Some pod) _ => if decide (pod_key pod = key) then note type pod seen else seen
  | _ => seen
  end.
Definition latest_pod (pods : list Pod) (inputs : list event_input) (key : string) : option Pod :=
  foldl (note_pod key) (by_name pod_key pods key) inputs.

(** What the objects seen before make of an input: the life of containers and volumes. *)
Definition workload_messages (type : watch_type) (previous : option containerWorkload) (w : containerWorkload)
    (now : Z) : list EventMessage :=
  match type, previous with
  | Added, _ => [containerDockerEvent w "create" now]
  | Deleted, _ => [containerDockerEvent w "destroy" now]
  | Modified, Some v =>
      if decide (dockerName v ≠ dockerName w) then [containerDockerEvent w "rename" now]
      else if decide (Template v ≠ Template w) then [containerDockerEvent w "update" now] else []
  | _, _ => []
  end.

Definition pod_messages (type : watch_type) (previous : option Pod) (w : containerWorkload) (pod : Pod) (now : Z) :
    list EventMessage :=
  let was f := default "" (f <$> previous) in
  match type with
  | Added | Modified =>
      ((if decide (pod_ended pod ≠ "" ∧ pod_ended pod ≠ was pod_ended)
        then [with_exit_code (pod_code pod) (containerDockerEvent w "die" now)] else []) ++
       (if decide (pod_started pod ≠ "" ∧ pod_started pod ≠ was pod_started)
        then [containerDockerEvent w "start" now] else []))%list
  | Deleted => if decide (was pod_started = "") then [] else [containerDockerEvent w "stop" now]
  | OtherEvent => []
  end.

Definition life_messages (workloads : list containerWorkload) (pods : list Pod) (seen : list event_input)
    (input : event_input) : list EventMessage :=
  match input with
  | PodEvent type (Some pod) now =>
      match latest_workload workloads seen (app_of pod) with
      | Some w => pod_messages type (latest_pod pods seen (pod_key pod)) w pod now
      | None => []
      end
  | PVCEvent Added (Some pvc) now => [volumeDockerEvent pvc "create" now]
  | PVCEvent Deleted (Some pvc) now => [volumeDockerEvent pvc "destroy" now]
  | _ => match workload_of input with
         | Some (type, w, now) => workload_messages type (latest_workload workloads seen (Name w)) w now
         | None => []
         end
  end.

Fixpoint life_of (workloads : list containerWorkload) (pods : list Pod) (seen inputs : list event_input) :
    list EventMessage :=
  match inputs with
  | [] => []
  | input :: inputs =>
      (life_messages workloads pods seen input ++ life_of workloads pods (seen ++ [input]) inputs)%list
  end.

(** The inputs that are handled: until the last watch is closed. *)
Fixpoint handled (opened : list kind) (inputs : list event_input) : list event_input :=
  match inputs with
  | [] => []
  | input :: inputs =>
      if decide (opened = []) then []
      else input :: handled (match input with
                             | WatchClosed k => List.filter (λ k', negb (bool_decide (k' = k))) opened
                             | _ => opened
                             end) inputs
  end.

(** Messages about health are the others. *)
Definition is_life (m : EventMessage) : bool := negb (HasPrefix (ev_Action m) "health_status").

(** The tables hold what was seen last. *)
Definition consistent (workloads : list containerWorkload) (pods : list Pod) (seen : list event_input)
    (s : forward_state) : Prop :=
  (∀ name, fw_deployments s !! name = latest_workload workloads seen name) ∧
  (∀ key, match latest_pod pods seen key with
          | None => fw_pods s !! key = None
          | Some pod => ∃ d t, fw_pods s !! key = Some (observePodEventState d pod t)
          end).

Lemma life_transitions w (previous : option podEventState) (before : option Pod) d pod t now :
  (match before with
   | None => previous = None
   | Some p => ∃ d t, previous = Some (observePodEventState d p t)
   end) →
  List.filter is_life (podTransitionEvents w (default no_state previous) (observePodEventState d pod t) now) =
  pod_messages Modified before w pod now.
Proof.
  intros Hprev. destruct (observe_fields d pod t) as (_ & Hs & He & Hc).
  assert (termination (default no_state previous) = default "" (pod_ended <$> before) ∧
          startedAt (default no_state previous) = default "" (pod_started <$> before)) as [Hpe Hps].
  { destruct before as [p|]; [|by subst]. destruct Hprev as (d' & t' & ->). simpl.
    by destruct (observe_fields d' p t') as (_ & -> & -> & _). }
  unfold podTransitionEvents, pod_messages. cbv zeta. rewrite Hs, He, Hc, Hpe, Hps, !List.filter_app.
  assert (List.filter is_life (if negb (bool_decide (health (observePodEventState d pod t) = health (default no_state previous))) &&
       (bool_decide (health (observePodEventState d pod t) = Healthy) || bool_decide (health (observePodEventState d pod t) = Unhealthy))
    then [containerDockerEvent w ("health_status" +:+ ": " +:+ HealthStatus_text (health (observePodEventState d pod t))) now]
    else []) = []) as ->.
  { destruct (_ && _); [|done]. by destruct (health (observePodEventState d pod t)). }
  rewrite app_nil_r. f_equal.
  - destruct (bool_decide_reflect (pod_ended pod = "")), (bool_decide_reflect (pod_ended pod = default "" (pod_ended <$> before)));
      destruct (decide _); try tauto; done.
  - destruct (bool_decide_reflect (pod_started pod = "")), (bool_decide_reflect (pod_started pod = default "" (pod_started <$> before)));
      destruct (decide _); try tauto; done.
Qed.

Lemma latest_workload_snoc workloads seen input name :
  latest_workload workloads (seen ++ [input]) name = note_workload name (latest_workload workloads seen name) input.
Proof. unfold latest_workload. by rewrite foldl_app. Qed.

Lemma latest_pod_snoc pods seen input key :
  latest_pod pods (seen ++ [input]) key = note_pod key (latest_pod pods seen key) input.
Proof. unfold latest_pod. by rewrite foldl_app. Qed.

(** A tick changes what is known of the health of Pods only. *)
Lemma tick_pod_consistent workloads pods seen now entries s messages :
  (∀ key st, (key, st) ∈ entries → ∃ pod d t, latest_pod pods seen key = Some pod ∧ st = observePodEventState d pod t) →
  consistent workloads pods seen s → List.filter is_life messages = [] →
  let '(s', messages') := foldl (tick_pod now) (s, messages) entries in
  consistent workloads pods seen s' ∧ fw_open s' = fw_open s ∧ List.filter is_life messages' = [].
Proof.
  revert s messages. induction entries as [|[key st] entries IH]; intros s messages He Hc Hm; [done|].
  cbn [foldl]. destruct (He key st) as (pod & d & t & Hpod & ->); [by left|].
  assert (∀ k st, (k, st) ∈ entries → ∃ pod d t, latest_pod pods seen k = Some pod ∧ st = observePodEventState d pod t)
    as He' by (intros; apply He; by right).
  unfold tick_pod at 2. destruct (negb _); [by apply IH|].
  destruct (observe_fields d pod t) as (-> & _).
  set (deployment := fw_deployments s !! app_of pod). cbv zeta.
  set (s' := set_pods _ s). set (messages' := (messages ++ _)%list).
  assert (consistent workloads pods seen s') as Hc'.
  { destruct Hc as [Hd Hp]. split; [exact Hd|]. intros k. specialize (Hp k). unfold s'. simpl.
    destruct (decide (k = key)) as [->|Hne]; [rewrite Hpod in *; rewrite lookup_insert_eq; by eauto|].
    by rewrite lookup_insert_ne. }
  assert (List.filter is_life messages' = []) as Hm'.
  { unfold messages'. rewrite List.filter_app, Hm. destruct deployment as [w|]; [|done]. simpl.
    pose proof (life_transitions w (Some (observePodEventState d pod t)) (Some pod) (Some w) pod now now) as Hl.
    simpl in Hl. rewrite Hl by eauto. rewrite !decide_False by tauto. done. }
  specialize (IH s' messages' He' Hc' Hm'). by destruct (foldl _ _ _) as [s2 m2].
Qed.

Lemma handleWorkload_consistent workloads pods seen input type w now s :
  consistent workloads pods seen s → workload_of input = Some (type, w, now) →
  consistent workloads pods (seen ++ [input]) (handleWorkload type w now s).1 ∧
  List.filter is_life (handleWorkload type w now s).2 =
    workload_messages type (latest_workload workloads seen (Name w)) w now.
Proof.
  intros [Hd Hp] Hw. split.
  - split.
    + intros name. rewrite latest_workload_snoc, <- Hd. unfold note_workload. rewrite Hw.
      destruct (decide (Name w = name)) as [<-|Hne];
        destruct type; simpl; rewrite ?lookup_insert_eq, ?lookup_delete_eq, ?lookup_insert_ne, ?lookup_delete_ne by done; done.
    + intros key. rewrite latest_pod_snoc. specialize (Hp key).
      assert (fw_pods (handleWorkload type w now s).1 = fw_pods s) as -> by by destruct type.
      by destruct input.
  - unfold handleWorkload, workload_messages. rewrite Hd. destruct type; try done.
    destruct (latest_workload workloads seen (Name w)) as [v|]; [|done]. cbn [snd].
    destruct (bool_decide_reflect (dockerName v = dockerName w)); simpl.
    + rewrite decide_False by tauto. destruct (bool_decide_reflect (Template v = Template w)); simpl.
      * by rewrite decide_False by tauto.
      * by rewrite decide_True by tauto.
    + by rewrite decide_True by tauto.
Qed.

Lemma handlePod_consistent workloads pods seen type pod now s :
  consistent workloads pods seen s →
  consistent workloads pods (seen ++ [PodEvent type (Some pod) now]) (handlePod type pod now s).1 ∧
  List.filter is_life (handlePod type pod now s).2 =
    match latest_workload workloads seen (app_of pod) with
    | Some w => pod_messages type (latest_pod pods seen (pod_key pod)) w pod now
    | None => []
    end.
Proof.
  intros [Hd Hp]. split.
  - split.
    + intros name. rewrite latest_workload_snoc. simpl. rewrite <- Hd. by destruct type.
    + intros key. rewrite latest_pod_snoc. simpl. specialize (Hp key).
      destruct (decide (pod_key pod = key)) as [<-|Hne]; destruct type; simpl;
        rewrite ?lookup_insert_eq, ?lookup_delete_eq, ?lookup_insert_ne, ?lookup_delete_ne by done; eauto.
  - unfold handlePod. rewrite Hd. specialize (Hp (pod_key pod)).
    destruct (latest_workload workloads seen (app_of pod)) as [w|]; [|by destruct type].
    assert (startedAt (default no_state (fw_pods s !! pod_key pod)) =
            default "" (pod_started <$> latest_pod pods seen (pod_key pod))) as Hst.
    { destruct (latest_pod pods seen (pod_key pod)) as [p|]; [|by rewrite Hp].
      destruct Hp as (d & t & ->). simpl. by destruct (observe_fields d p t) as (_ & -> & _). }
    assert (match latest_pod pods seen (pod_key pod) with
            | None => fw_pods s !! pod_key pod = None
            | Some p => ∃ d t, fw_pods s !! pod_key pod = Some (observePodEventState d p t) end) as Hp' by done.
    destruct type; cbn [snd]; [by rewrite (life_transitions _ _ _ _ _ _ _ Hp')|by rewrite (life_transitions _ _ _ _ _ _ _ Hp')| |done].
    unfold pod_messages. rewrite Hst. by destruct (decide _).
Qed.

(** An input that shows no object leaves what was seen. *)
Lemma unseen_consistent workloads pods seen input s s' :
  workload_of input = None → (∀ key o, note_pod key o input = o) →
  fw_deployments s' = fw_deployments s → fw_pods s' = fw_pods s →
  consistent workloads pods seen s → consistent workloads pods (seen ++ [input]) s'.
Proof.
  intros Hw Hn Hd' Hp' [Hd Hp]. split.
  - intros name. rewrite latest_workload_snoc, Hd', Hd. unfold note_workload. by rewrite Hw.
  - intros key. rewrite latest_pod_snoc, Hn, Hp'. apply Hp.
Qed.

Context `{PodStateOrderLaws}.

Lemma forward_step_consistent workloads pods seen input s :
  consistent workloads pods seen s →
  consistent workloads pods (seen ++ [input]) (forward_step s input).1 ∧
  List.filter is_life (forward_step s input).2 = life_messages workloads pods seen input ∧
  fw_open (forward_step s input).1 =
    match input with
    | WatchClosed k => List.filter (λ k', negb (bool_decide (k' = k))) (fw_open s)
    | _ => fw_open s
    end.
Proof.
  intros Hc.
  assert (∀ type w now, fw_open (handleWorkload type w now s).1 = fw_open s) as Hopen by by intros [].
  assert (∀ type pod now, fw_open (handlePod type pod now s).1 = fw_open s) as Hopen' by by intros [].
  destruct input as [type [d|] now|type [j|] now|type [pod|] now|type [pvc|] now|k|now];
    try (split; [by eapply unseen_consistent|by try destruct type]).
  - destruct (handleWorkload_consistent _ _ _ (DeploymentEvent type (Some d) now) _ _ _ _ Hc eq_refl) as [??].
    split_and!; [done|done|apply Hopen].
  - cbn [forward_step]. unfold life_messages. cbn [workload_of]. destruct (isContainerJob j) eqn:Ej.
    + destruct (handleWorkload_consistent _ _ _ (JobEvent type (Some j) now) type (jobWorkload j) now _ Hc) as [??];
        [by simpl; rewrite Ej|]. split_and!; [done|done|apply Hopen].
    + split; [|done]. eapply unseen_consistent; try done. simpl. by rewrite Ej.
  - destruct (handlePod_consistent _ _ _ type pod now _ Hc) as [??]. split_and!; [done|done|apply Hopen'].
  - cbn [forward_step]. unfold handleTick.
    pose proof (tick_pod_consistent workloads pods seen now (range_pod_states (fw_pods s)) s []) as Ht.
    destruct (foldl _ _ _) as [s' messages]. cbn [fst snd].
    destruct Ht as (Hc' & Ho & Hm); [|done|done|].
    + intros key st. rewrite range_pod_states_spec, elem_of_map_to_list. intros Hin.
      destruct Hc as [_ Hp]. specialize (Hp key). rewrite Hin in Hp.
      destruct (latest_pod pods seen key) as [p|]; [|done]. destruct Hp as (d & t & [= ->]). by exists p, d, t.
    + split_and!; [by eapply unseen_consistent|exact Hm|exact Ho].
Qed.

Lemma forward_consistent workloads pods seen inputs s :
  consistent workloads pods seen s →
  List.filter is_life (forward s inputs).2 = life_of workloads pods seen (handled (fw_open s) inputs).
Proof.
  revert seen s. induction inputs as [|input inputs IH]; intros seen s Hc; [done|]. cbn [forward handled].
  destruct (decide (fw_open s = [])); [done|].
  destruct (forward_step_consistent workloads pods seen input s Hc) as (Hc' & Hm & Ho).
  destruct (forward_step s input) as [s' messages]. cbn [fst snd] in *.
  specialize (IH _ s' Hc'). destruct (forward s' inputs) as [s2 rest]. cbn [snd] in *.
  cbn [life_of]. rewrite List.filter_app, Hm, IH. f_equal. rewrite Ho. by destruct input.
Qed.

Lemma insert_by_name {A B} (name_of : A → string) (f : A → B) (l : list A) name :
  foldl (λ m x, <[name_of x := f x]> m) (∅ : gmap string B) l !! name = f <$> by_name name_of l name.
Proof.
  unfold by_name. induction l as [|x l IH] using rev_ind; [done|].
  rewrite foldl_snoc, rev_app_distr. simpl. destruct (bool_decide_reflect (name_of x = name)) as [<-|Hne].
  - by rewrite lookup_insert_eq.
  - by rewrite lookup_insert_ne.
Qed.

Lemma initial_consistent workloads pods now : consistent workloads pods [] (initial_state workloads pods now).
Proof.
  split.
  - intros name. cbn [initial_state fw_deployments]. unfold initial_workloads, latest_workload.
    rewrite (insert_by_name (λ w : containerWorkload, Name w) id). by rewrite option_fmap_id.
  - intros key. cbn [initial_state fw_pods]. unfold initial_pods, latest_pod. cbn [foldl].
    rewrite (insert_by_name pod_key). destruct (by_name pod_key pods key) as [pod|]; simpl; eauto.
Qed.

(** C15: the stream tells the life of the containers and volumes that the watches
    showed.  The messages made by the loop, those about health left out, are exactly
    the ones that the objects themselves ask for, whatever the ticks and whatever order
    the Pods are looked at in: a container is created, renamed, updated or destroyed as
    its Deployment or Job is, compared with the last one seen of its name; it dies
    whenever its Pod shows an end, and starts whenever it shows a start, that the Pod
    last seen of that name did not show; it stops when its running Pod is deleted;
    Pods of unknown containers and other objects are passed over; and nothing is said
    once the last watch is closed. *)
Theorem stream_tells_the_life workloads pods now inputs :
  let s := initial_state workloads pods now in
  List.filter is_life (forward s inputs).2 = life_of workloads pods [] (handled (fw_open s) inputs).
Proof. apply forward_consistent, initial_consistent. Qed.
End forwarding.

(** ** Witnesses *)

Definition demo_pod_states : PodStateOrder := {| range_pod_states := map_to_list |}.
Lemma demo_pod_states_laws : @PodStateOrderLaws demo_pod_states.
Proof. by split. Qed.

(** A Pod of [web] with its container in some state. *)
Definition web_pod (running : option Z) (ended : option ContainerStateTerminated) : Pod := {|
  pod_meta := pod_meta (sample_pod "a" "rs-1" "web-1"); Phase := "Running";
  ContainerStatuses := [{| CS_Name := "web"; CS_ContainerID := "c1"; CS_ImageID := ""; CS_Ready := true;
    CS_RestartCount := 0; CS_Running := running; CS_Terminated := ended; CS_Waiting := None;
    CS_LastTerminated := None |}];
  pod_Volumes := []; pod_Containers := []; NodeName := ""; PodIP := ""; StartTime := None;
  Pod_Message := ""; Pod_Reason := "" |}.

Definition ended_with (code : Z) : ContainerStateTerminated := {|
  TS_ExitCode := code; TS_Reason := ""; TS_Message := ""; TS_FinishedAt := 70; TS_ContainerID := "c1" |}.

Definition web_workload : containerWorkload := deploymentWorkload (sample_deployment "acme" "web" "3f25-04e0" 1).

(** The container starts, is shown again, ends with the code 3, and its Pod is deleted. *)
Definition web_inputs : list event_input :=
  [PodEvent Added (Some (web_pod (Some 60%Z) None)) 100; PodEvent Modified (Some (web_pod (Some 60%Z) None)) 101;
   HealthTick 102; PodEvent Modified (Some (web_pod None (Some (ended_with 3)))) 103;
   PodEvent Deleted (Some (web_pod None (Some (ended_with 3)))) 104].

Lemma stream_tells_the_life_witness :
  let s := initial_state [web_workload] [] (λ _, 0%Z) in
  (λ m, (ev_Action m, mget (ev_Attributes m) "exitCode")) <$>
    List.filter is_life (@forward demo_docker_json demo_map_json demo_pod_states s web_inputs).2 =
  [("start", ""); ("die", "3")].
Proof.
  intros s.
  pose proof (@stream_tells_the_life demo_docker_json demo_map_json demo_pod_states demo_pod_states_laws
    [web_workload] [] (λ _, 0%Z) web_inputs) as H.
  cbv zeta in H. subst s. rewrite H. vm_compute. reflexivity.
Defined.

(** A namespace with [web], its Pod, and what Kubernetes recorded of it; watching the
    volumes fails when [broken] says so. *)
Definition event_server (broken : bool) (X : Type) (c : ecmd X) (next : nat) : X * nat :=
  match c in ecmd X return X * nat with
  | ListFrom k _ _ => (Ok (match k return list (obj k) with
                           | KDeployment => [sample_deployment "acme" "web" "3f25-04e0" 1]
                           | KPod => [web_pod (Some 60%Z) None]
                           | _ => []
                           end, "17"), next)
  | ListEvents _ =>
      (Ok [{| Involved_Kind := "Pod"; Involved_Name := "a"; Reason := "Started"; EventTime := 0;
              LastObservedTime := None; LastTimestamp := 60; FirstTimestamp := 50; Event_CreationTimestamp := 40 |};
           {| Involved_Kind := "Pod"; Involved_Name := "a"; Reason := "Created"; EventTime := 30;
              LastObservedTime := None; LastTimestamp := 0; FirstTimestamp := 0; Event_CreationTimestamp := 40 |};
           {| Involved_Kind := "Pod"; Involved_Name := "gone"; Reason := "Started"; EventTime := 31;
              LastObservedTime := None; LastTimestamp := 0; FirstTimestamp := 0; Event_CreationTimestamp := 0 |}], next)
  | Watch k _ _ _ => if broken && bool_decide (k = KPVC) then (Err (StatusError ReasonForbidden), next) else (Ok next, S next)
  | MakeStream => (next, S next)
  | TakeStream _ => (true, next)
  | StopWatch _ | CancelWatches | RegisterStream _ | StartForwarding _ _ _ _ | CancelStream _ => (tt, next)
  end.

Definition demo_subscription : eproc (res (list EventMessage * nat)) :=
  @SubscribeToEvents demo_docker_json demo_map_json demo_regexp (Some acme_identity) 20 0 {| fields := ∅ |}.

Lemma SubscribeToEvents_safe_witness :
  let good := run (event_server false) demo_subscription [] 0 in
  let bad := run (event_server true) demo_subscription [] 0 in
  @subscribed demo_docker_json demo_map_json demo_regexp "acme" 20 0 {| fields := ∅ |} good.1.2 good.1.1 ∧
  match good.1.1 with Ok (past, _) => ev_Action <$> past = ["create"; "start"] | Err _ => False end ∧
  nothing_left bad.1.2 ∧ Some 2 ∈ watch_stopped <$> bad.1.2.
Proof.
  intros good bad.
  pose proof (@SubscribeToEvents_safe demo_docker_json demo_map_json demo_regexp (Some acme_identity) 20 0 _ _ _
    (run_exec (event_server false) demo_subscription [] 0)) as Hgood.
  pose proof (@SubscribeToEvents_safe demo_docker_json demo_map_json demo_regexp (Some acme_identity) 20 0 _ _ _
    (run_exec (event_server true) demo_subscription [] 0)) as Hbad.
  cbv iota beta in Hgood, Hbad. rewrite decide_False in Hgood, Hbad by done.
  split; [exact (proj2 Hgood)|]. split; [vm_compute; reflexivity|]. destruct Hbad as [_ Hbad]. fold bad in Hbad.
  assert (bad.1.1 = Err (Forbidden (StatusError ReasonForbidden))) as E by (vm_compute; reflexivity).
  rewrite E in Hbad. split; [exact Hbad|]. apply (bool_decide_unpack _). vm_compute. exact I.
Defined.

(** ** What the stream gets wrong *)

(** A label [name] of a container takes the place of its name in its events, so that
    they match a filter for another container. *)
Definition renamed_workload : containerWorkload := deploymentWorkload
  (dep_set_meta (meta_set_annotations {[containerConfigAnnotation := to_text
     {| User := ""; ExposedPorts := ∅; Tty := false; OpenStdin := false; Env := []; Cmd := []; Healthcheck := None;
        Image := "web"; Config_Volumes := ∅; WorkingDir := ""; Entrypoint := None; OnBuild := [];
        Docker.Labels := {["name" := "db"]}; StopSignal := ""; Shell := [] |}]}
     (sample_meta "acme" "web" "3f25-04e0")) (sample_deployment "acme" "web" "3f25-04e0" 1)).

Example label_renames_events :
  let m := @containerDockerEvent demo_docker_json renamed_workload "start" 0 in
  dockerName renamed_workload = "web" ∧ mget (ev_Attributes m) "name" = "db" ∧
  @matchesDockerEvent demo_regexp (NewArgs [Arg "container" "db"]) m = true ∧
  @matchesDockerEvent demo_regexp (NewArgs [Arg "container" "web"]) m = false.
Proof. by vm_compute. Qed.

(** The Deployment of a Swarm service makes events of a container, which no listing
    of containers has. *)
Definition service_deployment : Deployment :=
  dep_set_meta (meta_set_labels {[swarmKindLabel := "service"]} (sample_meta "acme" "shop" "5e"))
    (sample_deployment "acme" "shop" "5e" 1).

Example services_make_container_events :
  workloads_of [service_deployment] [] = [] ∧
  (λ m, (ev_Type m, ev_Action m)) <$>
    (@forward demo_docker_json demo_map_json demo_pod_states (initial_state [] [] (λ _, 0%Z))
       [DeploymentEvent Added (Some service_deployment) 1]).2 = [(ContainerEventType, "create")].
Proof. by vm_compute. Qed.
