(* ===== verification/Gateway.v ===== *)
(** * Gateway: the build gateway, core/buildkit

    Docker clients build through a BuildKit daemon that all tenants share.  The gateway
    checks the identity of each call, renames builds so that each client has its own
    ([historyRef]), ties a build to a session of the same client, turns the export of a
    Docker image into a push to dink's registry with a credential that lasts as long as
    the build, and shows a client only its own history.  A method is a program of the
    commands [gcmd]; what the daemon, the client and other goroutines do is the
    environment. *)

From S2P Require Import Prelude GoStrings Sha256 Encoding Net Prog Identity Oci.

Local Open Scope string_scope.

(** ** Data *)

(** The codes of gRPC that the code uses. *)
Inductive gcode :=
| InvalidArgument | PermissionDenied | Unauthenticated | Unavailable | Unimplemented | FailedPrecondition
| AlreadyExists | Internal.

Inductive gerror :=
| StatusErr (code : gcode) (text : string)
| BackendErr (text : string)                   (* what a call of another service returned *)
| JoinedErr (errs : list gerror).

Abbreviation gres := (result gerror).

Record BuildCredential := { bc_Username : string; bc_Password : string; bc_References : list string }.

Record Exporter := { ex_Type : string; ex_Attrs : smap }.

(** [control.SolveRequest]; what the gateway does not look at is [sv_rest]. *)
Record SolveRequest := {
  sv_Ref : string;
  sv_Session : string;
  sv_Definition : option string;
  sv_FrontendInputs : smap;
  sv_SourcePolicy : option string;
  sv_SourcePolicySession : string;
  sv_Entitlements : list string;
  sv_ProxyNetwork : bool;
  sv_FrontendAttrs : smap;
  sv_Exporters : list Exporter;
  sv_ExporterDeprecated : string;
  sv_ExporterAttrsDeprecated : smap;
  sv_rest : string
}.

Record SolveResponse := { ExporterResponse : smap }.

(** A frontend's [SolveRequest] on the gateway of a build. *)
Record FrontendSolve := {
  fs_Definition : option string; fs_FrontendInputs : smap; fs_SourcePolicies : list string; fs_FrontendOpt : smap
}.

Record BuildHistoryRequest := {
  bh_Ref : string; bh_Filter : list string; bh_Limit : Z; bh_EarlyExit : bool; bh_ActiveOnly : bool
}.

(** A build's result: the digests of its descriptors, absent ones left out. *)
Record BuildResultInfo := { ResultDeprecated : option string; Attestations : list string; Results : list string }.

Record BuildHistoryRecord := {
  hr_Ref : string;
  hr_FrontendAttrs : smap;
  hr_Exporters : list (option Exporter);
  hr_ExporterResponse : option smap;
  hr_Logs : option string; hr_Trace : option string; hr_ExternalError : option string;
  hr_Result : option BuildResultInfo;
  hr_Results : list (option BuildResultInfo);
  hr_rest : string
}.
Record BuildHistoryEvent := { he_Type : Z; he_Record : option BuildHistoryRecord }.

(** A record of [DiskUsage] and [Prune], and what is asked of these; times are in
    nanoseconds. *)
Record UsageRecord := {
  us_ID : string; us_Size : Z; us_InUse : bool; us_Shared : bool;
  us_Parents : list string; us_RecordType : string; us_Description : string;
  us_UsageCount : Z; us_CreatedAt : option Z; us_LastUsedAt : option Z
}.
Record PruneRequest := {
  pr_Filter : list string; pr_All : bool; pr_KeepDuration : Z;
  pr_ReservedSpace : Z; pr_MaxUsedSpace : Z; pr_MinFreeSpace : Z
}.

Record WorkerRecord := { wk_ID : string; wk_Labels : smap }.

#[export] Instance Identity_eq_dec : EqDecision Identity.
Proof. solve_decision. Defined.

(** An entry of [g.sessions]: a pointer to a [bridge], with its identity, which does not
    change. *)
Record bridge := { br_pointer : nat; br_id : Identity }.

(** ** Commands *)

Inductive gcmd : Type → Type :=
| Sessions : gcmd (gmap string bridge)                   (* the table, under [g.mu] *)
| AwaitReady (b : nat) : gcmd bool                       (* [b.ready], or else the deadline *)
| AwaitTick : gcmd bool                                  (* the ticker, or else the deadline *)
| BridgeDone (b : nat) : gcmd bool                       (* [b.ctx.Err() != nil] *)
| SwapSolving (b : nat) : gcmd bool                      (* [CompareAndSwap(false, true)] *)
| StoreSolving (b : nat) : gcmd unit                     (* [Store(false)] *)
| SetCredential (b : nat) (credential : option BuildCredential) : gcmd unit
| GetCredential (b : nat) : gcmd (option BuildCredential)
| IssueBuildCredential (id : Identity) (names : list string) : gcmd (gres BuildCredential)
| RevokeBuildCredential (id : Identity) (username : string) : gcmd (gres unit)
| BackendInfo : gcmd (gres string)
| BackendListWorkers : gcmd (gres (list WorkerRecord))
| BackendSolve (request : SolveRequest) : gcmd (gres (option SolveResponse))
| BackendStatus (ref : string) : gcmd (gres unit)        (* and the relay of its stream *)
| BackendListen (request : BuildHistoryRequest) :        (* the events of the stream, and its end *)
    gcmd (gres (list BuildHistoryEvent * gres unit))
| BackendUpdateHistory (ref change : string) : gcmd (gres unit)
| BackendDiskUsage (filters : list string) : gcmd (gres (option (list UsageRecord)))
| BackendPrune (request : PruneRequest) : gcmd (gres (list UsageRecord * gres unit))
| SendUsage (record : UsageRecord) : gcmd (gres unit)
| BackendContentInfo (digest : string) : gcmd (gres (option smap))  (* the labels of [Info] *)
| BackendReadContent (digest : string) : gcmd (gres unit)
| RelayHeaders : gcmd (gres unit)
| SendEvent (event : BuildHistoryEvent) : gcmd (gres unit)
| ReceiveFrame : gcmd (gres string)
| ForwardRPC (buildid method frame : string) : gcmd (gres unit)
| RegisterSession (sid : string) (id : Identity) : gcmd (option nat)  (* unless there is one *)
| UnregisterSession (sid : string) : gcmd unit
| HandleConn (sid : string) : gcmd unit                  (* go g.manager.HandleConn *)
| ManagerGet (sid : string) : gcmd (gres string)         (* the shared key of the caller *)
| NewSession (key : string) : gcmd (gres nat)
| AllowMethods (session : nat) (b : nat) (methods : list (string * string)) : gcmd unit
| AllowAuth (session : nat) (b : nat) : gcmd unit
| RunSession (session : nat) (sid : string) : gcmd (gres unit)  (* until one side ends *)
| CloseSession (session : nat) : gcmd unit
| CancelBridge (b : nat) : gcmd unit
| ClientCredentials (b : nat) (host : string) : gcmd (gres (string * string))
| ClientToken (b : nat) (host : string) : gcmd (gres string).

Abbreviation gproc := (prog gcmd).
Abbreviation ghist := (history gcmd).

(** [digest.Digest(value).Validate()] of go-digest, and the protobuf of a frontend's
    request. *)
Class GoDigest := { digest_Validate : string → bool }.
Class FrontendCodec := { decode_FrontendSolve : string → option FrontendSolve }.

(** What a gateway was made with: whether there is a backend, and [g.registry]. *)
Record gateway := { gw_enabled : bool; registry_Scheme : string; registry_Host : string }.

(** ** Names *)

(** A byte 0. *)
Definition NUL : string := String "000" "".

Definition tenantRef (id : Identity) (ref : string) : string :=
  hex (Sum256 (Namespace id +:+ NUL +:+ CommonName id +:+ NUL +:+ ref)).

Definition historyPrefix (id : Identity) : string := "dink-history-" +:+ tenantRef id "" +:+ "-".
Definition historyRef (id : Identity) (ref : string) : string := historyPrefix id +:+ RawURL_Encode ref.

Definition originalHistoryRef (id : Identity) (ref : string) : option string :=
  match CutPrefix ref (historyPrefix id) with
  | None => None
  | Some suffix =>
      match RawURL_Decode suffix with
      | Some decoded => if decide (decoded = "") then None else Some decoded
      | None => None
      end
  end.

Definition historyNamesAttr : string := "dink.history.original-image-names".
Definition historyExporterAttr : string := "dink.history.exporter-index".

Section gateway.
Context (g : gateway) `{References} `{FrontendCodec} `{GoDigest} `{Unicode}.

Definition check (ctx : option Identity) : gres Identity :=
  match ctx with
  | Some id =>
      if negb (ValidNamespace (Namespace id))
      then Err (StatusErr Unauthenticated "build requests require a tenant identity")
      else if gw_enabled g then Ok id else Err (StatusErr Unavailable "BuildKit backend is not configured")
  | None => Err (StatusErr Unauthenticated "build requests require a tenant identity")
  end.

(** ** Sessions of a build ([frontend.go], [session.go]) *)

(** Whether a frontend attribute names a session that is not the identity's. *)
Definition foreign_session (sessions : gmap string bridge) (id : Identity) (primary : string)
    (attr : string * string) : bool :=
  let '(key, value) := attr in
  if negb (HasPrefix key "local-sessionid:") || (bool_decide (value = primary) && negb (bool_decide (primary = "")))
  then false
  else match sessions !! value with
       | Some b => negb (bool_decide (br_id b = id))
       | None => true
       end.

Definition validateFrontendSessions (id : Identity) (attrs : smap) (primary : string) : gproc (gres unit) :=
  do sessions <- call Sessions;
  Ret (if existsb (foreign_session sessions id primary) (map_to_list attrs)
       then Err (StatusErr PermissionDenied "frontend local session is not owned by this identity") else Ok tt).

(** [getBridge]: [ticks] bounds the rounds that fit before its deadline. *)
Fixpoint getBridge (ticks : nat) (sessionID : string) (id : Identity) : gproc (gres nat) :=
  do sessions <- call Sessions;
  match sessions !! sessionID with
  | Some b =>
      if decide (br_id b = id) then
        do ready <- call (AwaitReady (br_pointer b));
        if ready : bool then
          do disconnected <- call (BridgeDone (br_pointer b));
          Ret (if disconnected : bool then Err (StatusErr Unavailable "build session disconnected")
               else Ok (br_pointer b))
        else Ret (Err (StatusErr Unavailable "build session is not ready"))
      else Ret (Err (StatusErr PermissionDenied "session belongs to another identity"))
  | None =>
      match ticks with
      | O => Ret (Err (StatusErr Unavailable "build session is not connected"))
      | S ticks =>
          do tick <- call AwaitTick;
          if tick : bool then getBridge ticks sessionID id
          else Ret (Err (StatusErr Unavailable "build session is not connected"))
      end
  end.

(** ** Building ([Solve] in [gateway.go]) *)

Definition set_attr (key value : string) (e : Exporter) : Exporter :=
  {| ex_Type := ex_Type e; ex_Attrs := <[key := value]> (ex_Attrs e) |}.
Definition set_type (type : string) (e : Exporter) : Exporter := {| ex_Type := type; ex_Attrs := ex_Attrs e |}.

(** What the gateway refuses of a build. *)
Definition refused_build (request : SolveRequest) : bool :=
  bool_decide (is_Some (sv_Definition request)) || negb (bool_decide (sv_FrontendInputs request = ∅)) ||
  bool_decide (is_Some (sv_SourcePolicy request)) || negb (bool_decide (sv_SourcePolicySession request = "")) ||
  negb (bool_decide (sv_Entitlements request = [])) || sv_ProxyNetwork request.

(** The clone of the request with the client's build name, without the attributes that
    the gateway uses itself, and with the deprecated exporter as an exporter. *)
Definition own_request (id : Identity) (r : SolveRequest) : SolveRequest :=
  let deprecated := negb (bool_decide (sv_ExporterDeprecated r = "")) && bool_decide (sv_Exporters r = []) in {|
  sv_Ref := historyRef id (sv_Ref r); sv_Session := sv_Session r; sv_Definition := sv_Definition r;
  sv_FrontendInputs := sv_FrontendInputs r; sv_SourcePolicy := sv_SourcePolicy r;
  sv_SourcePolicySession := sv_SourcePolicySession r; sv_Entitlements := sv_Entitlements r;
  sv_ProxyNetwork := sv_ProxyNetwork r;
  sv_FrontendAttrs := delete historyExporterAttr (delete historyNamesAttr (sv_FrontendAttrs r));
  sv_Exporters := if deprecated
                  then [{| ex_Type := sv_ExporterDeprecated r; ex_Attrs := sv_ExporterAttrsDeprecated r |}]
                  else sv_Exporters r;
  sv_ExporterDeprecated := if deprecated then "" else sv_ExporterDeprecated r;
  sv_ExporterAttrsDeprecated := if deprecated then ∅ else sv_ExporterAttrsDeprecated r;
  sv_rest := sv_rest r |}.

Definition with_exporters (exporters : list Exporter) (attrs : smap) (r : SolveRequest) : SolveRequest := {|
  sv_Ref := sv_Ref r; sv_Session := sv_Session r; sv_Definition := sv_Definition r;
  sv_FrontendInputs := sv_FrontendInputs r; sv_SourcePolicy := sv_SourcePolicy r;
  sv_SourcePolicySession := sv_SourcePolicySession r; sv_Entitlements := sv_Entitlements r;
  sv_ProxyNetwork := sv_ProxyNetwork r; sv_FrontendAttrs := attrs; sv_Exporters := exporters;
  sv_ExporterDeprecated := sv_ExporterDeprecated r; sv_ExporterAttrsDeprecated := sv_ExporterAttrsDeprecated r;
  sv_rest := sv_rest r |}.

(** [strconv.ParseBool] *)
Definition ParseBool (s : string) : option bool :=
  if bool_decide (s ∈ ["1"; "t"; "T"; "TRUE"; "true"; "True"]) then Some true
  else if bool_decide (s ∈ ["0"; "f"; "F"; "FALSE"; "false"; "False"]) then Some false else None.

(** The loop over the exporters: the index of the one of type [moby], and whether it is
    to push. *)
Fixpoint scan_exporters (i : nat) (l : list Exporter) (mobyIndex : option nat) (push : bool) :
    gres (option nat * bool) :=
  match l with
  | [] => Ok (mobyIndex, push)
  | exporter :: l =>
      if negb (bool_decide (ex_Type exporter = "moby")) then scan_exporters (S i) l mobyIndex push
      else match mobyIndex with
      | Some _ => Err (StatusErr Unimplemented "multiple moby exporters are not supported")
      | None =>
          let value := mget (ex_Attrs exporter) "push" in
          let byDigest := mget (ex_Attrs exporter) "push-by-digest" in
          match (if decide (value = "") then Some push else ParseBool value) with
          | None => Err (StatusErr InvalidArgument "invalid image exporter push flag")
          | Some push =>
              if negb (bool_decide (byDigest = "")) && negb (bool_decide (byDigest = "false"))
              then Err (StatusErr Unimplemented "push-by-digest is not supported")
              else scan_exporters (S i) l (Some i) push
          end
      end
  end.

(** [validatePushNames] ([push.go]) *)
Fixpoint validate_push_names (names : list string) : gres unit :=
  match names with
  | [] => Ok tt
  | name :: names =>
      match ParseRelative name with
      | Some ref =>
          if bool_decide (Tag ref = "") || negb (bool_decide (ref_Digest ref = ""))
          then Err (StatusErr InvalidArgument "push output must be a tagged image reference")
          else if EqualFold (registry_Host g) (Host ref)
          then Err (StatusErr InvalidArgument "--push must target an upstream registry, not Dinki's internal endpoint")
          else validate_push_names names
      | None => Err (StatusErr InvalidArgument "push output must be a tagged image reference")
      end
  end.
Definition validatePushNames (names : string) : gres unit := validate_push_names (Split names ",").

(** The exporter that pushes to the other registry. *)
Definition upstream_exporter (exporter : Exporter) : Exporter :=
  set_attr "store" "false" (set_attr "push" "true" (set_type "image" exporter)).

(** The exporter that publishes to dink's registry under the references of a credential. *)
Definition publishing_exporter (references : list string) (exporter : Exporter) : Exporter :=
  let names := (λ ref, registry_Host g +:+ "/" +:+ ref) <$> references in
  set_attr "registry.insecure" (if bool_decide (registry_Scheme g = "http") then "true" else "false")
    (set_attr "store" "false" (set_attr "push" "true" (set_attr "name" (Join names ",") (set_type "image" exporter)))).

(** The request with its exporter [i] publishing, and perhaps pushing elsewhere too. *)
Definition publishing_request (credential : BuildCredential) (i : nat) (exporter : Exporter) (push : bool)
    (r : SolveRequest) : SolveRequest :=
  with_exporters
    (<[i := publishing_exporter (bc_References credential) exporter]> (sv_Exporters r) ++
     (if push then [upstream_exporter exporter] else []))%list
    (<[historyExporterAttr := pretty (Z.of_nat i)]>
       (<[historyNamesAttr := mget (ex_Attrs exporter) "name"]> (sv_FrontendAttrs r)))
    r.

(** The response for a published image: the name that the client gave it. *)
Definition published_response (originalNames : string) (response : SolveResponse) : SolveResponse :=
  {| ExporterResponse :=
       delete "containerimage.config.digest" (<["image.name" := originalNames]> (ExporterResponse response)) |}.

(** [errors.Join] of the error of the build, if any, with that of the revocation. *)
Definition join_revocation (r : gres (option SolveResponse)) (revoked : gres unit) : gres (option SolveResponse) :=
  match revoked, r with
  | Ok _, _ => r
  | Err e, Ok _ => Err (JoinedErr [e])
  | Err e, Err e0 => Err (JoinedErr [e0; e])
  end.

(** The part of [Solve] under the credential, with its deferred cleanup. *)
Definition publish (id : Identity) (b : nat) (originalNames : string) (credential : BuildCredential)
    (request : SolveRequest) : gproc (gres (option SolveResponse)) :=
  do _ <- call (SetCredential b (Some credential));
  do response <- call (BackendSolve request);
  do _ <- call (SetCredential b None);
  do revoked <- call (RevokeBuildCredential id (bc_Username credential));
  Ret (join_revocation (result_map (fmap (M:=option) (published_response originalNames)) response) revoked).

(** [Solve] once it is the one build of its session. *)
Definition solve_on (id : Identity) (b : nat) (request : SolveRequest) : gproc (gres (option SolveResponse)) :=
  match scan_exporters 0 (sv_Exporters request) None false with
  | Err e => Ret (Err e)
  | Ok (None, _) => call (BackendSolve request)
  | Ok (Some i, pushUpstream) =>
      let exporter := default {| ex_Type := ""; ex_Attrs := ∅ |} (sv_Exporters request !! i) in
      let originalNames := mget (ex_Attrs exporter) "name" in
      if decide (originalNames = "")
      then Ret (Err (StatusErr Unimplemented "this build gateway requires an image tag (-t)"))
      else match (if pushUpstream then validatePushNames originalNames else Ok tt) with
      | Err e => Ret (Err e)
      | Ok _ =>
          do issued <- call (IssueBuildCredential id (Split originalNames ","));
          match issued with
          | Err e => Ret (Err (StatusErr Unavailable "issuing build credential: %v"))
          | Ok credential =>
              publish id b originalNames credential
                (publishing_request credential i exporter pushUpstream request)
          end
      end
  end.

Definition Solve (ticks : nat) (ctx : option Identity) (request : SolveRequest) :
    gproc (gres (option SolveResponse)) :=
  match check ctx with
  | Err e => Ret (Err e)
  | Ok id =>
      if bool_decide (sv_Ref request = "") || bool_decide (sv_Session request = "")
      then Ret (Err (StatusErr InvalidArgument "build ref and session are required"))
      else if refused_build request
      then Ret (Err (StatusErr Unimplemented "raw LLB, source policies and privileged build entitlements are not supported"))
      else
        do? _ <- validateFrontendSessions id (sv_FrontendAttrs request) (sv_Session request);
        do? b <- getBridge ticks (sv_Session request) id;
        do swapped <- call (SwapSolving b);
        if negb swapped then Ret (Err (StatusErr FailedPrecondition "only one build per session is supported"))
        else defer (call (StoreSolving b)) (solve_on id b (own_request id request))
  end.

(** ** Calls that are passed on *)

Definition Info (ctx : option Identity) : gproc (gres string) :=
  match check ctx with Err e => Ret (Err e) | Ok _ => call BackendInfo end.

Definition hide_snapshotter (worker : WorkerRecord) : WorkerRecord :=
  {| wk_ID := wk_ID worker; wk_Labels := delete "org.mobyproject.buildkit.worker.snapshotter" (wk_Labels worker) |}.

Definition ListWorkers (ctx : option Identity) : gproc (gres (list WorkerRecord)) :=
  match check ctx with
  | Err e => Ret (Err e)
  | Ok _ => do? workers <- call BackendListWorkers; Ret (Ok (map hide_snapshotter workers))
  end.

Definition DiskUsage (ctx : option Identity) (filters : list string) : gproc (gres (option (list UsageRecord))) :=
  match check ctx with Err e => Ret (Err e) | Ok _ => call (BackendDiskUsage filters) end.

Definition PruneCache (ctx : option Identity) (request : PruneRequest) : gproc (gres (list UsageRecord)) :=
  match check ctx with
  | Err e => Ret (Err e)
  | Ok _ =>
      do? '(records, ended) <- call (BackendPrune request);
      Ret (match ended with Ok _ => Ok records | Err e => Err e end)
  end.

Definition Prune (ctx : option Identity) (request : PruneRequest) : gproc (gres unit) :=
  match check ctx with
  | Err e => Ret (Err e)
  | Ok _ =>
      do? '(records, ended) <- call (BackendPrune request);
      do? _ <- call RelayHeaders;
      do? _ <- for_each records (λ record, call (SendUsage record));
      Ret ended
  end.

Definition Status (ctx : option Identity) (ref : string) : gproc (gres unit) :=
  match check ctx with Err e => Ret (Err e) | Ok id => call (BackendStatus (historyRef id ref)) end.

(** [serveGateway]: a frontend's call on the gateway of the build [ref]. *)
Definition refused_frontend (r : FrontendSolve) : bool :=
  bool_decide (is_Some (fs_Definition r)) || negb (bool_decide (fs_FrontendInputs r = ∅)) ||
  negb (bool_decide (fs_SourcePolicies r = [])).

Definition serveGateway (ctx : option Identity) (method ref : string) : gproc (gres unit) :=
  match check ctx with
  | Err e => Ret (Err e)
  | Ok id =>
      if negb (HasPrefix method "/moby.buildkit.v1.frontend.LLBBridge/") || bool_decide (ref = "")
      then Ret (Err (StatusErr Unimplemented "only build-scoped frontend gateway calls are supported"))
      else
        do? frame <- call ReceiveFrame;
        do? _ <- if HasSuffix method "/Solve" then
                   match decode_FrontendSolve frame with
                   | None => Ret (Err (BackendErr "proto.Unmarshal"))
                   | Some request =>
                       if refused_frontend request
                       then Ret (Err (StatusErr Unimplemented "raw LLB and frontend source policies are not supported"))
                       else validateFrontendSessions id (fs_FrontendOpt request) ""
                   end
                 else Ret (Ok tt);
        call (ForwardRPC (historyRef id ref) method frame)
  end.

(** ** History ([history.go]) *)

(** The filter field of a key that is not an identity's own: [ref]. *)
Fixpoint before_operator (s : string) : string :=
  match s with
  | EmptyString => EmptyString
  | String c s => if has_char c "=!~<>" then EmptyString else String c (before_operator s)
  end.
Definition names_ref (field : string) : bool :=
  bool_decide (Trim (TrimSpace (before_operator field)) (String "034" "") = "ref").

Definition scope_of (id : Identity) : string := "ref~=^" +:+ historyPrefix id.

Definition scope_filter (id : Identity) (filter : string) : gres string :=
  if decide (TrimSpace filter = "") then Ok (scope_of id)
  else match csv_Read filter with
  | None => Err (StatusErr InvalidArgument "invalid history filter")
  | Some (fields, rest) =>
      if negb (csv_at_end rest) then Err (StatusErr InvalidArgument "invalid history filter")
      else if existsb names_ref fields
      then Err (StatusErr Unimplemented "history ref filters are not supported; select a build reference directly")
      else Ok (filter +:+ "," +:+ scope_of id)
  end.

Fixpoint scope_filters (id : Identity) (filters : list string) : gres (list string) :=
  match filters with
  | [] => Ok []
  | filter :: filters =>
      let? filter := scope_filter id filter in
      let? filters := scope_filters id filters in Ok (filter :: filters)
  end.

(** The exporter that a record says has published, under the names that the client gave. *)
Definition restore_exporter (names : string) (e : Exporter) : Exporter := set_attr "name" names e.

Definition restore_response (names : string) (r : smap) : smap :=
  delete "containerimage.config.digest" (<["image.name" := names]> r).

Definition with_record (ref : string) (exporters : list (option Exporter)) (response : option smap)
    (r : BuildHistoryRecord) : BuildHistoryRecord := {|
  hr_Ref := ref;
  hr_FrontendAttrs := delete historyExporterAttr (delete historyNamesAttr (hr_FrontendAttrs r));
  hr_Exporters := exporters; hr_ExporterResponse := response;
  hr_Logs := hr_Logs r; hr_Trace := hr_Trace r; hr_ExternalError := hr_ExternalError r;
  hr_Result := hr_Result r; hr_Results := hr_Results r; hr_rest := hr_rest r |}.

Definition restore_record (ref : string) (r : BuildHistoryRecord) : gres BuildHistoryRecord :=
  let names := mget (hr_FrontendAttrs r) historyNamesAttr in
  if decide (names = "") then Ok (with_record ref (hr_Exporters r) (hr_ExporterResponse r) r)
  else
    let exporter :=
      index ← Atoi (mget (hr_FrontendAttrs r) historyExporterAttr);
      if (index <? 0)%Z || (Z.of_nat (length (hr_Exporters r)) <=? index)%Z then None
      else e ← mjoin (hr_Exporters r !! Z.to_nat index); Some (Z.to_nat index, e) in
    match exporter with
    | None => Err (StatusErr Internal "invalid image exporter in BuildKit history")
    | Some (index, e) =>
        Ok (with_record ref (<[index := Some (restore_exporter names e)]> (hr_Exporters r))
              (restore_response names <$> hr_ExporterResponse r) r)
    end.

(** What is sent on of an event, if anything; [wanted] is the build that was asked for. *)
Definition restore_event (id : Identity) (wanted : string) (event : BuildHistoryEvent) :
    gres (option BuildHistoryEvent) :=
  match he_Record event with
  | None => Ok None
  | Some r =>
      match originalHistoryRef id (hr_Ref r) with
      | None => Ok None
      | Some ref =>
          if negb (bool_decide (wanted = "")) && negb (bool_decide (hr_Ref r = wanted)) then Ok None
          else let? r := restore_record ref r in Ok (Some {| he_Type := he_Type event; he_Record := Some r |})
      end
  end.

(** The loop over the events of the stream, which ends as [ended] says. *)
Fixpoint relay_events (id : Identity) (wanted : string) (events : list BuildHistoryEvent) (ended : gres unit) :
    gproc (gres unit) :=
  match events with
  | [] => Ret ended
  | event :: events =>
      match restore_event id wanted event with
      | Err e => Ret (Err e)
      | Ok None => relay_events id wanted events ended
      | Ok (Some event) => do? _ <- call (SendEvent event); relay_events id wanted events ended
      end
  end.

Definition ListenBuildHistory (ctx : option Identity) (request : BuildHistoryRequest) : gproc (gres unit) :=
  match check ctx with
  | Err e => Ret (Err e)
  | Ok id =>
      if (bh_Limit request <? 0)%Z then Ret (Err (StatusErr InvalidArgument "history limit must not be negative"))
      else
        let wanted := if decide (bh_Ref request = "") then "" else historyRef id (bh_Ref request) in
        match (if decide (bh_Filter request = []) then Ok [scope_of id] else scope_filters id (bh_Filter request)) with
        | Err e => Ret (Err e)
        | Ok filters =>
            do? '(events, ended) <- call (BackendListen
              {| bh_Ref := wanted; bh_Filter := filters; bh_Limit := bh_Limit request;
                 bh_EarlyExit := bh_EarlyExit request; bh_ActiveOnly := bh_ActiveOnly request |});
            do? _ <- call RelayHeaders;
            relay_events id wanted events ended
        end
  end.

Definition UpdateBuildHistory (ctx : option Identity) (ref change : string) : gproc (gres unit) :=
  match check ctx with
  | Err e => Ret (Err e)
  | Ok id =>
      if decide (ref = "") then Ret (Err (StatusErr InvalidArgument "a build reference is required"))
      else call (BackendUpdateHistory (historyRef id ref) change)
  end.

(** ** Content of the history ([history_content.go]) *)

Definition result_matches (value : string) (result : option BuildResultInfo) : bool :=
  match result with
  | Some r => bool_decide (ResultDeprecated r = Some value) || bool_decide (value ∈ Attestations r) ||
              bool_decide (value ∈ Results r)
  | None => false
  end.

Definition historyReferencesDigest (record : BuildHistoryRecord) (value : string) : bool :=
  bool_decide (hr_Logs record = Some value) || bool_decide (hr_Trace record = Some value) ||
  bool_decide (hr_ExternalError record = Some value) || result_matches value (hr_Result record) ||
  existsb (result_matches value) (hr_Results record).

(** Whether an event shows content in the client's own history. *)
Definition shows_content (id : Identity) (value : string) (event : BuildHistoryEvent) : bool :=
  match he_Record event with
  | Some r => bool_decide (is_Some (originalHistoryRef id (hr_Ref r))) && historyReferencesDigest r value
  | None => false
  end.

Definition authorize (ctx : option Identity) (value : string) : gproc (gres unit) :=
  match check ctx with
  | Err e => Ret (Err e)
  | Ok id =>
      if negb (digest_Validate value)
      then Ret (Err (StatusErr InvalidArgument "a valid history content digest is required"))
      else
        do? '(events, ended) <- call (BackendListen
          {| bh_Ref := ""; bh_Filter := [scope_of id]; bh_Limit := 0; bh_EarlyExit := true; bh_ActiveOnly := false |});
        Ret (if existsb (shows_content id value) events then Ok tt
             else let? _ := ended in
                  Err (StatusErr PermissionDenied "content is not referenced by this client's build history"))
  end.

(** [Info]: the labels of the response, which are dropped. *)
Definition ContentInfo (ctx : option Identity) (digest : string) : gproc (gres (option smap)) :=
  do? _ <- authorize ctx digest;
  do? info <- call (BackendContentInfo digest);
  Ret (Ok (match info with Some _ => Some ∅ | None => None end)).

Definition ReadContent (ctx : option Identity) (digest : string) : gproc (gres unit) :=
  do? _ <- authorize ctx digest;
  call (BackendReadContent digest).

(** ** Sessions ([session.go]) *)

(** [sessionProxy.Register]: the methods of the client that are passed on, each with its
    service; those of authentication and health are not. *)
Definition proxied_method (method : string) : option (string * string) :=
  let '(service, name, ok) := Cut (TrimPrefix method "/") "/" in
  if negb ok || bool_decide (name = "") || Contains name "/" ||
     bool_decide (service = "moby.filesync.v1.Auth") || bool_decide (service = "grpc.health.v1.Health")
  then None else Some (service, name).

Fixpoint proxied_methods (seen : list string) (methods : list string) : list (string * string) :=
  match methods with
  | [] => []
  | method :: methods =>
      match (if bool_decide (method ∈ seen) then None else proxied_method method) with
      | Some m => m :: proxied_methods (method :: seen) methods
      | None => proxied_methods seen methods
      end
  end.

(** [handleSession]: [sid] and [methods] are the headers of the session. *)
Definition handleSession (ctx : option Identity) (sid : string) (methods : list string) : gproc (gres unit) :=
  match check ctx with
  | Err e => Ret (Err e)
  | Ok id =>
      if bool_decide (sid = "") || has_char ":" sid
      then Ret (Err (StatusErr InvalidArgument "a valid session UUID is required"))
      else
        do registered <- call (RegisterSession sid id);
        match registered with
        | None => Ret (Err (StatusErr AlreadyExists "session UUID is already connected"))
        | Some b =>
            defer (call (CancelBridge b)) (defer (call (UnregisterSession sid)) (
              do _ <- call (HandleConn sid);
              do? sharedKey <- call (ManagerGet sid);
              do? upstream <- call (NewSession (tenantRef id sharedKey));
              defer (call (CloseSession upstream)) (
                do _ <- call (AllowMethods upstream b (proxied_methods [] methods));
                do _ <- call (AllowAuth upstream b);
                call (RunSession upstream sid))))
        end
  end.

(** [authProxy]: what the daemon is told when a build asks for the credentials of a host. *)
Definition Credentials (b : nat) (host : string) : gproc (gres (string * string)) :=
  if decide (host = registry_Host g) then
    do credential <- call (GetCredential b);
    Ret (match credential with
         | Some c => Ok (bc_Username c, bc_Password c)
         | None => Err (StatusErr PermissionDenied "no registry credential for this build")
         end)
  else call (ClientCredentials b host).

(** [FetchToken], and likewise [GetTokenAuthority] and [VerifyTokenAuthority]. *)
Definition FetchToken (b : nat) (host : string) : gproc (gres string) :=
  if decide (host = registry_Host g)
  then Ret (Err (StatusErr Unimplemented "Dinki uses Basic authentication"))
  else call (ClientToken b host).
End gateway.
