(* ===== verification/GatewayProps.v ===== *)
(** * GatewayProps: what the build gateway lets through

    A client's builds, history and content are its own, whatever the shared daemon
    answers; a build is tied to a session of its client and publishes only under a
    credential that was issued for it and is taken back when it ends; a session is
    registered, passed on and cleaned up as its client's. *)

From S2P Require Import Prelude GoStrings Sha256 Encoding Net Prog Identity Oci Gateway.

Local Open Scope string_scope.

(** ** Names of builds *)

(** What identifies a client to the daemon. *)
Definition client_key (id : Identity) : string := Namespace id +:+ NUL +:+ CommonName id +:+ NUL.

Lemma tenantRef_key id : tenantRef id "" = hex (Sum256 (client_key id)).
Proof. unfold tenantRef, client_key. by rewrite sapp_nil_r. Qed.

Lemma len_tenantRef id ref : len (tenantRef id ref) = 64.
Proof. unfold tenantRef. by rewrite len_hex, len_Sum256. Qed.

Lemma historyRef_own id ref :
  originalHistoryRef id (historyRef id ref) = if decide (ref = "") then None else Some ref.
Proof. unfold originalHistoryRef, historyRef. by rewrite CutPrefix_app, RawURL_roundtrip. Qed.

Lemma own_prefix id s ref :
  originalHistoryRef id s = Some ref → ∃ suffix, s = historyPrefix id +:+ suffix ∧ RawURL_Decode suffix = Some ref.
Proof.
  unfold originalHistoryRef. destruct (CutPrefix s _) as [suffix|] eqn:E; [|done]. apply CutPrefix_Some in E as ->.
  destruct (RawURL_Decode suffix) as [d|] eqn:Ed; [|done]. case_decide; [done|]. intros [= <-]. by exists suffix.
Qed.

Lemma historyPrefix_inj id id' s s' :
  historyPrefix id +:+ s = historyPrefix id' +:+ s' → tenantRef id "" = tenantRef id' "".
Proof.
  unfold historyPrefix. rewrite <- !sapp_assoc. intros [_ H]%sapp_inv_length; [|done].
  apply sapp_inv_length in H as [H _]; [done|]. by rewrite !len_tenantRef.
Qed.

Lemma Cut_NUL ns s : ValidNamespace ns = true → Cut (ns +:+ NUL +:+ s) NUL = (ns, s, true).
Proof. intros Hns. apply (Cut_char "000"). by apply ValidNamespace_no_char. Qed.

Lemma client_key_inj id id' :
  ValidNamespace (Namespace id) = true → ValidNamespace (Namespace id') = true →
  client_key id = client_key id' → Namespace id = Namespace id' ∧ CommonName id = CommonName id'.
Proof.
  unfold client_key. intros Hv Hv' Heq. pose proof (f_equal (λ s, Cut s NUL) Heq) as Hc. cbn beta in Hc.
  rewrite !Cut_NUL in Hc by done. injection Hc as Hn Hc. split; [done|].
  assert (len (CommonName id) = len (CommonName id')) as Hl.
  { apply (f_equal len) in Hc. rewrite !len_app in Hc. lia. }
  by apply sapp_inv_length in Hc as [? _].
Qed.

(** the name of a build leads back to it for its client only.  A client reads
    the name under which its build is kept as the name it gave, and takes the name of
    a build of any other client for foreign, where clients differ in their namespace
    or the name in their certificate, unless SHA-256 has the same value for the two
    keys, which differ. *)
Theorem history_refs_separate_clients id id' ref :
  originalHistoryRef id (historyRef id ref) = (if decide (ref = "") then None else Some ref) ∧
  (ValidNamespace (Namespace id) = true → ValidNamespace (Namespace id') = true →
   (Namespace id ≠ Namespace id' ∨ CommonName id ≠ CommonName id') →
   originalHistoryRef id (historyRef id' ref) = None ∨
   (client_key id ≠ client_key id' ∧ Sum256 (client_key id) = Sum256 (client_key id'))).
Proof.
  split; [apply historyRef_own|]. intros Hv Hv' Hne.
  destruct (originalHistoryRef id (historyRef id' ref)) as [r|] eqn:E; [right|by left].
  split; [intros ?%client_key_inj; naive_solver|].
  apply own_prefix in E as (s & Heq & _). unfold historyRef in Heq. symmetry in Heq.
  apply historyPrefix_inj in Heq. rewrite !tenantRef_key in Heq. by apply hex_inj in Heq.
Qed.

(** ** Builds *)

(** The credential that an event issued. *)
Definition issued_by (e : event gcmd) : option BuildCredential :=
  match e with
  | Event X c x => match c in gcmd X return X → option BuildCredential with
                   | IssueBuildCredential _ _ => λ r, match r with Ok c => Some c | Err _ => None end
                   | _ => λ _, None end x
  end.
(** The session that an event took for its build. *)
Definition taken_by (e : event gcmd) : option nat :=
  match e with
  | Event X c x => match c in gcmd X return X → option nat with
                   | SwapSolving b => λ swapped, if swapped : bool then Some b else None
                   | _ => λ _, None end x
  end.

(** Nothing was issued, and no session taken. *)
Definition untouched (h : ghist) : Prop := Forall (λ e, issued_by e = None ∧ taken_by e = None) h.
Definition unissued (h : ghist) : Prop := Forall (λ e, issued_by e = None) h.

Lemma untouched_unissued h : untouched h → unissued h.
Proof. intros Hu. eapply Forall_impl; [exact Hu|]. by intros e [? _]. Qed.

(** A session of the identity, as the table was seen. *)
Definition own_session (id : Identity) (sid : string) (b : nat) (h : ghist) : Prop :=
  ∃ sessions, Event _ Sessions sessions ∈ h ∧ sessions !! sid = Some {| br_pointer := b; br_id := id |}.

Definition issued_for (id : Identity) (names : list string) (c : BuildCredential) (h : ghist) : Prop :=
  Event _ (IssueBuildCredential id names) (Ok c) ∈ h.

Section builds.
Context (g : gateway) `{References}.

(** The exporters that a client may have built with: those of its request but the one for
    Docker, the publication of that one, and its push to another registry. *)
Inductive admitted_exporter (id : Identity) (l : list Exporter) (h : ghist) (e : Exporter) : Prop :=
| unchanged : e ∈ l → ex_Type e ≠ "moby" → admitted_exporter id l h e
| published moby c :
    moby ∈ l → ex_Type moby = "moby" →
    issued_for id (Split (mget (ex_Attrs moby) "name") ",") c h →
    e = publishing_exporter g (bc_References c) moby → admitted_exporter id l h e
| pushed moby :
    moby ∈ l → ex_Type moby = "moby" →
    ParseBool (mget (ex_Attrs moby) "push") = Some true →
    validatePushNames g (mget (ex_Attrs moby) "name") = Ok tt →
    e = upstream_exporter moby → admitted_exporter id l h e.

Definition no_moby (l : list Exporter) : Prop := ∀ e, e ∈ l → ex_Type e ≠ "moby".

(** What the daemon may be asked to build. *)
Record admitted_build (id : Identity) (request : SolveRequest) (h : ghist) (r : SolveRequest) : Prop := {
  admitted_name : sv_Ref r = historyRef id (sv_Ref request);
  admitted_session : sv_Session r = sv_Session request ∧ ∃ b,
    own_session id (sv_Session request) b h ∧ Event _ (SwapSolving b) true ∈ h ∧
    (¬ no_moby (sv_Exporters (own_request id request)) →
     ∃ names c h0, h = Event _ (SetCredential b (Some c)) tt :: Event _ (IssueBuildCredential id names) (Ok c) :: h0);
  admitted_plain : refused_build r = false;
  admitted_locals : ∀ key sid, sv_FrontendAttrs r !! key = Some sid → HasPrefix key "local-sessionid:" = true →
    sid = sv_Session request ∨ ∃ b, own_session id sid b h;
  admitted_exporters : ∀ e, e ∈ sv_Exporters r →
    admitted_exporter id (sv_Exporters (own_request id request)) h e
}.

(** What [Solve] may ask for. *)
Definition build_commands (id : Identity) (request : SolveRequest) : guard (cmd := gcmd) := λ h X c,
  match c with
  | Sessions | AwaitReady _ | AwaitTick | BridgeDone _ => True
  | SwapSolving b => own_session id (sv_Session request) b h
  | StoreSolving b => Event _ (SwapSolving b) true ∈ h
  | IssueBuildCredential id' names => id' = id ∧ ∃ moby, moby ∈ sv_Exporters (own_request id request) ∧
      ex_Type moby = "moby" ∧ names = Split (mget (ex_Attrs moby) "name") ","
  | SetCredential b credential => Event _ (SwapSolving b) true ∈ h ∧ own_session id (sv_Session request) b h ∧
      match credential with
      | Some c => ∃ names, issued_for id names c h
      | None => True
      end
  | RevokeBuildCredential id' username => id' = id ∧ ∃ names c, issued_for id names c h ∧ username = bc_Username c
  | BackendSolve r => admitted_build id request h r
  | _ => False
  end.

(** How [Solve] leaves things: the session it took is free again, and the credential that
    was issued, if one was, is no longer known to the session and was revoked after; the
    response tells the name that the client gave to the image. *)
Definition build_over (id : Identity) (h : ghist) (r : gres (option SolveResponse)) : Prop :=
  untouched h ∨
  ∃ b h1, h = Event _ (StoreSolving b) tt :: h1 ∧
    (unissued h1 ∨
     ∃ name c revoked response built h0,
       (h1 = [Event _ (RevokeBuildCredential id (bc_Username c)) revoked; Event _ (SetCredential b None) tt;
              Event _ (BackendSolve built) response; Event _ (SetCredential b (Some c)) tt;
              Event _ (IssueBuildCredential id (Split name ",")) (Ok c)] ++ h0)%list ∧ unissued h0 ∧
       r = join_revocation (result_map (fmap (M:=option) (published_response name)) response) revoked).

Lemma scan_exporters_spec k l m push m' push' :
  scan_exporters k l m push = Ok (m', push') →
  match m with
  | Some j => m' = Some j ∧ push' = push ∧ no_moby l
  | None => (m' = None ∧ no_moby l) ∨
            ∃ i e, m' = Some (k + i) ∧ l !! i = Some e ∧ ex_Type e = "moby" ∧
                   (∀ i' e', l !! i' = Some e' → i' ≠ i → ex_Type e' ≠ "moby") ∧
                   (push' = true → push = true ∨ ParseBool (mget (ex_Attrs e) "push") = Some true)
  end.
Proof.
  revert k m push. induction l as [|e l IH]; intros k m push; cbn [scan_exporters].
  { intros [= <- <-]. destruct m; [|left]; split_and!; try done; intros ? ?%elem_of_nil; done. }
  destruct (bool_decide_reflect (ex_Type e = "moby")) as [Hm|Hm]; cbn [negb].
  - destruct m; [done|]. cbv zeta.
    destruct (if decide _ then _ else _) as [p|] eqn:Ep; [|done]. case_if; [done|].
    intros (-> & -> & Hno)%IH. right. exists 0, e. split_and!; [by rewrite Nat.add_0_r|done|done| |].
    + intros [|i'] e' Hl Hne; [done|]. apply Hno. by eapply list_elem_of_lookup_2.
    + intros ->. case_decide; [by injection Ep; auto|by right].
  - intros Hs%IH. destruct m as [j|].
    + destruct Hs as (-> & -> & Hno). split_and!; [done|done|]. intros e' [->|?]%elem_of_cons; auto.
    + destruct Hs as [[-> Hno]|(i & e' & -> & Hl & Ht & Hu & Hp)].
      * left. split; [done|]. intros e' [->|?]%elem_of_cons; auto.
      * right. exists (S i), e'. split_and!; [f_equal; lia|done|done| |done].
        intros [|i'] e'' Hl' Hne; [simpl in Hl'; by injection Hl' as ->|]. eapply Hu; [exact Hl'|congruence].
Qed.

Lemma unissued_cons e h : issued_by e = None → unissued h → unissued (e :: h).
Proof. by constructor. Qed.

Lemma own_session_later id sid b h h' : h `suffix_of` h' → own_session id sid b h → own_session id sid b h'.
Proof. intros Hs (t & Hin & Hl). exists t. split; [by eapply event_later|done]. Qed.

Lemma untouched_cons e h : issued_by e = None → taken_by e = None → untouched h → untouched (e :: h).
Proof. intros. by constructor. Qed.

(** A local session of a frontend that passed the check. *)
Definition locals_checked (id : Identity) (attrs : smap) (primary : string) (h : ghist) : Prop :=
  ∀ key sid, attrs !! key = Some sid → HasPrefix key "local-sessionid:" = true →
    (sid = primary ∧ primary ≠ "") ∨ ∃ b, own_session id sid b h.

Lemma validateFrontendSessions_wp (G : guard (cmd := gcmd)) id attrs primary h :
  (∀ h, G h _ Sessions) →
  wp any_answer G (validateFrontendSessions id attrs primary) h (λ h' r, h `suffix_of` h' ∧
    (untouched h → untouched h') ∧ (r = Ok tt → locals_checked id attrs primary h')).
Proof.
  intros HG. unfold validateFrontendSessions. rewrite wp_bind, wp_call. split; [done|]. intros sessions _.
  rewrite wp_ret. split; [by apply suffix_cons_r|]. split; [by apply untouched_cons|].
  destruct (existsb _ _) eqn:E; [done|]. intros _ key sid Hk Hp.
  assert (foreign_session sessions id primary (key, sid) = false) as Hf.
  { rewrite <- not_true_iff_false in *. intros Ht. apply E. apply existsb_exists. exists (key, sid).
    split; [|done]. by apply list_elem_of_In, elem_of_map_to_list. }
  unfold foreign_session in Hf. rewrite Hp in Hf. cbn [negb orb] in Hf.
  destruct (bool_decide_reflect (sid = primary)) as [->|_], (bool_decide_reflect (primary = "")); cbn [negb andb] in Hf;
    try (by left).
  all: right; destruct (sessions !! _) as [[b i]|] eqn:Es; [|done].
  all: apply negb_false_iff, bool_decide_eq_true in Hf; simpl in Hf; subst i; exists b, sessions; split; [by left|done].
Qed.

Lemma getBridge_wp id request ticks h :
  untouched h →
  wp any_answer (build_commands id request) (getBridge ticks (sv_Session request) id) h (λ h' r,
    h `suffix_of` h' ∧ untouched h' ∧
    match r with Ok b => own_session id (sv_Session request) b h' | Err _ => True end).
Proof.
  revert h. induction ticks as [|ticks IH]; intros h Hu; cbn [getBridge]; rewrite wp_bind, wp_call;
    (split; [done|]); intros sessions _.
  all: assert (untouched (Event _ Sessions sessions :: h)) as Hu1 by (by apply untouched_cons).
  all: assert (h `suffix_of` Event _ Sessions sessions :: h) as Hs1 by (by apply suffix_cons_r).
  all: destruct (sessions !! _) as [[b i]|] eqn:E; cbn [br_id br_pointer];
    [destruct (decide (i = id)) as [->|Hi]; [|by rewrite wp_ret]|].
  1,3: rewrite wp_bind, wp_call; (split; [done|]); intros [] _; [|rewrite wp_ret; split_and!;
    [by apply suffix_cons_r|by apply untouched_cons|done]];
    rewrite wp_bind, wp_call; (split; [done|]); intros disconnected _; rewrite wp_ret;
    (split; [by do 2 apply suffix_cons_r|]); (split; [by repeat (apply untouched_cons; [done|done|])|]);
    destruct disconnected; [done|]; exists sessions; (split; [right; right; by left|done]).
  - by rewrite wp_ret.
  - rewrite wp_bind, wp_call. split; [done|]. intros [] _; [|rewrite wp_ret; split_and!;
      [by apply suffix_cons_r|by apply untouched_cons|done]].
    eapply wp_post; [|apply IH; by apply untouched_cons]. intros h' r (Hs & ? & ?). split_and!; try done.
    etrans; [|exact Hs]. by apply suffix_cons_r.
Qed.

(** When the build is about to be sent: the session is the client's and was taken. *)
Definition build_begun (id : Identity) (request : SolveRequest) (b : nat) (h : ghist) : Prop :=
  own_session id (sv_Session request) b h ∧ Event _ (SwapSolving b) true ∈ h ∧ unissued h ∧
  refused_build request = false ∧ locals_checked id (sv_FrontendAttrs request) (sv_Session request) h.

Lemma admitted_by id request b h r :
  build_begun id request b h →
  sv_Ref r = historyRef id (sv_Ref request) → sv_Session r = sv_Session request → refused_build r = false →
  (∀ h', h `suffix_of` h' → (¬ no_moby (sv_Exporters (own_request id request)) → ∃ names c h0,
     h' = Event _ (SetCredential b (Some c)) tt :: Event _ (IssueBuildCredential id names) (Ok c) :: h0) →
   (∀ key sid, sv_FrontendAttrs r !! key = Some sid → HasPrefix key "local-sessionid:" = true →
      sv_FrontendAttrs request !! key = Some sid) →
   (∀ e, e ∈ sv_Exporters r → admitted_exporter id (sv_Exporters (own_request id request)) h' e) →
   admitted_build id request h' r).
Proof.
  intros (Hown & Htaken & _ & _ & Hloc) Href Hses Hplain h' Hs Hcred Hattrs Hexp. split; [done| |done| |done].
  - split; [done|]. exists b. split_and!; [by eapply own_session_later|by eapply event_later|done].
  - intros key sid Hk Hp. destruct (Hloc key sid (Hattrs _ _ Hk Hp) Hp) as [[-> _]|[b' ?]]; [by left|right].
    exists b'. by eapply own_session_later.
Qed.

Lemma own_request_refused id request : refused_build (own_request id request) = refused_build request.
Proof. done. Qed.

Lemma own_request_attrs id request key sid :
  sv_FrontendAttrs (own_request id request) !! key = Some sid → sv_FrontendAttrs request !! key = Some sid.
Proof. simpl. rewrite !lookup_delete_Some. naive_solver. Qed.

(** The two attributes that the gateway adds name no session. *)
Lemma publishing_attrs id c i e push request key sid :
  sv_FrontendAttrs (publishing_request g c i e push (own_request id request)) !! key = Some sid →
  HasPrefix key "local-sessionid:" = true → sv_FrontendAttrs request !! key = Some sid.
Proof.
  intros Hk Hp. cbn [publishing_request with_exporters sv_FrontendAttrs] in Hk.
  rewrite !lookup_insert_Some in Hk. destruct Hk as [[<- _]|[_ [[<- _]|[_ Hk]]]]; [done|done|].
  by apply own_request_attrs in Hk.
Qed.

(** The exporters of a build that is published. *)
Lemma publishing_exporters id c i e push r h :
  sv_Exporters r !! i = Some e → ex_Type e = "moby" →
  (∀ i' e', sv_Exporters r !! i' = Some e' → i' ≠ i → ex_Type e' ≠ "moby") →
  (push = true → ParseBool (mget (ex_Attrs e) "push") = Some true ∧
                 validatePushNames g (mget (ex_Attrs e) "name") = Ok tt) →
  issued_for id (Split (mget (ex_Attrs e) "name") ",") c h →
  ∀ e', e' ∈ sv_Exporters (publishing_request g c i e push r) → admitted_exporter id (sv_Exporters r) h e'.
Proof.
  intros Hl Ht Hu Hpush Hiss e'. cbn [publishing_request with_exporters sv_Exporters].
  assert (e ∈ sv_Exporters r) as Hin by (by eapply list_elem_of_lookup_2).
  rewrite elem_of_app. intros [He|He].
  - apply list_elem_of_lookup in He as [j Hj]. rewrite list_lookup_insert_Some in Hj.
    destruct Hj as [(<- & <- & _)|[Hne Hj]]; [by eapply published|].
    eapply unchanged; [by eapply list_elem_of_lookup_2|by eapply Hu].
  - destruct push; [|by apply elem_of_nil in He]. apply list_elem_of_singleton in He as ->.
    destruct Hpush as [??]; [done|]. by eapply pushed.
Qed.

Lemma solve_on_wp id request b h :
  build_begun id request b h →
  wp any_answer (build_commands id request) (solve_on g id b (own_request id request)) h (λ h' r,
    h `suffix_of` h' ∧ build_over id (Event _ (StoreSolving b) tt :: h') r).
Proof.
  intros Hb. pose proof Hb as (Hown & Htaken & Hun & Hplain & _).
  assert (∀ r, build_over id (Event _ (StoreSolving b) tt :: h) r) as Hover by (right; exists b, h; auto).
  unfold solve_on. destruct (scan_exporters _ _ _ _) as [[[i|] push]|e] eqn:Es; [| |by rewrite wp_ret].
  - apply scan_exporters_spec in Es as [[? _]|(i' & e & [= ->] & Hl & Ht & Hu & Hp)]; [done|]. cbn [Nat.add]. rewrite Hl.
    cbn [default]. cbv zeta. case_decide; [by rewrite wp_ret|].
    assert (e ∈ sv_Exporters (own_request id request)) as Hin by (by eapply list_elem_of_lookup_2).
    destruct (if push then _ else _) as [[]|err] eqn:Ev; [|by rewrite wp_ret].
    rewrite wp_bind, wp_call. split; [split; [done|by exists e]|]. intros [c|err] _.
    2: { rewrite wp_ret. split; [by apply suffix_cons_r|]. right. eexists b, _. split; [done|]. left. by constructor. }
    unfold publish. rewrite wp_bind, wp_call. split.
    { split_and!; [by right|eapply own_session_later; [|done]; by apply suffix_cons_r|]. eexists. by left. }
    intros [] _. rewrite wp_bind, wp_call. split.
    { eapply admitted_by; [exact Hb|done|done|done|by do 2 apply suffix_cons_r| | |].
      - intros _. by eexists _, _, _.
      - intros key sid. apply publishing_attrs.
      - eapply publishing_exporters; [done|done|done| |right; by left].
        intros ->. destruct Hp as [?|?]; done. }
    intros response _. rewrite wp_bind, wp_call. split.
    { split_and!; [do 3 right; done|eapply own_session_later; [|done]; by do 3 apply suffix_cons_r|done]. }
    intros [] _. rewrite wp_bind, wp_call. split; [split; [done|]; eexists _, c; split; [do 3 right; by left|done]|].
    intros revoked _. rewrite wp_ret. split; [by do 5 apply suffix_cons_r|].
    right. eexists b, _. split; [done|]. right. by eexists (mget (ex_Attrs e) "name"), c, revoked, response, _, h.
  - apply scan_exporters_spec in Es as [[_ Hno]|(i' & e & ? & _)]; [|done]. rewrite wp_call. split.
    + eapply admitted_by; [exact Hb|done|done|done|done|done|by intros key sid ?%own_request_attrs|].
      intros e He. by eapply unchanged; [|apply Hno].
    + intros response _. split; [by apply suffix_cons_r|]. right. eexists b, _. split; [done|]. left. by constructor.
Qed.

(** C5: a build stays in its client's hands.  Without a tenant identity nothing is
    asked for.  What the daemon is asked to build has the client's own name and runs on
    a session, connected by the same identity, that no other build has taken; it has no
    raw definition, source policy or entitlement, and its frontend uses no session of
    another identity; a Docker image is published only to the references of a credential
    that was issued to the client for the names of that image, handed to the session of
    the build and to no other, just before, and perhaps to tagged references outside of
    dink's registry.  However the build ends, the session is free again, and before that
    the credential is taken from it and revoked; a failure to revoke it is reported. *)
Theorem Solve_guarded ticks ctx request h r :
  exec (Solve g ticks ctx request) [] h r →
  match check g ctx with
  | Err e => h = [] ∧ r = Err e
  | Ok id => guarded (build_commands id request) [] h ∧ build_over id h r
  end.
Proof.
  intros Hex. destruct (check g ctx) as [id|e] eqn:Ec; unfold Solve in Hex; rewrite Ec in Hex.
  2: { apply exec_inv in Hex as [-> ->]. done. }
  assert (untouched []) as Hnil by constructor.
  apply and_comm. refine (wp_exec any_answer _ _ _ _ _ _ _ Hex (exec_any_answer _ _ _ _ Hex)). clear Hex h r.
  case_if; [by left|]. destruct (refused_build request) eqn:Er; [by left|].
  rewrite wp_bind_res. eapply wp_post; [|by apply validateFrontendSessions_wp].
  intros h1 [u|e] (Hs1 & Hu1 & Hloc); [|left; auto]. rewrite wp_bind_res.
  eapply wp_post; [|apply wp_suffix, getBridge_wp; auto]. intros h2 [b|e] [(Hs2 & Hu2 & Hown) _]; [|by left].
  rewrite wp_bind, wp_call. split; [done|]. intros [] _; [|left; by apply untouched_cons]. cbn [negb].
  rewrite wp_defer. eapply wp_post; [|apply wp_suffix, solve_on_wp].
  - intros h3 r [[Hs3 Hover] _]. rewrite wp_call. split; [|by intros [] _].
    eapply event_later; [exact Hs3|by left].
  - split_and!; [|by left| |done|].
    + eapply own_session_later; [|done]. by apply suffix_cons_r.
    + apply unissued_cons; [done|]. by apply untouched_unissued.
    + destruct u. intros key sid Hk Hp. destruct (Hloc eq_refl key sid Hk Hp) as [?|[b' ?]]; [by left|right].
      exists b'. eapply own_session_later; [|done]. by apply suffix_cons_r.
Qed.
End builds.

(** ** The history of a client *)

(** The calls by which a client reaches builds that were made. *)
Inductive history_call :=
| CallStatus (ref : string)
| CallFrontend (method ref : string)
| CallListen (request : BuildHistoryRequest)
| CallUpdate (ref change : string)
| CallInfo (digest : string)
| CallRead (digest : string).

Section histories.
Context (g : gateway) `{FrontendCodec} `{GoDigest} `{Unicode}.

Definition perform (ctx : option Identity) (c : history_call) : gproc (gres unit) :=
  match c with
  | CallStatus ref => Status g ctx ref
  | CallFrontend method ref => serveGateway g ctx method ref
  | CallListen request => ListenBuildHistory g ctx request
  | CallUpdate ref change => UpdateBuildHistory g ctx ref change
  | CallInfo digest => do? _ <- ContentInfo g ctx digest; Ret (Ok tt)
  | CallRead digest => ReadContent g ctx digest
  end.

(** What is sent on of an event: its record is the client's, under the name it gave, and
    without the attributes of the gateway. *)
Definition own_event (id : Identity) (wanted : string) (received sent : BuildHistoryEvent) : Prop :=
  ∃ r r', he_Record received = Some r ∧ he_Record sent = Some r' ∧ he_Type sent = he_Type received ∧
    originalHistoryRef id (hr_Ref r) = Some (hr_Ref r') ∧ (wanted = "" ∨ hr_Ref r = wanted) ∧
    hr_FrontendAttrs r' !! historyNamesAttr = None ∧ hr_FrontendAttrs r' !! historyExporterAttr = None.

(** Content that is in the client's own history. *)
Definition own_content (id : Identity) (digest : string) (h : ghist) : Prop :=
  ∃ request events ended e r, Event _ (BackendListen request) (Ok (events, ended)) ∈ h ∧
    e ∈ events ∧ he_Record e = Some r ∧ is_Some (originalHistoryRef id (hr_Ref r)) ∧
    historyReferencesDigest r digest = true.

(** A filter of one line has, as the last of the fields that must all hold, that the build
    is one of the client's. *)
Definition scoped (id : Identity) (filter : string) : Prop :=
  one_line filter = true →
  ∃ fields, csv_Read filter = Some (fields ++ ["ref~=^" +:+ historyPrefix id], "")%list.

(** What the daemon may be asked for, and what the client may be sent. *)
Definition own_history (id : Identity) : guard (cmd := gcmd) := λ h X c,
  match c with
  | Sessions | ReceiveFrame | RelayHeaders => True
  | BackendStatus ref | BackendUpdateHistory ref _ | ForwardRPC ref _ _ => ∃ name, ref = historyRef id name
  | BackendListen request =>
      bh_Filter request ≠ [] ∧ Forall (scoped id) (bh_Filter request) ∧
      (bh_Ref request = "" ∨ ∃ name, bh_Ref request = historyRef id name)
  | SendEvent event => ∃ request events ended received,
      Event _ (BackendListen request) (Ok (events, ended)) ∈ h ∧ received ∈ events ∧
      own_event id (bh_Ref request) received event
  | BackendContentInfo digest | BackendReadContent digest => own_content id digest h
  | _ => False
  end.

Lemma scope_of_plain id : plain_field (scope_of id) = true.
Proof.
  unfold plain_field, one_line, scope_of, historyPrefix, tenantRef. rewrite !all_chars_app.
  rewrite !(all_chars_impl is_hex _ (hex _)); [done|..|apply hex_is_hex| |apply hex_is_hex];
    intros [[] [] [] [] [] [] [] []]; done.
Qed.

Lemma scope_of_scoped id : scoped id (scope_of id).
Proof.
  intros Hl. exists []. rewrite csv_Read_one_line by done. by apply csv_plain, scope_of_plain.
Qed.

Lemma scope_filters_scoped id filters l :
  scope_filters id filters = Ok l → Forall (scoped id) l ∧ length l = length filters.
Proof.
  revert l. induction filters as [|f filters IH]; intros l; cbn [scope_filters]; [intros [= <-]; by split|].
  rewrite result_bind_ok. intros (f' & Hf & Hl). apply result_bind_ok in Hl as (l' & Hl' & [= <-]).
  destruct (IH _ Hl') as [Hall Hlen]. split; [|simpl; by f_equal]. constructor; [|done].
  revert Hf. unfold scope_filter. case_decide; [intros [= <-]; apply scope_of_scoped|].
  destruct (csv_Read f) as [[fields rest]|] eqn:Eread; [|done]. repeat (case_if; [done|]). intros [= <-].
  intros Hone. exists fields. rewrite !one_line_app, andb_true_iff in Hone.
  eapply csv_Read_snoc; [by destruct Hone|apply scope_of_plain|done|exact Eread].
Qed.

Lemma restore_record_own ref r r' :
  restore_record ref r = Ok r' → hr_Ref r' = ref ∧ hr_FrontendAttrs r' !! historyNamesAttr = None ∧
  hr_FrontendAttrs r' !! historyExporterAttr = None.
Proof.
  unfold restore_record. case_decide; [|destruct (_ ≫= _) as [[i e]|]; [|done]]; intros [= <-];
    (split; [done|]); cbn [with_record hr_FrontendAttrs]; split.
  all: first [apply lookup_delete_eq|apply lookup_delete_None; right; apply lookup_delete_eq].
Qed.

Lemma restore_event_own id wanted received sent :
  restore_event id wanted received = Ok (Some sent) → own_event id wanted received sent.
Proof.
  unfold restore_event. destruct (he_Record received) as [r|] eqn:Er; [|done].
  destruct (originalHistoryRef id _) as [ref|] eqn:Eo; [|done].
  destruct (_ && _) eqn:Ew; [done|]. rewrite result_bind_ok. intros (r' & Hr & [= <-]).
  apply restore_record_own in Hr as (<- & Hn & He). exists r, r'. split_and!; try done.
  destruct (bool_decide_reflect (wanted = "")), (bool_decide_reflect (hr_Ref r = wanted)); auto; done.
Qed.

Lemma relay_events_wp id request events ended rest h :
  Event _ (BackendListen request) (Ok (events, ended)) ∈ h → (∀ e, e ∈ rest → e ∈ events) →
  wp any_answer (own_history id) (relay_events id (bh_Ref request) rest ended) h (λ _ _, True).
Proof.
  revert h. induction rest as [|e rest IH]; intros h Hin Hsub; cbn [relay_events]; [done|].
  destruct (restore_event id _ e) as [[e'|]|err] eqn:Er; [| |done].
  - rewrite wp_bind_res, wp_call. split.
    { exists request, events, ended, e. split_and!; [done|apply Hsub; by left|by apply restore_event_own]. }
    intros [u|err] _; [|done]. apply IH; [by right|]. intros x Hx. apply Hsub. by right.
  - apply IH; [done|]. intros x Hx. apply Hsub. by right.
Qed.

Lemma ListenBuildHistory_wp ctx id request :
  check g ctx = Ok id → wp any_answer (own_history id) (ListenBuildHistory g ctx request) [] (λ _ _, True).
Proof.
  intros Hc. unfold ListenBuildHistory. rewrite Hc. destruct (bh_Limit request <? 0)%Z; [done|]. cbv zeta.
  assert (∀ filters, (if decide (bh_Filter request = []) then Ok [scope_of id]
                      else scope_filters id (bh_Filter request)) = Ok filters →
            filters ≠ [] ∧ Forall (scoped id) filters) as Hf.
  { intros filters. case_decide as E; [intros [= <-]; split; [done|]|].
    - constructor; [|constructor]. apply scope_of_scoped.
    - intros [Hall Hlen]%scope_filters_scoped. split; [|done]. intros ->. by destruct (bh_Filter request). }
  destruct (if decide _ then _ else _) as [filters|e]; [|done]. destruct (Hf _ eq_refl) as [Hne Hall].
  rewrite wp_bind_res, wp_call. cbn [own_history bh_Filter bh_Ref]. split.
  { split_and!; [done|done|]. case_decide; [by left|right; eauto]. }
  intros [[events ended]|e] _; [|done]. rewrite wp_bind_res, wp_call. split; [done|].
  intros [u|e] _; [|done]. eapply (relay_events_wp id {| bh_Ref := _ |}); [right; by left|done].
Qed.

Lemma authorize_wp ctx id digest :
  check g ctx = Ok id → wp any_answer (own_history id) (authorize g ctx digest) [] (λ h r,
    r = Ok tt → own_content id digest h).
Proof.
  intros Hc. unfold authorize. rewrite Hc. destruct (negb _); [done|]. rewrite wp_bind_res, wp_call. split.
  { split_and!; [done| |by left]. constructor; [|constructor]. apply scope_of_scoped. }
  intros [[events ended]|e] _; [|done]. rewrite wp_ret. destruct (existsb _ events) eqn:E; [|by destruct ended].
  intros _. apply existsb_exists in E as (e & Hin%list_elem_of_In & Hs). unfold shows_content in Hs.
  destruct (he_Record e) as [r|] eqn:Er; [|done]. apply andb_true_iff in Hs as [Ho%bool_decide_eq_true Hd].
  eexists _, events, ended, e, r. split_and!; [by left|done..].
Qed.

Lemma perform_wp ctx id c :
  check g ctx = Ok id → wp any_answer (own_history id) (perform ctx c) [] (λ _ _, True).
Proof.
  intros Hc. destruct c as [ref|method ref|request|ref change|digest|digest]; cbn [perform].
  - unfold Status. rewrite Hc. split; [by exists ref|done].
  - unfold serveGateway. rewrite Hc. case_if; [done|]. rewrite wp_bind_res, wp_call. split; [done|].
    intros [frame|e] _; [|done]. rewrite wp_bind_res.
    assert (∀ h, wp any_answer (own_history id) (call (ForwardRPC (historyRef id ref) method frame)) h (λ _ _, True))
      as Hfwd by (intros h; split; [by exists ref|done]).
    destruct (HasSuffix _ _); [|rewrite wp_ret; apply Hfwd].
    destruct (decode_FrontendSolve frame) as [r|]; [|done]. case_if; [done|].
    eapply wp_post; [|by apply validateFrontendSessions_wp]. by intros h [u|e] _.
  - by apply ListenBuildHistory_wp.
  - unfold UpdateBuildHistory. rewrite Hc. case_decide; [done|]. split; [by exists ref|done].
  - unfold ContentInfo. rewrite !wp_bind_res. eapply wp_post; [|by apply authorize_wp].
    intros h [[]|e] Hown; [|done]. rewrite wp_bind_res, wp_call. split; [by apply Hown|]. by intros [x|e] _.
  - unfold ReadContent. rewrite wp_bind_res. eapply wp_post; [|by apply authorize_wp].
    intros h [[]|e] Hown; [|done]. split; [by apply Hown|done].
Qed.

(** C6: clients see and change only their own builds.  Without a tenant identity
    nothing is asked for.  Otherwise the status of a build, its updates, and the calls
    of its frontend name a build of the client; the history that the daemon is asked
    for has filters, and each one that is of one line, read as comma-separated fields that
    must all hold, ends in the field that restricts it to the client's builds (a line end
    in a client's own filter escapes this, not what follows); every event that is sent on came from it and is about a build of the client, under the name it gave
    it, the one it asked for if it asked for one, and without the gateway's own
    attributes; and content is described or read only after an event of the client's
    own history that refers to it. *)
Theorem history_is_isolated ctx c h r :
  exec (perform ctx c) [] h r →
  match check g ctx with
  | Err e => h = [] ∧ r = Err e
  | Ok id => guarded (own_history id) [] h
  end.
Proof.
  intros Hex. destruct (check g ctx) as [id|e] eqn:Ec.
  - exact (proj2 (wp_exec any_answer _ _ _ _ _ _ (perform_wp ctx id c Ec) Hex (exec_any_answer _ _ _ _ Hex))).
  - destruct c; cbn [perform] in Hex;
      unfold Status, serveGateway, ListenBuildHistory, UpdateBuildHistory, ContentInfo, ReadContent, authorize in Hex;
      rewrite Ec in Hex; by apply exec_inv in Hex as [-> ->].
Qed.
End histories.

(** ** What a published build looks like in the history *)

Lemma mget_insert_eq (m : smap) k v : mget (<[k := v]> m) k = v.
Proof. unfold mget. by rewrite lookup_insert_eq. Qed.
Lemma mget_insert_ne (m : smap) k k' v : k ≠ k' → mget (<[k := v]> m) k' = mget m k'.
Proof. intros. unfold mget. by rewrite lookup_insert_ne. Qed.
Lemma mget_delete_ne (m : smap) k k' : k ≠ k' → mget (delete k m) k' = mget m k'.
Proof. intros. unfold mget. by rewrite lookup_delete_ne. Qed.

Section reading.
Context (g : gateway) `{Unicode}.

(** The daemon's record of a build: what it was asked, and the response. *)
Definition records (built : SolveRequest) (response : smap) (r : BuildHistoryRecord) : Prop :=
  hr_Ref r = sv_Ref built ∧ hr_FrontendAttrs r = sv_FrontendAttrs built ∧
  hr_Exporters r = Some <$> sv_Exporters built ∧ hr_ExporterResponse r = Some response.

Lemma restore_exporters c i e push r :
  sv_Exporters r !! i = Some e →
  (Some <$> sv_Exporters (publishing_request g c i e push r)) !! i =
  Some (Some (publishing_exporter g (bc_References c) e)).
Proof.
  intros Hl. rewrite list_lookup_fmap. cbn [publishing_request with_exporters sv_Exporters].
  assert (i < length (sv_Exporters r))%nat by (by eapply lookup_lt_Some).
  rewrite lookup_app_l by (by rewrite length_insert). by rewrite list_lookup_insert_eq.
Qed.

(** C7: a client finds its builds in the history as it made them.  The daemon's
    record of a build that was published is sent on under the name that the client gave
    to the build, with the client's attributes, its image under the client's names
    instead of those in dink's registry, and all other exporters unchanged; also when
    the client asked for this build alone. *)
Theorem published_build_reads_back id request c i e push response r type wanted :
  let own := own_request id request in
  let name := mget (ex_Attrs e) "name" in
  let built := publishing_request g c i e push own in
  sv_Ref request ≠ "" → sv_Exporters own !! i = Some e → name ≠ "" → (Z.of_nat i ≤ int64_max)%Z →
  records built response r → wanted = "" ∨ wanted = historyRef id (sv_Ref request) →
  ∃ r', restore_event id wanted {| he_Type := type; he_Record := Some r |} =
          Ok (Some {| he_Type := type; he_Record := Some r' |}) ∧
    hr_Ref r' = sv_Ref request ∧
    hr_FrontendAttrs r' = delete historyExporterAttr (delete historyNamesAttr (sv_FrontendAttrs request)) ∧
    (∃ e', hr_Exporters r' !! i = Some (Some e') ∧ ex_Type e' = "image" ∧ mget (ex_Attrs e') "name" = name) ∧
    (∀ j, j ≠ i → hr_Exporters r' !! j = hr_Exporters r !! j) ∧
    (∃ response', hr_ExporterResponse r' = Some response' ∧ mget response' "image.name" = name).
Proof.
  cbv zeta. intros Href Hl Hname Hi (Hr & Ha & He & Hresp) Hw.
  set (built := publishing_request g c i e push (own_request id request)) in *.
  set (attrs := delete historyExporterAttr (delete historyNamesAttr (sv_FrontendAttrs request))).
  assert (sv_FrontendAttrs built = <[historyExporterAttr := pretty (Z.of_nat i)]>
            (<[historyNamesAttr := mget (ex_Attrs e) "name"]> attrs)) as Hattrs by done.
  assert (hr_Exporters r !! i = Some (Some (publishing_exporter g (bc_References c) e))) as Hlook
    by (rewrite He; by apply restore_exporters).
  assert (i < length (hr_Exporters r))%nat as Hlen by (by eapply lookup_lt_Some).
  unfold restore_event. cbn [he_Record he_Type]. rewrite Hr.
  change (sv_Ref built) with (historyRef id (sv_Ref request)). rewrite historyRef_own, decide_False by done.
  assert (negb (bool_decide (wanted = "")) && negb (bool_decide (historyRef id (sv_Ref request) = wanted)) = false) as ->.
  { destruct Hw as [->| ->]; [done|]. by apply andb_false_intro2, negb_false_iff, bool_decide_eq_true. }
  assert (mget (hr_FrontendAttrs r) historyNamesAttr = mget (ex_Attrs e) "name" ∧
          mget (hr_FrontendAttrs r) historyExporterAttr = pretty (Z.of_nat i)) as [Hnames Hexp].
  { rewrite Ha, Hattrs, mget_insert_ne, !mget_insert_eq by done. done. }
  unfold restore_record. rewrite Hnames, Hexp, decide_False, Atoi_pretty by (done || lia). cbn [mbind option_bind].
  rewrite (proj2 (Z.ltb_ge _ 0)), (proj2 (Z.leb_gt _ _)) by lia. cbn [orb]. rewrite Nat2Z.id, Hlook.
  eexists. split; [done|]. cbn [with_record hr_Ref hr_FrontendAttrs hr_Exporters hr_ExporterResponse].
  split_and!; [done| | | |].
  - rewrite Ha, Hattrs. unfold attrs. apply map_eq. intros k. rewrite !lookup_delete, !lookup_insert, !lookup_delete.
    by repeat case_decide.
  - eexists. rewrite list_lookup_insert_eq by done. split_and!; [done|done|apply mget_insert_eq].
  - intros j Hj. by apply list_lookup_insert_ne.
  - eexists. rewrite Hresp. split; [done|]. unfold restore_response.
    rewrite mget_delete_ne by done. apply mget_insert_eq.
Qed.
End reading.

(** ** All of the history *)

Definition sent_event (e : event gcmd) : option BuildHistoryEvent :=
  match e with
  | Event X c x => match c in gcmd X return option BuildHistoryEvent with SendEvent ev => Some ev | _ => None end
  end.
(** What was sent, in the order of time. *)
Definition sent_events (h : ghist) : list BuildHistoryEvent := omap (M:=list) sent_event (reverse h).

Lemma sent_events_cons e h :
  sent_events (e :: h) = (sent_events h ++ match sent_event e with Some ev => [ev] | None => [] end)%list.
Proof. unfold sent_events. rewrite reverse_cons, omap_app. by f_equal. Qed.

(** The events that are the client's, as they are sent on. *)
Definition restored (id : Identity) (wanted : string) (events : list BuildHistoryEvent) :
    list BuildHistoryEvent :=
  omap (M:=list) (λ e, match restore_event id wanted e with Ok r => r | Err _ => None end) events.

Section complete.
Context (g : gateway) `{Unicode}.

Lemma relay_events_complete id wanted events ended h :
  wp any_answer any_command (relay_events id wanted events ended) h (λ h' r, h `suffix_of` h' ∧
    (r = Ok tt → ended = Ok tt ∧ sent_events h' = (sent_events h ++ restored id wanted events)%list ∧
                 Forall (λ e, is_ok (restore_event id wanted e) = true) events)).
Proof.
  revert h. induction events as [|e events IH]; intros h; cbn [relay_events].
  { rewrite wp_ret. split; [done|]. intros ->. by rewrite app_nil_r. }
  destruct (restore_event id wanted e) as [[e'|]|err] eqn:Er; [| |by rewrite wp_ret].
  - rewrite wp_bind_res, wp_call. split; [done|]. intros [u|err] _; [|by split; [apply suffix_cons_r|]].
    eapply wp_post; [|apply IH]. intros h' r [Hs Hr]. split; [etrans; [|exact Hs]; by apply suffix_cons_r|].
    intros Hok. destruct (Hr Hok) as (-> & -> & Hall). split_and!; [done| |by constructor; [rewrite Er|]].
    rewrite sent_events_cons. unfold restored. simpl. rewrite Er. by rewrite <- app_assoc.
  - eapply wp_post; [|apply IH]. intros h' r [Hs Hr]. split; [done|].
    intros Hok. destruct (Hr Hok) as (-> & -> & Hall). split_and!; [done| |by constructor; [rewrite Er|]].
    unfold restored. simpl. by rewrite Er.
Qed.

(** a listing of the history that succeeds is complete.  The client was sent
    exactly the events that are its own, restored, in the order in which the daemon gave
    them, up to the end of the daemon's stream; an event that cannot be restored, or an
    error of the daemon, makes the listing fail. *)
Theorem ListenBuildHistory_complete ctx id request h :
  check g ctx = Ok id → exec (ListenBuildHistory g ctx request) [] h (Ok tt) →
  let wanted := if decide (bh_Ref request = "") then "" else historyRef id (bh_Ref request) in
  ∃ request' events, Event _ (BackendListen request') (Ok (events, Ok tt)) ∈ h ∧
    bh_Ref request' = wanted ∧ bh_Limit request' = bh_Limit request ∧ (0 ≤ bh_Limit request)%Z ∧
    sent_events h = restored id wanted events ∧
    Forall (λ e, is_ok (restore_event id wanted e) = true) events.
Proof.
  intros Hc Hex. cbv zeta. set (wanted := if decide _ then _ else _).
  assert (wp any_answer any_command (ListenBuildHistory g ctx request) [] (λ h r, r = Ok tt →
    ∃ request' events, Event _ (BackendListen request') (Ok (events, Ok tt)) ∈ h ∧
      bh_Ref request' = wanted ∧ bh_Limit request' = bh_Limit request ∧ (0 ≤ bh_Limit request)%Z ∧
      sent_events h = restored id wanted events ∧
      Forall (λ e, is_ok (restore_event id wanted e) = true) events)) as Hwp.
  2: { by apply (proj1 (wp_exec any_answer _ _ _ _ _ _ Hwp Hex (exec_any_answer _ _ _ _ Hex))). }
  clear Hex h. unfold ListenBuildHistory. rewrite Hc. destruct (Z.ltb_spec (bh_Limit request) 0); [done|].
  cbv zeta. fold wanted. destruct (if decide (bh_Filter request = []) then _ else _) as [filters|e]; [|done].
  rewrite wp_bind_res, wp_call. split; [done|]. intros [[events ended]|e] _; [|done].
  rewrite wp_bind_res, wp_call. split; [done|]. intros [u|e] _; [|done].
  eapply wp_post; [|apply relay_events_complete]. intros h r [Hs Hr] Hok.
  destruct (Hr Hok) as (-> & Hsent & Hall). eexists _, events. split; [eapply event_later; [exact Hs|]; right; by left|].
  by split_and!.
Qed.
End complete.

(** ** Sessions *)

Definition registration (e : event gcmd) : option (string * Identity * nat) :=
  match e with
  | Event X c x => match c in gcmd X return X → option (string * Identity * nat) with
                   | RegisterSession sid id => λ r, b ← r; Some (sid, id, b)
                   | _ => λ _, None end x
  end.
Definition registered (id : Identity) (sid : string) (b : nat) (h : ghist) : Prop :=
  Some (sid, id, b) ∈ registration <$> h.

Definition session_opened (e : event gcmd) : option nat :=
  match e with
  | Event X c x => match c in gcmd X return X → option nat with
                   | NewSession _ => λ r, match r with Ok s => Some s | Err _ => None end
                   | _ => λ _, None end x
  end.

Definition session_closed (e : event gcmd) : option nat :=
  match e with
  | Event X c x => match c in gcmd X return option nat with CloseSession s => Some s | _ => None end
  end.

(** A method of the client's that may be passed on. *)
Definition client_method (methods : list string) (m : string * string) : Prop :=
  (∃ method, method ∈ methods ∧ TrimPrefix method "/" = m.1 +:+ "/" +:+ m.2) ∧ m.2 ≠ "" ∧
  m.1 ≠ "moby.filesync.v1.Auth" ∧ m.1 ≠ "grpc.health.v1.Health".

Lemma proxied_methods_own seen methods m : m ∈ proxied_methods seen methods → client_method methods m.
Proof.
  revert seen. induction methods as [|method methods IH]; intros seen; cbn [proxied_methods]; [by intros ?%elem_of_nil|].
  assert (∀ seen, m ∈ proxied_methods seen methods → client_method (method :: methods) m) as Hlater.
  { intros seen' ((x & Hx & ?) & ?)%IH. split; [|done]. exists x. split; [by right|done]. }
  destruct (if bool_decide _ then _ else _) as [m'|] eqn:E; [|apply Hlater].
  rewrite elem_of_cons. intros [->|?]; [|by eapply Hlater]. case_if; [done|].
  unfold proxied_method in E. destruct (Cut (TrimPrefix method "/") "/") as [[service name] ok] eqn:Ec.
  destruct ok; [|done]. cbn [negb orb] in E. destruct (_ || _) eqn:Eb in E; [done|]. injection E as <-.
  repeat (apply orb_false_iff in Eb as [Eb ?]). split; cbn [fst snd].
  - exists method. split; [by left|]. by apply Cut_true in Ec.
  - by split_and!; eapply bool_decide_eq_false.
Qed.

(** What a session may do. *)
Definition session_commands (id : Identity) (sid : string) (methods : list string) : guard (cmd := gcmd) := λ h X c,
  match c with
  | RegisterSession sid' id' => sid' = sid ∧ id' = id ∧ sid ≠ "" ∧ has_char ":" sid = false
  | UnregisterSession sid' | HandleConn sid' | ManagerGet sid' => sid' = sid ∧ ∃ b, registered id sid b h
  | CancelBridge b => registered id sid b h
  | NewSession key => ∃ shared, Event _ (ManagerGet sid) (Ok shared) ∈ h ∧ key = tenantRef id shared
  | AllowMethods s b allowed => registered id sid b h ∧ Some s ∈ session_opened <$> h ∧
      ∀ m, m ∈ allowed → client_method methods m
  | AllowAuth s b => registered id sid b h ∧ Some s ∈ session_opened <$> h
  | RunSession s sid' => sid' = sid ∧ Some s ∈ session_opened <$> h
  | CloseSession s => Some s ∈ session_opened <$> h
  | _ => False
  end.

(** What is left of a session: nothing, if it was not registered; otherwise it was
    unregistered and cancelled at last, and the one that was opened for it is closed. *)
Definition session_over (id : Identity) (sid : string) (h : ghist) : Prop :=
  (∀ b, ¬ registered id sid b h) ∨
  (∃ b h0, h = Event _ (CancelBridge b) tt :: Event _ (UnregisterSession sid) tt :: h0 ∧ registered id sid b h0) ∧
  ∀ s, Some s ∈ session_opened <$> h → Some s ∈ session_closed <$> h.

Section session.
Context (id : Identity) (sid : string) (methods : list string) (b : nat).

(** The part of a session at the daemon. *)
Lemma upstream_wp upstream h :
  registered id sid b h → Some upstream ∈ session_opened <$> h →
  wp any_answer (session_commands id sid methods)
    (do _ <- call (AllowMethods upstream b (proxied_methods [] methods));
     do _ <- call (AllowAuth upstream b); call (RunSession upstream sid)) h
    (λ h' _, ∃ r, h' = Event _ (RunSession upstream sid) r :: Event _ (AllowAuth upstream b) tt ::
                       Event _ (AllowMethods upstream b (proxied_methods [] methods)) tt :: h).
Proof.
  intros Hreg Hopen. rewrite wp_bind, wp_call. split; [split_and!; [done|done|apply proxied_methods_own]|].
  intros [] _. rewrite wp_bind, wp_call. split; [split; by right|]. intros [] _. rewrite wp_call.
  split; [split; [done|by do 2 right]|]. intros r _. by exists r.
Qed.

Lemma session_body_wp h :
  registered id sid b h → (∀ s, Some s ∉ session_opened <$> h) →
  wp any_answer (session_commands id sid methods)
    (do _ <- call (HandleConn sid);
     do? sharedKey <- call (ManagerGet sid);
     do? upstream <- call (NewSession (tenantRef id sharedKey));
     defer (call (CloseSession upstream)) (
       do _ <- call (AllowMethods upstream b (proxied_methods [] methods));
       do _ <- call (AllowAuth upstream b);
       call (RunSession upstream sid))) h
    (λ h' _, registered id sid b h' ∧ ∀ s, Some s ∈ session_opened <$> h' → Some s ∈ session_closed <$> h').
Proof.
  intros Hreg Hnone. rewrite wp_bind, wp_call. split; [by split; [|exists b]|]. intros [] _.
  rewrite wp_bind_res, wp_call. split; [split; [done|]; exists b; by right|]. intros [key|e] _.
  2: { split; [by do 2 right|]. intros s. rewrite !fmap_cons, !elem_of_cons.
       intros [?|[?|Hs]]; [done|done|by apply Hnone in Hs]. }
  rewrite wp_bind_res, wp_call. split; [exists key; split; [by left|done]|]. intros [u|e] _.
  2: { split; [by do 3 right|]. intros s. rewrite !fmap_cons, !elem_of_cons.
       intros [?|[?|[?|Hs]]]; [done|done|done|by apply Hnone in Hs]. }
  rewrite wp_defer. eapply wp_post; [|apply upstream_wp; [by do 3 right|by left]].
  intros h' r (r' & ->). rewrite wp_call. split; [by do 3 right; left|]. intros [] _.
  split; [by do 7 right|]. intros s Hs. repeat (rewrite fmap_cons, elem_of_cons in Hs).
  destruct Hs as [?|[?|[?|[?|[[= ->]|[?|[?|Hs]]]]]]]; try done; [by left|by apply Hnone in Hs].
Qed.
End session.

(** A session is its client's, and leaves nothing behind.  Without a tenant
    identity nothing happens.  Otherwise it is registered under the client's identity,
    if its identifier is one and is not in use; the daemon knows it by a name made of
    the client's identity; what is passed on to it are methods that the client exposed,
    but none of authentication and health; and when it ends, however it does, it is
    unregistered and cancelled, and the session that was opened at the daemon for it is
    closed. *)
Theorem handleSession_confined g ctx sid methods h r :
  exec (handleSession g ctx sid methods) [] h r →
  match check g ctx with
  | Err e => h = [] ∧ r = Err e
  | Ok id => guarded (session_commands id sid methods) [] h ∧ session_over id sid h
  end.
Proof.
  intros Hex. destruct (check g ctx) as [id|e] eqn:Ec; unfold handleSession in Hex; rewrite Ec in Hex.
  2: { by apply exec_inv in Hex as [-> ->]. }
  assert (∀ b, ¬ registered id sid b []) as Hnil by (by intros b ?%elem_of_nil).
  apply and_comm. refine (wp_exec any_answer _ _ _ _ _ (λ h _, session_over id sid h) _ Hex (exec_any_answer _ _ _ _ Hex)). clear Hex h r.
  destruct (_ || _) eqn:Es; [by left|]. apply orb_false_iff in Es as [Hne%bool_decide_eq_false Hcolon].
  rewrite wp_bind, wp_call. split; [done|]. intros [b|] _.
  2: { rewrite wp_ret. left. intros b Hb. unfold registered in Hb. rewrite fmap_cons, elem_of_cons in Hb.
       destruct Hb; [done|by eapply Hnil]. }
  rewrite !wp_defer. eapply wp_post; [|apply session_body_wp; [by left|]].
  2: { intros s Hs. rewrite fmap_cons, elem_of_cons in Hs. destruct Hs as [?|?%elem_of_nil]; done. }
  intros h r (Hreg & Hopen). rewrite wp_call. split; [by split; [|exists b]|]. intros [] _.
  rewrite wp_call. split; [by right|]. intros [] _. right. split; [by eexists b, _|].
  intros s. rewrite !fmap_cons, !elem_of_cons. intros [?|[?|Hs]]; [done|done|]. do 2 right. by apply Hopen.
Qed.


(** ** Witnesses *)

Definition demo_gateway : gateway :=
  {| gw_enabled := true; registry_Scheme := "https"; registry_Host := "dinki:5000" |}.
Definition alice : Identity :=
  {| Namespace := "acme"; Organization := "Acme"; CommonName := "alice"; Anonymous := false |}.
Definition bob : Identity :=
  {| Namespace := "acme"; Organization := "Acme"; CommonName := "bob"; Anonymous := false |}.

(** References with a tag, on the Docker Hub. *)
Definition tagged_references : References := {|
  ParseRelative name :=
    '(repository, tag) ← cut_last ":" name;
    Some {| Host := "docker.io"; Repository := repository; Tag := tag; ref_Digest := "" |};
  ref_String r := Repository r +:+ ":" +:+ Tag r |}.
Definition plain_frontend : FrontendCodec := {| decode_FrontendSolve _ :=
  Some {| fs_Definition := None; fs_FrontendInputs := ∅; fs_SourcePolicies := []; fs_FrontendOpt := ∅ |} |}.
Definition any_digest : GoDigest := {| digest_Validate s := HasPrefix s "sha256:" |}.
Definition no_unicode : Unicode :=
  {| unicode_ToLower s := s; unicode_ToUpper s := s; unicode_TrimSpace s := s; unicode_Fields s := [s] |}.

(** A build of [app:1] that is to be pushed to the Docker Hub too. *)
Definition app_exporter : Exporter := {| ex_Type := "moby"; ex_Attrs := {["name" := "app:1"; "push" := "true"]} |}.
Definition app_build : SolveRequest := {|
  sv_Ref := "build-1"; sv_Session := "s1"; sv_Definition := None; sv_FrontendInputs := ∅; sv_SourcePolicy := None;
  sv_SourcePolicySession := ""; sv_Entitlements := []; sv_ProxyNetwork := false;
  sv_FrontendAttrs := {["local-sessionid:context" := "s1"; "filename" := "Dockerfile"]};
  sv_Exporters := [{| ex_Type := "local"; ex_Attrs := ∅ |}; app_exporter];
  sv_ExporterDeprecated := ""; sv_ExporterAttrsDeprecated := ∅; sv_rest := "dockerfile.v0" |}.
Definition app_credential : BuildCredential :=
  {| bc_Username := "build_1"; bc_Password := "secret"; bc_References := ["acme/app:1"] |}.
Definition app_built : SolveRequest :=
  publishing_request demo_gateway app_credential 1 app_exporter true (own_request alice app_build).
Definition app_response : smap := {["containerimage.config.digest" := "sha256:c"; "containerimage.digest" := "sha256:d"]}.

(** What the daemon records of it; and of a build of [bob]. *)
Definition record_of (built : SolveRequest) : BuildHistoryRecord := {|
  hr_Ref := sv_Ref built; hr_FrontendAttrs := sv_FrontendAttrs built; hr_Exporters := Some <$> sv_Exporters built;
  hr_ExporterResponse := Some app_response; hr_Logs := Some "sha256:logs"; hr_Trace := None; hr_ExternalError := None;
  hr_Result := None; hr_Results := []; hr_rest := "" |}.
Definition shared_history : list BuildHistoryEvent :=
  [{| he_Type := 1; he_Record := Some (record_of (own_request bob app_build)) |}; {| he_Type := 0; he_Record := None |};
   {| he_Type := 1; he_Record := Some (record_of app_built) |}].

Definition daemon (X : Type) (c : gcmd X) (s : unit) : X * unit :=
  (match c in gcmd X return X with
   | Sessions => {["s1" := {| br_pointer := 7; br_id := alice |}; "s2" := {| br_pointer := 8; br_id := bob |}]}
   | AwaitReady _ | AwaitTick | SwapSolving _ => true
   | BridgeDone _ => false
   | StoreSolving _ | SetCredential _ _ | UnregisterSession _ | HandleConn _ | AllowMethods _ _ _ | AllowAuth _ _
   | CloseSession _ | CancelBridge _ => tt
   | GetCredential _ => None
   | IssueBuildCredential _ _ => Ok app_credential
   | RevokeBuildCredential _ _ | BackendStatus _ | BackendUpdateHistory _ _ | BackendReadContent _ | RelayHeaders
   | SendUsage _ | SendEvent _ | ForwardRPC _ _ _ | RunSession _ _ => Ok tt
   | BackendInfo | ReceiveFrame | ManagerGet _ | ClientToken _ _ => Ok "x"
   | BackendListWorkers => Ok []
   | BackendDiskUsage _ => Ok None
   | BackendSolve _ => Ok (Some {| ExporterResponse := app_response |})
   | BackendListen _ => Ok (shared_history, Ok tt)
   | BackendPrune _ => Ok ([], Ok tt)
   | BackendContentInfo _ => Ok (Some ∅)
   | RegisterSession _ _ => Some 9
   | NewSession _ => Ok 3
   | ClientCredentials _ _ => Ok ("u", "p")
   end, s).

Lemma history_refs_separate_clients_witness :
  originalHistoryRef alice (historyRef alice "build-1") = Some "build-1" ∧
  originalHistoryRef alice (historyRef bob "build-1") = None.
Proof.
  destruct (history_refs_separate_clients alice bob "build-1") as [_ Hs].
  destruct (history_refs_separate_clients alice alice "build-1") as [Ho _].
  split; [exact Ho|]. destruct Hs as [Hs|[_ Hs]]; [reflexivity|reflexivity|right; discriminate|exact Hs|].
  apply (f_equal hex) in Hs. vm_compute in Hs. discriminate Hs.
Defined.

Definition demo_solve : gproc (gres (option SolveResponse)) :=
  @Solve demo_gateway tagged_references 3 (Some alice) app_build.

Lemma Solve_guarded_witness :
  let out := run daemon demo_solve [] tt in
  guarded (@build_commands demo_gateway tagged_references alice app_build) [] out.1.2 ∧
  build_over alice out.1.2 out.1.1 ∧ length out.1.2 = 11 ∧
  out.1.1 = Ok (Some {| ExporterResponse := {["containerimage.digest" := "sha256:d"; "image.name" := "app:1"]} |}).
Proof.
  intros out. pose proof (@Solve_guarded demo_gateway tagged_references 3 (Some alice) app_build out.1.2 out.1.1
    (run_exec daemon demo_solve [] tt)) as H.
  assert (check demo_gateway (Some alice) = Ok alice) as E by reflexivity. rewrite E in H.
  split; [exact (proj1 H)|]. split; [exact (proj2 H)|]. split; vm_compute; reflexivity.
Defined.

Definition demo_listen (ref : string) : BuildHistoryRequest := {|
  bh_Ref := ref; bh_Filter := ["status==completed"]; bh_Limit := 10; bh_EarlyExit := true; bh_ActiveOnly := false |}.

Lemma history_is_isolated_witness :
  let out := run daemon (@perform demo_gateway plain_frontend any_digest no_unicode (Some alice) (CallRead "sha256:logs"))
               [] tt in
  guarded (own_history alice) [] out.1.2 ∧ out.1.1 = Ok tt ∧ length out.1.2 = 2.
Proof.
  intros out. pose proof (@history_is_isolated demo_gateway plain_frontend any_digest no_unicode (Some alice)
    (CallRead "sha256:logs") out.1.2 out.1.1 (run_exec daemon _ [] tt)) as H.
  assert (check demo_gateway (Some alice) = Ok alice) as E by reflexivity. rewrite E in H.
  split; [exact H|]. split; vm_compute; reflexivity.
Defined.

Lemma published_build_reads_back_witness :
  ∃ r', restore_event alice (historyRef alice "build-1") {| he_Type := 1; he_Record := Some (record_of app_built) |} =
        Ok (Some {| he_Type := 1; he_Record := Some r' |}) ∧ hr_Ref r' = "build-1".
Proof.
  destruct (@published_build_reads_back demo_gateway alice app_build app_credential 1 app_exporter true
              app_response (record_of app_built) 1 (historyRef alice "build-1")) as (r' & Hr & Href & _).
  - discriminate.
  - reflexivity.
  - vm_compute. discriminate.
  - unfold int64_max. lia.
  - repeat split.
  - right. reflexivity.
  - exists r'. split; [exact Hr|exact Href].
Defined.

Lemma ListenBuildHistory_complete_witness :
  let out := run daemon (@ListenBuildHistory demo_gateway no_unicode (Some alice) (demo_listen "")) [] tt in
  out.1.1 = Ok tt ∧ ∃ events, sent_events out.1.2 = restored alice "" events ∧
    (λ e, hr_Ref <$> he_Record e) <$> sent_events out.1.2 = [Some "build-1"].
Proof.
  intros out. assert (out.1.1 = Ok tt) as E by (vm_compute; reflexivity). split; [exact E|].
  pose proof (run_exec daemon (@ListenBuildHistory demo_gateway no_unicode (Some alice) (demo_listen "")) [] tt) as Hex.
  fold out in Hex. rewrite E in Hex.
  destruct (@ListenBuildHistory_complete demo_gateway no_unicode (Some alice) alice (demo_listen "") out.1.2 eq_refl Hex)
    as (request & events & _ & _ & _ & _ & Hsent & _).
  exists events. split; [exact Hsent|]. vm_compute. reflexivity.
Defined.

Definition demo_session : gproc (gres unit) :=
  handleSession demo_gateway (Some alice) "s3"
    ["/moby.filesync.v1.FileSync/DiffCopy"; "/moby.filesync.v1.Auth/Credentials"; "/bad"].

Lemma handleSession_confined_witness :
  let out := run daemon demo_session [] tt in
  session_over alice "s3" out.1.2 ∧ out.1.1 = Ok tt ∧ length out.1.2 = 10.
Proof.
  intros out. pose proof (@handleSession_confined demo_gateway (Some alice) "s3" _ out.1.2 out.1.1
    (run_exec daemon demo_session [] tt)) as H.
  assert (check demo_gateway (Some alice) = Ok alice) as E by reflexivity. rewrite E in H.
  split; [exact (proj2 H)|]. split; vm_compute; reflexivity.
Defined.

(** ** What the scope of a filter misses *)

(** A line end after a filter puts the scope that is added to it into a second record: a
    reader of the first one, as the gateway itself is, does not see it. *)
Example scope_after_line_end :
  let filter := "status==completed" +:+ String "010" "" in
  @scope_filter no_unicode alice filter = Ok (filter +:+ "," +:+ scope_of alice) ∧
  csv_Read (filter +:+ "," +:+ scope_of alice) = Some (["status==completed"], "," +:+ scope_of alice).
Proof. by vm_compute. Qed.
