(* ===== verification/Exec.v ===== *)
(** * Exec: commands that are run in containers

    [core/translator/container_exec.go]: the table of the commands that were created, their
    start, inspection and resizing.  The table and its entries are shared by the goroutines
    that serve requests; each section under [execMu] is one command, and an entry is known
    by its pointer. *)

From S2P Require Import Prelude GoStrings Errors Prog Kube Identity Validation Workload Services Threads.

Local Open Scope string_scope.

(** ** Data *)

Record TerminalSize := { term_Height : Z; term_Width : Z }.

(** [terminalSize]; a Docker size is height and width. *)
Definition terminalSize (size : option (Z * Z)) : option TerminalSize :=
  match size with
  | None => None
  | Some (height, width) =>
      if (height =? 0)%Z || (width =? 0)%Z || (65535 <? height)%Z || (65535 <? width)%Z then None
      else Some {| term_Height := height; term_Width := width |}
  end.

(** [container.ExecCreateRequest] *)
Record ExecCreateRequest := {
  exec_Cmd : list string;
  exec_User : string;
  exec_Privileged : bool;
  exec_WorkingDir : string;
  exec_Env : list string;
  exec_DetachKeys : string;
  exec_AttachStdin : bool;
  exec_AttachStdout : bool;
  exec_AttachStderr : bool;
  exec_Tty : bool;
  exec_ConsoleSize : option (Z * Z)
}.

Record containerExec := {
  ce_namespace : string;
  ce_containerID : string;
  ce_podName : string;
  ce_podUID : string;
  ce_container : string;
  ce_config : ExecCreateRequest;
  ce_running : bool;
  ce_exitCode : option Z;
  ce_resize : option nat         (* the channel *)
}.

(** [d.execs], and the entries it points to. *)
Record exec_table := { execs : gmap string nat; entries : gmap nat containerExec }.

Record ExecInspectResponse := {
  ei_ID : string; ei_Running : bool; ei_ExitCode : option Z; ei_ContainerID : string;
  ei_OpenStdin : bool; ei_OpenStdout : bool; ei_OpenStderr : bool;
  ei_Tty : bool; ei_Entrypoint : string; ei_Arguments : list string
}.

(** The streams of [backend.ExecStartConfig] that are not nil, and its console size. *)
Record ExecStartConfig := {
  es_Stdin : bool; es_Stdout : bool; es_Stderr : bool; es_ConsoleSize : option (Z * Z)
}.

(** What [streamPod] is asked for: the command, which of the streams are connected, the
    keys at which the input is cut off, and the channel of terminal sizes. *)
Record StreamRequest := {
  st_Namespace : string; st_Pod : string; st_Container : string; st_Command : list string;
  st_Stdin : bool; st_Stdout : bool; st_Stderr : bool; st_TTY : bool;
  st_DetachKeys : option string; st_Sizes : option nat
}.

(** How a stream ended: [errors.As] distinguishes an [ExitError] from other errors. *)
Inductive stream_end := StreamDone | StreamExited (code : Z) | StreamFailed (e : error).

(** [term.ToBytes] of moby/term. *)
Class DetachKeys := { ToBytes : string → option string }.

(** ** The sections under [execMu] *)

Definition register_exec (p : nat) (id : string) (e : containerExec) (t : exec_table) : exec_table :=
  {| execs := <[id := p]> (execs t); entries := <[p := e]> (entries t) |}.

Definition lookup_exec (id : string) (t : exec_table) : option containerExec :=
  p ← execs t !! id; entries t !! p.

(** [entry == nil || entry.namespace != id.Namespace] *)
Definition visible_exec (namespace : string) (e : option containerExec) : res containerExec :=
  match e with
  | Some e => if bool_decide (ce_namespace e = namespace) then Ok e
              else Err (NotFound (errors_New "exec %s not found"))
  | None => Err (NotFound (errors_New "exec %s not found"))
  end.

Definition set_running (b : bool) (e : containerExec) : containerExec := {|
  ce_namespace := ce_namespace e; ce_containerID := ce_containerID e; ce_podName := ce_podName e;
  ce_podUID := ce_podUID e; ce_container := ce_container e; ce_config := ce_config e;
  ce_running := b; ce_exitCode := ce_exitCode e; ce_resize := ce_resize e |}.

Definition set_resize (queue : option nat) (e : containerExec) : containerExec := {|
  ce_namespace := ce_namespace e; ce_containerID := ce_containerID e; ce_podName := ce_podName e;
  ce_podUID := ce_podUID e; ce_container := ce_container e; ce_config := ce_config e;
  ce_running := ce_running e; ce_exitCode := ce_exitCode e; ce_resize := queue |}.

Definition set_exit_code (code : Z) (e : containerExec) : containerExec := {|
  ce_namespace := ce_namespace e; ce_containerID := ce_containerID e; ce_podName := ce_podName e;
  ce_podUID := ce_podUID e; ce_container := ce_container e; ce_config := ce_config e;
  ce_running := ce_running e; ce_exitCode := Some code; ce_resize := ce_resize e |}.

Definition end_exec (e : containerExec) : containerExec := set_resize None (set_running false e).

Definition update_exec (f : containerExec → containerExec) (p : nat) (t : exec_table) : exec_table :=
  {| execs := execs t; entries := alter f p (entries t) |}.

(** The first section of [ContainerExecStart]. *)
Definition begin_exec (namespace id : string) (t : exec_table) : res (nat * containerExec) * exec_table :=
  match execs t !! id with
  | None => (Err (NotFound (errors_New "exec %s not found")), t)
  | Some p =>
      match visible_exec namespace (entries t !! p) with
      | Err e => (Err e, t)
      | Ok e =>
          if ce_running e || bool_decide (is_Some (ce_exitCode e))
          then (Err (Conflict (errors_New "exec %s has already started")), t)
          else (Ok (p, e), update_exec (set_running true) p t)
      end
  end.

(** The loop of [ContainerRm] ([container_lifecycle.go]). *)
Definition of_container (namespace containerID : string) (e : option containerExec) : bool :=
  match e with
  | Some e => bool_decide (ce_namespace e = namespace) && bool_decide (ce_containerID e = containerID)
  | None => false
  end.

Definition forget_execs (namespace containerID : string) (t : exec_table) : exec_table :=
  {| execs := filter (λ '(_, p), of_container namespace containerID (entries t !! p) = false) (execs t);
     entries := entries t |}.

(** ** Commands *)

Inductive xcmd : Type → Type :=
| OnCluster (X : Type) (c : cmd X) : xcmd X
| RandomID : xcmd (res string)                            (* [rand.Read], in hexadecimal *)
| RegisterExec (id : string) (e : containerExec) : xcmd unit
| LookupExec (id : string) : xcmd (option containerExec)
| BeginExec (namespace id : string) : xcmd (res (nat * containerExec))
| SetResize (p queue : nat) : xcmd unit
| SetExitCode (p : nat) (code : Z) : xcmd unit
| EndExec (p : nat) : xcmd unit
| MakeQueue (initial : option TerminalSize) : xcmd nat    (* of capacity one *)
| SendSize (queue : nat) (size : TerminalSize) : xcmd (res unit)   (* select: or [ctx.Done] *)
| StreamPod (p : nat) (request : StreamRequest) : xcmd (bool * stream_end)
    (* for the entry; whether the client detached, and how it ended *)
| Panic (X : Type) : xcmd X.

Abbreviation xproc := (prog xcmd).

(** A method of the translator that only talks to the cluster. *)
Definition on_cluster {A} : proc A → xproc A := embed OnCluster.

(** ** Operations *)

Section operations.
Context `{Validation} `{DetachKeys}.

Definition runningContainerPod (ctx : context) (name : string) : proc (res (containerWorkload * Pod)) :=
  do? deployment <- findContainer ctx name;
  do pods <- call (KList KPod (Namespace deployment) (app_selector deployment));
  match pods with
  | Err e => Ret (Err (kubeError e))
  | Ok pods =>
      match List.find (λ pod, bool_decide (Phase pod = "Running") && negb (bool_decide (pod_Containers pod = [])))
              pods with
      | Some pod => Ret (Ok (deployment, pod))
      | None => Ret (Err (NotFound (errors_New "no running pod found for container %s")))
      end
  end.

Definition valid_exec (config : option ExecCreateRequest) : res ExecCreateRequest :=
  match config with
  | None => Err (InvalidArgument (errors_New "no exec command specified"))
  | Some config =>
      if bool_decide (exec_Cmd config = []) then Err (InvalidArgument (errors_New "no exec command specified"))
      else if negb (bool_decide (exec_User config = "")) || exec_Privileged config ||
              negb (bool_decide (exec_WorkingDir config = "")) || negb (bool_decide (exec_Env config = []))
      then Err (InvalidArgument (errors_New
             "exec user, privilege, working directory and environment are not supported"))
      else if negb (bool_decide (exec_DetachKeys config = "")) && bool_decide (ToBytes (exec_DetachKeys config) = None)
      then Err (InvalidArgument (errors_New "invalid detach keys: %w"))
      else Ok config
  end.

Definition ContainerExecCreate (ctx : context) (name : string) (config : option ExecCreateRequest) :
    xproc (res string) :=
  match valid_exec config with
  | Err e => Ret (Err e)
  | Ok config =>
      do? '(deployment, pod) <- on_cluster (runningContainerPod ctx name);
      match named_container (pod_Containers pod) (Name deployment) with
      | Err e => Ret (Err e)
      | Ok podContainer =>
          do? id <- call RandomID;
          do _ <- call (RegisterExec id {|
            ce_namespace := Namespace deployment; ce_containerID := DockerIDFromUID (UID deployment);
            ce_podName := Name pod; ce_podUID := UID pod; ce_container := Ctr_Name podContainer;
            ce_config := config; ce_running := false; ce_exitCode := None; ce_resize := None |});
          Ret (Ok id)
      end
  end.

Definition no_identity {A} : xproc (res A) :=
  Ret (Err (Unauthenticated (errors_New "missing identity in context"))).

Definition ContainerExecInspect (ctx : context) (execID : string) : xproc (res ExecInspectResponse) :=
  match ctx with
  | None => no_identity
  | Some id =>
      do entry <- call (LookupExec execID);
      match visible_exec (id_namespace id) entry with
      | Err e => Ret (Err e)
      | Ok entry =>
          match exec_Cmd (ce_config entry) with
          | [] => call (Panic _)
          | command :: arguments =>
              Ret (Ok {| ei_ID := execID; ei_Running := ce_running entry; ei_ExitCode := ce_exitCode entry;
                         ei_ContainerID := ce_containerID entry;
                         ei_OpenStdin := exec_AttachStdin (ce_config entry);
                         ei_OpenStdout := exec_AttachStdout (ce_config entry);
                         ei_OpenStderr := exec_AttachStderr (ce_config entry);
                         ei_Tty := exec_Tty (ce_config entry);
                         ei_Entrypoint := command; ei_Arguments := arguments |})
          end
      end
  end.

Definition ContainerExecResize (ctx : context) (execID : string) (height width : Z) : xproc (res unit) :=
  match ctx with
  | None => no_identity
  | Some id =>
      if (65535 <? height)%Z || (65535 <? width)%Z
      then Ret (Err (InvalidArgument (errors_New "exec terminal dimensions exceed Kubernetes limits")))
      else
        do entry <- call (LookupExec execID);
        match visible_exec (id_namespace id) entry with
        | Err e => Ret (Err e)
        | Ok entry =>
            match ce_resize entry with
            | Some queue =>
                if ce_running entry && exec_Tty (ce_config entry)
                then call (SendSize queue {| term_Height := height; term_Width := width |})
                else Ret (Err (Conflict (errors_New "exec %s has no active TTY")))
            | None => Ret (Err (Conflict (errors_New "exec %s has no active TTY")))
            end
        end
  end.

Definition ExecExists (ctx : context) (execID : string) : xproc (res bool) :=
  match ctx with
  | None => no_identity
  | Some id =>
      do entry <- call (LookupExec execID);
      Ret (Ok (match visible_exec (id_namespace id) entry with Ok _ => true | Err _ => false end))
  end.

(** Whether the keys that were checked at creation are still keys. *)
Definition detach_keys (entry : containerExec) (streams : ExecStartConfig) : res (option string) :=
  let config := ce_config entry in
  if exec_AttachStdin config && es_Stdin streams && negb (bool_decide (exec_DetachKeys config = "")) then
    match ToBytes (exec_DetachKeys config) with
    | None => Err (InvalidArgument (errors_New "invalid detach keys: %w"))
    | Some keys => Ok (Some keys)
    end
  else Ok None.

(** The terminal's channel, with the first size that can be represented. *)
Definition terminal_queue (p : nat) (entry : containerExec) (streams : ExecStartConfig) : xproc (option nat) :=
  if exec_Tty (ce_config entry) then
    let initial := match terminalSize (es_ConsoleSize streams) with
                   | Some size => Some size
                   | None => terminalSize (exec_ConsoleSize (ce_config entry))
                   end in
    do queue <- call (MakeQueue initial);
    do _ <- call (SetResize p queue);
    Ret (Some queue)
  else Ret None.

Definition stream_request (entry : containerExec) (streams : ExecStartConfig) (keys : option string)
    (sizes : option nat) : StreamRequest :=
  let config := ce_config entry in
  {| st_Namespace := ce_namespace entry; st_Pod := ce_podName entry; st_Container := ce_container entry;
     st_Command := exec_Cmd config;
     st_Stdin := exec_AttachStdin config && es_Stdin streams;
     st_Stdout := (exec_AttachStdout config || (exec_Tty config && exec_AttachStderr config)) && es_Stdout streams;
     st_Stderr := exec_AttachStderr config && negb (exec_Tty config) && es_Stderr streams;
     st_TTY := exec_Tty config; st_DetachKeys := keys; st_Sizes := sizes |}.

(** What follows the first section, up to the deferred one. *)
Definition run_exec (p : nat) (entry : containerExec) (streams : ExecStartConfig) : xproc (res unit) :=
  do pod <- call (OnCluster _ (KGet KPod (ce_namespace entry) (ce_podName entry)));
  match pod with
  | Err e => Ret (Err (kubeError e))
  | Ok pod =>
      if negb (bool_decide (UID (pod_meta pod) = ce_podUID entry)) || negb (bool_decide (Phase pod = "Running"))
      then Ret (Err (Conflict (errors_New "exec target pod has changed or stopped")))
      else
        match detach_keys entry streams with
        | Err e => Ret (Err e)
        | Ok keys =>
            do sizes <- terminal_queue p entry streams;
            do ended <- call (StreamPod p (stream_request entry streams keys sizes));
            match ended with
            | (true, _) => Ret (Ok tt)
            | (false, StreamDone) => do _ <- call (SetExitCode p 0); Ret (Ok tt)
            | (false, StreamExited code) => do _ <- call (SetExitCode p code); Ret (Ok tt)
            | (false, StreamFailed e) => Ret (Err e)
            end
        end
  end.

Definition ContainerExecStart (ctx : context) (execID : string) (streams : ExecStartConfig) : xproc (res unit) :=
  match ctx with
  | None => no_identity
  | Some id =>
      do? '(p, entry) <- call (BeginExec (id_namespace id) execID);
      defer (call (EndExec p)) (run_exec p entry streams)
  end.
End operations.
