(* ===== verification/ExecProps.v ===== *)
(** * ExecProps: every created command runs at most once at a time

    However the goroutines that create, start, inspect, resize and forget commands
    interleave: no two of them stream the same command, a command that ended with an exit
    code is not started again and keeps its code, and what a start leaves behind is what
    there was before it. *)

From S2P Require Import Prelude GoStrings Errors Prog Kube Cluster Identity Validation Workload Services Threads Exec.

Local Open Scope string_scope.

(** ** Requests and their goroutines *)

Inductive exec_request :=
| CreateExec (ctx : context) (name : string) (config : option ExecCreateRequest)
| InspectExec (ctx : context) (execID : string)
| ResizeExec (ctx : context) (execID : string) (height width : Z)
| StartExec (ctx : context) (execID : string) (streams : ExecStartConfig)
| ExistsExec (ctx : context) (execID : string)
| ForgetContainer (namespace containerID : string).   (* the section of [ContainerRm] *)

Definition finish {A} (p : xproc A) : xproc unit := bind p (λ _, Ret tt).

(** What the commands do to the table; the others are answered in any way. *)
Definition exec_act X (c : xcmd X) (t : exec_table) (x : X) (after : exec_table) : Prop :=
  match c in xcmd X return X → Prop with
  | OnCluster _ (ForgetExecs namespace containerID) => λ _, after = forget_execs namespace containerID t
  | RegisterExec id e => λ _, ∃ p, entries t !! p = None ∧ after = register_exec p id e t
  | LookupExec id => λ x, x = lookup_exec id t ∧ after = t
  | BeginExec namespace id => λ x, (x, after) = begin_exec namespace id t
  | SetResize p queue => λ _, after = update_exec (set_resize (Some queue)) p t
  | SetExitCode p code => λ _, after = update_exec (set_exit_code code) p t
  | EndExec p => λ _, after = update_exec end_exec p t
  | OnCluster _ _ | RandomID | MakeQueue _ | SendSize _ _ | StreamPod _ _ => λ _, after = t
  | Panic _ => λ _, False
  end x.

(** ** What a goroutine owns: the run of an entry, and whether it has set the exit code *)

Abbreviation run_owned := (option (nat * bool)).

Definition exec_pre X (c : xcmd X) (o : run_owned) : Prop :=
  match c with
  | RegisterExec _ e =>
      exec_Cmd (ce_config e) ≠ [] ∧ ce_running e = false ∧ ce_exitCode e = None ∧ ce_resize e = None
  | BeginExec _ _ => o = None
  | SetResize p _ | SetExitCode p _ | StreamPod p _ => o = Some (p, false)
  | EndExec p => ∃ ended, o = Some (p, ended)
  | Panic _ => False
  | _ => True
  end.

Definition exec_next X (c : xcmd X) : X → run_owned → run_owned :=
  match c in xcmd X return X → run_owned → run_owned with
  | BeginExec _ _ => λ x o, match x with Ok (p, _) => Some (p, false) | Err _ => o end
  | SetExitCode p _ => λ _ _, Some (p, true)
  | EndExec _ => λ _ _, None
  | _ => λ _ o, o
  end.

Definition exec_answer X (c : xcmd X) : X → Prop :=
  match c in xcmd X return X → Prop with
  | LookupExec _ => λ x, ∀ e, x = Some e → exec_Cmd (ce_config e) ≠ []
  | _ => λ _, True
  end.

Abbreviation exec_owns := (owns exec_pre exec_next exec_answer).

Record table_inv (t : exec_table) (ghost : gmap nat run_owned) : Prop := {
  inv_entry p e : entries t !! p = Some e →
    exec_Cmd (ce_config e) ≠ [] ∧
    (ce_running e = true → ∃ i ended, ghost !! i = Some (Some (p, ended))) ∧
    (ce_resize e ≠ None → ce_running e = true);
  inv_owner i p ended : ghost !! i = Some (Some (p, ended)) →
    ∃ e, entries t !! p = Some e ∧ ce_running e = true ∧ (ended = false → ce_exitCode e = None);
  inv_unique i j p ended ended' :
    ghost !! i = Some (Some (p, ended)) → ghost !! j = Some (Some (p, ended')) → i = j
}.

(** An entry that changes keeps what was created. *)
Definition same_exec (e e' : containerExec) : Prop :=
  ce_namespace e' = ce_namespace e ∧ ce_containerID e' = ce_containerID e ∧ ce_podName e' = ce_podName e ∧
  ce_podUID e' = ce_podUID e ∧ ce_container e' = ce_container e ∧ ce_config e' = ce_config e.

Lemma inv_idle_start t ghost i :
  table_inv t ghost → ghost !! i = None → table_inv t (<[i := None]> ghost).
Proof.
  intros [Hentry Howner Hunique] Hi. split.
  - intros p e He. destruct (Hentry p e He) as (Hcmd & Hrun & Hresize). split_and!; [done| |done].
    intros Hr. destruct (Hrun Hr) as (j & ended & Hj). exists j, ended. rewrite lookup_insert_ne; [done|congruence].
  - intros j p ended. rewrite lookup_insert_Some. intros [[_ [=]]|[_ Hj]]. by eapply Howner.
  - intros j j' p ended ended'. rewrite !lookup_insert_Some. intros [[_ [=]]|[_ Hj]] [[_ [=]]|[_ Hj']].
    by eapply Hunique.
Qed.

Lemma inv_idle_return t ghost i :
  table_inv t ghost → ghost !! i = Some None → table_inv t (delete i ghost).
Proof.
  intros [Hentry Howner Hunique] Hi. split.
  - intros p e He. destruct (Hentry p e He) as (Hcmd & Hrun & Hresize). split_and!; [done| |done].
    intros Hr. destruct (Hrun Hr) as (j & ended & Hj). exists j, ended. rewrite lookup_delete_ne; [done|congruence].
  - intros j p ended. rewrite lookup_delete_Some. intros [_ Hj]. by eapply Howner.
  - intros j j' p ended ended'. rewrite !lookup_delete_Some. intros [_ Hj] [_ Hj']. by eapply Hunique.
Qed.

(** The table of identifiers is not what the invariant speaks of. *)
Lemma inv_execs t t' ghost : entries t' = entries t → table_inv t ghost → table_inv t' ghost.
Proof. intros Heq [Hentry Howner Hunique]. split; rewrite ?Heq; done. Qed.

(** The owner of a run changes its entry. *)
Lemma inv_update t ghost i p ended ended' f :
  table_inv t ghost → ghost !! i = Some (Some (p, ended)) →
  (∀ e, same_exec e (f e) ∧ ce_running (f e) = ce_running e) →
  (ended' = false → ended = false ∧ ∀ e, ce_exitCode (f e) = ce_exitCode e) →
  table_inv (update_exec f p t) (<[i := Some (p, ended')]> ghost).
Proof.
  intros [Hentry Howner Hunique] Hi Hf Hended.
  destruct (Howner _ _ _ Hi) as (e & He & Hr & Hexit).
  split; simpl.
  - intros q e' Hq. destruct (decide (q = p)) as [->|Hne].
    + rewrite lookup_alter_eq, He in Hq. injection Hq as <-. destruct (Hf e) as [(? & ? & ? & ? & ? & Hc) Hfr].
      destruct (Hentry _ _ He) as (Hcmd & _ & _). rewrite Hc, Hfr, Hr. split_and!; [done| |done].
      intros _. exists i, ended'. apply lookup_insert_eq.
    + rewrite lookup_alter_ne in Hq by done. destruct (Hentry _ _ Hq) as (Hcmd & Hrun & Hresize).
      split_and!; [done| |done]. intros Hr'. destruct (Hrun Hr') as (j & b & Hj). exists j, b.
      rewrite lookup_insert_ne; [done|]. intros <-. congruence.
  - intros j q b. rewrite lookup_insert_Some. intros [[<- [= <- <-]]|[Hne Hj]].
    + exists (f e). rewrite lookup_alter_eq, He. split; [done|]. split; [by rewrite (proj2 (Hf e))|].
      intros Hb. destruct (Hended Hb) as [Hb' Hcode]. rewrite Hcode. auto.
    + destruct (decide (q = p)) as [->|Hqp]; [by destruct Hne; eapply Hunique|].
      rewrite lookup_alter_ne by done. by eapply Howner.
  - intros j j' q b b'. rewrite !lookup_insert_Some.
    intros [[<- Heq]|[Hne Hj]] [[<- Heq']|[Hne' Hj']]; simplify_eq; try done; by eapply Hunique.
Qed.

Lemma visible_exec_ok namespace e e' :
  visible_exec namespace e = Ok e' → e = Some e' ∧ ce_namespace e' = namespace.
Proof. destruct e as [e|]; simpl; [|done]. case_bool_decide; [|done]. by intros [= <-]. Qed.

Lemma begin_exec_cases namespace id t :
  match begin_exec namespace id t with
  | (Ok (p, e), after) =>
      execs t !! id = Some p ∧ entries t !! p = Some e ∧ ce_namespace e = namespace ∧
      ce_running e = false ∧ ce_exitCode e = None ∧ after = update_exec (set_running true) p t
  | (Err _, after) => after = t
  end.
Proof.
  unfold begin_exec. destruct (execs t !! id) as [p|]; [|done].
  destruct (visible_exec namespace (entries t !! p)) as [e|] eqn:Ee; [|done].
  apply visible_exec_ok in Ee as [He Hns].
  destruct (ce_running e) eqn:Er; simpl; [done|]. case_bool_decide as Hexit; [done|].
  split_and!; try done. by destruct (ce_exitCode e); [destruct Hexit|].
Qed.

Lemma inv_begin t ghost i namespace id x after :
  table_inv t ghost → ghost !! i = Some None → (x, after) = begin_exec namespace id t →
  table_inv after (<[i := match x with Ok (p, _) => Some (p, false) | Err _ => None end]> ghost).
Proof.
  intros Hinv Hi Hbegin. pose proof (begin_exec_cases namespace id t) as Hcases. rewrite <- Hbegin in Hcases.
  destruct x as [[p e]|e]; [|subst after; rewrite insert_id; done].
  destruct Hcases as (_ & He & _ & Hr & Hexit & ->). destruct Hinv as [Hentry Howner Hunique].
  assert (∀ j b, ghost !! j ≠ Some (Some (p, b))) as Hfree.
  { intros j b Hj. destruct (Howner _ _ _ Hj) as (e' & He' & Hr' & _). congruence. }
  split; simpl.
  - intros q e'. destruct (decide (q = p)) as [->|Hne].
    + rewrite lookup_alter_eq, He. intros [= <-]. simpl. destruct (Hentry _ _ He) as (Hcmd & _ & _).
      split_and!; [done| |done]. intros _. exists i, false. apply lookup_insert_eq.
    + rewrite lookup_alter_ne by done. intros He'. destruct (Hentry _ _ He') as (Hcmd & Hrun & Hresize).
      split_and!; [done| |done]. intros Hr'. destruct (Hrun Hr') as (j & b & Hj). exists j, b.
      rewrite lookup_insert_ne; [done|]. intros <-. congruence.
  - intros j q b. rewrite lookup_insert_Some. intros [[<- [= <- <-]]|[Hne Hj]].
    + exists (set_running true e). rewrite lookup_alter_eq, He. done.
    + rewrite lookup_alter_ne; [by eapply Howner|]. intros <-. by eapply Hfree.
  - intros j j' q b b'. rewrite !lookup_insert_Some.
    intros [[<- Heq]|[Hne Hj]] [[<- Heq']|[Hne' Hj']]; simplify_eq; try done;
      first [by exfalso; eapply Hfree|by eapply Hunique].
Qed.

Lemma inv_end t ghost i p ended :
  table_inv t ghost → ghost !! i = Some (Some (p, ended)) →
  table_inv (update_exec end_exec p t) (<[i := None]> ghost).
Proof.
  intros [Hentry Howner Hunique] Hi. destruct (Howner _ _ _ Hi) as (e & He & _ & _). split; simpl.
  - intros q e'. destruct (decide (q = p)) as [->|Hne].
    + rewrite lookup_alter_eq, He. intros [= <-]. simpl. by destruct (Hentry _ _ He).
    + rewrite lookup_alter_ne by done. intros He'. destruct (Hentry _ _ He') as (Hcmd & Hrun & Hresize).
      split_and!; [done| |done]. intros Hr'. destruct (Hrun Hr') as (j & b & Hj). exists j, b.
      rewrite lookup_insert_ne; [done|]. intros <-. congruence.
  - intros j q b. rewrite lookup_insert_Some. intros [[_ [=]]|[Hne Hj]].
    rewrite lookup_alter_ne; [by eapply Howner|]. intros <-. by eapply Hne, Hunique.
  - intros j j' q b b'. rewrite !lookup_insert_Some. intros [[_ [=]]|[_ Hj]] [[_ [=]]|[_ Hj']]. by eapply Hunique.
Qed.

Lemma inv_register t ghost p id e :
  table_inv t ghost → entries t !! p = None →
  exec_Cmd (ce_config e) ≠ [] → ce_running e = false → ce_resize e = None →
  table_inv (register_exec p id e t) ghost.
Proof.
  intros [Hentry Howner Hunique] Hp Hcmd Hr Hresize. split; [| |done]; simpl.
  - intros q e'. rewrite lookup_insert_Some. intros [[<- <-]|[_ He']]; [|by apply Hentry].
    split_and!; [done| |]; congruence.
  - intros i q b Hi. destruct (Howner _ _ _ Hi) as (e' & He' & ?). exists e'.
    rewrite lookup_insert_ne; [done|congruence].
Qed.

Lemma exec_call t ghost i o X (c : xcmd X) x after :
  table_inv t ghost → ghost !! i = Some o → exec_pre X c o → exec_act X c t x after →
  exec_answer X c x ∧ table_inv after (<[i := exec_next X c x o]> ghost).
Proof.
  intros Hinv Hi Hpre Hact.
  assert (∀ t', entries t' = entries t → table_inv t' (<[i := o]> ghost)) as Hsame.
  { intros t' Heq. rewrite insert_id by done. by eapply inv_execs. }
  destruct c as [X c| |id e|id|ns id|p queue|p code|p|initial|queue size|p request|X]; simpl in *;
    try (by split; [|apply Hsame; subst]).
  - split; [done|]. apply Hsame. destruct c; subst after; done.
  - destruct Hact as (p & Hp & ->), Hpre as (? & ? & ? & ?). split; [done|].
    rewrite insert_id by done. by apply inv_register.
  - destruct Hact as [-> ->]. split; [|by apply Hsame]. intros e He.
    unfold lookup_exec in He. destruct (execs t !! id) as [p|]; [|done]. simpl in He. by eapply inv_entry.
  - split; [done|]. subst o. by eapply inv_begin.
  - split; [done|]. subst o after. by apply (inv_update _ _ _ _ false).
  - split; [done|]. subst o after. by apply (inv_update _ _ _ _ false).
  - destruct Hpre as [ended ->]. split; [done|]. subst after. by eapply inv_end.
Qed.

(** ** The handlers *)

Section handlers.
Context `{Validation} `{DetachKeys}.

Definition serve (r : exec_request) : xproc unit :=
  match r with
  | CreateExec ctx name config => finish (ContainerExecCreate ctx name config)
  | InspectExec ctx execID => finish (ContainerExecInspect ctx execID)
  | ResizeExec ctx execID height width => finish (ContainerExecResize ctx execID height width)
  | StartExec ctx execID streams => finish (ContainerExecStart ctx execID streams)
  | ExistsExec ctx execID => finish (ExecExists ctx execID)
  | ForgetContainer namespace containerID => call (OnCluster _ (ForgetExecs namespace containerID))
  end.

Definition served (p : xproc unit) : Prop := ∃ r, p = serve r.

Lemma owns_on_cluster {A} (p : proc A) o Q : (∀ a, Q o a) → exec_owns o (on_cluster p) Q.
Proof. intros HQ. unfold on_cluster. induction p as [a|X c k IH]; simpl; [apply HQ|]. split; [done|]. intros x _. apply IH. Qed.

Lemma ContainerExecCreate_owns ctx name config :
  exec_owns None (ContainerExecCreate ctx name config) (λ o _, o = None).
Proof.
  unfold ContainerExecCreate. destruct (valid_exec config) as [config'|e] eqn:Evalid; [|done].
  rewrite owns_bind_res. apply owns_on_cluster. intros [[deployment pod]|e]; [|done].
  destruct (named_container _ _) as [podContainer|e]; [|done].
  rewrite owns_bind_res, owns_call. split; [done|]. intros [id|e] _; [|done].
  rewrite owns_bind, owns_call. split; [|done]. split_and!; try done. simpl.
  unfold valid_exec in Evalid. destruct config as [config|]; [|done].
  case_bool_decide as Hcmd; [done|]. repeat (case_match; try done). by simplify_eq.
Qed.

Lemma run_exec_owns p entry streams :
  exec_owns (Some (p, false)) (run_exec p entry streams) (λ o _, ∃ ended, o = Some (p, ended)).
Proof.
  unfold run_exec. rewrite owns_bind, owns_call. split; [done|]. intros [pod|e] _; [|by exists false].
  destruct (_ || _); [by exists false|]. destruct (detach_keys entry streams) as [keys|e]; [|by exists false].
  rewrite owns_bind. eapply (owns_post _ _ _ _ _ (λ o _, o = Some (p, false))).
  - intros o sizes ->. rewrite owns_bind, owns_call. split; [done|].
    intros [[] [|code|e]] _; simpl; eauto.
  - unfold terminal_queue. destruct (exec_Tty _); [|done]. by do 2 (simpl; split; [done|intros ? _]).
Qed.

Lemma serve_owns r : exec_owns None (serve r) (λ o _, o = None).
Proof.
  destruct r as [ctx name config|ctx id|ctx id height width|ctx id streams|ctx id|ns cid]; simpl;
    [..|done]; unfold finish; rewrite owns_bind.
  - eapply owns_post; [|apply ContainerExecCreate_owns]. by intros o r ->.
  - unfold ContainerExecInspect. destruct ctx as [ident|]; [|done]. simpl. split; [done|].
    intros entry Hcmd. destruct (visible_exec _ entry) as [e|] eqn:Ee; [|done].
    apply visible_exec_ok in Ee as [-> _]. specialize (Hcmd e eq_refl). by destruct (exec_Cmd _).
  - unfold ContainerExecResize. destruct ctx as [ident|]; [|done]. destruct (_ || _); [done|]. simpl.
    split; [done|]. intros entry _. destruct (visible_exec _ entry) as [e|]; [|done].
    destruct (ce_resize e); [|done]. by destruct (_ && _).
  - unfold ContainerExecStart. destruct ctx as [ident|]; [|done]. rewrite owns_bind_res, owns_call.
    split; [done|]. intros [[p e]|e] _; [|done]. unfold defer. rewrite owns_bind.
    eapply owns_post; [|apply run_exec_owns]. intros o r [ended ->]. simpl. eauto.
  - unfold ExecExists. destruct ctx as [ident|]; [|done]. by simpl.
Qed.

Definition exec_pool := pool xcmd exec_table unit.
Definition exec_step : exec_pool → exec_pool → Prop := step exec_act served.
Definition no_execs : exec_pool := start {| execs := ∅; entries := ∅ |}.

Lemma exec_reachable s :
  rtc exec_step no_execs s → owned None exec_pre exec_next exec_answer table_inv s.
Proof.
  intros Hr. eapply (owned_reachable exec_act served); [| | | | |exact Hr].
  - intros p [r ->]. apply serve_owns.
  - intros. by apply inv_idle_start.
  - intros. by eapply exec_call.
  - intros. by apply inv_idle_return.
  - split; simpl; intros *; by rewrite lookup_empty.
Qed.

(** ** What never changes *)

Definition kept_exec (t after : exec_table) : Prop :=
  ∀ p e, entries t !! p = Some e →
    ∃ e', entries after !! p = Some e' ∧ same_exec e e' ∧
      ∀ code, ce_exitCode e = Some code → ce_exitCode e' = Some code.

Lemma kept_refl t after : entries after = entries t → kept_exec t after.
Proof. intros Heq p e He. exists e. rewrite Heq. by split. Qed.

Lemma kept_update t f q :
  (∀ e, entries t !! q = Some e → same_exec e (f e) ∧
     ∀ code, ce_exitCode e = Some code → ce_exitCode (f e) = Some code) →
  kept_exec t (update_exec f q t).
Proof.
  intros Hf p e He. simpl. destruct (decide (p = q)) as [->|Hne].
  - exists (f e). rewrite lookup_alter_eq, He. split; [done|]. by apply Hf.
  - exists e. by rewrite lookup_alter_ne.
Qed.

Lemma exec_act_keeps t ghost i o X (c : xcmd X) x after :
  table_inv t ghost → ghost !! i = Some o → exec_pre X c o → exec_act X c t x after → kept_exec t after.
Proof.
  intros Hinv Hi Hpre Hact.
  destruct c as [X c| |id e|id|ns id|p queue|p code|p|initial|queue size|p request|X]; simpl in *;
    try (by apply kept_refl; subst); try (by subst after; apply kept_update).
  - apply kept_refl. by destruct c; subst after.
  - destruct Hact as (p & Hp & ->). intros q e' He'. exists e'. simpl.
    rewrite lookup_insert_ne; [done|congruence].
  - apply kept_refl. by destruct Hact as [_ ->].
  - pose proof (begin_exec_cases ns id t) as Hcases. rewrite <- Hact in Hcases.
    destruct x as [[p e]|e]; [|by apply kept_refl; subst].
    destruct Hcases as (_ & _ & _ & _ & _ & ->). by apply kept_update.
  - subst o after. apply kept_update. intros e He. split; [done|]. intros code' Hcode.
    destruct (inv_owner _ _ Hinv _ _ _ Hi) as (e' & He' & _ & Hexit). specialize (Hexit eq_refl). congruence.
Qed.

Lemma exec_step_keeps s s' :
  owned None exec_pre exec_next exec_answer table_inv s → exec_step s s' → kept_exec (shared s) (shared s').
Proof.
  intros (ghost & Hinv & Hall) Hstep.
  destruct Hstep as [i p Hi Hp|i X c k x after Hi Hact|i a Hi]; try (by apply kept_refl).
  specialize (Hall i). rewrite Hi in Hall. destruct Hall as (o & Ho & Hpre & _). by eapply exec_act_keeps.
Qed.

(** C17: a command that was created runs at most once at a time, and not again once it has
    ended.  In every state that any number of goroutines can reach by creating, inspecting,
    starting, resizing and forgetting commands in any order: two goroutines that stream a
    command stream different ones; the entry of a command that is streamed is running and
    has no exit code; an entry has a terminal only while it runs, and none runs when no
    goroutine is left; the index into the command is never out of range; and no later step
    changes what a command was created with, or the exit code that it ended with. *)
Theorem execs_run_once_at_a_time s :
  rtc exec_step no_execs s →
  (∀ i j p r r' k k', running s !! i = Some (Call (StreamPod p r) k) →
     running s !! j = Some (Call (StreamPod p r') k') → i = j) ∧
  (∀ i p r k, running s !! i = Some (Call (StreamPod p r) k) →
     ∃ e, entries (shared s) !! p = Some e ∧ ce_running e = true ∧ ce_exitCode e = None) ∧
  (∀ p e, entries (shared s) !! p = Some e →
     (ce_resize e ≠ None → ce_running e = true) ∧ (running s = ∅ → ce_running e = false)) ∧
  (∀ i X k, running s !! i ≠ Some (Call (Panic X) k)) ∧
  (∀ s', exec_step s s' → kept_exec (shared s) (shared s')).
Proof.
  intros Howned%exec_reachable. pose proof Howned as (ghost & Hinv & Hall).
  assert (∀ i p r k, running s !! i = Some (Call (StreamPod p r) k) → ghost !! i = Some (Some (p, false))) as Hstream.
  { intros i p r k Hi. specialize (Hall i). rewrite Hi in Hall. by destruct Hall as (o & Ho & -> & _). }
  split_and!.
  - intros i j p r r' k k' Hi%Hstream Hj%Hstream. by eapply inv_unique.
  - intros i p r k Hi%Hstream. destruct (inv_owner _ _ Hinv _ _ _ Hi) as (e & ? & ? & ?). eauto.
  - intros p e He. destruct (inv_entry _ _ Hinv _ _ He) as (_ & Hrun & Hresize). split; [done|].
    intros Hnone. destruct (ce_running e); [|done]. destruct (Hrun eq_refl) as (i & b & Hi).
    specialize (Hall i). by rewrite Hnone, lookup_empty, Hi in Hall.
  - intros i X k Hi. specialize (Hall i). rewrite Hi in Hall. by destruct Hall as (o & _ & [] & _).
  - intros s' Hstep. by apply exec_step_keeps.
Qed.

(** ** Where commands run *)

(** The entries that the table holds are of the namespace that asked for them. *)
Definition exec_rely : rely (cmd := xcmd) := λ h X c,
  match c in xcmd X return X → Prop with
  | OnCluster _ c => api_rely [] _ c
  | BeginExec namespace _ => λ r, match r with Ok (_, e) => ce_namespace e = namespace | Err _ => True end
  | _ => λ _, True
  end.

Lemma begin_exec_rely namespace id t : exec_rely [] _ (BeginExec namespace id) (begin_exec namespace id t).1.
Proof.
  pose proof (begin_exec_cases namespace id t) as Hcases. simpl.
  destruct (begin_exec namespace id t) as [[[p e]|e] after]; simpl; [|done]. by destruct Hcases as (_ & _ & ? & _).
Qed.

(** A command is registered for a container of the namespace, found by the name, and the
    Pod that was seen running for it. *)
Definition exec_created (namespace : string) (name : string) (config : ExecCreateRequest) (e : containerExec)
    (h : history xcmd) : Prop :=
  ∃ (w : containerWorkload) (pod : Pod) pods (c : Container),
    Namespace w = namespace ∧ found_by name w ∧
    Event _ (OnCluster _ (KList KPod namespace (app_selector w))) (Ok pods) ∈ h ∧ pod ∈ pods ∧
    Phase pod = "Running" ∧ c ∈ pod_Containers pod ∧ Ctr_Name c = Name w ∧
    ce_namespace e = namespace ∧ ce_containerID e = DockerIDFromUID (UID w) ∧ ce_podName e = Name pod ∧
    ce_podUID e = UID pod ∧ ce_container e = Name w ∧ ce_config e = config.

(** A stream runs the command of the entry that was begun, in the Pod that the entry names,
    just seen running with the identity it had at the creation. *)
Definition exec_streams (namespace execID : string) (streams : ExecStartConfig) (p : nat) (r : StreamRequest)
    (h : history xcmd) : Prop :=
  ∃ e (pod : Pod), Event _ (BeginExec namespace execID) (Ok (p, e)) ∈ h ∧
    Event _ (OnCluster _ (KGet KPod namespace (ce_podName e))) (Ok pod) ∈ h ∧
    UID pod = ce_podUID e ∧ Phase pod = "Running" ∧
    st_Namespace r = namespace ∧ st_Pod r = ce_podName e ∧ st_Container r = ce_container e ∧
    st_Command r = exec_Cmd (ce_config e) ∧ st_TTY r = exec_Tty (ce_config e) ∧
    (st_Stdin r = true → exec_AttachStdin (ce_config e) = true ∧ es_Stdin streams = true) ∧
    (st_Stderr r = true → st_TTY r = false).

Definition exec_confined (namespace : string) (request : exec_request) : guard (cmd := xcmd) := λ h _ c,
  match c with
  | OnCluster _ c => reads_in namespace [] _ c
  | RegisterExec _ e =>
      match request with
      | CreateExec _ name (Some config) => exec_created namespace name config e h
      | _ => False
      end
  | BeginExec ns id => ns = namespace
  | StreamPod p r =>
      match request with StartExec _ execID streams => exec_streams namespace execID streams p r h | _ => False end
  | _ => True
  end.

Lemma runningContainerPod_wp id name h :
  wp api_rely (reads_in (id_namespace id)) (runningContainerPod (Some id) name) h (λ h' r, ∀ w pod, r = Ok (w, pod) →
    Namespace w = id_namespace id ∧ found_by name w ∧ Phase pod = "Running" ∧
    ∃ pods, Event _ (KList KPod (id_namespace id) (app_selector w)) (Ok pods) ∈ h' ∧ pod ∈ pods).
Proof.
  unfold runningContainerPod. rewrite wp_bind_res. eapply wp_post; [|apply findContainer_wp].
  intros h1 [w|e]; [|by intros _ w pod]. intros (_ & Hns & Hfound). rewrite wp_bind, wp_call. rewrite Hns.
  split; [done|]. intros [pods|e] _; [|by intros w' pod]. destruct (List.find _ pods) as [pod|] eqn:Epod; [|by intros w' pod].
  apply find_some in Epod as [Hin [Hphase%bool_decide_eq_true _]%andb_prop]. intros w' pod' [= <- <-].
  split_and!; try done. exists pods. split; [by left|by apply list_elem_of_In].
Qed.

Lemma ContainerExecCreate_wp id name config h :
  wp exec_rely (exec_confined (id_namespace id) (CreateExec (Some id) name config))
    (ContainerExecCreate (Some id) name config) h (λ _ _, True).
Proof.
  unfold ContainerExecCreate. destruct (valid_exec config) as [config'|e] eqn:Evalid; [|done].
  assert (config = Some config') as ->.
  { unfold valid_exec in Evalid. destruct config; [|done]. by repeat (case_match; simplify_eq). }
  rewrite wp_bind_res. eapply wp_post; [|refine (wp_embed OnCluster api_rely (reads_in (id_namespace id)) exec_rely
    _ _ _ h [] _ _ (runningContainerPod_wp id name [])); [by intros h1 h2 X [] x Hx|by intros h1 X [] Hc]].
  intros h2 [[w pod]|e] (h1 & -> & Hpost); [|done].
  destruct (Hpost w pod eq_refl) as (Hns & Hfound & Hphase & pods & Hin & Hpod).
  destruct (named_container _ _) as [c|e] eqn:Ec; [|done]. unfold named_container in Ec.
  destruct (List.find _ (pod_Containers pod)) as [c'|] eqn:Efind; [|done]. injection Ec as ->.
  apply find_some in Efind as [Hc Hname%bool_decide_eq_true].
  rewrite wp_bind_res, wp_call. split; [done|]. intros [execID|e] _; [|done].
  rewrite wp_bind, wp_call. split; [|done]. exists w, pod, pods, c. simpl. split_and!; try done.
  - right. apply elem_of_app. left. apply list_elem_of_fmap. by eexists (Event _ _ _).
  - by apply list_elem_of_In.
Qed.

Lemma run_exec_wp namespace ctx execID p e streams h :
  ce_namespace e = namespace → Event _ (BeginExec namespace execID) (Ok (p, e)) ∈ h →
  wp exec_rely (exec_confined namespace (StartExec ctx execID streams)) (run_exec p e streams) h (λ _ _, True).
Proof.
  intros Hns Hbegin. unfold run_exec. rewrite wp_bind, wp_call, Hns. split; [done|]. intros [pod|err] _; [|done].
  destruct (_ || _) eqn:Esame; [done|].
  apply orb_false_iff in Esame as [Huid%negb_false_iff%bool_decide_eq_true Hphase%negb_false_iff%bool_decide_eq_true].
  destruct (detach_keys e streams) as [keys|err]; [|done]. rewrite wp_bind.
  assert (∀ sizes h1, Event _ (OnCluster _ (KGet KPod namespace (ce_podName e))) (Ok pod) :: h `suffix_of` h1 →
    exec_streams namespace execID streams p (stream_request e streams keys sizes) h1) as Hstreams.
  { intros sizes h1 Hs. exists e, pod. split_and!; try done; simpl.
    - eapply event_later; [exact Hs|by right].
    - eapply event_later; [exact Hs|by left].
    - by intros [? ?]%andb_prop.
    - intros [[_ Hr%negb_true_iff]%andb_prop _]%andb_prop. done. }
  eapply wp_post; [|apply (wp_suffix _ _ _ _ (λ _ _, True))].
  - intros h1 sizes [_ Hs]. rewrite wp_bind, wp_call. split; [by apply Hstreams|]. intros [[] [|code|err]] _; by simpl.
  - unfold terminal_queue. destruct (exec_Tty _); by simpl.
Qed.

(** C18: what is asked about commands stays in the namespace of the client, whatever the
    cluster answers and whoever acts meanwhile: a command is registered only for a
    container of the namespace that the name finds and a Pod that was just listed running
    for it; and it is streamed only from its own entry, which is of the namespace, in the
    Pod that was registered, and only after that Pod was seen to have the identity
    registered and to run.  Without an identity nothing happens. *)
Theorem exec_requests_confined request ctx h h' :
  match request with
  | CreateExec c _ _ | InspectExec c _ | ResizeExec c _ _ _ | StartExec c _ _ | ExistsExec c _ => c = ctx
  | ForgetContainer _ _ => False
  end →
  exec (serve request) h h' tt → answered exec_rely h h' →
  match ctx with
  | Some id => guarded (exec_confined (id_namespace id) request) h h'
  | None => match request with CreateExec _ _ _ => True | _ => h' = h end
  end.
Proof.
  intros Hctx Hexec Hans. destruct ctx as [id|]; [|by destruct request; subst; [|apply exec_inv in Hexec; destruct Hexec..|]].
  assert (wp exec_rely (exec_confined (id_namespace id) request) (serve request) h (λ _ _, True)) as Hwp.
  2: by destruct (wp_exec _ _ _ _ _ _ _ Hwp Hexec Hans).
  destruct request as [c name config|c execID|c execID height width|c execID streams|c execID|ns cid]; [subst c..|done];
    cbn [serve]; unfold finish; rewrite wp_bind.
  - apply ContainerExecCreate_wp.
  - simpl. split; [done|]. intros entry _. destruct (visible_exec _ entry); [|done]. by destruct (exec_Cmd _).
  - simpl. destruct (_ || _); [done|]. simpl. split; [done|]. intros entry _. destruct (visible_exec _ entry); [|done].
    destruct (ce_resize _); [|done]. by destruct (_ && _).
  - cbn [ContainerExecStart]. rewrite wp_bind_res, wp_call. split; [done|]. intros [[p e]|e] Hr; [|done].
    rewrite wp_defer. eapply wp_post; [|apply run_exec_wp; [exact Hr|by left]]. by simpl.
  - by simpl.
Qed.
End handlers.

(** ** Concrete inputs *)

#[local] Existing Instance demo_validation.
#[local] Instance demo_keys : DetachKeys := {| ToBytes s := if bool_decide (s = "ctrl-q") then Some "q" else None |}.

Definition demo_container : Container := {|
  Ctr_Name := "web"; Ctr_Image := "app"; Ctr_Command := []; Ctr_Args := []; Ctr_WorkingDir := ""; Ctr_Ports := [];
  Ctr_Env := []; Ctr_Resources := {| Limits := ∅; Requests := ∅ |}; Ctr_VolumeMounts := [];
  Ctr_ReadinessProbe := None; Ctr_TTY := false; Ctr_Stdin := false; Ctr_ImagePullPolicy := "";
  Ctr_SecurityContext := None |}.

Definition demo_pod : Pod := {|
  pod_meta := sample_meta "acme" "web-1" "b001"; Phase := "Running"; ContainerStatuses := []; pod_Volumes := [];
  pod_Containers := [demo_container]; NodeName := "node-1"; PodIP := "10.0.0.9"; StartTime := None;
  Pod_Message := ""; Pod_Reason := "" |}.

Definition exec_cluster : cluster :=
  set_db KPod [{| pod_meta := meta_set_labels {["app" := "web"]} (pod_meta demo_pod); Phase := "Running";
                  ContainerStatuses := []; pod_Volumes := []; pod_Containers := [demo_container];
                  NodeName := "node-1"; PodIP := "10.0.0.9"; StartTime := None; Pod_Message := ""; Pod_Reason := "" |}]
    sample_cluster.

Definition demo_answers X (c : xcmd X) (t : exec_table) : option (X * exec_table) :=
  match c in xcmd X return option (X * exec_table) with
  | OnCluster _ c =>
      Some ((handle _ c exec_cluster).1, match c with ForgetExecs ns cid => forget_execs ns cid t | _ => t end)
  | RandomID => Some (Ok "e1", t)
  | RegisterExec id e => Some (tt, register_exec (fresh (dom (entries t))) id e t)
  | LookupExec id => Some (lookup_exec id t, t)
  | BeginExec ns id => Some (begin_exec ns id t)
  | SetResize p queue => Some (tt, update_exec (set_resize (Some queue)) p t)
  | SetExitCode p code => Some (tt, update_exec (set_exit_code code) p t)
  | EndExec p => Some (tt, update_exec end_exec p t)
  | MakeQueue _ => Some (7, t)
  | SendSize _ _ => Some (Ok tt, t)
  | StreamPod _ _ => Some ((false, StreamExited 3), t)
  | Panic _ => None
  end.

Lemma demo_answers_act X (c : xcmd X) t x after : demo_answers X c t = Some (x, after) → exec_act X c t x after.
Proof.
  destruct c as [X c| |id e|id|ns id|p queue|p code|p|initial|queue size|p request|X]; simpl; intros Heq; simplify_eq; try done.
  - by destruct c.
  - eexists. split; [|done]. apply not_elem_of_dom, is_fresh.
Qed.

Definition demo_exec : ExecCreateRequest := {|
  exec_Cmd := ["ls"; "-l"]; exec_User := ""; exec_Privileged := false; exec_WorkingDir := ""; exec_Env := [];
  exec_DetachKeys := "ctrl-q"; exec_AttachStdin := true; exec_AttachStdout := true; exec_AttachStderr := true;
  exec_Tty := true; exec_ConsoleSize := Some (24, 80)%Z |}.

Definition demo_id : Identity :=
  {| Identity.Namespace := "acme"; Organization := "Acme"; CommonName := "alice"; Anonymous := false |}.

(** What a goroutine streams. *)
Definition streaming (p : xproc unit) : option StreamRequest :=
  match p with
  | @Call _ _ _ c _ => match c with StreamPod _ r => Some r | _ => None end
  | Ret _ => None
  end.

Definition streamed (s : exec_pool) (i : nat) : option StreamRequest := running s !! i ≫= streaming.

(** One goroutine creates a command; a second one starts it and streams it; a third one
    tries to start it again. *)
Definition demo_streaming : exec_pool :=
  Nat.iter 2 (advance demo_answers 3) (begin 3 (serve (StartExec (Some demo_id) "e1"
    {| es_Stdin := true; es_Stdout := true; es_Stderr := true; es_ConsoleSize := None |}))
  (Nat.iter 4 (advance demo_answers 2) (begin 2 (serve (StartExec (Some demo_id) "e1"
    {| es_Stdin := true; es_Stdout := true; es_Stderr := true; es_ConsoleSize := None |}))
  (Nat.iter 5 (advance demo_answers 1) (begin 1 (serve (CreateExec (Some demo_id) "web" (Some demo_exec))) no_execs))))).

Lemma execs_run_once_at_a_time_witness :
  dom (running demo_streaming) = {[2]} ∧
  st_Command <$> streamed demo_streaming 2 = Some ["ls"; "-l"] ∧
  ∃ e, entries (shared demo_streaming) !! 0 = Some e ∧ ce_running e = true ∧ ce_exitCode e = None.
Proof.
  assert (rtc exec_step no_execs demo_streaming) as Hr.
  { unfold demo_streaming.
    etrans; [|apply (advance_steps _ _ _ demo_answers_act)]. etrans; [|apply begin_steps; by eexists].
    etrans; [|apply (advance_steps _ _ _ demo_answers_act)]. etrans; [|apply begin_steps; by eexists].
    etrans; [|apply (advance_steps _ _ _ demo_answers_act)]. apply begin_steps. by eexists. }
  split; [by vm_compute|]. split; [by vm_compute|].
  destruct (execs_run_once_at_a_time demo_streaming Hr) as (_ & Hstream & _).
  eapply (Hstream 2 0). vm_compute. reflexivity.
Defined.

Lemma demo_answers_rely h X (c : xcmd X) t x after : demo_answers X c t = Some (x, after) → exec_rely h X c x.
Proof.
  destruct c as [X c| |id e|id|ns id|p queue|p code|p|initial|queue size|p request|X]; intros Heq; try done.
  - simpl in Heq. injection Heq as <- _. apply handle_rely.
  - injection Heq as Heq. pose proof (begin_exec_rely ns id t) as Hrely. rewrite Heq in Hrely. apply Hrely.
Qed.

(** The table after the first goroutine, and what the second one then does. *)
Definition demo_table : exec_table :=
  shared (Nat.iter 5 (advance demo_answers 1) (begin 1 (serve (CreateExec (Some demo_id) "web" (Some demo_exec))) no_execs)).

Definition demo_start : exec_request :=
  StartExec (Some demo_id) "e1" {| es_Stdin := true; es_Stdout := true; es_Stderr := true; es_ConsoleSize := None |}.

Lemma exec_requests_confined_witness :
  match play demo_answers (serve demo_start) [] demo_table with
  | Some (r, h, t) =>
      guarded (exec_confined "acme" demo_start) [] h ∧ length h = 7 ∧
      ce_exitCode <$> entries t !! 0 = Some (Some 3%Z)
  | None => False
  end.
Proof.
  destruct (play demo_answers (serve demo_start) [] demo_table) as [[[[] h] t]|] eqn:Hplay; [|by vm_compute in Hplay].
  split; [|by vm_compute in Hplay; injection Hplay as <- <-].
  refine (exec_requests_confined demo_start (Some demo_id) [] h eq_refl _ _); [by eapply play_exec|].
  eapply play_answered; [|exact Hplay]. intros. by eapply demo_answers_rely.
Defined.

(** A client that detaches leaves a command that neither runs nor has ended: it can be
    started again, and the command runs a second time. *)
Definition detaching X (c : xcmd X) (t : exec_table) : option (X * exec_table) :=
  match c in xcmd X return option (X * exec_table) with
  | StreamPod _ _ => Some ((true, StreamDone), t)
  | c => demo_answers _ c t
  end.

Example detached_exec_starts_again :
  match play detaching (serve demo_start) [] demo_table with
  | Some (_, _, t) =>
      match play detaching (serve demo_start) [] t with
      | Some (_, h, _) => existsb (λ e, match ev_cmd e with StreamPod _ _ => true | _ => false end) h = true
      | None => False
      end
  | None => False
  end.
Proof. by vm_compute. Qed.
