(* ===== verification/Attach.v ===== *)
(** * Attach: the streams of clients that are attached to containers

    [core/translator/container_attach.go]: the table of the terminals that are attached, how
    a resize reaches them, and the attaching itself, from the wait for a Pod to the end of
    its stream.  [attachMu] is modelled step by step, since a resize sends to channels while
    it holds the mutex. *)

From S2P Require Import Prelude GoStrings Errors Prog Kube Docker Identity Validation Workload Services Threads Exec.

Local Open Scope string_scope.

(** ** Data *)

(** [containerAttachSession] is known by its pointer.  A channel of capacity one holds a
    size or none. *)
Record attach_state := {
  attaches : gmap string (gset nat);
  sizes : gmap nat TerminalSize;
  allocated : gset nat;
  attachMu : bool
}.

Definition no_attaches : attach_state :=
  {| attaches := ∅; sizes := ∅; allocated := ∅; attachMu := false |}.

(** [backend.ContainerAttachConfig] *)
Record ContainerAttachConfig := {
  UseStdin : bool; UseStdout : bool; UseStderr : bool;
  at_Stream : bool; at_Logs : bool; at_DetachKeys : string;
  has_GetStreams : bool
}.

(** What [streamPod] is asked for, to attach. *)
Record AttachRequest := {
  ar_Namespace : string; ar_Pod : string; ar_Container : string;
  ar_Stdin : bool; ar_Stdout : bool; ar_Stderr : bool; ar_TTY : bool;
  ar_Sizes : option nat
}.

Definition with_attaches (a : gmap string (gset nat)) (s : attach_state) : attach_state :=
  {| attaches := a; sizes := sizes s; allocated := allocated s; attachMu := attachMu s |}.
Definition with_sizes (c : gmap nat TerminalSize) (s : attach_state) : attach_state :=
  {| attaches := attaches s; sizes := c; allocated := allocated s; attachMu := attachMu s |}.
Definition with_mutex (b : bool) (s : attach_state) : attach_state :=
  {| attaches := attaches s; sizes := sizes s; allocated := allocated s; attachMu := b |}.

(** [d.attaches[key]], which is nil for a key that is not there. *)
Definition sessions_of (key : string) (s : attach_state) : gset nat := default ∅ (attaches s !! key).

Definition add_session (key : string) (session : nat) (s : attach_state) : attach_state :=
  {| attaches := <[key := {[session]} ∪ sessions_of key s]> (attaches s); sizes := sizes s;
     allocated := {[session]} ∪ allocated s; attachMu := attachMu s |}.

Definition remove_session (key : string) (session : nat) (s : attach_state) : attach_state :=
  let left := sessions_of key s ∖ {[session]} in
  with_attaches (if decide (left = ∅) then delete key (attaches s) else <[key := left]> (attaches s)) s.

(** ** Commands *)

Inductive acmd : Type → Type :=
| OnCluster (X : Type) (c : cmd X) : acmd X
| LockAttach : acmd unit
| UnlockAttach : acmd unit
| AddSession (key : string) : acmd nat                     (* a new session, with its channel *)
| RemoveSession (key : string) (session : nat) : acmd unit
| Sessions (key : string) : acmd (list nat)                (* [range], in any order *)
| TrySend (session : nat) (size : TerminalSize) : acmd bool   (* select with a default *)
| TryReceive (session : nat) : acmd unit
| Send (session : nat) (size : TerminalSize) : acmd unit   (* blocks while the channel is full *)
| NextSize (session : nat) : acmd TerminalSize             (* blocks while it is empty *)
| GetStreams (stderr : bool) : acmd (res unit)
| CtxAlive : acmd bool                                     (* [ctx.Err() == nil] *)
| WriteError (e : error) : acmd unit                       (* to the error output *)
| CloseStdin : acmd unit
| OpenLogs (namespace pod container : string) : acmd (res unit)
| CopyLogs (to_stdout : bool) : acmd (res unit)
| CloseLogs : acmd unit
| StreamAttach (request : AttachRequest) : acmd (res unit)
| ExitTick : acmd bool                                     (* the ticker, or the end of the wait *)
| StillWaiting (X : Type) : acmd X.                        (* is not answered *)

Abbreviation aproc := (prog acmd).

Definition on_cluster {A} : proc A → aproc A := embed OnCluster.

(** ** Resizing *)

Section operations.
Context `{Validation} `{DockerJSON}.

Definition attach_key (w : containerWorkload) : string := Namespace w +:+ "/" +:+ UID w.

(** The body of the loop over the sessions: the size replaces one that was not read. *)
Definition resize_session (size : TerminalSize) (session : nat) : aproc (res unit) :=
  do sent <- call (TrySend session size);
  if sent : bool then Ret (Ok tt)
  else
    do _ <- call (TryReceive session);
    do _ <- call (Send session size);
    Ret (Ok tt).

Definition ContainerResize (ctx : context) (name : string) (height width : Z) : aproc (res unit) :=
  if (65535 <? height)%Z || (65535 <? width)%Z
  then Ret (Err (InvalidArgument (errors_New "container terminal dimensions exceed Kubernetes limits")))
  else
    do? deployment <- on_cluster (findContainer ctx name);
    do _ <- call LockAttach;
    defer (call UnlockAttach)
      (do sessions <- call (Sessions (attach_key deployment));
       if bool_decide (sessions = [])
       then Ret (Err (Conflict (errors_New "container %s has no active TTY attach")))
       else for_each sessions (resize_session {| term_Height := height; term_Width := width |})).

(** ** Attaching *)

(** A status that decides the wait: without a Pod if the container has ended, unless its
    output is replayed. *)
Definition attach_status (autoRemove replayExited : bool) (pod : Pod) (status : ContainerStatus) :
    option (option Pod) :=
  if bool_decide (is_Some (CS_Terminated status)) || autoRemove && bool_decide (is_Some (CS_LastTerminated status))
  then Some (if replayExited && bool_decide (is_Some (CS_Terminated status)) then Some pod else None)
  else if bool_decide (Phase pod = "Running") && bool_decide (is_Some (CS_Running status)) then Some (Some pod)
  else None.

(** The first that decides, of the statuses of the container in the Pods. *)
Definition attach_scan (autoRemove replayExited : bool) (containerName : string) (pods : list Pod) :
    option (option Pod) :=
  head (flat_map (λ pod,
    omap (λ status, if bool_decide (CS_Name status = containerName)
                    then attach_status autoRemove replayExited pod status else None)
      (ContainerStatuses pod)) pods).

Section waiting.
Context (deployment : containerWorkload) (autoRemove : bool).

(** The loop of [waitAttachPod], for [n] more ticks. *)
Fixpoint wait_pod (n : nat) (replayExited : bool) : aproc (res (option Pod)) :=
  do refreshed <- on_cluster (refreshWorkload deployment);
  match refreshed with
  | Err e =>
      if IsNotFound e
      then Ret (if autoRemove then Ok None else Err (NotFound (errors_New "container %s no longer exists")))
      else Ret (Err (kubeError e))
  | Ok _ =>
      do? pods <- on_cluster (containerPods deployment);
      match attach_scan autoRemove replayExited (Name deployment) pods with
      | Some pod => Ret (Ok pod)
      | None =>
          do? _ <- call (OnCluster _ WaitTick);
          match n with
          | O => call (StillWaiting _)
          | S n => wait_pod n replayExited
          end
      end
  end.

(** The loop of [attachTargetExited]. *)
Fixpoint wait_exit (n : nat) (podName : string) : aproc bool :=
  do pod <- call (OnCluster _ (KGet KPod (Namespace deployment) podName));
  let exited :=
    match pod with
    | Err e => IsNotFound e && autoRemove
    | Ok pod => existsb (λ status, bool_decide (CS_Name status = Name deployment) &&
                           (bool_decide (is_Some (CS_Terminated status)) ||
                            autoRemove && bool_decide (is_Some (CS_LastTerminated status))))
                  (ContainerStatuses pod)
    end in
  if exited : bool then Ret true
  else
    do tick <- call ExitTick;
    if tick : bool then
      match n with
      | O => call (StillWaiting _)
      | S n => wait_exit n podName
      end
    else Ret false.
End waiting.

Definition waitAttachPod (n : nat) (deployment : containerWorkload) (replayExited : bool) : aproc (res (option Pod)) :=
  match containerMetadata deployment with
  | Err e => Ret (Err e)
  | Ok (_, hostConfig) => wait_pod deployment (AutoRemove hostConfig) n replayExited
  end.

Definition attachTargetExited (n : nat) (deployment : containerWorkload) (podName : string) : aproc bool :=
  match containerMetadata deployment with
  | Err _ => Ret false
  | Ok (_, hostConfig) =>
      do alive <- call CtxAlive;
      if alive : bool then wait_exit deployment (AutoRemove hostConfig) n podName else Ret false
  end.

Definition attach_request (config : ContainerAttachConfig) (container : Container) (pod : Pod)
    (session : option nat) : AttachRequest :=
  let tty := Ctr_TTY container in
  {| ar_Namespace := Namespace pod; ar_Pod := Name pod; ar_Container := Ctr_Name container;
     ar_Stdin := UseStdin config;
     ar_Stdout := UseStdout config || (tty && UseStderr config);
     ar_Stderr := UseStderr config && negb tty;
     ar_TTY := tty; ar_Sizes := session |}.

(** What follows the streams, up to the deferred functions. *)
Definition attach_pod (n : nat) (config : ContainerAttachConfig) (deployment : containerWorkload)
    (container : Container) (session : option nat) : aproc (res unit) :=
  let output_only := negb (Ctr_TTY container) && negb (UseStdin config) in
  do? pod <- waitAttachPod n deployment output_only;
  match pod with
  | None => Ret (Ok tt)
  | Some pod =>
      if output_only then
        do opened <- call (OpenLogs (Namespace pod) (Name pod) (Ctr_Name container));
        match opened with
        | Err e => Ret (Err (kubeError e))
        | Ok _ => defer (call CloseLogs) (call (CopyLogs (UseStdout config)))
        end
      else
        do r <- call (StreamAttach (attach_request config container pod session));
        match r with
        | Ok _ => Ret (Ok tt)
        | Err e =>
            do exited <- attachTargetExited n deployment (Name pod);
            Ret (if exited : bool then Ok tt else Err e)
        end
  end.

(** The streams and their deferred function. *)
Definition attach_streams (n : nat) (config : ContainerAttachConfig) (deployment : containerWorkload)
    (container : Container) (session : option nat) : aproc (res unit) :=
  do? _ <- call (GetStreams (negb (Ctr_TTY container)));
  do attachErr <- attach_pod n config deployment container session;
  do _ <- match attachErr with
          | Ok _ => Ret tt
          | Err e => do alive <- call CtxAlive; if alive : bool then call (WriteError e) else Ret tt
          end;
  do _ <- call CloseStdin;
  Ret attachErr.

(** [n] bounds the ticks of the waits. *)
Definition ContainerAttach (n : nat) (ctx : context) (name : string) (config : option ContainerAttachConfig) :
    aproc (res unit) :=
  match config with
  | None => Ret (Err (InvalidArgument (errors_New "attach streams are required")))
  | Some config =>
      if negb (has_GetStreams config)
      then Ret (Err (InvalidArgument (errors_New "attach streams are required")))
      else if negb (at_Stream config) || at_Logs config || negb (bool_decide (at_DetachKeys config = ""))
      then Ret (Err (Unsupported
             (errors_New "attach requires a live stream without historical logs or detach keys")))
      else
        do? deployment <- on_cluster (findContainer ctx name);
        match namedContainer (Pod_Spec (Template deployment)) (Name deployment) with
        | Err e => Ret (Err e)
        | Ok container =>
            if UseStdin config && negb (Ctr_Stdin container)
            then Ret (Err (InvalidArgument (errors_New "container stdin was not enabled at creation")))
            else if Ctr_TTY container then
              let key := attach_key deployment in
              do _ <- call LockAttach;
              do session <- call (AddSession key);
              do _ <- call UnlockAttach;
              defer (do _ <- call LockAttach; do _ <- call (RemoveSession key session); call UnlockAttach)
                (attach_streams n config deployment container (Some session))
            else attach_streams n config deployment container None
        end
  end.
End operations.
