(* ===== verification/AttachProps.v ===== *)
(** * AttachProps: resizing attached terminals never blocks

    However the goroutines that attach, resize and read sizes interleave: the table holds
    exactly the terminals that are attached, a resize that holds the mutex always gets on,
    and one that succeeds has reached every terminal. *)

From S2P Require Import Prelude GoStrings Errors Prog Kube Cluster Docker Identity Validation Workload Services.
From S2P Require Import Threads Exec Attach.

Local Open Scope string_scope.

(** ** The shared state *)

Definition attach_act X (c : acmd X) (s : attach_state) (x : X) (after : attach_state) : Prop :=
  match c in acmd X return X → Prop with
  | LockAttach => λ _, attachMu s = false ∧ after = with_mutex true s
  | UnlockAttach => λ _, after = with_mutex false s
  | AddSession key => λ session, (session ∉ allocated s) ∧ after = add_session key session s
  | RemoveSession key session => λ _, after = remove_session key session s
  | Sessions key => λ l, (l ≡ₚ elements (sessions_of key s)) ∧ after = s
  | TrySend session size => λ sent : bool,
      if sent then sizes s !! session = None ∧ after = with_sizes (<[session := size]> (sizes s)) s
      else is_Some (sizes s !! session) ∧ after = s
  | TryReceive session => λ _, after = with_sizes (delete session (sizes s)) s
  | Send session size => λ _, sizes s !! session = None ∧ after = with_sizes (<[session := size]> (sizes s)) s
  | NextSize session => λ size, sizes s !! session = Some size ∧ after = with_sizes (delete session (sizes s)) s
  | StillWaiting _ => λ _, False
  | _ => λ _, after = s
  end x.

(** The commands that need the mutex. *)
Definition in_section {X} (c : acmd X) : bool :=
  match c with
  | UnlockAttach | AddSession _ | RemoveSession _ _ | Sessions _ | TrySend _ _ | TryReceive _ | Send _ _ => true
  | _ => false
  end.

(** ** What a goroutine owns *)

(** The mutex, a session that it attached, and a channel that it just emptied. *)
Record attach_owned := {
  own_lock : bool; own_session : option (string * nat); own_drained : option nat
}.

Definition nothing_owned : attach_owned := {| own_lock := false; own_session := None; own_drained := None |}.

Definition attach_pre X (c : acmd X) (o : attach_owned) : Prop :=
  own_lock o = in_section c ∧
  match c with
  | LockAttach => own_drained o = None
  | AddSession _ => own_session o = None
  | RemoveSession key session => own_session o = Some (key, session)
  | Send session _ => own_drained o = Some session
  | _ => True
  end.

Definition attach_next X (c : acmd X) : X → attach_owned → attach_owned :=
  match c in acmd X return X → attach_owned → attach_owned with
  | LockAttach => λ _ o, {| own_lock := true; own_session := own_session o; own_drained := own_drained o |}
  | UnlockAttach => λ _ o, {| own_lock := false; own_session := own_session o; own_drained := None |}
  | AddSession key => λ session o, {| own_lock := own_lock o; own_session := Some (key, session); own_drained := own_drained o |}
  | RemoveSession _ _ => λ _ o, {| own_lock := own_lock o; own_session := None; own_drained := own_drained o |}
  | TrySend _ _ | Send _ _ => λ _ o, {| own_lock := own_lock o; own_session := own_session o; own_drained := None |}
  | TryReceive session => λ _ o, {| own_lock := own_lock o; own_session := own_session o; own_drained := Some session |}
  | _ => λ _ o, o
  end.

Abbreviation attach_owns := (owns attach_pre attach_next (λ _ _ _, True)).

Record attach_inv (s : attach_state) (ghost : gmap nat attach_owned) : Prop := {
  inv_lock : attachMu s = true ↔ ∃ i o, ghost !! i = Some o ∧ own_lock o = true;
  inv_lock_unique i j o o' :
    ghost !! i = Some o → ghost !! j = Some o' → own_lock o = true → own_lock o' = true → i = j;
  inv_session key session :
    session ∈ sessions_of key s ↔ ∃ i o, ghost !! i = Some o ∧ own_session o = Some (key, session);
  inv_session_unique i j o o' key key' session :
    ghost !! i = Some o → ghost !! j = Some o' →
    own_session o = Some (key, session) → own_session o' = Some (key', session) → i = j;
  inv_nonempty key sessions : attaches s !! key = Some sessions → sessions ≠ ∅;
  inv_allocated i o key session :
    ghost !! i = Some o → own_session o = Some (key, session) → session ∈ allocated s;
  inv_drained i o session :
    ghost !! i = Some o → own_drained o = Some session → own_lock o = true ∧ sizes s !! session = None
}.

Section exists_insert.
Context {O : Type} (P : O → Prop) (ghost : gmap nat O) (i : nat).

(** Whether some goroutine has a property, after one of them changed. *)
Lemma exists_update o o' :
  ghost !! i = Some o → (P o' ↔ P o) →
  (∃ j o, <[i := o']> ghost !! j = Some o ∧ P o) ↔ ∃ j o, ghost !! j = Some o ∧ P o.
Proof.
  intros Hi Hiff. split; intros (j & oj & Hj & HP).
  - apply lookup_insert_Some in Hj as [[<- <-]|[_ Hj]]; [exists i, o; by rewrite <- Hiff|by exists j, oj].
  - destruct (decide (i = j)) as [<-|Hne]; [|exists j, oj; by rewrite lookup_insert_ne].
    simplify_eq. exists i, o'. rewrite lookup_insert_eq. by rewrite Hiff.
Qed.
End exists_insert.

(** A step that leaves the mutex and the table, and what the goroutine owns of them. *)
Lemma inv_frame s s' ghost i o o' :
  attach_inv s ghost → ghost !! i = Some o →
  attachMu s' = attachMu s → attaches s' = attaches s → allocated s' = allocated s →
  own_lock o' = own_lock o → own_session o' = own_session o →
  (∀ session, own_drained o' = Some session → own_lock o = true ∧ sizes s' !! session = None) →
  (∀ j oj session, j ≠ i → ghost !! j = Some oj → own_drained oj = Some session → sizes s' !! session = None) →
  attach_inv s' (<[i := o']> ghost).
Proof.
  intros [Hlock Hlu Hsession Hsu Hne Halloc Hdrained] Hi Hmu Hat Hal Hol Hos Hmine Hothers. split.
  - rewrite Hmu, Hlock. symmetry. apply exists_update with o; [done|]. by rewrite Hol.
  - intros j j' oj oj'. rewrite !lookup_insert_Some.
    intros [[<- <-]|[_ Hj]] [[<- <-]|[_ Hj']]; rewrite ?Hol; eauto.
  - intros key session. unfold sessions_of. rewrite Hat. fold (sessions_of key s). rewrite Hsession.
    symmetry. apply exists_update with o; [done|]. by rewrite Hos.
  - intros j j' oj oj' key key' session. rewrite !lookup_insert_Some.
    intros [[<- <-]|[_ Hj]] [[<- <-]|[_ Hj']]; rewrite ?Hos; eauto.
  - intros key sessions. rewrite Hat. apply Hne.
  - intros j oj key session. rewrite lookup_insert_Some, Hal. intros [[<- <-]|[_ Hj]]; rewrite ?Hos; eauto.
  - intros j oj session. rewrite lookup_insert_Some. intros [[<- <-]|[Hji Hj]].
    + intros Hd. rewrite Hol. by apply Hmine.
    + intros Hd. split; [by eapply Hdrained|]. eapply Hothers; [|exact Hj|exact Hd]. done.
Qed.

(** Only the goroutine that holds the mutex has emptied a channel. *)
Lemma others_drained s ghost i o j oj session :
  attach_inv s ghost → ghost !! i = Some o → own_lock o = true →
  j ≠ i → ghost !! j = Some oj → own_drained oj ≠ Some session.
Proof.
  intros Hinv Hi Ho Hne Hj Hd. destruct (inv_drained _ _ Hinv _ _ _ Hj Hd) as [Hl _].
  by destruct Hne; eapply inv_lock_unique.
Qed.

Lemma inv_mutex s ghost i o b :
  attach_inv s ghost → ghost !! i = Some o → own_lock o = negb b → (b = true → attachMu s = false) →
  (b = true → own_drained o = None) →
  attach_inv (with_mutex b s)
    (<[i := {| own_lock := b; own_session := own_session o; own_drained := None |}]> ghost).
Proof.
  intros [Hlock Hlu Hsession Hsu Hne Halloc Hdrained] Hi Ho Hfree Hnone.
  assert (∀ j oj, j ≠ i → ghost !! j = Some oj → own_lock oj = false) as Hothers.
  { intros j oj Hji Hj. destruct (own_lock oj) eqn:El; [|done]. exfalso. destruct b; simpl in Ho.
    - assert (attachMu s = true) as Hmu by (apply Hlock; eauto). rewrite Hfree in Hmu by done. done.
    - by apply Hji, (Hlu j i oj o). }
  split; simpl.
  - split.
    + intros ->. eexists i, _. by rewrite lookup_insert_eq.
    + intros (j & oj & Hj & Hl). apply lookup_insert_Some in Hj as [[<- <-]|[Hji Hj]]; [done|].
      by rewrite (Hothers j oj) in Hl.
  - intros j j' oj oj'. rewrite !lookup_insert_Some. intros [[<- <-]|[Hj1 Hj]] [[<- <-]|[Hj2 Hj']]; simpl; try done.
    + intros _ Hl. by rewrite (Hothers j' oj') in Hl.
    + intros Hl. by rewrite (Hothers j oj) in Hl.
    + by eapply Hlu.
  - intros key session. unfold sessions_of, with_mutex. simpl. fold (sessions_of key s). rewrite Hsession.
    symmetry. by apply exists_update with o.
  - intros j j' oj oj' key key' session. rewrite !lookup_insert_Some.
    intros [[<- <-]|[_ Hj]] [[<- <-]|[_ Hj']]; simpl; eauto.
  - done.
  - intros j oj key session. rewrite lookup_insert_Some. intros [[<- <-]|[_ Hj]]; simpl; eauto.
  - intros j oj session. rewrite lookup_insert_Some. intros [[<- <-]|[Hji Hj]]; simpl; [done|].
    intros Hd. destruct (Hdrained _ _ _ Hj Hd) as [Hl _]. by rewrite (Hothers j oj) in Hl.
Qed.

Lemma sessions_of_Some key session s :
  session ∈ sessions_of key s ↔ ∃ sessions, attaches s !! key = Some sessions ∧ session ∈ sessions.
Proof. unfold sessions_of. destruct (attaches s !! key); naive_solver set_solver. Qed.

Lemma sessions_of_insert key key' l s :
  sessions_of key' (with_attaches (<[key := l]> (attaches s)) s) = if decide (key' = key) then l else sessions_of key' s.
Proof.
  unfold sessions_of. simpl. destruct (decide (key' = key)) as [->|Hne].
  - by rewrite lookup_insert_eq.
  - by rewrite lookup_insert_ne.
Qed.

Lemma sessions_of_remove key key' session s :
  sessions_of key' (remove_session key session s) =
  if decide (key' = key) then sessions_of key s ∖ {[session]} else sessions_of key' s.
Proof.
  unfold remove_session. case_decide as Hleft; [|apply sessions_of_insert].
  unfold sessions_of at 1. simpl. destruct (decide (key' = key)) as [->|Hne].
  - by rewrite lookup_delete_eq, Hleft.
  - by rewrite lookup_delete_ne.
Qed.

(** The sessions that goroutines own are other ones. *)
Lemma inv_add s ghost i o key session :
  attach_inv s ghost → ghost !! i = Some o → own_lock o = true → own_session o = None → session ∉ allocated s →
  attach_inv (add_session key session s)
    (<[i := {| own_lock := own_lock o; own_session := Some (key, session); own_drained := own_drained o |}]> ghost).
Proof.
  intros [Hlock Hlu Hsession Hsu Hne Halloc Hdrained] Hi Ho Hnone Hfresh.
  split; unfold add_session; simpl.
  - rewrite Hlock. symmetry. by apply exists_update with o.
  - intros j j' oj oj'. rewrite !lookup_insert_Some. intros [[<- <-]|[_ Hj]] [[<- <-]|[_ Hj']]; simpl; eauto.
  - intros key' session'. unfold sessions_of. simpl.
    destruct (decide (key' = key)) as [->|Hkey].
    + rewrite lookup_insert_eq. simpl. fold (sessions_of key s). rewrite elem_of_union, elem_of_singleton, Hsession. split.
      * intros [->|(j & oj & Hj & Hs)]; [eexists i, _; by rewrite lookup_insert_eq|].
        exists j, oj. rewrite lookup_insert_ne; [done|]. intros <-. congruence.
      * intros (j & oj & Hj & Hs). apply lookup_insert_Some in Hj as [[<- <-]|[_ Hj]]; [|by eauto 6].
        simpl in Hs. left. congruence.
    + rewrite lookup_insert_ne by done. fold (sessions_of key' s). rewrite Hsession. split.
      * intros (j & oj & Hj & Hs). exists j, oj. rewrite lookup_insert_ne; [done|]. intros <-. congruence.
      * intros (j & oj & Hj & Hs). apply lookup_insert_Some in Hj as [[<- <-]|[_ Hj]]; [|by eauto].
        simpl in Hs. congruence.
  - intros j j' oj oj' key1 key2 session'. rewrite !lookup_insert_Some.
    intros [[<- <-]|[_ Hj]] [[<- <-]|[_ Hj']]; simpl; [done| | |by eapply Hsu].
    + intros [= <- <-] Hs. by destruct Hfresh; eapply Halloc.
    + intros Hs [= <- <-]. by destruct Hfresh; eapply Halloc.
  - intros key' l. rewrite lookup_insert_Some. intros [[<- <-]|[_ Hl]]; [|by eapply Hne]. set_solver.
  - intros j oj key' session'. rewrite lookup_insert_Some. intros [[<- <-]|[_ Hj]]; simpl.
    + intros [= <- <-]. set_solver.
    + intros Hs. apply elem_of_union_r. by eapply Halloc.
  - intros j oj session'. rewrite lookup_insert_Some. intros [[<- <-]|[_ Hj]]; simpl; eauto.
Qed.

Lemma inv_remove s ghost i o key session :
  attach_inv s ghost → ghost !! i = Some o → own_session o = Some (key, session) →
  attach_inv (remove_session key session s)
    (<[i := {| own_lock := own_lock o; own_session := None; own_drained := own_drained o |}]> ghost).
Proof.
  intros [Hlock Hlu Hsession Hsu Hne Halloc Hdrained] Hi Hmine. split.
  - replace (attachMu (remove_session key session s)) with (attachMu s) by done.
    rewrite Hlock. symmetry. by apply exists_update with o.
  - intros j j' oj oj'. rewrite !lookup_insert_Some. intros [[<- <-]|[_ Hj]] [[<- <-]|[_ Hj']]; simpl; eauto.
  - intros key' session'. rewrite sessions_of_remove. split.
    + intros Hin.
      assert (session' ∈ sessions_of key' s ∧ (key' = key → session' ≠ session)) as [Hs Hother]
        by (destruct (decide (key' = key)) as [->|]; set_solver).
      apply Hsession in Hs as (j & oj & Hj & Hs). exists j, oj. rewrite lookup_insert_ne; [done|].
      intros <-. simplify_eq. by apply Hother.
    + intros (j & oj & Hj & Hs). apply lookup_insert_Some in Hj as [[<- <-]|[Hji Hj]]; [done|].
      assert (session' ∈ sessions_of key' s) as Hin by (apply Hsession; eauto).
      case_decide as Hkey; [subst key'|done]. apply elem_of_difference. split; [done|].
      intros ->%elem_of_singleton. by apply Hji, (Hsu i j o oj key key session).
  - intros j j' oj oj' key1 key2 session'. rewrite !lookup_insert_Some.
    intros [[<- <-]|[_ Hj]] [[<- <-]|[_ Hj']]; simpl; try done. by eapply Hsu.
  - intros key' l. unfold remove_session. case_decide as Hleft; simpl.
    + rewrite lookup_delete_Some. intros [_ Hl]. by eapply Hne.
    + rewrite lookup_insert_Some. intros [[<- <-]|[_ Hl]]; [done|by eapply Hne].
  - intros j oj key' session'. rewrite lookup_insert_Some. intros [[<- <-]|[_ Hj]]; simpl; [done|]. by eapply Halloc.
  - intros j oj session'. rewrite lookup_insert_Some. intros [[<- <-]|[_ Hj]]; simpl; by eapply Hdrained.
Qed.

Lemma attach_call s ghost i o X (c : acmd X) x after :
  attach_inv s ghost → ghost !! i = Some o → attach_pre X c o → attach_act X c s x after →
  True ∧ attach_inv after (<[i := attach_next X c x o]> ghost).
Proof.
  intros Hinv Hi [Hlock Hpre] Hact. split; [done|].
  assert (own_lock o = true → ∀ j oj session, j ≠ i → ghost !! j = Some oj → own_drained oj = Some session →
            ∀ P : Prop, P) as Hothers.
  { intros Hl j oj session Hji Hj Hd. by destruct (others_drained s ghost i o j oj session). }
  pose proof (inv_drained _ _ Hinv) as Hdrained.
  destruct c as [X c| | |key|key p|key|p size|p|p size|p|b| |e| |ns pod ctr|b| |request| |X]; simpl in *;
    try (subst after; rewrite insert_id by done; done).
  - destruct Hact as [Hfree ->]. replace (own_drained o) with (@None nat). by apply (inv_mutex s ghost i o true).
  - subst after. by apply (inv_mutex s ghost i o false).
  - destruct Hact as [Hfresh ->]. by apply inv_add.
  - subst after. by apply inv_remove.
  - destruct Hact as [_ ->]. by rewrite insert_id.
  - destruct x; destruct Hact as [Hsize ->]; eapply inv_frame; try done; simpl; intros;
      by eapply (Hothers Hlock).
  - subst after. eapply inv_frame; try done; simpl.
    + intros session [= <-]. split; [done|]. apply lookup_delete_eq.
    + intros. by eapply (Hothers Hlock).
  - destruct Hact as [Hsize ->]. eapply inv_frame; try done; simpl. intros. by eapply (Hothers Hlock).
  - destruct Hact as [Hsize ->]. eapply inv_frame; try done; simpl.
    + intros session Hd. split; [by eapply Hdrained|]. rewrite lookup_delete_None. right. by eapply Hdrained.
    + intros j oj session _ Hj Hd. rewrite lookup_delete_None. right. by eapply Hdrained.
  - done.
Qed.

(** Goroutines that own nothing do not matter. *)
Lemma inv_ghost s ghost ghost' :
  (∀ j o, o ≠ nothing_owned → ghost !! j = Some o ↔ ghost' !! j = Some o) →
  attach_inv s ghost → attach_inv s ghost'.
Proof.
  intros Hsame [Hlock Hlu Hsession Hsu Hne Halloc Hdrained].
  assert (∀ j o, own_lock o = true → ghost !! j = Some o ↔ ghost' !! j = Some o) as Hl by (intros j o Ho; apply Hsame; by intros ->).
  assert (∀ j o x, own_session o = Some x → ghost !! j = Some o ↔ ghost' !! j = Some o) as Hs by (intros j o x Ho; apply Hsame; by intros ->).
  assert (∀ j o x, own_drained o = Some x → ghost !! j = Some o ↔ ghost' !! j = Some o) as Hd by (intros j o x Ho; apply Hsame; by intros ->).
  split.
  - rewrite Hlock. split; intros (i & o & Hi & Ho); exists i, o; (split; [|done]); by apply (Hl i o Ho).
  - intros i j o o' Hi Hj Ho Ho'. apply (Hl _ _ Ho) in Hi. apply (Hl _ _ Ho') in Hj. by eapply Hlu.
  - intros key session. rewrite Hsession. split; intros (i & o & Hi & Ho); exists i, o; (split; [|done]); by apply (Hs i o _ Ho).
  - intros i j o o' key key' session Hi Hj Ho Ho'. apply (Hs _ _ _ Ho) in Hi. apply (Hs _ _ _ Ho') in Hj. by eapply Hsu.
  - done.
  - intros i o key session Hi Ho. apply (Hs _ _ _ Ho) in Hi. by eapply Halloc.
  - intros i o session Hi Ho. apply (Hd _ _ _ Ho) in Hi. by eapply Hdrained.
Qed.

Lemma inv_started s ghost i : attach_inv s ghost → ghost !! i = None → attach_inv s (<[i := nothing_owned]> ghost).
Proof.
  intros Hinv Hi. eapply inv_ghost; [|exact Hinv]. intros j o Ho. rewrite lookup_insert_Some. split.
  - intros Hj. right. split; [|done]. intros <-. congruence.
  - intros [[_ <-]|[_ Hj]]; done.
Qed.

Lemma inv_returned s ghost i :
  attach_inv s ghost → ghost !! i = Some nothing_owned → attach_inv s (delete i ghost).
Proof.
  intros Hinv Hi. eapply inv_ghost; [|exact Hinv]. intros j o Ho. rewrite lookup_delete_Some. split.
  - intros Hj. split; [|done]. intros <-. congruence.
  - by intros [_ Hj].
Qed.

(** ** The goroutines *)

Section handlers.
Context `{Validation} `{DockerJSON}.

Inductive attach_request :=
| AttachTo (n : nat) (ctx : context) (name : string) (config : option ContainerAttachConfig)
| Resize (ctx : context) (name : string) (height width : Z)
| ReadSize (session : nat).          (* [terminalResizeQueue.Next], of the stream *)

Definition serve (r : attach_request) : aproc unit :=
  match r with
  | AttachTo n ctx name config => bind (ContainerAttach n ctx name config) (λ _, Ret tt)
  | Resize ctx name height width => bind (ContainerResize ctx name height width) (λ _, Ret tt)
  | ReadSize session => bind (call (NextSize session)) (λ _, Ret tt)
  end.

Definition served (p : aproc unit) : Prop := ∃ r, p = serve r.

(** A goroutine that owns at most a session. *)
Definition attached (session : option (string * nat)) : attach_owned :=
  {| own_lock := false; own_session := session; own_drained := None |}.

Lemma attach_owns_on_cluster {A} (p : proc A) session (Q : attach_owned → A → Prop) :
  (∀ a, Q (attached session) a) → attach_owns (attached session) (on_cluster p) Q.
Proof.
  intros HQ. unfold on_cluster. induction p as [a|X c k IH]; simpl; [apply HQ|]. split; [done|]. intros x _. apply IH.
Qed.

(** Without the commands of the section nothing that is owned changes. *)
Lemma owns_call_outside {X} (c : acmd X) session (Q : attach_owned → X → Prop) :
  match c with
  | LockAttach | UnlockAttach | AddSession _ | RemoveSession _ _ | Sessions _ | TrySend _ _ | TryReceive _
  | Send _ _ => False
  | _ => True
  end →
  (∀ x, Q (attached session) x) → attach_owns (attached session) (call c) Q.
Proof. intros Hc HQ. simpl. split; [by destruct c|]. intros x _. by destruct c. Qed.

Lemma wait_pod_owns deployment autoRemove replay session n :
  attach_owns (attached session) (wait_pod deployment autoRemove n replay) (λ o _, o = attached session).
Proof.
  induction n as [|n IH]; cbn [wait_pod]; rewrite owns_bind; apply attach_owns_on_cluster;
    (intros [w|e]; [|by destruct (IsNotFound e), autoRemove]); rewrite owns_bind_res; apply attach_owns_on_cluster;
    (intros [pods|e]; [|done]); (destruct (attach_scan _ _ _ _) as [pod|]; [done|]);
    rewrite owns_bind_res; (apply owns_call_outside; [done|]); (intros [[]|e]; [|done]).
  - by apply owns_call_outside.
  - exact IH.
Qed.

Lemma wait_exit_owns deployment autoRemove podName session n :
  attach_owns (attached session) (wait_exit deployment autoRemove n podName) (λ o _, o = attached session).
Proof.
  induction n as [|n IH]; cbn [wait_exit]; rewrite owns_bind; (apply owns_call_outside; [done|]); intros pod;
    cbv zeta; (destruct (match pod with Ok _ => _ | Err _ => _ end); [done|]);
    rewrite owns_bind; (apply owns_call_outside; [done|]); (intros []; [|done]).
  - by apply owns_call_outside.
  - exact IH.
Qed.

Lemma attach_pod_owns n config deployment container s session :
  attach_owns (attached session) (attach_pod n config deployment container s) (λ o _, o = attached session).
Proof.
  unfold attach_pod. rewrite owns_bind_res. eapply (owns_post _ _ _ _ _ (λ o _, o = attached session)).
  2: { unfold waitAttachPod. destruct (containerMetadata deployment) as [[config' host]|e]; [apply wait_pod_owns|done]. }
  intros o [[pod|]|e] ->; [|done..]. destruct (_ && _).
  - rewrite owns_bind. apply owns_call_outside; [done|]. intros [[]|e]; [|done]. unfold defer. rewrite owns_bind.
    apply owns_call_outside; [done|]. intros r. rewrite owns_bind. by apply owns_call_outside.
  - rewrite owns_bind. apply owns_call_outside; [done|]. intros [[]|e]; [done|]. rewrite owns_bind.
    unfold attachTargetExited. destruct (containerMetadata deployment) as [[config' host]|e']; [|done].
    rewrite owns_bind. apply owns_call_outside; [done|]. intros []; [|done].
    eapply owns_post; [|apply wait_exit_owns]. by intros o [] ->.
Qed.

Lemma attach_streams_owns n config deployment container s session :
  attach_owns (attached session) (attach_streams n config deployment container s) (λ o _, o = attached session).
Proof.
  unfold attach_streams. rewrite owns_bind_res. apply owns_call_outside; [done|]. intros [[]|e]; [|done].
  rewrite owns_bind. eapply owns_post; [|apply attach_pod_owns]. intros o r ->. rewrite owns_bind.
  eapply (owns_post _ _ _ _ _ (λ o _, o = attached session)).
  - intros o [] ->. rewrite owns_bind. by apply owns_call_outside.
  - destruct r as [[]|e]; [done|]. rewrite owns_bind. apply owns_call_outside; [done|].
    intros []; [by apply owns_call_outside|done].
Qed.

Lemma ContainerAttach_owns n ctx name config :
  attach_owns nothing_owned (ContainerAttach n ctx name config) (λ o _, o = nothing_owned).
Proof.
  unfold ContainerAttach. destruct config as [config|]; [|done]. destruct (negb _); [done|].
  destruct (_ || _); [done|]. rewrite owns_bind_res. apply (attach_owns_on_cluster _ None). intros [w|e]; [|done].
  destruct (namedContainer _ _) as [container|e]; [|done]. destruct (_ && _); [done|].
  destruct (Ctr_TTY container); [|apply (attach_streams_owns _ _ _ _ _ None)].
  rewrite owns_bind, owns_call. split; [done|]. intros [] _. rewrite owns_bind, owns_call. split; [done|].
  intros session _. rewrite owns_bind, owns_call. split; [done|]. intros [] _. unfold defer. rewrite owns_bind.
  eapply owns_post; [|apply (attach_streams_owns _ _ _ _ _ (Some (attach_key w, session)))]. intros o r ->.
  rewrite !owns_bind, owns_call. split; [done|]. intros [] _. rewrite owns_bind, owns_call. split; [done|].
  by intros [] _.
Qed.

Lemma resize_session_owns size session s :
  let holding d := {| own_lock := true; own_session := s; own_drained := d |} in
  attach_owns (holding None) (resize_session size session) (λ o r, o = holding None ∧ r = Ok tt).
Proof. simpl. split; [done|]. intros [] _; [done|]. simpl. split; [done|]. intros _ _. by split. Qed.

Lemma ContainerResize_owns ctx name height width :
  attach_owns nothing_owned (ContainerResize ctx name height width) (λ o _, o = nothing_owned).
Proof.
  unfold ContainerResize. destruct (_ || _); [done|]. rewrite owns_bind_res.
  apply (attach_owns_on_cluster _ None). intros [w|e]; [|done]. rewrite owns_bind, owns_call. split; [done|]. intros [] _.
  unfold defer. rewrite !owns_bind, owns_call. split; [done|]. intros sessions _.
  set (holding := {| own_lock := true; own_session := None; own_drained := None |}).
  eapply (owns_post _ _ _ _ _ (λ o _, o = holding)); [by intros o r ->|].
  case_bool_decide; [done|]. clear. induction sessions as [|session sessions IH]; [done|]. cbn [for_each].
  rewrite owns_bind_res. eapply owns_post; [|apply resize_session_owns]. by intros o r [-> ->].
Qed.

Lemma attach_serve_owns r : attach_owns nothing_owned (serve r) (λ o _, o = nothing_owned).
Proof.
  destruct r as [n ctx name config|ctx name height width|session]; cbn [serve]; rewrite owns_bind.
  - eapply owns_post; [|apply ContainerAttach_owns]. by intros o r ->.
  - eapply owns_post; [|apply ContainerResize_owns]. by intros o r ->.
  - by apply (owns_call_outside _ None).
Qed.

Definition attach_pool := pool acmd attach_state unit.
Definition attach_step : attach_pool → attach_pool → Prop := step attach_act served.

Lemma attach_reachable s :
  rtc attach_step (start no_attaches) s →
  owned nothing_owned attach_pre attach_next (λ _ _ _, True) attach_inv s.
Proof.
  intros Hr. eapply (owned_reachable attach_act served); [| | | | |exact Hr].
  - intros p [r ->]. apply attach_serve_owns.
  - intros. by apply inv_started.
  - intros. by eapply attach_call.
  - intros. by apply inv_returned.
  - split; unfold sessions_of; simpl; intros *; setoid_rewrite lookup_empty; naive_solver set_solver.
Qed.

(** A command of the section is never blocked. *)
Lemma section_enabled s ghost i X (c : acmd X) o :
  attach_inv s ghost → ghost !! i = Some o → in_section c = true → attach_pre X c o →
  ∃ x after, attach_act X c s x after.
Proof.
  intros Hinv Hi Hc [_ Hpre].
  destruct c as [X c| | |key|key q|key|q size|q|q size|q|b| |e| |ns pod ctr|b| |request| |X]; simpl in *; try done.
  - by exists tt, (with_mutex false s).
  - exists (fresh (allocated s)), (add_session key (fresh (allocated s)) s). split; [apply is_fresh|done].
  - by exists tt, (remove_session key q s).
  - by exists (elements (sessions_of key s)), s.
  - destruct (sizes s !! q) as [old|] eqn:Eq; [by exists false, s|].
    by exists true, (with_sizes (<[q := size]> (sizes s)) s).
  - by exists tt, (with_sizes (delete q (sizes s)) s).
  - exists tt, (with_sizes (<[q := size]> (sizes s)) s). split; [|done]. by eapply (inv_drained _ _ Hinv).
Qed.

(** Whatever is answered, the goroutine will take this session out of the table. *)
Fixpoint leaves {A} (key : string) (session : nat) (p : aproc A) : Prop :=
  match p with
  | Ret _ => False
  | Call c k =>
      match c with RemoveSession key' session' => key' = key ∧ session' = session | _ => False end ∨
      ∀ x, leaves key session (k x)
  end.

(** A goroutine that ends without a session takes out the one that it owns. *)
Lemma owner_leaves {A} key session (p : aproc A) o :
  own_session o = Some (key, session) → attach_owns o p (λ o _, o = nothing_owned) → leaves key session p.
Proof.
  revert o. induction p as [a|X c k IH]; intros o Ho; simpl; [by intros ->|]. intros [[_ Hpre] Hk].
  destruct c; try (right; intros x; by eapply IH; [|by apply Hk]); simpl in Hpre.
  - congruence.
  - left. by simplify_eq.
Qed.

(** C19: terminals can always be resized.  In every state that any number of goroutines can
    reach by attaching to containers, resizing them and reading the sizes they were sent:
    a resize that is about to send finds the channel empty, although others attach, detach
    and read meanwhile; whoever holds the mutex can make its next step, so that nobody is
    blocked for good by it; the table has exactly the sessions of the goroutines that are
    attached, each one of a running goroutine of its own, which takes it out of the table
    whatever happens to it, and no key without a session; and when no goroutine is left, the
    table is empty and the mutex is free. *)
Theorem resizing_never_blocks s :
  rtc attach_step (start no_attaches) s →
  (∀ i session size k, running s !! i = Some (Call (Send session size) k) → sizes (shared s) !! session = None) ∧
  (attachMu (shared s) = true → ∃ i X (c : acmd X) k x after,
     running s !! i = Some (Call c k) ∧ in_section c = true ∧ attach_act X c (shared s) x after) ∧
  (∀ key sessions, attaches (shared s) !! key = Some sessions → sessions ≠ ∅) ∧
  (∃ attached : gmap nat (string * nat),
     (∀ key session, (∃ sessions, attaches (shared s) !! key = Some sessions ∧ session ∈ sessions) ↔
                     ∃ i, attached !! i = Some (key, session)) ∧
     (∀ i j key key' session,
        attached !! i = Some (key, session) → attached !! j = Some (key', session) → i = j) ∧
     ∀ i key session, attached !! i = Some (key, session) →
       ∃ p, running s !! i = Some p ∧ leaves key session p) ∧
  (running s = ∅ → attaches (shared s) = ∅ ∧ attachMu (shared s) = false).
Proof.
  intros (ghost & Hinv & Hall)%attach_reachable.
  assert (∀ i o, ghost !! i = Some o → ∃ p, running s !! i = Some p ∧
            attach_owns o p (λ o _, o = nothing_owned)) as Howner.
  { intros i o Hi. specialize (Hall i). destruct (running s !! i) as [p|]; [|congruence].
    destruct Hall as (o' & Ho' & Howns). simplify_eq. eauto. }
  split_and!; [| |by apply (inv_nonempty _ _ Hinv)| |].
  - intros i session size k Hi. specialize (Hall i). rewrite Hi in Hall.
    destruct Hall as (o & Ho & [[_ Hd] _]). by apply (inv_drained _ _ Hinv i o).
  - intros (i & o & Hi & Ho)%(inv_lock _ _ Hinv). destruct (Howner _ _ Hi) as (p & Hp & Howns).
    destruct p as [a|X c k]; [simpl in Howns; by subst o|]. destruct Howns as [[Hlock Hpre] _].
    rewrite Ho in Hlock. destruct (section_enabled _ _ _ _ c _ Hinv Hi) as (x & after & Hact); [done|by split; [rewrite Ho|]|].
    exists i, X, c, k, x, after. by split_and!.
  - exists (omap own_session ghost). setoid_rewrite lookup_omap_Some. split_and!.
    + intros key session. rewrite <- sessions_of_Some, (inv_session _ _ Hinv). naive_solver.
    + intros i j key key' session (o & Ho & Hi) (o' & Ho' & Hj). by eapply (inv_session_unique _ _ Hinv).
    + intros i key session (o & Ho & Hi). destruct (Howner _ _ Hi) as (p & Hp & Howns).
      exists p. split; [done|]. by eapply owner_leaves.
  - intros Hnone.
    assert (∀ i o, ghost !! i = Some o → False) as Hnobody.
    { intros i o (p & Hp & _)%Howner. by rewrite Hnone, lookup_empty in Hp. }
    split.
    + apply map_empty. intros key. destruct (attaches (shared s) !! key) as [sessions|] eqn:Hkey; [|done].
      destruct (set_choose_L sessions) as [session Hin]; [by eapply inv_nonempty|].
      destruct (proj1 (inv_session _ _ Hinv key session)) as (i & o & Hi & _); [|by edestruct Hnobody].
      unfold sessions_of. by rewrite Hkey.
    + destruct (attachMu (shared s)) eqn:Hmu; [|done]. apply (inv_lock _ _ Hinv) in Hmu as (i & o & Hi & _).
      by edestruct Hnobody.
Qed.

(** ** What is attached to *)

Definition attach_rely : rely (cmd := acmd) := λ _ X c,
  match c in acmd X return X → Prop with
  | OnCluster _ c => api_rely [] _ c
  | StillWaiting _ => λ _, False
  | _ => λ _, True
  end.

(** A container of the namespace, found by the name. *)
Definition target (namespace name : string) (w : containerWorkload) : Prop :=
  Namespace w = namespace ∧ found_by name w.

(** The Pods of the container were just listed and are its own; this is one of them. *)
Definition pod_seen (namespace name : string) (pod : Pod) (h : history acmd) : Prop :=
  ∃ w hc h0 pods, target namespace name w ∧ h = (map (embed_event OnCluster) hc ++ h0)%list ∧
    own_pods w hc (Ok pods) ∧ pod ∈ pods ∧ Namespace pod = namespace.

Definition reads_or_waits (namespace : string) {X} (c : cmd X) : Prop :=
  match c with WaitTick => True | _ => reads_in namespace [] _ c end.

Definition attach_confined (namespace name : string) : guard (cmd := acmd) := λ h _ c,
  match c with
  | OnCluster _ c => reads_or_waits namespace c
  | AddSession key | Sessions key | RemoveSession key _ => ∃ w, target namespace name w ∧ key = attach_key w
  | OpenLogs ns podName container =>
      ∃ pod, pod_seen namespace name pod h ∧ ns = namespace ∧ podName = Name pod
  | StreamAttach r =>
      ∃ pod, pod_seen namespace name pod h ∧ ar_Namespace r = namespace ∧ ar_Pod r = Name pod ∧
        (ar_Stderr r = true → ar_TTY r = false)
  | _ => True
  end.

(** A method of the translator that only reads the namespace. *)
Lemma wp_reads {A} namespace name (p : proc A) h Q :
  wp api_rely (reads_in namespace) p [] (λ hc a, Q (map (embed_event OnCluster) hc ++ h)%list a) →
  wp attach_rely (attach_confined namespace name) (on_cluster p) h Q.
Proof.
  intros Hp. eapply wp_post; [|refine (wp_embed OnCluster api_rely (reads_in namespace) _ _ _ _ h [] _ _ Hp)].
  - intros h' a (hc & -> & HQ). exact HQ.
  - by intros h1 h2 X [] x Hx.
  - by intros h1 X [] Hc.
Qed.

Lemma containerPods_own (w : containerWorkload) h :
  wp api_rely (reads_in (Namespace w)) (containerPods w) h (λ h' r, own_pods w h' r ∧
    ∀ pods pod, r = Ok pods → pod ∈ pods → Namespace (pod_meta pod) = Namespace w).
Proof.
  unfold containerPods. rewrite wp_bind, wp_call. split; [done|]. intros [pods|e] Hns; [|by split].
  eapply wp_post; [|eapply wp_rely, owned_pods_wp; done].
  intros h2 [owned|e] [[l ->] Hr]; [|by split]. split.
  - exists pods. split; [set_solver|exact Hr].
  - intros pods' pod [= <-] Hpod. apply (Hns pod). destruct Hr as [Hsub _]. by eapply elem_of_sublist.
Qed.

Lemma refresh_reads (w : containerWorkload) h : wp api_rely (reads_in (Namespace w)) (refreshWorkload w) h (λ _ _, True).
Proof.
  unfold refreshWorkload. rewrite wp_bind_res. eapply (wp_post _ _ _ _ (λ _ _, True)).
  - intros h1 [current|e] _; [by destruct (decide _)|done].
  - destruct (OneShot w); rewrite wp_bind_res, wp_call; (split; [done|]); by intros [].
Qed.

(** The Pod that ends the wait is one that was listed. *)
Lemma attach_scan_in autoRemove replay name pods pod :
  attach_scan autoRemove replay name pods = Some (Some pod) → pod ∈ pods.
Proof.
  unfold attach_scan. intros Hhead.
  assert (Some pod ∈ flat_map (λ pod, omap (λ status, if bool_decide (CS_Name status = name)
    then attach_status autoRemove replay pod status else None) (ContainerStatuses pod)) pods) as Hin.
  { destruct (flat_map _ _); [done|]. injection Hhead as ->. by left. }
  apply list_elem_of_In, in_flat_map in Hin as (pod' & Hpod & Hin%list_elem_of_In).
  apply list_elem_of_omap in Hin as (status & _ & Hstatus). apply list_elem_of_In in Hpod.
  destruct (bool_decide _); [|done]. unfold attach_status in Hstatus.
  destruct (_ || _); [destruct (_ && _)|destruct (_ && _)]; by simplify_eq.
Qed.

Lemma wait_pod_wp namespace name w autoRemove replay n : ∀ h,
  target namespace name w →
  wp attach_rely (attach_confined namespace name) (wait_pod w autoRemove n replay) h (λ h' r,
    ∀ pod, r = Ok (Some pod) → pod_seen namespace name pod h').
Proof.
  assert (∀ h k, target namespace name w →
    (∀ h, wp attach_rely (attach_confined namespace name) k h (λ h' r,
       ∀ pod, r = Ok (Some pod) → pod_seen namespace name pod h')) →
    wp attach_rely (attach_confined namespace name)
      (do refreshed <- on_cluster (refreshWorkload w);
       match refreshed with
       | Err e =>
           if IsNotFound e
           then Ret (if autoRemove then Ok None else Err (NotFound (errors_New "container %s no longer exists")))
           else Ret (Err (kubeError e))
       | Ok _ =>
           do? pods <- on_cluster (containerPods w);
           match attach_scan autoRemove replay (Name w) pods with
           | Some pod => Ret (Ok pod)
           | None => do? _ <- call (OnCluster _ WaitTick); k
           end
       end) h (λ h' r, ∀ pod, r = Ok (Some pod) → pod_seen namespace name pod h')) as Hstep.
  2: { induction n as [|n IH]; intros h Hw; cbn [wait_pod]; apply Hstep; try done; intros h1.
    by apply IH. }
  intros h k [Hns Hfound] Hk. rewrite wp_bind. apply wp_reads.
  eapply (wp_post _ _ _ _ (λ _ _, True)); [|rewrite <- Hns; apply refresh_reads].
  intros hc [w'|e] _; [|destruct (IsNotFound e), autoRemove; by intros pod].
  rewrite wp_bind_res. apply wp_reads. rewrite <- Hns. eapply wp_post; [|apply containerPods_own].
  intros hc' [pods|e] [Hown Hpods]; [|by intros pod]. destruct (attach_scan _ _ _ _) as [pod|] eqn:Escan.
  - rewrite wp_ret. intros pod' [= ->]. apply attach_scan_in in Escan.
    eexists w, hc', _, pods. split_and!; try done. by apply (Hpods pods).
  - rewrite wp_bind_res, wp_call. split; [done|]. intros [[]|e] _; [rewrite Hns; apply Hk|by intros pod].
Qed.

Lemma wait_exit_wp namespace name (w : containerWorkload) autoRemove podName n : ∀ h,
  Namespace w = namespace →
  wp attach_rely (attach_confined namespace name) (wait_exit w autoRemove n podName) h (λ _ _, True).
Proof.
  induction n as [|n IH]; intros h Hns; cbn [wait_exit]; rewrite wp_bind, wp_call; (split; [done|]); intros pod _;
    cbv zeta; (destruct (match pod with Ok _ => _ | Err _ => _ end); [done|]); rewrite wp_bind, wp_call;
    (split; [done|]); (intros [] _; [|done]); [done|by apply IH].
Qed.

Lemma attach_pod_wp namespace name n config w container session h :
  target namespace name w →
  wp attach_rely (attach_confined namespace name) (attach_pod n config w container session) h (λ _ _, True).
Proof.
  intros Hw. unfold attach_pod. rewrite wp_bind_res.
  eapply (wp_post _ _ _ _ (λ h' r, ∀ pod, r = Ok (Some pod) → pod_seen namespace name pod h')).
  2: { unfold waitAttachPod. destruct (containerMetadata w) as [[config' host]|e]; [by apply wait_pod_wp|by intros pod]. }
  intros h1 [[pod|]|e] Hseen; [|done..]. specialize (Hseen pod eq_refl). pose proof Hseen as (_ & _ & _ & _ & _ & _ & _ & _ & Hns).
  destruct (_ && _).
  - rewrite wp_bind, wp_call. split; [by exists pod|]. intros [[]|e] _; [|done]. by rewrite wp_defer.
  - rewrite wp_bind, wp_call. split.
    + exists pod. split_and!; try done. simpl. by intros [_ ?%negb_true_iff]%andb_prop.
    + intros [[]|e] _; [done|]. rewrite wp_bind. unfold attachTargetExited.
      eapply (wp_post _ _ _ _ (λ _ _, True)); [by intros h2 []|].
      destruct (containerMetadata w) as [[config' host]|e']; [|done]. rewrite wp_bind, wp_call. split; [done|].
      intros [] _; [|done]. apply wait_exit_wp, Hw.
Qed.

Lemma attach_streams_wp namespace name n config w container session h :
  target namespace name w →
  wp attach_rely (attach_confined namespace name) (attach_streams n config w container session) h (λ _ _, True).
Proof.
  intros Hw. unfold attach_streams. rewrite wp_bind_res, wp_call. split; [done|]. intros [[]|e] _; [|done].
  rewrite wp_bind. eapply wp_post; [|by apply attach_pod_wp]. intros h1 r _. rewrite wp_bind.
  eapply (wp_post _ _ _ _ (λ _ _, True)); [by intros h2 [] _|]. destruct r as [[]|e]; [done|].
  rewrite wp_bind, wp_call. split; [done|]. by intros [] _.
Qed.

Lemma find_target id name h (Q : history acmd → res containerWorkload → Prop) :
  (∀ h' r, match r with Ok w => target (id_namespace id) name w | Err _ => True end → Q h' r) →
  wp attach_rely (attach_confined (id_namespace id) name) (on_cluster (findContainer (Some id) name)) h Q.
Proof.
  intros HQ. apply wp_reads. eapply wp_post; [|apply findContainer_wp]. intros hc [w|e] Hr; apply HQ; [|done].
  by destruct Hr as (_ & ? & ?).
Qed.

Lemma ContainerAttach_wp id n name config h :
  wp attach_rely (attach_confined (id_namespace id) name) (ContainerAttach n (Some id) name config) h (λ _ _, True).
Proof.
  unfold ContainerAttach. destruct config as [config|]; [|done]. destruct (negb _); [done|].
  destruct (_ || _); [done|]. rewrite wp_bind_res. apply find_target. intros h1 [w|e] Hw; [|done].
  destruct (namedContainer _ _) as [container|e]; [|done]. destruct (_ && _); [done|].
  destruct (Ctr_TTY container); [|by apply attach_streams_wp].
  rewrite wp_bind, wp_call. split; [done|]. intros [] _. rewrite wp_bind, wp_call. split; [by exists w|].
  intros session _. rewrite wp_bind, wp_call. split; [done|]. intros [] _. rewrite wp_defer.
  eapply wp_post; [|by apply attach_streams_wp]. intros h2 r _. simpl. repeat (split; [by try exists w|intros _ _]). done.
Qed.

(** A resize reached a session: the channel was empty, or was emptied. *)
Definition reached (size : TerminalSize) (session : nat) (h : history acmd) : Prop :=
  Event _ (TrySend session size) true ∈ h ∨ Event _ (Send session size) tt ∈ h.

Definition all_reached (name : string) (id : Identity) (size : TerminalSize) (h : history acmd) : Prop :=
  ∃ w sessions, target (id_namespace id) name w ∧ Event _ (Sessions (attach_key w)) sessions ∈ h ∧
    sessions ≠ [] ∧ ∀ session, session ∈ sessions → reached size session h.

Lemma ContainerResize_wp id name height width h :
  wp attach_rely (attach_confined (id_namespace id) name) (ContainerResize (Some id) name height width) h (λ h' r,
    r = Ok tt → all_reached name id {| term_Height := height; term_Width := width |} h').
Proof.
  unfold ContainerResize. destruct (_ || _); [done|]. rewrite wp_bind_res. apply find_target.
  intros h1 [w|e] Hw; [|done]. rewrite wp_bind, wp_call. split; [done|]. intros [] _.
  rewrite wp_defer, wp_bind, wp_call. split; [by exists w|]. intros sessions _. cbv beta.
  case_bool_decide as Hnone; [done|]. set (size := {| term_Height := height; term_Width := width |}).
  set (h2 := Event _ (Sessions (attach_key w)) sessions :: _).
  apply (wp_for_each_all _ _ _ _ h2 _ (reached size)).
  - intros session h3 h4 Hs [Hin|Hin]; [left|right]; by eapply event_later.
  - done.
  - intros session h3 _ Hs. unfold resize_session. rewrite wp_bind, wp_call. split; [done|]. intros [] _.
    + left. by left.
    + rewrite wp_bind, wp_call. split; [done|]. intros [] _. rewrite wp_bind, wp_call. split; [done|]. intros [] _.
      right. by left.
  - intros h3 Hs Hall. rewrite wp_call. split; [done|]. intros [] _ _. exists w, sessions. split_and!; try done.
    + right. eapply event_later; [exact Hs|]. by left.
    + intros session Hin. destruct (Hall session Hin) as [?|?]; [left|right]; by right.
Qed.

(** Attaching and resizing stay with the container that was asked for.  Whatever the
    cluster answers and however long is waited: only the namespace of the client is read;
    the sessions that are added, removed or resized are those of a container of the
    namespace that the name finds; output and streams are those of a Pod of the namespace
    that was just listed and that this container owns, and a terminal has no separate
    error output; and a resize that succeeds has sent the size to every session of the
    container, of which there was one at least. *)
Theorem attach_requests_confined id name h h' request :
  (∃ n config, request = ContainerAttach n (Some id) name config) ∨
  (∃ height width, request = ContainerResize (Some id) name height width) →
  ∀ r, exec request h h' r → answered attach_rely h h' →
  guarded (attach_confined (id_namespace id) name) h h' ∧
  ∀ height width, request = ContainerResize (Some id) name height width → r = Ok tt →
    all_reached name id {| term_Height := height; term_Width := width |} h'.
Proof.
  intros Hrequest r Hexec Hans. split.
  - destruct Hrequest as [(n & config & ->)|(height & width & ->)].
    + by destruct (wp_exec _ _ _ _ _ _ _ (ContainerAttach_wp id n name config h) Hexec Hans).
    + by destruct (wp_exec _ _ _ _ _ _ _ (ContainerResize_wp id name height width h) Hexec Hans).
  - intros height width ->. by destruct (wp_exec _ _ _ _ _ _ _ (ContainerResize_wp id name height width h) Hexec Hans).
Qed.
End handlers.

(** ** Concrete inputs *)

#[local] Existing Instances demo_validation demo_docker_json.

Definition tty_container : Container := {|
  Ctr_Name := "web"; Ctr_Image := "app"; Ctr_Command := []; Ctr_Args := []; Ctr_WorkingDir := ""; Ctr_Ports := [];
  Ctr_Env := []; Ctr_Resources := {| Limits := ∅; Requests := ∅ |}; Ctr_VolumeMounts := [];
  Ctr_ReadinessProbe := None; Ctr_TTY := true; Ctr_Stdin := true; Ctr_ImagePullPolicy := "";
  Ctr_SecurityContext := None |}.

Definition attach_cluster : cluster :=
  set_db KDeployment [dep_set_template {| Pod_Labels := ∅; Pod_Annotations := ∅;
      Pod_Spec := {| HostNetwork := false; DNSPolicy := ""; Volumes := []; ImagePullSecrets := [];
        Containers := [tty_container]; NodeAffinity := None; Tolerations := []; RestartPolicy := "";
        Hostname := ""; HostAliases := []; PodDNSConfig := None; TerminationGracePeriodSeconds := None;
        Sysctls := []; InitContainers := [] |} |} (sample_deployment "acme" "web" "3f25-04e0" 1)] empty_cluster.

Definition demo_answers X (c : acmd X) (s : attach_state) : option (X * attach_state) :=
  match c in acmd X return option (X * attach_state) with
  | OnCluster _ c => Some ((handle _ c attach_cluster).1, s)
  | LockAttach => if attachMu s then None else Some (tt, with_mutex true s)
  | UnlockAttach => Some (tt, with_mutex false s)
  | AddSession key => Some (fresh (allocated s), add_session key (fresh (allocated s)) s)
  | RemoveSession key session => Some (tt, remove_session key session s)
  | Sessions key => Some (elements (sessions_of key s), s)
  | TrySend session size =>
      Some match sizes s !! session with
           | None => (true, with_sizes (<[session := size]> (sizes s)) s)
           | Some _ => (false, s)
           end
  | TryReceive session => Some (tt, with_sizes (delete session (sizes s)) s)
  | Send session size =>
      match sizes s !! session with
      | None => Some (tt, with_sizes (<[session := size]> (sizes s)) s)
      | Some _ => None
      end
  | NextSize session =>
      size ← sizes s !! session; Some (size, with_sizes (delete session (sizes s)) s)
  | GetStreams _ | OpenLogs _ _ _ | CopyLogs _ | StreamAttach _ => Some (Ok tt, s)
  | CtxAlive => Some (true, s)
  | WriteError _ | CloseStdin | CloseLogs => Some (tt, s)
  | ExitTick => Some (false, s)
  | StillWaiting _ => None
  end.

Lemma attach_answers_act X (c : acmd X) s x after : demo_answers X c s = Some (x, after) → attach_act X c s x after.
Proof.
  destruct c; simpl; intros Heq; simplify_eq; try done.
  - destruct (attachMu s); [done|]. by injection Heq as <- <-.
  - split; [apply is_fresh|done].
  - destruct (sizes s !! session) eqn:E; simplify_eq; [split; [by eexists|done]|done].
  - destruct (sizes s !! session) eqn:E; by simplify_eq.
  - destruct (sizes s !! session) eqn:E; simpl in Heq; by simplify_eq.
Qed.

Definition demo_id : Identity :=
  {| Identity.Namespace := "acme"; Organization := "Acme"; CommonName := "alice"; Anonymous := false |}.

Definition demo_config : ContainerAttachConfig := {|
  UseStdin := true; UseStdout := true; UseStderr := true; at_Stream := true; at_Logs := false; at_DetachKeys := "";
  has_GetStreams := true |}.

(** One goroutine is attached, a second one has resized the terminal, and a third one is
    about to send another size. *)
Definition demo_resizing : attach_pool :=
  Nat.iter 5 (advance demo_answers 3) (begin 3 (serve (Resize (Some demo_id) "web" 50 132))
  (Nat.iter 6 (advance demo_answers 2) (begin 2 (serve (Resize (Some demo_id) "web" 24 80))
  (Nat.iter 5 (advance demo_answers 1) (begin 1 (serve (AttachTo 0 (Some demo_id) "web" (Some demo_config)))
    (start no_attaches)))))).

Definition sending (p : aproc unit) : option (nat * TerminalSize) :=
  match p with
  | @Call _ _ _ c _ => match c with Send session size => Some (session, size) | _ => None end
  | Ret _ => None
  end.

Lemma resizing_never_blocks_witness :
  dom (running demo_resizing) = {[1; 3]} ∧
  (running demo_resizing !! 3 ≫= sending) = Some (0, {| term_Height := 50; term_Width := 132 |}) ∧
  sizes (shared demo_resizing) !! 0 = None ∧ attachMu (shared demo_resizing) = true.
Proof.
  assert (rtc attach_step (start no_attaches) demo_resizing) as Hr.
  { unfold demo_resizing.
    etrans; [|apply (advance_steps _ _ _ attach_answers_act)]. etrans; [|apply begin_steps; by eexists].
    etrans; [|apply (advance_steps _ _ _ attach_answers_act)]. etrans; [|apply begin_steps; by eexists].
    etrans; [|apply (advance_steps _ _ _ attach_answers_act)]. apply begin_steps. by eexists. }
  split; [by vm_compute|]. split; [by vm_compute|]. split; [|by vm_compute].
  destruct (resizing_never_blocks demo_resizing Hr) as (Hsend & _).
  eapply (Hsend 3). vm_compute. reflexivity.
Defined.

Lemma attach_answers_rely h X (c : acmd X) s x after : demo_answers X c s = Some (x, after) → attach_rely h X c x.
Proof.
  destruct c; intros Heq; try done. simpl in Heq. injection Heq as <- _. apply handle_rely.
Qed.

Lemma attach_requests_confined_witness :
  match play demo_answers (ContainerResize (Some demo_id) "web" 50 132) []
          (shared (Nat.iter 5 (advance demo_answers 1)
            (begin 1 (serve (AttachTo 0 (Some demo_id) "web" (Some demo_config))) (start no_attaches)))) with
  | Some (r, h, s) =>
      r = Ok tt ∧ guarded (attach_confined "acme" "web") [] h ∧
      all_reached "web" demo_id {| term_Height := 50; term_Width := 132 |} h
  | None => False
  end.
Proof.
  destruct (play _ _ _ _) as [[[r h] s]|] eqn:Hplay; [|by vm_compute in Hplay].
  assert (r = Ok tt) as -> by (vm_compute in Hplay; by injection Hplay as <- _ _).
  destruct (attach_requests_confined demo_id "web" [] h (ContainerResize (Some demo_id) "web" 50 132)
    (or_intror (ex_intro _ 50%Z (ex_intro _ 132%Z eq_refl))) (Ok tt)) as [Hguarded Hreached].
  - by eapply play_exec.
  - eapply play_answered; [|exact Hplay]. intros. by eapply attach_answers_rely.
  - split_and!; [done|exact Hguarded|]. by apply Hreached.
Defined.
