(* ===== verification/System.v ===== *)
(** * System: what the daemon reports of a namespace

    [core/translator/system.go]: the counts of [docker info] and the disk usage of
    containers, images and volumes.  The version and the constant texts are left out. *)

From S2P Require Import Prelude GoStrings Errors Docker Filters Prog Kube Identity Workload Networks Resources.
From S2P Require Import Volumes Inspect Images Events ImageUse.

Local Open Scope Z_scope.

(** ** Counts ([SystemInfo]) *)

(** The counters of [system.Info]. *)
Record Info := { info_Containers : Z; info_Running : Z; info_Stopped : Z; info_Images : Z }.

(** The counters, and the images seen. *)
Abbreviation counting := (Info * gset string)%type.

Definition add_image (images : gset string) (image : string) : gset string :=
  if bool_decide (image = "") then images else {[image]} ∪ images.

Definition add_images (images : gset string) (containers : list Container) : gset string :=
  fold_left add_image (Ctr_Image <$> containers) images.

Definition count_container (running stopped : bool) (info : Info) : Info := {|
  info_Containers := add64 (info_Containers info) 1;
  info_Running := if running then add64 (info_Running info) 1 else info_Running info;
  info_Stopped := if stopped then add64 (info_Stopped info) 1 else info_Stopped info;
  info_Images := info_Images info |}.

(** The body of the loop over the Deployments. *)
Definition count_deployment (s : counting) (deployment : Deployment) : counting :=
  if negb (isContainerDeployment deployment) then s
  else
    let running := 0 <? ReadyReplicas deployment in
    let spec := Pod_Spec (dep_Template deployment) in
    (count_container running (negb running && (default 1 (Replicas deployment) =? 0)) s.1,
     add_images (add_images s.2 (Kube.Containers spec)) (InitContainers spec)).

(** The body of the loop over the Jobs. *)
Definition count_job (s : counting) (job : Job) : counting :=
  if negb (isContainerJob job) then s
  else
    let running := 0 <? Active job in
    (count_container running (negb running && Finished (jobWorkload job)) s.1,
     add_images s.2 (Kube.Containers (Pod_Spec (job_Template job)))).

Definition no_info : Info := {| info_Containers := 0; info_Running := 0; info_Stopped := 0; info_Images := 0 |}.

Definition SystemInfo (ctx : context) : proc (res Info) :=
  match ctx with
  | None => Ret (Err (Unauthenticated (errors_New "missing identity in context")))
  | Some id =>
      do deployments <- call (KList KDeployment (id_namespace id) "");
      match deployments with
      | Err e => Ret (Err (kubeError e))
      | Ok deployments =>
          let s := fold_left count_deployment deployments (no_info, ∅) in
          do jobs <- call (KList KJob (id_namespace id) "");
          match jobs with
          | Err e => Ret (Err (kubeError e))
          | Ok jobs =>
              let '(info, images) := fold_left count_job jobs s in
              Ret (Ok {| info_Containers := info_Containers info; info_Running := info_Running info;
                         info_Stopped := info_Stopped info; info_Images := Z.of_nat (size images) |})
          end
      end
  end.

(** ** Disk usage *)

(** [backend.ContainerDiskUsage], [ImageDiskUsage], [VolumeDiskUsage] and
    [buildbackend.DiskUsage]: counters over items. *)
Record usage (A : Type) := {
  TotalCount : Z; ActiveCount : Z; TotalSize : Z; Reclaimable : Z; Items : list A
}.
#[global] Arguments TotalCount {A}.
#[global] Arguments ActiveCount {A}.
#[global] Arguments TotalSize {A}.
#[global] Arguments Reclaimable {A}.
#[global] Arguments Items {A}.

Definition no_usage {A} : usage A :=
  {| TotalCount := 0; ActiveCount := 0; TotalSize := 0; Reclaimable := 0; Items := [] |}.

(** The end of the body of each of the loops. *)
Definition add_usage {A} (verbose active reclaimable : bool) (size : Z) (item : A) (u : usage A) : usage A := {|
  TotalCount := add64 (TotalCount u) 1;
  ActiveCount := if active then add64 (ActiveCount u) 1 else ActiveCount u;
  TotalSize := add64 (TotalSize u) size;
  Reclaimable := if reclaimable then add64 (Reclaimable u) size else Reclaimable u;
  Items := if verbose then Items u ++ [item] else Items u |}.

(** One image counts once, with the containers that use its first entry. *)
Definition add_summary (workloads : list containerWorkload) (namespace : string) (verbose : bool)
    (s : gset string * usage used_image) (image : Images.Summary) : gset string * usage used_image :=
  if bool_decide (sum_ID image ∈ s.1) then s
  else
    let summary := count_uses workloads namespace image in
    let active := 0 <? u_Containers summary in
    ({[sum_ID image]} ∪ s.1, add_usage verbose active (negb active) (sum_Size image) summary s.2).

Definition imageDiskUsage (namespace : string) (verbose : bool) : uproc (res (usage used_image)) :=
  do? images <- call RegistryImages;
  do? workloads <- on_cluster (listWorkloads namespace);
  Ret (Ok (fold_left (add_summary workloads namespace verbose) images (∅, no_usage)).2).

(** A volume with its size and whether it is used. *)
Definition volume_usage : Type := DockerVolume * Z * Z.

(** The capacity of a claim, or what it requests. *)
Definition claim_size (pvc : PersistentVolumeClaim) : Z :=
  Value (match PVC_Capacity pvc with Some capacity => capacity | None => PVC_Storage (PVC_Spec pvc) end).

Section volumes.
Context `{MapJSON}.

Fixpoint add_claims (used : list string) (verbose : bool) (pvcs : list PersistentVolumeClaim)
    (u : usage volume_usage) : res (usage volume_usage) :=
  match pvcs with
  | [] => Ok u
  | pvc :: pvcs =>
      let? volume := volumeFromPVC pvc in
      let size := claim_size pvc in
      let refCount := if slices_Contains used (Name pvc) then 1 else 0 in
      add_claims used verbose pvcs
        (add_usage verbose (0 <? refCount) (negb (0 <? refCount)) size (volume, size, refCount) u)
  end.

Definition volumeDiskUsage (namespace : string) (verbose : bool) : proc (res (usage volume_usage)) :=
  do pvcs <- call (KList KPVC namespace eventVolumeSelector);
  match pvcs with
  | Err e => Ret (Err (kubeError e))
  | Ok pvcs =>
      do? used <- volumeClaimsInUse namespace;
      Ret (add_claims used verbose pvcs no_usage)
  end.
End volumes.

(** [backend.DiskUsageOptions] and [backend.DiskUsage]; what was not asked for is nil. *)
Record DiskUsageOptions := { du_Containers : bool; du_Images : bool; du_Volumes : bool; du_Verbose : bool }.
Record DiskUsage := {
  usage_Containers : option (usage Inspect.Summary);
  usage_Images : option (usage used_image);
  usage_Volumes : option (usage volume_usage)
}.

Definition container_active (summary : Inspect.Summary) : bool :=
  negb (bool_decide (sm_State summary = StateCreated)) && negb (bool_decide (sm_State summary = StateExited)).

(** The sizes of containers are not known. *)
Definition container_usage (verbose : bool) (containers : list Inspect.Summary) : usage Inspect.Summary := {|
  TotalCount := Z.of_nat (length containers);
  ActiveCount := fold_left (λ n summary, if container_active summary then add64 n 1 else n) containers 0;
  TotalSize := 0; Reclaimable := 0;
  Items := if verbose then containers else [] |}.

Section disk_usage.
Context `{Quantities} `{Unicode} `{PortFrom} `{NetworkOrder} `{LabelOrder} `{DockerJSON} (dynamic : bool).
Context `{TimeParse} `{Regexp} `{WorkloadOrder} `{MapJSON}.

Definition all_containers : ContainerListOptions :=
  {| lo_All := true; lo_Limit := 0; lo_Filters := {| fields := ∅ |} |}.

(** [if asked { ...; if err != nil { return nil, err } }] *)
Definition when_asked {A} (asked : bool) (p : uproc (res A)) : uproc (res (option A)) :=
  if asked then (do? a <- p; Ret (Ok (Some a))) else Ret (Ok None).

Definition SystemDiskUsage (ctx : context) (options : DiskUsageOptions) : uproc (res DiskUsage) :=
  match ctx with
  | None => Ret (Err (Unauthenticated (errors_New "missing identity in context")))
  | Some id =>
      do? containers <- when_asked (du_Containers options)
        (do? containers <- on_cluster (Inspect.Containers dynamic ctx (Some all_containers));
         Ret (Ok (container_usage (du_Verbose options) containers)));
      do? images <- when_asked (du_Images options) (imageDiskUsage (id_namespace id) (du_Verbose options));
      do? volumes <- when_asked (du_Volumes options)
        (on_cluster (volumeDiskUsage (id_namespace id) (du_Verbose options)));
      Ret (Ok {| usage_Containers := containers; usage_Images := images; usage_Volumes := volumes |})
  end.
End disk_usage.
