(* ===== verification/SystemProps.v ===== *)
(** * SystemProps: the counts that are reported are those of the namespace

    [docker info] counts exactly the containers that a listing shows, and the disk usage is
    exactly the sum over images counted once, over the claims, and over the cache; all in
    the wrap-around of the 64-bit counters. *)

From S2P Require Import Prelude GoStrings Errors Docker Filters Prog Cluster Identity Workload Networks Resources.
From S2P Require Import Volumes Inspect Images ImageUse ImageUseProps System.

Local Open Scope Z_scope.

(** ** Counters that wrap around *)

Definition w64 : Z → Z := wrap_signed 64.

Lemma wrap_mod a b : (a mod 2 ^ 64 = b mod 2 ^ 64 → w64 a = w64 b)%Z.
Proof.
  intros Hab. unfold w64, wrap_signed. f_equal. rewrite Zplus_mod, Hab, <- Zplus_mod. done.
Qed.

Lemma add64_wrap a b : add64 (w64 a) b = w64 (a + b).
Proof.
  apply wrap_mod. unfold w64, wrap_signed.
  replace ((a + 2 ^ (64 - 1)) mod 2 ^ 64 - 2 ^ (64 - 1) + b)
    with ((a + 2 ^ (64 - 1)) mod 2 ^ 64 + (b - 2 ^ (64 - 1))) by lia.
  rewrite Zplus_mod_idemp_l. f_equal. lia.
Qed.

Definition count {A} (P : A → bool) (l : list A) : Z := Z.of_nat (length (List.filter P l)).

Lemma count_cons {A} (P : A → bool) x l : count P (x :: l) = (if P x then 1 else 0) + count P l.
Proof. unfold count. simpl. destruct (P x); simpl; lia. Qed.

Definition sum_of {A} (P : A → bool) (size : A → Z) (l : list A) : Z :=
  foldr (λ x s, (if P x then size x else 0) + s) 0 l.

(** ** [docker info] *)

Definition deployment_running (d : Deployment) : bool := 0 <? ReadyReplicas d.
Definition deployment_stopped (d : Deployment) : bool :=
  negb (deployment_running d) && (default 1 (Replicas d) =? 0).
Definition job_running (j : Job) : bool := 0 <? Active j.
Definition job_stopped (j : Job) : bool := negb (job_running j) && Finished (jobWorkload j).

(** The counters of a number of containers, of which some run and some are stopped. *)
Definition counters (info : Info) (containers running stopped : Z) : Prop :=
  info_Containers info = w64 containers ∧ info_Running info = w64 running ∧ info_Stopped info = w64 stopped.

Lemma count_container_spec (run stop : bool) info c r s :
  counters info c r s →
  counters (count_container run stop info) (c + 1) (r + if run then 1 else 0) (s + if stop then 1 else 0).
Proof.
  intros (Hc & Hr & Hs). unfold counters, count_container. simpl. rewrite Hc, Hr, Hs.
  destruct run, stop; rewrite ?add64_wrap, ?Z.add_0_r; done.
Qed.

Lemma elem_of_add_images x containers : ∀ images,
  x ∈ add_images images containers ↔ x ∈ images ∨ x ≠ "" ∧ x ∈ Ctr_Image <$> containers.
Proof.
  unfold add_images. induction containers as [|c containers IH]; intros images; simpl; [set_solver|].
  rewrite IH. unfold add_image. case_bool_decide as Hempty; [rewrite Hempty|]; set_solver.
Qed.

(** Of Deployments the initial containers count, too. *)
Definition deployment_images (d : Deployment) : list string :=
  Ctr_Image <$> (Kube.Containers (Pod_Spec (dep_Template d)) ++ InitContainers (Pod_Spec (dep_Template d))).
Definition job_images (j : Job) : list string := Ctr_Image <$> Kube.Containers (Pod_Spec (job_Template j)).

Lemma count_deployment_step s d :
  count_deployment s d =
  if isContainerDeployment d
  then (count_container (deployment_running d) (deployment_stopped d) s.1,
        add_images (add_images s.2 (Kube.Containers (Pod_Spec (dep_Template d)))) (InitContainers (Pod_Spec (dep_Template d))))
  else s.
Proof. unfold count_deployment. by destruct (isContainerDeployment d). Qed.

Lemma count_deployments l : ∀ info images c r s,
  counters info c r s →
  let ds := List.filter isContainerDeployment l in
  let '(info', images') := fold_left count_deployment l (info, images) in
  counters info' (c + Z.of_nat (length ds)) (r + count deployment_running ds) (s + count deployment_stopped ds) ∧
  ∀ x, x ∈ images' ↔ x ∈ images ∨ x ≠ "" ∧ ∃ d, d ∈ ds ∧ x ∈ deployment_images d.
Proof.
  induction l as [|d l IH]; intros info images c r s Hinfo; simpl.
  { rewrite !Z.add_0_r. split; [done|]. set_solver. }
  rewrite count_deployment_step. destruct (isContainerDeployment d); [|by apply IH].
  specialize (IH _ (add_images (add_images images (Kube.Containers (Pod_Spec (dep_Template d))))
    (InitContainers (Pod_Spec (dep_Template d)))) _ _ _
    (count_container_spec (deployment_running d) (deployment_stopped d) _ _ _ _ Hinfo)).
  cbn [fst snd]. destruct (fold_left count_deployment l _) as [info' images']. destruct IH as [Hcounters Himages]. split.
  - rewrite !count_cons, length_cons. clear Himages.
    replace (c + Z.of_nat (S _)) with (c + 1 + Z.of_nat (length (List.filter isContainerDeployment l))) by lia.
    by rewrite !Z.add_assoc.
  - intros x. rewrite Himages, !elem_of_add_images. unfold deployment_images.
    set_solver.
Qed.

Lemma count_job_step s j :
  count_job s j =
  if isContainerJob j
  then (count_container (job_running j) (job_stopped j) s.1, add_images s.2 (Kube.Containers (Pod_Spec (job_Template j))))
  else s.
Proof. unfold count_job. by destruct (isContainerJob j). Qed.

Lemma count_jobs l : ∀ info images c r s,
  counters info c r s →
  let js := List.filter isContainerJob l in
  let '(info', images') := fold_left count_job l (info, images) in
  counters info' (c + Z.of_nat (length js)) (r + count job_running js) (s + count job_stopped js) ∧
  ∀ x, x ∈ images' ↔ x ∈ images ∨ x ≠ "" ∧ ∃ j, j ∈ js ∧ x ∈ job_images j.
Proof.
  induction l as [|j l IH]; intros info images c r s Hinfo; simpl.
  { rewrite !Z.add_0_r. split; [done|]. set_solver. }
  rewrite count_job_step. destruct (isContainerJob j); [|by apply IH].
  specialize (IH _ (add_images images (Kube.Containers (Pod_Spec (job_Template j)))) _ _ _
    (count_container_spec (job_running j) (job_stopped j) _ _ _ _ Hinfo)).
  cbn [fst snd]. destruct (fold_left count_job l _) as [info' images']. destruct IH as [Hcounters Himages]. split.
  - rewrite !count_cons, length_cons.
    replace (c + Z.of_nat (S _)) with (c + 1 + Z.of_nat (length (List.filter isContainerJob l))) by lia.
    by rewrite !Z.add_assoc.
  - intros x. rewrite Himages, !elem_of_add_images. unfold job_images. set_solver.
Qed.

Lemma filter_bool {A} (P : A → bool) l : filter (λ x, P x = true) l = List.filter P l.
Proof. induction l as [|x l IH]; [done|]. rewrite filter_cons. simpl. destruct (P x); simpl; by rewrite IH. Qed.

Lemma workloads_of_length ds js :
  length (workloads_of ds js) = (length (List.filter isContainerDeployment ds) + length (List.filter isContainerJob js))%nat.
Proof. unfold workloads_of. by rewrite length_app, !length_fmap, !filter_bool. Qed.

(** [docker info] counts the containers that a listing shows.  Only the Deployments and the
    Jobs of the client's namespace are read.  The number of containers is that of the
    workloads that every listing goes through; of those, each is counted as running or as
    stopped at most once; and the number of images is that of the different image names in
    the Pod templates of those workloads. *)
Theorem SystemInfo_exact id h h' r :
  exec (SystemInfo (Some id)) h h' r →
  guarded (reads_in (id_namespace id)) h h' ∧
  ∀ info, r = Ok info → ∃ ds js images,
    h' = Event _ (KList KJob (id_namespace id) "") (Ok js) ::
         Event _ (KList KDeployment (id_namespace id) "") (Ok ds) :: h ∧
    let cds := List.filter isContainerDeployment ds in
    let cjs := List.filter isContainerJob js in
    counters info (Z.of_nat (length (workloads_of ds js)))
      (count deployment_running cds + count job_running cjs) (count deployment_stopped cds + count job_stopped cjs) ∧
    info_Images info = Z.of_nat (size (images : gset string)) ∧
    ∀ x, x ∈ images ↔ x ≠ "" ∧ ((∃ d, d ∈ cds ∧ x ∈ deployment_images d) ∨ (∃ j, j ∈ cjs ∧ x ∈ job_images j)).
Proof.
  intros Hexec. apply_wp Hexec. unfold SystemInfo. rewrite wp_bind, wp_call. split; [done|].
  intros [ds|e] _; [|by intros info]. rewrite wp_bind, wp_call. split; [done|]. intros [js|e] _; [|by intros info].
  pose proof (count_deployments ds no_info ∅ 0 0 0 ltac:(done)) as Hds.
  destruct (fold_left count_deployment ds _) as [info1 images1]. destruct Hds as [Hinfo1 Himages1].
  pose proof (count_jobs js info1 images1 _ _ _ Hinfo1) as Hjs.
  destruct (fold_left count_job js _) as [info2 images2]. destruct Hjs as [(Hc & Hr & Hs) Himages2].
  rewrite wp_ret. intros info [= <-]. exists ds, js, images2. split; [done|]. unfold counters. simpl. split_and!; try done.
  - rewrite Hc, workloads_of_length. f_equal. lia.
  - intros x. rewrite Himages2, Himages1. set_solver.
Qed.

(** ** Disk usage *)

(** The counters over some items, which are those listed if they are asked for. *)
Definition usage_exact {A} (verbose : bool) (active reclaimable : A → bool) (size : A → Z) (items : list A) (u : usage A) : Prop :=
  TotalCount u = w64 (Z.of_nat (length items)) ∧
  ActiveCount u = w64 (count active items) ∧
  TotalSize u = w64 (sum_of (λ _, true) size items) ∧
  Reclaimable u = w64 (sum_of reclaimable size items) ∧
  Items u = if verbose then items else [].

Lemma no_usage_exact {A} verbose (active reclaimable : A → bool) size :
  usage_exact verbose active reclaimable size [] no_usage.
Proof. unfold usage_exact. simpl. split_and!; [done..|by destruct verbose]. Qed.

Lemma sum_of_app {A} (P : A → bool) size (l k : list A) : sum_of P size (l ++ k) = sum_of P size l + sum_of P size k.
Proof. induction l as [|x l IH]; simpl; [done|]. rewrite IH. lia. Qed.

Lemma add_usage_exact {A} verbose (active reclaimable : A → bool) size items item u :
  usage_exact verbose active reclaimable size items u →
  usage_exact verbose active reclaimable size (items ++ [item])
    (add_usage verbose (active item) (reclaimable item) (size item) item u).
Proof.
  intros (Hcount & Hactive & Hsize & Hreclaim & Hitems).
  unfold usage_exact, add_usage; simpl. rewrite Hcount, Hactive, Hsize, Hreclaim, Hitems, !sum_of_app. unfold count.
  rewrite List.filter_app, !length_app. simpl. rewrite !add64_wrap. split_and!.
  - f_equal. lia.
  - destruct (active item); simpl; rewrite ?add64_wrap; f_equal; lia.
  - f_equal. lia.
  - destruct (reclaimable item); rewrite ?add64_wrap; f_equal; lia.
  - by destruct verbose.
Qed.

Definition image_active (image : used_image) : bool := 0 <? u_Containers image.

(** Every image once, as its first entry. *)
Fixpoint once (seen : gset string) (images : list Images.Summary) : list Images.Summary :=
  match images with
  | [] => []
  | image :: images =>
      if bool_decide (sum_ID image ∈ seen) then once seen images
      else image :: once ({[sum_ID image]} ∪ seen) images
  end.

Lemma once_spec images : ∀ seen,
  NoDup (sum_ID <$> once seen images) ∧
  (∀ x, x ∈ sum_ID <$> once seen images ↔ x ∈ sum_ID <$> images ∧ x ∉ seen) ∧
  once seen images `sublist_of` images.
Proof.
  induction images as [|image images IH]; intros seen; simpl.
  { split; [constructor|]. split; [set_solver|done]. }
  case_bool_decide as Hseen.
  - destruct (IH seen) as (Hnodup & Hin & Hsub). split_and!; [done| |by constructor].
    intros x. rewrite Hin. set_solver.
  - destruct (IH ({[sum_ID image]} ∪ seen)) as (Hnodup & Hin & Hsub). rewrite fmap_cons. split_and!.
    + constructor; [|done]. rewrite Hin. set_solver.
    + intros x. rewrite !elem_of_cons, Hin. destruct (decide (x = sum_ID image)) as [->|]; set_solver.
    + by constructor.
Qed.

Lemma add_summaries_exact workloads namespace verbose images : ∀ seen items u,
  usage_exact verbose image_active (λ i, negb (image_active i)) (λ i, sum_Size i) items u →
  usage_exact verbose image_active (λ i, negb (image_active i)) (λ i, sum_Size i)
    (items ++ (count_uses workloads namespace <$> once seen images))
    (fold_left (add_summary workloads namespace verbose) images (seen, u)).2.
Proof.
  induction images as [|image images IH]; intros seen items u Hu; simpl; [by rewrite app_nil_r|].
  unfold add_summary at 2. cbn [fst snd]. case_bool_decide as Hseen; [by apply IH|].
  rewrite fmap_cons, cons_middle, app_assoc. apply IH.
  apply (add_usage_exact verbose image_active (λ i, negb (image_active i)) (λ i, sum_Size i) items
    (count_uses workloads namespace image)), Hu.
Qed.

Definition volume_active (v : volume_usage) : bool := 0 <? v.2.

Lemma add_claims_exact `{MapJSON} used verbose pvcs : ∀ items u u',
  usage_exact verbose volume_active (λ v, negb (volume_active v)) (λ v, v.1.2) items u →
  add_claims used verbose pvcs u = Ok u' →
  ∃ new, usage_exact verbose volume_active (λ v, negb (volume_active v)) (λ v, v.1.2) (items ++ new) u' ∧
    Forall2 (λ pvc v, volumeFromPVC pvc = Ok v.1.1 ∧ v.1.2 = claim_size pvc ∧
                      (volume_active v = true ↔ Name (pvc_meta pvc) ∈ used)) pvcs new.
Proof.
  induction pvcs as [|pvc pvcs IH]; intros items u u' Hu; cbn [add_claims].
  { intros [= <-]. exists []. rewrite app_nil_r. by split; [|constructor]. }
  destruct (volumeFromPVC pvc) as [volume|e] eqn:Evolume; [|done]. cbn [result_bind]. intros Hadd.
  set (refCount := if slices_Contains used (Name pvc) then 1 else 0) in Hadd.
  apply (IH (items ++ [(volume, claim_size pvc, refCount)])) in Hadd as (new & Hnew & Hall).
  - exists ((volume, claim_size pvc, refCount) :: new). rewrite cons_middle, app_assoc. split; [done|].
    constructor; [|done]. split_and!; [done..|]. unfold volume_active, refCount. simpl.
    unfold slices_Contains. destruct (bool_decide _) eqn:E; [apply bool_decide_eq_true in E|apply bool_decide_eq_false in E]; naive_solver.
  - apply (add_usage_exact verbose volume_active (λ v, negb (volume_active v)) (λ v, v.1.2) items
      (volume, claim_size pvc, refCount)), Hu.
Qed.

(** An answer of a program that succeeds. *)
Ltac read_ok Hexec x :=
  apply exec_inv in Hexec; simpl in Hexec; destruct Hexec as [[x|?] Hexec];
  [|apply exec_inv in Hexec; simpl in Hexec; by destruct Hexec].

(** The images of the registry count once each, the first entry of each with the containers
    that were seen to use it: the report is the number and the sum of the sizes, those in use
    are counted, and the others are what can be reclaimed. *)
Theorem imageDiskUsage_exact namespace verbose h h' u :
  exec (imageDiskUsage namespace verbose) h h' (Ok u) →
  ∃ images ds js,
    h' = Event _ (Cluster _ (KList KJob namespace "")) (Ok js) ::
         Event _ (Cluster _ (KList KDeployment namespace "")) (Ok ds) :: Event _ RegistryImages (Ok images) :: h ∧
    NoDup (sum_ID <$> once ∅ images) ∧
    (∀ x, x ∈ sum_ID <$> once ∅ images ↔ x ∈ sum_ID <$> images) ∧
    usage_exact verbose image_active (λ i, negb (image_active i)) (λ i, sum_Size i)
      (count_uses (workloads_of ds js) namespace <$> once ∅ images) u.
Proof.
  intros Hexec. read_ok Hexec images.
  read_ok Hexec ds.
  read_ok Hexec js.
  apply exec_inv in Hexec as [[= ->] ->]. exists images, ds, js. split; [done|].
  destruct (once_spec images ∅) as (Hnodup & Hin & _). split_and!; [done|set_solver|].
  apply (add_summaries_exact (workloads_of ds js) namespace verbose images ∅ [] no_usage), no_usage_exact.
Qed.

(** The claims of the namespace that were listed are counted, each as the volume that it is,
    with its capacity, and as used if a workload or a Pod was seen to mount it. *)
Theorem volumeDiskUsage_exact `{MapJSON} namespace verbose h h' u :
  exec (volumeDiskUsage namespace verbose) h h' (Ok u) →
  ∃ pvcs ds js pods items,
    h' = Event _ (KList KPod namespace "") (Ok pods) :: Event _ (KList KJob namespace "") (Ok js) ::
         Event _ (KList KDeployment namespace "") (Ok ds) ::
         Event _ (KList KPVC namespace Events.eventVolumeSelector) (Ok pvcs) :: h ∧
    usage_exact verbose volume_active (λ v, negb (volume_active v)) (λ v, v.1.2) items u ∧
    Forall2 (λ pvc v, volumeFromPVC pvc = Ok v.1.1 ∧ v.1.2 = claim_size pvc ∧
                      (volume_active v = true ↔ Name (pvc_meta pvc) ∈ claims_used (workloads_of ds js) pods)) pvcs items.
Proof.
  intros Hexec. read_ok Hexec pvcs.
  read_ok Hexec ds.
  read_ok Hexec js.
  read_ok Hexec pods.
  apply exec_inv in Hexec as [Hadd ->]. symmetry in Hadd.
  destruct (add_claims_exact _ verbose pvcs [] no_usage u (no_usage_exact _ _ _ _) Hadd) as (items & Hu & Hall).
  by exists pvcs, ds, js, pods, items.
Qed.

(** ** Concrete inputs *)

Lemma SystemInfo_exact_witness :
  let o := simulate (SystemInfo (Some ImageProps.demo_identity)) sample_cluster in
  guarded (reads_in "acme") [] o.1.2 ∧
  match o.1.1 with Ok info => info_Containers info = 2 ∧ info_Running info = 1 ∧ info_Stopped info = 1 | Err _ => False end.
Proof.
  intros o. split; [|by vm_compute].
  apply (SystemInfo_exact ImageProps.demo_identity [] o.1.2 o.1.1), simulate_exec.
Defined.

(** An image in two repositories, which a container uses through the second: its size is
    reported as reclaimable, while it is not removed. *)
Example second_repository_reclaimable :
  let workloads := workloads_of [running "pull.dink/acme/copy@sha256:abcd" (sample_deployment "acme" "web" "3f" 1)] [] in
  let images := [demo_summary "app:1.0" "sha256:abcd" 0; demo_summary "copy:1.0" "sha256:abcd" 0] in
  let u := (fold_left (add_summary workloads "acme" false) images (∅, no_usage)).2 in
  Reclaimable u = 40 ∧ ActiveCount u = 0 ∧
  imageContainerCount (map (count_uses workloads "acme") images) "sha256:abcd" = 1.
Proof. by vm_compute. Qed.

Definition demo_usage_answers X (c : ucmd X) (s : unit) : X * unit :=
  (match c in ucmd X return X with
   | Cluster _ c => (handle _ c sample_cluster).1
   | RegistryImages => Ok [demo_summary "app:1.0" "sha256:abcd" 0; demo_summary "app:2.0" "sha256:abcd" 0;
                           demo_summary "db:1.0" "sha256:beef" 0]
   | RegistryInspect _ => Err (errors_New "not found")
   | RegistryDelete _ _ => Ok []
   end, s).

Lemma imageDiskUsage_exact_witness :
  let o := run demo_usage_answers (imageDiskUsage "acme" true) [] tt in
  match o.1.1 with
  | Ok u => TotalCount u = 2 ∧ TotalSize u = 80 ∧ length (Items u) = 2%nat ∧
            ∃ images ds js, usage_exact true image_active (λ i, negb (image_active i)) (λ i, sum_Size i)
              (count_uses (workloads_of ds js) "acme" <$> once ∅ images) u
  | Err _ => False
  end.
Proof.
  intros o. pose proof (run_exec demo_usage_answers (imageDiskUsage "acme" true) [] tt) as Hexec. fold o in Hexec.
  destruct o.1.1 as [u|e] eqn:Eo; [|by vm_compute in Eo].
  destruct (imageDiskUsage_exact "acme" true [] o.1.2 u Hexec) as (images & ds & js & _ & _ & _ & Hu).
  split_and!; [by vm_compute in Eo; injection Eo as <-..|]. by exists images, ds, js.
Defined.

Lemma volumeDiskUsage_exact_witness :
  let o := simulate (@volumeDiskUsage demo_map_json "acme" false)
             (set_db KDeployment [data_deployment] (set_db KPVC [sample_claim "data" ∅; sample_claim "old" ∅] empty_cluster)) in
  match o.1.1 with
  | Ok u => TotalCount u = 2 ∧ ActiveCount u = 1 ∧
            ∃ items, usage_exact false volume_active (λ v, negb (volume_active v)) (λ v, v.1.2) items u
  | Err _ => False
  end.
Proof.
  intros o. pose proof (simulate_exec (@volumeDiskUsage demo_map_json "acme" false)
    (set_db KDeployment [data_deployment] (set_db KPVC [sample_claim "data" ∅; sample_claim "old" ∅] empty_cluster))) as Hexec.
  fold o in Hexec. destruct o.1.1 as [u|e] eqn:Eo; [|by vm_compute in Eo].
  destruct (@volumeDiskUsage_exact demo_map_json "acme" false [] o.1.2 u Hexec) as (pvcs & ds & js & pods & items & _ & Hu & _).
  split_and!; [by vm_compute in Eo; injection Eo as <-..|]. by exists items.
Defined.
