(* ===== verification/Builder.v ===== *)
(** * Builder: the build cache, as the Docker API shows and prunes it

    [core/translator/build.go] and [Builder.DiskUsage] of [system.go]: the translation of a
    prune request to BuildKit's, with the timestamps that its filters may be, and the
    reports of pruning and of the cache's disk usage. *)

From S2P Require Import Prelude GoStrings Errors Filters Prog Identity Net Oci Images System.
From S2P Require Gateway.

Local Open Scope string_scope.
Local Open Scope Z_scope.

(** ** Data *)

(** [buildbackend.CachePruneOptions] *)
Record CachePruneOptions := {
  cp_All : bool; cp_ReservedSpace : Z; cp_MaxUsedSpace : Z; cp_MinFreeSpace : Z; cp_Filters : Args
}.

(** [buildtypes.CachePruneReport]; the size is a [uint64]. *)
Record CachePruneReport := { CachesDeleted : list string; SpaceReclaimed : Z }.

(** [buildtypes.CacheRecord] *)
Record CacheRecord := {
  cr_ID : string; cr_Parents : list string; cr_Type : string; cr_Description : string;
  cr_InUse : bool; cr_Shared : bool; cr_Size : Z; cr_UsageCount : Z;
  cr_CreatedAt : option Z; cr_LastUsedAt : option Z
}.

(** Errors of the translator, those that wrap the gateway's, and those without a kind. *)
Inductive berror :=
| Refused (e : error)
| Wrapped (text : string) (e : Gateway.gerror)
| Failed (text : string).

Abbreviation bres := (result berror).

(** Calls of the gateway, and the clock in nanoseconds since the zero time. *)
Inductive bcmd : Type → Type :=
| OnGateway (X : Type) (c : Gateway.gcmd X) : bcmd X
| Now : bcmd Z.

Abbreviation bproc := (prog bcmd).

(** [time.ParseInLocation] with the local zone. *)
Class LayoutParse := { ParseInLocation : string → string → option Z }.

(** ** Timestamps *)

(** [strconv.ParseInt(s, 10, 64)] *)
Definition ParseInt64 (s : string) : option Z :=
  let '(negative, digits) :=
    match s with
    | String c rest => if Ascii.eqb c "-" then (true, rest)
                       else if Ascii.eqb c "+" then (false, rest) else (false, s)
    | EmptyString => (false, s)
    end in
  if negb (bool_decide (digits = "")) && all_chars is_digit digits then
    let v := if negative then - decimal 0 digits else decimal 0 digits in
    if (int64_min <=? v) && (v <=? int64_max) then Some v else None
  else None.

Definition layouts : list string := [
  "2006-01-02T15:04:05.999999999"; "2006-01-02T15:04:05"; "2006-01-02T15:04"; "2006-01-02T15"; "2006-01-02"].

Fixpoint parse_layouts `{LayoutParse} (layouts : list string) (value : string) : option Z :=
  match layouts with
  | [] => None
  | layout :: layouts =>
      match ParseInLocation layout value with
      | Some parsed => Some parsed
      | None => parse_layouts layouts value
      end
  end.

(** [time.Unix]: the seconds are counted from year 1 in 64 bits. *)
Definition Unix (seconds nanoseconds : Z) : Z :=
  wrap_signed 64 (seconds + 62135596800) * 10 ^ 9 + nanoseconds.

(** The nanoseconds of what follows the point. *)
Definition parse_fraction (fraction : string) : option Z :=
  if (20 <? len fraction)%nat then None
  else if negb (all_chars is_digit fraction) then None
  else
    let fraction := take_chars 9 fraction in
    ParseInt64 (fraction +:+ String.concat "" (replicate (9 - len fraction) "0")).

Section timestamps.
Context `{TimeParse} `{LayoutParse}.

Definition parsePruneTimestamp (value : string) (reference : Z) : option Z :=
  match (if bool_decide (value = "0") then None else ParseDuration value) with
  | Some duration => Some (reference + wrap_signed 64 (- duration))
  | None =>
      match Parse_RFC3339Nano value with
      | Some parsed => Some parsed
      | None =>
          match parse_layouts layouts value with
          | Some parsed => Some parsed
          | None =>
              let '(seconds, fraction, hasFraction) := Cut value "." in
              match ParseInt64 seconds with
              | None => None
              | Some unixSeconds =>
                  if hasFraction && negb (bool_decide (fraction = "")) then
                    match parse_fraction fraction with
                    | None => None
                    | Some nanoseconds => Some (Unix unixSeconds nanoseconds)
                    end
                  else Some (Unix unixSeconds 0)
              end
          end
      end
  end.

(** [t.Sub(u)]: the difference, saturated. *)
Definition time_Sub (t u : Z) : Z := Z.max int64_min (Z.min int64_max (t - u)).

(** ** The request *)

Definition buildCachePruneFilters : gmap string bool :=
  list_to_map ((λ key, (key, true)) <$>
    ["id"; "parent"; "type"; "description"; "inuse"; "shared"; "private"; "mutable"; "immutable";
     "label"; "label!"; "until"; "unused-for"]).

(** BuildKit's filter for one key, and for all of them. *)
Definition buildkit_filter (key : string) (values : list string) : res string :=
  match values with
  | [] => Ok key
  | [value] => Ok (key +:+ (if bool_decide (key = "id") then "~=" else "==") +:+ value)
  | _ => Err (InvalidArgument (errors_New "filter %q expects a single value"))
  end.

Definition time_key (key : string) : bool := bool_decide (key = "until") || bool_decide (key = "unused-for").

Definition buildkit_filters (filters : Args) : res (list string) :=
  result_mapM (λ key, buildkit_filter key (Get filters key))
    (List.filter (λ key, negb (time_key key)) (sort_by (λ key, key) (Keys filters))).

Definition buildKitPruneRequest (options : CachePruneOptions) : bproc (res Gateway.PruneRequest) :=
  match Validate (cp_Filters options) buildCachePruneFilters with
  | Err e => Ret (Err (InvalidArgument (filter_error e)))
  | Ok _ =>
      let untilValues := Get (cp_Filters options) "until" in
      let unusedForValues := Get (cp_Filters options) "unused-for" in
      if negb (bool_decide (untilValues = [])) && negb (bool_decide (unusedForValues = []))
      then Ret (Err (InvalidArgument (errors_New "conflicting filters: %q and %q")))
      else if (1 <? length untilValues + length unusedForValues)%nat
      then Ret (Err (InvalidArgument (errors_New "until filter expects a single value")))
      else
        do? keepDuration <-
          match (if bool_decide (untilValues = []) then unusedForValues else untilValues) with
          | [] => Ret (Ok 0)
          | value :: _ =>
              do reference <- call Now;
              match parsePruneTimestamp value reference with
              | None => Ret (Err (InvalidArgument (errors_New "until filter expects a duration or timestamp: %w")))
              | Some cutoff => do now <- call Now; Ret (Ok (Z.max (time_Sub now cutoff) 0))
              end
          end;
        Ret (match buildkit_filters (cp_Filters options) with
             | Err e => Err e
             | Ok filters =>
                 Ok {| Gateway.pr_Filter := [String.concat "," filters];
                       Gateway.pr_All := cp_All options; Gateway.pr_KeepDuration := keepDuration;
                       Gateway.pr_ReservedSpace := cp_ReservedSpace options;
                       Gateway.pr_MaxUsedSpace := cp_MaxUsedSpace options;
                       Gateway.pr_MinFreeSpace := cp_MinFreeSpace options |}
             end)
  end.
End timestamps.

(** ** Pruning *)

Definition uint64_max : Z := 2 ^ 64 - 1.

(** The loop over the records that were removed. *)
Fixpoint reclaim (records : list Gateway.UsageRecord) (report : CachePruneReport) : bres CachePruneReport :=
  match records with
  | [] => Ok report
  | record :: records =>
      let deleted := (CachesDeleted report ++ [Gateway.us_ID record])%list in
      let size := Gateway.us_Size record in
      if size <=? 0
      then reclaim records {| CachesDeleted := deleted; SpaceReclaimed := SpaceReclaimed report |}
      else if uint64_max - SpaceReclaimed report <? size
      then Err (Failed "BuildKit prune reclaimed size overflows uint64")
      else reclaim records {| CachesDeleted := deleted; SpaceReclaimed := SpaceReclaimed report + size |}
  end.

Section builder.
Context `{TimeParse} `{LayoutParse} (b : option Gateway.gateway).

(** [b.gateway != nil && b.gateway.Enabled()] *)
Definition enabled_gateway : option Gateway.gateway :=
  g ← b; if Gateway.gw_enabled g then Some g else None.

Definition PruneCache (ctx : option Identity) (options : CachePruneOptions) : bproc (bres CachePruneReport) :=
  match enabled_gateway with
  | None => Ret (Ok {| CachesDeleted := []; SpaceReclaimed := 0 |})
  | Some g =>
      do request <- buildKitPruneRequest options;
      match request with
      | Err e => Ret (Err (Refused e))
      | Ok request =>
          do records <- embed OnGateway (Gateway.PruneCache g ctx request);
          Ret (match records with
               | Err e => Err (Wrapped "pruning BuildKit cache: %w" e)
               | Ok records => reclaim records {| CachesDeleted := []; SpaceReclaimed := 0 |}
               end)
      end
  end.

(** ** Disk usage *)

Definition cache_record (r : Gateway.UsageRecord) : CacheRecord := {|
  cr_ID := Gateway.us_ID r; cr_Parents := Gateway.us_Parents r; cr_Type := Gateway.us_RecordType r;
  cr_Description := Gateway.us_Description r; cr_InUse := Gateway.us_InUse r; cr_Shared := Gateway.us_Shared r;
  cr_Size := Gateway.us_Size r; cr_UsageCount := Gateway.us_UsageCount r;
  cr_CreatedAt := Gateway.us_CreatedAt r; cr_LastUsedAt := Gateway.us_LastUsedAt r |}.

Definition DiskUsage (ctx : option Identity) (verbose : bool) : bproc (bres (usage CacheRecord)) :=
  match enabled_gateway with
  | None => Ret (Ok no_usage)
  | Some g =>
      do response <- embed OnGateway (Gateway.DiskUsage g ctx []);
      Ret (match response with
           | Err e => Err (Wrapped "getting BuildKit cache usage: %w" e)
           | Ok None => Err (Failed "getting BuildKit cache usage: backend returned an empty response")
           | Ok (Some records) =>
               Ok (fold_left (λ u record,
                     add_usage verbose (Gateway.us_InUse record)
                       (negb (Gateway.us_InUse record) && negb (Gateway.us_Shared record))
                       (Gateway.us_Size record) (cache_record record) u) records no_usage)
           end)
  end.
End builder.
