(* ===== verification/BuilderProps.v ===== *)
(** * BuilderProps: what pruning the build cache asks and reports

    A prune request is translated without losing a filter or keeping less than was asked;
    the space that is reported is the exact sum of what was removed, or the report fails
    when the counter cannot hold it. *)

From S2P Require Import Prelude GoStrings Errors Filters Prog Threads Identity Net Oci Images System SystemProps Builder.
From S2P Require Gateway.

Local Open Scope Z_scope.

(** ** Reports *)

Definition reclaimed_by (record : Gateway.UsageRecord) : Z := Z.max 0 (Gateway.us_Size record).
Definition total_reclaimed (records : list Gateway.UsageRecord) : Z := foldr (λ r s, reclaimed_by r + s) 0 records.

Lemma total_reclaimed_pos records : 0 ≤ total_reclaimed records.
Proof. induction records as [|r records IH]; simpl; [lia|]. unfold reclaimed_by. lia. Qed.

(** The loop computes the sum that it must, and fails exactly if a [uint64] cannot hold it. *)
Lemma reclaim_exact records : ∀ report,
  0 ≤ SpaceReclaimed report ≤ uint64_max →
  reclaim records report =
  if SpaceReclaimed report + total_reclaimed records <=? uint64_max
  then Ok {| CachesDeleted := CachesDeleted report ++ (Gateway.us_ID <$> records);
             SpaceReclaimed := SpaceReclaimed report + total_reclaimed records |}
  else Err (Failed "BuildKit prune reclaimed size overflows uint64").
Proof.
  induction records as [|record records IH]; intros report Hreport; cbn [reclaim].
  { simpl. rewrite Z.add_0_r, app_nil_r. destruct (Z.leb_spec (SpaceReclaimed report) uint64_max); [by destruct report|lia]. }
  pose proof (total_reclaimed_pos records) as Hpos. rewrite fmap_cons. cbn [total_reclaimed foldr].
  fold (total_reclaimed records). unfold reclaimed_by.
  destruct (Z.leb_spec (Gateway.us_Size record) 0) as [Hsize|Hsize].
  - rewrite IH by done. cbn [SpaceReclaimed CachesDeleted]. rewrite Z.max_l, Z.add_0_l, <- app_assoc by lia. done.
  - rewrite Z.max_r by lia.
    destruct (Z.ltb_spec (uint64_max - SpaceReclaimed report) (Gateway.us_Size record)) as [Hover|Hfits].
    + destruct (Z.leb_spec (SpaceReclaimed report + (Gateway.us_Size record + total_reclaimed records)) uint64_max); [lia|done].
    + rewrite IH by (cbn [SpaceReclaimed]; lia). cbn [SpaceReclaimed CachesDeleted].
      rewrite <- app_assoc, Z.add_assoc. done.
Qed.

(** ** Requests *)

Section requests.
Context `{TimeParse} `{LayoutParse}.

(** How long what was used is kept: not at all without a filter of time. *)
Definition keeps (filters : Args) (h h' : history bcmd) (keepDuration : Z) : Prop :=
  match (if bool_decide (Get filters "until" = []) then Get filters "unused-for" else Get filters "until") with
  | [] => h' = h ∧ keepDuration = 0
  | value :: rest =>
      rest = [] ∧ ∃ reference now cutoff,
        h' = Event _ Now now :: Event _ Now reference :: h ∧ parsePruneTimestamp value reference = Some cutoff ∧
        keepDuration = Z.max (time_Sub now cutoff) 0
  end.

(** The request that the options are translated to. *)
Definition translates (options : CachePruneOptions) (request : Gateway.PruneRequest) (h h' : history bcmd) : Prop :=
  let filters := cp_Filters options in
  (Get filters "until" = [] ∨ Get filters "unused-for" = []) ∧
  (∀ key, key ∈ Keys filters → buildCachePruneFilters !! key = Some true ∧
     (time_key key = false → length (Get filters key) ≤ 1)%nat) ∧
  (∃ texts, buildkit_filters filters = Ok texts ∧ Gateway.pr_Filter request = [String.concat "," texts]) ∧
  keeps filters h h' (Gateway.pr_KeepDuration request) ∧
  0 ≤ Gateway.pr_KeepDuration request ≤ int64_max ∧
  Gateway.pr_All request = cp_All options ∧ Gateway.pr_ReservedSpace request = cp_ReservedSpace options ∧
  Gateway.pr_MaxUsedSpace request = cp_MaxUsedSpace options ∧ Gateway.pr_MinFreeSpace request = cp_MinFreeSpace options.

Lemma Validate_keys args accepted key :
  Validate args accepted = Ok tt → key ∈ Keys args → accepted !! key = Some true.
Proof.
  unfold Validate. destruct (List.find _ (Keys args)) eqn:Efind; [done|]. intros _ Hkey.
  pose proof (find_none _ _ Efind key (proj1 (list_elem_of_In _ _) Hkey)) as Hnone. simpl in Hnone.
  apply negb_false_iff in Hnone. by destruct (accepted !! key) as [[]|].
Qed.

Lemma result_mapM_all {E A B} (f : A → result E B) l r x :
  result_mapM f l = Ok r → x ∈ l → ∃ y, f x = Ok y.
Proof.
  revert r. induction l as [|a l IH]; intros r; [by intros _ Hx%not_elem_of_nil|]. cbn [result_mapM].
  destruct (f a) as [y|e] eqn:Ef; [|done]. cbn [result_bind]. destruct (result_mapM f l) as [ys|e]; [|done].
  intros _ [->|Hx]%elem_of_cons; [by exists y|]. by eapply IH.
Qed.

(** Every key that is not about time has a value at most. *)
Lemma buildkit_filters_keys filters texts key :
  buildkit_filters filters = Ok texts → key ∈ Keys filters → time_key key = false →
  (length (Get filters key) ≤ 1)%nat.
Proof.
  intros Hfilters Hkey Htime. destruct (result_mapM_all _ _ _ key Hfilters) as [text Htext].
  - apply list_elem_of_In, filter_In. split; [|by rewrite Htime]. apply list_elem_of_In. by apply elem_of_sort_by.
  - unfold buildkit_filter in Htext. destruct (Get filters key) as [|? [|]]; simpl; [lia|lia|done].
Qed.

Lemma time_Sub_bounds t u : 0 ≤ Z.max (time_Sub t u) 0 ≤ int64_max.
Proof. unfold time_Sub, int64_max, int64_min. lia. Qed.

Lemma buildKitPruneRequest_wp options h :
  wp any_answer (λ h X c, match c with Now => True | _ => False end) (buildKitPruneRequest options) h (λ h' r,
    ∀ request, r = Ok request → translates options request h h').
Proof.
  unfold buildKitPruneRequest. destruct (Validate _ _) as [[]|e] eqn:Evalid; [|by intros request].
  destruct (negb (bool_decide (Get (cp_Filters options) "until" = [])) && _) eqn:Econflict; [by intros request|].
  assert (Get (cp_Filters options) "until" = [] ∨ Get (cp_Filters options) "unused-for" = []) as Hone.
  { apply andb_false_iff in Econflict as [E%negb_false_iff%bool_decide_eq_true|E%negb_false_iff%bool_decide_eq_true]; auto. }
  destruct (Nat.ltb_spec 1 (length (Get (cp_Filters options) "until") + length (Get (cp_Filters options) "unused-for")))
    as [_|Hlength]; [by intros request|].
  assert (∀ keepDuration h', keeps (cp_Filters options) h h' keepDuration → 0 ≤ keepDuration ≤ int64_max →
    ∀ request, match buildkit_filters (cp_Filters options) with
      | Err e => Err e
      | Ok filters =>
          Ok {| Gateway.pr_Filter := [String.concat "," filters]; Gateway.pr_All := cp_All options;
                Gateway.pr_KeepDuration := keepDuration; Gateway.pr_ReservedSpace := cp_ReservedSpace options;
                Gateway.pr_MaxUsedSpace := cp_MaxUsedSpace options; Gateway.pr_MinFreeSpace := cp_MinFreeSpace options |}
      end = Ok request → translates options request h h') as Hrequest.
  { intros keepDuration h' Hkeeps Hbounds request.
    destruct (buildkit_filters _) as [texts|e] eqn:Etexts; [|done]. intros [= <-]. unfold translates. simpl.
    split_and!; try done; try lia; [|by exists texts]. intros key Hkey. split; [by eapply Validate_keys|].
    by eapply buildkit_filters_keys. }
  rewrite wp_bind_res.
  destruct (if bool_decide _ then _ else _) as [|value rest] eqn:Evalues.
  { rewrite wp_ret. refine (Hrequest 0 h _ _); [by unfold keeps; rewrite Evalues|]. unfold int64_max. lia. }
  assert (rest = []) as ->.
  { apply (f_equal length) in Evalues. simpl in Evalues. destruct rest; [done|]. exfalso. simpl in Evalues.
    destruct Hone as [E|E]; rewrite E in Evalues, Hlength; simpl in *; [lia|]. destruct (bool_decide _); simpl in *; lia. }
  rewrite wp_bind, wp_call. split; [done|]. intros reference _.
  destruct (parsePruneTimestamp value reference) as [cutoff|] eqn:Ecutoff; [|by intros request].
  rewrite wp_bind, wp_call. split; [done|]. intros now _. rewrite wp_ret. refine (Hrequest _ _ _ _); [|apply time_Sub_bounds].
  unfold keeps. rewrite Evalues. split; [done|]. by exists reference, now, cutoff.
Qed.

(** What a duration asks for is kept, as the clock does not run backwards. *)
Lemma duration_is_kept value d reference now :
  value ≠ "0" → ParseDuration value = Some d → 0 ≤ d ≤ int64_max → reference ≤ now → now - reference + d ≤ int64_max →
  ∃ cutoff, parsePruneTimestamp value reference = Some cutoff ∧ d ≤ Z.max (time_Sub now cutoff) 0.
Proof.
  intros Hvalue Hd Hbounds Hnow Hmax. unfold parsePruneTimestamp. rewrite bool_decide_eq_false_2, Hd by done.
  eexists. split; [done|]. rewrite wrap_signed_id by (unfold int64_max in *; lia).
  unfold time_Sub, int64_min, int64_max in *. lia.
Qed.

(** What an event says was pruned. *)
Definition pruned_of (e : event bcmd) : option (list Gateway.UsageRecord * Gateway.gres unit) :=
  match e with
  | Event _ c x =>
      match c in bcmd X return X → _ with
      | OnGateway _ c =>
          match c in Gateway.gcmd X return X → _ with
          | Gateway.BackendPrune _ => λ x, match x with Ok pruned => Some pruned | Err _ => None end
          | _ => λ _, None
          end
      | Now => λ _, None
      end x
  end.

Context (b : option Gateway.gateway).

(** the cache is pruned as it was asked, and the report is exact.  Without a backend
    nothing is asked and nothing is reported.  With one, a report is made only for a client
    with a tenant's identity, after the one request that the options translate to: it has
    the records that BuildKit removed in their order and the sum of their sizes, which fits
    in 64 bits.  And when BuildKit's stream of records ends well, the result is that report,
    or an error exactly if the sum does not fit. *)
Theorem PruneCache_exact ctx options h h' r :
  exec (PruneCache b ctx options) h h' r →
  match enabled_gateway b with
  | None => h' = h ∧ r = Ok {| CachesDeleted := []; SpaceReclaimed := 0 |}
  | Some _ =>
      (∀ report, r = Ok report → ∃ id request records h1,
         ctx = Some id ∧ ValidNamespace (Namespace id) = true ∧ translates options request h h1 ∧
         h' = Event _ (OnGateway _ (Gateway.BackendPrune request)) (Ok (records, Ok tt)) :: h1 ∧
         report = {| CachesDeleted := Gateway.us_ID <$> records; SpaceReclaimed := total_reclaimed records |} ∧
         total_reclaimed records ≤ uint64_max) ∧
      (∀ request records h1, h `suffix_of` h1 →
         h' = Event _ (OnGateway _ (Gateway.BackendPrune request)) (Ok (records, Ok tt)) :: h1 →
         r = if total_reclaimed records <=? uint64_max
             then Ok {| CachesDeleted := Gateway.us_ID <$> records; SpaceReclaimed := total_reclaimed records |}
             else Err (Failed "BuildKit prune reclaimed size overflows uint64"))
  end.
Proof.
  intros Hexec. unfold PruneCache in Hexec. destruct (enabled_gateway b) as [g|] eqn:Eg.
  2: { apply exec_inv in Hexec as [-> ->]. done. }
  apply exec_bind in Hexec as (h1 & request & Hrequest & Hexec).
  pose proof (exec_suffix _ _ _ _ Hrequest) as Hs.
  destruct (wp_exec _ _ _ _ _ _ _ (buildKitPruneRequest_wp options h) Hrequest (exec_any_answer _ _ _ _ Hrequest))
    as [Htranslates Hclock].
  (* Before the request nothing was pruned. *)
  assert (∀ req records h2, h `suffix_of` h2 →
    h1 ≠ Event _ (OnGateway _ (Gateway.BackendPrune req)) (Ok (records, Ok tt)) :: h2) as Hnot.
  { intros req records h2 Hs2 ->. apply along_inv in Hclock as [[] _]. intros ->.
    apply suffix_length in Hs2. simpl in Hs2. lia. }
  assert (∀ e : berror, h' = h1 → r = Err e →
    (∀ report, r = Ok report → ∃ id request records h1,
       ctx = Some id ∧ ValidNamespace (Namespace id) = true ∧ translates options request h h1 ∧
       h' = Event _ (OnGateway _ (Gateway.BackendPrune request)) (Ok (records, Ok tt)) :: h1 ∧
       report = {| CachesDeleted := Gateway.us_ID <$> records; SpaceReclaimed := total_reclaimed records |} ∧
       total_reclaimed records ≤ uint64_max) ∧
    (∀ request records h1, h `suffix_of` h1 →
       h' = Event _ (OnGateway _ (Gateway.BackendPrune request)) (Ok (records, Ok tt)) :: h1 →
       r = if total_reclaimed records <=? uint64_max
           then Ok {| CachesDeleted := Gateway.us_ID <$> records; SpaceReclaimed := total_reclaimed records |}
           else Err (Failed "BuildKit prune reclaimed size overflows uint64"))) as Hrefused.
  { intros e -> ->. split; [done|]. intros req records h2 Hs2 Hh. by destruct (Hnot req records h2). }
  destruct request as [request|e]; [|apply exec_inv in Hexec as [-> ->]; by eapply Hrefused].
  specialize (Htranslates request eq_refl). unfold Gateway.PruneCache, Gateway.check in Hexec.
  destruct ctx as [id|]; [|apply exec_inv in Hexec as [-> ->]; by eapply Hrefused].
  destruct (ValidNamespace (Namespace id)) eqn:Ens; [|apply exec_inv in Hexec as [-> ->]; by eapply Hrefused].
  destruct (Gateway.gw_enabled g); [|apply exec_inv in Hexec as [-> ->]; by eapply Hrefused].
  apply exec_inv in Hexec as [[[records ended]|e] Hexec]; apply exec_inv in Hexec as [-> ->]; [|].
  - destruct ended as [[]|e].
    + rewrite reclaim_exact by (unfold uint64_max; simpl; lia). cbn [SpaceReclaimed CachesDeleted]. rewrite Z.add_0_l, app_nil_l.
      split; [|intros req recs h2 _ Hh%(f_equal (fmap pruned_of ∘ head)); by injection Hh as ->].
      intros report. destruct (Z.leb_spec (total_reclaimed records) uint64_max); [|done]. intros [= <-].
      by exists id, request, records, h1.
    + split; [done|]. intros req recs h2 _ Hh%(f_equal (fmap pruned_of ∘ head)). done.
  - split; [done|]. intros req recs h2 _ Hh%(f_equal (fmap pruned_of ∘ head)). done.
Qed.
End requests.

(** ** Disk usage *)

(** The usage of the cache is exactly that of the records: those neither in use nor shared
    can be reclaimed. *)
Theorem DiskUsage_exact b ctx verbose h h' u :
  exec (DiskUsage b ctx verbose) h h' (Ok u) →
  match enabled_gateway b with
  | None => u = no_usage ∧ h' = h
  | Some _ => ∃ id records,
      ctx = Some id ∧ ValidNamespace (Namespace id) = true ∧
      h' = Event _ (OnGateway _ (Gateway.BackendDiskUsage [])) (Ok (Some records)) :: h ∧
      usage_exact verbose cr_InUse (λ c, negb (cr_InUse c) && negb (cr_Shared c)) cr_Size (cache_record <$> records) u
  end.
Proof.
  intros Hexec. unfold DiskUsage in Hexec. destruct (enabled_gateway b) as [g|].
  2: { apply exec_inv in Hexec as [[= ->] ->]. done. }
  unfold Gateway.DiskUsage, Gateway.check in Hexec.
  destruct ctx as [id|]; [|by apply exec_inv in Hexec as [? _]].
  destruct (ValidNamespace (Namespace id)) eqn:Ens; [|by apply exec_inv in Hexec as [? _]].
  destruct (Gateway.gw_enabled g); [|by apply exec_inv in Hexec as [? _]].
  apply exec_inv in Hexec as [[[records|]|e] Hexec]; apply exec_inv in Hexec as [Hu ->]; try done.
  injection Hu as ->. exists id, records. split_and!; try done.
  assert (∀ items u0, usage_exact verbose cr_InUse (λ c, negb (cr_InUse c) && negb (cr_Shared c)) cr_Size items u0 →
    usage_exact verbose cr_InUse (λ c, negb (cr_InUse c) && negb (cr_Shared c)) cr_Size (items ++ (cache_record <$> records))
      (fold_left (λ u record, add_usage verbose (Gateway.us_InUse record)
         (negb (Gateway.us_InUse record) && negb (Gateway.us_Shared record)) (Gateway.us_Size record) (cache_record record) u)
         records u0)) as Hfold.
  { clear. induction records as [|record records IH]; intros items u0 Hu; simpl; [by rewrite app_nil_r|].
    rewrite cons_middle, app_assoc. apply IH.
    by apply (add_usage_exact verbose cr_InUse (λ c, negb (cr_InUse c) && negb (cr_Shared c)) cr_Size items (cache_record record)). }
  apply (Hfold [] no_usage), no_usage_exact.
Qed.

(** ** Concrete inputs *)

Definition demo_times : TimeParse := {|
  Parse_RFC3339Nano _ := None;
  ParseFloat_seconds _ := None;
  ParseDuration s := if bool_decide (s = "24h") then Some (86400 * 10 ^ 9) else None
|}.
Definition demo_layouts : LayoutParse := {| ParseInLocation _ _ := None |}.
#[local] Existing Instances demo_times demo_layouts.

Definition demo_builder : option Gateway.gateway :=
  Some {| Gateway.gw_enabled := true; Gateway.registry_Scheme := "https"; Gateway.registry_Host := "registry" |}.
Definition demo_client : Identity :=
  {| Namespace := "acme"; Organization := "Acme"; CommonName := "alice"; Anonymous := false |}.

Definition demo_usage (id : string) (size : Z) (used : bool) : Gateway.UsageRecord := {|
  Gateway.us_ID := id; Gateway.us_Size := size; Gateway.us_InUse := used; Gateway.us_Shared := false;
  Gateway.us_Parents := []; Gateway.us_RecordType := "regular"; Gateway.us_Description := ""; Gateway.us_UsageCount := 1;
  Gateway.us_CreatedAt := None; Gateway.us_LastUsedAt := None |}.

Definition demo_records : list Gateway.UsageRecord :=
  [demo_usage "a" 10 false; demo_usage "b" (-1) false; demo_usage "c" 32 true].

(** A backend with three records, at a time. *)
Definition demo_backend X (c : bcmd X) (s : unit) : option (X * unit) :=
  match c in bcmd X return option (X * unit) with
  | OnGateway _ c =>
      match c in Gateway.gcmd X return option (X * unit) with
      | Gateway.BackendPrune _ => Some (Ok (demo_records, Ok tt), s)
      | Gateway.BackendDiskUsage _ => Some (Ok (Some demo_records), s)
      | _ => None
      end
  | Now => Some (63839664000 * 10 ^ 9, s)
  end.

Definition demo_options (filters : Args) : CachePruneOptions :=
  {| cp_All := true; cp_ReservedSpace := 0; cp_MaxUsedSpace := 0; cp_MinFreeSpace := 0; cp_Filters := filters |}.

Definition demo_pruning : CachePruneOptions := demo_options (NewArgs [Arg "until" "24h"; Arg "type" "regular"]).

Lemma PruneCache_exact_witness :
  match play demo_backend (PruneCache demo_builder (Some demo_client) demo_pruning) [] tt with
  | Some (Ok report, h, _) =>
      CachesDeleted report = ["a"; "b"; "c"] ∧ SpaceReclaimed report = 42 ∧
      ∃ request h1, translates demo_pruning request [] h1 ∧ Gateway.pr_KeepDuration request = 86400 * 10 ^ 9 ∧
        Gateway.pr_Filter request = ["type==regular"]
  | _ => False
  end.
Proof.
  destruct (play _ _ _ _) as [[[r h] s]|] eqn:Hplay; [|by vm_compute in Hplay].
  destruct r as [report|e]; [|by vm_compute in Hplay].
  assert (CachesDeleted report = ["a"; "b"; "c"] ∧ SpaceReclaimed report = 42) as [Hdeleted Hspace]
    by (vm_compute in Hplay; by injection Hplay as <- _ _).
  split_and!; [done..|].
  destruct (proj1 (PruneCache_exact demo_builder (Some demo_client) demo_pruning [] h (Ok report)
    (play_exec _ _ _ _ _ _ _ Hplay)) report eq_refl) as (id & request & records & h1 & _ & _ & Htranslates & Hh & _ & _).
  exists request, h1. split; [done|].
  assert (match h with Event _ c _ :: _ => match c with
            | OnGateway _ c => match c with
              | Gateway.BackendPrune request => Gateway.pr_KeepDuration request = 86400 * 10 ^ 9 ∧ Gateway.pr_Filter request = ["type==regular"]
              | _ => False end | _ => False end | _ => False end) as Hrequest
    by (vm_compute in Hplay; injection Hplay as _ <- _; by vm_compute).
  by rewrite Hh in Hrequest.
Defined.

(** Pruning with a backend is not refused, and the request says nothing of the tenant: any
    client removes the cache of all tenants. *)
Example tenant_prunes_shared_cache :
  let other := {| Namespace := "globex"; Organization := "Globex"; CommonName := "bob"; Anonymous := false |} in
  let requests id :=
    match play demo_backend (PruneCache demo_builder (Some id) (demo_options (NewArgs []))) [] tt with
    | Some (Ok report, h, _) => Some (report, Gateway.pr_Filter <$> omap (λ e, match e with
        | Event _ c _ => match c with
            | OnGateway _ c => match c with Gateway.BackendPrune request => Some request | _ => None end
            | Now => None end end) h)
    | _ => None
    end in
  requests demo_client = Some ({| CachesDeleted := ["a"; "b"; "c"]; SpaceReclaimed := 42 |}, [[""]]) ∧
  requests other = requests demo_client.
Proof. by vm_compute. Qed.

Lemma DiskUsage_exact_witness :
  match play demo_backend (DiskUsage demo_builder (Some demo_client) false) [] tt with
  | Some (Ok u, _, _) =>
      TotalCount u = 3 ∧ Reclaimable u = 9 ∧
      ∃ records, usage_exact false cr_InUse (λ c, negb (cr_InUse c) && negb (cr_Shared c)) cr_Size (cache_record <$> records) u
  | _ => False
  end.
Proof.
  destruct (play _ _ _ _) as [[[r h] s]|] eqn:Hplay; [|by vm_compute in Hplay].
  destruct r as [u|e]; [|by vm_compute in Hplay].
  pose proof (DiskUsage_exact demo_builder (Some demo_client) false [] h u (play_exec _ _ _ _ _ _ _ Hplay)) as Hu.
  split_and!; [by vm_compute in Hplay; injection Hplay as <- _ _..|].
  destruct Hu as (id & records & _ & _ & _ & Hu). by exists records.
Defined.

(** Durations are not the only cutoffs: dates and times since 1970 are, too. *)
Example prune_timestamps :
  parsePruneTimestamp "24h" 0 = Some (- 86400 * 10 ^ 9) ∧
  parsePruneTimestamp "0" 5 = Some (62135596800 * 10 ^ 9) ∧
  parsePruneTimestamp "10.25" 0 = Some (62135596810 * 10 ^ 9 + 250000000) ∧
  parsePruneTimestamp "10.25x" 0 = None ∧ parsePruneTimestamp "9223372036854775808" 0 = None.
Proof. by vm_compute. Qed.
