(* ===== verification/Logs.v ===== *)
(** * Logs: the output of containers and services

    [core/translator/container_logs.go] and [core/translator/swarm_logs.go]: which Pods are
    asked for their output and with what options, how a line becomes a message, and the
    goroutines that tag the messages and merge the streams, as a transition system: one
    reads the output of the Pod, one tags, one sends to the common channel, and each waits
    for the next one or for the end of the context.  The channels hold nothing, so that a
    message goes from one goroutine to the next in one step.  The loops of
    [core/server/router/container/routes_logs.go] and [core/server/router/swarm/logs.go],
    which write the messages to the client, are functions of the messages. *)

From S2P Require Import Gateway Builder.
From S2P Require Import Prelude GoStrings Errors Prog Kube Docker Filters Identity Validation Workload Services Volumes.
From S2P Require Import Networks SwarmSpec Swarm SwarmService SwarmTask.

Local Open Scope string_scope.

(** ** Data *)

Record LogAttr := { la_Key : string; la_Value : string }.

(** [backend.LogMessage]; times are nanoseconds since the zero time. *)
Record LogMessage := {
  lm_Source : string; lm_Line : string; lm_Timestamp : Z; lm_Attrs : list LogAttr; lm_Err : option error
}.

(** [backend.ContainerLogsOptions] *)
Record LogsOptions := {
  lo_ShowStdout : bool; lo_ShowStderr : bool; lo_Since : Z; lo_Until : Z;
  lo_Follow : bool; lo_Timestamps : bool; lo_Tail : string; lo_Details : bool
}.

(** [corev1.PodLogOptions] *)
Record PodLogOptions := {
  pl_Container : string; pl_Follow : bool; pl_Timestamps : bool;
  pl_SinceTime : option Z; pl_TailLines : option Z
}.

(** [backend.LogSelector] *)
Record LogSelector := { sel_Services : list string; sel_Tasks : list string }.

(** ** Commands *)

(** An open stream is known by a number. *)
Inductive lcmd : Type → Type :=
| OnPods (X : Type) (c : cmd X) : lcmd X
| GetLogs (namespace pod : string) (options : PodLogOptions) : lcmd (res nat).

Abbreviation lproc := (prog lcmd).

Definition on_pods {A} : proc A → lproc A := embed OnPods.

(** What the goroutine of [podLogs] is started with. *)
Record log_stream := { ls_Stream : nat; ls_Until : Z }.

(** ** Messages *)

(** [reader.ReadBytes('\n')] on what is not read yet: the line, what follows it, and
    whether the line ends there. *)
Fixpoint ReadBytes (unread : string) : string * string * bool :=
  match unread with
  | EmptyString => ("", "", false)
  | String c rest =>
      if Ascii.eqb c "010" then (String c "", rest, true)
      else let '(line, rest, ended) := ReadBytes rest in (String c line, rest, ended)
  end.

Section messages.
Context `{TimeParse}.

(** A line of the output as a message; the zero time stands for a timestamp that does not
    parse. *)
Definition log_message (line : string) : LogMessage :=
  let '(stamp, after, found) := Cut line " " in
  let body := if found : bool then after else line in
  let '(timestamp, body) :=
    match Parse_RFC3339Nano stamp with Some t => (t, body) | None => (0%Z, line) end in
  {| lm_Source := "stdout"; lm_Line := body; lm_Timestamp := timestamp; lm_Attrs := []; lm_Err := None |}.

(** [options.Until.IsZero() || !timestamp.After(options.Until)] *)
Definition until_allows (until : Z) (m : LogMessage) : bool :=
  (until =? 0)%Z || (lm_Timestamp m <=? until)%Z.

Definition error_message (e : error) : LogMessage :=
  {| lm_Source := ""; lm_Line := ""; lm_Timestamp := 0; lm_Attrs := []; lm_Err := Some e |}.

(** What follows a line: the next one, or the end of the output. *)
Inductive reader :=
| Reading (unread : string)
| Offering (m : LogMessage) (next : reader)
| Finishing
| Closed.

(** One iteration of the loop, up to the message it sends. *)
Definition read_line (until : Z) (unread : string) : reader :=
  let '(line, rest, ended) := ReadBytes unread in
  let next := if ended : bool then Reading rest else Finishing in
  if decide (line = "") then next
  else if until_allows until (log_message line) then Offering (log_message line) next else next.

(** [readErr != io.EOF && ctx.Err() == nil] *)
Definition finish_reading (ending : option error) (cancelled : bool) : reader :=
  match ending with
  | Some e => if cancelled then Closed else Offering (error_message e) Closed
  | None => Closed
  end.
End messages.

(** [withLogAttrs] *)
Definition tag_message (attrs : list LogAttr) (m : LogMessage) : LogMessage :=
  match lm_Err m with
  | None => {| lm_Source := lm_Source m; lm_Line := lm_Line m; lm_Timestamp := lm_Timestamp m;
               lm_Attrs := (attrs ++ lm_Attrs m)%list; lm_Err := None |}
  | Some _ => m
  end.

(** ** The requests *)

Definition log_options_required : error := InvalidArgument (errors_New "log options are required").

(** [options.Tail], unless it asks for everything. *)
Definition tail_lines (tail : string) : res (option Z) :=
  if bool_decide (tail = "") || bool_decide (tail = "all") then Ok None
  else match ParseInt64 tail with
       | Some lines => if (lines <? 0)%Z then Err (InvalidArgument (errors_New "invalid log tail %q"))
                       else Ok (Some lines)
       | None => Err (InvalidArgument (errors_New "invalid log tail %q"))
       end.

Definition pod_log_options (container : string) (options : LogsOptions) (tail : option Z) : PodLogOptions :=
  {| pl_Container := container; pl_Follow := lo_Follow options; pl_Timestamps := true;
     pl_SinceTime := if (lo_Since options =? 0)%Z then None else Some (lo_Since options);
     pl_TailLines := tail |}.

Definition podLogs (namespace : string) (pod : Pod) (containerName : string) (options : option LogsOptions) :
    lproc (res log_stream) :=
  match options with
  | None => Ret (Err log_options_required)
  | Some options =>
      match named_container (pod_Containers pod) containerName with
      | Err e => Ret (Err e)
      | Ok podContainer =>
          if negb (lo_Until options =? 0)%Z && lo_Follow options
          then Ret (Err (InvalidArgument
                 (errors_New "following logs with an until timestamp is not supported")))
          else match tail_lines (lo_Tail options) with
          | Err e => Ret (Err e)
          | Ok tail =>
              do stream <- call (GetLogs namespace (Name pod)
                                   (pod_log_options (Ctr_Name podContainer) options tail));
              Ret (match stream with
                   | Err e => Err (kubeError e)
                   | Ok stream => Ok {| ls_Stream := stream; ls_Until := lo_Until options |}
                   end)
          end
      end
  end.

(** The loop over the Pods: the first, or the first that runs. *)
Definition select_pod (selected : option Pod) (pod : Pod) : option Pod :=
  match selected with
  | None => Some pod
  | Some current =>
      if bool_decide (Phase pod = "Running") && negb (bool_decide (Phase current = "Running"))
      then Some pod else selected
  end.

Section containers.
Context `{Validation}.

Definition ContainerLogs (ctx : context) (name : string) (options : option LogsOptions) :
    lproc (res (log_stream * bool)) :=
  do? deployment <- on_pods (findContainer ctx name);
  match options with
  | None => Ret (Err log_options_required)
  | Some o =>
      if lo_Details o || negb (lo_ShowStdout o) || negb (lo_ShowStderr o)
      then Ret (Err (Unsupported (errors_New
             "kubernetes pod logs cannot separate stdout and stderr or provide Docker log attributes")))
      else
        do pods <- call (OnPods _ (KList KPod (Namespace deployment) (app_selector deployment)));
        match pods with
        | Err e => Ret (Err (kubeError e))
        | Ok pods =>
            match fold_left select_pod pods None with
            | None => Ret (Err (NotFound (errors_New "no pod found for container %s")))
            | Some selected =>
                match named_container (pod_Containers selected) (Name deployment) with
                | Err e => Ret (Err e)
                | Ok podContainer =>
                    do? messages <- podLogs (Namespace deployment) selected (Name deployment) options;
                    Ret (Ok (messages, Ctr_TTY podContainer))
                end
            end
        end
  end.
End containers.

Section services.
Context `{Unicode} `{ServiceCodec} `{NetworkOrder} `{PodOrder}.

(** The Pods of the services and tasks that are asked for, of those listed. *)
Fixpoint service_pods (ctx : context) (pods : list Pod) (names : list string) : proc (res (list Pod)) :=
  match names with
  | [] => Ret (Ok [])
  | name :: names =>
      do? deployment <- findService ctx name;
      do? selected <- service_pods ctx pods names;
      Ret (Ok (List.filter (λ pod : Pod, bool_decide (mget (Labels pod) "app" = Name deployment) &&
                                   negb (bool_decide (is_Some (DeletionTimestamp pod)))) pods ++ selected)%list)
  end.

Fixpoint task_pods (ctx : context) (pods : list Pod) (ids : list string) : proc (res (list Pod)) :=
  match ids with
  | [] => Ret (Ok [])
  | id :: ids =>
      do? task <- GetTask ctx id;
      do? selected <- task_pods ctx pods ids;
      Ret (Ok (List.filter (λ pod : Pod, bool_decide (Name pod = tk_Name task)) pods ++ selected)%list)
  end.

Definition selectedPods (ctx : context) (namespace : string) (selector : LogSelector) : proc (res (list Pod)) :=
  do pods <- call (KList KPod namespace swarmServiceSelector);
  match pods with
  | Err e => Ret (Err (kubeError e))
  | Ok pods =>
      do? services <- service_pods ctx pods (sel_Services selector);
      do? tasks <- task_pods ctx pods (sel_Tasks selector);
      Ret (Ok (services ++ tasks)%list)
  end.

Definition task_attrs (task : Task) : list LogAttr :=
  [{| la_Key := "com.docker.swarm.node.id"; la_Value := NodeID task |};
   {| la_Key := "com.docker.swarm.service.id"; la_Value := tk_ServiceID task |};
   {| la_Key := "com.docker.swarm.task.id"; la_Value := tk_ID task |}].

(** The map [byPod]: a later task replaces an earlier one. *)
Definition tasks_by_pod (tasks : list Task) : gmap string Task :=
  list_to_map (rev ((λ t, (tk_Name t, t)) <$> tasks)).

(** The loop that opens the streams, each with the attributes of its messages. *)
Fixpoint open_streams (namespace : string) (options : option LogsOptions) (byPod : gmap string Task)
    (pods : list Pod) : lproc (res (list (log_stream * list LogAttr))) :=
  match pods with
  | [] => Ret (Ok [])
  | pod :: pods =>
      match byPod !! Name pod with
      | None => Ret (Err (NotFound (errors_New "task for pod %s no longer exists")))
      | Some task =>
          do? stream <- podLogs namespace pod (mget (tk_Labels task) "com.docker.swarm.service.name") options;
          do? streams <- open_streams namespace options byPod pods;
          Ret (Ok ((stream, task_attrs task) :: streams))
      end
  end.

Definition ServiceLogs (ctx : context) (selector : option LogSelector) (options : option LogsOptions) :
    lproc (res (list (log_stream * list LogAttr))) :=
  match selector with
  | None => Ret (Err (InvalidArgument (errors_New "a service or task must be selected")))
  | Some selector =>
      if bool_decide (sel_Services selector = []) && bool_decide (sel_Tasks selector = [])
      then Ret (Err (InvalidArgument (errors_New "a service or task must be selected")))
      else match swarm_namespace ctx with
      | Err e => Ret (Err e)
      | Ok namespace =>
          do? pods <- on_pods (selectedPods ctx namespace selector);
          if bool_decide (pods = [])
          then Ret (Err (NotFound (errors_New "no running task found for the selected service")))
          else
            do? tasks <- on_pods (list_tasks ctx false);
            open_streams namespace options (tasks_by_pod tasks) pods
      end
  end.
End services.

(** ** The goroutines *)

(** A goroutine that passes on what it receives: [withLogAttrs], and the sending one of
    [mergeLogStreams]. *)
Inductive relay := Ready | Holding (m : LogMessage) | Done.

Record pipeline := { p_reader : reader; p_tagger : relay; p_sender : relay }.

(** The Pod's output, and the error at its end unless it is [io.EOF]. *)
Record output := { out_Content : string; out_Ending : option error }.

Section goroutines.
Context `{TimeParse}.

(** What one stream is started with, and one step of its goroutines; [emit] is what the
    common channel receives. *)
Context (until : Z) (attrs : list LogAttr) (content : output).

Inductive pipe_step (cancelled : bool) : pipeline → option LogMessage → pipeline → Prop :=
| pipe_read unread t s :
    pipe_step cancelled {| p_reader := Reading unread; p_tagger := t; p_sender := s |} None
      {| p_reader := read_line until unread; p_tagger := t; p_sender := s |}
| pipe_finish t s :
    pipe_step cancelled {| p_reader := Finishing; p_tagger := t; p_sender := s |} None
      {| p_reader := finish_reading (out_Ending content) cancelled; p_tagger := t; p_sender := s |}
| pipe_offer m next s :
    pipe_step cancelled {| p_reader := Offering m next; p_tagger := Ready; p_sender := s |} None
      {| p_reader := next; p_tagger := Holding (tag_message attrs m); p_sender := s |}
| pipe_end s :
    pipe_step cancelled {| p_reader := Closed; p_tagger := Ready; p_sender := s |} None
      {| p_reader := Closed; p_tagger := Done; p_sender := s |}
| pipe_pass r m :
    pipe_step cancelled {| p_reader := r; p_tagger := Holding m; p_sender := Ready |} None
      {| p_reader := r; p_tagger := Ready; p_sender := Holding m |}
| pipe_done r :
    pipe_step cancelled {| p_reader := r; p_tagger := Done; p_sender := Ready |} None
      {| p_reader := r; p_tagger := Done; p_sender := Done |}
| pipe_send r t m :
    pipe_step cancelled {| p_reader := r; p_tagger := t; p_sender := Holding m |} (Some m)
      {| p_reader := r; p_tagger := t; p_sender := Ready |}
(* the context has ended: a read fails, and the waits are over *)
| pipe_read_ends unread t s :
    cancelled = true →
    pipe_step cancelled {| p_reader := Reading unread; p_tagger := t; p_sender := s |} None
      {| p_reader := Closed; p_tagger := t; p_sender := s |}
| pipe_offer_ends m next t s :
    cancelled = true →
    pipe_step cancelled {| p_reader := Offering m next; p_tagger := t; p_sender := s |} None
      {| p_reader := Closed; p_tagger := t; p_sender := s |}
| pipe_tagger_ends r m s :
    cancelled = true →
    pipe_step cancelled {| p_reader := r; p_tagger := Holding m; p_sender := s |} None
      {| p_reader := r; p_tagger := Done; p_sender := s |}
| pipe_sender_ends r t m :
    cancelled = true →
    pipe_step cancelled {| p_reader := r; p_tagger := t; p_sender := Holding m |} None
      {| p_reader := r; p_tagger := t; p_sender := Done |}.
End goroutines.

(** The streams with their goroutines, the messages that were received from the common
    channel, each with the number of its stream, and whether that channel is closed. *)
Record merging := {
  pipes : list pipeline; received : list (nat * LogMessage); ctx_done : bool; merged_closed : bool
}.

Definition start_pipe (content : output) : pipeline :=
  {| p_reader := Reading (out_Content content); p_tagger := Ready; p_sender := Ready |}.

Section merging.
Context `{TimeParse}.

(** The streams: until when, with which attributes, and what the Pod's output is. *)
Context (streams : list (Z * list LogAttr * output)).

Definition mergeLogStreams : merging :=
  {| pipes := start_pipe <$> (snd <$> streams); received := []; ctx_done := false; merged_closed := false |}.

Inductive merge_step (s : merging) : merging → Prop :=
| merge_pipe i until attrs content p emit p' :
    streams !! i = Some (until, attrs, content) → pipes s !! i = Some p →
    pipe_step until attrs content (ctx_done s) p emit p' →
    merge_step s {| pipes := <[i := p']> (pipes s);
                    received := (received s ++ match emit with Some m => [(i, m)] | None => [] end)%list;
                    ctx_done := ctx_done s; merged_closed := merged_closed s |}
| merge_cancel :
    ctx_done s = false →
    merge_step s {| pipes := pipes s; received := received s; ctx_done := true;
                    merged_closed := merged_closed s |}
(* [wait.Wait(); close(merged)] *)
| merge_close :
    merged_closed s = false → (∀ p, p ∈ pipes s → p_sender p = Done) →
    merge_step s {| pipes := pipes s; received := received s; ctx_done := ctx_done s;
                    merged_closed := true |}.
End merging.

(** ** Writing to the client *)

(** [url.QueryEscape] *)
Definition hex_digit (n : N) : ascii := ascii_of_N (if (n <? 10)%N then 48 + n else 55 + n).

Definition query_safe (c : ascii) : bool := is_alnum c || has_char c "-_.~".

Fixpoint QueryEscape (s : string) : string :=
  match s with
  | EmptyString => ""
  | String c s =>
      if query_safe c then String c (QueryEscape s)
      else if Ascii.eqb c " " then String "+" (QueryEscape s)
      else String "%" (String (hex_digit (N.shiftr (N_of_ascii c) 4))
             (String (hex_digit (N.land (N_of_ascii c) 15)) (QueryEscape s)))
  end.

(** [appendLogAttrs], to an empty slice: by key, as a query *)
Definition appendLogAttrs (attrs : list LogAttr) : string :=
  String.concat "," ((λ a, QueryEscape (la_Key a) +:+ "=" +:+ QueryEscape (la_Value a)) <$>
                     sort_by la_Key attrs).

(** The layout of nine digits, of a time in UTC. *)
Definition FormatFixed (t : Z) : string :=
  let seconds := (t / 10 ^ 9)%Z in
  let '(y, m, d) := civil_date (seconds / 86400) in
  let s := (seconds mod 86400)%Z in
  pad_digits 4 y +:+ "-" +:+ pad_digits 2 m +:+ "-" +:+ pad_digits 2 d +:+ "T" +:+
  pad_digits 2 (s / 3600) +:+ ":" +:+ pad_digits 2 (s / 60 mod 60) +:+ ":" +:+
  pad_digits 2 (s mod 60) +:+ "." +:+ pad_digits 9 (t mod 10 ^ 9) +:+ "Z".

(** [binary.BigEndian.PutUint32] of a length, which wraps around, after the byte of the
    stream. *)
Definition byte (z : Z) : ascii := ascii_of_N (Z.to_N (z mod 256)).

Definition frame_header (length : Z) : string :=
  let n := (length mod 2 ^ 32)%Z in
  String "001" (String "000" (String "000" (String "000"
    (String (byte (n / 2 ^ 24)) (String (byte (n / 2 ^ 16)) (String (byte (n / 2 ^ 8)) (String (byte n) ""))))))).

Definition frame (line : string) : string := frame_header (Z.of_nat (len line)) +:+ line.

(** The loop of [swarmLogs]: what is written, and the error it returns, until the channel
    is closed; every write succeeds, and times are in UTC. *)
Fixpoint write_service_logs (details timestamps : bool) (messages : list LogMessage) : string * option error :=
  match messages with
  | [] => ("", None)
  | m :: messages =>
      match lm_Err m with
      | Some e => ("", Some e)
      | None =>
          let line := if details then appendLogAttrs (lm_Attrs m) +:+ " " +:+ lm_Line m else lm_Line m in
          let line := if timestamps then FormatRFC3339Nano (lm_Timestamp m) +:+ " " +:+ line else line in
          let '(written, e) := write_service_logs details timestamps messages in
          (frame line +:+ written, e)
      end
  end.

(** The loop of [getContainersLogs]. *)
Fixpoint write_container_logs (tty showStdout timestamps : bool) (messages : list LogMessage) : string * option error :=
  match messages with
  | [] => ("", None)
  | m :: messages =>
      match lm_Err m with
      | Some e => ("", Some e)
      | None =>
          let '(written, e) := write_container_logs tty showStdout timestamps messages in
          if negb (bool_decide (lm_Source m = "stdout")) || negb showStdout then (written, e)
          else
            let line := if timestamps then FormatFixed (lm_Timestamp m) +:+ " " +:+ lm_Line m else lm_Line m in
            ((if tty then line else frame line) +:+ written, e)
      end
  end.

(** [time.Unix] of the whole and the fractional part of a number, if it is one and finite. *)
Class UnixSeconds := { ParseFloat_Unix : string → option Z }.

(** The options that the handlers make of the query. *)
Section handlers.
Context `{UnixSeconds}.

Inductive log_refusal := BadRequest | NotImplemented.

Definition parseLogTime (raw : string) : option Z :=
  if bool_decide (raw = "") || bool_decide (raw = "0") then Some 0%Z else ParseFloat_Unix raw.

(** [queryBool] *)
Definition queryBool (query : string → string) (key : string) : result log_refusal bool :=
  if decide (query key = "") then Ok false
  else match ParseBool (query key) with Some b => Ok b | None => Err BadRequest end.

Definition query_time (query : string → string) (key : string) : result log_refusal Z :=
  match parseLogTime (query key) with Some t => Ok t | None => Err BadRequest end.

(** The guards on stdout and stderr. *)
Definition query_streams (query : string → string) : result log_refusal (bool * bool) :=
  let? stdout := queryBool query "stdout" in
  let? stderr := queryBool query "stderr" in
  if negb stdout && negb stderr then Err BadRequest
  else if negb stdout then Err NotImplemented
  else Ok (stdout, stderr).

Definition container_log_query (query : string → string) : result log_refusal LogsOptions :=
  let? '(stdout, stderr) := query_streams query in
  let? since := query_time query "since" in
  let? until := query_time query "until" in
  let? follow := queryBool query "follow" in
  let? timestamps := queryBool query "timestamps" in
  let? details := queryBool query "details" in
  if details : bool then Err NotImplemented
  else Ok {| lo_ShowStdout := stdout; lo_ShowStderr := stderr; lo_Since := since; lo_Until := until;
             lo_Follow := follow; lo_Timestamps := timestamps; lo_Tail := query "tail"; lo_Details := false |}.

(** With whether attributes are shown, which the options do not hold. *)
Definition service_log_query (query : string → string) : result log_refusal (LogsOptions * bool) :=
  let? '(stdout, stderr) := query_streams query in
  let? details := queryBool query "details" in
  let? since := query_time query "since" in
  let? follow := queryBool query "follow" in
  let? timestamps := queryBool query "timestamps" in
  Ok ({| lo_ShowStdout := stdout; lo_ShowStderr := stderr; lo_Since := since; lo_Until := 0;
         lo_Follow := follow; lo_Timestamps := timestamps; lo_Tail := query "tail"; lo_Details := false |}, details).
End handlers.
