(* ===== verification/LogsProps.v ===== *)
(** * LogsProps: the output of a service arrives complete and in order

    The goroutines between the Pods and the client keep the order of every stream, lose
    nothing unless the request has ended, and always come to an end; what is written to the
    client reads back; and the Pods whose output is asked for are those of the selection. *)

From S2P Require Import Prelude GoStrings Errors Prog Kube Cluster Docker Filters Identity Validation Workload Services Volumes.
From S2P Require Import Threads Swarm SwarmSpec SwarmService SwarmTask Networks SwarmProps Logs TaskProps.

Local Open Scope string_scope.

(** ** Lines *)

Lemma ReadBytes_app s line rest ended : ReadBytes s = (line, rest, ended) → s = line +:+ rest.
Proof.
  revert line. induction s as [|c s IH]; intros line; simpl; [by intros [= <- <- <-]|].
  destruct (Ascii.eqb c "010"); [by intros [= <- <- <-]|].
  destruct (ReadBytes s) as [[l r] e]. intros [= <- <- <-]. rewrite sapp_cons. f_equal. by apply IH.
Qed.

Lemma ReadBytes_rest s line rest ended :
  ReadBytes s = (line, rest, ended) → if ended then (len rest < len s)%nat else rest = "".
Proof.
  revert line. induction s as [|c s IH]; intros line; simpl; [by intros [= <- <- <-]|].
  destruct (Ascii.eqb c "010"); [intros [= <- <- <-]; lia|].
  destruct (ReadBytes s) as [[l r] e]. intros [= <- <- <-]. specialize (IH l eq_refl). destruct e; [lia|done].
Qed.

(** The lines of a text, each with its newline but perhaps the last. *)
Fixpoint lines_fuel (n : nat) (s : string) : list string :=
  match n with
  | O => []
  | S n =>
      let '(line, rest, ended) := ReadBytes s in
      ((if decide (line = "") then [] else [line]) ++ (if ended : bool then lines_fuel n rest else []))%list
  end.
Definition read_lines (s : string) : list string := lines_fuel (S (len s)) s.

Lemma lines_fuel_enough n m s : (len s < n)%nat → (len s < m)%nat → lines_fuel n s = lines_fuel m s.
Proof.
  revert m s. induction n as [|n IH]; intros m s Hn Hm; [lia|]. destruct m as [|m]; [lia|]. simpl.
  destruct (ReadBytes s) as [[line rest] ended] eqn:E. destruct ended; [|done].
  apply ReadBytes_rest in E. f_equal. apply IH; lia.
Qed.

Lemma read_lines_step s :
  read_lines s =
    let '(line, rest, ended) := ReadBytes s in
    ((if decide (line = "") then [] else [line]) ++ (if ended : bool then read_lines rest else []))%list.
Proof.
  unfold read_lines at 1. cbn [lines_fuel]. destruct (ReadBytes s) as [[line rest] ended] eqn:E.
  destruct ended; [|done]. apply ReadBytes_rest in E. f_equal. apply lines_fuel_enough; lia.
Qed.

Lemma read_lines_concat s : String.concat "" (read_lines s) = s.
Proof.
  assert (∀ n, (len s < n)%nat → String.concat "" (lines_fuel n s) = s) as Hgen; [|by apply Hgen; lia].
  intros n. revert s. induction n as [|n IH]; intros s Hn; [lia|]. simpl.
  destruct (ReadBytes s) as [[line rest] ended] eqn:E. pose proof (ReadBytes_app _ _ _ _ E) as ->.
  pose proof (ReadBytes_rest _ _ _ _ E) as Hrest.
  assert (String.concat "" (if ended then lines_fuel n rest else []) = rest) as Hr.
  { destruct ended; [apply IH; lia|by rewrite Hrest]. }
  destruct (decide (line = "")) as [->|_]; [done|]. simpl.
  destruct (if ended then _ else _) as [|l ls] eqn:El; simpl in Hr |- *.
  - by rewrite <- Hr, sapp_nil_r.
  - by rewrite Hr.
Qed.

Section goroutines.
Context `{TimeParse}.

(** ** What a stream brings *)

Definition ending_messages (out : output) : list LogMessage :=
  match out_Ending out with Some e => [error_message e] | None => [] end.

Definition line_messages (until : Z) (unread : string) : list LogMessage :=
  List.filter (until_allows until) (log_message <$> read_lines unread).

(** All messages of one stream, as they reach the client. *)
Definition stream_messages (stream : Z * list LogAttr * output) : list LogMessage :=
  let '(until, attrs, out) := stream in
  tag_message attrs <$> (line_messages until (out_Content out) ++ ending_messages out)%list.

Fixpoint to_come (until : Z) (out : output) (r : reader) : list LogMessage :=
  match r with
  | Reading unread => (line_messages until unread ++ ending_messages out)%list
  | Offering m next => m :: to_come until out next
  | Finishing => ending_messages out
  | Closed => []
  end.

Definition through (r : relay) (l : list LogMessage) : list LogMessage :=
  match r with Ready => l | Holding m => m :: l | Done => [] end.

(** What a stream still brings. *)
Definition flow (until : Z) (attrs : list LogAttr) (out : output) (p : pipeline) : list LogMessage :=
  through (p_sender p) (through (p_tagger p) (tag_message attrs <$> to_come until out (p_reader p))).

Lemma to_come_read until out unread :
  to_come until out (read_line until unread) = to_come until out (Reading unread).
Proof.
  unfold read_line. simpl. unfold line_messages. rewrite read_lines_step.
  destruct (ReadBytes unread) as [[line rest] ended].
  assert (to_come until out (if ended then Reading rest else Finishing) =
    (List.filter (until_allows until) (log_message <$> (if ended then read_lines rest else [])) ++
     ending_messages out)%list) as Hnext by by destruct ended.
  destruct (decide (line = "")) as [->|_]; [exact Hnext|]. cbn [app fmap list_fmap List.filter].
  destruct (until_allows until (log_message line)); [|exact Hnext]. cbn [to_come app]. by f_equal.
Qed.

Lemma through_prefix r l l' : l `prefix_of` l' → through r l `prefix_of` through r l'.
Proof. destruct r; simpl; [done|by apply prefix_cons|done]. Qed.

Lemma emitted_app {A} (x : option A) : ∀ l : list A,
  (match x with Some m => [m] | None => [] end ++ l)%list = match x with Some m => m :: l | None => l end.
Proof. by destruct x. Qed.

Lemma pipe_flow until attrs out cancelled p emit p' :
  pipe_step until attrs out cancelled p emit p' →
  let brought := (match emit with Some m => [m] | None => [] end ++ flow until attrs out p')%list in
  if cancelled then brought `prefix_of` flow until attrs out p else brought = flow until attrs out p.
Proof.
  cbv zeta. intros Hstep.
  assert (∀ l l' : list LogMessage, l = l' → if cancelled then l `prefix_of` l' else l = l') as Heq.
  { intros l l' ->. by destruct cancelled. }
  destruct Hstep; subst; unfold flow; cbn [p_reader p_tagger p_sender through app to_come fmap list_fmap].
  - apply Heq. by rewrite to_come_read.
  - unfold finish_reading, ending_messages. destruct (out_Ending out) as [e|]; [|by apply Heq].
    destruct cancelled; [|done]. apply through_prefix, through_prefix, prefix_nil.
  - by apply Heq.
  - by apply Heq.
  - by apply Heq.
  - by apply Heq.
  - by apply Heq.
  - apply through_prefix, through_prefix, prefix_nil.
  - apply through_prefix, through_prefix, prefix_nil.
  - apply through_prefix. simpl. apply prefix_nil.
  - apply prefix_nil.
Qed.

(** ** Merging *)

Definition of_stream (i : nat) (l : list (nat * LogMessage)) : list LogMessage :=
  snd <$> filter (λ x, x.1 = i) l.

Definition in_order (streams : list (Z * list LogAttr * output)) (s : merging) : Prop :=
  length (pipes s) = length streams ∧
  (∀ i, (length streams ≤ i)%nat → of_stream i (received s) = []) ∧
  ∀ i until attrs out p, streams !! i = Some (until, attrs, out) → pipes s !! i = Some p →
    let all := (of_stream i (received s) ++ flow until attrs out p)%list in
    if ctx_done s then all `prefix_of` stream_messages (until, attrs, out)
    else all = stream_messages (until, attrs, out).

Lemma of_stream_app i l l' : of_stream i (l ++ l') = (of_stream i l ++ of_stream i l')%list.
Proof. unfold of_stream. by rewrite filter_app, fmap_app. Qed.

Lemma of_stream_emit i j (emit : option LogMessage) :
  of_stream i (match emit with Some m => [(j, m)] | None => [] end) =
  if decide (j = i) then match emit with Some m => [m] | None => [] end else [].
Proof.
  destruct emit as [m|]; [|by destruct (decide _)]. unfold of_stream.
  destruct (decide (j = i)) as [->|Hne].
  - by rewrite filter_cons_True.
  - by rewrite filter_cons_False.
Qed.

Lemma in_order_start streams : in_order streams (mergeLogStreams streams).
Proof.
  split_and!; [unfold mergeLogStreams; simpl; by rewrite !length_fmap|done|]. intros i until attrs out p Hs Hp all. simpl in *.
  rewrite !list_lookup_fmap, Hs in Hp. injection Hp as <-. done.
Qed.

Lemma in_order_step streams s s' : merge_step streams s s' → in_order streams s → in_order streams s'.
Proof.
  intros Hstep (Hlen & Hnone & Hall). destruct Hstep as [i until attrs out p emit p' Hs Hp Hpipe|Hc|_ _]; unfold in_order;
    cbn [pipes received ctx_done].
  - split_and!; [by rewrite length_insert| |].
    + intros j Hj. simpl. rewrite of_stream_app, of_stream_emit, Hnone by done.
      rewrite decide_False; [done|]. intros ->. apply lookup_lt_Some in Hs. lia.
    + intros j until' attrs' out' q Hs' Hq. cbn [received ctx_done pipes] in *. rewrite of_stream_app, of_stream_emit.
      destruct (decide (i = j)) as [<-|Hne].
      * rewrite list_lookup_insert_eq in Hq by (by eapply lookup_lt_Some). simplify_eq.
        specialize (Hall i _ _ _ _ Hs Hp). apply pipe_flow in Hpipe. cbv zeta in *. rewrite <- app_assoc.
        destruct (ctx_done s); [|by rewrite Hpipe].
        etrans; [|exact Hall]. by apply prefix_app.
      * rewrite list_lookup_insert_ne in Hq by done. rewrite app_nil_r. by apply Hall.
  - split_and!; [done..|]. intros i until attrs out p Hs Hp. cbn [received ctx_done pipes] in *. cbv zeta.
    specialize (Hall i _ _ _ _ Hs Hp). cbv zeta in Hall. rewrite Hc in Hall. by rewrite Hall.
  - by split_and!.
Qed.

Definition merge_reachable (streams : list (Z * list LogAttr * output)) : merging → Prop :=
  rtc (merge_step streams) (mergeLogStreams streams).

Lemma in_order_reachable streams s : merge_reachable streams s → in_order streams s.
Proof.
  assert (∀ s1 s2, rtc (merge_step streams) s1 s2 → in_order streams s1 → in_order streams s2) as Hgen.
  { induction 1 as [|s1 s2 s3 Hstep _ IH]; [done|]. intros Hs. by eapply IH, in_order_step. }
  intros Hr. eapply Hgen, in_order_start. exact Hr.
Qed.

Definition closed_when_done (s : merging) : Prop :=
  merged_closed s = true → ∀ p, p ∈ pipes s → p_sender p = Done.

Lemma closed_reachable streams s : merge_reachable streams s → closed_when_done s.
Proof.
  assert (∀ s1 s2, rtc (merge_step streams) s1 s2 → closed_when_done s1 → closed_when_done s2) as Hgen.
  { induction 1 as [|s1 s2 s3 Hstep _ IH]; [done|]. intros Hs. apply IH. clear IH.
    destruct Hstep as [i until attrs out p emit p' Hi Hp Hpipe|Hc|Hc Hall]; [|exact Hs|by intros _].
    intros Hclosed q Hq. cbn [pipes merged_closed] in *. specialize (Hs Hclosed).
    assert (p_sender p = Done) as Hdone by (by eapply Hs, list_elem_of_lookup_2).
    apply list_elem_of_lookup_1 in Hq as [j Hj]. destruct (decide (i = j)) as [<-|Hne].
    2: { rewrite list_lookup_insert_ne in Hj by done. by eapply Hs, list_elem_of_lookup_2. }
    rewrite list_lookup_insert_eq in Hj by (by eapply lookup_lt_Some). injection Hj as <-.
    destruct Hpipe; simpl in *; congruence. }
  intros Hr. by eapply Hgen.
Qed.

(** What the log of one Pod says, of its output and without the code's reading of it.
    The first field of a line, up to the first space or all of it, and the rest. *)
Definition first_field (line stamp body : string) : Prop :=
  has_char " " stamp = false ∧ (line = stamp +:+ " " +:+ body ∨ line = stamp ∧ body = line).

(** The time of a line and its text: those of its stamp, or all of the line without one. *)
Definition dated (line : string) (t : Z) (body : string) : Prop :=
  ∃ stamp rest, first_field line stamp rest ∧
    (Parse_RFC3339Nano stamp = Some t ∧ body = rest ∨ Parse_RFC3339Nano stamp = None ∧ t = 0%Z ∧ body = line).

(** The lines of an output: each ends with its only newline, but for the last, which may
    have none. *)
Definition lines_of (content : string) (lines : list string) : Prop :=
  String.concat "" lines = content ∧
  ∃ whole last, lines = (((λ l, l +:+ String "010" "") <$> whole) ++ last)%list ∧
    Forall (λ l, has_char "010" l = false) whole ∧
    (last = [] ∨ ∃ l, last = [l] ∧ l ≠ "" ∧ has_char "010" l = false).

(** The messages of the lines, unless they are of a time after the last that is asked for;
    the attributes are those of the task. *)
Inductive tells (until : Z) (attrs : list LogAttr) : list string → list LogMessage → Prop :=
| tells_nothing : tells until attrs [] []
| tells_line line lines t body messages :
    dated line t body → (until = 0 ∨ t ≤ until)%Z → tells until attrs lines messages →
    tells until attrs (line :: lines)
      ({| lm_Source := "stdout"; lm_Line := body; lm_Timestamp := t; lm_Attrs := attrs; lm_Err := None |} ::
       messages)
| tells_not_later line lines t body messages :
    dated line t body → (until ≠ 0 ∧ until < t)%Z → tells until attrs lines messages →
    tells until attrs (line :: lines) messages.

(** All that a stream has to bring: its lines, and the error that ended the output. *)
Definition brings (stream : Z * list LogAttr * output) (messages : list LogMessage) : Prop :=
  let '(until, attrs, out) := stream in
  ∃ lines told, lines_of (out_Content out) lines ∧ tells until attrs lines told ∧
    messages = (told ++ match out_Ending out with
                        | None => []
                        | Some e => [{| lm_Source := ""; lm_Line := ""; lm_Timestamp := 0; lm_Attrs := [];
                                        lm_Err := Some e |}]
                        end)%list.

Lemma ReadBytes_line s line rest ended :
  ReadBytes s = (line, rest, ended) →
  if ended : bool then ∃ b, line = b +:+ String "010" "" ∧ has_char "010" b = false else has_char "010" line = false.
Proof.
  revert line. induction s as [|c s IH]; intros line; simpl; [by intros [= <- <- <-]|].
  destruct (Ascii.eqb c "010") eqn:Ec.
  - apply Ascii.eqb_eq in Ec as ->. intros [= <- <- <-]. by exists "".
  - destruct (ReadBytes s) as [[l r] e]. intros [= <- <- <-]. specialize (IH l eq_refl).
    assert (∀ t, has_char "010" t = false → has_char "010" (String c t) = false) as Hcons.
    { intros t Ht. cbn [has_char]. by rewrite Ht, Ascii.eqb_sym, Ec. }
    destruct e; [|by apply Hcons]. destruct IH as (b & -> & Hb). exists (String c b).
    split; [done|by apply Hcons].
Qed.

Lemma read_lines_of content : lines_of content (read_lines content).
Proof.
  split; [apply read_lines_concat|]. unfold read_lines. generalize (S (len content)). intros n.
  revert content. induction n as [|n IH]; intros content; cbn [lines_fuel].
  { exists [], []. by split_and!; [|constructor|left]. }
  destruct (ReadBytes content) as [[line rest] ended] eqn:E. apply ReadBytes_line in E. destruct ended.
  - destruct E as (b & -> & Hb). rewrite decide_False by (by destruct b).
    destruct (IH rest) as (whole & last & -> & Hw & Hl). exists (b :: whole), last.
    by split_and!; [|constructor|].
  - exists [], (if decide (line = "") then [] else [line]). rewrite app_nil_r. split_and!; [done|constructor|].
    destruct (decide _); [by left|right]. by exists line.
Qed.

Lemma Cut_char_absent c s b a : Cut s (String c "") = (b, a, false) → has_char c b = false ∧ b = s.
Proof.
  revert b a. induction s as [|d s IH]; intros b a; simpl; [by intros [= <- <-]|].
  destruct (Ascii.eqb_spec c d) as [->|Hne]; [done|].
  destruct (Cut s (String c "")) as [[b' a'] []] eqn:E; [done|].
  intros [= <- <-]. destruct (IH b' a' eq_refl) as [Hb ->]. split; [|done]. simpl.
  by rewrite Hb, orb_false_r; apply Ascii.eqb_neq.
Qed.

Lemma log_message_dated line :
  ∃ t body, dated line t body ∧
    log_message line = {| lm_Source := "stdout"; lm_Line := body; lm_Timestamp := t; lm_Attrs := []; lm_Err := None |}.
Proof.
  unfold log_message. destruct (Cut line " ") as [[stamp after] found] eqn:E.
  assert (first_field line stamp (if found then after else line)) as Hf.
  { destruct found.
    - split; [by apply Cut_char_before in E|]. left. by apply Cut_true in E.
    - apply Cut_char_absent in E as [Hc ->]. split; [done|by right]. }
  destruct (Parse_RFC3339Nano stamp) as [t|] eqn:Ep.
  - exists t, (if found then after else line). split; [|done]. exists stamp, (if found then after else line). auto.
  - exists 0%Z, line. split; [|done]. exists stamp, (if found then after else line). auto.
Qed.

Lemma line_messages_tell until attrs lines :
  tells until attrs lines (tag_message attrs <$> List.filter (until_allows until) (log_message <$> lines)).
Proof.
  induction lines as [|line lines IH]; cbn [fmap list_fmap List.filter]; [constructor|].
  destruct (log_message_dated line) as (t & body & Hd & ->). unfold until_allows at 1. cbn [lm_Timestamp].
  destruct ((until =? 0)%Z || (t <=? until)%Z) eqn:Hu.
  - cbn [fmap list_fmap]. unfold tag_message at 1. cbn [lm_Err lm_Source lm_Line lm_Timestamp lm_Attrs].
    rewrite app_nil_r. apply tells_line; [done| |exact IH]. apply orb_true_iff in Hu. lia.
  - eapply tells_not_later; [exact Hd| |exact IH]. apply orb_false_iff in Hu. lia.
Qed.

Lemma stream_messages_brings stream : brings stream (stream_messages stream).
Proof.
  destruct stream as [[until attrs] out]. exists (read_lines (out_Content out)). eexists.
  split; [apply read_lines_of|]. split; [apply line_messages_tell|].
  unfold stream_messages, ending_messages. rewrite fmap_app. by destruct (out_Ending out).
Qed.

(** C26: the log of a service loses nothing and keeps the order of each stream.  However the
    goroutines interleave: what the client has received of one stream is a beginning of the
    messages of its Pod's output, in their order: the lines, each without its stamp and with
    the stamp's time, not those after the last time that is asked for, every one with the
    attributes of its task, and then the error that ended the output.  Nothing else is
    received; and when the common channel is closed without the request having ended,
    every stream was received to its end. *)
Theorem service_logs_in_order streams s i :
  merge_reachable streams s →
  match streams !! i with
  | Some stream => ∃ messages, brings stream messages ∧
      of_stream i (received s) `prefix_of` messages ∧
      (ctx_done s = false → merged_closed s = true → of_stream i (received s) = messages)
  | None => of_stream i (received s) = []
  end.
Proof.
  intros Hr. destruct (in_order_reachable _ _ Hr) as (Hlen & Hnone & Hall).
  destruct (streams !! i) as [[[until attrs] out]|] eqn:Hi.
  2: { apply Hnone. by apply lookup_ge_None. }
  eexists. split; [apply stream_messages_brings|].
  destruct (lookup_lt_is_Some_2 (pipes s) i) as [p Hp].
  { rewrite Hlen. by eapply lookup_lt_Some. }
  specialize (Hall i _ _ _ _ Hi Hp). cbv zeta in Hall. split.
  - destruct (ctx_done s); [|rewrite <- Hall; by apply prefix_app_r].
    etrans; [|exact Hall]. by apply prefix_app_r.
  - intros Hc Hclosed. rewrite Hc in Hall. pose proof (closed_reachable _ _ Hr Hclosed p) as Hdone.
    rewrite <- Hall. unfold flow. rewrite Hdone by (by eapply list_elem_of_lookup_2). by rewrite app_nil_r.
Qed.

(** ** The end *)

Fixpoint reader_work (r : reader) : nat :=
  match r with
  | Reading unread => 8 + 4 * len unread
  | Offering _ next => 3 + reader_work next
  | Finishing => 4
  | Closed => 0
  end.
Definition relay_work (held : nat) (r : relay) : nat :=
  match r with Ready => 1 | Holding _ => held | Done => 0 end.
Definition pipe_work (p : pipeline) : nat :=
  reader_work (p_reader p) + relay_work 3 (p_tagger p) + relay_work 2 (p_sender p).

Lemma read_line_work until unread : (reader_work (read_line until unread) < reader_work (Reading unread))%nat.
Proof.
  unfold read_line. destruct (ReadBytes unread) as [[line rest] ended] eqn:E. apply ReadBytes_rest in E.
  destruct (decide _); [|destruct (until_allows _ _)]; destruct ended; simpl; lia.
Qed.

Lemma pipe_step_work until attrs out cancelled p emit p' :
  pipe_step until attrs out cancelled p emit p' → (pipe_work p' < pipe_work p)%nat.
Proof.
  destruct 1; unfold pipe_work; cbn [p_reader p_tagger p_sender relay_work reader_work]; try lia.
  - pose proof (read_line_work until unread) as Hw. simpl in Hw. lia.
  - unfold finish_reading. destruct (out_Ending out), cancelled; simpl; lia.
Qed.

Definition merge_work (s : merging) : nat :=
  sum_list_with pipe_work (pipes s) + (if ctx_done s then 0 else 1) + (if merged_closed s then 0 else 1).

Lemma merge_step_work streams s s' : merge_step streams s s' → (merge_work s' < merge_work s)%nat.
Proof.
  destruct 1 as [i until attrs out p emit p' _ Hp Hpipe|Hc|Hc _]; unfold merge_work; cbn [pipes ctx_done merged_closed].
  - apply pipe_step_work in Hpipe.
    assert (sum_list_with pipe_work (<[i := p']> (pipes s)) < sum_list_with pipe_work (pipes s))%nat; [|lia].
    rewrite <- (take_drop_middle _ _ _ Hp) at 2.
    rewrite insert_take_drop by (by eapply lookup_lt_Some). rewrite !sum_list_with_app. simpl. lia.
  - rewrite Hc. lia.
  - rewrite Hc. lia.
Qed.

Lemma merge_terminates streams s : sn (merge_step streams) s.
Proof.
  assert (∀ n s, (merge_work s < n)%nat → sn (merge_step streams) s) as Hgen; [|exact (Hgen _ _ (Nat.lt_succ_diag_r _))].
  induction n as [|n IH]; intros s1 Hn; [lia|]. constructor. intros s2 Hstep%merge_step_work. apply IH. lia.
Qed.

(** A stream that has not ended can go on, and without its reader once the request has ended. *)
Lemma pipe_progress until attrs out cancelled p :
  p_sender p ≠ Done →
  ∃ emit p', pipe_step until attrs out cancelled p emit p' ∧ (cancelled = true → emit = None).
Proof.
  destruct p as [r t []]; cbn [p_sender]; intros Hne; [| |done].
  2: { destruct cancelled; [|by eexists _, _; split; [apply pipe_send|]].
       by eexists _, _; split; [by apply pipe_sender_ends|]. }
  destruct t as [|m|]; [|by eexists _, _; split; [apply pipe_pass|]|by eexists _, _; split; [apply pipe_done|]].
  destruct r.
  - by eexists _, _; split; [apply pipe_read|].
  - by eexists _, _; split; [apply pipe_offer|].
  - by eexists _, _; split; [apply pipe_finish|].
  - by eexists _, _; split; [apply pipe_end|].
Qed.

Definition quiet_step (streams : list (Z * list LogAttr * output)) (s s' : merging) : Prop :=
  merge_step streams s s' ∧ received s' = received s.

#[local] Instance sender_done_dec p : Decision (p_sender p = Done).
Proof. destruct (p_sender p); [by right|by right|by left]. Defined.

Lemma merge_progress streams s :
  in_order streams s → merged_closed s = false →
  ∃ s', merge_step streams s s' ∧ (ctx_done s = true → ctx_done s' = true ∧ received s' = received s).
Proof.
  intros (Hlen & _ & _) Hclosed.
  destruct (decide (Forall (λ p, p_sender p = Done) (pipes s))) as [Hall|Hnot].
  { eexists. split; [apply merge_close; [done|by apply Forall_forall]|done]. }
  apply not_Forall_Exists in Hnot; [|apply _]. apply Exists_exists in Hnot as (p & Hin & Hp).
  apply list_elem_of_lookup_1 in Hin as [i Hi].
  destruct (lookup_lt_is_Some_2 streams i) as [[[until attrs] out] Hs].
  { rewrite <- Hlen. by eapply lookup_lt_Some. }
  destruct (pipe_progress until attrs out (ctx_done s) p Hp) as (emit & p' & Hstep & Hquiet).
  eexists. split; [by eapply merge_pipe|]. simpl. intros Hc. split; [done|]. by rewrite (Hquiet Hc), app_nil_r.
Qed.

(** the log of a service always comes to its end.  The goroutines take only finitely
    many steps; they stop only when the common channel is closed; and once the request has
    ended they get there without anybody to read what they hold, so that none is left
    behind.  (Outputs are finite texts: one that is followed ends with the request.) *)
Theorem service_logs_end streams s :
  merge_reachable streams s →
  sn (merge_step streams) s ∧
  ((∀ s', ~ merge_step streams s s') → merged_closed s = true) ∧
  (ctx_done s = true → ∃ s', rtc (quiet_step streams) s s' ∧ merged_closed s' = true).
Proof.
  intros Hr%in_order_reachable. split_and!; [apply merge_terminates| |].
  - intros Hstuck. destruct (merged_closed s) eqn:Hc; [done|].
    destruct (merge_progress _ _ Hr Hc) as (s' & Hs' & _). by destruct (Hstuck s').
  - pose proof (merge_terminates streams s) as Hsn. revert Hr.
    induction Hsn as [s _ IH]. intros Hr Hc. destruct (merged_closed s) eqn:Hclosed; [by exists s|].
    destruct (merge_progress _ _ Hr Hclosed) as (s1 & Hs1 & Hquiet). destruct (Hquiet Hc) as [Hc1 Hrec].
    destruct (IH s1 Hs1 (in_order_step _ _ _ Hs1 Hr) Hc1) as (s2 & Hs2 & Hclosed2).
    exists s2. split; [|done]. by eapply rtc_l.
Qed.
End goroutines.

(** ** What the client reads *)

(** A reader of the multiplexed stream, as Docker's client has it: a header of the stream
    and the length of the payload, and the payload. *)
Fixpoint demultiplex (n : nat) (s : string) : option (list string) :=
  match n, s with
  | _, EmptyString => Some []
  | S n, String t (String _ (String _ (String _ (String a (String b (String c (String d rest))))))) =>
      let length := N.to_nat (N_of_ascii a * 2 ^ 24 + N_of_ascii b * 2 ^ 16 + N_of_ascii c * 2 ^ 8 + N_of_ascii d) in
      if Ascii.eqb t "001" && (length <=? len rest)%nat
      then cons (take_chars length rest) <$> demultiplex n (slice_from rest length)
      else None
  | _, _ => None
  end.

Lemma byte_value z : (0 ≤ z)%Z → N_of_ascii (byte z) = Z.to_N (z mod 256).
Proof. intros Hz. unfold byte. apply N_ascii_embedding. pose proof (Z.mod_pos_bound z 256). lia. Qed.

Lemma bytes_value z :
  (0 ≤ z < 2 ^ 32)%Z →
  (Z.to_N (z / 2 ^ 24 mod 256) * 2 ^ 24 + Z.to_N (z / 2 ^ 16 mod 256) * 2 ^ 16 + Z.to_N (z / 2 ^ 8 mod 256) * 2 ^ 8 +
   Z.to_N (z mod 256))%N = Z.to_N z.
Proof.
  intros Hz. change (2 ^ 24)%N with 16777216%N. change (2 ^ 16)%N with 65536%N. change (2 ^ 8)%N with 256%N.
  change (2 ^ 24)%Z with 16777216%Z. change (2 ^ 16)%Z with 65536%Z. change (2 ^ 8)%Z with 256%Z.
  change (2 ^ 32)%Z with 4294967296%Z in Hz. Z.div_mod_to_equations. lia.
Qed.

Lemma slice_from_app s t : slice_from (s +:+ t) (len s) = t.
Proof.
  unfold slice_from, slice. rewrite substring_app, len_app.
  replace (len s + len t - len s)%nat with (len t) by lia. apply take_chars_all. lia.
Qed.

Lemma demultiplex_frame n line rest :
  (Z.of_nat (len line) < 2 ^ 32)%Z →
  demultiplex (S n) (frame line +:+ rest) = cons line <$> demultiplex n rest.
Proof.
  intros Hlen. unfold frame, frame_header. rewrite Z.mod_small by lia. rewrite !sapp_cons, sapp_nil_l. cbn [demultiplex].
  rewrite !byte_value by (try apply Z.div_pos; lia). rewrite bytes_value by lia.
  replace (N.to_nat (Z.to_N (Z.of_nat (len line)))) with (len line) by lia.
  rewrite len_app, take_chars_app, slice_from_app.
  by rewrite (proj2 (Nat.leb_le (len line) (len line + len rest))) by lia.
Qed.

Lemma demultiplex_frames lines n :
  Forall (λ line, Z.of_nat (len line) < 2 ^ 32)%Z lines → (length lines ≤ n)%nat →
  demultiplex n (String.concat "" (frame <$> lines)) = Some lines.
Proof.
  intros Hall. revert n. induction Hall as [|line lines Hline _ IH]; intros n Hn; [by destruct n|].
  destruct n as [|n]; simpl in Hn; [lia|].
  assert (String.concat "" (frame <$> line :: lines) = frame line +:+ String.concat "" (frame <$> lines)) as ->.
  { rewrite fmap_cons. destruct (frame <$> lines); simpl; [by rewrite sapp_nil_r|done]. }
  rewrite demultiplex_frame by done. by rewrite IH by lia.
Qed.

(** The messages before the first error, and that error. *)
Fixpoint before_error (messages : list LogMessage) : list LogMessage :=
  match messages with
  | m :: messages => match lm_Err m with Some _ => [] | None => m :: before_error messages end
  | [] => []
  end.
Fixpoint first_error (messages : list LogMessage) : option error :=
  match messages with
  | m :: messages => match lm_Err m with Some e => Some e | None => first_error messages end
  | [] => None
  end.

(** The line that stands for a message. *)
Definition service_line (details timestamps : bool) (m : LogMessage) : string :=
  (if timestamps then FormatRFC3339Nano (lm_Timestamp m) +:+ " " else "") +:+
  (if details then appendLogAttrs (lm_Attrs m) +:+ " " else "") +:+ lm_Line m.
Definition container_line (timestamps : bool) (m : LogMessage) : string :=
  (if timestamps then FormatFixed (lm_Timestamp m) +:+ " " else "") +:+ lm_Line m.

Lemma concat_cons_nil (s : string) (l : list string) : String.concat "" (s :: l) = s +:+ String.concat "" l.
Proof. destruct l; simpl; [by rewrite sapp_nil_r|done]. Qed.

Lemma write_service_spec details timestamps messages :
  write_service_logs details timestamps messages =
  (String.concat "" (frame <$> (service_line details timestamps <$> before_error messages)), first_error messages).
Proof.
  induction messages as [|m messages IH]; [done|]. cbn [write_service_logs before_error first_error].
  destruct (lm_Err m) as [e|]; [done|]. rewrite IH, !fmap_cons, concat_cons_nil.
  assert (service_line details timestamps m =
    let line := if details then appendLogAttrs (lm_Attrs m) +:+ " " +:+ lm_Line m else lm_Line m in
    if timestamps then FormatRFC3339Nano (lm_Timestamp m) +:+ " " +:+ line else line) as ->; [|done].
  unfold service_line. destruct details, timestamps; cbv zeta; by rewrite ?sapp_nil_l, ?sapp_assoc, ?sapp_nil_r.
Qed.

Definition from_stdout (m : LogMessage) : Prop := lm_Source m = "stdout".

Lemma write_container_spec tty timestamps messages :
  (∀ m, m ∈ before_error messages → from_stdout m) →
  write_container_logs tty true timestamps messages =
  (String.concat "" ((if tty then id else frame) <$> (container_line timestamps <$> before_error messages)),
   first_error messages).
Proof.
  induction messages as [|m messages IH]; intros Hout; [done|]. cbn [write_container_logs before_error first_error] in *.
  destruct (lm_Err m) as [e|]; [done|]. rewrite IH by set_solver. rewrite bool_decide_true by (apply Hout; by left).
  cbn [negb orb]. rewrite !fmap_cons, concat_cons_nil. f_equal.
  unfold container_line. destruct tty, timestamps; simpl; by rewrite ?sapp_assoc, ?sapp_nil_l.
Qed.

(** *** Attributes *)

Definition unhex (c : ascii) : option N :=
  let n := N_of_ascii c in
  if ((48 <=? n) && (n <=? 57))%N then Some (n - 48)%N
  else if ((65 <=? n) && (n <=? 70))%N then Some (n - 55)%N else None.

(** [url.QueryUnescape], of capital digits *)
Fixpoint QueryUnescape (s : string) : option string :=
  match s with
  | EmptyString => Some ""
  | String "%" (String a (String b s)) =>
      match unhex a, unhex b with
      | Some h, Some l => String (ascii_of_N (h * 16 + l)) <$> QueryUnescape s
      | _, _ => None
      end
  | String c s => String (if Ascii.eqb c "+" then " " else c) <$> QueryUnescape s
  end.

Lemma QueryUnescape_plain c s :
  Ascii.eqb c "%" = false →
  QueryUnescape (String c s) = String (if Ascii.eqb c "+" then " " else c) <$> QueryUnescape s.
Proof. destruct c as [[] [] [] [] [] [] [] []]; by intros. Qed.

Lemma unhex_digits c :
  ∃ h l, unhex (hex_digit (N.shiftr (N_of_ascii c) 4)) = Some h ∧ unhex (hex_digit (N.land (N_of_ascii c) 15)) = Some l ∧
    ascii_of_N (h * 16 + l) = c.
Proof. destruct c as [[] [] [] [] [] [] [] []]; by do 2 eexists; split_and!; vm_compute. Qed.

Lemma query_safe_plain c : query_safe c = true → Ascii.eqb c "%" = false ∧ Ascii.eqb c "+" = false.
Proof. destruct c as [[] [] [] [] [] [] [] []]; by vm_compute. Qed.

Lemma QueryUnescape_escape s : QueryUnescape (QueryEscape s) = Some s.
Proof.
  induction s as [|c s IH]; [done|]. cbn [QueryEscape].
  destruct (query_safe c) eqn:Esafe.
  { destruct (query_safe_plain _ Esafe) as [Hp Hplus]. by rewrite QueryUnescape_plain, Hplus, IH by done. }
  destruct (Ascii.eqb_spec c " ") as [->|_]; [by rewrite QueryUnescape_plain, IH by done|].
  destruct (unhex_digits c) as (h & l & Hh & Hl & Hc). cbn [QueryUnescape]. by rewrite Hh, Hl, IH, <- Hc at 1.
Qed.

Definition hex_digits : string := "0123456789ABCDEF".

Lemma hex_digit_char c :
  has_char (hex_digit (N.shiftr (N_of_ascii c) 4)) hex_digits = true ∧
  has_char (hex_digit (N.land (N_of_ascii c) 15)) hex_digits = true.
Proof. destruct c as [[] [] [] [] [] [] [] []]; by vm_compute. Qed.

(** An escaped text holds no separator. *)
Lemma QueryEscape_no_char c s :
  query_safe c = false → Ascii.eqb c "+" = false → Ascii.eqb c "%" = false → has_char c hex_digits = false →
  has_char c (QueryEscape s) = false.
Proof.
  intros Hunsafe Hplus Hpercent Hhex.
  assert (∀ d, has_char d hex_digits = true → Ascii.eqb c d = false) as Hdigit.
  { intros d Hd. apply Ascii.eqb_neq. intros ->. by rewrite Hd in Hhex. }
  induction s as [|d s IH]; [done|]. cbn [QueryEscape]. destruct (query_safe d) eqn:Ed.
  { simpl. rewrite IH, orb_false_r. apply Ascii.eqb_neq. intros ->. by rewrite Ed in Hunsafe. }
  destruct (hex_digit_char d) as [H1 H2].
  destruct (Ascii.eqb d " "); cbn [has_char]; [by rewrite Hplus, IH|].
  by rewrite Hpercent, (Hdigit _ H1), (Hdigit _ H2), IH.
Qed.

(** *** Splitting what was joined *)

Lemma split_joined c parts n :
  parts ≠ [] → Forall (λ p, has_char c p = false) parts → (length parts ≤ S n)%nat →
  split_fuel n (String.concat (String c "") parts) (String c "") = parts.
Proof.
  intros Hne Hall. revert n. induction Hall as [|p parts Hp Hall IH]; intros n Hn; [done|]. clear Hne.
  destruct parts as [|q parts].
  { simpl String.concat. destruct n as [|n]; [done|]. simpl. by rewrite Cut_char_none. }
  destruct n as [|n]; [simpl in Hn; lia|].
  assert (String.concat (String c "") (p :: q :: parts) = p +:+ String c (String.concat (String c "") (q :: parts))) as ->
    by done.
  cbn [split_fuel]. rewrite Cut_char by done. f_equal. apply IH; [done|simpl in Hn |- *; lia].
Qed.

Lemma joined_length c parts : (length parts ≤ S (len (String.concat (String c "") parts)))%nat.
Proof.
  induction parts as [|p [|q parts] IH]; simpl in *; [lia|lia|].
  rewrite !len_app. simpl. lia.
Qed.

(** The attributes that a client reads from the details of a line. *)
Definition parse_attr (entry : string) : option LogAttr :=
  let '(key, value, found) := Cut entry "=" in
  if found : bool then
    key ← QueryUnescape key; value ← QueryUnescape value; Some {| la_Key := key; la_Value := value |}
  else None.
Definition parse_details (details : string) : option (list LogAttr) := mapM parse_attr (Split details ",").

Definition attr_entry (a : LogAttr) : string := QueryEscape (la_Key a) +:+ "=" +:+ QueryEscape (la_Value a).

Lemma parse_attr_entry a : parse_attr (attr_entry a) = Some a.
Proof.
  unfold parse_attr, attr_entry. change ("=" +:+ ?s) with (String "=" s).
  rewrite Cut_char by by apply QueryEscape_no_char. rewrite !QueryUnescape_escape. by destruct a.
Qed.

Lemma attr_entry_no_char c a :
  query_safe c = false → Ascii.eqb c "+" = false → Ascii.eqb c "%" = false → has_char c hex_digits = false →
  Ascii.eqb c "=" = false → has_char c (attr_entry a) = false.
Proof.
  intros H1 H2 H3 H4 H5. unfold attr_entry. rewrite !has_char_app, !QueryEscape_no_char by done.
  cbn [has_char]. by rewrite H5.
Qed.

Lemma appendLogAttrs_no_space attrs : has_char " " (appendLogAttrs attrs) = false.
Proof.
  unfold appendLogAttrs. induction (sort_by la_Key attrs) as [|a l IH]; [done|].
  destruct l as [|b l]; [by apply attr_entry_no_char|].
  change (has_char " " (attr_entry a +:+ "," +:+ String.concat "," (attr_entry <$> b :: l)) = false).
  rewrite !has_char_app. rewrite attr_entry_no_char by done. exact IH.
Qed.

Lemma details_read_back attrs :
  attrs ≠ [] → parse_details (appendLogAttrs attrs) = Some (sort_by la_Key attrs).
Proof.
  intros Hne. unfold parse_details, Split, appendLogAttrs.
  change (λ a, QueryEscape (la_Key a) +:+ "=" +:+ QueryEscape (la_Value a)) with attr_entry.
  rewrite split_joined.
  - induction (sort_by la_Key attrs) as [|a l IH]; [done|]. cbn [fmap list_fmap mapM]. rewrite parse_attr_entry.
    simpl. by rewrite IH.
  - intros Hnil%fmap_nil_inv. apply Hne. destruct attrs as [|a attrs]; [done|].
    assert (a ∈ sort_by la_Key (a :: attrs)) as Hin by (apply elem_of_sort_by; by left). rewrite Hnil in Hin. set_solver.
  - apply Forall_fmap, Forall_true. intros a. by apply attr_entry_no_char.
  - apply joined_length.
Qed.

(** what is written to the client reads back.  Of the messages before the first error,
    each is one frame, from which the client reads its line, if it is shorter than 4 GiB;
    the error is returned.  With details, the line starts with the attributes, by key, from
    which the client reads keys and values as they were, whatever characters they have. *)
Theorem service_logs_read_back details timestamps messages :
  let lines := service_line details timestamps <$> before_error messages in
  Forall (λ line, Z.of_nat (len line) < 2 ^ 32)%Z lines →
  (∃ written, write_service_logs details timestamps messages = (written, first_error messages) ∧
     ∀ n, (length lines ≤ n)%nat → demultiplex n written = Some lines) ∧
  ∀ attrs line, attrs ≠ [] →
    ∃ shown, Cut (appendLogAttrs attrs +:+ " " +:+ line) " " = (shown, line, true) ∧
      parse_details shown = Some (sort_by la_Key attrs).
Proof.
  intros lines Hlines. split.
  - eexists. split; [apply write_service_spec|]. intros n Hn. by apply demultiplex_frames.
  - intros attrs line Hne. exists (appendLogAttrs attrs). split; [|by apply details_read_back].
    apply (Cut_char " "), appendLogAttrs_no_space.
Qed.

(** The same for a container, without attributes; with a terminal the lines are written as
    they are. *)
Theorem container_logs_read_back timestamps messages :
  (∀ m, m ∈ before_error messages → from_stdout m) →
  let lines := container_line timestamps <$> before_error messages in
  Forall (λ line, Z.of_nat (len line) < 2 ^ 32)%Z lines →
  write_container_logs true true timestamps messages = (String.concat "" lines, first_error messages) ∧
  ∃ written, write_container_logs false true timestamps messages = (written, first_error messages) ∧
    ∀ n, (length lines ≤ n)%nat → demultiplex n written = Some lines.
Proof.
  intros Hout lines Hlines. rewrite !write_container_spec by done. split; [by rewrite list_fmap_id|].
  eexists. split; [done|]. intros n Hn. by apply demultiplex_frames.
Qed.

(** ** Which output is asked for *)

(** The requests to the cluster are seen somewhere in the history. *)
Definition seen (P : hist → Prop) (h : history lcmd) : Prop :=
  ∃ after hc before, h = (after ++ map (embed_event OnPods) hc ++ before)%list ∧ P hc.

Lemma seen_later P h h' : h `suffix_of` h' → seen P h → seen P h'.
Proof. intros [l ->] (after & hc & before & -> & HP). exists (l ++ after)%list, hc, before. by rewrite <- app_assoc. Qed.

Definition logs_rely : rely (cmd := lcmd) := λ _ X c,
  match c in lcmd X return X → Prop with OnPods _ c => api_rely [] _ c | GetLogs _ _ _ => λ _, True end.

Lemma wp_on_pods {A} (G : guard (cmd := cmd)) (G' : guard (cmd := lcmd)) (p : proc A) h P :
  (∀ hc h X (c : cmd X), G hc _ c → G' (map (embed_event OnPods) hc ++ h)%list _ (OnPods _ c)) →
  wp api_rely G p [] P →
  wp logs_rely G' (on_pods p) h (λ h' a, seen (λ hc, P hc a) h' ∧ h `suffix_of` h').
Proof.
  intros HG Hp. eapply wp_post; [|refine (wp_embed OnPods api_rely G _ _ _ _ h [] _ _ Hp)].
  - intros h' a (hc & -> & HP). split; [|by exists (map (embed_event OnPods) hc)]. by exists [], hc, h.
  - by intros h1 h2 X [] x Hx.
  - intros h1 X c Hc. by apply HG.
Qed.

Section services.
Context `{Unicode} `{ServiceCodec} `{NetworkOrderLaws} `{PodOrderLaws}.

Definition of_service (d : Deployment) (pod : Pod) : Prop :=
  mget (Labels pod) "app" = Name d ∧ DeletionTimestamp pod = None.
#[local] Instance of_service_dec d pod : Decision (of_service d pod).
Proof. unfold of_service. apply _. Defined.
Definition of_task (task : Task) (pod : Pod) : Prop := Name pod = tk_Name task.
#[local] Instance of_task_dec task pod : Decision (of_task task pod).
Proof. unfold of_task. apply _. Defined.

(** The task that an identifier stands for. *)
Definition task_found (ns id : string) (task : Task) (h : hist) : Prop :=
  ∃ all, tasks_listed ns false all h ∧ filter (λ t, HasPrefix (tk_ID t) id = true) all = [task].

(** The Pods that are asked for: the listed ones of each service, unless they are being
    deleted, and of each task. *)
Definition selection (ns : string) (selector : LogSelector) (pods : list Pod) (h : hist) : Prop :=
  ∃ (listed : list Pod) ds ts,
    Event _ (KList KPod ns swarmServiceSelector) (Ok listed) ∈ h ∧
    Forall2 (λ name (d : Deployment), swarm_found (k := KDeployment) ns swarmServiceKind name d h) (sel_Services selector) ds ∧
    Forall2 (λ id task, task_found ns id task h) (sel_Tasks selector) ts ∧
    pods = (flat_map (λ d : Deployment, filter (of_service d) listed) ds ++
            flat_map (λ task, filter (of_task task) listed) ts)%list.

Lemma task_found_mono ns id task h h' : h `suffix_of` h' → task_found ns id task h → task_found ns id task h'.
Proof. intros Hs (all & Hall & Hin). exists all. split; [by eapply tasks_listed_mono|done]. Qed.

Lemma filter_decided {A} (f : A → bool) (P : A → Prop) `{∀ x, Decision (P x)} (l : list A) :
  (∀ x, f x = true ↔ P x) → List.filter f l = filter P l.
Proof.
  intros HP. induction l as [|x l IH]; [done|]. cbn [List.filter]. destruct (f x) eqn:E.
  - rewrite filter_cons_True by by apply HP. by rewrite IH.
  - rewrite filter_cons_False; [done|]. intros Hx%HP. congruence.
Qed.

Lemma service_pods_wp id pods names h :
  wp api_rely (listing_requests (id_namespace id)) (service_pods (Some id) pods names) h (λ h' r,
    match r with
    | Ok selected => ∃ ds, selected = flat_map (λ d : Deployment, filter (of_service d) pods) ds ∧
        Forall2 (λ name (d : Deployment), swarm_found (k := KDeployment) (id_namespace id) swarmServiceKind name d h') names ds
    | Err _ => True
    end).
Proof.
  revert h. induction names as [|name names IH]; intros h; cbn [service_pods]; [by exists []|].
  rewrite wp_bind_res. eapply wp_mono; [| |apply (find_swarm_wp KDeployment swarmServiceKind id name h)].
  { intros h' X c. destruct c; simpl; try done; [by intros [_ ->]|]. intros (_ & -> & _). by left. }
  intros h1 [d|e]; [|done]. intros Hd. rewrite wp_bind_res. eapply wp_post; [|apply wp_suffix, IH].
  intros h2 [selected|e] [Hr Hs]; [|done]. destruct Hr as (ds & -> & Hds). rewrite wp_ret. exists (d :: ds). split.
  - simpl. f_equal. apply filter_decided. intros pod. rewrite andb_true_iff, negb_true_iff, bool_decide_eq_true, bool_decide_eq_false.
    unfold of_service. by rewrite <- eq_None_not_Some.
  - constructor; [by eapply swarm_found_mono|done].
Qed.

Lemma task_pods_wp id pods ids h :
  wp api_rely (listing_requests (id_namespace id)) (task_pods (Some id) pods ids) h (λ h' r,
    match r with
    | Ok selected => ∃ ts, selected = flat_map (λ task, filter (of_task task) pods) ts ∧
        Forall2 (λ i task, task_found (id_namespace id) i task h') ids ts
    | Err _ => True
    end).
Proof.
  revert h. induction ids as [|i ids IH]; intros h; cbn [task_pods]; [by exists []|].
  rewrite wp_bind_res. eapply wp_post; [|apply GetTask_wp]. intros h1 [task|e]; [|done]. intros Ht.
  destruct (Ht task eq_refl) as (_ & Hfound). rewrite wp_bind_res. eapply wp_post; [|apply wp_suffix, IH].
  intros h2 [selected|e] [Hr Hs]; [|done]. destruct Hr as (ts & -> & Hts). rewrite wp_ret. exists (task :: ts). split.
  - simpl. f_equal. apply filter_decided. intros pod. by rewrite bool_decide_eq_true.
  - constructor; [|done]. by eapply task_found_mono.
Qed.

Lemma selectedPods_wp id selector h :
  wp api_rely (listing_requests (id_namespace id)) (selectedPods (Some id) (id_namespace id) selector) h (λ h' r,
    ∀ pods, r = Ok pods → selection (id_namespace id) selector pods h').
Proof.
  unfold selectedPods. rewrite wp_bind, wp_call. split; [by left|]. intros [listed|e] _; [|done].
  rewrite wp_bind_res. eapply wp_post; [|apply wp_suffix, service_pods_wp].
  intros h1 [services|e] [Hr Hs1]; [|done]. destruct Hr as (ds & -> & Hds).
  rewrite wp_bind_res. eapply wp_post; [|apply wp_suffix, task_pods_wp].
  intros h2 [tasks|e] [Hr Hs2]; [|done]. destruct Hr as (ts & -> & Hts). rewrite wp_ret. intros pods [= <-].
  exists listed, ds, ts. split_and!; [|..|done|done].
  - eapply suffix_elem; [exact Hs2|]. eapply suffix_elem; [exact Hs1|]. by left.
  - eapply Forall2_impl; [exact Hds|]. intros name d Hd. by eapply swarm_found_mono.
Qed.

(** A task of the namespace, by name. *)
Definition task_named (ns : string) (all : list Task) (name : string) (task : Task) (h : hist) : Prop :=
  tasks_listed ns false all h ∧ task ∈ all ∧ tk_Name task = name.

(** What the methods ask for: reads of the namespace, and the output of the service's
    container in Pods that are asked for. *)
Definition service_log_requests (ns : string) (selector : LogSelector) : guard (cmd := lcmd) := λ h _ c,
  match c with
  | OnPods _ c => ∃ hc before, h = (map (embed_event OnPods) hc ++ before)%list ∧ listing_requests ns hc _ c
  | GetLogs ns' podName o =>
      ns' = ns ∧ pl_Timestamps o = true ∧
      ∃ pods (pod : Pod) all task c,
        seen (selection ns selector pods) h ∧ pod ∈ pods ∧ Name pod = podName ∧
        seen (task_named ns all podName task) h ∧ pl_Container o = task_service task ∧
        c ∈ pod_Containers pod ∧ Ctr_Name c = pl_Container o
  end.

(** A stream of a Pod, with the attributes of its task. *)
Definition stream_of (ns : string) (all : list Task) (h : history lcmd) (pod : Pod) (s : log_stream * list LogAttr) : Prop :=
  (∃ task, task ∈ all ∧ tk_Name task = Name pod ∧ s.2 = task_attrs task) ∧
  ∃ o, Event _ (GetLogs ns (Name pod) o) (Ok (ls_Stream s.1)) ∈ h.

Lemma podLogs_wp (G : guard (cmd := lcmd)) ns (pod : Pod) name options h :
  (∀ o c, pl_Timestamps o = true → pl_Container o = name → c ∈ pod_Containers pod → Ctr_Name c = name →
     G h _ (GetLogs ns (Name pod) o)) →
  wp logs_rely G (podLogs ns pod name options) h (λ h' r, h `suffix_of` h' ∧
    ∀ s, r = Ok s → ∃ o, Event _ (GetLogs ns (Name pod) o) (Ok (ls_Stream s)) ∈ h').
Proof.
  intros HG. unfold podLogs. destruct options as [options|]; [|done].
  destruct (named_container _ _) as [c|e] eqn:Ec; [|done]. unfold named_container in Ec.
  destruct (List.find _ (pod_Containers pod)) as [c'|] eqn:Efind; [|done]. injection Ec as ->.
  apply find_some in Efind as [Hc Hname%bool_decide_eq_true].
  destruct (_ && _); [done|]. destruct (tail_lines _) as [tail|e]; [|done].
  rewrite wp_bind, wp_call. split; [by eapply HG; [| |apply list_elem_of_In|]|]. intros [stream|e] _; rewrite wp_ret.
  - split; [by apply suffix_cons_r|]. intros s [= <-]. eexists. by left.
  - split; [by apply suffix_cons_r|done].
Qed.

Lemma tasks_by_pod_in tasks name task : tasks_by_pod tasks !! name = Some task → task ∈ tasks ∧ tk_Name task = name.
Proof.
  unfold tasks_by_pod. intros Hl%elem_of_list_to_map_2. apply list_elem_of_In, in_rev, list_elem_of_In in Hl.
  apply list_elem_of_fmap in Hl as (t & [= -> ->] & Hin). done.
Qed.

Lemma stream_of_later ns all h h' pod s : h `suffix_of` h' → stream_of ns all h pod s → stream_of ns all h' pod s.
Proof. intros Hs [Ht [o Ho]]. split; [done|]. exists o. by eapply event_later. Qed.

Lemma open_streams_wp ns selector options tasks pods l h :
  seen (selection ns selector pods) h → seen (tasks_listed ns false tasks) h → (∀ pod, pod ∈ l → pod ∈ pods) →
  wp logs_rely (service_log_requests ns selector) (open_streams ns options (tasks_by_pod tasks) l) h (λ h' r,
    h `suffix_of` h' ∧ ∀ streams, r = Ok streams → Forall2 (stream_of ns tasks h') l streams).
Proof.
  intros Hsel Htasks. revert h Hsel Htasks. induction l as [|pod l IH]; intros h Hsel Htasks Hl; cbn [open_streams].
  { rewrite wp_ret. split; [done|]. intros streams [= <-]. constructor. }
  destruct (tasks_by_pod tasks !! Name pod) as [task|] eqn:Etask; [|done].
  apply tasks_by_pod_in in Etask as [Hin Hname]. rewrite wp_bind_res.
  eapply wp_post; [|apply podLogs_wp].
  2: { intros o c Hts Hcont Hc Hcname. cbn. split_and!; [done..|]. exists pods, pod, tasks, task, c.
       split_and!; [done|apply Hl; by left|done| |exact Hcont|done|by rewrite Hcont].
       destruct Htasks as (after & hc & before & -> & Ht). by exists after, hc, before. }
  intros h1 [s|e] [Hs1 Hs]; [|by split]. destruct (Hs s eq_refl) as [o Ho]. rewrite wp_bind_res.
  eapply wp_post; [|apply IH; [by eapply seen_later..|set_solver]].
  intros h2 [streams|e] [Hs2 Hr]; [|split; [by etrans|done]]. rewrite wp_ret. split; [by etrans|].
  intros ? [= <-]. constructor; [|by apply Hr]. split; [by exists task|]. exists o. by eapply event_later.
Qed.

(** the log of a service is that of its own Pods.  Without a selection or an identity
    there is none.  Otherwise only the tenant's namespace is read (and missing predefined
    networks are created), and the output of no container is asked for but the service's in
    a Pod that is asked for: a listed Pod of one of the services, unless it is being
    deleted, or of one of the tasks.  When the streams are returned, there is one for each
    of these Pods, and at least one, and each has the attributes of the task of its Pod. *)
Theorem service_logs_confined ctx selector options h h' r :
  exec (ServiceLogs ctx selector options) h h' r → answered logs_rely h h' →
  match ctx, selector with
  | Some id, Some selector =>
      guarded (service_log_requests (id_namespace id) selector) h h' ∧
      ∀ streams, r = Ok streams → streams ≠ [] ∧ ∃ pods all,
        seen (selection (id_namespace id) selector pods) h' ∧
        seen (tasks_listed (id_namespace id) false all) h' ∧
        Forall2 (stream_of (id_namespace id) all h') pods streams
  | _, _ => h' = h ∧ ∃ e, r = Err e
  end.
Proof.
  intros Hex Hans. destruct selector as [selector|].
  2: { apply exec_inv in Hex as [-> ->]. by destruct ctx; split; [|eexists| |eexists]. }
  destruct ctx as [id|].
  2: { unfold ServiceLogs in Hex. destruct (_ && _); apply exec_inv in Hex as [-> ->]; split; try done; by eexists. }
  apply and_comm. refine (wp_exec _ _ _ _ _ _ (λ h' r, ∀ streams, r = Ok streams → _) _ Hex Hans). clear Hex Hans h' r.
  unfold ServiceLogs. destruct (_ && _); [done|]. cbn [swarm_namespace]. rewrite wp_bind_res.
  assert (∀ hc h X (c : cmd X), listing_requests (id_namespace id) hc X c →
    service_log_requests (id_namespace id) selector (map (embed_event OnPods) hc ++ h)%list _ (OnPods _ c)) as HG.
  { intros hc h1 X c Hc. by exists hc, h1. }
  eapply wp_post; [|eapply wp_on_pods; [exact HG|apply selectedPods_wp]].
  intros h1 [pods|e] [(after & hc & before & -> & Hsel) Hs1]; [|done]. specialize (Hsel pods eq_refl).
  assert (seen (selection (id_namespace id) selector pods) (after ++ map (embed_event OnPods) hc ++ before)%list) as Hseen.
  { by exists after, hc, before. }
  clear Hsel. generalize dependent (after ++ map (embed_event OnPods) hc ++ before)%list. intros h1 Hs1 Hsel.
  destruct (bool_decide_reflect (pods = [])) as [_|Hpods]; [done|]. rewrite wp_bind_res.
  eapply wp_post; [|eapply wp_on_pods; [exact HG|apply list_tasks_wp]].
  intros h2 [tasks|e] [Htasks Hs2]; [|done].
  assert (seen (tasks_listed (id_namespace id) false tasks) h2) as Ht.
  { destruct Htasks as (after2 & hc2 & before2 & -> & Ht). by exists after2, hc2, before2. }
  eapply wp_post; [|apply (open_streams_wp _ selector options tasks pods pods h2); [by eapply seen_later|done|done]].
  intros h3 r [Hs3 Hr] streams ->. specialize (Hr streams eq_refl). split.
  - intros ->. by inversion Hr.
  - exists pods, tasks. split_and!; [|by eapply seen_later|done]. eapply seen_later; [exact Hs3|]. by eapply seen_later.
Qed.
End services.

Section containers.
Context `{Validation}.

(** What a container's log asks for: reads of the namespace, and the output of the container
    in the first Pod, or the first running one, of those that have its label. *)
Definition container_log_requests (ns name : string) : guard (cmd := lcmd) := λ h _ c,
  match c with
  | OnPods _ c => reads_in ns [] _ c
  | GetLogs ns' podName o =>
      ns' = ns ∧ pl_Timestamps o = true ∧
      ∃ (w : containerWorkload) (pods : list Pod) pod c,
        Namespace w = ns ∧ found_by name w ∧ pl_Container o = Name w ∧
        Event _ (OnPods _ (KList KPod ns (app_selector w))) (Ok pods) ∈ h ∧
        fold_left select_pod pods None = Some pod ∧ podName = Name pod ∧
        c ∈ pod_Containers pod ∧ Ctr_Name c = Name w
  end.

(** The Pod that is chosen is listed, and runs if one of them does. *)
Lemma select_pod_spec pods pod :
  fold_left select_pod pods None = Some pod →
  pod ∈ pods ∧ (Phase pod = "Running" ∨ ∀ p, p ∈ pods → Phase p ≠ "Running").
Proof.
  assert (∀ l current, fold_left select_pod l (Some current) = Some pod →
    (pod = current ∨ pod ∈ l) ∧
    (Phase pod = "Running" ∨ (Phase current ≠ "Running" ∧ ∀ p, p ∈ l → Phase p ≠ "Running"))) as Hgen.
  { induction l as [|p l IH]; intros current; simpl.
    - intros [= <-]. split; [by left|]. destruct (decide (Phase current = "Running")); [by left|right; set_solver].
    - destruct (bool_decide_reflect (Phase p = "Running")) as [Hp|Hp], (bool_decide_reflect (Phase current = "Running")) as [Hc|Hc];
        simpl; intros Hfold; destruct (IH _ Hfold) as [Hin Hphase]; set_solver. }
  destruct pods as [|p pods]; [done|]. simpl. intros Hfold. destruct (Hgen _ _ Hfold). set_solver.
Qed.

(** The log of a container is asked for in the tenant's namespace, of a container that
    the name finds, in a Pod that runs if one of the listed does; the request is refused
    if the streams cannot be told apart as asked. *)
Theorem container_logs_confined ctx name options h h' r :
  exec (ContainerLogs ctx name options) h h' r → answered logs_rely h h' →
  match ctx with
  | Some id =>
      guarded (container_log_requests (id_namespace id) name) h h' ∧
      ((∃ s, r = Ok s) → ∃ o, options = Some o ∧
         lo_Details o = false ∧ lo_ShowStdout o = true ∧ lo_ShowStderr o = true ∧
         ~ (lo_Follow o = true ∧ lo_Until o ≠ 0%Z))
  | None => h' = h ∧ ∃ e, r = Err e
  end.
Proof.
  intros Hex Hans. destruct ctx as [id|]; [|apply exec_inv in Hex as [-> ->]; split; [done|by eexists]].
  apply and_comm. refine (wp_exec _ _ _ _ _ _ (λ h' r, (∃ s, r = Ok s) → _) _ Hex Hans). clear Hex Hans h' r.
  unfold ContainerLogs. rewrite wp_bind_res.
  assert (∀ hc h X (c : cmd X), reads_in (id_namespace id) hc X c →
    container_log_requests (id_namespace id) name (map (embed_event OnPods) hc ++ h)%list _ (OnPods _ c)) as HG.
  { intros hc h1 X c Hc. by destruct c. }
  eapply wp_post; [|eapply wp_on_pods; [exact HG|apply findContainer_wp]].
  intros h1 [w|e] [Hw Hs]; [|by intros [? ?]]. destruct Hw as (_ & _ & _ & _ & _ & Hns & Hfound).
  destruct options as [o|]; [|by intros [? ?]].
  destruct (lo_Details o) eqn:Ed; [by intros [? ?]|]. destruct (lo_ShowStdout o) eqn:Eo; [|by intros [? ?]].
  destruct (lo_ShowStderr o) eqn:Ee; [|by intros [? ?]]. cbn [negb orb]. rewrite Hns, wp_bind, wp_call. split; [done|].
  intros [pods|e] _; [|by intros [? ?]]. destruct (fold_left select_pod pods None) as [pod|] eqn:Epod; [|by intros [? ?]].
  destruct (named_container _ _) as [c|e] eqn:Ec; [|by intros [? ?]]. rewrite wp_bind_res.
  unfold podLogs. rewrite Ec. destruct (negb _ && _) eqn:Efollow; [by intros [? ?]|].
  destruct (tail_lines _) as [tail|e]; [|by intros [? ?]]. rewrite wp_bind, wp_call.
  unfold named_container in Ec. destruct (List.find _ (pod_Containers pod)) as [c'|] eqn:Efind; [|done].
  injection Ec as ->. apply find_some in Efind as [Hc Hname%bool_decide_eq_true]. split.
  - cbn. split_and!; [done..|]. exists w, pods, pod, c. split_and!; try done; [by left|by apply list_elem_of_In].
  - intros [stream|e] _; [|by intros [? ?]]. intros _. exists o. split_and!; try done.
    intros [Hf Hu]. by rewrite Hf, (proj2 (Z.eqb_neq _ _)) in Efollow.
Qed.
End containers.

(** ** Concrete inputs *)

#[local] Existing Instances demo_validation ascii_unicode demo_network_order demo_network_order_laws demo_service_codec
  demo_pod_order demo_pod_order_laws.

Definition log_handle X (c : lcmd X) (s : cluster * nat) : X * (cluster * nat) :=
  match c in lcmd X return X * (cluster * nat) with
  | OnPods _ c => let '(x, after) := handle _ c s.1 in (x, (after, s.2))
  | GetLogs _ _ _ => (Ok s.2, (s.1, S s.2))
  end.

Definition simulate_logs {A} (p : lproc A) (s : cluster) : A * history lcmd * (cluster * nat) :=
  run log_handle p [] (s, 1).

Lemma simulate_logs_answered {A} (p : lproc A) s : answered logs_rely [] (simulate_logs p s).1.2.
Proof.
  apply run_answered. intros h X [Y c|ns pod o] [s' n]; [|done].
  pose proof (handle_rely [] Y c s') as Hc. cbn in *. by destruct (handle Y c s').
Qed.

Definition container_named (name : string) (tty : bool) : Container := {|
  Ctr_Name := name; Ctr_Image := "app"; Ctr_Command := []; Ctr_Args := []; Ctr_WorkingDir := ""; Ctr_Ports := [];
  Ctr_Env := []; Ctr_Resources := {| Limits := ∅; Requests := ∅ |}; Ctr_VolumeMounts := [];
  Ctr_ReadinessProbe := None; Ctr_TTY := tty; Ctr_Stdin := false; Ctr_ImagePullPolicy := "";
  Ctr_SecurityContext := None |}.

Definition shop_log_pod (name uid : string) (owners : list OwnerReference) (phase : string) (created : Z) : Pod :=
  let pod := shop_pod name uid "new" created in {|
  pod_meta := {| Name := name; Namespace := "acme"; UID := uid; ResourceVersion := "9"; Generation := 1;
    Labels := Labels pod; Annotations := ∅; OwnerReferences := owners; DeletionTimestamp := None;
    CreationTimestamp := created |};
  Phase := phase; pod_Volumes := []; pod_Containers := [container_named "shop" false]; NodeName := "node-1";
  PodIP := "10.0.0.7"; StartTime := None; Pod_Message := ""; Pod_Reason := ""; ContainerStatuses := [] |}.

Definition log_cluster : cluster :=
  set_db KPod [shop_log_pod "shop-b" "b1" [] "Running" 20; shop_log_pod "shop-c" "c1" [] "Running" 30] shop_cluster.

Definition demo_log_options : LogsOptions := {|
  lo_ShowStdout := true; lo_ShowStderr := true; lo_Since := 0; lo_Until := 0; lo_Follow := false;
  lo_Timestamps := false; lo_Tail := "all"; lo_Details := false |}.

Definition demo_service_logs : lproc (res (list (log_stream * list LogAttr))) :=
  ServiceLogs (Some acme_identity) (Some {| sel_Services := ["shop"]; sel_Tasks := [] |}) (Some demo_log_options).

Definition opened (streams : res (list (log_stream * list LogAttr))) : list nat :=
  match streams with Ok streams => ls_Stream ∘ fst <$> streams | Err _ => [] end.

Lemma service_logs_confined_witness :
  opened (simulate_logs demo_service_logs log_cluster).1.1 = [1; 2] ∧
  guarded (service_log_requests "acme" {| sel_Services := ["shop"]; sel_Tasks := [] |}) []
    (simulate_logs demo_service_logs log_cluster).1.2.
Proof.
  split; [by vm_compute|].
  exact (proj1 (service_logs_confined (Some acme_identity) (Some _) _ [] _ _
    (run_exec log_handle demo_service_logs [] (log_cluster, 1)) (simulate_logs_answered demo_service_logs log_cluster))).
Defined.

#[local] Instance demo_log_times : TimeParse := {|
  Parse_RFC3339Nano s := if bool_decide (s = "2024") then Some 7%Z else None;
  ParseFloat_seconds _ := None; ParseDuration _ := None |}.

(** Two tasks: one wrote two lines, the last without its newline, and the other one none
    before an error. *)
Definition demo_streams : list (Z * list LogAttr * output) :=
  [(0%Z, [{| la_Key := "task"; la_Value := "1" |}],
    {| out_Content := "2024 hello" +:+ String "010" "lost stamp"; out_Ending := None |});
   (0%Z, [], {| out_Content := ""; out_Ending := Some (errors_New "broken") |})].

(** The first line has been received; the reader is at the second one. *)
Definition after_first_line : merging :=
  let first := tag_message [{| la_Key := "task"; la_Value := "1" |}]
                 (log_message ("2024 hello" +:+ String "010" "")) in
  {| pipes := [{| p_reader := Reading "lost stamp"; p_tagger := Ready; p_sender := Ready |};
               start_pipe {| out_Content := ""; out_Ending := Some (errors_New "broken") |}];
     received := [(0, first)]; ctx_done := false; merged_closed := false |}.


Lemma after_first_line_reachable : merge_reachable demo_streams after_first_line.
Proof.
  unfold merge_reachable.
  etrans; [apply rtc_once; eapply (merge_pipe _ _ 0); [done|done|apply pipe_read]|].
  etrans; [apply rtc_once; eapply (merge_pipe _ _ 0); [done|done|apply pipe_offer]|].
  etrans; [apply rtc_once; eapply (merge_pipe _ _ 0); [done|done|apply pipe_pass]|].
  etrans; [apply rtc_once; eapply (merge_pipe _ _ 0); [done|done|apply pipe_send]|].
  done.
Qed.

Lemma service_logs_in_order_witness :
  (lm_Line <$> of_stream 0 (received after_first_line)) = ["hello" +:+ String "010" ""] ∧
  ∃ messages,
    brings (0%Z, [{| la_Key := "task"; la_Value := "1" |}],
            {| out_Content := "2024 hello" +:+ String "010" "lost stamp"; out_Ending := None |}) messages ∧
    of_stream 0 (received after_first_line) `prefix_of` messages.
Proof.
  split; [by vm_compute|].
  destruct (service_logs_in_order demo_streams after_first_line 0 after_first_line_reachable)
    as (messages & Hb & Hp & _).
  by exists messages.
Defined.

Lemma service_logs_end_witness : sn (merge_step demo_streams) after_first_line.
Proof. exact (proj1 (service_logs_end demo_streams after_first_line after_first_line_reachable)). Defined.

Definition demo_message : LogMessage := {|
  lm_Source := "stdout"; lm_Line := "hello"; lm_Timestamp := 7; lm_Err := None;
  lm_Attrs := [{| la_Key := "b"; la_Value := "x,y=z" |}; {| la_Key := "a"; la_Value := "1 2" |}] |}.

Lemma service_logs_read_back_witness :
  service_line true false demo_message = "a=1+2,b=x%2Cy%3Dz hello" ∧
  ∃ written, write_service_logs true false [demo_message] = (written, None) ∧
    demultiplex 1 written = Some ["a=1+2,b=x%2Cy%3Dz hello"].
Proof.
  split; [by vm_compute|].
  destruct (service_logs_read_back true false [demo_message]) as [(written & Hw & Hr) _].
  - repeat constructor; by vm_compute.
  - exists written. split; [exact Hw|]. exact (Hr 1 (le_n _)).
Defined.

Lemma container_logs_read_back_witness :
  write_container_logs true true false [demo_message] = ("hello", None).
Proof.
  exact (proj1 (container_logs_read_back false [demo_message]
    ltac:(by intros m ->%list_elem_of_singleton) ltac:(repeat constructor; by vm_compute))).
Defined.

(** *** The log of another container *)

Definition shop_job : Job := {|
  job_meta := {| Name := "shop"; Namespace := "acme"; UID := "job-1"; ResourceVersion := "7"; Generation := 3;
    Labels := {["app" := "shop"]}; Annotations := {[containerConfigAnnotation := "{}"]}; OwnerReferences := [];
    DeletionTimestamp := None; CreationTimestamp := 5 |};
  Suspend := None; BackoffLimit := None; TTLSecondsAfterFinished := None;
  job_Template := {| Pod_Labels := ∅; Pod_Annotations := ∅; Pod_Spec := empty_spec |}; Conditions := []; Active := 0 |}.

Definition job_pod : Pod :=
  shop_log_pod "shop-x" "x1" [ownerReference (jobWorkload shop_job)] "Succeeded" 10.

(** The one-shot container shop has ended; the service of the same name runs. *)
Definition shared_name_cluster : cluster :=
  set_db KPod [job_pod; shop_log_pod "shop-c" "c1" [] "Running" 30] (set_db KJob [shop_job] shop_cluster).

Definition demo_container_logs : lproc (res (log_stream * bool)) :=
  ContainerLogs (Some acme_identity) "shop" (Some demo_log_options).

Definition requested (h : history lcmd) : list string :=
  omap (λ e, match ev_cmd e with GetLogs _ pod _ => Some pod | OnPods _ _ => None end) h.

(** The container is found, and only the Pod [shop-x] is its own; the log is that of the
    service's Pod. *)
Lemma logs_of_another_pod :
  (simulate (findContainer (Some acme_identity) "shop") shared_name_cluster).1.1 = Ok (jobWorkload shop_job) ∧
  (simulate (containerPods (jobWorkload shop_job)) shared_name_cluster).1.1 = Ok [job_pod] ∧
  (simulate_logs demo_container_logs shared_name_cluster).1.1 = Ok ({| ls_Stream := 1; ls_Until := 0 |}, false) ∧
  requested (simulate_logs demo_container_logs shared_name_cluster).1.2 = ["shop-c"].
Proof. split_and!; by vm_compute. Qed.

Lemma container_logs_confined_witness :
  guarded (container_log_requests "acme" "shop") [] (simulate_logs demo_container_logs shared_name_cluster).1.2.
Proof.
  exact (proj1 (container_logs_confined (Some acme_identity) "shop" (Some demo_log_options) [] _ _
    (run_exec log_handle demo_container_logs [] (shared_name_cluster, 1))
    (simulate_logs_answered demo_container_logs shared_name_cluster))).
Defined.
